(* ===== verification/_CoqProject ===== *)
-Q . S2P
Prelude.v
Channels.v
Domain.v
Protocol.v
ProtocolFacts.v
ProtocolFrame.v
ProtocolInv.v
ProtocolHandlers.v
ProtocolSafety.v
ProtocolRefinement.v
ProtocolTheorems.v
ProtocolEffects.v
TvCoordinator.v
TvRun.v
SwitchGate.v
SwitchGateTheorems.v
SwitchClient.v
Bytes.v
ClipTypes.v
ClipCoordinator.v
ClipCoordinatorTheorems.v
ClipFrame.v
ClipFrameCodec.v
ClipFrameTheorems.v
ClipActor.v
ClipActorTheorems.v
ClipActorClaims.v
ProtoWire.v
ProtoWireTheorems.v
Scancode.v
CaptureQueue.v
Emulation.v
InputCapture.v
CaptureTask.v
CaptureTaskTheorems.v
CaptureTaskClaims.v
Clients.v
Service.v
ServiceTheorems.v
ServiceEvents.v
ServiceClaims.v
ServiceBarriers.v
ServiceRun.v
EmulationTask.v
EmulationTaskTheorems.v
EmulationListen.v
TvConfig.v
HttpApi.v
HttpAgreement.v
SsapCodec.v
Ssap.v
SsapTheorems.v
ClipTransport.v
ClipTransportTheorems.v
ClipManager.v
ClipManagerTheorems.v
ClipRuntime.v
ClipRuntimeLogic.v
ClipRuntimeInv.v
ClipRuntimeTheorems.v
ClipRuntimeHooks.v
ClipRuntimeRun.v
PeerConn.v
PeerConnTheorems.v
PeerListen.v
PeerListenTheorems.v
Dns.v
ServicePeers.v
LanConfig.v
LanConfigTheorems.v
MachineNumbers.v
WindowsCapture.v
WindowsCaptureTheorems.v
LayerShell.v
LayerShellTheorems.v
LibeiCapture.v
LibeiCaptureTheorems.v
WlrootsEmulation.v
LibeiEmulation.v
WindowsEmulation.v
