(* ===== verification/Prelude.v ===== *)
(** * DisplayMux: a verification development

    DisplayMux lets several computers share one keyboard, pointer and
    television.  Two programs do the work.  _tv-multiview_ is the controller: it
    knows which computer owns the inputs, switches the television and grants
    changes of owner.  _lan-mouse_ runs on every computer: it captures local
    input at the edges of the screen, sends it to a peer while it holds a lease,
    emulates the input it receives, and moves the clipboard along with the
    input.  The service of lan-mouse asks the controller for a grant before its
    capture may leave the computer, renews the lease while the input is away,
    and gives it up when anything fails.

    ** Correspondence

    The files model the Rust sources under src/, with the names of the source
    where Rocq allows them.

    - Controller.  [Domain] is tv-multiview/src/domain.rs (hosts, leases, phases,
      the state and its runtime check).  [Protocol] is protocol.rs: the
      transition function [apply] with every event handler, over a sum of
      results, errors and panics.  [ProtocolFacts], [ProtocolFrame],
      [ProtocolInv], [ProtocolHandlers] hold its invariant and one preservation
      lemma per handler, [ProtocolSafety], [ProtocolRefinement],
      [ProtocolTheorems], [ProtocolEffects] its theorems.  [Channels],
      [TvCoordinator] and [TvRun] are coordinator.rs: queues with their gauges,
      the dispatch of effects, and the task's loop one iteration at a time.
    - Switching in lan-mouse.  [SwitchGate] and [SwitchClient] are switch.rs: the
      lease of the input bundle, the double touch of an edge, and the client of
      the controller's HTTP interface.  [Clients] is client.rs.  [Service] is
      service.rs: every handler in a state monad whose outputs are the calls of
      other tasks; [ServiceTheorems] has a logic for its methods over a view of
      the state and, with [ServiceEvents], the lease invariant,
      [ServiceBarriers] the barriers, [ServiceClaims] and [ServiceRun] the
      theorems on runs.
    - Capture and emulation.  [CaptureTask] is capture.rs: the permit gate and
      the task as steps over a session.  [InputCapture] and [CaptureQueue] are
      input-capture, [Emulation] is input-emulation, [Scancode] and [ProtoWire]
      are input-event and lan-mouse-proto.  [EmulationTask] is emulation.rs: the
      listen task and the emulation task as machines that take one input at a
      time, with [EmulationTaskTheorems] and [EmulationListen].
    - Platform capture.  [WindowsCapture] is input-capture/src/windows.rs with
      event_thread.rs and display_util.rs: both hooks, the message loop and the
      geometry of the displays, over the queue of [CaptureQueue];
      [WindowsCaptureTheorems] its theorems.  [LayerShell] is layer_shell.rs: the
      state of the Wayland backend with every event handler;
      [LayerShellTheorems] its theorems.  [LibeiCapture] is libei.rs of
      input-event and of input-capture: the futures of the task from await to
      await, with [LibeiCaptureTheorems].  [MachineNumbers] has their arithmetic.
    - Platform emulation, as instances of the trait of [Emulation].
      [WlrootsEmulation] is wlroots.rs, [WindowsEmulation] is windows.rs, and
      [LibeiEmulation] is libei.rs and xdg_desktop_portal.rs, each with its
      theorems.
    - Peers.  [PeerConn] is connect.rs: attempts, pings, receive loops and sends
      as tasks that run from one await to the next over a shared state.
      [PeerListen] is listen.rs and the fingerprints of crypto.rs, [Dns] is
      dns.rs.  [PeerConnTheorems] and [PeerListenTheorems] hold their theorems,
      and [ServicePeers] runs the service and the connection tasks over the same
      clients.  [LanConfig] is lan-mouse/src/config.rs: the file, its validation,
      the conversions of clients, saving and watching, with [LanConfigTheorems].
    - The controller's surroundings.  [TvConfig] is config.rs, observability.rs and
      the first state of main.rs; [HttpApi] is http.rs over a class of
      coordinator operations with its theorems, and [HttpAgreement]
      runs lan-mouse's client against it.  [SsapCodec] and [Ssap] are ssap/: the
      messages, requests and sessions with the television over a scripted
      socket; [SsapTheorems] their theorems.
    - Clipboard.  [ClipTypes], [ClipCoordinator], [ClipFrame] (with
      [ClipFrameCodec]) and [ClipActor] are the data, the handoff coordinator,
      the wire format and the actor of lan-mouse-clipboard.  [ClipTransport] is
      its tls.rs and transport.rs: fingerprints, authentication, the registry and
      its fences, and the queues, writer and reader of a connection.
      [ClipManager] is lan-mouse/src/clipboard_transport.rs: the validation of
      what arrives, the task of a connection, the manager and the handshakes.
      [ClipRuntime] is lan-mouse/src/clipboard.rs: the runtime core in a state
      monad with a log of outputs, and the loop of its task.  [ClipRuntimeLogic]
      is a logic for the core's methods, [ClipRuntimeInv], [ClipRuntimeTheorems]
      and [ClipRuntimeHooks] their invariants, one lemma per method, and
      [ClipRuntimeRun] the theorems on runs.

    ** What is shown

    - The controller: a remote owner only by a commit that matches an unexpired
      grant.  In runs of disciplined events (below): one owner of both inputs, a
      remote owner only with its display verified, refinement of a four-state
      ownership contract, effects fenced by epochs, failures that always bring
      the inputs home, a total deadline handler, the exactness of the runtime
      check.  Bounded histories, exact gauges under interleaving, and two stalls
      of the loop.
    - Leases: a bundle is owned only from its grant, a lease given up is never
      granted again, answers of the controller are matched before they count,
      and a lease is never kept beyond its renewal.
    - The service: lease, operation, permits and active capture agree throughout a
      run; a capture enters a peer exactly when grant, permit, peer and clock
      allow it; every failure ends local; the barriers are those of the clients
      and connections; and no run panics while its counters last.
    - The capture task: a peer is sent input only while it is authorized and
      acknowledged, permits are one-shot, releasing restores local input first,
      and no handler panics for requests that are legal ([legal_run]).
    - Emulation: keys and buttons recorded as pressed are those the backend holds;
      the listen task announces a peer only after release, readiness and
      centring, and the sessions of the emulation task alternate and are numbered
      without a gap.
    - Windows and Wayland: an input event is never both seen by the local system
      and sent to a peer, and to at most one peer (a captured event without a
      translation reaches nobody); mode, queue and reports of an edge are those
      a contract machine computes from what happened; grabs of the compositor
      exist only while a window is focused and are given back by a release; a
      capture begins only on a confirmed lock.
    - The portal capture: input of a client follows its beginning and barriers
      belong to the clients, in whatever order the parts act; where a release is
      answered and where it never is.
    - Emulation backends: wlroots is sent requests on live devices only and keeps
      none of a peer that left or of centring the pointer, and events of the protocol do not bring it down;
      its modifiers follow the keys; a key repeats on Windows only while a peer
      holds it; with libei an event goes to an announced device of its kind.
    - Peers: while each address belongs to one client ([separate]), a client that
      is alive or ready has a watched connection, in every interleaving of
      service and tasks, and what is seen of its peer is what was announced last;
      the listener reports exactly the peers
      that are connected; datagrams cross unchanged; a lookup that is answered is
      the latest of its client.
    - The configuration that is installed is always valid, what is saved is read
      back (if there is a client), and edits of the file are noticed while no write has failed.
    - HTTP: nothing but the health check answers without the token, a request
      submits at most one event of its route; a commit that the client takes as
      granted is among the events the controller applied in the meantime, and the
      lease lasts at least as long as the client believes.
    - The television: each command is answered once, from answers to its own
      requests, whose numbers are fresh; a session is synchronized exactly when the television has
      confirmed and answered.
    - The clipboard: frames round-trip, readers take no byte beyond what a frame
      may announce and none of the payload of a refused one, each handoff
      is published and applied at most once, stale messages change nothing.  A
      connection carries whole frames in order; the runtime knows the
      connections that the manager keeps; the owner of the clipboard is the one
      the service asked for whatever peers do; snapshots go only to the target,
      session and baseline of their handoff; and the native clipboard is always
      running, being connected, or waiting for the next attempt.
    - Wire formats of input events and scan codes round-trip.

    ** Parameters, bounds and fuel

    Code that is not part of the repository is a parameter.  The backends of
    capture, emulation and clipboard are type classes of their methods; SHA-256
    is a function with results of 32 bytes; hash sets and slabs have an iteration
    order that permutes their content; random identities, clock readings and the
    acceptance of messages by other tasks are arguments or streams.  Instants
    have a largest value, [instant_max].  Machine integers are [N] with their
    bounds written out at each operation that can overflow; [usize] has 64 bits.

    The loops of the sources are structural on their data except for the
    dispatch of effects, whose fuel is twice the number of effects (each failed
    effect causes at most one more, which is not retried), and for the polling
    of a stable clipboard, which takes its number of retries and one turn more;
    theorems show that both are enough.

    Some theorems on runs assume that the other side keeps to its part.  A
    controller is reachable by events that are [disciplined]: no request for a
    remote host comes while a session is owned, and no multiview acknowledgement
    carries the epoch of an owned session.  protocol.rs admits both;
    [overlapping_request_changes_owner] and [overlapping_request_rejects_ticks]
    of [ProtocolTheorems] and [overlapping_request_stalls] of [TvRun] show what
    they lead to.  The capture task uses each
    permit once and reports a denied capture ([legal_capture]), the slab hands
    out vacant keys ([keys_legal]).  The capture task in turn is asked to create
    fresh handles, to destroy and resume handles that the backend knows, and to
    destroy none with an event waiting ([legal_run] of [CaptureTaskClaims]).
    What the capture task guarantees of this is
    a theorem of [CaptureTaskTheorems]; what it needs of the service is
    [service_barriers].  The theorem on connections assumes that clients have no
    address in common and that handles are not reused while a task of the old
    client runs ([separate]); the one on the listener that a connection that is
    handed out passed the verification ([legal_listener]); the one on Wayland
    that the compositor keeps to its protocol and that clients are removed only
    while the pointer is in no capture window ([legal_run]).  Examples in the
    same files show what happens otherwise.  The theorems on Windows take
    positions and sizes of displays up to 2^28 and pointer coordinates up to
    2^29, far beyond any desktop and within 32 bits, and no call to the capture
    after it was dropped ([legal_steps]); the one on the portal takes zones that
    are not empty, up to 10^9, and activations with a cursor position
    ([step_ok]); the one on saving takes a list of clients that is not empty.

    ** Not modelled

    Sockets, DTLS and TLS, the HTTP server, JSON, TOML, URLs, the WebSocket and
    the Wayland connection are libraries; what they deliver is an argument of the
    models.  The key files of crypto.rs, logging and notifications of lan-mouse,
    the command line, the user interfaces, the remaining platform backends
    (macOS and X11, and the native clipboards) and the creation of portal
    sessions are input and output around libraries.  The spawning of tasks and
    signal handlers in the two main.rs is left out.  The calls of the service to
    the capture and emulation tasks are outputs of its model: that they panic
    (expect of an open channel) once such a task has ended is not modelled, nor
    that the message with which a call wakes the Windows thread can fail while
    the thread runs. *)

From stdpp Require Import base tactics list gmap strings.
From Stdlib Require Import NArith Lia Sorted.

(** ** Machine integers

    A Rust [u64] is an [N]; the bound is written out at every operation that
    depends on it. *)

Definition u64_max : N := (2 ^ 64 - 1)%N.

(** [u64::saturating_add] *)
Definition sat_add (a b : N) : N := N.min (a + b) u64_max.

(** [u64::saturating_sub]; subtraction on [N] already stops at zero. *)
Definition sat_sub (a b : N) : N := (a - b)%N.

(** [u64::checked_add] *)
Definition checked_add (a b : N) : option N :=
  if (a + b <=? u64_max)%N then Some (a + b)%N else None.

(** [u64::checked_sub] *)
Definition checked_sub (a b : N) : option N :=
  if (b <=? a)%N then Some (a - b)%N else None.

(** A number that fits in a [u64]. *)
Definition is_u64 (n : N) : Prop := (n <= u64_max)%N.

(** ** Outcomes of fallible code

    [Ret] is a normal return, [Throw] an [Err] value that the caller can
    observe, and [Panic] a Rust panic ([expect], [assert!], [unreachable!]). *)

Inductive exec (E A : Type) : Type :=
| Ret (a : A)
| Throw (e : E)
| Panic (msg : string).
Arguments Ret {E A} a.
Arguments Throw {E A} e.
Arguments Panic {E A} msg.

Definition exec_bind {E A B} (m : exec E A) (k : A -> exec E B) : exec E B :=
  match m with
  | Ret a => k a
  | Throw e => Throw e
  | Panic s => Panic s
  end.

Declare Scope exec_scope.
Delimit Scope exec_scope with exec.
Notation "'let*' x ':=' m 'in' k" := (exec_bind m (fun x => k))
  (at level 10, x pattern, m at level 100, k at level 200,
   format "'[v' 'let*'  x  ':='  m  'in' '/' k ']'") : exec_scope.
Open Scope exec_scope.

(** [Option::expect] *)
Definition expect {E A} (o : option A) (msg : string) : exec E A :=
  match o with Some a => Ret a | None => Panic msg end.

(** [Option::ok_or] followed by [?] *)
Definition ok_or {E A} (o : option A) (e : E) : exec E A :=
  match o with Some a => Ret a | None => Throw e end.

(** An early [return Err(e)] when the condition holds. *)
Definition guard_not {E} (c : bool) (e : E) : exec E unit :=
  if c then Throw e else Ret tt.

Lemma Ret_inj {E A} (a b : A) : @Ret E A a = Ret b -> a = b.
Proof. by intros [=]. Qed.

Lemma exec_bind_Ret {E A B} (m : exec E A) (k : A -> exec E B) (b : B) :
  exec_bind m k = Ret b <-> exists a, m = Ret a /\ k a = Ret b.
Proof.
  destruct m; simpl; split; intros H; try (destruct H as (?&?&?)); try congruence; eauto.
Qed.

Lemma exec_bind_assoc {E A B C} (m : exec E A) (k : A -> exec E B) (l : B -> exec E C) :
  exec_bind (exec_bind m k) l = exec_bind m (fun a => exec_bind (k a) l).
Proof. by destruct m. Qed.

Lemma ok_or_Ret {E A} (o : option A) (e : E) a : ok_or o e = Ret a <-> o = Some a.
Proof. destruct o; simpl; split; congruence. Qed.

Lemma guard_not_Ret {E} (c : bool) (e : E) u : guard_not c e = Ret u <-> c = false.
Proof. destruct c, u; simpl; split; congruence. Qed.

(** ** Functional record update

    [s <| f := v |>] is [s] with the field [f] replaced.  Each record declares
    its eta-expansion once as an instance of [RecordEta]; the setter of a
    field is obtained from it by abstracting the projection. *)

Class RecordEta (R : Type) := record_eta : R -> R.
Class Setter {R T : Type} (proj : R -> T) := set : (T -> T) -> R -> R.
Arguments set {R T} proj {_} _ _.

Ltac derive_setter :=
  lazymatch goal with
  | |- @Setter ?R ?T ?proj =>
      let inst := constr:(ltac:(typeclasses eauto) : RecordEta R) in
      let body := eval red in inst in
      lazymatch eval pattern proj in body with
      | ?f _ =>
          let r := eval cbv beta in
            (fun (upd : T -> T) (s : R) => f (fun s' => upd (proj s')) s) in
          exact r
      end
  end.
#[global] Hint Extern 1 (Setter _) => derive_setter : typeclass_instances.

Declare Scope record_scope.
Delimit Scope record_scope with record.
Notation "s <| proj := v |>" := (set proj (fun _ => v) s)
  (at level 1, left associativity, v at level 99, format "s  <|  proj  :=  v  |>") : record_scope.
Notation "s <| proj ::= f |>" := (set proj f s)
  (at level 1, left associativity, f at level 99, format "s  <|  proj  ::=  f  |>") : record_scope.
Open Scope record_scope.

(** ** Lists used as queues *)

(** [VecDeque::pop_front] repeated while the queue holds at least [limit]
    elements: [while q.len() >= limit { q.pop_front(); }]. *)
Fixpoint trim_front {A} (limit : nat) (q : list A) : list A :=
  match q with
  | [] => []
  | _ :: t => if limit <=? length q then trim_front limit t else q
  end.

(** [q.iter().rev().find(p)] *)
Definition find_last {A} (p : A -> bool) (l : list A) : option A := List.find p (rev l).

(** Apply [f] to the first element that satisfies [p]. *)
Fixpoint update_first {A} (p : A -> bool) (f : A -> A) (l : list A) : list A :=
  match l with
  | [] => []
  | x :: t => if p x then f x :: t else x :: update_first p f t
  end.

(** [if let Some(x) = q.iter_mut().rev().find(p) { *x = f(x) }] *)
Definition update_last {A} (p : A -> bool) (f : A -> A) (l : list A) : list A :=
  rev (update_first p f (rev l)).

(** [if let Some(i) = q.iter().position(p) { q.remove(i); }] *)
Fixpoint remove_first {A} (p : A -> bool) (l : list A) : list A :=
  match l with
  | [] => []
  | x :: t => if p x then t else x :: remove_first p t
  end.

Section queue_lemmas.
Context {A K : Type} (key : A -> K).
Implicit Types (l q : list A) (p : A -> bool) (f : A -> A).

(** The trimming loop leaves room for one more element. *)
Lemma trim_front_length limit q : 0 < limit -> length (trim_front limit q) < limit.
Proof.
  intros Hl. induction q as [|x q IH]; simpl; [lia|].
  destruct (Nat.leb_spec limit (S (length q))); [done|]. simpl. lia.
Qed.

Lemma trim_front_sublist limit q : trim_front limit q `sublist_of` q.
Proof.
  induction q as [|x q IH]; simpl; [constructor|]. case_match; [|done].
  by apply sublist_cons.
Qed.

Lemma map_sublist l q : l `sublist_of` q -> map key l `sublist_of` map key q.
Proof. induction 1; simpl; by constructor. Qed.

Lemma remove_first_sublist p l : remove_first p l `sublist_of` l.
Proof.
  induction l as [|x l IH]; simpl; [constructor|].
  destruct (p x); by constructor.
Qed.

Lemma find_last_snoc p l x :
  find_last p (l ++ [x]) = if p x then Some x else find_last p l.
Proof. unfold find_last. rewrite rev_app_distr. reflexivity. Qed.

Lemma find_last_Some p l x : find_last p l = Some x -> x ∈ l /\ p x = true.
Proof.
  unfold find_last. intros [Hin Hp]%List.find_some. split; [|done].
  apply list_elem_of_In, in_rev, Hin.
Qed.

Lemma find_last_None p l : find_last p l = None <-> forall x, x ∈ l -> p x = false.
Proof.
  unfold find_last. split.
  - intros H x Hx. eapply List.find_none; [exact H|].
    rewrite <- in_rev. by apply list_elem_of_In.
  - intros H. destruct (List.find p (rev l)) as [x|] eqn:E; [|done].
    apply List.find_some in E as [Hin Hp].
    apply in_rev, list_elem_of_In in Hin. rewrite (H _ Hin) in Hp. done.
Qed.

Lemma update_first_key p f l :
  (forall x, key (f x) = key x) -> map key (update_first p f l) = map key l.
Proof.
  intros Hf. induction l as [|x l IH]; simpl; [done|].
  destruct (p x); simpl; rewrite ?Hf, ?IH; done.
Qed.

Lemma update_last_key p f l :
  (forall x, key (f x) = key x) -> map key (update_last p f l) = map key l.
Proof.
  intros Hf. unfold update_last. rewrite List.map_rev, update_first_key by done.
  by rewrite List.map_rev, rev_involutive.
Qed.

(** Removing the first element with key [k] removes the only one. *)
Lemma remove_first_key_absent p l k :
  (forall x, p x = true <-> key x = k) -> NoDup (map key l) ->
  k ∉ map key (remove_first p l).
Proof.
  intros Hp. induction l as [|x l IH]; simpl; intros Hnd; [apply not_elem_of_nil|].
  apply NoDup_cons in Hnd as [Hx Hnd].
  destruct (p x) eqn:E.
  - apply Hp in E. by subst k.
  - simpl. rewrite not_elem_of_cons. split; [|by apply IH].
    intros ->. rewrite (proj2 (Hp x) eq_refl) in E. done.
Qed.
End queue_lemmas.

Lemma update_last_length {A} (p : A -> bool) (f : A -> A) l :
  length (update_last p f l) = length l.
Proof.
  pose proof (update_last_key (fun _ => tt) p f l (fun _ => eq_refl)) as H.
  apply (f_equal length) in H. by rewrite !List.length_map in H.
Qed.

Lemma StronglySorted_snoc {A} (R : A -> A -> Prop) l x :
  StronglySorted R l -> Forall (fun y => R y x) l -> StronglySorted R (l ++ [x]).
Proof.
  induction 1 as [|y l Hs IH Hy]; intros Hf; simpl; [repeat constructor|].
  apply Forall_cons in Hf as [Hyx Hf]. constructor; [by apply IH|].
  apply Forall_app. split; [done|]. by constructor.
Qed.

(** ** Saturating arithmetic *)

Lemma sat_add_bound a b : (sat_add a b <= u64_max)%N.
Proof. unfold sat_add. lia. Qed.

Lemma sat_add_ge a b : is_u64 a -> (a <= sat_add a b)%N.
Proof. unfold sat_add, is_u64. lia. Qed.

Lemma sat_add_exact a b : (a + b <= u64_max)%N -> sat_add a b = (a + b)%N.
Proof. unfold sat_add. lia. Qed.

Lemma sat_add_u64 a b : is_u64 (sat_add a b).
Proof. apply sat_add_bound. Qed.

Lemma checked_add_Some a b c : checked_add a b = Some c <-> c = (a + b)%N /\ (a + b <= u64_max)%N.
Proof.
  unfold checked_add. destruct (N.leb_spec (a + b) u64_max); split;
    [intros [= <-]; done|intros [-> _]; done|done|lia].
Qed.

Lemma checked_sub_Some a b c : checked_sub a b = Some c <-> a = (b + c)%N.
Proof.
  unfold checked_sub. destruct (N.leb_spec b a); split;
    [intros [= <-]; lia|intros ->; f_equal; lia|done|lia].
Qed.

(** ** Automation *)

Create HintDb dmx.
#[export] Hint Resolve sat_add_bound sat_add_ge sat_add_u64 : dmx.

(** Turn the boolean tests of the code into propositions, in hypotheses. *)
Ltac norm_bool :=
  repeat match goal with
  | H : negb _ = true |- _ => apply negb_true_iff in H
  | H : negb _ = false |- _ => apply negb_false_iff in H
  | H : _ && _ = true |- _ => apply andb_true_iff in H as [? ?]
  | H : _ && _ = false |- _ => apply andb_false_iff in H as [?|?]
  | H : _ || _ = false |- _ => apply orb_false_iff in H as [? ?]
  | H : _ || _ = true |- _ => apply orb_true_iff in H as [?|?]
  | H : bool_decide _ = true |- _ => apply bool_decide_eq_true in H
  | H : bool_decide _ = false |- _ => apply bool_decide_eq_false in H
  | H : (_ <=? _)%N = true |- _ => apply N.leb_le in H
  | H : (_ <=? _)%N = false |- _ => apply N.leb_gt in H
  end.

(** Invert a computation known to return normally. *)
Ltac invert_exec :=
  repeat match goal with
  | H : exec_bind _ _ = Ret _ |- _ => apply exec_bind_Ret in H as (?&?&?)
  | H : ok_or _ _ = Ret _ |- _ => apply ok_or_Ret in H
  | H : guard_not _ _ = Ret _ |- _ => apply guard_not_Ret in H
  | H : Throw _ = Ret _ |- _ => discriminate H
  | H : Panic _ = Ret _ |- _ => discriminate H
  | H : Ret _ = Ret _ |- _ => apply Ret_inj in H; subst
  end.
