(* ===== verification/Channels.v ===== *)
(** * Bounded channels

    The interface of [tokio::sync::mpsc] that the components share: what they
    call, the documented behaviour they rely on, and a list with a bound that
    has this behaviour. *)

From stdpp Require Import base tactics list strings.
From Stdlib Require Import Lia.
From S2P Require Import Prelude.

Inductive TrySendError := Full | Closed.

(** What is used of [tokio::sync::mpsc]: [try_send] on the sender,
    [recv] on the receiver (its ready cases), [max_capacity] and [capacity]. *)
Class Mpsc (C : Type -> Type) := {
  queued : forall {A}, C A -> list A;
  max_capacity : forall {A}, C A -> nat;
  receiver_gone : forall {A}, C A -> bool;
  senders_gone : forall {A}, C A -> bool;
  try_send : forall {A}, C A -> A -> C A + TrySendError;
  recv_ready : forall {A}, C A -> option (A * C A);
  send_error_text : TrySendError -> string }.

(** The documented behaviour of the channel. *)
Class MpscLaws (C : Type -> Type) {M : Mpsc C} : Prop := {
  try_send_ok : forall A (c : C A) a,
    receiver_gone c = false -> length (queued c) < max_capacity c ->
    exists c', try_send c a = inl c' /\ queued c' = queued c ++ [a]
      /\ max_capacity c' = max_capacity c /\ receiver_gone c' = false
      /\ senders_gone c' = senders_gone c;
  try_send_full : forall A (c : C A) a,
    receiver_gone c = false -> max_capacity c <= length (queued c) -> try_send c a = inr Full;
  try_send_closed : forall A (c : C A) a, receiver_gone c = true -> try_send c a = inr Closed;
  recv_fifo : forall A (c : C A) a q, queued c = a :: q ->
    exists c', recv_ready c = Some (a, c') /\ queued c' = q
      /\ max_capacity c' = max_capacity c /\ receiver_gone c' = receiver_gone c
      /\ senders_gone c' = senders_gone c;
  recv_empty : forall A (c : C A), queued c = [] -> recv_ready c = None }.

(** A channel as a list with a bound, which has that behaviour. *)
Record ListChan (A : Type) := mkChan {
  lc_items : list A; lc_cap : nat; lc_gone : bool; lc_senders_gone : bool }.
Arguments mkChan {A} _ _ _ _.
Arguments lc_items {A} _.
Arguments lc_cap {A} _.
Arguments lc_gone {A} _.
Arguments lc_senders_gone {A} _.

#[global] Instance ListChan_mpsc : Mpsc ListChan := {
  queued _ c := lc_items c;
  max_capacity _ c := lc_cap c;
  receiver_gone _ c := lc_gone c;
  senders_gone _ c := lc_senders_gone c;
  try_send _ c a :=
    if lc_gone c then inr Closed
    else if length (lc_items c) <? lc_cap c 
    then inl (mkChan (lc_items c ++ [a]) (lc_cap c) false (lc_senders_gone c))
    else inr Full;
  recv_ready _ c :=
    match lc_items c with
    | [] => None
    | a :: q => Some (a, mkChan q (lc_cap c) (lc_gone c) (lc_senders_gone c))
    end;
  send_error_text e := match e with Full => "no available capacity" | Closed => "channel closed" end }.

#[global] Instance ListChan_laws : MpscLaws ListChan.
Proof.
  split; cbn [queued max_capacity receiver_gone senders_gone try_send recv_ready ListChan_mpsc].
  - intros A c a -> Hl. apply Nat.ltb_lt in Hl as ->. by eexists.
  - intros A c a -> Hl. by apply Nat.ltb_ge in Hl as ->.
  - by intros A c a ->.
  - intros A c a q ->. by eexists.
  - by intros A c ->.
Qed.

(** What a successful call did. *)
Section laws.
Context {C : Type -> Type} {M : Mpsc C} {L : MpscLaws C}.

Lemma try_send_inl {A} (c c' : C A) a : try_send c a = inl c' -> queued c' = queued c ++ [a].
Proof.
  intros H. destruct (receiver_gone c) eqn:Hg; [by rewrite try_send_closed in H|].
  destruct (decide (length (queued c) < max_capacity c)) as [Hl|Hl].
  - destruct (try_send_ok A c a Hg Hl) as (c2&H2&?&_). congruence.
  - rewrite try_send_full in H by (done || lia). done.
Qed.

Lemma recv_ready_Some {A} (c c' : C A) a : recv_ready c = Some (a, c') -> queued c = a :: queued c'.
Proof.
  intros H. destruct (queued c) as [|b q] eqn:Hq; [by rewrite recv_empty in H|].
  destruct (recv_fifo A c b q Hq) as (c2&H2&Hq2&_). congruence.
Qed.
End laws.
