(* ===== verification/Domain.v ===== *)
(** * The controller's domain model ([tv-multiview/src/domain.rs])

    The protocol state of the display controller, its request history and the
    runtime check [validate] that every transition passes through. *)

From stdpp Require Import base tactics list gmap strings countable.
From Stdlib Require Import NArith Lia.
From S2P Require Import Prelude.

(** ** Data *)

Inductive Host := Controller | Right | Left.
#[global] Instance Host_eq_dec : EqDecision Host.
Proof. solve_decision. Defined.
#[global] Instance Host_countable : Countable Host.
Proof.
  refine (inj_countable'
    (fun h => match h with Controller => 0 | Right => 1 | Left => 2 end)
    (fun n => match n with 0 => Controller | 1 => Right | _ => Left end) _).
  by intros [].
Defined.

Definition Host_ALL : list Host := [Controller; Left; Right].

Definition Host_as_str (h : Host) : string :=
  match h with
  | Controller => "controller"
  | Right => "right"
  | Left => "left"
  end.

(** [FromStr for Host]; the error carries the rejected text. *)
Definition Host_from_str (value : string) : string + Host :=
  if bool_decide (value = "controller") then inr Controller
  else if bool_decide (value = "right") then inr Right
  else if bool_decide (value = "left") then inr Left
  else inl value.

Inductive TvMode := TvUnknown | Fullscreen | Multiview.
#[global] Instance TvMode_eq_dec : EqDecision TvMode.
Proof. solve_decision. Defined.

Inductive WsState := Disconnected | Connecting | Registering | Synchronizing | Connected.
#[global] Instance WsState_eq_dec : EqDecision WsState.
Proof. solve_decision. Defined.

Inductive ProtocolPhase :=
| Starting | Idle | Waking | Switching | Verifying | GrantPending | RemoteOwned
| FallbackCommandPending | FallbackVerifying | FallbackDeferred | MultiviewChanging.
#[global] Instance ProtocolPhase_eq_dec : EqDecision ProtocolPhase.
Proof. solve_decision. Defined.

Record PeerReadiness := mkPeerReadiness {
  online : bool;
  keyboard_ready : bool;
  pointer_ready : bool;
  session_epoch : N;
  pr_observed_at_ms : N }.
#[global] Instance PeerReadiness_eq_dec : EqDecision PeerReadiness.
Proof. solve_decision. Defined.

(** [PeerReadiness::default()] *)
Definition PeerReadiness_default : PeerReadiness := mkPeerReadiness false false false 0 0.

Definition bundle_ready (p : PeerReadiness) (epoch : N) : bool :=
  online p && keyboard_ready p && pointer_ready p && bool_decide (session_epoch p = epoch).

Record LeaseIdentity := mkLease {
  lease_id : string;
  lease_epoch : N;
  peer_session_epoch : N;
  lease_expires_at_ms : N }.
#[global] Instance LeaseIdentity_eq_dec : EqDecision LeaseIdentity.
Proof. solve_decision. Defined.
#[global] Instance LeaseIdentity_eta : RecordEta LeaseIdentity :=
  fun l => mkLease (lease_id l) (lease_epoch l) (peer_session_epoch l) (lease_expires_at_ms l).

Record GrantIdentity := mkGrant {
  gr_grant_epoch : N;
  gr_switch_epoch : N;
  gr_expires_at_ms : N }.
#[global] Instance GrantIdentity_eq_dec : EqDecision GrantIdentity.
Proof. solve_decision. Defined.

Inductive RequestStatus :=
| StWaking | StSwitching | StGrant | StCommitted | StDenied | StCancelled | StFallback | StExpired.
#[global] Instance RequestStatus_eq_dec : EqDecision RequestStatus.
Proof. solve_decision. Defined.

Record EnterRequest := mkEnterRequest {
  er_request_id : string;
  er_client_id : string;
  er_target : Host;
  er_request_epoch : N;
  er_lease : LeaseIdentity;
  er_status : RequestStatus;
  er_switch_epoch : option N;
  er_grant : option GrantIdentity;
  er_deadline_ms : N;
  er_reason : option string }.
#[global] Instance EnterRequest_eq_dec : EqDecision EnterRequest.
Proof. solve_decision. Defined.
#[global] Instance EnterRequest_eta : RecordEta EnterRequest :=
  fun r => mkEnterRequest (er_request_id r) (er_client_id r) (er_target r) (er_request_epoch r)
    (er_lease r) (er_status r) (er_switch_epoch r) (er_grant r) (er_deadline_ms r) (er_reason r).

Record ActiveSession := mkActiveSession {
  as_request_id : string;
  as_target : Host;
  as_request_epoch : N;
  as_switch_epoch : N;
  as_lease : LeaseIdentity;
  as_renewed_until_ms : N }.
#[global] Instance ActiveSession_eq_dec : EqDecision ActiveSession.
Proof. solve_decision. Defined.
#[global] Instance ActiveSession_eta : RecordEta ActiveSession :=
  fun a => mkActiveSession (as_request_id a) (as_target a) (as_request_epoch a)
    (as_switch_epoch a) (as_lease a) (as_renewed_until_ms a).

Record SignalObservation := mkSignal {
  sig_present : bool;
  sig_switch_epoch : N;
  sig_observed_at_ms : N }.
#[global] Instance SignalObservation_eq_dec : EqDecision SignalObservation.
Proof. solve_decision. Defined.

(** [SignalObservation::default()] *)
Definition SignalObservation_default : SignalObservation := mkSignal false 0 0.

Record ProtocolState := mkProtocolState {
  server_host : Host;
  display_hosts : gset Host;
  ws_state : WsState;
  subscribe_active : bool;
  synchronized : bool;
  phase : ProtocolPhase;
  tv_mode : TvMode;
  commanded_input : option Host;
  observed_input : option Host;
  input_signal : gmap Host SignalObservation;
  peers : gmap Host PeerReadiness;
  request_epoch : N;
  switch_epoch : N;
  verified_epoch : option N;
  grant_epoch : N;
  keyboard_owner : Host;
  pointer_owner : Host;
  active_request : option EnterRequest;
  request_history : list EnterRequest;
  retained_request_limit : nat;
  active_session : option ActiveSession;
  pending_multiview : option bool;
  observation_in_flight : option N;
  phase_deadline_ms : option N;
  next_signal_poll_ms : option N;
  fallback_required : bool;
  fallback_reason : option string;
  manual_recovery_target : option Host;
  reconnect_total : N;
  switch_count : gmap Host N;
  last_error : option string;
  dropped_logs : N }.
#[global] Instance ProtocolState_eta : RecordEta ProtocolState :=
  fun s => mkProtocolState (server_host s) (display_hosts s) (ws_state s) (subscribe_active s)
    (synchronized s) (phase s) (tv_mode s) (commanded_input s) (observed_input s)
    (input_signal s) (peers s) (request_epoch s) (switch_epoch s) (verified_epoch s)
    (grant_epoch s) (keyboard_owner s) (pointer_owner s) (active_request s)
    (request_history s) (retained_request_limit s) (active_session s) (pending_multiview s)
    (observation_in_flight s) (phase_deadline_ms s) (next_signal_poll_ms s)
    (fallback_required s) (fallback_reason s) (manual_recovery_target s) (reconnect_total s)
    (switch_count s) (last_error s) (dropped_logs s).

(** ** Construction *)

(** [ProtocolState::with_display_hosts]; the two [assert!]s are panics. *)
Definition with_display_hosts (server : Host) (limit : nat) (displays : list Host)
  : exec unit ProtocolState :=
  if bool_decide (limit = 0) then Panic "request history must be bounded"
  else
    let display_hosts := list_to_set displays in
    if negb (bool_decide (server ∈ display_hosts))
    then Panic "server host must have a managed display route"
    else Ret {|
      server_host := server;
      display_hosts := display_hosts;
      ws_state := Disconnected;
      subscribe_active := false;
      synchronized := false;
      phase := FallbackDeferred;
      tv_mode := TvUnknown;
      commanded_input := None;
      observed_input := None;
      input_signal := list_to_map (map (fun h => (h, SignalObservation_default)) Host_ALL);
      peers := list_to_map (map (fun h => (h, PeerReadiness_default)) Host_ALL);
      request_epoch := 0;
      switch_epoch := 0;
      verified_epoch := None;
      grant_epoch := 0;
      keyboard_owner := server;
      pointer_owner := server;
      active_request := None;
      request_history := [];
      retained_request_limit := limit;
      active_session := None;
      pending_multiview := None;
      observation_in_flight := None;
      phase_deadline_ms := None;
      next_signal_poll_ms := None;
      fallback_required := true;
      fallback_reason := Some "startup_unsynchronized";
      manual_recovery_target := None;
      reconnect_total := 0;
      switch_count := list_to_map (map (fun h => (h, 0%N)) Host_ALL);
      last_error := None;
      dropped_logs := 0 |}.

(** ** Queries *)

Definition has_display_route (s : ProtocolState) (h : Host) : bool :=
  bool_decide (h ∈ display_hosts s).

Definition daemon_healthy (s : ProtocolState) : bool :=
  bool_decide (ws_state s = Connected) && subscribe_active s && synchronized s.

Definition ready (s : ProtocolState) : bool :=
  daemon_healthy s && negb (fallback_required s) && negb (bool_decide (phase s = FallbackDeferred)).

(** The predicate shared by every search of the history by request id. *)
Definition has_id (rid : string) (r : EnterRequest) : bool := bool_decide (er_request_id r = rid).

(** [ProtocolState::request] *)
Definition request (s : ProtocolState) (rid : string) : option EnterRequest :=
  match active_request s with
  | Some r => if has_id rid r then Some r else find_last (has_id rid) (request_history s)
  | None => find_last (has_id rid) (request_history s)
  end.

(** [ProtocolState::archived_request_mut], read side. *)
Definition archived_request (s : ProtocolState) (rid : string) : option EnterRequest :=
  find_last (has_id rid) (request_history s).

(** Writing through the reference returned by [archived_request_mut]. *)
Definition update_archived (rid : string) (f : EnterRequest -> EnterRequest) (s : ProtocolState)
  : ProtocolState :=
  s <| request_history ::= update_last (has_id rid) f |>.

Definition archive_request (r : EnterRequest) (s : ProtocolState) : ProtocolState :=
  let history := remove_first (has_id (er_request_id r)) (request_history s) in
  let history := trim_front (retained_request_limit s) history in
  s <| request_history := history ++ [r] |>.

(** [Iterator::min] over the present deadlines. *)
Definition min_deadline (ds : list (option N)) : option N :=
  foldr (fun d acc =>
    match d, acc with
    | Some a, Some b => Some (N.min a b)
    | Some a, None => Some a
    | None, _ => acc
    end) None ds.

Definition next_deadline_ms (s : ProtocolState) : option N :=
  min_deadline
    [ phase_deadline_ms s;
      next_signal_poll_ms s;
      er_deadline_ms <$> active_request s;
      (fun a => N.min (as_renewed_until_ms a) (lease_expires_at_ms (as_lease a)))
        <$> active_session s ].

(** ** The runtime invariant check *)

Inductive InvariantViolation :=
| SplitInputOwnership
| FallbackOwnsRemoteInput
| ManualRecoveryTargetsServer
| ManualRecoveryWhileInputActive
| RemoteOwnerWithoutSession
| RemoteOwnerSessionMismatch
| RemoteOwnerLeaseExpired
| RemoteOwnerNotReady
| RemoteOwnerWithoutVerifiedDisplay
| GrantStateWithoutGrant
| GrantEpochMismatch.
#[global] Instance InvariantViolation_eq_dec : EqDecision InvariantViolation.
Proof. solve_decision. Defined.

(** The [Display] text of a violation ([#[error(...)]]). *)
Definition violation_to_string (v : InvariantViolation) : string :=
  match v with
  | SplitInputOwnership => "keyboard and pointer ownership split"
  | FallbackOwnsRemoteInput => "fallback required while remote input remains owned"
  | ManualRecoveryTargetsServer => "manual recovery target must be a remote host"
  | ManualRecoveryWhileInputActive =>
      "manual recovery cannot be armed while an input transaction is active"
  | RemoteOwnerWithoutSession => "remote owner has no active bundle session"
  | RemoteOwnerSessionMismatch => "remote owner does not match active bundle session"
  | RemoteOwnerLeaseExpired => "remote owner bundle lease expired"
  | RemoteOwnerNotReady => "remote owner peer is not ready for both input paths"
  | RemoteOwnerWithoutVerifiedDisplay => "remote owner lacks a fresh verified display observation"
  | GrantStateWithoutGrant => "grant state has no grant identity"
  | GrantEpochMismatch => "grant and verified switch epochs differ"
  end.

(** Whether the peer of [h] is ready for the given session epoch:
    [peers.get(&h).is_some_and(|peer| peer.bundle_ready(epoch))]. *)
Definition peer_ready (s : ProtocolState) (h : Host) (epoch : N) : bool :=
  match peers s !! h with Some p => bundle_ready p epoch | None => false end.

(** [input_signal.get(&h).is_some_and(|s| s.present && s.switch_epoch == epoch)] *)
Definition signal_fresh (s : ProtocolState) (h : Host) (epoch : N) : bool :=
  match input_signal s !! h with
  | Some o => sig_present o && bool_decide (sig_switch_epoch o = epoch)
  | None => false
  end.

Definition session_expired (a : ActiveSession) (now_ms : N) : bool :=
  (as_renewed_until_ms a <=? now_ms)%N || (lease_expires_at_ms (as_lease a) <=? now_ms)%N.

(** The part of [validate] that concerns a remote owner. *)
Definition validate_remote_owner (s : ProtocolState) (now_ms : N) : option InvariantViolation :=
  match active_session s with
  | None => Some RemoteOwnerWithoutSession
  | Some a =>
      if negb (bool_decide (as_target a = keyboard_owner s)) then Some RemoteOwnerSessionMismatch
      else if session_expired a now_ms then Some RemoteOwnerLeaseExpired
      else if negb (peer_ready s (as_target a) (peer_session_epoch (as_lease a)))
      then Some RemoteOwnerNotReady
      else if has_display_route s (as_target a)
           && (negb (bool_decide (observed_input s = Some (as_target a)))
               || negb (bool_decide (verified_epoch s = Some (as_switch_epoch a)))
               || negb (bool_decide (tv_mode s = Fullscreen))
               || negb (signal_fresh s (as_target a) (as_switch_epoch a)))
      then Some RemoteOwnerWithoutVerifiedDisplay
      else None
  end.

(** The part of [validate] that concerns a granted request. *)
Definition validate_grant (s : ProtocolState) : option InvariantViolation :=
  match active_request s with
  | Some r =>
      if bool_decide (er_status r = StGrant) then
        match er_grant r with
        | None => Some GrantStateWithoutGrant
        | Some g =>
            if negb (bool_decide (er_switch_epoch r = Some (gr_switch_epoch g)))
               || negb (bool_decide (verified_epoch s = Some (gr_switch_epoch g)))
            then Some GrantEpochMismatch else None
        end
      else None
  | None => None
  end.

Definition validate_manual (s : ProtocolState) : option InvariantViolation :=
  if bool_decide (manual_recovery_target s = Some (server_host s))
  then Some ManualRecoveryTargetsServer
  else if bool_decide (is_Some (manual_recovery_target s))
       && (bool_decide (is_Some (active_request s))
           || bool_decide (is_Some (active_session s))
           || negb (bool_decide (keyboard_owner s = server_host s)))
  then Some ManualRecoveryWhileInputActive
  else None.

(** [ProtocolState::validate]; [None] is [Ok(())]. *)
Definition validate (s : ProtocolState) (now_ms : N) : option InvariantViolation :=
  if negb (bool_decide (keyboard_owner s = pointer_owner s)) then Some SplitInputOwnership
  else if fallback_required s && negb (bool_decide (keyboard_owner s = server_host s))
  then Some FallbackOwnsRemoteInput
  else match validate_manual s with
  | Some v => Some v
  | None =>
      match (if negb (bool_decide (keyboard_owner s = server_host s))
             then validate_remote_owner s now_ms else None) with
      | Some v => Some v
      | None => validate_grant s
      end
  end.
