(* ===== verification/Protocol.v ===== *)
(** * The switch protocol ([tv-multiview/src/protocol.rs])

    [apply] is the transition function of the display controller: it takes the
    current state, one event and the clock, and returns the next state with
    the effects to perform, or an error.  One definition per event handler and
    per helper; [&mut ProtocolState] and [&mut Vec<Effect>] become an explicit
    pair, and [expect] a panic of [exec]. *)

From stdpp Require Import base tactics list gmap strings.
From Stdlib Require Import NArith Lia.
From S2P Require Import Prelude Domain.

(** ** Data *)

Record ProtocolTiming := mkTiming {
  command_ms : N;
  observation_ms : N;
  grant_ms : N;
  wake_ms : N;
  lease_ms : N;
  signal_poll_ms : N }.

Inductive Event :=
| TransportConnecting
| TransportRegistering
| TransportSubscribed
| TransportSynchronized (mode : TvMode) (input : option Host) (signals : gmap Host bool)
| TransportDisconnected (reason : string)
| PeerReadinessUpdated (host : Host) (readiness : PeerReadiness)
| ArmManualRecovery (target : Host)
| CreateEnter (rid client : string) (target : Host) (lease : LeaseIdentity)
| CommandAcknowledged (epoch : N) (target : Host)
| CommandFailed (epoch : N) (reason : string)
| Observation (epoch : N) (mode : TvMode) (input : option Host) (signals : gmap Host bool)
| Commit (rid : string) (req_epoch grant_ep : N) (lid : string) (lepoch : N)
| Cancel (rid reason : string)
| Renew (rid lid : string) (lepoch psession : N)
| MultiViewRequested (enabled : bool)
| MultiViewAcknowledged (epoch : N) (enabled : bool)
| SubscriptionObserved (mode : TvMode) (input : option Host)
| Tick
| Shutdown.

Definition Event_name (e : Event) : string :=
  match e with
  | TransportConnecting => "transport_connecting"
  | TransportRegistering => "transport_registering"
  | TransportSubscribed => "transport_subscribed"
  | TransportSynchronized _ _ _ => "transport_synchronized"
  | TransportDisconnected _ => "transport_disconnected"
  | PeerReadinessUpdated _ _ => "peer_readiness_updated"
  | ArmManualRecovery _ => "arm_manual_recovery"
  | CreateEnter _ _ _ _ => "create_enter"
  | CommandAcknowledged _ _ => "command_acknowledged"
  | CommandFailed _ _ => "command_failed"
  | Observation _ _ _ _ => "observation"
  | Commit _ _ _ _ _ => "commit"
  | Cancel _ _ => "cancel"
  | Renew _ _ _ _ => "renew"
  | MultiViewRequested _ => "multiview_requested"
  | MultiViewAcknowledged _ _ => "multiview_acknowledged"
  | SubscriptionObserved _ _ => "subscription_observed"
  | Tick => "tick"
  | Shutdown => "shutdown"
  end.

Inductive Effect :=
| SetInput (target : Host) (epoch : N) (fallback : bool)
| Observe (epoch : N)
| Wake (target : Host) (req_epoch : N)
| SetMultiView (enabled : bool) (epoch : N).
#[global] Instance Effect_eq_dec : EqDecision Effect.
Proof. solve_decision. Defined.

Record Transition := mkTransition { next : ProtocolState; effects : list Effect }.

Inductive ProtocolError :=
| Unavailable
| Busy (active_request_id : string)
| RequestIdentityConflict
| InvalidLease
| RequestNotFound
| StaleIdentity
| InputNotLocal
| InvalidManualRecoveryTarget
| Invariant (msg : string).
#[global] Instance ProtocolError_eq_dec : EqDecision ProtocolError.
Proof. solve_decision. Defined.

(** The pair a handler works on: the cloned state and the effects so far. *)
Abbreviation SE := (ProtocolState * list Effect)%type.

(** ** Helpers *)

(** [x.is_some_and(|x| p(x))] *)
Definition some_and {A} (o : option A) (p : A -> bool) : bool :=
  match o with Some a => p a | None => false end.

Definition release_to_server (s : ProtocolState) : ProtocolState :=
  s <| keyboard_owner := server_host s |>
    <| pointer_owner := server_host s |>
    <| active_session := None |>.

Definition store_observation (epoch now_ms : N) (mode : TvMode) (input : option Host)
    (signals : gmap Host bool) (s : ProtocolState) : ProtocolState :=
  s <| tv_mode := mode |>
    <| observed_input := input |>
    <| input_signal := foldl (fun m h =>
         match signals !! h with
         | Some present => <[h := mkSignal present epoch now_ms]> m
         | None => m
         end) (input_signal s) Host_ALL |>.

Definition target_display_verified (s : ProtocolState) (target : Host) (epoch : N) : bool :=
  bool_decide (tv_mode s = Fullscreen)
  && bool_decide (observed_input s = Some target)
  && signal_fresh s target epoch.

Definition server_display_verified (s : ProtocolState) (epoch : N) : bool :=
  target_display_verified s (server_host s) epoch.

Definition target_verification_failure_reason (s : ProtocolState) (target : Host) (epoch : N)
  : string :=
  if negb (bool_decide (tv_mode s = Fullscreen)) then "target_not_fullscreen"
  else if negb (bool_decide (observed_input s = Some target)) then "target_input_not_observed"
  else match input_signal s !! target with
  | Some o =>
      if bool_decide (sig_switch_epoch o = epoch) && negb (sig_present o)
      then "target_signal_absent"
      else if negb (bool_decide (sig_switch_epoch o = epoch)) then "target_signal_stale"
      else "target_signal_not_observed"
  | None => "target_signal_not_observed"
  end.

Definition verification_timeout_reason (s : ProtocolState) : string :=
  if negb (bool_decide (phase s = Verifying)) then "observation_timeout"
  else match active_request s with
  | Some r => target_verification_failure_reason s (er_target r)
                (default (switch_epoch s) (er_switch_epoch r))
  | None => "target_verification_timeout"
  end.

Definition record_verified_switch {E} (target : Host) (s : ProtocolState) : exec E ProtocolState :=
  if bool_decide (switch_epoch s = 0%N) then Ret s
  else
    let* count := expect (switch_count s !! target) "all host counters initialized" in
    Ret (s <| switch_count := <[target := sat_add count 1]> (switch_count s) |>).

Definition issue_fallback_command (now_ms : N) (t : ProtocolTiming) (se : SE) : SE :=
  let '(s, eff) := se in
  let s := s <| switch_epoch := sat_add (switch_epoch s) 1 |> in
  let s := s <| commanded_input := Some (server_host s) |>
             <| phase := FallbackCommandPending |>
             <| phase_deadline_ms := Some (sat_add now_ms (command_ms t)) |> in
  (s, eff ++ [SetInput (server_host s) (switch_epoch s) true]).

Definition display_restore_required (s : ProtocolState) : bool :=
  fallback_required s
  || bool_decide (is_Some (pending_multiview s))
  || some_and (active_request s) (fun r =>
       bool_decide (is_Some (er_switch_epoch r)) && has_display_route s (er_target r))
  || some_and (active_session s) (fun a => has_display_route s (as_target a)).

(** A managed remote host that fails arms manual recovery towards it. *)
Definition arm_recovery_for (target : option Host) (s : ProtocolState) : ProtocolState :=
  match target with
  | Some h =>
      if negb (bool_decide (h = server_host s)) && has_display_route s h
      then s <| manual_recovery_target := Some h |> else s
  | None => s
  end.

(** The committed request behind the active session is marked as fallen back. *)
Definition mark_committed_fallback (reason : string) (s : ProtocolState) : ProtocolState :=
  match active_session s with
  | Some a =>
      update_archived (as_request_id a)
        (fun r => if bool_decide (er_status r = StCommitted)
                  then r <| er_status := StFallback |> <| er_reason := Some reason |> else r) s
  | None => s
  end.

(** [if let Some(mut request) = state.active_request.take() { .. }] *)
Definition archive_active_as (status : RequestStatus) (reason : string) (s : ProtocolState)
  : ProtocolState :=
  match active_request s with
  | Some r =>
      archive_request (r <| er_status := status |> <| er_reason := Some reason |>)
        (s <| active_request := None |>)
  | None => s
  end.

Definition begin_fallback_with_restore (now_ms : N) (t : ProtocolTiming) (reason : string)
    (restore_display : bool) (se : SE) : SE :=
  let '(s, eff) := se in
  let s := arm_recovery_for (er_target <$> active_request s) s in
  let s := mark_committed_fallback reason s in
  let s := release_to_server s in
  let s := s <| fallback_required := restore_display |>
             <| fallback_reason := Some reason |>
             <| verified_epoch := None |>
             <| pending_multiview := None |>
             <| observation_in_flight := None |>
             <| next_signal_poll_ms := None |> in
  let s := archive_active_as StFallback reason s in
  if restore_display && daemon_healthy s then issue_fallback_command now_ms t (s, eff)
  else if restore_display || negb (daemon_healthy s) then
    (s <| phase := FallbackDeferred |> <| phase_deadline_ms := None |>, eff)
  else
    (s <| fallback_reason := None |> <| phase := Idle |> <| phase_deadline_ms := None |>, eff).

Definition begin_fallback (now_ms : N) (t : ProtocolTiming) (reason : string) (se : SE) : SE :=
  begin_fallback_with_restore now_ms t reason (display_restore_required (fst se)) se.

Definition begin_active_session_failure_fallback (now_ms : N) (t : ProtocolTiming)
    (reason : string) (se : SE) : SE :=
  let '(s, eff) := se in
  begin_fallback now_ms t reason (arm_recovery_for (as_target <$> active_session s) s, eff).

Definition finish_fallback {E} (s : ProtocolState) : exec E ProtocolState :=
  let s := release_to_server s in
  let s := s <| fallback_required := false |>
             <| fallback_reason := None |>
             <| phase := Idle |>
             <| phase_deadline_ms := None |>
             <| observation_in_flight := None |>
             <| next_signal_poll_ms := None |> in
  let s := s <| verified_epoch := Some (switch_epoch s) |> in
  record_verified_switch (server_host s) s.

Definition manual_display_observed (s : ProtocolState) : bool :=
  (negb (bool_decide (tv_mode s = Fullscreen))
   || negb (bool_decide (observed_input s = Some (server_host s))))
  && bool_decide (keyboard_owner s = server_host s)
  && bool_decide (pointer_owner s = server_host s)
  && bool_decide (active_request s = None)
  && bool_decide (active_session s = None).

Definition accept_manual_display (s : ProtocolState) : ProtocolState :=
  let s := release_to_server s in
  s <| commanded_input := None |>
    <| manual_recovery_target := None |>
    <| fallback_required := false |>
    <| fallback_reason := None |>
    <| pending_multiview := None |>
    <| phase := Idle |>
    <| phase_deadline_ms := None |>
    <| observation_in_flight := None |>
    <| next_signal_poll_ms := None |>.

Definition request_observation (now_ms : N) (t : ProtocolTiming) (epoch : N) (se : SE) : SE :=
  let '(s, eff) := se in
  (s <| observation_in_flight := Some epoch |>
     <| next_signal_poll_ms := None |>
     <| phase_deadline_ms := Some (sat_add now_ms (observation_ms t)) |>,
   eff ++ [Observe epoch]).

Definition request_observation_preserving_deadline (now_ms : N) (t : ProtocolTiming) (epoch : N)
    (se : SE) : SE :=
  let deadline := phase_deadline_ms (fst se) in
  let '(s, eff) := request_observation now_ms t epoch se in
  (s <| phase_deadline_ms := deadline |>, eff).

Definition issue_grant {E} (now_ms : N) (t : ProtocolTiming) (s : ProtocolState)
  : exec E ProtocolState :=
  let s := s <| grant_epoch := sat_add (grant_epoch s) 1 |> in
  let* r := expect (active_request s) "active request" in
  let target := er_target r in
  let* epoch := expect (er_switch_epoch r) "switch epoch" in
  let expires := N.min (sat_add now_ms (grant_ms t)) (lease_expires_at_ms (er_lease r)) in
  let r := r <| er_status := StGrant |>
             <| er_deadline_ms := expires |>
             <| er_grant := Some (mkGrant (grant_epoch s) epoch expires) |> in
  let s := s <| active_request := Some r |>
             <| verified_epoch := Some epoch |>
             <| phase := GrantPending |>
             <| phase_deadline_ms := Some expires |> in
  record_verified_switch target s.

Definition begin_switch {E} (now_ms : N) (t : ProtocolTiming) (se : SE) : exec E SE :=
  let '(s, eff) := se in
  let s := s <| switch_epoch := sat_add (switch_epoch s) 1 |> in
  let epoch := switch_epoch s in
  let* r := expect (active_request s) "active request" in
  let r := r <| er_status := StSwitching |>
             <| er_switch_epoch := Some epoch |>
             <| er_deadline_ms := sat_add (sat_add now_ms (command_ms t)) (observation_ms t) |> in
  let target := er_target r in
  let s := s <| active_request := Some r |> in
  if negb (has_display_route s target) then
    let s := s <| commanded_input := None |> <| phase_deadline_ms := None |> in
    let* s := issue_grant now_ms t s in
    Ret (s, eff)
  else
    Ret (s <| commanded_input := Some target |>
           <| phase := Switching |>
           <| phase_deadline_ms := Some (sat_add now_ms (command_ms t)) |>,
         eff ++ [SetInput target epoch false]).

Definition complete_multiview_observation (now_ms : N) (t : ProtocolTiming) (se : SE) : SE :=
  let '(s, eff) := se in
  match pending_multiview s with
  | None => se
  | Some enabled =>
      let expected := if enabled : bool then Multiview else Fullscreen in
      if negb (bool_decide (tv_mode s = expected)) then
        begin_fallback now_ms t "multiview_observation_mismatch" se
      else if enabled then
        (s <| pending_multiview := None |> <| phase := Idle |> <| phase_deadline_ms := None |>, eff)
      else begin_fallback now_ms t "multiview_exit_server_verify" se
  end.

(** The runtime check at the end of every transition that is not an early
    [Ok] return. *)
Definition validated (now_ms : N) (se : SE) : exec ProtocolError Transition :=
  match validate (fst se) now_ms with
  | Some v => Throw (Invariant (violation_to_string v))
  | None => Ret (mkTransition (fst se) (snd se))
  end.

(** ** Event handlers *)

Definition on_transport_synchronized (now_ms : N) (t : ProtocolTiming) (mode : TvMode)
    (input : option Host) (signals : gmap Host bool) (s : ProtocolState)
  : exec ProtocolError Transition :=
  let s := s <| ws_state := Connected |> <| subscribe_active := true |> <| synchronized := true |> in
  let epoch := switch_epoch s in
  let s := store_observation epoch now_ms mode input signals s in
  if server_display_verified s epoch then
    let* s := finish_fallback s in
    validated now_ms (s, [])
  else if manual_display_observed s then validated now_ms (accept_manual_display s, [])
  else validated now_ms (begin_fallback now_ms t "startup_or_reconnect_resync" (s, [])).

Definition on_transport_disconnected (now_ms : N) (t : ProtocolTiming) (reason : string)
    (s : ProtocolState) : exec ProtocolError Transition :=
  let s := s <| ws_state := Disconnected |>
             <| subscribe_active := false |>
             <| synchronized := false |>
             <| reconnect_total := sat_add (reconnect_total s) 1 |>
             <| last_error := Some reason |> in
  validated now_ms (begin_fallback now_ms t reason (s, [])).

(** First half of the readiness handler: the pending request of that host. *)
Definition readiness_request_part (now_ms : N) (t : ProtocolTiming) (host : Host)
    (readiness : PeerReadiness) (se : SE) : exec ProtocolError SE :=
  let s := fst se in
  if bool_decide (er_target <$> active_request s = Some host) then
    let lease_session :=
      default 0%N ((fun r => peer_session_epoch (er_lease r)) <$> active_request s) in
    if bool_decide (phase s = Waking) && bundle_ready readiness lease_session then
      begin_switch now_ms t se
    else if bool_decide (phase s ∈ [Switching; Verifying; GrantPending])
            && negb (bundle_ready readiness lease_session) then
      Ret (begin_fallback now_ms t "target_readiness_lost" se)
    else Ret se
  else Ret se.

(** Second half: the host that owns the input. *)
Definition readiness_owner_part (now_ms : N) (t : ProtocolTiming) (host : Host)
    (readiness : PeerReadiness) (se : SE) : SE :=
  let s := fst se in
  if bool_decide (keyboard_owner s = host) && negb (bool_decide (host = server_host s)) then
    let epoch := default 0%N ((fun a => peer_session_epoch (as_lease a)) <$> active_session s) in
    if negb (bundle_ready readiness epoch) then
      begin_active_session_failure_fallback now_ms t "active_peer_readiness_lost" se
    else se
  else se.

Definition on_peer_readiness_updated (now_ms : N) (t : ProtocolTiming) (host : Host)
    (readiness : PeerReadiness) (s : ProtocolState) : exec ProtocolError Transition :=
  let s := s <| peers := <[host := readiness]> (peers s) |> in
  let* se := readiness_request_part now_ms t host readiness (s, []) in
  validated now_ms (readiness_owner_part now_ms t host readiness se).

Definition on_arm_manual_recovery (now_ms : N) (target : Host) (s : ProtocolState)
  : exec ProtocolError Transition :=
  if bool_decide (target = server_host s) then Throw InvalidManualRecoveryTarget
  else if negb (ready s)
          || negb (bool_decide (phase s = Idle))
          || negb (bool_decide (keyboard_owner s = server_host s))
          || negb (bool_decide (pointer_owner s = server_host s))
          || bool_decide (is_Some (active_request s))
          || bool_decide (is_Some (active_session s))
          || negb (server_display_verified s (switch_epoch s))
  then Throw Unavailable
  else validated now_ms (s <| manual_recovery_target := Some target |>, []).

(** Whether a replayed [CreateEnter] names the same transaction. *)
Definition same_enter_identity (existing : EnterRequest) (client : string) (target : Host)
    (lease : LeaseIdentity) : bool :=
  bool_decide (er_client_id existing = client)
  && bool_decide (er_target existing = target)
  && bool_decide (lease_id (er_lease existing) = lease_id lease)
  && bool_decide (lease_epoch (er_lease existing) = lease_epoch lease).

(** The admitted part of [CreateEnter], after all rejections. *)
Definition admit_enter (now_ms : N) (t : ProtocolTiming) (rid client : string) (target : Host)
    (lease : LeaseIdentity) (s : ProtocolState) : exec ProtocolError Transition :=
  let s := s <| manual_recovery_target := None |>
             <| request_epoch := sat_add (request_epoch s) 1 |> in
  let req_epoch := request_epoch s in
  let r := mkEnterRequest rid client target req_epoch lease StSwitching None None
             (sat_add now_ms (command_ms t)) None in
  let start s :=
    let* se := begin_switch now_ms t (s <| active_request := Some r |>, []) in
    validated now_ms se in
  if bool_decide (target = server_host s) then start (release_to_server s)
  else
    let readiness := default PeerReadiness_default (peers s !! target) in
    if negb (online readiness) then
      let deadline := sat_add now_ms (wake_ms t) in
      let r := r <| er_status := StWaking |> <| er_deadline_ms := deadline |> in
      validated now_ms
        (s <| phase := Waking |>
           <| phase_deadline_ms := Some deadline |>
           <| active_request := Some r |>, [Wake target req_epoch])
    else if negb (bundle_ready readiness (peer_session_epoch lease)) then
      let r := r <| er_status := StDenied |> <| er_reason := Some "target_input_not_ready" |> in
      validated now_ms (archive_request r (s <| manual_recovery_target := Some target |>), [])
    else start s.

Definition on_create_enter (now_ms : N) (t : ProtocolTiming) (rid client : string) (target : Host)
    (lease : LeaseIdentity) (s : ProtocolState) : exec ProtocolError Transition :=
  match request s rid with
  | Some existing =>
      if same_enter_identity existing client target lease then Ret (mkTransition s [])
      else Throw RequestIdentityConflict
  | None =>
      match active_request s with
      | Some a => Throw (Busy (er_request_id a))
      | None =>
          if negb (ready s) then Throw Unavailable
          else if bool_decide (lease_id lease = "") || (lease_expires_at_ms lease <=? now_ms)%N
          then Throw InvalidLease
          else admit_enter now_ms t rid client target lease s
      end
  end.

Definition on_command_acknowledged (now_ms : N) (t : ProtocolTiming) (epoch : N) (target : Host)
    (s : ProtocolState) : exec ProtocolError Transition :=
  if negb (bool_decide (switch_epoch s = epoch))
     || negb (bool_decide (commanded_input s = Some target))
  then Ret (mkTransition s [])
  else if bool_decide (observation_in_flight s = None)
          && bool_decide (phase s ∈ [Switching; FallbackCommandPending])
  then
    let s := s <| phase := if fallback_required s then FallbackVerifying else Verifying |> in
    validated now_ms (request_observation now_ms t epoch (s, []))
  else validated now_ms (s, []).

Definition on_command_failed (now_ms : N) (t : ProtocolTiming) (epoch : N) (reason : string)
    (s : ProtocolState) : exec ProtocolError Transition :=
  if bool_decide (switch_epoch s = epoch) then
    validated now_ms (begin_fallback now_ms t reason (s <| last_error := Some reason |>, []))
  else validated now_ms (s, []).

(** The branch of [Observation] for a pending request. *)
Definition observation_request_part (now_ms : N) (t : ProtocolTiming) (epoch : N)
    (r : EnterRequest) (s : ProtocolState) : exec ProtocolError Transition :=
  if negb (bool_decide (er_switch_epoch r = Some epoch)) then validated now_ms (s, [])
  else
    let target := er_target r in
    let verified := target_display_verified s target epoch in
    let grant :=
      let* s := issue_grant now_ms t s in
      validated now_ms (s, []) in
    if bool_decide (phase s = Verifying) && verified then
      if negb (bool_decide (target = server_host s)) then
        if negb (peer_ready s target (peer_session_epoch (er_lease r)))
           || (lease_expires_at_ms (er_lease r) <=? now_ms)%N
        then validated now_ms
               (begin_fallback now_ms t "lease_or_readiness_lost_before_grant" (s, []))
        else grant
      else grant
    else if bool_decide (phase s = GrantPending) && negb verified then
      validated now_ms (begin_fallback now_ms t "target_observation_failed" (s, []))
    else validated now_ms (s, []).

(** The branch of [Observation] for an owned remote session. *)
Definition observation_session_part (now_ms : N) (t : ProtocolTiming) (epoch : N)
    (s : ProtocolState) : SE :=
  match active_session s with
  | Some a =>
      if bool_decide (as_switch_epoch a = epoch)
         && negb (target_display_verified s (as_target a) epoch)
      then begin_active_session_failure_fallback now_ms t "active_signal_lost" (s, [])
      else (s <| phase_deadline_ms := None |>
              <| next_signal_poll_ms := Some (sat_add now_ms (signal_poll_ms t)) |>, [])
  | None => (s, [])
  end.

Definition on_observation (now_ms : N) (t : ProtocolTiming) (epoch : N) (mode : TvMode)
    (input : option Host) (signals : gmap Host bool) (s : ProtocolState)
  : exec ProtocolError Transition :=
  let s := store_observation epoch now_ms mode input signals s in
  let s := if bool_decide (observation_in_flight s = Some epoch)
           then s <| observation_in_flight := None |> else s in
  if fallback_required s && bool_decide (switch_epoch s = epoch) then
    if server_display_verified s epoch then
      let* s := finish_fallback s in
      validated now_ms (s, [])
    else validated now_ms (s <| phase := FallbackVerifying |>, [])
  else match active_request s with
  | Some r => observation_request_part now_ms t epoch r s
  | None =>
      if bool_decide (phase s = RemoteOwned) then
        validated now_ms (observation_session_part now_ms t epoch s)
      else if bool_decide (phase s = MultiviewChanging) then
        validated now_ms (complete_multiview_observation now_ms t (s, []))
      else validated now_ms (s, [])
  end.

(** The search for an already committed request in [Commit]. *)
Definition is_committed (rid : string) (r : EnterRequest) : bool :=
  has_id rid r && bool_decide (er_status r = StCommitted).

(** The ownership transfer of [Commit], once every identity has matched. *)
Definition commit_ownership (now_ms : N) (t : ProtocolTiming) (req_epoch : N)
    (r : EnterRequest) (s : ProtocolState) : exec ProtocolError Transition :=
  let s := s <| active_request := None |> in
  let* epoch := expect (er_switch_epoch r) "grant switch epoch" in
  let r := r <| er_status := StCommitted |>
             <| er_reason := None |>
             <| er_lease := (er_lease r) <| lease_expires_at_ms := sat_add now_ms (lease_ms t) |> |> in
  let target := er_target r in
  let s := s <| keyboard_owner := target |>
             <| pointer_owner := target |>
             <| fallback_required := false |>
             <| fallback_reason := None |>
             <| manual_recovery_target := None |>
             <| phase_deadline_ms := None |>
             <| observation_in_flight := None |> in
  let s :=
    if bool_decide (target = server_host s) then
      s <| active_session := None |> <| phase := Idle |> <| next_signal_poll_ms := None |>
    else
      s <| active_session := Some (mkActiveSession (er_request_id r) target req_epoch epoch
             (er_lease r) (sat_add now_ms (lease_ms t))) |>
        <| phase := RemoteOwned |>
        <| next_signal_poll_ms :=
             if has_display_route s target
             then Some (sat_add now_ms (signal_poll_ms t)) else None |> in
  validated now_ms (archive_request r s, []).

Definition on_commit (now_ms : N) (t : ProtocolTiming) (rid : string) (req_epoch grant_ep : N)
    (lid : string) (lepoch : N) (s : ProtocolState) : exec ProtocolError Transition :=
  match find_last (is_committed rid) (request_history s) with
  | Some c =>
      if bool_decide (er_request_epoch c = req_epoch)
         && bool_decide (lease_id (er_lease c) = lid)
         && bool_decide (lease_epoch (er_lease c) = lepoch)
         && bool_decide (gr_grant_epoch <$> er_grant c = Some grant_ep)
      then validated now_ms (s, [])
      else Throw StaleIdentity
  | None =>
      let* r := ok_or (active_request s) RequestNotFound in
      let* g := ok_or (er_grant r) StaleIdentity in
      if negb (bool_decide (er_request_id r = rid))
         || negb (bool_decide (er_request_epoch r = req_epoch))
         || negb (bool_decide (er_status r = StGrant))
         || negb (bool_decide (lease_id (er_lease r) = lid))
         || negb (bool_decide (lease_epoch (er_lease r) = lepoch))
         || negb (bool_decide (gr_grant_epoch g = grant_ep))
         || (gr_expires_at_ms g <=? now_ms)%N
         || (lease_expires_at_ms (er_lease r) <=? now_ms)%N
      then Throw StaleIdentity
      else if negb (bool_decide (er_target r = server_host s))
              && negb (peer_ready s (er_target r) (peer_session_epoch (er_lease r)))
      then validated now_ms (begin_fallback now_ms t "readiness_lost_before_commit" (s, []))
      else commit_ownership now_ms t req_epoch r s
  end.

Definition is_cancelled (rid : string) (r : EnterRequest) : bool :=
  has_id rid r && bool_decide (er_status r ∈ [StCancelled; StFallback]).

(** Cancelling a request that has not been committed. *)
Definition cancel_pending (now_ms : N) (t : ProtocolTiming) (reason : string) (r : EnterRequest)
    (s : ProtocolState) : exec ProtocolError Transition :=
  let tv_may_have_changed := bool_decide (is_Some (er_switch_epoch r)) in
  let s := s <| active_request := None |> in
  let s := if negb (bool_decide (er_target r = server_host s))
           then s <| manual_recovery_target := Some (er_target r) |> else s in
  let s := archive_request (r <| er_status := StCancelled |> <| er_reason := Some reason |>) s in
  if tv_may_have_changed then validated now_ms (begin_fallback now_ms t reason (s, []))
  else validated now_ms (s <| phase := Idle |> <| phase_deadline_ms := None |>, []).

Definition on_cancel (now_ms : N) (t : ProtocolTiming) (rid reason : string) (s : ProtocolState)
  : exec ProtocolError Transition :=
  if existsb (is_cancelled rid) (rev (request_history s)) then validated now_ms (s, [])
  else if some_and (active_session s) (fun a => bool_decide (as_request_id a = rid)) then
    let* _ := ok_or (archived_request s rid) RequestNotFound in
    let s := update_archived rid
      (fun r => r <| er_status := StCancelled |> <| er_reason := Some reason |>) s in
    validated now_ms (begin_fallback now_ms t reason (s, []))
  else
    let* r := ok_or (active_request s) RequestNotFound in
    if negb (bool_decide (er_request_id r = rid)) then Throw RequestNotFound
    else cancel_pending now_ms t reason r s.

(** Whether a renewal names the active session and its peer is still ready. *)
Definition renewal_valid (s : ProtocolState) (rid lid : string) (lepoch psession : N) : bool :=
  match active_session s with
  | Some a =>
      bool_decide (as_request_id a = rid)
      && bool_decide (lease_id (as_lease a) = lid)
      && bool_decide (lease_epoch (as_lease a) = lepoch)
      && bool_decide (peer_session_epoch (as_lease a) = psession)
      && peer_ready s (as_target a) psession
  | None => false
  end.

Definition on_renew (now_ms : N) (t : ProtocolTiming) (rid lid : string) (lepoch psession : N)
    (s : ProtocolState) : exec ProtocolError Transition :=
  if negb (renewal_valid s rid lid lepoch psession) then
    validated now_ms
      (begin_active_session_failure_fallback now_ms t "lease_renewal_rejected" (s, []))
  else
    let* a := expect (active_session s) "validated session" in
    let expires := sat_add now_ms (lease_ms t) in
    let a := a <| as_renewed_until_ms := expires |>
               <| as_lease := (as_lease a) <| lease_expires_at_ms := expires |> |> in
    validated now_ms (s <| active_session := Some a |>, []).

Definition on_multiview_requested (now_ms : N) (t : ProtocolTiming) (enabled : bool)
    (s : ProtocolState) : exec ProtocolError Transition :=
  if negb (ready s) then Throw Unavailable
  else if negb (bool_decide (keyboard_owner s = server_host s))
          || negb (bool_decide (pointer_owner s = server_host s))
  then Throw InputNotLocal
  else if bool_decide (is_Some (active_request s)) || bool_decide (is_Some (pending_multiview s))
  then Throw (Busy (default "multiview" (er_request_id <$> active_request s)))
  else
    let s := s <| switch_epoch := sat_add (switch_epoch s) 1 |> in
    let s := s <| pending_multiview := Some enabled |>
               <| phase := MultiviewChanging |>
               <| phase_deadline_ms := Some (sat_add now_ms (command_ms t)) |> in
    validated now_ms (s, [SetMultiView enabled (switch_epoch s)]).

Definition on_multiview_acknowledged (now_ms : N) (t : ProtocolTiming) (epoch : N) (enabled : bool)
    (s : ProtocolState) : exec ProtocolError Transition :=
  if bool_decide (switch_epoch s = epoch) && bool_decide (pending_multiview s = Some enabled) then
    let '(s, eff) := request_observation now_ms t epoch (s, []) in
    validated now_ms (s <| phase := MultiviewChanging |>, eff)
  else validated now_ms (s, []).

(** [target_mismatch] of the subscription handler. *)
Definition target_mismatch (mode : TvMode) (input : option Host) (target : Host) : bool :=
  negb (bool_decide (mode = Fullscreen)) || negb (bool_decide (input = Some target)).

Definition on_subscription_observed (now_ms : N) (t : ProtocolTiming) (mode : TvMode)
    (input : option Host) (s : ProtocolState) : exec ProtocolError Transition :=
  let s := s <| tv_mode := mode |> <| observed_input := input |> in
  let active_target := er_target <$> active_request s in
  let session_target := as_target <$> active_session s in
  let unexpected h := has_display_route s h && target_mismatch mode input h in
  validated now_ms
    (if fallback_required s
        && bool_decide (phase s = FallbackVerifying)
        && bool_decide (mode = Fullscreen)
        && bool_decide (input = Some (server_host s))
        && bool_decide (observation_in_flight s = None)
     then request_observation_preserving_deadline now_ms t (switch_epoch s) (s, [])
     else if bool_decide (phase s = Verifying)
        && some_and active_target
             (fun h => bool_decide (mode = Fullscreen) && bool_decide (input = Some h))
        && bool_decide (observation_in_flight s = None)
     then request_observation_preserving_deadline now_ms t (switch_epoch s) (s, [])
     else if bool_decide (phase s = GrantPending) && some_and active_target unexpected
     then begin_fallback now_ms t "unexpected_tv_subscription" (s, [])
     else if some_and session_target unexpected
     then begin_fallback now_ms t "unexpected_tv_subscription" (s, [])
     else if manual_display_observed s then (accept_manual_display s, [])
     else if bool_decide (phase s = Idle)
        && bool_decide (mode = Fullscreen)
        && bool_decide (input = Some (server_host s))
     then (s <| manual_recovery_target := None |>, [])
     else if bool_decide (phase s = Idle)
        && (negb (bool_decide (mode = Fullscreen))
            || some_and input (fun observed => negb (bool_decide (observed = server_host s))))
     then begin_fallback now_ms t "manual_tv_override" (s, [])
     else (s, [])).

(** A deadline that has passed: [d.is_some_and(|deadline| deadline <= now_ms)]. *)
Definition due (d : option N) (now_ms : N) : bool :=
  some_and d (fun x => (x <=? now_ms)%N).

(** First half of [Tick]: a pending request whose deadline has passed. *)
Definition tick_request_part (now_ms : N) (t : ProtocolTiming) (s : ProtocolState) : SE :=
  match active_request s with
  | Some r =>
      if (er_deadline_ms r <=? now_ms)%N then
        let waking := bool_decide (er_status r = StWaking) in
        let restore_display := display_restore_required s in
        let s := s <| active_request := None |> in
        let s := if negb (bool_decide (er_target r = server_host s))
                 then s <| manual_recovery_target := Some (er_target r) |> else s in
        let s := archive_request
          (r <| er_status := StExpired |> <| er_reason := Some "request_deadline" |>) s in
        if waking then (s <| phase := Idle |> <| phase_deadline_ms := None |>, [])
        else begin_fallback_with_restore now_ms t "request_deadline" restore_display (s, [])
      else (s, [])
  | None => (s, [])
  end.

(** Second half of [Tick]: the session lease and the phase deadline. *)
Definition tick_phase_part (now_ms : N) (t : ProtocolTiming) (se : SE) : exec ProtocolError SE :=
  let s := fst se in
  if some_and (active_session s) (fun a => session_expired a now_ms) then
    Ret (begin_active_session_failure_fallback now_ms t "active_lease_expired" se)
  else if bool_decide (phase s = RemoteOwned)
          && bool_decide (observation_in_flight s = None)
          && due (next_signal_poll_ms s) now_ms
  then
    let* epoch := expect (as_switch_epoch <$> active_session s) "remote owned session" in
    Ret (request_observation now_ms t epoch se)
  else if bool_decide (is_Some (observation_in_flight s)) && due (phase_deadline_ms s) now_ms then
    let reason := verification_timeout_reason s in
    if bool_decide (is_Some (active_session s))
    then Ret (begin_active_session_failure_fallback now_ms t reason se)
    else Ret (begin_fallback now_ms t reason se)
  else if bool_decide (phase s = Verifying) && due (phase_deadline_ms s) now_ms then
    Ret (begin_fallback now_ms t (verification_timeout_reason s) se)
  else if (bool_decide (phase s ∈ [FallbackCommandPending; FallbackVerifying])
           && due (phase_deadline_ms s) now_ms)
          || (bool_decide (phase s = FallbackDeferred) && daemon_healthy s)
  then Ret (issue_fallback_command now_ms t se)
  else if bool_decide (phase s = MultiviewChanging) && due (phase_deadline_ms s) now_ms then
    Ret (begin_fallback now_ms t "multiview_timeout" se)
  else Ret se.

Definition on_tick (now_ms : N) (t : ProtocolTiming) (s : ProtocolState)
  : exec ProtocolError Transition :=
  let* se := tick_phase_part now_ms t (tick_request_part now_ms t s) in
  validated now_ms se.

Definition on_shutdown (now_ms : N) (s : ProtocolState) : exec ProtocolError Transition :=
  let s := s <| ws_state := Disconnected |> <| subscribe_active := false |> <| synchronized := false |> in
  let s := release_to_server s in
  validated now_ms
    (s <| fallback_required := true |>
       <| fallback_reason := Some "shutdown" |>
       <| phase := FallbackDeferred |>
       <| active_request := None |>
       <| pending_multiview := None |>
       <| phase_deadline_ms := None |>, []).

(** The three connection-progress events only move the transport flags. *)
Definition on_transport_progress (now_ms : N) (ws : WsState) (subscribed : bool)
    (s : ProtocolState) : exec ProtocolError Transition :=
  validated now_ms
    (s <| ws_state := ws |> <| subscribe_active := subscribed |> <| synchronized := false |>, []).

(** [protocol::apply] *)
Definition apply (s : ProtocolState) (e : Event) (now_ms : N) (t : ProtocolTiming)
  : exec ProtocolError Transition :=
  match e with
  | TransportConnecting => on_transport_progress now_ms Connecting false s
  | TransportRegistering => on_transport_progress now_ms Registering false s
  | TransportSubscribed => on_transport_progress now_ms Synchronizing true s
  | TransportSynchronized mode input signals =>
      on_transport_synchronized now_ms t mode input signals s
  | TransportDisconnected reason => on_transport_disconnected now_ms t reason s
  | PeerReadinessUpdated host readiness => on_peer_readiness_updated now_ms t host readiness s
  | ArmManualRecovery target => on_arm_manual_recovery now_ms target s
  | CreateEnter rid client target lease => on_create_enter now_ms t rid client target lease s
  | CommandAcknowledged epoch target => on_command_acknowledged now_ms t epoch target s
  | CommandFailed epoch reason => on_command_failed now_ms t epoch reason s
  | Observation epoch mode input signals => on_observation now_ms t epoch mode input signals s
  | Commit rid req_epoch grant_ep lid lepoch => on_commit now_ms t rid req_epoch grant_ep lid lepoch s
  | Cancel rid reason => on_cancel now_ms t rid reason s
  | Renew rid lid lepoch psession => on_renew now_ms t rid lid lepoch psession s
  | MultiViewRequested enabled => on_multiview_requested now_ms t enabled s
  | MultiViewAcknowledged epoch enabled => on_multiview_acknowledged now_ms t epoch enabled s
  | SubscriptionObserved mode input => on_subscription_observed now_ms t mode input s
  | Tick => on_tick now_ms t s
  | Shutdown => on_shutdown now_ms s
  end.
