(* ===== verification/ProtocolFacts.v ===== *)
(** * Behaviour of the protocol's helpers

    What each helper of [Protocol] changes and what it keeps.  The handlers'
    theorems use these specifications, never the helpers' bodies. *)

From stdpp Require Import base tactics list gmap strings.
From Stdlib Require Import NArith Lia.
From S2P Require Import Prelude Domain Protocol.

Implicit Types (s : ProtocolState) (r : EnterRequest) (now : N) (t : ProtocolTiming).

(** Compute through record updates in the goal. *)
Ltac fields := cbn [negb fst snd set server_host display_hosts ws_state subscribe_active synchronized
  phase tv_mode commanded_input observed_input input_signal peers request_epoch switch_epoch
  verified_epoch grant_epoch keyboard_owner pointer_owner active_request request_history
  retained_request_limit active_session pending_multiview observation_in_flight
  phase_deadline_ms next_signal_poll_ms fallback_required fallback_reason
  manual_recovery_target reconnect_total switch_count last_error dropped_logs
  er_request_id er_client_id er_target er_request_epoch er_lease er_status er_switch_epoch
  er_grant er_deadline_ms er_reason as_request_id as_target as_request_epoch as_switch_epoch
  as_lease as_renewed_until_ms lease_id lease_epoch peer_session_epoch lease_expires_at_ms
  gr_grant_epoch gr_switch_epoch gr_expires_at_ms next effects fmap option_fmap option_map].
Ltac fields_in H := cbn [negb fst snd set server_host display_hosts ws_state subscribe_active synchronized
  phase tv_mode commanded_input observed_input input_signal peers request_epoch switch_epoch
  verified_epoch grant_epoch keyboard_owner pointer_owner active_request request_history
  retained_request_limit active_session pending_multiview observation_in_flight
  phase_deadline_ms next_signal_poll_ms fallback_required fallback_reason
  manual_recovery_target reconnect_total switch_count last_error dropped_logs
  er_request_id er_client_id er_target er_request_epoch er_lease er_status er_switch_epoch
  er_grant er_deadline_ms er_reason as_request_id as_target as_request_epoch as_switch_epoch
  as_lease as_renewed_until_ms lease_id lease_epoch peer_session_epoch lease_expires_at_ms
  gr_grant_epoch gr_switch_epoch gr_expires_at_ms next effects fmap option_fmap option_map] in H.

(** ** History *)

Lemma has_id_true rid r : has_id rid r = true <-> er_request_id r = rid.
Proof. unfold has_id. apply bool_decide_eq_true. Qed.

(** The bounded, duplicate-free request history. *)
Record HistoryOk s : Prop := {
  ho_limit : 0 < retained_request_limit s;
  ho_length : length (request_history s) <= retained_request_limit s;
  ho_nodup : NoDup (map er_request_id (request_history s));
  ho_active : forall r, active_request s = Some r ->
    er_request_id r ∉ map er_request_id (request_history s) }.

Lemma archive_request_ids r s :
  exists kept, request_history (archive_request r s) = kept ++ [r]
    /\ kept `sublist_of` request_history s
    /\ (0 < retained_request_limit s -> length kept < retained_request_limit s)
    /\ (NoDup (map er_request_id (request_history s)) ->
        er_request_id r ∉ map er_request_id kept).
Proof.
  unfold archive_request. fields. eexists. split; [done|]. split; [|split].
  - etrans; [apply trim_front_sublist|apply remove_first_sublist].
  - apply trim_front_length.
  - intros Hnd Hin.
    eapply (remove_first_key_absent er_request_id); [intros x; apply has_id_true|exact Hnd|].
    eapply elem_of_sublist; [exact Hin|]. apply map_sublist, trim_front_sublist.
Qed.

(** An archived request is what a later lookup by its id finds. *)
Lemma archive_request_lookup r s :
  archived_request (archive_request r s) (er_request_id r) = Some r.
Proof.
  unfold archived_request, archive_request. fields. rewrite find_last_snoc.
  by rewrite (proj2 (has_id_true _ _) eq_refl).
Qed.

(** ** Shape of the helpers that touch one or two fields *)

Lemma arm_recovery_for_eq tgt s :
  exists m, arm_recovery_for tgt s = s <| manual_recovery_target := m |>
    /\ (m = manual_recovery_target s
        \/ exists h, tgt = Some h /\ m = Some h /\ h <> server_host s /\ has_display_route s h = true).
Proof.
  unfold arm_recovery_for. destruct tgt as [h|]; [case_match|].
  - norm_bool. exists (Some h). split; [done|]. right. eauto.
  - exists (manual_recovery_target s). split; [by destruct s|]. by left.
  - exists (manual_recovery_target s). split; [by destruct s|]. by left.
Qed.

Lemma mark_committed_fallback_eq reason s :
  exists hist, mark_committed_fallback reason s = s <| request_history := hist |>
    /\ map er_request_id hist = map er_request_id (request_history s).
Proof.
  unfold mark_committed_fallback. destruct (active_session s) as [a|].
  - eexists. split; [done|]. apply update_last_key. intros x. by case_match.
  - exists (request_history s). split; [by destruct s|done].
Qed.

Lemma archive_active_as_eq status reason s :
  exists hist, archive_active_as status reason s
    = s <| active_request := None |> <| request_history := hist |>
    /\ (hist = request_history s /\ active_request s = None
        \/ exists r, active_request s = Some r
           /\ hist = request_history (archive_request
                (r <| er_status := status |> <| er_reason := Some reason |>) s)).
Proof.
  unfold archive_active_as. destruct (active_request s) as [r|] eqn:E.
  - eexists. split; [reflexivity|]. right. exists r. split; [done|reflexivity].
  - exists (request_history s). split; [destruct s; fields_in E; by rewrite E|]. by left.
Qed.

(** ** Falling back *)

(** What every fallback guarantees about the next state [s'], whatever the
    reason and the state it starts from: both inputs are local, no transaction
    is left, and only managed remote hosts become recovery targets. *)
Record FellBack (restore : bool) s s' : Prop := {
  fb_server : server_host s' = server_host s;
  fb_display : display_hosts s' = display_hosts s;
  fb_limit : retained_request_limit s' = retained_request_limit s;
  fb_peers : peers s' = peers s;
  fb_count : switch_count s' = switch_count s;
  fb_ws : ws_state s' = ws_state s;
  fb_request_epoch : request_epoch s' = request_epoch s;
  fb_grant_epoch : grant_epoch s' = grant_epoch s;
  fb_keyboard : keyboard_owner s' = server_host s;
  fb_pointer : pointer_owner s' = server_host s;
  fb_session : active_session s' = None;
  fb_request : active_request s' = None;
  fb_verified : verified_epoch s' = None;
  fb_pending : pending_multiview s' = None;
  fb_in_flight : observation_in_flight s' = None;
  fb_poll : next_signal_poll_ms s' = None;
  fb_required : fallback_required s' = restore;
  fb_manual : manual_recovery_target s' = manual_recovery_target s
    \/ exists h, manual_recovery_target s' = Some h /\ h <> server_host s;
  fb_phase : phase s' = if restore then (if daemon_healthy s then FallbackCommandPending
                                         else FallbackDeferred)
                        else (if daemon_healthy s then Idle else FallbackDeferred);
  fb_switch_epoch : switch_epoch s' = if restore && daemon_healthy s
                                      then sat_add (switch_epoch s) 1 else switch_epoch s }.

(** The effects of a fallback: exactly one fenced command to show the server,
    when the display has to be restored and the transport is up. *)
Definition fallback_effects (restore : bool) s : list Effect :=
  if restore && daemon_healthy s
  then [SetInput (server_host s) (sat_add (switch_epoch s) 1) true] else [].

Lemma daemon_healthy_ext s s' :
  ws_state s' = ws_state s -> subscribe_active s' = subscribe_active s ->
  synchronized s' = synchronized s -> daemon_healthy s' = daemon_healthy s.
Proof. unfold daemon_healthy. by intros -> -> ->. Qed.

Lemma begin_fallback_with_restore_spec now t reason restore s eff :
  FellBack restore s (fst (begin_fallback_with_restore now t reason restore (s, eff)))
  /\ snd (begin_fallback_with_restore now t reason restore (s, eff))
     = eff ++ fallback_effects restore s.
Proof.
  unfold begin_fallback_with_restore, fallback_effects, release_to_server.
  destruct (arm_recovery_for_eq (er_target <$> active_request s) s) as (m&->&Hm).
  edestruct (mark_committed_fallback_eq reason) as (h1&->&_).
  edestruct (archive_active_as_eq StFallback reason) as (h2&->&_).
  match goal with |- context [daemon_healthy (set ?f ?g ?x)] =>
    rewrite (daemon_healthy_ext s (set f g x)) by done end.
  assert (m = manual_recovery_target s \/ exists h, m = Some h /\ h <> server_host s) as Hm'
    by (destruct Hm as [->|(h&_&->&?&_)]; eauto).
  destruct restore, (daemon_healthy s) eqn:Hd; fields; rewrite ?app_nil_r;
    (split; [|done]); split; fields; try rewrite Hd; done.
Qed.

Lemma begin_fallback_spec now t reason s eff :
  FellBack (display_restore_required s) s (fst (begin_fallback now t reason (s, eff)))
  /\ snd (begin_fallback now t reason (s, eff))
     = eff ++ fallback_effects (display_restore_required s) s.
Proof. apply begin_fallback_with_restore_spec. Qed.

Lemma begin_active_session_failure_fallback_spec now t reason s eff :
  exists restore,
  FellBack restore s (fst (begin_active_session_failure_fallback now t reason (s, eff)))
  /\ snd (begin_active_session_failure_fallback now t reason (s, eff))
     = eff ++ fallback_effects restore s.
Proof.
  unfold begin_active_session_failure_fallback.
  destruct (arm_recovery_for_eq (as_target <$> active_session s) s) as (m&->&Hm).
  set (s1 := set _ _ s). exists (display_restore_required s1).
  destruct (begin_fallback_spec now t reason s1 eff) as [[] Heff]. subst s1. fields_in fb_manual0.
  split; [|exact Heff]. split; try done.
  destruct fb_manual0 as [->|]; [|by right]. destruct Hm as [->|(h&_&->&?&_)]; [by left|eauto].
Qed.

(** A pending request is archived by a fallback, with the fallback's status. *)
Lemma begin_fallback_archives now t reason s eff r :
  active_request s = Some r ->
  archived_request (fst (begin_fallback now t reason (s, eff))) (er_request_id r)
  = Some (r <| er_status := StFallback |> <| er_reason := Some reason |>).
Proof.
  intros Hr. unfold begin_fallback, begin_fallback_with_restore, release_to_server.
  destruct (arm_recovery_for_eq (er_target <$> active_request s) s) as (m&->&_).
  edestruct (mark_committed_fallback_eq reason) as (h1&->&_).
  unfold archive_active_as. fields. rewrite Hr.
  match goal with |- context [archive_request ?x ?y] =>
    pose proof (archive_request_lookup x y) as Hlook;
    generalize dependent (archive_request x y); intros s1 Hlook end.
  fields_in Hlook. repeat case_match; exact Hlook.
Qed.

(** ** Other helpers *)

Lemma issue_fallback_command_spec now t s eff :
  let se := issue_fallback_command now t (s, eff) in
  fst se = s <| switch_epoch := sat_add (switch_epoch s) 1 |>
             <| commanded_input := Some (server_host s) |>
             <| phase := FallbackCommandPending |>
             <| phase_deadline_ms := Some (sat_add now (command_ms t)) |>
  /\ snd se = eff ++ [SetInput (server_host s) (sat_add (switch_epoch s) 1) true].
Proof. done. Qed.

Lemma record_verified_switch_Ret {E} h s :
  is_Some (switch_count s !! h) ->
  exists counts, @record_verified_switch E h s = Ret (s <| switch_count := counts |>)
    /\ forall h', is_Some (switch_count s !! h') -> is_Some (counts !! h').
Proof.
  intros [c Hc]. unfold record_verified_switch. case_match.
  - exists (switch_count s). split; [by destruct s|done].
  - rewrite Hc. exists (<[h := sat_add c 1]> (switch_count s)). split; [done|].
    intros h' Hh'. rewrite lookup_insert. destruct (decide (h = h')); [by eexists|done].
Qed.

Lemma record_verified_switch_inv {E} h s s' :
  @record_verified_switch E h s = Ret s' ->
  exists counts, s' = s <| switch_count := counts |>
    /\ forall h', is_Some (switch_count s !! h') -> is_Some (counts !! h').
Proof.
  unfold record_verified_switch. case_match.
  - intros [= <-]. exists (switch_count s). split; [by destruct s|done].
  - destruct (switch_count s !! h); simpl; [|done]. intros [= <-].
    eexists (<[h := sat_add _ 1]> (switch_count s)). split; [reflexivity|].
    intros h' Hh'. rewrite lookup_insert. destruct (decide (h = h')); [by eexists|done].
Qed.
