(* ===== verification/ProtocolFrame.v ===== *)
(** * What no event may change

    A preorder [Step] on protocol states that every transition respects, from
    any state whatsoever: the configuration is fixed, epochs never decrease,
    the request history stays bounded and duplicate-free, and the input owner
    only ever moves to the server, except by a commit. *)

From stdpp Require Import base tactics list gmap strings.
From Stdlib Require Import NArith Lia.
From S2P Require Import Prelude Domain Protocol ProtocolFacts.

Implicit Types (s : ProtocolState) (r : EnterRequest) (now : N) (t : ProtocolTiming)
  (o : option Host).

(** An epoch counter moved forward within its width. *)
Definition epoch_le (a b : N) : Prop := is_u64 a -> (a <= b)%N /\ is_u64 b.

#[global] Instance epoch_le_preorder : PreOrder epoch_le.
Proof.
  split; unfold epoch_le.
  - intros a Ha. split; [lia|done].
  - intros a b c H1 H2 Ha. destruct (H1 Ha) as [? Hb], (H2 Hb). split; [lia|done].
Qed.

Lemma epoch_le_bump a : epoch_le a (sat_add a 1).
Proof. intros Ha. split; [by apply sat_add_ge|apply sat_add_u64]. Qed.
#[export] Hint Resolve epoch_le_bump : dmx.

(** [o] is the host that a commit may make the owner. *)
Record Step o s s' : Prop := {
  st_server : server_host s' = server_host s;
  st_display : display_hosts s' = display_hosts s;
  st_limit : retained_request_limit s' = retained_request_limit s;
  st_request_epoch : epoch_le (request_epoch s) (request_epoch s');
  st_switch_epoch : epoch_le (switch_epoch s) (switch_epoch s');
  st_grant_epoch : epoch_le (grant_epoch s) (grant_epoch s');
  st_owner : keyboard_owner s' = keyboard_owner s \/ keyboard_owner s' = server_host s
             \/ o = Some (keyboard_owner s');
  st_history : HistoryOk s -> HistoryOk s' }.

#[global] Instance Step_preorder o : PreOrder (Step o).
Proof.
  split.
  - intros s. split; try done; by left.
  - intros x y z [] []. split; try (etrans; done); try congruence; [|by auto].
    destruct st_owner1 as [->|[->|?]]; [done|by right; left|by auto].
Qed.

Lemma step_refl o s : Step o s s.
Proof. apply reflexivity. Qed.

Lemma step_weaken o s s' : Step None s s' -> Step o s s'.
Proof. intros []. split; try done. naive_solver. Qed.

(** Close [Step] goals for updates of fields that [Step] does not constrain. *)
Ltac step_fields :=
  split; fields; auto with dmx; try reflexivity; try (intros []; split; fields; done).

Lemma step_release s : Step None s (release_to_server s).
Proof. unfold release_to_server. step_fields. Qed.

Lemma step_arm_recovery tgt s : Step None s (arm_recovery_for tgt s).
Proof. destruct (arm_recovery_for_eq tgt s) as (m&->&_). step_fields. Qed.

(** Rewriting archived entries in place keeps the history well formed. *)
Lemma history_ids_ok s hist :
  map er_request_id hist = map er_request_id (request_history s) ->
  HistoryOk s -> HistoryOk (s <| request_history := hist |>).
Proof.
  intros E []. split; fields; try rewrite E; try done.
  apply (f_equal length) in E. rewrite !List.length_map in E. lia.
Qed.

Lemma step_mark_committed reason s : Step None s (mark_committed_fallback reason s).
Proof.
  destruct (mark_committed_fallback_eq reason s) as (hist&->&Hids).
  step_fields. by apply history_ids_ok.
Qed.

Lemma step_update_archived rid f s :
  (forall r, er_request_id (f r) = er_request_id r) -> Step None s (update_archived rid f s).
Proof.
  intros Hf. unfold update_archived. step_fields. apply history_ids_ok. by apply update_last_key.
Qed.

Lemma step_archive r s : active_request s = None -> Step None s (archive_request r s).
Proof.
  intros Hn. destruct (archive_request_ids r s) as (kept&Hh&Hsub&Hlen&Hid).
  split; try (unfold archive_request; fields; by auto with dmx); try (unfold archive_request; fields; reflexivity).
  intros [Hl Hle Hnd Ha]. split.
  - done.
  - rewrite Hh, length_app. simpl. specialize (Hlen Hl).
    change (length kept + 1 <= retained_request_limit s). lia.
  - rewrite Hh, List.map_app. apply NoDup_app. split; [|split].
    + eapply sublist_NoDup; [exact Hnd|by apply map_sublist].
    + intros x Hx ->%list_elem_of_singleton. by apply Hid.
    + apply NoDup_singleton.
  - intros r' Hr'. change (active_request s = Some r') in Hr'. congruence.
Qed.

Lemma step_take_active s : Step None s (s <| active_request := None |>).
Proof. step_fields. Qed.

Lemma step_archive_active status reason s : Step None s (archive_active_as status reason s).
Proof.
  unfold archive_active_as. destruct (active_request s); [|reflexivity].
  etrans; [apply step_take_active|by apply step_archive].
Qed.

Lemma step_issue_fallback now t s eff : Step None s (fst (issue_fallback_command now t (s, eff))).
Proof. unfold issue_fallback_command. step_fields. Qed.

Lemma step_begin_fallback_with_restore now t reason restore s eff :
  Step None s (fst (begin_fallback_with_restore now t reason restore (s, eff))).
Proof.
  unfold begin_fallback_with_restore.
  match goal with |- context [archive_active_as StFallback reason ?x] => set (s1 := x) end.
  assert (Step None s s1) as H1.
  { subst s1. etrans; [apply step_arm_recovery|]. etrans; [apply step_mark_committed|].
    etrans; [apply step_release|]. step_fields. }
  etrans; [exact H1|]. etrans; [apply (step_archive_active StFallback reason)|].
  generalize (archive_active_as StFallback reason s1). intros s2.
  repeat case_match; [apply step_issue_fallback|step_fields|step_fields].
Qed.

Lemma step_begin_fallback now t reason s eff :
  Step None s (fst (begin_fallback now t reason (s, eff))).
Proof. apply step_begin_fallback_with_restore. Qed.

Lemma step_session_fallback now t reason s eff :
  Step None s (fst (begin_active_session_failure_fallback now t reason (s, eff))).
Proof.
  unfold begin_active_session_failure_fallback.
  etrans; [apply step_arm_recovery|apply step_begin_fallback].
Qed.

Lemma step_record_verified {E} h s s' : @record_verified_switch E h s = Ret s' -> Step None s s'.
Proof. intros (counts&->&_)%record_verified_switch_inv. step_fields. Qed.

Lemma step_finish_fallback {E} s s' : @finish_fallback E s = Ret s' -> Step None s s'.
Proof.
  unfold finish_fallback. intros H%step_record_verified.
  etrans; [apply step_release|]. etrans; [|exact H]. step_fields.
Qed.

(** Replacing the active request by one with the same id. *)
Lemma step_set_active s r r' :
  active_request s = Some r -> er_request_id r' = er_request_id r ->
  Step None s (s <| active_request := Some r' |>).
Proof.
  intros Hr Hid. step_fields. intros []. split; fields; try done.
  intros x [= <-]. rewrite Hid. by auto.
Qed.

Lemma step_issue_grant {E} now t s s' : @issue_grant E now t s = Ret s' -> Step None s s'.
Proof.
  unfold issue_grant. fields. destruct (active_request s) as [r|] eqn:Hr; [|done].
  cbn [expect exec_bind]. destruct (er_switch_epoch r) as [e|]; [|done]. cbn [expect exec_bind].
  intros H%step_record_verified. etrans; [|exact H].
  match goal with |- context [set active_request (fun _ => Some ?r') ?x] =>
    etrans; [|etrans; [apply (step_set_active x r r')|]] end; [step_fields|done|done|step_fields].
Qed.

Lemma step_begin_switch {E} now t s eff se :
  @begin_switch E now t (s, eff) = Ret se -> Step None s (fst se).
Proof.
  unfold begin_switch. fields. destruct (active_request s) as [r|] eqn:Hr; [|done].
  cbn [expect exec_bind].
  match goal with |- context [set active_request (fun _ => Some ?r') ?x] =>
    set (s1 := set active_request (fun _ => Some r') x);
    assert (Step None s s1) as H1
      by (etrans; [|apply (step_set_active x r r')]; [step_fields|done|done]) end.
  clearbody s1. case_match; intros Hret; invert_exec; (etrans; [exact H1|]).
  - fields. etrans; [|eapply step_issue_grant; done]. step_fields.
  - step_fields.
Qed.

(** ** Handlers *)

Lemma validated_Ret now se tr :
  validated now se = Ret tr <->
  validate (fst se) now = None /\ tr = mkTransition (fst se) (snd se).
Proof. unfold validated. case_match; naive_solver. Qed.

(** [Step] for a computation that ends in [validated]. *)
Definition steps o s (m : exec ProtocolError Transition) : Prop :=
  forall tr, m = Ret tr -> Step o s (next tr).

Lemma steps_validated o now s se : Step o s (fst se) -> steps o s (validated now se).
Proof. intros H tr [_ ->]%validated_Ret. done. Qed.

Lemma steps_bind {A} o s (m : exec ProtocolError A) k :
  (forall x, m = Ret x -> steps o s (k x)) -> steps o s (exec_bind m k).
Proof. intros H tr (x&Hx&Hk)%exec_bind_Ret. by eapply H. Qed.

Lemma steps_throw o s e : steps o s (Throw e).
Proof. by intros tr. Qed.

Lemma steps_trans o s s1 m : Step None s s1 -> steps o s1 m -> steps o s m.
Proof. intros H1 H2 tr Htr. etrans; [by apply step_weaken|by apply H2]. Qed.

#[export] Hint Resolve step_refl step_release step_arm_recovery step_begin_fallback
  step_begin_fallback_with_restore step_session_fallback steps_throw : dmx.

Lemma step_store_observation epoch now mode input signals s :
  Step None s (store_observation epoch now mode input signals s).
Proof. unfold store_observation. step_fields. Qed.

Lemma steps_finish_fallback now s :
  steps None s (exec_bind (finish_fallback s) (fun s => validated now (s, []))).
Proof. apply steps_bind. intros s' H. by apply steps_validated, (step_finish_fallback (E:=ProtocolError)). Qed.

Lemma step_accept_manual s : Step None s (accept_manual_display s).
Proof. unfold accept_manual_display. etrans; [apply step_release|]. step_fields. Qed.

Lemma steps_transport_synchronized now t mode input signals s :
  steps None s (on_transport_synchronized now t mode input signals s).
Proof.
  unfold on_transport_synchronized. cbv zeta.
  match goal with |- context [store_observation ?e ?n ?m ?i ?g ?x] =>
    set (s1 := store_observation e n m i g x) end.
  eapply (steps_trans _ _ s1); [etrans; [|apply step_store_observation]; step_fields|].
  clearbody s1.
  repeat case_match; [apply steps_finish_fallback|apply steps_validated, step_accept_manual|].
  apply steps_validated, step_begin_fallback.
Qed.

Lemma step_readiness_owner now t host p se :
  Step None (fst se) (fst (readiness_owner_part now t host p se)).
Proof.
  destruct se as [s eff]. unfold readiness_owner_part.
  repeat case_match; [apply step_session_fallback|reflexivity..].
Qed.

Lemma step_readiness_request now t host p s eff se :
  readiness_request_part now t host p (s, eff) = Ret se -> Step None s (fst se).
Proof.
  unfold readiness_request_part. fields. case_match; [case_match; [|case_match]|].
  - by intros Hb%step_begin_switch.
  - intros <-%Ret_inj. apply step_begin_fallback.
  - intros <-%Ret_inj. apply step_refl.
  - intros <-%Ret_inj. apply step_refl.
Qed.

Lemma steps_peer_readiness now t host p s :
  steps None s (on_peer_readiness_updated now t host p s).
Proof.
  unfold on_peer_readiness_updated. cbv zeta.
  eapply (steps_trans _ _ (s <| peers := <[host := p]> (peers s) |>)); [step_fields|].
  apply steps_bind. intros se Hse. apply steps_validated.
  etrans; [by eapply step_readiness_request|apply step_readiness_owner].
Qed.

Lemma steps_create_enter now t rid client target lease s :
  steps None s (on_create_enter now t rid client target lease s).
Proof.
  unfold on_create_enter. destruct (request s rid) eqn:Hrq;
    [case_match; [intros tr [= <-]; reflexivity|apply steps_throw]|].
  destruct (active_request s) eqn:Hr; [apply steps_throw|].
  repeat (case_match; [apply steps_throw|]).
  unfold request in Hrq. rewrite Hr in Hrq.
  assert (forall s1 r, er_request_id r = rid -> request_history s1 = request_history s ->
    Step None s1 (s1 <| active_request := Some r |>)) as Hset.
  { intros s1 r <- Hh. step_fields. intros []. split; fields; try done.
    intros r' [= <-] Hin. rewrite Hh in Hin.
    apply list_elem_of_In, List.in_map_iff in Hin as (x&Hx&Hin).
    apply list_elem_of_In in Hin. rewrite find_last_None in Hrq.
    specialize (Hrq x Hin). apply has_id_true in Hx. congruence. }
  unfold admit_enter. eapply steps_trans; [|cbv zeta].
  { instantiate (1 := s <| manual_recovery_target := None |>
      <| request_epoch := sat_add (request_epoch s) 1 |>). step_fields. }
  repeat case_match.
  - eapply steps_trans; [apply step_release|]. apply steps_bind. intros [s2 eff] Hb.
    apply steps_validated. etrans; [|by eapply (step_begin_switch (E:=ProtocolError))]. by apply Hset.
  - apply steps_validated. etrans; [|by apply Hset]. step_fields.
  - apply steps_validated. etrans; [|by apply step_archive]. step_fields.
  - apply steps_bind. intros [s2 eff] Hb.
    apply steps_validated. etrans; [|by eapply (step_begin_switch (E:=ProtocolError))]. by apply Hset.
Qed.

Lemma steps_observation now t epoch mode input signals s :
  steps None s (on_observation now t epoch mode input signals s).
Proof.
  unfold on_observation. eapply steps_trans; [apply step_store_observation|].
  match goal with |- context [fallback_required ?x && _] => set (s1 := x) end.
  eapply (steps_trans _ _ s1); [subst s1; case_match; step_fields|]. clearbody s1.
  case_match.
  { case_match; [apply steps_finish_fallback|apply steps_validated; step_fields]. }
  destruct (active_request s1) as [r|] eqn:Hr.
  - unfold observation_request_part.
    assert (steps None s1 (exec_bind (issue_grant now t s1) (fun s => validated now (s, [])))) as Hg.
    { apply steps_bind. intros s2 H2. by apply steps_validated, (step_issue_grant (E:=ProtocolError) now t). }
    repeat case_match; try done; apply steps_validated; auto with dmx; reflexivity.
  - repeat case_match; apply steps_validated; try reflexivity.
    + unfold observation_session_part. repeat case_match; [auto with dmx|step_fields|reflexivity].
    + unfold complete_multiview_observation. repeat case_match; auto with dmx; try reflexivity. step_fields.
Qed.

Lemma steps_commit now t rid req_epoch grant_ep lid lepoch s :
  steps (er_target <$> active_request s) s (on_commit now t rid req_epoch grant_ep lid lepoch s).
Proof.
  unfold on_commit. case_match; [case_match; [apply steps_validated; reflexivity|apply steps_throw]|].
  destruct (active_request s) as [r|] eqn:Hr; [|apply steps_throw]. cbn [ok_or exec_bind].
  destruct (er_grant r); [|apply steps_throw]. cbn [ok_or exec_bind].
  case_match; [apply steps_throw|]. case_match.
  { apply steps_validated, step_weaken, step_begin_fallback. }
  unfold commit_ownership. apply steps_bind. intros e _. apply steps_validated. cbv zeta.
  match goal with |- Step _ _ (fst (archive_request ?x ?y, _)) =>
    etrans; [|apply step_weaken, (step_archive x y)]; [|by case_match] end.
  eapply transitivity; [apply step_weaken, step_take_active|]. fields.
  case_match; split; fields; auto; try reflexivity; intros []; split; fields; done.
Qed.

Lemma steps_cancel now t rid reason s : steps None s (on_cancel now t rid reason s).
Proof.
  unfold on_cancel. case_match; [apply steps_validated; reflexivity|]. case_match.
  - apply steps_bind. intros _ _. apply steps_validated.
    etrans; [|apply step_begin_fallback]. by apply step_update_archived.
  - apply steps_bind. intros r _. case_match; [apply steps_throw|]. unfold cancel_pending. cbv zeta.
    eapply steps_trans; [apply step_take_active|].
    match goal with |- context [archive_request ?x ?y] =>
      eapply (steps_trans _ _ (archive_request x y));
      [etrans; [|apply step_archive]; [case_match; step_fields|by case_match]|];
      generalize (archive_request x y); intros s1 end.
    case_match; apply steps_validated; [apply step_begin_fallback|step_fields].
Qed.

Lemma steps_subscription now t mode input s :
  steps None s (on_subscription_observed now t mode input s).
Proof.
  unfold on_subscription_observed. cbv zeta.
  eapply (steps_trans _ _ (s <| tv_mode := mode |> <| observed_input := input |>)); [step_fields|].
  apply steps_validated. generalize (s <| tv_mode := mode |> <| observed_input := input |>). intros s1.
  unfold request_observation_preserving_deadline, request_observation.
  repeat case_match; fields; auto with dmx; try reflexivity; try step_fields.
Qed.

Lemma step_tick_request now t s : Step None s (fst (tick_request_part now t s)).
Proof.
  unfold tick_request_part. destruct (active_request s) as [r|]; [|reflexivity].
  case_match; [|reflexivity]. cbv zeta.
  match goal with |- context [archive_request ?x ?y] =>
    transitivity (archive_request x y);
    [etrans; [apply step_take_active|]; etrans; [|apply step_archive]; [case_match; step_fields|by case_match]|];
    generalize (archive_request x y); intros s1 end.
  case_match; [step_fields|apply step_begin_fallback_with_restore].
Qed.

Lemma step_tick_phase now t se se' :
  tick_phase_part now t se = Ret se' -> Step None (fst se) (fst se').
Proof.
  destruct se as [s eff]. unfold tick_phase_part. intros H.
  repeat case_match; invert_exec; auto with dmx; try reflexivity; try apply step_issue_fallback.
  unfold request_observation. step_fields.
Qed.

Lemma steps_progress now ws b s : steps None s (on_transport_progress now ws b s).
Proof. apply steps_validated. step_fields. Qed.

Lemma steps_disconnected now t reason s : steps None s (on_transport_disconnected now t reason s).
Proof.
  unfold on_transport_disconnected. cbv zeta. apply steps_validated.
  etrans; [|apply step_begin_fallback]. step_fields.
Qed.

Lemma steps_arm now target s : steps None s (on_arm_manual_recovery now target s).
Proof.
  unfold on_arm_manual_recovery. repeat (case_match; [apply steps_throw|]).
  apply steps_validated. step_fields.
Qed.

Lemma steps_acknowledged now t epoch target s :
  steps None s (on_command_acknowledged now t epoch target s).
Proof.
  unfold on_command_acknowledged. case_match; [intros tr <-%Ret_inj; apply step_refl|].
  case_match; apply steps_validated; [|apply step_refl]. unfold request_observation. step_fields.
Qed.

Lemma steps_failed now t epoch reason s : steps None s (on_command_failed now t epoch reason s).
Proof.
  unfold on_command_failed. case_match; apply steps_validated; [|apply step_refl].
  etrans; [|apply step_begin_fallback]. step_fields.
Qed.

Lemma steps_renew now t rid lid lepoch psession s :
  steps None s (on_renew now t rid lid lepoch psession s).
Proof.
  unfold on_renew. case_match; [apply steps_validated, step_session_fallback|].
  apply steps_bind. intros a _. apply steps_validated. step_fields.
Qed.

Lemma steps_multiview_requested now t enabled s :
  steps None s (on_multiview_requested now t enabled s).
Proof.
  unfold on_multiview_requested. repeat (case_match; [apply steps_throw|]).
  apply steps_validated. step_fields.
Qed.

Lemma steps_multiview_acknowledged now t epoch enabled s :
  steps None s (on_multiview_acknowledged now t epoch enabled s).
Proof.
  unfold on_multiview_acknowledged. case_match; [|apply steps_validated, step_refl].
  cbn [request_observation]. apply steps_validated. step_fields.
Qed.

Lemma steps_tick now t s : steps None s (on_tick now t s).
Proof.
  apply steps_bind. intros se Hse. apply steps_validated.
  etrans; [apply step_tick_request|by eapply step_tick_phase].
Qed.

Lemma steps_shutdown now s : steps None s (on_shutdown now s).
Proof. unfold on_shutdown, release_to_server. apply steps_validated. step_fields. Qed.

(** Every event respects [Step]; only a commit may name a new owner. *)
Lemma apply_step s e now t tr :
  apply s e now t = Ret tr ->
  Step (match e with Commit _ _ _ _ _ => er_target <$> active_request s | _ => None end) s (next tr).
Proof.
  destruct e; cbn [apply].
  - apply steps_progress.
  - apply steps_progress.
  - apply steps_progress.
  - apply steps_transport_synchronized.
  - apply steps_disconnected.
  - apply steps_peer_readiness.
  - apply steps_arm.
  - apply steps_create_enter.
  - apply steps_acknowledged.
  - apply steps_failed.
  - apply steps_observation.
  - apply steps_commit.
  - apply steps_cancel.
  - apply steps_renew.
  - apply steps_multiview_requested.
  - apply steps_multiview_acknowledged.
  - apply steps_subscription.
  - apply steps_tick.
  - apply steps_shutdown.
Qed.
