(* ===== verification/ProtocolInv.v ===== *)
(** * Invariants of the switch protocol

    The declarative meaning of the runtime check [validate], the coherence
    invariant that the handlers maintain beside it, and the proof that every
    event preserves both. *)

From stdpp Require Import base tactics list gmap strings.
From Stdlib Require Import NArith Lia.
From S2P Require Import Prelude Domain Protocol ProtocolFacts.

Implicit Types (s : ProtocolState) (r : EnterRequest) (a : ActiveSession) (now : N)
  (t : ProtocolTiming).

(** ** The meaning of [validate] *)

(** The clauses that do not depend on the display or on the clock. *)
Record InvCore s : Prop := {
  inv_bundle : keyboard_owner s = pointer_owner s;
  inv_fallback : fallback_required s = true -> keyboard_owner s = server_host s;
  inv_manual_remote : manual_recovery_target s <> Some (server_host s);
  inv_manual_idle : is_Some (manual_recovery_target s) ->
    active_request s = None /\ active_session s = None /\ keyboard_owner s = server_host s;
  inv_owner : keyboard_owner s <> server_host s ->
    exists a, active_session s = Some a /\ as_target a = keyboard_owner s
      /\ peer_ready s (as_target a) (peer_session_epoch (as_lease a)) = true;
  inv_grant : forall r, active_request s = Some r -> er_status r = StGrant ->
    exists g, er_grant r = Some g /\ er_switch_epoch r = Some (gr_switch_epoch g)
      /\ verified_epoch s = Some (gr_switch_epoch g) }.

(** A remote owner with a managed display is shown by a fresh observation. *)
Definition DisplayOk s : Prop :=
  forall a, keyboard_owner s <> server_host s -> active_session s = Some a ->
    has_display_route s (as_target a) = true ->
    observed_input s = Some (as_target a)
    /\ verified_epoch s = Some (as_switch_epoch a)
    /\ tv_mode s = Fullscreen
    /\ signal_fresh s (as_target a) (as_switch_epoch a) = true.

(** The lease of a remote owner has not expired. *)
Definition LeaseLive s now : Prop :=
  forall a, keyboard_owner s <> server_host s -> active_session s = Some a ->
    session_expired a now = false.

Lemma validate_manual_None s :
  validate_manual s = None <->
  manual_recovery_target s <> Some (server_host s)
  /\ (is_Some (manual_recovery_target s) ->
      active_request s = None /\ active_session s = None /\ keyboard_owner s = server_host s).
Proof.
  unfold validate_manual. destruct (manual_recovery_target s) as [h|].
  - case_bool_decide; [naive_solver|]. rewrite (bool_decide_eq_true_2 (is_Some (Some h))) by eauto.
    destruct (active_request s); [rewrite bool_decide_eq_true_2 by eauto; naive_solver|].
    rewrite bool_decide_eq_false_2 by apply is_Some_None.
    destruct (active_session s); [rewrite bool_decide_eq_true_2 by eauto; naive_solver|].
    rewrite bool_decide_eq_false_2 by apply is_Some_None.
    case_bool_decide; naive_solver.
  - rewrite bool_decide_eq_false_2 by done. rewrite bool_decide_eq_false_2 by apply is_Some_None.
    split; [intros _; split; [done|intros []%is_Some_None]|done].
Qed.

Lemma validate_grant_None s :
  validate_grant s = None <->
  (forall r, active_request s = Some r -> er_status r = StGrant ->
    exists g, er_grant r = Some g /\ er_switch_epoch r = Some (gr_switch_epoch g)
      /\ verified_epoch s = Some (gr_switch_epoch g)).
Proof.
  unfold validate_grant. destruct (active_request s) as [r|]; [|naive_solver].
  case_bool_decide; [|naive_solver]. split.
  - intros H' r' [= <-] _. repeat case_match; norm_bool; try done. naive_solver.
  - intros H'. destruct (H' r eq_refl H) as (g&->&->&->).
    by rewrite !bool_decide_eq_true_2 by done.
Qed.

(** Under the core clauses the check of a remote owner can only complain about
    its lease or its display. *)
Lemma validate_remote_owner_cases s now :
  InvCore s -> keyboard_owner s <> server_host s ->
  (validate_remote_owner s now = None /\ DisplayOk s /\ LeaseLive s now)
  \/ (validate_remote_owner s now = Some RemoteOwnerLeaseExpired /\ ~ LeaseLive s now)
  \/ (validate_remote_owner s now = Some RemoteOwnerWithoutVerifiedDisplay /\ ~ DisplayOk s).
Proof.
  intros Hinv Hown. destruct (inv_owner s Hinv Hown) as (a&Ha&Ht&Hp).
  unfold validate_remote_owner, DisplayOk, LeaseLive. rewrite Ha, Hp.
  rewrite bool_decide_eq_true_2 by done. simpl.
  destruct (session_expired a now) eqn:He.
  { right; left. split; [done|]. intros HL. rewrite (HL a Hown eq_refl) in He. done. }
  case_match eqn:Hd.
  - right; right. split; [done|]. intros HD. norm_bool;
      destruct (HD a Hown eq_refl) as (?&?&?&?); try done; congruence.
  - left. split; [done|]. split; [|naive_solver].
    intros a' _ [= <-] Hr. rewrite Hr in Hd. simpl in Hd. norm_bool. naive_solver.
Qed.

(** The runtime check accepts a state exactly when the core clauses hold, its
    remote owner is on display and its lease is live. *)
Lemma validate_None s now :
  validate s now = None <-> InvCore s /\ DisplayOk s /\ LeaseLive s now.
Proof.
  split.
  - unfold validate. intros Hv.
    destruct (bool_decide (keyboard_owner s = pointer_owner s)) eqn:Hb; [|done].
    destruct (fallback_required s && _) eqn:Hf; [done|].
    destruct (validate_manual s) eqn:Hm; [done|]. apply validate_manual_None in Hm as [Hm1 Hm2].
    assert (InvCore s) as Hc.
    { split; try done.
      - by norm_bool.
      - intros E. rewrite E in Hf. by norm_bool.
      - intros Ho. rewrite bool_decide_eq_false_2 in Hv by done. simpl in Hv.
        unfold validate_remote_owner in Hv. repeat case_match; try done; norm_bool; eauto.
      - apply validate_grant_None. by repeat case_match. }
    split; [done|]. destruct (decide (keyboard_owner s = server_host s)) as [Ho|Ho].
    { unfold DisplayOk, LeaseLive. by split; intros. }
    rewrite bool_decide_eq_false_2 in Hv by done. simpl in Hv.
    destruct (validate_remote_owner_cases s now Hc Ho) as [(_&?&?)|[[E _]|[E _]]];
      [done|by rewrite E in Hv..].
  - intros (Hc&HD&HL). destruct (Hc) as [Hb Hf Hm1 Hm2 Ho Hg]. unfold validate.
    rewrite bool_decide_eq_true_2 by done. simpl.
    rewrite (proj2 (validate_manual_None s)) by done.
    rewrite (proj2 (validate_grant_None s)) by done.
    destruct (decide (keyboard_owner s = server_host s)) as [E|E].
    + rewrite (bool_decide_eq_true_2 (keyboard_owner s = server_host s)) by done.
      simpl. by rewrite andb_false_r.
    + rewrite (bool_decide_eq_false_2 (keyboard_owner s = server_host s)) by done.
      destruct (fallback_required s); [by specialize (Hf eq_refl)|]. simpl.
      destruct (validate_remote_owner_cases s now Hc E) as [(->&?&?)|[[_ ?]|[_ ?]]]; done.
Qed.

Lemma validate_core s now :
  InvCore s ->
  (validate s now = None /\ DisplayOk s /\ LeaseLive s now)
  \/ (validate s now = Some RemoteOwnerLeaseExpired /\ ~ LeaseLive s now)
  \/ (validate s now = Some RemoteOwnerWithoutVerifiedDisplay /\ ~ DisplayOk s).
Proof.
  intros Hc. destruct (validate s now) as [v|] eqn:E;
    [|left; apply validate_None in E; naive_solver].
  destruct (decide (keyboard_owner s = server_host s)) as [Ho|Ho].
  { exfalso. assert (validate s now = None) as E'; [|by rewrite E in E'].
    apply validate_None. split; [done|]. unfold DisplayOk, LeaseLive. by split; intros. }
  revert E. destruct (Hc) as [Hb Hf Hm1 Hm2 _ Hg]. unfold validate.
  rewrite bool_decide_eq_true_2 by done. simpl.
  rewrite (proj2 (validate_manual_None s)) by done.
  rewrite (bool_decide_eq_false_2 (keyboard_owner s = server_host s)) by done.
  destruct (fallback_required s); [by specialize (Hf eq_refl)|]. simpl.
  destruct (validate_remote_owner_cases s now Hc Ho) as [(->&?&?)|[[-> ?]|[-> ?]]].
  - rewrite (proj2 (validate_grant_None s)) by done. done.
  - naive_solver.
  - naive_solver.
Qed.

(** ** Coherence of phases, sessions and requests *)

(** Phases in which the display is being brought back to the server. *)
Definition fallback_phase (p : ProtocolPhase) : bool :=
  bool_decide (p ∈ [FallbackCommandPending; FallbackVerifying; FallbackDeferred]).

Record Coherent s : Prop := {
  co_session : forall a, active_session s = Some a ->
    as_target a = keyboard_owner s /\ as_target a <> server_host s
    /\ phase s = RemoteOwned /\ active_request s = None
    /\ as_switch_epoch a = switch_epoch s;
  co_owned : phase s = RemoteOwned -> is_Some (active_session s);
  co_request : forall r, active_request s = Some r ->
    fallback_required s = false /\ fallback_phase (phase s) = false /\ phase s <> RemoteOwned
    /\ (forall e, er_switch_epoch r = Some e -> e = switch_epoch s);
  co_counters : forall h, is_Some (switch_count s !! h) }.

(** The invariant of every reachable state. *)
Record WF s : Prop := {
  wf_core : InvCore s;
  wf_display : DisplayOk s;
  wf_coherent : Coherent s }.

(** What the environment promises about the events it delivers.  A client
    asks for a remote host only while no remote session is owned (Lan Mouse
    reserves its bundle lease only from the local state), and a multiview
    acknowledgement carries the epoch of a multiview command, never the epoch
    of an owned session.  protocol.rs itself admits both; what follows then is
    shown in [ProtocolTheorems] and [TvRun]. *)
Definition disciplined s (e : Event) : Prop :=
  match e with
  | CreateEnter _ _ target _ => active_session s = None \/ target = server_host s
  | MultiViewAcknowledged epoch _ => active_session s = None \/ epoch <> switch_epoch s
  | _ => True
  end.

(** ** Outcomes of a transition *)

(** A handler behaves: it does not panic, a normal return is well formed, and
    the runtime check can only reject an expired lease, or, where [display]
    allows it, a remote owner that is not on display. *)
Definition good (display : bool) (m : exec ProtocolError Transition) : Prop :=
  match m with
  | Ret tr => WF (next tr)
  | Throw (Invariant msg) =>
      msg = violation_to_string RemoteOwnerLeaseExpired
      \/ (display = true /\ msg = violation_to_string RemoteOwnerWithoutVerifiedDisplay)
  | Throw _ => True
  | Panic _ => False
  end.

Lemma validated_core display now s eff :
  InvCore s -> Coherent s -> (display = false -> DisplayOk s) ->
  good display (validated now (s, eff)).
Proof.
  intros Hc Hco Hd. unfold validated. fields.
  destruct (validate_core s now Hc) as [(->&?&?)|[[-> _]|[-> HD]]]; simpl.
  - by split.
  - by left.
  - destruct display; [by right|]. by specialize (Hd eq_refl).
Qed.

Lemma validated_good now s eff : WF s -> good false (validated now (s, eff)).
Proof. intros []. by apply validated_core. Qed.

Lemma good_weaken display m : good false m -> good display m.
Proof. destruct m as [|[]|]; simpl; naive_solver. Qed.

Lemma good_bind {A} display (m : exec ProtocolError A) k x :
  m = Ret x -> good display (k x) -> good display (exec_bind m k).
Proof. by intros ->. Qed.

(** ** States with local input *)

(** No transaction and no remote owner: such a state is well formed as soon as
    its recovery target is remote and its phase is not [RemoteOwned]. *)
Record LocalIdle s : Prop := {
  li_keyboard : keyboard_owner s = server_host s;
  li_pointer : pointer_owner s = server_host s;
  li_session : active_session s = None;
  li_request : active_request s = None;
  li_manual : manual_recovery_target s <> Some (server_host s);
  li_phase : phase s <> RemoteOwned;
  li_counters : forall h, is_Some (switch_count s !! h) }.

Lemma local_idle_wf s : LocalIdle s -> WF s /\ forall now, LeaseLive s now.
Proof.
  intros []. split; [|intros now a; congruence].
  split; [split; try congruence; naive_solver|by intros a|split; try congruence; done].
Qed.

Lemma local_idle_validated now s eff :
  LocalIdle s -> validated now (s, eff) = Ret (mkTransition s eff).
Proof.
  intros H. destruct (local_idle_wf s H) as [[] HL].
  unfold validated. fields. by rewrite (proj2 (validate_None s now)).
Qed.

Lemma fell_back_local restore s s' :
  manual_recovery_target s <> Some (server_host s) -> (forall h, is_Some (switch_count s !! h)) ->
  FellBack restore s s' -> LocalIdle s'.
Proof.
  intros Hm Hc F. split.
  - by rewrite (fb_keyboard _ _ _ F), (fb_server _ _ _ F).
  - by rewrite (fb_pointer _ _ _ F), (fb_server _ _ _ F).
  - apply F.
  - apply F.
  - rewrite (fb_server _ _ _ F). destruct (fb_manual _ _ _ F) as [->|(h&->&?)]; congruence.
  - rewrite (fb_phase _ _ _ F). by repeat case_match.
  - by rewrite (fb_count _ _ _ F).
Qed.

(** A fallback always passes the runtime check. *)
Lemma fell_back_ret now restore s s' eff :
  manual_recovery_target s <> Some (server_host s) -> (forall h, is_Some (switch_count s !! h)) ->
  FellBack restore s s' -> validated now (s', eff) = Ret (mkTransition s' eff) /\ LocalIdle s'.
Proof.
  intros Hm Hc F. pose proof (fell_back_local _ _ _ Hm Hc F). by rewrite local_idle_validated.
Qed.

Lemma fell_back_good b now restore s se :
  manual_recovery_target s <> Some (server_host s) -> (forall h, is_Some (switch_count s !! h)) ->
  FellBack restore s (fst se) -> good b (validated now se).
Proof.
  intros Hm Hc F. destruct se as [s' eff]. fields_in F.
  destruct (fell_back_ret now _ _ _ eff Hm Hc F) as [-> HL]. by apply local_idle_wf.
Qed.

(** The three ways of falling back, from any state whose recovery target is
    remote. *)
Section fallbacks.
Context (b : bool) (now : N) (t : ProtocolTiming) (reason : string) (s : ProtocolState)
  (eff : list Effect).
Context (Hm : manual_recovery_target s <> Some (server_host s))
  (Hc : forall h, is_Some (switch_count s !! h)).

Lemma restore_fallback_good restore :
  good b (validated now (begin_fallback_with_restore now t reason restore (s, eff))).
Proof. eapply fell_back_good; [done..|apply begin_fallback_with_restore_spec]. Qed.

Lemma fallback_good : good b (validated now (begin_fallback now t reason (s, eff))).
Proof. eapply fell_back_good; [done..|apply begin_fallback_spec]. Qed.

Lemma session_fallback_good :
  good b (validated now (begin_active_session_failure_fallback now t reason (s, eff))).
Proof.
  destruct (begin_active_session_failure_fallback_spec now t reason s eff) as (?&F&_).
  by eapply fell_back_good.
Qed.
End fallbacks.

(** Close a goal about an updated state whose relevant fields are unchanged. *)
Ltac same_fields :=
  match goal with
  | H : WF ?s |- WF _ =>
      let C := fresh in let D := fresh in let O := fresh in
      destruct H as [C D O]; split;
      [destruct C; split; assumption|exact D|destruct O; split; assumption]
  end.

Lemma wf_manual s : WF s -> manual_recovery_target s <> Some (server_host s).
Proof. intros [[]]. done. Qed.
Lemma wf_counters s : WF s -> forall h, is_Some (switch_count s !! h).
Proof. intros [_ _ []]. done. Qed.

(** With a pending request both inputs are local and no session exists. *)
Lemma wf_request s r : WF s -> active_request s = Some r ->
  keyboard_owner s = server_host s /\ active_session s = None /\ manual_recovery_target s = None
  /\ pointer_owner s = server_host s.
Proof.
  intros [[] _ [Hs]] Hr.
  assert (active_session s = None) as Hn.
  { destruct (active_session s) as [a|]; [|done]. destruct (Hs a eq_refl) as (_&_&_&?&_). congruence. }
  assert (keyboard_owner s = server_host s) as Hk.
  { destruct (decide (keyboard_owner s = server_host s)) as [|Hne]; [done|].
    destruct (inv_owner0 Hne) as (a&?&_). congruence. }
  repeat split; try congruence.
  destruct (manual_recovery_target s); [|done]. destruct (inv_manual_idle0); [by eexists|]. congruence.
Qed.

(** Without a session both inputs are local. *)
Lemma wf_no_session s : WF s -> active_session s = None ->
  keyboard_owner s = server_host s /\ pointer_owner s = server_host s /\ phase s <> RemoteOwned.
Proof.
  intros [[] _ []] Hn.
  assert (keyboard_owner s = server_host s) as Hk.
  { destruct (decide (keyboard_owner s = server_host s)) as [|Hne]; [done|].
    destruct (inv_owner0 Hne) as (a&?&_). congruence. }
  repeat split; try congruence. intros [a ?]%co_owned0. congruence.
Qed.

Lemma on_transport_progress_good now ws b s :
  WF s -> good false (on_transport_progress now ws b s).
Proof. intros H. apply validated_good. same_fields. Qed.

Lemma on_transport_disconnected_good now t reason s :
  WF s -> good false (on_transport_disconnected now t reason s).
Proof.
  intros H. unfold on_transport_disconnected.
  apply fallback_good; [exact (wf_manual s H)|exact (wf_counters s H)].
Qed.

Lemma on_command_failed_good now t epoch reason s :
  WF s -> good false (on_command_failed now t epoch reason s).
Proof.
  intros H. unfold on_command_failed. case_match; [|by apply validated_good].
  apply fallback_good; [exact (wf_manual s H)|exact (wf_counters s H)].
Qed.

Lemma on_shutdown_good now s : WF s -> good false (on_shutdown now s).
Proof.
  intros H. apply validated_good. apply local_idle_wf.
  split; try done; [exact (wf_manual s H)|exact (wf_counters s H)].
Qed.

(** [finish_fallback] keeps the counters and never panics. *)
Lemma finish_fallback_spec {E} s : (forall h, is_Some (switch_count s !! h)) ->
  exists counts, @finish_fallback E s = Ret
    ((release_to_server s) <| fallback_required := false |> <| fallback_reason := None |>
       <| phase := Idle |> <| phase_deadline_ms := None |> <| observation_in_flight := None |>
       <| next_signal_poll_ms := None |> <| verified_epoch := Some (switch_epoch s) |>
       <| switch_count := counts |>)
    /\ forall h, is_Some (counts !! h).
Proof.
  intros Hc. unfold finish_fallback.
  match goal with |- context [record_verified_switch ?h ?x] =>
    destruct (@record_verified_switch_Ret E h x) as (counts&->&Hk) end; [apply Hc|].
  exists counts. split; [done|]. intros h. apply Hk, Hc.
Qed.

(** After a finished fallback the state is well formed: a granted request
    survives because its switch epoch is the current one. *)
Lemma finish_fallback_good now s eff :
  InvCore s -> Coherent s ->
  good false (exec_bind (finish_fallback s) (fun s => validated now (s, eff))).
Proof.
  intros [] []. destruct (@finish_fallback_spec ProtocolError s co_counters0) as (counts&->&Hk).
  apply validated_good. unfold release_to_server.
  split; [split| |split]; fields; try done.
  - naive_solver.
  - intros r Hr Hst. destruct (inv_grant0 r Hr Hst) as (g&?&Hs&_). exists g. repeat split; try done.
    destruct (co_request0 r Hr) as (_&_&_&Heq). f_equal. symmetry. by apply Heq.
  - intros r Hr. destruct (co_request0 r Hr) as (_&_&_&Heq). done.
Qed.

(** ** States with a pending request *)

Record Pending s r : Prop := {
  pe_request : active_request s = Some r;
  pe_session : active_session s = None;
  pe_keyboard : keyboard_owner s = server_host s;
  pe_pointer : pointer_owner s = server_host s;
  pe_manual : manual_recovery_target s = None;
  pe_required : fallback_required s = false;
  pe_counters : forall h, is_Some (switch_count s !! h) }.

Lemma wf_pending s r : WF s -> active_request s = Some r -> Pending s r.
Proof.
  intros H Hr. destruct (wf_request s r H Hr) as (?&?&?&?). split; try done.
  - by destruct (co_request _ (wf_coherent s H) r Hr).
  - by apply wf_counters.
Qed.

Lemma pending_wf s r :
  Pending s r -> fallback_phase (phase s) = false -> phase s <> RemoteOwned ->
  (forall e, er_switch_epoch r = Some e -> e = switch_epoch s) ->
  (er_status r = StGrant -> exists g, er_grant r = Some g
     /\ er_switch_epoch r = Some (gr_switch_epoch g) /\ verified_epoch s = Some (gr_switch_epoch g)) ->
  WF s.
Proof.
  intros [] Hp1 Hp2 He Hg. split; [split| |split]; try congruence.
  - rewrite pe_manual0. by intros []%is_Some_None.
  - intros r' Hr'. rewrite pe_request0 in Hr'. injection Hr' as <-. done.
  - intros r' Hr'. rewrite pe_request0 in Hr'. injection Hr' as <-. done.
  - done.
Qed.

Lemma issue_grant_spec {E} now t s r e :
  Pending s r -> er_switch_epoch r = Some e -> e = switch_epoch s ->
  exists s', @issue_grant E now t s = Ret s' /\ WF s' /\ keyboard_owner s' = server_host s'
    /\ phase s' = GrantPending.
Proof.
  intros [] He ->. unfold issue_grant. fields. rewrite pe_request0. simpl. rewrite He. simpl.
  match goal with |- context [record_verified_switch ?h ?x] =>
    destruct (@record_verified_switch_Ret E h x) as (counts&->&Hk) end; [apply pe_counters0|].
  eexists. split; [done|]. split; [|done]. fields_in Hk.
  eapply pending_wf.
  - split; fields; try done. intros h. apply Hk, pe_counters0.
  - done.
  - done.
  - fields. rewrite He. by intros e' [= <-].
  - fields. intros _. eexists. split; [done|]. by rewrite He.
Qed.

Lemma begin_switch_spec {E} now t s r eff :
  Pending s r -> exists se, @begin_switch E now t (s, eff) = Ret se
    /\ WF (fst se) /\ keyboard_owner (fst se) = server_host (fst se)
    /\ (phase (fst se) = Switching \/ phase (fst se) = GrantPending).
Proof.
  intros P. destruct (P). unfold begin_switch. fields. rewrite pe_request0. simpl. case_match.
  - match goal with |- context [issue_grant now t ?x] =>
      edestruct (@issue_grant_spec E now t x) as (s'&->&?&?&?) end;
      [split; fields; done|done|done|].
    eexists. split; [done|]. split; [done|]. split; [done|by right].
  - eexists. split; [done|]. split; [|split; [done|by left]].
    eapply pending_wf; [split; fields; done|done|done|by intros e [= <-]|done].
Qed.

(** Moving to another phase without a session. *)
Lemma wf_phase s p :
  WF s -> active_session s = None -> p <> RemoteOwned ->
  (is_Some (active_request s) -> fallback_phase p = false) -> WF (s <| phase := p |>).
Proof.
  intros H Hs Hp Hf. destruct (active_request s) as [r|] eqn:Hr.
  - destruct (co_request _ (wf_coherent _ H) r Hr) as (?&?&?&?).
    apply (pending_wf _ r); try done.
    + destruct (wf_pending s r H Hr); split; done.
    + by apply Hf.
    + exact (inv_grant _ (wf_core _ H) r Hr).
  - destruct (wf_no_session s H Hs) as (?&?&?). apply local_idle_wf.
    split; fields; try done; [exact (wf_manual _ H)|exact (wf_counters _ H)].
Qed.
