(* ===== verification/ProtocolHandlers.v ===== *)
(** * Every event handler keeps the invariant

    One lemma per handler of [Protocol]: from a well-formed state it does not
    panic, a normal return is well formed again, and the runtime check only
    rejects what [good] lists. *)

From stdpp Require Import base tactics list gmap strings.
From Stdlib Require Import NArith Lia.
From S2P Require Import Prelude Domain Protocol ProtocolFacts ProtocolInv.

Implicit Types (s : ProtocolState) (r : EnterRequest) (a : ActiveSession) (now : N)
  (t : ProtocolTiming).

(** Falling back from a state that shares recovery target and counters with a
    well-formed one. *)
Ltac falls_back H :=
  lazymatch goal with
  | |- good _ (validated _ (begin_fallback _ _ _ _)) => apply fallback_good
  | |- good _ (validated _ (begin_fallback_with_restore _ _ _ _ _)) => apply restore_fallback_good
  | |- good _ (validated _ (begin_active_session_failure_fallback _ _ _ _)) =>
      apply session_fallback_good
  end; [exact (wf_manual _ H)|exact (wf_counters _ H)].

(** The core and coherence clauses ignore the display and transport fields. *)
Lemma observed_core s epoch now mode input signals flight :
  WF s ->
  let s' := (store_observation epoch now mode input signals s)
              <| observation_in_flight := flight |> in
  InvCore s' /\ Coherent s'.
Proof. intros [[] _ []]. split; split; done. Qed.

Lemma on_transport_synchronized_good now t mode input signals s :
  WF s -> good false (on_transport_synchronized now t mode input signals s).
Proof.
  intros H. unfold on_transport_synchronized.
  match goal with |- context [store_observation ?e ?n ?m ?i ?g ?x] =>
    set (s1 := store_observation e n m i g x) end.
  assert (InvCore s1 /\ Coherent s1) as [HC HO]
    by (destruct H as [[] _ []]; split; split; done).
  case_match; [by apply finish_fallback_good|].
  case_match.
  - apply validated_good, local_idle_wf. unfold accept_manual_display, release_to_server.
    unfold manual_display_observed in *. norm_bool.
    all: split; fields; try done; apply HO.
  - falls_back H.
Qed.

Lemma readiness_owner_part_local now t host p se :
  keyboard_owner (fst se) = server_host (fst se) -> readiness_owner_part now t host p se = se.
Proof. intros Hk. unfold readiness_owner_part. case_match; [|done]. norm_bool. congruence. Qed.

Lemma on_peer_readiness_updated_good now t host p s :
  WF s -> good false (on_peer_readiness_updated now t host p s).
Proof.
  intros H. unfold on_peer_readiness_updated.
  set (s1 := set peers _ s).
  destruct (active_request s) as [r|] eqn:Hr.
  - (* a request is pending: the inputs are local *)
    assert (Pending s1 r) as P by (destruct (wf_pending s r H Hr); split; done).
    assert (WF s1) as H1.
    { destruct (co_request _ (wf_coherent _ H) r Hr) as (?&?&?&?).
      eapply pending_wf; try done. exact (inv_grant _ (wf_core _ H) r Hr). }
    unfold readiness_request_part. fields. repeat case_match.
    + destruct (@begin_switch_spec ProtocolError now t s1 r [] P) as ([s2 eff]&->&?&?&_).
      cbn [exec_bind]. rewrite readiness_owner_part_local by done. by apply validated_good.
    + cbn [exec_bind]. rewrite readiness_owner_part_local; [falls_back H1|].
      destruct (begin_fallback_spec now t "target_readiness_lost" s1 []) as [F _].
      by rewrite (fb_keyboard _ _ _ F), (fb_server _ _ _ F).
    + cbn [exec_bind]. rewrite readiness_owner_part_local by apply P. by apply validated_good.
    + cbn [exec_bind]. rewrite readiness_owner_part_local by apply P. by apply validated_good.
  - subst s1. unfold readiness_request_part. fields. rewrite Hr. fields.
    rewrite bool_decide_eq_false_2 by done. cbn [exec_bind].
    unfold readiness_owner_part. fields.
    destruct (bool_decide (keyboard_owner s = host) && _) eqn:Hown; [case_match|].
    + falls_back H.
    + apply validated_good. norm_bool. subst host.
      destruct H as [HC HD HO]. pose proof (inv_owner _ HC) as Hio.
      split; [destruct HC; split; try done|exact HD|destruct HO; split; done].
      intros Hne. destruct (Hio Hne) as (a&Ha&Ht&_). exists a. repeat split; try done.
      unfold peer_ready. fields. rewrite Ht, lookup_insert_eq. rewrite Ha in *. done.
    + apply validated_good. destruct H as [HC HD HO]. pose proof (inv_owner _ HC) as Hio.
      split; [destruct HC; split; try done|exact HD|destruct HO; split; done].
      intros Hne. destruct (Hio Hne) as (a&Ha&Ht&Hp). exists a. repeat split; try done.
      unfold peer_ready. fields. rewrite lookup_insert_ne; [exact Hp|]. intros ->.
      fields_in Hne. norm_bool; congruence.
Qed.

Lemma on_arm_manual_recovery_good now target s :
  WF s -> good false (on_arm_manual_recovery now target s).
Proof.
  intros H. unfold on_arm_manual_recovery. case_match; [done|]. case_match eqn:Hg; [done|].
  apply validated_good, local_idle_wf. norm_bool.
  assert (active_session s = None /\ active_request s = None) as [??]
    by (split; by apply eq_None_not_Some).
  split; fields; try done; try congruence. apply H.
Qed.

Lemma ready_not_required s : ready s = true -> fallback_required s = false.
Proof. unfold ready. intros. by norm_bool. Qed.

Lemma start_enter_good now t s r :
  Pending (s <| active_request := Some r |>) r ->
  good false (exec_bind (begin_switch now t (s <| active_request := Some r |>, []))
                (validated now)).
Proof.
  intros P. destruct (@begin_switch_spec ProtocolError now t _ _ [] P) as ([s2 eff]&->&?&?&_).
  by apply validated_good.
Qed.

Lemma on_create_enter_good now t rid client target lease s :
  WF s -> disciplined s (CreateEnter rid client target lease) ->
  good false (on_create_enter now t rid client target lease s).
Proof.
  intros H HD. unfold on_create_enter. case_match; [by case_match|].
  destruct (active_request s) as [|] eqn:Hr; [done|].
  destruct (ready s) eqn:Hready; [|done]. cbn [negb]. case_match; [done|]. simpl in HD.
  apply ready_not_required in Hready. unfold admit_enter. fields.
  destruct (bool_decide (target = server_host s)) eqn:Ht.
  - apply start_enter_good. split; fields; try done. exact (wf_counters _ H).
  - norm_bool. destruct HD as [Hs|]; [|done].
    destruct (wf_no_session s H Hs) as (?&?&?). repeat case_match.
    + apply validated_good. eapply pending_wf;
        [split; fields; try done; exact (wf_counters _ H)|done..].
    + apply validated_good, local_idle_wf. unfold archive_request.
      split; fields; try done; try congruence. exact (wf_counters _ H).
    + apply start_enter_good. split; fields; try done. exact (wf_counters _ H).
Qed.

Lemma on_command_acknowledged_good now t epoch target s :
  WF s -> good false (on_command_acknowledged now t epoch target s).
Proof.
  intros H. unfold on_command_acknowledged. case_match; [done|].
  case_match eqn:Hc; [|by apply validated_good].
  apply validated_good. unfold request_observation. fields. norm_bool.
  destruct (active_session s) as [a|] eqn:Hs.
  { destruct (co_session _ (wf_coherent _ H) a Hs) as (_&_&Hp&_). rewrite Hp in *. set_solver. }
  assert (WF (s <| phase := if fallback_required s then FallbackVerifying else Verifying |>)) as H'.
  { apply wf_phase; try done; [by case_match|]. intros [r Hr].
    destruct (co_request _ (wf_coherent _ H) r Hr) as (->&_). done. }
  same_fields.
Qed.

(** With local input the display clause is void. *)
Lemma local_display s : keyboard_owner s = server_host s -> DisplayOk s.
Proof. intros Hk a Hne. done. Qed.

Lemma observation_request_part_good now t epoch r s :
  WF s -> active_request s = Some r ->
  good false (observation_request_part now t epoch r s).
Proof.
  intros H Hr. unfold observation_request_part.
  destruct (negb (bool_decide (er_switch_epoch r = Some epoch))) eqn:He;
    [by apply validated_good|]. norm_bool.
  assert (good false (exec_bind (issue_grant now t s) (fun s => validated now (s, [])))) as Hg.
  { destruct (co_request _ (wf_coherent _ H) r Hr) as (_&_&_&Heq).
    destruct (@issue_grant_spec ProtocolError now t s r epoch) as (s'&->&?&_);
      [by apply wf_pending|done|by apply Heq|by apply validated_good]. }
  repeat case_match; try done; try falls_back H; by apply validated_good.
Qed.

Lemma observation_session_part_good now t epoch s :
  InvCore s -> Coherent s ->
  (forall a, active_session s = Some a -> has_display_route s (as_target a) = true ->
    verified_epoch s = Some (as_switch_epoch a)) ->
  good (negb (bool_decide (epoch = switch_epoch s)))
    (validated now (observation_session_part now t epoch s)).
Proof.
  intros HC HO Hver. unfold observation_session_part.
  destruct (active_session s) as [a|] eqn:Ha.
  - destruct (co_session _ HO a Ha) as (Ht&Hne&Hp&_&He).
    case_match eqn:Hv; [apply session_fallback_good; [apply HC|apply HO]|].
    apply validated_core; [destruct HC; split; done|destruct HO; split; done|].
    intros Hd a' Hk Ha' Hroute. fields_in Ha'. rewrite Ha in Ha'. injection Ha' as <-.
    norm_bool; [congruence|]. unfold target_display_verified in *. norm_bool.
    split; [done|]. split; [by apply Hver|]. split; [done|]. by rewrite He, <- Hd.
  - apply validated_core; try done. intros _. apply local_display.
    destruct (decide (keyboard_owner s = server_host s)) as [|Hne]; [done|].
    destruct (inv_owner _ HC Hne) as (a&?&_). congruence.
Qed.

(** A pending multiview change is only observed with local input. *)
Lemma complete_multiview_good now t s :
  WF s -> active_session s = None -> active_request s = None ->
  good false (validated now (complete_multiview_observation now t (s, []))).
Proof.
  intros H Hs Hr. unfold complete_multiview_observation.
  destruct (pending_multiview s) as [enabled|]; [|by apply validated_good].
  case_match; [falls_back H|]. case_match; [|falls_back H].
  apply validated_good. assert (WF (s <| phase := Idle |>)) as H'; [|same_fields].
  apply wf_phase; try done.
Qed.

Lemma on_observation_good now t epoch mode input signals s :
  WF s ->
  good (negb (bool_decide (epoch = switch_epoch s)))
    (on_observation now t epoch mode input signals s).
Proof.
  intros H. unfold on_observation.
  match goal with |- context [fallback_required ?x && _] => set (s1 := x) end.
  assert (InvCore s1 /\ Coherent s1) as [HC HO].
  { subst s1. case_match; destruct H as [[] _ []]; split; split; done. }
  assert (switch_epoch s1 = switch_epoch s /\ verified_epoch s1 = verified_epoch s
    /\ active_session s1 = active_session s /\ display_hosts s1 = display_hosts s
    /\ keyboard_owner s1 = keyboard_owner s /\ server_host s1 = server_host s)
    as (Hse&Hve&Has&Hdh&Hko&Hsh) by (subst s1; case_match; done).
  assert (keyboard_owner s1 = server_host s1 -> WF s1) as Hwf
    by (intros; split; [done|by apply local_display|done]).
  clearbody s1.
  destruct (fallback_required s1 && _) eqn:Hf.
  { apply good_weaken. norm_bool. pose proof (inv_fallback _ HC H0) as Hk.
    case_match; [by apply finish_fallback_good|]. apply validated_good.
    assert (active_session s1 = None) as Hs.
    { destruct (active_session s1) as [a|] eqn:Ha; [|done].
      destruct (co_session _ HO a Ha) as (?&?&_). congruence. }
    apply wf_phase; [by apply Hwf|done|done|]. intros [r Hr].
    destruct (co_request _ HO r Hr) as (?&_). congruence. }
  destruct (active_request s1) as [r|] eqn:Hr.
  { apply good_weaken, observation_request_part_good; [|done]. apply Hwf.
    destruct (decide (keyboard_owner s1 = server_host s1)) as [|Hne]; [done|].
    destruct (inv_owner _ HC Hne) as (a&Ha&_). destruct (co_session _ HO a Ha) as (_&_&_&?&_). congruence. }
  destruct (bool_decide (phase s1 = RemoteOwned)) eqn:Hp.
  { rewrite <- Hse. apply observation_session_part_good; [done..|].
    intros a Ha Hroute. rewrite Hve.
    destruct (co_session _ HO a Ha) as (?&?&_).
    apply (wf_display _ H a); [congruence|congruence|].
    unfold has_display_route in *. by rewrite <- Hdh. }
  assert (active_session s1 = None) as Hs.
  { destruct (active_session s1) as [a|] eqn:Ha; [|done].
    destruct (co_session _ HO a Ha) as (_&_&Hp'&_). by apply bool_decide_eq_false in Hp. }
  assert (WF s1) as H1.
  { apply Hwf. destruct (decide (keyboard_owner s1 = server_host s1)) as [|Hne]; [done|].
    destruct (inv_owner _ HC Hne) as (a&?&_). congruence. }
  apply good_weaken. case_match; [by apply complete_multiview_good|by apply validated_good].
Qed.

(** The ownership transfer: everything but the display is established here. *)
Lemma commit_ownership_good now t req_epoch r g s :
  WF s -> active_request s = Some r ->
  er_grant r = Some g -> er_status r = StGrant ->
  (er_target r <> server_host s -> peer_ready s (er_target r) (peer_session_epoch (er_lease r)) = true) ->
  good true (commit_ownership now t req_epoch r s).
Proof.
  intros H Hr Hg Hst Hp. unfold commit_ownership, archive_request.
  destruct (inv_grant _ (wf_core _ H) r Hr Hst) as (g'&Hg'&He&_).
  destruct (co_request _ (wf_coherent _ H) r Hr) as (_&_&_&Heq).
  rewrite He. cbn [expect exec_bind]. fields.
  pose proof (wf_counters _ H) as Hc. case_bool_decide as Ht.
  - apply good_weaken, validated_good, local_idle_wf. split; fields; try done.
  - apply validated_core; [| |done].
    + split; fields; try done. intros _. eexists. repeat split. by apply Hp.
    + split; fields; try done. intros a [= <-]. fields. repeat split; try done. by apply Heq.
Qed.

Lemma on_commit_good now t rid req_epoch grant_ep lid lepoch s :
  WF s -> good true (on_commit now t rid req_epoch grant_ep lid lepoch s).
Proof.
  intros H. unfold on_commit.
  case_match; [case_match; [by apply good_weaken, validated_good|done]|].
  destruct (active_request s) as [r|] eqn:Hr; [|done]. cbn [ok_or exec_bind].
  destruct (er_grant r) as [g|] eqn:Hg; [|done]. cbn [ok_or exec_bind].
  case_match eqn:Hid; [done|]. case_match eqn:Hp.
  - falls_back H.
  - norm_bool; eapply commit_ownership_good; try done; congruence.
Qed.

Lemma cancel_pending_good now t reason r s :
  WF s -> active_request s = Some r -> good false (cancel_pending now t reason r s).
Proof.
  intros H Hr. unfold cancel_pending, archive_request.
  destruct (wf_pending s r H Hr) as [_ Hs Hk Hp Hm _ Hc]. fields.
  destruct (co_request _ (wf_coherent _ H) r Hr) as (_&_&Hph&_).
  case_match eqn:Hse.
  - apply fallback_good; destruct (bool_decide (er_target r = server_host s)) eqn:Et; fields;
      norm_bool; try done; congruence.
  - apply validated_good, local_idle_wf.
    destruct (bool_decide (er_target r = server_host s)) eqn:Et; norm_bool;
      split; fields; try done; congruence.
Qed.

Lemma on_cancel_good now t rid reason s : WF s -> good false (on_cancel now t rid reason s).
Proof.
  intros H. unfold on_cancel. case_match; [by apply validated_good|]. case_match.
  - destruct (archived_request s rid); [|done]. cbn [ok_or exec_bind].
    apply fallback_good; [exact (wf_manual _ H)|exact (wf_counters _ H)].
  - destruct (active_request s) as [r|] eqn:Hr; [|done]. cbn [ok_or exec_bind].
    case_match; [done|]. by apply cancel_pending_good.
Qed.

Lemma on_renew_good now t rid lid lepoch psession s :
  WF s -> good false (on_renew now t rid lid lepoch psession s).
Proof.
  intros H. unfold on_renew. case_match eqn:Hv; [falls_back H|].
  unfold renewal_valid in Hv. destruct (active_session s) as [a|] eqn:Ha; [|done].
  cbn [expect exec_bind]. apply validated_good. norm_bool. destruct H as [HC HD HO].
  destruct (co_session _ HO a Ha) as (Ht&Hne&Hp&Hr&He).
  pose proof (inv_owner _ HC) as Hio. split.
  - destruct HC; split; fields; try done.
    + intros Hm. destruct (inv_manual_idle Hm) as (?&?&?). congruence.
    + intros Hk. destruct (Hio Hk) as (a'&Ha'&?&?). rewrite Ha in Ha'. injection Ha' as <-.
      eexists. repeat split; done.
  - intros a' Hk [= <-] Hroute. fields. fields_in Hroute. apply (HD a); done.
  - destruct HO; split; fields; try done. by intros a' [= <-].
Qed.

Lemma on_multiview_requested_good now t enabled s :
  WF s -> good false (on_multiview_requested now t enabled s).
Proof.
  intros H. unfold on_multiview_requested. case_match; [done|]. case_match eqn:Hl; [done|].
  case_match eqn:Hb; [done|]. apply validated_good. norm_bool.
  assert (active_request s = None) as Hr by by apply eq_None_not_Some.
  assert (active_session s = None) as Hs.
  { destruct (active_session s) as [a|] eqn:Ha; [|done].
    destruct (co_session _ (wf_coherent _ H) a Ha) as (?&?&_). congruence. }
  apply local_idle_wf. split; fields; try done; [exact (wf_manual _ H)|exact (wf_counters _ H)].
Qed.

Lemma on_multiview_acknowledged_good now t epoch enabled s :
  WF s -> disciplined s (MultiViewAcknowledged epoch enabled) ->
  good false (on_multiview_acknowledged now t epoch enabled s).
Proof.
  intros H HD. unfold on_multiview_acknowledged. case_match eqn:Hc; [|by apply validated_good].
  cbn [request_observation]. apply validated_good. norm_bool.
  destruct HD as [Hs|]; [|congruence].
  assert (WF (s <| phase := MultiviewChanging |>)) as H' by by apply wf_phase.
  same_fields.
Qed.

(** A session whose display still matches keeps the display clause. *)
Lemma on_subscription_observed_good now t mode input s :
  WF s -> good false (on_subscription_observed now t mode input s).
Proof.
  intros H. unfold on_subscription_observed. fields.
  set (s1 := s <| tv_mode := mode |> <| observed_input := input |>).
  assert (InvCore s1 /\ Coherent s1) as [HC HO] by (destruct H as [[] _ []]; split; split; done).
  destruct (some_and (as_target <$> active_session s) _) eqn:Hun.
  - (* a session is shown on another input: every path falls back *)
    destruct (active_session s) as [a|] eqn:Ha; [|done].
    destruct (co_session _ HO a Ha) as (?&?&Hp&Hr&_). change (phase s = RemoteOwned) in Hp. change (active_request s = None) in Hr.
    rewrite Hp, Hr. rewrite !(bool_decide_eq_false_2 (RemoteOwned = _)) by done.
    rewrite !andb_false_r, !andb_false_l. falls_back H.
  - assert (WF s1) as H1.
    { split; [done| |done]. intros a Hk Ha Hroute. change (active_session s = Some a) in Ha.
      rewrite Ha in Hun.
      unfold some_and, target_mismatch in Hun. fields_in Hun. rewrite Hroute in Hun.
      simpl in Hun. norm_bool. subst. destruct (wf_display _ H a) as (?&?&?&?); done. }
    unfold request_observation_preserving_deadline, request_observation. fields.
    repeat case_match; try falls_back H1; apply validated_good; try same_fields.
    + apply local_idle_wf. unfold accept_manual_display, release_to_server.
      unfold manual_display_observed in *. norm_bool;
      split; fields; try done; exact (wf_counters _ H).
    + destruct H1 as [C D O]. split; [|exact D|destruct O; split; assumption].
      destruct C; split; fields; try done.
Qed.

Lemma tick_request_part_wf now t s :
  WF s -> WF (fst (tick_request_part now t s)).
Proof.
  intros H. unfold tick_request_part. destruct (active_request s) as [r|] eqn:Hr; [|done].
  case_match; [|done].
  destruct (wf_pending s r H Hr) as [_ Hs Hk Hp Hm _ Hc].
  unfold archive_request. fields.
  match goal with |- context [begin_fallback_with_restore _ _ _ _ (?x, [])] => set (s1 := x) end.
  assert (manual_recovery_target s1 <> Some (server_host s1) /\ forall h, is_Some (switch_count s1 !! h))
    as [? ?].
  { subst s1. destruct (bool_decide (er_target r = server_host s)) eqn:Et; norm_bool;
      split; fields; congruence || done. }
  case_match.
  - apply local_idle_wf. subst s1.
    destruct (bool_decide (er_target r = server_host s)) eqn:Et; norm_bool;
      split; fields; try done; congruence.
  - eapply local_idle_wf, fell_back_local; [done|done|apply begin_fallback_with_restore_spec].
Qed.

(** After the second half of a tick the state is well formed and no remote
    owner holds an expired lease. *)
Lemma tick_phase_part_spec now t se :
  WF (fst se) -> exists se', tick_phase_part now t se = Ret se'
    /\ WF (fst se') /\ LeaseLive (fst se') now.
Proof.
  destruct se as [s eff]. fields. intros H.
  assert (forall restore s', FellBack restore s s' -> WF s' /\ LeaseLive s' now) as Hfb.
  { intros restore s' F. eapply fell_back_local in F; [|by apply wf_manual|by apply wf_counters].
    by destruct (local_idle_wf _ F). }
  unfold tick_phase_part. fields.
  destruct (some_and (active_session s) _) eqn:He.
  { eexists. split; [done|].
    destruct (begin_active_session_failure_fallback_spec now t "active_lease_expired" s eff) as (?&?&_).
    by eapply Hfb. }
  assert (LeaseLive s now) as HL by (intros a _ Ha; by rewrite Ha in He).
  destruct (bool_decide (phase s = RemoteOwned) && _ && _) eqn:Hpoll.
  { norm_bool. destruct (co_owned _ (wf_coherent _ H)) as [a Ha]; [done|]. rewrite Ha.
    eexists. split; [done|]. unfold request_observation. fields. split; [same_fields|done]. }
  destruct (_ && due (phase_deadline_ms s) now) eqn:Hflight.
  { case_match; eexists; (split; [done|]).
    - destruct (begin_active_session_failure_fallback_spec now t (verification_timeout_reason s) s eff)
        as (?&?&_). by eapply Hfb.
    - eapply Hfb, begin_fallback_spec. }
  destruct (bool_decide (phase s = Verifying) && _) eqn:Hver.
  { eexists. split; [done|]. eapply Hfb, begin_fallback_spec. }
  destruct (_ || _) eqn:Hfall.
  { eexists. split; [done|]. unfold issue_fallback_command. fields.
    assert (fallback_phase (phase s) = true) as Hp.
    { norm_bool; unfold fallback_phase; apply bool_decide_eq_true; set_solver. }
    destruct (active_session s) as [a|] eqn:Ha.
    { destruct (co_session _ (wf_coherent _ H) a Ha) as (_&_&Hp'&_). by rewrite Hp' in Hp. }
    destruct (active_request s) as [r|] eqn:Hr.
    { destruct (co_request _ (wf_coherent _ H) r Hr) as (_&Hp'&_). congruence. }
    destruct (wf_no_session s H Ha) as (?&?&?).
    assert (LocalIdle (issue_fallback_command now t (s, eff)).1) as HLI.
    { split; fields; try done; [exact (wf_manual _ H)|exact (wf_counters _ H)]. }
    by destruct (local_idle_wf _ HLI). }
  destruct (bool_decide (phase s = MultiviewChanging) && _) eqn:Hmv; eexists; (split; [done|]).
  - eapply Hfb, begin_fallback_spec.
  - done.
Qed.
