(* ===== verification/ProtocolSafety.v ===== *)
(** * Correctness of the switch protocol

    Reachable states of the controller and the theorems about them: safety of
    input ownership, totality of the deadline handler, fencing by epochs,
    idempotence of retried requests, and the behaviours where the code departs
    from its intent. *)

From stdpp Require Import base tactics list gmap strings.
From Stdlib Require Import NArith Lia.
From S2P Require Import Prelude Domain Protocol ProtocolFacts ProtocolFrame ProtocolInv ProtocolHandlers.

Implicit Types (s : ProtocolState) (r : EnterRequest) (a : ActiveSession) (now : N)
  (t : ProtocolTiming).

(** ** Reachable states *)

(** The states the coordinator can hold: it starts from
    [with_display_hosts], applies disciplined events with a clock that never
    goes back, and keeps its state when an event is rejected. *)
Inductive reachable t : ProtocolState -> N -> Prop :=
| reach_init server limit displays s now :
    with_display_hosts server limit displays = Ret s -> reachable t s now
| reach_step s now e now' tr :
    reachable t s now -> (now <= now')%N -> disciplined s e ->
    apply s e now' t = Ret tr -> reachable t (next tr) now'
| reach_reject s now e now' err :
    reachable t s now -> (now <= now')%N -> apply s e now' t = Throw err -> reachable t s now'.

Lemma initial_local server limit displays s :
  with_display_hosts server limit displays = Ret s -> LocalIdle s /\ HistoryOk s.
Proof.
  unfold with_display_hosts. case_match eqn:Hl; [done|]. case_match; [done|].
  intros <-%Ret_inj. norm_bool. split; split; fields; try done.
  - intros []; by eexists.
  - destruct limit; [done|lia].
  - simpl. lia.
  - constructor.
Qed.

(** Rejections allowed by [good] for each event. *)
Definition display_rejection s (e : Event) : bool :=
  match e with
  | Observation epoch _ _ _ => negb (bool_decide (epoch = switch_epoch s))
  | Commit _ _ _ _ _ => true
  | _ => false
  end.

Lemma on_tick_ret now t s :
  WF s -> exists tr, on_tick now t s = Ret tr /\ WF (next tr) /\ LeaseLive (next tr) now.
Proof.
  intros H. unfold on_tick.
  destruct (tick_phase_part_spec now t _ (tick_request_part_wf now t s H)) as ([s' eff]&->&H'&HL).
  cbn [exec_bind]. exists (mkTransition s' eff). split; [|done]. apply validated_Ret.
  split; [|done]. destruct H'. by apply validate_None.
Qed.

Lemma apply_good s e now t :
  WF s -> disciplined s e -> good (display_rejection s e) (apply s e now t).
Proof.
  intros H HD. destruct e; cbn [apply display_rejection].
  - by apply on_transport_progress_good.
  - by apply on_transport_progress_good.
  - by apply on_transport_progress_good.
  - by apply on_transport_synchronized_good.
  - by apply on_transport_disconnected_good.
  - by apply on_peer_readiness_updated_good.
  - by apply on_arm_manual_recovery_good.
  - by apply on_create_enter_good.
  - by apply on_command_acknowledged_good.
  - by apply on_command_failed_good.
  - by apply on_observation_good.
  - by apply on_commit_good.
  - by apply on_cancel_good.
  - by apply on_renew_good.
  - by apply on_multiview_requested_good.
  - by apply on_multiview_acknowledged_good.
  - by apply on_subscription_observed_good.
  - destruct (on_tick_ret now t s H) as (tr&->&?&_). done.
  - by apply on_shutdown_good.
Qed.

Lemma reachable_wf t s now : reachable t s now -> WF s.
Proof.
  induction 1 as [server limit displays s now H|s now e now' tr _ IH _ HD H|]; [| |done].
  - by eapply local_idle_wf, initial_local.
  - pose proof (apply_good s e now' t IH HD) as Hg. by rewrite H in Hg.
Qed.

Lemma reachable_history t s now : reachable t s now -> HistoryOk s.
Proof.
  induction 1 as [server limit displays s now H|s now e now' tr _ IH _ _ H|]; [| |done].
  - by eapply initial_local.
  - by eapply st_history; [eapply apply_step|].
Qed.

(** ** A concrete run, used by the witnesses *)

Definition demo_timing : ProtocolTiming := mkTiming 10000 5000 5000 60000 15000 10000.
Definition demo_lease : LeaseIdentity := mkLease "lease-1" 1 7 20000.
Definition demo_ready : PeerReadiness := mkPeerReadiness true true true 7 100.

(** Run a list of timed events, keeping the state when one is rejected. *)
Fixpoint run_events t s (es : list (N * Event)) : ProtocolState :=
  match es with
  | [] => s
  | (now, e) :: es =>
      match apply s e now t with
      | Ret tr => run_events t (next tr) es
      | _ => run_events t s es
      end
  end.

Definition demo_initial : ProtocolState :=
  match with_display_hosts Controller 4 [Controller; Left; Right] with
  | Ret s => s
  | _ => mkProtocolState Controller ∅ Disconnected false false Starting TvUnknown None None ∅ ∅
           0 0 None 0 Controller Controller None [] 0 None None None None None false None None 0 ∅ None 0
  end.

Definition show (h : Host) : gmap Host bool :=
  {[ Controller := bool_decide (h = Controller); Left := bool_decide (h = Left);
     Right := bool_decide (h = Right) ]}.

(** Synchronise, then switch to the left host, up to the verification of its
    display, then to the grant. *)
Definition demo_verify_events : list (N * Event) :=
  [ (10, TransportConnecting); (20, TransportRegistering); (30, TransportSubscribed);
    (40, TransportSynchronized Fullscreen (Some Controller) (show Controller));
    (50, PeerReadinessUpdated Left demo_ready);
    (100, CreateEnter "req-1" "laptop" Left demo_lease);
    (200, CommandAcknowledged 1 Left) ]%N.
Definition demo_verifying : ProtocolState := run_events demo_timing demo_initial demo_verify_events.
Definition demo_observation : Event := Observation 1 Fullscreen (Some Left) (show Left).
Definition demo_granted : ProtocolState :=
  run_events demo_timing demo_verifying [(300%N, demo_observation)].
Definition demo_commit : Event := Commit "req-1" 1 1 "lease-1" 1.
Definition demo_owned : ProtocolState := run_events demo_timing demo_granted [(400%N, demo_commit)].

Example demo_owner : keyboard_owner demo_owned = Left /\ phase demo_owned = RemoteOwned.
Proof. by vm_compute. Qed.

#[global] Instance disciplined_dec s e : Decision (disciplined s e).
Proof. destruct e; simpl; apply _. Defined.

(** A run whose events are disciplined and whose clock does not go back. *)
Fixpoint run_ok t s now (es : list (N * Event)) : bool :=
  match es with
  | [] => true
  | (now', e) :: es =>
      (now <=? now')%N && bool_decide (disciplined s e)
      && match apply s e now' t with
         | Ret tr => run_ok t (next tr) now' es
         | Throw _ => run_ok t s now' es
         | Panic _ => false
         end
  end.

Fixpoint last_time now (es : list (N * Event)) : N :=
  match es with [] => now | (now', _) :: es => last_time now' es end.

Lemma run_reachable t es : forall s now,
  reachable t s now -> run_ok t s now es = true ->
  reachable t (run_events t s es) (last_time now es).
Proof.
  induction es as [|[now' e] es IH]; intros s now Hre Hok; [done|].
  cbn [run_ok run_events last_time] in *.
  destruct (apply s e now' t) as [tr|err|] eqn:Hap; norm_bool; [| |done];
    (apply IH; [|done]).
  - by eapply reach_step.
  - by eapply reach_reject.
Qed.

Lemma demo_initial_reachable now : reachable demo_timing demo_initial now.
Proof. by apply (reach_init demo_timing Controller 4 [Controller; Left; Right]). Qed.

Lemma demo_verifying_reachable : reachable demo_timing demo_verifying 200.
Proof.
  assert (200%N = last_time 0 demo_verify_events) as -> by done. unfold demo_verifying.
  apply run_reachable; [apply demo_initial_reachable|]. by vm_compute.
Qed.

Lemma demo_granted_reachable : reachable demo_timing demo_granted 300.
Proof.
  assert (300%N = last_time 200 [(300%N, demo_observation)]) as -> by done. unfold demo_granted.
  apply run_reachable; [apply demo_verifying_reachable|]. by vm_compute.
Qed.

Lemma demo_owned_reachable : reachable demo_timing demo_owned 400.
Proof.
  assert (400%N = last_time 300 [(400%N, demo_commit)]) as -> by done. unfold demo_owned.
  apply run_reachable; [apply demo_granted_reachable|]. by vm_compute.
Qed.

(** The runs are evaluated by the virtual machine, never by unification. *)
#[global] Opaque demo_initial demo_verifying demo_granted demo_owned.

(** An accepted event either passed the runtime check or changed nothing. *)
Definition checked s now (m : exec ProtocolError Transition) : Prop :=
  forall tr, m = Ret tr -> validate (next tr) now = None \/ next tr = s /\ effects tr = [].

Lemma checked_validated s now se : checked s now (validated now se).
Proof. intros tr [? ->]%validated_Ret. by left. Qed.
Lemma checked_throw s now e : checked s now (Throw e).
Proof. by intros tr. Qed.
Lemma checked_same s now : checked s now (Ret (mkTransition s [])).
Proof. intros tr <-%Ret_inj. by right. Qed.
Lemma checked_bind {A} s now (m : exec ProtocolError A) k :
  (forall x, checked s now (k x)) -> checked s now (exec_bind m k).
Proof. intros H tr (x&_&Hk)%exec_bind_Ret. by eapply H. Qed.

Lemma apply_checked s e now t : checked s now (apply s e now t).
Proof.
  destruct e; cbn [apply];
    unfold on_transport_progress, on_transport_synchronized, on_transport_disconnected,
      on_peer_readiness_updated, on_arm_manual_recovery, on_create_enter, admit_enter,
      on_command_acknowledged, on_command_failed, on_observation, observation_request_part,
      on_commit, commit_ownership, on_cancel, cancel_pending, on_renew, on_multiview_requested,
      on_multiview_acknowledged, on_subscription_observed, on_tick, on_shutdown; cbv zeta;
    repeat first [apply checked_validated|apply checked_throw|apply checked_same
                 |apply checked_bind; intros ?
                 |match goal with
                  | |- checked _ _ (if ?b then _ else _) => destruct b
                  | |- checked _ _ (match ?x with _ => _ end) => destruct x
                  end].
Qed.
