(* ===== verification/ProtocolRefinement.v ===== *)
(** * The ownership contract and its refinement

    The contract that a client of the controller relies on is a four-state
    machine: the input is local, a request is pending, a request is granted,
    or a remote host owns the input.  This file states it as an inductive
    relation, classifies what each event may do to the pending request and to
    the grant counter, and proves that every transition of the code simulates
    a transition of the contract. *)

From stdpp Require Import base tactics list gmap strings.
From Stdlib Require Import NArith Lia.
From S2P Require Import Prelude Domain Protocol ProtocolFacts ProtocolFrame ProtocolInv ProtocolHandlers ProtocolSafety.

Implicit Types (s : ProtocolState) (r : EnterRequest) (a : ActiveSession) (now : N)
  (t : ProtocolTiming).

(** ** The contract *)

Inductive AbsState :=
| AbsLocal
| AbsPending (rid : string) (h : Host)
| AbsGranted (rid : string) (h : Host)
| AbsOwned (h : Host).

(** The allowed moves.  Ownership of a remote host is only reached from a grant
    for that host, and a new request only starts from the local state or, to
    come back to the server, from an owned one. *)
Inductive abs_step (server : Host) : AbsState -> AbsState -> Prop :=
| abs_stay x : abs_step server x x
| abs_release x : abs_step server x AbsLocal
| abs_ask rid h : abs_step server AbsLocal (AbsPending rid h)
| abs_ask_granted rid h : abs_step server AbsLocal (AbsGranted rid h)
| abs_return rid h : abs_step server (AbsOwned h) (AbsPending rid server)
| abs_grant rid h : abs_step server (AbsPending rid h) (AbsGranted rid h)
| abs_commit rid h : h <> server -> abs_step server (AbsGranted rid h) (AbsOwned h).

(** The abstraction of a controller state. *)
Definition abs_of s : AbsState :=
  if bool_decide (keyboard_owner s = server_host s) then
    match active_request s with
    | Some r =>
        if bool_decide (er_status r = StGrant) then AbsGranted (er_request_id r) (er_target r)
        else AbsPending (er_request_id r) (er_target r)
    | None => AbsLocal
    end
  else AbsOwned (keyboard_owner s).

(** ** Events that neither grant nor admit *)

Record Quiet s s' : Prop := {
  qu_grant : grant_epoch s' = grant_epoch s;
  qu_request : active_request s' = None \/ active_request s' = active_request s;
  qu_waking : phase s' = Waking -> phase s = Waking }.

#[global] Instance Quiet_preorder : PreOrder Quiet.
Proof.
  split; [intros s; split; auto|].
  intros x y z Hxy Hyz. split; [destruct Hxy, Hyz; congruence|..].
  - destruct (qu_request _ _ Hyz) as [?| ->]; [by left|apply Hxy].
  - intros. by apply Hxy, Hyz.
Qed.

Lemma quiet_refl s : Quiet s s.
Proof. apply reflexivity. Qed.

Ltac quiet_fields := split; fields; auto; try discriminate; try (case_match; discriminate).

Lemma quiet_fell_back restore s s' : FellBack restore s s' -> Quiet s s'.
Proof.
  intros F. split; [apply F|left; apply F|]. rewrite (fb_phase _ _ _ F). by repeat case_match.
Qed.

Lemma quiet_fallback_with_restore now t reason restore s eff :
  Quiet s (fst (begin_fallback_with_restore now t reason restore (s, eff))).
Proof. eapply quiet_fell_back, begin_fallback_with_restore_spec. Qed.
Lemma quiet_fallback now t reason s eff : Quiet s (fst (begin_fallback now t reason (s, eff))).
Proof. apply quiet_fallback_with_restore. Qed.
Lemma quiet_session_fallback now t reason s eff :
  Quiet s (fst (begin_active_session_failure_fallback now t reason (s, eff))).
Proof.
  destruct (begin_active_session_failure_fallback_spec now t reason s eff) as (b&F&_).
  by eapply quiet_fell_back.
Qed.
Lemma quiet_record_verified {E} h s s' : @record_verified_switch E h s = Ret s' -> Quiet s s'.
Proof. intros (counts&->&_)%record_verified_switch_inv. quiet_fields. Qed.
Lemma quiet_finish_fallback {E} s s' : @finish_fallback E s = Ret s' -> Quiet s s'.
Proof.
  unfold finish_fallback, release_to_server. intros H%quiet_record_verified.
  etrans; [|exact H]. quiet_fields.
Qed.
Lemma quiet_accept_manual s : Quiet s (accept_manual_display s).
Proof. unfold accept_manual_display, release_to_server. quiet_fields. Qed.
Lemma quiet_issue_fallback now t s eff : Quiet s (fst (issue_fallback_command now t (s, eff))).
Proof. unfold issue_fallback_command. quiet_fields. Qed.
#[export] Hint Resolve quiet_refl quiet_fallback quiet_fallback_with_restore
  quiet_session_fallback quiet_accept_manual quiet_issue_fallback : dmx.

(** [Quiet] for a computation that ends in [validated]. *)
Definition quiet s (m : exec ProtocolError Transition) : Prop :=
  forall tr, m = Ret tr -> Quiet s (next tr).

Lemma quiet_validated now s se : Quiet s (fst se) -> quiet s (validated now se).
Proof. intros H tr [_ ->]%validated_Ret. done. Qed.
Lemma quiet_throw s e : quiet s (Throw e).
Proof. by intros tr. Qed.
Lemma quiet_bind {A} s (m : exec ProtocolError A) k :
  (forall x, m = Ret x -> quiet s (k x)) -> quiet s (exec_bind m k).
Proof. intros H tr (x&Hx&Hk)%exec_bind_Ret. by eapply H. Qed.
Lemma quiet_finish now s :
  quiet s (exec_bind (finish_fallback s) (fun s => validated now (s, []))).
Proof. apply quiet_bind. intros s' H. by apply quiet_validated, (quiet_finish_fallback (E:=ProtocolError)). Qed.

Lemma quiet_tick_request now t s : Quiet s (fst (tick_request_part now t s)).
Proof.
  unfold tick_request_part. destruct (active_request s) as [r|] eqn:Hr; [|auto with dmx].
  case_match; [|auto with dmx]. cbv zeta. unfold archive_request.
  case_match; [|etrans; [|apply quiet_fallback_with_restore]]; case_match; quiet_fields.
Qed.
Lemma quiet_tick_phase now t se se' :
  tick_phase_part now t se = Ret se' -> Quiet (fst se) (fst se').
Proof.
  destruct se as [s eff]. unfold tick_phase_part. intros H.
  repeat case_match; invert_exec; auto with dmx. unfold request_observation. quiet_fields.
Qed.
Lemma quiet_tick now t s : quiet s (on_tick now t s).
Proof.
  apply quiet_bind. intros se Hse. apply quiet_validated.
  etrans; [apply quiet_tick_request|by eapply quiet_tick_phase].
Qed.
Lemma quiet_cancel now t rid reason s : quiet s (on_cancel now t rid reason s).
Proof.
  unfold on_cancel. case_match; [by apply quiet_validated, quiet_refl|]. case_match.
  - apply quiet_bind. intros _ _. apply quiet_validated.
    etrans; [|apply quiet_fallback]. unfold update_archived. quiet_fields.
  - apply quiet_bind. intros r _. case_match; [apply quiet_throw|]. unfold cancel_pending, archive_request.
    cbv zeta. case_match; apply quiet_validated; [etrans; [|apply quiet_fallback]|];
      case_match; quiet_fields.
Qed.
Lemma quiet_subscription now t mode input s :
  quiet s (on_subscription_observed now t mode input s).
Proof.
  unfold on_subscription_observed. cbv zeta. apply quiet_validated.
  transitivity (s <| tv_mode := mode |> <| observed_input := input |>); [quiet_fields|].
  generalize (s <| tv_mode := mode |> <| observed_input := input |>). intros s1.
  unfold request_observation_preserving_deadline, request_observation.
  repeat case_match; fields; auto with dmx; quiet_fields.
Qed.
Lemma quiet_synchronized now t mode input signals s :
  quiet s (on_transport_synchronized now t mode input signals s).
Proof.
  unfold on_transport_synchronized, store_observation. cbv zeta.
  match goal with |- context [finish_fallback ?x] => set (s1 := x) end.
  assert (Quiet s s1) as Hq by quiet_fields. clearbody s1.
  intros tr Htr. etrans; [exact Hq|]. revert tr Htr. change (quiet s1
    (if server_display_verified s1 (switch_epoch s) then exec_bind (finish_fallback s1) (fun s => validated now (s, []))
     else if manual_display_observed s1 then validated now (accept_manual_display s1, [])
     else validated now (begin_fallback now t "startup_or_reconnect_resync" (s1, [])))).
  repeat case_match; [apply quiet_finish|apply quiet_validated; auto with dmx..].
Qed.

Lemma quiet_commit now t rid req_epoch grant_ep lid lepoch s :
  quiet s (on_commit now t rid req_epoch grant_ep lid lepoch s).
Proof.
  unfold on_commit. case_match; [case_match; [apply quiet_validated, quiet_refl|apply quiet_throw]|].
  apply quiet_bind. intros r _. apply quiet_bind. intros g _.
  case_match; [apply quiet_throw|]. case_match; [apply quiet_validated, quiet_fallback|].
  unfold commit_ownership, archive_request. apply quiet_bind. intros e _. apply quiet_validated.
  case_match; quiet_fields.
Qed.

(** The events other than [CreateEnter], [PeerReadinessUpdated] and
    [Observation]. *)
Definition quiet_event (e : Event) : bool :=
  match e with
  | CreateEnter _ _ _ _ | PeerReadinessUpdated _ _ | Observation _ _ _ _ => false
  | _ => true
  end.

Lemma apply_quiet s e now t tr :
  quiet_event e = true -> apply s e now t = Ret tr -> Quiet s (next tr).
Proof.
  destruct e; try done; intros _; cbn [apply]; revert tr.
  - apply quiet_validated. quiet_fields.
  - apply quiet_validated. quiet_fields.
  - apply quiet_validated. quiet_fields.
  - apply quiet_synchronized.
  - apply quiet_validated. etrans; [|apply quiet_fallback]. quiet_fields.
  - unfold on_arm_manual_recovery. repeat (case_match; [apply quiet_throw|]).
    apply quiet_validated. quiet_fields.
  - unfold on_command_acknowledged. case_match; [intros tr <-%Ret_inj; apply quiet_refl|].
    case_match; apply quiet_validated; [|apply quiet_refl]. unfold request_observation. quiet_fields.
  - unfold on_command_failed. case_match; apply quiet_validated; [|apply quiet_refl].
    etrans; [|apply quiet_fallback]. quiet_fields.
  - apply quiet_commit.
  - apply quiet_cancel.
  - unfold on_renew. case_match; [apply quiet_validated, quiet_session_fallback|].
    apply quiet_bind. intros a _. apply quiet_validated. quiet_fields.
  - unfold on_multiview_requested. repeat (case_match; [apply quiet_throw|]).
    apply quiet_validated. quiet_fields.
  - unfold on_multiview_acknowledged. case_match; [|apply quiet_validated, quiet_refl].
    cbn [request_observation]. apply quiet_validated. quiet_fields.
  - apply quiet_subscription.
  - apply quiet_tick.
  - apply quiet_validated. unfold release_to_server. quiet_fields.
Qed.

(** ** Events that admit or grant *)

(** The pending request is carried over, with its identity. *)
Record Carried s s' r r' : Prop := {
  ca_from : active_request s = Some r;
  ca_to : active_request s' = Some r';
  ca_id : er_request_id r' = er_request_id r;
  ca_client : er_client_id r' = er_client_id r;
  ca_target : er_target r' = er_target r;
  ca_lease : er_lease r' = er_lease r;
  ca_keyboard : keyboard_owner s' = keyboard_owner s;
  ca_server : server_host s' = server_host s;
  ca_routes : display_hosts s' = display_hosts s;
  ca_mode : tv_mode s' = tv_mode s;
  ca_input : observed_input s' = observed_input s;
  ca_signal : input_signal s' = input_signal s;
  ca_phase : phase s' <> Waking }.

Lemma issue_grant_carried {E} now t s s' :
  @issue_grant E now t s = Ret s' ->
  exists r r', Carried s s' r r' /\ er_status r' = StGrant.
Proof.
  unfold issue_grant. fields. destruct (active_request s) as [r|] eqn:Hr; [|done].
  cbn [expect exec_bind]. destruct (er_switch_epoch r) as [e|]; [|done]. cbn [expect exec_bind].
  intros (counts&->&_)%record_verified_switch_inv.
  exists r. eexists. split; [split; fields; try reflexivity; [exact Hr|discriminate]|reflexivity].
Qed.

Lemma begin_switch_carried {E} now t s eff se :
  @begin_switch E now t (s, eff) = Ret se ->
  exists r r', Carried s (fst se) r r'
    /\ (er_status r' = StSwitching /\ has_display_route s (er_target r) = true
          /\ grant_epoch (fst se) = grant_epoch s
        \/ er_status r' = StGrant /\ has_display_route s (er_target r) = false).
Proof.
  unfold begin_switch. fields. destruct (active_request s) as [r|] eqn:Hr; [|done].
  cbn [expect exec_bind]. change (has_display_route _ (er_target r)) with (has_display_route s (er_target r)).
  destruct (has_display_route s (er_target r)) eqn:Hroute; cbn [negb].
  - intros <-%Ret_inj. exists r. eexists.
    split; [split; fields; try reflexivity; [exact Hr|discriminate]|left; split; [reflexivity|split; [exact Hroute|reflexivity]]].
  - intros (s2&(r0&r1&[] &Hst)%issue_grant_carried&<-%Ret_inj)%exec_bind_Ret. fields.
    fields_in ca_from0. injection ca_from0 as <-.
    exists r, r1. split; [|by right]. split; done.
Qed.

(** A grant is only issued for the request being verified, on an observation of
    its own epoch that shows its target. *)
Record GrantedBy epoch now s s' r r' : Prop := {
  gb_phase : phase s = Verifying;
  gb_epoch : er_switch_epoch r = Some epoch;
  gb_peer : er_target r <> server_host s ->
    peer_ready s (er_target r) (peer_session_epoch (er_lease r)) = true
    /\ (now < lease_expires_at_ms (er_lease r))%N;
  gb_carried : Carried s s' r r';
  gb_status : er_status r' = StGrant;
  gb_verified : target_display_verified s' (er_target r) epoch = true }.

Lemma observation_request_cases now t epoch r s tr :
  active_request s = Some r -> observation_request_part now t epoch r s = Ret tr ->
  Quiet s (next tr) \/ exists r', GrantedBy epoch now s (next tr) r r'.
Proof.
  intros Hr. unfold observation_request_part.
  assert (forall se, Quiet s (fst se) -> validated now se = Ret tr ->
    Quiet s (next tr) \/ exists r', GrantedBy epoch now s (next tr) r r') as Hquiet.
  { intros se Hq H. left. by eapply quiet_validated. }
  destruct (bool_decide (er_switch_epoch r = Some epoch)) eqn:He; cbn [negb];
    [|apply Hquiet, quiet_refl].
  destruct (bool_decide (phase s = Verifying) && _) eqn:Hv; cycle 1.
  { case_match; apply Hquiet; auto with dmx. }
  norm_bool.
  assert ((er_target r <> server_host s ->
      peer_ready s (er_target r) (peer_session_epoch (er_lease r)) = true
      /\ (now < lease_expires_at_ms (er_lease r))%N) ->
    exec_bind (issue_grant now t s) (fun s => validated now (s, [])) = Ret tr ->
    exists r', GrantedBy epoch now s (next tr) r r') as Hgrant.
  { intros Hp (s2&(r0&r'&Hca&Hst)%issue_grant_carried&[_ ->]%validated_Ret)%exec_bind_Ret.
    fields. assert (r0 = r) as -> by (pose proof (ca_from _ _ _ _ Hca); congruence).
    exists r'. split; try done. revert H0. unfold target_display_verified, signal_fresh.
    by rewrite (ca_mode _ _ _ _ Hca), (ca_input _ _ _ _ Hca), (ca_signal _ _ _ _ Hca). }
  destruct (bool_decide (er_target r = server_host s)) eqn:Et; cbn [negb]; norm_bool.
  { intros Hret. right. by apply Hgrant. }
  destruct (negb (peer_ready s _ _) || _) eqn:Hp; [apply Hquiet; auto with dmx|].
  intros Hret. right. norm_bool. by apply Hgrant.
Qed.

Lemma observation_cases now t epoch mode input signals s tr :
  on_observation now t epoch mode input signals s = Ret tr ->
  Quiet s (next tr)
  \/ exists s1 r r', Quiet s s1 /\ phase s1 = phase s /\ server_host s1 = server_host s
     /\ keyboard_owner s1 = keyboard_owner s
     /\ active_request s1 = active_request s /\ peers s1 = peers s
     /\ display_hosts s1 = display_hosts s /\ GrantedBy epoch now s1 (next tr) r r'.
Proof.
  unfold on_observation, store_observation.
  match goal with |- context [fallback_required ?x && _] => set (s1 := x) end.
  assert (Quiet s s1 /\ phase s1 = phase s /\ server_host s1 = server_host s
    /\ keyboard_owner s1 = keyboard_owner s /\ active_request s1 = active_request s
    /\ peers s1 = peers s /\ display_hosts s1 = display_hosts s) as Hs1
    by (subst s1; case_match; (split; [quiet_fields|done])).
  clearbody s1. assert (Quiet s s1) as Hq by apply Hs1.
  assert (forall m, quiet s1 m -> m = Ret tr -> Quiet s (next tr)) as Hquiet.
  { intros m Hm Hret. etrans; [exact Hq|by apply Hm]. }
  case_match.
  { intros Hret. left. revert Hret. apply Hquiet. case_match; [apply quiet_finish|].
    apply quiet_validated. quiet_fields. }
  destruct (active_request s1) as [r|] eqn:Hr.
  - intros [?|[r' Hgb]]%observation_request_cases; [left; by etrans| |done].
    right. exists s1, r, r'. destruct Hs1 as (?&?&?&?&?&?&?).
    split; [done|]. repeat (split; [congruence|]). done.
  - intros Hret. left. revert Hret. apply Hquiet.
    repeat case_match; apply quiet_validated; auto with dmx.
    + unfold observation_session_part. repeat case_match; [auto with dmx|quiet_fields|auto with dmx].
    + unfold complete_multiview_observation. repeat case_match; auto with dmx. quiet_fields.
Qed.

Lemma readiness_cases now t host p s tr :
  WF s -> on_peer_readiness_updated now t host p s = Ret tr ->
  Quiet s (next tr)
  \/ exists r r', active_request s = Some r /\ phase s = Waking /\ host = er_target r
     /\ bundle_ready p (peer_session_epoch (er_lease r)) = true
     /\ active_request (next tr) = Some r' /\ er_request_id r' = er_request_id r
     /\ er_target r' = er_target r /\ phase (next tr) <> Waking
     /\ (er_status r' = StSwitching /\ grant_epoch (next tr) = grant_epoch s
         \/ er_status r' = StGrant /\ has_display_route s (er_target r) = false).
Proof.
  intros HW. unfold on_peer_readiness_updated. set (s1 := set peers _ s).
  intros (se&Hrq&[_ ->]%validated_Ret)%exec_bind_Ret. fields.
  assert (Quiet s s1) as Hq by quiet_fields.
  assert (Quiet (fst se) (fst (readiness_owner_part now t host p se))) as Hqo.
  { destruct se as [s2 eff]. unfold readiness_owner_part. repeat case_match; auto with dmx. }
  revert Hrq. unfold readiness_request_part. fields. case_match eqn:Hh; [|
    intros <-%Ret_inj; left; by etrans].
  case_match eqn:Hw; [|case_match; intros <-%Ret_inj; left;
    (etrans; [exact Hq|]); [etrans; [apply (quiet_fallback now t "target_readiness_lost")|exact Hqo]|exact Hqo]].
  intros (r&r'&Hca&Hst)%begin_switch_carried. norm_bool.
  pose proof (ca_from _ _ _ _ Hca) as Hr. fields_in Hr. change (active_request s = Some r) in Hr.
  rewrite readiness_owner_part_local.
  - right. exists r, r'. change (active_request s1) with (active_request s) in *.
    rewrite Hr in Hh, H0. injection Hh as Hh. destruct Hca.
    repeat (split; [done|]). destruct Hst as [(?&_&?)|[??]]; [left|right]; done.
  - rewrite (ca_keyboard _ _ _ _ Hca), (ca_server _ _ _ _ Hca).
    exact (proj1 (wf_request s r HW Hr)).
Qed.

Lemma enter_cases now t rid client target lease s tr :
  on_create_enter now t rid client target lease s = Ret tr ->
  Quiet s (next tr)
    /\ (exists r, request (next tr) rid = Some r
        /\ same_enter_identity r client target lease = true)
  \/ active_request s = None
     /\ exists r', active_request (next tr) = Some r' /\ er_request_id r' = rid
     /\ er_client_id r' = client /\ er_target r' = target /\ er_lease r' = lease
     /\ (er_status r' = StGrant -> phase (next tr) <> Waking)
     /\ (er_status r' = StGrant -> target <> server_host s ->
         peer_ready s target (peer_session_epoch lease) = true)
     /\ (er_status r' <> StGrant /\ grant_epoch (next tr) = grant_epoch s
         \/ er_status r' = StGrant /\ has_display_route s target = false).
Proof.
  unfold on_create_enter. destruct (request s rid) as [r|] eqn:Hrq; [case_match eqn:Hid; [|done]|].
  { intros <-%Ret_inj. left. split; [apply quiet_refl|by exists r]. }
  destruct (active_request s) eqn:Hr; [done|]. do 2 (case_match; [done|]).
  unfold admit_enter. cbv zeta.
  set (r0 := mkEnterRequest rid client target _ lease _ _ _ _ _).
  set (s0 := set request_epoch _ _).
  assert (forall s1, display_hosts s1 = display_hosts s -> grant_epoch s1 = grant_epoch s ->
    (target <> server_host s -> peer_ready s target (peer_session_epoch lease) = true) ->
    exec_bind (begin_switch now t (s1 <| active_request := Some r0 |>, [])) (validated now) = Ret tr ->
    exists r', active_request (next tr) = Some r' /\ er_request_id r' = rid
     /\ er_client_id r' = client /\ er_target r' = target /\ er_lease r' = lease
     /\ (er_status r' = StGrant -> phase (next tr) <> Waking)
     /\ (er_status r' = StGrant -> target <> server_host s ->
         peer_ready s target (peer_session_epoch lease) = true)
     /\ (er_status r' <> StGrant /\ grant_epoch (next tr) = grant_epoch s
         \/ er_status r' = StGrant /\ has_display_route s target = false)) as Hstart.
  { intros s1 Hd Hge Hk (se&(r&r'&[]&Hst)%begin_switch_carried&[_ ->]%validated_Ret)%exec_bind_Ret.
    fields. fields_in ca_from0. injection ca_from0 as <-. exists r'.
    unfold has_display_route in *. fields_in Hst. rewrite Hd in Hst. subst r0. 
    split; [done|]. repeat (split; [done|]).
    destruct Hst as [(->&_&->)|[-> ?]]; [left|right]; done. }
  case_match; [|case_match; [|case_match]].
  - intros Hret. right. split; [done|]. norm_bool. apply (Hstart (release_to_server s0)); try done.
  - intros [_ ->]%validated_Ret. right. split; [done|]. eexists. split; [reflexivity|].
    repeat (split; [reflexivity|]). split; [done|]. split; [done|]. by left.
  - intros [_ ->]%validated_Ret. left. split.
    { unfold archive_request. split; fields; try done. by left. }
    match goal with |- context [archive_request ?x ?y] =>
      exists x; split; [|unfold same_enter_identity; by rewrite !bool_decide_eq_true_2];
      pose proof (archive_request_lookup x y) as Hlook;
      assert (active_request (archive_request x y) = None) as Hn by exact Hr end.
    fields. unfold request. rewrite Hn. exact Hlook.
  - intros Hret. right. split; [done|]. apply (Hstart s0); try done. intros _.
    norm_bool. unfold peer_ready. change (peers s0) with (peers s) in *.
    by destruct (peers s !! target).
Qed.

(** ** The simulation *)

(** The facts about reachable states that the simulation needs beside [WF]:
    the server has a display route, and a granted request is never waking. *)
Record Granting s : Prop := {
  gr_server_route : has_display_route s (server_host s) = true;
  gr_not_waking : forall r, active_request s = Some r -> er_status r = StGrant ->
    phase s <> Waking }.

Lemma quiet_granting s s' :
  Quiet s s' -> Granting s -> has_display_route s' (server_host s') = true -> Granting s'.
Proof.
  intros [_ Hr Hw] [_ Hg] Hroute. split; [done|]. intros r Hr' Hst Hp.
  destruct Hr as [Hr|Hr]; [congruence|]. rewrite Hr in Hr'. by apply (Hg r), Hw.
Qed.

Lemma apply_granting s e now t tr :
  WF s -> Granting s -> apply s e now t = Ret tr -> Granting (next tr).
Proof.
  intros HW HG Hap. pose proof (apply_step _ _ _ _ _ Hap) as Hst.
  assert (has_display_route (next tr) (server_host (next tr)) = true) as Hroute.
  { unfold has_display_route. rewrite (st_display _ _ _ Hst), (st_server _ _ _ Hst). apply HG. }
  destruct (quiet_event e) eqn:Hq; [by eapply quiet_granting; [eapply apply_quiet| |]|].
  destruct e; try done; cbn [apply] in Hap.
  - apply readiness_cases in Hap as [?|(r&r'&_&_&_&_&Hr'&_&_&Hp&_)]; [by eapply quiet_granting| |done].
    split; [done|]. naive_solver.
  - apply enter_cases in Hap as [[? _]|(_&r'&Hr'&_&_&_&_&Hp&_)]; [by eapply quiet_granting|].
    split; [done|]. intros r Hr Hst'. assert (r = r') as -> by congruence. by apply Hp.
  - apply observation_cases in Hap as [?|(s1&r&r'&_&_&_&_&_&_&_&Hg)]; [by eapply quiet_granting|].
    split; [done|]. intros. apply (gb_carried _ _ _ _ _ _ Hg).
Qed.

Lemma reachable_granting t s now : reachable t s now -> Granting s.
Proof.
  induction 1 as [server limit displays s now H|s now e now' tr Hre IH _ _ H|]; [| |done].
  - split.
    + unfold with_display_hosts in H. case_match; [done|]. case_match eqn:Hin; [done|].
      apply Ret_inj in H as <-. norm_bool. unfold has_display_route. fields. by apply bool_decide_eq_true.
    + apply initial_local in H as [[] _]. congruence.
  - eapply apply_granting; [by eapply reachable_wf| |]; done.
Qed.

Lemma abs_of_quiet s s' :
  WF s -> WF s' -> server_host s' = server_host s -> Quiet s s' ->
  keyboard_owner s' = server_host s' -> abs_step (server_host s) (abs_of s) (abs_of s').
Proof.
  intros HW HW' Hsrv HQ Hk. unfold abs_of at 2. rewrite bool_decide_eq_true_2 by done.
  destruct (qu_request _ _ HQ) as [-> | ->]; [apply abs_release|].
  destruct (active_request s) as [r|] eqn:Hr; [|apply abs_release].
  destruct (wf_request s r HW Hr) as (Hk'&_). unfold abs_of. rewrite bool_decide_eq_true_2 by done.
  rewrite Hr. apply abs_stay.
Qed.

(** A commit that moves the owner to a remote host used its grant. *)
Lemma commit_cases now t rid req_epoch grant_ep lid lepoch s tr :
  on_commit now t rid req_epoch grant_ep lid lepoch s = Ret tr ->
  keyboard_owner (next tr) = keyboard_owner s \/ keyboard_owner (next tr) = server_host s
  \/ exists r g, active_request s = Some r /\ er_status r = StGrant /\ er_grant r = Some g
     /\ er_request_id r = rid /\ er_request_epoch r = req_epoch /\ gr_grant_epoch g = grant_ep
     /\ lease_id (er_lease r) = lid /\ lease_epoch (er_lease r) = lepoch
     /\ (now < gr_expires_at_ms g)%N /\ (now < lease_expires_at_ms (er_lease r))%N
     /\ er_target r <> server_host s
     /\ peer_ready s (er_target r) (peer_session_epoch (er_lease r)) = true
     /\ keyboard_owner (next tr) = er_target r
     /\ pointer_owner (next tr) = er_target r.
Proof.
  unfold on_commit. case_match; [case_match; [|done]; intros [_ ->]%validated_Ret; by left|].
  intros (r&Hr%ok_or_Ret&(g&Hg%ok_or_Ret&Hret)%exec_bind_Ret)%exec_bind_Ret.
  revert Hret. case_match eqn:Hid; [done|]. norm_bool.
  destruct (bool_decide (er_target r = server_host s)) eqn:Et; cbn [negb andb].
  - unfold commit_ownership. intros (e&_&[_ ->]%validated_Ret)%exec_bind_Ret. right; left.
    norm_bool. unfold archive_request. case_match; fields; done.
  - case_match eqn:Hp.
    + intros [_ ->]%validated_Ret. right; left. apply begin_fallback_spec.
    + unfold commit_ownership. intros (e&_&[_ ->]%validated_Ret)%exec_bind_Ret. right; right.
      norm_bool. exists r, g. unfold archive_request. repeat (split; [done|]).
      case_match; fields; done.
Qed.

Lemma abs_of_remote s e now t tr :
  WF s -> apply s e now t = Ret tr -> keyboard_owner (next tr) <> server_host (next tr) ->
  abs_step (server_host s) (abs_of s) (abs_of (next tr)).
Proof.
  intros HW Hap Hk. pose proof (apply_step _ _ _ _ _ Hap) as Hst.
  rewrite (st_server _ _ _ Hst) in Hk. unfold abs_of at 2.
  rewrite (st_server _ _ _ Hst), bool_decide_eq_false_2 by done.
  destruct (decide (keyboard_owner (next tr) = keyboard_owner s)) as [Heq|Hne].
  { unfold abs_of. rewrite bool_decide_eq_false_2 by congruence. rewrite Heq. apply abs_stay. }
  destruct (st_owner _ _ _ Hst) as [?|[?|Ho]]; [done..|]. destruct e; try done.
  destruct (commit_cases _ _ _ _ _ _ _ _ _ Hap)
    as [?|[?|(r&g&Hr&Hs&_&_&_&_&_&_&_&_&Hrt&_&->&_)]]; [done..|].
  destruct (wf_request s r HW Hr) as [Hks _]. unfold abs_of.
  rewrite bool_decide_eq_true_2, Hr, bool_decide_eq_true_2 by done. by apply abs_commit.
Qed.

Lemma abs_of_carried s s' r r' :
  WF s -> server_host s' = server_host s -> keyboard_owner s' = server_host s' ->
  active_request s = Some r -> active_request s' = Some r' ->
  er_request_id r' = er_request_id r -> er_target r' = er_target r ->
  (er_status r = StGrant -> er_status r' = StGrant) ->
  abs_step (server_host s) (abs_of s) (abs_of s').
Proof.
  intros HW Hsrv Hk Hr Hr' Hid Htg Hgr. destruct (wf_request s r HW Hr) as [Hks _].
  unfold abs_of. rewrite !bool_decide_eq_true_2, Hr, Hr', Hid, Htg by done.
  destruct (decide (er_status r = StGrant)) as [Hs|Hs].
  - rewrite !bool_decide_eq_true_2 by auto. apply abs_stay.
  - rewrite (bool_decide_eq_false_2 (er_status r = StGrant)) by done.
    destruct (bool_decide _); [apply abs_grant|apply abs_stay].
Qed.

Lemma abs_of_entered s s' r' :
  keyboard_owner s' = server_host s' -> active_request s = None -> active_request s' = Some r' ->
  (keyboard_owner s = server_host s \/ er_target r' = server_host s /\ er_status r' <> StGrant) ->
  abs_step (server_host s) (abs_of s) (abs_of s').
Proof.
  intros Hk Hn Hr' Hor. unfold abs_of.
  rewrite (bool_decide_eq_true_2 (keyboard_owner s' = _)), Hn, Hr' by done.
  destruct (decide (keyboard_owner s = server_host s)) as [Hl|Hl].
  - rewrite (bool_decide_eq_true_2 (keyboard_owner s = _)) by done.
    destruct (bool_decide _); [apply abs_ask_granted|apply abs_ask].
  - destruct Hor as [?|[-> ?]]; [done|]. rewrite !bool_decide_eq_false_2 by done. apply abs_return.
Qed.
