(* ===== verification/ProtocolTheorems.v ===== *)
(** * Theorems about the switch protocol

    The properties of the controller's transition function: safety of input
    ownership, the ownership contract, totality of the deadline handler, fail
    safety, fencing by epochs, idempotence of retried requests and the bounded
    history.

    A state is [reachable] by runs of disciplined events: a request for a
    remote host comes only while no session is owned, and an acknowledgement
    of a multiview command never carries the epoch of an owned session.  The
    code refuses neither; the last section shows what it does then. *)

From stdpp Require Import base tactics list gmap strings.
From Stdlib Require Import NArith Lia.
From S2P Require Import Prelude Domain Protocol ProtocolFacts ProtocolFrame ProtocolInv ProtocolHandlers ProtocolSafety ProtocolRefinement.

Implicit Types (s : ProtocolState) (r : EnterRequest) (a : ActiveSession) (now : N)
  (t : ProtocolTiming).

(** ** Safety of input ownership *)

(** C1: in every state that disciplined events reach keyboard and
    pointer have one owner; a remote
    owner has an active session, a peer that is ready on both input paths for
    the session's epoch, no pending request and no pending fallback, and, if
    its display is managed, the television was observed to show it, full
    screen and with signal, at the current switch epoch. *)
Theorem remote_owner_verified t s now :
  reachable t s now ->
  keyboard_owner s = pointer_owner s
  /\ (keyboard_owner s <> server_host s ->
      phase s = RemoteOwned /\ fallback_required s = false /\ active_request s = None
      /\ exists a, active_session s = Some a /\ as_target a = keyboard_owner s
         /\ peer_ready s (as_target a) (peer_session_epoch (as_lease a)) = true
         /\ as_switch_epoch a = switch_epoch s
         /\ (has_display_route s (as_target a) = true ->
             target_display_verified s (as_target a) (switch_epoch s) = true
             /\ verified_epoch s = Some (switch_epoch s))).
Proof.
  intros [HC HD HO]%reachable_wf. split; [apply HC|]. intros Hk.
  destruct (inv_owner s HC Hk) as (a&Ha&Ht&Hp).
  destruct (co_session s HO a Ha) as (_&_&Hph&Hr&He).
  split; [done|]. split; [|split; [done|]].
  - destruct (fallback_required s) eqn:Hf; [|done]. by apply HC in Hf.
  - exists a. repeat (split; [done|]). intros Hroute.
    destruct (HD a Hk Ha Hroute) as (Hi&Hv&Hm&Hs). rewrite <- He. split; [|done].
    unfold target_display_verified. by rewrite Hi, Hm, Hs, !bool_decide_eq_true_2 by done.
Qed.

Lemma remote_owner_verified_witness :
  keyboard_owner demo_owned <> server_host demo_owned
  /\ exists a, active_session demo_owned = Some a /\ as_target a = keyboard_owner demo_owned.
Proof.
  assert (keyboard_owner demo_owned <> server_host demo_owned) as Hk by by vm_compute.
  split; [exact Hk|].
  destruct (remote_owner_verified _ _ _ demo_owned_reachable) as [_ H].
  destruct (H Hk) as (_&_&_&a&Ha&Ht&_). exact (ex_intro _ a (conj Ha Ht)).
Defined.

(** C2: in runs of disciplined events the code refines the ownership contract:
    seen through [abs_of], every disciplined event that a reachable controller
    accepts is a move of the contract, so a remote host obtains the input only
    from a grant for that very host, and a request becomes granted only as
    itself.  Disciplined means that nobody asks for a remote host while a
    session is owned, and that a multiview acknowledgement does not carry the
    epoch of an owned session; the code does not enforce this, and
    [overlapping_request_changes_owner] shows a run that is none of the
    contract. *)
Theorem protocol_refines_contract t s now e now' tr :
  reachable t s now -> (now <= now')%N -> disciplined s e -> apply s e now' t = Ret tr ->
  abs_step (server_host s) (abs_of s) (abs_of (next tr)).
Proof.
  intros Hre Hnow HD Hap.
  assert (reachable t (next tr) now') as Hre' by by eapply reach_step.
  pose proof (reachable_wf _ _ _ Hre) as HW. pose proof (reachable_wf _ _ _ Hre') as HW'.
  pose proof (reachable_granting _ _ _ Hre) as [Hroute Hgw].
  pose proof (apply_step _ _ _ _ _ Hap) as Hst. pose proof (st_server _ _ _ Hst) as Hsrv.
  destruct (decide (keyboard_owner (next tr) = server_host (next tr))) as [Hk|Hk];
    [|by eapply abs_of_remote].
  destruct (quiet_event e) eqn:Hq; [apply abs_of_quiet; try done; by eapply apply_quiet|].
  destruct e; try done; cbn [apply] in Hap.
  - apply readiness_cases in Hap as [?|(r&r'&Hr&Hp&_&_&Hr'&Hid&Htg&_&_)]; [| |done].
    + by apply abs_of_quiet.
    + apply (abs_of_carried s (next tr) r r'); try done. intros Hs. by destruct (Hgw r Hr Hs).
  - apply enter_cases in Hap as [[? _]|(Hn&r'&Hr'&Hid&_&Htg&_&_&_&Hgr)]; [by apply abs_of_quiet|].
    apply (abs_of_entered s (next tr) r'); try done. destruct HD as [HD|HD].
    + left. by destruct (wf_no_session s HW HD).
    + right. subst target. destruct Hgr as [[Hs _]|[_ ?]]; [done|congruence].
  - apply observation_cases in Hap as [?|(s1&r&r'&_&_&_&_&Hr1&_&_&[_ _ _ [] Hs _])].
    + by apply abs_of_quiet.
    + apply (abs_of_carried s (next tr) r r'); try done. congruence.
Qed.

Lemma protocol_refines_contract_witness :
  abs_step Controller (AbsGranted "req-1" Left) (AbsOwned Left).
Proof.
  destruct (apply demo_granted demo_commit 400 demo_timing) as [tr| |] eqn:Hap; [|by vm_compute in Hap..].
  assert (next tr = demo_owned) as Htr by (vm_compute in Hap |- *; by injection Hap as <-).
  pose proof (protocol_refines_contract demo_timing demo_granted 300 demo_commit 400 tr
    demo_granted_reachable ltac:(done) I Hap) as H.
  rewrite Htr in H. by vm_compute in H.
Defined.

(** C3: a host other than the server becomes the input owner only by a [Commit]
    that names the pending request, its epoch, its lease and its grant, while
    the request is in the grant state, neither the grant nor the lease has
    expired and the peer is ready; keyboard and pointer then move together.
    This holds from every state, reachable or not. *)
Theorem ownership_only_by_commit s e now t tr :
  apply s e now t = Ret tr ->
  keyboard_owner (next tr) <> keyboard_owner s -> keyboard_owner (next tr) <> server_host s ->
  exists r g, e = Commit (er_request_id r) (er_request_epoch r) (gr_grant_epoch g)
                    (lease_id (er_lease r)) (lease_epoch (er_lease r))
    /\ active_request s = Some r /\ er_status r = StGrant /\ er_grant r = Some g
    /\ (now < gr_expires_at_ms g)%N /\ (now < lease_expires_at_ms (er_lease r))%N
    /\ peer_ready s (er_target r) (peer_session_epoch (er_lease r)) = true
    /\ keyboard_owner (next tr) = er_target r /\ pointer_owner (next tr) = er_target r.
Proof.
  intros Hap Hne Hsv. pose proof (apply_step _ _ _ _ _ Hap) as Hst.
  destruct (st_owner _ _ _ Hst) as [?|[?|Ho]]; [done..|]. destruct e; try done.
  destruct (commit_cases _ _ _ _ _ _ _ _ _ Hap)
    as [?|[?|(r&g&Hr&Hs&Hg&Hi&He&Hge&Hl&Hle&H1&H2&_&Hp&Hk&Hpt)]]; [done..|].
  exists r, g. subst. done.
Qed.

Lemma ownership_only_by_commit_witness :
  exists r, active_request demo_granted = Some r /\ er_status r = StGrant
    /\ keyboard_owner demo_owned = er_target r.
Proof.
  destruct (apply demo_granted demo_commit 400 demo_timing) as [tr| |] eqn:Hap; [|by vm_compute in Hap..].
  assert (next tr = demo_owned) as Htr by (vm_compute in Hap |- *; by injection Hap as <-).
  destruct (ownership_only_by_commit demo_granted demo_commit 400 demo_timing tr Hap)
    as (r&g&_&Hr&Hs&_&_&_&_&Hk&_);
    [rewrite Htr; by vm_compute|rewrite Htr; by vm_compute|].
  rewrite Htr in Hk. exact (ex_intro _ r (conj Hr (conj Hs Hk))).
Defined.

(** C4: a grant is never issued blindly.  When a controller that disciplined
    events have reached issues one on any event (its grant epoch moves), either the event is an observation of the
    request's own switch epoch while it is being verified, after which the
    television shows the target full screen with a signal of that epoch and
    the peer of a remote target is ready and its lease live; or the target has
    no managed display and its peer has just been seen ready. *)
Theorem grant_requires_display t s now e now' tr :
  reachable t s now -> apply s e now' t = Ret tr -> grant_epoch (next tr) <> grant_epoch s ->
  (exists r epoch mode input signals,
     e = Observation epoch mode input signals
     /\ active_request s = Some r /\ phase s = Verifying /\ er_switch_epoch r = Some epoch
     /\ target_display_verified (next tr) (er_target r) epoch = true
     /\ (er_target r <> server_host s ->
         peer_ready s (er_target r) (peer_session_epoch (er_lease r)) = true
         /\ (now' < lease_expires_at_ms (er_lease r))%N))
  \/ (exists rid client target lease, e = CreateEnter rid client target lease
      /\ active_request s = None /\ has_display_route s target = false
      /\ peer_ready s target (peer_session_epoch lease) = true)
  \/ (exists r p, e = PeerReadinessUpdated (er_target r) p
      /\ active_request s = Some r /\ phase s = Waking
      /\ bundle_ready p (peer_session_epoch (er_lease r)) = true
      /\ has_display_route s (er_target r) = false).
Proof.
  intros Hre Hap Hne. pose proof (reachable_wf _ _ _ Hre) as HW.
  pose proof (gr_server_route _ (reachable_granting _ _ _ Hre)) as Hsrv.
  destruct (quiet_event e) eqn:Hq.
  { by apply apply_quiet in Hap as [? _ _]. }
  destruct e; try done; cbn [apply] in Hap.
  - apply readiness_cases in Hap as [[? _ _]|(r&r'&Hr&Hp&->&Hb&_&_&_&_&[[_ ?]|[_ ?]])]; try done.
    right; right. by exists r, readiness.
  - apply enter_cases in Hap as [[[? _ _] _]|(Hn&r'&_&_&_&_&_&_&Hpr&[[_ ?]|[Hst Hroute]])]; try done.
    right; left. exists rid, client, target, lease. repeat (split; [done|]).
    apply Hpr; [done|]. intros ->. congruence.
  - apply observation_cases in Hap
      as [[? _ _]|(s1&r&r'&_&Hp1&Hs1&_&Hr1&Hpe1&_&[Hp He Hpeer Hca _ Hv])]; [done|].
    left. exists r, epoch, mode, input, signals.
    split; [done|]. split; [rewrite <- Hr1; apply Hca|]. split; [congruence|].
    split; [done|]. split; [done|]. unfold peer_ready in *. by rewrite Hs1, Hpe1 in Hpeer.
Qed.

Lemma grant_requires_display_witness :
  exists r, active_request demo_verifying = Some r /\ er_target r = Left.
Proof.
  destruct (apply demo_verifying demo_observation 300 demo_timing) as [tr| |] eqn:Hap;
    [|by vm_compute in Hap..].
  assert (next tr = demo_granted) as Htr by (vm_compute in Hap |- *; by injection Hap as <-).
  destruct (grant_requires_display _ _ _ _ _ _ demo_verifying_reachable Hap)
    as [(r&epoch&mode&input&signals&_&Hr&_)|[(?&?&?&?&He&_)|(?&?&He&_)]];
    [rewrite Htr; by vm_compute| |discriminate He..].
  exists r. split; [exact Hr|]. vm_compute in Hr. by injection Hr as <-.
Defined.

(** ** Totality and rejections *)

(** C7: the deadline handler cannot fail.  From every state that a run of
    disciplined events reaches (no request for a remote host while a session
    is owned, no multiview acknowledgement with the epoch of an owned session)
    [Tick] is accepted at any time, and afterwards no session is past its
    lease.  [overlapping_request_rejects_ticks] shows that an overlapping
    request can make every later tick fail. *)
Theorem tick_total t s now now' :
  reachable t s now -> exists tr, apply s Tick now' t = Ret tr
    /\ forall a, active_session (next tr) = Some a -> session_expired a now' = false.
Proof.
  intros HW%reachable_wf. destruct (on_tick_ret now' t s HW) as (tr&Htr&HW'&HL).
  exists tr. split; [done|]. intros a Ha. apply HL; [|done].
  destruct (co_session _ (wf_coherent _ HW') a Ha) as (<-&?&_). done.
Qed.

Lemma tick_total_witness :
  exists tr, apply demo_owned Tick 90000 demo_timing = Ret tr.
Proof.
  destruct (tick_total demo_timing demo_owned 400 90000 demo_owned_reachable) as (tr&H&_).
  exact (ex_intro _ tr H).
Defined.

(** C8: disciplined events never make a reachable controller panic, and when the
    runtime check rejects one it is for one of two reasons: the lease of the
    remote owner has expired (before the next tick), or, for a [Commit] or an
    [Observation] of an old epoch, the remote owner is not on display. *)
Theorem rejections_classified t s now e now' :
  reachable t s now -> disciplined s e ->
  match apply s e now' t with
  | Panic _ => False
  | Throw (Invariant msg) =>
      msg = violation_to_string RemoteOwnerLeaseExpired
      \/ display_rejection s e = true
         /\ msg = violation_to_string RemoteOwnerWithoutVerifiedDisplay
  | Throw _ => True
  | Ret tr => validate (next tr) now' = None
      \/ next tr = s /\ effects tr = []
  end.
Proof.
  intros HW%reachable_wf HD. pose proof (apply_good s e now' t HW HD) as Hg.
  destruct (apply s e now' t) as [tr|[]|] eqn:Hap; try done.
  by apply apply_checked in Hap.
Qed.

Lemma rejections_classified_witness :
  exists err, apply demo_owned (Observation 0 Multiview None (show Controller)) 500 demo_timing
    = Throw (Invariant err) /\ err = violation_to_string RemoteOwnerWithoutVerifiedDisplay.
Proof.
  pose proof (rejections_classified demo_timing demo_owned 400
    (Observation 0 Multiview None (show Controller)) 500 demo_owned_reachable I) as H.
  destruct (apply _ _ _ _) as [tr|[]|] eqn:Hap; try (by vm_compute in Hap).
  exists msg. split; [done|]. destruct H as [H|[_ H]]; [|done].
  subst msg. vm_compute in Hap. discriminate Hap.
Defined.

(** ** Fail safety *)

(** The events that report a failure of the transport, of the current command
    or of the owner's lease, and the end of the process. *)
Definition failure_event s (e : Event) : bool :=
  match e with
  | TransportDisconnected _ | Shutdown => true
  | CommandFailed epoch _ => bool_decide (epoch = switch_epoch s)
  | Renew rid lid lepoch psession => negb (renewal_valid s rid lid lepoch psession)
  | _ => false
  end.

(** What is left of a transaction after a failure. *)
Record Released s (tr : Transition) : Prop := {
  re_keyboard : keyboard_owner (next tr) = server_host s;
  re_pointer : pointer_owner (next tr) = server_host s;
  re_session : active_session (next tr) = None;
  re_request : active_request (next tr) = None;
  re_effects : effects tr = []
    \/ daemon_healthy s = true
       /\ effects tr = [SetInput (server_host s) (switch_epoch (next tr)) true] }.

Lemma fell_back_released now restore s s1 se :
  FellBack restore s1 (fst se) -> snd se = [] ++ fallback_effects restore s1 ->
  manual_recovery_target s1 <> Some (server_host s1) -> (forall h, is_Some (switch_count s1 !! h)) ->
  server_host s1 = server_host s -> (daemon_healthy s1 = true -> daemon_healthy s = true) ->
  exists tr, validated now se = Ret tr /\ Released s tr.
Proof.
  intros F He Hm1 Hc1 Hs1 Hd. destruct se as [s2 eff]. fields_in F. fields_in He.
  destruct (fell_back_ret now restore s1 s2 eff Hm1 Hc1 F) as [-> _].
  eexists. split; [done|]. destruct F. rewrite Hs1 in *. split; fields; try done.
  rewrite He, fb_switch_epoch. unfold fallback_effects. rewrite Hs1.
  destruct restore; [|by left]. cbn [andb app]. destruct (daemon_healthy s1); [right|by left]. auto.
Qed.

Lemma command_failed_released s reason now t :
  WF s -> exists tr, apply s (CommandFailed (switch_epoch s) reason) now t = Ret tr /\ Released s tr.
Proof.
  intros HW. cbn [apply]. unfold on_command_failed. rewrite bool_decide_eq_true_2 by done.
  destruct (begin_fallback_spec now t reason (s <| last_error := Some reason |>) []).
  eapply fell_back_released; [done..|apply (wf_manual s HW)|apply (wf_counters s HW)|done|done].
Qed.

(** C6: failures always bring the input home.  On a controller that disciplined
    events have reached a
    failure event is always accepted, leaves keyboard and pointer on the
    server with neither session nor request, and issues at most one command:
    to show the server's input, with the epoch of the new state and only while
    the transport is up. *)
Theorem failures_release_input t s now e now' :
  reachable t s now -> failure_event s e = true ->
  exists tr, apply s e now' t = Ret tr
    /\ keyboard_owner (next tr) = server_host s /\ pointer_owner (next tr) = server_host s
    /\ active_session (next tr) = None /\ active_request (next tr) = None
    /\ (effects tr = []
        \/ daemon_healthy s = true
           /\ effects tr = [SetInput (server_host s) (switch_epoch (next tr)) true]).
Proof.
  intros HW%reachable_wf Hf. pose proof (wf_manual s HW) as Hm. pose proof (wf_counters s HW) as Hc.
  assert (exists tr, apply s e now' t = Ret tr /\ Released s tr) as (tr&Hap&[]); [|by exists tr].
  destruct e; try done; cbn [apply].
  - destruct (begin_fallback_spec now' t reason (s <| ws_state := Disconnected |>
      <| subscribe_active := false |> <| synchronized := false |>
      <| reconnect_total := sat_add (reconnect_total s) 1 |> <| last_error := Some reason |>) []).
    by eapply fell_back_released.
  - cbn [failure_event] in Hf. norm_bool. subst epoch. by apply command_failed_released.
  - cbn [failure_event] in Hf. unfold on_renew. rewrite Hf.
    destruct (begin_active_session_failure_fallback_spec now' t "lease_renewal_rejected" s []) as (b&?&?).
    by eapply fell_back_released.
  - unfold on_shutdown, release_to_server. rewrite local_idle_validated by (split; done).
    eexists. split; [done|]. split; fields; try done. by left.
Qed.

Lemma failures_release_input_witness :
  exists tr, apply demo_owned (TransportDisconnected "socket") 500 demo_timing = Ret tr
    /\ keyboard_owner (next tr) = server_host demo_owned.
Proof.
  destruct (failures_release_input demo_timing demo_owned 400 (TransportDisconnected "socket") 500
    demo_owned_reachable eq_refl) as (tr&Hap&Hk&_).
  exact (ex_intro _ tr (conj Hap Hk)).
Defined.

(** ** The runtime check *)

(** the runtime check of the code accepts a state exactly when its intended
    meaning holds: one owner for both inputs; no remote owner while a fallback
    is required; manual recovery only towards a remote host while everything
    is idle; a remote owner with its session, a live lease, a ready peer and a
    verified display; and a granted request whose grant matches the verified
    epoch. *)
Theorem validate_exact s now :
  validate s now = None <-> InvCore s /\ DisplayOk s /\ LeaseLive s now.
Proof. apply validate_None. Qed.

(** ** Bounded history, epochs and configuration *)

(** the request history never exceeds its limit, never holds two entries of
    one request, and never holds the request that is still active. *)
Theorem history_bounded t s now :
  reachable t s now ->
  length (request_history s) <= retained_request_limit s
  /\ NoDup (map er_request_id (request_history s))
  /\ (forall r, active_request s = Some r ->
      er_request_id r ∉ map er_request_id (request_history s)).
Proof. intros []%reachable_history. done. Qed.

Lemma history_bounded_witness :
  length (request_history demo_owned) <= 4 /\ length (request_history demo_owned) = 1.
Proof.
  destruct (history_bounded _ _ _ demo_owned_reachable) as (H&_&_).
  assert (retained_request_limit demo_owned = 4) as E by by vm_compute.
  rewrite E in H. split; [exact H|by vm_compute].
Defined.

(** from every state, an accepted event keeps the configuration and moves
    each of the three fencing counters forward, within 64 bits. *)
Theorem epochs_monotone s e now t tr :
  apply s e now t = Ret tr ->
  is_u64 (request_epoch s) -> is_u64 (switch_epoch s) -> is_u64 (grant_epoch s) ->
  (request_epoch s <= request_epoch (next tr) <= u64_max)%N
  /\ (switch_epoch s <= switch_epoch (next tr) <= u64_max)%N
  /\ (grant_epoch s <= grant_epoch (next tr) <= u64_max)%N
  /\ server_host (next tr) = server_host s /\ display_hosts (next tr) = display_hosts s
  /\ retained_request_limit (next tr) = retained_request_limit s.
Proof.
  intros Hst%apply_step Hr Hs Hg. destruct Hst.
  destruct (st_request_epoch Hr), (st_switch_epoch Hs), (st_grant_epoch Hg). done.
Qed.

Lemma epochs_monotone_witness :
  (switch_epoch demo_granted <= switch_epoch demo_owned)%N.
Proof.
  destruct (apply demo_granted demo_commit 400 demo_timing) as [tr| |] eqn:Hap; [|by vm_compute in Hap..].
  assert (next tr = demo_owned) as Htr by (vm_compute in Hap |- *; by injection Hap as <-).
  destruct (epochs_monotone _ _ _ _ _ Hap) as (_&[H _]&_); [by vm_compute..|].
  rewrite Htr in H. exact H.
Defined.

(** ** Retries and stale completions *)

(** [CreateEnter] is idempotent: from every state, when one is accepted, a
    retry of the same transaction, at any later time and with any lease of the
    same identity, is accepted, changes nothing and causes no effect. *)
Theorem enter_idempotent s rid client target lease now t tr lease' now' :
  apply s (CreateEnter rid client target lease) now t = Ret tr ->
  lease_id lease' = lease_id lease -> lease_epoch lease' = lease_epoch lease ->
  apply (next tr) (CreateEnter rid client target lease') now' t = Ret (mkTransition (next tr) []).
Proof.
  intros Hap Hid Hep. cbn [apply] in *. unfold on_create_enter at 1.
  assert (exists r, request (next tr) rid = Some r
    /\ same_enter_identity r client target lease = true) as (r&->&Hsame).
  { apply enter_cases in Hap as [[_ ?]|(_&r&Hr&<-&<-&<-&<-&_)]; [done|].
    exists r. unfold request, same_enter_identity. rewrite Hr.
    by rewrite (proj2 (has_id_true _ _) eq_refl), !bool_decide_eq_true_2. }
  revert Hsame. unfold same_enter_identity. rewrite Hid, Hep. by intros ->.
Qed.

Definition demo_synchronized : ProtocolState :=
  run_events demo_timing demo_initial (take 5 demo_verify_events).

Lemma enter_idempotent_witness :
  exists tr, apply demo_synchronized (CreateEnter "req-1" "laptop" Left demo_lease) 100 demo_timing = Ret tr
    /\ effects tr = [SetInput Left 1 false]
    /\ apply (next tr) (CreateEnter "req-1" "laptop" Left demo_lease) 101 demo_timing
       = Ret (mkTransition (next tr) []).
Proof.
  destruct (apply demo_synchronized (CreateEnter "req-1" "laptop" Left demo_lease) 100 demo_timing)
    as [tr| |] eqn:Hap; [|by vm_compute in Hap..].
  exists tr. split; [reflexivity|].
  pose proof (enter_idempotent _ _ _ _ _ _ _ _ demo_lease 101 Hap eq_refl eq_refl) as H.
  split; [|exact H]. vm_compute in Hap. by injection Hap as <-.
Defined.

(** [Commit] is idempotent: from every state, when a commit is accepted and
    its request is committed, the retry of the same commit at a time when the
    state still passes the runtime check is accepted and changes nothing. *)
Theorem commit_idempotent s rid req_epoch grant_ep lid lepoch now t tr now' :
  apply s (Commit rid req_epoch grant_ep lid lepoch) now t = Ret tr ->
  er_status <$> request (next tr) rid = Some StCommitted ->
  validate (next tr) now' = None ->
  apply (next tr) (Commit rid req_epoch grant_ep lid lepoch) now' t = Ret (mkTransition (next tr) []).
Proof.
  cbn [apply]. intros Hap Hst Hv.
  assert (exists c, find_last (is_committed rid) (request_history (next tr)) = Some c
    /\ er_request_epoch c = req_epoch /\ lease_id (er_lease c) = lid
    /\ lease_epoch (er_lease c) = lepoch /\ gr_grant_epoch <$> er_grant c = Some grant_ep)
    as (c&Hc&He&Hl&Hle&Hg); [|].
  2: { unfold on_commit. rewrite Hc, He, Hl, Hle, Hg, !bool_decide_eq_true_2 by done. cbn [andb].
       by apply validated_Ret. }
  revert Hap. unfold on_commit. destruct (find_last _ (request_history s)) as [c|] eqn:Hc.
  { case_match; [|done]. intros [_ ->]%validated_Ret. norm_bool. exists c. by subst. }
  intros (r&Hr%ok_or_Ret&(g&Hg%ok_or_Ret&Hret)%exec_bind_Ret)%exec_bind_Ret.
  revert Hret. case_match eqn:Hid; [done|]. norm_bool. subst. case_match.
  - intros [_ ->]%validated_Ret. exfalso. revert Hst. fields. unfold request.
    destruct (begin_fallback_spec now t "readiness_lost_before_commit" s []) as [F _].
    rewrite (fb_request _ _ _ F).
    pose proof (begin_fallback_archives now t "readiness_lost_before_commit" s [] r Hr) as Hl.
    unfold archived_request in Hl. by rewrite Hl.
  - unfold commit_ownership. intros (e&_&[_ ->]%validated_Ret)%exec_bind_Ret. fields.
    unfold archive_request. fields. eexists. rewrite find_last_snoc.
    unfold is_committed, has_id. fields. rewrite !bool_decide_eq_true_2 by done. cbn [andb].
    split; [reflexivity|]. fields. by rewrite Hg.
Qed.

Lemma commit_idempotent_witness :
  apply demo_owned demo_commit 500 demo_timing = Ret (mkTransition demo_owned []).
Proof.
  destruct (apply demo_granted demo_commit 400 demo_timing) as [tr| |] eqn:Hap; [|by vm_compute in Hap..].
  assert (next tr = demo_owned) as Htr by (vm_compute in Hap |- *; by injection Hap as <-).
  rewrite <- Htr. apply (commit_idempotent _ _ _ _ _ _ _ _ _ _ Hap); rewrite Htr; by vm_compute.
Defined.

(** The completions of television commands, with the epoch they belong to. *)
Definition completion_epoch (e : Event) : option N :=
  match e with
  | CommandAcknowledged epoch _ | CommandFailed epoch _ | MultiViewAcknowledged epoch _ => Some epoch
  | _ => None
  end.

(** completions are fenced: the acknowledgement or failure of a command of
    another epoch than the current one never changes the state and causes no
    effect; it is only rejected when the lease of the owner has just expired. *)
Theorem stale_completions_ignored t s now e epoch now' :
  reachable t s now -> completion_epoch e = Some epoch -> epoch <> switch_epoch s ->
  apply s e now' t = Ret (mkTransition s [])
  \/ apply s e now' t = Throw (Invariant (violation_to_string RemoteOwnerLeaseExpired)).
Proof.
  intros [HC HD _]%reachable_wf He Hne.
  assert (validated now' (s, []) = Ret (mkTransition s [])
    \/ validated now' (s, []) = Throw (Invariant (violation_to_string RemoteOwnerLeaseExpired))) as Hv.
  { unfold validated. fields. destruct (validate_core s now' HC) as [(->&_)|[[-> _]|[_ ?]]]; auto. done. }
  destruct e; try done; injection He as ->; cbn [apply].
  - left. unfold on_command_acknowledged. by rewrite bool_decide_eq_false_2.
  - unfold on_command_failed. by rewrite bool_decide_eq_false_2.
  - unfold on_multiview_acknowledged. by rewrite bool_decide_eq_false_2.
Qed.

Lemma stale_completions_ignored_witness :
  apply demo_granted (CommandFailed 0 "late") 350 demo_timing = Ret (mkTransition demo_granted []).
Proof.
  destruct (stale_completions_ignored demo_timing demo_granted 300 (CommandFailed 0 "late") 0 350
    demo_granted_reachable eq_refl) as [H|H]; [by vm_compute|exact H|].
  exfalso. by vm_compute in H.
Defined.

(** ** Requests that overlap an owned session *)

Definition right_ready : PeerReadiness := mkPeerReadiness true true true 9 100.
Definition overlapping_enter : Event :=
  CreateEnter "req-2" "laptop" Right (mkLease "lease-2" 1 9 90000).

(** A controller whose computers other than the server have no managed
    display; the left one owns the input, the right one is ready and asks. *)
Definition displayless_asked : ProtocolState :=
  match with_display_hosts Controller 4 [Controller] with
  | Ret s => run_events demo_timing s (take 6 demo_verify_events ++
      [(200, demo_commit); (450, PeerReadinessUpdated Right right_ready); (500, overlapping_enter)])%N
  | _ => demo_initial
  end.

(** Without the discipline the contract is left: a request for the right host
    while the left one owns the input is admitted and granted, and its commit
    takes the input from the one host to the other. *)
Example overlapping_request_changes_owner :
  abs_of displayless_asked = AbsOwned Left
  /\ exists tr, apply displayless_asked (Commit "req-2" 2 2 "lease-2" 1) 800 demo_timing = Ret tr
     /\ abs_of (next tr) = AbsOwned Right
     /\ ~ abs_step Controller (AbsOwned Left) (AbsOwned Right).
Proof.
  split; [by vm_compute|].
  destruct (apply displayless_asked _ 800 demo_timing) as [tr| |] eqn:Hap; [|by vm_compute in Hap..].
  exists tr. split; [done|]. split; [|by inversion 1].
  vm_compute in Hap. injection Hap as <-. by vm_compute.
Qed.

(** The owner keeps renewing its lease while the other host does not wake up. *)
Definition overlapping_renewed : ProtocolState :=
  run_events demo_timing demo_owned ((500%N, overlapping_enter)
    :: map (fun now => (now, Renew "req-1" "lease-1" 1 7))
         [1000; 11000; 21000; 31000; 41000; 51000; 60000]%N).

(** Without the discipline the deadline handler fails: when the second host
    has not woken up in time, the tick wants to arm manual recovery, which the
    runtime check refuses while the session of the first host is there, at
    every later tick again as long as its lease is renewed. *)
Example overlapping_request_rejects_ticks :
  Forall (fun now => apply overlapping_renewed Tick now demo_timing
                     = Throw (Invariant (violation_to_string ManualRecoveryWhileInputActive)))
    [60500; 61500; 74999]%N.
Proof. repeat constructor; by vm_compute. Qed.
