(* ===== verification/ProtocolEffects.v ===== *)
(** * Effects of the switch protocol

    Every accepted event asks for at most one action of the outside world, and
    that action carries the epoch of the state it leads to, so that its
    completion can be told from a stale one. *)

From stdpp Require Import base tactics list gmap strings.
From Stdlib Require Import NArith Lia.
From S2P Require Import Prelude Domain Protocol ProtocolFacts ProtocolFrame ProtocolInv ProtocolHandlers ProtocolSafety ProtocolRefinement.

Implicit Types (s : ProtocolState) (r : EnterRequest) (a : ActiveSession) (now : N)
  (t : ProtocolTiming).

(** An effect that belongs to the state [s] its transition leads to. *)
Definition fenced s (eff : Effect) : Prop :=
  match eff with
  | SetInput target epoch fallback =>
      epoch = switch_epoch s /\ commanded_input s = Some target
      /\ (fallback = true -> target = server_host s)
  | Observe epoch => epoch = switch_epoch s /\ observation_in_flight s = Some epoch
  | Wake target req_epoch =>
      req_epoch = request_epoch s /\ er_target <$> active_request s = Some target
  | SetMultiView enabled epoch => epoch = switch_epoch s /\ pending_multiview s = Some enabled
  end.

(** At most one effect, and that one fenced. *)
Definition one_fenced (se : SE) : Prop :=
  snd se = [] \/ exists eff, snd se = [eff] /\ fenced (fst se) eff.

Definition emits (m : exec ProtocolError Transition) : Prop :=
  forall tr, m = Ret tr -> one_fenced (next tr, effects tr).

Lemma emits_validated now se : one_fenced se -> emits (validated now se).
Proof. destruct se. intros H tr [_ ->]%validated_Ret. done. Qed.
Lemma emits_throw e : emits (Throw e).
Proof. by intros tr. Qed.
Lemma emits_bind {A} (m : exec ProtocolError A) k :
  (forall x, m = Ret x -> emits (k x)) -> emits (exec_bind m k).
Proof. intros H tr (x&Hx&Hk)%exec_bind_Ret. by eapply H. Qed.
Lemma emits_same s : emits (Ret (mkTransition s [])).
Proof. intros tr <-%Ret_inj. by left. Qed.
Lemma one_fenced_nil s : one_fenced (s, []).
Proof. by left. Qed.
#[export] Hint Resolve one_fenced_nil emits_throw : dmx.

(** Follow the branches of a handler down to its effects. *)
Ltac emits_auto :=
  repeat first
    [apply emits_validated|apply emits_throw|apply emits_same|apply emits_bind; intros ? ?
    |progress auto with dmx|match goal with
     | |- emits (if ?b then _ else _) => destruct b eqn:?
     | |- emits (match ?x with _ => _ end) => destruct x eqn:?
     | |- one_fenced (if ?b then _ else _) => destruct b eqn:?
     | |- one_fenced (match ?x with _ => _ end) => destruct x eqn:?
     end].

Lemma issue_fallback_fenced now t s :
  one_fenced (issue_fallback_command now t (s, [])).
Proof. right. eexists. split; [reflexivity|]. unfold fenced. simpl. auto. Qed.

Lemma fallback_with_restore_fenced now t reason restore s :
  one_fenced (begin_fallback_with_restore now t reason restore (s, [])).
Proof.
  unfold begin_fallback_with_restore. edestruct (archive_active_as_eq StFallback reason) as (h2&->&_).
  case_match eqn:Hr; [|case_match; by left]. apply issue_fallback_fenced.
Qed.

Lemma fallback_fenced now t reason s : one_fenced (begin_fallback now t reason (s, [])).
Proof. apply fallback_with_restore_fenced. Qed.
Lemma session_fallback_fenced now t reason s :
  one_fenced (begin_active_session_failure_fallback now t reason (s, [])).
Proof. apply fallback_fenced. Qed.
#[export] Hint Resolve fallback_with_restore_fenced fallback_fenced session_fallback_fenced : dmx.

Lemma request_observation_fenced now t epoch s :
  epoch = switch_epoch s -> one_fenced (request_observation now t epoch (s, [])).
Proof. intros ->. right. eexists. split; [reflexivity|]. done. Qed.

Lemma request_observation_preserving_fenced now t s :
  one_fenced (request_observation_preserving_deadline now t (switch_epoch s) (s, [])).
Proof. right. eexists. split; [reflexivity|]. done. Qed.

#[export] Hint Resolve request_observation_preserving_fenced : dmx.

Lemma begin_switch_fenced now t s se :
  @begin_switch ProtocolError now t (s, []) = Ret se -> one_fenced se.
Proof.
  unfold begin_switch. intros (r&_&H)%exec_bind_Ret. revert H. case_match.
  - intros (s2&_&<-%Ret_inj)%exec_bind_Ret. by left.
  - intros <-%Ret_inj. right. eexists. split; [reflexivity|]. done.
Qed.

(** ** The deadline handler *)

(** After the request part has commanded a fallback, its deadline lies in the
    future and the phase part does nothing more. *)
Lemma fallback_with_restore_deadline now t reason restore s :
  phase (fst (begin_fallback_with_restore now t reason restore (s, []))) = FallbackCommandPending ->
  phase_deadline_ms (fst (begin_fallback_with_restore now t reason restore (s, [])))
  = Some (sat_add now (command_ms t)).
Proof.
  unfold begin_fallback_with_restore. edestruct (archive_active_as_eq StFallback reason) as (h2&->&_).
  case_match; [done|]. case_match; done.
Qed.

Lemma tick_phase_fenced now t s se :
  WF s -> tick_phase_part now t (s, []) = Ret se -> one_fenced se.
Proof.
  intros HW. unfold tick_phase_part. intros H.
  repeat case_match; invert_exec; auto with dmx; try apply issue_fallback_fenced.
  apply request_observation_fenced.
  match goal with H : expect _ _ = Ret _ |- _ => revert H end. cbn [fst].
  destruct (active_session s) as [a|] eqn:Ha; cbn; [intros <-%Ret_inj|done].
  by destruct (co_session _ (wf_coherent _ HW) a Ha) as (_&_&_&_&?).
Qed.

(** The phase part does nothing after a fallback command whose deadline lies
    ahead. *)
Lemma tick_phase_idle now t s eff :
  active_session s = None -> observation_in_flight s = None ->
  phase s = FallbackCommandPending -> due (phase_deadline_ms s) now = false ->
  tick_phase_part now t (s, eff) = Ret (s, eff).
Proof.
  intros Hs Ho Hp Hd. unfold tick_phase_part. fields. rewrite Hs, Ho, Hp, Hd. done.
Qed.

Lemma tick_emits now t s :
  WF s -> (now < sat_add now (command_ms t))%N -> emits (on_tick now t s).
Proof.
  intros HW Hlt. apply emits_bind. intros se Hse. apply emits_validated. revert Hse.
  pose proof (tick_request_part_wf now t s HW) as HW1.
  destruct (tick_request_part now t s) as [s1 eff] eqn:Hrq. fields_in HW1.
  destruct eff as [|e0 eff]; [by apply tick_phase_fenced|].
  assert (one_fenced (s1, e0 :: eff) /\ active_session s1 = None /\ observation_in_flight s1 = None
    /\ phase s1 = FallbackCommandPending /\ due (phase_deadline_ms s1) now = false) as (H1&?&?&?&?).
  { revert Hrq. unfold tick_request_part. destruct (active_request s) as [r|]; [|done].
    case_match; [|done]. cbv zeta. case_match; [done|].
    match goal with |- begin_fallback_with_restore ?n ?t ?rn ?b (?x, []) = _ -> _ =>
      pose proof (begin_fallback_with_restore_spec n t rn b x []) as [F Heff];
      pose proof (fallback_with_restore_fenced n t rn b x) as Hf;
      pose proof (fallback_with_restore_deadline n t rn b x) as Hd end.
    intros Heq. rewrite Heq in *. fields_in F. fields_in Heff. fields_in Hd.
    unfold fallback_effects in Heff. cbn [app] in Heff.
    assert (phase s1 = FallbackCommandPending) as Hp.
    { rewrite (fb_phase _ _ _ F). destruct (display_restore_required s), (daemon_healthy _); done. }
    repeat (split; [first [done|apply F]|]). rewrite (Hd Hp). cbn [due some_and].
    by apply N.leb_gt. }
  rewrite tick_phase_idle by done. by intros <-%Ret_inj.
Qed.

(** ** Every event *)

Lemma readiness_emits now t host p s :
  WF s -> emits (on_peer_readiness_updated now t host p s).
Proof.
  intros HW. unfold on_peer_readiness_updated. set (s1 := set peers _ s).
  apply emits_bind. intros se Hse. apply emits_validated.
  pose proof (step_readiness_request _ _ _ _ _ _ _ Hse) as Hst.
  assert (one_fenced se) as Hone.
  { revert Hse. unfold readiness_request_part. repeat case_match; cbn [fst] in *;
      try (by intros Hb%begin_switch_fenced); intros <-%Ret_inj; auto with dmx. }
  destruct (active_request s) as [r|] eqn:Hr.
  - rewrite readiness_owner_part_local; [done|].
    rewrite (st_server _ _ _ Hst). destruct (wf_request s r HW Hr) as [Hk _].
    by destruct (st_owner _ _ _ Hst) as [->|[->|?]].
  - revert Hse. unfold readiness_request_part. fields.
    change (active_request s1) with (active_request s). rewrite Hr. intros <-%Ret_inj.
    unfold readiness_owner_part. repeat case_match; auto with dmx.
Qed.

Lemma create_enter_emits now t rid client target lease s :
  emits (on_create_enter now t rid client target lease s).
Proof.
  unfold on_create_enter, admit_enter. cbv zeta. emits_auto; try by eapply begin_switch_fenced.
  right. eexists. split; [reflexivity|]. done.
Qed.

Lemma observation_emits now t epoch mode input signals s :
  emits (on_observation now t epoch mode input signals s).
Proof.
  unfold on_observation. cbv zeta.
  match goal with |- context [fallback_required ?x && _] => generalize x; intros s1 end.
  unfold observation_request_part, observation_session_part, complete_multiview_observation.
  emits_auto.
Qed.

Lemma apply_emits s e now t :
  WF s -> (now < sat_add now (command_ms t))%N -> emits (apply s e now t).
Proof.
  intros HW Hlt.
  destruct e; cbn [apply];
    [..|by apply tick_emits|];
    unfold on_transport_progress, on_transport_synchronized, on_transport_disconnected,
      on_arm_manual_recovery, on_command_failed, on_commit, commit_ownership, on_cancel,
      cancel_pending, on_renew, on_subscription_observed, on_shutdown; cbv zeta;
    try first [by apply readiness_emits|apply create_enter_emits|apply observation_emits];
    emits_auto.
  - unfold on_command_acknowledged. case_match eqn:He; [apply emits_same|]. emits_auto.
    apply request_observation_fenced. norm_bool. done.
  - unfold on_multiview_requested. emits_auto. right. eexists. split; [reflexivity|]. done.
  - unfold on_multiview_acknowledged. case_match eqn:He; [|emits_auto]. norm_bool.
    cbn [request_observation]. apply emits_validated. right. eexists. split; [reflexivity|]. done.
Qed.

(** C5: an accepted event of a controller that disciplined events have reached
    causes at most one effect (commands being given some time, before the clock
    is exhausted), and the effect is fenced: a command or an observation carries the switch
    epoch of the new state, which expects exactly that command, observation or
    multiview change, a wake carries the new request's epoch and target, and a
    fallback command always shows the server. *)
Theorem effects_fenced t s now e now' tr :
  reachable t s now -> (0 < command_ms t)%N -> (now' < u64_max)%N ->
  apply s e now' t = Ret tr ->
  effects tr = [] \/ exists eff, effects tr = [eff] /\ fenced (next tr) eff.
Proof.
  intros HW%reachable_wf Hc Hn. apply apply_emits; [done|]. unfold sat_add. lia.
Qed.

Lemma effects_fenced_witness :
  exists tr eff, apply demo_owned Tick 20400 demo_timing = Ret tr
    /\ effects tr = [eff] /\ fenced (next tr) eff.
Proof.
  destruct (apply demo_owned Tick 20400 demo_timing) as [tr| |] eqn:Hap; [|by vm_compute in Hap..].
  destruct (effects_fenced _ _ _ _ 20400 tr demo_owned_reachable ltac:(done) ltac:(done) Hap)
    as [H|(eff&H&Hf)].
  - exfalso. revert H. vm_compute in Hap. by injection Hap as <-.
  - exact (ex_intro _ tr (ex_intro _ eff (conj eq_refl (conj H Hf)))).
Defined.
