(* ===== verification/TvCoordinator.v ===== *)
(** * The coordinator task (tv-multiview/src/coordinator.rs)

    The task that owns the protocol state: the request queues in front of it,
    the effect queues behind it with their depth gauges, the scheduling of
    deadlines, and the dispatch of effects, which turns a full queue into a
    failed command.  The channels are tokio's; they appear as an interface
    with the documented behaviour of a bounded multi-producer queue. *)

From stdpp Require Import base tactics list gmap strings.
From Stdlib Require Import NArith Lia.
From S2P Require Import Prelude Channels Domain Protocol ProtocolFacts ProtocolFrame ProtocolInv ProtocolHandlers ProtocolSafety ProtocolRefinement ProtocolTheorems ProtocolEffects.

Implicit Types (s : ProtocolState) (now : N) (t : ProtocolTiming).

(** ** Queue gauges *)

(** [AtomicUsize] arithmetic wraps at the word size. *)
Definition usize_modulus : N := (2 ^ 64)%N.
Definition fetch_add (d : N) : N := ((d + 1) mod usize_modulus)%N.
Definition fetch_sub (d : N) : N := ((d + (usize_modulus - 1)) mod usize_modulus)%N.

Record QueueGauge := mkGauge { depth : N; capacity : nat }.

Definition QueueGauge_new (capacity : nat) : QueueGauge := mkGauge 0 capacity.
Definition begin_send (g : QueueGauge) : QueueGauge := mkGauge (fetch_add (depth g)) (capacity g).
Definition cancel_send (g : QueueGauge) : QueueGauge := mkGauge (fetch_sub (depth g)) (capacity g).
Definition received (g : QueueGauge) : QueueGauge := mkGauge (fetch_sub (depth g)) (capacity g).

Record QueueSnapshot := mkQueueSnapshot { qs_depth : N; qs_capacity : nat }.
Definition gauge_snapshot (g : QueueGauge) : QueueSnapshot := mkQueueSnapshot (depth g) (capacity g).

Section coordinator.
Context {C : Type -> Type} {M : Mpsc C}.

(** [sender.max_capacity().saturating_sub(sender.capacity())]: the free
    capacity is what the queued messages leave. *)
Definition sender_queue_snapshot {A} (c : C A) : QueueSnapshot :=
  mkQueueSnapshot (N.of_nat (max_capacity c - (max_capacity c - length (queued c)))) (max_capacity c).

Record TrackedEffectSender := mkTracked { te_sender : C Effect; te_queue : QueueGauge }.

Definition tracked_try_send (x : TrackedEffectSender) (eff : Effect)
  : TrackedEffectSender * option TrySendError :=
  let g := begin_send (te_queue x) in
  match try_send (te_sender x) eff with
  | inl c => (mkTracked c g, None)
  | inr err => (mkTracked (te_sender x) (cancel_send g), Some err)
  end.

Definition tracked_recv (x : TrackedEffectSender) : option (Effect * TrackedEffectSender) :=
  match recv_ready (te_sender x) with
  | Some (eff, c) => Some (eff, mkTracked c (received (te_queue x)))
  | None => None
  end.

Record EffectSenders := mkSenders {
  es_ordinary : TrackedEffectSender;
  es_safety : TrackedEffectSender }.

(** ** Dispatch of effects *)

Definition is_safety_effect (eff : Effect) : bool :=
  match eff with SetInput _ _ true => true | _ => false end.

(** The epoch of a command that can be reported as failed; a wake has none. *)
Definition failed_epoch (eff : Effect) : option N :=
  match eff with
  | SetInput _ epoch _ | Observe epoch | SetMultiView _ epoch => Some epoch
  | Wake _ _ => None
  end.

(** One turn of the loop for the popped effect: the new state, the effects it
    adds to the stack, and the senders. *)
Definition dispatch_one (eff : Effect) (now_ms : N) (t : ProtocolTiming) (s : ProtocolState)
    (x : EffectSenders) : exec unit (ProtocolState * list Effect * EffectSenders) :=
  if is_safety_effect eff then
    let '(safety, _) := tracked_try_send (es_safety x) eff in
    Ret (s, [], mkSenders (es_ordinary x) safety)
  else
    let '(ordinary, err) := tracked_try_send (es_ordinary x) eff in
    let x := mkSenders ordinary (es_safety x) in
    match err with
    | None => Ret (s, [], x)
    | Some e =>
        match failed_epoch eff with
        | None => Ret (s, [], x)
        | Some epoch =>
            match apply s (CommandFailed epoch ("effect queue unavailable: " ++ send_error_text e)%string)
                    now_ms t with
            | Ret tr => Ret (next tr, effects tr, x)
            | Throw _ => Ret (s, [], x)
            | Panic msg => Panic msg
            end
        end
    end.

(** [while let Some(effect) = pending.pop()]: the stack is kept top first.
    [Throw tt] is running out of fuel. *)
Fixpoint dispatch_loop (fuel : nat) (pending : list Effect) (now_ms : N) (t : ProtocolTiming)
    (s : ProtocolState) (x : EffectSenders) : exec unit (ProtocolState * EffectSenders) :=
  match pending with
  | [] => Ret (s, x)
  | eff :: pending =>
      match fuel with
      | 0 => Throw tt
      | S fuel =>
          let* r := dispatch_one eff now_ms t s x in
          let '(s, added, x) := r in
          dispatch_loop fuel (rev added ++ pending) now_ms t s x
      end
  end.

(** Enough turns for every dispatch: see [dispatch_terminates]. *)
Definition dispatch_fuel (effs : list Effect) : nat := 2 * length effs.

Definition dispatch_effects (effs : list Effect) (now_ms : N) (t : ProtocolTiming)
    (s : ProtocolState) (x : EffectSenders) : exec unit (ProtocolState * EffectSenders) :=
  dispatch_loop (dispatch_fuel effs) (rev effs) now_ms t s x.

(** ** Requests *)

(** A queued request; [response] identifies the caller that waits for it. *)
Record Request := mkRequest { rq_event : Event; rq_response : option nat }.

Inductive CoordinatorError :=
| CBusy
| CClosed
| CProtocol (e : ProtocolError).

(** The part of [CoordinatorHandle::request] before the response arrives. *)
Definition handle_send (c : C Request) (e : Event) (caller : nat) : C Request + CoordinatorError :=
  match try_send c (mkRequest e (Some caller)) with
  | inl c => inl c
  | inr Full => inr CBusy
  | inr Closed => inr CClosed
  end.

(** ** The task *)

Record Runtime := mkRuntime {
  rt_state : ProtocolState;
  rt_ordinary : C Request;
  rt_safety : C Request;
  rt_effects : EffectSenders;
  rt_snapshot : ProtocolState;
  rt_responses : list (nat * (ProtocolState + ProtocolError)) }.

(** When the timer of an iteration fires: [deadline_sleep]. *)
Definition deadline_sleep (s : ProtocolState) (now_ms : N) : N :=
  match next_deadline_ms s with
  | Some deadline => deadline
  | None => (now_ms + 24 * 60 * 60 * 1000)%N
  end.

(** The outcome of one receive: a message, the end of the channel, or nothing
    yet. *)
Inductive Received A := Got (a : A) (c : C A) | Ended | Nothing.
Arguments Got {A} _ _.
Arguments Ended {A}.
Arguments Nothing {A}.
Definition recv {A} (c : C A) : Received A :=
  match recv_ready c with
  | Some (a, c) => Got a c
  | None => if senders_gone c then Ended else Nothing
  end.

Inductive Chosen :=
| Handle (r : Request) (rt : Runtime)
| Stop
| Wait.

(** The request an iteration handles: a due deadline first, without looking at
    the queues, then the biased [select!].  [check_ms] is the clock when the
    iteration starts and [select_ms] when the select is polled; [Wait] is a
    select that stays pending. *)
Definition choose_request (rt : Runtime) (check_ms select_ms : N) : Chosen :=
  let s := rt_state rt in
  let tick := mkRequest Tick None in
  if due (next_deadline_ms s) check_ms then Handle tick rt
  else if (deadline_sleep s check_ms <=? select_ms)%N then Handle tick rt
  else match recv (rt_safety rt) with
  | Got r c =>
      Handle r (mkRuntime s (rt_ordinary rt) c (rt_effects rt) (rt_snapshot rt) (rt_responses rt))
  | Ended => Stop
  | Nothing =>
      match recv (rt_ordinary rt) with
      | Got r c =>
          Handle r (mkRuntime s c (rt_safety rt) (rt_effects rt) (rt_snapshot rt) (rt_responses rt))
      | Ended => Stop
      | Nothing => Wait
      end
  end.

Definition respond (r : Request) (v : ProtocolState + ProtocolError)
    (out : list (nat * (ProtocolState + ProtocolError))) : list (nat * (ProtocolState + ProtocolError)) :=
  match rq_response r with Some caller => out ++ [(caller, v)] | None => out end.

(** The rest of the iteration, at the clock [now_ms]. *)
Definition handle_request (r : Request) (now_ms : N) (t : ProtocolTiming) (rt : Runtime)
  : exec unit Runtime :=
  match apply (rt_state rt) (rq_event r) now_ms t with
  | Ret tr =>
      let* sx := dispatch_effects (effects tr) now_ms t (next tr) (rt_effects rt) in
      let '(s, x) := sx in
      Ret (mkRuntime s (rt_ordinary rt) (rt_safety rt) x s (respond r (inl s) (rt_responses rt)))
  | Throw e =>
      Ret (mkRuntime (rt_state rt) (rt_ordinary rt) (rt_safety rt) (rt_effects rt) (rt_snapshot rt)
             (respond r (inr e) (rt_responses rt)))
  | Panic msg => Panic msg
  end.

(** One iteration of [run]; [None] when it waits or the loop ends. *)
Definition run_iteration (rt : Runtime) (check_ms select_ms now_ms : N) (t : ProtocolTiming)
  : option (exec unit Runtime) :=
  match choose_request rt check_ms select_ms with
  | Handle r rt => Some (handle_request r now_ms t rt)
  | Stop | Wait => None
  end.

(** [spawn]: the initial runtime, given the four channels it creates. *)
Definition spawn (initial : ProtocolState) (command_capacity safety_capacity : nat)
    (ordinary safety : C Request) (ordinary_effects safety_effects : C Effect) : Runtime :=
  mkRuntime initial ordinary safety
    (mkSenders (mkTracked ordinary_effects (QueueGauge_new command_capacity))
               (mkTracked safety_effects (QueueGauge_new safety_capacity)))
    initial [].

End coordinator.

Arguments Got {C A} _ _.
Arguments Ended {C A}.
Arguments Nothing {C A}.

(** [event_latency_ms] *)
Definition event_latency_ms (s : ProtocolState) (e : Event) (now_ms : N) (t : ProtocolTiming)
  : option N :=
  let measure d := (fun deadline => sat_sub now_ms (sat_sub deadline d)) <$> phase_deadline_ms s in
  match e with
  | CommandAcknowledged _ _ | CommandFailed _ _ | MultiViewAcknowledged _ _ => measure (command_ms t)
  | Observation _ _ _ _ => measure (observation_ms t)
  | _ => None
  end.

(** ** Gauges under interleaving *)

(** The sender and the receiver of an effect queue run in different tasks, and
    each of their operations is two steps: the sender counts and then pushes
    (or fails and takes the count back), the receiver pops and then counts. *)
Section gauge.
Context {C : Type -> Type} {M : Mpsc C} {L : MpscLaws C}.

Record GaugeState := mkGaugeState {
  gs_chan : C Effect;
  gs_gauge : QueueGauge;
  gs_begun : nat;    (** sends counted, outcome not known yet *)
  gs_failed : nat;   (** failed sends whose count is not taken back yet *)
  gs_popped : nat }. (** received effects not counted yet *)

Inductive gauge_step : GaugeState -> GaugeState -> Prop :=
| gs_begin c g b f p : gauge_step (mkGaugeState c g b f p) (mkGaugeState c (begin_send g) (S b) f p)
| gs_push c c' g b f p eff : try_send c eff = inl c' ->
    gauge_step (mkGaugeState c g (S b) f p) (mkGaugeState c' g b f p)
| gs_fail c g b f p eff err : try_send c eff = inr err ->
    gauge_step (mkGaugeState c g (S b) f p) (mkGaugeState c g b (S f) p)
| gs_cancel c g b f p : gauge_step (mkGaugeState c g b (S f) p) (mkGaugeState c (cancel_send g) b f p)
| gs_pop c c' g b f p eff : recv_ready c = Some (eff, c') ->
    gauge_step (mkGaugeState c g b f p) (mkGaugeState c' g b f (S p))
| gs_received c g b f p : gauge_step (mkGaugeState c g b f (S p)) (mkGaugeState c (received g) b f p).

(** The gauge counts the queued effects plus the operations in flight. *)
Definition gauge_exact (x : GaugeState) : Prop :=
  depth (gs_gauge x)
  = (N.of_nat (length (queued (gs_chan x)) + gs_begun x + gs_failed x + gs_popped x)
     mod usize_modulus)%N.

Lemma fetch_add_mod n : fetch_add (N.of_nat n mod usize_modulus) = (N.of_nat (S n) mod usize_modulus)%N.
Proof. unfold fetch_add. rewrite N.Div0.add_mod_idemp_l. f_equal. lia. Qed.

Lemma fetch_sub_mod n : fetch_sub (N.of_nat (S n) mod usize_modulus) = (N.of_nat n mod usize_modulus)%N.
Proof.
  unfold fetch_sub. rewrite N.Div0.add_mod_idemp_l.
  replace (N.of_nat (S n) + (usize_modulus - 1))%N with (N.of_nat n + 1 * usize_modulus)%N.
  - apply N.Div0.mod_add.
  - unfold usize_modulus. lia.
Qed.

Lemma gauge_step_exact x y : gauge_exact x -> gauge_step x y -> gauge_exact y.
Proof.
  unfold gauge_exact. intros Hx Hs. destruct Hs;
    cbn [gs_gauge gs_chan gs_begun gs_failed gs_popped depth begin_send cancel_send received] in *.
  - rewrite Hx, fetch_add_mod. f_equal. lia.
  - apply try_send_inl in H. rewrite H, length_app, Hx. cbn [length]. f_equal. lia.
  - rewrite Hx. f_equal. lia.
  - rewrite Hx. symmetry. rewrite <- fetch_sub_mod. do 3 f_equal. lia.
  - apply recv_ready_Some in H. rewrite Hx, H. cbn [length]. f_equal. lia.
  - rewrite Hx. symmetry. rewrite <- fetch_sub_mod. do 3 f_equal. lia.
Qed.

(** the depth reported for an effect queue is exact under every
    interleaving of senders and receiver: from a new gauge on an empty channel
    it is always the number of queued effects plus the operations in flight,
    so that with no operation in flight it is the queue length, and it never
    wraps below zero. *)
Theorem gauge_interleaving_exact c capacity x :
  queued c = [] ->
  rtc gauge_step (mkGaugeState c (QueueGauge_new capacity) 0 0 0) x ->
  (N.of_nat (length (queued (gs_chan x)) + gs_begun x + gs_failed x + gs_popped x) < usize_modulus)%N ->
  qs_depth (gauge_snapshot (gs_gauge x))
  = N.of_nat (length (queued (gs_chan x)) + gs_begun x + gs_failed x + gs_popped x).
Proof.
  intros Hc Hr Hb. cbn.
  assert (gauge_exact x) as ->; [|by apply N.mod_small].
  remember (mkGaugeState c _ 0 0 0) as x0 eqn:E.
  assert (gauge_exact x0) as H0 by (subst x0; unfold gauge_exact; cbn; by rewrite Hc).
  clear E Hb. induction Hr as [|x y z Hs _ IH]; [done|]. by apply IH, (gauge_step_exact x).
Qed.
End gauge.

(** ** The dispatch loop *)

Section dispatch.
Context {C : Type -> Type} {M : Mpsc C} {L : MpscLaws C}.
Implicit Types x : EffectSenders (C := C).

(** Reporting a failed command never panics and only asks for safety effects,
    from any state. *)
Lemma command_failed_effects s epoch reason now t :
  match apply s (CommandFailed epoch reason) now t with
  | Ret tr => forallb is_safety_effect (effects tr) = true /\ length (effects tr) <= 1
  | Throw _ => True
  | Panic _ => False
  end.
Proof.
  cbn [apply]. unfold on_command_failed, validated.
  destruct (bool_decide (switch_epoch s = epoch)); (destruct (validate _ _); [done|]); cbn [effects].
  - destruct (begin_fallback_spec now t reason (s <| last_error := Some reason |>) []) as [_ ->].
    unfold fallback_effects. destruct (_ && _); cbn; auto with arith.
  - split; [done|]. cbn. lia.
Qed.

Lemma dispatch_one_total eff now t s x :
  exists s' added x', dispatch_one eff now t s x = Ret (s', added, x')
    /\ (if is_safety_effect eff then added = []
        else forallb is_safety_effect added = true /\ length added <= 1).
Proof.
  unfold dispatch_one. destruct (is_safety_effect eff).
  { destruct (tracked_try_send (es_safety x) eff) as [sf err]. by repeat eexists. }
  destruct (tracked_try_send (es_ordinary x) eff) as [o [e|]];
    [|repeat eexists; simpl; auto with arith].
  destruct (failed_epoch eff) as [epoch|]; [|repeat eexists; simpl; auto with arith].
  pose proof (command_failed_effects s epoch
    ("effect queue unavailable: " ++ send_error_text e)%string now t) as H.
  destruct (apply s _ now t); [|repeat eexists; simpl; auto with arith|done].
  eexists _, _, _. split; [reflexivity|exact H].
Qed.

(** The work left on the stack: a safety effect is one turn, another effect may
    leave a safety effect behind. *)
Fixpoint dispatch_work (effs : list Effect) : nat :=
  match effs with
  | [] => 0
  | eff :: effs => (if is_safety_effect eff then 1 else 2) + dispatch_work effs
  end.

Lemma dispatch_work_app l1 l2 : dispatch_work (l1 ++ l2) = dispatch_work l1 + dispatch_work l2.
Proof. induction l1 as [|e l1 IH]; cbn; [done|]. rewrite IH. lia. Qed.
Lemma dispatch_work_bound l : dispatch_work l <= 2 * length l.
Proof. induction l as [|e l IH]; cbn; [done|]. destruct (is_safety_effect e); lia. Qed.
Lemma dispatch_work_safety l : forallb is_safety_effect l = true -> dispatch_work l = length l.
Proof. induction l as [|e l IH]; cbn; [done|]. intros [-> ?]%andb_prop. by rewrite IH. Qed.

Lemma dispatch_loop_total fuel : forall pending now t s x,
  dispatch_work pending <= fuel -> exists s' x', dispatch_loop fuel pending now t s x = Ret (s', x').
Proof.
  induction fuel as [|fuel IH]; intros [|eff pending] now t s x Hf; cbn [dispatch_loop];
    try (by repeat eexists).
  { cbn in Hf. destruct (is_safety_effect eff); lia. }
  destruct (dispatch_one_total eff now t s x) as (s'&added&x'&->&Ha). cbn [exec_bind].
  apply IH. rewrite dispatch_work_app. cbn [dispatch_work] in Hf.
  destruct (is_safety_effect eff); [subst added; cbn; lia|]. destruct Ha as [Ha Hl].
  assert (dispatch_work (rev added) <= 1); [|lia].
  destruct added as [|e [|]]; cbn in *; [lia| |lia]. rewrite andb_true_r in Ha. rewrite Ha. lia.
Qed.

Lemma dispatch_effects_total effs now t s x :
  exists s' x', dispatch_effects effs now t s x = Ret (s', x').
Proof.
  unfold dispatch_effects, dispatch_fuel. apply dispatch_loop_total.
  etrans; [apply dispatch_work_bound|]. by rewrite length_rev.
Qed.

Lemma dispatch_loop_fuel fuel : forall fuel' pending now t s x y,
  dispatch_loop fuel pending now t s x = Ret y -> fuel <= fuel' ->
  dispatch_loop fuel' pending now t s x = Ret y.
Proof.
  induction fuel as [|fuel IH]; intros fuel' [|eff pending] now t s x y.
  - by destruct fuel'.
  - done.
  - by destruct fuel'.
  - destruct fuel' as [|fuel']; [lia|]. cbn [dispatch_loop].
    intros ([[s1 added] x1]&->&H)%exec_bind_Ret Hle. cbn [exec_bind]. apply IH; [done|lia].
Qed.

(** dispatching effects always terminates and never panics, from any state:
    whatever the queues answer, the loop ends within two turns per effect (a
    command that cannot be queued is turned into a failure at most once), and
    more turns would not change its result. *)
Theorem dispatch_terminates effs now t s x :
  exists s' x', forall fuel, 2 * length effs <= fuel ->
    dispatch_loop fuel (rev effs) now t s x = Ret (s', x').
Proof.
  destruct (dispatch_effects_total effs now t s x) as (s'&x'&H). exists s', x'.
  intros fuel Hf. by eapply dispatch_loop_fuel.
Qed.

Lemma dispatch_one_reachable eff now t s x s' added x' :
  reachable t s now -> dispatch_one eff now t s x = Ret (s', added, x') -> reachable t s' now.
Proof.
  intros Hre. unfold dispatch_one. destruct (is_safety_effect eff).
  { destruct (tracked_try_send _ _). by intros [= <- _ _]. }
  destruct (tracked_try_send _ _) as [o [e|]]; [|by intros [= <- _ _]].
  destruct (failed_epoch eff) as [epoch|]; [|by intros [= <- _ _]].
  destruct (apply s _ now t) as [tr| |] eqn:Hap; [|by intros [= <- _ _]|done].
  intros [= <- _ _]. by eapply reach_step; [|reflexivity| |exact Hap].
Qed.

Lemma dispatch_loop_reachable fuel : forall pending now t s x s' x',
  reachable t s now -> dispatch_loop fuel pending now t s x = Ret (s', x') -> reachable t s' now.
Proof.
  induction fuel as [|fuel IH]; intros [|eff pending] now t s x s' x' Hre; cbn [dispatch_loop];
    try (by intros [= <- _]).
  intros ([[s1 added] x1]&H1&H2)%exec_bind_Ret. by eapply IH, H2; eapply dispatch_one_reachable.
Qed.

Lemma dispatch_loop_safety fuel : forall pending now t s x s' x',
  forallb is_safety_effect pending = true ->
  dispatch_loop fuel pending now t s x = Ret (s', x') -> s' = s.
Proof.
  induction fuel as [|fuel IH]; intros [|eff pending] now t s x s' x'; cbn [dispatch_loop forallb];
    try (by intros _ [= <- _]).
  intros [He Hp]%andb_prop. unfold dispatch_one. rewrite He.
  destruct (tracked_try_send _ _). cbn [exec_bind rev app]. by apply IH.
Qed.

(** a switch that cannot be commanded is undone.  When an ordinary effect of
    the current epoch finds its queue full or closed, the dispatch ends with
    both inputs on the server, no session and no request. *)
Theorem dispatch_overflow_fails_safe t s now eff x :
  reachable t s now -> is_safety_effect eff = false -> failed_epoch eff = Some (switch_epoch s) ->
  receiver_gone (te_sender (es_ordinary x)) = true
  \/ max_capacity (te_sender (es_ordinary x)) <= length (queued (te_sender (es_ordinary x))) ->
  exists s' x', dispatch_effects [eff] now t s x = Ret (s', x')
    /\ keyboard_owner s' = server_host s /\ pointer_owner s' = server_host s
    /\ active_session s' = None /\ active_request s' = None
    /\ queued (te_sender (es_ordinary x')) = queued (te_sender (es_ordinary x)).
Proof.
  intros Hre He Hep Hfull.
  assert (exists err, try_send (te_sender (es_ordinary x)) eff = inr err) as [err Herr].
  { destruct (receiver_gone (te_sender (es_ordinary x))) eqn:Hg.
    - exists Closed. by apply try_send_closed.
    - exists Full. apply try_send_full; [done|]. by destruct Hfull. }
  destruct (command_failed_released s
    ("effect queue unavailable: " ++ send_error_text err)%string now t) as (tr&Hap&[]);
    [by eapply reachable_wf|].
  pose proof (command_failed_effects s (switch_epoch s)
    ("effect queue unavailable: " ++ send_error_text err)%string now t) as Hsafe.
  rewrite Hap in Hsafe. destruct Hsafe as [Hsafe Hlen].
  assert (exists s' x', dispatch_loop 1 (rev (effects tr) ++ []) now t (next tr)
    (mkSenders (mkTracked (te_sender (es_ordinary x)) (cancel_send (begin_send (te_queue (es_ordinary x)))))
       (es_safety x)) = Ret (s', x')
    /\ queued (te_sender (es_ordinary x')) = queued (te_sender (es_ordinary x))) as (s'&x'&Hd&Hq).
  { destruct (effects tr) as [|e1 [|]]; cbn in Hsafe, Hlen; [..|lia]; [by repeat eexists|].
    rewrite andb_true_r in Hsafe. cbn [rev app dispatch_loop]. unfold dispatch_one. rewrite Hsafe.
    cbn [es_safety es_ordinary]. destruct (tracked_try_send (es_safety x) e1).
    cbn [exec_bind rev app dispatch_loop]. by repeat eexists. }
  exists s', x'.
  assert (s' = next tr) as ->.
  { eapply dispatch_loop_safety, Hd. rewrite app_nil_r. destruct (effects tr) as [|? [|]]; cbn in *; [done|done|lia]. }
  split; [|done]. unfold dispatch_effects. cbn [dispatch_fuel length rev app Nat.mul Nat.add dispatch_loop].
  unfold dispatch_one. rewrite He. unfold tracked_try_send at 1. rewrite Herr, Hep, Hap.
  cbn [exec_bind]. exact Hd.
Qed.
End dispatch.
