(* ===== verification/TvRun.v ===== *)
(** * The coordinator's run loop

    What one iteration of the coordinator task guarantees, its scheduling
    priorities, and the deadlines it fails to make progress on. *)

From stdpp Require Import base tactics list gmap strings.
From Stdlib Require Import NArith Lia.
From S2P Require Import Prelude Domain Protocol ProtocolFacts ProtocolFrame ProtocolInv ProtocolHandlers ProtocolSafety ProtocolRefinement ProtocolTheorems ProtocolEffects Channels TvCoordinator.

Implicit Types (s : ProtocolState) (now : N) (t : ProtocolTiming).

(** ** Instances used by the witnesses *)

Definition empty_chan (A : Type) (cap : nat) : ListChan A := mkChan [] cap false false.

Definition demo_senders (ordinary_cap : nat) : EffectSenders (C := ListChan) :=
  mkSenders (mkTracked (empty_chan Effect ordinary_cap) (QueueGauge_new ordinary_cap))
            (mkTracked (empty_chan Effect 4) (QueueGauge_new 4)).

Definition demo_runtime s (ordinary safety : list Request) : Runtime (C := ListChan) :=
  mkRuntime s (mkChan ordinary 16 false false) (mkChan safety 16 false false) (demo_senders 16) s [].

Lemma gauge_interleaving_exact_witness :
  qs_depth (gauge_snapshot (begin_send (QueueGauge_new 4))) = 1%N.
Proof.
  refine (gauge_interleaving_exact (empty_chan Effect 4) 4
    (mkGaugeState (mkChan [Observe 3] 4 false false) (begin_send (QueueGauge_new 4)) 0 0 0) _ _ _).
  - reflexivity.
  - eapply rtc_l; [apply gs_begin|]. eapply rtc_l; [by eapply gs_push with (eff := Observe 3)|]. apply rtc_refl.
  - reflexivity.
Defined.

(** With no room in the ordinary queue the switch of the demo is undone. *)
Lemma dispatch_overflow_fails_safe_witness :
  exists s' x', dispatch_effects [Observe 1] 200 demo_timing demo_verifying (demo_senders 0) = Ret (s', x')
    /\ keyboard_owner s' = server_host demo_verifying.
Proof.
  destruct (dispatch_overflow_fails_safe demo_timing demo_verifying 200 (Observe 1) (demo_senders 0))
    as (s'&x'&H&Hk&_).
  - exact demo_verifying_reachable.
  - reflexivity.
  - by vm_compute.
  - right. reflexivity.
  - exact (ex_intro _ s' (ex_intro _ x' (conj H Hk))).
Defined.

Section run.
Context {C : Type -> Type} {M : Mpsc C} {L : MpscLaws C}.
Implicit Types rt : Runtime (C := C).

Lemma recv_Got {A} (c c' : C A) a : recv c = Got a c' -> queued c = a :: queued c'.
Proof. unfold recv. case_match; [|by case_match]. case_match. intros [= -> ->]. by apply recv_ready_Some. Qed.
Lemma recv_Nothing {A} (c : C A) : recv c = Nothing -> queued c = [].
Proof.
  unfold recv. destruct (queued c) as [|a q] eqn:Hq; [done|].
  destruct (recv_fifo A c a q Hq) as (c'&->&_). done.
Qed.

(** scheduling priorities.  An iteration handles a tick, without touching
    the queues, as soon as a deadline is due; otherwise the oldest safety
    request; and the oldest ordinary request only when the safety queue is
    empty.  Requests leave their queue in order. *)
Theorem choose_priority rt check_ms select_ms r rt1 :
  choose_request rt check_ms select_ms = Handle r rt1 ->
  (r = mkRequest Tick None /\ rt1 = rt)
  \/ due (next_deadline_ms (rt_state rt)) check_ms = false
     /\ (queued (rt_safety rt) = r :: queued (rt_safety rt1) /\ rt_ordinary rt1 = rt_ordinary rt
         \/ queued (rt_safety rt) = [] /\ rt_safety rt1 = rt_safety rt
            /\ queued (rt_ordinary rt) = r :: queued (rt_ordinary rt1)).
Proof.
  unfold choose_request. destruct (due _ _) eqn:Hd; [intros [= <- <-]; by left|].
  destruct (_ <=? _)%N; [intros [= <- <-]; by left|].
  destruct (recv (rt_safety rt)) as [r0 c| |] eqn:Hs; [| done|].
  - intros [= <- <-]. right. split; [done|]. left. split; [|done]. by apply recv_Got.
  - destruct (recv (rt_ordinary rt)) as [r0 c| |] eqn:Ho; [|done..].
    intros [= <- <-]. right. split; [done|]. right.
    split; [by apply recv_Nothing|]. split; [done|]. by apply recv_Got.
Qed.

(** C9: an iteration of the task is sound.  If the state is reachable and is the
    published snapshot, and the chosen event is disciplined, the iteration
    completes, the new state is reachable and published, and a caller gets
    exactly one response: the new state, or the error of a rejected event,
    which changed nothing and caused no effect. *)
Theorem run_iteration_sound t rt now check_ms select_ms now' r rt1 :
  reachable t (rt_state rt) now -> (now <= now')%N -> rt_snapshot rt = rt_state rt ->
  choose_request rt check_ms select_ms = Handle r rt1 -> disciplined (rt_state rt) (rq_event r) ->
  exists rt', run_iteration rt check_ms select_ms now' t = Some (Ret rt')
    /\ reachable t (rt_state rt') now' /\ rt_snapshot rt' = rt_state rt'
    /\ exists v, rt_responses rt' = respond r v (rt_responses rt)
       /\ (v = inl (rt_state rt')
           \/ exists e, v = inr e /\ apply (rt_state rt) (rq_event r) now' t = Throw e
              /\ rt_state rt' = rt_state rt /\ rt_effects rt' = rt_effects rt).
Proof.
  intros Hre Hnow Hsnap Hch HD. unfold run_iteration. rewrite Hch.
  assert (rt_state rt1 = rt_state rt /\ rt_snapshot rt1 = rt_snapshot rt
    /\ rt_responses rt1 = rt_responses rt /\ rt_effects rt1 = rt_effects rt) as (E1&E2&E3&E4).
  { revert Hch. unfold choose_request. repeat case_match; try done; by intros [= <- <-]. }
  unfold handle_request. rewrite E1.
  pose proof (apply_good _ (rq_event r) now' t (reachable_wf _ _ _ Hre) HD) as Hgood.
  destruct (apply (rt_state rt) (rq_event r) now' t) as [tr|e|] eqn:Hap; [| |done].
  - destruct (dispatch_effects_total (effects tr) now' t (next tr) (rt_effects rt1)) as (s'&x'&Hd).
    rewrite Hd. cbn [exec_bind]. eexists. split; [done|]. cbn. rewrite E3.
    split; [|split; [done|]]; [|eexists; split; [done|by left]].
    eapply dispatch_loop_reachable, Hd. by eapply reach_step.
  - eexists. split; [done|]. cbn. rewrite ?E1, E2, E3, E4.
    split; [by eapply reach_reject|]. split; [done|]. eexists. split; [done|]. right. eauto.
Qed.
End run.

(** ** Witnesses for the loop *)

Lemma choose_priority_witness :
  exists rt1, choose_request (demo_runtime demo_verifying
      [mkRequest (Cancel "req-1" "user") (Some 1)] [mkRequest (TransportDisconnected "socket") None]) 250 250
    = Handle (mkRequest (TransportDisconnected "socket") None) rt1
    /\ length (queued (rt_ordinary rt1)) = 1.
Proof.
  destruct (choose_request _ 250 250) as [r rt1| |] eqn:Hch; [|by vm_compute in Hch..].
  destruct (choose_priority _ _ _ _ _ Hch) as [[_ ->]|[_ [[Hs Ho]|[Hs _]]]].
  - exfalso. by vm_compute in Hch.
  - exists rt1. injection Hs as <- _. split; [done|]. rewrite Ho. reflexivity.
  - discriminate Hs.
Defined.

Lemma run_iteration_sound_witness :
  exists rt', run_iteration (demo_runtime demo_granted [mkRequest demo_commit (Some 7)] []) 350 350 400 demo_timing
      = Some (Ret rt')
    /\ reachable demo_timing (rt_state rt') 400.
Proof.
  destruct (choose_request (demo_runtime demo_granted [mkRequest demo_commit (Some 7)] []) 350 350)
    as [r rt1| |] eqn:Hch; [|by vm_compute in Hch..].
  destruct (run_iteration_sound demo_timing
    (demo_runtime demo_granted [mkRequest demo_commit (Some 7)] []) 300 350 350 400 r rt1
    demo_granted_reachable ltac:(done) eq_refl Hch) as (rt'&H&Hre&_).
  - vm_compute in Hch. by injection Hch as <- _.
  - exact (ex_intro _ rt' (conj H Hre)).
Defined.

(** ** Deadlines that make no progress *)

Lemma tick_waiting_switch s now t r :
  WF s -> phase s = Switching -> active_request s = Some r -> (now < er_deadline_ms r)%N ->
  observation_in_flight s = None -> apply s Tick now t = Ret (mkTransition s []).
Proof.
  intros HW Hp Hr Hd Ho. destruct (wf_request s r HW Hr) as (Hk&Hs&_).
  cbn [apply]. unfold on_tick, tick_request_part. rewrite Hr. apply N.leb_gt in Hd as ->.
  assert (tick_phase_part now t (s, []) = Ret (s, [])) as ->
    by (unfold tick_phase_part; fields; by rewrite Hs, Hp, Ho).
  cbn [exec_bind].
  destruct HW as [HC _ _]. unfold validated. fields.
  destruct (validate_core s now HC) as [(->&_)|[[_ HL]|[_ HL]]]; [done|..]; exfalso; apply HL.
  - intros a Hne. done.
  - intros a Hne. done.
Qed.


Definition demo_switching : ProtocolState :=
  run_events demo_timing demo_initial (take 6 demo_verify_events).

Lemma demo_switching_reachable : reachable demo_timing demo_switching 100.
Proof.
  assert (100%N = last_time 0 (take 6 demo_verify_events)) as -> by done. unfold demo_switching.
  apply run_reachable; [apply demo_initial_reachable|]. by vm_compute.
Qed.
#[global] Opaque demo_switching.

Lemma demo_switching_request :
  exists r, active_request demo_switching = Some r /\ er_deadline_ms r = 15100%N.
Proof.
  pose (f := fun o : option EnterRequest => match o with Some r => er_deadline_ms r | None => 0%N end).
  assert (f (active_request demo_switching) = 15100%N) as H by by vm_compute.
  destruct (active_request demo_switching) as [r|]; [|discriminate H]. by exists r.
Qed.


(** ** Requests that overlap a remote session *)

(** The state of the demo after the client asks for a second, offline, remote
    host while the first one owns the input.  Neither the controller nor its
    HTTP interface refuses such a request. *)
Definition demo_overlapping : ProtocolState :=
  run_events demo_timing demo_owned
    [(500%N, CreateEnter "req-2" "laptop" Right (mkLease "lease-2" 1 9 90000))].

(** The runtime check depends on the clock only through the lease. *)
Lemma validate_same_lease s now now' :
  (forall a, active_session s = Some a -> session_expired a now = session_expired a now') ->
  validate s now = validate s now'.
Proof.
  intros H. unfold validate, validate_remote_owner.
  destruct (active_session s) as [a|]; [|done]. by rewrite (H a eq_refl).
Qed.

Lemma tick_waking_session s now now0 t r a :
  phase s = Waking -> active_request s = Some r -> (now < er_deadline_ms r)%N ->
  active_session s = Some a -> (now0 <= now)%N -> session_expired a now = false ->
  observation_in_flight s = None -> validate s now0 = None ->
  apply s Tick now t = Ret (mkTransition s []).
Proof.
  intros Hp Hr Hd Hs Hle He Ho Hv. cbn [apply]. unfold on_tick, tick_request_part. rewrite Hr.
  apply N.leb_gt in Hd as ->.
  assert (tick_phase_part now t (s, []) = Ret (s, [])) as ->
    by (unfold tick_phase_part; fields; rewrite Hs, Hp, Ho; cbn [some_and]; by rewrite He).
  cbn [exec_bind]. apply validated_Ret. split; [|done]. fields.
  rewrite (validate_same_lease s now now0); [done|]. intros a' Ha'.
  assert (a' = a) as -> by congruence. rewrite He. symmetry. unfold session_expired in *.
  norm_bool. apply orb_false_iff. split; apply N.leb_gt; lia.
Qed.

(** What the demo state holds, in one evaluation. *)
Lemma demo_overlapping_facts :
  exists r a, active_request demo_overlapping = Some r /\ active_session demo_overlapping = Some a
    /\ er_deadline_ms r = 60500%N
    /\ as_renewed_until_ms a = 15400%N /\ lease_expires_at_ms (as_lease a) = 15400%N.
Proof.
  pose (f := fun s => match active_request s, active_session s with
    | Some r, Some a => [er_deadline_ms r; as_renewed_until_ms a; lease_expires_at_ms (as_lease a)]
    | _, _ => [] end).
  assert (f demo_overlapping = [60500; 15400; 15400]%N) as H by by vm_compute. unfold f in H.
  destruct (active_request demo_overlapping) as [r|]; [|discriminate H].
  destruct (active_session demo_overlapping) as [a|]; [|discriminate H].
  injection H as ???. by exists r, a.
Qed.

(** a request for a second remote host during an owned session is admitted,
    and then the session is lost although its peer keeps renewing it.  The
    signal poll of the session falls due but is only served in [RemoteOwned],
    so from then until the lease runs out every tick leaves the state as it
    is, with the deadline still due: the loop takes the tick at each turn and
    never reads the renewals; at the end of the lease it gives the input back
    to the server. *)
Theorem overlapping_request_stalls :
  phase demo_overlapping = Waking /\ keyboard_owner demo_overlapping = Left
  /\ next_deadline_ms demo_overlapping = Some 10400%N
  /\ (forall now, (10400 <= now < 15400)%N ->
       apply demo_overlapping Tick now demo_timing = Ret (mkTransition demo_overlapping []))
  /\ keyboard_owner (run_events demo_timing demo_overlapping [(15400%N, Tick)]) = Controller.
Proof.
  do 3 (split; [by vm_compute|]). split; [|by vm_compute].
  intros now [Hlo Hhi]. destruct demo_overlapping_facts as (r&a&Hr&Ha&Hd&Hu&Hl).
  refine (tick_waking_session demo_overlapping now 500 demo_timing r a _ Hr _ Ha _ _ _ _);
    [by vm_compute|rewrite Hd; lia|lia| |by vm_compute|by vm_compute].
  unfold session_expired. rewrite Hu, Hl. apply orb_false_iff. split; apply N.leb_gt; lia.
Qed.

(** ** Returning to the server during a signal poll *)

(** The owned session is polled, then the client asks to come back. *)
Definition returning_events : list (N * Event) :=
  [ (10400, Tick); (10500, CreateEnter "req-3" "laptop" Controller (mkLease "lease-3" 1 7 90000)) ]%N.

(** the acknowledgement of a return to the server is lost when it overlaps a
    signal poll.  The request does not clear the observation in flight, so the
    acknowledgement of the new switch, which carries the current epoch and
    input, is ignored; the late observation of the old epoch clears the flag,
    but nothing verifies the display any more, and the request expires into a
    fallback. *)
Theorem return_acknowledgement_lost :
  let s := run_events demo_timing demo_owned returning_events in
  phase s = Switching /\ switch_epoch s = 2%N /\ commanded_input s = Some Controller
  /\ (let s1 := run_events demo_timing s [(10600%N, CommandAcknowledged 2 Controller)] in
      phase s1 = Switching /\ observation_in_flight s1 = Some 1%N)
  /\ (let s2 := run_events demo_timing s
        [(10600, CommandAcknowledged 2 Controller);
         (10700, Observation 1 Fullscreen (Some Controller) (show Controller));
         (25500, Tick)]%N in
      phase s2 = FallbackCommandPending /\ fallback_reason s2 = Some "request_deadline").
Proof. by vm_compute. Qed.
