(* ===== verification/SwitchGate.v ===== *)
(** * The client's side of a switch (lan-mouse/src/switch.rs, local state)

    The edge gate, which asks for a second touch of the screen edge before a
    switch is requested, and the bundle lease manager, the state machine that
    reserves the keyboard and pointer bundle, arms a grant, owns the remote
    bundle and gives it up when a lease or grant expires. *)

From stdpp Require Import base tactics list gmap strings.
From Stdlib Require Import NArith ZArith Lia.
From S2P Require Import Prelude Domain.

(** [lan_mouse_ipc::SwitchHost] has the constructors of [Host], and
    [ClientHandle] is a [u64]. *)
Abbreviation SwitchHost := Host (only parsing).
Abbreviation ClientHandle := N (only parsing).

(** [SwitchHost::fmt] and [SwitchHost::from_str] *)
Definition SwitchHost_to_string (h : SwitchHost) : string :=
  match h with Controller => "controller" | Right => "right" | Left => "left" end.
Definition SwitchHost_from_str (value : string) : SwitchHost + string :=
  if bool_decide (value = "controller") then inl Controller
  else if bool_decide (value = "right") then inl Right
  else if bool_decide (value = "left") then inl Left
  else inr ("unknown switch host: " ++ value)%string.

(** ** The edge gate *)

Record EdgeIntentKey := mkEdgeKey {
  ek_handle : ClientHandle;
  ek_target : SwitchHost;
  ek_peer_session_epoch : N }.
#[global] Instance EdgeIntentKey_eq_dec : EqDecision EdgeIntentKey.
Proof. solve_decision. Defined.

Inductive EdgeIntentDecision := Primed | AwaitingRetreat | Confirmed.
#[global] Instance EdgeIntentDecision_eq_dec : EqDecision EdgeIntentDecision.
Proof. solve_decision. Defined.

Record EdgeIntent := mkEdgeIntent {
  ei_key : EdgeIntentKey;
  ei_rearmed : bool;
  ei_expires_at : N }.

Record EdgeIntentGate := mkEdgeGate {
  eg_valid_for : N;
  eg_intent : option EdgeIntent }.

Definition edge_new (valid_for : N) : EdgeIntentGate := mkEdgeGate valid_for None.

Definition edge_expire (now : N) (g : EdgeIntentGate) : EdgeIntentGate :=
  match eg_intent g with
  | Some i => if (ei_expires_at i <=? now)%N then mkEdgeGate (eg_valid_for g) None else g
  | None => g
  end.

Section edge.
(** [Instant::checked_add]: an instant is a number of milliseconds up to the
    largest one the platform represents. *)
Variable instant_max : N.

Definition instant_checked_add (now d : N) : option N :=
  if (now + d <=? instant_max)%N then Some (now + d)%N else None.

Definition edge_candidate (key : EdgeIntentKey) (now : N) (g : EdgeIntentGate)
  : EdgeIntentDecision * EdgeIntentGate :=
  let g := edge_expire now g in
  let prime :=
    (Primed, mkEdgeGate (eg_valid_for g)
       ((fun expires_at => mkEdgeIntent key false expires_at)
          <$> instant_checked_add now (eg_valid_for g))) in
  match eg_intent g with
  | Some i =>
      if bool_decide (ei_key i = key) then
        if ei_rearmed i then (Confirmed, mkEdgeGate (eg_valid_for g) None)
        else (AwaitingRetreat, g)
      else prime
  | None => prime
  end.

Definition edge_retreat (handle : ClientHandle) (now : N) (g : EdgeIntentGate)
  : bool * EdgeIntentGate :=
  let g := edge_expire now g in
  match instant_checked_add now (eg_valid_for g) with
  | None => (false, mkEdgeGate (eg_valid_for g) None)
  | Some expires_at =>
      match eg_intent g with
      | None => (false, g)
      | Some i =>
          if negb (bool_decide (ek_handle (ei_key i) = handle)) then (false, g)
          else (true, mkEdgeGate (eg_valid_for g) (Some (mkEdgeIntent (ei_key i) true expires_at)))
      end
  end.
End edge.

Definition edge_remove (handle : ClientHandle) (g : EdgeIntentGate) : EdgeIntentGate :=
  match eg_intent g with
  | Some i => if bool_decide (ek_handle (ei_key i) = handle) then mkEdgeGate (eg_valid_for g) None else g
  | None => g
  end.

Definition edge_clear (g : EdgeIntentGate) : EdgeIntentGate := mkEdgeGate (eg_valid_for g) None.

(** ** The bundle lease manager *)

Record GateLeaseIdentity := mkGateLease {
  gl_request_id : string;
  gl_lease_id : string;
  gl_lease_epoch : N;
  gl_peer_session_epoch : N;
  gl_expires_at_ms : N }.
#[global] Instance GateLeaseIdentity_eq_dec : EqDecision GateLeaseIdentity.
Proof. solve_decision. Defined.
#[global] Instance GateLeaseIdentity_eta : RecordEta GateLeaseIdentity :=
  fun l => mkGateLease (gl_request_id l) (gl_lease_id l) (gl_lease_epoch l)
    (gl_peer_session_epoch l) (gl_expires_at_ms l).

Record GateGrantIdentity := mkGateGrant {
  gg_request_epoch : N;
  gg_grant_epoch : N;
  gg_expires_at_ms : N }.
#[global] Instance GateGrantIdentity_eq_dec : EqDecision GateGrantIdentity.
Proof. solve_decision. Defined.

Record GateContext := mkGateContext {
  gc_handle : ClientHandle;
  gc_target : SwitchHost;
  gc_lease : GateLeaseIdentity }.
#[global] Instance GateContext_eq_dec : EqDecision GateContext.
Proof. solve_decision. Defined.
#[global] Instance GateContext_eta : RecordEta GateContext :=
  fun c => mkGateContext (gc_handle c) (gc_target c) (gc_lease c).

(** [GateContext::same_identity]: equality up to the expiry. *)
Definition same_identity (a b : GateContext) : bool :=
  bool_decide (gc_handle a = gc_handle b)
  && bool_decide (gc_target a = gc_target b)
  && bool_decide (gl_request_id (gc_lease a) = gl_request_id (gc_lease b))
  && bool_decide (gl_lease_id (gc_lease a) = gl_lease_id (gc_lease b))
  && bool_decide (gl_lease_epoch (gc_lease a) = gl_lease_epoch (gc_lease b))
  && bool_decide (gl_peer_session_epoch (gc_lease a) = gl_peer_session_epoch (gc_lease b)).

Inductive BundleGateState :=
| GateLocal
| GatePreparing (context : GateContext)
| GateGrantArmed (context : GateContext) (grant : GateGrantIdentity)
| GateRemoteOwned (context : GateContext) (grant : GateGrantIdentity) (renewed_until_ms : N).
#[global] Instance BundleGateState_eq_dec : EqDecision BundleGateState.
Proof. solve_decision. Defined.

Inductive GateError :=
| GateBusy | GatePeerNotReady | GateInvalidIdentity | GateStaleIdentity | GateExpired | GateInvalidState.

Record BundleLeaseManager := mkManager {
  gm_state : BundleGateState;
  gm_next_lease_epoch : N }.

(** [BundleLeaseManager::default()] *)
Definition manager_default : BundleLeaseManager := mkManager GateLocal 0.

Definition gate_context (m : BundleLeaseManager) : option GateContext :=
  match gm_state m with
  | GateLocal => None
  | GatePreparing c | GateGrantArmed c _ | GateRemoteOwned c _ _ => Some c
  end.

(** An operation returns its result and leaves a manager, on errors too. *)
Abbreviation gate_result A := ((A + GateError) * BundleLeaseManager)%type.

Definition go_local (m : BundleLeaseManager) : BundleLeaseManager :=
  mkManager GateLocal (gm_next_lease_epoch m).

Definition gate_reserve (handle : ClientHandle) (target : SwitchHost) (request_id lease_id : string)
    (peer_session_epoch : N) (peer_bundle_ready : bool) (now_ms lease_ttl_ms : N)
    (m : BundleLeaseManager) : gate_result GateContext :=
  if negb (bool_decide (gm_state m = GateLocal)) then (inr GateBusy, m)
  else if negb peer_bundle_ready || (peer_session_epoch =? 0)%N then (inr GatePeerNotReady, m)
  else if bool_decide (request_id = "") || bool_decide (lease_id = "") || (lease_ttl_ms =? 0)%N
  then (inr GateInvalidIdentity, m)
  else match checked_add now_ms lease_ttl_ms with
  | None => (inr GateInvalidIdentity, m)
  | Some expires_at_ms =>
      match checked_add (gm_next_lease_epoch m) 1 with
      | None => (inr GateInvalidIdentity, m)
      | Some epoch =>
          let c := mkGateContext handle target
            (mkGateLease request_id lease_id epoch peer_session_epoch expires_at_ms) in
          (inl c, mkManager (GatePreparing c) epoch)
      end
  end.

Definition gate_arm_grant (context : GateContext)
    (request_epoch grant_epoch lease_expires_at_ms grant_expires_at_ms : N)
    (peer_bundle_ready : bool) (peer_session_epoch now_ms : N)
    (m : BundleLeaseManager) : gate_result (GateContext * GateGrantIdentity) :=
  match gm_state m with
  | GatePreparing current =>
      if negb (bool_decide (current = context)) then (inr GateStaleIdentity, m)
      else if negb peer_bundle_ready
              || negb (bool_decide (gl_peer_session_epoch (gc_lease current) = peer_session_epoch))
      then (inr GatePeerNotReady, go_local m)
      else if (gl_expires_at_ms (gc_lease current) <=? now_ms)%N
              || (lease_expires_at_ms <=? now_ms)%N || (grant_expires_at_ms <=? now_ms)%N
      then (inr GateExpired, go_local m)
      else if (request_epoch =? 0)%N || (grant_epoch =? 0)%N then (inr GateInvalidIdentity, m)
      else
        let g := mkGateGrant request_epoch grant_epoch grant_expires_at_ms in
        let c := current <| gc_lease := (gc_lease current)
          <| gl_expires_at_ms := N.min (gl_expires_at_ms (gc_lease current)) lease_expires_at_ms |> |> in
        (inl (c, g), mkManager (GateGrantArmed c g) (gm_next_lease_epoch m))
  | _ => (inr GateInvalidState, m)
  end.

Definition gate_commit (handle : ClientHandle) (lease_epoch : N) (peer_bundle_ready : bool)
    (peer_session_epoch now_ms : N) (m : BundleLeaseManager)
  : gate_result (GateContext * GateGrantIdentity) :=
  match gm_state m with
  | GateGrantArmed c g =>
      if negb (bool_decide (gc_handle c = handle))
         || negb (bool_decide (gl_lease_epoch (gc_lease c) = lease_epoch))
      then (inr GateStaleIdentity, m)
      else if negb peer_bundle_ready
              || negb (bool_decide (gl_peer_session_epoch (gc_lease c) = peer_session_epoch))
      then (inr GatePeerNotReady, go_local m)
      else if (gl_expires_at_ms (gc_lease c) <=? now_ms)%N || (gg_expires_at_ms g <=? now_ms)%N
      then (inr GateExpired, go_local m)
      else (inl (c, g),
            mkManager (GateRemoteOwned c g (N.min (gl_expires_at_ms (gc_lease c)) (gg_expires_at_ms g)))
              (gm_next_lease_epoch m))
  | _ => (inr GateInvalidState, m)
  end.

Definition gate_renew (request_id : string) (renewed_until_ms : N) (peer_bundle_ready : bool)
    (peer_session_epoch now_ms : N) (m : BundleLeaseManager) : gate_result unit :=
  match gm_state m with
  | GateRemoteOwned c g _ =>
      if negb (bool_decide (gl_request_id (gc_lease c) = request_id)) then (inr GateStaleIdentity, m)
      else if negb peer_bundle_ready
              || negb (bool_decide (gl_peer_session_epoch (gc_lease c) = peer_session_epoch))
      then (inr GatePeerNotReady, go_local m)
      else if (gl_expires_at_ms (gc_lease c) <=? now_ms)%N || (renewed_until_ms <=? now_ms)%N
      then (inr GateExpired, go_local m)
      else (inl tt,
            mkManager (GateRemoteOwned
              (c <| gc_lease := (gc_lease c) <| gl_expires_at_ms := renewed_until_ms |> |>)
              g renewed_until_ms) (gm_next_lease_epoch m))
  | _ => (inr GateInvalidState, m)
  end.

Definition gate_invalidate (m : BundleLeaseManager) : option GateContext * BundleLeaseManager :=
  (gate_context m, go_local m).

Definition gate_expire (now_ms : N) (m : BundleLeaseManager) : option GateContext * BundleLeaseManager :=
  let expired :=
    match gm_state m with
    | GateLocal => false
    | GatePreparing c => (gl_expires_at_ms (gc_lease c) <=? now_ms)%N
    | GateGrantArmed c g =>
        (gl_expires_at_ms (gc_lease c) <=? now_ms)%N || (gg_expires_at_ms g <=? now_ms)%N
    | GateRemoteOwned c _ renewed_until_ms =>
        (gl_expires_at_ms (gc_lease c) <=? now_ms)%N || (renewed_until_ms <=? now_ms)%N
    end in
  if expired then gate_invalidate m else (None, m).

Definition gate_deadline_ms (m : BundleLeaseManager) : option N :=
  match gm_state m with
  | GateLocal => None
  | GatePreparing c => Some (gl_expires_at_ms (gc_lease c))
  | GateGrantArmed c g => Some (N.min (gl_expires_at_ms (gc_lease c)) (gg_expires_at_ms g))
  | GateRemoteOwned c _ renewed_until_ms =>
      Some (N.min (gl_expires_at_ms (gc_lease c)) renewed_until_ms)
  end.
