(* ===== verification/SwitchGateTheorems.v ===== *)
(** * Theorems about the client's gates

    The bundle lease manager as a state machine: its invariant, who may own
    the remote bundle, expiry, and fencing of stale leases; and the double
    touch that the edge gate demands. *)

From stdpp Require Import base tactics list gmap strings.
From Stdlib Require Import NArith ZArith Lia.
From S2P Require Import Prelude Domain SwitchGate.

Implicit Types (m : BundleLeaseManager) (c : GateContext) (g : GateGrantIdentity) (now : N).

(** ** The manager as a state machine *)

Inductive gate_step now m : BundleLeaseManager -> Prop :=
| gstep_reserve handle target rid lid session ready ttl res m' :
    gate_reserve handle target rid lid session ready now ttl m = (res, m') -> gate_step now m m'
| gstep_arm c re ge lexp gexp ready session res m' :
    gate_arm_grant c re ge lexp gexp ready session now m = (res, m') -> gate_step now m m'
| gstep_commit handle epoch ready session res m' :
    gate_commit handle epoch ready session now m = (res, m') -> gate_step now m m'
| gstep_renew rid until ready session res m' :
    gate_renew rid until ready session now m = (res, m') -> gate_step now m m'
| gstep_expire res m' : gate_expire now m = (res, m') -> gate_step now m m'
| gstep_invalidate res m' : gate_invalidate m = (res, m') -> gate_step now m m'.

(** Managers reachable from the default one by steps at any times. *)
Inductive gate_reachable : BundleLeaseManager -> Prop :=
| gr_default : gate_reachable manager_default
| gr_step m now m' : gate_reachable m -> gate_step now m m' -> gate_reachable m'.

(** Decide the branches of one operation. *)
Ltac gate_cases :=
  repeat match goal with
  | H : (if ?b then _ else _) = _ |- _ => destruct b eqn:?; norm_bool
  | H : match ?x with _ => _ end = (_, _) |- _ => destruct x eqn:?
  | H : (_, _) = (_, _) |- _ => injection H as <- <-
  end.

(** What an operation does to the manager, whatever its result: it keeps it,
    gives the bundle up, or moves one step forward. *)
Inductive gate_move now m : BundleLeaseManager -> Prop :=
| gmove_same : gate_move now m m
| gmove_release : gate_move now m (go_local m)
| gmove_reserve c epoch :
    gm_state m = GateLocal -> epoch = (gm_next_lease_epoch m + 1)%N -> (epoch <= u64_max)%N ->
    gl_lease_epoch (gc_lease c) = epoch -> gl_peer_session_epoch (gc_lease c) <> 0%N ->
    gl_request_id (gc_lease c) <> "" -> gl_lease_id (gc_lease c) <> "" ->
    (now < gl_expires_at_ms (gc_lease c))%N ->
    gate_move now m (mkManager (GatePreparing c) epoch)
| gmove_arm c c' g :
    gm_state m = GatePreparing c -> same_identity c c' = true ->
    gg_request_epoch g <> 0%N -> gg_grant_epoch g <> 0%N ->
    (now < gl_expires_at_ms (gc_lease c') <= gl_expires_at_ms (gc_lease c))%N ->
    (now < gg_expires_at_ms g)%N ->
    gate_move now m (mkManager (GateGrantArmed c' g) (gm_next_lease_epoch m))
| gmove_commit c g :
    gm_state m = GateGrantArmed c g ->
    (now < gl_expires_at_ms (gc_lease c))%N -> (now < gg_expires_at_ms g)%N ->
    gate_move now m (mkManager (GateRemoteOwned c g
      (N.min (gl_expires_at_ms (gc_lease c)) (gg_expires_at_ms g))) (gm_next_lease_epoch m))
| gmove_renew c c' g old until :
    gm_state m = GateRemoteOwned c g old -> same_identity c c' = true ->
    gl_expires_at_ms (gc_lease c') = until -> (now < until)%N ->
    (now < gl_expires_at_ms (gc_lease c))%N ->
    gate_move now m (mkManager (GateRemoteOwned c' g until) (gm_next_lease_epoch m)).

Lemma same_identity_expiry c e :
  same_identity c (c <| gc_lease := (gc_lease c) <| gl_expires_at_ms := e |> |>) = true.
Proof. unfold same_identity. cbn. by rewrite !bool_decide_eq_true_2. Qed.

Lemma same_identity_spec c c' :
  same_identity c c' = true <->
  gc_handle c = gc_handle c' /\ gc_target c = gc_target c'
  /\ gl_request_id (gc_lease c) = gl_request_id (gc_lease c')
  /\ gl_lease_id (gc_lease c) = gl_lease_id (gc_lease c')
  /\ gl_lease_epoch (gc_lease c) = gl_lease_epoch (gc_lease c')
  /\ gl_peer_session_epoch (gc_lease c) = gl_peer_session_epoch (gc_lease c').
Proof. unfold same_identity. rewrite !andb_true_iff, !bool_decide_eq_true. tauto. Qed.

Lemma gate_step_move now m m' : gate_step now m m' -> gate_move now m m'.
Proof.
  intros H. destruct H as [????????? H|????????? H|?????? H|?????? H|?? H|?? H].
  - unfold gate_reserve in H. gate_cases; try apply gmove_same.
    apply checked_add_Some in Heqo as [-> _]. apply checked_add_Some in Heqo0 as [-> ?].
    rewrite N.eqb_neq in *. apply gmove_reserve; cbn; try done. lia.
  - unfold gate_arm_grant in H. gate_cases; try apply gmove_same; try apply gmove_release.
    rewrite N.eqb_neq in *. eapply gmove_arm; [done|apply same_identity_expiry|cbn..]; try done; lia.
  - unfold gate_commit in H. gate_cases; try apply gmove_same; try apply gmove_release.
    by apply gmove_commit.
  - unfold gate_renew in H. gate_cases; try apply gmove_same; try apply gmove_release.
    eapply gmove_renew; [done|apply same_identity_expiry|done..].
  - unfold gate_expire, gate_invalidate in H. gate_cases; try apply gmove_same; apply gmove_release.
  - unfold gate_invalidate in H. gate_cases. apply gmove_release.
Qed.

(** ** The invariant *)

Record GateOk m : Prop := {
  go_epoch : (gm_next_lease_epoch m <= u64_max)%N;
  go_context : forall c, gate_context m = Some c ->
    gl_lease_epoch (gc_lease c) = gm_next_lease_epoch m
    /\ gl_lease_epoch (gc_lease c) <> 0%N /\ gl_peer_session_epoch (gc_lease c) <> 0%N
    /\ gl_request_id (gc_lease c) <> "" /\ gl_lease_id (gc_lease c) <> "";
  go_grant : forall c g, gm_state m = GateGrantArmed c g -> gg_request_epoch g <> 0%N /\ gg_grant_epoch g <> 0%N;
  go_owned : forall c g u, gm_state m = GateRemoteOwned c g u ->
    gg_request_epoch g <> 0%N /\ gg_grant_epoch g <> 0%N /\ (u <= gl_expires_at_ms (gc_lease c))%N }.

Lemma gate_move_ok now m m' : GateOk m -> gate_move now m m' -> GateOk m'.
Proof.
  intros [He Hc Hg Ho] H. destruct H; cbn.
  - done.
  - by split.
  - split; cbn; try done. intros ? [= <-]. repeat split; try done. lia.
  - apply same_identity_spec in H0 as (_&_&?&?&?&?). unfold gate_context in Hc. rewrite H in Hc.
    split; cbn; try done; [|by intros ?? [= <- <-]]. intros ? [= <-].
    destruct (Hc c eq_refl) as (?&?&?&?&?). repeat split; congruence.
  - split; cbn; try done; unfold gate_context in *; rewrite ?H in *.
    + intros ? [= <-]. by apply Hc.
    + intros ??? [= <- <- <-]. destruct (Hg c g eq_refl). repeat split; try done. lia.
  - apply same_identity_spec in H0 as (_&_&?&?&?&?). unfold gate_context in Hc. rewrite H in Hc.
    split; cbn; try done.
    + intros ? [= <-]. destruct (Hc c eq_refl) as (?&?&?&?&?). repeat split; congruence.
    + intros ??? [= <- <- <-]. destruct (Ho _ _ _ H) as (?&?&?). repeat split; try done. lia.
Qed.

Lemma gate_reachable_ok m : gate_reachable m -> GateOk m.
Proof.
  induction 1 as [|m now m' _ IH Hs]; [split; cbn; done|].
  by eapply gate_move_ok, gate_step_move.
Qed.

(** the lease manager's invariant.  In every reachable manager the reserved
    lease carries the latest lease epoch, which is non-zero and fits 64 bits,
    a real peer session and non-empty identities; a grant has non-zero epochs;
    and an owned bundle is never renewed past the end of its lease. *)
Theorem gate_invariant m :
  gate_reachable m ->
  (gm_next_lease_epoch m <= u64_max)%N
  /\ (forall c, gate_context m = Some c ->
      gl_lease_epoch (gc_lease c) = gm_next_lease_epoch m
      /\ gl_lease_epoch (gc_lease c) <> 0%N /\ gl_peer_session_epoch (gc_lease c) <> 0%N
      /\ gl_request_id (gc_lease c) <> "" /\ gl_lease_id (gc_lease c) <> "")
  /\ (forall c g u, gm_state m = GateRemoteOwned c g u ->
      gg_request_epoch g <> 0%N /\ gg_grant_epoch g <> 0%N /\ (u <= gl_expires_at_ms (gc_lease c))%N).
Proof. intros []%gate_reachable_ok. done. Qed.

(** ** A concrete run *)

Definition demo_context : GateContext :=
  mkGateContext 3 Left (mkGateLease "req-1" "lease-1" 1 7 15100).
Definition demo_preparing : BundleLeaseManager :=
  snd (gate_reserve 3 Left "req-1" "lease-1" 7 true 100 15000 manager_default).
Definition demo_armed : BundleLeaseManager :=
  snd (gate_arm_grant demo_context 1 1 15000 5300 true 7 300 demo_preparing).
Definition demo_remote : BundleLeaseManager := snd (gate_commit 3 1 true 7 400 demo_armed).

Lemma demo_preparing_reachable : gate_reachable demo_preparing.
Proof. eapply gr_step; [apply gr_default|]. 
  exact (gstep_reserve 100 manager_default 3 Left "req-1" "lease-1" 7 true 15000 _ _ (surjective_pairing _)). Qed.
Lemma demo_armed_reachable : gate_reachable demo_armed.
Proof. eapply gr_step; [apply demo_preparing_reachable|]. 
  exact (gstep_arm 300 demo_preparing demo_context 1 1 15000 5300 true 7 _ _ (surjective_pairing _)). Qed.
Lemma demo_remote_reachable : gate_reachable demo_remote.
Proof. eapply gr_step; [apply demo_armed_reachable|]. 
  exact (gstep_commit 400 demo_armed 3 1 true 7 _ _ (surjective_pairing _)). Qed.

Lemma gate_invariant_witness :
  exists c g u, gm_state demo_remote = GateRemoteOwned c g u /\ (u <= gl_expires_at_ms (gc_lease c))%N.
Proof.
  destruct (gate_invariant _ demo_remote_reachable) as (_&_&H).
  destruct (gm_state demo_remote) as [| | |c g u] eqn:E; try discriminate E.
  exists c, g, u. split; [reflexivity|]. by destruct (H c g u eq_refl) as (_&_&?).
Defined.

(** ** Who owns the remote bundle *)

(** from any manager, an operation makes the remote bundle owned only as a
    commit of the armed grant or a renewal of the owned lease: the context is
    the one that was armed or owned up to its expiry, both the lease and the
    grant or renewal are still valid at that time, and the ownership ends no
    later than they do. *)
Theorem gate_owned_from_grant now m m' c g u :
  gate_step now m m' -> gm_state m' = GateRemoteOwned c g u -> m' <> m ->
  (gm_state m = GateGrantArmed c g /\ (now < gl_expires_at_ms (gc_lease c))%N
    /\ (now < gg_expires_at_ms g)%N /\ u = N.min (gl_expires_at_ms (gc_lease c)) (gg_expires_at_ms g))
  \/ exists c0 u0, gm_state m = GateRemoteOwned c0 g u0 /\ same_identity c0 c = true
     /\ (now < gl_expires_at_ms (gc_lease c0))%N /\ (now < u)%N /\ gl_expires_at_ms (gc_lease c) = u.
Proof.
  intros Hs%gate_step_move Hst Hne. destruct Hs; cbn in Hst; try done.
  - injection Hst as -> -> <-. by left.
  - injection Hst as <- <- <-. right. exists c0, old. by subst.
Qed.

Lemma gate_owned_from_grant_witness :
  gm_state demo_armed
  = GateGrantArmed (demo_context <| gc_lease := (gc_lease demo_context) <| gl_expires_at_ms := 15000%N |> |>)
      (mkGateGrant 1 1 5300).
Proof.
  destruct (gm_state demo_remote) as [| | |c g u] eqn:E; try discriminate E.
  destruct (gate_owned_from_grant 400 demo_armed demo_remote c g u) as [(H&_)|(c0&u0&H&_)].
  - exact (gstep_commit 400 demo_armed 3 1 true 7 _ _ (surjective_pairing _)).
  - exact E.
  - discriminate.
  - vm_compute in E. injection E as <- <- _. exact H.
  - discriminate H.
Defined.

(** ** Expiry *)

(** [expire] gives the bundle up exactly when the manager's deadline has
    passed, and returns the context that was given up; otherwise it changes
    nothing. *)
Theorem gate_expire_exact now m :
  match gate_deadline_ms m with
  | Some d =>
      if (d <=? now)%N then gate_expire now m = (gate_context m, go_local m) /\ is_Some (gate_context m)
      else gate_expire now m = (None, m)
  | None => gate_expire now m = (None, m) /\ gm_state m = GateLocal
  end.
Proof.
  unfold gate_deadline_ms, gate_expire, gate_invalidate, gate_context.
  destruct (gm_state m) as [|c|c g|c g u]; [done|..].
  - by destruct (_ <=? now)%N.
  - destruct (N.leb_spec (N.min (gl_expires_at_ms (gc_lease c)) (gg_expires_at_ms g)) now),
      (N.leb_spec (gl_expires_at_ms (gc_lease c)) now), (N.leb_spec (gg_expires_at_ms g) now);
      done || lia.
  - destruct (N.leb_spec (N.min (gl_expires_at_ms (gc_lease c)) u) now),
      (N.leb_spec (gl_expires_at_ms (gc_lease c)) now), (N.leb_spec u now); done || lia.
Qed.

(** ** Fencing of stale leases *)

(** The lease epoch [e] has been issued and is not the one reserved now. *)
Definition retired (e : N) m : Prop :=
  (e <= gm_next_lease_epoch m)%N
  /\ forall c, gate_context m = Some c -> gl_lease_epoch (gc_lease c) <> e.

Lemma gate_step_retired now m m' e : retired e m -> gate_step now m m' -> retired e m'.
Proof.
  intros [Hle Hne] Hs%gate_step_move. unfold retired, gate_context in *.
  destruct Hs; cbn in *; rewrite ?H in *.
  - done.
  - by split.
  - subst epoch. split; [lia|]. intros ? [= <-]. lia.
  - apply same_identity_spec in H0 as (_&_&_&_&He&_).
    split; [done|]. intros ? [= <-]. rewrite <- He. by apply Hne.
  - split; [done|]. intros ? [= <-]. by apply Hne.
  - apply same_identity_spec in H0 as (_&_&_&_&He&_).
    split; [done|]. intros ? [= <-]. rewrite <- He. by apply Hne.
Qed.

(** Runs of the manager. *)
Definition gate_run : BundleLeaseManager -> BundleLeaseManager -> Prop :=
  rtc (fun m m' => exists now, gate_step now m m').

(** fencing.  Once the manager has given a lease up, no later state, however
    many leases are reserved after it, accepts a grant or a commit for that
    lease: both fail and do not take the bundle. *)
Theorem gate_stale_lease_fenced m m' c re ge lexp gexp ready session handle now :
  gate_reachable m -> gate_context m = Some c -> gate_run (go_local m) m' ->
  (exists err m2, gate_arm_grant c re ge lexp gexp ready session now m' = (inr err, m2))
  /\ (exists err m2, gate_commit handle (gl_lease_epoch (gc_lease c)) ready session now m' = (inr err, m2)).
Proof.
  intros Hre%gate_reachable_ok Hc Hrun. destruct (go_context _ Hre c Hc) as (He&_).
  assert (retired (gl_lease_epoch (gc_lease c)) m') as [_ Hret].
  { assert (retired (gl_lease_epoch (gc_lease c)) (go_local m)) as H0.
    { split; cbn; [lia|]. by intros ?. }
    revert H0. induction Hrun as [|x y z [n Hs] _ IH]; [done|]. intros H0.
    apply IH. by eapply gate_step_retired. }
  unfold gate_context in Hret. split.
  - unfold gate_arm_grant. destruct (gm_state m') as [|c'|c' g|c' g u]; eauto.
    case_match eqn:Hneq; [eauto|]. norm_bool. subst c'. by destruct (Hret c eq_refl).
  - unfold gate_commit. destruct (gm_state m') as [|c'|c' g|c' g u]; eauto.
    case_match eqn:Hneq; [eauto|]. norm_bool. by destruct (Hret c' eq_refl).
Qed.

Lemma gate_stale_lease_fenced_witness :
  exists err m2, gate_arm_grant demo_context 1 1 15000 5300 true 7 300
    (snd (gate_reserve 3 Left "req-2" "lease-2" 7 true 200 15000 (go_local demo_preparing))) = (inr err, m2).
Proof.
  destruct (gate_stale_lease_fenced demo_preparing
    (snd (gate_reserve 3 Left "req-2" "lease-2" 7 true 200 15000 (go_local demo_preparing)))
    demo_context 1 1 15000 5300 true 7 3 300 demo_preparing_reachable eq_refl) as [H _].
  - eapply rtc_l; [|apply rtc_refl]. exists 200%N.
    exact (gstep_reserve 200 (go_local demo_preparing) 3 Left "req-2" "lease-2" 7 true 15000 _ _ (surjective_pairing _)).
  - exact H.
Defined.

(** ** The double touch *)

Section edge_traces.
Variable instant_max : N.

(** The calls made on an edge gate, with their times. *)
Inductive EdgeOp :=
| OpCandidate (key : EdgeIntentKey) (at_ms : N)
| OpRetreat (handle : N) (at_ms : N)
| OpRemove (handle : N)
| OpClear.

Definition edge_apply (g : EdgeIntentGate) (o : EdgeOp) : EdgeIntentGate :=
  match o with
  | OpCandidate key at_ms => snd (edge_candidate instant_max key at_ms g)
  | OpRetreat handle at_ms => snd (edge_retreat instant_max handle at_ms g)
  | OpRemove handle => edge_remove handle g
  | OpClear => edge_clear g
  end.

Definition edge_run (valid_for : N) (ops : list EdgeOp) : EdgeIntentGate :=
  foldl edge_apply (edge_new valid_for) ops.

(** What the intent remembers of the trace: the first touch it comes from and,
    once it is rearmed, the retreat after it. *)
Definition intent_explained (valid_for : N) (ops : list EdgeOp) (i : EdgeIntent) : Prop :=
  exists pre mid t0, ops = pre ++ OpCandidate (ei_key i) t0 :: mid
    /\ (if ei_rearmed i
        then exists mid1 mid2 t1, mid = mid1 ++ OpRetreat (ek_handle (ei_key i)) t1 :: mid2
               /\ ei_expires_at i = (t1 + valid_for)%N
        else ei_expires_at i = (t0 + valid_for)%N).

Lemma intent_explained_snoc v ops i o : intent_explained v ops i -> intent_explained v (ops ++ [o]) i.
Proof.
  intros (pre&mid&t0&->&H). exists pre, (mid ++ [o]), t0. split; [by rewrite <- app_assoc|].
  destruct (ei_rearmed i); [|done]. destruct H as (m1&m2&t1&->&?).
  exists m1, (m2 ++ [o]), t1. split; [|done]. by rewrite <- app_assoc.
Qed.

Lemma edge_expire_cases now e :
  edge_expire now e = e \/ edge_expire now e = mkEdgeGate (eg_valid_for e) None.
Proof. unfold edge_expire. repeat case_match; auto. Qed.

Lemma instant_checked_add_Some now d x : instant_checked_add instant_max now d = Some x -> x = (now + d)%N.
Proof. unfold instant_checked_add. case_match; congruence. Qed.

(** One call keeps the intent, drops it, starts a new one or rearms it. *)
Lemma edge_apply_intent e o :
  eg_valid_for (edge_apply e o) = eg_valid_for e
  /\ forall i', eg_intent (edge_apply e o) = Some i' ->
     eg_intent e = Some i'
     \/ (exists key t, o = OpCandidate key t /\ i' = mkEdgeIntent key false (t + eg_valid_for e))
     \/ (exists i h t, o = OpRetreat h t /\ eg_intent e = Some i /\ ek_handle (ei_key i) = h
          /\ i' = mkEdgeIntent (ei_key i) true (t + eg_valid_for e)).
Proof.
  destruct o as [key t|h t|h|]; cbn [edge_apply].
  - unfold edge_candidate.
    assert (forall i', ((fun x => mkEdgeIntent key false x) <$> instant_checked_add instant_max t (eg_valid_for e))
      = Some i' -> i' = mkEdgeIntent key false (t + eg_valid_for e)) as Hprime.
    { intros i' (x&Hx%instant_checked_add_Some&->)%fmap_Some. by rewrite Hx. }
    destruct (edge_expire_cases t e) as [-> | ->]; cbn [eg_intent eg_valid_for snd]; [|eauto 8].
    destruct (eg_intent e) as [i|] eqn:Hi; [|cbn; eauto 8].
    repeat case_match; cbn; rewrite ?Hi; eauto 8. by split.
  - unfold edge_retreat.
    destruct (edge_expire_cases t e) as [-> | ->]; cbn [eg_intent eg_valid_for];
      (destruct (instant_checked_add _ _ _) as [x|] eqn:Hx; [|by split]); [|by split].
    apply instant_checked_add_Some in Hx as ->.
    destruct (eg_intent e) as [i|] eqn:Hi; [|cbn; rewrite Hi; by split].
    case_match; cbn; rewrite ?Hi; [split; auto|]. norm_bool. split; [done|].
    intros i' [= <-]. right; right. eauto 8.
  - unfold edge_remove. destruct (eg_intent e) as [i|] eqn:Hi; [case_match|]; cbn; rewrite ?Hi; by auto.
  - by split.
Qed.

Lemma edge_run_explained v ops :
  eg_valid_for (edge_run v ops) = v
  /\ forall i, eg_intent (edge_run v ops) = Some i -> intent_explained v ops i.
Proof.
  induction ops as [|o ops [IHv IHi]] using rev_ind; [by split|].
  unfold edge_run in *. rewrite foldl_app. cbn [foldl]. set (e := foldl _ _ _) in *. clearbody e.
  destruct (edge_apply_intent e o) as [Hv Hi]. rewrite IHv in *. split; [done|].
  intros i' [Hold|[(key&t&->&->)|(i&h&t&->&Hi0&<-&->)]]%Hi.
  - by apply intent_explained_snoc, IHi.
  - exists ops, [], t. split; done.
  - destruct (IHi i Hi0) as (pre&mid&t0&->&_).
    exists pre, (mid ++ [OpRetreat (ek_handle (ei_key i)) t]), t0. cbn.
    split; [by rewrite <- app_assoc|]. by exists mid, [], t.
Qed.
End edge_traces.

(** the edge gate confirms only a double touch.  Whatever calls were made on
    a new gate, if the next touch of the edge is confirmed, then the same peer
    at the same target and session was touched before, the pointer retreated
    from that peer's edge after that touch, and less than the validity period
    has passed since that retreat.  The confirmation uses the intent up. *)
Theorem edge_confirms_double_touch instant_max valid_for ops key now :
  fst (edge_candidate instant_max key now (edge_run instant_max valid_for ops)) = Confirmed ->
  (exists pre mid1 mid2 t0 t1,
     ops = pre ++ OpCandidate key t0 :: mid1 ++ OpRetreat (ek_handle key) t1 :: mid2
     /\ (now < t1 + valid_for)%N)
  /\ eg_intent (snd (edge_candidate instant_max key now (edge_run instant_max valid_for ops))) = None.
Proof.
  destruct (edge_run_explained instant_max valid_for ops) as [Hv Hi].
  unfold edge_candidate, edge_expire. set (e := edge_run _ _ _) in *. clearbody e.
  destruct (eg_intent e) as [i|] eqn:Hie; [|by rewrite Hie].
  destruct (ei_expires_at i <=? now)%N eqn:Hexp; cbn [eg_intent]; [done|]. rewrite Hie.
  destruct (bool_decide (ei_key i = key)) eqn:Hk; [|done].
  destruct (ei_rearmed i) eqn:Hr; [|done]. intros _. split; [|done]. norm_bool.
  destruct (Hi i eq_refl) as (pre&mid&t0&->&H). rewrite Hr in H. destruct H as (m1&m2&t1&->&He).
  exists pre, m1, m2, t0, t1. subst key. split; [done|lia].
Qed.

Definition demo_key : EdgeIntentKey := mkEdgeKey 3 Left 7.

Lemma edge_confirms_double_touch_witness :
  exists pre mid1 mid2 t0 t1,
    [OpCandidate demo_key 100; OpRetreat 3 200]
    = pre ++ OpCandidate demo_key t0 :: mid1 ++ OpRetreat 3 t1 :: mid2.
Proof.
  destruct (edge_confirms_double_touch u64_max 500 [OpCandidate demo_key 100; OpRetreat 3 200] demo_key 300)
    as [(pre&m1&m2&t0&t1&H&_) _]; [reflexivity|].
  exists pre, m1, m2, t0, t1. exact H.
Defined.
