(* ===== verification/SwitchClient.v ===== *)
(** * The client of the television controller (lan-mouse/src/switch.rs, HTTP)

    The requests Lan Mouse makes to the controller and what it accepts of the
    answers: the bounded decoding of a response, the identity checks, the
    translation of the controller's deadlines to the local clock, the polling
    loop that waits for a grant, and the texts shown to the user.  The HTTP
    library and the JSON parser are parameters. *)

From stdpp Require Import base tactics list gmap strings.
From Stdlib Require Import NArith ZArith Lia Strings.Byte.
From S2P Require Import Prelude Domain SwitchGate.

(** ** Messages *)

Inductive RemoteRequestStatus :=
| RWaking | RSwitching | RGrant | RCommitted | RDenied | RCancelled | RFallback | RExpired.
#[global] Instance RemoteRequestStatus_eq_dec : EqDecision RemoteRequestStatus.
Proof. solve_decision. Defined.

Definition status_as_str (s : RemoteRequestStatus) : string :=
  match s with
  | RWaking => "waking" | RSwitching => "switching" | RGrant => "grant"
  | RCommitted => "committed" | RDenied => "denied" | RCancelled => "cancelled"
  | RFallback => "fallback" | RExpired => "expired"
  end.

Record RemoteLeaseIdentity := mkRemoteLease {
  rl_lease_id : string;
  rl_lease_epoch : N;
  rl_peer_session_epoch : N;
  rl_expires_at_ms : N }.

Record RemoteGrantIdentity := mkRemoteGrant {
  rg_grant_epoch : N;
  rg_expires_at_ms : N }.

Record RemoteEnterRequest := mkRemoteEnter {
  rr_request_id : string;
  rr_target : SwitchHost;
  rr_request_epoch : N;
  rr_lease : RemoteLeaseIdentity;
  rr_status : RemoteRequestStatus;
  rr_grant : option RemoteGrantIdentity;
  rr_reason : option string }.

Record RenewResponse := mkRenewResponse {
  rn_renewed : bool;
  rn_renewed_until_ms : option N;
  rn_phase : string }.

Record PeerBundleReadiness := mkBundleReadiness {
  pb_online : bool;
  pb_keyboard_ready : bool;
  pb_pointer_ready : bool;
  pb_session_epoch : N }.
#[global] Instance PeerBundleReadiness_eq_dec : EqDecision PeerBundleReadiness.
Proof. solve_decision. Defined.

Record ReadinessResponse := mkReadinessResponse {
  rp_host : SwitchHost;
  rp_readiness : PeerBundleReadiness }.

Record ManualRecoveryResponse := mkManualRecoveryResponse {
  mr_target : SwitchHost;
  mr_armed : bool }.

Record ApiEnvelope (A : Type) := mkEnvelope {
  en_protocol_version : N;
  en_server_now_ms : N;
  en_data : A }.
Arguments mkEnvelope {A} _ _ _.
Arguments en_protocol_version {A} _.
Arguments en_server_now_ms {A} _.
Arguments en_data {A} _.

Record ApiError := mkApiError {
  ae_protocol_version : N;
  ae_code : string;
  ae_message : string }.

Definition PROTOCOL_VERSION : N := 2.
Definition MAX_RESPONSE_BYTES : N := (64 * 1024)%N.

Record PreparedGrant := mkPrepared {
  pg_request_epoch : N;
  pg_grant_epoch : N;
  pg_lease_expires_at_ms : N;
  pg_grant_expires_at_ms : N }.

Section client.
(** Errors of the HTTP and JSON libraries. *)
Context {ReqError JsonError : Type}.
Variables (req_is_timeout req_is_connect : ReqError -> bool).

Inductive SwitchClientError :=
| EcCancelled
| EcTimeout
| EcResponseTooLarge
| EcProtocolVersion (v : N)
| EcStaleIdentity
| EcDenied (status reason : string)
| EcHttp (status : N) (code message : string)
| EcInvalidBaseUrl
| EcRequest (e : ReqError)
| EcJson (e : JsonError).

(** ** Deadlines of another clock *)

Definition local_deadline (request_started_ms server_now_ms remote_deadline_ms : N)
  : exec SwitchClientError N :=
  let* remaining_ms :=
    ok_or (match checked_sub remote_deadline_ms server_now_ms with
           | Some r => if (0 <? r)%N then Some r else None
           | None => None
           end) EcTimeout in
  ok_or (checked_add request_started_ms remaining_ms) EcTimeout.

Definition validate_request (context : GateContext) (r : RemoteEnterRequest)
  : exec SwitchClientError unit :=
  guard_not
    (negb (bool_decide (rr_request_id r = gl_request_id (gc_lease context)))
     || negb (bool_decide (rr_target r = gc_target context))
     || negb (bool_decide (rl_lease_id (rr_lease r) = gl_lease_id (gc_lease context)))
     || negb (bool_decide (rl_lease_epoch (rr_lease r) = gl_lease_epoch (gc_lease context)))
     || negb (bool_decide (rl_peer_session_epoch (rr_lease r) = gl_peer_session_epoch (gc_lease context)))
     || (rr_request_epoch r =? 0)%N) EcStaleIdentity.

(** ** Decoding a response *)

(** The body is collected chunk by chunk, up to the limit. *)
Fixpoint collect_body (chunks : list (list byte + ReqError)) (body : list byte)
  : exec SwitchClientError (list byte) :=
  match chunks with
  | [] => Ret body
  | inr e :: _ => Throw (EcRequest e)
  | inl chunk :: chunks =>
      if (MAX_RESPONSE_BYTES <? N.of_nat (length body + length chunk))%N then Throw EcResponseTooLarge
      else collect_body chunks (body ++ chunk)
  end.

(** [serde_json::from_slice] for the two shapes of a response. *)
Definition decode {A} (parse : list byte -> ApiEnvelope A + JsonError)
    (parse_error : list byte -> ApiError + JsonError)
    (status : N) (chunks : list (list byte + ReqError)) : exec SwitchClientError (ApiEnvelope A) :=
  let* body := collect_body chunks [] in
  match parse body with
  | inl envelope =>
      if negb (en_protocol_version envelope =? PROTOCOL_VERSION)%N
      then Throw (EcProtocolVersion (en_protocol_version envelope)) else Ret envelope
  | inr json_error =>
      match parse_error body with
      | inl error =>
          if negb (ae_protocol_version error =? PROTOCOL_VERSION)%N
          then Throw (EcProtocolVersion (ae_protocol_version error))
          else Throw (EcHttp status (ae_code error) (ae_message error))
      | inr _ =>
          if negb ((200 <=? status)%N && (status <? 300)%N)
          then Throw (EcHttp status "invalid_error_response" "controller returned an unparseable error body")
          else Throw (EcJson json_error)
      end
  end.

(** ** Requests *)

(** One exchange: the local time at which the request was started and the
    decoded answer, or the error that ended it. *)
Record TimedEnvelope := mkTimed {
  te_started_ms : N;
  te_envelope : ApiEnvelope RemoteEnterRequest }.
Definition exchange : Type := exec SwitchClientError TimedEnvelope.

(** What one answer to an enter request means: a grant, a denial, or nothing
    yet. *)
Definition judge_answer (context : GateContext) (result : TimedEnvelope)
  : exec SwitchClientError (option PreparedGrant) :=
  let r := en_data (te_envelope result) in
  let* _ := validate_request context r in
  match rr_status r with
  | RGrant =>
      let* grant := ok_or (rr_grant r) EcStaleIdentity in
      let* lease_expires := local_deadline (te_started_ms result)
        (en_server_now_ms (te_envelope result)) (rl_expires_at_ms (rr_lease r)) in
      let* grant_expires := local_deadline (te_started_ms result)
        (en_server_now_ms (te_envelope result)) (rg_expires_at_ms grant) in
      Ret (Some (mkPrepared (rr_request_epoch r) (rg_grant_epoch grant) lease_expires grant_expires))
  | RWaking | RSwitching => Ret None
  | status => Throw (EcDenied (status_as_str status) (default "no reason supplied" (rr_reason r)))
  end.

(** One turn of the polling loop, as the environment plays it: the clock after
    the answer was judged, whether the sleep was cancelled, the clock when it
    ended, and the next exchange. *)
Record Round := mkRound {
  rd_now_ms : N;
  rd_cancelled : bool;
  rd_woken_ms : N;
  rd_next : exchange }.

(** How long a turn sleeps. *)
Definition sleep_ms (poll_interval_ms deadline_ms now_ms : N) : N :=
  N.min poll_interval_ms (sat_sub deadline_ms now_ms).

(** The loop of [prepare]; [None] when the rounds are used up and the loop would
    go on. *)
Fixpoint prepare_loop (context : GateContext) (deadline_ms : N) (result : TimedEnvelope)
    (rounds : list Round) : option (exec SwitchClientError PreparedGrant) :=
  match judge_answer context result with
  | Ret (Some g) => Some (Ret g)
  | Throw e => Some (Throw e)
  | Panic msg => Some (Panic msg)
  | Ret None =>
      match rounds with
      | [] => None
      | r :: rounds =>
          if (deadline_ms <=? rd_now_ms r)%N then Some (Throw EcTimeout)
          else if rd_cancelled r then Some (Throw EcCancelled)
          else if (deadline_ms <=? rd_woken_ms r)%N then Some (Throw EcTimeout)
          else match rd_next r with
          | Ret next => prepare_loop context deadline_ms next rounds
          | Throw e => Some (Throw e)
          | Panic msg => Some (Panic msg)
          end
      end
  end.

(** [prepare]: publish the readiness, ask to enter, then poll. *)
Definition prepare (context : GateContext) (request_timeout_ms started_ms : N)
    (published : exec SwitchClientError unit) (published_ms : N) (first : exchange)
    (rounds : list Round) : option (exec SwitchClientError PreparedGrant) :=
  match checked_add started_ms request_timeout_ms with
  | None => Some (Throw EcTimeout)
  | Some deadline_ms =>
      match published with
      | Throw e => Some (Throw e)
      | Panic msg => Some (Panic msg)
      | Ret _ =>
          if (deadline_ms <=? published_ms)%N then Some (Throw EcTimeout)
          else match first with
          | Ret result => prepare_loop context deadline_ms result rounds
          | Throw e => Some (Throw e)
          | Panic msg => Some (Panic msg)
          end
      end
  end.

(** [commit], after the exchange. *)
Definition commit_answer (context : GateContext) (answer : exchange) : exec SwitchClientError N :=
  let* result := answer in
  let r := en_data (te_envelope result) in
  let* _ := validate_request context r in
  if negb (bool_decide (rr_status r = RCommitted))
  then Throw (EcDenied (status_as_str (rr_status r)) (default "commit was not accepted" (rr_reason r)))
  else local_deadline (te_started_ms result) (en_server_now_ms (te_envelope result))
         (rl_expires_at_ms (rr_lease r)).

(** [renew], after the exchange. *)
Definition renew_answer (request_started_ms : N) (envelope : ApiEnvelope RenewResponse)
  : exec SwitchClientError N :=
  let r := en_data envelope in
  if negb (rn_renewed r) then Throw (EcDenied (rn_phase r) "lease renewal was rejected")
  else
    let* renewed_until := ok_or (rn_renewed_until_ms r) EcStaleIdentity in
    local_deadline request_started_ms (en_server_now_ms envelope) renewed_until.

(** [publish_readiness], after the exchange. *)
Definition readiness_answer (host : SwitchHost) (readiness : PeerBundleReadiness)
    (envelope : ApiEnvelope ReadinessResponse) : exec SwitchClientError unit :=
  let r := en_data envelope in
  guard_not
    (negb (bool_decide (rp_host r = host))
     || negb (bool_decide (pb_session_epoch (rp_readiness r) = pb_session_epoch readiness))
     || negb (bool_decide (pb_online (rp_readiness r) = pb_online readiness))
     || negb (bool_decide (pb_keyboard_ready (rp_readiness r) = pb_keyboard_ready readiness))
     || negb (bool_decide (pb_pointer_ready (rp_readiness r) = pb_pointer_ready readiness)))
    EcStaleIdentity.

(** [arm_manual_recovery], after the exchange. *)
Definition manual_recovery_answer (target : SwitchHost) (envelope : ApiEnvelope ManualRecoveryResponse)
  : exec SwitchClientError unit :=
  let r := en_data envelope in
  guard_not (negb (bool_decide (mr_target r = target)) || negb (mr_armed r)) EcStaleIdentity.

(** ** Messages for the user *)

Definition controller_denial_notification (status reason : string) : string * string :=
  if bool_decide (reason = "target_signal_absent") then
    ("target_signal_absent",
     "The TV selected the target input, but did not detect an active HDMI signal before verification timed out")
  else if bool_decide (reason = "target_signal_stale") then
    ("target_signal_stale",
     "The TV returned HDMI signal state from an older switch attempt, so ownership was not transferred")
  else if bool_decide (reason = "target_signal_not_observed") then
    ("target_signal_not_observed",
     "The TV did not return HDMI signal state for the target input before verification timed out")
  else if bool_decide (reason = "target_input_not_observed") then
    ("target_input_not_observed",
     "The TV did not confirm that it reached the target input before verification timed out")
  else if bool_decide (reason = "target_not_fullscreen") then
    ("target_not_fullscreen",
     "The TV did not confirm fullscreen mode before verification timed out")
  else if bool_decide (reason = "target_verification_timeout") || bool_decide (reason = "observation_timeout") then
    ("target_verification_timeout",
     "The TV did not confirm fullscreen mode, the target input, and an active HDMI signal before verification timed out")
  else
    ("controller_denied",
     ("The TV controller ended the request as " ++ status ++ ": " ++ reason)%string).

(** [notification_detail]; [error_text] is the [Display] of the error. *)
Definition notification_detail (error_text : SwitchClientError -> string) (operation : string)
    (e : SwitchClientError) : string * string :=
  match e with
  | EcDenied status reason => controller_denial_notification status reason
  | _ =>
      let code :=
        match e with
        | EcTimeout => "controller_timeout"
        | EcStaleIdentity => "controller_identity_race"
        | EcRequest r =>
            if req_is_timeout r then "controller_timeout"
            else if req_is_connect r then "controller_unreachable"
            else "controller_request_failed"
        | EcCancelled => "controller_cancelled"
        | EcResponseTooLarge => "controller_response_too_large"
        | EcProtocolVersion _ => "controller_protocol_mismatch"
        | EcDenied _ _ => "unreachable"
        | EcHttp _ _ _ => "controller_http_error"
        | EcInvalidBaseUrl => "controller_configuration_invalid"
        | EcJson _ => "controller_response_invalid"
        end in
      (code, (operation ++ ": " ++ error_text e)%string)
  end.
End client.

(** * Theorems about the controller's client

    Deadlines are translated conservatively, a grant is accepted only for the
    reserved lease, polling ends, responses are bounded, and the client's
    ownership lies inside the controller's. *)

Section client_theorems.
Context {ReqError JsonError : Type}.
Local Abbreviation error := (@SwitchClientError ReqError JsonError).
Implicit Types (context : GateContext) (result : TimedEnvelope) (rounds : list (@Round ReqError JsonError)).

(** ** Deadlines *)

Lemma local_deadline_Ret started server_now deadline d :
  @local_deadline ReqError JsonError started server_now deadline = Ret d ->
  (server_now < deadline)%N /\ d = (started + (deadline - server_now))%N.
Proof.
  unfold local_deadline, checked_sub. destruct (N.leb_spec server_now deadline); [|done].
  destruct (N.ltb_spec 0 (deadline - server_now)); [|done]. cbn [ok_or exec_bind].
  intros [-> _]%ok_or_Ret%checked_add_Some. split; [lia|done].
Qed.

(** The clock of the controller runs [offset] ahead of the local one, and the
    controller stamps its answer after the request was started. *)
Definition stamped_after (offset : Z) (started server_now : N) : Prop :=
  (Z.of_N started + offset <= Z.of_N server_now)%Z.

(** deadlines are translated conservatively.  A deadline of the controller,
    translated with the start of the request and the controller's time stamp,
    lies in the future of the request's start and never later than the
    controller's own deadline, whatever the offset between the two clocks and
    however long the exchange took. *)
Theorem local_deadline_conservative offset started server_now deadline d :
  stamped_after offset started server_now ->
  @local_deadline ReqError JsonError started server_now deadline = Ret d ->
  (started < d)%N /\ (Z.of_N d + offset <= Z.of_N deadline)%Z.
Proof. unfold stamped_after. intros Hs [? ->]%local_deadline_Ret. split; lia. Qed.

(** ** Grants *)

(** The answer that a prepared grant comes from. *)
Definition granted_by context result (g : PreparedGrant) : Prop :=
  let r := en_data (te_envelope result) in
  exists remote,
    rr_status r = RGrant /\ rr_grant r = Some remote
    /\ rr_request_id r = gl_request_id (gc_lease context) /\ rr_target r = gc_target context
    /\ rl_lease_id (rr_lease r) = gl_lease_id (gc_lease context)
    /\ rl_lease_epoch (rr_lease r) = gl_lease_epoch (gc_lease context)
    /\ rl_peer_session_epoch (rr_lease r) = gl_peer_session_epoch (gc_lease context)
    /\ rr_request_epoch r <> 0%N
    /\ pg_request_epoch g = rr_request_epoch r /\ pg_grant_epoch g = rg_grant_epoch remote
    /\ @local_deadline ReqError JsonError (te_started_ms result) (en_server_now_ms (te_envelope result))
         (rl_expires_at_ms (rr_lease r)) = Ret (pg_lease_expires_at_ms g)
    /\ @local_deadline ReqError JsonError (te_started_ms result) (en_server_now_ms (te_envelope result))
         (rg_expires_at_ms remote) = Ret (pg_grant_expires_at_ms g).

Lemma validate_request_Ret context r u :
  @validate_request ReqError JsonError context r = Ret u ->
  rr_request_id r = gl_request_id (gc_lease context) /\ rr_target r = gc_target context
  /\ rl_lease_id (rr_lease r) = gl_lease_id (gc_lease context)
  /\ rl_lease_epoch (rr_lease r) = gl_lease_epoch (gc_lease context)
  /\ rl_peer_session_epoch (rr_lease r) = gl_peer_session_epoch (gc_lease context)
  /\ rr_request_epoch r <> 0%N.
Proof. unfold validate_request. intros H%guard_not_Ret. norm_bool. apply N.eqb_neq in H0. done. Qed.

Lemma judge_answer_grant context result g :
  @judge_answer ReqError JsonError context result = Ret (Some g) -> granted_by context result g.
Proof.
  unfold judge_answer, granted_by. intros (u&Hv%validate_request_Ret&H)%exec_bind_Ret.
  destruct (rr_status _); try done.
  apply exec_bind_Ret in H as (remote&Hg%ok_or_Ret&H).
  apply exec_bind_Ret in H as (le&Hle&(ge&Hge&[= <-])%exec_bind_Ret).
  exists remote. cbn. naive_solver.
Qed.

Lemma prepare_loop_granted context deadline rounds : forall result g,
  prepare_loop context deadline result rounds = Some (Ret g) ->
  exists result', granted_by context result' g
    /\ (result' = result \/ exists r, r ∈ rounds /\ rd_next r = Ret result').
Proof.
  induction rounds as [|r rounds IH]; intros result g; cbn [prepare_loop];
    destruct (judge_answer context result) as [[g'|]| |] eqn:Hj; try done.
  - intros [= <-]. apply judge_answer_grant in Hj. eauto.
  - intros [= <-]. apply judge_answer_grant in Hj. eauto.
  - repeat (case_match; [done|]). destruct (rd_next r) as [result'| |] eqn:Hn; try done.
    intros (result''&Hg&[Heq|(r'&Hr'&Hn')])%IH; exists result''; split; try done; right.
    + exists r. subst. split; [by left|done].
    + exists r'. split; [by right|done].
Qed.

(** a prepared grant comes from an answer of the controller, to the first
    request or to a poll, that is in the grant state and names the request,
    the target, the lease with its epoch and the peer session that were
    reserved; its epochs are that answer's, and its deadlines are translated
    from that answer's. *)
Theorem prepare_granted context timeout started published published_ms first rounds g :
  prepare context timeout started published published_ms first rounds = Some (Ret g) ->
  exists result, granted_by context result g
    /\ (first = Ret result \/ exists r, r ∈ rounds /\ rd_next r = Ret result).
Proof.
  unfold prepare. repeat (case_match; try done). subst.
  intros (result&Hg&[-> |H'])%prepare_loop_granted; eauto.
Qed.

(** ** Polling ends *)

(** The rounds of a run whose clock goes forward: a turn sleeps at least its
    sleeping time. *)
Fixpoint rounds_timed (poll deadline now : N) rounds : Prop :=
  match rounds with
  | [] => True
  | r :: rounds =>
      (now <= rd_now_ms r)%N
      /\ (rd_now_ms r + sleep_ms poll deadline (rd_now_ms r) <= rd_woken_ms r)%N
      /\ rounds_timed poll deadline (rd_woken_ms r) rounds
  end.

Lemma prepare_loop_ends context poll deadline rounds : forall now result,
  (0 < poll)%N -> rounds_timed poll deadline now rounds ->
  (now < deadline <= now + N.of_nat (length rounds))%N ->
  is_Some (prepare_loop context deadline result rounds).
Proof.
  induction rounds as [|r rounds IH]; intros now result Hp Ht Hl; cbn [prepare_loop];
    destruct (judge_answer context result) as [[g'|]| |]; try by eexists.
  - cbn in Hl. lia.
  - destruct Ht as (H1&H2&H3). cbn [length] in Hl.
    destruct (N.leb_spec deadline (rd_now_ms r)); [by eexists|].
    destruct (rd_cancelled r); [by eexists|].
    destruct (N.leb_spec deadline (rd_woken_ms r)); [by eexists|].
    destruct (rd_next r); [|by eexists..]. apply (IH (rd_woken_ms r)); [done..|].
    unfold sleep_ms, sat_sub in H2. lia.
Qed.

(** waiting for a grant ends.  With a positive polling interval and a clock
    that advances by at least the sleeping time of each turn, [prepare] has a
    result (a grant, a denial, a cancellation or a timeout) after at most as
    many polls as its timeout has milliseconds, whatever the controller
    answers. *)
Theorem prepare_ends context poll timeout started published published_ms first rounds :
  (0 < poll)%N -> (started <= published_ms)%N ->
  rounds_timed poll (started + timeout) published_ms rounds ->
  (timeout <= N.of_nat (length rounds))%N ->
  is_Some (prepare context timeout started published published_ms first rounds).
Proof.
  intros Hp Hs Ht Hl. unfold prepare.
  destruct (checked_add started timeout) as [deadline|] eqn:Hd; [|by eexists].
  apply checked_add_Some in Hd as [-> _]. destruct published; [|by eexists..].
  destruct (N.leb_spec (started + timeout) published_ms); [by eexists|].
  destruct first as [result| |]; [|by eexists..].
  apply (prepare_loop_ends context poll _ _ published_ms); [done..|lia].
Qed.

(** ** Responses *)

Lemma collect_body_bounded chunks : forall body body' : list byte,
  (N.of_nat (length body) <= MAX_RESPONSE_BYTES)%N ->
  @collect_body ReqError JsonError chunks body = Ret body' ->
  (N.of_nat (length body') <= MAX_RESPONSE_BYTES)%N
  /\ exists bs, body' = body ++ concat bs /\ chunks = inl <$> bs.
Proof.
  induction chunks as [|[chunk|e] chunks IH]; intros body body' Hb; cbn [collect_body]; [|..|done].
  - intros [= <-]. split; [done|]. exists []. split; [|done]. by rewrite app_nil_r.
  - destruct (N.ltb_spec MAX_RESPONSE_BYTES (N.of_nat (length body + length chunk))) as [|Hlt]; [done|].
    intros (Hl&bs&->&->)%IH; [|by rewrite length_app].
    split; [done|]. exists (chunk :: bs). split; [|done]. cbn. by rewrite app_assoc.
Qed.

(** an accepted response is complete, bounded and of the right version: its
    body is the concatenation of all the chunks, at most 64 KiB long, it
    parses as an envelope, and the envelope has the client's protocol
    version. *)
Theorem decode_accepts {A} (parse : list byte -> ApiEnvelope A + JsonError) parse_error status
    (chunks : list (list byte + ReqError)) envelope :
  decode parse parse_error status chunks = Ret envelope ->
  exists bs, chunks = inl <$> bs /\ (N.of_nat (length (concat bs)) <= MAX_RESPONSE_BYTES)%N
    /\ parse (concat bs) = inl envelope /\ en_protocol_version envelope = PROTOCOL_VERSION.
Proof.
  unfold decode. intros (body&Hc&H)%exec_bind_Ret.
  apply collect_body_bounded in Hc as (Hl&bs&->&->); [|done]. cbn [app] in *.
  exists bs. split; [done|]. split; [done|].
  destruct (parse (concat bs)) as [env|]; [|by repeat case_match].
  destruct (N.eqb_spec (en_protocol_version env) PROTOCOL_VERSION) as [Hv|]; [|done].
  cbn in H. injection H as <-. done.
Qed.

(** the client never outlives the controller's lease.  If the client renews
    its bundle with the controller's answer (stamped after the request was
    started), and the manager accepts the renewal, then the client's ownership
    deadline, on the controller's clock, is not after the time until which the
    controller renewed the session. *)
Theorem renewal_within_controller offset started envelope until rid ready session now m m' :
  stamped_after offset started (en_server_now_ms envelope) ->
  @renew_answer ReqError JsonError started envelope = Ret until ->
  gate_renew rid until ready session now m = (inl tt, m') ->
  exists remote_until deadline,
    rn_renewed_until_ms (en_data envelope) = Some remote_until
    /\ gate_deadline_ms m' = Some deadline /\ (now < deadline)%N
    /\ (Z.of_N deadline + offset <= Z.of_N remote_until)%Z.
Proof.
  intros Hs Hr Hg. unfold renew_answer in Hr. case_match; [done|].
  apply exec_bind_Ret in Hr as (remote&Hrem%ok_or_Ret&[? ->]%local_deadline_Ret).
  exists remote, (started + (remote - en_server_now_ms envelope))%N. split; [done|].
  unfold gate_renew in Hg. destruct (gm_state m) as [| | |c g old]; try done.
  do 3 (case_match; [done|]). norm_bool. injection Hg as <-. cbn. rewrite N.min_id.
  unfold stamped_after in Hs. split; [done|]. split; [done|lia].
Qed.
End client_theorems.

(** ** Witnesses *)

Definition demo_remote_request : RemoteEnterRequest :=
  mkRemoteEnter "req-1" Left 1 (mkRemoteLease "lease-1" 1 7 20000) RGrant
    (Some (mkRemoteGrant 1 10300)) None.
Definition demo_gate_context : GateContext :=
  mkGateContext 3 Left (mkGateLease "req-1" "lease-1" 1 7 15100).
Definition demo_answer : TimedEnvelope := mkTimed 200 (mkEnvelope 2 5300 demo_remote_request).
Definition demo_round : @Round unit unit := mkRound 250 false 350 (Ret demo_answer).

Lemma local_deadline_conservative_witness :
  (200 < 14900)%N /\ (Z.of_N 14900 + 5000 <= Z.of_N 20000)%Z.
Proof.
  apply (@local_deadline_conservative unit unit 5000 200 5300 20000 14900); [|reflexivity].
  unfold stamped_after. lia.
Defined.

Lemma prepare_granted_witness :
  exists result, granted_by (ReqError := unit) (JsonError := unit) demo_gate_context result
    (mkPrepared 1 1 14900 5200).
Proof.
  destruct (prepare_granted (ReqError := unit) (JsonError := unit) demo_gate_context 1000 100 (Ret tt) 150
    (Ret demo_answer) [] (mkPrepared 1 1 14900 5200)) as (result&H&_); [reflexivity|].
  exact (ex_intro _ result H).
Defined.

Lemma prepare_ends_witness :
  is_Some (prepare demo_gate_context 1 249 (Ret tt) 249 (Ret demo_answer) [demo_round]).
Proof.
  apply (prepare_ends demo_gate_context 100 1 249 (Ret tt) 249 (Ret demo_answer) [demo_round]).
  - reflexivity.
  - reflexivity.
  - cbn. unfold sleep_ms, sat_sub. lia.
  - reflexivity.
Defined.

Lemma decode_accepts_witness :
  exists bs, [inl [x7b]; inl [x7d]] = (inl <$> bs : list (list byte + unit))
    /\ (N.of_nat (length (concat bs)) <= MAX_RESPONSE_BYTES)%N.
Proof.
  destruct (@decode_accepts unit unit unit (fun _ => inl (mkEnvelope 2 0 tt)) (fun _ => inr tt) 200
    [inl [x7b]; inl [x7d]] (mkEnvelope 2 0 tt)) as (bs&H&Hl&_); [reflexivity|].
  exact (ex_intro _ bs (conj H Hl)).
Defined.

Lemma renewal_within_controller_witness :
  let m := mkManager (GateRemoteOwned demo_gate_context (mkGateGrant 1 1 5200) 5200) 1 in
  exists deadline, gate_deadline_ms (snd (gate_renew "req-1" 14900 true 7 300 m)) = Some deadline
    /\ (Z.of_N deadline + 5000 <= 20000)%Z.
Proof.
  intros m.
  destruct (@renewal_within_controller unit unit 5000 200
    (mkEnvelope 2 5300 (mkRenewResponse true (Some 20000%N) "remote_owned")) 14900 "req-1" true 7 300 m
    (snd (gate_renew "req-1" 14900 true 7 300 m))) as (remote&d&Hr&Hd&_&Hz).
  - unfold stamped_after. cbn. lia.
  - reflexivity.
  - reflexivity.
  - exists d. injection Hr as <-. split; [exact Hd|exact Hz].
Defined.
