(* ===== verification/Bytes.v ===== *)
(** * Bytes, big-endian integers and UTF-8

    The byte-level notions shared by the wire formats: [to_be_bytes] and
    [from_be_bytes] for the unsigned widths, two's complement for the signed
    ones, the validity check of [std::str::from_utf8], [u8::from_str_radix] and
    [str::split]. *)

From stdpp Require Import base tactics list strings.
From Stdlib Require Import NArith ZArith Lia Strings.Byte Strings.Ascii.
From S2P Require Import Prelude.

(** ** Bytes as numbers *)

(** [n as u8] *)
Definition byte_of (n : N) : byte :=
  match Byte.of_N (n mod 256) with Some b => b | None => x00 end.

Lemma to_N_byte_of n : Byte.to_N (byte_of n) = (n mod 256)%N.
Proof.
  unfold byte_of. destruct (Byte.of_N (n mod 256)) as [b|] eqn:E.
  - by apply Byte.to_of_N.
  - apply Byte.of_N_None_iff in E. pose proof (N.mod_lt n 256). lia.
Qed.

Lemma to_N_lt b : (Byte.to_N b < 256)%N.
Proof. pose proof (Byte.to_N_bounded b). lia. Qed.

Lemma byte_of_to_N b : byte_of (Byte.to_N b) = b.
Proof.
  unfold byte_of. rewrite N.mod_small by apply to_N_lt. by rewrite Byte.of_to_N.
Qed.

#[global] Instance byte_eq_dec : EqDecision byte.
Proof. intros a b. destruct (Byte.byte_eq_dec a b); [by left|by right]. Defined.

(** ** Big-endian integers *)

(** The [n] low bytes of [v], most significant first. *)
Fixpoint be_bytes (n : nat) (v : N) : list byte :=
  match n with
  | 0 => []
  | S n => byte_of (v / 256 ^ N.of_nat n) :: be_bytes n v
  end.

Definition be_val (bs : list byte) : N :=
  foldl (fun acc b => (acc * 256 + Byte.to_N b)%N) 0%N bs.

Lemma be_bytes_length n v : length (be_bytes n v) = n.
Proof. induction n; cbn; congruence. Qed.

Lemma be_val_acc bs : forall acc,
  foldl (fun acc b => (acc * 256 + Byte.to_N b)%N) acc bs
  = (acc * 256 ^ N.of_nat (length bs) + be_val bs)%N.
Proof.
  unfold be_val. induction bs as [|b bs IH]; intros acc; cbn [foldl length].
  - rewrite N.mul_1_r, N.add_0_r. done.
  - rewrite IH, (IH (0 * 256 + _)%N). rewrite Nat2N.inj_succ, N.pow_succ_r'. lia.
Qed.

Lemma be_val_cons b bs :
  be_val (b :: bs) = (Byte.to_N b * 256 ^ N.of_nat (length bs) + be_val bs)%N.
Proof. unfold be_val at 1. cbn [foldl]. rewrite be_val_acc. lia. Qed.

Lemma be_val_bound bs : (be_val bs < 256 ^ N.of_nat (length bs))%N.
Proof.
  induction bs as [|b bs IH]; [cbn; lia|]. rewrite be_val_cons. cbn [length].
  rewrite Nat2N.inj_succ, N.pow_succ_r'. pose proof (to_N_lt b). nia.
Qed.

Lemma be_val_bytes n v : be_val (be_bytes n v) = (v mod 256 ^ N.of_nat n)%N.
Proof.
  induction n as [|n IH]; [cbn; by rewrite N.mod_1_r|].
  cbn [be_bytes]. rewrite be_val_cons, be_bytes_length, IH, to_N_byte_of.
  rewrite Nat2N.inj_succ, N.pow_succ_r'.
  rewrite (N.mul_comm 256), N.Div0.mod_mul_r. lia.
Qed.

Lemma be_val_bytes_small n v : (v < 256 ^ N.of_nat n)%N -> be_val (be_bytes n v) = v.
Proof. intros H. rewrite be_val_bytes. by apply N.mod_small. Qed.

(** Multiples of a higher power do not show in the low bytes. *)
Lemma be_bytes_high k : forall n x v, k <= n ->
  be_bytes k (x * 256 ^ N.of_nat n + v) = be_bytes k v.
Proof.
  induction k as [|k IHk]; intros n x v Hk; [done|]. cbn [be_bytes]. f_equal; [|apply IHk; lia].
  unfold byte_of. do 2 f_equal.
  replace (256 ^ N.of_nat n)%N with (256 ^ N.of_nat (n - k - 1) * 256 * 256 ^ N.of_nat k)%N.
  - rewrite N.mul_assoc, N.div_add_l by (apply N.pow_nonzero; lia).
    rewrite N.mul_assoc, N.add_comm, N.Div0.mod_add. done.
  - rewrite <- (N.pow_1_r 256) at 2. rewrite <- !N.pow_add_r. f_equal. lia.
Qed.

Lemma be_bytes_val bs : be_bytes (length bs) (be_val bs) = bs.
Proof.
  induction bs as [|b bs IH]; [done|]. cbn [length be_bytes]. rewrite be_val_cons. f_equal.
  - rewrite N.div_add_l by (apply N.pow_nonzero; lia).
    rewrite N.div_small by apply be_val_bound. rewrite N.add_0_r. apply byte_of_to_N.
  - by rewrite be_bytes_high.
Qed.

(** A value whose bytes are read back, with [n] fixed. *)
Lemma be_bytes_val_len n bs : length bs = n -> be_bytes n (be_val bs) = bs.
Proof. intros <-. apply be_bytes_val. Qed.

(** ** Two's complement *)

(** [v as iN] for the bits of an [n]-byte word, and back. *)
Definition to_signed (n : nat) (v : N) : Z :=
  if (v <? 256 ^ N.of_nat n / 2)%N then Z.of_N v else (Z.of_N v - Z.of_N (256 ^ N.of_nat n))%Z.
Definition of_signed (n : nat) (z : Z) : N := Z.to_N (z mod Z.of_N (256 ^ N.of_nat n)).

Definition signed_range (n : nat) (z : Z) : Prop :=
  (- Z.of_N (256 ^ N.of_nat n / 2) <= z < Z.of_N (256 ^ N.of_nat n / 2))%Z.

Lemma pow256_even n : 0 < n -> (256 ^ N.of_nat n = 2 * (256 ^ N.of_nat n / 2))%N.
Proof.
  intros Hn. destruct n as [|n]; [lia|]. rewrite Nat2N.inj_succ, N.pow_succ_r'.
  replace (256 * 256 ^ N.of_nat n)%N with ((128 * 256 ^ N.of_nat n) * 2)%N by lia.
  rewrite N.div_mul by lia. lia.
Qed.

Lemma to_of_signed n z : 0 < n -> signed_range n z -> to_signed n (of_signed n z) = z.
Proof.
  intros Hn [Hlo Hhi]. pose proof (pow256_even n Hn) as He. unfold to_signed, of_signed in *.
  set (m := (256 ^ N.of_nat n)%N) in *. set (h := (m / 2)%N) in *.
  assert (0 < m)%N by (pose proof (N.pow_nonzero 256 (N.of_nat n)); lia).
  destruct (Z.leb_spec 0 z).
  - rewrite Z.mod_small by lia. destruct (N.ltb_spec (Z.to_N z) h); lia.
  - replace (z mod Z.of_N m)%Z with (z + Z.of_N m)%Z.
    + destruct (N.ltb_spec (Z.to_N (z + Z.of_N m)) h); lia.
    + rewrite <- (Z.mod_add z 1) by lia. rewrite Z.mod_small; lia.
Qed.

Lemma of_to_signed n v : 0 < n -> (v < 256 ^ N.of_nat n)%N -> of_signed n (to_signed n v) = v.
Proof.
  intros Hn Hv. unfold to_signed, of_signed. set (m := (256 ^ N.of_nat n)%N) in *.
  destruct (N.ltb_spec v (m / 2)).
  - rewrite Z.mod_small by lia. lia.
  - rewrite <- (Z.mod_add _ 1) by lia. rewrite Z.mod_small; lia.
Qed.

Lemma of_signed_bound n z : (of_signed n z < 256 ^ N.of_nat n)%N.
Proof.
  unfold of_signed. pose proof (N.pow_nonzero 256 (N.of_nat n)).
  pose proof (Z.mod_pos_bound z (Z.of_N (256 ^ N.of_nat n))). lia.
Qed.

(** ** UTF-8 *)

Definition in_range (lo hi : N) (b : byte) : bool :=
  (lo <=? Byte.to_N b)%N && (Byte.to_N b <=? hi)%N.
Definition continuation : byte -> bool := in_range 128 191.

(** [std::str::from_utf8(bytes).is_ok()]: well-formed sequences only, without
    overlong forms, surrogates or code points past U+10FFFF. *)
Fixpoint utf8_valid (bs : list byte) : bool :=
  match bs with
  | [] => true
  | b0 :: t =>
      if in_range 0 127 b0 then utf8_valid t
      else match t with
      | b1 :: t =>
          if in_range 194 223 b0 then continuation b1 && utf8_valid t
          else match t with
          | b2 :: t =>
              if in_range 224 239 b0 then
                (if in_range 224 224 b0 then in_range 160 191 b1
                 else if in_range 237 237 b0 then in_range 128 159 b1
                 else continuation b1)
                && continuation b2 && utf8_valid t
              else match t with
              | b3 :: t =>
                  in_range 240 244 b0
                  && (if in_range 240 240 b0 then in_range 144 191 b1
                      else if in_range 244 244 b0 then in_range 128 143 b1
                      else continuation b1)
                  && continuation b2 && continuation b3 && utf8_valid t
              | [] => false
              end
          | [] => false
          end
      | [] => false
      end
  end.

(** ** Text *)

Definition hex_digit (c : ascii) : option N :=
  let n := N_of_ascii c in
  if ((48 <=? n) && (n <=? 57))%N then Some (n - 48)%N
  else if ((97 <=? n) && (n <=? 102))%N then Some (n - 87)%N
  else if ((65 <=? n) && (n <=? 70))%N then Some (n - 55)%N
  else None.
Fixpoint hex_digits (acc : N) (s : string) : option N :=
  match s with
  | EmptyString => Some acc
  | String c s => hex_digit c ≫= fun d => let acc := (16 * acc + d)%N in if (255 <? acc)%N then None else hex_digits acc s
  end.
(** [u8::from_str_radix(part, 16)] *)
Definition u8_from_hex (s : string) : option N :=
  match s with
  | EmptyString => None
  | String "+" EmptyString => None
  | String "+" s => hex_digits 0 s
  | _ => hex_digits 0 s
  end.

(** [str::split] at a character. *)
Fixpoint split_at (x : ascii) (s : string) : list string :=
  match s with
  | EmptyString => [EmptyString]
  | String c s =>
      if Ascii.eqb c x then EmptyString :: split_at x s
      else match split_at x s with
           | part :: rest => String c part :: rest
           | [] => [String c EmptyString]
           end
  end.

(** ** Lower case *)

Definition lower (c : ascii) : ascii :=
  let n := N_of_ascii c in if ((65 <=? n) && (n <=? 90))%N then ascii_of_N (n + 32) else c.
(** [str::to_ascii_lowercase] *)
Fixpoint to_ascii_lowercase (s : string) : string :=
  match s with String c s => String (lower c) (to_ascii_lowercase s) | EmptyString => EmptyString end.
