(* ===== verification/ClipTypes.v ===== *)
(** * Clipboard data model (lan-mouse-clipboard/src/types.rs)

    Identities, tokens and clipboard contents.  The integer newtypes are their
    underlying numbers ([u128] or [u64]), a [HostId] is the string it holds,
    and text is a sequence of bytes. *)

From stdpp Require Import base tactics list gmap strings.
From Stdlib Require Import NArith Lia Strings.Byte.
From S2P Require Import Prelude Bytes.

Abbreviation ProcessSessionId := N (only parsing).
Abbreviation AuthoritySessionId := N (only parsing).
Abbreviation OwnershipEpoch := N (only parsing).
Abbreviation HandoffEpoch := N (only parsing).
Abbreviation SnapshotSequence := N (only parsing).
Abbreviation NativeGeneration := N (only parsing).
Abbreviation HostId := string (only parsing).

Record OwnershipToken := mkToken {
  tk_authority_session_id : AuthoritySessionId;
  tk_ownership_epoch : OwnershipEpoch;
  tk_owner_host_id : HostId }.
#[global] Instance OwnershipToken_eq_dec : EqDecision OwnershipToken.
Proof. solve_decision. Defined.

Record HandoffId := mkHandoffId {
  hi_authority_session_id : AuthoritySessionId;
  hi_handoff_epoch : HandoffEpoch }.
#[global] Instance HandoffId_eq_dec : EqDecision HandoffId.
Proof. solve_decision. Defined.

Record SnapshotId := mkSnapshotId {
  si_source_process_session_id : ProcessSessionId;
  si_sequence : SnapshotSequence }.
#[global] Instance SnapshotId_eq_dec : EqDecision SnapshotId.
Proof. solve_decision. Defined.

Inductive ClipboardKind := KText | KEmpty.
#[global] Instance ClipboardKind_eq_dec : EqDecision ClipboardKind.
Proof. solve_decision. Defined.

Inductive ClipboardReason :=
| CapabilityMissing | BackendUnavailable | PermissionDenied | PrivateContent
| UnsupportedFormat | Oversize | SourceChanged | TargetNotPrepared | DestinationChanged
| StaleAuthoritySession | StalePeerSession | ReasonStaleHandoff | ReasonStaleOwnerToken
| Duplicate | ChannelUnavailable | TransferTimeout | ReasonProtocolError | IntegrityFailed
| InvalidUtf8 | Canceled | QueueFull | ReasonIdentityExhausted.
#[global] Instance ClipboardReason_eq_dec : EqDecision ClipboardReason.
Proof. solve_decision. Defined.

Definition ClipboardReason_ALL : list ClipboardReason :=
  [ CapabilityMissing; BackendUnavailable; PermissionDenied; PrivateContent;
    UnsupportedFormat; Oversize; SourceChanged; TargetNotPrepared; DestinationChanged;
    StaleAuthoritySession; StalePeerSession; ReasonStaleHandoff; ReasonStaleOwnerToken;
    Duplicate; ChannelUnavailable; TransferTimeout; ReasonProtocolError; IntegrityFailed;
    InvalidUtf8; Canceled; QueueFull; ReasonIdentityExhausted ].

(** [ClipboardReason::code] *)
Definition reason_code (r : ClipboardReason) : string :=
  match r with
  | CapabilityMissing => "capability_missing"
  | BackendUnavailable => "backend_unavailable"
  | PermissionDenied => "permission_denied"
  | PrivateContent => "private_content"
  | UnsupportedFormat => "unsupported_format"
  | Oversize => "oversize"
  | SourceChanged => "source_changed"
  | TargetNotPrepared => "target_not_prepared"
  | DestinationChanged => "destination_changed"
  | StaleAuthoritySession => "stale_authority_session"
  | StalePeerSession => "stale_peer_session"
  | ReasonStaleHandoff => "stale_handoff"
  | ReasonStaleOwnerToken => "stale_owner_token"
  | Duplicate => "duplicate"
  | ChannelUnavailable => "channel_unavailable"
  | TransferTimeout => "transfer_timeout"
  | ReasonProtocolError => "protocol_error"
  | IntegrityFailed => "integrity_failed"
  | InvalidUtf8 => "invalid_utf8"
  | Canceled => "canceled"
  | QueueFull => "queue_full"
  | ReasonIdentityExhausted => "identity_exhausted"
  end.

Inductive ClipboardData :=
| Text (bytes : list byte)
| Empty
| DataUnavailable (reason : ClipboardReason).
#[global] Instance ClipboardData_eq_dec : EqDecision ClipboardData.
Proof. solve_decision. Defined.

(** [ClipboardData::text] *)
Definition data_text (bytes : list byte) : exec ClipboardReason ClipboardData :=
  if utf8_valid bytes then Ret (Text bytes) else Throw InvalidUtf8.

(** [ClipboardData::kind] *)
Definition data_kind (d : ClipboardData) : exec ClipboardReason ClipboardKind :=
  match d with
  | Text _ => Ret KText
  | Empty => Ret KEmpty
  | DataUnavailable r => Throw r
  end.

(** [ClipboardData::len] *)
Definition data_len (d : ClipboardData) : nat :=
  match d with Text bytes => length bytes | Empty | DataUnavailable _ => 0 end.

Definition is_explicit_empty (d : ClipboardData) : bool :=
  match d with Empty => true | _ => false end.

Record AppliedIdentity := mkApplied {
  ai_handoff_id : HandoffId;
  ai_snapshot_id : SnapshotId }.
#[global] Instance AppliedIdentity_eq_dec : EqDecision AppliedIdentity.
Proof. solve_decision. Defined.

Record StagedSnapshot := mkStaged {
  ss_handoff_id : HandoffId;
  ss_snapshot_id : SnapshotId;
  ss_target_token : OwnershipToken;
  ss_target_process_session_id : ProcessSessionId;
  ss_baseline_generation : NativeGeneration;
  ss_data : ClipboardData }.
#[global] Instance StagedSnapshot_eq_dec : EqDecision StagedSnapshot.
Proof. solve_decision. Defined.

(** [ClipboardTransitionId] of clipboard.rs: the change of the input owner that
    a handoff accompanies. *)
Inductive ClipboardTransitionId :=
| TrOutgoing (lease_epoch : N)
| TrFallback (release_epoch : N).
#[global] Instance ClipboardTransitionId_eq_dec : EqDecision ClipboardTransitionId.
Proof. solve_decision. Defined.

(** Every reason is listed, and the codes tell them apart. *)
Lemma reason_in_all r : r ∈ ClipboardReason_ALL.
Proof. destruct r; set_solver. Qed.

Lemma reason_code_inj : Inj (=) (=) reason_code.
Proof. intros a b. destruct a, b; done. Qed.
