(* ===== verification/ClipCoordinator.v ===== *)
(** * The clipboard coordinator (lan-mouse-clipboard/src/coordinator.rs)

    The state machine that fences clipboard ownership: it issues handoff and
    ownership epochs, asks the source to capture and the target to prepare,
    publishes a captured snapshot once both have answered, and activates the
    target.  Every operation returns its result and leaves a coordinator, on
    errors too. *)

From stdpp Require Import base tactics list gmap strings.
From Stdlib Require Import NArith Lia.
From S2P Require Import Prelude Bytes ClipTypes.

Inductive HandoffPhase := HCapturing | HReady | HInFlight | HStaged.
#[global] Instance HandoffPhase_eq_dec : EqDecision HandoffPhase.
Proof. solve_decision. Defined.

Record SnapshotMetadata := mkMetadata {
  sm_snapshot_id : SnapshotId;
  sm_kind : ClipboardKind;
  sm_bytes : N }.

Record TargetPreparation := mkPreparation {
  tp_process_session_id : ProcessSessionId;
  tp_baseline_generation : NativeGeneration }.

Record ActiveHandoff := mkHandoff {
  ah_id : HandoffId;
  ah_source_host : HostId;
  ah_source_token : OwnershipToken;
  ah_source_process_session_id : ProcessSessionId;
  ah_target_host : HostId;
  ah_target_token : OwnershipToken;
  ah_target_process_session_id : ProcessSessionId;
  ah_phase : HandoffPhase;
  ah_snapshot : option SnapshotMetadata;
  ah_target_preparation : option TargetPreparation;
  ah_target_activated : bool;
  ah_snapshot_published : bool }.
#[global] Instance ActiveHandoff_eta : RecordEta ActiveHandoff :=
  fun h => mkHandoff (ah_id h) (ah_source_host h) (ah_source_token h)
    (ah_source_process_session_id h) (ah_target_host h) (ah_target_token h)
    (ah_target_process_session_id h) (ah_phase h) (ah_snapshot h) (ah_target_preparation h)
    (ah_target_activated h) (ah_snapshot_published h).

Inductive CoordinatorCommand :=
| PrepareTarget (id : HandoffId) (target_token : OwnershipToken) (session : ProcessSessionId)
| CaptureSource (id : HandoffId) (source_token : OwnershipToken) (session : ProcessSessionId) (max_bytes : N)
| PublishSnapshot (id : HandoffId) (snapshot : SnapshotId)
| ActivateTarget (id : HandoffId) (target_token : OwnershipToken) (session : ProcessSessionId)
| CancelHandoff (id : HandoffId).

Record BeginHandoff := mkBegin {
  bh_handoff_id : HandoffId;
  bh_source_token : OwnershipToken;
  bh_target_token : OwnershipToken;
  bh_commands : list CoordinatorCommand }.

Record PendingOwnership := mkPending {
  po_handoff_id : HandoffId;
  po_target_token : OwnershipToken }.

Inductive ClipCoordinatorError :=
| CeIdentityExhausted | CeSameHost | CeStaleHandoff | CeStaleOwnerToken
| CeStaleProcessSession | CeInvalidSnapshot.

(** [CoordinatorError::reason] *)
Definition error_reason (e : ClipCoordinatorError) : ClipboardReason :=
  match e with
  | CeIdentityExhausted => ReasonIdentityExhausted
  | CeSameHost => Canceled
  | CeStaleHandoff => ReasonStaleHandoff
  | CeStaleOwnerToken => ReasonStaleOwnerToken
  | CeStaleProcessSession => StalePeerSession
  | CeInvalidSnapshot => ReasonProtocolError
  end.

Record Coordinator := mkCoordinator {
  co_enabled : bool;
  co_authority_session_id : AuthoritySessionId;
  co_current_token : OwnershipToken;
  co_next_ownership_epoch : OwnershipEpoch;
  co_next_handoff_epoch : HandoffEpoch;
  co_max_bytes : N;
  co_process_sessions : gmap string N;
  co_pending_ownership : option PendingOwnership;
  co_active : option ActiveHandoff;
  co_last_terminal : option (HandoffId * option ClipboardReason) }.
#[global] Instance Coordinator_eta : RecordEta Coordinator :=
  fun c => mkCoordinator (co_enabled c) (co_authority_session_id c) (co_current_token c)
    (co_next_ownership_epoch c) (co_next_handoff_epoch c) (co_max_bytes c)
    (co_process_sessions c) (co_pending_ownership c) (co_active c) (co_last_terminal c).

Abbreviation clip_result A := ((A + ClipCoordinatorError) * Coordinator)%type.

(** [Coordinator::new] *)
Definition coordinator_new (enabled : bool) (authority : AuthoritySessionId) (server : HostId)
    (server_session : ProcessSessionId) (max_bytes : N) : Coordinator :=
  mkCoordinator enabled authority (mkToken authority 0 server) 0 0 max_bytes
    {[ server := server_session ]} None None None.

(** ** Internal steps *)

Definition cancel (reason : ClipboardReason) (c : Coordinator)
  : list CoordinatorCommand * Coordinator :=
  match co_active c with
  | None => ([], c)
  | Some h =>
      ([CancelHandoff (ah_id h)],
       c <| co_active := None |> <| co_last_terminal := Some (ah_id h, Some reason) |>)
  end.

Definition match_active (id : HandoffId) (c : Coordinator) : ActiveHandoff + ClipCoordinatorError :=
  match co_active c with
  | None => inr CeStaleHandoff
  | Some h => if negb (bool_decide (ah_id h = id)) then inr CeStaleHandoff else inl h
  end.

Definition publish_if_ready (h : ActiveHandoff) : list CoordinatorCommand * ActiveHandoff :=
  match ah_snapshot h, ah_target_preparation h with
  | Some snapshot, Some _ =>
      if ah_snapshot_published h then ([], h)
      else ([PublishSnapshot (ah_id h) (sm_snapshot_id snapshot)],
            h <| ah_snapshot_published := true |> <| ah_phase := HInFlight |>)
  | _, _ => ([], h)
  end.

(** Whether the active handoff involves a host. *)
Definition involves (host : HostId) (c : Coordinator) : bool :=
  match co_active c with
  | Some h => bool_decide (ah_source_host h = host) || bool_decide (ah_target_host h = host)
  | None => false
  end.

(** ** Operations *)

Definition set_process_session (host : HostId) (session : ProcessSessionId) (c : Coordinator)
  : list CoordinatorCommand * Coordinator :=
  let changed :=
    match co_process_sessions c !! host with
    | Some previous => negb (bool_decide (previous = session))
    | None => false
    end in
  let c := c <| co_process_sessions := <[host := session]> (co_process_sessions c) |> in
  if changed && involves host c then cancel StalePeerSession c else ([], c).

Definition remove_process_session (host : HostId) (c : Coordinator)
  : list CoordinatorCommand * Coordinator :=
  match co_process_sessions c !! host with
  | None => ([], c)
  | Some _ =>
      let c := c <| co_process_sessions := delete host (co_process_sessions c) |> in
      if involves host c then cancel ChannelUnavailable c else ([], c)
  end.

Definition set_enabled (enabled : bool) (c : Coordinator) : list CoordinatorCommand * Coordinator :=
  if bool_decide (co_enabled c = enabled) then ([], c)
  else
    let c := c <| co_enabled := enabled |> in
    if enabled then ([], c) else cancel Canceled c.

Definition begin_handoff (target_host : HostId) (c : Coordinator) : clip_result BeginHandoff :=
  if bool_decide (target_host = tk_owner_host_id (co_current_token c)) then (inr CeSameHost, c)
  else
    let source_session := co_process_sessions c !! tk_owner_host_id (co_current_token c) in
    let target_session := co_process_sessions c !! target_host in
    match checked_add (co_next_ownership_epoch c) 1, checked_add (co_next_handoff_epoch c) 1 with
    | Some ownership_epoch, Some handoff_epoch =>
        let '(commands, c) := cancel Canceled c in
        let c := c <| co_next_ownership_epoch := ownership_epoch |>
                   <| co_next_handoff_epoch := handoff_epoch |> in
        let id := mkHandoffId (co_authority_session_id c) handoff_epoch in
        let target_token := mkToken (co_authority_session_id c) ownership_epoch target_host in
        let source_token := co_current_token c in
        let c := c <| co_pending_ownership := Some (mkPending id target_token) |> in
        match co_enabled c, source_session, target_session with
        | true, Some source_session, Some target_session =>
            let commands := commands ++
              [ PrepareTarget id target_token target_session;
                CaptureSource id source_token source_session (co_max_bytes c) ] in
            let c := c <| co_active := Some (mkHandoff id (tk_owner_host_id source_token) source_token
              source_session target_host target_token target_session HCapturing None None false false) |> in
            (inl (mkBegin id source_token target_token commands), c)
        | enabled, _, _ =>
            let reason := if enabled then CapabilityMissing else Canceled in
            let c := c <| co_active := None |> <| co_last_terminal := Some (id, Some reason) |> in
            (inl (mkBegin id source_token target_token commands), c)
        end
    | _, _ => (inr CeIdentityExhausted, c)
    end.

Definition target_prepared (id : HandoffId) (token : OwnershipToken) (session : ProcessSessionId)
    (baseline : NativeGeneration) (c : Coordinator) : clip_result (list CoordinatorCommand) :=
  match match_active id c with
  | inr e => (inr e, c)
  | inl h =>
      if negb (bool_decide (ah_target_token h = token)) then (inr CeStaleOwnerToken, c)
      else if negb (bool_decide (ah_target_process_session_id h = session))
      then (inr CeStaleProcessSession, c)
      else
        let '(commands, h) :=
          publish_if_ready (h <| ah_target_preparation := Some (mkPreparation session baseline) |>) in
        (inl commands, c <| co_active := Some h |>)
  end.

Definition source_captured (id : HandoffId) (token : OwnershipToken) (session : ProcessSessionId)
    (snapshot : SnapshotMetadata) (c : Coordinator) : clip_result (list CoordinatorCommand) :=
  if (co_max_bytes c <? sm_bytes snapshot)%N then (inr CeInvalidSnapshot, c)
  else match match_active id c with
  | inr e => (inr e, c)
  | inl h =>
      if negb (bool_decide (ah_source_token h = token)) then (inr CeStaleOwnerToken, c)
      else if negb (bool_decide (ah_source_process_session_id h = session))
              || negb (bool_decide (si_source_process_session_id (sm_snapshot_id snapshot) = session))
      then (inr CeStaleProcessSession, c)
      else
        let '(commands, h) :=
          publish_if_ready (h <| ah_snapshot := Some snapshot |> <| ah_phase := HReady |>) in
        (inl commands, c <| co_active := Some h |>)
  end.

Definition ownership_activated (id : HandoffId) (token : OwnershipToken) (session : ProcessSessionId)
    (c : Coordinator) : clip_result (list CoordinatorCommand) :=
  match co_pending_ownership c with
  | None => (inr CeStaleHandoff, c)
  | Some p =>
      if negb (bool_decide (po_handoff_id p = id)) then (inr CeStaleHandoff, c)
      else if negb (bool_decide (po_target_token p = token)) then (inr CeStaleOwnerToken, c)
      else
        let c := c <| co_pending_ownership := None |> <| co_current_token := token |> in
        match co_active c with
        | None => (inl [], c)
        | Some _ =>
            match match_active id c with
            | inr e => (inr e, c)
            | inl h =>
                if negb (bool_decide (ah_target_token h = token)) then (inr CeStaleOwnerToken, c)
                else if negb (bool_decide (ah_target_process_session_id h = session))
                then (inr CeStaleProcessSession, c)
                else
                  let '(published, h) := publish_if_ready (h <| ah_target_activated := true |>) in
                  (inl (ActivateTarget id token session :: published), c <| co_active := Some h |>)
            end
        end
  end.

Definition snapshot_staged (id : HandoffId) (c : Coordinator) : clip_result unit :=
  match match_active id c with
  | inr e => (inr e, c)
  | inl h => (inl tt, c <| co_active := Some (h <| ah_phase := HStaged |>) |>)
  end.

Definition applied (id : HandoffId) (snapshot : SnapshotId) (c : Coordinator) : clip_result unit :=
  match match_active id c with
  | inr e => (inr e, c)
  | inl h =>
      if negb (ah_target_activated h)
         || negb (bool_decide (sm_snapshot_id <$> ah_snapshot h = Some snapshot))
      then (inr CeInvalidSnapshot, c)
      else (inl tt, c <| co_active := None |> <| co_last_terminal := Some (id, None) |>)
  end.

Definition skip (id : HandoffId) (reason : ClipboardReason) (c : Coordinator) : clip_result unit :=
  match match_active id c with
  | inr e => (inr e, c)
  | inl _ => (inl tt, c <| co_active := None |> <| co_last_terminal := Some (id, Some reason) |>)
  end.

Definition abort (id : HandoffId) (c : Coordinator) : clip_result (list CoordinatorCommand) :=
  match co_pending_ownership c with
  | None => (inr CeStaleHandoff, c)
  | Some p =>
      if negb (bool_decide (po_handoff_id p = id)) then (inr CeStaleHandoff, c)
      else
        let '(commands, c) := cancel Canceled (c <| co_pending_ownership := None |>) in
        (inl commands, c)
  end.
