(* ===== verification/ClipCoordinatorTheorems.v ===== *)
(** * Theorems about the clipboard coordinator

    The invariant of the coordinator, single publication of a snapshot,
    fencing of handoffs that are no longer active, and the order of ownership
    tokens. *)

From stdpp Require Import base tactics list gmap strings.
From Stdlib Require Import NArith Lia.
From S2P Require Import Prelude Bytes ClipTypes ClipCoordinator.

Implicit Types (c : Coordinator) (h : ActiveHandoff) (id : HandoffId).

(** ** The coordinator as a machine *)

Inductive ClipOp :=
| OpSession (host : string) (session : N)
| OpRemoveSession (host : string)
| OpEnable (enabled : bool)
| OpBegin (target : string)
| OpPrepared (id : HandoffId) (token : OwnershipToken) (session baseline : N)
| OpCaptured (id : HandoffId) (token : OwnershipToken) (session : N) (snapshot : SnapshotMetadata)
| OpActivated (id : HandoffId) (token : OwnershipToken) (session : N)
| OpStaged (id : HandoffId)
| OpApplied (id : HandoffId) (snapshot : SnapshotId)
| OpSkip (id : HandoffId) (reason : ClipboardReason)
| OpAbort (id : HandoffId).

Definition ok_commands {A} (f : A -> list CoordinatorCommand) (r : A + ClipCoordinatorError)
  : list CoordinatorCommand :=
  match r with inl a => f a | inr _ => [] end.

(** The commands an operation asks for, and the coordinator it leaves. *)
Definition clip_apply (o : ClipOp) c : list CoordinatorCommand * Coordinator :=
  match o with
  | OpSession host session => set_process_session host session c
  | OpRemoveSession host => remove_process_session host c
  | OpEnable enabled => set_enabled enabled c
  | OpBegin target => let '(r, c) := begin_handoff target c in (ok_commands bh_commands r, c)
  | OpPrepared id token session baseline =>
      let '(r, c) := target_prepared id token session baseline c in (ok_commands (fun x => x) r, c)
  | OpCaptured id token session snapshot =>
      let '(r, c) := source_captured id token session snapshot c in (ok_commands (fun x => x) r, c)
  | OpActivated id token session =>
      let '(r, c) := ownership_activated id token session c in (ok_commands (fun x => x) r, c)
  | OpStaged id => let '(r, c) := snapshot_staged id c in ([], c)
  | OpApplied id snapshot => let '(r, c) := applied id snapshot c in ([], c)
  | OpSkip id reason => let '(r, c) := skip id reason c in ([], c)
  | OpAbort id => let '(r, c) := abort id c in (ok_commands (fun x => x) r, c)
  end.

(** All the commands of a run, in order, and its last coordinator. *)
Fixpoint clip_run (ops : list ClipOp) c : list CoordinatorCommand * Coordinator :=
  match ops with
  | [] => ([], c)
  | o :: ops =>
      let '(cmds, c) := clip_apply o c in
      let '(rest, c) := clip_run ops c in
      (cmds ++ rest, c)
  end.

(** ** What one operation does *)

(** The id a command belongs to. *)
Definition command_id (cmd : CoordinatorCommand) : HandoffId :=
  match cmd with
  | PrepareTarget id _ _ | CaptureSource id _ _ _ | PublishSnapshot id _
  | ActivateTarget id _ _ | CancelHandoff id => id
  end.
Definition is_publish (cmd : CoordinatorCommand) : bool :=
  match cmd with PublishSnapshot _ _ => true | _ => false end.

(** The current handoff id of a coordinator. *)
Definition current_id c : HandoffId := mkHandoffId (co_authority_session_id c) (co_next_handoff_epoch c).

Record CoordOk c : Prop := {
  ck_handoff_epoch : is_u64 (co_next_handoff_epoch c);
  ck_ownership_epoch : is_u64 (co_next_ownership_epoch c);
  ck_token : tk_authority_session_id (co_current_token c) = co_authority_session_id c
    /\ (tk_ownership_epoch (co_current_token c) <= co_next_ownership_epoch c)%N;
  ck_pending : forall p, co_pending_ownership c = Some p ->
    po_handoff_id p = current_id c
    /\ tk_authority_session_id (po_target_token p) = co_authority_session_id c
    /\ tk_ownership_epoch (po_target_token p) = co_next_ownership_epoch c
    /\ (tk_ownership_epoch (co_current_token c) < co_next_ownership_epoch c)%N;
  ck_active : forall h, co_active c = Some h ->
    ah_id h = current_id c
    /\ ah_target_token h = mkToken (co_authority_session_id c) (co_next_ownership_epoch c) (ah_target_host h)
    /\ ah_source_host h = tk_owner_host_id (ah_source_token h)
    /\ ah_source_host h <> ah_target_host h
    /\ (tk_ownership_epoch (ah_source_token h) < co_next_ownership_epoch c)%N
    /\ (ah_snapshot_published h = true -> is_Some (ah_snapshot h) /\ is_Some (ah_target_preparation h))
    /\ (forall m, ah_snapshot h = Some m -> (sm_bytes m <= co_max_bytes c)%N
         /\ si_source_process_session_id (sm_snapshot_id m) = ah_source_process_session_id h) }.

(** One operation either keeps the handoff epoch, and then the active handoff
    is the same one, at most published now, or gone; or it starts a new epoch
    with an unpublished handoff.  It publishes only an unpublished active
    handoff, once. *)
Record ClipMove c (cmds : list CoordinatorCommand) c' : Prop := {
  mv_authority : co_authority_session_id c' = co_authority_session_id c;
  mv_epochs : (co_next_handoff_epoch c <= co_next_handoff_epoch c')%N
    /\ (co_next_ownership_epoch c <= co_next_ownership_epoch c')%N;
  mv_same : co_next_handoff_epoch c' = co_next_handoff_epoch c ->
    forall h', co_active c' = Some h' -> exists h, co_active c = Some h
      /\ (ah_snapshot_published h = true -> ah_snapshot_published h' = true);
  mv_new : co_next_handoff_epoch c' <> co_next_handoff_epoch c ->
    forall h', co_active c' = Some h' -> ah_snapshot_published h' = false;
  mv_publish : length (filter (fun cmd => is_publish cmd = true) cmds) <= 1
    /\ forall cmd, cmd ∈ cmds -> is_publish cmd = true ->
       command_id cmd = current_id c' /\ co_next_handoff_epoch c' = co_next_handoff_epoch c
       /\ (exists h, co_active c = Some h /\ ah_snapshot_published h = false)
       /\ (exists h', co_active c' = Some h' /\ ah_snapshot_published h' = true) }.

Lemma match_active_inl id c h : match_active id c = inl h -> co_active c = Some h /\ ah_id h = id.
Proof. unfold match_active. repeat case_match; intros [= <-]. norm_bool. done. Qed.

Lemma publish_cases h cmds h' :
  publish_if_ready h = (cmds, h') ->
  (cmds = [] /\ h' = h)
  \/ (exists m, ah_snapshot h = Some m /\ is_Some (ah_target_preparation h)
      /\ ah_snapshot_published h = false
      /\ cmds = [PublishSnapshot (ah_id h) (sm_snapshot_id m)]
      /\ h' = h <| ah_snapshot_published := true |> <| ah_phase := HInFlight |>).
Proof.
  unfold publish_if_ready. repeat case_match; intros [= <- <-]; auto.
  right. eexists. eauto 10.
Qed.

Lemma cancel_cases reason c cmds c' :
  cancel reason c = (cmds, c') ->
  (cmds = [] /\ c' = c /\ co_active c = None)
  \/ (exists h, co_active c = Some h /\ cmds = [CancelHandoff (ah_id h)]
      /\ c' = c <| co_active := None |> <| co_last_terminal := Some (ah_id h, Some reason) |>).
Proof. unfold cancel. case_match; intros [= <- <-]; eauto. Qed.

(** Operations within one handoff epoch. *)

Definition no_publish (cmds : list CoordinatorCommand) : Prop :=
  Forall (fun cmd => is_publish cmd = false) cmds.

(** The handoff [h'] is a later state of [h]. *)
Record Advanced (max : N) h h' : Prop := {
  ad_id : ah_id h' = ah_id h;
  ad_source_host : ah_source_host h' = ah_source_host h;
  ad_target_host : ah_target_host h' = ah_target_host h;
  ad_source_token : ah_source_token h' = ah_source_token h;
  ad_target_token : ah_target_token h' = ah_target_token h;
  ad_source_session : ah_source_process_session_id h' = ah_source_process_session_id h;
  ad_snapshot : ah_snapshot h' = ah_snapshot h
    \/ exists m, ah_snapshot h' = Some m /\ (sm_bytes m <= max)%N
       /\ si_source_process_session_id (sm_snapshot_id m) = ah_source_process_session_id h;
  ad_preparation : is_Some (ah_target_preparation h) -> is_Some (ah_target_preparation h') }.

Inductive ActiveMove c (cmds : list CoordinatorCommand) c' : Prop :=
| am_gone : co_active c' = None -> no_publish cmds -> ActiveMove c cmds c'
| am_same : co_active c' = co_active c -> no_publish cmds -> ActiveMove c cmds c'
| am_advance h h' : co_active c = Some h -> co_active c' = Some h' -> Advanced (co_max_bytes c) h h' ->
    ah_snapshot_published h' = ah_snapshot_published h -> no_publish cmds -> ActiveMove c cmds c'
| am_publish h h' pre m : co_active c = Some h -> co_active c' = Some h' ->
    Advanced (co_max_bytes c) h h' ->
    ah_snapshot_published h = false -> ah_snapshot_published h' = true ->
    is_Some (ah_target_preparation h') -> ah_snapshot h' = Some m ->
    no_publish pre -> cmds = pre ++ [PublishSnapshot (ah_id h) (sm_snapshot_id m)] -> ActiveMove c cmds c'.

Record Within c cmds c' : Prop := {
  wi_authority : co_authority_session_id c' = co_authority_session_id c;
  wi_handoff : co_next_handoff_epoch c' = co_next_handoff_epoch c;
  wi_ownership : co_next_ownership_epoch c' = co_next_ownership_epoch c;
  wi_max : co_max_bytes c' = co_max_bytes c;
  wi_token : (co_current_token c' = co_current_token c
      /\ (co_pending_ownership c' = co_pending_ownership c \/ co_pending_ownership c' = None))
    \/ exists p, co_pending_ownership c = Some p /\ co_pending_ownership c' = None
       /\ co_current_token c' = po_target_token p;
  wi_active : ActiveMove c cmds c' }.

Lemma within_ok c cmds c' : CoordOk c -> Within c cmds c' -> CoordOk c'.
Proof.
  intros [H1 H2 [H3 H4] Hp Ha] [Ea Eh Eo Em Ht Hact]. unfold current_id in *.
  split; rewrite ?Ea, ?Eh, ?Eo, ?Em; try done.
  - destruct Ht as [[-> _]|(p&Hpe&_&->)]; [done|]. destruct (Hp p Hpe) as (_&->&->&_). split; [done|lia].
  - intros p Hp'. destruct Ht as [[-> [E|E]]|(?&_&E&_)]; try congruence.
    unfold current_id. rewrite Ea, Eh. apply Hp. congruence.
  - unfold current_id. rewrite Ea, Eh.
    assert (forall h h', co_active c = Some h -> Advanced (co_max_bytes c) h h' ->
      (ah_snapshot_published h' = true -> is_Some (ah_snapshot h') /\ is_Some (ah_target_preparation h')) ->
      ah_id h' = mkHandoffId (co_authority_session_id c) (co_next_handoff_epoch c)
      /\ ah_target_token h' = mkToken (co_authority_session_id c) (co_next_ownership_epoch c) (ah_target_host h')
      /\ ah_source_host h' = tk_owner_host_id (ah_source_token h')
      /\ ah_source_host h' <> ah_target_host h'
      /\ (tk_ownership_epoch (ah_source_token h') < co_next_ownership_epoch c)%N
      /\ (ah_snapshot_published h' = true -> is_Some (ah_snapshot h') /\ is_Some (ah_target_preparation h'))
      /\ (forall m, ah_snapshot h' = Some m -> (sm_bytes m <= co_max_bytes c)%N
           /\ si_source_process_session_id (sm_snapshot_id m) = ah_source_process_session_id h')) as Hadv.
    { intros h h' Hh [] Hpub. destruct (Ha h Hh) as (?&?&?&?&?&?&Hs).
      rewrite ad_id0, ad_target_token0, ad_target_host0, ad_source_host0, ad_source_token0, ad_source_session0.
      do 6 (split; [done|]). intros m Hm. destruct ad_snapshot0 as [E|(m'&E&?&?)].
      - apply Hs. congruence.
      - assert (m = m') as -> by congruence. done. }
    intros h' Hh'. destruct Hact as [E _|E _|h h1 E E' A Hpub _|h h1 pre m E E' A _ _ Hprep Hsn _ _].
    + congruence.
    + apply Ha. congruence.
    + assert (h1 = h') as -> by congruence. apply (Hadv h h' E A). rewrite Hpub.
      intros Hp'. destruct (Ha h E) as (_&_&_&_&_&Hpp&_). destruct (Hpp Hp') as [Hsn Hprep].
      split; [|by apply A]. destruct (ad_snapshot _ _ _ A) as [-> |(m&->&_)]; [done|by eexists].
    + assert (h1 = h') as -> by congruence. apply (Hadv h h' E A). intros _. split; [by eexists|done].
Qed.

Lemma no_publish_filter cmds :
  no_publish cmds -> filter (fun cmd => is_publish cmd = true) cmds = [].
Proof.
  induction 1 as [|x l Hx _ IH]; [done|]. rewrite filter_cons, decide_False, IH by congruence. done.
Qed.

Lemma within_move c cmds c' : CoordOk c -> Within c cmds c' -> ClipMove c cmds c'.
Proof.
  intros [_ _ _ _ Ha] [Ea Eh Eo Em _ Hact].
  assert (forall l, no_publish l -> forall cmd, cmd ∈ l -> is_publish cmd = true -> False) as Hnp.
  { intros l Hl cmd Hin Hp. rewrite (proj1 (Forall_forall _ _) Hl cmd Hin) in Hp. done. }
  split; try done; try lia.
  - intros _ h' Hh'. destruct Hact; try congruence.
    + exists h'. split; [congruence|done].
    + exists h. split; [done|]. congruence.
    + exists h. split; [done|]. congruence.
  - assert (forall l, no_publish l -> length (filter (fun cmd => is_publish cmd = true) l) <= 1
      /\ forall cmd, cmd ∈ l -> is_publish cmd = true ->
         command_id cmd = current_id c' /\ co_next_handoff_epoch c' = co_next_handoff_epoch c
         /\ (exists h, co_active c = Some h /\ ah_snapshot_published h = false)
         /\ (exists h', co_active c' = Some h' /\ ah_snapshot_published h' = true)) as Hnone.
    { intros l Hl. rewrite no_publish_filter by done. split; [cbn; lia|].
      intros cmd Hin Hp. by destruct (Hnp l Hl cmd Hin Hp). }
    destruct Hact as [_ Hn|_ Hn|????? _ Hn|h h' pre m E E' A Hf Ht _ _ Hn ->]; try by apply Hnone.
    rewrite filter_app, no_publish_filter, filter_cons_True, filter_nil by done. split; [cbn; lia|].
    intros cmd [Hin| ->%list_elem_of_singleton]%elem_of_app Hp; [by destruct (Hnp pre Hn cmd Hin Hp)|].
    cbn. destruct (Ha h E) as (Hid&_). unfold current_id in *. rewrite Ea, Eh. eauto 10.
Qed.

(** ** Every operation *)

Lemma no_publish_nil : no_publish [].
Proof. constructor. Qed.
Lemma no_publish_cancel id : no_publish [CancelHandoff id].
Proof. by repeat constructor. Qed.
#[export] Hint Resolve no_publish_nil no_publish_cancel : dmx.

Lemma within_refl c : Within c [] c.
Proof. split; try done; [left; auto|]. apply am_same; auto with dmx. Qed.

(** An update of fields that the invariant does not read, or of the pending
    ownership to nothing. *)
Lemma within_same c c1 :
  co_authority_session_id c1 = co_authority_session_id c ->
  co_next_handoff_epoch c1 = co_next_handoff_epoch c ->
  co_next_ownership_epoch c1 = co_next_ownership_epoch c ->
  co_max_bytes c1 = co_max_bytes c -> co_current_token c1 = co_current_token c ->
  co_pending_ownership c1 = co_pending_ownership c \/ co_pending_ownership c1 = None ->
  co_active c1 = co_active c \/ co_active c1 = None -> Within c [] c1.
Proof.
  intros. split; try done; [by left|].
  destruct H5; [apply am_same|apply am_gone]; auto with dmx.
Qed.

(** Cancelling after an update of fields that the invariant does not read. *)
Lemma within_cancel reason c c1 cmds c' :
  Within c [] c1 -> cancel reason c1 = (cmds, c') -> Within c cmds c'.
Proof.
  intros [] [(->&->&Hn)|(h&Hh&->&->)]%cancel_cases; [by split|].
  split; cbn; try done. apply am_gone; [done|auto with dmx].
Qed.

(** Updating the active handoff and publishing it if both sides are ready. *)
Lemma within_publish c id h0 h1 cmds h2 pre :
  co_active c = Some h0 -> Advanced (co_max_bytes c) h0 h1 -> ah_id h1 = id ->
  ah_snapshot_published h1 = ah_snapshot_published h0 -> no_publish pre ->
  publish_if_ready h1 = (cmds, h2) ->
  ActiveMove c (pre ++ cmds) (c <| co_active := Some h2 |>).
Proof.
  intros E A Hid Hpub Hpre [[-> ->]|(m&Hs&Hp&Hf&->&->)]%publish_cases.
  - rewrite app_nil_r. by eapply am_advance.
  - eapply (am_publish _ _ _ h0 _ pre m); try done.
    + destruct A. by split.
    + congruence.
    + by rewrite (ad_id _ _ _ A).
Qed.

Lemma active_move_token c cmds c' c1 :
  co_active c1 = co_active c' -> ActiveMove c cmds c' -> ActiveMove c cmds c1.
Proof.
  intros E H. destruct H; rewrite <- E in *.
  - by apply am_gone.
  - by apply am_same.
  - by eapply am_advance.
  - by eapply am_publish.
Qed.

Lemma advanced_refl max h : Advanced max h h.
Proof. split; auto. Qed.

Lemma within_prepared id token session baseline c r c' :
  target_prepared id token session baseline c = (r, c') -> Within c (ok_commands (fun x => x) r) c'.
Proof.
  unfold target_prepared. destruct (match_active id c) as [h|e] eqn:Hm; [|intros [= <- <-]; apply within_refl].
  apply match_active_inl in Hm as [Hh Hid].
  do 2 (case_match; [intros [= <- <-]; apply within_refl|]).
  destruct (publish_if_ready _) as [cmds h2] eqn:Hp. intros [= <- <-].
  split; try done; [left; auto|]. cbn [ok_commands]. change cmds with ([] ++ cmds).
  eapply within_publish; [done| | | |auto with dmx|exact Hp]; try done.
  destruct (advanced_refl (co_max_bytes c) h). split; cbn; try done.
Qed.

Lemma within_captured id token session snapshot c r c' :
  source_captured id token session snapshot c = (r, c') -> Within c (ok_commands (fun x => x) r) c'.
Proof.
  unfold source_captured. case_match eqn:Hmax; [intros [= <- <-]; apply within_refl|].
  apply N.ltb_ge in Hmax.
  destruct (match_active id c) as [h|e] eqn:Hm; [|intros [= <- <-]; apply within_refl].
  apply match_active_inl in Hm as [Hh Hid].
  case_match; [intros [= <- <-]; apply within_refl|].
  case_match eqn:Hs; [intros [= <- <-]; apply within_refl|]. norm_bool.
  destruct (publish_if_ready _) as [cmds h2] eqn:Hp. intros [= <- <-].
  split; try done; [left; auto|]. cbn [ok_commands]. change cmds with ([] ++ cmds).
  eapply within_publish; [done| | | |auto with dmx|exact Hp]; try done.
  destruct (advanced_refl (co_max_bytes c) h). split; cbn; try done.
  right. exists snapshot. repeat split; congruence || done.
Qed.

Lemma within_activated id token session c r c' :
  ownership_activated id token session c = (r, c') -> Within c (ok_commands (fun x => x) r) c'.
Proof.
  unfold ownership_activated.
  destruct (co_pending_ownership c) as [p|] eqn:Hpe; [|intros [= <- <-]; apply within_refl].
  case_match; [intros [= <- <-]; apply within_refl|].
  case_match eqn:Ht; [intros [= <- <-]; apply within_refl|]. norm_bool. subst token.
  set (c1 := set co_current_token _ _).
  assert (Within c [] c1) as Hc1.
  { split; try done; [right; by exists p|]. apply am_same; auto with dmx. }
  change (co_active c1) with (co_active c) at 1.
  destruct (co_active c) as [h0|] eqn:Hact; [|intros [= <- <-]; done].
  destruct (match_active id c1) as [h|e] eqn:Hm; [|intros [= <- <-]; done].
  apply match_active_inl in Hm as [Hh Hid]. change (co_active c = Some h) in Hh.
  do 2 (case_match; [intros [= <- <-]; done|]).
  destruct (publish_if_ready _) as [cmds h2] eqn:Hp. intros [= <- <-].
  destruct Hc1. split; try done. cbn [ok_commands].
  change (ActivateTarget id (po_target_token p) session :: cmds)
    with ([ActivateTarget id (po_target_token p) session] ++ cmds).
  eapply active_move_token; [|eapply within_publish; [exact Hh| | | | |exact Hp]]; try done.
  - destruct (advanced_refl (co_max_bytes c) h). split; cbn; try done.
  - by repeat constructor.
Qed.

Lemma within_no_commands id c c' (f : ActiveHandoff -> Coordinator) e :
  match match_active id c with inl h => (inl tt, f h) | inr e => (inr e, c) end
    = (e : unit + ClipCoordinatorError, c') ->
  (forall h, co_active c = Some h -> Within c [] (f h)) -> Within c [] c'.
Proof.
  destruct (match_active id c) as [h|] eqn:Hm; intros [= <- <-] Hf; [|apply within_refl].
  apply match_active_inl in Hm as [Hh _]. by apply Hf.
Qed.

(** Every operation but [begin_handoff] stays within its handoff epoch. *)
Lemma within_apply o c cmds c' :
  (forall t, o <> OpBegin t) -> clip_apply o c = (cmds, c') -> Within c cmds c'.
Proof.
  intros Hno. destruct o as [host session|host|enabled|t|id tk se ba|id tk se sn|id tk se|id|id sn|id re|id];
    cbn [clip_apply].
  - unfold set_process_session. destruct (_ && _); [apply within_cancel|intros [= <- <-]];
      apply within_same; auto.
  - unfold remove_process_session.
    destruct (co_process_sessions c !! host); [|intros [= <- <-]; apply within_refl].
    destruct (involves _ _); [apply within_cancel|intros [= <- <-]];
      apply within_same; auto.
  - unfold set_enabled. destruct (bool_decide _); [intros [= <- <-]; apply within_refl|].
    destruct enabled; [intros [= <- <-]|apply within_cancel];
      apply within_same; auto.
  - by destruct (Hno t).
  - destruct (target_prepared id tk se ba c) eqn:E. intros [= <- <-]. by eapply within_prepared.
  - destruct (source_captured id tk se sn c) eqn:E. intros [= <- <-]. by eapply within_captured.
  - destruct (ownership_activated id tk se c) eqn:E. intros [= <- <-]. by eapply within_activated.
  - destruct (snapshot_staged id c) eqn:E. intros [= <- <-]. eapply within_no_commands; [exact E|].
    intros h Hh. split; try done; [left; auto|]. eapply am_advance; [exact Hh|done| |done|auto with dmx].
    destruct (advanced_refl (co_max_bytes c) h). split; cbn; done.
  - unfold applied. destruct (match_active id c) as [h|] eqn:Hm; [|intros [= <- <-]; apply within_refl].
    destruct (_ || _); intros [= <- <-]; [apply within_refl|].
    apply within_same; auto.
  - destruct (skip id re c) eqn:E. intros [= <- <-]. eapply within_no_commands; [exact E|].
    intros h Hh. apply within_same; auto.
  - unfold abort. destruct (co_pending_ownership c) as [p|]; [|intros [= <- <-]; apply within_refl].
    destruct (negb _); [intros [= <- <-]; apply within_refl|].
    destruct (cancel _ _) as [cmds1 c1] eqn:Hc. intros [= <- <-].
    eapply within_cancel, Hc. apply within_same; auto.
Qed.

(** A successful [begin_handoff] opens the next epoch. *)
Lemma begin_handoff_cases target c r c' :
  begin_handoff target c = (r, c') ->
  (exists e, r = inr e /\ c' = c)
  \/ exists b, r = inl b
     /\ (co_next_handoff_epoch c < u64_max)%N /\ (co_next_ownership_epoch c < u64_max)%N
     /\ target <> tk_owner_host_id (co_current_token c)
     /\ no_publish (bh_commands b)
     /\ co_authority_session_id c' = co_authority_session_id c
     /\ co_next_handoff_epoch c' = (co_next_handoff_epoch c + 1)%N
     /\ co_next_ownership_epoch c' = (co_next_ownership_epoch c + 1)%N
     /\ co_current_token c' = co_current_token c
     /\ bh_handoff_id b = current_id c' /\ bh_source_token b = co_current_token c
     /\ bh_target_token b = mkToken (co_authority_session_id c) (co_next_ownership_epoch c + 1) target
     /\ co_pending_ownership c' = Some (mkPending (bh_handoff_id b) (bh_target_token b))
     /\ (co_active c' = None
         \/ exists ss ts, co_active c' = Some (mkHandoff (bh_handoff_id b)
              (tk_owner_host_id (co_current_token c)) (co_current_token c) ss target (bh_target_token b) ts
              HCapturing None None false false)).
Proof.
  unfold begin_handoff. case_match eqn:Hsame; [intros [= <- <-]; by eauto|]. norm_bool.
  destruct (checked_add (co_next_ownership_epoch c) 1) as [oe|] eqn:Ho; [|intros [= <- <-]; by eauto].
  destruct (checked_add (co_next_handoff_epoch c) 1) as [he|] eqn:Hh; [|intros [= <- <-]; by eauto].
  apply checked_add_Some in Ho as [-> Ho]. apply checked_add_Some in Hh as [-> Hh].
  destruct (cancel Canceled c) as [cmds c1] eqn:Hc.
  assert (no_publish cmds /\ co_authority_session_id c1 = co_authority_session_id c
    /\ co_current_token c1 = co_current_token c) as (Hn&Ha&Hcur).
  { apply cancel_cases in Hc as [(->&->&_)|(h&_&->&->)]; auto with dmx. }
  intros H. right. revert H.
  destruct (co_enabled _), (co_process_sessions c !! tk_owner_host_id (co_current_token c)) as [ss|],
    (co_process_sessions c !! target) as [ts|];
    intros [= <- <-]; eexists; (split; [reflexivity|]); cbn; unfold current_id; cbn; rewrite ?Ha, ?Hcur;
    (split; [lia|]); (split; [lia|]); (split; [done|]); (split; [|repeat (split; [reflexivity|]); eauto]);
    try done.
  apply Forall_app. split; [done|by repeat constructor].
Qed.

Lemma begin_ok target c r c' :
  CoordOk c -> begin_handoff target c = (r, c') ->
  CoordOk c' /\ ClipMove c (ok_commands bh_commands r) c'.
Proof.
  intros Hok [(e&->&->)|(b&->&Hh&Ho&Hne&Hnp&Ea&Eh&Eo&Ec&Hid&_&Htk&Hpe&Hact)]%begin_handoff_cases.
  { split; [done|]. apply within_move; [done|apply within_refl]. }
  destruct Hok as [H1 H2 [H3 H4] _ _]. split.
  - split; rewrite ?Ea, ?Eh, ?Eo, ?Ec; unfold is_u64; try lia.
    + intros p Hp. rewrite Hpe in Hp. injection Hp as <-. cbn. rewrite Hid, Htk. cbn.
      split; [done|]. split; [done|]. split; [done|lia].
    + intros h Hh'. destruct Hact as [?|(ss&ts&Hact)]; [congruence|].
      rewrite Hact in Hh'. injection Hh' as <-. cbn. rewrite Hid, Htk.
      repeat (split; [first [done|congruence|cbn; lia]|]). done.
  - split; rewrite ?Ea, ?Eh, ?Eo; try done; try lia.
    + intros _ h' Hh'. destruct Hact as [?|(ss&ts&Hact)]; [congruence|]. by rewrite Hact in Hh'; injection Hh' as <-.
    + cbn [ok_commands]. rewrite no_publish_filter by done. split; [cbn; lia|].
      intros cmd Hin Hp. rewrite (proj1 (Forall_forall _ _) Hnp cmd Hin) in Hp. done.
Qed.

Lemma clip_apply_ok o c cmds c' :
  CoordOk c -> clip_apply o c = (cmds, c') -> CoordOk c' /\ ClipMove c cmds c'.
Proof.
  intros Hok Hap. destruct o as [| | |t| | | | | | |]; [..|];
    try (apply within_apply in Hap; [split; [by eapply within_ok|by apply within_move]|done]).
  cbn [clip_apply] in Hap. destruct (begin_handoff t c) as [r c1] eqn:E. injection Hap as <- <-.
  by eapply begin_ok.
Qed.

(** ** Runs *)

Lemma coordinator_new_ok enabled authority server session max :
  CoordOk (coordinator_new enabled authority server session max).
Proof. split; cbn; try done. Qed.

Lemma clip_run_app ops1 : forall ops2 c,
  clip_run (ops1 ++ ops2) c
  = let '(cmds1, c1) := clip_run ops1 c in
    let '(cmds2, c2) := clip_run ops2 c1 in (cmds1 ++ cmds2, c2).
Proof.
  induction ops1 as [|o ops1 IH]; intros ops2 c; cbn [app clip_run].
  - by destruct (clip_run ops2 c).
  - destruct (clip_apply o c) as [cmds c1]. rewrite IH.
    destruct (clip_run ops1 c1) as [cmds1 c2], (clip_run ops2 c2) as [cmds2 c3]. by rewrite app_assoc.
Qed.

Lemma clip_run_ok ops : forall c, CoordOk c -> CoordOk (snd (clip_run ops c)).
Proof.
  induction ops as [|o ops IH]; intros c Hok; cbn [clip_run]; [done|].
  destruct (clip_apply o c) as [cmds c1] eqn:E. destruct (clip_apply_ok _ _ _ _ Hok E) as [Hok1 _].
  specialize (IH c1 Hok1). by destruct (clip_run ops c1).
Qed.

Lemma clip_run_authority ops : forall c,
  CoordOk c -> co_authority_session_id (snd (clip_run ops c)) = co_authority_session_id c.
Proof.
  induction ops as [|o ops IH]; intros c Hok; [done|]. cbn [clip_run].
  destruct (clip_apply o c) as [cmds c1] eqn:E. destruct (clip_apply_ok _ _ _ _ Hok E) as [Hok1 []].
  specialize (IH c1 Hok1). destruct (clip_run ops c1). cbn in *. congruence.
Qed.

(** How often a trace publishes the handoff [id]. *)
Definition publications id (cmds : list CoordinatorCommand) : nat :=
  length (filter (fun cmd => is_publish cmd = true /\ command_id cmd = id) cmds).

Lemma publications_app id l1 l2 : publications id (l1 ++ l2) = publications id l1 + publications id l2.
Proof. unfold publications. by rewrite filter_app, length_app. Qed.

Lemma publications_bound id cmds :
  publications id cmds <= length (filter (fun cmd => is_publish cmd = true) cmds).
Proof.
  unfold publications. induction cmds as [|cmd cmds IH]; [done|]. rewrite !filter_cons.
  repeat case_decide; cbn; naive_solver lia.
Qed.

Lemma publications_zero id cmds :
  (forall cmd, cmd ∈ cmds -> is_publish cmd = true -> command_id cmd <> id) -> publications id cmds = 0.
Proof.
  unfold publications. induction cmds as [|cmd cmds IH]; intros H; [done|].
  rewrite filter_cons_False; [apply IH; intros cmd' Hin; apply H; by right|].
  intros [Hp Hid]. by eapply (H cmd); [left| |].
Qed.

(** What a trace has published, given the coordinator it leads to: nothing of a
    later epoch, each handoff at most once, and not the active one unless it
    is marked as published. *)
Record Published (cmds : list CoordinatorCommand) c : Prop := {
  pu_once : forall id, publications id cmds <= 1;
  pu_past : forall id, publications id cmds <> 0 ->
    hi_authority_session_id id = co_authority_session_id c
    /\ (hi_handoff_epoch id <= co_next_handoff_epoch c)%N;
  pu_active : forall h, co_active c = Some h -> ah_snapshot_published h = false ->
    publications (current_id c) cmds = 0 }.

Lemma published_step cmds0 c cmds c' :
  CoordOk c -> Published cmds0 c -> ClipMove c cmds c' -> Published (cmds0 ++ cmds) c'.
Proof.
  intros Hok [Ho Hp Ha] [Ea [Hle _] Hs Hn [Hlen Hpub]].
  assert (forall id, publications id cmds <> 0 -> id = current_id c' /\
    co_next_handoff_epoch c' = co_next_handoff_epoch c /\ publications (current_id c) cmds0 = 0
    /\ exists h', co_active c' = Some h' /\ ah_snapshot_published h' = true) as Hnew.
  { intros id Hne. destruct (decide (Exists (fun cmd => is_publish cmd = true /\ command_id cmd = id) cmds))
      as [Hex|Hno].
    - apply Exists_exists in Hex as (cmd&Hin&Hip&<-).
      destruct (Hpub cmd Hin Hip) as (E&E'&(h&Hh&Hf)&Hh'). repeat split; try done. by eapply Ha.
    - destruct Hne. apply publications_zero. intros cmd Hin Hip Hid. apply Hno, Exists_exists. eauto. }
  assert (forall id, publications id cmds <= 1) as Hb by (intros id; pose proof (publications_bound id cmds); lia).
  split.
  - intros id. rewrite publications_app. destruct (decide (publications id cmds = 0)) as [->|Hne].
    { rewrite Nat.add_0_r. apply Ho. }
    destruct (Hnew id Hne) as (->&E&Hz&_). pose proof (Hb (current_id c')).
    assert (current_id c' = current_id c) as Eid by (unfold current_id; congruence).
    rewrite Eid in *. lia.
  - intros id Hne. rewrite publications_app in Hne. rewrite Ea.
    destruct (decide (publications id cmds = 0)) as [Hz|Hnz].
    + destruct (Hp id) as [? ?]; [lia|]. split; [done|lia].
    + destruct (Hnew id Hnz) as (->&E&_). cbn. split; [done|lia].
  - intros h Hh Hf. rewrite publications_app.
    assert (publications (current_id c') cmds = 0) as ->.
    { destruct (decide (publications (current_id c') cmds = 0)) as [|Hnz]; [done|].
      destruct (Hnew _ Hnz) as (_&_&_&h'&Hh'&Ht). congruence. }
    rewrite Nat.add_0_r. destruct (decide (co_next_handoff_epoch c' = co_next_handoff_epoch c)) as [E|E].
    + destruct (Hs E h Hh) as (h0&Hh0&Hmono). unfold current_id. rewrite Ea, E. apply (Ha h0 Hh0).
      destruct (ah_snapshot_published h0); [|done]. rewrite Hmono in Hf by done. done.
    + destruct (decide (publications (current_id c') cmds0 = 0)) as [|Hnz]; [done|].
      destruct (Hp _ Hnz) as [_ Hle']. cbn in Hle'. lia.
Qed.

Lemma clip_run_published ops : forall cmds0 c,
  CoordOk c -> Published cmds0 c ->
  Published (cmds0 ++ fst (clip_run ops c)) (snd (clip_run ops c)).
Proof.
  induction ops as [|o ops IH]; intros cmds0 c Hok Hp; cbn [clip_run].
  - by rewrite app_nil_r.
  - destruct (clip_apply o c) as [cmds c1] eqn:E. destruct (clip_apply_ok _ _ _ _ Hok E) as [Hok1 Hm].
    specialize (IH (cmds0 ++ cmds) c1 Hok1 (published_step _ _ _ _ Hok Hp Hm)).
    destruct (clip_run ops c1). cbn in *. by rewrite app_assoc.
Qed.

(** C13: a snapshot is published at most once.  Whatever operations a coordinator
    goes through, in any order and with any stale or repeated messages, the
    commands it emits publish each handoff at most once, and only handoffs of
    epochs it has issued. *)
Theorem handoff_published_once enabled authority server session max ops id :
  let r := clip_run ops (coordinator_new enabled authority server session max) in
  publications id (fst r) <= 1
  /\ (publications id (fst r) <> 0 ->
      hi_authority_session_id id = authority
      /\ (hi_handoff_epoch id <= co_next_handoff_epoch (snd r))%N).
Proof.
  intros r. assert (Published (fst r) (snd r)) as [H1 H2 _].
  { apply (clip_run_published ops []); [apply coordinator_new_ok|]. split; cbn; lia || done. }
  split; [apply H1|]. intros Hne. destruct (H2 id Hne) as [Ha Hl]. split; [|done]. rewrite Ha.
  subst r. by rewrite clip_run_authority by apply coordinator_new_ok.
Qed.

(** ** Fencing *)

(** A coordinator for which [id] is no longer active and never will be. *)
Definition retired_id id c : Prop :=
  (hi_handoff_epoch id <= co_next_handoff_epoch c)%N
  /\ forall h, co_active c = Some h -> ah_id h <> id.

Lemma retired_apply o c cmds c' id :
  CoordOk c -> retired_id id c -> clip_apply o c = (cmds, c') -> retired_id id c'.
Proof.
  intros Hok [Hle Hne] Hap. destruct (clip_apply_ok _ _ _ _ Hok Hap) as [Hok' [Ea [Hle' _] Hs _ _]].
  split; [lia|]. intros h' Hh'. rewrite (proj1 (ck_active _ Hok' h' Hh')).
  destruct (decide (co_next_handoff_epoch c' = co_next_handoff_epoch c)) as [E|E].
  - destruct (Hs E h' Hh') as (h&Hh&_). specialize (Hne h Hh).
    rewrite (proj1 (ck_active _ Hok h Hh)) in Hne. unfold current_id in *. congruence.
  - intros <-. cbn in Hle. lia.
Qed.

Lemma retired_run ops id : forall c,
  CoordOk c -> retired_id id c -> retired_id id (snd (clip_run ops c)).
Proof.
  induction ops as [|o ops IH]; intros c Hok Hr; cbn [clip_run]; [done|].
  destruct (clip_apply o c) as [cmds c1] eqn:E. destruct (clip_apply_ok _ _ _ _ Hok E) as [Hok1 _].
  specialize (IH c1 Hok1 (retired_apply _ _ _ _ _ Hok Hr E)). by destruct (clip_run ops c1).
Qed.

Lemma match_active_retired id c : retired_id id c -> match_active id c = inr CeStaleHandoff.
Proof.
  intros [_ Hne]. unfold match_active. destruct (co_active c) as [h|]; [|done].
  by rewrite bool_decide_eq_false_2 by by apply Hne.
Qed.

(** a handoff that is over stays over.  Once the active handoff of a
    reachable coordinator has been superseded, cancelled, applied or skipped,
    every later message that names it (prepared, captured, staged, applied or
    skipped) is rejected as stale and changes nothing, whatever happens in
    between. *)
Theorem stale_handoff_fenced enabled authority server session max ops1 h o ops2 :
  let c0 := snd (clip_run ops1 (coordinator_new enabled authority server session max)) in
  let c1 := snd (clip_apply o c0) in
  let c := snd (clip_run ops2 c1) in
  co_active c0 = Some h -> (forall h', co_active c1 = Some h' -> ah_id h' <> ah_id h) ->
  (forall token s baseline, target_prepared (ah_id h) token s baseline c = (inr CeStaleHandoff, c))
  /\ (forall token s m, (sm_bytes m <= co_max_bytes c)%N ->
      source_captured (ah_id h) token s m c = (inr CeStaleHandoff, c))
  /\ snapshot_staged (ah_id h) c = (inr CeStaleHandoff, c)
  /\ (forall snapshot, applied (ah_id h) snapshot c = (inr CeStaleHandoff, c))
  /\ (forall reason, skip (ah_id h) reason c = (inr CeStaleHandoff, c)).
Proof.
  intros c0 c1 c Hact Hgone.
  assert (CoordOk c0) as Hok0 by apply clip_run_ok, coordinator_new_ok.
  assert (CoordOk c1 /\ retired_id (ah_id h) c1) as [Hok1 Hret1].
  { subst c1. destruct (clip_apply o c0) as [cmds c1] eqn:E. cbn in *.
    destruct (clip_apply_ok _ _ _ _ Hok0 E) as [Hok1 [_ [Hle _] _ _ _]]. split; [done|]. split; [|done].
    rewrite (proj1 (ck_active _ Hok0 h Hact)). cbn. done. }
  pose proof (match_active_retired _ _ (retired_run ops2 _ _ Hok1 Hret1)) as Hm. fold c in Hm.
  unfold target_prepared, source_captured, snapshot_staged, applied, skip. rewrite Hm.
  repeat split; try done. intros token s m Hb. apply N.ltb_ge in Hb. by rewrite Hb.
Qed.

(** ** Ownership tokens *)

Lemma cancel_token reason c : co_current_token (snd (cancel reason c)) = co_current_token c.
Proof. unfold cancel. by destruct (co_active c). Qed.

Lemma clip_apply_token o c :
  (forall id token s, o <> OpActivated id token s) ->
  co_current_token (snd (clip_apply o c)) = co_current_token c.
Proof.
  intros Hno. destruct o as [host session|host|enabled|t|id tk se ba|id tk se sn|id tk se|id|id sn|id re|id];
    cbn [clip_apply]; try by destruct (Hno id tk se).
  - unfold set_process_session. destruct (_ && _); [by rewrite cancel_token|done].
  - unfold remove_process_session. destruct (_ !! _); [|done]. destruct (involves _ _); [by rewrite cancel_token|done].
  - unfold set_enabled. destruct (bool_decide _); [done|]. destruct enabled; [done|by rewrite cancel_token].
  - destruct (begin_handoff t c) as [r c1] eqn:E.
    apply begin_handoff_cases in E as [(?&->&->)|(b&->&_&_&_&_&_&_&_&?&_)]; done.
  - unfold target_prepared. destruct (match_active _ _); [|done]. do 2 (destruct (negb _); [done|]).
    by destruct (publish_if_ready _).
  - unfold source_captured. destruct (_ <? _)%N; [done|]. destruct (match_active _ _); [|done].
    destruct (negb _); [done|]. destruct (_ || _); [done|]. by destruct (publish_if_ready _).
  - unfold snapshot_staged. by destruct (match_active _ _).
  - unfold applied. destruct (match_active _ _); [|done]. by destruct (_ || _).
  - unfold skip. by destruct (match_active _ _).
  - unfold abort. destruct (co_pending_ownership c); [|done]. destruct (negb _); [done|].
    destruct (cancel _ _) as [cmds c1] eqn:E. cbn. change c1 with (snd (cmds, c1)). rewrite <- E.
    by rewrite cancel_token.
Qed.

Lemma activated_token id token s c :
  let c' := snd (ownership_activated id token s c) in
  co_current_token c' = co_current_token c
  \/ exists p, co_pending_ownership c = Some p /\ po_handoff_id p = id /\ po_target_token p = token
     /\ co_current_token c' = token /\ co_next_ownership_epoch c' = co_next_ownership_epoch c.
Proof.
  unfold ownership_activated. destruct (co_pending_ownership c) as [p|]; [|by left].
  destruct (negb _) eqn:H1; [by left|]. destruct (negb (bool_decide (po_target_token p = token))) eqn:H2; [by left|].
  norm_bool. right. exists p. repeat (split; [done|]).
  set (c1 := set co_current_token _ _).
  assert (co_current_token c1 = token /\ co_next_ownership_epoch c1 = co_next_ownership_epoch c) as Hc1 by done.
  destruct (co_active c1); [|done]. destruct (match_active id c1); [|done].
  do 2 (destruct (negb _); [done|]). by destruct (publish_if_ready _).
Qed.

(** ownership moves forward.  On a reachable coordinator the current token
    changes only when an activation names the pending handoff and its token;
    the new token is the pending one, its epoch is larger than the old one's,
    and it is the latest epoch issued.  A failed [begin_handoff], in particular
    on exhausted epochs, leaves the coordinator and its active handoff as they
    were. *)
Theorem ownership_moves_forward enabled authority server session max ops o cmds c' :
  let c := snd (clip_run ops (coordinator_new enabled authority server session max)) in
  clip_apply o c = (cmds, c') ->
  (co_current_token c' = co_current_token c
   \/ exists p s, co_pending_ownership c = Some p
      /\ o = OpActivated (po_handoff_id p) (po_target_token p) s
      /\ co_current_token c' = po_target_token p
      /\ (tk_ownership_epoch (co_current_token c) < tk_ownership_epoch (co_current_token c'))%N
      /\ tk_ownership_epoch (co_current_token c') = co_next_ownership_epoch c')
  /\ (forall target e, fst (begin_handoff target c) = inr e -> snd (begin_handoff target c) = c).
Proof.
  intros c Hap. assert (CoordOk c) as Hok by apply clip_run_ok, coordinator_new_ok. clearbody c.
  split; cycle 1.
  { intros target e. destruct (begin_handoff target c) as [r c1] eqn:E. cbn. intros ->.
    apply begin_handoff_cases in E as [(?&_&->)|(b&?&_)]; done. }
  destruct o as [| | |t| | |id token s| | | |];
    try (left; change c' with (snd (cmds, c')); rewrite <- Hap; by apply clip_apply_token).
  cbn [clip_apply] in Hap. pose proof (activated_token id token s c) as Ht.
  destruct (ownership_activated id token s c) as [r c1]. injection Hap as <- <-. cbn in Ht.
  destruct Ht as [?|(p&Hp&<-&<-&Hc&He)]; [by left|]. right. exists p, s.
  destruct (ck_pending _ Hok p Hp) as (_&_&Hep&Hlt). rewrite Hc, He, Hep. done.
Qed.

(** ** A concrete run *)

Definition demo_coordinator : Coordinator := coordinator_new true 9 "server" 1 1000.
Definition demo_handoff_id : HandoffId := mkHandoffId 9 1.
Definition demo_snapshot : SnapshotMetadata := mkMetadata (mkSnapshotId 1 5) KText 12.
Definition demo_ops : list ClipOp :=
  [ OpSession "laptop" 2; OpBegin "laptop";
    OpPrepared demo_handoff_id (mkToken 9 1 "laptop") 2 40;
    OpCaptured demo_handoff_id (mkToken 9 0 "server") 1 demo_snapshot;
    OpCaptured demo_handoff_id (mkToken 9 0 "server") 1 demo_snapshot ].

Example demo_published : publications demo_handoff_id (fst (clip_run demo_ops demo_coordinator)) = 1.
Proof. by vm_compute. Qed.

Lemma stale_handoff_fenced_witness :
  let c1 := snd (clip_run []
    (snd (clip_apply (OpAbort demo_handoff_id) (snd (clip_run demo_ops demo_coordinator))))) in
  snapshot_staged demo_handoff_id c1 = (inr CeStaleHandoff, c1).
Proof.
  intros c1.
  destruct (co_active (snd (clip_run demo_ops demo_coordinator))) as [h|] eqn:Hh; [|by vm_compute in Hh].
  destruct (stale_handoff_fenced true 9 "server" 1 1000 demo_ops h (OpAbort demo_handoff_id) [])
    as (_&_&H&_).
  - exact Hh.
  - intros h' Hh'. by vm_compute in Hh'.
  - assert (ah_id h = demo_handoff_id) as Hid by (vm_compute in Hh; by injection Hh as <-).
    rewrite Hid in H. exact H.
Defined.

Lemma ownership_moves_forward_witness :
  let c := snd (clip_run demo_ops demo_coordinator) in
  co_current_token (snd (clip_apply (OpActivated demo_handoff_id (mkToken 9 1 "laptop") 2) c)) = mkToken 9 1 "laptop"
  /\ forall target e, fst (begin_handoff target c) = inr e -> snd (begin_handoff target c) = c.
Proof.
  intros c. split; [by vm_compute|].
  destruct (ownership_moves_forward true 9 "server" 1 1000 demo_ops (OpStaged demo_handoff_id) _ _
    (surjective_pairing _)) as [_ H]. exact H.
Defined.
