(* ===== verification/ClipFrame.v ===== *)
(** * The clipboard wire format (lan-mouse-clipboard/src/frame.rs)

    Messages, the header writer and reader, frame encoding, prefix and header
    decoding, and the readers and writers of frames over a connection.

    A connection is the bytes that will arrive, the bytes written so far and
    the faults that the next transfers meet: [read_exact] and [write_all] are
    interrupted by the environment (cancellation, deadline, I/O error) after
    some progress, or run to completion.  SHA-256 is a parameter.  [usize] has
    64 bits. *)

From stdpp Require Import base tactics list gmap strings.
From Stdlib Require Import NArith Lia Strings.Byte.
From S2P Require Import Prelude Bytes ClipTypes.

Definition FRAME_PROTOCOL_VERSION : N := 1.
Definition CLIPBOARD_TEXT_V1 : N := 1.
Definition MAGIC : list byte := ["L"; "M"; "C"; "B"]%byte.
Definition PREFIX_BYTES : nat := 24.
Definition KNOWN_FLAGS : N := 0.
Definition MAX_HOST_ID_BYTES : nat := 255.
Definition TOKEN_FIXED_BYTES : nat := 16 + 8 + 1.
Definition HANDOFF_BYTES : nat := 16 + 8.
Definition MAX_TOKEN_BYTES : nat := TOKEN_FIXED_BYTES + MAX_HOST_ID_BYTES.
Definition ENVELOPE_FIXED_BYTES : nat := HANDOFF_BYTES + MAX_TOKEN_BYTES * 2 + 16 * 2.
Definition MAX_HEADER_BYTES : nat := 16 + MAX_TOKEN_BYTES + 1 + ENVELOPE_FIXED_BYTES.

Definition usize_max : N := u64_max.

(** ** Messages *)

Inductive MessageType :=
| MTClipboardHello | MTAuthorityState | MTPrepareTarget | MTPrepareResult
| MTOwnershipActivated | MTSnapshotOffer | MTSnapshotDeliver | MTApplyResult
| MTCancelHandoff | MTProtocolError.
#[global] Instance MessageType_eq_dec : EqDecision MessageType.
Proof. solve_decision. Defined.

(** [message_type as u16] *)
Definition message_type_to_u16 (t : MessageType) : N :=
  match t with
  | MTClipboardHello => 1
  | MTAuthorityState => 2
  | MTPrepareTarget => 3
  | MTPrepareResult => 4
  | MTOwnershipActivated => 5
  | MTSnapshotOffer => 6
  | MTSnapshotDeliver => 7
  | MTApplyResult => 8
  | MTCancelHandoff => 9
  | MTProtocolError => 10
  end.

Inductive IoError := UnexpectedEof | OtherIo.

Inductive FrameError :=
| FIo (e : IoError)
| FCanceled
| FTransferTimeout
| FInvalidMagic
| FUnsupportedVersion (v : N)
| FUnknownMessageType (t : N)
| FUnknownFlags (f : N)
| FInvalidHeaderLength
| FPayloadTooLarge
| FPlatformLengthOverflow
| FUnexpectedPayload
| FIntegrityFailed
| FInvalidUtf8
| FInvalidHostId
| FInvalidField
| FUnavailableData.

(** [FrameError::reason] *)
Definition frame_error_reason (e : FrameError) : ClipboardReason :=
  match e with
  | FIo _ => ChannelUnavailable
  | FCanceled => Canceled
  | FTransferTimeout => TransferTimeout
  | FPayloadTooLarge | FPlatformLengthOverflow => Oversize
  | FIntegrityFailed => IntegrityFailed
  | FInvalidUtf8 => InvalidUtf8
  | FUnavailableData => BackendUnavailable
  | FInvalidMagic | FUnsupportedVersion _ | FUnknownMessageType _ | FUnknownFlags _
  | FInvalidHeaderLength | FUnexpectedPayload | FInvalidHostId | FInvalidField =>
      ReasonProtocolError
  end.

(** [impl TryFrom<u16> for MessageType] *)
Definition message_type_try_from (value : N) : exec FrameError MessageType :=
  match value with
  | 1 => Ret MTClipboardHello
  | 2 => Ret MTAuthorityState
  | 3 => Ret MTPrepareTarget
  | 4 => Ret MTPrepareResult
  | 5 => Ret MTOwnershipActivated
  | 6 => Ret MTSnapshotOffer
  | 7 => Ret MTSnapshotDeliver
  | 8 => Ret MTApplyResult
  | 9 => Ret MTCancelHandoff
  | 10 => Ret MTProtocolError
  | other => Throw (FUnknownMessageType other)
  end%N.

Record ClipboardHello := mkHello {
  ch_host_id : HostId;
  ch_process_session_id : ProcessSessionId;
  ch_offered_capabilities : N;
  ch_max_receive_bytes : N }.

Definition supports_text_v1 (h : ClipboardHello) : bool :=
  negb (N.land (ch_offered_capabilities h) CLIPBOARD_TEXT_V1 =? 0)%N.

Record HandoffEnvelope := mkEnvelope {
  he_handoff_id : HandoffId;
  he_source_token : OwnershipToken;
  he_source_process_session_id : ProcessSessionId;
  he_target_token : OwnershipToken;
  he_target_process_session_id : ProcessSessionId }.

Record AuthorityState := mkAuthority {
  as_authority_process_session_id : ProcessSessionId;
  as_current_token : OwnershipToken;
  as_active_handoff : option HandoffEnvelope }.

Inductive OperationResult := Completed | Skipped (r : ClipboardReason).

Record PrepareResult := mkPrepareResult {
  pr_handoff_id : HandoffId;
  pr_target_token : OwnershipToken;
  pr_target_process_session_id : ProcessSessionId;
  pr_baseline_generation : option NativeGeneration;
  pr_result : OperationResult }.

Record ClipboardPayload := mkPayload {
  cp_handoff : HandoffEnvelope;
  cp_snapshot_id : SnapshotId;
  cp_data : ClipboardData }.

Record ApplyResult := mkApplyResult {
  ar_handoff_id : HandoffId;
  ar_target_token : OwnershipToken;
  ar_target_process_session_id : ProcessSessionId;
  ar_snapshot_id : SnapshotId;
  ar_post_write_generation : option NativeGeneration;
  ar_result : OperationResult }.

Inductive WireMessage :=
| WClipboardHello (h : ClipboardHello)
| WAuthorityState (s : AuthorityState)
| WPrepareTarget (h : HandoffEnvelope)
| WPrepareResult (r : PrepareResult)
| WOwnershipActivated (h : HandoffEnvelope)
| WSnapshotOffer (p : ClipboardPayload)
| WSnapshotDeliver (p : ClipboardPayload)
| WApplyResult (r : ApplyResult)
| WCancelHandoff (h : HandoffId)
| WProtocolError (r : ClipboardReason).

Record FrameMetadata := mkMetadata {
  fm_message_type : MessageType;
  fm_handoff_id : option HandoffId;
  fm_source_token : option OwnershipToken;
  fm_source_process_session_id : option ProcessSessionId;
  fm_target_token : option OwnershipToken;
  fm_target_process_session_id : option ProcessSessionId;
  fm_snapshot_id : option SnapshotId }.
#[global] Instance FrameMetadata_eta : RecordEta FrameMetadata := fun s =>
  mkMetadata (fm_message_type s) (fm_handoff_id s) (fm_source_token s)
    (fm_source_process_session_id s) (fm_target_token s)
    (fm_target_process_session_id s) (fm_snapshot_id s).

(** [WireMessage::message_type] *)
Definition message_type (m : WireMessage) : MessageType :=
  match m with
  | WClipboardHello _ => MTClipboardHello
  | WAuthorityState _ => MTAuthorityState
  | WPrepareTarget _ => MTPrepareTarget
  | WPrepareResult _ => MTPrepareResult
  | WOwnershipActivated _ => MTOwnershipActivated
  | WSnapshotOffer _ => MTSnapshotOffer
  | WSnapshotDeliver _ => MTSnapshotDeliver
  | WApplyResult _ => MTApplyResult
  | WCancelHandoff _ => MTCancelHandoff
  | WProtocolError _ => MTProtocolError
  end.

Definition is_payload (m : WireMessage) : bool :=
  match m with WSnapshotOffer _ | WSnapshotDeliver _ => true | _ => false end.

Record EncodedFrame := mkFrame {
  ef_prefix : list byte;
  ef_header : list byte;
  ef_payload : option (list byte) }.

Definition opt_len (o : option (list byte)) : nat :=
  match o with Some p => length p | None => 0 end.

Definition encoded_len (f : EncodedFrame) : nat :=
  length (ef_prefix f) + length (ef_header f) + opt_len (ef_payload f).

(** [EncodedFrame::to_vec] *)
Definition to_vec (f : EncodedFrame) : list byte :=
  ef_prefix f ++ ef_header f ++ from_option id [] (ef_payload f).

(** ** Reason codes on the wire *)

Definition reason_to_u16 (r : ClipboardReason) : N :=
  match r with
  | CapabilityMissing => 1
  | BackendUnavailable => 2
  | PermissionDenied => 3
  | PrivateContent => 4
  | UnsupportedFormat => 5
  | Oversize => 6
  | SourceChanged => 7
  | TargetNotPrepared => 8
  | DestinationChanged => 9
  | StaleAuthoritySession => 10
  | StalePeerSession => 11
  | ReasonStaleHandoff => 12
  | ReasonStaleOwnerToken => 13
  | Duplicate => 14
  | ChannelUnavailable => 15
  | TransferTimeout => 16
  | ReasonProtocolError => 17
  | IntegrityFailed => 18
  | InvalidUtf8 => 19
  | Canceled => 20
  | QueueFull => 21
  | ReasonIdentityExhausted => 22
  end.

Definition reason_from_u16 (reason : N) : exec FrameError ClipboardReason :=
  match reason with
  | 1 => Ret CapabilityMissing
  | 2 => Ret BackendUnavailable
  | 3 => Ret PermissionDenied
  | 4 => Ret PrivateContent
  | 5 => Ret UnsupportedFormat
  | 6 => Ret Oversize
  | 7 => Ret SourceChanged
  | 8 => Ret TargetNotPrepared
  | 9 => Ret DestinationChanged
  | 10 => Ret StaleAuthoritySession
  | 11 => Ret StalePeerSession
  | 12 => Ret ReasonStaleHandoff
  | 13 => Ret ReasonStaleOwnerToken
  | 14 => Ret Duplicate
  | 15 => Ret ChannelUnavailable
  | 16 => Ret TransferTimeout
  | 17 => Ret ReasonProtocolError
  | 18 => Ret IntegrityFailed
  | 19 => Ret InvalidUtf8
  | 20 => Ret Canceled
  | 21 => Ret QueueFull
  | 22 => Ret ReasonIdentityExhausted
  | _ => Throw FInvalidField
  end%N.

(** ** The header writer: each operation extends the bytes written so far. *)

Definition HeaderWriter : Type := list byte.

Definition hw_bytes (bytes : list byte) (w : HeaderWriter) : HeaderWriter := w ++ bytes.
Definition hw_u8 (v : N) (w : HeaderWriter) : HeaderWriter := w ++ [byte_of v].
Definition hw_u16 (v : N) : HeaderWriter -> HeaderWriter := hw_bytes (be_bytes 2 v).
Definition hw_u64 (v : N) : HeaderWriter -> HeaderWriter := hw_bytes (be_bytes 8 v).
Definition hw_u128 (v : N) : HeaderWriter -> HeaderWriter := hw_bytes (be_bytes 16 v).

(** [HostId::as_str().as_bytes()] *)
Definition host_bytes (h : HostId) : list byte := String.list_byte_of_string h.

Definition hw_host (host : HostId) (w : HeaderWriter) : exec FrameError HeaderWriter :=
  let bytes := host_bytes host in
  if bool_decide (bytes = []) || (MAX_HOST_ID_BYTES <? length bytes) then Throw FInvalidHostId
  else Ret (hw_bytes bytes (hw_u8 (N.of_nat (length bytes)) w)).

Definition hw_token (t : OwnershipToken) (w : HeaderWriter) : exec FrameError HeaderWriter :=
  let w := hw_u128 (tk_authority_session_id t) w in
  let w := hw_u64 (tk_ownership_epoch t) w in
  hw_host (tk_owner_host_id t) w.

Definition hw_handoff (h : HandoffId) (w : HeaderWriter) : HeaderWriter :=
  hw_u64 (hi_handoff_epoch h) (hw_u128 (hi_authority_session_id h) w).

Definition hw_snapshot (s : SnapshotId) (w : HeaderWriter) : HeaderWriter :=
  hw_u64 (si_sequence s) (hw_u128 (si_source_process_session_id s) w).

Definition hw_envelope (h : HandoffEnvelope) (w : HeaderWriter) : exec FrameError HeaderWriter :=
  let w := hw_handoff (he_handoff_id h) w in
  let* w := hw_token (he_source_token h) w in
  let w := hw_u128 (he_source_process_session_id h) w in
  let* w := hw_token (he_target_token h) w in
  Ret (hw_u128 (he_target_process_session_id h) w).

Definition hw_optional_generation (g : option NativeGeneration) (w : HeaderWriter) : HeaderWriter :=
  let w := hw_u8 (match g with Some _ => 1 | None => 0 end) w in
  hw_u64 (default 0%N g) w.

Definition hw_reason (r : ClipboardReason) : HeaderWriter -> HeaderWriter :=
  hw_u16 (reason_to_u16 r).

Definition hw_operation_result (r : OperationResult) (w : HeaderWriter) : HeaderWriter :=
  match r with
  | Completed => hw_u16 0 (hw_u8 0 w)
  | Skipped reason => hw_reason reason (hw_u8 1 w)
  end.

(** ** Encoding *)

Section encode.
Variable sha256 : list byte -> list byte.

(** The arm of [encode_message] for [SnapshotOffer] and [SnapshotDeliver]. *)
Definition encode_snapshot (snapshot : ClipboardPayload) (max_payload_bytes : N)
  (w : HeaderWriter) : exec FrameError (HeaderWriter * option (list byte)) :=
  let* w := hw_envelope (cp_handoff snapshot) w in
  let w := hw_snapshot (cp_snapshot_id snapshot) w in
  let* (w, bytes) :=
    match cp_data snapshot with
    | Text bytes => if utf8_valid bytes then Ret (hw_u8 1 w, bytes) else Throw FInvalidUtf8
    | Empty => Ret (hw_u8 2 w, [])
    | DataUnavailable _ => Throw FUnavailableData
    end in
  let* _ := guard_not (max_payload_bytes <? N.of_nat (length bytes))%N FPayloadTooLarge in
  Ret (hw_bytes (sha256 bytes) w, Some bytes).

(** The header and the payload of a message. *)
Definition encode_body (message : WireMessage) (max_payload_bytes : N)
  : exec FrameError (HeaderWriter * option (list byte)) :=
  let w := [] in
  match message with
  | WClipboardHello hello =>
      let* w := hw_host (ch_host_id hello) w in
      let w := hw_u128 (ch_process_session_id hello) w in
      let w := hw_u64 (ch_offered_capabilities hello) w in
      let w := hw_u64 (ch_max_receive_bytes hello) w in
      Ret (w, None)
  | WAuthorityState state =>
      let w := hw_u128 (as_authority_process_session_id state) w in
      let* w := hw_token (as_current_token state) w in
      let w := hw_u8 (match as_active_handoff state with Some _ => 1 | None => 0 end) w in
      let* w := match as_active_handoff state with
                | Some handoff => hw_envelope handoff w
                | None => Ret w
                end in
      Ret (w, None)
  | WPrepareTarget handoff | WOwnershipActivated handoff =>
      let* w := hw_envelope handoff w in
      Ret (w, None)
  | WPrepareResult result =>
      let w := hw_handoff (pr_handoff_id result) w in
      let* w := hw_token (pr_target_token result) w in
      let w := hw_u128 (pr_target_process_session_id result) w in
      let w := hw_optional_generation (pr_baseline_generation result) w in
      let w := hw_operation_result (pr_result result) w in
      Ret (w, None)
  | WSnapshotOffer snapshot | WSnapshotDeliver snapshot =>
      encode_snapshot snapshot max_payload_bytes w
  | WApplyResult result =>
      let w := hw_handoff (ar_handoff_id result) w in
      let* w := hw_token (ar_target_token result) w in
      let w := hw_u128 (ar_target_process_session_id result) w in
      let w := hw_snapshot (ar_snapshot_id result) w in
      let w := hw_optional_generation (ar_post_write_generation result) w in
      let w := hw_operation_result (ar_result result) w in
      Ret (w, None)
  | WCancelHandoff handoff_id => Ret (hw_handoff handoff_id w, None)
  | WProtocolError reason => Ret (hw_reason reason w, None)
  end.

(** The 24 bytes written by the [copy_from_slice] calls, which fill the whole
    prefix in order. *)
Definition encode_prefix (t : MessageType) (header_length payload_length : nat) : list byte :=
  MAGIC ++ be_bytes 2 FRAME_PROTOCOL_VERSION ++ be_bytes 2 (message_type_to_u16 t)
  ++ be_bytes 4 KNOWN_FLAGS ++ be_bytes 4 (N.of_nat header_length)
  ++ be_bytes 8 (N.of_nat payload_length).

Definition encode_message (message : WireMessage) (max_payload_bytes : N)
  : exec FrameError EncodedFrame :=
  let* (header, payload) := encode_body message max_payload_bytes in
  let* _ := guard_not (MAX_HEADER_BYTES <? length header) FInvalidHeaderLength in
  let payload_length := opt_len payload in
  Ret (mkFrame (encode_prefix (message_type message) (length header) payload_length)
         header payload).
End encode.

(** ** The header reader *)

Record HeaderReader := mkReader {
  hr_bytes : list byte;
  hr_offset : nat }.

(** Methods of the reader: its new state with the value, or the error. *)
Definition reader (A : Type) : Type := HeaderReader -> exec FrameError (A * HeaderReader).

Definition rret {A} (a : A) : reader A := fun s => Ret (a, s).
Definition rthrow {A} (e : FrameError) : reader A := fun _ => Throw e.
Definition rbind {A B} (m : reader A) (k : A -> reader B) : reader B :=
  fun s => let* (a, s) := m s in k a s.
Notation "x <-- m ;; k" := (rbind m (fun x => k))
  (at level 60, m at level 59, k at level 60, right associativity) : exec_scope.

Definition is_finished (s : HeaderReader) : bool := hr_offset s =? length (hr_bytes s).

(** [HeaderReader::take]: [checked_add], then [bytes.get(offset..end)]. *)
Definition hr_take (count : nat) : reader (list byte) := fun s =>
  let* stop := ok_or (checked_add (N.of_nat (hr_offset s)) (N.of_nat count)) FInvalidHeaderLength in
  let stop := N.to_nat stop in
  let* bytes := ok_or (if stop <=? length (hr_bytes s)
                       then Some (take (stop - hr_offset s) (drop (hr_offset s) (hr_bytes s)))
                       else None) FInvalidHeaderLength in
  Ret (bytes, mkReader (hr_bytes s) stop).

Definition hr_array (n : nat) : reader (list byte) :=
  bytes <-- hr_take n ;;
  if length bytes =? n then rret bytes else rthrow FInvalidHeaderLength.

(** [uN::from_be_bytes(self.array()?)] for an [n]-byte integer. *)
Definition hr_uint (n : nat) : reader N := bytes <-- hr_array n ;; rret (be_val bytes).
Definition hr_u8 : reader N := hr_uint 1.
Definition hr_u16 : reader N := hr_uint 2.
Definition hr_u64 : reader N := hr_uint 8.
Definition hr_u128 : reader N := hr_uint 16.

Definition hr_host : reader HostId :=
  len <-- hr_u8 ;;
  if (len =? 0)%N then rthrow FInvalidHostId
  else
    value <-- hr_take (N.to_nat len) ;;
    if utf8_valid value then rret (String.string_of_list_byte value) else rthrow FInvalidHostId.

Definition hr_token : reader OwnershipToken :=
  authority_session_id <-- hr_u128 ;;
  ownership_epoch <-- hr_u64 ;;
  owner_host_id <-- hr_host ;;
  rret (mkToken authority_session_id ownership_epoch owner_host_id).

Definition hr_handoff : reader HandoffId :=
  authority_session_id <-- hr_u128 ;;
  handoff_epoch <-- hr_u64 ;;
  rret (mkHandoffId authority_session_id handoff_epoch).

Definition hr_snapshot : reader SnapshotId :=
  source_process_session_id <-- hr_u128 ;;
  sequence <-- hr_u64 ;;
  rret (mkSnapshotId source_process_session_id sequence).

Definition hr_envelope : reader HandoffEnvelope :=
  handoff_id <-- hr_handoff ;;
  source_token <-- hr_token ;;
  source_process_session_id <-- hr_u128 ;;
  target_token <-- hr_token ;;
  target_process_session_id <-- hr_u128 ;;
  rret (mkEnvelope handoff_id source_token source_process_session_id
          target_token target_process_session_id).

Definition hr_optional_generation : reader (option NativeGeneration) :=
  present <-- hr_u8 ;;
  value <-- hr_u64 ;;
  match present with
  | 0%N => if (value =? 0)%N then rret None else rthrow FInvalidField
  | 1%N => rret (Some value)
  | _ => rthrow FInvalidField
  end.

(** A pure [Result] inside a reader method. *)
Definition rlift {A} (m : exec FrameError A) : reader A := fun s => let* a := m in Ret (a, s).

Definition hr_operation_result : reader OperationResult :=
  status <-- hr_u8 ;;
  reason <-- hr_u16 ;;
  match status, reason with
  | 0%N, 0%N => rret Completed
  | 1%N, reason => r <-- rlift (reason_from_u16 reason) ;; rret (Skipped r)
  | _, _ => rthrow FInvalidField
  end.

Definition hr_reason : reader ClipboardReason :=
  reason <-- hr_u16 ;; rlift (reason_from_u16 reason).

(** ** Decoding *)

Record DecodedPrefix := mkDecodedPrefix {
  dp_message_type : MessageType;
  dp_header_length : nat;
  dp_payload_length : nat }.

Definition checked_payload_length (declared negotiated_max platform_max : N)
  : exec FrameError nat :=
  let* _ := guard_not (negotiated_max <? declared)%N FPayloadTooLarge in
  let* _ := guard_not (platform_max <? declared)%N FPlatformLengthOverflow in
  if (usize_max <? declared)%N then Throw FPlatformLengthOverflow else Ret (N.to_nat declared).

(** [prefix[lo..hi]] of the 24-byte array, as an integer. *)
Definition slice (lo hi : nat) (bs : list byte) : list byte := take (hi - lo) (drop lo bs).

Definition decode_prefix (prefix : list byte) (max_payload_bytes : N)
  : exec FrameError DecodedPrefix :=
  let* _ := guard_not (negb (bool_decide (slice 0 4 prefix = MAGIC))) FInvalidMagic in
  let version := be_val (slice 4 6 prefix) in
  let* _ := guard_not (negb (version =? FRAME_PROTOCOL_VERSION)%N) (FUnsupportedVersion version) in
  let* message_type := message_type_try_from (be_val (slice 6 8 prefix)) in
  let flags := be_val (slice 8 12 prefix) in
  let* _ := guard_not (negb (flags =? KNOWN_FLAGS)%N) (FUnknownFlags flags) in
  let header_length := be_val (slice 12 16 prefix) in
  let* _ := guard_not (N.of_nat MAX_HEADER_BYTES <? header_length)%N FInvalidHeaderLength in
  let payload_length := be_val (slice 16 24 prefix) in
  let* payload_length := checked_payload_length payload_length max_payload_bytes usize_max in
  Ret (mkDecodedPrefix message_type (N.to_nat header_length) payload_length).

Inductive ParsedHeader :=
| PHello (h : ClipboardHello)
| PAuthority (s : AuthorityState)
| PEnvelope (h : HandoffEnvelope)
| PPrepareResult (r : PrepareResult)
| PSnapshot (handoff : HandoffEnvelope) (snapshot_id : SnapshotId) (kind : ClipboardKind)
            (digest : list byte)
| PApplyResult (r : ApplyResult)
| PHandoff (h : HandoffId)
| PReason (r : ClipboardReason).

Definition set_envelope (h : HandoffEnvelope) (m : FrameMetadata) : FrameMetadata :=
  m <| fm_handoff_id := Some (he_handoff_id h) |>
    <| fm_source_token := Some (he_source_token h) |>
    <| fm_source_process_session_id := Some (he_source_process_session_id h) |>
    <| fm_target_token := Some (he_target_token h) |>
    <| fm_target_process_session_id := Some (he_target_process_session_id h) |>.

Definition frame_metadata (t : MessageType) (header : ParsedHeader) : FrameMetadata :=
  let metadata := mkMetadata t None None None None None None in
  match header with
  | PAuthority state =>
      match as_active_handoff state with
      | Some handoff => set_envelope handoff metadata
      | None => metadata
      end
  | PEnvelope handoff => set_envelope handoff metadata
  | PPrepareResult r =>
      metadata <| fm_handoff_id := Some (pr_handoff_id r) |>
               <| fm_target_token := Some (pr_target_token r) |>
               <| fm_target_process_session_id := Some (pr_target_process_session_id r) |>
  | PSnapshot handoff snapshot_id _ _ =>
      set_envelope handoff metadata <| fm_snapshot_id := Some snapshot_id |>
  | PApplyResult r =>
      metadata <| fm_handoff_id := Some (ar_handoff_id r) |>
               <| fm_target_token := Some (ar_target_token r) |>
               <| fm_target_process_session_id := Some (ar_target_process_session_id r) |>
               <| fm_snapshot_id := Some (ar_snapshot_id r) |>
  | PHandoff handoff_id => metadata <| fm_handoff_id := Some handoff_id |>
  | PHello _ | PReason _ => metadata
  end.

(** The match of [parse_header]. *)
Definition header_reader (t : MessageType) : reader ParsedHeader :=
  match t with
  | MTClipboardHello =>
      host_id <-- hr_host ;;
      process_session_id <-- hr_u128 ;;
      offered_capabilities <-- hr_u64 ;;
      max_receive_bytes <-- hr_u64 ;;
      rret (PHello (mkHello host_id process_session_id offered_capabilities max_receive_bytes))
  | MTAuthorityState =>
      authority_process_session_id <-- hr_u128 ;;
      current_token <-- hr_token ;;
      present <-- hr_u8 ;;
      active_handoff <-- match present with
                         | 0%N => rret None
                         | 1%N => h <-- hr_envelope ;; rret (Some h)
                         | _ => rthrow FInvalidField
                         end ;;
      rret (PAuthority (mkAuthority authority_process_session_id current_token active_handoff))
  | MTPrepareTarget | MTOwnershipActivated => h <-- hr_envelope ;; rret (PEnvelope h)
  | MTPrepareResult =>
      handoff_id <-- hr_handoff ;;
      target_token <-- hr_token ;;
      target_process_session_id <-- hr_u128 ;;
      baseline_generation <-- hr_optional_generation ;;
      result <-- hr_operation_result ;;
      rret (PPrepareResult (mkPrepareResult handoff_id target_token target_process_session_id
                              baseline_generation result))
  | MTSnapshotOffer | MTSnapshotDeliver =>
      handoff <-- hr_envelope ;;
      snapshot_id <-- hr_snapshot ;;
      code <-- hr_u8 ;;
      kind <-- match code with
               | 1%N => rret KText
               | 2%N => rret KEmpty
               | _ => rthrow FInvalidField
               end ;;
      digest <-- hr_array 32 ;;
      rret (PSnapshot handoff snapshot_id kind digest)
  | MTApplyResult =>
      handoff_id <-- hr_handoff ;;
      target_token <-- hr_token ;;
      target_process_session_id <-- hr_u128 ;;
      snapshot_id <-- hr_snapshot ;;
      post_write_generation <-- hr_optional_generation ;;
      result <-- hr_operation_result ;;
      rret (PApplyResult (mkApplyResult handoff_id target_token target_process_session_id
                            snapshot_id post_write_generation result))
  | MTCancelHandoff => h <-- hr_handoff ;; rret (PHandoff h)
  | MTProtocolError => r <-- hr_reason ;; rret (PReason r)
  end.

Definition parse_header (t : MessageType) (header : list byte) : exec FrameError ParsedHeader :=
  let* (parsed, s) := header_reader t (mkReader header 0) in
  if is_finished s then Ret parsed else Throw FInvalidHeaderLength.

Definition require_empty_payload (payload : list byte) : exec FrameError unit :=
  if bool_decide (payload = []) then Ret tt else Throw FUnexpectedPayload.

Section decode.
Variable sha256 : list byte -> list byte.

Definition finish_message (t : MessageType) (header : ParsedHeader) (payload : list byte)
  : exec FrameError WireMessage :=
  match t, header with
  | MTClipboardHello, PHello hello =>
      let* _ := require_empty_payload payload in Ret (WClipboardHello hello)
  | MTAuthorityState, PAuthority state =>
      let* _ := require_empty_payload payload in Ret (WAuthorityState state)
  | MTPrepareTarget, PEnvelope handoff =>
      let* _ := require_empty_payload payload in Ret (WPrepareTarget handoff)
  | MTOwnershipActivated, PEnvelope handoff =>
      let* _ := require_empty_payload payload in Ret (WOwnershipActivated handoff)
  | MTPrepareResult, PPrepareResult result =>
      let* _ := require_empty_payload payload in Ret (WPrepareResult result)
  | MTSnapshotOffer, PSnapshot handoff snapshot_id kind digest
  | MTSnapshotDeliver, PSnapshot handoff snapshot_id kind digest =>
      let* _ := guard_not (negb (bool_decide (sha256 payload = digest))) FIntegrityFailed in
      let* data := match kind with
                   | KText => if utf8_valid payload then Ret (Text payload) else Throw FInvalidUtf8
                   | KEmpty => if bool_decide (payload = []) then Ret Empty
                               else Throw FUnexpectedPayload
                   end in
      let clipboard_payload := mkPayload handoff snapshot_id data in
      if bool_decide (t = MTSnapshotOffer) then Ret (WSnapshotOffer clipboard_payload)
      else Ret (WSnapshotDeliver clipboard_payload)
  | MTApplyResult, PApplyResult result =>
      let* _ := require_empty_payload payload in Ret (WApplyResult result)
  | MTCancelHandoff, PHandoff handoff_id =>
      let* _ := require_empty_payload payload in Ret (WCancelHandoff handoff_id)
  | MTProtocolError, PReason reason =>
      let* _ := require_empty_payload payload in Ret (WProtocolError reason)
  | _, _ => Throw FInvalidField
  end.
End decode.

(** ** Frames over a connection *)

(** What interrupts one transfer, after [fl_progress] bytes. *)
Inductive FaultKind := FaultCancel | FaultDeadline | FaultIo.
Record Fault := mkFault { fl_kind : FaultKind; fl_progress : nat }.

Record Conn := mkConn {
  cn_incoming : list byte;
  cn_outgoing : list byte;
  cn_faults : list (option Fault) }.
#[global] Instance Conn_eta : RecordEta Conn := fun s =>
  mkConn (cn_incoming s) (cn_outgoing s) (cn_faults s).

(** The fault of the next transfer; no fault once the schedule is used up. *)
Definition next_fault (c : Conn) : option Fault * Conn :=
  match cn_faults c with
  | [] => (None, c)
  | f :: fs => (f, c <| cn_faults := fs |>)
  end.

Definition fault_error (k : FaultKind) : FrameError :=
  match k with
  | FaultCancel => FCanceled
  | FaultDeadline => FTransferTimeout
  | FaultIo => FIo OtherIo
  end.

(** [AsyncReadExt::read_exact] of [n] bytes that meets no fault. *)
Definition read_exact (n : nat) (c : Conn) : exec FrameError (list byte) * Conn :=
  if n <=? length (cn_incoming c)
  then (Ret (take n (cn_incoming c)), c <| cn_incoming ::= drop n |>)
  else (Throw (FIo UnexpectedEof), c <| cn_incoming := [] |>).

Definition read_exact_before (n : nat) (c : Conn) : exec FrameError (list byte) * Conn :=
  match next_fault c with
  | (Some f, c) => (Throw (fault_error (fl_kind f)),
                    c <| cn_incoming ::= drop (Nat.min n (fl_progress f)) |>)
  | (None, c) => read_exact n c
  end.

(** Without a deadline only cancellation and I/O errors interrupt. *)
Definition read_exact_until_cancel (n : nat) (c : Conn) : exec FrameError (list byte) * Conn :=
  match next_fault c with
  | (Some (mkFault FaultDeadline _), c) | (None, c) => read_exact n c
  | (Some f, c) => (Throw (fault_error (fl_kind f)),
                    c <| cn_incoming ::= drop (Nat.min n (fl_progress f)) |>)
  end.

Definition write_all_before (bytes : list byte) (c : Conn) : exec FrameError unit * Conn :=
  match next_fault c with
  | (Some f, c) => (Throw (fault_error (fl_kind f)),
                    c <| cn_outgoing ::= fun o => o ++ take (fl_progress f) bytes |>)
  | (None, c) => (Ret tt, c <| cn_outgoing ::= fun o => o ++ bytes |>)
  end.

(** Sequencing of operations on the connection, stopping at the first error. *)
Definition conn_bind {E A B} (m : Conn -> exec E A * Conn) (k : A -> Conn -> exec E B * Conn)
  (c : Conn) : exec E B * Conn :=
  match m c with
  | (Ret a, c) => k a c
  | (Throw e, c) => (Throw e, c)
  | (Panic s, c) => (Panic s, c)
  end.
Definition conn_lift {E A} (m : exec E A) (c : Conn) : exec E A * Conn := (m, c).
Notation "x <~ m ;; k" := (conn_bind m (fun x => k))
  (at level 60, m at level 59, k at level 60, right associativity) : exec_scope.

(** [map_err(E::from)] *)
Definition map_err {E F A} (from : E -> F) (m : exec E A) : exec F A :=
  match m with Ret a => Ret a | Throw e => Throw (from e) | Panic s => Panic s end.
Definition conn_err {E F A} (from : E -> F) (m : Conn -> exec E A * Conn) (c : Conn)
  : exec F A * Conn :=
  let '(r, c) := m c in (map_err from r, c).

Definition write_frame (f : EncodedFrame) : Conn -> exec FrameError unit * Conn :=
  _ <~ write_all_before (ef_prefix f) ;;
  _ <~ write_all_before (ef_header f) ;;
  match ef_payload f with
  | Some payload => write_all_before payload
  | None => conn_lift (Ret tt)
  end.

Definition carries_payload (t : MessageType) : bool :=
  match t with MTSnapshotOffer | MTSnapshotDeliver => true | _ => false end.

Section read.
Variable sha256 : list byte -> list byte.
Context {E : Type} (from : FrameError -> E) (validator : FrameMetadata -> exec E unit).

Definition read_frame_after_prefix (max_payload_bytes : N) (prefix : list byte)
  : Conn -> exec E WireMessage * Conn :=
  decoded <~ conn_lift (map_err from (decode_prefix prefix max_payload_bytes)) ;;
  header <~ conn_err from (read_exact_before (dp_header_length decoded)) ;;
  parsed <~ conn_lift (map_err from (parse_header (dp_message_type decoded) header)) ;;
  _ <~ conn_lift (guard_not (negb (carries_payload (dp_message_type decoded))
                             && negb (dp_payload_length decoded =? 0))
                   (from FUnexpectedPayload)) ;;
  _ <~ conn_lift (validator (frame_metadata (dp_message_type decoded) parsed)) ;;
  payload <~ conn_err from (read_exact_before (dp_payload_length decoded)) ;;
  conn_lift (map_err from (finish_message sha256 (dp_message_type decoded) parsed payload)).

Definition read_frame_validated (max_payload_bytes : N) : Conn -> exec E WireMessage * Conn :=
  prefix <~ conn_err from (read_exact_before PREFIX_BYTES) ;;
  read_frame_after_prefix max_payload_bytes prefix.

Definition read_next_frame_validated (max_payload_bytes : N) : Conn -> exec E WireMessage * Conn :=
  first <~ conn_err from (read_exact_until_cancel 1) ;;
  rest <~ conn_err from (read_exact_before (PREFIX_BYTES - 1)) ;;
  read_frame_after_prefix max_payload_bytes (first ++ rest).
End read.

Definition read_frame (sha256 : list byte -> list byte) (max_payload_bytes : N)
  : Conn -> exec FrameError WireMessage * Conn :=
  read_frame_validated sha256 id (fun _ => Ret tt) max_payload_bytes.
