(* ===== verification/ClipFrameCodec.v ===== *)
(** * The grammar of clipboard frames

    What the header reader accepts, characterised exactly: for each reader
    method the bytes it consumes and the value it returns, as a relation built
    from a layout function ([enc_*]).  The header writer is shown to produce
    the same layout, so that writer and reader meet in one description of the
    format. *)

From stdpp Require Import base tactics list gmap strings.
From Stdlib Require Import NArith Lia Strings.Byte.
From S2P Require Import Prelude Bytes ClipTypes ClipFrame.

(** ** Readers and grammars *)

(** The reader moves from [s] to [s'] over the bytes [bs]. *)
Definition Step (s : HeaderReader) (bs : list byte) (s' : HeaderReader) : Prop :=
  hr_bytes s' = hr_bytes s /\ hr_offset s' = hr_offset s + length bs
  /\ drop (hr_offset s) (hr_bytes s) = bs ++ drop (hr_offset s') (hr_bytes s).

Definition rd_ok (s : HeaderReader) : Prop :=
  hr_offset s <= length (hr_bytes s) /\ (N.of_nat (length (hr_bytes s)) <= u64_max)%N.

(** [Codec p Q]: [p] returns [a] after consuming [bs] exactly when [Q a bs]. *)
Definition Codec {A} (p : reader A) (Q : A -> list byte -> Prop) : Prop :=
  forall s a s', rd_ok s -> (p s = Ret (a, s') <-> exists bs, Step s bs s' /\ Q a bs).

Lemma Step_ok s bs s' : rd_ok s -> Step s bs s' -> rd_ok s'.
Proof.
  intros [Ho Hl] (Hb & Hoff & Hd). split; rewrite Hb; [|done].
  apply (f_equal length) in Hd. rewrite length_app, !length_drop in Hd. lia.
Qed.

Lemma Step_nil s s' : Step s [] s' <-> s' = s.
Proof.
  unfold Step. cbn [length app]. rewrite Nat.add_0_r. split; [|by intros ->].
  intros (Hb & Ho & _). destruct s, s'. cbn in *. congruence.
Qed.

Lemma Step_app s b1 s1 b2 s2 : Step s b1 s1 -> Step s1 b2 s2 -> Step s (b1 ++ b2) s2.
Proof.
  intros (Hb & Ho & Hd) (Hb2 & Ho2 & Hd2). rewrite Hb in *. unfold Step.
  rewrite length_app, Hd, Hd2, app_assoc. split; [done|]. split; [lia|done].
Qed.

Lemma Step_split s b1 b2 s2 :
  Step s (b1 ++ b2) s2 -> exists s1, Step s b1 s1 /\ Step s1 b2 s2.
Proof.
  intros (Hb & Ho & Hd). rewrite length_app in Ho.
  assert (drop (hr_offset s + length b1) (hr_bytes s)
          = b2 ++ drop (hr_offset s2) (hr_bytes s)) as Hd1.
  { rewrite <- drop_drop, Hd, <- app_assoc. by rewrite drop_app_length. }
  exists (mkReader (hr_bytes s) (hr_offset s + length b1)). split; split; cbn [hr_bytes hr_offset].
  - done.
  - rewrite Hd1, app_assoc. done.
  - done.
  - split; [lia|done].
Qed.

Lemma codec_ext {A} (p : reader A) (Q Q' : A -> list byte -> Prop) :
  Codec p Q -> (forall a bs, Q a bs <-> Q' a bs) -> Codec p Q'.
Proof.
  intros Hp HQ s a s' Hs. rewrite (Hp s a s' Hs).
  split; intros (bs & ? & ?); exists bs; (split; [done|]); by apply HQ.
Qed.

Lemma codec_ret {A} (a : A) : Codec (rret a) (fun b bs => b = a /\ bs = []).
Proof.
  intros s b s' _. unfold rret. split.
  - intros [= -> ->]. exists []. rewrite Step_nil. done.
  - intros (bs & HS & -> & ->). apply Step_nil in HS as ->. done.
Qed.

Lemma codec_throw {A} e : Codec (@rthrow A e) (fun _ _ => False).
Proof. intros s b s' _. unfold rthrow. split; [done|]. by intros (?&?&?). Qed.

Lemma codec_bind {A B} (p : reader A) (k : A -> reader B) Q K :
  Codec p Q -> (forall a, Codec (k a) (K a)) ->
  Codec (rbind p k) (fun b bs => exists a b1 b2, Q a b1 /\ K a b b2 /\ bs = b1 ++ b2).
Proof.
  intros Hp Hk s b s' Hs. unfold rbind. split.
  - destruct (p s) as [[a s1]|e|e] eqn:E; cbn [exec_bind]; [|done|done]. intros Hb.
    apply (Hp _ _ _ Hs) in E as (b1 & HS1 & HQ).
    apply (Hk a) in Hb as (b2 & HS2 & HK); [|by eapply Step_ok].
    exists (b1 ++ b2). split; [by eapply Step_app|]. by exists a, b1, b2.
  - intros (bs & HS & a & b1 & b2 & HQ & HK & ->). apply Step_split in HS as (s1 & HS1 & HS2).
    rewrite (proj2 (Hp s a s1 Hs)) by (by exists b1). cbn [exec_bind].
    apply (Hk a); [by eapply Step_ok|]. by exists b2.
Qed.

Lemma codec_map {A B} (p : reader A) (f : A -> B) Q :
  Codec p Q -> Codec (rbind p (fun a => rret (f a))) (fun b bs => exists a, b = f a /\ Q a bs).
Proof.
  intros Hp. eapply codec_ext; [apply (codec_bind _ _ _ _ Hp (fun a => codec_ret (f a)))|].
  intros b bs. split.
  - intros (a & b1 & b2 & HQ & (-> & ->) & ->). rewrite app_nil_r. by exists a.
  - intros (a & -> & HQ). exists a, bs, []. by rewrite app_nil_r.
Qed.

(** A final step that consumes nothing. *)
Lemma codec_finish {A B} (p : reader A) (k : A -> reader B) Q (R : A -> B -> Prop) :
  Codec p Q -> (forall a, Codec (k a) (fun b bs => R a b /\ bs = [])) ->
  Codec (rbind p k) (fun b bs => exists a, R a b /\ Q a bs).
Proof.
  intros Hp Hk. eapply codec_ext; [apply (codec_bind _ _ _ _ Hp Hk)|].
  intros b bs. split.
  - intros (a & b1 & b2 & HQ & (HR & ->) & ->). rewrite app_nil_r. by exists a.
  - intros (a & HR & HQ). exists a, bs, []. by rewrite app_nil_r.
Qed.

Lemma codec_lift {A} (m : exec FrameError A) : Codec (rlift m) (fun a bs => m = Ret a /\ bs = []).
Proof.
  intros s a s' _. unfold rlift. split.
  - intros (x & -> & [= -> ->])%exec_bind_Ret. exists []. rewrite Step_nil. done.
  - intros (bs & HS & -> & ->). apply Step_nil in HS as ->. done.
Qed.

Lemma codec_take n : Codec (hr_take n) (fun bs bs' => length bs = n /\ bs' = bs).
Proof.
  intros s bs s' [Ho Hl]. unfold hr_take. split.
  - intros H. invert_exec. apply checked_add_Some in H as [-> _].
    case_match eqn:E; [|done]. apply Nat.leb_le in E. injection H0 as <-.
    injection H1 as <- <-. rewrite <- !Nat2N.inj_add, !Nat2N.id in *.
    replace (hr_offset s + n - hr_offset s) with n in * by lia.
    assert (length (take n (drop (hr_offset s) (hr_bytes s))) = n) as Hn.
    { rewrite length_take, length_drop. lia. }
    exists (take n (drop (hr_offset s) (hr_bytes s))).
    split; [|done]. split; [done|]. split; cbn [hr_offset]; [by rewrite Hn|].
    rewrite <- drop_drop, take_drop. done.
  - intros (bs' & (Hb & Hoff & Hd) & Hn & ->).
    assert (hr_offset s + n <= length (hr_bytes s)) as Hle.
    { apply (f_equal length) in Hd. rewrite length_app, !length_drop in Hd. lia. }
    rewrite (proj2 (checked_add_Some _ _ _)) by (split; [done|]; lia).
    cbn [ok_or exec_bind]. rewrite <- Nat2N.inj_add, Nat2N.id.
    replace (hr_offset s + n <=? length (hr_bytes s)) with true by (symmetry; by apply Nat.leb_le).
    cbn [ok_or exec_bind]. replace (hr_offset s + n - hr_offset s) with n by lia.
    rewrite Hd. subst n. rewrite take_app_length. destruct s'. cbn in *. congruence.
Qed.

Lemma codec_array n : Codec (hr_array n) (fun bs bs' => length bs = n /\ bs' = bs).
Proof.
  eapply codec_ext.
  - apply (codec_finish _ _ _ (fun a b => length a = n /\ b = a) (codec_take n)).
    intros a. destruct (Nat.eqb_spec (length a) n).
    + eapply codec_ext; [apply codec_ret|]. cbn. naive_solver.
    + eapply codec_ext; [apply codec_throw|]. cbn. naive_solver.
  - cbn. naive_solver.
Qed.

(** ** Layouts *)

Definition uint (n : nat) (v : N) : Prop := (v < 256 ^ N.of_nat n)%N.

Definition host_ok (h : HostId) : Prop :=
  host_bytes h <> [] /\ length (host_bytes h) <= MAX_HOST_ID_BYTES.
Definition enc_host (h : HostId) : list byte :=
  byte_of (N.of_nat (length (host_bytes h))) :: host_bytes h.
Definition typed_host (h : HostId) : Prop := utf8_valid (host_bytes h) = true.

Definition enc_token (t : OwnershipToken) : list byte :=
  be_bytes 16 (tk_authority_session_id t) ++ be_bytes 8 (tk_ownership_epoch t)
  ++ enc_host (tk_owner_host_id t).
Definition token_ok (t : OwnershipToken) : Prop := host_ok (tk_owner_host_id t).
Definition typed_token (t : OwnershipToken) : Prop :=
  uint 16 (tk_authority_session_id t) /\ uint 8 (tk_ownership_epoch t)
  /\ typed_host (tk_owner_host_id t).

Definition enc_handoff (h : HandoffId) : list byte :=
  be_bytes 16 (hi_authority_session_id h) ++ be_bytes 8 (hi_handoff_epoch h).
Definition typed_handoff (h : HandoffId) : Prop :=
  uint 16 (hi_authority_session_id h) /\ uint 8 (hi_handoff_epoch h).

Definition enc_snapshot (s : SnapshotId) : list byte :=
  be_bytes 16 (si_source_process_session_id s) ++ be_bytes 8 (si_sequence s).
Definition typed_snapshot (s : SnapshotId) : Prop :=
  uint 16 (si_source_process_session_id s) /\ uint 8 (si_sequence s).

Definition enc_envelope (h : HandoffEnvelope) : list byte :=
  enc_handoff (he_handoff_id h) ++ enc_token (he_source_token h)
  ++ be_bytes 16 (he_source_process_session_id h) ++ enc_token (he_target_token h)
  ++ be_bytes 16 (he_target_process_session_id h).
Definition envelope_ok (h : HandoffEnvelope) : Prop :=
  token_ok (he_source_token h) /\ token_ok (he_target_token h).
Definition typed_envelope (h : HandoffEnvelope) : Prop :=
  typed_handoff (he_handoff_id h) /\ typed_token (he_source_token h)
  /\ uint 16 (he_source_process_session_id h) /\ typed_token (he_target_token h)
  /\ uint 16 (he_target_process_session_id h).

Definition enc_generation (g : option NativeGeneration) : list byte :=
  match g with
  | None => be_bytes 1 0 ++ be_bytes 8 0
  | Some v => be_bytes 1 1 ++ be_bytes 8 v
  end.
Definition typed_generation (g : option NativeGeneration) : Prop :=
  match g with None => True | Some v => uint 8 v end.

Definition enc_result (r : OperationResult) : list byte :=
  match r with
  | Completed => be_bytes 1 0 ++ be_bytes 2 0
  | Skipped r => be_bytes 1 1 ++ be_bytes 2 (reason_to_u16 r)
  end.

(** ** Writer operations lay out the same bytes *)

Lemma byte_of_be v : [byte_of v] = be_bytes 1 v.
Proof. cbn [be_bytes]. by rewrite N.pow_0_r, N.div_1_r. Qed.

Lemma hw_host_spec h w : host_ok h -> hw_host h w = Ret (w ++ enc_host h).
Proof.
  intros [Hn Hl]. unfold hw_host, hw_bytes, hw_u8, enc_host.
  rewrite bool_decide_false by done. destruct (Nat.ltb_spec MAX_HOST_ID_BYTES (length (host_bytes h)));
    [lia|]. cbn [orb]. by rewrite <- app_assoc.
Qed.

Lemma hw_host_inv h w w' : hw_host h w = Ret w' -> host_ok h.
Proof.
  unfold hw_host. destruct (_ || _) eqn:E; [done|]. intros _. apply orb_false_iff in E as [E1 E2].
  apply bool_decide_eq_false in E1. apply Nat.ltb_ge in E2. by split.
Qed.

Lemma hw_token_spec t w : token_ok t -> hw_token t w = Ret (w ++ enc_token t).
Proof.
  intros H. unfold hw_token. rewrite hw_host_spec by done.
  unfold hw_u64, hw_u128, hw_bytes, enc_token. by rewrite <- !app_assoc.
Qed.

Lemma hw_token_inv t w w' : hw_token t w = Ret w' -> token_ok t.
Proof. apply hw_host_inv. Qed.

Lemma hw_envelope_spec h w : envelope_ok h -> hw_envelope h w = Ret (w ++ enc_envelope h).
Proof.
  intros [H1 H2]. unfold hw_envelope. rewrite hw_token_spec by done. cbn [exec_bind].
  rewrite hw_token_spec by done. cbn [exec_bind].
  unfold hw_handoff, hw_u64, hw_u128, hw_bytes, enc_envelope, enc_handoff.
  by rewrite <- !app_assoc.
Qed.

Lemma hw_envelope_inv h w w' : hw_envelope h w = Ret w' -> envelope_ok h.
Proof.
  unfold hw_envelope. intros H. invert_exec. split; by eapply hw_token_inv.
Qed.

Lemma hw_handoff_spec h w : hw_handoff h w = w ++ enc_handoff h.
Proof. unfold hw_handoff, hw_u64, hw_u128, hw_bytes, enc_handoff. by rewrite <- app_assoc. Qed.
Lemma hw_snapshot_spec s w : hw_snapshot s w = w ++ enc_snapshot s.
Proof. unfold hw_snapshot, hw_u64, hw_u128, hw_bytes, enc_snapshot. by rewrite <- app_assoc. Qed.
Lemma hw_generation_spec g w : hw_optional_generation g w = w ++ enc_generation g.
Proof.
  unfold hw_optional_generation, hw_u64, hw_bytes, hw_u8, enc_generation.
  destruct g; cbn [default]; rewrite byte_of_be; by rewrite <- app_assoc.
Qed.
Lemma hw_result_spec r w : hw_operation_result r w = w ++ enc_result r.
Proof.
  unfold hw_operation_result, hw_reason, hw_u16, hw_bytes, hw_u8, enc_result.
  destruct r; rewrite byte_of_be; by rewrite <- app_assoc.
Qed.

(** ** Reader methods accept exactly the layouts *)

Lemma codec_uint n : Codec (hr_uint n) (fun v bs => uint n v /\ bs = be_bytes n v).
Proof.
  eapply codec_ext; [apply codec_map, codec_array|]. intros v bs. cbn beta. split.
  - intros (a & -> & <- & ->). split; [apply be_val_bound|]. by rewrite be_bytes_val.
  - intros [Hv ->]. exists (be_bytes n v). rewrite be_val_bytes_small, be_bytes_length by done. done.
Qed.

(** Solve the equivalence between a composed grammar and a layout. *)
Ltac grammar_fwd :=
  repeat match goal with
  | H : exists _, _ |- _ => destruct H as [? H]
  | H : _ /\ _ |- _ => destruct H
  end; subst.
Ltac grammar_bwd :=
  repeat match goal with
  | |- exists _, _ => eexists
  | |- _ /\ _ => split
  end;
  (lazymatch goal with |- _ = _ => reflexivity | |- _ => idtac end);
  eassumption.

Create HintDb codec.
#[export] Hint Resolve codec_uint codec_array codec_take : codec.
Ltac codec_chain :=
  repeat first [ apply codec_map; solve [eauto with codec]
               | eapply codec_bind; [solve [eauto with codec]|intros ?] ].

Lemma codec_host : Codec hr_host (fun h bs => typed_host h /\ host_ok h /\ bs = enc_host h).
Proof.
  eapply codec_ext.
  - apply (codec_bind _ _ _ (fun len h bs =>
      len <> 0%N /\ bs = host_bytes h /\ N.of_nat (length bs) = len /\ typed_host h) (codec_uint 1)).
    intros len. destruct (N.eqb_spec len 0) as [->|Hne].
    { eapply codec_ext; [apply codec_throw|]. naive_solver. }
    eapply codec_ext.
    + apply (codec_finish _ _ _ (fun v h => host_bytes h = v /\ typed_host h)
               (codec_take (N.to_nat len))). intros v. destruct (utf8_valid v) eqn:Hv.
      * eapply codec_ext; [apply codec_ret|]. intros h bs. split.
        -- intros [-> ->]. unfold typed_host, host_bytes.
           rewrite String.list_byte_of_string_of_list_byte. done.
        -- intros [[<- _] ->]. unfold host_bytes.
           by rewrite String.string_of_list_byte_of_string.
      * eapply codec_ext; [apply codec_throw|]. unfold typed_host. cbn beta. intros h bs.
        split; [done|]. intros [[<- Ht] _]. congruence.
    + intros h bs. cbn beta. split.
      * intros (v & [<- Ht] & Hn & ->). repeat split; [done|lia|done].
      * intros (_ & -> & Hl & Ht). exists (host_bytes h). repeat split; [done|lia].
  - intros h bs. unfold host_ok, enc_host, MAX_HOST_ID_BYTES. split.
    + intros (len & b1 & b2 & [Hu ->] & (Hne & -> & Hl & Ht) & ->).
      unfold uint in Hu. cbn in Hu. split; [done|]. split.
      * split; [|lia]. intros E. rewrite E in Hl. cbn in Hl. by rewrite <- Hl in Hne.
      * rewrite <- Hl, <- byte_of_be. done.
    + intros (Ht & [Hne Hl] & ->).
      exists (N.of_nat (length (host_bytes h))), [byte_of (N.of_nat (length (host_bytes h)))],
        (host_bytes h). rewrite byte_of_be. unfold uint.
      assert (length (host_bytes h) <> 0) by (by destruct (host_bytes h)).
      split; [split; [change (256 ^ N.of_nat 1)%N with 256%N; lia|done]|]. split; [|by rewrite <- byte_of_be]. repeat split; try done; lia.
Qed.
#[export] Hint Resolve codec_host : codec.

Lemma codec_token : Codec hr_token (fun t bs => (typed_token t /\ token_ok t) /\ bs = enc_token t).
Proof.
  eapply codec_ext; [unfold hr_token, hr_u128, hr_u64; codec_chain|]. cbn beta.
  intros t bs. unfold typed_token, token_ok, enc_token. split.
  - intros H. grammar_fwd. cbn. done.
  - destruct t; cbn. intros H. grammar_fwd. grammar_bwd.
Qed.
#[export] Hint Resolve codec_token : codec.

Lemma codec_handoff : Codec hr_handoff (fun h bs => typed_handoff h /\ bs = enc_handoff h).
Proof.
  eapply codec_ext; [unfold hr_handoff, hr_u128, hr_u64; codec_chain|]. cbn beta.
  intros t bs. unfold typed_handoff, enc_handoff. split.
  - intros H. grammar_fwd. cbn. done.
  - destruct t; cbn. intros H. grammar_fwd. grammar_bwd.
Qed.

Lemma codec_snapshot : Codec hr_snapshot (fun h bs => typed_snapshot h /\ bs = enc_snapshot h).
Proof.
  eapply codec_ext; [unfold hr_snapshot, hr_u128, hr_u64; codec_chain|]. cbn beta.
  intros t bs. unfold typed_snapshot, enc_snapshot. split.
  - intros H. grammar_fwd. cbn. done.
  - destruct t; cbn. intros H. grammar_fwd. grammar_bwd.
Qed.
#[export] Hint Resolve codec_handoff codec_snapshot : codec.

Lemma codec_envelope :
  Codec hr_envelope (fun h bs => (typed_envelope h /\ envelope_ok h) /\ bs = enc_envelope h).
Proof.
  eapply codec_ext; [unfold hr_envelope, hr_u128; codec_chain|]. cbn beta.
  intros t bs. unfold typed_envelope, envelope_ok, enc_envelope. split.
  - intros H. grammar_fwd. cbn. done.
  - destruct t as [i st sp tt tp]; cbn [he_handoff_id he_source_token he_source_process_session_id
      he_target_token he_target_process_session_id]. intros H. grammar_fwd. grammar_bwd.
Qed.
#[export] Hint Resolve codec_envelope : codec.

(** A reader that only inspects values already read. *)
Ltac codec_cases :=
  first [ eapply codec_ext; [apply codec_ret|] | eapply codec_ext; [apply codec_throw|] ];
  cbn beta; naive_solver lia.

Lemma codec_generation : Codec hr_optional_generation
  (fun g bs => typed_generation g /\ bs = enc_generation g).
Proof.
  eapply codec_ext.
  - unfold hr_optional_generation, hr_u8, hr_u64. eapply codec_bind; [eauto with codec|].
    intros present. apply (codec_finish _ _ _ (fun value g =>
      present = 0%N /\ value = 0%N /\ g = None \/ present = 1%N /\ g = Some value) (codec_uint 8)).
    intros value. destruct present as [|[|?|]]; try codec_cases.
    destruct (N.eqb_spec value 0); codec_cases.
  - intros g bs. cbn beta. split.
    + intros (p & b1 & b2 & [_ ->] & (v & [(-> & -> & ->)|(-> & ->)] & Hv & ->) & ->); done.
    + destruct g as [v|]; intros [Hv ->].
      * exists 1%N, (be_bytes 1 1), (be_bytes 8 v). split; [done|]. split; [|done].
        exists v. auto.
      * exists 0%N, (be_bytes 1 0), (be_bytes 8 0). split; [done|]. split; [|done].
        exists 0%N. naive_solver.
Qed.

Lemma reason_wire r : reason_from_u16 (reason_to_u16 r) = Ret r.
Proof. by destruct r. Qed.

Lemma reason_wire_inv n r : reason_from_u16 n = Ret r -> n = reason_to_u16 r.
Proof.
  unfold reason_from_u16. intros H. repeat case_match; try discriminate H;
    injection H as <-; reflexivity.
Qed.

Lemma reason_uint r : uint 2 (reason_to_u16 r).
Proof. by destruct r. Qed.

Lemma codec_reason : Codec hr_reason (fun r bs => bs = be_bytes 2 (reason_to_u16 r)).
Proof.
  eapply codec_ext; [eapply codec_finish; [apply codec_uint|intros; apply codec_lift]|].
  intros r bs. cbn beta. split.
  - intros (n & Hn%reason_wire_inv & _ & ->). by subst.
  - intros ->. exists (reason_to_u16 r). split; [apply reason_wire|]. split; [apply reason_uint|done].
Qed.

Lemma codec_result : Codec hr_operation_result (fun r bs => bs = enc_result r).
Proof.
  eapply codec_ext.
  - unfold hr_operation_result, hr_u8, hr_u16. eapply codec_bind; [eauto with codec|].
    intros status. apply (codec_finish _ _ _ (fun reason r =>
      status = 0%N /\ reason = 0%N /\ r = Completed
      \/ status = 1%N /\ exists x, reason = reason_to_u16 x /\ r = Skipped x) (codec_uint 2)).
    intros reason. destruct status as [|[|?|]]; try codec_cases.
    + destruct reason; codec_cases.
    + eapply codec_ext; [apply codec_map, codec_lift|]. cbn beta. intros r bs. split.
      * intros (x & -> & Hx%reason_wire_inv & ->). naive_solver.
      * intros [[(?&?)|(_ & x & -> & ->)] ->]; [done|]. exists x. by rewrite reason_wire.
  - intros r bs. cbn beta. split.
    + intros (p & b1 & b2 & [_ ->] & (v & [(-> & -> & ->)|(-> & x & -> & ->)] & Hv & ->) & ->); done.
    + destruct r as [|x]; intros ->.
      * exists 0%N, (be_bytes 1 0), (be_bytes 2 0). split; [done|]. split; [|done].
        exists 0%N. naive_solver.
      * exists 1%N, (be_bytes 1 1), (be_bytes 2 (reason_to_u16 x)). split; [done|]. split; [|done].
        exists (reason_to_u16 x). pose proof (reason_uint x). naive_solver.
Qed.
#[export] Hint Resolve codec_generation codec_reason codec_result : codec.

(** ** Headers *)

Definition of_type (t : MessageType) (p : ParsedHeader) : Prop :=
  match t, p with
  | MTClipboardHello, PHello _ | MTAuthorityState, PAuthority _
  | MTPrepareTarget, PEnvelope _ | MTOwnershipActivated, PEnvelope _
  | MTPrepareResult, PPrepareResult _
  | MTSnapshotOffer, PSnapshot _ _ _ _ | MTSnapshotDeliver, PSnapshot _ _ _ _
  | MTApplyResult, PApplyResult _ | MTCancelHandoff, PHandoff _ | MTProtocolError, PReason _ => True
  | _, _ => False
  end.

Definition kind_code (k : ClipboardKind) : N := match k with KText => 1 | KEmpty => 2 end.

Definition enc_active (o : option HandoffEnvelope) : list byte :=
  match o with None => be_bytes 1 0 | Some h => be_bytes 1 1 ++ enc_envelope h end.

Definition enc_header (p : ParsedHeader) : list byte :=
  match p with
  | PHello h => enc_host (ch_host_id h) ++ be_bytes 16 (ch_process_session_id h)
                ++ be_bytes 8 (ch_offered_capabilities h) ++ be_bytes 8 (ch_max_receive_bytes h)
  | PAuthority s => be_bytes 16 (as_authority_process_session_id s)
                    ++ enc_token (as_current_token s) ++ enc_active (as_active_handoff s)
  | PEnvelope h => enc_envelope h
  | PPrepareResult r => enc_handoff (pr_handoff_id r) ++ enc_token (pr_target_token r)
                        ++ be_bytes 16 (pr_target_process_session_id r)
                        ++ enc_generation (pr_baseline_generation r) ++ enc_result (pr_result r)
  | PSnapshot h s k digest => enc_envelope h ++ enc_snapshot s ++ be_bytes 1 (kind_code k) ++ digest
  | PApplyResult r => enc_handoff (ar_handoff_id r) ++ enc_token (ar_target_token r)
                      ++ be_bytes 16 (ar_target_process_session_id r)
                      ++ enc_snapshot (ar_snapshot_id r)
                      ++ enc_generation (ar_post_write_generation r) ++ enc_result (ar_result r)
  | PHandoff h => enc_handoff h
  | PReason r => be_bytes 2 (reason_to_u16 r)
  end.

(** What the Rust types of the fields guarantee. *)
Definition typed_active (o : option HandoffEnvelope) : Prop :=
  match o with None => True | Some h => typed_envelope h end.
Definition typed_header (p : ParsedHeader) : Prop :=
  match p with
  | PHello h => typed_host (ch_host_id h) /\ uint 16 (ch_process_session_id h)
                /\ uint 8 (ch_offered_capabilities h) /\ uint 8 (ch_max_receive_bytes h)
  | PAuthority s => uint 16 (as_authority_process_session_id s)
                    /\ typed_token (as_current_token s) /\ typed_active (as_active_handoff s)
  | PEnvelope h => typed_envelope h
  | PPrepareResult r => typed_handoff (pr_handoff_id r) /\ typed_token (pr_target_token r)
                        /\ uint 16 (pr_target_process_session_id r)
                        /\ typed_generation (pr_baseline_generation r)
  | PSnapshot h s _ digest => typed_envelope h /\ typed_snapshot s /\ length digest = 32
  | PApplyResult r => typed_handoff (ar_handoff_id r) /\ typed_token (ar_target_token r)
                      /\ uint 16 (ar_target_process_session_id r)
                      /\ typed_snapshot (ar_snapshot_id r)
                      /\ typed_generation (ar_post_write_generation r)
  | PHandoff h => typed_handoff h
  | PReason _ => True
  end.

(** The host names that have a representation: 1 to 255 bytes. *)
Definition active_ok (o : option HandoffEnvelope) : Prop :=
  match o with None => True | Some h => envelope_ok h end.
Definition header_ok (p : ParsedHeader) : Prop :=
  match p with
  | PHello h => host_ok (ch_host_id h)
  | PAuthority s => token_ok (as_current_token s) /\ active_ok (as_active_handoff s)
  | PEnvelope h => envelope_ok h
  | PPrepareResult r => token_ok (pr_target_token r)
  | PSnapshot h _ _ _ => envelope_ok h
  | PApplyResult r => token_ok (ar_target_token r)
  | PHandoff _ | PReason _ => True
  end.

Lemma codec_active present :
  Codec (match present with
         | 0%N => rret None
         | 1%N => h <-- hr_envelope ;; rret (Some h)
         | _ => rthrow FInvalidField
         end)
    (fun o bs => (typed_active o /\ active_ok o)
                 /\ (present = 0%N /\ o = None /\ bs = []
                     \/ present = 1%N /\ exists h, o = Some h /\ bs = enc_envelope h)).
Proof.
  destruct present as [|[|?|]]; try codec_cases.
  eapply codec_ext; [apply codec_map; eauto with codec|]. intros o bs. cbn beta. split.
  - intros (h & -> & Ht & ->). cbn. naive_solver.
  - intros [Ht [(?&_)|(_ & h & -> & ->)]]; [done|]. exists h. done.
Qed.

Lemma codec_kind code :
  Codec (match code with
         | 1%N => rret KText
         | 2%N => rret KEmpty
         | _ => rthrow FInvalidField
         end) (fun k bs => kind_code k = code /\ bs = []).
Proof.
  destruct code as [|[|[]|]];
    first [ eapply codec_ext; [apply codec_ret|] | eapply codec_ext; [apply codec_throw|] ];
    cbn beta; intros k bs; destruct k; cbn; naive_solver.
Qed.

Section header_codec.
Let accepted t p bs : Prop := of_type t p /\ (typed_header p /\ header_ok p) /\ bs = enc_header p.

Ltac header_cbn_goal :=
  cbn [of_type typed_header header_ok enc_header ch_host_id ch_process_session_id
         ch_offered_capabilities ch_max_receive_bytes pr_handoff_id pr_target_token
         pr_target_process_session_id pr_baseline_generation pr_result ar_handoff_id
         ar_target_token ar_target_process_session_id ar_snapshot_id ar_post_write_generation
         ar_result as_authority_process_session_id as_current_token as_active_handoff].
Ltac header_facts :=
  header_cbn_goal; repeat match goal with |- _ /\ _ => split end;
  first [assumption|reflexivity|exact I].

(** Chain the readers of a header and compare with its layout. *)
Ltac header_simple :=
  eapply codec_ext; [cbn [header_reader]; unfold hr_u128, hr_u64, hr_u8; codec_chain|];
  cbn beta; intros p bs; split;
  [ intros H; grammar_fwd; unfold accepted; header_facts
  | intros (Hof & [Ht Hok] & ->); destruct p as [[]|[]|[]|[]|? ? ? ?|[]|[]|]; try destruct Hof;
    cbn [typed_header header_ok enc_header ch_host_id ch_process_session_id
         ch_offered_capabilities ch_max_receive_bytes pr_handoff_id pr_target_token
         pr_target_process_session_id pr_baseline_generation pr_result ar_handoff_id
         ar_target_token ar_target_process_session_id ar_snapshot_id ar_post_write_generation
         ar_result] in *;
    grammar_fwd; grammar_bwd ].

Lemma codec_hello : Codec (header_reader MTClipboardHello) (accepted MTClipboardHello).
Proof. header_simple. Qed.
Lemma codec_prepare_target : Codec (header_reader MTPrepareTarget) (accepted MTPrepareTarget).
Proof. header_simple. Qed.
Lemma codec_ownership_activated :
  Codec (header_reader MTOwnershipActivated) (accepted MTOwnershipActivated).
Proof. header_simple. Qed.
Lemma codec_prepare_result : Codec (header_reader MTPrepareResult) (accepted MTPrepareResult).
Proof. header_simple. Qed.
Lemma codec_apply_result : Codec (header_reader MTApplyResult) (accepted MTApplyResult).
Proof. header_simple. Qed.
Lemma codec_cancel : Codec (header_reader MTCancelHandoff) (accepted MTCancelHandoff).
Proof. header_simple. Qed.
Lemma codec_protocol_error : Codec (header_reader MTProtocolError) (accepted MTProtocolError).
Proof.
  eapply codec_ext; [apply codec_map, codec_reason|]. cbn beta. intros p bs. split.
  - intros (r & -> & ->). done.
  - intros (Hof & _ & ->). destruct p; try destruct Hof. eauto.
Qed.

Lemma codec_authority : Codec (header_reader MTAuthorityState) (accepted MTAuthorityState).
Proof.
  eapply codec_ext.
  - cbn [header_reader]. unfold hr_u128, hr_u8.
    do 3 (eapply codec_bind; [solve [eauto with codec]|intros ?]).
    apply codec_map, codec_active.
  - cbn beta. intros p bs. split.
    + intros H. grammar_fwd. unfold accepted. header_cbn_goal.
      split; [done|]. split; [tauto|].
      match goal with H : _ \/ _ |- _ => destruct H as [(-> & -> & ->)|(-> & h & -> & ->)] end;
        [by rewrite app_nil_r|done].
    + intros (Hof & [Ht Hok] & ->). destruct p as [|[session token active]| | | | | |];
        try destruct Hof.
      cbn [typed_header header_ok enc_header as_authority_process_session_id as_current_token
           as_active_handoff] in *. grammar_fwd.
      exists session, (be_bytes 16 session), (enc_token token ++ enc_active active).
      split; [done|]. split; [|done].
      exists token, (enc_token token), (enc_active active). split; [done|]. split; [|done].
      destruct active as [h|]; cbn [enc_active].
      * exists 1%N, (be_bytes 1 1), (enc_envelope h). split; [done|]. split; [|done].
        exists (Some h). split; [done|]. split; [done|]. right. eauto.
      * exists 0%N, (be_bytes 1 0), []. split; [done|]. split; [|done].
        exists None. split; [done|]. split; [done|]. left. done.
Qed.

Lemma codec_snapshot_header t : carries_payload t = true ->
  Codec (header_reader t) (accepted t).
Proof.
  intros Hc.
  assert (Codec (header_reader MTSnapshotOffer) (fun p bs =>
            exists h s k d, p = PSnapshot h s k d /\ (typed_header p /\ header_ok p)
                            /\ bs = enc_header p)) as H.
  { eapply codec_ext.
    - cbn [header_reader]. unfold hr_u8.
      do 3 (eapply codec_bind; [solve [eauto with codec]|intros ?]).
      eapply codec_bind; [apply codec_kind|intros ?]. apply codec_map, codec_array.
    - cbn beta. intros p bs. split.
      + intros H. grammar_fwd. do 4 eexists. split; [reflexivity|]. header_facts.
      + intros (h & s & k & d & -> & [Ht Hok] & ->). cbn [typed_header header_ok enc_header] in *.
        grammar_fwd. exists h, (enc_envelope h), (enc_snapshot s ++ be_bytes 1 (kind_code k) ++ d).
        split; [done|]. split; [|done].
        exists s, (enc_snapshot s), (be_bytes 1 (kind_code k) ++ d).
        split; [done|]. split; [|done].
        exists (kind_code k), (be_bytes 1 (kind_code k)), d. split; [by destruct k|].
        split; [|done]. exists k, [], d. repeat (split; [done|]). split; [|done]. eauto. }
  destruct t; try discriminate Hc;
    (eapply codec_ext; [exact H|]); intros p bs; cbn beta; (split;
      [ intros (h & s & k & d & -> & Ht & ->); done
      | intros (Hof & Ht & ->); destruct p; try destruct Hof; eauto 8 ]).
Qed.

Lemma codec_header t : Codec (header_reader t) (accepted t).
Proof.
  destruct t; eauto using codec_hello, codec_authority, codec_prepare_target,
    codec_prepare_result, codec_ownership_activated, codec_snapshot_header, codec_apply_result,
    codec_cancel, codec_protocol_error.
Qed.
End header_codec.

(** [parse_header] accepts exactly the layouts of headers of its type. *)
Lemma parse_header_exact t header p :
  (N.of_nat (length header) <= u64_max)%N ->
  parse_header t header = Ret p
  <-> of_type t p /\ (typed_header p /\ header_ok p) /\ header = enc_header p.
Proof.
  intros Hl. unfold parse_header. set (s := mkReader header 0).
  assert (rd_ok s) as Hs by (split; [cbn; lia|done]). split.
  - intros ([q s'] & Hq & HF)%exec_bind_Ret.
    apply (codec_header t s q s' Hs) in Hq as (bs & (Hb & Ho & Hd) & HA).
    unfold is_finished in HF. destruct (Nat.eqb_spec (hr_offset s') (length (hr_bytes s')));
      [|done]. injection HF as ->. cbn in Hb, Ho, Hd. rewrite drop_0, Hb in *.
    rewrite e, drop_all, app_nil_r in Hd. by subst bs.
  - intros HA.
    rewrite (proj2 (codec_header t s p (mkReader header (length header)) Hs)).
    + cbn [exec_bind]. unfold is_finished. cbn. by rewrite Nat.eqb_refl.
    + exists header. split; [|done]. split; [done|]. split; [done|]. cbn.
      by rewrite drop_0, drop_all, app_nil_r.
Qed.
