(* ===== verification/ClipFrameTheorems.v ===== *)
(** * Theorems about clipboard frames

    Encoding succeeds exactly on the messages that have a representation; what
    is written can be read back, and the only frames the decoder accepts are
    the ones the encoder writes; a frame that is refused before its payload is
    never read past its header. *)

From stdpp Require Import base tactics list gmap strings.
From Stdlib Require Import NArith Lia Strings.Byte.
From S2P Require Import Prelude Bytes ClipTypes ClipFrame ClipFrameCodec.

(** ** Prefixes *)

Lemma message_type_wire t : message_type_try_from (message_type_to_u16 t) = Ret t.
Proof. by destruct t. Qed.

Lemma message_type_wire_inv n t : message_type_try_from n = Ret t -> n = message_type_to_u16 t.
Proof.
  unfold message_type_try_from. intros H.
  repeat case_match; try discriminate H; injection H as <-; reflexivity.
Qed.

Lemma message_type_uint t : uint 2 (message_type_to_u16 t).
Proof. by destruct t. Qed.

Lemma encode_prefix_length t hl pl : length (encode_prefix t hl pl) = PREFIX_BYTES.
Proof. unfold encode_prefix. rewrite !length_app, !be_bytes_length. reflexivity. Qed.

(** Cutting a list at known positions. *)
Lemma slice_whole n (a : list byte) : length a = n -> slice 0 n a = a.
Proof. intros <-. unfold slice. by rewrite Nat.sub_0_r, drop_0, firstn_all. Qed.
Lemma slice_split lo mid hi (a : list byte) :
  lo <= mid -> mid <= hi -> slice lo hi a = slice lo mid a ++ slice mid hi a.
Proof.
  intros H1 H2. unfold slice. replace (hi - lo) with ((mid - lo) + (hi - mid)) by lia.
  rewrite <- take_take_drop, drop_drop. do 3 f_equal. lia.
Qed.
Lemma slice_length lo hi (a : list byte) : hi <= length a -> length (slice lo hi a) = hi - lo.
Proof. intros H. unfold slice. rewrite length_take, length_drop. lia. Qed.

(** The fields of a prefix, by position. *)
Lemma encode_prefix_fields t hl pl :
  let p := encode_prefix t hl pl in
  slice 0 4 p = MAGIC /\ slice 4 6 p = be_bytes 2 FRAME_PROTOCOL_VERSION
  /\ slice 6 8 p = be_bytes 2 (message_type_to_u16 t) /\ slice 8 12 p = be_bytes 4 KNOWN_FLAGS
  /\ slice 12 16 p = be_bytes 4 (N.of_nat hl) /\ slice 16 24 p = be_bytes 8 (N.of_nat pl).
Proof.
  unfold encode_prefix. repeat split.
Qed.

Lemma prefix_of_fields p : length p = PREFIX_BYTES ->
  p = slice 0 4 p ++ slice 4 6 p ++ slice 6 8 p ++ slice 8 12 p ++ slice 12 16 p ++ slice 16 24 p.
Proof.
  intros Hl. unfold PREFIX_BYTES in Hl. rewrite <- (slice_split 12 16 24), <- (slice_split 8 12 24),
    <- (slice_split 6 8 24), <- (slice_split 4 6 24), <- (slice_split 0 4 24) by lia.
  by rewrite slice_whole.
Qed.

Lemma checked_payload_exact declared max platform n :
  checked_payload_length declared max platform = Ret n
  <-> N.of_nat n = declared /\ (declared <= max)%N /\ (declared <= platform)%N
      /\ (declared <= usize_max)%N.
Proof.
  unfold checked_payload_length. split.
  - intros H. invert_exec. destruct (N.ltb_spec usize_max declared); [done|]. invert_exec.
    apply N.ltb_ge in H, H0. rewrite N2Nat.id. done.
  - intros (<- & H1 & H2 & H3).
    rewrite (proj2 (N.ltb_ge _ _) H1), (proj2 (N.ltb_ge _ _) H2), (proj2 (N.ltb_ge _ _) H3).
    cbn. by rewrite Nat2N.id.
Qed.

(** The prefix decoder accepts exactly the prefixes the encoder writes, with
    the lengths in bounds. *)
Lemma decode_prefix_exact prefix max t hl pl : length prefix = PREFIX_BYTES ->
  decode_prefix prefix max = Ret (mkDecodedPrefix t hl pl)
  <-> prefix = encode_prefix t hl pl /\ hl <= MAX_HEADER_BYTES
      /\ (N.of_nat pl <= max)%N /\ (N.of_nat pl <= usize_max)%N.
Proof.
  intros Hlen. split.
  - intros H. unfold decode_prefix in H. invert_exec.
    repeat match goal with H : negb _ = false |- _ => apply negb_false_iff in H end.
    match goal with H : bool_decide _ = true |- _ => apply bool_decide_eq_true in H as Hm end.
    match goal with H : (_ =? FRAME_PROTOCOL_VERSION)%N = true |- _ => apply N.eqb_eq in H as Hv end.
    match goal with H : (_ =? KNOWN_FLAGS)%N = true |- _ => apply N.eqb_eq in H as Hf end.
    match goal with H : (_ <? _)%N = false |- _ => apply N.ltb_ge in H as Hh end.
    match goal with H : message_type_try_from _ = Ret _ |- _ =>
      apply message_type_wire_inv in H as Ht end.
    match goal with H : checked_payload_length _ _ _ = Ret _ |- _ =>
      apply checked_payload_exact in H as (Hp & Hp1 & Hp2 & _) end.
    match goal with H : mkDecodedPrefix _ _ _ = _ |- _ => injection H as <- <- <- end.
    rewrite Hp. repeat split; [|lia|done|done]. unfold encode_prefix.
    rewrite N2Nat.id, Hp, <- Hv, <- Hf, <- Ht, <- Hm.
    rewrite !be_bytes_val_len by (unfold PREFIX_BYTES in Hlen; rewrite slice_length; lia).
    by apply prefix_of_fields.
  - intros (-> & Hh & Hp1 & Hp2). unfold decode_prefix.
    destruct (encode_prefix_fields t hl pl) as (-> & -> & -> & -> & -> & ->).
    unfold MAX_HEADER_BYTES, MAX_TOKEN_BYTES, ENVELOPE_FIXED_BYTES, TOKEN_FIXED_BYTES,
      HANDOFF_BYTES, MAX_TOKEN_BYTES, MAX_HOST_ID_BYTES in *.
    rewrite bool_decide_true by done. rewrite !be_val_bytes_small; try done.
    + cbn [guard_not negb exec_bind]. rewrite !N.eqb_refl. cbn [guard_not negb exec_bind].
      rewrite message_type_wire. cbn [exec_bind].
      match goal with |- context [(?a <? ?b)%N] => replace (a <? b)%N with false end.
      2: { symmetry. apply N.ltb_ge. lia. }
      cbn [guard_not negb exec_bind].
      rewrite (proj2 (checked_payload_exact _ _ _ pl)) by done. cbn [exec_bind].
      by rewrite Nat2N.id.
    + unfold usize_max, u64_max in Hp2. change (256 ^ N.of_nat 8)%N with (2 ^ 64)%N. lia.
    + change (256 ^ N.of_nat 4)%N with (2 ^ 32)%N. cbn in Hh. lia.
    + apply message_type_uint.
Qed.

(** ** Messages and their parts *)

Section messages.
Variable sha256 : list byte -> list byte.

Definition data_bytes (d : ClipboardData) : list byte :=
  match d with Text bytes => bytes | _ => [] end.
Definition data_kind_of (d : ClipboardData) : ClipboardKind :=
  match d with Text _ => KText | _ => KEmpty end.

Definition snapshot_header (p : ClipboardPayload) : ParsedHeader :=
  PSnapshot (cp_handoff p) (cp_snapshot_id p) (data_kind_of (cp_data p))
    (sha256 (data_bytes (cp_data p))).

(** The header of a message, with the digest of its payload. *)
Definition header_of (m : WireMessage) : ParsedHeader :=
  match m with
  | WClipboardHello h => PHello h
  | WAuthorityState s => PAuthority s
  | WPrepareTarget h | WOwnershipActivated h => PEnvelope h
  | WPrepareResult r => PPrepareResult r
  | WSnapshotOffer p | WSnapshotDeliver p => snapshot_header p
  | WApplyResult r => PApplyResult r
  | WCancelHandoff h => PHandoff h
  | WProtocolError r => PReason r
  end.

Definition payload_of (m : WireMessage) : option (list byte) :=
  match m with
  | WSnapshotOffer p | WSnapshotDeliver p => Some (data_bytes (cp_data p))
  | _ => None
  end.

Definition frame_of (m : WireMessage) : EncodedFrame :=
  mkFrame (encode_prefix (message_type m) (length (enc_header (header_of m)))
             (opt_len (payload_of m)))
    (enc_header (header_of m)) (payload_of m).

(** Clipboard contents that can be sent: valid text or an explicit empty. *)
Definition sendable (d : ClipboardData) : Prop :=
  match d with Text bytes => utf8_valid bytes = true | Empty => True | DataUnavailable _ => False end.
Definition message_data_ok (m : WireMessage) : Prop :=
  match m with WSnapshotOffer p | WSnapshotDeliver p => sendable (cp_data p) | _ => True end.

Definition payload_len (m : WireMessage) : N := N.of_nat (opt_len (payload_of m)).

(** The messages that have a frame within the payload limit. *)
Definition encodable (m : WireMessage) (max : N) : Prop :=
  header_ok (header_of m) /\ message_data_ok m /\ (payload_len m <= max)%N.

Hypothesis sha256_length : forall bs, length (sha256 bs) = 32.

(** ** Header sizes *)

Lemma enc_host_le h : host_ok h -> length (enc_host h) <= 256.
Proof. intros [_ H]. unfold enc_host, MAX_HOST_ID_BYTES in *. cbn [length]. lia. Qed.
Lemma enc_token_le t : token_ok t -> length (enc_token t) <= 280.
Proof.
  intros H%enc_host_le. unfold enc_token. rewrite !length_app, !be_bytes_length. lia.
Qed.
Lemma enc_handoff_len h : length (enc_handoff h) = 24.
Proof. unfold enc_handoff. by rewrite length_app, !be_bytes_length. Qed.
Lemma enc_snapshot_len s : length (enc_snapshot s) = 24.
Proof. unfold enc_snapshot. by rewrite length_app, !be_bytes_length. Qed.
Lemma enc_envelope_le h : envelope_ok h -> length (enc_envelope h) <= 616.
Proof.
  intros [H1%enc_token_le H2%enc_token_le]. unfold enc_envelope.
  rewrite !length_app, !be_bytes_length, enc_handoff_len. lia.
Qed.
Lemma enc_generation_len g : length (enc_generation g) = 9.
Proof. destruct g; unfold enc_generation; by rewrite length_app, !be_bytes_length. Qed.
Lemma enc_result_len r : length (enc_result r) = 3.
Proof. destruct r; unfold enc_result; by rewrite length_app, !be_bytes_length. Qed.

Lemma enc_header_le m : header_ok (header_of m) -> length (enc_header (header_of m)) <= MAX_HEADER_BYTES.
Proof.
  change MAX_HEADER_BYTES with 913.
  destruct m as [h|s|h|r|h|p|p|r|h|r]; cbn [header_of]; unfold snapshot_header;
    cbn [header_ok enc_header]; intros H; rewrite ?length_app, ?be_bytes_length,
    ?enc_handoff_len, ?enc_snapshot_len, ?enc_generation_len, ?enc_result_len, ?sha256_length;
    try (pose proof (enc_envelope_le _ H)); try (pose proof (enc_token_le _ H));
    try (pose proof (enc_host_le _ H)); try lia.
  destruct H as [H%enc_token_le Ha]. unfold enc_active.
  destruct (as_active_handoff s) as [e|]; [apply enc_envelope_le in Ha|];
    rewrite ?length_app, ?be_bytes_length; lia.
Qed.

(** ** Encoding *)

Lemma hw_u128_eq v w : hw_u128 v w = w ++ be_bytes 16 v. Proof. done. Qed.
Lemma hw_u64_eq v w : hw_u64 v w = w ++ be_bytes 8 v. Proof. done. Qed.
Lemma hw_u8_eq v w : hw_u8 v w = w ++ be_bytes 1 v.
Proof. unfold hw_u8. by rewrite byte_of_be. Qed.

Ltac encode_norm :=
  rewrite ?hw_handoff_spec, ?hw_snapshot_spec, ?hw_generation_spec, ?hw_result_spec,
    ?hw_u128_eq, ?hw_u64_eq, ?hw_u8_eq; unfold hw_bytes; rewrite <- ?app_assoc.

Lemma encode_snapshot_spec p max : envelope_ok (cp_handoff p) -> sendable (cp_data p) ->
  (N.of_nat (length (data_bytes (cp_data p))) <= max)%N ->
  encode_snapshot sha256 p max [] = Ret (enc_header (snapshot_header p), Some (data_bytes (cp_data p))).
Proof.
  intros He Hs Hl. unfold encode_snapshot. rewrite hw_envelope_spec by done. cbn [exec_bind].
  unfold snapshot_header. destruct (cp_data p) as [bytes| |]; [|..|destruct Hs];
    cbn [sendable data_bytes data_kind_of] in *; rewrite ?Hs; cbn [exec_bind];
    rewrite (proj2 (N.ltb_ge _ _) Hl); cbn [guard_not exec_bind]; encode_norm; reflexivity.
Qed.

Lemma encode_body_spec m max : encodable m max ->
  encode_body sha256 m max = Ret (enc_header (header_of m), payload_of m).
Proof.
  intros (Hok & Hd & Hl).
  destruct m as [h|s|h|r|h|p|p|r|h|r]; cbn [header_of header_ok encode_body payload_of] in *;
    try reflexivity; try (by apply encode_snapshot_spec).
  - rewrite hw_host_spec by done. cbn [exec_bind]. encode_norm. reflexivity.
  - destruct Hok as [H1 H2]. rewrite hw_token_spec by done. cbn [exec_bind enc_header].
    destruct (as_active_handoff s) as [e|]; cbn [active_ok enc_active] in *.
    + rewrite hw_envelope_spec by done. cbn [exec_bind]. encode_norm. reflexivity.
    + cbn [exec_bind]. encode_norm. reflexivity.
  - rewrite hw_envelope_spec by done. reflexivity.
  - rewrite hw_token_spec by done. cbn [exec_bind]. encode_norm. reflexivity.
  - rewrite hw_envelope_spec by done. reflexivity.
  - rewrite hw_token_spec by done. cbn [exec_bind]. encode_norm. reflexivity.
Qed.

Lemma encode_body_inv m max r : encode_body sha256 m max = Ret r -> encodable m max.
Proof.
  assert (forall p w r, encode_snapshot sha256 p max w = Ret r ->
    envelope_ok (cp_handoff p) /\ sendable (cp_data p)
    /\ (N.of_nat (length (data_bytes (cp_data p))) <= max)%N) as Hsnap.
  { intros p w r'. unfold encode_snapshot. intros (w1 & He & H)%exec_bind_Ret.
    apply exec_bind_Ret in H as ([w2 bytes] & Hb & H). invert_exec.
    apply N.ltb_ge in H. split; [by eapply hw_envelope_inv|].
    destruct (cp_data p) as [bs| |]; [|injection Hb as <- <-; done|done].
    destruct (utf8_valid bs) eqn:E; [|done]. injection Hb as <- <-. done. }
  unfold encodable. destruct m as [h|s|h|q|h|p|p|q|h|q];
    cbn [encode_body header_of header_ok message_data_ok];
    try (intros H; apply Hsnap in H as (?&?&?); done);
    intros H; invert_exec; (split; [|split; [done|apply N.le_0_l]]);
    eauto using hw_host_inv, hw_token_inv, hw_envelope_inv.
  split; [by eapply hw_token_inv|]. destruct (as_active_handoff s); [|done].
  by eapply hw_envelope_inv.
Qed.

Lemma encode_message_exact m max f :
  encode_message sha256 m max = Ret f <-> encodable m max /\ f = frame_of m.
Proof.
  unfold encode_message. split.
  - intros ([w p] & Hb & H)%exec_bind_Ret. pose proof (encode_body_inv _ _ _ Hb) as He.
    split; [done|]. rewrite (encode_body_spec _ _ He) in Hb. injection Hb as <- <-.
    invert_exec. reflexivity.
  - intros [He ->]. rewrite (encode_body_spec _ _ He). cbn [exec_bind].
    destruct (Nat.ltb_spec MAX_HEADER_BYTES (length (enc_header (header_of m)))); [|done].
    destruct He as [Hok _]. apply enc_header_le in Hok. lia.
Qed.

(** ** Decoding *)

Definition payload_bytes (m : WireMessage) : list byte := default [] (payload_of m).

Lemma finish_message_exact t p payload m :
  finish_message sha256 t p payload = Ret m
  <-> message_type m = t /\ header_of m = p /\ payload_bytes m = payload /\ message_data_ok m.
Proof.
  split.
  - destruct t, p; cbn [finish_message]; intros H; try discriminate H; invert_exec;
      try (match goal with H : require_empty_payload _ = _ |- _ =>
             unfold require_empty_payload in H; destruct (bool_decide_reflect (payload = []));
             [subst payload|discriminate H] end; done).
    all: match goal with H : negb _ = false |- _ =>
           apply negb_false_iff, bool_decide_eq_true in H as <- end.
    all: repeat case_match; try discriminate; norm_bool; invert_exec; simplify_eq; done.
  - destruct m as [h|s|h|r|h|q|q|r|h|r]; intros (<- & <- & <- & Hd); try reflexivity.
    all: destruct q as [h s [bytes| |]]; [|..|destruct Hd];
      cbn [message_type header_of snapshot_header cp_handoff cp_snapshot_id cp_data data_bytes
           data_kind_of payload_bytes payload_of default id finish_message message_data_ok
           sendable] in *;
      unfold payload_bytes; cbn [payload_of default cp_data data_bytes];
      rewrite bool_decide_true by done; cbn [negb guard_not exec_bind]; rewrite ?Hd; reflexivity.
Qed.

Lemma of_type_header m : of_type (message_type m) (header_of m).
Proof. by destruct m. Qed.

(** ** Reading *)

Context {E : Type} (from : FrameError -> E) (validator : FrameMetadata -> exec E unit).

Lemma conn_bind_Ret {A B} (m : Conn -> exec E A * Conn) (k : A -> Conn -> exec E B * Conn) c b c' :
  conn_bind m k c = (Ret b, c') <-> exists a c1, m c = (Ret a, c1) /\ k a c1 = (Ret b, c').
Proof.
  unfold conn_bind. destruct (m c) as [[a|e|e] c1]; split; [eauto|..];
    try (intros (?&?&?&?); simplify_eq; done); done.
Qed.

Lemma conn_lift_Ret {A} (m : exec E A) c a c' : conn_lift m c = (Ret a, c') <-> m = Ret a /\ c' = c.
Proof. unfold conn_lift. naive_solver. Qed.

Lemma map_err_Ret {A} (m : exec FrameError A) a : map_err from m = Ret a <-> m = Ret a.
Proof. destruct m; cbn; naive_solver. Qed.

(** A transfer that completes took exactly its bytes from the stream. *)
Lemma read_exact_before_Ret n c bs c' :
  conn_err from (read_exact_before n) c = (Ret bs, c')
  -> length bs = n /\ cn_incoming c = bs ++ cn_incoming c'.
Proof.
  unfold conn_err, read_exact_before, next_fault, read_exact.
  destruct (cn_faults c) as [|[f|] fs]; cbn [cn_incoming set Conn_eta]; [|done|];
    (destruct (Nat.leb_spec n (length (cn_incoming c))); [|done]); intros [= <- <-];
    cbn; (split; [rewrite length_take; lia|by rewrite take_drop]).
Qed.

Lemma read_exact_until_cancel_Ret n c bs c' :
  conn_err from (read_exact_until_cancel n) c = (Ret bs, c')
  -> length bs = n /\ cn_incoming c = bs ++ cn_incoming c'.
Proof.
  unfold conn_err, read_exact_until_cancel, next_fault, read_exact.
  destruct (cn_faults c) as [|[[[] k]|] fs]; cbn [cn_incoming set Conn_eta]; try done;
    (destruct (Nat.leb_spec n (length (cn_incoming c))); [|done]); intros [= <- <-];
    cbn; (split; [rewrite length_take; lia|by rewrite take_drop]).
Qed.

Lemma read_exact_before_app n bs rest out : length bs = n ->
  conn_err from (read_exact_before n) (mkConn (bs ++ rest) out []) = (Ret bs, mkConn rest out []).
Proof.
  intros <-. unfold conn_err, read_exact_before, next_fault, read_exact. cbn [cn_faults cn_incoming].
  rewrite (proj2 (Nat.leb_le _ _)) by (rewrite length_app; lia).
  unfold set. cbn [map_err cn_incoming cn_outgoing cn_faults].
  by rewrite take_app_length, drop_app_length.
Qed.

(** The parts of a frame that is read to the end. *)
Lemma read_after_prefix_sound max prefix c m c' :
  length prefix = PREFIX_BYTES ->
  read_frame_after_prefix sha256 from validator max prefix c = (Ret m, c') ->
  encodable m max /\ typed_header (header_of m)
  /\ prefix ++ cn_incoming c = to_vec (frame_of m) ++ cn_incoming c'
  /\ validator (frame_metadata (message_type m) (header_of m)) = Ret tt.
Proof.
  intros Hlen H. unfold read_frame_after_prefix in H.
  apply conn_bind_Ret in H as ([t hl pl] & c1 & Hd & H).
  apply conn_lift_Ret in Hd as [Hd%map_err_Ret ->].
  apply decode_prefix_exact in Hd as (-> & Hhl & Hpl & Hpl'); [|done].
  cbn [dp_message_type dp_header_length dp_payload_length] in H.
  apply conn_bind_Ret in H as (header & c1 & Hr & H).
  apply read_exact_before_Ret in Hr as [Hheader Hin].
  apply conn_bind_Ret in H as (p & ? & Hp & H). apply conn_lift_Ret in Hp as [Hp%map_err_Ret ->].
  apply parse_header_exact in Hp as (Hof & [Ht Hok] & Henc);
    [|rewrite Hheader; change MAX_HEADER_BYTES with 913 in Hhl; unfold u64_max; lia].
  apply conn_bind_Ret in H as ([] & ? & Hg & H). apply conn_lift_Ret in Hg as [Hg ->].
  apply conn_bind_Ret in H as ([] & ? & Hv & H). apply conn_lift_Ret in Hv as [Hv ->].
  apply conn_bind_Ret in H as (payload & c2 & Hr & H).
  apply read_exact_before_Ret in Hr as [Hpayload Hin2].
  apply conn_lift_Ret in H as [H%map_err_Ret ->].
  apply finish_message_exact in H as (<- & <- & Hpb & Hdata).
  assert (opt_len (payload_of m) = pl) as Hpl0.
  { subst payload. unfold payload_bytes in Hpayload. destruct (payload_of m); done. }
  split; [|split; [done|split; [|done]]].
  - split; [done|]. split; [done|]. unfold payload_len. by rewrite Hpl0.
  - unfold to_vec, frame_of. cbn [ef_prefix ef_header ef_payload].
    rewrite <- Henc, Hheader, Hpl0, Hin, Hin2, <- Hpb. unfold payload_bytes.
    destruct (payload_of m); cbn; by rewrite <- ?app_assoc, ?app_nil_r.
Qed.

Lemma read_after_prefix_complete max m rest out :
  encodable m max -> typed_header (header_of m) -> (payload_len m <= usize_max)%N ->
  validator (frame_metadata (message_type m) (header_of m)) = Ret tt ->
  read_frame_after_prefix sha256 from validator max (ef_prefix (frame_of m))
    (mkConn (ef_header (frame_of m) ++ payload_bytes m ++ rest) out [])
  = (Ret m, mkConn rest out []).
Proof.
  intros (Hok & Hdata & Hmax) Ht Hus Hv. unfold read_frame_after_prefix, frame_of.
  cbn [ef_prefix ef_header]. pose proof (enc_header_le m Hok) as Hle.
  apply conn_bind_Ret. eexists _, _. split.
  { apply conn_lift_Ret. split; [|reflexivity]. apply map_err_Ret, decode_prefix_exact;
      [apply encode_prefix_length|]. done. }
  cbn [dp_message_type dp_header_length dp_payload_length].
  apply conn_bind_Ret. eexists _, _. split; [by apply read_exact_before_app|].
  apply conn_bind_Ret. eexists _, _. split.
  { apply conn_lift_Ret. split; [|reflexivity]. apply map_err_Ret, parse_header_exact.
    - change MAX_HEADER_BYTES with 913 in Hle. unfold u64_max. lia.
    - split; [apply of_type_header|done]. }
  apply conn_bind_Ret. exists tt. eexists. split.
  { apply conn_lift_Ret. split; [|reflexivity]. apply guard_not_Ret. by destruct m. }
  apply conn_bind_Ret. exists tt. eexists. split; [by apply conn_lift_Ret|].
  apply conn_bind_Ret. eexists _, _. split.
  { apply read_exact_before_app. unfold payload_bytes. by destruct (payload_of m). }
  apply conn_lift_Ret. split; [|done]. by apply map_err_Ret, finish_message_exact.
Qed.

Lemma to_vec_parts m : to_vec (frame_of m)
  = ef_prefix (frame_of m) ++ ef_header (frame_of m) ++ payload_bytes m.
Proof. unfold to_vec, payload_bytes, frame_of. cbn. by destruct (payload_of m). Qed.

Lemma read_validated_complete max m rest out :
  encodable m max -> typed_header (header_of m) -> (payload_len m <= usize_max)%N ->
  validator (frame_metadata (message_type m) (header_of m)) = Ret tt ->
  read_frame_validated sha256 from validator max (mkConn (to_vec (frame_of m) ++ rest) out [])
  = (Ret m, mkConn rest out []).
Proof.
  intros. rewrite to_vec_parts, <- !app_assoc. unfold read_frame_validated.
  apply conn_bind_Ret. eexists _, _.
  split; [apply read_exact_before_app, encode_prefix_length|].
  by apply read_after_prefix_complete.
Qed.

(** ** How far a reader goes into the stream *)

(** An operation on [stream], seen through its result, took at most [n] bytes,
    and took all of them and returned a value in [P] if it succeeded. *)
Definition Reads {A} (stream : list byte) (n : nat) (P : A -> Prop) (r : exec E A * Conn) : Prop :=
  exists k, k <= n /\ k <= length stream /\ cn_incoming (snd r) = drop k stream
    /\ forall a, fst r = Ret a -> k = n /\ P a.

Lemma reads_lift {A} (m : exec E A) (P : A -> Prop) c :
  (forall a, m = Ret a -> P a) -> Reads (cn_incoming c) 0 P (conn_lift m c).
Proof. intros HP. exists 0. rewrite drop_0. split; [done|]. split; [lia|]. auto. Qed.

Lemma reads_bind {A B} n n' total P Q (m : Conn -> exec E A * Conn) (k : A -> Conn -> exec E B * Conn) c :
  n + n' = total ->
  Reads (cn_incoming c) n P (m c) ->
  (forall a c1, P a -> cn_incoming c1 = drop n (cn_incoming c) -> Reads (cn_incoming c1) n' Q (k a c1)) ->
  Reads (cn_incoming c) total Q (conn_bind m k c).
Proof.
  intros <- (i & Hi & Hl & Hin & HP) Hk. unfold conn_bind.
  destruct (m c) as [[a|e|e] c1]; cbn [fst snd] in *;
    [|by exists i; do 3 (split; [done || lia|]).. ].
  destruct (HP a eq_refl) as [-> Ha].
  destruct (Hk a c1 Ha Hin) as (j & Hj & Hjl & Hjn & HQ). rewrite Hin, length_drop in Hjl.
  exists (n + j). split; [lia|]. split; [lia|]. split; [by rewrite Hjn, Hin, drop_drop|].
  intros b Hb. destruct (HQ b Hb) as [-> ?]. done.
Qed.

(** What is returned was there. *)
Lemma reads_room {A} stream n (P : A -> Prop) r :
  Reads stream n P r -> Reads stream n (fun a => P a /\ n <= length stream) r.
Proof.
  intros (k & ? & ? & ? & HP). exists k. do 3 (split; [done|]).
  intros a [-> ?]%HP. done.
Qed.

Lemma reads_exact n c :
  Reads (cn_incoming c) n (fun bs => bs = take n (cn_incoming c)) (conn_err from (read_exact n) c).
Proof.
  unfold conn_err, read_exact. destruct (Nat.leb_spec n (length (cn_incoming c))); cbn.
  - exists n. do 3 (split; [done || lia|]). intros a [= <-]. done.
  - exists (length (cn_incoming c)). split; [lia|]. split; [done|]. by rewrite drop_all.
Qed.

Lemma reads_interrupted {A} n p e c (P : A -> Prop) :
  Reads (cn_incoming c) n P (Throw e, c <| cn_incoming ::= drop (Nat.min n p) |>).
Proof.
  exists (Nat.min (Nat.min n p) (length (cn_incoming c))).
  split; [lia|]. split; [lia|]. split; [cbn|done].
  destruct (Nat.le_gt_cases (Nat.min n p) (length (cn_incoming c))).
  - f_equal. lia.
  - rewrite (Nat.min_r (Nat.min n p)), drop_all by lia. apply drop_ge. lia.
Qed.

Lemma reads_before n c :
  Reads (cn_incoming c) n (fun bs => bs = take n (cn_incoming c)) (conn_err from (read_exact_before n) c).
Proof.
  unfold conn_err at 1, read_exact_before, next_fault.
  destruct (cn_faults c) as [|[f|] fs]; [apply reads_exact| |];
    pose (c1 := c <| cn_faults := fs |>).
  - exact (reads_interrupted n (fl_progress f) (from (fault_error (fl_kind f))) c1 _).
  - exact (reads_exact n c1).
Qed.

Lemma reads_until_cancel n c :
  Reads (cn_incoming c) n (fun bs => bs = take n (cn_incoming c))
    (conn_err from (read_exact_until_cancel n) c).
Proof.
  unfold conn_err at 1, read_exact_until_cancel, next_fault.
  destruct (cn_faults c) as [|[[kind p]|] fs]; [apply reads_exact| |];
    pose (c1 := c <| cn_faults := fs |>); [destruct kind|];
    first [exact (reads_exact n c1)|exact (reads_interrupted n p (from (fault_error _)) c1 _)].
Qed.

(** The validator does not admit the frame whose prefix is decoded as [d] and
    whose header begins [stream]. *)
Definition refused (d : DecodedPrefix) (stream : list byte) : Prop :=
  forall parsed, parse_header (dp_message_type d) (take (dp_header_length d) stream) = Ret parsed ->
    validator (frame_metadata (dp_message_type d) parsed) <> Ret tt.

(** What comes after the header: the payload is read only when the validator
    admits the frame. *)
Lemma reads_after_header max prefix d c : decode_prefix prefix max = Ret d ->
  Reads (cn_incoming c) (dp_header_length d + dp_payload_length d) (fun _ => True)
    (read_frame_after_prefix sha256 from validator max prefix c)
  /\ (refused d (cn_incoming c) ->
      Reads (cn_incoming c) (dp_header_length d) (fun _ => False)
        (read_frame_after_prefix sha256 from validator max prefix c)).
Proof.
  intros Hd. set (stream := cn_incoming c).
  pose (ok := fun p => parse_header (dp_message_type d) (take (dp_header_length d) stream) = Ret p).
  assert (forall Q extra,
    (forall p c3, ok p -> validator (frame_metadata (dp_message_type d) p) = Ret tt ->
       Reads (cn_incoming c3) extra Q
         ((payload <~ conn_err from (read_exact_before (dp_payload_length d)) ;;
           conn_lift (map_err from (finish_message sha256 (dp_message_type d) p payload))) c3)) ->
    Reads stream (dp_header_length d + extra) Q
      (read_frame_after_prefix sha256 from validator max prefix c)) as Hall.
  { intros Q extra HQ. apply (reads_bind 0 (dp_header_length d + extra) _ (fun x => x = d)); [done|..].
    { apply reads_lift. rewrite Hd. cbn. congruence. }
    intros ? c1 -> Hc1. rewrite drop_0 in Hc1.
    apply (reads_bind (dp_header_length d) extra _ _ _ _ _ _ eq_refl (reads_before _ _)).
    intros header c2 -> _. rewrite Hc1.
    apply (reads_bind 0 extra _ ok); [done|by apply reads_lift; intros p ?%map_err_Ret|].
    intros p c3 Hok _. apply (reads_bind 0 extra _ (fun _ => True)); [done|by apply reads_lift|].
    intros _ c4 _ _.
    apply (reads_bind 0 extra _ (fun _ => validator (frame_metadata (dp_message_type d) p) = Ret tt));
      [done|by apply reads_lift; intros []|].
    intros _ c5 Hv _. by apply HQ. }
  split.
  - apply Hall. intros p c3 _ _.
    apply (reads_bind (dp_payload_length d) 0 _ _ _ _ _ _ (Nat.add_0_r _) (reads_before _ _)).
    intros payload c4 _ _. by apply reads_lift.
  - intros Href. rewrite <- (Nat.add_0_r (dp_header_length d)). apply Hall.
    intros p c3 Hok Hv. by destruct (Href p Hok).
Qed.

Lemma reads_bad_prefix max prefix c : (forall d, decode_prefix prefix max <> Ret d) ->
  Reads (cn_incoming c) 0 (fun _ => False) (read_frame_after_prefix sha256 from validator max prefix c).
Proof.
  intros Hd. apply (reads_bind 0 0 _ (fun _ => False)); [done| |by intros].
  apply reads_lift. intros d H%map_err_Ret. by destruct (Hd d).
Qed.

(** The two readers differ only in how they read the prefix. *)
Definition prefix_readers : list (Conn -> exec E (list byte) * Conn) :=
  [ conn_err from (read_exact_before PREFIX_BYTES);
    fun c => (first <~ conn_err from (read_exact_until_cancel 1) ;;
              rest <~ conn_err from (read_exact_before (PREFIX_BYTES - 1)) ;;
              conn_lift (Ret (first ++ rest))) c ].

Lemma reads_prefix r c : r ∈ prefix_readers ->
  Reads (cn_incoming c) PREFIX_BYTES (fun bs => bs = take PREFIX_BYTES (cn_incoming c)) (r c).
Proof.
  intros [->|[->|[]%not_elem_of_nil]%elem_of_cons]%elem_of_cons; [apply reads_before|].
  apply (reads_bind 1 (PREFIX_BYTES - 1) _ _ _ _ _ _ eq_refl (reads_until_cancel _ _)).
  intros first c1 -> Hc1.
  apply (reads_bind (PREFIX_BYTES - 1) 0 _ _ _ _ _ _ (Nat.add_0_r _) (reads_before _ _)).
  intros rest c2 -> _. apply reads_lift. intros bs [= <-]. rewrite Hc1.
  by rewrite take_take_drop.
Qed.
End messages.

(** ** The claims *)

(** What the Rust types of a message guarantee: integers within their width
    and host names that are UTF-8. *)
Definition typed_message (sha256 : list byte -> list byte) (m : WireMessage) : Prop :=
  typed_header (header_of sha256 m).

(** A concrete digest function of 32 bytes. *)
Definition sum_digest (bs : list byte) : list byte := be_bytes 32 (be_val bs).
Lemma sum_digest_length bs : length (sum_digest bs) = 32.
Proof. apply be_bytes_length. Qed.

Lemma hw_host_error h w e : hw_host h w = Throw e -> e = FInvalidHostId.
Proof. unfold hw_host. case_match; congruence. Qed.
Lemma hw_token_error t w e : hw_token t w = Throw e -> e = FInvalidHostId.
Proof. apply hw_host_error. Qed.
Lemma exec_bind_Throw {E A B} (m : exec E A) (k : A -> exec E B) e :
  exec_bind m k = Throw e <-> m = Throw e \/ exists a, m = Ret a /\ k a = Throw e.
Proof. destruct m; cbn; naive_solver. Qed.
Lemma hw_envelope_error h w e : hw_envelope h w = Throw e -> e = FInvalidHostId.
Proof.
  unfold hw_envelope. rewrite !exec_bind_Throw.
  intros [H|(w1 & _ & H)]; [by eapply hw_token_error|].
  apply exec_bind_Throw in H as [H|(w2 & _ & H)]; [by eapply hw_token_error|done].
Qed.

Lemma encode_body_error sha256 m max e : encode_body sha256 m max = Throw e ->
  e = FInvalidHostId \/ is_payload m = true /\ (e = FInvalidUtf8 \/ e = FUnavailableData \/ e = FPayloadTooLarge).
Proof.
  assert (forall p w, encode_snapshot sha256 p max w = Throw e ->
    e = FInvalidHostId \/ e = FInvalidUtf8 \/ e = FUnavailableData \/ e = FPayloadTooLarge) as Hs.
  { intros p w H. unfold encode_snapshot in H.
    apply exec_bind_Throw in H as [H%hw_envelope_error|(w1 & _ & H)]; [by left|right].
    apply exec_bind_Throw in H as [H|([w2 bytes] & _ & H)].
    - destruct (cp_data p); [destruct (utf8_valid bytes)|..]; naive_solver.
    - unfold guard_not in H. destruct (max <? _)%N; cbn in H; naive_solver. }
  destruct m as [h|s|h|q|h|p|p|q|h|q]; cbn [encode_body is_payload]; intros H;
    try (apply Hs in H; tauto); try discriminate H; left;
    repeat match goal with H : exec_bind _ _ = Throw _ |- _ =>
      apply exec_bind_Throw in H as [H|(? & _ & H)] end;
    try discriminate; eauto using hw_host_error, hw_token_error, hw_envelope_error.
  destruct (as_active_handoff s); [by eapply hw_envelope_error|done].
Qed.

(** Computations without a panic, by composition. *)
Definition no_panic {E A} (m : exec E A) : Prop := forall s, m <> Panic s.
Lemma no_panic_bind {E A B} (m : exec E A) (k : A -> exec E B) :
  no_panic m -> (forall a, no_panic (k a)) -> no_panic (exec_bind m k).
Proof. intros Hm Hk s. destruct m as [a|e|e]; cbn; [apply Hk|done|by destruct (Hm e)]. Qed.
Lemma no_panic_Ret {E A} (a : A) : no_panic (@Ret E A a). Proof. done. Qed.
Lemma no_panic_Throw {E A} (e : E) : no_panic (@Throw E A e). Proof. done. Qed.
Lemma no_panic_guard {E} c (e : E) : no_panic (guard_not c e). Proof. by destruct c. Qed.
Lemma no_panic_host h w : no_panic (hw_host h w).
Proof. intros s. unfold hw_host. by case_match. Qed.
Lemma no_panic_token t w : no_panic (hw_token t w).
Proof. apply no_panic_host. Qed.
Create HintDb nopanic.
#[local] Hint Resolve no_panic_bind no_panic_Ret no_panic_Throw no_panic_guard no_panic_host
  no_panic_token : nopanic.
Lemma no_panic_envelope h w : no_panic (hw_envelope h w).
Proof. unfold hw_envelope. eauto 6 with nopanic. Qed.
#[local] Hint Resolve no_panic_envelope : nopanic.

Lemma encode_message_no_panic sha256 m max : no_panic (encode_message sha256 m max).
Proof.
  unfold encode_message. apply no_panic_bind; [|intros []; eauto with nopanic].
  destruct m; cbn [encode_body]; unfold encode_snapshot;
    repeat (apply no_panic_bind; [|intros ?]); eauto with nopanic.
  - destruct (as_active_handoff s); eauto with nopanic.
  - destruct (cp_data p) as [bs| |]; [destruct (utf8_valid bs)|..]; eauto with nopanic.
  - destruct a0. eauto with nopanic.
  - destruct (cp_data p) as [bs| |]; [destruct (utf8_valid bs)|..]; eauto with nopanic.
  - destruct a0. eauto with nopanic.
Qed.

(** encoding is total.  It succeeds exactly on messages whose host names
    have 1 to 255 bytes and whose contents are valid text or explicitly empty
    and within the payload limit, and yields the frame of that message.
    Otherwise it reports an invalid host name or, for the two messages with a
    payload only, invalid text, unavailable data or an oversized payload: the
    header limit of 913 bytes is never the reason, and nothing panics. *)
Theorem encode_message_total (sha256 : list byte -> list byte) m max :
  (forall bs, length (sha256 bs) = 32) ->
  (forall f, encode_message sha256 m max = Ret f <-> encodable sha256 m max /\ f = frame_of sha256 m)
  /\ (forall f, encode_message sha256 m max = Ret f -> length (ef_header f) <= MAX_HEADER_BYTES)
  /\ (~ encodable sha256 m max -> exists e, encode_message sha256 m max = Throw e
      /\ (e = FInvalidHostId
          \/ is_payload m = true
             /\ (e = FInvalidUtf8 \/ e = FUnavailableData \/ e = FPayloadTooLarge))).
Proof.
  intros Hsha. split; [by intros f; apply encode_message_exact|]. split.
  - intros f (Hok & ->)%encode_message_exact; [|done]. apply enc_header_le; [done|apply Hok].
  - intros Hn. destruct (encode_message sha256 m max) as [f|e|s] eqn:E.
    + apply encode_message_exact in E as [E _]; [by destruct Hn|done].
    + exists e. split; [done|]. unfold encode_message in E.
      apply exec_bind_Throw in E as [E|([w p] & E & H)]; [by eapply encode_body_error|].
      apply encode_body_inv in E. by destruct Hn.
    + by apply encode_message_no_panic in E.
Qed.

(** C11: a message that was encoded and sent without interruption is read back
    unchanged by any reader whose payload limit admits it, from a stream that
    continues with anything, and the reader stops exactly at the end of the
    frame.  The bytes written are the prefix, the header and the payload in
    this order. *)
Theorem frame_roundtrip (sha256 : list byte -> list byte) m f max max' out rest :
  (forall bs, length (sha256 bs) = 32) -> typed_message sha256 m ->
  encode_message sha256 m max = Ret f ->
  (payload_len m <= max')%N -> (payload_len m <= usize_max)%N ->
  write_frame f (mkConn [] out []) = (Ret tt, mkConn [] (out ++ to_vec f) [])
  /\ read_frame sha256 max' (mkConn (to_vec f ++ rest) out []) = (Ret m, mkConn rest out []).
Proof.
  intros Hsha Ht ((Hok & Hd & _) & ->)%encode_message_exact Hmax Hus; [|done]. split.
  - unfold write_frame, to_vec, frame_of, conn_bind, write_all_before, next_fault, set.
    cbn [cn_faults cn_outgoing ef_prefix ef_header ef_payload].
    destruct (payload_of m); cbn; by rewrite <- ?app_assoc, ?app_nil_r.
  - by apply read_validated_complete.
Qed.

Definition demo_token : OwnershipToken := mkToken 7 3 "uni".
Definition demo_envelope : HandoffEnvelope :=
  mkEnvelope (mkHandoffId 7 4) demo_token 11 (mkToken 7 4 "desk") 12.
Definition demo_message : WireMessage :=
  WSnapshotDeliver (mkPayload demo_envelope (mkSnapshotId 11 2) (Text ["h"; "i"]%byte)).

Lemma encode_message_total_witness :
  exists f, encode_message sum_digest demo_message 2 = Ret f
            /\ length (ef_header f) <= MAX_HEADER_BYTES.
Proof.
  exists (frame_of sum_digest demo_message).
  destruct (encode_message_total sum_digest demo_message 2 sum_digest_length) as (H1 & H2 & _).
  assert (encode_message sum_digest demo_message 2 = Ret (frame_of sum_digest demo_message)) as H
    by (vm_compute; reflexivity).
  split; [exact H|]. exact (H2 _ H).
Defined.

Lemma demo_typed : typed_message sum_digest demo_message.
Proof.
  unfold typed_message, demo_message. cbn [header_of snapshot_header typed_header cp_handoff
    cp_snapshot_id cp_data data_bytes data_kind_of].
  repeat split; try reflexivity.
Qed.

Lemma frame_roundtrip_witness :
  let f := frame_of sum_digest demo_message in
  read_frame sum_digest 4096 (mkConn (to_vec f ++ ["!"%byte]) [] [])
  = (Ret demo_message, mkConn ["!"%byte] [] []).
Proof.
  apply (frame_roundtrip sum_digest demo_message _ 2 4096 [] ["!"%byte]).
  - exact sum_digest_length.
  - exact demo_typed.
  - vm_compute. reflexivity.
  - vm_compute. discriminate.
  - vm_compute. discriminate.
Defined.

(** the decoder is canonical.  Whatever the stream holds and whatever
    interrupts the transfers, if one of the two frame readers returns a
    message, then the message satisfies the types of its fields, encoding it
    under the same limit succeeds, and the bytes taken from the stream are
    exactly that encoding; and the validator accepted the metadata of the
    frame.  No two byte sequences decode to the same message. *)
Theorem frame_canonical {E} (sha256 : list byte -> list byte) (from : FrameError -> E)
  (validator : FrameMetadata -> exec E unit) max m c c' :
  (forall bs, length (sha256 bs) = 32) ->
  read_frame_validated sha256 from validator max c = (Ret m, c')
  \/ read_next_frame_validated sha256 from validator max c = (Ret m, c') ->
  typed_message sha256 m
  /\ (exists f, encode_message sha256 m max = Ret f /\ cn_incoming c = to_vec f ++ cn_incoming c')
  /\ validator (frame_metadata (message_type m) (header_of sha256 m)) = Ret tt.
Proof.
  intros Hsha H.
  assert (exists prefix c1, length prefix = PREFIX_BYTES
    /\ read_frame_after_prefix sha256 from validator max prefix c1 = (Ret m, c')
    /\ cn_incoming c = prefix ++ cn_incoming c1) as (prefix & c1 & Hl & Hr & Hin).
  { destruct H as [H|H].
    - apply conn_bind_Ret in H as (prefix & c1 & Hp & H).
      apply read_exact_before_Ret in Hp as [Hl Hin]. eauto.
    - apply conn_bind_Ret in H as (first & c1 & Hp & H).
      apply read_exact_until_cancel_Ret in Hp as [Hl Hin].
      apply conn_bind_Ret in H as (others & c2 & Hp & H).
      apply read_exact_before_Ret in Hp as [Hl2 Hin2].
      exists (first ++ others), c2. split; [by rewrite length_app, Hl, Hl2|]. split; [done|].
      by rewrite Hin, Hin2, app_assoc. }
  apply read_after_prefix_sound in Hr as (He & Ht & Hb & Hv); [|done..].
  split; [done|]. split; [|done]. exists (frame_of sha256 m).
  split; [by apply encode_message_exact|]. by rewrite Hin.
Qed.

Lemma frame_canonical_witness :
  exists f, encode_message sum_digest demo_message 16 = Ret f.
Proof.
  set (f := frame_of sum_digest demo_message).
  destruct (frame_canonical (E:=FrameError) sum_digest id (fun _ => Ret tt) 16 demo_message
              (mkConn (to_vec f) [] [None; None; None; Some (mkFault FaultIo 3)])
              (mkConn [] [] [Some (mkFault FaultIo 3)]) sum_digest_length)
    as (_ & (g & Hg & _) & _); [left; vm_compute; reflexivity|].
  exists g. exact Hg.
Defined.

(** The prefix at the head of a stream, if it is complete and accepted. *)
Definition announced (max : N) (stream : list byte) : option DecodedPrefix :=
  if PREFIX_BYTES <=? length stream then
    match decode_prefix (take PREFIX_BYTES stream) max with Ret d => Some d | _ => None end
  else None.

(** What a reader may take of its stream under the limit [max]: nothing beyond
    the prefix if that is not accepted; otherwise nothing beyond the header and
    the payload that the prefix announces, both within their limits, all of it
    if a message is returned, and not a byte of the payload if the validator
    does not admit the frame. *)
Definition reads_within {E} (validator : FrameMetadata -> exec E unit) (max : N) (c : Conn)
  (read : Conn -> exec E WireMessage * Conn) : Prop :=
  exists k, cn_incoming (snd (read c)) = drop k (cn_incoming c) /\ k <= length (cn_incoming c)
  /\ match announced max (cn_incoming c) with
     | Some d =>
         dp_header_length d <= MAX_HEADER_BYTES /\ dp_payload_length d <= N.to_nat max
         /\ k <= PREFIX_BYTES + dp_header_length d + dp_payload_length d
         /\ (forall m, fst (read c) = Ret m ->
               k = PREFIX_BYTES + dp_header_length d + dp_payload_length d)
         /\ (refused validator d (drop PREFIX_BYTES (cn_incoming c)) ->
               k <= PREFIX_BYTES + dp_header_length d /\ forall m, fst (read c) <> Ret m)
     | None => k <= PREFIX_BYTES /\ forall m, fst (read c) <> Ret m
     end.

Lemma announced_limits max stream d : announced max stream = Some d ->
  decode_prefix (take PREFIX_BYTES stream) max = Ret d
  /\ dp_header_length d <= MAX_HEADER_BYTES /\ dp_payload_length d <= N.to_nat max.
Proof.
  unfold announced. destruct (Nat.leb_spec PREFIX_BYTES (length stream)) as [Hl|]; [|done].
  destruct (decode_prefix _ max) as [[t hl pl]| |] eqn:Hd; [|done..]. intros [= <-].
  split; [done|]. apply decode_prefix_exact in Hd; [|rewrite length_take; lia].
  destruct Hd as (_&?&?&_). cbn [dp_header_length dp_payload_length]. split; [done|lia].
Qed.

(** Both readers are one of the two ways to read a prefix, and the rest. *)
Lemma prefixed_reads_within {E} sha256 (from : FrameError -> E) validator max r c :
  r ∈ prefix_readers from ->
  reads_within validator max c (conn_bind r (read_frame_after_prefix sha256 from validator max)).
Proof.
  intros Hr. pose proof (reads_room _ _ _ _ (reads_prefix from r c Hr)) as Hp. unfold reads_within.
  set (read := conn_bind r _). set (prefix := take PREFIX_BYTES (cn_incoming c)) in *.
  assert (forall n (Q : WireMessage -> Prop),
    (forall c1, PREFIX_BYTES <= length (cn_incoming c) ->
       cn_incoming c1 = drop PREFIX_BYTES (cn_incoming c) ->
       Reads (cn_incoming c1) n Q (read_frame_after_prefix sha256 from validator max prefix c1)) ->
    Reads (cn_incoming c) (PREFIX_BYTES + n) Q (read c)) as Hall.
  { intros n Q HQ. apply (reads_bind PREFIX_BYTES n _ _ _ _ _ _ eq_refl Hp).
    intros ? c1 [-> ?] Hc1. by apply HQ. }
  assert (forall n, Reads (cn_incoming c) n (fun _ => False) (read c) ->
    exists k, cn_incoming (snd (read c)) = drop k (cn_incoming c) /\ k <= length (cn_incoming c)
      /\ k <= n /\ forall m, fst (read c) <> Ret m) as Hnone.
  { intros n (k & ? & ? & ? & HF). exists k. repeat (split; [done|]). intros m Hm. by destruct (HF m Hm). }
  destruct (announced max (cn_incoming c)) as [d|] eqn:Ha.
  - apply announced_limits in Ha as (Hd & Hh & Hpl).
    destruct (Hall (dp_header_length d + dp_payload_length d) (fun _ => True)) as (k & Hk & Hl & Hin & Hm);
      [intros c1 _ _; by apply reads_after_header|].
    exists k. do 4 (split; [done|]). split; [lia|]. split; [intros m [? _]%Hm; lia|].
    intros Href. destruct (Hnone (PREFIX_BYTES + dp_header_length d)) as (k' & Hin' & Hl' & Hk' & Hno).
    { apply Hall. intros c1 _ Hc1. apply reads_after_header; [done|]. by rewrite Hc1. }
    split; [|done]. rewrite Hin in Hin'. apply (f_equal length) in Hin'. rewrite !length_drop in Hin'. lia.
  - destruct (Hnone PREFIX_BYTES) as (k & ? & ? & ? & ?); [|by exists k].
    rewrite <- (Nat.add_0_r PREFIX_BYTES). apply Hall. intros c1 Hl%Nat.leb_le _.
    apply reads_bad_prefix. intros d Hd. revert Ha. unfold announced. fold prefix. by rewrite Hl, Hd.
Qed.

(** C12: a frame reader takes from the stream exactly what it may, whatever
    the frame announces and whatever interrupts the transfers.  Nothing beyond
    the prefix is taken if that is incomplete or not accepted; otherwise
    nothing beyond the header and payload that the prefix announces, which are
    at most 913 bytes and the negotiated limit; a returned message took all of
    them.  If the validator does not admit the metadata of this frame's
    header, no message is returned and no byte of the payload is taken.  This
    holds of the reader of a handshake and of the reader of a running
    connection. *)
Theorem frame_reads_bounded {E} (sha256 : list byte -> list byte) (from : FrameError -> E)
  (validator : FrameMetadata -> exec E unit) max c :
  reads_within validator max c (read_frame_validated sha256 from validator max)
  /\ reads_within validator max c (read_next_frame_validated sha256 from validator max).
Proof.
  split; [apply prefixed_reads_within; by left|].
  assert (read_next_frame_validated sha256 from validator max c
    = conn_bind (fun c => (first <~ conn_err from (read_exact_until_cancel 1) ;;
                           rest <~ conn_err from (read_exact_before (PREFIX_BYTES - 1)) ;;
                           conn_lift (Ret (first ++ rest))) c)
        (read_frame_after_prefix sha256 from validator max) c) as Heq.
  { unfold read_next_frame_validated, conn_bind, conn_lift.
    destruct (conn_err from (read_exact_until_cancel 1) c) as [[first|e|e] c1]; [|done..].
    by destruct (conn_err from (read_exact_before (PREFIX_BYTES - 1)) c1) as [[rest|e|e] c2]. }
  unfold reads_within. rewrite Heq. apply prefixed_reads_within. right. by left.
Qed.

Lemma frame_reads_bounded_witness :
  let f := frame_of sum_digest demo_message in
  exists k, k <= PREFIX_BYTES + length (ef_header f)
    /\ cn_incoming (snd (read_next_frame_validated sum_digest id (fun _ => Throw FCanceled) 16
                           (mkConn (to_vec f) [] []))) = drop k (to_vec f).
Proof.
  intros f.
  destruct (frame_reads_bounded (E:=FrameError) sum_digest id (fun _ => Throw FCanceled) 16
    (mkConn (to_vec f) [] [])) as [_ (k & Hin & _ & H)].
  destruct (announced 16 _) as [d|] eqn:Ha; [|by vm_compute in Ha].
  destruct H as (_ & _ & _ & _ & H). destruct H as [Hk _]; [intros parsed _; discriminate|].
  exists k. split; [|exact Hin].
  assert (dp_header_length d = length (ef_header f)) as <- by (vm_compute in Ha |- *; by injection Ha as <-).
  exact Hk.
Defined.
