(* ===== verification/ClipActor.v ===== *)
(** * The clipboard actor (lan-mouse-clipboard/src/actor.rs, backend/mod.rs)

    The thread that owns the native clipboard of a host.  Commands arrive on a
    bounded queue and each is answered with one event; payloads leave through
    a one-slot queue.  The platform backend is the trait [ClipboardBackend]:
    its methods may change its state and may fail. *)

From stdpp Require Import base tactics list strings.
From Stdlib Require Import NArith Lia Strings.Byte.
From S2P Require Import Prelude Channels Bytes ClipTypes.

Definition COMMAND_CLASS_COUNT : nat := 10.
Definition PAYLOAD_SLOT_COUNT : nat := 1.
Definition SOURCE_CHANGE_RETRIES : nat := 1.

(** ** The backend *)

(** A method call: its result and the new state of the backend. *)
Definition native (B A : Type) : Type := B -> (A + ClipboardReason) * B.

Class ClipboardBackend (B : Type) := {
  be_initialize : native B NativeGeneration;
  be_generation : native B NativeGeneration;
  be_capture : N -> native B ClipboardData;
  be_apply : NativeGeneration -> ClipboardData -> native B NativeGeneration;
  be_shutdown : B -> B }.

(** ** Commands and events *)

Inductive ActorCommand :=
| SynchronizeAuthority (current_token : OwnershipToken)
| ObserveGeneration
| PrepareTarget (handoff_id : HandoffId) (target_token : OwnershipToken)
| CaptureSource (handoff_id : HandoffId) (source_token : OwnershipToken) (max_bytes : N)
| CaptureProvisional (source_token : OwnershipToken) (max_bytes : N)
| BindProvisional (handoff_id : HandoffId) (source_token : OwnershipToken)
| PublishSnapshot (handoff_id : HandoffId) (snapshot_id : SnapshotId)
| ActivateTarget (handoff_id : HandoffId) (target_token : OwnershipToken)
| StageSnapshot (stage : StagedSnapshot)
| CancelHandoff (handoff_id : HandoffId)
| Shutdown.

Inductive ActorEvent :=
| EvAuthoritySynchronized (current_token : OwnershipToken)
| EvGeneration (g : NativeGeneration)
| EvPrepared (handoff_id : HandoffId) (target_token : OwnershipToken)
             (process_session_id : ProcessSessionId) (baseline_generation : NativeGeneration)
| EvCaptured (handoff_id : HandoffId) (source_token : OwnershipToken) (snapshot_id : SnapshotId)
             (kind : ClipboardKind) (bytes : nat)
| EvProvisionalCaptured (source_token : OwnershipToken) (snapshot_id : SnapshotId)
                        (kind : ClipboardKind) (bytes : nat)
| EvActivated (handoff_id : HandoffId) (target_token : OwnershipToken)
| EvStaged (handoff_id : HandoffId) (snapshot_id : SnapshotId)
| EvApplied (identity : AppliedIdentity)
| EvPublished (handoff_id : HandoffId) (snapshot_id : SnapshotId)
| EvSkipped (handoff_id : option HandoffId) (reason : ClipboardReason)
| EvBackendUnavailable (handoff_id : option HandoffId) (reason : ClipboardReason)
| EvCanceled (handoff_id : HandoffId)
| EvShutdown.

Record ActorPayload := mkActorPayload {
  ap_handoff_id : HandoffId;
  ap_snapshot_id : SnapshotId;
  ap_source_token : OwnershipToken;
  ap_data : ClipboardData }.

(** [ActorRequest]: the command with the sender of its answer, by number. *)
Record ActorRequest := mkActorRequest {
  arq_command : ActorCommand;
  arq_completion : nat }.

Record StoredSnapshot := mkStored {
  st_handoff_id : option HandoffId;
  st_source_token : OwnershipToken;
  st_snapshot_id : SnapshotId;
  st_data : ClipboardData }.

Inductive ActorFailure := FailNative (r : ClipboardReason) | FailHandoff (r : ClipboardReason).

Section actor.
Context {C : Type -> Type} {M : Mpsc C} {B : Type} {HB : ClipboardBackend B}.

(** [ActorHandle::try_request] *)
Definition try_request (q : C ActorRequest) (command : ActorCommand) (completion : nat)
  : C ActorRequest + ClipboardReason :=
  match try_send q (mkActorRequest command completion) with
  | inl q => inl q
  | inr Full => inr QueueFull
  | inr Closed => inr ChannelUnavailable
  end.

(** The fields of the actor.  The receiving end of the request queue is not a
    field: [actor_run] is given the requests that it delivers. *)
Record Actor := mkActor {
  ac_backend : B;
  ac_process_session_id : ProcessSessionId;
  ac_local_host_id : HostId;
  ac_current_token : OwnershipToken;
  ac_observed_generation : NativeGeneration;
  ac_next_snapshot_sequence : SnapshotSequence;
  ac_preparation : option (HandoffId * OwnershipToken * NativeGeneration);
  ac_source_snapshot : option StoredSnapshot;
  ac_stage : option StagedSnapshot;
  ac_applied : option AppliedIdentity;
  ac_payload_tx : C ActorPayload }.

#[global] Instance Actor_eta : RecordEta Actor := fun s =>
  mkActor (ac_backend s) (ac_process_session_id s) (ac_local_host_id s) (ac_current_token s)
    (ac_observed_generation s) (ac_next_snapshot_sequence s) (ac_preparation s)
    (ac_source_snapshot s) (ac_stage s) (ac_applied s) (ac_payload_tx s).

(** [Actor::new] *)
Definition actor_new (backend : B) (process_session_id : ProcessSessionId) (local_host_id : HostId)
  (current_token : OwnershipToken) (observed_generation : NativeGeneration)
  (payload_tx : C ActorPayload) : Actor :=
  mkActor backend process_session_id local_host_id current_token observed_generation 0 None None
    None None payload_tx.

(** Handlers answer with an event (no error type of their own) or panic. *)
Definition answer (A : Type) : Type := exec Empty_set (A * Actor).

Definition skipped (handoff_id : option HandoffId) (reason : ClipboardReason) : ActorEvent :=
  EvSkipped handoff_id reason.

Definition native_failure (handoff_id : option HandoffId) (reason : ClipboardReason) : ActorEvent :=
  match reason with
  | BackendUnavailable | PermissionDenied | ReasonIdentityExhausted =>
      EvBackendUnavailable handoff_id reason
  | _ => skipped handoff_id reason
  end.

(** A backend call inside the actor. *)
Definition call {A} (m : native B A) (a : Actor) : (A + ClipboardReason) * Actor :=
  let '(r, b) := m (ac_backend a) in (r, a <| ac_backend := b |>).

Definition synchronize_authority (token : OwnershipToken) (a : Actor) : ActorEvent * Actor :=
  let authority_changed :=
    negb (bool_decide (tk_authority_session_id token
                       = tk_authority_session_id (ac_current_token a))) in
  let token_changed := negb (bool_decide (token = ac_current_token a)) in
  let a :=
    if authority_changed || token_changed then
      let preserve_bound_source :=
        negb authority_changed
        && match ac_source_snapshot a with
           | Some s => bool_decide (is_Some (st_handoff_id s))
                       && bool_decide (st_source_token s = ac_current_token a)
           | None => false
           end in
      let a := if preserve_bound_source then a else a <| ac_source_snapshot := None |> in
      a <| ac_stage := None |> <| ac_preparation := None |> <| ac_applied := None |>
        <| ac_current_token := token |>
    else a in
  (EvAuthoritySynchronized token, a).

Definition prepare_target (id : HandoffId) (token : OwnershipToken) (a : Actor)
  : ActorEvent * Actor :=
  if negb (bool_decide (hi_authority_session_id id = tk_authority_session_id token))
     || negb (bool_decide (tk_authority_session_id token
                           = tk_authority_session_id (ac_current_token a)))
  then (skipped (Some id) StaleAuthoritySession, a)
  else if bool_decide (tk_owner_host_id token = ac_local_host_id a)
          && negb (bool_decide (token = ac_current_token a))
  then
    let baseline := ac_observed_generation a in
    let a := a <| ac_preparation := Some (id, token, baseline) |> in
    (EvPrepared id token (ac_process_session_id a) baseline, a)
  else (skipped (Some id) ReasonStaleOwnerToken, a).

(** The checks of a captured value in [stable_capture]. *)
Definition check_captured (data : ClipboardData) (max_bytes : N) : option ActorFailure :=
  match data with
  | Text bytes =>
      if utf8_valid bytes then
        if (max_bytes <? N.of_nat (data_len data))%N then Some (FailHandoff Oversize) else None
      else Some (FailHandoff InvalidUtf8)
  | Empty => if (max_bytes <? N.of_nat (data_len data))%N then Some (FailHandoff Oversize) else None
  | DataUnavailable reason => Some (FailHandoff reason)
  end.

(** The loop of [stable_capture] over [retry..=SOURCE_CHANGE_RETRIES], with
    [turns] iterations to go. *)
Fixpoint stable_capture_from (turns retry : nat) (max_bytes : N) (a : Actor)
  : answer (ClipboardData + ActorFailure) :=
  match turns with
  | 0 => Panic "bounded capture loop always returns"
  | S turns =>
      match call be_generation a with
      | (inr reason, a) => Ret (inr (FailNative reason), a)
      | (inl before, a) =>
          match call (be_capture max_bytes) a with
          | (inr reason, a) => Ret (inr (FailNative reason), a)
          | (inl data, a) =>
              match check_captured data max_bytes with
              | Some failure => Ret (inr failure, a)
              | None =>
                  match call be_generation a with
                  | (inr reason, a) => Ret (inr (FailNative reason), a)
                  | (inl after, a) =>
                      let a := a <| ac_observed_generation := after |> in
                      if (before =? after)%N then Ret (inl data, a)
                      else if retry =? SOURCE_CHANGE_RETRIES
                      then Ret (inr (FailHandoff SourceChanged), a)
                      else stable_capture_from turns (S retry) max_bytes a
                  end
              end
          end
      end
  end.

Definition stable_capture (max_bytes : N) (a : Actor) : answer (ClipboardData + ActorFailure) :=
  stable_capture_from (S SOURCE_CHANGE_RETRIES) 0 max_bytes a.

(** [data.kind().expect(msg)] *)
Definition expect_kind (data : ClipboardData) (msg : string) : exec Empty_set ClipboardKind :=
  match data_kind data with Ret k => Ret k | _ => Panic msg end.

Definition capture_source (handoff_id : option HandoffId) (source_token : OwnershipToken)
  (max_bytes : N) (a : Actor) : answer ActorEvent :=
  if negb (bool_decide (source_token = ac_current_token a))
  then Ret (skipped handoff_id ReasonStaleOwnerToken, a)
  else if match handoff_id with
          | Some id => negb (bool_decide (hi_authority_session_id id
                                          = tk_authority_session_id source_token))
          | None => false
          end
  then Ret (skipped handoff_id StaleAuthoritySession, a)
  else
    let* (r, a) := stable_capture max_bytes a in
    match r with
    | inr (FailNative reason) => Ret (native_failure handoff_id reason, a)
    | inr (FailHandoff reason) => Ret (skipped handoff_id reason, a)
    | inl data =>
        match checked_add (ac_next_snapshot_sequence a) 1 with
        | None => Ret (native_failure handoff_id ReasonIdentityExhausted, a)
        | Some sequence =>
            let a := a <| ac_next_snapshot_sequence := sequence |> in
            let snapshot_id := mkSnapshotId (ac_process_session_id a) sequence in
            let* kind := expect_kind data "stable capture rejects unavailable clipboard data" in
            let bytes := data_len data in
            let a := a <| ac_source_snapshot :=
                            Some (mkStored handoff_id source_token snapshot_id data) |> in
            Ret (match handoff_id with
                 | Some id => EvCaptured id source_token snapshot_id kind bytes
                 | None => EvProvisionalCaptured source_token snapshot_id kind bytes
                 end, a)
        end
    end.

Definition bind_provisional (id : HandoffId) (source_token : OwnershipToken) (a : Actor)
  : answer ActorEvent :=
  match ac_source_snapshot a with
  | None => Ret (skipped (Some id) SourceChanged, a)
  | Some s =>
      if bool_decide (is_Some (st_handoff_id s))
         || negb (bool_decide (st_source_token s = source_token))
      then Ret (skipped (Some id) ReasonStaleOwnerToken, a)
      else if negb (bool_decide (hi_authority_session_id id = tk_authority_session_id source_token))
      then Ret (skipped (Some id) StaleAuthoritySession, a)
      else
        let s := mkStored (Some id) (st_source_token s) (st_snapshot_id s) (st_data s) in
        let a := a <| ac_source_snapshot := Some s |> in
        let* kind := expect_kind (st_data s) "stored snapshots are transferable data" in
        Ret (EvCaptured id source_token (st_snapshot_id s) kind (data_len (st_data s)), a)
  end.

Definition publish_snapshot (id : HandoffId) (snapshot_id : SnapshotId) (a : Actor)
  : ActorEvent * Actor :=
  match ac_source_snapshot a with
  | None => (skipped (Some id) ReasonStaleHandoff, a)
  | Some s =>
      if negb (bool_decide (st_handoff_id s = Some id))
         || negb (bool_decide (st_snapshot_id s = snapshot_id))
      then (skipped (Some id) ReasonStaleHandoff, a)
      else
        let a := a <| ac_source_snapshot := None |> in
        let payload := mkActorPayload id snapshot_id (st_source_token s) (st_data s) in
        match try_send (ac_payload_tx a) payload with
        | inr Full => (skipped (Some id) QueueFull, a)
        | inr Closed => (skipped (Some id) ChannelUnavailable, a)
        | inl tx => (EvPublished id snapshot_id, a <| ac_payload_tx := tx |>)
        end
  end.

Definition apply_stage (a : Actor) : ActorEvent * Actor :=
  match ac_stage a with
  | None => (skipped None ReasonStaleHandoff, a)
  | Some stage =>
      if negb (bool_decide (ss_target_token stage = ac_current_token a))
      then (skipped None ReasonStaleOwnerToken, a)
      else
        let a := a <| ac_stage := None |> in
        let identity := mkApplied (ss_handoff_id stage) (ss_snapshot_id stage) in
        if bool_decide (ac_applied a = Some identity)
        then (skipped (Some (ss_handoff_id stage)) Duplicate, a)
        else
          match call (be_apply (ss_baseline_generation stage) (ss_data stage)) a with
          | (inr reason, a) =>
              let a :=
                if bool_decide (reason = DestinationChanged) then
                  match call be_generation a with
                  | (inl generation, a) => a <| ac_observed_generation := generation |>
                  | (inr _, a) => a
                  end
                else a in
              (native_failure (Some (ss_handoff_id stage)) reason, a)
          | (inl generation, a) =>
              let a := a <| ac_observed_generation := generation |> in
              (EvApplied identity, a <| ac_applied := Some identity |> <| ac_preparation := None |>)
          end
  end.

Definition activate_target (id : HandoffId) (token : OwnershipToken) (a : Actor)
  : ActorEvent * Actor :=
  if negb (bool_decide (hi_authority_session_id id = tk_authority_session_id token))
  then (skipped (Some id) StaleAuthoritySession, a)
  else if negb (bool_decide (tk_owner_host_id token = ac_local_host_id a))
  then (skipped (Some id) ReasonStaleOwnerToken, a)
  else
    match ac_preparation a with
    | None => (skipped (Some id) TargetNotPrepared, a)
    | Some (prepared_handoff, prepared_token, _) =>
        if negb (bool_decide (prepared_handoff = id)) || negb (bool_decide (prepared_token = token))
        then (skipped (Some id) ReasonStaleHandoff, a)
        else
          let a := a <| ac_current_token := token |> in
          if match ac_stage a with Some stage => bool_decide (ss_handoff_id stage = id) | None => false end
          then apply_stage a
          else (EvActivated id token, a)
    end.

Definition stage_snapshot (stage : StagedSnapshot) (a : Actor) : answer ActorEvent :=
  let id := ss_handoff_id stage in
  match ss_data stage with
  | DataUnavailable reason => Ret (skipped (Some id) reason, a)
  | _ =>
      if negb (bool_decide (hi_authority_session_id id
                            = tk_authority_session_id (ss_target_token stage)))
      then Ret (skipped (Some id) StaleAuthoritySession, a)
      else if negb (bool_decide (tk_owner_host_id (ss_target_token stage) = ac_local_host_id a))
      then Ret (skipped (Some id) ReasonStaleOwnerToken, a)
      else if bool_decide (ac_applied a = Some (mkApplied id (ss_snapshot_id stage)))
      then Ret (skipped (Some id) Duplicate, a)
      else
        match ac_preparation a with
        | None => Ret (skipped (Some id) TargetNotPrepared, a)
        | Some (prepared_handoff, prepared_token, prepared_generation) =>
            if negb (bool_decide (prepared_handoff = id))
               || negb (bool_decide (prepared_token = ss_target_token stage))
               || negb (prepared_generation =? ss_baseline_generation stage)%N
               || negb (ss_target_process_session_id stage =? ac_process_session_id a)%N
            then Ret (skipped (Some id) ReasonStaleHandoff, a)
            else
              let a := a <| ac_stage := Some stage |> in
              let* installed := expect (ac_stage a) "stage installed" in
              if bool_decide (ac_current_token a = ss_target_token installed)
              then Ret (apply_stage a)
              else Ret (EvStaged id (ss_snapshot_id stage), a)
        end
  end.

Definition cancel_handoff (id : HandoffId) (a : Actor) : Actor :=
  let a := if match ac_preparation a with Some (p, _, _) => bool_decide (p = id) | None => false end
           then a <| ac_preparation := None |> else a in
  let a := if match ac_source_snapshot a with
              | Some s => bool_decide (st_handoff_id s = Some id)
              | None => false
              end
           then a <| ac_source_snapshot := None |> else a in
  if match ac_stage a with Some s => bool_decide (ss_handoff_id s = id) | None => false end
  then a <| ac_stage := None |> else a.

(** [Actor::handle] *)
Definition actor_handle (command : ActorCommand) (a : Actor) : answer ActorEvent :=
  match command with
  | SynchronizeAuthority token => Ret (synchronize_authority token a)
  | ObserveGeneration =>
      match call be_generation a with
      | (inl generation, a) =>
          Ret (EvGeneration generation, a <| ac_observed_generation := generation |>)
      | (inr reason, a) => Ret (native_failure None reason, a)
      end
  | PrepareTarget id token => Ret (prepare_target id token a)
  | CaptureSource id token max_bytes => capture_source (Some id) token max_bytes a
  | CaptureProvisional token max_bytes => capture_source None token max_bytes a
  | BindProvisional id token => bind_provisional id token a
  | PublishSnapshot id snapshot_id => Ret (publish_snapshot id snapshot_id a)
  | ActivateTarget id token => Ret (activate_target id token a)
  | StageSnapshot stage => stage_snapshot stage a
  | CancelHandoff id => Ret (EvCanceled id, cancel_handoff id a)
  | Shutdown => Ret (EvShutdown, a)
  end.

(** ** The actor thread *)

(** The end of [run]: the backend is shut down and the contents dropped. *)
Definition actor_finish (a : Actor) : Actor :=
  a <| ac_backend := be_shutdown (ac_backend a) |>
    <| ac_source_snapshot := None |> <| ac_stage := None |> <| ac_preparation := None |>.

(** [Actor::run] over the requests that are received until the channel closes:
    the answers sent, the actor at the end, and the requests left unread. *)
Fixpoint actor_run (requests : list ActorRequest) (a : Actor)
  : exec Empty_set (list (nat * ActorEvent) * Actor * list ActorRequest) :=
  match requests with
  | [] => Ret ([], actor_finish a, [])
  | request :: requests =>
      let shutdown := match arq_command request with Shutdown => true | _ => false end in
      let* (event, a) := actor_handle (arq_command request) a in
      let backend_lost := match event with EvBackendUnavailable _ _ => true | _ => false end in
      if shutdown || backend_lost
      then Ret ([(arq_completion request, event)], actor_finish a, requests)
      else
        let* (rest, unread) := actor_run requests a in
        Ret ((arq_completion request, event) :: fst rest, snd rest, unread)
  end.

(** The thread started by [spawn_actor]: the actor that it runs after answering
    [Ok] on the ready channel, or the reason it answers there and the backend,
    shut down again. *)
Definition actor_start (backend : B) (process_session_id : ProcessSessionId) (local_host_id : HostId)
  (initial_token : OwnershipToken) (payload_tx : C ActorPayload)
  : Actor + (ClipboardReason * B) :=
  match be_initialize backend with
  | (inl observed_generation, backend) =>
      inl (actor_new backend process_session_id local_host_id initial_token observed_generation
             payload_tx)
  | (inr reason, backend) => inr (reason, be_shutdown backend)
  end.
End actor.
