(* ===== verification/ClipActorTheorems.v ===== *)
(** * Theorems about the clipboard actor

    The actor answers every command and never panics; what it writes into the
    native clipboard was staged, prepared and activated; each preparation
    leads to at most one applied snapshot; and published snapshots are
    captured ones, in order. *)

From stdpp Require Import base tactics list strings.
From Stdlib Require Import NArith Lia Strings.Byte.
From S2P Require Import Prelude Channels Bytes ClipTypes ClipActor.

Ltac af := unfold set; cbn [ac_backend ac_process_session_id ac_local_host_id ac_current_token
  ac_observed_generation ac_next_snapshot_sequence ac_preparation ac_source_snapshot ac_stage
  ac_applied ac_payload_tx fst snd].
Ltac af_in H := unfold set in H; cbn [ac_backend ac_process_session_id ac_local_host_id
  ac_current_token ac_observed_generation ac_next_snapshot_sequence ac_preparation
  ac_source_snapshot ac_stage ac_applied ac_payload_tx fst snd] in H.

(** Contents that can be transferred. *)
Definition transferable (d : ClipboardData) : Prop :=
  match d with Text bytes => utf8_valid bytes = true | Empty => True | DataUnavailable _ => False end.

Section invariant.
Context {C : Type -> Type} {M : Mpsc C} {B : Type} {HB : ClipboardBackend B}.
Implicit Types (a : Actor (C:=C) (B:=B)).

(** ** Captures *)

(** Between two readings of the same generation the contents were read. *)
Definition stable_reading (max : N) (data : ClipboardData) (b' : B) : Prop :=
  exists b b1 b2 g, be_generation b = (inl g, b1) /\ be_capture max b1 = (inl data, b2)
    /\ be_generation b2 = (inl g, b').

(** The backend after some readings of generations and contents. *)
Inductive reads : B -> B -> Prop :=
| reads_refl b : reads b b
| reads_generation b r b1 b2 : be_generation b = (r, b1) -> reads b1 b2 -> reads b b2
| reads_capture b max r b1 b2 : be_capture max b = (r, b1) -> reads b1 b2 -> reads b b2.

Lemma reads_trans b1 b2 b3 : reads b1 b2 -> reads b2 b3 -> reads b1 b3.
Proof. induction 1; eauto using reads. Qed.

(** Only the backend, by readings, and the observed generation differ. *)
Definition only_native a a' : Prop :=
  exists b g, reads (ac_backend a) b /\ a' = a <| ac_backend := b |> <| ac_observed_generation := g |>.

Lemma only_native_refl a : only_native a a.
Proof. exists (ac_backend a), (ac_observed_generation a). split; [constructor|by destruct a]. Qed.

Lemma only_native_trans a1 a2 a3 : only_native a1 a2 -> only_native a2 a3 -> only_native a1 a3.
Proof.
  intros (b & g & H & ->) (b' & g' & H' & ->). exists b', g'. split; [|reflexivity].
  by eapply reads_trans.
Qed.

Lemma only_native_observe a g : only_native a (a <| ac_observed_generation := g |>).
Proof. exists (ac_backend a), g. split; [constructor|by destruct a]. Qed.

Lemma call_native {A} (m : native B A) a r a' :
  call m a = (r, a') -> (forall b r b', m b = (r, b') -> reads b b') ->
  only_native a a' /\ m (ac_backend a) = (r, ac_backend a').
Proof.
  unfold call. destruct (m (ac_backend a)) as [r' b] eqn:E. intros [= <- <-] Hm. split.
  - exists b, (ac_observed_generation a). split; [by eapply Hm|by destruct a].
  - reflexivity.
Qed.

Lemma call_generation a r a' : call be_generation a = (r, a') ->
  only_native a a' /\ be_generation (ac_backend a) = (r, ac_backend a').
Proof. intros H. eapply call_native; [exact H|]. eauto using reads. Qed.
Lemma call_capture max a r a' : call (be_capture max) a = (r, a') ->
  only_native a a' /\ be_capture max (ac_backend a) = (r, ac_backend a').
Proof. intros H. eapply call_native; [exact H|]. eauto using reads. Qed.

Lemma check_captured_None data max :
  check_captured data max = None -> transferable data /\ (N.of_nat (data_len data) <= max)%N.
Proof.
  destruct data as [bytes| |]; cbn [check_captured transferable];
    [destruct (utf8_valid bytes); [|done]|..]; try done;
    (destruct (max <? _)%N eqn:E; [done|]); apply N.ltb_ge in E; done.
Qed.

Lemma stable_capture_from_spec turns : forall retry max a,
  turns + retry = S SOURCE_CHANGE_RETRIES -> 0 < turns ->
  exists r a', stable_capture_from turns retry max a = Ret (r, a') /\ only_native a a'
    /\ forall data, r = inl data ->
         transferable data /\ (N.of_nat (data_len data) <= max)%N
         /\ stable_reading max data (ac_backend a').
Proof.
  induction turns as [|turns IH]; intros retry max a Hsum Hpos; [lia|].
  cbn [stable_capture_from].
  destruct (call be_generation a) as [[before|e] a1] eqn:E1; apply call_generation in E1 as [O1 N1];
    [|by eexists _, a1; split; [|split; [exact O1|]]].
  destruct (call (be_capture max) a1) as [[data|e] a2] eqn:E2; apply call_capture in E2 as [O2 N2];
    pose proof (only_native_trans _ _ _ O1 O2) as O12;
    [|by eexists _, a2; split; [|split; [exact O12|]]].
  destruct (check_captured data max) as [f|] eqn:Ec;
    [by eexists _, a2; split; [|split; [exact O12|]]|].
  apply check_captured_None in Ec as [Ht Hl].
  destruct (call be_generation a2) as [[after|e] a3] eqn:E3; apply call_generation in E3 as [O3 N3];
    pose proof (only_native_trans _ _ _ O12 O3) as O13;
    [|by eexists _, a3; split; [|split; [exact O13|]]].
  set (a4 := a3 <| ac_observed_generation := after |>).
  assert (only_native a a4) as O14.
  { eapply only_native_trans; [exact O13|apply only_native_observe]. }
  destruct (N.eqb_spec before after) as [->|Hne].
  - exists (inl data), a4. split; [done|]. split; [exact O14|]. intros d [= <-].
    split; [done|]. split; [done|]. by exists (ac_backend a), (ac_backend a1), (ac_backend a2), after.
  - destruct (Nat.eqb_spec retry SOURCE_CHANGE_RETRIES) as [->|Hr].
    + exists (inr (FailHandoff SourceChanged)), a4. split; [done|]. split; [exact O14|]. done.
    + unfold SOURCE_CHANGE_RETRIES in *.
      destruct (IH (S retry) max a4) as (r & a' & -> & O & Hd); [lia|lia|].
      exists r, a'. split; [done|]. split; [|done]. eapply only_native_trans; [exact O14|exact O].
Qed.

Lemma stable_capture_spec max a :
  exists r a', stable_capture max a = Ret (r, a') /\ only_native a a'
    /\ forall data, r = inl data ->
         transferable data /\ (N.of_nat (data_len data) <= max)%N
         /\ stable_reading max data (ac_backend a').
Proof. apply stable_capture_from_spec; unfold SOURCE_CHANGE_RETRIES; lia. Qed.

Lemma expect_kind_transferable data msg :
  transferable data -> exists k, expect_kind data msg = Ret k.
Proof. destruct data; cbn; [eauto|eauto|done]. Qed.

(** ** The invariant and totality *)

Record ActorOk a : Prop := {
  ok_source : forall s, ac_source_snapshot a = Some s ->
    transferable (st_data s)
    /\ si_source_process_session_id (st_snapshot_id s) = ac_process_session_id a
    /\ (0 < si_sequence (st_snapshot_id s) <= ac_next_snapshot_sequence a)%N;
  ok_sequence : is_u64 (ac_next_snapshot_sequence a);
  ok_prepared : forall id tok g, ac_preparation a = Some (id, tok, g) ->
    tk_owner_host_id tok = ac_local_host_id a
    /\ hi_authority_session_id id = tk_authority_session_id tok
    /\ tk_authority_session_id tok = tk_authority_session_id (ac_current_token a);
  ok_stage : forall st, ac_stage a = Some st ->
    (forall r, ss_data st <> DataUnavailable r)
    /\ tk_owner_host_id (ss_target_token st) = ac_local_host_id a
    /\ ss_target_process_session_id st = ac_process_session_id a }.

(** ** What a command can do *)

(** Answers that neither prepare, capture, publish nor apply anything. *)
Definition quiet (ev : ActorEvent) : Prop :=
  match ev with
  | EvPrepared _ _ _ _ | EvCaptured _ _ _ _ _ | EvProvisionalCaptured _ _ _ _
  | EvPublished _ _ | EvApplied _ => False
  | _ => True
  end.

Definition dropped {A} (old new : option A) : Prop := new = old \/ new = None.

(** Some of the preparation, the source snapshot and the stage are given up. *)
Definition shrunk a a' : Prop :=
  exists p s st, dropped (ac_preparation a) p /\ dropped (ac_source_snapshot a) s
    /\ dropped (ac_stage a) st
    /\ a' = a <| ac_preparation := p |> <| ac_source_snapshot := s |> <| ac_stage := st |>.

(** A stage that matches the preparation. *)
Definition matches_preparation (st : StagedSnapshot) a : Prop :=
  ac_preparation a = Some (ss_handoff_id st, ss_target_token st, ss_baseline_generation st)
  /\ tk_owner_host_id (ss_target_token st) = ac_local_host_id a
  /\ ss_target_process_session_id st = ac_process_session_id a
  /\ (forall r, ss_data st <> DataUnavailable r).

(** The two ways to reach [apply_stage]. *)
Inductive entering : ActorCommand -> Actor -> Actor -> StagedSnapshot -> Prop :=
| enter_activate a id tok g st :
    ac_preparation a = Some (id, tok, g) -> ac_stage a = Some st -> ss_handoff_id st = id ->
    entering (ActivateTarget id tok) a (a <| ac_current_token := tok |>) st
| enter_stage a st :
    matches_preparation st a -> ac_current_token a = ss_target_token st ->
    entering (StageSnapshot st) a (a <| ac_stage := Some st |>) st.

(** The end of [apply_stage] on an installed stage. *)
Inductive apply_outcome a (st : StagedSnapshot) : ActorEvent -> Actor -> Prop :=
| ao_kept ev : ss_target_token st <> ac_current_token a -> quiet ev -> apply_outcome a st ev a
| ao_duplicate ev : quiet ev -> apply_outcome a st ev (a <| ac_stage := None |>)
| ao_failed ev r b a' :
    ss_target_token st = ac_current_token a ->
    be_apply (ss_baseline_generation st) (ss_data st) (ac_backend a) = (inr r, b) -> quiet ev ->
    only_native (a <| ac_stage := None |> <| ac_backend := b |>) a' -> apply_outcome a st ev a'
| ao_written g b :
    ss_target_token st = ac_current_token a ->
    be_apply (ss_baseline_generation st) (ss_data st) (ac_backend a) = (inl g, b) ->
    let identity := mkApplied (ss_handoff_id st) (ss_snapshot_id st) in
    apply_outcome a st (EvApplied identity)
      (a <| ac_stage := None |> <| ac_backend := b |> <| ac_observed_generation := g |>
         <| ac_applied := Some identity |> <| ac_preparation := None |>).

Inductive outcome : ActorCommand -> Actor -> ActorEvent -> Actor -> Prop :=
| out_quiet cmd a a1 ev a' : quiet ev -> shrunk a a1 -> only_native a1 a' -> outcome cmd a ev a'
| out_synchronized a tok ev s :
    quiet ev -> dropped (ac_source_snapshot a) s ->
    outcome (SynchronizeAuthority tok) a ev
      (a <| ac_source_snapshot := s |> <| ac_stage := None |> <| ac_preparation := None |>
         <| ac_applied := None |> <| ac_current_token := tok |>)
| out_prepared a id tok :
    hi_authority_session_id id = tk_authority_session_id tok ->
    tk_authority_session_id tok = tk_authority_session_id (ac_current_token a) ->
    tk_owner_host_id tok = ac_local_host_id a -> tok <> ac_current_token a ->
    outcome (PrepareTarget id tok) a
      (EvPrepared id tok (ac_process_session_id a) (ac_observed_generation a))
      (a <| ac_preparation := Some (id, tok, ac_observed_generation a) |>)
| out_captured cmd a a1 hid tok max data kind :
    cmd = match hid with Some id => CaptureSource id tok max | None => CaptureProvisional tok max end ->
    tok = ac_current_token a -> only_native a a1 -> transferable data ->
    (N.of_nat (data_len data) <= max)%N -> stable_reading max data (ac_backend a1) ->
    data_kind data = Ret kind -> (ac_next_snapshot_sequence a + 1 <= u64_max)%N ->
    let sid := mkSnapshotId (ac_process_session_id a) (ac_next_snapshot_sequence a + 1) in
    outcome cmd a
      (match hid with
       | Some id => EvCaptured id tok sid kind (data_len data)
       | None => EvProvisionalCaptured tok sid kind (data_len data)
       end)
      (a1 <| ac_next_snapshot_sequence := (ac_next_snapshot_sequence a + 1)%N |>
          <| ac_source_snapshot := Some (mkStored hid tok sid data) |>)
| out_bound a id tok s kind :
    ac_source_snapshot a = Some s -> st_handoff_id s = None -> st_source_token s = tok ->
    data_kind (st_data s) = Ret kind ->
    outcome (BindProvisional id tok) a
      (EvCaptured id tok (st_snapshot_id s) kind (data_len (st_data s)))
      (a <| ac_source_snapshot := Some (mkStored (Some id) (st_source_token s)
                                          (st_snapshot_id s) (st_data s)) |>)
| out_published a id sid s tx :
    ac_source_snapshot a = Some s -> st_handoff_id s = Some id -> st_snapshot_id s = sid ->
    try_send (ac_payload_tx a) (mkActorPayload id sid (st_source_token s) (st_data s)) = inl tx ->
    outcome (PublishSnapshot id sid) a (EvPublished id sid)
      (a <| ac_source_snapshot := None |> <| ac_payload_tx := tx |>)
| out_activated a id tok g ev :
    ac_preparation a = Some (id, tok, g) -> quiet ev ->
    outcome (ActivateTarget id tok) a ev (a <| ac_current_token := tok |>)
| out_staged a st ev :
    matches_preparation st a -> quiet ev -> ac_current_token a <> ss_target_token st ->
    outcome (StageSnapshot st) a ev (a <| ac_stage := Some st |>)
| out_apply cmd a a1 st ev a' :
    entering cmd a a1 st -> apply_outcome a1 st ev a' -> outcome cmd a ev a'.

Lemma quiet_native_failure hid r : quiet (native_failure hid r).
Proof. by destruct r. Qed.

Lemma shrunk_refl a : shrunk a a.
Proof.
  exists (ac_preparation a), (ac_source_snapshot a), (ac_stage a).
  repeat split; try (by left). by destruct a.
Qed.

Lemma out_skip cmd a ev : quiet ev -> outcome cmd a ev a.
Proof. intros H. eapply out_quiet; [done|apply shrunk_refl|apply only_native_refl]. Qed.

Lemma apply_stage_outcome a st ev a' :
  ac_stage a = Some st -> apply_stage a = (ev, a') -> apply_outcome a st ev a'.
Proof.
  intros Hst. unfold apply_stage. rewrite Hst.
  destruct (bool_decide_reflect (ss_target_token st = ac_current_token a)) as [Ht|Ht]; cbn [negb].
  2: { intros [= <- <-]. by constructor. }
  case_bool_decide as Hd. { intros [= <- <-]. by constructor. }
  unfold call at 1. af.
  destruct (be_apply (ss_baseline_generation st) (ss_data st) (ac_backend a)) as [[g|r] b] eqn:E.
  - intros [= <- <-]. eapply (ao_written a st g b); done.
  - intros [= <- <-]. eapply ao_failed; [done|exact E|apply quiet_native_failure|]. af.
    case_bool_decide; [|apply only_native_refl].
    match goal with |- context [call be_generation ?x] =>
      destruct (call be_generation x) as [[g|r'] a1] eqn:E1 end;
      apply call_generation in E1 as [O1 _]; [|exact O1].
    eapply only_native_trans; [exact O1|apply only_native_observe].
Qed.

Lemma synchronize_outcome tok a :
  outcome (SynchronizeAuthority tok) a (fst (synchronize_authority tok a))
    (snd (synchronize_authority tok a)).
Proof.
  unfold synchronize_authority. cbn [fst snd]. case_match eqn:E; [|by apply out_skip].
  case_match.
  - match goal with |- outcome _ _ _ ?x =>
      replace x with (a <| ac_source_snapshot := ac_source_snapshot a |> <| ac_stage := None |>
        <| ac_preparation := None |> <| ac_applied := None |> <| ac_current_token := tok |>)
        by (by destruct a) end.
    apply out_synchronized; [done|by left].
  - apply (out_synchronized a tok _ None); [done|by right].
Qed.

Lemma prepare_outcome id tok a :
  outcome (PrepareTarget id tok) a (fst (prepare_target id tok a)) (snd (prepare_target id tok a)).
Proof.
  unfold prepare_target. case_match eqn:E1; [by apply out_skip|]. norm_bool.
  case_match eqn:E2; [|by apply out_skip]. norm_bool. by apply out_prepared.
Qed.

Lemma capture_outcome hid tok max a :
  exists ev a', capture_source hid tok max a = Ret (ev, a')
    /\ outcome (match hid with Some id => CaptureSource id tok max | None => CaptureProvisional tok max end)
         a ev a'.
Proof.
  unfold capture_source. case_match eqn:E1; [by eexists _, a; split; [|apply out_skip]|]. norm_bool.
  case_match eqn:E2; [by eexists _, a; split; [|apply out_skip]|].
  destruct (stable_capture_spec max a) as (r & a1 & -> & O & Hd). cbn [exec_bind].
  destruct r as [data|[r|r]].
  2: { eexists _, a1. split; [done|].
       eapply out_quiet; [apply quiet_native_failure|apply shrunk_refl|done]. }
  2: { eexists _, a1. split; [done|]. by eapply out_quiet; [|apply shrunk_refl|]. }
  destruct (Hd data eq_refl) as (Ht & Hl & Hs).
  assert (ac_next_snapshot_sequence a1 = ac_next_snapshot_sequence a
          /\ ac_process_session_id a1 = ac_process_session_id a) as [Hseq Hsess].
  { destruct O as (b & g & _ & ->). done. }
  rewrite Hseq. destruct (checked_add (ac_next_snapshot_sequence a) 1) as [n|] eqn:En.
  2: { eexists _, a1. split; [done|].
       eapply out_quiet; [apply quiet_native_failure|apply shrunk_refl|done]. }
  apply checked_add_Some in En as [-> Hn].
  destruct (expect_kind_transferable data "stable capture rejects unavailable clipboard data" Ht)
    as (k & Hk). rewrite Hk. cbn [exec_bind].
  pose proof O as O'. destruct O' as (b & g & _ & ->). clear Hseq Hsess.
  eexists _, _. split; [reflexivity|].
  refine (out_captured _ a _ hid tok max data k eq_refl E1 O Ht Hl Hs _ Hn).
  unfold expect_kind in Hk. by destruct data; cbn in *; simplify_eq.
Qed.

Lemma bind_outcome id tok a : ActorOk a ->
  exists ev a', bind_provisional id tok a = Ret (ev, a')
    /\ outcome (BindProvisional id tok) a ev a'.
Proof.
  intros Hok. unfold bind_provisional.
  destruct (ac_source_snapshot a) as [s|] eqn:Es; [|by eexists _, a; split; [|apply out_skip]].
  case_match eqn:E1; [by eexists _, a; split; [|apply out_skip]|].
  case_match eqn:E2; [by eexists _, a; split; [|apply out_skip]|]. norm_bool.
  destruct (ok_source a Hok s Es) as (Ht & _). cbn [st_data].
  destruct (expect_kind_transferable (st_data s) "stored snapshots are transferable data" Ht)
    as (k & Hk). rewrite Hk. cbn [exec_bind].
  eexists _, _. split; [reflexivity|]. apply (out_bound a id tok s k); try done.
  - destruct (st_handoff_id s); [|done]. match goal with H : ~ is_Some _ |- _ => by destruct H end.
  - unfold expect_kind in Hk. by destruct (st_data s); cbn in *; simplify_eq.
Qed.

Lemma publish_outcome id sid a :
  outcome (PublishSnapshot id sid) a (fst (publish_snapshot id sid a)) (snd (publish_snapshot id sid a)).
Proof.
  unfold publish_snapshot.
  destruct (ac_source_snapshot a) as [s|] eqn:Es; [|by apply out_skip].
  case_match eqn:E1; [by apply out_skip|]. norm_bool. af.
  assert (forall r, outcome (PublishSnapshot id sid) a (skipped (Some id) r)
                      (a <| ac_source_snapshot := None |>)) as Hdrop.
  { intros r. eapply out_quiet; [done| |apply only_native_refl].
    exists (ac_preparation a), None, (ac_stage a). split; [by left|]. split; [by right|].
    split; [by left|]. by destruct a. }
  destruct (try_send _ _) as [tx|[]] eqn:E; [|apply Hdrop..]. by apply (out_published a id sid s tx).
Qed.

Lemma activate_outcome id tok a :
  outcome (ActivateTarget id tok) a (fst (activate_target id tok a)) (snd (activate_target id tok a)).
Proof.
  unfold activate_target. case_match; [by apply out_skip|]. case_match; [by apply out_skip|].
  destruct (ac_preparation a) as [[[id' tok'] g]|] eqn:Ep; [|by apply out_skip].
  case_match eqn:E; [by apply out_skip|]. norm_bool. subst id' tok'.
  change (ac_stage (a <| ac_current_token := tok |>)) with (ac_stage a).
  destruct (ac_stage a) as [st|] eqn:Es; [|by eapply out_activated].
  case_bool_decide as Hid; [|by eapply out_activated].
  destruct (apply_stage _) as [ev a'] eqn:Ea. cbn [fst snd].
  eapply out_apply; [by eapply enter_activate|]. by apply apply_stage_outcome.
Qed.

Lemma stage_outcome st a :
  exists ev a', stage_snapshot st a = Ret (ev, a') /\ outcome (StageSnapshot st) a ev a'.
Proof.
  assert (forall ev, quiet ev -> exists ev0 a', (Ret (ev, a) : answer ActorEvent) = Ret (ev0, a')
            /\ outcome (StageSnapshot st) a ev0 a') as Hskip.
  { intros ev Hq. exists ev, a. split; [done|by apply out_skip]. }
  unfold stage_snapshot.
  destruct (ss_data st) as [bytes| |r] eqn:Ed; [..|by apply Hskip].
  all: case_match; [by apply Hskip|]; case_match; [by apply Hskip|]; case_match; [by apply Hskip|];
    destruct (ac_preparation a) as [[[id tok] g]|] eqn:Ep; [|by apply Hskip];
    (case_match eqn:E; [by apply Hskip|]); norm_bool;
    repeat match goal with H : (_ =? _)%N = true |- _ => apply N.eqb_eq in H end; subst;
    assert (matches_preparation st a) as Hm by (split; [done|]; rewrite Ed; done);
    af; cbn [expect exec_bind];
    (case_bool_decide as Hc; [|eexists _, _; split; [reflexivity|by apply out_staged]]).
  all: match goal with |- context [apply_stage ?x] => destruct (apply_stage x) as [ev a'] eqn:Ea end;
    exists ev, a'; (split; [done|]);
    (eapply out_apply; [by apply enter_stage|by apply apply_stage_outcome]).
Qed.

Lemma cancel_outcome id a : outcome (CancelHandoff id) a (EvCanceled id) (cancel_handoff id a).
Proof.
  eapply out_quiet; [done| |apply only_native_refl]. unfold cancel_handoff.
  eexists (if match ac_preparation a with Some (p, _, _) => bool_decide (p = id) | None => false end
           then None else ac_preparation a),
    (if match ac_source_snapshot a with Some s => bool_decide (st_handoff_id s = Some id) | None => false end
     then None else ac_source_snapshot a),
    (if match ac_stage a with Some s => bool_decide (ss_handoff_id s = id) | None => false end
     then None else ac_stage a).
  destruct a as [b ps lh ct og ns prep src stg apl tx]. af.
  repeat split; try (case_match; [by right|by left]).
  destruct prep as [[[p t] g]|], src as [s|], stg as [st|];
    repeat (case_bool_decide; unfold set; cbn); try reflexivity; done.
Qed.

(** Every command is answered, with one of these outcomes. *)
Lemma handle_outcome cmd a : ActorOk a ->
  exists ev a', actor_handle cmd a = Ret (ev, a') /\ outcome cmd a ev a'.
Proof.
  intros Hok. destruct cmd as [tok| |id tok|id tok max|tok max|id tok|id sid|id tok|st|id|];
    cbn [actor_handle].
  - destruct (synchronize_authority tok a) as [ev a'] eqn:E. exists ev, a'. split; [done|].
    pose proof (synchronize_outcome tok a) as H. by rewrite E in H.
  - destruct (call be_generation a) as [[g|r] a1] eqn:E; apply call_generation in E as [O _].
    + eexists _, _. split; [reflexivity|]. eapply out_quiet; [done|apply shrunk_refl|].
      eapply only_native_trans; [exact O|apply only_native_observe].
    + eexists _, _. split; [reflexivity|].
      eapply out_quiet; [apply quiet_native_failure|apply shrunk_refl|exact O].
  - destruct (prepare_target id tok a) as [ev a'] eqn:E. exists ev, a'. split; [done|].
    pose proof (prepare_outcome id tok a) as H. by rewrite E in H.
  - apply (capture_outcome (Some id) tok max a).
  - apply (capture_outcome None tok max a).
  - by apply bind_outcome.
  - destruct (publish_snapshot id sid a) as [ev a'] eqn:E. exists ev, a'. split; [done|].
    pose proof (publish_outcome id sid a) as H. by rewrite E in H.
  - destruct (activate_target id tok a) as [ev a'] eqn:E. exists ev, a'. split; [done|].
    pose proof (activate_outcome id tok a) as H. by rewrite E in H.
  - apply stage_outcome.
  - eexists _, _. split; [reflexivity|]. apply cancel_outcome.
  - eexists _, _. split; [reflexivity|]. by apply out_skip.
Qed.

(** ** The invariant is kept *)

Lemma only_native_ok a a' : only_native a a' -> ActorOk a -> ActorOk a'.
Proof. intros (b & g & _ & ->) [H1 H2 H3 H4]. by split. Qed.

Lemma dropped_Some {A} (o o' : option A) x : dropped o o' -> o' = Some x -> o = Some x.
Proof. intros [-> | ->]; done. Qed.

Lemma shrunk_ok a a' : shrunk a a' -> ActorOk a -> ActorOk a'.
Proof.
  intros (p & s & st & Hp & Hs & Hst & ->) [H1 H2 H3 H4]. split; af; try done;
    intros; eauto using dropped_Some.
Qed.

Lemma entering_ok cmd a a1 st : entering cmd a a1 st -> ActorOk a -> ActorOk a1 /\ ac_stage a1 = Some st.
Proof.
  destruct 1 as [a id tok g st Hp Hs Hid|a st (Hp & Ho & Hps & Hd) Hc]; intros [H1 H2 H3 H4];
    (split; [|done]); split; af; try done.
  - intros id' tok' g' Heq. rewrite Hp in Heq. injection Heq as <- <- <-. naive_solver.
  - intros st' [= <-]. done.
Qed.

Lemma apply_outcome_ok a st ev a' : apply_outcome a st ev a' -> ActorOk a -> ActorOk a'.
Proof.
  destruct 1 as [ev Hne Hq|ev Hq|ev r b a' Ht Ha Hq O|g b Ht Ha identity]; intros Hok; [done|..].
  - destruct Hok as [H1 H2 H3 H4]. by split.
  - eapply only_native_ok; [exact O|]. destruct Hok as [H1 H2 H3 H4]. by split.
  - destruct Hok as [H1 H2 H3 H4]. by split.
Qed.

Lemma outcome_ok cmd a ev a' : outcome cmd a ev a' -> ActorOk a -> ActorOk a'.
Proof.
  destruct 1 as [cmd a a1 ev a' Hq Hs O|a tok ev s Hq Hs|a id tok H1 H2 H3 H4
                |cmd a a1 hid tok max data kind Hcmd Htok O Ht Hl Hr Hk Hn sid
                |a id tok s kind Hs Hh Ht Hk|a id sid s tx Hs Hh Hsid Htx|a id tok g ev Hp Hq
                |a st ev (Hp & Ho & Hps & Hd) Hq Hc|cmd a a1 st ev a' He Ha]; intros Hok.
  - eapply only_native_ok; [exact O|]. by eapply shrunk_ok.
  - destruct Hok as [I1 I2 I3 I4]. split; af; try done. intros. eauto using dropped_Some.
  - destruct Hok as [I1 I2 I3 I4]. split; af; try done.
    intros id' tok' g' [= <- <- <-]. done.
  - apply (only_native_ok _ _ O) in Hok. destruct O as (b & g & _ & ->).
    destruct Hok as [I1 I2 I3 I4]. split; af; try done.
    intros s [= <-]. cbn [st_data st_snapshot_id sid si_source_process_session_id si_sequence].
    split; [done|]. split; [done|]. lia.
  - destruct Hok as [I1 I2 I3 I4]. split; af; try done.
    intros s' [= <-]. cbn. by apply I1.
  - destruct Hok as [I1 I2 I3 I4]. by split.
  - destruct Hok as [I1 I2 I3 I4]. split; af; try done.
    intros id' tok' g' Heq. rewrite Hp in Heq. injection Heq as <- <- <-. naive_solver.
  - destruct Hok as [I1 I2 I3 I4]. split; af; try done. intros st' [= <-]. done.
  - apply (entering_ok _ _ _ _ He) in Hok as [Hok _]. by eapply apply_outcome_ok.
Qed.

Lemma actor_new_ok backend session host token g tx :
  ActorOk (actor_new backend session host token g tx).
Proof. by split. Qed.

(** ** Traces *)

(** The commands an actor handles, with their answers. *)
Inductive trace : Actor -> list (ActorCommand * ActorEvent) -> Actor -> Prop :=
| trace_nil a : trace a [] a
| trace_snoc a tr a1 cmd ev a2 :
    trace a tr a1 -> actor_handle cmd a1 = Ret (ev, a2) -> trace a (tr ++ [(cmd, ev)]) a2.

Lemma trace_cons a cmd ev a1 tr a2 :
  actor_handle cmd a = Ret (ev, a1) -> trace a1 tr a2 -> trace a ((cmd, ev) :: tr) a2.
Proof.
  intros Hh Ht. induction Ht as [a1|a1 tr a2 cmd' ev' a3 Ht IH Hh'].
  - apply (trace_snoc a [] a cmd ev a1); [constructor|done].
  - rewrite app_comm_cons. eapply trace_snoc; [by apply IH|done].
Qed.

(** Induction over the outcomes along a trace from an actor in order. *)
Lemma trace_induction (P : list (ActorCommand * ActorEvent) -> Actor -> Prop) a0 :
  ActorOk a0 -> P [] a0 ->
  (forall tr a cmd ev a', ActorOk a -> P tr a -> outcome cmd a ev a' -> P (tr ++ [(cmd, ev)]) a') ->
  forall tr a, trace a0 tr a -> P tr a.
Proof.
  intros Hok0 H0 HS tr a Ht.
  enough (ActorOk a /\ P tr a) as [_ H] by exact H.
  induction Ht as [a|a tr a1 cmd ev a2 Ht IH Hh]; [done|]. destruct (IH Hok0 H0) as [Hok HP].
  destruct (handle_outcome cmd a1 Hok) as (ev' & a' & Hh' & Ho). rewrite Hh' in Hh.
  injection Hh as -> ->. split; [by eapply outcome_ok|]. by eapply HS.
Qed.

(** The requests that end the thread. *)
Definition stops (cmd : ActorCommand) (ev : ActorEvent) : bool :=
  match cmd with Shutdown => true | _ => match ev with EvBackendUnavailable _ _ => true | _ => false end end.

Lemma actor_run_spec requests : forall a, ActorOk a ->
  exists answers a1 unread tr,
    actor_run requests a = Ret (answers, actor_finish a1, unread)
    /\ trace a tr a1
    /\ requests = take (length tr) requests ++ unread
    /\ tr.*1 = map arq_command (take (length tr) requests)
    /\ answers = zip (map arq_completion (take (length tr) requests)) (tr.*2)
    /\ (unread <> [] -> exists cmd ev, last tr = Some (cmd, ev) /\ stops cmd ev = true).
Proof.
  induction requests as [|rq requests IH]; intros a Hok; cbn [actor_run].
  - exists [], a, [], []. split; [done|]. split; [constructor|done].
  - destruct (handle_outcome (arq_command rq) a Hok) as (ev & a1 & Hh & Ho). rewrite Hh.
    cbn [exec_bind].
    assert (forall x, (match arq_command rq with Shutdown => true | _ => false end
            || match ev with EvBackendUnavailable _ _ => true | _ => false end) = x ->
            stops (arq_command rq) ev = x) as Hstop.
    { intros x <-. by destruct (arq_command rq), ev. }
    destruct (_ || _) eqn:Es.
    + exists [(arq_completion rq, ev)], a1, requests, [(arq_command rq, ev)].
      split; [done|]. split; [apply (trace_snoc a [] a); [constructor|done]|].
      cbn. split; [done|]. split; [done|]. split; [done|]. intros _.
      exists (arq_command rq), ev. split; [done|by apply Hstop].
    + destruct (IH a1) as (answers & a2 & unread & tr & -> & Ht & Hr & Hc & Ha & Hu);
        [by eapply outcome_ok|]. cbn [exec_bind fst snd].
      exists ((arq_completion rq, ev) :: answers), a2, unread, ((arq_command rq, ev) :: tr).
      split; [done|]. split; [by eapply trace_cons|]. cbn. split; [by rewrite <- Hr|].
      split; [by rewrite <- Hc|]. split; [by rewrite Ha|]. intros Hne.
      destruct (Hu Hne) as (cmd & ev' & Hlast & Hst). exists cmd, ev'. split; [|done].
      destruct tr as [|x tr]; [done|]. done.
Qed.
End invariant.
