(* ===== verification/ClipActorClaims.v ===== *)
(** * What the clipboard actor guarantees

    The claims about runs of the actor: totality, the fencing of native
    writes, one application per preparation, and the order of publications. *)

From stdpp Require Import base tactics list sets strings.
From Stdlib Require Import NArith Lia Sorting.Sorted Strings.Byte.
From S2P Require Import Prelude Channels Bytes ClipTypes ClipActor ClipActorTheorems.

(** ** A backend that records its writes *)

(** Any backend together with the list of the calls to its [apply]. *)
Definition Logged (B : Type) : Type := B * list (NativeGeneration * ClipboardData).

Definition logged_read {B A} (m : native B A) : native (Logged B) A :=
  fun '(b, log) => let '(r, b') := m b in (r, (b', log)).

#[global] Instance logged_backend {B} {HB : ClipboardBackend B} : ClipboardBackend (Logged B) := {
  be_initialize := logged_read be_initialize;
  be_generation := logged_read be_generation;
  be_capture max := logged_read (be_capture max);
  be_apply g d := fun '(b, log) => let '(r, b') := be_apply g d b in (r, (b', log ++ [(g, d)]));
  be_shutdown := fun '(b, log) => (be_shutdown b, log) }.

Lemma reads_log {B} {HB : ClipboardBackend B} (x y : Logged B) : reads x y -> snd y = snd x.
Proof.
  induction 1 as [|x r y z H _ ->|x max r y z H _ ->]; [done|..];
    destruct x as [b log]; cbn in H.
  - destruct (be_generation b) as [r' b']. by injection H as _ <-.
  - destruct (be_capture max b) as [r' b']. by injection H as _ <-.
Qed.

Lemma apply_log {B} {HB : ClipboardBackend B} g d (x y : Logged B) r :
  be_apply g d x = (r, y) -> snd y = snd x ++ [(g, d)].
Proof. destruct x as [b log]. cbn. destruct (be_apply g d b) as [r' b']. by intros [= _ <-]. Qed.

Abbreviation Trace := (list (ActorCommand * ActorEvent)).

(** The writes asked for by the stage commands of a trace. *)
Definition stage_write (st : StagedSnapshot) : NativeGeneration * ClipboardData :=
  (ss_baseline_generation st, ss_data st).
Definition staged (tr : Trace) : list (NativeGeneration * ClipboardData) :=
  omap (fun x => match fst x with StageSnapshot st => Some (stage_write st) | _ => None end) tr.

(** A command of the trace made the token current. *)
Definition made_current (tok : OwnershipToken) (tr : Trace) : Prop :=
  exists ev, (SynchronizeAuthority tok, ev) ∈ tr \/ exists id, (ActivateTarget id tok, ev) ∈ tr.

(** The stage was prepared by this actor, for this host and process. *)
Definition prepared_stage (session : N) (host : string) (st : StagedSnapshot) (tr : Trace) : Prop :=
  (PrepareTarget (ss_handoff_id st) (ss_target_token st),
   EvPrepared (ss_handoff_id st) (ss_target_token st) session (ss_baseline_generation st)) ∈ tr
  /\ tk_owner_host_id (ss_target_token st) = host
  /\ ss_target_process_session_id st = session
  /\ (forall r, ss_data st <> DataUnavailable r).

Lemma made_current_app tok tr x : made_current tok tr -> made_current tok (tr ++ x).
Proof. intros (ev & [H|(id & H)]); exists ev; set_solver. Qed.
Lemma prepared_stage_app session host st tr x :
  prepared_stage session host st tr -> prepared_stage session host st (tr ++ x).
Proof. intros (H & ?). split; [set_solver|done]. Qed.

Section writes.
Context {C : Type -> Type} {M : Mpsc C} {B : Type} {HB : ClipboardBackend B}.
Implicit Types (a : Actor (C:=C) (B:=Logged B)).
Variables (session : N) (host : string).

Definition log a := snd (ac_backend a).
Definition pending a : list (NativeGeneration * ClipboardData) :=
  match ac_stage a with Some st => [stage_write st] | None => [] end.

(** The token is not current, or a command made it so. *)
Definition fresh_or_made (tok : OwnershipToken) (tr : Trace) a : Prop :=
  tok <> ac_current_token a \/ made_current tok tr.

Record WritesOk (tr : Trace) a : Prop := {
  wo_session : ac_process_session_id a = session;
  wo_host : ac_local_host_id a = host;
  wo_prepared : forall id tok g, ac_preparation a = Some (id, tok, g) ->
    (PrepareTarget id tok, EvPrepared id tok session g) ∈ tr /\ fresh_or_made tok tr a;
  wo_stage : forall st, ac_stage a = Some st ->
    (exists ev, (StageSnapshot st, ev) ∈ tr) /\ prepared_stage session host st tr
    /\ fresh_or_made (ss_target_token st) tr a;
  wo_log : forall w, w ∈ log a -> exists st ev, w = stage_write st /\ (StageSnapshot st, ev) ∈ tr
    /\ prepared_stage session host st tr /\ made_current (ss_target_token st) tr;
  wo_order : log a ++ pending a `sublist_of` staged tr }.

Lemma fresh_or_made_app tok tr x a a' :
  fresh_or_made tok tr a -> ac_current_token a' = ac_current_token a ->
  fresh_or_made tok (tr ++ x) a'.
Proof. intros [H|H] Hc; [left; by rewrite Hc|right; by apply made_current_app]. Qed.

Lemma fresh_or_made_set tok tr x a' :
  made_current (ac_current_token a') (tr ++ x) -> fresh_or_made tok (tr ++ x) a'.
Proof.
  intros H. destruct (decide (tok = ac_current_token a')) as [->|Hne]; [by right|by left].
Qed.

Lemma staged_app tr x : staged (tr ++ x) = staged tr ++ staged x.
Proof. apply omap_app. Qed.

(** Steps that write nothing and install nothing new. *)
Lemma writes_frame tr a a' x :
  WritesOk tr a ->
  ac_process_session_id a' = ac_process_session_id a -> ac_local_host_id a' = ac_local_host_id a ->
  dropped (ac_preparation a) (ac_preparation a') -> dropped (ac_stage a) (ac_stage a') ->
  (ac_current_token a' = ac_current_token a \/ made_current (ac_current_token a') (tr ++ x)) ->
  log a' = log a -> WritesOk (tr ++ x) a'.
Proof.
  intros [H1 H2 H3 H4 H5 H6] E1 E2 Hp Hs Hc Hl.
  assert (forall tok, fresh_or_made tok tr a -> fresh_or_made tok (tr ++ x) a') as Hf.
  { intros tok Hf. destruct Hc as [Hc|Hc]; [by eapply fresh_or_made_app|by apply fresh_or_made_set]. }
  split; try congruence.
  - intros id tok g Hp'. destruct (H3 id tok g) as [Hin Hfm]; [by eapply dropped_Some|].
    split; [set_solver|by apply Hf].
  - intros st Hs'. destruct (H4 st) as ((ev & Hin) & Hpr & Hfm); [by eapply dropped_Some|].
    split; [exists ev; set_solver|]. split; [by apply prepared_stage_app|by apply Hf].
  - intros w Hw. rewrite Hl in Hw. destruct (H5 w Hw) as (st & ev & -> & Hin & Hpr & Hm).
    exists st, ev. split; [done|]. split; [set_solver|].
    split; [by apply prepared_stage_app|by apply made_current_app].
  - rewrite Hl, staged_app. apply sublist_inserts_r. etrans; [|exact H6]. apply sublist_app; [done|].
    unfold pending. destruct Hs as [-> | ->]; [done|apply sublist_nil_l].
Qed.

Lemma log_native a a' : only_native a a' -> log a' = log a.
Proof. intros (b & g & H & ->). unfold log. af. by apply reads_log. Qed.

Lemma native_frame a a' : only_native a a' ->
  ac_process_session_id a' = ac_process_session_id a /\ ac_local_host_id a' = ac_local_host_id a
  /\ ac_preparation a' = ac_preparation a /\ ac_stage a' = ac_stage a
  /\ ac_current_token a' = ac_current_token a /\ ac_source_snapshot a' = ac_source_snapshot a
  /\ ac_next_snapshot_sequence a' = ac_next_snapshot_sequence a.
Proof. intros (b & g & _ & ->). done. Qed.

(** The state in which [apply_stage] is entered, with the stage it finds. *)
Lemma writes_entering tr a cmd a1 st ev :
  WritesOk tr a -> entering cmd a a1 st ->
  WritesOk (tr ++ [(cmd, ev)]) a1 /\ ac_stage a1 = Some st.
Proof.
  intros Hw He. destruct He as [a id tok g st Hp Hs Hid|a st (Hp & Ho & Hps & Hd) Hc].
  - split; [|done]. apply (writes_frame tr a); [done|done|done|by left|by left| |done].
    right. exists ev. right. exists id. set_solver.
  - destruct Hw as [H1 H2 H3 H4 H5 H6]. split; [|done].
    destruct (H3 _ _ _ Hp) as [Hin Hfm].
    assert (prepared_stage session host st (tr ++ [(StageSnapshot st, ev)])) as Hpr.
    { split; [set_solver|]. rewrite <- H2, <- H1. done. }
    split; af; try done.
    + intros id' tok' g' Heq. destruct (H3 _ _ _ Heq) as [Hin' Hfm']. split; [set_solver|].
      by eapply fresh_or_made_app.
    + intros st' [= <-]. split; [exists ev; set_solver|]. split; [done|].
      by eapply fresh_or_made_app.
    + intros w Hw. destruct (H5 w Hw) as (st' & ev' & -> & Hin' & Hpr' & Hm').
      exists st', ev'. split; [done|]. split; [set_solver|].
      split; [by apply prepared_stage_app|by apply made_current_app].
    + rewrite staged_app. apply sublist_app; [|done].
      etrans; [|exact H6]. by apply sublist_inserts_r.
Qed.

(** A call of [apply] for the installed stage. *)
Lemma writes_written tr a st (a' : Actor (C:=C) (B:=Logged B)) :
  WritesOk tr a -> ac_stage a = Some st -> ss_target_token st = ac_current_token a ->
  ac_process_session_id a' = ac_process_session_id a -> ac_local_host_id a' = ac_local_host_id a ->
  dropped (ac_preparation a) (ac_preparation a') -> ac_stage a' = None ->
  ac_current_token a' = ac_current_token a ->
  log a' = log a ++ [stage_write st] -> WritesOk tr a'.
Proof.
  intros [H1 H2 H3 H4 H5 H6] Hst Ht E1 E2 Hp Hs Hc Hl.
  destruct (H4 st Hst) as ((ev & Hin) & Hpr & Hfm).
  split; try congruence.
  - intros id tok g Hp'. destruct (H3 id tok g) as [Hin' Hfm']; [by eapply dropped_Some|].
    split; [done|]. destruct Hfm' as [Hne|Hm]; [left; congruence|by right].
  - intros w Hw. rewrite Hl in Hw. apply elem_of_app in Hw as [Hw|Hw]; [by apply H5|].
    apply list_elem_of_singleton in Hw as ->. exists st, ev. split; [done|]. split; [done|].
    split; [done|]. destruct Hfm; done.
  - rewrite Hl. unfold pending in *. rewrite Hs, app_nil_r. by rewrite Hst in H6.
Qed.

Lemma writes_outcome tr a cmd ev a' :
  WritesOk tr a -> outcome cmd a ev a' -> WritesOk (tr ++ [(cmd, ev)]) a'.
Proof.
  intros Hw Ho.
  destruct Ho as [cmd a a1 ev a' Hq (p & s & st & Hp & Hs & Hst & ->) O|a tok ev s Hq Hs
                 |a id tok H1 H2 H3 H4|cmd a a1 hid tok max data kind Hcmd Htok O Ht Hl Hr Hk Hn sid
                 |a id tok s kind Hs Hh Ht Hk|a id sid s tx Hs Hh Hsid Htx|a id tok g ev Hp Hq
                 |a st ev (Hp & Ho & Hps & Hd) Hq Hc|cmd a a1 st ev a' He Ha].
  - pose proof (log_native _ _ O) as Hlog. apply native_frame in O as (E1&E2&E3&E4&E5&_).
    apply (writes_frame tr a); [done|done|done|by rewrite E3|by rewrite E4|by left|done].
  - apply (writes_frame tr a); [done|done|done|by right|by right| |done].
    right. exists ev. left. set_solver.
  - destruct Hw as [W1 W2 W3 W4 W5 W6].
    assert (WritesOk (tr ++ [(PrepareTarget id tok, EvPrepared id tok (ac_process_session_id a)
              (ac_observed_generation a))]) a) as [V1 V2 V3 V4 V5 V6].
    { apply (writes_frame tr a); [by split|done|done|by left|by left|by left|done]. }
    split; try done. intros id' tok' g' [= <- <- <-]. split.
    + rewrite <- W1. set_solver.
    + left. done.
  - pose proof (log_native _ _ O) as Hlog. apply native_frame in O as (E1&E2&E3&E4&E5&_).
    apply (writes_frame tr a); [done|done|done|by left|by left|by left|done].
  - apply (writes_frame tr a); [done|done|done|by left|by left|by left|done].
  - apply (writes_frame tr a); [done|done|done|by left|by left|by left|done].
  - apply (writes_frame tr a); [done|done|done|by left|by left| |done].
    right. exists ev. right. exists id. set_solver.
  - destruct Hw as [W1 W2 W3 W4 W5 W6]. destruct (W3 _ _ _ Hp) as [Hin Hfm].
    split; af; try done.
    + intros id' tok' g' Heq. destruct (W3 _ _ _ Heq). split; [set_solver|].
      by eapply fresh_or_made_app.
    + intros st' [= <-]. split; [exists ev; set_solver|]. split; [|by eapply fresh_or_made_app].
      split; [set_solver|]. rewrite <- W1, <- W2. done.
    + intros w Hw. destruct (W5 w Hw) as (st' & ev' & -> & Hin' & Hpr' & Hm').
      exists st', ev'. split; [done|]. split; [set_solver|].
      split; [by apply prepared_stage_app|by apply made_current_app].
    + rewrite staged_app. apply sublist_app; [|done].
      etrans; [|exact W6]. by apply sublist_inserts_r.
  - destruct (writes_entering tr a cmd a1 st ev Hw He) as [Hw1 Hst].
    destruct Ha as [ev Hne Hq|ev Hq|ev r b a' Ht Ha Hq O|g b Ht Ha identity]; [done|..].
    + rewrite <- (app_nil_r (tr ++ _)).
      apply (writes_frame _ a1); [done|done|done|by left|by right|by left|done].
    + pose proof (log_native _ _ O) as Hlog. apply native_frame in O as (E1&E2&E3&E4&E5&_).
      apply (writes_written _ a1 st); try done; [by left|].
      rewrite Hlog. unfold log. af. by apply apply_log in Ha.
    + apply (writes_written _ a1 st); try done; [by right|]. unfold log. af. by apply apply_log in Ha.
Qed.
End writes.

(** ** Counting preparations and applications *)

Definition count (p : ActorEvent -> bool) (tr : Trace) : nat := length (List.filter (fun x => p (snd x)) tr).
Definition is_prepared (id : HandoffId) (ev : ActorEvent) : bool :=
  match ev with EvPrepared i _ _ _ => bool_decide (i = id) | _ => false end.
Definition is_applied (id : HandoffId) (ev : ActorEvent) : bool :=
  match ev with EvApplied i => bool_decide (ai_handoff_id i = id) | _ => false end.

Lemma count_snoc p tr cmd ev : count p (tr ++ [(cmd, ev)]) = count p tr + (if p ev then 1 else 0).
Proof.
  unfold count. rewrite List.filter_app, List.length_app. cbn. by destruct (p ev).
Qed.

Lemma quiet_not_counted id ev : quiet ev -> is_prepared id ev = false /\ is_applied id ev = false.
Proof. by destruct ev. Qed.

Section counting.
Context {C : Type -> Type} {M : Mpsc C} {B : Type} {HB : ClipboardBackend B}.
Implicit Types (a : Actor (C:=C) (B:=B)).

(** The preparation in force for a handoff. *)
Definition in_force (id : HandoffId) a : nat :=
  match ac_preparation a with Some (i, _, _) => if decide (i = id) then 1 else 0 | None => 0 end.

Lemma in_force_dropped id a a' :
  dropped (ac_preparation a) (ac_preparation a') -> in_force id a' <= in_force id a.
Proof. unfold in_force. intros [-> | ->]; lia. Qed.

Lemma applied_prepared_outcome id tr a cmd ev a' :
  count (is_applied id) tr + in_force id a <= count (is_prepared id) tr ->
  outcome cmd a ev a' ->
  count (is_applied id) (tr ++ [(cmd, ev)]) + in_force id a'
  <= count (is_prepared id) (tr ++ [(cmd, ev)]).
Proof.
  intros Hle Ho. rewrite !count_snoc.
  assert (forall ev a', quiet ev -> dropped (ac_preparation a) (ac_preparation a') ->
    count (is_applied id) tr + (if is_applied id ev then 1 else 0) + in_force id a'
    <= count (is_prepared id) tr + (if is_prepared id ev then 1 else 0)) as Hq.
  { intros ev0 a0 [-> ->]%(quiet_not_counted id) Hd%(in_force_dropped id). lia. }
  destruct Ho as [cmd a a1 ev a' Hqu (p & s & st & Hp & Hs & Hst & ->) (b & g & _ & ->)
                 |a tok ev s Hqu Hs|a i tok H1 H2 H3 H4
                 |cmd a a1 hid tok max data kind Hcmd Htok (b & g & _ & ->) Ht Hl Hr Hk Hn sid
                 |a i tok s kind Hs Hh Ht Hk|a i sid s tx Hs Hh Hsid Htx|a i tok g ev Hp Hqu
                 |a st ev Hm Hqu Hc|cmd a a1 st ev a' He Ha].
  - by apply Hq.
  - apply Hq; [done|by right].
  - unfold in_force in *. af. cbn [is_applied is_prepared]. rewrite decide_bool_decide.
    case_bool_decide; lia.
  - destruct hid; cbn [is_applied is_prepared];
      match goal with |- context [in_force id ?x] => change (in_force id x) with (in_force id a) end; lia.
  - cbn [is_applied is_prepared].
    match goal with |- context [in_force id ?x] => change (in_force id x) with (in_force id a) end. lia.
  - cbn [is_applied is_prepared].
    match goal with |- context [in_force id ?x] => change (in_force id x) with (in_force id a) end. lia.
  - apply Hq; [done|by left].
  - apply Hq; [done|by left].
  - assert (exists tok g, ac_preparation a = Some (ss_handoff_id st, tok, g)
                          /\ ac_preparation a1 = ac_preparation a) as (tok & g0 & Hp & Hp1).
    { destruct He as [a i tok g st Hp Hs Hid|a st (Hp & _) _]; [subst i|]; eauto. }
    destruct Ha as [ev Hne Hqu|ev Hqu|ev r b a' Ht Ha Hqu (b' & g & _ & ->)|g b Ht Ha identity].
    + apply Hq; [done|by left].
    + apply Hq; [done|by left].
    + apply Hq; [done|by left].
    + unfold in_force in *. af. rewrite Hp in Hle. cbn [is_applied is_prepared identity ai_handoff_id].
      rewrite decide_bool_decide in Hle. case_bool_decide; lia.
Qed.

(** ** Publications *)

Definition published (tr : Trace) : list N :=
  omap (fun x => match snd x with EvPublished _ sid => Some (si_sequence sid) | _ => None end) tr.

Definition captured_in (tr : Trace) (id : HandoffId) (sid : SnapshotId) : Prop :=
  exists cmd tok k n, (cmd, EvCaptured id tok sid k n) ∈ tr.

Record PublishedOk (session : N) (tr : Trace) a : Prop := {
  po_session : ac_process_session_id a = session;
  po_sorted : StronglySorted N.lt (published tr);
  po_next : Forall (fun n => n <= ac_next_snapshot_sequence a)%N (published tr);
  po_source : forall s, ac_source_snapshot a = Some s ->
    Forall (fun n => n < si_sequence (st_snapshot_id s))%N (published tr)
    /\ (forall id, st_handoff_id s = Some id -> captured_in tr id (st_snapshot_id s));
  po_captured : forall cmd id sid, (cmd, EvPublished id sid) ∈ tr ->
    si_source_process_session_id sid = session /\ captured_in tr id sid }.

Lemma published_app tr x : published (tr ++ x) = published tr ++ published x.
Proof. apply omap_app. Qed.
Lemma captured_in_app tr x id sid : captured_in tr id sid -> captured_in (tr ++ x) id sid.
Proof. intros (cmd & tok & k & n & H). exists cmd, tok, k, n. set_solver. Qed.

(** Steps that publish nothing and store nothing new. *)
Lemma published_frame session tr a a' cmd ev :
  PublishedOk session tr a -> (forall id sid, ev <> EvPublished id sid) ->
  ac_process_session_id a' = ac_process_session_id a ->
  (ac_next_snapshot_sequence a <= ac_next_snapshot_sequence a')%N ->
  dropped (ac_source_snapshot a) (ac_source_snapshot a') ->
  PublishedOk session (tr ++ [(cmd, ev)]) a'.
Proof.
  intros [H1 H2 H3 H4 H5] Hev E1 E2 Hs.
  assert (published (tr ++ [(cmd, ev)]) = published tr) as Hpub.
  { rewrite published_app. cbn. destruct ev; try (by rewrite app_nil_r). by destruct (Hev handoff_id snapshot_id). }
  split; rewrite ?Hpub; try done; [congruence|..].
  - eapply Forall_impl; [exact H3|]. cbn. intros n Hn. lia.
  - intros s Hs'. destruct (H4 s) as [Hf Hc]; [by eapply dropped_Some|]. split; [done|].
    intros id Hid. by apply captured_in_app, Hc.
  - intros cmd' id sid [Hin|Hin%list_elem_of_singleton]%elem_of_app.
    + destruct (H5 _ _ _ Hin). split; [done|by apply captured_in_app].
    + injection Hin as _ Hev'. by destruct (Hev id sid).
Qed.

Lemma quiet_not_published ev : quiet ev -> forall id sid, ev <> EvPublished id sid.
Proof. by intros H id sid ->. Qed.

Lemma entering_frame cmd a a1 st : entering cmd a a1 st ->
  ac_process_session_id a1 = ac_process_session_id a
  /\ ac_next_snapshot_sequence a1 = ac_next_snapshot_sequence a
  /\ ac_source_snapshot a1 = ac_source_snapshot a.
Proof. by destruct 1. Qed.

Lemma apply_frame a st ev a' : apply_outcome a st ev a' ->
  (forall id sid, ev <> EvPublished id sid)
  /\ ac_process_session_id a' = ac_process_session_id a
  /\ ac_next_snapshot_sequence a' = ac_next_snapshot_sequence a
  /\ ac_source_snapshot a' = ac_source_snapshot a.
Proof.
  destruct 1 as [ev Hne Hq|ev Hq|ev r b a' Ht Ha Hq (b' & g & _ & ->)|g b Ht Ha identity];
    (split; [|done]); try (by apply quiet_not_published). by intros id sid [=].
Qed.

Lemma published_outcome session tr a cmd ev a' :
  ActorOk a -> PublishedOk session tr a -> outcome cmd a ev a' ->
  PublishedOk session (tr ++ [(cmd, ev)]) a'.
Proof.
  intros Hok Hp Ho.
  destruct Ho as [cmd a a1 ev a' Hqu (p & s & st & Hpr & Hs & Hst & ->) (b & g & _ & ->)
                 |a tok ev s Hqu Hs|a i tok H1 H2 H3 H4
                 |cmd a a1 hid tok max data kind Hcmd Htok (b & g & _ & ->) Ht Hl Hr Hk Hn sid
                 |a i tok s kind Hs Hh Ht Hk|a i sid s tx Hs Hh Hsid Htx|a i tok g ev Hpr Hqu
                 |a st ev Hm Hqu Hc|cmd a a1 st ev a' He Ha].
  - apply (published_frame session tr a); try done. by apply quiet_not_published.
  - apply (published_frame session tr a); try done. by apply quiet_not_published.
  - apply (published_frame session tr a); try done. by left.
  - assert (PublishedOk session (tr ++ [(cmd,
        match hid with Some i => EvCaptured i tok sid kind (data_len data)
        | None => EvProvisionalCaptured tok sid kind (data_len data) end)])
        (a <| ac_next_snapshot_sequence := (ac_next_snapshot_sequence a + 1)%N |>)) as [W1 W2 W3 W4 W5].
    { apply (published_frame session tr a); [done|by destruct hid|done|af; lia|by left]. }
    split; try done. intros s [= <-]. cbn [st_snapshot_id st_handoff_id sid si_sequence]. split.
    + destruct Hp as [_ _ H3 _ _]. rewrite published_app. replace (published [_]) with (@nil N)
        by (by destruct hid). rewrite app_nil_r. eapply Forall_impl; [exact H3|]. cbn. intros n Hn'. lia.
    + intros id ->. exists cmd, tok, kind, (data_len data). set_solver.
  - assert (PublishedOk session (tr ++ [(BindProvisional i tok,
        EvCaptured i tok (st_snapshot_id s) kind (data_len (st_data s)))]) a) as [W1 W2 W3 W4 W5].
    { apply (published_frame session tr a); [done|done|done|lia|by left]. }
    split; try done. intros s' [= <-]. cbn. destruct (W4 s Hs) as [Hf _]. split; [done|].
    intros id [= <-]. exists (BindProvisional i tok), tok, kind, (data_len (st_data s)). set_solver.
  - destruct Hp as [H1 H2 H3 H4 H5]. destruct (H4 s Hs) as [Hf Hcap]. subst sid.
    destruct (ok_source a Hok s Hs) as (_ & Hsess & Hseq).
    split; af; try done; rewrite ?published_app; cbn [published omap list_omap snd].
    + by apply StronglySorted_snoc.
    + apply Forall_app. split; [done|]. repeat constructor. lia.
    + intros cmd' id sid [Hin|Hin%list_elem_of_singleton]%elem_of_app.
      * destruct (H5 _ _ _ Hin). split; [done|by apply captured_in_app].
      * injection Hin as _ -> ->. split; [congruence|]. by apply captured_in_app, Hcap.
  - apply (published_frame session tr a); [done|by apply quiet_not_published|done|af; lia|by left].
  - apply (published_frame session tr a); [done|by apply quiet_not_published|done|af; lia|by left].
  - apply entering_frame in He as (E1 & E2 & E3). apply apply_frame in Ha as (Hev & F1 & F2 & F3).
    apply (published_frame session tr a); [done|done|congruence|lia|left; congruence].
Qed.
End counting.

(** ** The claims *)

(** the actor thread answers.  Whatever commands arrive and however the
    backend behaves, the thread never panics; the requests it reads are a
    prefix of those sent, each is answered once, in order, on its own reply
    channel; requests stay unread only after a shutdown command or the loss of
    the backend; and when the thread ends the backend is shut down and no
    contents, stage or preparation is left. *)
Theorem actor_answers {C} {M : Mpsc C} {B} {HB : ClipboardBackend B} requests
  (backend : B) session host token g (tx : C ActorPayload) :
  exists answers a unread handled,
    actor_run requests (actor_new backend session host token g tx) = Ret (answers, a, unread)
    /\ requests = handled ++ unread
    /\ answers.*1 = map arq_completion handled
    /\ (unread <> [] -> exists rq completion ev, last handled = Some rq
          /\ last answers = Some (completion, ev) /\ stops (arq_command rq) ev = true)
    /\ ac_source_snapshot a = None /\ ac_stage a = None /\ ac_preparation a = None
    /\ exists b, ac_backend a = be_shutdown b.
Proof.
  destruct (actor_run_spec requests _ (actor_new_ok backend session host token g tx))
    as (answers & a1 & unread & tr & Hrun & Ht & Hr & Hc & Ha & Hu).
  assert (length tr = length (take (length tr) requests)) as Hlen.
  { apply (f_equal length) in Hc. by rewrite length_fmap, length_map in Hc. }
  exists answers, (actor_finish a1), unread, (take (length tr) requests).
  split; [done|]. split; [done|]. split.
  { rewrite Ha, fst_zip; [done|]. rewrite length_map, length_fmap. lia. }
  split; [|repeat split; by exists (ac_backend a1)]. intros Hne.
  destruct (Hu Hne) as (cmd & ev & Hlast & Hst).
  generalize dependent (take (length tr) requests). intros handled Hr Hc Ha Hlen.
  apply last_Some in Hlast as (tr' & ->). rewrite fmap_app in Hc. rewrite fmap_app in Ha.
  cbn in Hc, Ha.
  destruct handled as [|rq handled _] using rev_ind.
  { rewrite length_app in Hlen. cbn in Hlen. lia. }
  rewrite map_app in Hc. rewrite map_app in Ha. cbn in Hc, Ha. apply app_inj_tail in Hc as [Hc ->].
  exists rq, (arq_completion rq), ev. split; [apply last_snoc|]. split; [|done].
  rewrite Ha, zip_with_app; [apply last_snoc|].
  rewrite length_map, length_fmap. rewrite !length_app in Hlen. cbn in Hlen. lia.
Qed.

(** C20: native writes are fenced.  In every run of the actor over any backend,
    the calls to the backend's [apply] are, in order and each at most once,
    among the staged snapshots it was sent; and each of them was staged for
    this host and this process, after this actor had prepared that very
    handoff, target token and baseline generation, and with the target token
    made current by an activation or by the authority.  Unavailable data is
    never written. *)
Theorem native_writes_fenced {C} {M : Mpsc C} {B} {HB : ClipboardBackend B}
  (backend : B) session host token g (tx : C ActorPayload) tr a :
  trace (actor_new (B:=Logged B) (backend, []) session host token g tx) tr a ->
  snd (ac_backend a) `sublist_of` staged tr
  /\ forall w, w ∈ snd (ac_backend a) ->
     exists st ev, w = stage_write st /\ (StageSnapshot st, ev) ∈ tr
       /\ prepared_stage session host st tr /\ made_current (ss_target_token st) tr.
Proof.
  intros Ht. assert (WritesOk session host tr a) as [_ _ _ _ H5 H6].
  { revert tr a Ht. apply trace_induction; [apply actor_new_ok| |].
    - split; try done. intros w H. by apply not_elem_of_nil in H.
    - intros tr a cmd ev a' _ Hw Ho. by eapply writes_outcome. }
  split; [|exact H5]. etrans; [|exact H6]. by apply sublist_inserts_r.
Qed.

(** each preparation leads to at most one applied snapshot: in every run,
    however often a snapshot is delivered, staged or activated again, the
    number of applied answers for a handoff is at most the number of times
    that handoff was prepared. *)
Theorem applied_once_per_preparation {C} {M : Mpsc C} {B} {HB : ClipboardBackend B}
  (backend : B) session host token g (tx : C ActorPayload) tr a id :
  trace (actor_new backend session host token g tx) tr a ->
  count (is_applied id) tr <= count (is_prepared id) tr.
Proof.
  intros Ht.
  enough (count (is_applied id) tr + in_force id a <= count (is_prepared id) tr) by lia.
  revert tr a Ht. apply trace_induction; [apply actor_new_ok|done|].
  intros tr a cmd ev a' _ H Ho. by eapply applied_prepared_outcome.
Qed.

(** published snapshots are captured ones, in order.  In every run the
    sequence numbers of the published snapshots are strictly increasing, so no
    snapshot is published twice; each carries the process session of the actor
    and was captured for, or bound to, the handoff it is published for. *)
Theorem published_in_order {C} {M : Mpsc C} {B} {HB : ClipboardBackend B}
  (backend : B) session host token g (tx : C ActorPayload) tr a :
  trace (actor_new backend session host token g tx) tr a ->
  StronglySorted N.lt (published tr)
  /\ forall cmd id sid, (cmd, EvPublished id sid) ∈ tr ->
     si_source_process_session_id sid = session /\ captured_in tr id sid.
Proof.
  intros Ht. assert (PublishedOk session tr a) as [_ H2 _ _ H5]; [|done].
  revert tr a Ht. apply trace_induction; [apply actor_new_ok| |].
  - split; try done; cbn; [constructor|]. intros cmd id sid H. by apply not_elem_of_nil in H.
  - intros tr a cmd ev a' Hok Hp Ho. by eapply published_outcome.
Qed.

(** captures are stable.  A capture that is answered with a snapshot stored
    valid text or an explicit empty within the limit, read from the backend
    between two equal readings of the generation, under the current token and
    the next sequence number; any other answer leaves the stored snapshot, the
    sequence and the token as they were.  One of the two always happens. *)
Theorem capture_stable {C} {M : Mpsc C} {B} {HB : ClipboardBackend B}
  hid tok max (a : Actor (C:=C) (B:=B)) :
  exists ev a', capture_source hid tok max a = Ret (ev, a')
    /\ ((exists data, tok = ac_current_token a /\ transferable data
           /\ (N.of_nat (data_len data) <= max)%N /\ stable_reading max data (ac_backend a')
           /\ ac_next_snapshot_sequence a' = (ac_next_snapshot_sequence a + 1)%N
           /\ ac_source_snapshot a' = Some (mkStored hid tok
                (mkSnapshotId (ac_process_session_id a) (ac_next_snapshot_sequence a + 1)) data))
        \/ quiet ev /\ ac_source_snapshot a' = ac_source_snapshot a
           /\ ac_next_snapshot_sequence a' = ac_next_snapshot_sequence a
           /\ ac_current_token a' = ac_current_token a).
Proof.
  unfold capture_source. case_match eqn:E1; [eexists _, a; split; [done|right; done]|]. norm_bool.
  case_match eqn:E2; [eexists _, a; split; [done|right; done]|].
  destruct (stable_capture_spec max a) as (r & a1 & -> & (b & g & _ & ->) & Hd). cbn [exec_bind].
  destruct r as [data|[r|r]];
    [|eexists _, _; split; [done|right; split; [apply quiet_native_failure|done]]
     |eexists _, _; split; [done|right; done]].
  destruct (Hd data eq_refl) as (Ht & Hl & Hs). af.
  destruct (checked_add (ac_next_snapshot_sequence a) 1) as [n|] eqn:En;
    [|eexists _, _; split; [done|right; split; [apply quiet_native_failure|done]]].
  apply checked_add_Some in En as [-> Hn].
  destruct (expect_kind_transferable data "stable capture rejects unavailable clipboard data" Ht)
    as (k & Hk). rewrite Hk. cbn [exec_bind].
  eexists _, _. split; [reflexivity|]. left. exists data. done.
Qed.

(** ** A concrete backend and run *)

(** A clipboard in memory: its generation and its contents. *)
Definition Memory : Type := N * ClipboardData.
#[global] Instance memory_backend : ClipboardBackend Memory := {
  be_initialize m := (inl (fst m), m);
  be_generation m := (inl (fst m), m);
  be_capture _ m := (inl (snd m), m);
  be_apply expected data m :=
    if (expected =? fst m)%N then (inl (fst m + 1)%N, ((fst m + 1)%N, data))
    else (inr DestinationChanged, m);
  be_shutdown m := m }.

Definition demo_here : OwnershipToken := mkToken 7 1 "desk".
Definition demo_next : OwnershipToken := mkToken 7 3 "desk".
Definition demo_out : HandoffId := mkHandoffId 7 1.
Definition demo_in : HandoffId := mkHandoffId 7 2.
Definition demo_stage : StagedSnapshot :=
  mkStaged demo_in (mkSnapshotId 5 1) demo_next 9 4 (Text ["y"; "o"]%byte).

(** A snapshot leaves, then another one is prepared, staged and activated. *)
Definition demo_commands : list ActorCommand :=
  [ CaptureSource demo_out demo_here 16; PublishSnapshot demo_out (mkSnapshotId 9 1);
    PrepareTarget demo_in demo_next; StageSnapshot demo_stage; ActivateTarget demo_in demo_next ].

Fixpoint play {C} {M : Mpsc C} {B} {HB : ClipboardBackend B} (cmds : list ActorCommand)
  (a : Actor (C:=C) (B:=B)) : Trace * Actor (C:=C) (B:=B) :=
  match cmds with
  | [] => ([], a)
  | cmd :: cmds =>
      match actor_handle cmd a with
      | Ret (ev, a) => let '(tr, a) := play cmds a in ((cmd, ev) :: tr, a)
      | _ => ([], a)
      end
  end.

Lemma play_trace {C} {M : Mpsc C} {B} {HB : ClipboardBackend B} cmds :
  forall a : Actor (C:=C) (B:=B), trace a (fst (play cmds a)) (snd (play cmds a)).
Proof.
  induction cmds as [|cmd cmds IH]; intros a; cbn [play]; [constructor|].
  destruct (actor_handle cmd a) as [[ev a1]| |] eqn:E; [|constructor..].
  specialize (IH a1). destruct (play cmds a1) as [tr a2]. by eapply trace_cons.
Qed.

Definition demo_queue {A} : ListChan A := mkChan [] 1 false false.
Definition demo_logged : Actor (C:=ListChan) (B:=Logged Memory) :=
  actor_new ((4%N, Empty), []) 9 "desk" demo_here 4 demo_queue.
Definition demo_actor : Actor (C:=ListChan) (B:=Memory) :=
  actor_new (4%N, Empty) 9 "desk" demo_here 4 demo_queue.

Lemma native_writes_fenced_witness :
  let a := snd (play demo_commands demo_logged) in
  snd (ac_backend a) = [stage_write demo_stage]
  /\ exists st ev, stage_write demo_stage = stage_write st
       /\ (StageSnapshot st, ev) ∈ fst (play demo_commands demo_logged)
       /\ prepared_stage 9 "desk" st (fst (play demo_commands demo_logged))
       /\ made_current (ss_target_token st) (fst (play demo_commands demo_logged)).
Proof.
  intros a. split; [vm_compute; reflexivity|].
  apply (native_writes_fenced (4%N, Empty) 9 "desk" demo_here 4 demo_queue
           (fst (play demo_commands demo_logged)) a (play_trace demo_commands demo_logged)).
  vm_compute. constructor.
Defined.

Lemma applied_once_per_preparation_witness :
  count (is_applied demo_in) (fst (play demo_commands demo_actor)) = 1
  /\ 1 <= count (is_prepared demo_in) (fst (play demo_commands demo_actor)).
Proof.
  split; [vm_compute; reflexivity|].
  exact (applied_once_per_preparation (4%N, Empty) 9 "desk" demo_here 4 demo_queue
           _ _ demo_in (play_trace demo_commands demo_actor)).
Defined.

Lemma published_in_order_witness :
  published (fst (play demo_commands demo_actor)) = [1%N]
  /\ StronglySorted N.lt (published (fst (play demo_commands demo_actor))).
Proof.
  split; [vm_compute; reflexivity|].
  exact (proj1 (published_in_order (4%N, Empty) 9 "desk" demo_here 4 demo_queue
           _ _ (play_trace demo_commands demo_actor))).
Defined.
