(* ===== verification/ProtoWire.v ===== *)
(** * The input protocol on the wire (lan-mouse-proto/src/lib.rs, input-event/src/lib.rs)

    Events between peers travel in datagrams of at most [MAX_EVENT_SIZE]
    bytes: a type byte and the fields in network byte order.  A floating-point
    field is its 64-bit pattern, which is what [to_be_bytes] and
    [from_be_bytes] transmit.  Slicing past the end of the buffer panics, as
    [split_at] does. *)

From stdpp Require Import base tactics list strings.
From Stdlib Require Import NArith ZArith Lia Strings.Byte.
From S2P Require Import Prelude Bytes.

Definition MAX_EVENT_SIZE : nat := 1 + 4 + 2 * 8.

(** ** Events *)

Inductive PointerEvent :=
| Motion (time dx dy : N)
| Button (time button state : N)
| Axis (time axis value : N)
| AxisDiscrete120 (axis : N) (value : Z).

Inductive KeyboardEvent :=
| Key (time key state : N)
| Modifiers (depressed latched locked group : N).

Inductive InputEvent :=
| Pointer (p : PointerEvent)
| Keyboard (k : KeyboardEvent).

Inductive ProtoPosition := PosLeft | PosRight | PosTop | PosBottom.
#[global] Instance ProtoPosition_eq_dec : EqDecision ProtoPosition.
Proof. solve_decision. Defined.

Inductive ProtoEvent :=
| Enter (pos : ProtoPosition)
| Leave (serial : N)
| Ack (serial : N)
| Input (e : InputEvent)
| Ping
| Pong (alive : bool)
| Hello (commit : list byte)
| Readiness (keyboard_ready pointer_ready : bool) (session_epoch : N)
| ReleaseRequest (release_epoch : N)
| ReleaseAck (release_epoch : N).

Inductive EventType :=
| TPointerMotion | TPointerButton | TPointerAxis | TPointerAxisValue120
| TKeyboardKey | TKeyboardModifiers | TPing | TPong | TEnter | TLeave | TAck
| THello | TReadiness | TReleaseRequest | TReleaseAck.

Inductive ProtocolError :=
| InvalidEventId (n : N)
| InvalidPosition (n : N).

(** [repr(u8)] discriminants and the derived [TryFromPrimitive]. *)
Definition event_type_code (t : EventType) : N :=
  match t with
  | TPointerMotion => 0
  | TPointerButton => 1
  | TPointerAxis => 2
  | TPointerAxisValue120 => 3
  | TKeyboardKey => 4
  | TKeyboardModifiers => 5
  | TPing => 6
  | TPong => 7
  | TEnter => 8
  | TLeave => 9
  | TAck => 10
  | THello => 11
  | TReadiness => 12
  | TReleaseRequest => 13
  | TReleaseAck => 14
  end.

Definition EventType_ALL : list EventType :=
  [ TPointerMotion; TPointerButton; TPointerAxis; TPointerAxisValue120; TKeyboardKey;
    TKeyboardModifiers; TPing; TPong; TEnter; TLeave; TAck; THello; TReadiness;
    TReleaseRequest; TReleaseAck ].

Definition event_type_try_from (n : N) : exec ProtocolError EventType :=
  ok_or (EventType_ALL !! N.to_nat n) (InvalidEventId n).

Definition position_code (p : ProtoPosition) : N :=
  match p with PosLeft => 0 | PosRight => 1 | PosTop => 2 | PosBottom => 3 end.

Definition position_try_from (n : N) : exec ProtocolError ProtoPosition :=
  ok_or ([PosLeft; PosRight; PosTop; PosBottom] !! N.to_nat n) (InvalidPosition n).

(** [ProtoEvent::event_type] *)
Definition event_type (e : ProtoEvent) : EventType :=
  match e with
  | Input (Pointer (Motion _ _ _)) => TPointerMotion
  | Input (Pointer (Button _ _ _)) => TPointerButton
  | Input (Pointer (Axis _ _ _)) => TPointerAxis
  | Input (Pointer (AxisDiscrete120 _ _)) => TPointerAxisValue120
  | Input (Keyboard (Key _ _ _)) => TKeyboardKey
  | Input (Keyboard (Modifiers _ _ _ _)) => TKeyboardModifiers
  | Ping => TPing
  | Pong _ => TPong
  | Enter _ => TEnter
  | Leave _ => TLeave
  | Ack _ => TAck
  | Hello _ => THello
  | Readiness _ _ _ => TReadiness
  | ReleaseRequest _ => TReleaseRequest
  | ReleaseAck _ => TReleaseAck
  end.

(** ** Decoding *)

Definition decoder (A : Type) : Type := list byte -> exec ProtocolError (A * list byte).
Definition dret {A} (a : A) : decoder A := fun data => Ret (a, data).
Definition dbind {A B} (m : decoder A) (k : A -> decoder B) : decoder B :=
  fun data => let* (a, data) := m data in k a data.
Definition dlift {A} (m : exec ProtocolError A) : decoder A := fun data => let* a := m in Ret (a, data).
Notation "x <== m ;; k" := (dbind m (fun x => k))
  (at level 60, m at level 59, k at level 60, right associativity) : exec_scope.

(** [decode_impl!]: [split_at] and [from_be_bytes]. *)
Definition decode_uint (n : nat) : decoder N := fun data =>
  if n <=? length data then Ret (be_val (take n data), drop n data)
  else Panic "mid > len".
Definition decode_u8 : decoder N := decode_uint 1.
Definition decode_u32 : decoder N := decode_uint 4.
Definition decode_u64 : decoder N := decode_uint 8.
Definition decode_f64 : decoder N := decode_uint 8.
Definition decode_i32 : decoder Z := n <== decode_uint 4 ;; dret (to_signed 4 n).

(** The loop that fills the commit hash, byte by byte. *)
Fixpoint decode_bytes (n : nat) : decoder (list byte) :=
  match n with
  | 0 => dret []
  | S n => b <== decode_u8 ;; bs <== decode_bytes n ;; dret (byte_of b :: bs)
  end.

(** [TryFrom<[u8; MAX_EVENT_SIZE]> for ProtoEvent], after the type byte. *)
Definition decode_fields (t : EventType) : decoder ProtoEvent :=
  match t with
  | TPointerMotion =>
      time <== decode_u32 ;; dx <== decode_f64 ;; dy <== decode_f64 ;;
      dret (Input (Pointer (Motion time dx dy)))
  | TPointerButton =>
      time <== decode_u32 ;; button <== decode_u32 ;; state <== decode_u32 ;;
      dret (Input (Pointer (Button time button state)))
  | TPointerAxis =>
      time <== decode_u32 ;; axis <== decode_u8 ;; value <== decode_f64 ;;
      dret (Input (Pointer (Axis time axis value)))
  | TPointerAxisValue120 =>
      axis <== decode_u8 ;; value <== decode_i32 ;;
      dret (Input (Pointer (AxisDiscrete120 axis value)))
  | TKeyboardKey =>
      time <== decode_u32 ;; key <== decode_u32 ;; state <== decode_u8 ;;
      dret (Input (Keyboard (Key time key state)))
  | TKeyboardModifiers =>
      depressed <== decode_u32 ;; latched <== decode_u32 ;; locked <== decode_u32 ;;
      group <== decode_u32 ;; dret (Input (Keyboard (Modifiers depressed latched locked group)))
  | TPing => dret Ping
  | TPong => alive <== decode_u8 ;; dret (Pong (negb (alive =? 0)%N))
  | TEnter => n <== decode_u8 ;; pos <== dlift (position_try_from n) ;; dret (Enter pos)
  | TLeave => serial <== decode_u32 ;; dret (Leave serial)
  | TAck => serial <== decode_u32 ;; dret (Ack serial)
  | THello => commit <== decode_bytes 8 ;; dret (Hello commit)
  | TReadiness =>
      keyboard_ready <== decode_u8 ;; pointer_ready <== decode_u8 ;; session_epoch <== decode_u64 ;;
      dret (Readiness (negb (keyboard_ready =? 0)%N) (negb (pointer_ready =? 0)%N) session_epoch)
  | TReleaseRequest => release_epoch <== decode_u64 ;; dret (ReleaseRequest release_epoch)
  | TReleaseAck => release_epoch <== decode_u64 ;; dret (ReleaseAck release_epoch)
  end.

Definition decode_event (buf : list byte) : exec ProtocolError ProtoEvent :=
  let* (e, _) := (n <== decode_u8 ;; t <== dlift (event_type_try_from n) ;; decode_fields t) buf in
  Ret e.

(** ** Encoding *)

(** The buffer while it is filled: the bytes written, the bytes still to fill
    and the count. *)
Record Encoder := mkEncoder { en_done : list byte; en_rest : list byte; en_len : nat }.
Definition encoder : Type := Encoder -> exec ProtocolError Encoder.

(** [encode_impl!]: [split_at_mut] and [copy_from_slice]. *)
Definition encode_uint (n : nat) (v : N) : encoder := fun s =>
  if n <=? length (en_rest s)
  then Ret (mkEncoder (en_done s ++ be_bytes n v) (drop n (en_rest s)) (en_len s + n))
  else Panic "mid > len".
Definition encode_u8 : N -> encoder := encode_uint 1.
Definition encode_u32 : N -> encoder := encode_uint 4.
Definition encode_u64 : N -> encoder := encode_uint 8.
Definition encode_f64 : N -> encoder := encode_uint 8.
Definition encode_i32 (v : Z) : encoder := encode_uint 4 (of_signed 4 v).

Definition eseq (m k : encoder) : encoder := fun s => let* s := m s in k s.
Notation "m ;;; k" := (eseq m k) (at level 60, right associativity) : exec_scope.

Fixpoint encode_bytes (bs : list byte) : encoder :=
  match bs with
  | [] => fun s => Ret s
  | b :: bs => encode_u8 (Byte.to_N b) ;;; encode_bytes bs
  end.

Definition bool_u8 (b : bool) : N := if b then 1 else 0.

(** The match of [From<ProtoEvent>]. *)
Definition encode_fields (e : ProtoEvent) : encoder :=
  match e with
  | Input (Pointer (Motion time dx dy)) => encode_u32 time ;;; encode_f64 dx ;;; encode_f64 dy
  | Input (Pointer (Button time button state)) =>
      encode_u32 time ;;; encode_u32 button ;;; encode_u32 state
  | Input (Pointer (Axis time axis value)) => encode_u32 time ;;; encode_u8 axis ;;; encode_f64 value
  | Input (Pointer (AxisDiscrete120 axis value)) => encode_u8 axis ;;; encode_i32 value
  | Input (Keyboard (Key time key state)) => encode_u32 time ;;; encode_u32 key ;;; encode_u8 state
  | Input (Keyboard (Modifiers depressed latched locked group)) =>
      encode_u32 depressed ;;; encode_u32 latched ;;; encode_u32 locked ;;; encode_u32 group
  | Ping => fun s => Ret s
  | Pong alive => encode_u8 (bool_u8 alive)
  | Enter pos => encode_u8 (position_code pos)
  | Leave serial => encode_u32 serial
  | Ack serial => encode_u32 serial
  | Hello commit => encode_bytes commit
  | Readiness keyboard_ready pointer_ready session_epoch =>
      encode_u8 (bool_u8 keyboard_ready) ;;; encode_u8 (bool_u8 pointer_ready)
      ;;; encode_u64 session_epoch
  | ReleaseRequest release_epoch | ReleaseAck release_epoch => encode_u64 release_epoch
  end.

(** [From<ProtoEvent> for ([u8; MAX_EVENT_SIZE], usize)] *)
Definition encode_event (e : ProtoEvent) : exec ProtocolError (list byte * nat) :=
  let* s := (encode_u8 (event_type_code (event_type e)) ;;; encode_fields e)
              (mkEncoder [] (replicate MAX_EVENT_SIZE x00) 0) in
  Ret (en_done s ++ en_rest s, en_len s).

(** ** What the types guarantee *)

Definition fits (n : nat) (v : N) : Prop := (v < 256 ^ N.of_nat n)%N.

Definition typed_event (e : ProtoEvent) : Prop :=
  match e with
  | Input (Pointer (Motion time dx dy)) => fits 4 time /\ fits 8 dx /\ fits 8 dy
  | Input (Pointer (Button time button state)) => fits 4 time /\ fits 4 button /\ fits 4 state
  | Input (Pointer (Axis time axis value)) => fits 4 time /\ fits 1 axis /\ fits 8 value
  | Input (Pointer (AxisDiscrete120 axis value)) => fits 1 axis /\ signed_range 4 value
  | Input (Keyboard (Key time key state)) => fits 4 time /\ fits 4 key /\ fits 1 state
  | Input (Keyboard (Modifiers a b c d)) => fits 4 a /\ fits 4 b /\ fits 4 c /\ fits 4 d
  | Leave serial | Ack serial => fits 4 serial
  | Hello commit => length commit = 8
  | Readiness _ _ epoch | ReleaseRequest epoch | ReleaseAck epoch => fits 8 epoch
  | Enter _ | Ping | Pong _ => True
  end.
