(* ===== verification/ProtoWireTheorems.v ===== *)
(** * Theorems about the input protocol on the wire

    Every event fits the datagram and is read back whatever follows it; the
    decoder accepts or rejects every datagram without slicing past its end. *)

From stdpp Require Import base tactics list strings.
From Stdlib Require Import NArith ZArith Lia Strings.Byte.
From S2P Require Import Prelude Bytes ProtoWire.

(** ** Encoders append, decoders take off *)

Definition writes (bs : list byte) (m : encoder) : Prop := forall s,
  length bs <= length (en_rest s) ->
  m s = Ret (mkEncoder (en_done s ++ bs) (drop (length bs) (en_rest s)) (en_len s + length bs)).

Definition parses {A} (bs : list byte) (a : A) (m : decoder A) : Prop :=
  forall rest, m (bs ++ rest) = Ret (a, rest).

Lemma writes_nil : writes [] (fun s => Ret s).
Proof.
  intros [d r l] _. cbn. by rewrite app_nil_r, drop_0, Nat.add_0_r.
Qed.

Lemma writes_uint n v : writes (be_bytes n v) (encode_uint n v).
Proof.
  intros s Hl. rewrite be_bytes_length in *. unfold encode_uint.
  by rewrite (proj2 (Nat.leb_le _ _) Hl).
Qed.

Lemma writes_seq b1 b2 m k : writes b1 m -> writes b2 k -> writes (b1 ++ b2) (eseq m k).
Proof.
  intros Hm Hk s Hl. rewrite length_app in *. unfold eseq. rewrite Hm by lia. cbn [exec_bind].
  rewrite Hk by (cbn [en_rest]; rewrite length_drop; lia). cbn [en_done en_rest en_len].
  by rewrite drop_drop, app_assoc, Nat.add_assoc.
Qed.

Lemma byte_be b : be_bytes 1 (Byte.to_N b) = [b].
Proof. cbn [be_bytes]. by rewrite N.pow_0_r, N.div_1_r, byte_of_to_N. Qed.

Lemma writes_bytes bs : writes bs (encode_bytes bs).
Proof.
  induction bs as [|b bs IH]; [apply writes_nil|].
  cbn [encode_bytes]. apply (writes_seq [b] bs); [|done]. rewrite <- byte_be at 1. apply writes_uint.
Qed.

Lemma parses_ret {A} (a : A) : parses [] a (dret a).
Proof. done. Qed.

Lemma parses_bind {A B} b1 b2 a b (m : decoder A) (k : A -> decoder B) :
  parses b1 a m -> parses b2 b (k a) -> parses (b1 ++ b2) b (dbind m k).
Proof. intros Hm Hk rest. unfold dbind. rewrite <- app_assoc, Hm. apply Hk. Qed.

Lemma parses_map {A B} bs a (m : decoder A) (f : A -> B) :
  parses bs a m -> parses bs (f a) (dbind m (fun x => dret (f x))).
Proof. intros H. rewrite <- (app_nil_r bs). by eapply parses_bind. Qed.

Lemma parses_lift {A B} bs (x : A) (m : exec ProtocolError A) (k : A -> decoder B) (b : B) :
  m = Ret x -> parses bs b (k x) -> parses bs b (dbind (dlift m) k).
Proof. intros -> H rest. apply H. Qed.

Lemma parses_uint n v : fits n v -> parses (be_bytes n v) v (decode_uint n).
Proof.
  intros Hv rest. unfold decode_uint. rewrite length_app, be_bytes_length.
  rewrite (proj2 (Nat.leb_le _ _)) by lia.
  rewrite take_app_length', drop_app_length' by (by rewrite be_bytes_length).
  by rewrite be_val_bytes_small.
Qed.

Lemma parses_i32 z : signed_range 4 z -> parses (be_bytes 4 (of_signed 4 z)) z decode_i32.
Proof.
  intros Hz. rewrite <- (to_of_signed 4 z) at 2 by (done || lia).
  apply (parses_map _ _ (decode_uint 4) (to_signed 4)), parses_uint, of_signed_bound.
Qed.

Lemma parses_bytes bs : parses bs bs (decode_bytes (length bs)).
Proof.
  induction bs as [|b bs IH]; [apply parses_ret|]. cbn [length decode_bytes].
  apply (parses_bind [b] bs (Byte.to_N b)).
  - rewrite <- byte_be at 1. apply parses_uint, to_N_lt.
  - pose proof (parses_map bs bs _ (cons (byte_of (Byte.to_N b))) IH) as H.
    rewrite byte_of_to_N in H at 1. exact H.
Qed.

(** ** The layout of events *)

Definition layout (e : ProtoEvent) : list byte :=
  match e with
  | Input (Pointer (Motion time dx dy)) => be_bytes 4 time ++ be_bytes 8 dx ++ be_bytes 8 dy
  | Input (Pointer (Button time button state)) =>
      be_bytes 4 time ++ be_bytes 4 button ++ be_bytes 4 state
  | Input (Pointer (Axis time axis value)) => be_bytes 4 time ++ be_bytes 1 axis ++ be_bytes 8 value
  | Input (Pointer (AxisDiscrete120 axis value)) =>
      be_bytes 1 axis ++ be_bytes 4 (of_signed 4 value)
  | Input (Keyboard (Key time key state)) => be_bytes 4 time ++ be_bytes 4 key ++ be_bytes 1 state
  | Input (Keyboard (Modifiers a b c d)) =>
      be_bytes 4 a ++ be_bytes 4 b ++ be_bytes 4 c ++ be_bytes 4 d
  | Ping => []
  | Pong alive => be_bytes 1 (bool_u8 alive)
  | Enter pos => be_bytes 1 (position_code pos)
  | Leave serial | Ack serial => be_bytes 4 serial
  | Hello commit => commit
  | Readiness k p epoch => be_bytes 1 (bool_u8 k) ++ be_bytes 1 (bool_u8 p) ++ be_bytes 8 epoch
  | ReleaseRequest epoch | ReleaseAck epoch => be_bytes 8 epoch
  end.

Lemma layout_length e : typed_event e -> length (layout e) < MAX_EVENT_SIZE.
Proof.
  unfold MAX_EVENT_SIZE. destruct e as [| | |[[]|[]]| | | | | |]; cbn [layout typed_event];
    rewrite ?length_app, ?be_bytes_length; cbn; lia.
Qed.

Create HintDb wire.
#[local] Hint Resolve writes_nil writes_uint writes_bytes writes_seq : wire.
#[local] Hint Resolve parses_uint parses_i32 parses_ret : wire.

Lemma writes_fields e : writes (layout e) (encode_fields e).
Proof.
  destruct e as [| | |[[]|[]]| | | | | |]; cbn [layout encode_fields];
    unfold encode_u8, encode_u32, encode_u64, encode_f64, encode_i32; eauto 6 with wire.
Qed.

Lemma fits_bool b : fits 1 (bool_u8 b).
Proof. by destruct b. Qed.
Lemma bool_u8_neq b : negb (bool_u8 b =? 0)%N = b.
Proof. by destruct b. Qed.

Lemma parses_fields e : typed_event e -> parses (layout e) e (decode_fields (event_type e)).
Proof.
  destruct e as [pos|s|s|[[time dx dy|time b s|time x v|x v]|[time k s|a b c d]]| |alive|commit
                |k p epoch|epoch|epoch];
    cbn [layout typed_event event_type decode_fields]; intros Ht;
    unfold decode_u8, decode_u32, decode_u64, decode_f64.
  - eapply (parses_bind (be_bytes 1 (position_code pos)) []); [apply parses_uint; by destruct pos|].
    eapply parses_lift; [|apply parses_ret]. by destruct pos.
  - apply (parses_map _ _ _ Leave); eauto with wire.
  - apply (parses_map _ _ _ Ack); eauto with wire.
  - destruct Ht as (?&?&?). do 2 (eapply parses_bind; [eauto with wire|]).
    apply (parses_map _ _ _ (fun y => Input (Pointer (Motion time dx y)))); eauto with wire.
  - destruct Ht as (?&?&?). do 2 (eapply parses_bind; [eauto with wire|]).
    apply (parses_map _ _ _ (fun y => Input (Pointer (Button time b y)))); eauto with wire.
  - destruct Ht as (?&?&?). do 2 (eapply parses_bind; [eauto with wire|]).
    apply (parses_map _ _ _ (fun y => Input (Pointer (Axis time x y)))); eauto with wire.
  - destruct Ht as (?&?). eapply parses_bind; [eauto with wire|].
    apply (parses_map _ _ _ (fun y => Input (Pointer (AxisDiscrete120 x y)))); eauto with wire.
  - destruct Ht as (?&?&?). do 2 (eapply parses_bind; [eauto with wire|]).
    apply (parses_map _ _ _ (fun y => Input (Keyboard (Key time k y)))); eauto with wire.
  - destruct Ht as (?&?&?&?). do 3 (eapply parses_bind; [eauto with wire|]).
    apply (parses_map _ _ _ (fun y => Input (Keyboard (Modifiers a b c y)))); eauto with wire.
  - apply parses_ret.
  - rewrite <- (bool_u8_neq alive) at 2.
    apply (parses_map _ _ _ (fun n => Pong (negb (n =? 0)%N))), parses_uint, fits_bool.
  - rewrite <- Ht. apply (parses_map _ _ _ Hello), parses_bytes.
  - rewrite <- (bool_u8_neq k) at 2. rewrite <- (bool_u8_neq p) at 2.
    do 2 (eapply parses_bind; [apply parses_uint, fits_bool|]).
    apply (parses_map _ _ _ (fun y => Readiness (negb (bool_u8 k =? 0)%N)
                                       (negb (bool_u8 p =? 0)%N) y)); eauto with wire.
  - apply (parses_map _ _ _ ReleaseRequest); eauto with wire.
  - apply (parses_map _ _ _ ReleaseAck); eauto with wire.
Qed.

Lemma event_type_wire t : event_type_try_from (event_type_code t) = Ret t.
Proof. by destruct t. Qed.
Lemma event_type_fits t : fits 1 (event_type_code t).
Proof. by destruct t. Qed.

(** The bytes that are sent for an event. *)
Definition wire (e : ProtoEvent) : list byte := be_bytes 1 (event_type_code (event_type e)) ++ layout e.

Lemma wire_length e : length (wire e) = S (length (layout e)).
Proof. unfold wire. by rewrite length_app, be_bytes_length. Qed.

Lemma encode_wire e : typed_event e ->
  encode_event e = Ret (wire e ++ replicate (MAX_EVENT_SIZE - length (wire e)) x00, length (wire e)).
Proof.
  intros Ht. pose proof (layout_length e Ht) as Hl. pose proof (wire_length e) as Hw. unfold encode_event.
  rewrite (writes_seq (be_bytes 1 (event_type_code (event_type e))) (layout e)).
  - cbn [exec_bind en_done en_rest en_len app]. by rewrite drop_replicate.
  - apply writes_uint.
  - apply writes_fields.
  - cbn [en_rest]. rewrite length_replicate. fold (wire e). lia.
Qed.

Lemma decode_wire e junk : typed_event e -> decode_event (wire e ++ junk) = Ret e.
Proof.
  intros Ht. unfold decode_event, wire. rewrite <- app_assoc.
  rewrite app_assoc. rewrite (parses_bind (be_bytes 1 (event_type_code (event_type e))) (layout e) (event_type_code (event_type e)) e); [done|..].
  - apply parses_uint, event_type_fits.
  - eapply parses_lift; [apply event_type_wire|by apply parses_fields].
Qed.

(** every event fits the datagram and is read back.  Encoding an event
    never writes past the 21 bytes of the buffer; its length is at least one
    byte and the rest of the buffer is zero; and decoding the bytes that were
    sent, followed by whatever the receive buffer held before, gives the same
    event. *)
Theorem proto_roundtrip e : typed_event e ->
  exists buf len, encode_event e = Ret (buf, len)
    /\ length buf = MAX_EVENT_SIZE /\ 1 <= len <= MAX_EVENT_SIZE
    /\ drop len buf = replicate (MAX_EVENT_SIZE - len) x00
    /\ forall junk, length junk = MAX_EVENT_SIZE - len -> decode_event (take len buf ++ junk) = Ret e.
Proof.
  intros Ht. pose proof (layout_length e Ht) as Hl. pose proof (wire_length e) as Hw.
  eexists _, _. split; [by apply encode_wire|]. split_and!.
  - rewrite length_app, length_replicate. lia.
  - lia.
  - lia.
  - by rewrite drop_app_length.
  - intros junk _. rewrite take_app_length. by apply decode_wire.
Qed.

Definition demo_motion : ProtoEvent := Input (Pointer (Motion 1 4607182418800017408 (2 ^ 63))).

Lemma proto_roundtrip_witness :
  exists buf len, encode_event demo_motion = Ret (buf, len) /\ 1 <= len <= MAX_EVENT_SIZE.
Proof.
  destruct (proto_roundtrip demo_motion) as (buf & len & H & _ & Hl & _).
  - vm_compute. repeat split.
  - exists buf, len. split; [exact H|exact Hl].
Defined.

(** ** Totality of the decoder *)

(** The decoder takes exactly [k] bytes and returns a value in [P]. *)
Definition takes {A} (k : nat) (P : A -> Prop) (m : decoder A) : Prop := forall data,
  k <= length data -> exists a, m data = Ret (a, drop k data) /\ P a.

Lemma takes_ret {A} (a : A) (P : A -> Prop) : P a -> takes 0 P (dret a).
Proof. intros H data _. exists a. split; [by rewrite drop_0|done]. Qed.

Lemma takes_bind {A B} k1 k2 P Q (m : decoder A) (f : A -> decoder B) :
  takes k1 P m -> (forall a, P a -> takes k2 Q (f a)) -> takes (k1 + k2) Q (dbind m f).
Proof.
  intros Hm Hf data Hl. destruct (Hm data) as (a & Ha & HP); [lia|].
  destruct (Hf a HP (drop k1 data)) as (b & Hb & HQ); [rewrite length_drop; lia|].
  exists b. unfold dbind. rewrite Ha. cbn [exec_bind]. rewrite Hb, drop_drop. done.
Qed.

Lemma takes_uint n : takes n (fits n) (decode_uint n).
Proof.
  intros data Hl. unfold decode_uint. rewrite (proj2 (Nat.leb_le _ _) Hl). eexists. split; [done|].
  unfold fits. pose proof (be_val_bound (take n data)) as H. rewrite length_take in H.
  by replace (Nat.min n (length data)) with n in H by lia.
Qed.

Lemma takes_i32 : takes 4 (signed_range 4) decode_i32.
Proof.
  apply (takes_bind 4 0 (fits 4)); [apply takes_uint|]. intros n Hn. apply takes_ret.
  unfold fits in Hn. unfold signed_range, to_signed. change (256 ^ N.of_nat 4)%N with 4294967296%N in *.
  change (4294967296 / 2)%N with 2147483648%N. destruct (N.ltb_spec n 2147483648); lia.
Qed.

Lemma takes_bytes n : takes n (fun bs => length bs = n) (decode_bytes n).
Proof.
  induction n as [|n IH]; [by apply takes_ret|]. cbn [decode_bytes].
  apply (takes_bind 1 n (fits 1)); [apply takes_uint|]. intros b _.
  rewrite <- (Nat.add_0_r n) at 1. apply (takes_bind n 0 (fun bs => length bs = n)); [apply IH|].
  intros bs <-. by apply takes_ret.
Qed.

#[local] Hint Resolve takes_uint takes_i32 takes_bytes : wire.

Definition fields_size (t : EventType) : nat :=
  match t with
  | TPointerMotion => 4 + (8 + (8 + 0))
  | TPointerButton => 4 + (4 + (4 + 0))
  | TPointerAxis => 4 + (1 + (8 + 0))
  | TPointerAxisValue120 => 1 + (4 + 0)
  | TKeyboardKey => 4 + (4 + (1 + 0))
  | TKeyboardModifiers => 4 + (4 + (4 + (4 + 0)))
  | TPing => 0
  | TPong | TEnter => 1 + 0
  | TLeave | TAck => 4 + 0
  | THello | TReleaseRequest | TReleaseAck => 8 + 0
  | TReadiness => 1 + (1 + (8 + 0))
  end.

Lemma takes_fields t : t <> TEnter ->
  takes (fields_size t) (fun e => typed_event e /\ event_type e = t) (decode_fields t).
Proof.
  intros Hne. destruct t; try done; cbn [fields_size decode_fields];
    unfold decode_u8, decode_u32, decode_u64, decode_f64;
    repeat (eapply takes_bind; [solve [eauto with wire]|intros ? ?]);
    apply takes_ret; cbn [typed_event event_type]; auto.
Qed.

(** the decoder is total on datagrams.  Reading any 21 bytes never slices
    past the end.  A type byte above 14 is reported as an invalid event, an
    enter event with a position byte above 3 as an invalid position, and every
    other buffer decodes to an event of the type of its first byte whose
    fields are within their widths. *)
Theorem proto_decode_total b0 b1 rest : length rest = MAX_EVENT_SIZE - 2 ->
  let buf := b0 :: b1 :: rest in
  if (14 <? Byte.to_N b0)%N then decode_event buf = Throw (InvalidEventId (Byte.to_N b0))
  else if (Byte.to_N b0 =? 8)%N && (3 <? Byte.to_N b1)%N
  then decode_event buf = Throw (InvalidPosition (Byte.to_N b1))
  else exists e, decode_event buf = Ret e /\ typed_event e
         /\ event_type_code (event_type e) = Byte.to_N b0.
Proof.
  intros Hl buf.
  assert (decode_event buf = (let* (e, _) := (let* t := event_type_try_from (Byte.to_N b0) in
                                decode_fields t (b1 :: rest)) in Ret e)) as ->.
  { unfold decode_event, dbind, dlift.
    assert (decode_u8 buf = Ret (Byte.to_N b0, b1 :: rest)) as -> by done.
    cbn [exec_bind]. by destruct (event_type_try_from (Byte.to_N b0)). }
  destruct (N.ltb_spec 14 (Byte.to_N b0)) as [Hb|Hb].
  - unfold event_type_try_from.
    rewrite lookup_ge_None_2; [done|]. unfold EventType_ALL. cbn [length]. lia.
  - assert (exists t, event_type_try_from (Byte.to_N b0) = Ret t /\ event_type_code t = Byte.to_N b0)
      as (t & Ht & Hc).
    { assert (Byte.to_N b0 ∈ (N.of_nat <$> seq 0 15)) as Hin.
      { apply list_elem_of_fmap. exists (N.to_nat (Byte.to_N b0)). split; [lia|].
        apply elem_of_seq. lia. }
      cbn in Hin. repeat (apply elem_of_cons in Hin as [Hin|Hin]; [rewrite Hin; by eexists|]).
      by apply not_elem_of_nil in Hin. }
    rewrite Ht. cbn [exec_bind].
    destruct (N.eqb_spec (Byte.to_N b0) 8) as [H8|H8]; cbn [andb].
    + assert (t = TEnter) as -> by (destruct t; cbn in Hc; congruence || done).
      cbn [decode_fields]. unfold dbind, dlift.
      assert (decode_u8 (b1 :: rest) = Ret (Byte.to_N b1, rest)) as H1 by done.
      rewrite H1. cbn [exec_bind]. unfold position_try_from.
      destruct (N.ltb_spec 3 (Byte.to_N b1)) as [Hp|Hp].
      * rewrite lookup_ge_None_2; [done|]. cbn [length]. lia.
      * destruct (lookup_lt_is_Some_2 [PosLeft; PosRight; PosTop; PosBottom]
          (N.to_nat (Byte.to_N b1))) as (p & ->); [cbn [length]; lia|].
        exists (Enter p). done.
    + destruct (takes_fields t) with (data := b1 :: rest) as (e & -> & Hty & He).
      * intros ->. cbn in Hc. congruence.
      * cbn [length]. rewrite Hl. unfold MAX_EVENT_SIZE. destruct t; cbn; lia.
      * exists e. split; [done|]. split; [done|]. by rewrite He.
Qed.

Lemma proto_decode_total_witness :
  decode_event (x08 :: x04 :: replicate 19 x00) = Throw (InvalidPosition 4).
Proof. exact (proto_decode_total x08 x04 (replicate 19 x00) eq_refl). Defined.
