(* ===== verification/Scancode.v ===== *)
(** * Scan codes (input-event/src/scancode.rs)

    The two key enumerations, their numbers and the translations between them,
    entry by entry as in the source. *)

From stdpp Require Import base tactics list.
From Stdlib Require Import NArith Lia.
From S2P Require Import Prelude.

Inductive Windows :=
| W_Shutdown | W_SystemSleep | W_SystemWakeUp | W_ErrorRollOver | W_KeyA | W_KeyB | W_KeyC
| W_KeyD | W_KeyE | W_KeyF | W_KeyG | W_KeyH | W_KeyI | W_KeyJ | W_KeyK | W_KeyL | W_KeyM
| W_KeyN | W_KeyO | W_KeyP | W_KeyQ | W_KeyR | W_KeyS | W_KeyT | W_KeyU | W_KeyV | W_KeyW
| W_KeyX | W_KeyY | W_KeyZ | W_Key1 | W_Key2 | W_Key3 | W_Key4 | W_Key5 | W_Key6 | W_Key7
| W_Key8 | W_Key9 | W_Key0 | W_KeyEnter | W_KeyEsc | W_KeyDelete | W_KeyTab | W_KeySpace
| W_KeyMinus | W_KeyEqual | W_KeyLeftBrace | W_KeyRightBrace | W_KeyBackslash | W_KeySemiColon
| W_KeyApostrophe | W_KeyGrave | W_KeyComma | W_KeyDot | W_KeySlash | W_KeyCapsLock | W_KeyF1
| W_KeyF2 | W_KeyF3 | W_KeyF4 | W_KeyF5 | W_KeyF6 | W_KeyF7 | W_KeyF8 | W_KeyF9 | W_KeyF10
| W_KeyF11 | W_KeyF12 | W_KeyPrintScreen | W_KeyScrollLock | W_KeyPause | W_KeyInsert
| W_KeyHome | W_KeyPageUp | W_KeyDeleteForward | W_KeyEnd | W_KeyPageDown | W_KeyRight
| W_KeyLeft | W_KeyDown | W_KeyUp | W_KeypadNumLock | W_KeypadSlash | W_KeypadStar
| W_KeypadDash | W_KeypadPlus | W_KeypadEnter | W_Keypad1End | W_Keypad2DownArrow
| W_Keypad3PageDn | W_Keypad4LeftArrow | W_Keypad5 | W_Keypad6RightArrow | W_Keypad7Home
| W_Keypad8UpArrow | W_Keypad9PageUp | W_Keypad0Insert | W_KeypadDot | W_KeyNonUSSlashBar
| W_KeyApplication | W_KeypadEquals | W_KeyF13 | W_KeyF14 | W_KeyF15 | W_KeyF16 | W_KeyF17
| W_KeyF18 | W_KeyF19 | W_KeyF20 | W_KeyF21 | W_KeyF22 | W_KeyF23 | W_KeyF24 | W_KeypadComma
| W_KeyInternational1 | W_KeyInternational2 | W_KeyInternational3 | W_KeyInternational4
| W_KeyInternational5 | W_KeyLANG1 | W_KeyLANG2 | W_KeyLANG3 | W_KeyLANG4 | W_KeyLeftCtrl
| W_KeyLeftShift | W_KeyLeftAlt | W_KeyLeftGUI | W_KeyRightCtrl | W_KeyRightShift
| W_KeyFakeRightShift | W_KeyRightAlt | W_KeyRightGUI | W_KeyScanNextTrack
| W_KeyScanPreviousTrack | W_KeyStop | W_KeyPlayPause | W_KeyMute | W_KeyVolumeUp
| W_KeyVolumeDown | W_ALConsumerControlConfiguration | W_ALEmailReader | W_ALCalculator
| W_ALLocalMachineBrowser | W_ACSearch | W_ACHome | W_ACBack | W_ACForward | W_ACStop
| W_ACRefresh | W_ACBookmarks.

Inductive Linux :=
| L_KeyReserved | L_KeyEsc | L_Key1 | L_Key2 | L_Key3 | L_Key4 | L_Key5 | L_Key6 | L_Key7
| L_Key8 | L_Key9 | L_Key0 | L_KeyMinus | L_KeyEqual | L_KeyBackspace | L_KeyTab | L_KeyQ
| L_KeyW | L_KeyE | L_KeyR | L_KeyT | L_KeyY | L_KeyU | L_KeyI | L_KeyO | L_KeyP
| L_KeyLeftbrace | L_KeyRightbrace | L_KeyEnter | L_KeyLeftCtrl | L_KeyA | L_KeyS | L_KeyD
| L_KeyF | L_KeyG | L_KeyH | L_KeyJ | L_KeyK | L_KeyL | L_KeySemicolon | L_KeyApostrophe
| L_KeyGrave | L_KeyLeftShift | L_KeyBackslash | L_KeyZ | L_KeyX | L_KeyC | L_KeyV | L_KeyB
| L_KeyN | L_KeyM | L_KeyComma | L_KeyDot | L_KeySlash | L_KeyRightShift | L_KeyKpAsterisk
| L_KeyLeftAlt | L_KeySpace | L_KeyCapsLock | L_KeyF1 | L_KeyF2 | L_KeyF3 | L_KeyF4 | L_KeyF5
| L_KeyF6 | L_KeyF7 | L_KeyF8 | L_KeyF9 | L_KeyF10 | L_KeyNumlock | L_KeyScrollLock | L_KeyKp7
| L_KeyKp8 | L_KeyKp9 | L_KeyKpMinus | L_KeyKp4 | L_KeyKp5 | L_KeyKp6 | L_KeyKpplus | L_KeyKp1
| L_KeyKp2 | L_KeyKp3 | L_KeyKp0 | L_KeyKpDot | L_Invalid | L_KeyZenkakuhankaku | L_Key102nd
| L_KeyF11 | L_KeyF12 | L_KeyRo | L_KeyKatakana | L_KeyHiragana | L_KeyHenkan
| L_KeyKatakanahiragana | L_KeyMuhenkan | L_KeyKpJpComma | L_KeyKpEnter | L_KeyRightCtrl
| L_KeyKpslash | L_KeySysrq | L_KeyRightalt | L_KeyLinefeed | L_KeyHome | L_KeyUp | L_KeyPageup
| L_KeyLeft | L_KeyRight | L_KeyEnd | L_KeyDown | L_KeyPagedown | L_KeyInsert | L_KeyDelete
| L_KeyMacro | L_KeyMute | L_KeyVolumeDown | L_KeyVolumeUp | L_KeyPower | L_KeyKpequal
| L_KeyKpplusminus | L_KeyPause | L_KeyScale | L_KeyKpcomma | L_KeyHanguel | L_KeyHanja
| L_KeyYen | L_KeyLeftMeta | L_KeyRightmeta | L_KeyCompose | L_KeyStop | L_KeyAgain
| L_KeyProps | L_KeyUndo | L_KeyFront | L_KeyCopy | L_KeyOpen | L_KeyPaste | L_KeyFind
| L_KeyCut | L_KeyHelp | L_KeyMenu | L_KeyCalc | L_KeySetup | L_KeySleep | L_KeyWakeup
| L_KeyFile | L_KeySendfile | L_KeyDeletefile | L_KeyXfer | L_KeyProg1 | L_KeyProg2 | L_KeyWww
| L_KeyMsdos | L_KeyCoffee | L_KeyRotateDisplay | L_KeyCyclewindows | L_KeyMail
| L_KeyBookmarks | L_KeyComputer | L_KeyBack | L_KeyForward | L_KeyClosecd | L_KeyEjectcd
| L_KeyEjectclosecd | L_KeyNextsong | L_KeyPlaypause | L_KeyPrevioussong | L_KeyStopcd
| L_KeyRecord | L_KeyRewind | L_KeyPhone | L_KeyIso | L_KeyConfig | L_KeyHomepage
| L_KeyRefresh | L_KeyExit | L_KeyMove | L_KeyEdit | L_KeyScrollup | L_KeyScrolldown
| L_KeyKpleftparen | L_KeyKprightparen | L_KeyNew | L_KeyRedo | L_KeyF13 | L_KeyF14 | L_KeyF15
| L_KeyF16 | L_KeyF17 | L_KeyF18 | L_KeyF19 | L_KeyF20 | L_KeyF21 | L_KeyF22 | L_KeyF23
| L_KeyF24 | L_Invalid1 | L_Invalid2 | L_Invalid3 | L_Invalid4 | L_Invalid5 | L_KeyPlaycd
| L_KeyPausecd | L_KeyProg3 | L_KeyProg4 | L_KeyAllApplications | L_KeySuspend | L_KeyClose
| L_KeyPlay | L_KeyFastforward | L_KeyBassboost | L_KeyPrint | L_KeyHp | L_KeyCamera
| L_KeySound | L_KeyQuestion | L_KeyEmail | L_KeyChat | L_KeySearch | L_KeyConnect
| L_KeyFinance | L_KeySport | L_KeyShop | L_KeyAlterase | L_KeyCancel | L_KeyBrightnessdown
| L_KeyBrightnessup | L_KeyMedia | L_KeySwitchvideomode | L_KeyKbdillumtoggle
| L_KeyKbdillumdown | L_KeyKbdillumup | L_KeySend | L_KeyReply | L_KeyForwardmail | L_KeySave
| L_KeyDocuments | L_KeyBattery | L_KeyBluetooth | L_KeyWlan | L_KeyUwb | L_KeyUnknown
| L_KeyVideoNext | L_KeyVideoPrev | L_KeyBrightnessCycle | L_KeyBrightnessAuto
| L_KeyDisplayOff | L_KeyWwan | L_KeyRfkill | L_KeyMicmute | L_KeyCount.

Definition Windows_ALL : list Windows :=
  [ W_Shutdown; W_SystemSleep; W_SystemWakeUp; W_ErrorRollOver; W_KeyA; W_KeyB; W_KeyC; W_KeyD;
  W_KeyE; W_KeyF; W_KeyG; W_KeyH; W_KeyI; W_KeyJ; W_KeyK; W_KeyL; W_KeyM; W_KeyN; W_KeyO;
  W_KeyP; W_KeyQ; W_KeyR; W_KeyS; W_KeyT; W_KeyU; W_KeyV; W_KeyW; W_KeyX; W_KeyY; W_KeyZ;
  W_Key1; W_Key2; W_Key3; W_Key4; W_Key5; W_Key6; W_Key7; W_Key8; W_Key9; W_Key0; W_KeyEnter;
  W_KeyEsc; W_KeyDelete; W_KeyTab; W_KeySpace; W_KeyMinus; W_KeyEqual; W_KeyLeftBrace;
  W_KeyRightBrace; W_KeyBackslash; W_KeySemiColon; W_KeyApostrophe; W_KeyGrave; W_KeyComma;
  W_KeyDot; W_KeySlash; W_KeyCapsLock; W_KeyF1; W_KeyF2; W_KeyF3; W_KeyF4; W_KeyF5; W_KeyF6;
  W_KeyF7; W_KeyF8; W_KeyF9; W_KeyF10; W_KeyF11; W_KeyF12; W_KeyPrintScreen; W_KeyScrollLock;
  W_KeyPause; W_KeyInsert; W_KeyHome; W_KeyPageUp; W_KeyDeleteForward; W_KeyEnd; W_KeyPageDown;
  W_KeyRight; W_KeyLeft; W_KeyDown; W_KeyUp; W_KeypadNumLock; W_KeypadSlash; W_KeypadStar;
  W_KeypadDash; W_KeypadPlus; W_KeypadEnter; W_Keypad1End; W_Keypad2DownArrow; W_Keypad3PageDn;
  W_Keypad4LeftArrow; W_Keypad5; W_Keypad6RightArrow; W_Keypad7Home; W_Keypad8UpArrow;
  W_Keypad9PageUp; W_Keypad0Insert; W_KeypadDot; W_KeyNonUSSlashBar; W_KeyApplication;
  W_KeypadEquals; W_KeyF13; W_KeyF14; W_KeyF15; W_KeyF16; W_KeyF17; W_KeyF18; W_KeyF19;
  W_KeyF20; W_KeyF21; W_KeyF22; W_KeyF23; W_KeyF24; W_KeypadComma; W_KeyInternational1;
  W_KeyInternational2; W_KeyInternational3; W_KeyInternational4; W_KeyInternational5;
  W_KeyLANG1; W_KeyLANG2; W_KeyLANG3; W_KeyLANG4; W_KeyLeftCtrl; W_KeyLeftShift; W_KeyLeftAlt;
  W_KeyLeftGUI; W_KeyRightCtrl; W_KeyRightShift; W_KeyFakeRightShift; W_KeyRightAlt;
  W_KeyRightGUI; W_KeyScanNextTrack; W_KeyScanPreviousTrack; W_KeyStop; W_KeyPlayPause;
  W_KeyMute; W_KeyVolumeUp; W_KeyVolumeDown; W_ALConsumerControlConfiguration; W_ALEmailReader;
  W_ALCalculator; W_ALLocalMachineBrowser; W_ACSearch; W_ACHome; W_ACBack; W_ACForward;
  W_ACStop; W_ACRefresh; W_ACBookmarks ].

Definition Linux_ALL : list Linux :=
  [ L_KeyReserved; L_KeyEsc; L_Key1; L_Key2; L_Key3; L_Key4; L_Key5; L_Key6; L_Key7; L_Key8;
  L_Key9; L_Key0; L_KeyMinus; L_KeyEqual; L_KeyBackspace; L_KeyTab; L_KeyQ; L_KeyW; L_KeyE;
  L_KeyR; L_KeyT; L_KeyY; L_KeyU; L_KeyI; L_KeyO; L_KeyP; L_KeyLeftbrace; L_KeyRightbrace;
  L_KeyEnter; L_KeyLeftCtrl; L_KeyA; L_KeyS; L_KeyD; L_KeyF; L_KeyG; L_KeyH; L_KeyJ; L_KeyK;
  L_KeyL; L_KeySemicolon; L_KeyApostrophe; L_KeyGrave; L_KeyLeftShift; L_KeyBackslash; L_KeyZ;
  L_KeyX; L_KeyC; L_KeyV; L_KeyB; L_KeyN; L_KeyM; L_KeyComma; L_KeyDot; L_KeySlash;
  L_KeyRightShift; L_KeyKpAsterisk; L_KeyLeftAlt; L_KeySpace; L_KeyCapsLock; L_KeyF1; L_KeyF2;
  L_KeyF3; L_KeyF4; L_KeyF5; L_KeyF6; L_KeyF7; L_KeyF8; L_KeyF9; L_KeyF10; L_KeyNumlock;
  L_KeyScrollLock; L_KeyKp7; L_KeyKp8; L_KeyKp9; L_KeyKpMinus; L_KeyKp4; L_KeyKp5; L_KeyKp6;
  L_KeyKpplus; L_KeyKp1; L_KeyKp2; L_KeyKp3; L_KeyKp0; L_KeyKpDot; L_Invalid;
  L_KeyZenkakuhankaku; L_Key102nd; L_KeyF11; L_KeyF12; L_KeyRo; L_KeyKatakana; L_KeyHiragana;
  L_KeyHenkan; L_KeyKatakanahiragana; L_KeyMuhenkan; L_KeyKpJpComma; L_KeyKpEnter;
  L_KeyRightCtrl; L_KeyKpslash; L_KeySysrq; L_KeyRightalt; L_KeyLinefeed; L_KeyHome; L_KeyUp;
  L_KeyPageup; L_KeyLeft; L_KeyRight; L_KeyEnd; L_KeyDown; L_KeyPagedown; L_KeyInsert;
  L_KeyDelete; L_KeyMacro; L_KeyMute; L_KeyVolumeDown; L_KeyVolumeUp; L_KeyPower; L_KeyKpequal;
  L_KeyKpplusminus; L_KeyPause; L_KeyScale; L_KeyKpcomma; L_KeyHanguel; L_KeyHanja; L_KeyYen;
  L_KeyLeftMeta; L_KeyRightmeta; L_KeyCompose; L_KeyStop; L_KeyAgain; L_KeyProps; L_KeyUndo;
  L_KeyFront; L_KeyCopy; L_KeyOpen; L_KeyPaste; L_KeyFind; L_KeyCut; L_KeyHelp; L_KeyMenu;
  L_KeyCalc; L_KeySetup; L_KeySleep; L_KeyWakeup; L_KeyFile; L_KeySendfile; L_KeyDeletefile;
  L_KeyXfer; L_KeyProg1; L_KeyProg2; L_KeyWww; L_KeyMsdos; L_KeyCoffee; L_KeyRotateDisplay;
  L_KeyCyclewindows; L_KeyMail; L_KeyBookmarks; L_KeyComputer; L_KeyBack; L_KeyForward;
  L_KeyClosecd; L_KeyEjectcd; L_KeyEjectclosecd; L_KeyNextsong; L_KeyPlaypause;
  L_KeyPrevioussong; L_KeyStopcd; L_KeyRecord; L_KeyRewind; L_KeyPhone; L_KeyIso; L_KeyConfig;
  L_KeyHomepage; L_KeyRefresh; L_KeyExit; L_KeyMove; L_KeyEdit; L_KeyScrollup; L_KeyScrolldown;
  L_KeyKpleftparen; L_KeyKprightparen; L_KeyNew; L_KeyRedo; L_KeyF13; L_KeyF14; L_KeyF15;
  L_KeyF16; L_KeyF17; L_KeyF18; L_KeyF19; L_KeyF20; L_KeyF21; L_KeyF22; L_KeyF23; L_KeyF24;
  L_Invalid1; L_Invalid2; L_Invalid3; L_Invalid4; L_Invalid5; L_KeyPlaycd; L_KeyPausecd;
  L_KeyProg3; L_KeyProg4; L_KeyAllApplications; L_KeySuspend; L_KeyClose; L_KeyPlay;
  L_KeyFastforward; L_KeyBassboost; L_KeyPrint; L_KeyHp; L_KeyCamera; L_KeySound;
  L_KeyQuestion; L_KeyEmail; L_KeyChat; L_KeySearch; L_KeyConnect; L_KeyFinance; L_KeySport;
  L_KeyShop; L_KeyAlterase; L_KeyCancel; L_KeyBrightnessdown; L_KeyBrightnessup; L_KeyMedia;
  L_KeySwitchvideomode; L_KeyKbdillumtoggle; L_KeyKbdillumdown; L_KeyKbdillumup; L_KeySend;
  L_KeyReply; L_KeyForwardmail; L_KeySave; L_KeyDocuments; L_KeyBattery; L_KeyBluetooth;
  L_KeyWlan; L_KeyUwb; L_KeyUnknown; L_KeyVideoNext; L_KeyVideoPrev; L_KeyBrightnessCycle;
  L_KeyBrightnessAuto; L_KeyDisplayOff; L_KeyWwan; L_KeyRfkill; L_KeyMicmute; L_KeyCount ].

(** The discriminants. *)
Definition windows_code (w : Windows) : N :=
  match w with
  | W_Shutdown => 0xe05e
  | W_SystemSleep => 0xe05f
  | W_SystemWakeUp => 0xe063
  | W_ErrorRollOver => 0x00ff
  | W_KeyA => 0x001e
  | W_KeyB => 0x0030
  | W_KeyC => 0x002e
  | W_KeyD => 0x0020
  | W_KeyE => 0x0012
  | W_KeyF => 0x0021
  | W_KeyG => 0x0022
  | W_KeyH => 0x0023
  | W_KeyI => 0x0017
  | W_KeyJ => 0x0024
  | W_KeyK => 0x0025
  | W_KeyL => 0x0026
  | W_KeyM => 0x0032
  | W_KeyN => 0x0031
  | W_KeyO => 0x0018
  | W_KeyP => 0x0019
  | W_KeyQ => 0x0010
  | W_KeyR => 0x0013
  | W_KeyS => 0x001f
  | W_KeyT => 0x0014
  | W_KeyU => 0x0016
  | W_KeyV => 0x002f
  | W_KeyW => 0x0011
  | W_KeyX => 0x002d
  | W_KeyY => 0x0015
  | W_KeyZ => 0x002c
  | W_Key1 => 0x0002
  | W_Key2 => 0x0003
  | W_Key3 => 0x0004
  | W_Key4 => 0x0005
  | W_Key5 => 0x0006
  | W_Key6 => 0x0007
  | W_Key7 => 0x0008
  | W_Key8 => 0x0009
  | W_Key9 => 0x000a
  | W_Key0 => 0x000b
  | W_KeyEnter => 0x001c
  | W_KeyEsc => 0x0001
  | W_KeyDelete => 0x000e
  | W_KeyTab => 0x000f
  | W_KeySpace => 0x0039
  | W_KeyMinus => 0x000c
  | W_KeyEqual => 0x000d
  | W_KeyLeftBrace => 0x001a
  | W_KeyRightBrace => 0x001b
  | W_KeyBackslash => 0x002b
  | W_KeySemiColon => 0x0027
  | W_KeyApostrophe => 0x0028
  | W_KeyGrave => 0x0029
  | W_KeyComma => 0x0033
  | W_KeyDot => 0x0034
  | W_KeySlash => 0x0035
  | W_KeyCapsLock => 0x003a
  | W_KeyF1 => 0x003b
  | W_KeyF2 => 0x003c
  | W_KeyF3 => 0x003d
  | W_KeyF4 => 0x003e
  | W_KeyF5 => 0x003f
  | W_KeyF6 => 0x0040
  | W_KeyF7 => 0x0041
  | W_KeyF8 => 0x0042
  | W_KeyF9 => 0x0043
  | W_KeyF10 => 0x0044
  | W_KeyF11 => 0x0057
  | W_KeyF12 => 0x0058
  | W_KeyPrintScreen => 0xe037
  | W_KeyScrollLock => 0x0046
  | W_KeyPause => 0xe11d45
  | W_KeyInsert => 0xe052
  | W_KeyHome => 0xe047
  | W_KeyPageUp => 0xe049
  | W_KeyDeleteForward => 0xe053
  | W_KeyEnd => 0xe04f
  | W_KeyPageDown => 0xe051
  | W_KeyRight => 0xe04d
  | W_KeyLeft => 0xe04b
  | W_KeyDown => 0xe050
  | W_KeyUp => 0xe048
  | W_KeypadNumLock => 0x0045
  | W_KeypadSlash => 0xe035
  | W_KeypadStar => 0x0037
  | W_KeypadDash => 0x004a
  | W_KeypadPlus => 0x004e
  | W_KeypadEnter => 0xe01c
  | W_Keypad1End => 0x004f
  | W_Keypad2DownArrow => 0x0050
  | W_Keypad3PageDn => 0x0051
  | W_Keypad4LeftArrow => 0x004b
  | W_Keypad5 => 0x004c
  | W_Keypad6RightArrow => 0x004d
  | W_Keypad7Home => 0x0047
  | W_Keypad8UpArrow => 0x0048
  | W_Keypad9PageUp => 0x0049
  | W_Keypad0Insert => 0x0052
  | W_KeypadDot => 0x0053
  | W_KeyNonUSSlashBar => 0x0056
  | W_KeyApplication => 0xe05d
  | W_KeypadEquals => 0x0059
  | W_KeyF13 => 0x0064
  | W_KeyF14 => 0x0065
  | W_KeyF15 => 0x0066
  | W_KeyF16 => 0x0067
  | W_KeyF17 => 0x0068
  | W_KeyF18 => 0x0069
  | W_KeyF19 => 0x006a
  | W_KeyF20 => 0x006b
  | W_KeyF21 => 0x006c
  | W_KeyF22 => 0x006d
  | W_KeyF23 => 0x006e
  | W_KeyF24 => 0x0076
  | W_KeypadComma => 0x007e
  | W_KeyInternational1 => 0x0073
  | W_KeyInternational2 => 0x0070
  | W_KeyInternational3 => 0x007d
  | W_KeyInternational4 => 0x0079
  | W_KeyInternational5 => 0x007b
  | W_KeyLANG1 => 0x0072
  | W_KeyLANG2 => 0x0071
  | W_KeyLANG3 => 0x0078
  | W_KeyLANG4 => 0x0077
  | W_KeyLeftCtrl => 0x001d
  | W_KeyLeftShift => 0x002a
  | W_KeyLeftAlt => 0x0038
  | W_KeyLeftGUI => 0xe05b
  | W_KeyRightCtrl => 0xe01d
  | W_KeyRightShift => 0x0036
  | W_KeyFakeRightShift => 0xe036
  | W_KeyRightAlt => 0xe038
  | W_KeyRightGUI => 0xe05c
  | W_KeyScanNextTrack => 0xe019
  | W_KeyScanPreviousTrack => 0xe010
  | W_KeyStop => 0xe024
  | W_KeyPlayPause => 0xe022
  | W_KeyMute => 0xe020
  | W_KeyVolumeUp => 0xe030
  | W_KeyVolumeDown => 0xe02e
  | W_ALConsumerControlConfiguration => 0xe06d
  | W_ALEmailReader => 0xe06c
  | W_ALCalculator => 0xe021
  | W_ALLocalMachineBrowser => 0xe06b
  | W_ACSearch => 0xe065
  | W_ACHome => 0xe032
  | W_ACBack => 0xe06a
  | W_ACForward => 0xe069
  | W_ACStop => 0xe068
  | W_ACRefresh => 0xe067
  | W_ACBookmarks => 0xe066
  end.

Definition linux_code (l : Linux) : N :=
  match l with
  | L_KeyReserved => 0
  | L_KeyEsc => 1
  | L_Key1 => 2
  | L_Key2 => 3
  | L_Key3 => 4
  | L_Key4 => 5
  | L_Key5 => 6
  | L_Key6 => 7
  | L_Key7 => 8
  | L_Key8 => 9
  | L_Key9 => 10
  | L_Key0 => 11
  | L_KeyMinus => 12
  | L_KeyEqual => 13
  | L_KeyBackspace => 14
  | L_KeyTab => 15
  | L_KeyQ => 16
  | L_KeyW => 17
  | L_KeyE => 18
  | L_KeyR => 19
  | L_KeyT => 20
  | L_KeyY => 21
  | L_KeyU => 22
  | L_KeyI => 23
  | L_KeyO => 24
  | L_KeyP => 25
  | L_KeyLeftbrace => 26
  | L_KeyRightbrace => 27
  | L_KeyEnter => 28
  | L_KeyLeftCtrl => 29
  | L_KeyA => 30
  | L_KeyS => 31
  | L_KeyD => 32
  | L_KeyF => 33
  | L_KeyG => 34
  | L_KeyH => 35
  | L_KeyJ => 36
  | L_KeyK => 37
  | L_KeyL => 38
  | L_KeySemicolon => 39
  | L_KeyApostrophe => 40
  | L_KeyGrave => 41
  | L_KeyLeftShift => 42
  | L_KeyBackslash => 43
  | L_KeyZ => 44
  | L_KeyX => 45
  | L_KeyC => 46
  | L_KeyV => 47
  | L_KeyB => 48
  | L_KeyN => 49
  | L_KeyM => 50
  | L_KeyComma => 51
  | L_KeyDot => 52
  | L_KeySlash => 53
  | L_KeyRightShift => 54
  | L_KeyKpAsterisk => 55
  | L_KeyLeftAlt => 56
  | L_KeySpace => 57
  | L_KeyCapsLock => 58
  | L_KeyF1 => 59
  | L_KeyF2 => 60
  | L_KeyF3 => 61
  | L_KeyF4 => 62
  | L_KeyF5 => 63
  | L_KeyF6 => 64
  | L_KeyF7 => 65
  | L_KeyF8 => 66
  | L_KeyF9 => 67
  | L_KeyF10 => 68
  | L_KeyNumlock => 69
  | L_KeyScrollLock => 70
  | L_KeyKp7 => 71
  | L_KeyKp8 => 72
  | L_KeyKp9 => 73
  | L_KeyKpMinus => 74
  | L_KeyKp4 => 75
  | L_KeyKp5 => 76
  | L_KeyKp6 => 77
  | L_KeyKpplus => 78
  | L_KeyKp1 => 79
  | L_KeyKp2 => 80
  | L_KeyKp3 => 81
  | L_KeyKp0 => 82
  | L_KeyKpDot => 83
  | L_Invalid => 84
  | L_KeyZenkakuhankaku => 85
  | L_Key102nd => 86
  | L_KeyF11 => 87
  | L_KeyF12 => 88
  | L_KeyRo => 89
  | L_KeyKatakana => 90
  | L_KeyHiragana => 91
  | L_KeyHenkan => 92
  | L_KeyKatakanahiragana => 93
  | L_KeyMuhenkan => 94
  | L_KeyKpJpComma => 95
  | L_KeyKpEnter => 96
  | L_KeyRightCtrl => 97
  | L_KeyKpslash => 98
  | L_KeySysrq => 99
  | L_KeyRightalt => 100
  | L_KeyLinefeed => 101
  | L_KeyHome => 102
  | L_KeyUp => 103
  | L_KeyPageup => 104
  | L_KeyLeft => 105
  | L_KeyRight => 106
  | L_KeyEnd => 107
  | L_KeyDown => 108
  | L_KeyPagedown => 109
  | L_KeyInsert => 110
  | L_KeyDelete => 111
  | L_KeyMacro => 112
  | L_KeyMute => 113
  | L_KeyVolumeDown => 114
  | L_KeyVolumeUp => 115
  | L_KeyPower => 116
  | L_KeyKpequal => 117
  | L_KeyKpplusminus => 118
  | L_KeyPause => 119
  | L_KeyScale => 120
  | L_KeyKpcomma => 121
  | L_KeyHanguel => 122
  | L_KeyHanja => 123
  | L_KeyYen => 124
  | L_KeyLeftMeta => 125
  | L_KeyRightmeta => 126
  | L_KeyCompose => 127
  | L_KeyStop => 128
  | L_KeyAgain => 129
  | L_KeyProps => 130
  | L_KeyUndo => 131
  | L_KeyFront => 132
  | L_KeyCopy => 133
  | L_KeyOpen => 134
  | L_KeyPaste => 135
  | L_KeyFind => 136
  | L_KeyCut => 137
  | L_KeyHelp => 138
  | L_KeyMenu => 139
  | L_KeyCalc => 140
  | L_KeySetup => 141
  | L_KeySleep => 142
  | L_KeyWakeup => 143
  | L_KeyFile => 144
  | L_KeySendfile => 145
  | L_KeyDeletefile => 146
  | L_KeyXfer => 147
  | L_KeyProg1 => 148
  | L_KeyProg2 => 149
  | L_KeyWww => 150
  | L_KeyMsdos => 151
  | L_KeyCoffee => 152
  | L_KeyRotateDisplay => 153
  | L_KeyCyclewindows => 154
  | L_KeyMail => 155
  | L_KeyBookmarks => 156
  | L_KeyComputer => 157
  | L_KeyBack => 158
  | L_KeyForward => 159
  | L_KeyClosecd => 160
  | L_KeyEjectcd => 161
  | L_KeyEjectclosecd => 162
  | L_KeyNextsong => 163
  | L_KeyPlaypause => 164
  | L_KeyPrevioussong => 165
  | L_KeyStopcd => 166
  | L_KeyRecord => 167
  | L_KeyRewind => 168
  | L_KeyPhone => 169
  | L_KeyIso => 170
  | L_KeyConfig => 171
  | L_KeyHomepage => 172
  | L_KeyRefresh => 173
  | L_KeyExit => 174
  | L_KeyMove => 175
  | L_KeyEdit => 176
  | L_KeyScrollup => 177
  | L_KeyScrolldown => 178
  | L_KeyKpleftparen => 179
  | L_KeyKprightparen => 180
  | L_KeyNew => 181
  | L_KeyRedo => 182
  | L_KeyF13 => 183
  | L_KeyF14 => 184
  | L_KeyF15 => 185
  | L_KeyF16 => 186
  | L_KeyF17 => 187
  | L_KeyF18 => 188
  | L_KeyF19 => 189
  | L_KeyF20 => 190
  | L_KeyF21 => 191
  | L_KeyF22 => 192
  | L_KeyF23 => 193
  | L_KeyF24 => 194
  | L_Invalid1 => 195
  | L_Invalid2 => 196
  | L_Invalid3 => 197
  | L_Invalid4 => 198
  | L_Invalid5 => 199
  | L_KeyPlaycd => 200
  | L_KeyPausecd => 201
  | L_KeyProg3 => 202
  | L_KeyProg4 => 203
  | L_KeyAllApplications => 204
  | L_KeySuspend => 205
  | L_KeyClose => 206
  | L_KeyPlay => 207
  | L_KeyFastforward => 208
  | L_KeyBassboost => 209
  | L_KeyPrint => 210
  | L_KeyHp => 211
  | L_KeyCamera => 212
  | L_KeySound => 213
  | L_KeyQuestion => 214
  | L_KeyEmail => 215
  | L_KeyChat => 216
  | L_KeySearch => 217
  | L_KeyConnect => 218
  | L_KeyFinance => 219
  | L_KeySport => 220
  | L_KeyShop => 221
  | L_KeyAlterase => 222
  | L_KeyCancel => 223
  | L_KeyBrightnessdown => 224
  | L_KeyBrightnessup => 225
  | L_KeyMedia => 226
  | L_KeySwitchvideomode => 227
  | L_KeyKbdillumtoggle => 228
  | L_KeyKbdillumdown => 229
  | L_KeyKbdillumup => 230
  | L_KeySend => 231
  | L_KeyReply => 232
  | L_KeyForwardmail => 233
  | L_KeySave => 234
  | L_KeyDocuments => 235
  | L_KeyBattery => 236
  | L_KeyBluetooth => 237
  | L_KeyWlan => 238
  | L_KeyUwb => 239
  | L_KeyUnknown => 240
  | L_KeyVideoNext => 241
  | L_KeyVideoPrev => 242
  | L_KeyBrightnessCycle => 243
  | L_KeyBrightnessAuto => 244
  | L_KeyDisplayOff => 245
  | L_KeyWwan => 246
  | L_KeyRfkill => 247
  | L_KeyMicmute => 248
  | L_KeyCount => 249
  end.

(** The derived [TryFromPrimitive]: the variant with that discriminant. *)
Definition windows_try_from (n : N) : option Windows :=
  List.find (fun w => (windows_code w =? n)%N) Windows_ALL.
Definition linux_try_from (n : N) : option Linux :=
  List.find (fun l => (linux_code l =? n)%N) Linux_ALL.

(** [impl TryFrom<Linux> for Windows] *)
Definition windows_of_linux (value : Linux) : option Windows :=
  match value with
  | L_KeyReserved => None
  | L_KeyEsc => Some W_KeyEsc
  | L_Key1 => Some W_Key1
  | L_Key2 => Some W_Key2
  | L_Key3 => Some W_Key3
  | L_Key4 => Some W_Key4
  | L_Key5 => Some W_Key5
  | L_Key6 => Some W_Key6
  | L_Key7 => Some W_Key7
  | L_Key8 => Some W_Key8
  | L_Key9 => Some W_Key9
  | L_Key0 => Some W_Key0
  | L_KeyMinus => Some W_KeyMinus
  | L_KeyEqual => Some W_KeyEqual
  | L_KeyBackspace => Some W_KeyDelete
  | L_KeyTab => Some W_KeyTab
  | L_KeyQ => Some W_KeyQ
  | L_KeyW => Some W_KeyW
  | L_KeyE => Some W_KeyE
  | L_KeyR => Some W_KeyR
  | L_KeyT => Some W_KeyT
  | L_KeyY => Some W_KeyY
  | L_KeyU => Some W_KeyU
  | L_KeyI => Some W_KeyI
  | L_KeyO => Some W_KeyO
  | L_KeyP => Some W_KeyP
  | L_KeyLeftbrace => Some W_KeyLeftBrace
  | L_KeyRightbrace => Some W_KeyRightBrace
  | L_KeyEnter => Some W_KeyEnter
  | L_KeyLeftCtrl => Some W_KeyLeftCtrl
  | L_KeyA => Some W_KeyA
  | L_KeyS => Some W_KeyS
  | L_KeyD => Some W_KeyD
  | L_KeyF => Some W_KeyF
  | L_KeyG => Some W_KeyG
  | L_KeyH => Some W_KeyH
  | L_KeyJ => Some W_KeyJ
  | L_KeyK => Some W_KeyK
  | L_KeyL => Some W_KeyL
  | L_KeySemicolon => Some W_KeySemiColon
  | L_KeyApostrophe => Some W_KeyApostrophe
  | L_KeyGrave => Some W_KeyGrave
  | L_KeyLeftShift => Some W_KeyLeftShift
  | L_KeyBackslash => Some W_KeyBackslash
  | L_KeyZ => Some W_KeyZ
  | L_KeyX => Some W_KeyX
  | L_KeyC => Some W_KeyC
  | L_KeyV => Some W_KeyV
  | L_KeyB => Some W_KeyB
  | L_KeyN => Some W_KeyN
  | L_KeyM => Some W_KeyM
  | L_KeyComma => Some W_KeyComma
  | L_KeyDot => Some W_KeyDot
  | L_KeySlash => Some W_KeySlash
  | L_KeyRightShift => Some W_KeyRightShift
  | L_KeyKpAsterisk => Some W_KeypadStar
  | L_KeyLeftAlt => Some W_KeyLeftAlt
  | L_KeySpace => Some W_KeySpace
  | L_KeyCapsLock => Some W_KeyCapsLock
  | L_KeyF1 => Some W_KeyF1
  | L_KeyF2 => Some W_KeyF2
  | L_KeyF3 => Some W_KeyF3
  | L_KeyF4 => Some W_KeyF4
  | L_KeyF5 => Some W_KeyF5
  | L_KeyF6 => Some W_KeyF6
  | L_KeyF7 => Some W_KeyF7
  | L_KeyF8 => Some W_KeyF8
  | L_KeyF9 => Some W_KeyF9
  | L_KeyF10 => Some W_KeyF10
  | L_KeyNumlock => Some W_KeypadNumLock
  | L_KeyScrollLock => Some W_KeyScrollLock
  | L_KeyKp7 => Some W_Keypad7Home
  | L_KeyKp8 => Some W_Keypad8UpArrow
  | L_KeyKp9 => Some W_Keypad9PageUp
  | L_KeyKpMinus => Some W_KeypadDash
  | L_KeyKp4 => Some W_Keypad4LeftArrow
  | L_KeyKp5 => Some W_Keypad5
  | L_KeyKp6 => Some W_Keypad6RightArrow
  | L_KeyKpplus => Some W_KeypadPlus
  | L_KeyKp1 => Some W_Keypad1End
  | L_KeyKp2 => Some W_Keypad2DownArrow
  | L_KeyKp3 => Some W_Keypad3PageDn
  | L_KeyKp0 => Some W_Keypad0Insert
  | L_KeyKpDot => Some W_KeypadDot
  | L_Invalid => None
  | L_KeyZenkakuhankaku => Some W_KeyF24
  | L_Key102nd => Some W_KeyNonUSSlashBar
  | L_KeyF11 => Some W_KeyF11
  | L_KeyF12 => Some W_KeyF12
  | L_KeyRo => Some W_KeyInternational1
  | L_KeyKatakana => Some W_KeyLANG3
  | L_KeyHiragana => Some W_KeyLANG4
  | L_KeyHenkan => Some W_KeyInternational4
  | L_KeyKatakanahiragana => Some W_KeyInternational2
  | L_KeyMuhenkan => Some W_KeyInternational5
  | L_KeyKpJpComma => Some W_KeypadComma
  | L_KeyKpEnter => Some W_KeypadEnter
  | L_KeyRightCtrl => Some W_KeyRightCtrl
  | L_KeyKpslash => Some W_KeypadSlash
  | L_KeySysrq => Some W_KeyPrintScreen
  | L_KeyRightalt => Some W_KeyRightAlt
  | L_KeyLinefeed => Some W_KeyEnter
  | L_KeyHome => Some W_KeyHome
  | L_KeyUp => Some W_KeyUp
  | L_KeyPageup => Some W_KeyPageUp
  | L_KeyLeft => Some W_KeyLeft
  | L_KeyRight => Some W_KeyRight
  | L_KeyEnd => Some W_KeyEnd
  | L_KeyDown => Some W_KeyDown
  | L_KeyPagedown => Some W_KeyPageDown
  | L_KeyInsert => Some W_KeyInsert
  | L_KeyDelete => Some W_KeyDeleteForward
  | L_KeyMacro => None
  | L_KeyMute => Some W_KeyMute
  | L_KeyVolumeDown => Some W_KeyVolumeDown
  | L_KeyVolumeUp => Some W_KeyVolumeUp
  | L_KeyPower => Some W_Shutdown
  | L_KeyKpequal => Some W_KeypadEquals
  | L_KeyKpplusminus => Some W_KeypadPlus
  | L_KeyPause => Some W_KeyPause
  | L_KeyScale => None
  | L_KeyKpcomma => Some W_KeypadComma
  | L_KeyHanguel => Some W_KeyLANG1
  | L_KeyHanja => Some W_KeyLANG2
  | L_KeyYen => Some W_KeyInternational3
  | L_KeyLeftMeta => Some W_KeyLeftGUI
  | L_KeyRightmeta => Some W_KeyRightGUI
  | L_KeyCompose => Some W_KeyApplication
  | L_KeyStop => Some W_ACStop
  | L_KeyAgain => None
  | L_KeyProps => None
  | L_KeyUndo => None
  | L_KeyFront => None
  | L_KeyCopy => None
  | L_KeyOpen => None
  | L_KeyPaste => None
  | L_KeyFind => Some W_ACSearch
  | L_KeyCut => None
  | L_KeyHelp => Some W_KeyF1
  | L_KeyMenu => Some W_KeyApplication
  | L_KeyCalc => Some W_ALCalculator
  | L_KeySetup => None
  | L_KeySleep => Some W_SystemSleep
  | L_KeyWakeup => Some W_SystemWakeUp
  | L_KeyFile => Some W_ALLocalMachineBrowser
  | L_KeySendfile => None
  | L_KeyDeletefile => None
  | L_KeyXfer => None
  | L_KeyProg1 => None
  | L_KeyProg2 => None
  | L_KeyWww => Some W_ACSearch
  | L_KeyMsdos => None
  | L_KeyCoffee => None
  | L_KeyRotateDisplay => None
  | L_KeyCyclewindows => None
  | L_KeyMail => Some W_ALEmailReader
  | L_KeyBookmarks => Some W_ACBookmarks
  | L_KeyComputer => Some W_ACHome
  | L_KeyBack => Some W_ACBack
  | L_KeyForward => Some W_ACForward
  | L_KeyClosecd => None
  | L_KeyEjectcd => None
  | L_KeyEjectclosecd => None
  | L_KeyNextsong => Some W_KeyScanNextTrack
  | L_KeyPlaypause => Some W_KeyPlayPause
  | L_KeyPrevioussong => Some W_KeyScanPreviousTrack
  | L_KeyStopcd => Some W_KeyStop
  | L_KeyRecord => None
  | L_KeyRewind => None
  | L_KeyPhone => None
  | L_KeyIso => None
  | L_KeyConfig => None
  | L_KeyHomepage => Some W_ACHome
  | L_KeyRefresh => Some W_ACRefresh
  | L_KeyExit => None
  | L_KeyMove => None
  | L_KeyEdit => None
  | L_KeyScrollup => None
  | L_KeyScrolldown => None
  | L_KeyKpleftparen => None
  | L_KeyKprightparen => None
  | L_KeyNew => None
  | L_KeyRedo => None
  | L_KeyF13 => Some W_KeyF13
  | L_KeyF14 => Some W_KeyF14
  | L_KeyF15 => Some W_KeyF15
  | L_KeyF16 => Some W_KeyF16
  | L_KeyF17 => Some W_KeyF17
  | L_KeyF18 => Some W_KeyF18
  | L_KeyF19 => Some W_KeyF19
  | L_KeyF20 => Some W_KeyF20
  | L_KeyF21 => Some W_KeyF21
  | L_KeyF22 => Some W_KeyF22
  | L_KeyF23 => Some W_KeyF23
  | L_KeyF24 => Some W_KeyF24
  | L_Invalid1 => None
  | L_Invalid2 => None
  | L_Invalid3 => None
  | L_Invalid4 => None
  | L_Invalid5 => None
  | L_KeyPlaycd => None
  | L_KeyPausecd => None
  | L_KeyProg3 => None
  | L_KeyProg4 => None
  | L_KeyAllApplications => None
  | L_KeySuspend => None
  | L_KeyClose => None
  | L_KeyPlay => None
  | L_KeyFastforward => None
  | L_KeyBassboost => None
  | L_KeyPrint => None
  | L_KeyHp => None
  | L_KeyCamera => None
  | L_KeySound => None
  | L_KeyQuestion => None
  | L_KeyEmail => None
  | L_KeyChat => None
  | L_KeySearch => None
  | L_KeyConnect => None
  | L_KeyFinance => None
  | L_KeySport => None
  | L_KeyShop => None
  | L_KeyAlterase => None
  | L_KeyCancel => None
  | L_KeyBrightnessdown => None
  | L_KeyBrightnessup => None
  | L_KeyMedia => None
  | L_KeySwitchvideomode => None
  | L_KeyKbdillumtoggle => None
  | L_KeyKbdillumdown => None
  | L_KeyKbdillumup => None
  | L_KeySend => None
  | L_KeyReply => None
  | L_KeyForwardmail => None
  | L_KeySave => None
  | L_KeyDocuments => None
  | L_KeyBattery => None
  | L_KeyBluetooth => None
  | L_KeyWlan => None
  | L_KeyUwb => None
  | L_KeyUnknown => None
  | L_KeyVideoNext => None
  | L_KeyVideoPrev => None
  | L_KeyBrightnessCycle => None
  | L_KeyBrightnessAuto => None
  | L_KeyDisplayOff => None
  | L_KeyWwan => None
  | L_KeyRfkill => None
  | L_KeyMicmute => None
  | L_KeyCount => None
  end.

(** [impl TryFrom<Windows> for Linux] *)
Definition linux_of_windows (value : Windows) : option Linux :=
  match value with
  | W_Shutdown => Some L_KeyPower
  | W_SystemSleep => Some L_KeySleep
  | W_SystemWakeUp => Some L_KeyWakeup
  | W_ErrorRollOver => Some L_KeyRo
  | W_KeyA => Some L_KeyA
  | W_KeyB => Some L_KeyB
  | W_KeyC => Some L_KeyC
  | W_KeyD => Some L_KeyD
  | W_KeyE => Some L_KeyE
  | W_KeyF => Some L_KeyF
  | W_KeyG => Some L_KeyG
  | W_KeyH => Some L_KeyH
  | W_KeyI => Some L_KeyI
  | W_KeyJ => Some L_KeyJ
  | W_KeyK => Some L_KeyK
  | W_KeyL => Some L_KeyL
  | W_KeyM => Some L_KeyM
  | W_KeyN => Some L_KeyN
  | W_KeyO => Some L_KeyO
  | W_KeyP => Some L_KeyP
  | W_KeyQ => Some L_KeyQ
  | W_KeyR => Some L_KeyR
  | W_KeyS => Some L_KeyS
  | W_KeyT => Some L_KeyT
  | W_KeyU => Some L_KeyU
  | W_KeyV => Some L_KeyV
  | W_KeyW => Some L_KeyW
  | W_KeyX => Some L_KeyX
  | W_KeyY => Some L_KeyY
  | W_KeyZ => Some L_KeyZ
  | W_Key1 => Some L_Key1
  | W_Key2 => Some L_Key2
  | W_Key3 => Some L_Key3
  | W_Key4 => Some L_Key4
  | W_Key5 => Some L_Key5
  | W_Key6 => Some L_Key6
  | W_Key7 => Some L_Key7
  | W_Key8 => Some L_Key8
  | W_Key9 => Some L_Key9
  | W_Key0 => Some L_Key0
  | W_KeyEnter => Some L_KeyEnter
  | W_KeyEsc => Some L_KeyEsc
  | W_KeyDelete => Some L_KeyBackspace
  | W_KeyTab => Some L_KeyTab
  | W_KeySpace => Some L_KeySpace
  | W_KeyMinus => Some L_KeyMinus
  | W_KeyEqual => Some L_KeyEqual
  | W_KeyLeftBrace => Some L_KeyLeftbrace
  | W_KeyRightBrace => Some L_KeyRightbrace
  | W_KeyBackslash => Some L_KeyBackslash
  | W_KeySemiColon => Some L_KeySemicolon
  | W_KeyApostrophe => Some L_KeyApostrophe
  | W_KeyGrave => Some L_KeyGrave
  | W_KeyComma => Some L_KeyComma
  | W_KeyDot => Some L_KeyDot
  | W_KeySlash => Some L_KeySlash
  | W_KeyCapsLock => Some L_KeyCapsLock
  | W_KeyF1 => Some L_KeyF1
  | W_KeyF2 => Some L_KeyF2
  | W_KeyF3 => Some L_KeyF3
  | W_KeyF4 => Some L_KeyF4
  | W_KeyF5 => Some L_KeyF5
  | W_KeyF6 => Some L_KeyF6
  | W_KeyF7 => Some L_KeyF7
  | W_KeyF8 => Some L_KeyF8
  | W_KeyF9 => Some L_KeyF9
  | W_KeyF10 => Some L_KeyF10
  | W_KeyF11 => Some L_KeyF11
  | W_KeyF12 => Some L_KeyF12
  | W_KeyPrintScreen => Some L_KeySysrq
  | W_KeyScrollLock => Some L_KeyScrollLock
  | W_KeyPause => Some L_KeyPause
  | W_KeyInsert => Some L_KeyInsert
  | W_KeyHome => Some L_KeyHome
  | W_KeyPageUp => Some L_KeyPageup
  | W_KeyDeleteForward => Some L_KeyDelete
  | W_KeyEnd => Some L_KeyEnd
  | W_KeyPageDown => Some L_KeyPagedown
  | W_KeyRight => Some L_KeyRight
  | W_KeyLeft => Some L_KeyLeft
  | W_KeyDown => Some L_KeyDown
  | W_KeyUp => Some L_KeyUp
  | W_KeypadNumLock => Some L_KeyNumlock
  | W_KeypadSlash => Some L_KeyKpslash
  | W_KeypadStar => Some L_KeyKpAsterisk
  | W_KeypadDash => Some L_KeyKpMinus
  | W_KeypadPlus => Some L_KeyKpplus
  | W_KeypadEnter => Some L_KeyKpEnter
  | W_Keypad1End => Some L_KeyKp1
  | W_Keypad2DownArrow => Some L_KeyKp2
  | W_Keypad3PageDn => Some L_KeyKp3
  | W_Keypad4LeftArrow => Some L_KeyKp4
  | W_Keypad5 => Some L_KeyKp5
  | W_Keypad6RightArrow => Some L_KeyKp6
  | W_Keypad7Home => Some L_KeyKp7
  | W_Keypad8UpArrow => Some L_KeyKp8
  | W_Keypad9PageUp => Some L_KeyKp9
  | W_Keypad0Insert => Some L_KeyKp0
  | W_KeypadDot => Some L_KeyKpDot
  | W_KeyNonUSSlashBar => Some L_Key102nd
  | W_KeyApplication => Some L_KeyMenu
  | W_KeypadEquals => Some L_KeyKpequal
  | W_KeyF13 => Some L_KeyF13
  | W_KeyF14 => Some L_KeyF14
  | W_KeyF15 => Some L_KeyF15
  | W_KeyF16 => Some L_KeyF16
  | W_KeyF17 => Some L_KeyF17
  | W_KeyF18 => Some L_KeyF18
  | W_KeyF19 => Some L_KeyF19
  | W_KeyF20 => Some L_KeyF20
  | W_KeyF21 => Some L_KeyF21
  | W_KeyF22 => Some L_KeyF22
  | W_KeyF23 => Some L_KeyF23
  | W_KeyF24 => Some L_KeyF24
  | W_KeypadComma => Some L_KeyKpcomma
  | W_KeyInternational1 => Some L_KeyRo
  | W_KeyInternational2 => Some L_KeyKatakanahiragana
  | W_KeyInternational3 => Some L_KeyYen
  | W_KeyInternational4 => Some L_KeyHenkan
  | W_KeyInternational5 => Some L_KeyMuhenkan
  | W_KeyLANG1 => Some L_KeyHanguel
  | W_KeyLANG2 => Some L_KeyHanja
  | W_KeyLANG3 => Some L_KeyKatakana
  | W_KeyLANG4 => Some L_KeyHiragana
  | W_KeyLeftCtrl => Some L_KeyLeftCtrl
  | W_KeyLeftShift => Some L_KeyLeftShift
  | W_KeyLeftAlt => Some L_KeyLeftAlt
  | W_KeyLeftGUI => Some L_KeyLeftMeta
  | W_KeyRightCtrl => Some L_KeyRightCtrl
  | W_KeyRightShift => Some L_KeyRightShift
  | W_KeyFakeRightShift => Some L_KeyRightShift
  | W_KeyRightAlt => Some L_KeyRightalt
  | W_KeyRightGUI => Some L_KeyRightmeta
  | W_KeyScanNextTrack => Some L_KeyNextsong
  | W_KeyScanPreviousTrack => Some L_KeyPrevioussong
  | W_KeyStop => Some L_KeyStopcd
  | W_KeyPlayPause => Some L_KeyPlaypause
  | W_KeyMute => Some L_KeyMute
  | W_KeyVolumeUp => Some L_KeyVolumeUp
  | W_KeyVolumeDown => Some L_KeyVolumeDown
  | W_ALConsumerControlConfiguration => None
  | W_ALEmailReader => Some L_KeyMail
  | W_ALCalculator => Some L_KeyCalc
  | W_ALLocalMachineBrowser => Some L_KeyFile
  | W_ACSearch => Some L_KeyWww
  | W_ACHome => Some L_KeyHomepage
  | W_ACBack => Some L_KeyBack
  | W_ACForward => Some L_KeyForward
  | W_ACStop => Some L_KeyStop
  | W_ACRefresh => Some L_KeyRefresh
  | W_ACBookmarks => Some L_KeyBookmarks
  end.

(** ** Numbers *)

Lemma linux_try_from_code l : linux_try_from (linux_code l) = Some l.
Proof. destruct l; vm_compute; reflexivity. Qed.

Lemma windows_try_from_code w : windows_try_from (windows_code w) = Some w.
Proof. destruct w; vm_compute; reflexivity. Qed.

Lemma linux_code_inj : Inj (=) (=) linux_code.
Proof.
  intros a b H. apply (f_equal linux_try_from) in H. rewrite !linux_try_from_code in H. congruence.
Qed.

Lemma windows_code_inj : Inj (=) (=) windows_code.
Proof.
  intros a b H. apply (f_equal windows_try_from) in H. rewrite !windows_try_from_code in H. congruence.
Qed.

#[global] Instance Linux_eq_dec : EqDecision Linux.
Proof.
  intros a b. destruct (decide (linux_code a = linux_code b)) as [H|H].
  - left. by apply linux_code_inj.
  - right. by intros ->.
Defined.
#[global] Instance Windows_eq_dec : EqDecision Windows.
Proof.
  intros a b. destruct (decide (windows_code a = windows_code b)) as [H|H].
  - left. by apply windows_code_inj.
  - right. by intros ->.
Defined.

(** ** Translations *)

(** The keys that do not come back. *)
Definition lossy_linux : list Linux :=
  [ L_KeyZenkakuhankaku; L_KeyKpJpComma; L_KeyLinefeed; L_KeyKpplusminus; L_KeyCompose;
  L_KeyFind; L_KeyHelp; L_KeyComputer ].
Definition lossy_windows : list Windows := [W_ErrorRollOver; W_KeyFakeRightShift].

Definition linux_comes_back (l : Linux) : bool :=
  match windows_of_linux l with
  | Some w => bool_decide (linux_of_windows w = Some l)
  | None => true
  end.
Definition windows_comes_back (w : Windows) : bool :=
  match linux_of_windows w with
  | Some l => bool_decide (windows_of_linux l = Some w)
  | None => true
  end.

Lemma linux_try_from_Some n l : linux_try_from n = Some l <-> linux_code l = n.
Proof.
  split; [|intros <-; apply linux_try_from_code].
  intros [_ H]%List.find_some. by apply N.eqb_eq.
Qed.

Lemma windows_try_from_Some n w : windows_try_from n = Some w <-> windows_code w = n.
Proof.
  split; [|intros <-; apply windows_try_from_code].
  intros [_ H]%List.find_some. by apply N.eqb_eq.
Qed.

(** scan codes.  A number is a Linux or Windows scan code exactly when it
    is the number of one variant, which is then unique.  A Linux key that has
    a Windows scan code translates back to itself, except for eight keys that
    share the code of another key; and a Windows key translates back to itself
    except for the error roll-over code and the fake right shift. *)
Theorem scancode_roundtrip :
  (forall n l, linux_try_from n = Some l <-> linux_code l = n)
  /\ (forall n w, windows_try_from n = Some w <-> windows_code w = n)
  /\ (forall l w, windows_of_linux l = Some w ->
        (linux_of_windows w = Some l <-> l ∉ lossy_linux))
  /\ (forall w l, linux_of_windows w = Some l ->
        (windows_of_linux l = Some w <-> w ∉ lossy_windows)).
Proof.
  split; [apply linux_try_from_Some|]. split; [apply windows_try_from_Some|].
  assert (forall l, linux_comes_back l = negb (bool_decide (l ∈ lossy_linux))) as HL
    by (intros l; destruct l; vm_compute; reflexivity).
  assert (forall w, windows_comes_back w = negb (bool_decide (w ∈ lossy_windows))) as HW
    by (intros w; destruct w; vm_compute; reflexivity).
  split.
  - intros l w E. specialize (HL l). unfold linux_comes_back in HL. rewrite E in HL.
    rewrite <- (bool_decide_eq_true (_ = _)), HL, negb_true_iff. apply bool_decide_eq_false.
  - intros w l E. specialize (HW w). unfold windows_comes_back in HW. rewrite E in HW.
    rewrite <- (bool_decide_eq_true (_ = _)), HW, negb_true_iff. apply bool_decide_eq_false.
Qed.
