(* ===== verification/CaptureQueue.v ===== *)
(** * The capture event queue (input-capture/src/event_queue.rs)

    Events of the capture hook wait here for the asynchronous reader.
    Successive pointer motions are merged; every other event is critical and
    is either delivered or reported as lost by an overflow.  The mutex makes
    each operation atomic; waking the reader is not modelled. *)

From stdpp Require Import base tactics list sets strings.
From Stdlib Require Import NArith ZArith Lia.
From S2P Require Import Prelude Bytes ProtoWire.

(** ** Capture events (input-capture/src/lib.rs) *)

Inductive CaptureEvent :=
| Begin
| EdgeRetreated
| CInput (e : InputEvent).

Inductive CapturePosition := CLeft | CRight | CTop | CBottom.
#[global] Instance CapturePosition_eq_dec : EqDecision CapturePosition.
Proof. solve_decision. Defined.

(** [Position::opposite] *)
Definition opposite (p : CapturePosition) : CapturePosition :=
  match p with CLeft => CRight | CRight => CLeft | CTop => CBottom | CBottom => CTop end.

(** ** The queue *)

Definition SCAN_CODE_SLOTS : nat := 2 * (255 + 1).
Definition POINTER_TRANSITIONS : nat := 16.
Definition CRITICAL_EVENT_CAPACITY : nat := 2 * SCAN_CODE_SLOTS + POINTER_TRANSITIONS.

Abbreviation Queued_event := (CapturePosition * CaptureEvent)%type.

Record QueueState := mkQueue {
  qu_events : list Queued_event;
  qu_critical_count : nat;
  qu_overflowed : bool;
  qu_closed : bool }.

Inductive PushOutcome := PushQueued | PushOverflow.

Inductive QueuePoll :=
| PollEvent (e : Queued_event)
| PollOverflow
| PollClosed
| PollPending.

Definition is_motion (e : CaptureEvent) : bool :=
  match e with CInput (Pointer (Motion _ _ _)) => true | _ => false end.

(** [EventQueue::new] *)
Definition queue_new : QueueState := mkQueue [] 0 false false.

(** [state.events.back()] is a motion. *)
Definition back_is_motion (q : list Queued_event) : bool :=
  match last q with Some (_, e) => is_motion e | None => false end.

(** [*state.events.back_mut().expect(..) = x] *)
Definition replace_back (q : list Queued_event) (x : Queued_event) : exec Empty_set (list Queued_event) :=
  match q with [] => Panic "motion event" | _ => Ret (removelast q ++ [x]) end.

(** [EventQueue::push] *)
Definition queue_push (position : CapturePosition) (event : CaptureEvent) (s : QueueState)
  : exec Empty_set (PushOutcome * QueueState) :=
  if qu_closed s || qu_overflowed s then Ret (PushOverflow, s)
  else if is_motion event then
    if back_is_motion (qu_events s) then
      let* events := replace_back (qu_events s) (position, event) in
      Ret (PushQueued, mkQueue events (qu_critical_count s) (qu_overflowed s) (qu_closed s))
    else Ret (PushQueued, mkQueue (qu_events s ++ [(position, event)]) (qu_critical_count s)
                            (qu_overflowed s) (qu_closed s))
  else if qu_critical_count s <? CRITICAL_EVENT_CAPACITY then
    Ret (PushQueued, mkQueue (qu_events s ++ [(position, event)]) (S (qu_critical_count s))
                       (qu_overflowed s) (qu_closed s))
  else Ret (PushOverflow, mkQueue [] 0 true (qu_closed s)).

(** [EventQueue::poll]; the count is unsigned, so that taking one from zero
    panics. *)
Definition queue_poll (s : QueueState) : exec Empty_set (QueuePoll * QueueState) :=
  if qu_overflowed s then Ret (PollOverflow, mkQueue (qu_events s) (qu_critical_count s) false (qu_closed s))
  else
    match qu_events s with
    | event :: events =>
        if is_motion (snd event)
        then Ret (PollEvent event, mkQueue events (qu_critical_count s) false (qu_closed s))
        else match qu_critical_count s with
             | 0 => Panic "attempt to subtract with overflow"
             | S n => Ret (PollEvent event, mkQueue events n false (qu_closed s))
             end
    | [] => Ret (if qu_closed s then PollClosed else PollPending, s)
    end.

(** [EventQueue::close] *)
Definition queue_close (s : QueueState) : QueueState :=
  mkQueue (qu_events s) (qu_critical_count s) (qu_overflowed s) true.

(** ** Runs of the queue *)

Inductive QueueOp := QPush (p : CapturePosition) (e : CaptureEvent) | QPoll | QClose.
Inductive QueueAnswer := APush (o : PushOutcome) | APoll (r : QueuePoll) | AClosed.

Definition queue_op (o : QueueOp) (s : QueueState) : exec Empty_set (QueueAnswer * QueueState) :=
  match o with
  | QPush p e => let* (r, s) := queue_push p e s in Ret (APush r, s)
  | QPoll => let* (r, s) := queue_poll s in Ret (APoll r, s)
  | QClose => Ret (AClosed, queue_close s)
  end.

Fixpoint queue_run (ops : list QueueOp) (s : QueueState)
  : exec Empty_set (list (QueueOp * QueueAnswer) * QueueState) :=
  match ops with
  | [] => Ret ([], s)
  | o :: ops =>
      let* (a, s) := queue_op o s in
      let* (log, s) := queue_run ops s in
      Ret ((o, a) :: log, s)
  end.

(** ** The invariant *)

Definition critical (q : list Queued_event) : list Queued_event :=
  List.filter (fun x => negb (is_motion (snd x))) q.

(** No two motions in a row. *)
Fixpoint merged (q : list Queued_event) : Prop :=
  match q with
  | x :: (y :: _) as t => (is_motion (snd x) = false \/ is_motion (snd y) = false) /\ merged t
  | _ => True
  end.

Record QueueOk (s : QueueState) : Prop := {
  qo_count : qu_critical_count s = length (critical (qu_events s));
  qo_bound : qu_critical_count s <= CRITICAL_EVENT_CAPACITY;
  qo_merged : merged (qu_events s);
  qo_overflow : qu_overflowed s = true -> qu_events s = [] }.

Lemma critical_app a b : critical (a ++ b) = critical a ++ critical b.
Proof. apply List.filter_app. Qed.

Lemma merged_cons x q : merged (x :: q) -> merged q.
Proof. destruct q; [done|]. by intros [_ H]. Qed.

Lemma merged_snoc q x : merged q -> (back_is_motion q = false \/ is_motion (snd x) = false) ->
  merged (q ++ [x]).
Proof.
  induction q as [|y q IH]; [done|]. intros Hm Hb. destruct q as [|z q].
  - cbn in *. split; [|done]. destruct y as [p e]. cbn in *. tauto.
  - destruct Hm as [Hyz Hm]. cbn [app merged]. split; [done|]. apply IH; [done|].
    unfold back_is_motion in *. by rewrite last_cons_cons in Hb.
Qed.

Lemma merged_removelast q x y : merged (q ++ [x]) -> is_motion (snd x) = true -> merged (q ++ [y]).
Proof.
  induction q as [|z q IH]; [done|]. intros Hm Hx. destruct q as [|w q].
  - cbn in *. destruct Hm as [[H|H] _]; [|congruence]. auto.
  - destruct Hm as [Hzw Hm]. split; [done|]. by apply IH.
Qed.

Lemma back_is_motion_snoc q :
  back_is_motion q = true -> exists q' x, q = q' ++ [x] /\ is_motion (snd x) = true.
Proof.
  unfold back_is_motion. destruct (last q) as [[p e]|] eqn:E; [|done]. intros H.
  apply last_Some in E as (q' & ->). exists q', (p, e). done.
Qed.

Lemma critical_motion q x : is_motion (snd x) = true -> critical (q ++ [x]) = critical q.
Proof. intros H. rewrite critical_app. cbn. rewrite H. apply app_nil_r. Qed.

Lemma critical_event q x : is_motion (snd x) = false -> critical (q ++ [x]) = critical q ++ [x].
Proof. intros H. rewrite critical_app. cbn. by rewrite H. Qed.

(** A queue without two motions in a row has at most one more motion than
    critical events. *)
Lemma merged_length q : merged q -> length q <= 2 * length (critical q) + 1.
Proof.
  remember (length q) as n eqn:Hn. revert q Hn. induction n as [n H] using lt_wf_ind. intros q ->.
  destruct q as [|x [|y q]]; [intros _; cbn; lia|intros _; cbn; destruct (is_motion (snd x)); cbn; lia|].
  intros [Hxy Hm]. cbn [critical List.filter length].
  pose proof (H (length (y :: q)) ltac:(cbn; lia) (y :: q) eq_refl Hm) as H1.
  pose proof (H (length q) ltac:(cbn; lia) q eq_refl (merged_cons _ _ Hm)) as H2.
  cbn [critical List.filter length] in H1. unfold critical in *.
  destruct (is_motion (snd x)) eqn:Ex, (is_motion (snd y)) eqn:Ey; cbn [negb length] in *;
    [destruct Hxy; congruence|lia..].
Qed.

(** ** Steps *)

(** What an operation does to the critical events of the queue. *)
Inductive critical_step : QueueOp -> QueueAnswer -> QueueState -> QueueState -> Prop :=
| cs_same o a s s' :
    critical (qu_events s') = critical (qu_events s) ->
    (forall p e, o = QPush p e -> a = APush PushQueued -> is_motion e = true) ->
    (forall x, a = APoll (PollEvent x) -> is_motion (snd x) = true) ->
    critical_step o a s s'
| cs_pushed p e s s' :
    is_motion e = false -> critical (qu_events s') = critical (qu_events s) ++ [(p, e)] ->
    critical_step (QPush p e) (APush PushQueued) s s'
| cs_polled x s s' :
    is_motion (snd x) = false -> critical (qu_events s) = x :: critical (qu_events s') ->
    critical_step QPoll (APoll (PollEvent x)) s s'
| cs_overflow p e s s' :
    is_motion e = false -> length (critical (qu_events s)) = CRITICAL_EVENT_CAPACITY ->
    qu_events s' = [] -> qu_overflowed s' = true -> qu_overflowed s = false ->
    critical_step (QPush p e) (APush PushOverflow) s s'.

Lemma queue_push_spec p e s : QueueOk s ->
  exists o s', queue_push p e s = Ret (o, s') /\ QueueOk s' /\ qu_closed s' = qu_closed s
    /\ critical_step (QPush p e) (APush o) s s'
    /\ (qu_overflowed s = true -> o = PushOverflow /\ s' = s)
    /\ (qu_closed s = true -> o = PushOverflow /\ s' = s).
Proof.
  intros [H1 H2 H3 H4]. unfold queue_push.
  destruct (qu_closed s || qu_overflowed s) eqn:Ec.
  { exists PushOverflow, s. repeat split; try done. by apply cs_same. }
  apply orb_false_iff in Ec as [Ec Eo]. rewrite Ec, Eo.
  destruct (is_motion e) eqn:Em.
  - destruct (back_is_motion (qu_events s)) eqn:Eb.
    + apply back_is_motion_snoc in Eb as (q & x & Hq & Hx). rewrite Hq.
      assert (replace_back (q ++ [x]) (p, e) = Ret (q ++ [(p, e)])) as ->.
      { unfold replace_back. destruct (q ++ [x]) eqn:E; [by destruct q|].
        by rewrite <- E, removelast_last. }
      cbn [exec_bind]. eexists _, _. split; [reflexivity|]. rewrite Hq in *.
      rewrite critical_motion in H1 by done.
      split; [split; cbn; try done|].
      * by rewrite critical_motion.
      * by eapply merged_removelast.
      * split; [done|]. split; [|done]. apply cs_same; try done.
        -- cbn. by rewrite Hq, !critical_motion.
        -- by intros p' e' [= <- <-].
    + eexists _, _. split; [reflexivity|].
      split; [split; cbn; try done|].
      * by rewrite critical_motion.
      * apply merged_snoc; auto.
      * split; [done|]. split; [|done]. apply cs_same; try done.
        -- cbn. by rewrite critical_motion.
        -- by intros p' e' [= <- <-].
  - destruct (Nat.ltb_spec (qu_critical_count s) CRITICAL_EVENT_CAPACITY) as [Hlt|Hge].
    + eexists _, _. split; [reflexivity|].
      split; [split; cbn [qu_critical_count qu_events qu_overflowed]; try done|].
      * rewrite critical_event, length_app by done. cbn [length]. lia.
      * apply merged_snoc; auto.
      * split; [done|]. split; [|done]. apply cs_pushed; [done|]. cbn. by rewrite critical_event.
    + eexists _, _. split; [reflexivity|].
      split; [split; cbn [qu_critical_count qu_events qu_overflowed]; try done; lia|].
      split; [done|]. split; [|done]. apply cs_overflow; try done. lia.
Qed.

Lemma queue_poll_spec s : QueueOk s ->
  exists r s', queue_poll s = Ret (r, s') /\ QueueOk s' /\ qu_closed s' = qu_closed s
    /\ critical_step QPoll (APoll r) s s' /\ qu_overflowed s' = false
    /\ (r = PollOverflow <-> qu_overflowed s = true)
    /\ (r = PollClosed \/ r = PollPending -> qu_events s = [] /\ s' = s).
Proof.
  intros [H1 H2 H3 H4]. unfold queue_poll. destruct (qu_overflowed s) eqn:Eo.
  { eexists _, _. split; [reflexivity|]. split; [split; cbn; auto; done|].
    split; [done|]. split; [by apply cs_same|]. split; [done|]. split; [done|].
    intros [H|H]; discriminate H. }
  destruct (qu_events s) as [|x q] eqn:Eq.
  - eexists _, s. split; [reflexivity|]. split; [split; rewrite ?Eq; auto; congruence|].
    split; [done|]. split; [apply cs_same; try done; by destruct (qu_closed s)|].
    split; [done|]. split; [by destruct (qu_closed s)|]. done.
  - destruct (is_motion (snd x)) eqn:Em.
    + eexists _, _. split; [reflexivity|]. cbn [critical List.filter] in H1. rewrite Em in H1.
      split; [split; cbn [qu_critical_count qu_events qu_overflowed]; try done; by eapply merged_cons|].
      split; [done|]. split.
      * apply cs_same; try done; [|by intros y [= <-]]. rewrite Eq. cbn. by rewrite Em.
      * split; [done|]. split; [done|]. intros [H|H]; discriminate H.
    + cbn [critical List.filter] in H1. rewrite Em in H1. cbn [negb length] in H1.
      destruct (qu_critical_count s) as [|n] eqn:En; [lia|].
      eexists _, _. split; [reflexivity|].
      split; [split; cbn [qu_critical_count qu_events qu_overflowed]; try done|].
      * unfold critical. lia.
      * lia.
      * by eapply merged_cons.
      * split; [done|]. split.
        -- apply cs_polled; [done|]. rewrite Eq. cbn. by rewrite Em.
        -- split; [done|]. split; [done|]. intros [H|H]; discriminate H.
Qed.

Lemma queue_new_ok : QueueOk queue_new.
Proof. split; cbn; auto; lia. Qed.

Lemma queue_op_spec o s : QueueOk s ->
  exists a s', queue_op o s = Ret (a, s') /\ QueueOk s' /\ critical_step o a s s'.
Proof.
  intros Hok. destruct o as [p e| |]; cbn [queue_op].
  - destruct (queue_push_spec p e s Hok) as (r & s' & -> & Hok' & _ & Hc & _). cbn. eauto.
  - destruct (queue_poll_spec s Hok) as (r & s' & -> & Hok' & _ & Hc & _). cbn. eauto.
  - eexists _, _. split; [reflexivity|]. split; [|by apply cs_same].
    destruct Hok as [H1 H2 H3 H4]. by split.
Qed.

(** ** Claims *)

(** The critical events accepted and delivered in a run. *)
Definition accepted (log : list (QueueOp * QueueAnswer)) : list Queued_event :=
  omap (fun x => match x with
                 | (QPush p e, APush PushQueued) => if is_motion e then None else Some (p, e)
                 | _ => None
                 end) log.
Definition delivered (log : list (QueueOp * QueueAnswer)) : list Queued_event :=
  omap (fun x => match x with
                 | (_, APoll (PollEvent x)) => if is_motion (snd x) then None else Some x
                 | _ => None
                 end) log.

(** An overflow of a queue that was neither overflown nor closed. *)
Definition no_overflow (log : list (QueueOp * QueueAnswer)) : Prop :=
  forall p e, (QPush p e, APush PushOverflow) ∉ log.

Lemma queue_run_spec ops : forall s, QueueOk s ->
  exists log s', queue_run ops s = Ret (log, s') /\ QueueOk s' /\ log.*1 = ops
    /\ (no_overflow log ->
        critical (qu_events s) ++ accepted log = delivered log ++ critical (qu_events s')).
Proof.
  induction ops as [|o ops IH]; intros s Hok; cbn [queue_run].
  { exists [], s. repeat split; try done; try apply Hok. intros _. by rewrite app_nil_r. }
  destruct (queue_op_spec o s Hok) as (a & s1 & -> & Hok1 & Hc). cbn [exec_bind].
  destruct (IH s1 Hok1) as (log & s2 & -> & Hok2 & Hl & Hd). cbn [exec_bind].
  exists ((o, a) :: log), s2. split; [done|]. split; [done|]. split; [cbn; by rewrite Hl|].
  intros Hno. assert (no_overflow log) as Hno' by (intros p e Hin; apply (Hno p e); set_solver).
  specialize (Hd Hno').
  destruct Hc as [o a s s' Hs Hp Hx|p e s s' Hm Hs|x s s' Hm Hs|p e s s' Hm Hlen Hs Ho Ho'].
  - rewrite <- Hs. cbn [accepted delivered omap list_omap].
    assert (match o, a with QPush p e, APush PushQueued => if is_motion e then None else Some (p, e)
            | _, _ => None end = None) as ->.
    { destruct o as [p e| |], a as [[]|r|]; try done. by rewrite (Hp p e). }
    assert (match a with APoll (PollEvent x) => if is_motion (snd x) then None else Some x
            | _ => None end = None) as Ha.
    { destruct a as [r|[x| | |]|]; try done. by rewrite (Hx x). }
    destruct o; rewrite Ha; exact Hd.
  - cbn [accepted delivered omap list_omap]. rewrite Hm. rewrite Hs, <- app_assoc in Hd. exact Hd.
  - cbn [accepted delivered omap list_omap]. rewrite Hm, Hs. cbn [app]. f_equal. exact Hd.
  - exfalso. apply (Hno p e). set_solver.
Qed.

(** no critical event is lost, duplicated or reordered.  Whatever pushes,
    polls and closings a new queue goes through, none of them panics; and as
    long as no push is refused, the critical events accepted so far are
    exactly the delivered ones followed by those still queued, in order, with
    the position each was captured at. *)
Theorem queue_critical_exact ops :
  exists log s, queue_run ops queue_new = Ret (log, s) /\ log.*1 = ops
    /\ (no_overflow log -> accepted log = delivered log ++ critical (qu_events s)).
Proof.
  destruct (queue_run_spec ops queue_new queue_new_ok) as (log & s & H1 & _ & H2 & H3). eauto.
Qed.

(** the queue is bounded and fails closed.  After any run the queue holds at
    most 1040 critical events, never two motions in a row, and so at most 2081
    events.  A critical event beyond the limit empties the queue and is
    reported as an overflow; from then on every push is refused, until the
    reader has been told of the overflow, which it is told first. *)
Theorem queue_bounded_fails_closed ops log s :
  queue_run ops queue_new = Ret (log, s) ->
  length (critical (qu_events s)) <= CRITICAL_EVENT_CAPACITY
  /\ length (qu_events s) <= 2 * CRITICAL_EVENT_CAPACITY + 1
  /\ (forall p e, is_motion e = false -> qu_closed s = false -> qu_overflowed s = false ->
        length (critical (qu_events s)) = CRITICAL_EVENT_CAPACITY ->
        queue_push p e s = Ret (PushOverflow, mkQueue [] 0 true false))
  /\ (qu_overflowed s = true -> qu_events s = []
      /\ (forall p e, queue_push p e s = Ret (PushOverflow, s))
      /\ exists s', queue_poll s = Ret (PollOverflow, s') /\ qu_overflowed s' = false
           /\ qu_events s' = []).
Proof.
  intros Hrun. destruct (queue_run_spec ops queue_new queue_new_ok) as (log' & s' & H & Hok & _).
  rewrite H in Hrun. injection Hrun as -> ->. destruct Hok as [H1 H2 H3 H4].
  split; [lia|]. split; [pose proof (merged_length _ H3); lia|]. split.
  - intros p e Hm Hc Ho Hl. unfold queue_push. rewrite Hc, Ho, Hm. cbn [orb].
    destruct (Nat.ltb_spec (qu_critical_count s) CRITICAL_EVENT_CAPACITY); [lia|done].
  - intros Ho. split; [by apply H4|]. split.
    + intros p e. unfold queue_push. by rewrite Ho, orb_true_r.
    + unfold queue_poll. rewrite Ho. eexists. split; [done|]. split; [done|]. by apply H4.
Qed.

Lemma queue_bounded_fails_closed_witness :
  length (critical (qu_events (mkQueue [(CLeft, Begin)] 1 false false))) <= CRITICAL_EVENT_CAPACITY.
Proof.
  exact (proj1 (queue_bounded_fails_closed [QPush CLeft Begin] _ _ eq_refl)).
Defined.
