(* ===== verification/Emulation.v ===== *)
(** * Input emulation (input-emulation/src/lib.rs)

    The layer between the events received from peers and a platform backend.
    It tracks the keys and buttons that each peer holds down, drops repeated
    presses and releases, and releases what is still held when a peer goes
    away.  The backend is the trait [Emulation]; its calls may fail.  The
    order in which a [HashSet] yields its elements is a parameter. *)

From stdpp Require Import base tactics list gmap sets.
From Stdlib Require Import NArith ZArith Lia.
From S2P Require Import Prelude ProtoWire.

Abbreviation EmulationHandle := N (only parsing).

(** ** The backend *)

Class EmulationBackend (E B : Type) := {
  eb_consume : InputEvent -> EmulationHandle -> B -> (unit + E) * B;
  eb_create : EmulationHandle -> B -> B;
  eb_destroy : EmulationHandle -> B -> B;
  eb_terminate : B -> B;
  eb_center_pointer : EmulationHandle -> B -> (unit + E) * B }.

Record InputEmulation (B : Type) := mkEmulation {
  ie_emulation : B;
  ie_handles : gset N;
  ie_pressed_buttons : gmap N (gset N);
  ie_pressed_keys : gmap N (gset N) }.
Arguments mkEmulation {B} _ _ _ _.
Arguments ie_emulation {B} _.
Arguments ie_handles {B} _.
Arguments ie_pressed_buttons {B} _.
Arguments ie_pressed_keys {B} _.

#[global] Instance InputEmulation_eta {B} : RecordEta (InputEmulation B) := fun s =>
  mkEmulation (ie_emulation s) (ie_handles s) (ie_pressed_buttons s) (ie_pressed_keys s).

(** The event that releases a key, a button, or the modifiers. *)
Definition release_key (key : N) : InputEvent := Keyboard (Key 0 key 0).
Definition release_button (button : N) : InputEvent := Pointer (Button 0 button 0).
Definition release_modifiers : InputEvent := Keyboard (Modifiers 0 0 0 0).

(** The body shared by [update_pressed_keys] and [update_pressed_button]: the
    table after the event, and whether the event is to be processed. *)
Definition update_pressed (table : gmap N (gset N)) (handle code state : N)
  : bool * gmap N (gset N) :=
  match table !! handle with
  | None => (false, table)
  | Some pressed =>
      if (state =? 0)%N
      then (bool_decide (code ∈ pressed), <[handle := pressed ∖ {[code]}]> table)
      else (bool_decide (code ∉ pressed), <[handle := pressed ∪ {[code]}]> table)
  end.

Section emulation.
Context {E B : Type} {HB : EmulationBackend E B}.
Implicit Types (s : InputEmulation B).

(** The iteration order of a hash set. *)
Variable drain : gset N -> list N.

(** [InputEmulation::with_backend], once the backend has been created. *)
Definition emulation_new (emulation : B) : InputEmulation B := mkEmulation emulation ∅ ∅ ∅.

Definition update_pressed_keys (handle key state : N) s : bool * InputEmulation B :=
  let '(r, t) := update_pressed (ie_pressed_keys s) handle key state in
  (r, s <| ie_pressed_keys := t |>).
Definition update_pressed_button (handle button state : N) s : bool * InputEmulation B :=
  let '(r, t) := update_pressed (ie_pressed_buttons s) handle button state in
  (r, s <| ie_pressed_buttons := t |>).

(** [self.emulation.consume(event, handle)] *)
Definition backend_consume (event : InputEvent) (handle : N) s : (unit + E) * InputEmulation B :=
  let '(r, b) := eb_consume event handle (ie_emulation s) in (r, s <| ie_emulation := b |>).

(** [InputEmulation::consume] *)
Definition emulation_consume (event : InputEvent) (handle : N) s : (unit + E) * InputEmulation B :=
  match event with
  | Keyboard (Key _ key state) =>
      let '(process, s) := update_pressed_keys handle key state s in
      if process then backend_consume event handle s else (inl tt, s)
  | Pointer (Button _ button state) =>
      let '(process, s) := update_pressed_button handle button state s in
      if process then backend_consume event handle s else (inl tt, s)
  | _ => backend_consume event handle s
  end.

(** [first_error.get_or_insert(error)] on an [Err]. *)
Definition note_error (first : option E) (r : unit + E) : option E :=
  match first, r with
  | None, inr e => Some e
  | _, _ => first
  end.

(** A loop of [release_inputs] over the drained codes. *)
Fixpoint release_codes (release : N -> InputEvent) (codes : list N) (handle : N)
  (first : option E) s : option E * InputEmulation B :=
  match codes with
  | [] => (first, s)
  | code :: codes =>
      let '(r, s) := backend_consume (release code) handle s in
      release_codes release codes handle (note_error first r) s
  end.

(** [InputEmulation::release_inputs] *)
Definition release_inputs (handle : N) s : (unit + E) * InputEmulation B :=
  let '(first, s) :=
    match ie_pressed_keys s !! handle with
    | Some keys =>
        release_codes release_key (drain keys) handle None
          (s <| ie_pressed_keys := <[handle := ∅]> (ie_pressed_keys s) |>)
    | None => (None, s)
    end in
  let '(first, s) :=
    match ie_pressed_buttons s !! handle with
    | Some buttons =>
        release_codes release_button (drain buttons) handle first
          (s <| ie_pressed_buttons := <[handle := ∅]> (ie_pressed_buttons s) |>)
    | None => (first, s)
    end in
  let '(r, s) := backend_consume release_modifiers handle s in
  (match note_error first r with Some error => inr error | None => inl tt end, s).

(** [InputEmulation::create] *)
Definition emulation_create (handle : N) s : bool * InputEmulation B :=
  if decide (handle ∈ ie_handles s) then (false, s)
  else
    (true, s <| ie_handles := ie_handles s ∪ {[handle]} |>
             <| ie_pressed_buttons := <[handle := ∅]> (ie_pressed_buttons s) |>
             <| ie_pressed_keys := <[handle := ∅]> (ie_pressed_keys s) |>
             <| ie_emulation := eb_create handle (ie_emulation s) |>).

(** [InputEmulation::destroy] *)
Definition emulation_destroy (handle : N) s : InputEmulation B :=
  let '(_, s) := release_inputs handle s in
  if decide (handle ∈ ie_handles s) then
    s <| ie_handles := ie_handles s ∖ {[handle]} |>
      <| ie_pressed_buttons := delete handle (ie_pressed_buttons s) |>
      <| ie_pressed_keys := delete handle (ie_pressed_keys s) |>
      <| ie_emulation := eb_destroy handle (ie_emulation s) |>
  else s.

(** [InputEmulation::terminate] *)
Definition emulation_terminate s : InputEmulation B :=
  let s := foldl (fun s handle => emulation_destroy handle s) s (drain (ie_handles s)) in
  s <| ie_emulation := eb_terminate (ie_emulation s) |>.

(** [InputEmulation::center_pointer] *)
Definition emulation_center_pointer (handle : N) s : (unit + E) * InputEmulation B :=
  let '(r, b) := eb_center_pointer handle (ie_emulation s) in (r, s <| ie_emulation := b |>).

(** The public operations that reach the backend, in any order; [poll_error],
    which only asks whether the backend has failed, is an operation of the
    backends that have one. *)
Inductive EmulationOp :=
| OpConsume (event : InputEvent) (handle : N)
| OpCreate (handle : N)
| OpDestroy (handle : N)
| OpRelease (handle : N)
| OpTerminate
| OpCenter (handle : N).

Definition emulation_op (o : EmulationOp) s : InputEmulation B :=
  match o with
  | OpConsume event handle => snd (emulation_consume event handle s)
  | OpCreate handle => snd (emulation_create handle s)
  | OpDestroy handle => emulation_destroy handle s
  | OpRelease handle => snd (release_inputs handle s)
  | OpTerminate => emulation_terminate s
  | OpCenter handle => snd (emulation_center_pointer handle s)
  end.

Definition emulation_run (ops : list EmulationOp) s : InputEmulation B :=
  foldl (fun s o => emulation_op o s) s ops.
End emulation.

(** ** A backend that records its events *)

Definition Recorded (B : Type) : Type := B * list (N * InputEvent).

#[global] Instance recorded_backend {E B} {HB : EmulationBackend E B} : EmulationBackend E (Recorded B) := {
  eb_consume e h := fun '(b, log) => let '(r, b') := eb_consume e h b in (r, (b', log ++ [(h, e)]));
  eb_create h := fun '(b, log) => (eb_create h b, log);
  eb_destroy h := fun '(b, log) => (eb_destroy h b, log);
  eb_terminate := fun '(b, log) => (eb_terminate b, log);
  eb_center_pointer h := fun '(b, log) => let '(r, b') := eb_center_pointer h b in (r, (b', log)) }.

(** The codes a backend holds down for a handle after its events; [code_of]
    picks the key or the button events. *)
Definition key_of (e : InputEvent) : option (N * N) :=
  match e with Keyboard (Key _ key state) => Some (key, state) | _ => None end.
Definition button_of (e : InputEvent) : option (N * N) :=
  match e with Pointer (Button _ button state) => Some (button, state) | _ => None end.

Definition hold (code_of : InputEvent -> option (N * N)) (h : N) (held : gset N)
  (x : N * InputEvent) : gset N :=
  if decide (fst x = h) then
    match code_of (snd x) with
    | Some (code, state) => if (state =? 0)%N then held ∖ {[code]} else held ∪ {[code]}
    | None => held
    end
  else held.
Definition held (code_of : InputEvent -> option (N * N)) (h : N) (log : list (N * InputEvent)) : gset N :=
  foldl (hold code_of h) ∅ log.

Lemma held_snoc code_of h log x : held code_of h (log ++ [x]) = hold code_of h (held code_of h log) x.
Proof. unfold held. by rewrite foldl_app. Qed.

(** Every such event in the record changed what the backend held: no press of
    a held code, no release of a free one. *)
Definition effective (code_of : InputEvent -> option (N * N)) (log : list (N * InputEvent)) : Prop :=
  forall pre h e post code state, log = pre ++ (h, e) :: post -> code_of e = Some (code, state) ->
    if (state =? 0)%N then code ∈ held code_of h pre else code ∉ held code_of h pre.

(** The table of the emulation layer is what the backend holds. *)
Definition tracks (code_of : InputEvent -> option (N * N)) (table : gmap N (gset N))
  (log : list (N * InputEvent)) : Prop :=
  (forall h, held code_of h log = default ∅ (table !! h)) /\ effective code_of log.

Lemma effective_snoc code_of log h e :
  effective code_of log ->
  (forall code state, code_of e = Some (code, state) ->
     if (state =? 0)%N then code ∈ held code_of h log else code ∉ held code_of h log) ->
  effective code_of (log ++ [(h, e)]).
Proof.
  intros He Hs pre h' e' post code state Heq Hc.
  destruct post as [|y post _] using rev_ind.
  - apply app_inj_tail in Heq as [-> [= -> ->]]. by apply Hs.
  - rewrite app_comm_cons, app_assoc in Heq. apply app_inj_tail in Heq as [Heq _]. by eapply He.
Qed.

Lemma tracks_other code_of table log h e :
  code_of e = None -> tracks code_of table log -> tracks code_of table (log ++ [(h, e)]).
Proof.
  intros Hc [Hh He]. split.
  - intros h'. rewrite held_snoc, Hh. unfold hold. cbn [fst snd]. rewrite Hc. by case_decide.
  - apply effective_snoc; [done|]. intros code state. by rewrite Hc.
Qed.

(** A tracked event is forwarded exactly when it changes something. *)
Lemma tracks_update code_of table log h e code state r table' :
  code_of e = Some (code, state) -> update_pressed table h code state = (r, table') ->
  tracks code_of table log ->
  tracks code_of table' (if r then log ++ [(h, e)] else log).
Proof.
  intros Hc Hu [Hh He]. unfold update_pressed in Hu. pose proof (Hh h) as Hhh.
  destruct (table !! h) as [pressed|] eqn:Et; [|by injection Hu as <- <-].
  cbn [default] in Hhh.
  assert (forall pressed' b, table' = <[h := pressed']> table ->
            (b = true -> pressed' = hold code_of h pressed (h, e)) ->
            (b = false -> pressed' = pressed) ->
            (b = true -> if (state =? 0)%N then code ∈ pressed else code ∉ pressed) ->
            tracks code_of table' (if b then log ++ [(h, e)] else log)) as Hgen.
  { intros pressed' b -> Ht Hf Hg. destruct b.
    - split.
      + intros h'. rewrite held_snoc, Hh. destruct (decide (h' = h)) as [->|Hne].
        * rewrite lookup_insert_eq, Et. cbn. by rewrite Ht.
        * rewrite lookup_insert_ne by done. unfold hold. cbn. by rewrite decide_False.
      + apply effective_snoc; [done|]. intros c st Hc'. rewrite Hc in Hc'. injection Hc' as <- <-.
        rewrite Hhh. by apply Hg.
    - split; [|done]. intros h'. rewrite Hh. destruct (decide (h' = h)) as [->|Hne].
      + rewrite lookup_insert_eq, Et. cbn. by rewrite Hf.
      + by rewrite lookup_insert_ne. }
  unfold hold in Hgen. cbn [fst snd] in Hgen. rewrite decide_True, Hc in Hgen by done.
  destruct (state =? 0)%N eqn:Es; injection Hu as <- <-; apply (Hgen _ _ eq_refl); try done.
  - intros Hb%bool_decide_eq_false. set_solver.
  - by intros Hb%bool_decide_eq_true.
  - intros Hb%bool_decide_eq_false. apply dec_stable in Hb. set_solver.
  - by intros Hb%bool_decide_eq_true.
Qed.

(** Releasing all the codes held by a handle. *)
Lemma tracks_release code_of (release : N -> InputEvent) table h codes : forall log pressed,
  (forall code, code_of (release code) = Some (code, 0%N)) ->
  (forall h', h' <> h -> held code_of h' log = default ∅ (table !! h')) ->
  held code_of h log = pressed -> effective code_of log ->
  NoDup codes -> pressed = list_to_set codes ->
  tracks code_of (<[h := ∅]> table) (log ++ map (fun code => (h, release code)) codes).
Proof.
  induction codes as [|c codes IH]; intros log pressed Hr Ho Hh He Hnd Hp; cbn [map].
  - rewrite app_nil_r. split; [|done]. intros h'. destruct (decide (h' = h)) as [->|Hne].
    + rewrite lookup_insert_eq, Hh, Hp. done.
    + rewrite lookup_insert_ne by done. by apply Ho.
  - apply NoDup_cons in Hnd as [Hc Hnd].
    replace (log ++ (h, release c) :: map (fun code => (h, release code)) codes)
      with ((log ++ [(h, release c)]) ++ map (fun code => (h, release code)) codes)
      by (by rewrite <- app_assoc).
    apply (IH _ (list_to_set codes)); try done.
    + intros h' Hne. rewrite held_snoc. unfold hold. cbn. rewrite decide_False by done. by apply Ho.
    + rewrite held_snoc, Hh, Hp. unfold hold. cbn [fst snd]. rewrite decide_True, Hr by done. cbn.
      set_solver.
    + apply effective_snoc; [done|]. intros code state. rewrite Hr. intros [= <- <-]. cbn.
      rewrite Hh, Hp. set_solver.
Qed.

Lemma tracks_others code_of (release : N -> InputEvent) table h codes log :
  (forall code, code_of (release code) = None) -> tracks code_of table log ->
  tracks code_of table (log ++ map (fun code => (h, release code)) codes).
Proof.
  intros Hr. revert log. induction codes as [|c codes IH]; intros log Ht; cbn [map].
  - by rewrite app_nil_r.
  - replace (log ++ (h, release c) :: map (fun code => (h, release code)) codes)
      with ((log ++ [(h, release c)]) ++ map (fun code => (h, release code)) codes)
      by (by rewrite <- app_assoc).
    apply IH. by apply tracks_other.
Qed.

Section recorded.
Context {E B : Type} {HB : EmulationBackend E B}.
Variable drain : gset N -> list N.
Hypothesis drain_permutation : forall X, drain X ≡ₚ elements X.
Implicit Types (s : InputEmulation (Recorded B)).

Definition record s : list (N * InputEvent) := snd (ie_emulation s).

Record EmulationOk s : Prop := {
  eo_keys : tracks key_of (ie_pressed_keys s) (record s);
  eo_buttons : tracks button_of (ie_pressed_buttons s) (record s);
  eo_key_handles : dom (ie_pressed_keys s) = ie_handles s;
  eo_button_handles : dom (ie_pressed_buttons s) = ie_handles s }.

Lemma drain_NoDup X : NoDup (drain X).
Proof. rewrite drain_permutation. apply NoDup_elements. Qed.
Lemma drain_set X : X = list_to_set (drain X).
Proof. apply set_eq. intros x. rewrite elem_of_list_to_set, drain_permutation, elem_of_elements. done. Qed.

Lemma backend_consume_spec e h s : exists r s', backend_consume (E:=E) e h s = (r, s')
  /\ record s' = record s ++ [(h, e)] /\ ie_pressed_keys s' = ie_pressed_keys s
  /\ ie_pressed_buttons s' = ie_pressed_buttons s /\ ie_handles s' = ie_handles s.
Proof.
  unfold backend_consume, record. destruct s as [[b log] hs bs ks]. cbn.
  destruct (eb_consume e h b) as [r b']. eexists _, _. split; [done|]. done.
Qed.

Lemma release_codes_spec release codes h : forall first s, exists first' s',
  release_codes (E:=E) release codes h first s = (first', s')
  /\ record s' = record s ++ map (fun code => (h, release code)) codes
  /\ ie_pressed_keys s' = ie_pressed_keys s /\ ie_pressed_buttons s' = ie_pressed_buttons s
  /\ ie_handles s' = ie_handles s.
Proof.
  induction codes as [|c codes IH]; intros first s; cbn [release_codes map].
  - exists first, s. by rewrite app_nil_r.
  - destruct (backend_consume_spec (release c) h s) as (r & s1 & -> & H1 & H2 & H3 & H4).
    destruct (IH (note_error first r) s1) as (f & s2 & -> & G1 & G2 & G3 & G4).
    exists f, s2. split; [done|]. rewrite G1, H1, <- app_assoc, G2, G3, G4. done.
Qed.

Lemma consume_ok e h s : EmulationOk s -> EmulationOk (snd (emulation_consume (E:=E) e h s)).
Proof.
  intros [H1 H2 H3 H4].
  assert (forall e s, EmulationOk s -> key_of e = None -> button_of e = None ->
            EmulationOk (snd (backend_consume (E:=E) e h s))) as Hother.
  { intros e' s' [K1 K2 K3 K4] Hk Hb.
    destruct (backend_consume_spec e' h s') as (r & s1 & -> & G1 & G2 & G3 & G4). cbn [snd].
    split; rewrite ?G1, ?G2, ?G3, ?G4; try done; by apply tracks_other. }
  assert (forall t h c st, dom (snd (update_pressed t h c st)) = dom t) as Hdom.
  { intros t h' c st. unfold update_pressed. destruct (t !! h') eqn:E'; [|done].
    destruct (st =? 0)%N; cbn [snd]; rewrite dom_insert_L;
      apply elem_of_dom_2 in E'; set_solver. }
  destruct e as [[time dx dy|time b st|time x v|x v]|[time k st|a b c d]];
    cbn [emulation_consume]; try (by apply Hother).
  - unfold update_pressed_button.
    pose proof (Hdom (ie_pressed_buttons s) h b st) as Hd.
    destruct (update_pressed (ie_pressed_buttons s) h b st) as [p t] eqn:Eu. cbn [snd] in Hd.
    pose proof (tracks_update button_of _ _ h (Pointer (Button time b st)) b st p t eq_refl Eu H2) as Ht.
    destruct p.
    + edestruct backend_consume_spec as (r & s1 & -> & G1 & G2 & G3 & G4). cbn [snd].
      split; rewrite ?G1, ?G2, ?G3, ?G4; try done; [by apply tracks_other|]. exact (eq_trans Hd H4).
    + split; cbn; try done. exact (eq_trans Hd H4).
  - unfold update_pressed_keys.
    pose proof (Hdom (ie_pressed_keys s) h k st) as Hd.
    destruct (update_pressed (ie_pressed_keys s) h k st) as [p t] eqn:Eu. cbn [snd] in Hd.
    pose proof (tracks_update key_of _ _ h (Keyboard (Key time k st)) k st p t eq_refl Eu H1) as Ht.
    destruct p.
    + edestruct backend_consume_spec as (r & s1 & -> & G1 & G2 & G3 & G4). cbn [snd].
      split; rewrite ?G1, ?G2, ?G3, ?G4; try done; [by apply tracks_other|]. exact (eq_trans Hd H3).
    + split; cbn; try done. exact (eq_trans Hd H3).
Qed.

(** After [release_inputs] nothing of the handle is pressed. *)
Definition cleared (h : N) (table : gmap N (gset N)) : gmap N (gset N) :=
  match table !! h with Some _ => <[h := ∅]> table | None => table end.

Lemma release_part code_of other_of (release : N -> InputEvent) h log
  (table other : gmap N (gset N)) :
  (forall code, code_of (release code) = Some (code, 0%N)) ->
  (forall code, other_of (release code) = None) ->
  tracks code_of table log -> tracks other_of other log ->
  forall codes, codes = match table !! h with Some X => drain X | None => [] end ->
  tracks code_of (cleared h table) (log ++ map (fun code => (h, release code)) codes)
  /\ tracks other_of other (log ++ map (fun code => (h, release code)) codes).
Proof.
  intros Hc Ho Ht Hto codes ->. split; [|by apply tracks_others].
  unfold cleared. destruct (table !! h) as [X|] eqn:E'; [|cbn; by rewrite app_nil_r].
  destruct Ht as [Hh He]. apply (tracks_release _ _ _ _ _ _ X); try done.
  - rewrite Hh, E'. done.
  - apply drain_NoDup.
  - apply drain_set.
Qed.

Lemma release_inputs_spec h s : EmulationOk s -> exists r s',
  release_inputs (E:=E) drain h s = (r, s') /\ EmulationOk s'
  /\ ie_handles s' = ie_handles s
  /\ ie_pressed_keys s' = cleared h (ie_pressed_keys s)
  /\ ie_pressed_buttons s' = cleared h (ie_pressed_buttons s).
Proof.
  intros [H1 H2 H3 H4]. unfold release_inputs.
  assert (exists f s1,
    match ie_pressed_keys s !! h with
    | Some keys => release_codes (E:=E) release_key (drain keys) h None
                     (s <| ie_pressed_keys := <[h := ∅]> (ie_pressed_keys s) |>)
    | None => (None, s)
    end = (f, s1)
    /\ record s1 = record s ++ map (fun code => (h, release_key code))
                     match ie_pressed_keys s !! h with Some X => drain X | None => [] end
    /\ ie_pressed_keys s1 = cleared h (ie_pressed_keys s)
    /\ ie_pressed_buttons s1 = ie_pressed_buttons s /\ ie_handles s1 = ie_handles s)
    as (f1 & s1 & -> & R1 & R2 & R3 & R4).
  { unfold cleared. destruct (ie_pressed_keys s !! h) as [X|].
    - edestruct (release_codes_spec release_key) as (f & s1 & -> & G1 & G2 & G3 & G4).
      exists f, s1. rewrite G1, G2, G3, G4. done.
    - exists None, s. cbn. by rewrite app_nil_r. }
  destruct (release_part key_of button_of release_key h (record s) (ie_pressed_keys s)
    (ie_pressed_buttons s) ltac:(done) ltac:(done) H1 H2 _ eq_refl) as [T1 T2].
  rewrite <- R1 in T1, T2.
  assert (exists f s2,
    match ie_pressed_buttons s1 !! h with
    | Some buttons => release_codes (E:=E) release_button (drain buttons) h f1
                     (s1 <| ie_pressed_buttons := <[h := ∅]> (ie_pressed_buttons s1) |>)
    | None => (f1, s1)
    end = (f, s2)
    /\ record s2 = record s1 ++ map (fun code => (h, release_button code))
                     match ie_pressed_buttons s1 !! h with Some X => drain X | None => [] end
    /\ ie_pressed_keys s2 = ie_pressed_keys s1
    /\ ie_pressed_buttons s2 = cleared h (ie_pressed_buttons s1) /\ ie_handles s2 = ie_handles s1)
    as (f2 & s2 & -> & Q1 & Q2 & Q3 & Q4).
  { unfold cleared. destruct (ie_pressed_buttons s1 !! h) as [X|].
    - edestruct (release_codes_spec release_button) as (f & s2 & -> & G1 & G2 & G3 & G4).
      exists f, s2. rewrite G1, G2, G3, G4. done.
    - exists f1, s1. cbn. by rewrite app_nil_r. }
  rewrite <- R3 in T2.
  destruct (release_part button_of key_of release_button h (record s1) (ie_pressed_buttons s1)
    (cleared h (ie_pressed_keys s)) ltac:(done) ltac:(done) T2 T1 _ eq_refl) as [T3 T4].
  rewrite <- Q1 in T3, T4.
  destruct (backend_consume_spec release_modifiers h s2) as (r & s3 & -> & P1 & P2 & P3 & P4).
  eexists _, s3. split; [reflexivity|].
  assert (forall t, dom t = ie_handles s -> dom (cleared h t) = ie_handles s) as Hdom.
  { intros t Ht. unfold cleared. destruct (t !! h) eqn:E'; [|done].
    rewrite dom_insert_L. apply elem_of_dom_2 in E'. set_solver. }
  split; [|by rewrite P4, P3, P2, Q4, Q3, Q2, R4, R3, R2].
  split; rewrite ?P1, ?P2, ?P3, ?P4, ?Q2, ?Q3, ?Q4, ?R2, ?R3, ?R4.
  - by apply tracks_other.
  - apply tracks_other; [done|]. by rewrite R3 in T3.
  - by apply Hdom.
  - by apply Hdom.
Qed.

Lemma tracks_none code_of table log h :
  tracks code_of table log -> table !! h = None \/ table !! h = Some ∅ ->
  held code_of h log = ∅.
Proof. intros [Hh _] [Hn|Hn]; by rewrite Hh, Hn. Qed.

(** Changing an entry between absent and empty is invisible to the backend. *)
Lemma tracks_table code_of table table' log :
  tracks code_of table log ->
  (forall h, default ∅ (table' !! h) = default ∅ (table !! h)) -> tracks code_of table' log.
Proof. intros [Hh He] Ht. split; [|done]. intros h. by rewrite Ht. Qed.

Lemma create_ok h s : EmulationOk s -> EmulationOk (snd (emulation_create h s)).
Proof.
  intros Hok. unfold emulation_create. case_decide as Hin; [done|]. cbn [snd].
  destruct Hok as [H1 H2 H3 H4].
  assert (record (s <| ie_handles := ie_handles s ∪ {[h]} |>
             <| ie_pressed_buttons := <[h := ∅]> (ie_pressed_buttons s) |>
             <| ie_pressed_keys := <[h := ∅]> (ie_pressed_keys s) |>
             <| ie_emulation := eb_create h (ie_emulation s) |>) = record s) as Hr.
  { unfold record. cbn. by destruct (ie_emulation s). }
  assert (forall t : gmap N (gset N), dom t = ie_handles s ->
            forall h', default ∅ (<[h := ∅]> t !! h') = default ∅ (t !! h')) as Hd.
  { intros t Ht h'. destruct (decide (h' = h)) as [->|Hne]; [|by rewrite lookup_insert_ne].
    rewrite lookup_insert_eq. rewrite (not_elem_of_dom_1 t h) by (by rewrite Ht). done. }
  split; rewrite ?Hr.
  - eapply tracks_table; [exact H1|]. by apply Hd.
  - eapply tracks_table; [exact H2|]. by apply Hd.
  - cbn. rewrite dom_insert_L, H3. set_solver.
  - cbn. rewrite dom_insert_L, H4. set_solver.
Qed.

Lemma destroy_spec h s : EmulationOk s ->
  let s' := emulation_destroy (E:=E) drain h s in
  EmulationOk s' /\ ie_handles s' = ie_handles s ∖ {[h]}
  /\ held key_of h (record s') = ∅ /\ held button_of h (record s') = ∅.
Proof.
  intros Hok. unfold emulation_destroy.
  destruct (release_inputs_spec h s Hok) as (r & s1 & -> & Hok1 & Hh & Hk & Hb).
  destruct Hok1 as [H1 H2 H3 H4].
  assert (forall t, cleared h t !! h = None \/ cleared h t !! h = Some ∅) as Hcl.
  { intros t. unfold cleared. destruct (t !! h) eqn:E'; [right; apply lookup_insert_eq|by left]. }
  assert (held key_of h (record s1) = ∅) as Kk by (eapply tracks_none; [exact H1|]; by rewrite Hk).
  assert (held button_of h (record s1) = ∅) as Kb by (eapply tracks_none; [exact H2|]; by rewrite Hb).
  cbn zeta. case_decide as Hin.
  - assert (record (s1 <| ie_handles := ie_handles s1 ∖ {[h]} |>
      <| ie_pressed_buttons := delete h (ie_pressed_buttons s1) |>
      <| ie_pressed_keys := delete h (ie_pressed_keys s1) |>
      <| ie_emulation := eb_destroy h (ie_emulation s1) |>) = record s1) as Hr.
    { unfold record. cbn. by destruct (ie_emulation s1). }
    assert (forall t t0 : gmap N (gset N), t = cleared h t0 ->
              forall h', default ∅ (delete h t !! h') = default ∅ (t !! h')) as Hd.
    { intros t t0 -> h'. destruct (decide (h' = h)) as [->|Hne]; [|by rewrite lookup_delete_ne].
      rewrite lookup_delete_eq. by destruct (Hcl t0) as [-> | ->]. }
    rewrite !Hr. split; [|split; [cbn; by rewrite Hh|done]].
    split; rewrite ?Hr.
    + eapply tracks_table; [exact H1|]. by eapply Hd.
    + eapply tracks_table; [exact H2|]. by eapply Hd.
    + cbn. by rewrite dom_delete_L, H3.
    + cbn. by rewrite dom_delete_L, H4.
  - split; [by split|]. split; [|done]. rewrite Hh in *. set_solver.
Qed.

Lemma destroy_all_spec hs : forall s, EmulationOk s ->
  let s' := foldl (fun s h => emulation_destroy (E:=E) drain h s) s hs in
  EmulationOk s' /\ ie_handles s' = ie_handles s ∖ list_to_set hs.
Proof.
  induction hs as [|h hs IH]; intros s Hok; cbn [foldl list_to_set].
  - split; [done|]. set_solver.
  - destruct (destroy_spec h s Hok) as (Hok1 & Hh & _). destruct (IH _ Hok1) as [Hok2 Hh2].
    split; [done|]. rewrite Hh2, Hh. set_solver.
Qed.

Lemma terminate_spec s : EmulationOk s ->
  let s' := emulation_terminate (E:=E) drain s in EmulationOk s' /\ ie_handles s' = ∅.
Proof.
  intros Hok. unfold emulation_terminate. cbn zeta.
  destruct (destroy_all_spec (drain (ie_handles s)) s Hok) as [[H1 H2 H3 H4] Hh].
  set (s1 := foldl _ s _) in *. rewrite <- drain_set in Hh.
  assert (record (s1 <| ie_emulation := eb_terminate (ie_emulation s1) |>) = record s1) as Hr.
  { unfold record. cbn. by destruct (ie_emulation s1). }
  split; [split; rewrite ?Hr; done|]. cbn. rewrite Hh. set_solver.
Qed.

(** Centring passes no event on. *)
Lemma center_pointer_spec h s : exists r b, emulation_center_pointer (E:=E) h s = (r, s <| ie_emulation := b |>) /\ snd b = record s.
Proof.
  unfold emulation_center_pointer, record. destruct (ie_emulation s) as [b log]. cbn. destruct (eb_center_pointer h b) as [r b'].
  by exists r, (b', log).
Qed.
Lemma center_ok b s : EmulationOk s -> snd b = record s -> EmulationOk (s <| ie_emulation := b |>).
Proof. intros [H1 H2 H3 H4] Hb. split; unfold record; cbn; rewrite ?Hb; done. Qed.

Lemma emulation_op_ok o s : EmulationOk s -> EmulationOk (emulation_op (E:=E) drain o s).
Proof.
  intros Hok. destruct o as [e h|h|h|h| |h]; cbn [emulation_op].
  - by apply consume_ok.
  - by apply create_ok.
  - by apply destroy_spec.
  - by destruct (release_inputs_spec h s Hok) as (r & s' & -> & Hok' & _).
  - by apply terminate_spec.
  - destruct (center_pointer_spec h s) as (r & b & -> & Hb). by apply center_ok.
Qed.

Lemma emulation_run_ok ops : forall s, EmulationOk s -> EmulationOk (emulation_run (E:=E) drain ops s).
Proof.
  induction ops as [|o ops IH]; intros s Hok; [done|]. cbn. by apply IH, emulation_op_ok.
Qed.

Lemma emulation_new_ok b : EmulationOk (emulation_new (B:=Recorded B) (b, [])).
Proof.
  split; try done; (split; [intros h; cbn; by rewrite lookup_empty|]);
    intros [|x pre] h e post code state H; done.
Qed.
End recorded.

(** ** Claims *)

(** C33: the emulation layer knows what the backend holds.  Whatever events,
    peers coming and going and backend failures there are, the keys and
    buttons recorded as pressed for a peer are exactly those that the events
    passed to the backend left down, and every key or button event passed on
    changed something: no press of a pressed key, no release of a free one.
    Nothing is ever held for a peer that was not created. *)
Theorem emulation_tracks_backend {E B} {HB : EmulationBackend E B} (drain : gset N -> list N)
  (b : B) ops h :
  (forall X, drain X ≡ₚ elements X) ->
  let s := emulation_run (E:=E) drain ops (emulation_new (B:=Recorded B) (b, [])) in
  held key_of h (record s) = default ∅ (ie_pressed_keys s !! h)
  /\ held button_of h (record s) = default ∅ (ie_pressed_buttons s !! h)
  /\ effective key_of (record s) /\ effective button_of (record s)
  /\ (h ∉ ie_handles s -> held key_of h (record s) = ∅ /\ held button_of h (record s) = ∅).
Proof.
  intros Hd s. destruct (emulation_run_ok drain Hd ops _ (emulation_new_ok b)) as [H1 H2 H3 H4].
  fold s in H1, H2, H3, H4. destruct H1 as [K1 K2], H2 as [B1 B2].
  repeat split; try done.
  - rewrite K1, (not_elem_of_dom_1 (D:=gset N) (ie_pressed_keys s) h); [done|]. by rewrite H3.
  - rewrite B1, (not_elem_of_dom_1 (D:=gset N) (ie_pressed_buttons s) h); [done|]. by rewrite H4.
Qed.

(** no key stays down.  After a peer has been destroyed, or its inputs
    released, or the emulation terminated, every key and button that the
    backend was made to press for it has been released again, even if calls of
    the backend failed on the way. *)
Theorem emulation_releases {E B} {HB : EmulationBackend E B} (drain : gset N -> list N)
  (b : B) ops o h :
  (forall X, drain X ≡ₚ elements X) ->
  o = OpDestroy h \/ o = OpRelease h \/ o = OpTerminate ->
  let s := emulation_run (E:=E) drain (ops ++ [o]) (emulation_new (B:=Recorded B) (b, [])) in
  held key_of h (record s) = ∅ /\ held button_of h (record s) = ∅.
Proof.
  intros Hd Ho s. unfold s, emulation_run. rewrite foldl_app. cbn [foldl].
  pose proof (emulation_run_ok drain Hd ops _ (emulation_new_ok b)) as Hok.
  fold (emulation_run (E:=E) drain ops (emulation_new (B:=Recorded B) (b, []))).
  set (s0 := emulation_run (E:=E) drain ops (emulation_new (B:=Recorded B) (b, []))) in *.
  destruct Ho as [-> | [-> | ->]]; cbn [emulation_op].
  - by apply destroy_spec.
  - destruct (release_inputs_spec drain Hd h s0 Hok) as (r & s1 & -> & [K1 K2 _ _] & _ & Hk & Hb).
    cbn [snd].
    assert (forall t, cleared h t !! h = None \/ cleared h t !! h = Some ∅) as Hcl.
    { intros t. unfold cleared. destruct (t !! h) eqn:E'; [right; apply lookup_insert_eq|by left]. }
    split; (eapply tracks_none; [eassumption|]); [by rewrite Hk|by rewrite Hb].
  - destruct (terminate_spec drain Hd s0 Hok) as [[K1 K2 K3 K4] Hh]. rewrite Hh in *.
    split; (eapply tracks_none; [eassumption|left]); apply not_elem_of_dom_1; set_solver.
Qed.

(** A backend whose every call fails. *)
#[global] Instance failing_backend : EmulationBackend unit unit := {
  eb_consume _ _ b := (inr tt, b);
  eb_create _ b := b;
  eb_destroy _ b := b;
  eb_terminate b := b;
  eb_center_pointer _ b := (inr tt, b) }.

Definition demo_emulation : list EmulationOp :=
  [ OpCreate 1; OpConsume (Keyboard (Key 5 30 1)) 1; OpConsume (Keyboard (Key 6 30 1)) 1;
    OpConsume (Pointer (Button 7 272 1)) 1 ].

Lemma emulation_tracks_backend_witness :
  held key_of 1 (record (emulation_run (E:=unit) elements demo_emulation (emulation_new (B:=Recorded unit) (tt, []))))
  = {[30%N]}.
Proof.
  destruct (emulation_tracks_backend (E:=unit) elements tt demo_emulation 1
    (fun X => Permutation_refl _)) as (H & _).
  rewrite H. vm_compute. reflexivity.
Defined.

Lemma emulation_releases_witness :
  held key_of 1 (record (emulation_run (E:=unit) elements (demo_emulation ++ [OpDestroy 1])
                           (emulation_new (B:=Recorded unit) (tt, [])))) = ∅.
Proof.
  exact (proj1 (emulation_releases (E:=unit) elements tt demo_emulation (OpDestroy 1) 1
    (fun X => Permutation_refl _) (or_introl eq_refl))).
Defined.
