(* ===== verification/InputCapture.v ===== *)
(** * Input capture (input-capture/src/lib.rs)

    The layer between a platform backend that captures input at screen edges
    and the handles registered for those edges: several handles may share an
    edge, and each event of the edge is passed to all of them.  The backend is
    the trait [Capture]. *)

From stdpp Require Import base tactics list gmap sets strings.
From Stdlib Require Import NArith ZArith Lia.
From S2P Require Import Prelude ProtoWire Scancode CaptureQueue.

Abbreviation CaptureHandle := N (only parsing).

#[global] Instance Linux_countable : Countable Linux :=
  inj_countable linux_code linux_try_from linux_try_from_code.

#[global] Instance CapturePosition_countable : Countable CapturePosition.
Proof.
  refine (inj_countable
    (fun p => match p with CLeft => 0 | CRight => 1 | CTop => 2 | CBottom => 3 end)
    (fun n => match n with 0 => Some CLeft | 1 => Some CRight | 2 => Some CTop | 3 => Some CBottom
              | _ => None end) _).
  by intros [].
Defined.

(** The result of polling a stream. *)
Inductive Poll (A : Type) :=
| Pending
| Ready (a : A).
Arguments Pending {A}.
Arguments Ready {A} a.

(** ** The backend *)

Class CaptureBackend (E B : Type) := {
  cb_create : CapturePosition -> B -> (unit + E) * B;
  cb_destroy : CapturePosition -> B -> (unit + E) * B;
  cb_release : B -> (unit + E) * B;
  cb_resume_if_focused : CapturePosition -> B -> (bool + E) * B;
  cb_terminate : B -> (unit + E) * B;
  cb_poll : B -> Poll (option ((CapturePosition * CaptureEvent) + E)) * B }.

Record InputCapture (B : Type) := mkCapture {
  ic_capture : B;
  ic_pressed_keys : gset Linux;
  ic_position_map : gmap CapturePosition (list N);
  ic_id_map : gmap N CapturePosition;
  ic_pending : list (N * CaptureEvent) }.
Arguments mkCapture {B} _ _ _ _ _.
Arguments ic_capture {B} _.
Arguments ic_pressed_keys {B} _.
Arguments ic_position_map {B} _.
Arguments ic_id_map {B} _.
Arguments ic_pending {B} _.

#[global] Instance InputCapture_eta {B} : RecordEta (InputCapture B) := fun s =>
  mkCapture (ic_capture s) (ic_pressed_keys s) (ic_position_map s) (ic_id_map s) (ic_pending s).

Section capture.
Context {E B : Type} {HB : CaptureBackend E B}.
Implicit Types (s : InputCapture B).

(** A backend call: its error ends the method. *)
Definition cb_call {A} (m : B -> (A + E) * B) s : exec E A * InputCapture B :=
  let '(r, b) := m (ic_capture s) in
  (match r with inl a => Ret a | inr e => Throw e end, s <| ic_capture := b |>).

(** [InputCapture::new], once the backend has been created. *)
Definition capture_new (capture : B) : InputCapture B := mkCapture capture ∅ ∅ ∅ [].

(** [InputCapture::create] *)
Definition capture_create (id : N) (pos : CapturePosition) s : exec E unit * InputCapture B :=
  match ic_id_map s !! id with
  | Some _ => (Panic "assertion failed: !self.id_map.contains_key(&id)", s)
  | None =>
      let s := s <| ic_id_map := <[id := pos]> (ic_id_map s) |> in
      match ic_position_map s !! pos with
      | Some v => (Ret tt, s <| ic_position_map := <[pos := v ++ [id]]> (ic_position_map s) |>)
      | None => cb_call (cb_create pos) (s <| ic_position_map := <[pos := [id]]> (ic_position_map s) |>)
      end
  end.

(** [InputCapture::destroy] *)
Definition capture_destroy (id : N) s : exec E unit * InputCapture B :=
  match ic_id_map s !! id with
  | None => (Panic "no position for this handle", s)
  | Some pos =>
      let s := s <| ic_id_map := delete id (ic_id_map s) |> in
      match ic_position_map s !! pos with
      | None => (Panic "id vector", s)
      | Some v =>
          let remaining := List.filter (fun i => negb (i =? id)%N) v in
          if bool_decide (remaining = []) then
            cb_call (cb_destroy pos) (s <| ic_position_map := delete pos (ic_position_map s) |>)
          else (Ret tt, s <| ic_position_map := <[pos := remaining]> (ic_position_map s) |>)
      end
  end.

(** [InputCapture::release] *)
Definition capture_release s : exec E unit * InputCapture B :=
  cb_call cb_release (s <| ic_pressed_keys := ∅ |>).

(** [InputCapture::resume_if_focused] *)
Definition capture_resume (id : N) s : exec E bool * InputCapture B :=
  match ic_id_map s !! id with
  | None => (Panic "no position for this handle", s)
  | Some pos => cb_call (cb_resume_if_focused pos) s
  end.

(** [InputCapture::take_pressed_keys] *)
Definition take_pressed_keys s : gset Linux * InputCapture B :=
  (ic_pressed_keys s, s <| ic_pressed_keys := ∅ |>).

(** [InputCapture::terminate] *)
Definition capture_terminate s : exec E unit * InputCapture B := cb_call cb_terminate s.

(** [InputCapture::keys_pressed] *)
Definition keys_pressed (keys : list Linux) s : bool :=
  forallb (fun k => bool_decide (k ∈ ic_pressed_keys s)) keys.

(** [InputCapture::update_pressed_keys] *)
Definition capture_update_pressed (key state : N) s : InputCapture B :=
  match linux_try_from key with
  | Some scancode =>
      match state with
      | 1%N => s <| ic_pressed_keys := ic_pressed_keys s ∪ {[scancode]} |>
      | _ => s <| ic_pressed_keys := ic_pressed_keys s ∖ {[scancode]} |>
      end
  | None => s
  end.

Definition track_key (event : CaptureEvent) s : InputCapture B :=
  match event with
  | CInput (Keyboard (Key _ key state)) => capture_update_pressed key state s
  | _ => s
  end.

(** The end of [poll_next]: the event is handed to the handles of its edge. *)
Definition capture_route (pos : CapturePosition) (event : CaptureEvent) s
  : exec Empty_set (Poll (option ((N * CaptureEvent) + E)) * InputCapture B) :=
  match default [] (ic_position_map s !! pos) with
  | [] => Ret (Pending, s)
  | [id] => Ret (Ready (Some (inl (id, event))), s)
  | ids =>
      match ic_pending s ++ map (fun id => (id, event)) ids with
      | [] => Panic "event"
      | first :: rest => Ret (Ready (Some (inl first)), s <| ic_pending := rest |>)
      end
  end.

(** [Stream::poll_next] *)
Definition capture_poll s : exec Empty_set (Poll (option ((N * CaptureEvent) + E)) * InputCapture B) :=
  match ic_pending s with
  | e :: rest => Ret (Ready (Some (inl e)), s <| ic_pending := rest |>)
  | [] =>
      let '(r, b) := cb_poll (ic_capture s) in
      let s := s <| ic_capture := b |> in
      match r with
      | Pending => Ret (Pending, s)
      | Ready None => Ret (Ready None, s)
      | Ready (Some (inr e)) => Ret (Ready (Some (inr e)), s)
      | Ready (Some (inl (pos, event))) => capture_route pos event (track_key event s)
      end
  end.

(** ** The registered handles *)

(** Handles and edges agree: an edge lists its handles once each, in order of
    registration, and is known to the backend while it has any. *)
Record CaptureOk s : Prop := {
  co_listed : forall pos v, ic_position_map s !! pos = Some v ->
    v <> [] /\ NoDup v /\ forall id, id ∈ v <-> ic_id_map s !! id = Some pos;
  co_position : forall id pos, ic_id_map s !! id = Some pos -> is_Some (ic_position_map s !! pos) }.

Lemma capture_new_ok b : CaptureOk (capture_new b).
Proof. by split. Qed.

Lemma cb_call_frame {A} (m : B -> (A + E) * B) s r s' : cb_call m s = (r, s') ->
  ic_position_map s' = ic_position_map s /\ ic_id_map s' = ic_id_map s
  /\ ic_pending s' = ic_pending s /\ ic_pressed_keys s' = ic_pressed_keys s
  /\ (forall msg, r <> Panic msg).
Proof.
  unfold cb_call. destruct (m (ic_capture s)) as [[a|e] b]; intros [= <- <-]; done.
Qed.

Lemma capture_ok_maps s s' : ic_position_map s' = ic_position_map s -> ic_id_map s' = ic_id_map s ->
  CaptureOk s -> CaptureOk s'.
Proof. intros H1 H2 [C1 C2]. split; rewrite H1, H2; done. Qed.

Lemma capture_create_ok id pos s : CaptureOk s -> ic_id_map s !! id = None ->
  let '(r, s') := capture_create id pos s in
  (forall msg, r <> Panic msg) /\ CaptureOk s' /\ ic_id_map s' = <[id := pos]> (ic_id_map s)
  /\ ic_pending s' = ic_pending s.
Proof.
  intros [C1 C2] Hid. unfold capture_create. rewrite Hid.
  assert (forall v, (forall x, x ∈ v -> ic_id_map s !! x = Some pos) ->
    (forall x, ic_id_map s !! x = Some pos -> x ∈ v) -> NoDup v ->
    forall s', ic_position_map s' = <[pos := v ++ [id]]> (ic_position_map s) ->
    ic_id_map s' = <[id := pos]> (ic_id_map s) -> CaptureOk s') as Hadd.
  { intros v Hv Hv' Hnd s' Hp Hi. split; rewrite Hp, Hi.
    - intros pos' v' Hl. destruct (decide (pos' = pos)) as [->|Hne].
      + rewrite lookup_insert_eq in Hl. injection Hl as <-. split; [by destruct v|].
        split.
        * apply NoDup_app. split; [done|]. split; [|apply NoDup_singleton].
          intros x Hx. rewrite list_elem_of_singleton. intros ->. apply Hv in Hx. congruence.
        * intros x. rewrite elem_of_app, list_elem_of_singleton.
          destruct (decide (x = id)) as [->|Hx]; [rewrite lookup_insert_eq; naive_solver|].
          rewrite lookup_insert_ne by done. naive_solver.
      + rewrite lookup_insert_ne in Hl by done. destruct (C1 _ _ Hl) as (H1 & H2 & H3).
        split; [done|]. split; [done|]. intros x. rewrite H3.
        destruct (decide (x = id)) as [->|Hx]; [|by rewrite lookup_insert_ne].
        rewrite lookup_insert_eq, Hid. naive_solver.
    - intros x pos' Hx. destruct (decide (pos' = pos)) as [->|Hne]; [rewrite lookup_insert_eq; eauto|].
      rewrite lookup_insert_ne by done. destruct (decide (x = id)) as [->|Hxi].
      + rewrite lookup_insert_eq in Hx. congruence.
      + rewrite lookup_insert_ne in Hx by done. by eapply C2. }
  cbn zeta.
  change (ic_position_map (s <| ic_id_map := <[id := pos]> (ic_id_map s) |>)) with (ic_position_map s).
  destruct (ic_position_map s !! pos) as [v|] eqn:Ev.
  - destruct (C1 _ _ Ev) as (_ & Hnd & Hv). split; [done|]. split; [|done].
    apply (Hadd v); try done; intros x; apply Hv.
  - destruct (cb_call _ _) as [r s'] eqn:Ec. apply cb_call_frame in Ec as (F1 & F2 & F3 & _ & F5).
    split; [done|]. split; [|by rewrite F2, F3]. apply (Hadd []); try done.
    + intros x Hx. by apply not_elem_of_nil in Hx.
    + intros x Hx. destruct (C2 _ _ Hx). congruence.
    + constructor.
Qed.

Lemma capture_destroy_ok id pos s : CaptureOk s -> ic_id_map s !! id = Some pos ->
  let '(r, s') := capture_destroy id s in
  (forall msg, r <> Panic msg) /\ CaptureOk s' /\ ic_id_map s' = delete id (ic_id_map s)
  /\ ic_pending s' = ic_pending s.
Proof.
  intros [C1 C2] Hid. unfold capture_destroy. rewrite Hid. cbn zeta.
  destruct (C2 _ _ Hid) as (v & Hv).
  change (ic_position_map (s <| ic_id_map := delete id (ic_id_map s) |>)) with (ic_position_map s).
  rewrite Hv. destruct (C1 _ _ Hv) as (Hne & Hnd & Hin).
  set (rem := List.filter (fun i => negb (i =? id)%N) v).
  assert (forall x, x ∈ rem <-> x <> id /\ ic_id_map s !! x = Some pos) as Hrem.
  { intros x. unfold rem. rewrite list_elem_of_In, List.filter_In, <- list_elem_of_In, Hin.
    rewrite negb_true_iff, N.eqb_neq. naive_solver. }
  assert (NoDup rem) as Hndr.
  { unfold rem. clear -Hnd. induction v as [|x v IH]; [constructor|].
    apply NoDup_cons in Hnd as [Hx Hnd]. cbn. destruct (negb (x =? id)%N); [|by apply IH].
    apply NoDup_cons. split; [|by apply IH]. rewrite list_elem_of_In, List.filter_In.
    intros [Hin _]. by apply Hx, list_elem_of_In. }
  assert (forall s', ic_id_map s' = delete id (ic_id_map s) ->
    (forall pos', pos' <> pos -> ic_position_map s' !! pos' = ic_position_map s !! pos') ->
    ic_position_map s' !! pos = (if decide (rem = []) then None else Some rem) -> CaptureOk s') as Hgen.
  { intros s' Hi Ho Hp. split.
    - intros pos' v' Hl. destruct (decide (pos' = pos)) as [->|Hne'].
      + rewrite Hp in Hl. destruct (decide (rem = [])) as [|Hr]; [done|]. injection Hl as <-.
        split; [done|]. split; [done|]. intros x. rewrite Hi, lookup_delete_Some, Hrem. naive_solver.
      + rewrite Ho in Hl by done. destruct (C1 _ _ Hl) as (G1 & G2 & G3). split; [done|].
        split; [done|]. intros x. rewrite Hi, lookup_delete_Some, G3. split; [|naive_solver].
        intros Hx. split; [|done]. intros <-. congruence.
    - intros x pos' Hx. rewrite Hi, lookup_delete_Some in Hx. destruct Hx as [Hxi Hx].
      destruct (decide (pos' = pos)) as [->|Hne']; [|rewrite Ho by done; by eapply C2].
      rewrite Hp. destruct (decide (rem = [])) as [Hr|]; [|eauto].
      assert (x ∈ rem) as Hxr by (apply Hrem; done). rewrite Hr in Hxr.
      by apply not_elem_of_nil in Hxr. }
  case_bool_decide as Hr.
  - destruct (cb_call _ _) as [r s'] eqn:Ec. apply cb_call_frame in Ec as (F1 & F2 & F3 & _ & F5).
    split; [done|]. split; [|by rewrite F2, F3]. apply Hgen.
    + by rewrite F2.
    + intros pos' Hne'. rewrite F1. by apply lookup_delete_ne.
    + rewrite F1, decide_True by done. apply lookup_delete_eq.
  - split; [done|]. split; [|done]. apply Hgen; [done| |].
    + intros pos' Hne'. by apply lookup_insert_ne.
    + rewrite decide_False by done. apply lookup_insert_eq.
Qed.

Lemma track_key_maps event s : ic_position_map (track_key event s) = ic_position_map s
  /\ ic_id_map (track_key event s) = ic_id_map s /\ ic_pending (track_key event s) = ic_pending s.
Proof.
  unfold track_key, capture_update_pressed. destruct event as [| |[|[]]]; try done.
  destruct (linux_try_from key); [|done]. by repeat case_match.
Qed.

(** Events wait only for registered handles. *)
Definition pending_known s : Prop := Forall (fun e => is_Some (ic_id_map s !! fst e)) (ic_pending s).

(** A poll does not panic, and what it yields goes to a registered handle. *)
Lemma capture_poll_ok s : CaptureOk s -> pending_known s ->
  exists r s', capture_poll s = Ret (r, s') /\ CaptureOk s' /\ pending_known s'
    /\ ic_id_map s' = ic_id_map s /\ ic_position_map s' = ic_position_map s
    /\ forall h ev, r = Ready (Some (inl (h, ev))) -> is_Some (ic_id_map s !! h).
Proof.
  intros Hok Hp.
  assert (forall s', ic_position_map s' = ic_position_map s -> ic_id_map s' = ic_id_map s ->
    CaptureOk s') as Hk by (intros s' H1 H2; by apply (capture_ok_maps s)).
  unfold pending_known in *. unfold capture_poll. destruct (ic_pending s) as [|e rest] eqn:Es.
  2: { apply Forall_cons in Hp as [He Hp]. eexists _, _. split; [reflexivity|]. split; [by apply Hk|].
       split; [done|]. split; [done|]. split; [done|]. by intros h ev [= ->]. }
  destruct (cb_poll (ic_capture s)) as [[|[[[pos event]|err]|]] b];
    try (eexists _, _; split; [reflexivity|]; split; [by apply Hk|]; cbn; rewrite Es; done).
  set (s1 := track_key event (s <| ic_capture := b |>)).
  destruct (track_key_maps event (s <| ic_capture := b |>)) as (H1 & H2 & H3).
  fold s1 in H1, H2, H3. cbn in H1, H2, H3. rewrite Es in H3. unfold capture_route.
  assert (forall x, x ∈ default [] (ic_position_map s1 !! pos) -> is_Some (ic_id_map s !! x)) as Hx.
  { intros x. rewrite H1. destruct (ic_position_map s !! pos) as [v|] eqn:Ev; cbn.
    - intros Hin. apply (co_listed _ Hok _ _ Ev) in Hin. eauto.
    - by intros ?%not_elem_of_nil. }
  destruct (default [] (ic_position_map s1 !! pos)) as [|x [|y l]].
  - eexists _, s1. split; [reflexivity|]. split; [by apply Hk|]. rewrite H3. done.
  - eexists _, s1. split; [reflexivity|]. split; [by apply Hk|]. rewrite H3.
    split; [done|]. split; [done|]. split; [done|]. intros h ev [= <- _]. apply Hx. by left.
  - rewrite H3. cbn [app map]. eexists _, _. split; [reflexivity|]. split; [by apply Hk|].
    split; [|split; [done|]; split; [done|]; intros h ev [= <- _]; apply Hx; by left].
    cbn. rewrite H2. apply Forall_cons. split; [apply Hx; right; by left|].
    apply Forall_forall. intros e (z & -> & Hz)%list_elem_of_fmap. apply Hx. by do 2 right.
Qed.
End capture.
