(* ===== verification/CaptureTask.v ===== *)
(** * The capture task (lan-mouse/src/capture.rs)

    The task owns the input capture of this host.  An event at a screen edge
    is forwarded to the peer behind it only while that peer is the active
    client, and a peer becomes active by consuming a permit that the service
    armed and by asking the service for a decision.

    What the task does to the outside is written to a trace: datagrams sent to
    peers with their result, events and answers to the service, releases of
    the native capture, and what was heard from peers and service.  The gate is
    shared with the service; a handler touches it only before its first
    suspension, so the service's own operations on it are steps of their own. *)

From stdpp Require Import base tactics list gmap sets strings.
From Stdlib Require Import NArith ZArith Lia.
From S2P Require Import Prelude SwitchGate ProtoWire Scancode CaptureQueue InputCapture.

(** ** The gate of one-shot permits *)

Record CapturePermit := mkPermit {
  pm_handle : N;
  pm_lease_epoch : N;
  pm_peer_session_epoch : N;
  pm_expires_at : N }.

#[global] Instance CapturePermit_eq_dec : EqDecision CapturePermit.
Proof. solve_decision. Defined.

Record CaptureGate := mkGate { cg_armed : option CapturePermit; cg_last_epoch : N }.

#[global] Instance CaptureGate_eta : RecordEta CaptureGate := fun g =>
  mkGate (cg_armed g) (cg_last_epoch g).

(** [CaptureGate::default] *)
Definition cgate_default : CaptureGate := mkGate None 0.

(** [CaptureGate::arm]; [instant_max] is the largest instant of the platform. *)
Definition cgate_arm (instant_max handle lease_epoch peer_session_epoch valid_for now : N) (g : CaptureGate)
  : bool * CaptureGate :=
  if (cg_last_epoch g <? lease_epoch)%N then
    match instant_checked_add instant_max now valid_for with
    | Some expires_at =>
        (true, mkGate (Some (mkPermit handle lease_epoch peer_session_epoch expires_at)) lease_epoch)
    | None => (false, g)
    end
  else (false, g).

(** [CaptureGate::consume] *)
Definition cgate_consume (handle now : N) (g : CaptureGate) : option CapturePermit * CaptureGate :=
  match cg_armed g with
  | None => (None, g)
  | Some permit =>
      if (pm_expires_at permit <=? now)%N then (None, g <| cg_armed := None |>)
      else if negb (pm_handle permit =? handle)%N then (None, g)
      else (Some permit, g <| cg_armed := None |>)
  end.

(** [CaptureGate::disarm] *)
Definition cgate_disarm (lease_epoch : N) (g : CaptureGate) : CaptureGate :=
  match cg_armed g with
  | Some permit =>
      if (pm_lease_epoch permit =? lease_epoch)%N then g <| cg_armed := None |> else g
  | None => g
  end.

(** [CaptureGate::remove] *)
Definition cgate_remove (handle : N) (g : CaptureGate) : CaptureGate :=
  match cg_armed g with
  | Some permit => if (pm_handle permit =? handle)%N then g <| cg_armed := None |> else g
  | None => g
  end.

(** [CaptureGate::clear] *)
Definition cgate_clear (g : CaptureGate) : CaptureGate := g <| cg_armed := None |>.

(** ** Events and requests *)

Inductive CaptureReleaseReason :=
| LocalCaptureLost | PeerLeft | PeerReadinessLost | PeerReleaseRequested
| ServiceRequested | ReleaseBind | TransportFailed.

(** [CaptureReleaseReason::failure_reason] *)
Definition failure_reason (r : CaptureReleaseReason) : option string :=
  match r with
  | LocalCaptureLost => Some "local_pointer_capture_lost"
  | PeerReadinessLost => Some "peer_readiness_lost_during_capture"
  | TransportFailed => Some "peer_transport_failed_during_capture"
  | PeerLeft | PeerReleaseRequested | ServiceRequested | ReleaseBind => None
  end.

Inductive CaptureType := CDefault | CEnterOnly.
#[global] Instance CaptureType_eq_dec : EqDecision CaptureType.
Proof. solve_decision. Defined.

(** The sender of a decision that [CommitRequested] carries is not part of the
    event here; the service's answer is the next entry of the trace. *)
Inductive ICaptureEvent :=
| CaptureBegin (handle : N)
| CaptureDisabled
| CaptureEnabled
| CaptureCandidate (handle : N)
| IEdgeRetreated (handle : N)
| CommitRequested (handle lease_epoch peer_session_epoch : N)
| CommitDeniedReleased (handle lease_epoch : N)
| ClientReleased (handle : N) (reason : CaptureReleaseReason)
| PeerReadiness (handle : N)
| PeerReleaseStarted (handle release_epoch : N).

(** [Release] says whether the service waits for completion. *)
Inductive CaptureRequest :=
| RqRelease (completion : bool)
| RqCreate (handle : N) (pos : CapturePosition) (t : CaptureType)
| RqDestroy (handle : N)
| RqReenable
| RqSetReleaseBind (bind : list Linux)
| RqResumeIfFocused (handle : N).

Inductive SendState := WaitingForAck | Sending.

Inductive IpcPosition := ILeft | IRight | ITop | IBottom.

(** [to_capture_pos] *)
Definition to_capture_pos (p : IpcPosition) : CapturePosition :=
  match p with ILeft => CLeft | IRight => CRight | ITop => CTop | IBottom => CBottom end.

(** [to_proto_pos] *)
Definition to_proto_pos (p : CapturePosition) : ProtoPosition :=
  match p with CLeft => PosLeft | CRight => PosRight | CTop => PosTop | CBottom => PosBottom end.

(** ** The world of the task *)

Inductive Action :=
| AHeard (handle : N) (event : ProtoEvent)
| AGrant (permit : CapturePermit) (now : N)
| ADecided (handle : N) (authorized : bool)
| AReleased (ok : bool)
| ASend (handle : N) (event : ProtoEvent) (ok : bool)
| AEvent (event : ICaptureEvent)
| ACompleted (ok : bool).

(** What the task relies on besides the backend: the connection to the peers,
    the answer of the service to a commit request (a dropped request counts as
    denied), and the clock. *)
Class CaptureEnv (W : Type) := {
  ce_send : ProtoEvent -> N -> W -> bool * W;
  ce_decide : N -> CapturePermit -> W -> bool * W;
  ce_now : W -> N }.

Record TaskState (W : Type) := mkTask {
  ct_active_peer_session_epoch : option N;
  ct_active_client : option N;
  ct_captures : list (N * CapturePosition * CaptureType);
  ct_gate : CaptureGate;
  ct_release_bind : list Linux;
  ct_state : SendState;
  ct_open : bool;              (* the service still holds the event receiver *)
  ct_env : W;
  ct_trace : list Action }.
Arguments mkTask {W} _ _ _ _ _ _ _ _ _.
Arguments ct_active_peer_session_epoch {W} _.
Arguments ct_active_client {W} _.
Arguments ct_captures {W} _.
Arguments ct_gate {W} _.
Arguments ct_release_bind {W} _.
Arguments ct_state {W} _.
Arguments ct_open {W} _.
Arguments ct_env {W} _.
Arguments ct_trace {W} _.

#[global] Instance TaskState_eta {W} : RecordEta (TaskState W) := fun s =>
  mkTask (ct_active_peer_session_epoch s) (ct_active_client s) (ct_captures s) (ct_gate s)
    (ct_release_bind s) (ct_state s) (ct_open s) (ct_env s) (ct_trace s).

Section task.
Context {E B W : Type} {HB : CaptureBackend E B} {HW : CaptureEnv W}.
Abbreviation Task := (TaskState W).
Abbreviation Cap := (InputCapture B).

(** The iteration order of the set of pressed keys. *)
Variable drain : gset Linux -> list Linux.
Variable instant_max : N.

(** A handler runs on the capture and the task; an error ends it with the
    changes made so far. *)
Definition handler (A : Type) : Type := Cap * Task -> exec E A * (Cap * Task).

Definition hret {A} (a : A) : handler A := fun w => (Ret a, w).
Definition hpanic {A} (msg : string) : handler A := fun w => (Panic msg, w).
Definition hbind {A C} (m : handler A) (k : A -> handler C) : handler C := fun w =>
  let '(r, w) := m w in
  match r with
  | Ret a => k a w
  | Throw e => (Throw e, w)
  | Panic msg => (Panic msg, w)
  end.
Local Notation "x <-- m ;; k" := (hbind m (fun x => k))
  (at level 100, m at next level, right associativity).
Local Notation "m ;;> k" := (hbind m (fun _ => k)) (at level 100, right associativity).

Definition hget {A} (f : Task -> A) : handler A := fun w => (Ret (f (snd w)), w).
Definition hmod (f : Task -> Task) : handler unit := fun '(c, t) => (Ret tt, (c, f t)).
Definition hcap {A} (m : Cap -> exec E A * Cap) : handler A := fun '(c, t) =>
  let '(r, c) := m c in (r, (c, t)).

Definition log (a : Action) (t : Task) : Task := t <| ct_trace := ct_trace t ++ [a] |>.
Definition hlog (a : Action) : handler unit := hmod (log a).

(** [self.event_tx.send(e).expect("channel closed")] *)
Definition emit (e : ICaptureEvent) : handler unit :=
  open <-- hget ct_open ;; if open : bool then hlog (AEvent e) else hpanic "channel closed".

(** [self.conn.send(event, handle).await] *)
Definition conn_send (event : ProtoEvent) (handle : N) : handler bool := fun '(c, t) =>
  let '(ok, env) := ce_send event handle (ct_env t) in
  (Ret ok, (c, log (ASend handle event ok) (t <| ct_env := env |>))).

(** [capture.release().await?] *)
Definition native_release : handler unit := fun '(c, t) =>
  let '(r, c) := capture_release c in
  (r, (c, log (AReleased (match r with Ret _ => true | _ => false end)) t)).

Definition hwhen (b : bool) (m : handler unit) : handler unit := if b then m else hret tt.

(** ** Registered captures *)

(** [add_capture] *)
Definition add_capture (handle : N) (pos : CapturePosition) (ty : CaptureType) (t : Task) : Task :=
  t <| ct_captures := ct_captures t ++ [(handle, pos, ty)] |>.

(** [remove_capture] *)
Definition remove_capture (handle : N) (t : Task) : Task :=
  t <| ct_captures := List.filter (fun c => negb (handle =? fst (fst c))%N) (ct_captures t) |>
    <| ct_gate := cgate_remove handle (ct_gate t) |>.

(** [is_default_capture_at] *)
Definition is_default_capture_at (pos : CapturePosition) (t : Task) : bool :=
  existsb (fun c => bool_decide (snd (fst c) = pos) && bool_decide (snd c = CDefault))
    (ct_captures t).

Definition find_capture (handle : N) (t : Task) : option (N * CapturePosition * CaptureType) :=
  List.find (fun c => fst (fst c) =? handle)%N (ct_captures t).

(** [get_pos] *)
Definition get_pos (handle : N) : handler CapturePosition := fun w =>
  (let* c := expect (find_capture handle (snd w)) "no such capture" in Ret (snd (fst c)), w).

(** [get_type] *)
Definition get_type (handle : N) : handler CaptureType := fun w =>
  (let* c := expect (find_capture handle (snd w)) "no such capture" in Ret (snd c), w).

(** ** Releasing the capture *)

(** A send of [release_capture]: its failure is only logged. *)
Fixpoint send_all (events : list ProtoEvent) (handle : N) : handler unit :=
  match events with
  | [] => hret tt
  | e :: rest => conn_send e handle ;;> send_all rest handle
  end.

Definition key_up (key : Linux) : ProtoEvent := Input (Keyboard (Key 0 (linux_code key) 0)).
Definition mods_zero : ProtoEvent := Input (Keyboard (Modifiers 0 0 0 0)).

(** [release_capture] *)
Definition release_capture (reason : CaptureReleaseReason) : handler unit :=
  released_handle <-- hget ct_active_client ;;
  hmod (fun t => t <| ct_active_client := None |>) ;;>
  pressed_keys <-- (if bool_decide (is_Some released_handle) then hcap (fun c => let '(ks, c) := take_pressed_keys c in (Ret ks, c))
                    else hret ∅) ;;
  native_release ;;>
  match released_handle with
  | Some handle =>
      hmod (fun t => t <| ct_active_peer_session_epoch := None |>) ;;>
      send_all (map key_up (drain pressed_keys)) handle ;;>
      send_all [mods_zero; Leave 0] handle ;;>
      emit (ClientReleased handle reason)
  | None => hret tt
  end.

(** ** Events of the capture *)

(** [request_commit_authorization] *)
Definition request_commit_authorization (handle : N) (permit : CapturePermit) : handler bool :=
  emit (CommitRequested handle (pm_lease_epoch permit) (pm_peer_session_epoch permit)) ;;>
  fun '(c, t) =>
    let '(ok, env) := ce_decide handle permit (ct_env t) in
    (Ret ok, (c, log (ADecided handle ok) (t <| ct_env := env |>))).

(** [release_then_notify] *)
Definition release_then_notify (e : ICaptureEvent) : handler unit := native_release ;;> emit e.

(** [self.gate.borrow_mut().consume(handle)] *)
Definition consume_permit (handle : N) : handler (option CapturePermit) := fun '(c, t) =>
  let '(p, g) := cgate_consume handle (ce_now (ct_env t)) (ct_gate t) in
  let t := t <| ct_gate := g |> in
  (Ret p, (c, match p with Some p => log (AGrant p (ce_now (ct_env t))) t | None => t end)).

(** The attempt of a handle to become the active client: [false] means the
    handler has returned. *)
Definition activate (handle : N) : handler bool :=
  permit <-- consume_permit handle ;;
  match permit with
  | None => release_then_notify (CaptureCandidate handle) ;;> hret false
  | Some permit =>
      authorized <-- request_commit_authorization handle permit ;;
      if negb authorized then
        release_then_notify (CommitDeniedReleased handle (pm_lease_epoch permit)) ;;> hret false
      else
        hmod (fun t => t <| ct_state := WaitingForAck |> <| ct_active_client := Some handle |>
                         <| ct_active_peer_session_epoch := Some (pm_peer_session_epoch permit) |>) ;;>
        hret true
  end.

(** The last part of [handle_capture_event]: what the active client is sent. *)
Definition forward (handle : N) (event : CaptureEvent) : handler unit :=
  pos <-- get_pos handle ;;
  state <-- hget ct_state ;;
  let opposite_pos := to_proto_pos (opposite pos) in
  event <-- match event with
            | Begin => hret (Enter opposite_pos)
            | EdgeRetreated => hpanic "retreat handled before capture routing"
            | CInput e => hret (match state with WaitingForAck => Enter opposite_pos | Sending => Input e end)
            end ;;
  ok <-- conn_send event handle ;;
  hwhen (negb ok) (release_capture TransportFailed).

(** [handle_capture_event] *)
Definition handle_capture_event (ev : N * CaptureEvent) : handler unit :=
  let '(handle, event) := ev in
  match event with
  | EdgeRetreated =>
      active <-- hget ct_active_client ;;
      if bool_decide (active = Some handle) then release_capture LocalCaptureLost
      else emit (IEdgeRetreated handle)
  | _ =>
      bind <-- hget ct_release_bind ;;
      pressed <-- hcap (fun c => (Ret (keys_pressed bind c), c)) ;;
      if pressed : bool then release_capture ReleaseBind else
      let begin := match event with Begin => true | _ => false end in
      hwhen begin (emit (CaptureBegin handle)) ;;>
      ty <-- get_type handle ;;
      if bool_decide (ty = CEnterOnly) then
        pos <-- get_pos handle ;;
        default_there <-- hget (is_default_capture_at pos) ;;
        hwhen (negb default_there) native_release
      else
        active <-- hget ct_active_client ;;
        go_on <-- (if begin && negb (bool_decide (Some handle = active)) then activate handle
                   else hret true) ;;
        if negb go_on then hret tt else
        active <-- hget ct_active_client ;;
        if negb (bool_decide (Some handle = active)) then native_release
        else forward handle event
  end.

(** ** Events of the connections *)

(** The [conn.recv] arm of [do_capture_session]. *)
Definition handle_conn_event (handle : N) (event : ProtoEvent) : handler unit :=
  hlog (AHeard handle event) ;;>
  active <-- hget ct_active_client ;;
  if match active with Some a => negb (handle =? a)%N | None => false end then hret tt else
  match event with
  | Ack _ => hmod (fun t => t <| ct_state := Sending |>)
  | Leave _ => release_capture PeerLeft
  | Readiness keyboard_ready pointer_ready session_epoch =>
      epoch <-- hget ct_active_peer_session_epoch ;;
      hwhen (bool_decide (active = Some handle)
             && (negb keyboard_ready || negb pointer_ready
                 || negb (bool_decide (epoch = Some session_epoch))))
        (release_capture PeerReadinessLost) ;;>
      emit (PeerReadiness handle)
  | Hello _ => emit (PeerReadiness handle)
  | ReleaseRequest release_epoch =>
      hwhen (bool_decide (active = Some handle)) (emit (PeerReleaseStarted handle release_epoch)) ;;>
      release_capture PeerReleaseRequested ;;>
      conn_send (ReleaseAck release_epoch) handle ;;> hret tt
  | _ => hret tt
  end.

(** ** Requests of the service *)

(** The [Release] request of a session: completion reports the result, which
    is then returned. *)
Definition session_release (completion : bool) : handler unit := fun w =>
  let '(r, w) := (hmod (fun t => t <| ct_gate := cgate_clear (ct_gate t) |>) ;;>
                  release_capture ServiceRequested) w in
  match r with
  | Panic _ => (r, w)
  | _ => let ok := match r with Ret _ => true | _ => false end in
         let '(_, w) := hwhen completion (hlog (ACompleted ok)) w in (r, w)
  end.

(** The [request_rx.recv] arm of [do_capture_session]. *)
Definition session_request (r : CaptureRequest) : handler unit :=
  match r with
  | RqReenable => hret tt
  | RqRelease completion => session_release completion
  | RqCreate h p ty => hmod (add_capture h p ty) ;;> hcap (capture_create h p)
  | RqDestroy h => hmod (remove_capture h) ;;> hcap (capture_destroy h)
  | RqSetReleaseBind bind => hmod (fun t => t <| ct_release_bind := bind |>)
  | RqResumeIfFocused h => hcap (capture_resume h) ;;> hret tt
  end.

(** A request taken while capture is disabled; [true] leaves the loop. *)
Definition disabled_request (r : CaptureRequest) (t : Task) : bool * Task :=
  match r with
  | RqReenable => (true, t)
  | RqCreate h p ty => (false, add_capture h p ty t)
  | RqDestroy h => (false, remove_capture h t)
  | RqRelease completion =>
      let t := t <| ct_gate := cgate_clear (ct_gate t) |> in
      (false, if completion then log (ACompleted true) t else t)
  | RqSetReleaseBind bind => (false, t <| ct_release_bind := bind |>)
  | RqResumeIfFocused _ => (false, t)
  end.

(** ** The task *)

(** The service's side of the shared gate. *)
Inductive ServiceOp :=
| SvArm (handle lease_epoch peer_session_epoch valid_for now : N)
| SvDisarm (lease_epoch : N)
| SvClear.

(** [Capture::arm], [Capture::disarm] and the gate part of
    [Capture::request_release]; the requests they queue are steps of the task. *)
Definition service_op (o : ServiceOp) (g : CaptureGate) : CaptureGate :=
  match o with
  | SvArm h l p d now => snd (cgate_arm instant_max h l p d now g)
  | SvDisarm l => cgate_disarm l g
  | SvClear => cgate_clear g
  end.

(** The methods of [Capture]: what each does to the gate and what it asks of
    the task. *)
Inductive ServiceCall :=
| CallReenable
| CallCreate (handle : N) (pos : IpcPosition) (t : CaptureType)
| CallDestroy (handle : N)
| CallRelease (completion : bool)
| CallArm (handle lease_epoch peer_session_epoch valid_for now : N)
| CallDisarm (lease_epoch : N)
| CallSetReleaseBind (bind : list Linux).

Definition service_call (call : ServiceCall) (g : CaptureGate) : CaptureGate * list CaptureRequest :=
  match call with
  | CallReenable => (g, [RqReenable])
  | CallCreate h pos ty => (g, [RqCreate h (to_capture_pos pos) ty])
  | CallDestroy h => (g, [RqDestroy h])
  | CallRelease completion => (cgate_clear g, [RqRelease completion])
  | CallArm h l p d now =>
      let '(armed, g) := cgate_arm instant_max h l p d now g in
      (g, if armed : bool then [RqResumeIfFocused h] else [])
  | CallDisarm l => (cgate_disarm l g, [])
  | CallSetReleaseBind bind => (g, [RqSetReleaseBind bind])
  end.

(** Where [run] is: waiting for [InputCapture::new], in a session, in the loop
    of a disabled capture, or returned. *)
Inductive Mode := MCreating | MSession (c : Cap) | MDisabled | MStopped.

(** What happens next: the backend was created, the capture stream is polled,
    a peer's event or a request arrives, cancellation is noticed, or the
    service works on the gate. *)
Inductive TaskInput :=
| ICreated (r : B + unit) (cancel_after : option nat)
| IPoll
| IConn (handle : N) (event : ProtoEvent)
| IRequest (r : CaptureRequest)
| ICancel
| IService (o : ServiceOp).

(** [create_captures]; [cancel_after] is the number of barriers created when
    cancellation is noticed, if it is. *)
Fixpoint create_captures (captures : list (N * CapturePosition * CaptureType))
    (cancel_after : option nat) : handler unit :=
  match captures, cancel_after with
  | [], _ | _, Some 0 => hret tt
  | (h, pos, _) :: rest, _ =>
      hcap (capture_create h pos) ;;> create_captures rest (pred <$> cancel_after)
  end.

(** The end of [do_capture]: the backend is terminated, then the guard reports
    that capture is disabled; errors are only logged. *)
Definition end_session (w : Cap * Task) : exec E Mode * Task :=
  let '(_, (c, t)) := hcap capture_terminate w in
  let '(r, (_, t)) := emit CaptureDisabled (c, t) in
  (match r with Panic msg => Panic msg | _ => Ret MDisabled end, t).

(** The guard reports a disabled capture also when the task panics. *)
Definition unwind (msg : string) (w : Cap * Task) : exec E Mode * Task :=
  (Panic msg, snd (snd (emit CaptureDisabled w))).

(** A handler of a session: when it fails, the session ends. *)
Definition in_session (m : handler unit) (w : Cap * Task) : exec E Mode * Task :=
  let '(r, (c, t)) := m w in
  match r with
  | Ret _ => (Ret (MSession c), t)
  | Throw _ => end_session (c, t)
  | Panic msg => unwind msg (c, t)
  end.

(** The [capture.next] arm. *)
Definition session_poll (w : Cap * Task) : exec E Mode * Task :=
  let '(c, t) := w in
  match capture_poll c with
  | Ret (Pending, c) => (Ret (MSession c), t)
  | Ret (Ready None, c) => end_session (c, t)
  | Ret (Ready (Some (inr _)), c) => end_session (c, t)
  | Ret (Ready (Some (inl event)), c) => in_session (handle_capture_event event) (c, t)
  | Throw e => match e with end
  | Panic msg => unwind msg (c, t)
  end.

(** The start of [do_capture] once the backend exists. *)
Definition begin_session (b : B) (cancel_after : option nat) (t : Task) : exec E Mode * Task :=
  in_session (emit CaptureEnabled ;;> captures <-- hget ct_captures ;;
              create_captures captures cancel_after) (capture_new b, t).

(** [run], one step. *)
Definition task_step (i : TaskInput) (m : Mode) (t : Task) : exec E Mode * Task :=
  match i, m with
  | IService o, _ => (Ret m, t <| ct_gate := service_op o (ct_gate t) |>)
  | ICreated (inl b) cancel_after, MCreating => begin_session b cancel_after t
  | ICreated (inr _) _, MCreating => (Ret MDisabled, t)
  | ICancel, MCreating => (Ret MDisabled, t)
  | IPoll, MSession c => session_poll (c, t)
  | IConn h e, MSession c => in_session (handle_conn_event h e) (c, t)
  | IRequest r, MSession c => in_session (session_request r) (c, t)
  | ICancel, MSession c => end_session (c, t)
  | IRequest r, MDisabled =>
      let '(leave, t) := disabled_request r t in (Ret (if leave then MCreating else MDisabled), t)
  | ICancel, MDisabled => (Ret MStopped, t)
  | _, _ => (Ret m, t)
  end.

Fixpoint task_run (inputs : list TaskInput) (m : Mode) (t : Task) : exec E Mode * Task :=
  match inputs with
  | [] => (Ret m, t)
  | i :: rest =>
      let '(r, t) := task_step i m t in
      match r with
      | Ret m => task_run rest m t
      | Throw e => (Throw e, t)
      | Panic msg => (Panic msg, t)
      end
  end.

(** [Capture::new] *)
Definition task_new (release_bind : list Linux) (env : W) : Task :=
  mkTask None None [] cgate_default release_bind WaitingForAck true env [].
End task.
