(* ===== verification/CaptureTaskTheorems.v ===== *)
(** * Properties of the capture task

    A small program logic for handlers, the invariant that justifies what the
    task sends from what it was granted, and the order in which a capture is
    released. *)

From stdpp Require Import base tactics list gmap sets strings.
From Stdlib Require Import NArith ZArith Lia Sorted.
From S2P Require Import Prelude SwitchGate ProtoWire Scancode CaptureQueue InputCapture CaptureTask.

(** ** Reading a trace *)

(** The peer that was authorized last and not reported released since, and
    whether it has acknowledged since. *)
Record Ledger := mkLedger { lg_active : option N; lg_acked : bool }.

Definition ledger_step (l : Ledger) (a : Action) : Ledger :=
  match a with
  | ADecided h true => mkLedger (Some h) false
  | AHeard h (Ack _) => if bool_decide (lg_active l = Some h) then mkLedger (Some h) true else l
  | AEvent (ClientReleased _ _) => mkLedger None false
  | _ => l
  end.

Definition ledger (tr : list Action) : Ledger := fold_left ledger_step tr (mkLedger None false).

(** The events that undo what the peer still holds. *)
Definition cleanup (e : InputEvent) : bool :=
  match e with
  | Keyboard (Key _ _ 0) | Keyboard (Modifiers 0 0 0 0) => true
  | _ => false
  end.

Definition send_justified (before : list Action) (h : N) (e : ProtoEvent) : Prop :=
  match e with
  | Enter _ | Leave _ => lg_active (ledger before) = Some h
  | Input i => lg_active (ledger before) = Some h /\ (lg_acked (ledger before) = true \/ cleanup i = true)
  | ReleaseAck epoch => AHeard h (ReleaseRequest epoch) ∈ before
  | _ => False
  end.

(** What may follow the actions [before]. *)
Definition action_justified (before : list Action) (a : Action) : Prop :=
  match a with
  | ASend h e _ => send_justified before h e
  | ADecided h true => exists earlier p now,
      before = earlier ++ [AGrant p now; AEvent (CommitRequested h (pm_lease_epoch p) (pm_peer_session_epoch p))]
      /\ pm_handle p = h
  | AGrant p now => (now < pm_expires_at p)%N
  | _ => True
  end.

Definition justified (tr : list Action) : Prop :=
  forall before a after, tr = before ++ a :: after -> action_justified before a.

Lemma justified_snoc tr a : justified (tr ++ [a]) <-> justified tr /\ action_justified tr a.
Proof.
  split.
  - intros H. split; [|by apply (H tr a [])].
    intros b x r ->. apply (H b x (r ++ [a])). by rewrite <- app_assoc.
  - intros [H Ha] b x r E. destruct r as [|r y _] using rev_ind.
    + apply app_inj_tail in E as [-> ->]. done.
    + rewrite app_comm_cons, app_assoc in E. apply app_inj_tail in E as [E ->]. by eapply H.
Qed.

Lemma ledger_snoc tr a : ledger (tr ++ [a]) = ledger_step (ledger tr) a.
Proof. unfold ledger. by rewrite fold_left_app. Qed.

Definition grants (tr : list Action) : list CapturePermit :=
  omap (fun a => match a with AGrant p _ => Some p | _ => None end) tr.

Lemma grants_snoc tr a :
  grants (tr ++ [a]) = grants tr ++ match a with AGrant p _ => [p] | _ => [] end.
Proof. unfold grants. rewrite omap_app. by destruct a. Qed.

#[global] Arguments ledger _ : simpl never.
#[global] Arguments grants _ : simpl never.

(** ** A program logic for handlers *)

Section logic.
Context {E B W : Type}.
Abbreviation World := (InputCapture B * TaskState W)%type (only parsing).

(** From worlds in [P] the handler returns with [Q], fails with [T] or panics
    with [N]. *)
Definition hoare {A} (P : World -> Prop) (m : handler (E:=E) (B:=B) (W:=W) A)
    (Q : A -> World -> Prop) (T N : World -> Prop) : Prop :=
  forall w, P w -> match m w with
                   | (Ret a, w') => Q a w'
                   | (Throw _, w') => T w'
                   | (Panic _, w') => N w'
                   end.

Lemma hoare_ret {A} (a : A) (P : World -> Prop) Q T N :
  (forall w, P w -> Q a w) -> hoare P (hret a) Q T N.
Proof. intros H w Hw. by apply H. Qed.

Lemma hoare_bind {A C} (m : handler A) (k : A -> handler C) P R Q T N :
  hoare P m R T N -> (forall a, hoare (R a) (k a) Q T N) -> hoare P (hbind m k) Q T N.
Proof.
  intros Hm Hk w Hw. specialize (Hm w Hw). unfold hbind. destruct (m w) as [[a|e|msg] w'].
  - by apply Hk. - done. - done.
Qed.

Lemma hoare_consequence {A} (m : handler A) (P P' : World -> Prop) (Q Q' : A -> World -> Prop) (T N : World -> Prop) :
  hoare P' m Q' T N -> (forall w, P w -> P' w) -> (forall a w, Q' a w -> Q a w) -> hoare P m Q T N.
Proof.
  intros Hm HP HQ w Hw. specialize (Hm w (HP w Hw)). destruct (m w) as [[a|e|msg] w']; auto.
Qed.

Lemma hoare_get {A} (f : TaskState W -> A) (P : World -> Prop) T N :
  hoare P (hget f) (fun a w => P w /\ a = f (snd w)) T N.
Proof. by intros w Hw. Qed.

Lemma hoare_pure {A} (m : handler A) (P : World -> Prop) (phi : Prop) Q T N :
  (phi -> hoare P m Q T N) -> hoare (fun w => P w /\ phi) m Q T N.
Proof. intros H w [Hw Hphi]. by apply H. Qed.

Lemma hoare_when (b : bool) (m : handler unit) (P : World -> Prop) T N :
  (b = true -> hoare P m (fun _ => P) T N) -> hoare P (hwhen b m) (fun _ => P) T N.
Proof. intros H. destruct b; [by apply H|]. by intros w Hw. Qed.
End logic.

(** ** Nothing is taken off the trace *)

Section growth.
Context {E B W : Type} {HB : CaptureBackend E B} {HW : CaptureEnv W}.
Abbreviation World := (InputCapture B * TaskState W)%type (only parsing).

Definition grows {A} (m : handler (E:=E) (B:=B) (W:=W) A) : Prop :=
  forall w, ct_trace (snd w) `prefix_of` ct_trace (snd (snd (m w))).

Lemma grows_bind {A C} (m : handler A) (k : A -> handler C) :
  grows m -> (forall a, grows (k a)) -> grows (hbind m k).
Proof.
  intros Hm Hk w. unfold hbind. specialize (Hm w). destruct (m w) as [[a|e|msg] w']; try done.
  etrans; [exact Hm|apply Hk].
Qed.

Lemma grows_same {A} (m : handler A) :
  (forall w, ct_trace (snd (snd (m w))) = ct_trace (snd w)) -> grows m.
Proof. intros H w. by rewrite H. Qed.

Lemma grows_log a : grows (hlog a).
Proof. intros [c t]. cbn. by apply prefix_app_r. Qed.

Lemma grows_emit e : grows (emit e).
Proof.
  apply grows_bind; [by apply grows_same|]. intros []; [apply grows_log|by apply grows_same].
Qed.

Lemma grows_send e h : grows (conn_send e h).
Proof.
  intros [c t]. unfold conn_send. destruct (ce_send _ _ _). cbn. by apply prefix_app_r.
Qed.

Lemma grows_native : grows native_release.
Proof.
  intros [c t]. unfold native_release. destruct (capture_release c). cbn. by apply prefix_app_r.
Qed.

Lemma grows_hmod f : (forall t, ct_trace (f t) = ct_trace t) -> grows (hmod f).
Proof. intros H. apply grows_same. intros [c t]. apply H. Qed.

Lemma grows_hcap {A} (m : InputCapture B -> exec E A * InputCapture B) : grows (hcap m).
Proof. apply grows_same. intros [c t]. unfold hcap. by destruct (m c). Qed.

Lemma grows_send_all es h : grows (send_all es h).
Proof.
  induction es as [|e es IH]; [by apply grows_same|]. apply grows_bind; [apply grows_send|done].
Qed.

Lemma grows_release drain r : grows (release_capture drain r).
Proof.
  apply grows_bind; [by apply grows_same|]. intros released.
  apply grows_bind; [by apply grows_hmod|]. intros _.
  apply grows_bind; [case_bool_decide; [apply grows_hcap|by apply grows_same]|]. intros keys.
  apply grows_bind; [apply grows_native|]. intros _. destruct released; [|by apply grows_same].
  apply grows_bind; [by apply grows_hmod|]. intros _.
  apply grows_bind; [apply grows_send_all|]. intros _.
  apply grows_bind; [apply grows_send_all|]. intros _. apply grows_emit.
Qed.
End growth.

(** ** The invariant *)

(** The permit was armed by the service. *)
Definition armed_by (arms : list ServiceOp) (p : CapturePermit) : Prop :=
  exists d now, SvArm (pm_handle p) (pm_lease_epoch p) (pm_peer_session_epoch p) d now ∈ arms
    /\ pm_expires_at p = (now + d)%N.

(** What the gate owes to the permits granted so far. *)
Record GateOk (arms : list ServiceOp) (gs : list CapturePermit) (g : CaptureGate) : Prop := {
  go_sorted : StronglySorted N.lt (map pm_lease_epoch gs);
  go_last : Forall (fun e => e <= cg_last_epoch g)%N (map pm_lease_epoch gs);
  go_granted : Forall (armed_by arms) gs;
  go_armed : forall p, cg_armed g = Some p ->
    pm_lease_epoch p = cg_last_epoch g /\ armed_by arms p
    /\ Forall (fun e => e < cg_last_epoch g)%N (map pm_lease_epoch gs) }.

Lemma GateOk_drop arms gs g g' : GateOk arms gs g -> cg_last_epoch g' = cg_last_epoch g ->
  (cg_armed g' = cg_armed g \/ cg_armed g' = None) -> GateOk arms gs g'.
Proof.
  intros [G1 G2 G3 G4] Hl Ha. split; rewrite ?Hl; try done.
  intros p Hp. destruct Ha as [Ha|Ha]; rewrite Ha in Hp; [by apply G4|done].
Qed.

Lemma GateOk_remove arms gs g h : GateOk arms gs g -> GateOk arms gs (cgate_remove h g).
Proof.
  intros H. apply (GateOk_drop _ _ g); unfold cgate_remove; try done;
    destruct (cg_armed g) as [p|] eqn:Ep; try case_match; auto.
Qed.

Lemma GateOk_consume arms gs g h now p g' : GateOk arms gs g -> cgate_consume h now g = (p, g') ->
  match p with
  | Some p => pm_handle p = h /\ (now < pm_expires_at p)%N /\ GateOk arms (gs ++ [p]) g'
  | None => GateOk arms gs g'
  end.
Proof.
  intros H. unfold cgate_consume. destruct (cg_armed g) as [q|] eqn:Eq; [|by intros [= <- <-]].
  destruct (N.leb_spec (pm_expires_at q) now) as [|Hx].
  { intros [= <- <-]. apply (GateOk_drop _ _ g); auto. }
  destruct (N.eqb_spec (pm_handle q) h) as [Hh|]; simpl; intros [= <- <-]; [|exact H].
  destruct H as [G1 G2 G3 G4]. destruct (G4 q Eq) as (Hl & Ha & Hf). split; [done|]. split; [done|].
  split; simpl; rewrite ?map_app; simpl.
  - apply StronglySorted_snoc; [done|]. eapply Forall_impl; [exact Hf|]. simpl. intros. lia.
  - apply Forall_app. split; [done|]. constructor; [|constructor]. rewrite Hl. lia.
  - apply Forall_app. split; [done|]. by constructor.
  - done.
Qed.

Lemma armed_by_mono arms o p : armed_by arms p -> armed_by (arms ++ [o]) p.
Proof. intros (d & now & H & Hx). exists d, now. split; [|done]. apply elem_of_app. by left. Qed.

(** An operation of the service on the gate. *)
Lemma GateOk_service im arms gs g o : GateOk arms gs g -> GateOk (arms ++ [o]) gs (service_op im o g).
Proof.
  intros H.
  assert (GateOk (arms ++ [o]) gs g) as H'.
  { destruct H as [G1 G2 G3 G4]. split; try done.
    - eapply Forall_impl; [exact G3|]. intros p. apply armed_by_mono.
    - intros p Hp. destruct (G4 p Hp) as (Hl & Ha & Hf). split; [done|]. split; [|done].
      by apply armed_by_mono. }
  destruct o as [h l pe d now|l|]; simpl.
  - unfold cgate_arm. destruct (N.ltb_spec (cg_last_epoch g) l) as [Hl|]; [|done].
    unfold instant_checked_add. destruct (_ <=? _)%N; simpl; [|done]. destruct H' as [G1 G2 G3 G4].
    assert (Forall (fun e => e < l)%N (map pm_lease_epoch gs)) as Hlt.
    { eapply Forall_impl; [exact G2|]. simpl. intros. lia. }
    split; simpl; try done.
    + eapply Forall_impl; [exact Hlt|]. simpl. intros. lia.
    + intros p [= <-]. split; [done|]. split; [|done]. exists d, now. split; [|done].
      apply elem_of_app. right. by apply list_elem_of_singleton.
  - apply (GateOk_drop _ _ g); unfold cgate_disarm; try done;
      destruct (cg_armed g) as [p|] eqn:Ep; try case_match; auto.
  - apply (GateOk_drop _ _ g); auto.
Qed.

(** The service reaches the gate only through these operations. *)
Lemma service_call_gate im call g :
  fst (service_call im call g) = g \/ exists o, fst (service_call im call g) = service_op im o g.
Proof.
  destruct call as [|h pos ty|h|n|h l p d now|l|b]; cbn; auto.
  - right. by exists SvClear.
  - right. exists (SvArm h l p d now). cbn. by destruct (cgate_arm _ _ _ _ _ _ g).
  - right. by exists (SvDisarm l).
Qed.

Section invariant.
Context {E B W : Type} {HB : CaptureBackend E B} {HW : CaptureEnv W}.
Variable drain : gset Linux -> list Linux.
Variable instant_max : N.
Variable arms : list ServiceOp.
Implicit Types (t : TaskState W).
Abbreviation World := (InputCapture B * TaskState W)%type (only parsing).

Record Base t : Prop := {
  bs_justified : justified (ct_trace t);
  bs_gate : GateOk arms (grants (ct_trace t)) (ct_gate t) }.

(** The active client is the one the trace says. *)
Record Linked t : Prop := {
  lk_active : forall h, ct_active_client t = Some h -> lg_active (ledger (ct_trace t)) = Some h;
  lk_acked : forall h, ct_active_client t = Some h -> ct_state t = Sending ->
    lg_acked (ledger (ct_trace t)) = true }.

Definition Inv (w : World) : Prop := Base (snd w) /\ Linked (snd w).

(** The peer [h] has been given up but not reported released: it may be told
    what it has to undo. *)
Definition Held (h : N) (w : World) : Prop :=
  Inv w /\ lg_active (ledger (ct_trace (snd w))) = Some h /\ ct_active_client (snd w) = None.

Lemma Base_log t a : Base t -> action_justified (ct_trace t) a ->
  match a with AGrant _ _ => False | _ => True end -> Base (log a t).
Proof.
  intros [H1 H2] Ha Hg. split; cbn; [by apply justified_snoc|]. rewrite grants_snoc.
  destruct a; try done; by rewrite app_nil_r.
Qed.

Lemma Base_env t env : Base t -> Base (t <| ct_env := env |>).
Proof. by intros []. Qed.

Lemma Inv_quiet c c' t a env : Inv (c, t) -> action_justified (ct_trace t) a ->
  match a with AGrant _ _ => False | _ => True end ->
  ledger_step (ledger (ct_trace t)) a = ledger (ct_trace t) ->
  Inv (c', log a (t <| ct_env := env |>)).
Proof.
  intros [Hb [L1 L2]] Ha Hg Hl. split; [by apply Base_log; [apply Base_env|..]|].
  split; cbn; rewrite ledger_snoc, Hl; done.
Qed.

Lemma Inv_log c c' t a : Inv (c, t) -> action_justified (ct_trace t) a ->
  match a with AGrant _ _ => False | _ => True end ->
  ledger_step (ledger (ct_trace t)) a = ledger (ct_trace t) -> Inv (c', log a t).
Proof. intros. replace t with (t <| ct_env := ct_env t |>) by (by destruct t). by eapply Inv_quiet. Qed.

(** Triples that keep the invariant when they do not return. *)
Definition ok {A} (P : World -> Prop) (m : handler (E:=E) A) (Q : A -> World -> Prop) : Prop :=
  hoare P m Q Inv Inv.

Definition keeps {A} (m : handler (E:=E) A) : Prop := ok Inv m (fun _ => Inv).

(** Events that report no release. *)
Lemma emit_keeps e : match e with ClientReleased _ _ => False | _ => True end -> keeps (emit e).
Proof.
  intros He [c t] Hw. unfold emit, hbind, hget. cbn. destruct (ct_open t); [|done].
  cbn. eapply Inv_log; [exact Hw|done..|]. by destruct e.
Qed.

Lemma native_release_keeps : keeps native_release.
Proof.
  intros [c t] Hw. unfold native_release. destruct (capture_release c) as [[a|e|msg] c'];
    by eapply Inv_log.
Qed.

(** What [release_capture] sends. *)
Definition farewell (e : ProtoEvent) : Prop :=
  match e with Leave _ => True | Input i => cleanup i = true | _ => False end.

Lemma native_release_held h : ok (Held h) native_release (fun _ => Held h).
Proof.
  intros [c t] (Hw & Hh & Ha). unfold native_release. destruct (capture_release c) as [[a|e|msg] c'];
    try by eapply Inv_log. split; [by eapply Inv_log|]. cbn. by rewrite ledger_snoc.
Qed.

Lemma conn_send_held h e : farewell e -> ok (Held h) (conn_send e h) (fun _ => Held h).
Proof.
  intros He [c t] (Hw & Hh & Ha). unfold conn_send. cbn in *.
  destruct (ce_send e h (ct_env t)) as [r env]. split.
  - eapply Inv_quiet; [exact Hw| |done..]. destruct e; cbn; auto; done.
  - cbn. by rewrite ledger_snoc.
Qed.

Lemma send_all_held h es : Forall farewell es -> ok (Held h) (send_all es h) (fun _ => Held h).
Proof.
  induction 1 as [|e es He _ IH]; [by apply hoare_ret|].
  eapply hoare_bind; [by apply conn_send_held|]. done.
Qed.

Lemma emit_released h r : ok (Held h) (emit (ClientReleased h r)) (fun _ => Inv).
Proof.
  intros [c t] (Hw & Hh & Ha). unfold emit, hbind, hget. cbn in *. destruct (ct_open t); [|done].
  cbn. destruct Hw as [Hb _]. split; [by apply Base_log|]. split; cbn; congruence.
Qed.

(** The invariant reads the trace, the gate and who is active. *)
Lemma Inv_ext c c' t t' : Inv (c, t) -> ct_trace t' = ct_trace t ->
  GateOk arms (grants (ct_trace t)) (ct_gate t') ->
  ct_active_client t' = ct_active_client t -> ct_state t' = ct_state t -> Inv (c', t').
Proof. intros [[J G] [L1 L2]] H1 H2 H3 H4. split; split; cbn; rewrite ?H1, ?H3, ?H4; done. Qed.

Lemma hcap_keeps {A} (m : InputCapture B -> exec E A * InputCapture B) : keeps (hcap m).
Proof. intros [c t] Hw. unfold hcap. destruct (m c) as [[a|e|msg] c']; exact Hw. Qed.

(** Changes of fields the invariant does not read, or that only forget. *)
Lemma hmod_ok (f : TaskState W -> TaskState W) (P Q : World -> Prop) :
  (forall c t, P (c, t) -> Q (c, f t)) -> ok P (hmod f) (fun _ => Q).
Proof. intros H [c t] Hw. by apply H. Qed.

Lemma release_capture_keeps r : keeps (release_capture drain r).
Proof.
  unfold keeps, release_capture. eapply hoare_bind; [apply hoare_get|]. intros released.
  destruct released as [h|]; cbn [bool_decide].
  - eapply (hoare_bind _ _ _ (fun _ => Held h)).
    { apply hmod_ok. intros c t [[[J G] [L1 L2]] Ha]. split; [by split|]. split; [|done].
      apply L1. by rewrite Ha. }
    intros ?. eapply (hoare_bind _ _ _ (fun _ => Held h)).
    { rewrite bool_decide_true by eauto. intros [c t] Hw. exact Hw. }
    intros keys. eapply hoare_bind; [apply native_release_held|]. intros ?.
    eapply (hoare_bind _ _ _ (fun _ => Held h)).
    { apply hmod_ok. intros c t [Hw Hh]. split; [|exact Hh]. eapply Inv_ext; [exact Hw|done| |done..].
      apply Hw. }
    intros ?. eapply hoare_bind; [apply send_all_held|].
    { apply Forall_forall. intros e (k & -> & _)%list_elem_of_fmap. done. }
    intros ?. eapply hoare_bind; [apply send_all_held; by repeat constructor|].
    intros ?. apply emit_released.
  - eapply (hoare_bind _ _ _ (fun _ => Inv)).
    { apply hmod_ok. intros c t [[[J G] [L1 L2]] Ha]. by split. }
    intros ?. eapply (hoare_bind _ _ _ (fun _ => Inv)); [by apply hoare_ret|].
    intros ?. eapply hoare_bind; [apply native_release_keeps|]. intros ?. by apply hoare_ret.
Qed.

Lemma release_then_notify_keeps e : match e with ClientReleased _ _ => False | _ => True end ->
  keeps (release_then_notify e).
Proof. intros He. eapply hoare_bind; [apply native_release_keeps|]. intros ?. by apply emit_keeps. Qed.

(** Becoming active: the permit, the decision, and the client that results. *)
Lemma activate_keeps h : keeps (activate h).
Proof.
  unfold keeps, activate.
  eapply (hoare_bind _ _ _ (fun p w => Inv w /\ match p with
     | Some p => pm_handle p = h /\ exists earlier now, ct_trace (snd w) = earlier ++ [AGrant p now]
     | None => True end)).
  { intros [c t] [[J G] [L1 L2]]. unfold consume_permit. cbn in *.
    destruct (cgate_consume h _ (ct_gate t)) as [p g] eqn:Eg.
    pose proof (GateOk_consume _ _ _ _ _ _ _ G Eg) as Hg. destruct p as [p|].
    - destruct Hg as (Hh & Hx & Hg). split.
      + split; split; cbn; try (rewrite ledger_snoc; done).
        * by apply justified_snoc.
        * by rewrite grants_snoc.
      + split; [done|]. by eexists _, _.
    - split; [|done]. by split; split. }
  intros [p|]; [|eapply hoare_bind; [intros w [Hw _]; by apply release_then_notify_keeps|];
    intros ?; by apply hoare_ret].
  eapply (hoare_bind _ _ _ (fun (b : bool) w => if b then Base (snd w)
    /\ lg_active (ledger (ct_trace (snd w))) = Some h else Inv w)).
  { intros [c t] (Hw & Hh & earlier & now & Etr). unfold request_commit_authorization, emit, hbind, hget.
    cbn in *. destruct (ct_open t); [|done]. cbn.
    assert (Inv (c, log (AEvent (CommitRequested h (pm_lease_epoch p) (pm_peer_session_epoch p))) t)) as Hw'
      by (by eapply Inv_log).
    destruct (ce_decide h p (ct_env t)) as [[|] env].
    - destruct Hw' as [Hb _]. split; [|cbn; by rewrite ledger_snoc].
      apply Base_log; [by apply Base_env| |done]. exists earlier, p, now. cbn.
      rewrite Etr, <- app_assoc. done.
    - by eapply Inv_quiet. }
  intros [|]; cbn [negb].
  - eapply (hoare_bind _ _ _ (fun _ => Inv)); [|intros ?; by apply hoare_ret].
    apply hmod_ok. intros c t [[J G] Ha]. split; [by split|]. split; [by intros ? [= <-]|done].
  - eapply hoare_bind; [by apply release_then_notify_keeps|]. intros ?. by apply hoare_ret.
Qed.

Lemma get_pos_keeps h (P : World -> Prop) : (forall w, P w -> Inv w) -> ok P (get_pos h) (fun _ => P).
Proof. intros HP [c t] Hw. unfold get_pos. cbn. destruct (find_capture h t); cbn; auto. Qed.

Lemma get_type_keeps h : keeps (get_type h).
Proof. intros [c t] Hw. unfold get_type. cbn. by destruct (find_capture h t). Qed.

Lemma forward_keeps h e : ok (fun w => Inv w /\ Some h = ct_active_client (snd w)) (forward drain h e) (fun _ => Inv).
Proof.
  eapply hoare_bind; [apply get_pos_keeps; by intros w []|]. intros pos.
  eapply hoare_bind; [apply hoare_get|]. intros st.
  eapply (hoare_bind _ _ _ (fun ev w => Inv w /\ Some h = ct_active_client (snd w)
    /\ match ev with Enter _ => True | Input _ => st = Sending /\ ct_state (snd w) = Sending | _ => False end)).
  { intros [c t] [[Hw Ha] Hs]. destruct e as [| |i]; [done|done|]. cbn in *. by destruct st. }
  intros ev. eapply (hoare_bind _ _ _ (fun _ => Inv)).
  { intros [c t] (Hw & Ha & Hev). unfold conn_send. cbn in *.
    destruct (ce_send ev h (ct_env t)) as [r env]. eapply Inv_quiet; [exact Hw| |done..].
    destruct Hw as [_ [L1 L2]]. cbn in *. destruct ev; try done; cbn; [by apply L1|].
    destruct Hev as [_ Hs]. split; [by apply L1|]. left. by apply (L2 h). }
  intros r. apply hoare_when. intros ?. apply release_capture_keeps.
Qed.

Lemma handle_capture_event_keeps ev : keeps (handle_capture_event drain ev).
Proof.
  destruct ev as [h e]. unfold keeps, handle_capture_event.
  destruct e as [| |i].
  2: { eapply hoare_bind; [apply hoare_get|]. intros active. intros w [Hw _].
       case_bool_decide; [by apply release_capture_keeps|by apply emit_keeps]. }
  all: eapply hoare_bind; [apply hoare_get|]; intros bind;
    eapply (hoare_bind _ _ _ (fun _ => Inv)); [intros w [Hw _]; by apply hcap_keeps|];
    intros [|]; [apply release_capture_keeps|]; cbn zeta;
    (eapply hoare_bind; [apply hoare_when; intros _; by apply emit_keeps|]); intros ?;
    (eapply hoare_bind; [apply get_type_keeps|]); intros ty;
    case_bool_decide;
    [eapply hoare_bind; [by apply get_pos_keeps|]; intros pos;
     eapply hoare_bind; [apply hoare_get|]; intros there w [Hw _];
     apply hoare_when; [|exact Hw]; intros _; apply native_release_keeps|];
    (eapply hoare_bind; [apply hoare_get|]); intros active;
    (eapply (hoare_bind _ _ _ (fun _ => Inv));
     [intros w [Hw _]; destruct (_ && _); [by apply activate_keeps|exact Hw]|]);
    intros [|]; cbn [negb]; try (by apply hoare_ret);
    (eapply hoare_bind; [apply hoare_get|]); intros active';
    (case_bool_decide as Ha; cbn [negb];
     [intros w [Hw Hw']; apply forward_keeps; by split; [|rewrite Ha]
     |intros w [Hw _]; by apply native_release_keeps]).
Qed.

Lemma heard_keeps h e : keeps (hlog (AHeard h e)).
Proof.
  intros [c t] [Hb [L1 L2]]. split; [by apply Base_log|].
  split; cbn in *; rewrite ledger_snoc; cbn.
  - intros h' Ha. destruct e; try (by apply L1). case_bool_decide as Hl; [|by apply L1].
    cbn. rewrite <- Hl. by apply L1.
  - intros h' Ha Hs. destruct e; try (by apply (L2 h')). case_bool_decide; [done|]. by apply (L2 h').
Qed.

Lemma handle_conn_event_keeps h e : keeps (handle_conn_event drain h e).
Proof.
  unfold keeps, handle_conn_event.
  eapply (hoare_bind _ _ _ (fun _ w => Inv w /\ AHeard h e ∈ ct_trace (snd w)
     /\ forall n, e = Ack n -> ct_active_client (snd w) = Some h -> lg_acked (ledger (ct_trace (snd w))) = true)).
  { intros [c t] Hw. pose proof (heard_keeps h e _ Hw) as Hk. cbn in Hk |- *. split; [exact Hk|].
    split; [apply elem_of_app; right; by apply list_elem_of_singleton|].
    intros n -> Ha. rewrite ledger_snoc. cbn. destruct Hw as [_ [L1 _]].
    rewrite bool_decide_true by (by apply L1). done. }
  intros ?. eapply hoare_bind; [apply hoare_get|]. intros active.
  destruct (match active with Some a => negb (h =? a)%N | None => false end) eqn:Eg;
    [apply hoare_ret; tauto|].
  assert (active = None \/ active = Some h) as Hact.
  { destruct active as [a'|]; [|by left]. right. apply negb_false_iff, N.eqb_eq in Eg. by subst. }
  clear Eg. destruct e; try (apply hoare_ret; tauto).
  - intros w [[Hw _] _]. by apply release_capture_keeps.
  - apply hmod_ok. intros c t [([[J G] [L1 L2]] & _ & Hk) Ha]. cbn in *. split; [by split|].
    split; [exact L1|]. cbn. intros h' Hh' _. destruct Hact as [->| ->]; [congruence|]. by eapply Hk.
  - intros w [[Hw _] _]. by apply emit_keeps.
  - eapply hoare_bind; [apply hoare_get|]. intros epoch w [[[Hw _] _] _]. revert w Hw.
    eapply hoare_bind; [apply hoare_when; intros _; apply release_capture_keeps|].
    intros ?. by apply emit_keeps.
  - intros w [(Hw & Hin & _) _]. revert w Hw Hin.
    set (H := fun w : World => AHeard h (ReleaseRequest release_epoch) ∈ ct_trace (snd w)).
    assert (forall (m : handler unit), keeps m -> grows m ->
      ok (fun w => Inv w /\ H w) m (fun _ w => Inv w /\ H w)) as Hgrow.
    { intros m Hm Hg w [Hw Hin]. specialize (Hm w Hw). specialize (Hg w).
      destruct (m w) as [[u|err|msg] w']; try done. split; [done|].
      destruct Hg as [k Hk]. unfold H. cbn in Hk. rewrite Hk. apply elem_of_app. by left. }
    enough (ok (fun w => Inv w /\ H w)
      (hbind (hwhen (bool_decide (active = Some h)) (emit (PeerReleaseStarted h release_epoch)))
         (fun _ => hbind (release_capture drain PeerReleaseRequested)
            (fun _ => hbind (conn_send (ReleaseAck release_epoch) h) (fun _ => hret tt))))
      (fun _ => Inv)) as Hok by (intros w Hw Hin; by apply Hok).
    eapply hoare_bind; [apply hoare_when; intros _; apply Hgrow; [by apply emit_keeps|apply grows_emit]|].
    intros ?. eapply hoare_bind; [apply Hgrow; [apply release_capture_keeps|apply grows_release]|].
    intros ?. eapply (hoare_bind _ _ _ (fun _ => Inv)); [|intros ?; by apply hoare_ret].
    intros [c t] [Hw Hin]. unfold conn_send. cbn. destruct (ce_send _ _ _) as [r env].
    by eapply Inv_quiet.
Qed.

Lemma gate_weaken_keeps (f : TaskState W -> TaskState W) :
  (forall t, ct_trace (f t) = ct_trace t /\ ct_active_client (f t) = ct_active_client t
     /\ ct_state (f t) = ct_state t
     /\ (GateOk arms (grants (ct_trace t)) (ct_gate t) -> GateOk arms (grants (ct_trace t)) (ct_gate (f t)))) ->
  keeps (hmod f).
Proof.
  intros H. apply hmod_ok. intros c t Hw. destruct (H t) as (H1 & H2 & H3 & H4).
  eapply Inv_ext; [exact Hw|done| |done..]. apply H4, Hw.
Qed.

Lemma GateOk_clear gs g : GateOk arms gs g -> GateOk arms gs (cgate_clear g).
Proof. intros H. apply (GateOk_drop _ _ g); auto. Qed.

Lemma session_request_keeps r : keeps (session_request drain r).
Proof.
  destruct r as [completion|h p ty|h| |bind|h]; cbn [session_request].
  - intros w Hw. unfold session_release.
    set (m := hbind _ _).
    assert (keeps m) as Hm.
    { eapply hoare_bind; [apply gate_weaken_keeps|intros ?; apply release_capture_keeps].
      intros t. split; [done|]. split; [done|]. split; [done|]. apply GateOk_clear. }
    specialize (Hm w Hw). destruct (m w) as [[u|e|msg] [c t]]; try done;
      destruct completion; cbn; try done; by eapply Inv_log.
  - eapply hoare_bind; [apply gate_weaken_keeps; done|]. intros ?. apply hcap_keeps.
  - eapply hoare_bind; [apply gate_weaken_keeps|].
    { intros t. split; [done|]. split; [done|]. split; [done|]. apply GateOk_remove. }
    intros ?. apply hcap_keeps.
  - by apply hoare_ret.
  - by apply gate_weaken_keeps.
  - eapply hoare_bind; [apply hcap_keeps|]. intros ?. by apply hoare_ret.
Qed.

Lemma create_captures_keeps captures n : keeps (create_captures captures n).
Proof.
  revert n. induction captures as [|[[h pos] ty] rest IH]; intros n; [by apply hoare_ret|].
  assert (keeps (hbind (hcap (capture_create h pos)) (fun _ => create_captures rest (pred <$> n)))) as Hk.
  { eapply hoare_bind; [apply hcap_keeps|]. intros ?. apply IH. }
  destruct n as [[|n]|]; [by apply hoare_ret|exact Hk..].
Qed.

Definition TaskInv t : Prop := Base t /\ Linked t.

Lemma end_session_inv w : Inv w -> TaskInv (snd (end_session w)).
Proof.
  intros Hw. unfold end_session. pose proof (hcap_keeps capture_terminate w Hw) as H1.
  destruct (hcap capture_terminate w) as [r [c t]].
  assert (Inv (c, t)) as H2 by (by destruct r).
  pose proof (emit_keeps CaptureDisabled I _ H2) as H3.
  destruct (emit CaptureDisabled (c, t)) as [r' [c' t']]. by destruct r'.
Qed.

Lemma in_session_inv m w : keeps m -> Inv w -> TaskInv (snd (in_session m w)).
Proof.
  intros Hm Hw. unfold in_session. specialize (Hm w Hw). destruct (m w) as [[u|e|msg] [c t]].
  - exact Hm.
  - by apply end_session_inv.
  - unfold unwind. cbn [snd]. pose proof (emit_keeps CaptureDisabled I _ Hm) as H3.
    destruct (emit CaptureDisabled (c, t)) as [r' [c' t']]. by destruct r'.
Qed.

Lemma session_poll_inv w : Inv w -> TaskInv (snd (session_poll drain w)).
Proof.
  destruct w as [c t]. intros Hw. unfold session_poll.
  assert (forall c', Inv (c', t)) as Hc by (intros c'; exact Hw).
  destruct (capture_poll c) as [[[|[[ev|e]|]] c']|[]|msg]; try (by apply end_session_inv).
  - exact Hw.
  - apply in_session_inv; [|done]. apply handle_capture_event_keeps.
  - unfold unwind. cbn [snd]. pose proof (emit_keeps CaptureDisabled I _ Hw) as H3.
    destruct (emit CaptureDisabled (c, t)) as [r' [c' t']]. by destruct r'.
Qed.

Lemma begin_session_inv b n t : TaskInv t -> TaskInv (snd (begin_session b n t)).
Proof.
  intros Ht. unfold begin_session. apply in_session_inv; [|exact Ht].
  eapply hoare_bind; [by apply emit_keeps|]. intros ?.
  eapply hoare_bind; [apply hoare_get|]. intros captures w [Hw _]. by apply create_captures_keeps.
Qed.

Lemma disabled_request_inv r t : TaskInv t -> TaskInv (snd (disabled_request r t)).
Proof.
  intros [[J G] [L1 L2]]. destruct r as [[]|h p ty|h| |bind|h]; cbn; try by (split; split).
  - assert (TaskInv (t <| ct_gate := cgate_clear (ct_gate t) |>)) as Ht.
    { split; split; try done. by apply GateOk_clear. }
    destruct Ht as [Hb [L1' L2']].
    split; [by apply Base_log|]. split; cbn; rewrite ledger_snoc; done.
  - split; split; try done. by apply GateOk_clear.
  - split; split; try done. by apply GateOk_remove.
Qed.
End invariant.

(** ** Runs *)

Definition services {B} (inputs : list (TaskInput (B:=B))) : list ServiceOp :=
  omap (fun i => match i with IService o => Some o | _ => None end) inputs.

Section runs.
Context {E B W : Type} {HB : CaptureBackend E B} {HW : CaptureEnv W}.
Variable drain : gset Linux -> list Linux.
Variable instant_max : N.

Lemma TaskInv_service arms o (t : TaskState W) : TaskInv arms t ->
  TaskInv (arms ++ [o]) (t <| ct_gate := service_op instant_max o (ct_gate t) |>).
Proof. intros [[J G] [L1 L2]]. split; split; try done. by apply GateOk_service. Qed.

Lemma task_step_inv arms i m (t : TaskState W) : TaskInv arms t ->
  TaskInv (arms ++ services [i]) (snd (task_step drain instant_max i m t)).
Proof.
  intros Ht. destruct i as [[b|u] n| |h e|r| |o]; cbn [services omap list_omap];
    rewrite ?app_nil_r; destruct m as [|c| |]; cbn [task_step]; try exact Ht;
    try (by apply TaskInv_service).
  - by apply begin_session_inv.
  - by apply session_poll_inv.
  - apply in_session_inv; [|done]. apply handle_conn_event_keeps.
  - apply in_session_inv; [|done]. apply session_request_keeps.
  - pose proof (disabled_request_inv arms r t Ht) as H. destruct (disabled_request r t). exact H.
  - by apply end_session_inv.
Qed.

Lemma task_run_inv inputs arms m (t : TaskState W) : TaskInv arms t ->
  exists arms', arms' `prefix_of` arms ++ services inputs
    /\ TaskInv arms' (snd (task_run drain instant_max inputs m t)).
Proof.
  revert arms m t. induction inputs as [|i rest IH]; intros arms m t Ht.
  { exists arms. split; [by rewrite app_nil_r|done]. }
  cbn [task_run]. pose proof (task_step_inv arms i m t Ht) as Hs.
  replace (services (i :: rest)) with (services [i] ++ services rest)
    by (unfold services; by rewrite <- omap_app).
  destruct (task_step drain instant_max i m t) as [[m'|e|msg] t'].
  - destruct (IH _ m' t' Hs) as (arms' & Hp & Hi). exists arms'. by rewrite app_assoc.
  - exists (arms ++ services [i]). split; [rewrite app_assoc; by apply prefix_app_r|done].
  - exists (arms ++ services [i]). split; [rewrite app_assoc; by apply prefix_app_r|done].
Qed.

Lemma task_new_inv bind (env : W) : TaskInv [] (task_new bind env).
Proof.
  split; split; try done.
  - intros before a after H. by destruct before.
  - split; try done; constructor.
Qed.

(** C21: In every run of the capture task, across sessions, restarts and any
    interleaving with the service: a peer is sent [Enter], [Leave] or input only
    while it is the peer authorized last and not reported released since; input
    other than releases of held keys and modifiers is sent only once that peer
    has acknowledged since; a release is acknowledged only to a peer that asked
    for it; an authorization follows at once on a permit granted for the same
    handle; and a permit is granted only before it expires. *)
Theorem task_sends_justified inputs bind (env : W) :
  justified (ct_trace (snd (task_run drain instant_max inputs MCreating (task_new bind env)))).
Proof.
  destruct (task_run_inv inputs [] MCreating _ (task_new_inv bind env)) as (arms & _ & [[J _] _]).
  exact J.
Qed.

(** Permits are one-shot: the lease epochs granted in a run are strictly
    increasing, and each granted permit was armed by the service with the same
    handle, epochs and expiry. *)
Theorem task_permits_one_shot inputs bind (env : W) :
  let granted := grants (ct_trace (snd (task_run drain instant_max inputs MCreating (task_new bind env)))) in
  StronglySorted N.lt (map pm_lease_epoch granted) /\ Forall (armed_by (services inputs)) granted.
Proof.
  destruct (task_run_inv inputs [] MCreating _ (task_new_inv bind env)) as (arms & Hp & [[_ G] _]).
  cbn zeta. split; [apply G|]. eapply Forall_impl; [apply (go_granted _ _ _ G)|].
  intros p (d & now & Hin & Hx). exists d, now. split; [|done]. destruct Hp as [k Hk].
  cbn in Hk. rewrite Hk. apply elem_of_app. by left.
Qed.
End runs.
