(* ===== verification/CaptureTaskClaims.v ===== *)
(** * Releases, panics and restarts of the capture task *)

From stdpp Require Import base tactics list gmap sets strings.
From Stdlib Require Import NArith ZArith Lia Sorted.
From S2P Require Import Prelude SwitchGate ProtoWire Scancode CaptureQueue InputCapture CaptureTask CaptureTaskTheorems.

(** ** What a handler leaves alone *)

Section frame.
Context {E B W : Type} {HB : CaptureBackend E B} {HW : CaptureEnv W}.
Variable drain : gset Linux -> list Linux.
Abbreviation World := (InputCapture B * TaskState W)%type (only parsing).

(** The registrations, on both sides. *)
Record same (w w' : World) : Prop := {
  sm_captures : ct_captures (snd w') = ct_captures (snd w);
  sm_open : ct_open (snd w') = ct_open (snd w);
  sm_ids : ic_id_map (fst w') = ic_id_map (fst w);
  sm_positions : ic_position_map (fst w') = ic_position_map (fst w);
  sm_pending : ic_pending (fst w') = ic_pending (fst w) }.

Lemma same_refl w : same w w.
Proof. by split. Qed.

Variable w0 : World.
Hypothesis Hopen : ct_open (snd w0) = true.

(** The handler keeps the registrations and does not panic. *)
Definition calm {A} (m : handler (E:=E) A) : Prop :=
  hoare (same w0) m (fun _ => same w0) (same w0) (fun _ => False).

Lemma calm_bind {A C} (m : handler A) (k : A -> handler C) :
  calm m -> (forall a, calm (k a)) -> calm (hbind m k).
Proof. intros Hm Hk. by eapply hoare_bind. Qed.

Lemma calm_ret {A} (a : A) : calm (hret a).
Proof. by apply hoare_ret. Qed.

Lemma calm_get {A} (f : TaskState W -> A) : calm (hget f).
Proof. by intros w Hw. Qed.

Lemma calm_when b m : calm m -> calm (hwhen b m).
Proof. intros H. apply hoare_when. done. Qed.

Lemma calm_mod f : (forall t, ct_captures (f t) = ct_captures t /\ ct_open (f t) = ct_open t) ->
  calm (hmod f).
Proof.
  intros H [c t] [H1 H2 H3 H4 H5]. cbn in *. destruct (H t) as [F1 F2].
  split; cbn; congruence.
Qed.

Lemma calm_cap {A} (m : InputCapture B -> exec E A * InputCapture B) :
  (forall c, let '(r, c') := m c in (forall msg, r <> Panic msg) /\ ic_id_map c' = ic_id_map c
     /\ ic_position_map c' = ic_position_map c /\ ic_pending c' = ic_pending c) -> calm (hcap m).
Proof.
  intros H [c t] [H1 H2 H3 H4 H5]. unfold hcap. specialize (H c). cbn in *.
  destruct (m c) as [[a|e|msg] c']; destruct H as (F0 & F1 & F2 & F3);
    [split; cbn; congruence..|by eapply F0].
Qed.

Lemma calm_emit e : calm (emit e).
Proof.
  intros [c t] [H1 H2 H3 H4 H5]. unfold emit, hbind, hget. cbn in *. rewrite H2, Hopen.
  split; cbn; congruence.
Qed.

Lemma calm_send e h : calm (conn_send e h).
Proof.
  intros [c t] [H1 H2 H3 H4 H5]. unfold conn_send. destruct (ce_send _ _ _). by split.
Qed.

Lemma capture_release_frame c : let '(r, c') := capture_release (E:=E) (B:=B) c in
  (forall msg, r <> Panic msg) /\ ic_id_map c' = ic_id_map c
  /\ ic_position_map c' = ic_position_map c /\ ic_pending c' = ic_pending c.
Proof.
  destruct (capture_release c) as [r c'] eqn:Ec.
  apply cb_call_frame in Ec as (F1 & F2 & F3 & _ & F5). done.
Qed.

Lemma calm_native : calm native_release.
Proof.
  intros [c t] [H1 H2 H3 H4 H5]. unfold native_release. pose proof (capture_release_frame c) as F.
  destruct (capture_release c) as [[a|e|msg] c']; destruct F as (F0 & F1 & F2 & F3);
    [split; cbn in *; congruence..|by eapply F0].
Qed.

Lemma calm_send_all es h : calm (send_all es h).
Proof. induction es; [apply calm_ret|]. apply calm_bind; [apply calm_send|done]. Qed.

Create HintDb calm.
Hint Resolve calm_ret calm_get calm_emit calm_send calm_native calm_send_all calm_when : calm.
Hint Extern 1 (calm (hmod _)) => apply calm_mod; done : calm.
Hint Extern 1 (calm (hbind _ _)) => apply calm_bind; [|intros ?] : calm.

Lemma calm_release r : calm (release_capture drain r).
Proof.
  unfold release_capture. apply calm_bind; [auto with calm|]. intros released.
  apply calm_bind; [auto with calm|]. intros _.
  apply calm_bind; [case_bool_decide; [by apply calm_cap|apply calm_ret]|]. intros keys.
  apply calm_bind; [auto with calm|]. intros _. destruct released; auto 10 with calm.
Qed.
Hint Resolve calm_release : calm.

Lemma calm_activate h : calm (activate h).
Proof.
  unfold activate. apply calm_bind.
  { intros [c t] [H1 H2 H3 H4 H5]. unfold consume_permit. destruct (cgate_consume _ _ _) as [[p|] g]; by split. }
  intros [p|]; [|unfold release_then_notify; auto with calm].
  apply calm_bind.
  { apply calm_bind; [apply calm_emit|]. intros _ [c t] [H1 H2 H3 H4 H5].
    destruct (ce_decide _ _ _). by split. }
  intros []; cbn [negb]; unfold release_then_notify; auto with calm.
Qed.

Variable handle : N.
Hypothesis Hreg : is_Some (find_capture handle (snd w0)).

Lemma find_capture_same w : same w0 w -> find_capture handle (snd w) = find_capture handle (snd w0).
Proof. intros [H1 _ _ _ _]. unfold find_capture. by rewrite H1. Qed.

Lemma calm_get_pos : calm (get_pos handle).
Proof.
  intros w Hw. unfold get_pos. rewrite (find_capture_same w Hw). destruct Hreg as [x ->]. exact Hw.
Qed.

Lemma calm_get_type : calm (get_type handle).
Proof.
  intros w Hw. unfold get_type. rewrite (find_capture_same w Hw). destruct Hreg as [x ->]. exact Hw.
Qed.

Lemma calm_forward e : e <> EdgeRetreated -> calm (forward drain handle e).
Proof.
  intros He. unfold forward. apply calm_bind; [apply calm_get_pos|]. intros pos.
  apply calm_bind; [apply calm_get|]. intros st. apply calm_bind.
  { destruct e; [apply calm_ret|done|apply calm_ret]. }
  intros ev. auto with calm.
Qed.

Lemma calm_handle_event e : calm (handle_capture_event drain (handle, e)).
Proof.
  unfold handle_capture_event. destruct e as [| |i].
  2: { apply calm_bind; [apply calm_get|]. intros a. case_bool_decide; auto with calm. }
  all:
    (apply calm_bind; [apply calm_get|intros bind]);
    (apply calm_bind; [by apply calm_cap|intros []]); auto with calm;
    (apply calm_bind; [auto with calm|intros _]);
    (apply calm_bind; [apply calm_get_type|intros ty]);
    case_bool_decide;
    try (apply calm_bind; [apply calm_get_pos|auto with calm]);
    (apply calm_bind; [apply calm_get|intros active]);
    (apply calm_bind; [destruct (_ && _); [apply calm_activate|apply calm_ret]|intros []]);
    cbn [negb]; auto with calm;
    (apply calm_bind; [apply calm_get|intros active']);
    case_bool_decide; cbn [negb]; auto with calm; by apply calm_forward.
Qed.
End frame.

(** ** Registrations agree, and no handler panics *)

Definition handles (captures : list (N * CapturePosition * CaptureType)) : list N :=
  map (fun c => fst (fst c)) captures.

(** The capture knows exactly these handles, at these edges. *)
Definition registered {B} (captures : list (N * CapturePosition * CaptureType)) (c : InputCapture B) : Prop :=
  forall h pos, ic_id_map c !! h = Some pos <-> exists ty, (h, pos, ty) ∈ captures.

Record TaskOk {W} (t : TaskState W) : Prop := {
  to_open : ct_open t = true;
  to_nodup : NoDup (handles (ct_captures t)) }.

(** A session, with the captures that the backend knows: those of the task,
    all of them if the creation of the barriers was not cancelled ([whole]). *)
Record SessionOk {B W} (whole : bool) (c : InputCapture B) (t : TaskState W) : Prop := {
  so_task : TaskOk t;
  so_capture : CaptureOk c;
  so_registered : exists known, registered known c /\ known ⊆ ct_captures t
    /\ (whole = true -> known = ct_captures t);
  so_pending : pending_known c }.

Definition ModeOk {B W} (whole : bool) (m : Mode (B:=B)) (t : TaskState W) : Prop :=
  match m with MSession c => SessionOk whole c t | _ => TaskOk t end.

(** Requests that name handles the way the service does: a new handle is
    fresh, and the backend knows a handle that is destroyed or resumed in a
    session (which it does for every capture of the task unless the creation of
    the barriers was cancelled); besides, no event for a handle is still
    waiting when it is destroyed. *)
Definition legal_request {B W} (r : CaptureRequest) (m : Mode (B:=B)) (t : TaskState W) : Prop :=
  match r, m with
  | RqCreate h _ _, _ => h ∉ handles (ct_captures t)
  | RqDestroy h, MSession c =>
      is_Some (ic_id_map c !! h) /\ Forall (fun e => fst e <> h) (ic_pending c)
  | RqResumeIfFocused h, MSession c => is_Some (ic_id_map c !! h)
  | _, _ => True
  end.

Definition legal {B W} (i : TaskInput (B:=B)) (m : Mode (B:=B)) (t : TaskState W) : Prop :=
  match i with IRequest r => legal_request r m t | _ => True end.

(** The creation of the barriers is cancelled half way. *)
Definition halfway {B} (i : TaskInput (B:=B)) : bool :=
  match i with ICreated _ (Some _) => true | _ => false end.

Lemma elem_of_handles h captures :
  h ∈ handles captures <-> exists pos ty, (h, pos, ty) ∈ captures.
Proof.
  unfold handles. rewrite list_elem_of_fmap. split.
  - intros ([[h' pos] ty] & -> & Hin). eauto.
  - intros (pos & ty & Hin). by exists (h, pos, ty).
Qed.

Lemma registered_handles {B} captures (c : InputCapture B) h :
  registered captures c -> (is_Some (ic_id_map c !! h) <-> h ∈ handles captures).
Proof.
  intros Hr. rewrite elem_of_handles. split.
  - intros [pos Hp]. apply Hr in Hp as [ty Hp]. eauto.
  - intros (pos & ty & Hin). exists pos. apply Hr. eauto.
Qed.

Lemma find_capture_registered {W} h (t : TaskState W) :
  h ∈ handles (ct_captures t) -> is_Some (find_capture h t).
Proof.
  intros (pos & ty & Hin)%elem_of_handles. unfold find_capture.
  destruct (List.find _ _) eqn:Ef; [eauto|]. exfalso.
  eapply List.find_none in Ef; [|by apply list_elem_of_In]. cbn in Ef. by rewrite N.eqb_refl in Ef.
Qed.

Lemma handles_filter h captures :
  handles (List.filter (fun c => negb (h =? fst (fst c))%N) captures)
  = List.filter (fun x => negb (h =? x)%N) (handles captures).
Proof.
  unfold handles. induction captures as [|[[h' pos] ty] rest IH]; [done|]. cbn.
  destruct (negb (h =? h')%N); cbn; by rewrite IH.
Qed.

Lemma NoDup_List_filter {A} (p : A -> bool) (l : list A) : NoDup l -> NoDup (List.filter p l).
Proof.
  induction 1 as [|x l Hx _ IH]; cbn; [constructor|]. destruct (p x); [|done].
  constructor; [|done]. rewrite list_elem_of_In, List.filter_In, <- list_elem_of_In. by intros [].
Qed.

Lemma remove_capture_nodup {W} h (t : TaskState W) : TaskOk t -> TaskOk (remove_capture h t).
Proof.
  intros [H1 H2]. split; [done|]. cbn. rewrite handles_filter. by apply NoDup_List_filter.
Qed.

Lemma add_capture_nodup {W} h p ty (t : TaskState W) :
  TaskOk t -> h ∉ handles (ct_captures t) -> TaskOk (add_capture h p ty t).
Proof.
  intros [H1 H2] Hh. split; [done|]. cbn. unfold handles. rewrite map_app. apply NoDup_app.
  split; [done|]. split; [|apply NoDup_singleton]. intros x Hx. cbn. rewrite list_elem_of_singleton.
  by intros ->.
Qed.

Section runs.
Context {E B W : Type} {HB : CaptureBackend E B} {HW : CaptureEnv W}.
Variable drain : gset Linux -> list Linux.
Variable instant_max : N.
Implicit Types (c : InputCapture B) (t : TaskState W).

Lemma SessionOk_same whole c t w : SessionOk whole c t -> same (c, t) w -> SessionOk whole (fst w) (snd w).
Proof.
  intros [[S1 S2] [C1 C2] S3 S4] [H1 H2 H3 H4 H5]. cbn in *. split.
  - split; congruence.
  - apply (capture_ok_maps c); [done|done|by split].
  - unfold registered. by rewrite H1, H3.
  - unfold pending_known. by rewrite H5, H3.
Qed.

Definition step_ok (whole : bool) (r : exec E (Mode (B:=B)) * TaskState W) : Prop :=
  match fst r with Ret m => ModeOk whole m (snd r) | _ => False end.

Lemma end_session_ok whole c t : TaskOk t -> step_ok whole (end_session (E:=E) (c, t)).
Proof.
  intros [H1 H2]. unfold end_session, hcap. destruct (capture_terminate c) as [r c'].
  unfold emit, hbind, hget. cbn. rewrite H1. by split.
Qed.

(** A session goes on after a handler that keeps the registrations. *)
Lemma in_session_calm whole m c t :
  SessionOk whole c t -> calm (c, t) m -> step_ok whole (in_session (E:=E) m (c, t)).
Proof.
  intros Hs Hq. specialize (Hq (c, t) (same_refl _)). unfold in_session.
  destruct (m (c, t)) as [[u|e|msg] [c' t']]; [|apply end_session_ok|done];
    apply (SessionOk_same _ _ _ _ Hs) in Hq; [exact Hq|apply Hq].
Qed.

Lemma capture_create_registered h pos ty c captures : CaptureOk c -> registered captures c ->
  h ∉ handles captures ->
  let '(r, c') := capture_create (E:=E) h pos c in
  (forall msg, r <> Panic msg) /\ CaptureOk c' /\ registered (captures ++ [(h, pos, ty)]) c'
  /\ ic_pending c' = ic_pending c /\ (forall x, is_Some (ic_id_map c !! x) -> is_Some (ic_id_map c' !! x)).
Proof.
  intros Hc Hr Hh.
  assert (ic_id_map c !! h = None) as Hn.
  { apply eq_None_not_Some. by rewrite (registered_handles captures). }
  pose proof (capture_create_ok h pos c Hc Hn) as Hk. destruct (capture_create h pos c) as [r c'].
  destruct Hk as (K1 & K2 & K3 & K4). split; [done|]. split; [done|]. split; [|split; [done|]].
  - intros h' pos'. rewrite K3. setoid_rewrite elem_of_app. setoid_rewrite list_elem_of_singleton.
    destruct (decide (h' = h)) as [->|Hne].
    + rewrite lookup_insert_eq. split; [intros [= <-]; eauto|].
      intros [ty' [Hin|[= <- _]]]; [|done]. exfalso. apply Hh, elem_of_handles. eauto.
    + rewrite lookup_insert_ne, (Hr h' pos') by done. split; [intros [ty' ?]; eauto|].
      intros [ty' [?|[= -> _ _]]]; [eauto|done].
  - intros x Hx. rewrite K3. destruct (decide (x = h)) as [->|]; [rewrite lookup_insert_eq; eauto|].
    by rewrite lookup_insert_ne.
Qed.

Lemma capture_destroy_registered h c captures : CaptureOk c -> registered captures c ->
  h ∈ handles captures -> Forall (fun e => fst e <> h) (ic_pending c) ->
  Forall (fun e => is_Some (ic_id_map c !! fst e)) (ic_pending c) ->
  let '(r, c') := capture_destroy (E:=E) h c in
  (forall msg, r <> Panic msg) /\ CaptureOk c'
  /\ registered (List.filter (fun x => negb (h =? fst (fst x))%N) captures) c'
  /\ Forall (fun e => is_Some (ic_id_map c' !! fst e)) (ic_pending c').
Proof.
  intros Hc Hr Hh Hp1 Hp2. apply (registered_handles captures c h Hr) in Hh as [pos Hpos].
  pose proof (capture_destroy_ok h pos c Hc Hpos) as Hk. destruct (capture_destroy h c) as [r c'].
  destruct Hk as (K1 & K2 & K3 & K4). split; [done|]. split; [done|]. split.
  - intros h' pos'. rewrite K3, lookup_delete_Some.
    setoid_rewrite list_elem_of_In. setoid_rewrite List.filter_In. setoid_rewrite <- list_elem_of_In.
    cbn. setoid_rewrite negb_true_iff. setoid_rewrite N.eqb_neq. rewrite (Hr h' pos'). naive_solver.
  - rewrite K4. apply Forall_forall. intros e He. rewrite K3, lookup_delete_ne.
    + by apply (proj1 (Forall_forall _ _) Hp2).
    + intros ->. by apply (proj1 (Forall_forall _ _) Hp1 e He).
Qed.

(** The captures of the task are registered again at the start of a session,
    up to a cancellation. *)
Lemma create_captures_ok cancel rest : forall done c t, CaptureOk c -> registered done c ->
  NoDup (handles (done ++ rest)) -> ic_pending c = [] ->
  match create_captures (E:=E) rest cancel (c, t) with
  | (Ret _, (c', t')) => CaptureOk c' /\ ic_pending c' = [] /\ t' = t
      /\ exists known, registered (done ++ known) c' /\ known `prefix_of` rest
         /\ (cancel = None -> known = rest)
  | (Throw _, (_, t')) => t' = t
  | (Panic _, _) => False
  end.
Proof.
  revert cancel. induction rest as [|[[h pos] ty] rest IH]; intros cancel done c t Hc Hr Hnd Hp.
  { cbn. do 3 (split; [done|]). exists []. by rewrite app_nil_r. }
  destruct (decide (cancel = Some 0)) as [->|Hne].
  { cbn. do 3 (split; [done|]). exists []. rewrite app_nil_r. split; [done|]. split; [apply prefix_nil|done]. }
  replace (create_captures (E:=E) ((h, pos, ty) :: rest) cancel (c, t))
    with (hbind (W:=W) (hcap (capture_create (E:=E) h pos))
            (fun _ => create_captures rest (pred <$> cancel)) (c, t))
    by (by destruct cancel as [[|n]|]).
  unfold hbind, hcap.
  assert (h ∉ handles done) as Hh.
  { unfold handles in *. rewrite map_app in Hnd. apply NoDup_app in Hnd as (_ & Hd & _).
    intros Hin. apply (Hd _ Hin). cbn. by left. }
  pose proof (capture_create_registered h pos ty c done Hc Hr Hh) as Hk.
  destruct (capture_create h pos c) as [[u|e|msg] c']; destruct Hk as (K1 & K2 & K3 & K4 & _);
    [|done|by eapply K1].
  replace (done ++ (h, pos, ty) :: rest) with ((done ++ [(h, pos, ty)]) ++ rest) in Hnd
    by (by rewrite <- app_assoc).
  pose proof (IH (pred <$> cancel) _ c' t K2 K3 Hnd ltac:(congruence)) as Hi.
  destruct (create_captures rest _ (c', t)) as [[u'|e|msg] [c2 t2]]; [|done|done].
  destruct Hi as (I1 & I2 & I3 & known & I4 & I5 & I6). do 3 (split; [done|]).
  exists ((h, pos, ty) :: known). rewrite <- app_assoc in I4.
  split; [done|]. split; [by apply prefix_cons|]. intros ->. f_equal. by apply I6.
Qed.

Lemma begin_session_ok b cancel t :
  TaskOk t -> step_ok (bool_decide (cancel = None)) (begin_session (E:=E) b cancel t).
Proof.
  intros [H1 H2]. unfold begin_session, in_session, emit, hbind, hget. cbn [snd hlog hmod log].
  rewrite H1. cbn [hlog hmod].
  set (t' := log (AEvent CaptureEnabled) t).
  change (ct_captures (snd (capture_new b, t'))) with (ct_captures t).
  assert (registered [] (capture_new b)) as Hr.
  { intros h pos. cbn. rewrite lookup_empty. split; [done|].
    intros [ty Hin]. by apply not_elem_of_nil in Hin. }
  pose proof (create_captures_ok cancel (ct_captures t) [] (capture_new b) t' (capture_new_ok b) Hr H2 eq_refl) as Hk.
  destruct (create_captures (ct_captures t) cancel (capture_new b, t')) as [[u|e|msg] [c' t'']].
  - destruct Hk as (K1 & K2 & -> & known & K3 & [tail K4] & K5).
    split; [by split|done| |unfold pending_known; by rewrite K2].
    exists known. split; [done|]. split; [cbn; rewrite K4; set_solver|]. intros ?%bool_decide_eq_true. by apply K5.
  - apply end_session_ok. by rewrite Hk.
  - done.
Qed.

Lemma known_registered whole c t h :
  SessionOk whole c t -> is_Some (ic_id_map c !! h) -> h ∈ handles (ct_captures t).
Proof.
  intros [_ _ (known & Hr & Hsub & _) _] Hh%(registered_handles _ _ _ Hr).
  apply elem_of_handles in Hh as (pos & ty & Hin). apply elem_of_handles. eauto.
Qed.

Lemma session_poll_ok whole c t : SessionOk whole c t -> step_ok whole (session_poll (E:=E) drain (c, t)).
Proof.
  intros Hok. pose proof Hok as [S1 S2 S3 S4]. unfold session_poll.
  destruct (capture_poll_ok c S2 S4) as (r & c' & -> & K1 & K2 & K3 & K4 & K5).
  assert (SessionOk whole c' t) as Hs.
  { split; [done|done| |done]. unfold registered. rewrite K3. exact S3. }
  destruct r as [|[[[h ev]|e]|]]; [exact Hs| |by apply end_session_ok..].
  apply in_session_calm; [exact Hs|]. apply calm_handle_event; [apply S1|].
  apply find_capture_registered, (known_registered _ _ _ _ Hok). by eapply K5.
Qed.

Lemma handle_conn_event_calm whole c t h e : SessionOk whole c t -> calm (c, t) (handle_conn_event (E:=E) drain h e).
Proof.
  intros [S1 _ _ _]. pose proof (to_open _ S1) as Ho. unfold handle_conn_event.
  apply calm_bind; [by apply calm_mod|]. intros _.
  apply calm_bind; [apply calm_get|]. intros active.
  case_match; [apply calm_ret|].
  destruct e; try apply calm_ret.
  - by apply calm_release.
  - by apply calm_mod.
  - by apply calm_emit.
  - apply calm_bind; [apply calm_get|]. intros epoch.
    apply calm_bind; [by apply calm_when, calm_release|]. intros _. by apply calm_emit.
  - apply calm_bind; [by apply calm_when, calm_emit|]. intros _.
    apply calm_bind; [by apply calm_release|]. intros _.
    apply calm_bind; [apply calm_send|]. intros _. apply calm_ret.
Qed.

Lemma session_request_ok whole r c t : SessionOk whole c t -> legal_request r (MSession c) t ->
  step_ok whole (in_session (E:=E) (session_request drain r) (c, t)).
Proof.
  intros Hs Hl. pose proof Hs as [[S0 S1] S2 (known & S3 & Hsub & Hall) S4]. destruct r as [completion|h p ty|h| |bind|h]; cbn in Hl.
  - apply in_session_calm; [done|]. intros w Hw. cbn [session_request]. unfold session_release.
    assert (calm (c, t) (hbind (hmod (fun t => t <| ct_gate := cgate_clear (ct_gate t) |>))
      (fun _ => release_capture (E:=E) drain ServiceRequested))) as Hq.
    { apply calm_bind; [by apply calm_mod|]. intros _. by apply calm_release. }
    specialize (Hq w Hw). destruct (hbind _ _ w) as [[u|e|msg] [c' t']]; try done;
      destruct completion; cbn; try done; destruct Hq; by split.
  - cbn [session_request]. unfold in_session, hbind, hmod, hcap.
    assert (h ∉ handles known) as Hh.
    { intros (pos & ty' & Hin)%elem_of_handles. apply Hl, elem_of_handles. eauto. }
    pose proof (capture_create_registered h p ty c _ S2 S3 Hh) as Hk.
    destruct (capture_create h p c) as [[u|e|msg] c']; destruct Hk as (K1 & K2 & K3 & K4 & K5).
    + split; [by apply add_capture_nodup|done| |unfold pending_known; rewrite K4;
        eapply Forall_impl; [exact S4|]; intros e; apply K5].
      exists (known ++ [(h, p, ty)]). split; [done|]. cbn. split; [set_solver|]. intros Hw. by rewrite Hall.
    + apply end_session_ok. by apply add_capture_nodup.
    + by eapply K1.
  - destruct Hl as [Hl1 Hl2]. cbn [session_request]. unfold in_session, hbind, hmod, hcap.
    apply (registered_handles _ c _ S3) in Hl1.
    pose proof (capture_destroy_registered h c _ S2 S3 Hl1 Hl2 S4) as Hk.
    destruct (capture_destroy h c) as [[u|e|msg] c']; destruct Hk as (K1 & K2 & K3 & K4).
    + split; [by apply remove_capture_nodup|done| |done].
      eexists. split; [exact K3|]. cbn. split; [|intros Hw; by rewrite Hall].
      intros x. rewrite !list_elem_of_In, !List.filter_In, <- !list_elem_of_In. set_solver.
    + apply end_session_ok. by apply remove_capture_nodup.
    + by eapply K1.
  - by apply in_session_calm, calm_ret.
  - apply in_session_calm; [done|]. by apply calm_mod.
  - destruct Hl as [pos Hpos].
    apply in_session_calm; [done|]. intros w Hw. cbn [session_request]. unfold hbind, hcap.
    destruct w as [c1 t1]. unfold capture_resume. destruct Hw as [H1 H2 H3 H4 H5]. cbn in *.
    rewrite H3, Hpos. destruct (cb_call _ c1) as [r c2] eqn:Ec.
    apply cb_call_frame in Ec as (F1 & F2 & F3 & _ & F5).
    destruct r as [b|e|msg]; [split; cbn; congruence..|by eapply F5].
Qed.

Lemma ModeOk_weaken whole b (m : Mode (B:=B)) t : ModeOk whole m t -> ModeOk (whole && b) m t.
Proof.
  destruct m; try done. intros [H1 H2 (known & H3 & H4 & H5) H6]. split; try done.
  exists known. split; [done|]. split; [done|]. intros [? _]%andb_true_iff. by apply H5.
Qed.

Lemma task_step_ok whole i m t : ModeOk whole m t -> legal i m t ->
  step_ok (whole && negb (halfway i)) (task_step (E:=E) drain instant_max i m t).
Proof.
  intros Hm Hl.
  assert (forall r, step_ok whole r -> step_ok (whole && negb (halfway i)) r) as Hweak.
  { intros [[m'| |] t']; [|done..]. apply ModeOk_weaken. }
  destruct i as [[b|u] n| |h e|r| |o]; destruct m as [|c| |]; cbn [task_step]; try (apply Hweak; exact Hm).
  - pose proof (begin_session_ok b n t Hm) as Hb. destruct n; cbn [halfway negb].
    + rewrite andb_false_r. exact Hb.
    + rewrite andb_true_r. destruct (begin_session b None t) as [[m'| |] t']; [|done..].
      destruct whole; [exact Hb|]. by apply (ModeOk_weaken true false).
  - by apply Hweak, session_poll_ok.
  - apply Hweak, in_session_calm; [done|]. by eapply handle_conn_event_calm.
  - by apply Hweak, session_request_ok.
  - apply Hweak. destruct r as [[]|h p ty|h| |bind|h]; cbn in *; try exact Hm; try (by destruct Hm).
    + by apply add_capture_nodup.
    + by apply remove_capture_nodup.
  - apply Hweak, end_session_ok, Hm.
  - apply Hweak. destruct Hm; by split.
  - apply Hweak. destruct Hm as [[] ? ? ?]; by split; try done; split.
  - apply Hweak. destruct Hm; by split.
  - apply Hweak. destruct Hm; by split.
Qed.

(** Every input of the run is legal when it comes. *)
Fixpoint legal_run (inputs : list (TaskInput (B:=B))) (m : Mode) t : Prop :=
  match inputs with
  | [] => True
  | i :: rest => legal i m t /\
      match task_step (E:=E) drain instant_max i m t with
      | (Ret m', t') => legal_run rest m' t'
      | _ => True
      end
  end.

(** C23: the capture task does not panic in a run of legal inputs, whatever the
    backend, the peers and the environment do.  Legal means: a created handle
    is fresh; in a session, a destroyed or resumed handle is known to the
    backend and no event of a destroyed handle is waiting
    ([destroyed_handle_panics] shows the panic otherwise).  Throughout, the
    backend knows only handles of the task, each at its edge, and events wait
    only for known handles; it knows all of them in a run in which the creation
    of the barriers is never cancelled half way ([cancelled_creation_panics]
    shows what a request can do after such a cancellation). *)
Theorem task_never_panics whole inputs m t : ModeOk whole m t -> legal_run inputs m t ->
  exists m', fst (task_run (E:=E) drain instant_max inputs m t) = Ret m'
    /\ ModeOk (whole && forallb (fun i => negb (halfway i)) inputs) m'
         (snd (task_run (E:=E) drain instant_max inputs m t)).
Proof.
  revert whole m t. induction inputs as [|i rest IH]; intros whole m t Hm Hl.
  { exists m. split; [done|]. by apply (ModeOk_weaken whole true). }
  destruct Hl as [Hi Hl]. pose proof (task_step_ok whole i m t Hm Hi) as Hs. unfold step_ok in Hs.
  cbn [task_run forallb]. rewrite andb_assoc.
  destruct (task_step drain instant_max i m t) as [[m'|e|msg] t']; try done.
  by apply IH.
Qed.
End runs.

(** ** Releasing a capture *)

Section release.
Context {E B W : Type} {HB : CaptureBackend E B} {HW : CaptureEnv W}.
Variable drain : gset Linux -> list Linux.
Implicit Types (c : InputCapture B) (t : TaskState W).

(** The record of sending the events to the peer. *)
Definition sent (h : N) (es : list ProtoEvent) (oks : list bool) : list Action :=
  zip_with (fun e r => ASend h e r) es oks.

Lemma hbind_Ret {A C} (m : handler (E:=E) (B:=B) (W:=W) A) (k : A -> handler C) w a w' :
  m w = (Ret a, w') -> hbind m k w = k a w'.
Proof. unfold hbind. by intros ->. Qed.

Lemma send_all_spec h es c t : exists oks env, length oks = length es
  /\ send_all (E:=E) es h (c, t)
     = (Ret tt, (c, t <| ct_env := env |> <| ct_trace := ct_trace t ++ sent h es oks |>)).
Proof.
  revert t. induction es as [|e es IH]; intros t.
  { exists [], (ct_env t). split; [done|]. cbn. rewrite app_nil_r. by destruct t. }
  cbn [send_all]. unfold hbind, conn_send. destruct (ce_send e h (ct_env t)) as [r env].
  destruct (IH (log (ASend h e r) (t <| ct_env := env |>))) as (oks & env' & Hl & ->).
  exists (r :: oks), env'. split; [cbn; by f_equal|]. cbn. by rewrite <- app_assoc.
Qed.

(** C22: Releasing a capture restores local input before anything else: the
    native release is the first action.  When it succeeds, the peer that was
    active is then sent a key-up for every key still held, a modifier reset and
    [Leave], the service is told last, and this holds whether or not the sends
    succeed; no key stays held.  When it fails, nothing else happens, but the
    peer is no longer active in either case. *)
Theorem release_local_first reason c t : (forall X, drain X ≡ₚ elements X) -> ct_open t = true ->
  match release_capture (E:=E) drain reason (c, t) with
  | (Ret _, (c', t')) => ct_active_client t' = None /\ ic_pressed_keys c' = ∅
      /\ (exists keys oks, keys ≡ₚ elements (ic_pressed_keys c) /\ ct_trace t' = ct_trace t ++ AReleased true ::
          match ct_active_client t with
          | Some h => sent h (map key_up keys ++ [mods_zero; Leave 0]) oks ++ [AEvent (ClientReleased h reason)]
          | None => []
          end /\ length oks = length keys + 2)
  | (Throw e, (_, t')) => fst (cb_release (ic_capture c)) = inr e
      /\ ct_active_client t' = None /\ ct_trace t' = ct_trace t ++ [AReleased false]
  | (Panic _, _) => False
  end.
Proof.
  intros Hd Ho. unfold release_capture.
  erewrite hbind_Ret by reflexivity. erewrite hbind_Ret by reflexivity. cbn [snd].
  set (active := ct_active_client t). set (t1 := t <| ct_active_client := None |>).
  set (c1 := if bool_decide (is_Some active) then snd (take_pressed_keys c) else c).
  set (keys := if bool_decide (is_Some active) then ic_pressed_keys c else ∅).
  rewrite (hbind_Ret _ _ _ keys (c1, t1)) by (subst c1 keys; by destruct (bool_decide _)).
  unfold hbind at 1, native_release, capture_release, cb_call.
  replace (ic_capture (c1 <| ic_pressed_keys := ∅ |>)) with (ic_capture c)
    by (subst c1; by destruct (bool_decide _)).
  destruct (cb_release (ic_capture c)) as [[[]|e] b]; [|done].
  destruct active as [h|] eqn:Ea.
  - erewrite hbind_Ret by reflexivity.
    match goal with |- context [hbind (send_all _ h) _ (?x, ?y)] => set (c2 := x); set (t2 := y) end.
    destruct (send_all_spec h (map key_up (drain keys)) c2 t2) as (oks1 & env1 & Hl1 & H1).
    rewrite (hbind_Ret _ _ _ _ _ H1).
    match type of H1 with _ = (_, (_, ?y)) => set (t3 := y) end.
    destruct (send_all_spec h [mods_zero; Leave 0] c2 t3) as (oks2 & env2 & Hl2 & H2).
    rewrite (hbind_Ret _ _ _ _ _ H2). unfold emit. erewrite hbind_Ret by reflexivity. cbn. rewrite Ho. cbn.
    split; [done|]. split; [done|].
    exists (drain keys), (oks1 ++ oks2). rewrite length_map in Hl1. split; [apply Hd|].
    split; [|rewrite length_app; cbn in Hl2; lia].
    unfold sent. rewrite zip_with_app by (by rewrite length_map). by rewrite <- !app_assoc.
  - split; [done|]. split; [done|].
    exists (drain (ic_pressed_keys c)), (replicate (length (drain (ic_pressed_keys c)) + 2) true).
    split; [apply Hd|]. by rewrite length_replicate.
Qed.
End release.

(** ** A scripted environment *)

(** A backend that plays a script, and peers and a service that agree to
    everything, at a fixed time. *)
Definition Script : Type := list (Poll (option ((CapturePosition * CaptureEvent) + unit))).

#[global] Instance script_backend : CaptureBackend unit Script := {
  cb_create _ b := (inl tt, b);
  cb_destroy _ b := (inl tt, b);
  cb_release b := (inl tt, b);
  cb_resume_if_focused _ b := (inl true, b);
  cb_terminate b := (inl tt, b);
  cb_poll b := match b with [] => (Pending, []) | r :: rest => (r, rest) end }.

#[global] Instance agreeing_env : CaptureEnv N := {
  ce_send _ _ w := (true, w);
  ce_decide _ _ w := (true, w);
  ce_now w := w }.

Definition script_run (inputs : list (TaskInput (B:=Script))) : exec unit Mode * TaskState N :=
  task_run elements 1000000 inputs MCreating (task_new [L_KeyLeftCtrl] 0%N).

Definition begins (pos : CapturePosition) : Poll (option ((CapturePosition * CaptureEvent) + unit)) :=
  Ready (Some (inl (pos, Begin))).

(** A client that was active when a session ended stays active through
    the service's release request and the restart: its next crossing is
    forwarded without a permit and without asking the service, although after
    the end of the session no permit was armed or granted. *)
Theorem restart_bypasses_permit :
  exists before after,
    ct_trace (snd (script_run
      [ICreated (inl [begins CLeft; Ready None]) None; IRequest (RqCreate 1 CLeft CDefault);
       IService (SvArm 1 1 7 1000 0); IPoll; IPoll; IService SvClear; IRequest (RqRelease true);
       IRequest RqReenable; ICreated (inl [begins CLeft]) None; IPoll]))
    = before ++ AEvent CaptureDisabled :: ACompleted true :: after
    /\ grants after = [] /\ ASend 1 (Enter PosRight) true ∈ after.
Proof.
  eexists [_; _; _; _; _; _], _. split; [vm_compute; reflexivity|].
  split; [reflexivity|]. do 2 right. by left.
Qed.

(** An event that waits for a handle survives the destruction of the
    handle and then ends the task with a panic: two handles share an edge, one
    is destroyed between the deliveries of one event. *)
Theorem destroyed_handle_panics :
  fst (script_run
    [ICreated (inl [begins CLeft]) None; IRequest (RqCreate 1 CLeft CDefault);
     IRequest (RqCreate 2 CLeft CEnterOnly); IPoll; IRequest (RqDestroy 2); IPoll])
  = Panic "no such capture".
Proof. vm_compute. reflexivity. Qed.

(** When the creation of the barriers is cancelled, the session still begins,
    and its next request may come before the cancellation is noticed again: the
    destruction of a capture that was not created ends the task with a panic. *)
Theorem cancelled_creation_panics :
  fst (script_run
    [ICreated (inl []) None; IRequest (RqCreate 1 CLeft CDefault); ICancel; IRequest RqReenable;
     ICreated (inl []) (Some 0); IRequest (RqDestroy 1)])
  = Panic "no position for this handle".
Proof. vm_compute. reflexivity. Qed.

(** The claims above at concrete runs. *)
Lemma release_local_first_witness :
  let t := (task_new (W:=N) [] 0%N) <| ct_active_client := Some 3%N |> in
  match release_capture (E:=unit) elements PeerLeft
    (mkCapture (B:=Script) [] {[L_KeyLeftCtrl]} ∅ ∅ [], t) with
  | (Ret _, (_, t')) => ct_active_client t' = None
  | _ => False
  end.
Proof.
  intros t. pose proof (release_local_first (E:=unit) (B:=Script) elements PeerLeft
    (mkCapture (B:=Script) [] {[L_KeyLeftCtrl]} ∅ ∅ []) t (fun X => reflexivity _) eq_refl) as H.
  destruct (release_capture _ _ _) as [[u|e|msg] [c' t']]; [apply H|destruct H as [H _]; discriminate H|done].
Defined.

Lemma task_never_panics_witness :
  exists m', fst (script_run
    [ICreated (inl [begins CLeft; Ready None]) None; IRequest (RqCreate 1 CLeft CDefault); IPoll;
     IRequest (RqDestroy 1)]) = Ret m'.
Proof.
  destruct (task_never_panics (E:=unit) (B:=Script) (W:=N) elements 1000000 true
    [ICreated (inl [begins CLeft; Ready None]) None; IRequest (RqCreate 1 CLeft CDefault); IPoll;
     IRequest (RqDestroy 1)] MCreating (task_new [L_KeyLeftCtrl] 0%N)) as (m' & H & _).
  - split; [reflexivity|constructor].
  - cbn [legal_run]. split; [exact I|]. vm_compute. split; [by intros ?%not_elem_of_nil|].
    split; [exact I|]. split; [split; [by eexists|constructor]|exact I].
  - exists m'. exact H.
Defined.
