(* ===== verification/Clients.v ===== *)
(** * The clients (lan-mouse/src/client.rs, lan-mouse-ipc/src/lib.rs)

    Configuration and state of the peers this host can send its input to.  The
    table is a slab: an insertion takes a vacant key, which is an argument
    here, and its iteration order is a parameter.  [local_commit] is the commit
    this program was built from. *)

From stdpp Require Import base tactics list gmap sets strings.
From Stdlib Require Import NArith ZArith Lia Strings.Byte.
From S2P Require Import Prelude Domain SwitchGate CaptureTask.

(** Only equality of IP addresses matters. *)
Abbreviation IpAddr := N (only parsing).

Record SocketAddr := mkAddr { sa_ip : IpAddr; sa_port : N }.
#[global] Instance SocketAddr_eq_dec : EqDecision SocketAddr.
Proof. solve_decision. Defined.
#[global] Instance SocketAddr_countable : Countable SocketAddr.
Proof.
  refine (inj_countable' (fun a => (sa_ip a, sa_port a)) (fun p => mkAddr (fst p) (snd p)) _).
  by intros [].
Defined.

#[global] Instance IpcPosition_eq_dec : EqDecision IpcPosition.
Proof. solve_decision. Defined.

Definition DEFAULT_PORT : N := 4242.

Record ClientConfig := mkClientConfig {
  cc_hostname : option string;
  cc_fix_ips : list IpAddr;
  cc_port : N;
  cc_pos : IpcPosition;
  cc_switch_target : option SwitchHost }.
#[global] Instance ClientConfig_eta : RecordEta ClientConfig := fun c =>
  mkClientConfig (cc_hostname c) (cc_fix_ips c) (cc_port c) (cc_pos c) (cc_switch_target c).

(** [ClientConfig::default] *)
Definition client_config_default : ClientConfig := mkClientConfig None [] DEFAULT_PORT ILeft None.

Record ClientState := mkClientState {
  cs_active : bool;
  cs_active_addr : option SocketAddr;
  cs_alive : bool;
  cs_keyboard_ready : bool;
  cs_pointer_ready : bool;
  cs_peer_session_epoch : N;
  cs_dns_ips : list IpAddr;
  cs_ips : gset N;
  cs_has_pressed_keys : bool;
  cs_resolving : bool;
  cs_peer_commit : option (list byte) }.
#[global] Instance ClientState_eta : RecordEta ClientState := fun s =>
  mkClientState (cs_active s) (cs_active_addr s) (cs_alive s) (cs_keyboard_ready s)
    (cs_pointer_ready s) (cs_peer_session_epoch s) (cs_dns_ips s) (cs_ips s)
    (cs_has_pressed_keys s) (cs_resolving s) (cs_peer_commit s).

(** The derived [ClientState::default]. *)
Definition client_state_default : ClientState :=
  mkClientState false None false false false 0 [] ∅ false false None.

(** [ConfigClient] of config.rs *)
Record ConfigClient := mkConfigClient {
  fc_ips : gset N;
  fc_hostname : option string;
  fc_port : N;
  fc_pos : IpcPosition;
  fc_active : bool;
  fc_switch_target : option SwitchHost }.

Abbreviation Clients := (gmap N (ClientConfig * ClientState)) (only parsing).

Section clients.
Variable local_commit : list byte.

(** The iteration orders of a set of addresses and of the slab. *)
Variable ip_iter : gset N -> list N.
Variable slab_iter : Clients -> list (N * (ClientConfig * ClientState)).
Implicit Types (m : Clients) (handle : N).

Definition update_client (handle : N) (f : ClientConfig * ClientState -> ClientConfig * ClientState) m : Clients :=
  alter f handle m.

(** ** Queries *)

(** The free function [peer_protocol_compatible]. *)
Definition state_compatible (s : ClientState) : bool :=
  bool_decide (cs_peer_commit s = Some local_commit).

(** [clients] *)
Definition all_clients m : list (ClientConfig * ClientState) := map snd (slab_iter m).

(** [get_client] *)
Definition get_client (addr : SocketAddr) m : option N :=
  fst <$> List.find (fun '(_, (_, s)) => cs_active s && bool_decide (sa_ip addr ∈ cs_ips s)) (slab_iter m).

(** [client_at] *)
Definition client_at (pos : IpcPosition) m : option N :=
  fst <$> List.find (fun '(_, (c, s)) => cs_active s && bool_decide (cc_pos c = pos)) (slab_iter m).

(** [get_hostname] *)
Definition get_hostname handle m : option string := m !! handle ≫= fun cs => cc_hostname (fst cs).

(** [get_pos] *)
Definition client_pos handle m : option IpcPosition := (fun cs => cc_pos (fst cs)) <$> m !! handle.

(** [get_state] *)
Definition get_state handle m : option (ClientConfig * ClientState) := m !! handle.

(** [get_client_states] *)
Definition get_client_states m : list (N * (ClientConfig * ClientState)) := slab_iter m.

(** [switch_target] *)
Definition switch_target handle m : option SwitchHost := m !! handle ≫= fun cs => cc_switch_target (fst cs).

(** [registered_clients] *)
Definition registered_clients m : list N := map fst (slab_iter m).

(** [active_clients] *)
Definition active_clients m : list N :=
  map fst (List.filter (fun '(_, (_, s)) => cs_active s) (slab_iter m)).

(** [peer_input_readiness] *)
Definition peer_input_readiness handle m : option (bool * bool * bool * N) :=
  (fun '(_, s) =>
     let compatible := state_compatible s in
     (cs_alive s, compatible && cs_keyboard_ready s, compatible && cs_pointer_ready s,
      cs_peer_session_epoch s)) <$> m !! handle.

(** The method [peer_protocol_compatible]. *)
Definition peer_protocol_compatible handle m : bool :=
  match m !! handle with Some (_, s) => state_compatible s | None => false end.

(** [active_addr] *)
Definition active_addr handle m : option SocketAddr := m !! handle ≫= fun cs => cs_active_addr (snd cs).

(** [alive] *)
Definition client_alive handle m : bool := default false ((fun cs => cs_alive (snd cs)) <$> m !! handle).

(** [get_port] *)
Definition get_port handle m : option N := (fun cs => cc_port (fst cs)) <$> m !! handle.

(** [get_ips] *)
Definition get_ips handle m : option (gset N) := (fun cs => cs_ips (snd cs)) <$> m !! handle.

(** ** Updates *)

(** [add_client]; [handle] is the vacant key the slab picks. *)
Definition add_client handle m : Clients :=
  <[handle := (client_config_default, client_state_default)]> m.

(** [set_config] *)
Definition set_config handle (config : ClientConfig) m : Clients :=
  update_client handle (fun '(_, s) => (config, s)) m.

(** [set_state] *)
Definition set_state handle (state : ClientState) m : Clients :=
  update_client handle (fun '(c, _) => (c, state)) m.

(** [add_with_config] *)
Definition add_with_config handle (cc : ConfigClient) m : Clients :=
  let config := mkClientConfig (fc_hostname cc) (ip_iter (fc_ips cc)) (fc_port cc) (fc_pos cc)
                  (fc_switch_target cc) in
  let state := client_state_default <| cs_active := fc_active cc |>
                 <| cs_ips := list_to_set (cc_fix_ips config) |> in
  set_state handle state (set_config handle config (add_client handle m)).

(** [activate_client] *)
Definition activate_client handle m : bool * Clients :=
  match m !! handle with
  | Some (c, s) => if negb (cs_active s) then (true, <[handle := (c, s <| cs_active := true |>)]> m) else (false, m)
  | None => (false, m)
  end.

(** [deactivate_client] *)
Definition deactivate_client handle m : bool * Clients :=
  match m !! handle with
  | Some (c, s) => if cs_active s then (true, <[handle := (c, s <| cs_active := false |>)]> m) else (false, m)
  | None => (false, m)
  end.

(** [remove_client] *)
Definition remove_client handle m : option (ClientConfig * ClientState) * Clients :=
  (m !! handle, delete handle m).

(** [update_ips] *)
Definition update_ips handle m : Clients :=
  update_client handle (fun '(c, s) =>
    (c, s <| cs_ips := list_to_set (cc_fix_ips c ++ cs_dns_ips s) |>)) m.

(** [set_fix_ips] *)
Definition set_fix_ips handle (fix_ips : list IpAddr) m : Clients :=
  update_ips handle (update_client handle (fun '(c, s) => (c <| cc_fix_ips := fix_ips |>, s)) m).

(** [set_dns_ips] *)
Definition set_dns_ips handle (dns_ips : list IpAddr) m : Clients :=
  update_ips handle (update_client handle (fun '(c, s) => (c, s <| cs_dns_ips := dns_ips |>)) m).

(** [set_hostname] *)
Definition set_hostname handle (hostname : option string) m : bool * Clients :=
  match m !! handle with
  | None => (false, m)
  | Some (c, s) =>
      if negb (bool_decide (cc_hostname c = hostname)) then
        (true, update_ips handle
           (<[handle := (c <| cc_hostname := hostname |>,
                         s <| cs_active_addr := None |> <| cs_dns_ips := [] |>)]> m))
      else (false, m)
  end.

(** [set_port] *)
Definition set_port handle (port : N) m : Clients :=
  update_client handle (fun '(c, s) =>
    if negb (cc_port c =? port)%N then
      (c <| cc_port := port |>,
       s <| cs_active_addr := (fun a => mkAddr (sa_ip a) port) <$> cs_active_addr s |>)
    else (c, s)) m.

(** [set_pos] *)
Definition set_pos handle (pos : IpcPosition) m : bool * Clients :=
  match m !! handle with
  | Some (c, s) =>
      if negb (bool_decide (cc_pos c = pos)) then
        (cs_active s, <[handle := (c <| cc_pos := pos |>, s)]> m)
      else (false, m)
  | None => (false, m)
  end.

(** [set_switch_target] *)
Definition set_switch_target handle (target : option SwitchHost) m : Clients :=
  update_client handle (fun '(c, s) => (c <| cc_switch_target := target |>, s)) m.

(** [set_resolving] *)
Definition set_resolving handle (status : bool) m : Clients :=
  update_client handle (fun '(c, s) => (c, s <| cs_resolving := status |>)) m.

(** [set_active_addr] *)
Definition set_active_addr handle (addr : option SocketAddr) m : Clients :=
  update_client handle (fun '(c, s) => (c, s <| cs_active_addr := addr |>)) m.

(** [set_alive] *)
Definition set_alive handle (alive : bool) m : Clients :=
  update_client handle (fun '(c, s) => (c, s <| cs_alive := alive |>)) m.

(** [set_peer_commit] *)
Definition set_peer_commit handle (commit : option (list byte)) m : bool * Clients :=
  match m !! handle with
  | None => (false, m)
  | Some (c, s) =>
      if bool_decide (cs_peer_commit s = commit) then (false, m)
      else (true, <[handle := (c, s <| cs_peer_commit := commit |>)]> m)
  end.

(** [set_peer_readiness] *)
Definition set_peer_readiness handle (keyboard_ready pointer_ready : bool) (session_epoch : N) m
  : bool * Clients :=
  match m !! handle with
  | None => (false, m)
  | Some (c, s) =>
      if (session_epoch =? 0)%N && (keyboard_ready || pointer_ready) then (false, m)
      else (true, <[handle := (c, s <| cs_keyboard_ready := keyboard_ready |>
                                    <| cs_pointer_ready := pointer_ready |>
                                    <| cs_peer_session_epoch := session_epoch |>)]> m)
  end.

(** [clear_peer_readiness] *)
Definition clear_peer_readiness handle m : Clients :=
  update_client handle (fun '(c, s) =>
    (c, s <| cs_keyboard_ready := false |> <| cs_pointer_ready := false |>
          <| cs_peer_session_epoch := 0%N |>)) m.
End clients.

(** * What holds of every client

    The addresses a peer may use are those of its configuration and of its last
    name resolution, and a peer without a session has no input ready, whatever
    operations the service and the connections perform. *)

Definition ClientOk (cs : ClientConfig * ClientState) : Prop :=
  let '(c, s) := cs in
  cs_ips s = list_to_set (cc_fix_ips c ++ cs_dns_ips s)
  /\ (cs_peer_session_epoch s = 0%N -> cs_keyboard_ready s = false /\ cs_pointer_ready s = false).

Definition ClientsOk (m : Clients) : Prop := map_Forall (fun _ => ClientOk) m.

Section clients.
Variable local_commit : list byte.
Variable ip_iter : gset N -> list N.

(** One operation of the client manager. *)
Inductive client_step (m : Clients) : Clients -> Prop :=
| cstep_add h : client_step m (add_client h m)
| cstep_add_with_config h cc : client_step m (add_with_config ip_iter h cc m)
| cstep_activate h : client_step m (snd (activate_client h m))
| cstep_deactivate h : client_step m (snd (deactivate_client h m))
| cstep_remove h : client_step m (snd (remove_client h m))
| cstep_fix_ips h ips : client_step m (set_fix_ips h ips m)
| cstep_dns_ips h ips : client_step m (set_dns_ips h ips m)
| cstep_hostname h name : client_step m (snd (set_hostname h name m))
| cstep_port h port : client_step m (set_port h port m)
| cstep_pos h pos : client_step m (snd (set_pos h pos m))
| cstep_switch_target h target : client_step m (set_switch_target h target m)
| cstep_resolving h status : client_step m (set_resolving h status m)
| cstep_active_addr h addr : client_step m (set_active_addr h addr m)
| cstep_alive h alive : client_step m (set_alive h alive m)
| cstep_commit h commit : client_step m (snd (set_peer_commit h commit m))
| cstep_readiness h k p e : client_step m (snd (set_peer_readiness h k p e m))
| cstep_clear h : client_step m (clear_peer_readiness h m).

Inductive clients_reachable : Clients -> Prop :=
| creach_empty : clients_reachable ∅
| creach_step m m' : clients_reachable m -> client_step m m' -> clients_reachable m'.

Lemma ok_alter h f m : (forall cs, ClientOk cs -> ClientOk (f cs)) -> ClientsOk m -> ClientsOk (update_client h f m).
Proof.
  intros Hf Hm h' cs. unfold update_client. destruct (decide (h = h')) as [<-|Hne].
  - rewrite lookup_alter_eq. destruct (m !! h) as [x|] eqn:E; [|done]. cbn. intros [= <-]. apply Hf. by apply (Hm h).
  - rewrite lookup_alter_ne by done. apply Hm.
Qed.

Lemma ok_insert h cs m : ClientOk cs -> ClientsOk m -> ClientsOk (<[h := cs]> m).
Proof. intros Hcs Hm. by apply map_Forall_insert_2. Qed.

(** Refreshing the addresses restores their part of the invariant. *)
Lemma ok_update_ips h m :
  (forall h' cs, m !! h' = Some cs -> h' <> h -> ClientOk cs) ->
  (forall c s, m !! h = Some (c, s) ->
     cs_peer_session_epoch s = 0%N -> cs_keyboard_ready s = false /\ cs_pointer_ready s = false) ->
  ClientsOk (update_ips h m).
Proof.
  intros Hother Hh h' cs. unfold update_ips, update_client. destruct (decide (h = h')) as [<-|Hne].
  - rewrite lookup_alter_eq. destruct (m !! h) as [[c s]|] eqn:E; [|done]. cbn. intros [= <-]. split; [done|].
    by apply (Hh c s).
  - rewrite lookup_alter_ne by done. intros H. by apply (Hother h' cs).
Qed.

Lemma ok_refreshed h f m : ClientsOk m ->
  (forall c s, ClientOk (c, s) -> cs_peer_session_epoch (snd (f (c, s))) = cs_peer_session_epoch s
     /\ cs_keyboard_ready (snd (f (c, s))) = cs_keyboard_ready s /\ cs_pointer_ready (snd (f (c, s))) = cs_pointer_ready s) ->
  ClientsOk (update_ips h (update_client h f m)).
Proof.
  intros Hm Hf. apply ok_update_ips; unfold update_client.
  - intros h' cs. intros H Hne. rewrite lookup_alter_ne in H by done. by apply (Hm h').
  - intros c s H. rewrite lookup_alter_eq in H. destruct (m !! h) as [[c0 s0]|] eqn:E; [|done]. cbn in H.
    injection H as H. pose proof (Hm h _ E) as Hok. destruct (Hf c0 s0 Hok) as (E1 & E2 & E3).
    rewrite H in *. cbn in *. rewrite E1, E2, E3. apply Hok.
Qed.

Lemma client_step_ok m m' : ClientsOk m -> client_step m m' -> ClientsOk m'.
Proof.
  intros Hm Hstep. destruct Hstep.
  - by apply ok_insert.
  - unfold add_with_config, set_state, set_config.
    intros h' cs. unfold update_client. destruct (decide (h = h')) as [<-|Hne].
    + unfold add_client. rewrite !lookup_alter_eq, lookup_insert_eq. cbn. intros [= <-]. cbn. by rewrite app_nil_r.
    + unfold add_client. rewrite !lookup_alter_ne, lookup_insert_ne by done. apply Hm.
  - unfold activate_client. destruct (m !! h) as [[c s]|] eqn:E; [|done]. destruct (negb _); [|done].
    apply ok_insert; [|done]. exact (Hm h _ E).
  - unfold deactivate_client. destruct (m !! h) as [[c s]|] eqn:E; [|done]. destruct (cs_active s); [|done].
    apply ok_insert; [|done]. exact (Hm h _ E).
  - by apply map_Forall_delete.
  - apply ok_refreshed; [done|]. by intros c s.
  - apply ok_refreshed; [done|]. by intros c s.
  - unfold set_hostname. destruct (m !! h) as [[c s]|] eqn:E; [|done]. destruct (negb _); [|done]. cbn.
    apply ok_update_ips.
    + intros h' cs H Hne. rewrite lookup_insert_ne in H by done. by apply (Hm h').
    + intros c' s' H. rewrite lookup_insert_eq in H. injection H as <- <-. apply (Hm h _ E).
  - apply ok_alter; [|done]. intros [c s] Hok. by destruct (negb _).
  - unfold set_pos. destruct (m !! h) as [[c s]|] eqn:E; [|done]. destruct (negb _); [|done]. cbn.
    apply ok_insert; [|done]. exact (Hm h _ E).
  - apply ok_alter; [|done]. by intros [c s].
  - apply ok_alter; [|done]. by intros [c s].
  - apply ok_alter; [|done]. by intros [c s].
  - apply ok_alter; [|done]. by intros [c s].
  - unfold set_peer_commit. destruct (m !! h) as [[c s]|] eqn:E; [|done]. case_bool_decide; [done|]. cbn.
    apply ok_insert; [|done]. exact (Hm h _ E).
  - unfold set_peer_readiness. destruct (m !! h) as [[c s]|] eqn:E; [|done].
    destruct ((e =? 0)%N && (k || p)) eqn:Er; [done|]. cbn. apply ok_insert; [|done].
    destruct (Hm h _ E) as [H1 H2]. split; [done|]. cbn. intros ->. by destruct k, p.
  - apply ok_alter; [|done]. intros [c s] [H1 H2]. by split.
Qed.

(** Whatever the service and the connections do with the clients, the
    addresses of each client are those configured and those resolved last, and
    a peer without a session has neither keyboard nor pointer ready; so a peer
    that counts as ready has the revision of this program, a session, and both
    inputs announced in it. *)
Theorem clients_well_formed m : clients_reachable m ->
  ClientsOk m
  /\ forall h online k p e, peer_input_readiness local_commit h m = Some (online, k, p, e) -> k || p = true ->
     peer_protocol_compatible local_commit h m = true /\ e <> 0%N.
Proof.
  intros Hm. assert (ClientsOk m) as Hok.
  { induction Hm as [|m m' Hm IH Hs]; [by apply map_Forall_empty|]. by eapply client_step_ok. }
  split; [done|]. intros h online k p e. unfold peer_input_readiness, peer_protocol_compatible.
  destruct (m !! h) as [[c s]|] eqn:E; [|done]. cbn. intros [= <- <- <- <-] Hready.
  destruct (state_compatible local_commit s); [|done]. split; [done|]. intros He.
  destruct (Hok h _ E) as [_ H]. destruct (H He) as [Hk Hp]. rewrite Hk, Hp in Hready. done.
Qed.
End clients.

(** A peer that is configured, resolved and announces its inputs. *)
Definition demo_clients : Clients :=
  snd (set_peer_readiness 0 true true 7 (snd (set_peer_commit 0 (Some [x01])
    (set_dns_ips 0 [5%N] (add_client 0 ∅))))).

Lemma clients_well_formed_witness : peer_input_readiness [x01] 0 demo_clients = Some (false, true, true, 7%N)
  /\ peer_protocol_compatible [x01] 0 demo_clients = true /\ 7%N <> 0%N.
Proof.
  split; [vm_compute; reflexivity|].
  apply (proj2 (clients_well_formed [x01] elements demo_clients
    (creach_step elements _ _ (creach_step elements _ _ (creach_step elements _ _
      (creach_step elements _ _ (creach_empty elements) (cstep_add elements _ 0%N))
      (cstep_dns_ips elements _ 0%N [5%N])) (cstep_commit elements _ 0%N (Some [x01])))
      (cstep_readiness elements _ 0%N true true 7%N))) 0%N false true true 7%N); vm_compute; reflexivity.
Defined.
