(* ===== verification/Service.v ===== *)
(** * The service (lan-mouse/src/service.rs)

    The service owns the clients, the bundle lease and the edge gate, and
    connects the other tasks: it answers the capture task, runs one operation
    of the switch controller at a time, and follows the peers' readiness.  An
    event is handled to the end before the next one is taken.

    Calls to the other tasks are written to the list of outputs, in order; a
    decision is written with the request it answers and whether the capture
    task still waits for it.
    Those to the capture and emulation tasks [expect] an open channel: the model
    is of a service whose capture and emulation tasks have not ended.
    Readings of the controller clock and of the monotonic clock, and whether
    the clipboard task accepts a hook, are streams that the state carries.  A
    spawned operation is recorded with what it was started for. *)

From stdpp Require Import base tactics list gmap sets strings.
From Stdlib Require Import NArith ZArith Lia Strings.Byte.
From S2P Require Import Prelude Domain SwitchGate SwitchClient ClipTypes Scancode CaptureTask Clients.

(** ** Messages *)

(** [ServiceHook] of clipboard.rs, as far as the service sends it. *)
Inductive ServiceHook :=
| HookBegin (t : ClipboardTransitionId) (target : SwitchHost)
| HookCaptureProvisional
| HookActivate (t : ClipboardTransitionId)
| HookCancel (t : ClipboardTransitionId) (reason : ClipboardReason)
| HookCancelCurrent (reason : ClipboardReason).

Inductive EmulationCall :=
| EmReenable
| EmRelease (addr : SocketAddr) (release_epoch : N)
| EmChangePort (port : N).

Inductive FrontendEvent :=
| FeCreated (handle : N) (c : ClientConfig) (s : ClientState)
| FeNoSuchClient (handle : N)
| FeState (handle : N) (c : ClientConfig) (s : ClientState)
| FeDeleted (handle : N)
| FePortChanged (port : N) (error : option string)
| FeEnumerate (clients : list (N * (ClientConfig * ClientState)))
| FeError (message : string)
| FeCaptureStatus (enabled : bool)
| FeEmulationStatus (enabled : bool)
| FeAuthorizedUpdated (keys : gmap string string)
| FePublicKeyFingerprint (fingerprint : string)
| FeDeviceConnected (addr : SocketAddr) (fingerprint : string)
| FeDeviceEntered (fingerprint : string) (addr : SocketAddr) (pos : IpcPosition)
| FeIncomingDisconnected (addr : SocketAddr)
| FeConnectionAttempt (fingerprint : string).

Inductive FrontendRequest :=
| FrActivate (handle : N) (active : bool)
| FrCreate
| FrChangePort (port : N)
| FrDelete (handle : N)
| FrEnumerate
| FrResolveDns (handle : N)
| FrUpdateHostname (handle : N) (hostname : option string)
| FrUpdatePort (handle port : N)
| FrUpdatePosition (handle : N) (pos : IpcPosition)
| FrUpdateFixIps (handle : N) (ips : list N)
| FrEnableCapture
| FrEnableEmulation
| FrSync
| FrAuthorizeKey (desc fp : string)
| FrRemoveAuthorizedKey (fp : string)
| FrUpdateSwitchTarget (handle : N) (target : option SwitchHost)
| FrSaveConfiguration.

(** [EmulationEvent] of emulation.rs; the failure of a port change is its text,
    and [ReleaseCapture] carries a completion. *)
Inductive EmulationEvent :=
| EeConnected (addr : SocketAddr) (fingerprint : string)
| EeConnectionAttempt (fingerprint : string)
| EeEntered (addr : SocketAddr) (pos : IpcPosition) (fingerprint : string)
| EeDisconnected (addr : SocketAddr)
| EePortChanged (r : N + string)
| EeEmulationDisabled (session_epoch : N)
| EeEmulationEnabled (keyboard_ready pointer_ready : bool) (session_epoch : N)
| EeReleaseCapture
| EePeerHello (addr : SocketAddr) (commit : list byte)
| EeReleaseAcknowledged (addr : SocketAddr) (release_epoch : N).

(** [DnsEvent] of dns.rs; a failed resolution is [None]. *)
Inductive DnsEvent :=
| DnsResolving (handle : N)
| DnsResolved (handle : N) (hostname : string) (ips : option (list N)).

(** What the spawned operation was started for. *)
Inductive SwitchTaskKind :=
| TkPrepare (context : GateContext) (readiness : PeerBundleReadiness)
| TkCommit (context : GateContext) (grant : GateGrantIdentity)
| TkRenewal (context : GateContext)
| TkCleanup (context : GateContext) (reason : string) (readiness : option PeerBundleReadiness)
| TkManualRecovery (target : SwitchHost) (reason detail : string).

Record SwitchTask := mkSwitchTask { st_epoch : N; st_kind : SwitchTaskKind }.

Inductive ServiceOut :=
| OCapture (c : ServiceCall)
| OEmulation (c : EmulationCall)
| OHook (h : ServiceHook) (accepted : bool)
| OClipboardRestart
| OClipboardShutdown
| OCaptureTerminate
| OControllerCancel (context : GateContext) (reason : string)
| OEmulationTerminate
| OResolverTerminate
| ONotify (target : option SwitchHost) (reason : string) (detail : option string)
| OFrontend (e : FrontendEvent)
| OSpawn (t : SwitchTask)
| OAbort (t : SwitchTask)
| OResolve (handle : N) (hostname : string)
| ODecision (handle lease_epoch : N) (authorized waiting : bool)
| OSaveConfig (clients : list ConfigClient) (authorized : gmap string string).

(** ** State *)

(** What the service asks of a [SwitchController], its clock apart. *)
Record ControllerInfo := mkController {
  ci_local_host : SwitchHost;
  ci_server_host : SwitchHost;
  ci_lease_ttl_ms : N;
  ci_edge_double_tap_timeout : N }.

Record Incoming := mkIncoming {
  in_fingerprint : string;
  in_addr : SocketAddr;
  in_pos : IpcPosition }.

Record Service := mkService {
  sv_clients : Clients;
  sv_port : N;
  sv_authorized_keys : gmap string string;
  sv_capture_status : bool;
  sv_emulation_status : bool;
  sv_incoming_conns : gset SocketAddr;
  sv_incoming_conn_info : gmap N Incoming;
  sv_next_trigger_handle : N;
  sv_bundle_lease : BundleLeaseManager;
  sv_edge_intent_gate : option EdgeIntentGate;
  sv_switch_controller : option ControllerInfo;
  sv_switch_deadline : option N;
  sv_switch_task : option SwitchTask;
  sv_next_switch_task_epoch : N;
  sv_active_switch_capture : option (N * N);
  sv_pending_switch_cleanup : option (GateContext * string);
  sv_next_release_epoch : N;
  sv_pending_clipboard_fallback : option (N * N);
  sv_clock : nat -> N;        (* readings of the controller clock to come *)
  sv_instants : nat -> N;     (* readings of [Instant::now] to come *)
  sv_hooks : nat -> bool;     (* whether the coming hooks are accepted *)
  sv_out : list ServiceOut }.

#[global] Instance Service_eta : RecordEta Service := fun s =>
  mkService (sv_clients s) (sv_port s) (sv_authorized_keys s) (sv_capture_status s)
    (sv_emulation_status s) (sv_incoming_conns s) (sv_incoming_conn_info s)
    (sv_next_trigger_handle s) (sv_bundle_lease s) (sv_edge_intent_gate s)
    (sv_switch_controller s) (sv_switch_deadline s) (sv_switch_task s)
    (sv_next_switch_task_epoch s) (sv_active_switch_capture s) (sv_pending_switch_cleanup s)
    (sv_next_release_epoch s) (sv_pending_clipboard_fallback s) (sv_clock s) (sv_instants s)
    (sv_hooks s) (sv_out s).

(** A method: its result and the state it leaves, or a panic. *)
Definition svc (A : Type) : Type := Service -> exec Empty_set (A * Service).

#[global] Instance svc_ret : MRet svc := fun A a s => Ret (a, s).
#[global] Instance svc_bind : MBind svc := fun A C k m s => let* (a, s) := m s in k a s.

Definition get {A} (f : Service -> A) : svc A := fun s => Ret (f s, s).
Definition modify (f : Service -> Service) : svc unit := fun s => Ret (tt, f s).
Definition panics {A} (msg : string) : svc A := fun _ => Panic msg.
Definition out (o : ServiceOut) : svc unit := modify (fun s => s <| sv_out := sv_out s ++ [o] |>).
Definition when (b : bool) (m : svc unit) : svc unit := if b then m else mret tt.

(** Reading a clock. *)
Definition read_clock : svc N := fun s =>
  Ret (sv_clock s 0, s <| sv_clock := fun n => sv_clock s (S n) |>).
Definition instant_now : svc N := fun s =>
  Ret (sv_instants s 0, s <| sv_instants := fun n => sv_instants s (S n) |>).

(** [ClipboardHandle::try_send] *)
Definition hook (h : ServiceHook) : svc bool := fun s =>
  Ret (sv_hooks s 0, s <| sv_hooks := fun n => sv_hooks s (S n) |>
                       <| sv_out := sv_out s ++ [OHook h (sv_hooks s 0)] |>).

Definition notify_frontend (e : FrontendEvent) : svc unit := out (OFrontend e).
Definition switch_failed (target : option SwitchHost) (reason : string) : svc unit :=
  out (ONotify target reason None).
Definition switch_failed_with_detail (target : option SwitchHost) (reason detail : string) : svc unit :=
  out (ONotify target reason (Some detail)).
Definition capture_call (c : ServiceCall) : svc unit := out (OCapture c).

(** The [Display] of [GateError]. *)
Definition gate_error_text (e : GateError) : string :=
  match e with
  | GateBusy => "input bundle is already reserved"
  | GatePeerNotReady => "peer keyboard and pointer bundle is not ready"
  | GateInvalidIdentity => "request or lease identity is invalid"
  | GateStaleIdentity => "request, lease, or grant identity is stale"
  | GateExpired => "bundle lease or grant expired"
  | GateInvalidState => "gate transition is not valid in the current state"
  end.

(** [server_edge_intent_gate] *)
Definition server_edge_intent_gate (controller : option ControllerInfo) : option EdgeIntentGate :=
  match controller with
  | Some c => if bool_decide (ci_local_host c = ci_server_host c)
              then Some (edge_new (ci_edge_double_tap_timeout c)) else None
  | None => None
  end.

(** [Service::ENTER_HANDLE_BEGIN], that is [u64::MAX / 2 + 1] *)
Definition ENTER_HANDLE_BEGIN : N := (u64_max / 2 + 1)%N.

Section service.
Variable local_commit : list byte.
Variable ip_iter : gset N -> list N.
Variable slab_iter : Clients -> list (N * (ClientConfig * ClientState)).
Variable info_iter : gmap N Incoming -> list (N * Incoming).
Variable instant_max : N.
Variable public_key_fingerprint : string.
Context {ReqError JsonError : Type}.
Variables (req_is_timeout req_is_connect : ReqError -> bool).
Abbreviation ClientError := (SwitchClientError (ReqError:=ReqError) (JsonError:=JsonError)).
Variable error_text : ClientError -> string.

(** ** Switch operations *)

(** [controller_now_ms] *)
Definition controller_now_ms : svc N :=
  c ← get sv_switch_controller;
  match c with Some _ => read_clock | None => mret u64_max end.

(** [reset_switch_deadline]; the deadline is the length of the sleep. *)
Definition reset_switch_deadline : svc unit :=
  m ← get sv_bundle_lease;
  match gate_deadline_ms m with
  | None => modify (fun s => s <| sv_switch_deadline := None |>)
  | Some deadline_ms =>
      now_ms ← controller_now_ms;
      modify (fun s => s <| sv_switch_deadline := Some (deadline_ms - now_ms)%N |>)
  end.

(** [peer_readiness] *)
Definition readiness_of (handle : N) (m : Clients) : option PeerBundleReadiness :=
  (fun '(online, keyboard_ready, pointer_ready, session_epoch) =>
     mkBundleReadiness online keyboard_ready pointer_ready session_epoch)
  <$> peer_input_readiness local_commit handle m.
Definition peer_readiness (handle : N) : svc (option PeerBundleReadiness) :=
  get (fun s => readiness_of handle (sv_clients s)).

Definition pb_ready (r : PeerBundleReadiness) : bool :=
  pb_online r && pb_keyboard_ready r && pb_pointer_ready r.

(** [finish_switch_task] *)
Definition finish_switch_task (task_epoch : N) : svc bool :=
  t ← get sv_switch_task;
  if negb (bool_decide (st_epoch <$> t = Some task_epoch)) then mret false
  else modify (fun s => s <| sv_switch_task := None |>);; mret true.

(** [cancel_switch_task] *)
Definition cancel_switch_task : svc unit :=
  t ← get sv_switch_task;
  match t with
  | Some t => modify (fun s => s <| sv_switch_task := None |>);; out (OAbort t)
  | None => mret tt
  end.

(** [begin_switch_task] *)
Definition begin_switch_task : svc (option N) :=
  t ← get sv_switch_task;
  match t with
  | Some _ => mret None
  | None =>
      n ← get sv_next_switch_task_epoch;
      match checked_add n 1 with
      | None => panics "switch task epoch exhausted"
      | Some epoch => modify (fun s => s <| sv_next_switch_task_epoch := epoch |>);; mret (Some epoch)
      end
  end.

(** [spawn_local] and the assignment of [switch_task]. *)
Definition spawn_switch_task (epoch : N) (kind : SwitchTaskKind) : svc unit :=
  out (OSpawn (mkSwitchTask epoch kind));;
  modify (fun s => s <| sv_switch_task := Some (mkSwitchTask epoch kind) |>).

(** The common shape of [start_prepare_task], [start_commit_task] and
    [start_renewal_task]. *)
Definition start_switch_task (kind : SwitchTaskKind) : svc bool :=
  c ← get sv_switch_controller;
  match c with
  | None => mret false
  | Some _ =>
      e ← begin_switch_task;
      match e with
      | None => mret false
      | Some epoch => spawn_switch_task epoch kind;; mret true
      end
  end.

(** [start_prepare_task] *)
Definition start_prepare_task (context : GateContext) (readiness : PeerBundleReadiness) : svc bool :=
  start_switch_task (TkPrepare context readiness).

(** [start_commit_task] *)
Definition start_commit_task (context : GateContext) (grant : GateGrantIdentity) : svc bool :=
  start_switch_task (TkCommit context grant).

(** [start_renewal_task] *)
Definition start_renewal_task (context : GateContext) : svc bool :=
  start_switch_task (TkRenewal context).

(** [start_cleanup_task] *)
Definition start_cleanup_task (context : GateContext) (reason : string) : svc unit :=
  readiness ← peer_readiness (gc_handle context);
  start_switch_task (TkCleanup context reason readiness);; mret tt.

(** [arm_manual_recovery_then_notify] *)
Definition arm_manual_recovery_then_notify (target : SwitchHost) (reason detail : string) : svc unit :=
  started ← start_switch_task (TkManualRecovery target reason detail);
  if started : bool then mret tt else switch_failed_with_detail (Some target) reason detail.

(** ** Failing closed *)

(** [self.bundle_lease.invalidate()] *)
Definition invalidate_lease : svc (option GateContext) :=
  m ← get sv_bundle_lease;
  let '(c, m) := gate_invalidate m in
  modify (fun s => s <| sv_bundle_lease := m |>);; mret c.

(** The context is the current one up to its expiry. *)
Definition is_current (context : GateContext) (m : BundleLeaseManager) : bool :=
  match gate_context m with Some current => same_identity current context | None => false end.

Definition notify_failure (context : GateContext) (reason : string) (detail : option string) : svc unit :=
  match detail with
  | Some detail => switch_failed_with_detail (Some (gc_target context)) reason detail
  | None => switch_failed (Some (gc_target context)) reason
  end.

(** The steps that [fail_context_inner] and
    [defer_failure_until_capture_release] share. *)
Definition close_gate (context : GateContext) : svc unit :=
  hook (HookCancel (TrOutgoing (gl_lease_epoch (gc_lease context))) Canceled);;
  m ← get sv_bundle_lease;
  when (is_current context m) (invalidate_lease;; mret tt);;
  capture_call (CallDisarm (gl_lease_epoch (gc_lease context)));;
  cancel_switch_task;;
  modify (fun s => s <| sv_switch_deadline := None |>).

(** [fail_context_inner] *)
Definition fail_context_inner (context : GateContext) (reason : string) (detail : option string) : svc unit :=
  close_gate context;;
  notify_failure context reason detail;;
  active ← get sv_active_switch_capture;
  if bool_decide (active = Some (gc_handle context, gl_lease_epoch (gc_lease context))) then
    modify (fun s => s <| sv_pending_switch_cleanup := Some (context, reason) |>);;
    capture_call (CallRelease false)
  else start_cleanup_task context reason.

(** [fail_context] and [fail_context_with_detail] *)
Definition fail_context (context : GateContext) (reason : string) : svc unit :=
  fail_context_inner context reason None.
Definition fail_context_with_detail (context : GateContext) (reason detail : string) : svc unit :=
  fail_context_inner context reason (Some detail).

(** [fail_gate] and [fail_gate_with_detail] *)
Definition fail_gate (reason : string) : svc unit :=
  c ← invalidate_lease;
  match c with Some context => fail_context context reason | None => mret tt end.
Definition fail_gate_with_detail (reason detail : string) : svc unit :=
  c ← invalidate_lease;
  match c with Some context => fail_context_with_detail context reason detail | None => mret tt end.

(** [defer_failure_until_capture_release] *)
Definition defer_failure_until_capture_release (context : GateContext) (reason : string) : svc unit :=
  close_gate context;;
  modify (fun s => s <| sv_pending_switch_cleanup := Some (context, reason) |>);;
  switch_failed (Some (gc_target context)) reason.

(** [release_gate_after_capture] *)
Definition release_gate_after_capture (reason : string) (failure : bool) : svc unit :=
  c ← invalidate_lease;
  match c with
  | None => mret tt
  | Some context =>
      hook (HookCancel (TrOutgoing (gl_lease_epoch (gc_lease context))) Canceled);;
      cancel_switch_task;;
      modify (fun s => s <| sv_switch_deadline := None |>);;
      when failure (switch_failed (Some (gc_target context)) reason);;
      start_cleanup_task context reason
  end.

(** [complete_pending_switch_cleanup] *)
Definition complete_pending_switch_cleanup : svc unit :=
  p ← get sv_pending_switch_cleanup;
  match p with
  | Some (context, reason) =>
      modify (fun s => s <| sv_pending_switch_cleanup := None |>);;
      start_cleanup_task context reason
  | None => mret tt
  end.

(** Completes a pending cleanup, or else does [m]. *)
Definition complete_or (m : svc unit) : svc unit :=
  p ← get sv_pending_switch_cleanup;
  if bool_decide (is_Some p) then complete_pending_switch_cleanup else m.

(** ** A switch from start to end *)

(** [peer_failure_detail] *)
Definition peer_failure_detail (handle : N) (r : PeerBundleReadiness) (m : Clients) : string * string :=
  if negb (pb_online r) then
    ("peer_offline",
     "No lan-mouse heartbeat was received; the target may be asleep, stopped, or unreachable")
  else if negb (peer_protocol_compatible local_commit handle m) then
    ("peer_revision_mismatch", "The target lan-mouse revision does not match the server")
  else if (pb_session_epoch r =? 0)%N then
    ("peer_readiness_handshake_missing",
     "The target did not publish a current input-readiness session")
  else match pb_keyboard_ready r, pb_pointer_ready r with
  | false, false => ("peer_input_unavailable",
                     "The target keyboard and pointer emulation backends are unavailable")
  | false, true => ("peer_keyboard_unavailable", "The target keyboard emulation backend is unavailable")
  | true, false => ("peer_pointer_unavailable", "The target pointer emulation backend is unavailable")
  | true, true => ("peer_bundle_not_ready", "The target input bundle changed during reservation")
  end.

(** The error branch of the reservation in [handle_capture_candidate]. *)
Definition reservation_failed (handle : N) (target : SwitchHost) (r : PeerBundleReadiness)
    (error : GateError) : svc unit :=
  m ← get sv_clients;
  let '(reason, detail) :=
    match error with
    | GatePeerNotReady => peer_failure_detail handle r m
    | GateBusy => ("controller_busy", "Another switch operation is already active")
    | GateExpired => ("local_lease_expired", "The local keyboard and pointer lease expired")
    | GateInvalidIdentity | GateStaleIdentity | GateInvalidState =>
        ("local_gate_race",
         ("A stale or conflicting local gate transition was rejected: " ++ gate_error_text error)%string)
    end in
  match error with
  | GatePeerNotReady => arm_manual_recovery_then_notify target reason detail
  | _ => switch_failed_with_detail (Some target) reason detail
  end.

(** The edge gate asks for a second touch; [true] when the switch may go on. *)
Definition edge_confirms (handle : N) (target : SwitchHost) (readiness : option PeerBundleReadiness) : svc bool :=
  g ← get sv_edge_intent_gate;
  match g with
  | None => mret true
  | Some gate =>
      now ← instant_now;
      let key := mkEdgeKey handle target (match readiness with Some r => pb_session_epoch r | None => 0%N end) in
      let '(decision, gate) := edge_candidate instant_max key now gate in
      modify (fun s => s <| sv_edge_intent_gate := Some gate |>);;
      mret (bool_decide (decision = Confirmed))
  end.

(** [handle_capture_candidate]; the random identities are arguments. *)
Definition handle_capture_candidate (handle : N) (request_id lease_id : string) : svc unit :=
  t ← get (fun s => switch_target handle (sv_clients s));
  match t with
  | None => switch_failed None "switch_target_not_configured"
  | Some target =>
  c ← get sv_switch_controller;
  if match c with Some c => bool_decide (target = ci_server_host c) | None => false end then mret tt else
  match c with
  | None => switch_failed (Some target) "switch_controller_not_configured"
  | Some controller =>
  task ← get sv_switch_task;
  if match task with Some _ => true | None => false end then mret tt else
  readiness ← peer_readiness handle;
  confirmed ← edge_confirms handle target readiness;
  if negb confirmed then mret tt else
  match readiness with
  | None => arm_manual_recovery_then_notify target "peer_missing" "The target lan-mouse peer is unavailable"
  | Some r =>
  now_ms ← read_clock;
  lease ← get sv_bundle_lease;
  let '(reserved, lease) := gate_reserve handle target request_id lease_id (pb_session_epoch r)
    (pb_ready r && negb (pb_session_epoch r =? 0)%N) now_ms (ci_lease_ttl_ms controller) lease in
  modify (fun s => s <| sv_bundle_lease := lease |>);;
  match reserved with
  | inr error => reservation_failed handle target r error
  | inl context =>
      hook (HookBegin (TrOutgoing (gl_lease_epoch (gc_lease context))) (gc_target context));;
      reset_switch_deadline;;
      started ← start_prepare_task context r;
      when (negb started) (fail_context context "controller_busy")
  end end end end.

(** The part of [handle_prepared] after the grant was armed: the permit. *)
Definition arm_capture (context : GateContext) (grant : GateGrantIdentity) : svc unit :=
  c ← get sv_switch_controller;
  match c with
  | None => fail_context context "controller_missing_after_grant"
  | Some controller =>
      if bool_decide (gc_target context = ci_server_host controller) then
        started ← start_commit_task context grant;
        when (negb started) (fail_context context "commit_task_busy")
      else
        now_ms ← read_clock;
        lease ← get sv_bundle_lease;
        match gate_deadline_ms lease with
        | None => fail_context context "grant_deadline_missing"
        | Some deadline_ms =>
            match checked_sub deadline_ms now_ms with
            | None => fail_context context "grant_expired_before_arm"
            | Some valid_for_ms =>
                if (valid_for_ms =? 0)%N then fail_context context "grant_expired_before_arm"
                else
                  now ← instant_now;
                  capture_call (CallArm (gc_handle context) (gl_lease_epoch (gc_lease context))
                    (gl_peer_session_epoch (gc_lease context)) valid_for_ms now)
            end
        end
  end.

(** [handle_prepared] *)
Definition handle_prepared (context : GateContext) (result : PreparedGrant + ClientError) : svc unit :=
  m ← get sv_bundle_lease;
  if negb (is_current context m) then mret tt else
  match result with
  | inr error =>
      let '(reason, detail) :=
        notification_detail req_is_timeout req_is_connect error_text "TV switch preparation failed" error in
      fail_gate_with_detail reason detail
  | inl prepared =>
      readiness ← peer_readiness (gc_handle context);
      match readiness with
      | None => fail_context context "peer_missing_before_grant"
      | Some r =>
          now_ms ← controller_now_ms;
          let '(armed, m) := gate_arm_grant context (pg_request_epoch prepared) (pg_grant_epoch prepared)
            (pg_lease_expires_at_ms prepared) (pg_grant_expires_at_ms prepared)
            (pb_ready r) (pb_session_epoch r) now_ms m in
          modify (fun s => s <| sv_bundle_lease := m |>);;
          match armed with
          | inr error =>
              fail_context_with_detail context "grant_rejected_locally"
                ("A stale, conflicting, or expired TV grant was rejected: " ++ gate_error_text error)%string
          | inl (context, grant) => reset_switch_deadline;; arm_capture context grant
          end
      end
  end.

(** [authorize_client_enter] *)
Definition authorize_client_enter (handle lease_epoch permit_peer_session_epoch : N) : svc bool :=
  m ← get sv_bundle_lease;
  match gate_context m with
  | None => mret false
  | Some context =>
      if negb (bool_decide (gc_handle context = handle))
         || negb (bool_decide (gl_lease_epoch (gc_lease context) = lease_epoch))
         || negb (bool_decide (gl_peer_session_epoch (gc_lease context) = permit_peer_session_epoch))
      then defer_failure_until_capture_release context "capture_permit_stale";; mret false
      else
      readiness ← peer_readiness handle;
      match readiness with
      | None => defer_failure_until_capture_release context "peer_missing_before_commit";; mret false
      | Some r =>
          now_ms ← controller_now_ms;
          let '(committed, m) := gate_commit handle lease_epoch (pb_ready r) (pb_session_epoch r) now_ms m in
          modify (fun s => s <| sv_bundle_lease := m |>);;
          match committed with
          | inl (context, grant) =>
              hook (HookActivate (TrOutgoing (gl_lease_epoch (gc_lease context))));;
              reset_switch_deadline;;
              started ← start_commit_task context grant;
              if negb started then
                defer_failure_until_capture_release context "commit_task_busy";; mret false
              else mret true
          | inr _ => defer_failure_until_capture_release context "capture_commit_rejected";; mret false
          end
      end
  end.

(** [self.bundle_lease.renew(...)] with the peer's current readiness. *)
Definition renew_lease (context : GateContext) (renewed_until_ms : N) (r : PeerBundleReadiness)
    (now_ms : N) : svc (unit + GateError) :=
  m ← get sv_bundle_lease;
  let '(result, m) := gate_renew (gl_request_id (gc_lease context)) renewed_until_ms
    (pb_ready r) (pb_session_epoch r) now_ms m in
  modify (fun s => s <| sv_bundle_lease := m |>);; mret result.

(** [handle_committed] *)
Definition handle_committed (context : GateContext) (result : N + ClientError) : svc unit :=
  m ← get sv_bundle_lease;
  if negb (is_current context m) then mret tt else
  match result with
  | inr error =>
      let '(reason, detail) :=
        notification_detail req_is_timeout req_is_connect error_text "Input commit failed" error in
      fail_gate_with_detail reason detail
  | inl renewed_until_ms =>
      c ← get sv_switch_controller;
      match c with
      | None => fail_context context "controller_missing_after_commit"
      | Some controller =>
          if bool_decide (gc_target context = ci_server_host controller) then
            invalidate_lease;; modify (fun s => s <| sv_switch_deadline := None |>)
          else
          readiness ← peer_readiness (gc_handle context);
          match readiness with
          | None => fail_context context "peer_missing_after_commit"
          | Some r =>
              now_ms ← read_clock;
              renewed ← renew_lease context renewed_until_ms r now_ms;
              match renewed with
              | inr _ => fail_context context "commit_ack_rejected"
              | inl _ =>
                  reset_switch_deadline;;
                  current ← get (fun s => gate_context (sv_bundle_lease s));
                  match current with
                  | None => panics "renewed lease has context"
                  | Some context =>
                      started ← start_renewal_task context;
                      when (negb started) (fail_context context "renewal_task_busy")
                  end
              end
          end
      end
  end.

(** [handle_renewed] *)
Definition handle_renewed (task_epoch : N) (context : GateContext) (result : N + ClientError) : svc unit :=
  m ← get sv_bundle_lease;
  if negb (is_current context m) then cancel_switch_task else
  match result with
  | inr error =>
      finish_switch_task task_epoch;;
      let '(reason, detail) :=
        notification_detail req_is_timeout req_is_connect error_text "Input lease renewal failed" error in
      fail_gate_with_detail reason detail
  | inl renewed_until_ms =>
      readiness ← peer_readiness (gc_handle context);
      match readiness with
      | None => finish_switch_task task_epoch;; fail_context context "peer_missing_during_renewal"
      | Some r =>
          now_ms ← controller_now_ms;
          renewed ← renew_lease context renewed_until_ms r now_ms;
          match renewed with
          | inr _ => finish_switch_task task_epoch;; fail_context context "renewal_ack_rejected"
          | inl _ => reset_switch_deadline
          end
      end
  end.

(** [handle_peer_readiness_change] *)
Definition handle_peer_readiness_change (handle : N) : svc unit :=
  m ← get sv_bundle_lease;
  match gate_context m with
  | Some context =>
      if negb (bool_decide (gc_handle context = handle)) then mret tt else
      readiness ← peer_readiness handle;
      match readiness with
      | None => fail_context context "peer_removed"
      | Some r =>
          when (negb (pb_online r) || negb (pb_keyboard_ready r) || negb (pb_pointer_ready r)
                || negb (bool_decide (pb_session_epoch r = gl_peer_session_epoch (gc_lease context))))
            (fail_context context "peer_readiness_lost")
      end
  | None => mret tt
  end.

(** [handle_switch_deadline] *)
Definition handle_switch_deadline : svc unit :=
  modify (fun s => s <| sv_switch_deadline := None |>);;
  now_ms ← controller_now_ms;
  m ← get sv_bundle_lease;
  let '(expired, m) := gate_expire now_ms m in
  modify (fun s => s <| sv_bundle_lease := m |>);;
  match expired with
  | Some context => fail_context context "local_lease_expired"
  | None => reset_switch_deadline
  end.

Inductive SwitchTaskEvent :=
| SePrepared (task_epoch : N) (context : GateContext) (result : PreparedGrant + ClientError)
| SeCommitted (task_epoch : N) (context : GateContext) (grant : GateGrantIdentity) (result : N + ClientError)
| SeRenewed (task_epoch : N) (context : GateContext) (result : N + ClientError)
| SeCleanupFinished (task_epoch : N) (request_id : string) (result : unit + ClientError)
| SeManualRecoveryArmed (task_epoch : N) (target : SwitchHost) (reason detail : string)
    (result : unit + ClientError).

(** [handle_switch_task_event] *)
Definition handle_switch_task_event (e : SwitchTaskEvent) : svc unit :=
  match e with
  | SePrepared epoch context result =>
      ok ← finish_switch_task epoch; when ok (handle_prepared context result)
  | SeCommitted epoch context _ result =>
      ok ← finish_switch_task epoch; when ok (handle_committed context result)
  | SeRenewed epoch context result =>
      t ← get sv_switch_task;
      when (bool_decide (st_epoch <$> t = Some epoch)) (handle_renewed epoch context result)
  | SeCleanupFinished epoch _ _ => finish_switch_task epoch;; mret tt
  | SeManualRecoveryArmed epoch target reason detail result =>
      ok ← finish_switch_task epoch;
      when ok
        (let detail := match result with
                       | inl _ => detail
                       | inr error => (detail ++ ". Manual OLED recovery could not be authorized: "
                                         ++ error_text error)%string
                       end in
         switch_failed_with_detail (Some target) reason detail)
  end.

(** ** Clients and their barriers *)

Definition with_clients {A} (f : Clients -> A * Clients) : svc A :=
  m ← get sv_clients;
  let '(a, m) := f m in
  modify (fun s => s <| sv_clients := m |>);; mret a.
Definition update_clients (f : Clients -> Clients) : svc unit :=
  modify (fun s => s <| sv_clients := f (sv_clients s) |>).
Definition update_edge (f : EdgeIntentGate -> EdgeIntentGate) : svc unit :=
  modify (fun s => s <| sv_edge_intent_gate := f <$> sv_edge_intent_gate s |>).

(** [broadcast_client] *)
Definition broadcast_client (handle : N) : svc unit :=
  m ← get sv_clients;
  notify_frontend (match get_state handle m with
                   | Some (c, s) => FeState handle c s
                   | None => FeNoSuchClient handle
                   end).

(** [resolve] *)
Definition resolve (handle : N) : svc unit :=
  m ← get sv_clients;
  match get_hostname handle m with Some hostname => out (OResolve handle hostname) | None => mret tt end.

(** [Service::deactivate_client] *)
Definition service_deactivate (handle : N) : svc unit :=
  update_edge (edge_remove handle);;
  was ← with_clients (deactivate_client handle);
  when was (capture_call (CallDestroy handle);; broadcast_client handle).

(** [Service::activate_client] *)
Definition service_activate (handle : N) : svc unit :=
  resolve handle;;
  m ← get sv_clients;
  match client_pos handle m with
  | None => mret tt
  | Some pos =>
      match client_at slab_iter pos m with
      | Some other => when (negb (other =? handle)%N) (service_deactivate other)
      | None => mret tt
      end;;
      was ← with_clients (activate_client handle);
      when was (capture_call (CallCreate handle pos CDefault);; broadcast_client handle)
  end.

(** [set_client_active] *)
Definition set_client_active (handle : N) (active : bool) : svc unit :=
  if active then service_activate handle else service_deactivate handle.

(** [Service::add_client]; [key] is the slab's vacant key. *)
Definition service_add_client (key : N) : svc unit :=
  update_clients (add_client key);;
  m ← get sv_clients;
  match get_state key m with
  | Some (c, s) => notify_frontend (FeCreated key c s)
  | None => panics "called `Option::unwrap()` on a `None` value"
  end.

(** [Service::remove_client] *)
Definition service_remove_client (handle : N) : svc unit :=
  update_edge (edge_remove handle);;
  removed ← with_clients (remove_client handle);
  when (match removed with Some (_, s) => cs_active s | None => false end) (capture_call (CallDestroy handle));;
  notify_frontend (FeDeleted handle).

(** [update_fix_ips], [update_hostname], [update_port] *)
Definition update_fix_ips (handle : N) (ips : list N) : svc unit :=
  update_clients (set_fix_ips handle ips);; broadcast_client handle.
Definition update_hostname (handle : N) (hostname : option string) : svc unit :=
  changed ← with_clients (set_hostname handle hostname);
  when changed (resolve handle);; broadcast_client handle.
Definition update_port (handle port : N) : svc unit :=
  update_clients (set_port handle port);; broadcast_client handle.

(** [update_pos] *)
Definition update_pos (handle : N) (pos : IpcPosition) : svc unit :=
  update_edge (edge_remove handle);;
  changed ← with_clients (set_pos handle pos);
  when changed (service_deactivate handle;; service_activate handle);;
  broadcast_client handle.

(** [update_switch_target] *)
Definition update_switch_target (handle : N) (target : option SwitchHost) : svc unit :=
  update_edge (edge_remove handle);;
  update_clients (set_switch_target handle target);; broadcast_client handle.

(** [add_incoming]; the arithmetic wraps. *)
Definition add_incoming (addr : SocketAddr) (pos : IpcPosition) (fingerprint : string) : svc unit :=
  n ← get sv_next_trigger_handle;
  let handle := ((ENTER_HANDLE_BEGIN + n) mod 2 ^ 64)%N in
  modify (fun s => s <| sv_next_trigger_handle := ((n + 1) mod 2 ^ 64)%N |>);;
  capture_call (CallCreate handle pos CEnterOnly);;
  modify (fun s => s <| sv_incoming_conns := sv_incoming_conns s ∪ {[addr]} |>
    <| sv_incoming_conn_info := <[handle := mkIncoming fingerprint addr pos]> (sv_incoming_conn_info s) |>).

Definition find_incoming (addr : SocketAddr) (m : gmap N Incoming) : option (N * Incoming) :=
  List.find (fun '(_, i) => bool_decide (in_addr i = addr)) (info_iter m).

(** [remove_incoming] *)
Definition remove_incoming (addr : SocketAddr) : svc (option SocketAddr) :=
  m ← get sv_incoming_conn_info;
  match find_incoming addr m with
  | None => mret None
  | Some (handle, _) =>
      capture_call (CallDestroy handle);;
      modify (fun s => s <| sv_incoming_conns := sv_incoming_conns s ∖ {[addr]} |>
        <| sv_incoming_conn_info := delete handle (sv_incoming_conn_info s) |>);;
      mret (in_addr <$> m !! handle)
  end.

(** [update_incoming] *)
Definition update_incoming (addr : SocketAddr) (pos : IpcPosition) (fingerprint : string) : svc unit :=
  m ← get sv_incoming_conn_info;
  match find_incoming addr m with
  | None => panics "no such client"
  | Some (handle, i) =>
      let changed := negb (bool_decide (in_fingerprint i = fingerprint)) || negb (bool_decide (in_pos i = pos)) in
      modify (fun s => s <| sv_incoming_conn_info :=
        <[handle := mkIncoming fingerprint (in_addr i) pos]> (sv_incoming_conn_info s) |>);;
      when changed
        (remove_incoming addr;; add_incoming addr pos fingerprint;;
         notify_frontend (FeIncomingDisconnected addr);;
         notify_frontend (FeDeviceEntered fingerprint addr pos))
  end.

(** ** Events *)

(** [enumerate], [sync_frontend] *)
Definition enumerate : svc unit :=
  m ← get sv_clients; notify_frontend (FeEnumerate (get_client_states slab_iter m)).
Definition sync_frontend : svc unit :=
  enumerate;;
  s ← get id;
  notify_frontend (FeEmulationStatus (sv_emulation_status s));;
  notify_frontend (FeCaptureStatus (sv_capture_status s));;
  notify_frontend (FePortChanged (sv_port s) None);;
  notify_frontend (FePublicKeyFingerprint public_key_fingerprint);;
  notify_frontend (FeAuthorizedUpdated (sv_authorized_keys s)).

(** [add_authorized_key], [remove_authorized_key] *)
Definition update_keys (f : gmap string string -> gmap string string) : svc unit :=
  modify (fun s => s <| sv_authorized_keys := f (sv_authorized_keys s) |>);;
  keys ← get sv_authorized_keys; notify_frontend (FeAuthorizedUpdated keys).
Definition add_authorized_key (desc fp : string) : svc unit := update_keys (insert fp desc).
Definition remove_authorized_key (fp : string) : svc unit := update_keys (delete fp).

(** [change_port] *)
Definition change_port (port : N) : svc unit :=
  current ← get sv_port;
  if negb (current =? port)%N then out (OEmulation (EmChangePort port))
  else notify_frontend (FePortChanged current None).

(** [restart_clipboard] *)
Definition restart_clipboard : svc unit :=
  hook (HookCancelCurrent Canceled);;
  modify (fun s => s <| sv_pending_clipboard_fallback := None |>);;
  out OClipboardRestart.

(** [save_config]: what [write_back] is given to write. *)
Definition config_client (cs : ClientConfig * ClientState) : ConfigClient :=
  let '(c, s) := cs in
  mkConfigClient (list_to_set (cc_fix_ips c)) (cc_hostname c) (cc_port c) (cc_pos c) (cs_active s) (cc_switch_target c).
Definition save_config : svc unit :=
  m ← get sv_clients;
  keys ← get sv_authorized_keys;
  out (OSaveConfig (map config_client (all_clients slab_iter m)) keys).

(** [handle_frontend_request]; [key] is the slab's vacant key. *)
Definition handle_frontend_request (key : N) (r : FrontendRequest) : svc unit :=
  match r with
  | FrActivate handle active => set_client_active handle active;; save_config
  | FrAuthorizeKey desc fp => add_authorized_key desc fp;; save_config
  | FrChangePort port => change_port port
  | FrCreate => service_add_client key;; save_config
  | FrDelete handle => service_remove_client handle;; save_config
  | FrEnableCapture => capture_call CallReenable
  | FrEnableEmulation => out (OEmulation EmReenable)
  | FrEnumerate => enumerate
  | FrUpdateFixIps handle ips => update_fix_ips handle ips;; save_config
  | FrUpdateHostname handle host => update_hostname handle host;; save_config
  | FrUpdatePort handle port => update_port handle port;; save_config
  | FrUpdatePosition handle pos => update_pos handle pos;; save_config
  | FrResolveDns handle => resolve handle
  | FrSync => sync_frontend
  | FrRemoveAuthorizedKey fp => remove_authorized_key fp;; save_config
  | FrUpdateSwitchTarget handle target => update_switch_target handle target;; save_config
  | FrSaveConfiguration => save_config
  end.

(** [handle_emulation_event] *)
Definition handle_emulation_event (e : EmulationEvent) : svc unit :=
  match e with
  | EeConnectionAttempt fp => notify_frontend (FeConnectionAttempt fp)
  | EeEntered addr pos fp =>
      conns ← get sv_incoming_conns;
      if negb (bool_decide (addr ∈ conns)) then
        add_incoming addr pos fp;; notify_frontend (FeDeviceEntered fp addr pos)
      else update_incoming addr pos fp
  | EeDisconnected addr =>
      m ← get sv_clients;
      match get_client slab_iter addr m with
      | Some handle =>
          update_clients (clear_peer_readiness handle);; broadcast_client handle;;
          handle_peer_readiness_change handle
      | None => mret tt
      end;;
      removed ← remove_incoming addr;
      match removed with Some addr => notify_frontend (FeIncomingDisconnected addr) | None => mret tt end
  | EePortChanged (inl port) =>
      current ← get sv_port;
      when (negb (current =? port)%N)
        (modify (fun s => s <| sv_port := port |>);; restart_clipboard);;
      notify_frontend (FePortChanged port None)
  | EePortChanged (inr e) =>
      current ← get sv_port; notify_frontend (FePortChanged current (Some e))
  | EeEmulationDisabled _ =>
      modify (fun s => s <| sv_emulation_status := false |>);; notify_frontend (FeEmulationStatus false)
  | EeEmulationEnabled _ _ _ =>
      modify (fun s => s <| sv_emulation_status := true |>);; notify_frontend (FeEmulationStatus true)
  | EeReleaseCapture => capture_call (CallRelease true)
  | EeConnected addr fp => notify_frontend (FeDeviceConnected addr fp)
  | EePeerHello addr commit =>
      m ← get sv_clients;
      match get_client slab_iter addr m with
      | Some handle =>
          changed ← with_clients (set_peer_commit handle (Some commit));
          when changed (broadcast_client handle;; handle_peer_readiness_change handle)
      | None => mret tt
      end
  | EeReleaseAcknowledged _ _ => mret tt
  end.

(** [handle_capture_event]; the random identities for a candidate and whether
    the capture task still waits for a decision are arguments. *)
Definition service_capture_event (request_id lease_id : string) (waiting : bool) (e : ICaptureEvent) : svc unit :=
  match e with
  | CaptureBegin handle =>
      m ← get sv_incoming_conn_info;
      match m !! handle with
      | None => mret tt
      | Some incoming =>
          hook HookCaptureProvisional;;
          n ← get sv_next_release_epoch;
          match checked_add n 1 with
          | None => panics "release epoch exhausted"
          | Some epoch =>
              modify (fun s => s <| sv_next_release_epoch := epoch |>);;
              out (OEmulation (EmRelease (in_addr incoming) epoch))
          end
      end
  | CaptureDisabled =>
      hook (HookCancelCurrent BackendUnavailable);;
      modify (fun s => s <| sv_pending_clipboard_fallback := None |> <| sv_capture_status := false |>);;
      update_edge edge_clear;;
      notify_frontend (FeCaptureStatus false);;
      modify (fun s => s <| sv_active_switch_capture := None |>);;
      complete_or (release_gate_after_capture "capture_backend_disabled" true)
  | CaptureEnabled =>
      modify (fun s => s <| sv_capture_status := true |>);; notify_frontend (FeCaptureStatus true)
  | CaptureCandidate handle => handle_capture_candidate handle request_id lease_id
  | IEdgeRetreated handle =>
      g ← get sv_edge_intent_gate;
      match g with
      | None => mret tt
      | Some gate =>
          now ← instant_now;
          modify (fun s => s <| sv_edge_intent_gate := Some (snd (edge_retreat instant_max handle now gate)) |>)
      end
  | CommitRequested handle lease_epoch peer_session_epoch =>
      authorized ← authorize_client_enter handle lease_epoch peer_session_epoch;
      when authorized (modify (fun s => s <| sv_active_switch_capture := Some (handle, lease_epoch) |>));;
      out (ODecision handle lease_epoch authorized waiting);;
      m ← get sv_bundle_lease;
      when (negb waiting && authorized)
        (match gate_context m with
         | Some context => fail_context context "capture_commit_decision_dropped"
         | None => mret tt
         end)
  | CommitDeniedReleased handle lease_epoch =>
      active ← get sv_active_switch_capture;
      when (bool_decide (active = Some (handle, lease_epoch)))
        (modify (fun s => s <| sv_active_switch_capture := None |>));;
      m ← get sv_bundle_lease;
      complete_or
        (when (match gate_context m with
               | Some c => bool_decide (gc_handle c = handle) && bool_decide (gl_lease_epoch (gc_lease c) = lease_epoch)
               | None => false end)
           (release_gate_after_capture "capture_commit_not_authorized" true))
  | ClientReleased handle reason =>
      p ← get sv_pending_clipboard_fallback;
      modify (fun s => s <| sv_pending_clipboard_fallback := None |>);;
      match reason, p with
      | PeerReleaseRequested, Some (pending_handle, release_epoch) =>
          when (pending_handle =? handle)%N (hook (HookActivate (TrFallback release_epoch));; mret tt)
      | _, _ => mret tt
      end;;
      modify (fun s => s <| sv_active_switch_capture := None |>);;
      complete_or (release_gate_after_capture (default "capture_released" (failure_reason reason))
                     (bool_decide (is_Some (failure_reason reason))))
  | PeerReadiness handle => broadcast_client handle;; handle_peer_readiness_change handle
  | PeerReleaseStarted handle release_epoch =>
      c ← get sv_switch_controller;
      match c with
      | None => mret tt
      | Some controller =>
          queued ← hook (HookBegin (TrFallback release_epoch) (ci_server_host controller));
          when queued (modify (fun s => s <| sv_pending_clipboard_fallback := Some (handle, release_epoch) |>))
      end
  end.

(** [handle_resolver_event] *)
Definition handle_resolver_event (e : DnsEvent) : svc unit :=
  match e with
  | DnsResolving handle => update_clients (set_resolving handle true);; broadcast_client handle
  | DnsResolved handle _ ips =>
      update_clients (set_resolving handle false);;
      update_clients (set_dns_ips handle (default [] ips));; broadcast_client handle
  end.

(** The configuration as [handle_config_change] reads it; a controller that
    cannot be created is [None].  Each client comes with the vacant key the
    slab picks for it. *)
Record ServiceConfig := mkServiceConfig {
  sc_controller : option ControllerInfo;
  sc_clients : list (N * ConfigClient);
  sc_release_bind : list Linux;
  sc_authorized : gmap string string }.

Fixpoint for_each {A} (f : A -> svc unit) (l : list A) : svc unit :=
  match l with [] => mret tt | x :: rest => f x;; for_each f rest end.

(** A client of the new configuration. *)
Definition config_add_client (kc : N * ConfigClient) : svc unit :=
  let '(key, cc) := kc in
  update_clients (add_with_config ip_iter key cc);;
  m ← get sv_clients;
  match get_state key m with
  | None => panics "called `Option::unwrap()` on a `None` value"
  | Some (c, st) =>
      when (cs_active st) (with_clients (deactivate_client key);; service_activate key);;
      notify_frontend (FeCreated key c st)
  end.

(** [handle_config_change] *)
Definition handle_config_change (cfg : ServiceConfig) : svc unit :=
  fail_gate "config_changed";;
  modify (fun s => s <| sv_switch_controller := sc_controller cfg |>
                     <| sv_edge_intent_gate := server_edge_intent_gate (sc_controller cfg) |>);;
  restart_clipboard;;
  m ← get sv_clients;
  for_each service_remove_client (registered_clients slab_iter m);;
  for_each config_add_client (sc_clients cfg);;
  capture_call (CallSetReleaseBind (sc_release_bind cfg));;
  modify (fun s => s <| sv_authorized_keys := sc_authorized cfg |>);;
  sync_frontend.

(** The start of [run]: the barriers of the clients that are active. *)
Definition service_start : svc unit :=
  m ← get sv_clients;
  let active := active_clients slab_iter m in
  for_each (fun h => with_clients (deactivate_client h);; mret tt) active;;
  for_each service_activate active.

(** The end of [run]. *)
Definition service_shutdown : svc unit :=
  hook (HookCancelCurrent Canceled);;
  out OClipboardShutdown;;
  switch_context ← invalidate_lease;
  capture_call (CallRelease false);;
  cancel_switch_task;;
  modify (fun s => s <| sv_switch_deadline := None |>);;
  out OCaptureTerminate;;
  modify (fun s => s <| sv_active_switch_capture := None |>);;
  controller ← get sv_switch_controller;
  match controller, switch_context with
  | Some _, Some context => out (OControllerCancel context "service_shutdown")
  | _, _ => mret tt
  end;;
  out OEmulationTerminate;;
  out OResolverTerminate.

(** The state [Service::new] builds. *)
Definition service_new (clients : list (N * ConfigClient)) (controller : option ControllerInfo) (port : N)
    (authorized : gmap string string) (clock instants : nat -> N) (hooks : nat -> bool) : Service :=
  mkService (foldl (fun m '(key, cc) => add_with_config ip_iter key cc m) ∅ clients) port authorized
    false false ∅ ∅ 0 manager_default (server_edge_intent_gate controller) controller None None 0
    None None 0 None clock instants hooks [].

(** The clients are shared with the connection tasks (connect.rs), which change
    them between the events of the service. *)
Inductive ConnectionUpdate :=
| CuActiveAddr (handle : N) (addr : option SocketAddr)
| CuAlive (handle : N) (alive : bool)
| CuPeerCommit (handle : N) (commit : option (list byte))
| CuPeerReadiness (handle : N) (keyboard_ready pointer_ready : bool) (session_epoch : N)
| CuClearReadiness (handle : N).

Definition connection_update (u : ConnectionUpdate) (m : Clients) : Clients :=
  match u with
  | CuActiveAddr h addr => set_active_addr h addr m
  | CuAlive h alive => set_alive h alive m
  | CuPeerCommit h commit => snd (set_peer_commit h commit m)
  | CuPeerReadiness h k p e => snd (set_peer_readiness h k p e m)
  | CuClearReadiness h => clear_peer_readiness h m
  end.

(** [run]: one event. *)
Inductive ServiceEvent :=
| SvConnection (u : ConnectionUpdate)
| SvFrontend (key : N) (r : FrontendRequest)
| SvEmulation (e : EmulationEvent)
| SvCapture (request_id lease_id : string) (waiting : bool) (e : ICaptureEvent)
| SvResolver (e : DnsEvent)
| SvSwitch (e : SwitchTaskEvent)
| SvDeadline
| SvConfigChanged (cfg : ServiceConfig).

Definition service_step (e : ServiceEvent) : svc unit :=
  match e with
  | SvConnection u => update_clients (connection_update u)
  | SvFrontend key r => handle_frontend_request key r
  | SvEmulation e => handle_emulation_event e
  | SvCapture rid lid waiting e => service_capture_event rid lid waiting e
  | SvResolver e => handle_resolver_event e
  | SvSwitch e => handle_switch_task_event e
  | SvDeadline => handle_switch_deadline
  | SvConfigChanged cfg => handle_config_change cfg
  end.
End service.
