(* ===== verification/ServiceTheorems.v ===== *)
(** * The service: a logic for its methods, and the lease

    Specifications of a method over a view of the service's state: the part
    that a group of theorems is about.  A method that leaves the view alone is
    neutral; a database of hints composes such methods.  The specification
    also bounds the panics of the method. *)

From stdpp Require Import base tactics list gmap sets strings.
From Stdlib Require Import NArith ZArith Lia Sorted Strings.Byte.
From S2P Require Import Prelude Service Domain SwitchGate SwitchGateTheorems SwitchClient ClipTypes Scancode CaptureTask Clients.

Section logic.
Context {K : Type} {view : Service -> K} {ok : string -> Prop}.

Definition vspec {A} (P : K -> Prop) (m : svc A) (Q : A -> K -> Prop) : Prop :=
  forall s, P (view s) ->
  match m s with
  | Ret (a, s') => Q a (view s')
  | Throw e => match e with end
  | Panic msg => ok msg
  end.

Lemma spec_ret {A} (a : A) (P : K -> Prop) (Q : A -> K -> Prop) :
  (forall k, P k -> Q a k) -> vspec P (mret a) Q.
Proof. intros H s Hs. by apply H. Qed.

Lemma spec_bind {A C} (m : svc A) (f : A -> svc C) P R Q :
  vspec P m R -> (forall a, vspec (R a) (f a) Q) -> vspec P (m ≫= f) Q.
Proof.
  intros Hm Hf s Hs. specialize (Hm s Hs). unfold mbind, svc_bind, exec_bind.
  destruct (m s) as [[a s']|[]|msg]; [|done]. by apply Hf.
Qed.

Lemma spec_weaken {A} (m : svc A) (P P' : K -> Prop) (Q Q' : A -> K -> Prop) :
  vspec P' m Q' -> (forall k, P k -> P' k) -> (forall a k, Q' a k -> Q a k) -> vspec P m Q.
Proof.
  intros Hm HP HQ s Hs. specialize (Hm s (HP _ Hs)). destruct (m s) as [[a s']|[]|msg]; auto.
Qed.

Lemma spec_and {A} (m : svc A) (P Q : A -> K -> Prop) (R : K -> Prop) :
  vspec R m P -> vspec R m Q -> vspec R m (fun a k => P a k /\ Q a k).
Proof. intros HP HQ s Hs. specialize (HP s Hs). specialize (HQ s Hs). by destruct (m s) as [[a s']|[]|msg]. Qed.

(** A fact that the precondition gives. *)
Lemma spec_pure {A} (phi : Prop) (m : svc A) (P : K -> Prop) (Q : A -> K -> Prop) :
  (forall k, P k -> phi) -> (phi -> vspec P m Q) -> vspec P m Q.
Proof. intros HP H s Hs. by apply H; [apply (HP _ Hs)|]. Qed.

(** A method that leaves the view alone. *)
Definition vneutral {A} (m : svc A) : Prop := forall P, vspec P m (fun _ => P).

Lemma neutral_same {A} (m : svc A) :
  (forall s, match m s with Ret (_, s') => view s' = view s | Throw _ => True | Panic msg => ok msg end) ->
  vneutral m.
Proof.
  intros H P s Hs. specialize (H s). destruct (m s) as [[a s']|[]|msg]; [|done]. by rewrite H.
Qed.

Lemma neutral_ret {A} (a : A) : vneutral (mret a).
Proof. by apply neutral_same. Qed.

Lemma neutral_bind {A C} (m : svc A) (f : A -> svc C) :
  vneutral m -> (forall a, vneutral (f a)) -> vneutral (m ≫= f).
Proof. intros Hm Hf P. eapply spec_bind; [apply Hm|]. intros a. apply Hf. Qed.

Lemma neutral_get {A} (f : Service -> A) : vneutral (get f).
Proof. by apply neutral_same. Qed.

Lemma neutral_modify f : (forall s, view (f s) = view s) -> vneutral (modify f).
Proof. intros H. by apply neutral_same. Qed.

Lemma neutral_panics {A} msg : ok msg -> vneutral (panics (A:=A) msg).
Proof. intros H. by apply neutral_same. Qed.

Lemma neutral_when b m : vneutral m -> vneutral (when b m).
Proof. intros H. destruct b; [done|apply neutral_ret]. Qed.

Lemma neutral_for_each {A} (f : A -> svc unit) l : (forall x, vneutral (f x)) -> vneutral (for_each f l).
Proof. intros H. induction l; cbn [for_each]; [apply neutral_ret|apply neutral_bind; auto]. Qed.

(** What a method reads of the view. *)
Lemma spec_get {A} (f : Service -> A) (g : K -> A) (P : K -> Prop) :
  (forall s, f s = g (view s)) -> vspec P (get f) (fun a k => P k /\ a = g k).
Proof. intros H s Hs. by split; [|rewrite <- H]. Qed.

Lemma spec_get_rel {A} (f : Service -> A) (R : A -> K -> Prop) (P : K -> Prop) :
  (forall s, R (f s) (view s)) -> vspec P (get f) (fun a k => P k /\ R a k).
Proof. intros H s Hs. by split. Qed.

Lemma spec_modify f (P Q : K -> Prop) :
  (forall s, P (view s) -> Q (view (f s))) -> vspec P (modify f) (fun _ => Q).
Proof. intros H s Hs. by apply H. Qed.

Lemma spec_neutral {A} (m : svc A) (P : K -> Prop) : vneutral m -> vspec P m (fun _ => P).
Proof. intros H. apply H. Qed.

Lemma spec_when b m (P : K -> Prop) : (b = true -> vspec P m (fun _ => P)) -> vspec P (when b m) (fun _ => P).
Proof. intros H. destruct b; [by apply H|by apply spec_ret]. Qed.

Lemma spec_for_each {A} (f : A -> svc unit) (P : list A -> K -> Prop) l :
  (forall x rest, vspec (P (x :: rest)) (f x) (fun _ => P rest)) -> vspec (P l) (for_each f l) (fun _ => P []).
Proof.
  intros H. induction l as [|x rest IH]; cbn [for_each]; [by apply spec_ret|].
  eapply spec_bind; [apply H|]. intros ?. exact IH.
Qed.
End logic.

#[global] Arguments vspec {K} view ok {A} P m Q.
#[global] Arguments vneutral {K} view ok {A} m.

Create HintDb neutral.
#[export] Hint Resolve neutral_ret neutral_get neutral_when neutral_for_each : neutral.
#[export] Hint Extern 1 (vneutral _ _ (modify _)) => apply neutral_modify; done : neutral.
#[export] Hint Extern 1 (vneutral _ _ read_clock) => by apply neutral_same : neutral.
#[export] Hint Extern 1 (vneutral _ _ instant_now) => by apply neutral_same : neutral.
#[export] Hint Extern 2 (vneutral _ _ (_ ≫= _)) => apply neutral_bind; [|intros ?] : neutral.
#[export] Hint Extern 3 (vneutral _ _ (match ?x with _ => _ end)) => destruct x : neutral.

(** ** Running methods *)

Lemma bind_run {A C} (m : svc A) (f : A -> svc C) s a s' : m s = Ret (a, s') -> (m ≫= f) s = f a s'.
Proof. intros H. unfold mbind, svc_bind, exec_bind. by rewrite H. Qed.

Lemma bind_get {A C} (g : Service -> A) (f : A -> svc C) s : (get g ≫= f) s = f (g s) s.
Proof. done. Qed.

Lemma bind_modify {C} (g : Service -> Service) (f : unit -> svc C) s : (modify g ≫= f) s = f tt (g s).
Proof. done. Qed.

Lemma bind_out {C} o (f : unit -> svc C) s : (out o ≫= f) s = f tt (s <| sv_out := sv_out s ++ [o] |>).
Proof. done. Qed.

Lemma bind_call {C} c (f : unit -> svc C) s : (capture_call c ≫= f) s = f tt (s <| sv_out := sv_out s ++ [OCapture c] |>).
Proof. done. Qed.

(** * The lease, its tasks and the capture

    The service's part in a switch: which operation runs for which state of the
    bundle lease, what the capture task is told, and how failures close the
    gate.  The proofs read only the core of the state, so that everything the
    service does besides is shown once to leave the core alone. *)

(** ** The core of the state *)

(** Permits given to the capture task, and decisions given to it. *)
Definition arms (outs : list ServiceOut) : list (N * N * N) :=
  omap (fun o => match o with OCapture (CallArm h l p _ _) => Some (h, l, p) | _ => None end) outs.
Definition decisions (outs : list ServiceOut) : list (N * N * bool) :=
  omap (fun o => match o with ODecision h l b _ => Some (h, l, b) | _ => None end) outs.

#[global] Arguments arms _ : simpl never.
#[global] Arguments decisions _ : simpl never.

Record Core := mkCore {
  k_lease : BundleLeaseManager;
  k_task : option SwitchTask;
  k_next : N;
  k_active : option (N * N);
  k_pending : option (GateContext * string);
  k_server : option SwitchHost;
  k_arms : list (N * N * N);
  k_decisions : list (N * N * bool) }.

#[global] Instance Core_eta : RecordEta Core := fun k =>
  mkCore (k_lease k) (k_task k) (k_next k) (k_active k) (k_pending k) (k_server k) (k_arms k) (k_decisions k).

Definition core_of (s : Service) : Core :=
  mkCore (sv_bundle_lease s) (sv_switch_task s) (sv_next_switch_task_epoch s)
    (sv_active_switch_capture s) (sv_pending_switch_cleanup s)
    (ci_server_host <$> sv_switch_controller s) (arms (sv_out s)) (decisions (sv_out s)).

(** The panics that remain: counters that have run through all 64-bit values,
    and an address that is not found among the incoming connections, which the
    invariant of the barriers excludes. *)
Definition tolerated (msg : string) : Prop :=
  msg = "switch task epoch exhausted" \/ msg = "release epoch exhausted" \/ msg = "no such client".

Abbreviation spec := (vspec core_of tolerated).
Abbreviation neutral := (vneutral core_of tolerated).

Lemma arms_snoc outs o : arms (outs ++ [o])
  = arms outs ++ match o with OCapture (CallArm h l p _ _) => [(h, l, p)] | _ => [] end.
Proof. unfold arms. rewrite omap_app. destruct o as [[]| | | | | | | | | | | | | | |]; done. Qed.

Lemma decisions_snoc outs o : decisions (outs ++ [o])
  = decisions outs ++ match o with ODecision h l b _ => [(h, l, b)] | _ => [] end.
Proof. unfold decisions. rewrite omap_app. by destruct o. Qed.

Lemma neutral_out o :
  match o with OCapture (CallArm _ _ _ _ _) | ODecision _ _ _ _ => False | _ => True end -> neutral (out o).
Proof.
  intros H. apply neutral_modify. intros s. unfold core_of. cbn. rewrite arms_snoc, decisions_snoc.
  destruct o as [[]| | | | | | | | | | | | | | |]; try done; by rewrite !app_nil_r.
Qed.

Lemma neutral_hook h : neutral (hook h).
Proof.
  apply neutral_same. intros s. unfold hook, core_of. cbn. by rewrite arms_snoc, decisions_snoc, !app_nil_r.
Qed.

#[export] Hint Resolve neutral_hook : neutral.
#[export] Hint Extern 1 (vneutral core_of _ (out _)) => apply neutral_out; done : neutral.
#[export] Hint Extern 1 (vneutral core_of _ (notify_frontend _)) => apply neutral_out; done : neutral.
#[export] Hint Extern 1 (vneutral core_of _ (switch_failed _ _)) => apply neutral_out; done : neutral.
#[export] Hint Extern 1 (vneutral core_of _ (switch_failed_with_detail _ _ _)) => apply neutral_out; done : neutral.
#[export] Hint Extern 1 (vneutral core_of _ (capture_call _)) => apply neutral_out; done : neutral.
#[export] Hint Extern 1 (vneutral core_of _ (update_clients _)) => apply neutral_modify; done : neutral.
#[export] Hint Extern 1 (vneutral core_of _ (update_edge _)) => apply neutral_modify; done : neutral.

(** ** The invariant *)

Definition arm_epochs (k : Core) : list N := map (fun a => snd (fst a)) (k_arms k).
Definition decision_epochs (k : Core) : list N := map (fun d => snd (fst d)) (k_decisions k).

(** The operation that runs belongs to the state of the lease. *)
Definition task_fits (kind : SwitchTaskKind) (st : BundleGateState) : Prop :=
  match kind with
  | TkPrepare c _ => st = GatePreparing c
  | TkCommit c _ | TkRenewal c => exists c' g u, st = GateRemoteOwned c' g u /\ same_identity c' c = true
  | TkCleanup _ _ _ | TkManualRecovery _ _ _ => True
  end.

Definition owned (h l : N) (st : BundleGateState) : Prop :=
  exists c g u, st = GateRemoteOwned c g u /\ gc_handle c = h /\ gl_lease_epoch (gc_lease c) = l.

(** Permits and decisions so far belong to leases reserved so far. *)
Record History (k : Core) : Prop := {
  hi_gate : GateOk (k_lease k);
  hi_sorted : StronglySorted N.lt (arm_epochs k);
  hi_arms : Forall (fun l => l <= gm_next_lease_epoch (k_lease k))%N (arm_epochs k);
  hi_preparing : forall c, gm_state (k_lease k) = GatePreparing c ->
    Forall (fun l => l < gm_next_lease_epoch (k_lease k))%N (arm_epochs k);
  hi_decisions : Forall (fun l => l <= gm_next_lease_epoch (k_lease k))%N (decision_epochs k) }.

Record LeaseInv (k : Core) : Prop := {
  li_history : History k;
  li_task : forall t, k_task k = Some t ->
    (st_epoch t <= k_next k)%N /\ task_fits (st_kind t) (gm_state (k_lease k));
  li_active : forall h l, k_active k = Some (h, l) ->
    last (k_decisions k) = Some (h, l, true)
    /\ (owned h l (gm_state (k_lease k))
        \/ exists c r, k_pending k = Some (c, r) /\ gc_handle c = h /\ gl_lease_epoch (gc_lease c) = l);
  li_pending : is_Some (k_pending k) -> gm_state (k_lease k) = GateLocal /\ k_task k = None;
  li_target : forall c, gate_context (k_lease k) = Some c ->
    exists server, k_server k = Some server /\ gc_target c <> server;
  li_owned : forall c g u, gm_state (k_lease k) = GateRemoteOwned c g u ->
    gl_lease_epoch (gc_lease c) ∈ decision_epochs k }.

Lemma History_local k lease : History k -> gm_next_lease_epoch lease = gm_next_lease_epoch (k_lease k) ->
  gm_state lease = GateLocal -> History (k <| k_lease := lease |>).
Proof.
  intros [G H0 H1 H2 H3] Hn Hl. split; cbn; rewrite ?Hn; try done.
  - destruct G as [G1 G2 G3 G4]. split; rewrite ?Hn; try done;
      [intros c; unfold gate_context; rewrite Hl; done|congruence..].
  - congruence.
Qed.

(** A context of the lease that is about to be given up. *)
Record Failing (c : GateContext) (k : Core) : Prop := {
  fa_history : History k;
  fa_gate : is_current c (k_lease k) = true \/ gm_state (k_lease k) = GateLocal;
  fa_pending : k_pending k = None;
  fa_active : forall h l, k_active k = Some (h, l) ->
    last (k_decisions k) = Some (h, l, true) /\ gc_handle c = h /\ gl_lease_epoch (gc_lease c) = l }.

Lemma is_current_spec c m : is_current c m = true <->
  exists c', gate_context m = Some c' /\ same_identity c' c = true.
Proof.
  unfold is_current. destruct (gate_context m) as [c'|]; [|split; [done|by intros (? & ? & _)]].
  split; [eauto|]. by intros (? & [= <-] & ?).
Qed.

Lemma context_not_local m c : gate_context m = Some c -> gm_state m <> GateLocal.
Proof. unfold gate_context. intros H Hl. by rewrite Hl in H. Qed.

(** The current context of an invariant core can be given up. *)
Lemma LeaseInv_failing c k : LeaseInv k -> is_current c (k_lease k) = true -> Failing c k.
Proof.
  intros [H1 H2 H3 H4 _ H5] Hc. split; [done|by left| |].
  - apply is_current_spec in Hc as (c' & Hc' & _). apply context_not_local in Hc'.
    destruct (k_pending k) eqn:Ep; [|done]. destruct H4; [eauto|done].
  - intros h l Ha. destruct (H3 h l Ha) as [Hl Ho]. split; [done|].
    apply is_current_spec in Hc as (c' & Hc' & Hid).
    apply same_identity_spec in Hid as (Hh & _ & _ & _ & He & _).
    destruct Ho as [(c0 & g & u & Hs & Hh0 & He0)|(c0 & r & Hp & _)].
    + unfold gate_context in Hc'. rewrite Hs in Hc'. injection Hc' as ->. by split; congruence.
    + destruct H4 as [H4 _]; [rewrite Hp; eauto|]. by apply context_not_local in Hc'.
Qed.

Definition closed_lease (c : GateContext) (m : BundleLeaseManager) : BundleLeaseManager :=
  if is_current c m then go_local m else m.

(** The core after the gate was closed. *)
Lemma Failing_closed c k : Failing c k -> let k' := k <| k_lease := closed_lease c (k_lease k) |> <| k_task := None |> in
  History k' /\ gm_state (k_lease k') = GateLocal.
Proof.
  intros [H1 H2 H3 H4]. cbn. unfold closed_lease.
  assert (gm_state (if is_current c (k_lease k) then go_local (k_lease k) else k_lease k) = GateLocal) as Hl.
  { destruct (is_current c (k_lease k)); [done|]. by destruct H2. }
  split; [|done].
  assert (gm_next_lease_epoch (if is_current c (k_lease k) then go_local (k_lease k) else k_lease k)
          = gm_next_lease_epoch (k_lease k)) as Hn by (by destruct (is_current c (k_lease k))).
  destruct (History_local k _ H1 Hn Hl) as [G S A P D]. by split.
Qed.

Section steps.
Variable local_commit : list byte.
Variable ip_iter : gset N -> list N.
Variable slab_iter : Clients -> list (N * (ClientConfig * ClientState)).
Variable info_iter : gmap N Incoming -> list (N * Incoming).
Variable instant_max : N.
Variable public_key_fingerprint : string.
Context {ReqError JsonError : Type}.
Variables (req_is_timeout req_is_connect : ReqError -> bool).
Abbreviation ClientError := (SwitchClientError (ReqError:=ReqError) (JsonError:=JsonError)).
Variable error_text : ClientError -> string.

Lemma neutral_now : neutral controller_now_ms.
Proof. unfold controller_now_ms. auto with neutral. Qed.

Lemma neutral_deadline : neutral reset_switch_deadline.
Proof.
  unfold reset_switch_deadline. apply neutral_bind; [auto with neutral|]. intros m.
  destruct (gate_deadline_ms m); [|auto with neutral].
  apply neutral_bind; [apply neutral_now|auto with neutral].
Qed.

Lemma neutral_readiness h : neutral (peer_readiness local_commit h).
Proof. apply neutral_get. Qed.
Hint Resolve neutral_now neutral_deadline neutral_readiness : neutral.

Lemma cancel_switch_task_spec (P : Core -> Prop) :
  spec P cancel_switch_task (fun _ k => exists t, P (k <| k_task := t |>) /\ k_task k = None).
Proof.
  intros s Hs. unfold cancel_switch_task, mbind, svc_bind, exec_bind, get. cbn.
  destruct (sv_switch_task s) as [t|] eqn:Et; cbn.
  - exists (Some t). split; [|done]. unfold core_of in *. cbn in *.
    rewrite arms_snoc, decisions_snoc, !app_nil_r. by rewrite Et in Hs.
  - exists None. split; [|done]. unfold core_of in *. by rewrite Et in *.
Qed.

Lemma invalidate_lease_spec (P : Core -> Prop) (Q : option GateContext -> Core -> Prop) :
  (forall k, P k -> Q (gate_context (k_lease k)) (k <| k_lease := go_local (k_lease k) |>)) ->
  spec P invalidate_lease Q.
Proof. intros H s Hs. apply (H _ Hs). Qed.

(** Starting an operation: it is refused while another one runs. *)
Lemma start_switch_task_spec kind (P : Core -> Prop) (Q : bool -> Core -> Prop) :
  (forall k, P k -> Q false k) ->
  (forall k e, P k -> k_task k = None -> e = (k_next k + 1)%N ->
     Q true (k <| k_next := e |> <| k_task := Some (mkSwitchTask e kind) |>)) ->
  spec P (start_switch_task kind) Q.
Proof.
  intros H1 H2 s Hs. unfold start_switch_task, begin_switch_task, spawn_switch_task, out, modify, get, mbind,
    svc_bind, exec_bind, mret, svc_ret, panics. cbn.
  destruct (sv_switch_controller s); cbn; [|by apply H1].
  destruct (sv_switch_task s) as [t|] eqn:Et; cbn; [by apply H1|].
  destruct (checked_add (sv_next_switch_task_epoch s) 1) as [e|] eqn:Ee; cbn; [|by left].
  apply checked_add_Some in Ee as [-> _].
  pose proof (H2 (core_of s) _ Hs Et eq_refl) as H. unfold core_of in *. cbn in *.
  by rewrite arms_snoc, decisions_snoc, !app_nil_r.
Qed.

Lemma close_gate_spec c (P Q : Core -> Prop) :
  (forall k, P k -> Q (k <| k_lease := closed_lease c (k_lease k) |> <| k_task := None |>)) ->
  spec P (close_gate c) (fun _ => Q).
Proof.
  intros H. unfold close_gate. eapply spec_bind; [apply neutral_hook|]. intros ?.
  eapply spec_bind; [apply (spec_get _ k_lease); done|]. intros m.
  eapply (spec_bind _ _ _ (fun _ k => exists k0, P k0 /\ k = k0 <| k_lease := closed_lease c (k_lease k0) |>)).
  { unfold closed_lease. destruct (is_current c m) eqn:Ec.
    - eapply (spec_bind _ _ _ (fun _ k => exists k0, P k0 /\ k = k0 <| k_lease := closed_lease c (k_lease k0) |>)).
      + apply invalidate_lease_spec. intros k [Hk ->]. exists k. split; [done|]. unfold closed_lease. by rewrite Ec.
      + intros ?. by apply spec_ret.
    - apply spec_ret. intros k [Hk ->]. exists k. split; [done|]. rewrite Ec. by destruct k. }
  intros ?. eapply spec_bind; [apply spec_neutral; auto with neutral|]. intros ?.
  eapply spec_bind; [apply cancel_switch_task_spec|]. intros ?.
  apply spec_modify. intros s (t & (k0 & Hk0 & E) & Ht).
  replace (core_of _) with (k0 <| k_lease := closed_lease c (k_lease k0) |> <| k_task := None |>);
    [by apply H|].
  destruct k0 as [m0 t0 n0 v0 p0 h0 r0 d0]. unfold core_of in *. cbn in *.
  injection E as E1 E2 E3 E4 E5 E6 E7 E8. destruct s. cbn in *. by subst.
Qed.

(** The gate is closed for [c]: what remains is to tell who has to know. *)
Record Closed (c : GateContext) (k : Core) : Prop := {
  cl_history : History k;
  cl_local : gm_state (k_lease k) = GateLocal;
  cl_task : k_task k = None;
  cl_pending : k_pending k = None;
  cl_active : forall h l, k_active k = Some (h, l) ->
    last (k_decisions k) = Some (h, l, true) /\ gc_handle c = h /\ gl_lease_epoch (gc_lease c) = l }.

Lemma close_gate_closed c : spec (Failing c) (close_gate c) (fun _ => Closed c).
Proof.
  apply close_gate_spec. intros k Hf. destruct (Failing_closed c k Hf) as [H1 H2].
  destruct Hf as [_ _ H3 H4]. by split.
Qed.

(** Histories read the lease and the records only. *)
Lemma History_ext k k' : History k -> k_lease k' = k_lease k -> k_arms k' = k_arms k ->
  k_decisions k' = k_decisions k -> History k'.
Proof.
  intros [G S A P D] H1 H2 H3. unfold arm_epochs, decision_epochs in *.
  split; unfold arm_epochs, decision_epochs; rewrite ?H1, ?H2, ?H3; done.
Qed.

Lemma Closed_deferred c r k : Closed c k -> LeaseInv (k <| k_pending := Some (c, r) |>).
Proof.
  intros [H1 H2 H3 H4 H5]. split; cbn; try done; try congruence.
  - by eapply History_ext.
  - intros h l Ha. destruct (H5 h l Ha) as (Hd & <- & <-). split; [done|]. right. by exists c, r.
  - intros c' Hc'. by apply context_not_local in Hc'.
Qed.

Lemma Closed_inactive c k : Closed c k -> k_active k = None -> LeaseInv k.
Proof.
  intros [H1 H2 H3 H4 H5] Ha. split; try done; try congruence.
  intros c' Hc'. by apply context_not_local in Hc'.
Qed.

(** An operation that needs no lease, while the bundle is local. *)
Lemma spawn_local_inv kind k e : LeaseInv k -> k_pending k = None -> e = (k_next k + 1)%N ->
  task_fits kind (gm_state (k_lease k)) ->
  LeaseInv (k <| k_next := e |> <| k_task := Some (mkSwitchTask e kind) |>).
Proof.
  intros [H1 H2 H3 H4 H5 H6] Hp -> Hf. split; cbn; try done.
  - by eapply History_ext.
  - intros t [= <-]. cbn. split; [lia|done].
  - rewrite Hp. by intros [? [=]].
Qed.

Definition LocalInv (k : Core) : Prop :=
  LeaseInv k /\ gm_state (k_lease k) = GateLocal /\ k_pending k = None.

Lemma start_cleanup_task_inv c r : spec LocalInv (start_cleanup_task local_commit c r) (fun _ => LeaseInv).
Proof.
  unfold start_cleanup_task. eapply spec_bind; [apply neutral_readiness|]. intros ro.
  eapply (spec_bind _ _ _ (fun _ => LeaseInv)); [|intros ?; by apply spec_ret].
  apply start_switch_task_spec.
  - by intros k [Hk _].
  - intros k e (Hk & Hl & Hp) Ht ->. by apply spawn_local_inv.
Qed.

(** Giving up a lease restores the invariant, whatever the reason. *)
Lemma fail_context_inv c r d : spec (Failing c) (fail_context_inner local_commit c r d) (fun _ => LeaseInv).
Proof.
  unfold fail_context_inner. eapply spec_bind; [apply close_gate_closed|]. intros ?.
  eapply spec_bind; [apply spec_neutral; unfold notify_failure; auto with neutral|]. intros ?.
  eapply spec_bind; [apply (spec_get _ k_active); done|]. intros active.
  case_bool_decide as Ha.
  - eapply (spec_bind _ _ _ (fun _ => LeaseInv)); [|intros ?; apply spec_neutral; auto with neutral].
    apply spec_modify. intros s [Hc _]. exact (Closed_deferred c r _ Hc).
  - eapply spec_weaken; [apply start_cleanup_task_inv| |done].
    intros k [Hc ->]. assert (k_active k = None) as Hn.
    { destruct (k_active k) as [[h l]|] eqn:E; [|done]. destruct (cl_active _ _ Hc h l E) as (_ & <- & <-). done. }
    split; [by eapply Closed_inactive|]. split; apply Hc.
Qed.

Lemma defer_failure_inv c r : spec (Failing c) (defer_failure_until_capture_release c r) (fun _ => LeaseInv).
Proof.
  unfold defer_failure_until_capture_release. eapply spec_bind; [apply close_gate_closed|]. intros ?.
  eapply (spec_bind _ _ _ (fun _ => LeaseInv)); [|intros ?; apply spec_neutral; auto with neutral].
  apply spec_modify. intros s Hc. exact (Closed_deferred c r _ Hc).
Qed.

Lemma LeaseInv_lease k : LeaseInv k -> k_pending k = None -> forall h l, k_active k = Some (h, l) ->
  owned h l (gm_state (k_lease k)).
Proof.
  intros [_ _ H3 _ _ _] Hp h l Ha. destruct (H3 h l Ha) as [_ [Ho|(c & r & Hp' & _)]]; [done|congruence].
Qed.

Lemma go_local_same m : gm_state m = GateLocal -> go_local m = m.
Proof. destruct m as [st n]. cbn. by intros ->. Qed.

(** The lease after it was given up, for the context it had. *)
Lemma LeaseInv_invalidate k : LeaseInv k ->
  match gate_context (k_lease k) with
  | Some c => Failing c (k <| k_lease := go_local (k_lease k) |>)
  | None => LeaseInv (k <| k_lease := go_local (k_lease k) |>)
  end.
Proof.
  intros Hk. destruct (gate_context (k_lease k)) as [c|] eqn:Ec.
  - assert (is_current c (k_lease k) = true) as Hc.
    { apply is_current_spec. exists c. split; [done|]. by apply same_identity_spec. }
    destruct (LeaseInv_failing c k Hk Hc) as [H1 _ H3 H4].
    split; cbn; try done; [|by right]. by apply History_local.
  - rewrite go_local_same; [by destruct k|]. unfold gate_context in Ec. by destruct (gm_state (k_lease k)).
Qed.

Lemma invalidate_inv : spec LeaseInv invalidate_lease (fun o k => match o with
  | Some c => Failing c k | None => LeaseInv k end).
Proof. apply invalidate_lease_spec. apply LeaseInv_invalidate. Qed.

Lemma fail_gate_inv reason : spec LeaseInv (fail_gate local_commit reason) (fun _ => LeaseInv).
Proof.
  eapply spec_bind; [apply invalidate_inv|]. intros [c|]; [apply fail_context_inv|by apply spec_ret].
Qed.

Lemma fail_gate_with_detail_inv reason d :
  spec LeaseInv (fail_gate_with_detail local_commit reason d) (fun _ => LeaseInv).
Proof.
  eapply spec_bind; [apply invalidate_inv|]. intros [c|]; [apply fail_context_inv|by apply spec_ret].
Qed.

Lemma fail_current_inv c r d :
  spec (fun k => LeaseInv k /\ is_current c (k_lease k) = true) (fail_context_inner local_commit c r d) (fun _ => LeaseInv).
Proof.
  eapply spec_weaken; [apply fail_context_inv| |done]. intros k [Hk Hc]. by apply LeaseInv_failing.
Qed.

(** Dropping the operation that runs. *)
Lemma LeaseInv_no_task k : LeaseInv k -> LeaseInv (k <| k_task := None |>).
Proof.
  intros [H1 H2 H3 H4 H5 H6]. split; cbn; try done.
  - by eapply History_ext.
  - intros Hp. split; [by apply H4|done].
Qed.

Lemma finish_switch_task_inv e : spec LeaseInv (finish_switch_task e) (fun b k =>
  LeaseInv k /\ (b = true -> k_task k = None)).
Proof.
  unfold finish_switch_task. eapply spec_bind; [apply (spec_get _ k_task); done|]. intros t.
  case_bool_decide; cbn [negb]; [|by apply spec_ret; intros k [Hk _]].
  eapply (spec_bind _ _ _ (fun _ k => LeaseInv k /\ k_task k = None)).
  - apply spec_modify. intros s [Hk _]. split; [exact (LeaseInv_no_task _ Hk)|done].
  - intros ?. apply spec_ret. tauto.
Qed.

Lemma cancel_switch_task_inv : spec LeaseInv cancel_switch_task (fun _ => LeaseInv).
Proof.
  eapply spec_weaken; [apply (cancel_switch_task_spec LeaseInv)|done|].
  intros _ k (t & Hk & Ht). apply LeaseInv_no_task in Hk. cbn in Hk. destruct k. cbn in *. by subst.
Qed.

(** The capture is gone. *)
Definition Idle_capture (k : Core) : Prop := LeaseInv k /\ k_active k = None.

Lemma LeaseInv_no_active k : LeaseInv k -> LeaseInv (k <| k_active := None |>).
Proof. intros [H1 H2 H3 H4 H5 H6]. split; cbn; try done. by eapply History_ext. Qed.

Lemma release_gate_inv reason failure :
  spec (fun k => Idle_capture k /\ k_pending k = None) (release_gate_after_capture local_commit reason failure)
    (fun _ => LeaseInv).
Proof.
  unfold release_gate_after_capture.
  eapply (spec_bind _ _ _ (fun o k => match o with
    | Some c => Failing c k /\ gm_state (k_lease k) = GateLocal /\ k_active k = None
    | None => LeaseInv k end)).
  { apply invalidate_lease_spec. intros k [[Hk Ha] Hp]. pose proof (LeaseInv_invalidate k Hk) as H.
    by destruct (gate_context (k_lease k)) as [c|] eqn:Ec. }
  intros [c|]; [|by apply spec_ret].
  eapply spec_bind; [apply neutral_hook|]. intros ?.
  eapply (spec_bind _ _ _ (fun _ => LocalInv)).
  { eapply spec_weaken; [apply cancel_switch_task_spec|intros k Hk; exact Hk|].
    intros _ k (t & (Hf & Hl & Ha) & Ht). destruct Hf as [H1 _ Hp _]. cbn in *.
    split; [|done]. apply (Closed_inactive c); [|done]. split; try done; [by eapply History_ext|congruence]. }
  intros ?. eapply spec_bind; [apply spec_neutral; auto with neutral|]. intros ?.
  eapply spec_bind; [apply spec_neutral; auto with neutral|]. intros ?. apply start_cleanup_task_inv.
Qed.

(** A pending cleanup is never lost: no other operation can be running. *)
Lemma complete_or_inv m :
  spec (fun k => Idle_capture k /\ k_pending k = None) m (fun _ => LeaseInv) ->
  spec Idle_capture (complete_or local_commit m) (fun _ => LeaseInv).
Proof.
  intros Hm. unfold complete_or. eapply spec_bind; [apply (spec_get _ k_pending); done|]. intros p.
  case_bool_decide as Hp.
  - unfold complete_pending_switch_cleanup. eapply spec_bind; [apply (spec_get _ k_pending); done|].
    intros [[c r]|]; [|apply spec_ret; by intros k [[[Hk _] _] _]].
    eapply (spec_bind _ _ _ (fun _ => LocalInv)); [|intros ?; apply start_cleanup_task_inv].
    apply spec_modify. intros s [[[[H1 H2 H3 H4 H5 H6] Ha] _] Hs]. cbn in *.
    destruct H4 as [Hl Ht]; [by rewrite <- Hs; eauto|]. split; [|done].
    split; cbn; try done; try congruence; try (by eapply History_ext).
  - eapply spec_weaken; [exact Hm| |done]. intros k [Hk ->]. split; [done|].
    destruct (k_pending k); [|done]. exfalso. apply Hp. eauto.
Qed.

(** A new lease: the bundle was local and nothing was pending. *)
Lemma reserve_inv handle target rid lid se ready now ttl k res m server :
  LeaseInv k -> k_pending k = None -> k_server k = Some server -> target <> server ->
  k_task k = None ->
  gate_reserve handle target rid lid se ready now ttl (k_lease k) = (res, m) ->
  LeaseInv (k <| k_lease := m |>)
  /\ match res with
     | inl c => gm_state m = GatePreparing c /\ gate_context m = Some c
     | inr _ => m = k_lease k
     end.
Proof.
  intros Hk Hp Hs Ht Htask Hr.
  assert (GateOk m) as Hm.
  { destruct Hk as [[G _ _ _ _] _ _ _ _ _]. eapply gate_move_ok; [exact G|]. eapply gate_step_move.
    by eapply gstep_reserve. }
  unfold gate_reserve in Hr.
  case_bool_decide as Hl; cbn [negb] in Hr; [|injection Hr as <- <-; split; [by destruct k|done]].
  assert (k_active k = None) as Ha.
  { destruct (k_active k) as [[h l]|] eqn:E; [|done].
    destruct (LeaseInv_lease k Hk Hp h l E) as (c & g & u & Hst & _). congruence. }
  destruct (_ || _); [injection Hr as <- <-; split; [by destruct k|done]|].
  destruct (_ || _); [injection Hr as <- <-; split; [by destruct k|done]|].
  destruct (checked_add now ttl) as [x|]; [|injection Hr as <- <-; split; [by destruct k|done]].
  destruct (checked_add _ 1) as [e|] eqn:Ee; [|injection Hr as <- <-; split; [by destruct k|done]].
  apply checked_add_Some in Ee as [-> _]. injection Hr as <- <-. split; [|done].
  destruct Hk as [[G S A _ D] H2 H3 H4 H5 H6]. unfold arm_epochs, decision_epochs in *.
  split; cbn; try done; try congruence.
  - split; cbn; try done; unfold arm_epochs, decision_epochs; cbn;
      [eapply Forall_impl; [exact A|]|intros _ _; eapply Forall_impl; [exact A|]
      |eapply Forall_impl; [exact D|]]; cbn; intros; lia.
  - rewrite Hp. by intros [? [=]].
  - intros c [= <-]. cbn. eauto.
Qed.

Lemma spec_get_controller (P : Core -> Prop) :
  spec P (get sv_switch_controller) (fun c k => P k /\ k_server k = ci_server_host <$> c).
Proof. by apply spec_get_rel. Qed.

Lemma manual_recovery_inv target reason detail :
  spec (fun k => LeaseInv k /\ k_pending k = None) (arm_manual_recovery_then_notify target reason detail)
    (fun _ => LeaseInv).
Proof.
  unfold arm_manual_recovery_then_notify.
  eapply (spec_bind _ _ _ (fun _ => LeaseInv)).
  - apply start_switch_task_spec; [by intros k [Hk _]|].
    intros k e [Hk Hp] _ ->. by apply spawn_local_inv.
  - intros []; [by apply spec_ret|apply spec_neutral; auto with neutral].
Qed.

Lemma neutral_edge_confirms h target r : neutral (edge_confirms instant_max h target r).
Proof.
  unfold edge_confirms. apply neutral_bind; [auto with neutral|]. intros [g|]; [|auto with neutral].
  apply neutral_bind; [auto with neutral|]. intros now.
  destruct (edge_candidate instant_max _ now g) as [d g']. auto with neutral.
Qed.

Lemma reservation_failed_inv h target r e :
  spec (fun k => LeaseInv k /\ k_pending k = None) (reservation_failed local_commit h target r e) (fun _ => LeaseInv).
Proof.
  unfold reservation_failed. eapply spec_bind; [apply neutral_get|]. intros m.
  destruct (match e with GateBusy => _ | _ => _ end) as [reason detail].
  destruct e; try apply manual_recovery_inv;
    (eapply spec_weaken; [apply (spec_neutral _ LeaseInv); auto with neutral| |done]; by intros k [Hk _]).
Qed.

Lemma candidate_inv h rid lid :
  spec (fun k => LeaseInv k /\ k_pending k = None)
    (handle_capture_candidate local_commit instant_max h rid lid) (fun _ => LeaseInv).
Proof.
  assert (forall m : svc unit, neutral m ->
    spec (fun k => LeaseInv k /\ k_pending k = None) m (fun _ => LeaseInv)) as Hn.
  { intros m Hm. eapply spec_weaken; [apply (spec_neutral _ LeaseInv Hm)| |done]. by intros k [Hk _]. }
  unfold handle_capture_candidate. eapply spec_bind; [apply neutral_get|].
  intros [target|]; [|apply Hn; auto with neutral].
  eapply spec_bind; [apply spec_get_controller|]. intros c.
  destruct (match c with Some c => _ | None => false end) eqn:Eserver;
    [apply spec_ret; by intros k [[Hk _] _]|].
  destruct c as [controller|];
    [|eapply spec_weaken; [apply Hn; auto with neutral|by intros k [Hk _]|done]].
  apply bool_decide_eq_false in Eserver.
  eapply spec_bind; [apply (spec_get _ k_task); done|]. intros task.
  destruct task as [t|]; [apply spec_ret; by intros k [[[Hk _] _] _]|].
  eapply spec_bind; [apply neutral_readiness|]. intros readiness.
  eapply spec_bind; [apply neutral_edge_confirms|]. intros confirmed.
  destruct confirmed; cbn [negb]; [|apply spec_ret; by intros k [[[Hk _] _] _]].
  destruct readiness as [r|];
    [|eapply spec_weaken; [apply manual_recovery_inv|by intros k [[Hk _] _]|done]].
  eapply spec_bind; [apply spec_neutral; auto with neutral|]. intros now.
  eapply spec_bind; [apply (spec_get _ k_lease); done|]. intros lease.
  destruct (gate_reserve _ _ _ _ _ _ _ _ lease) as [res m] eqn:Er.
  eapply (spec_bind _ _ _ (fun _ k => (LeaseInv k /\ k_pending k = None) /\ k_task k = None
    /\ match res with inl c => gm_state (k_lease k) = GatePreparing c /\ gate_context (k_lease k) = Some c | inr _ => True end)).
  { apply spec_modify. intros s [[[[Hk Hp] Hs] Ht] ->]. cbn [k_lease core_of] in *.
    destruct (reserve_inv _ _ _ _ _ _ _ _ _ _ _ _ Hk Hp Hs Eserver (eq_sym Ht) Er) as [H1 H2].
    split; [split; [exact H1|exact Hp]|]. split; [done|]. by destruct res. }
  intros ?. destruct res as [context|e].
  - eapply spec_bind; [apply neutral_hook|]. intros ?.
    eapply spec_bind; [apply spec_neutral; auto with neutral|]. intros ?.
    eapply (spec_bind _ _ _ (fun b k => LeaseInv k /\ (b = false -> is_current context (k_lease k) = true))).
    { apply start_switch_task_spec.
      - intros k ([Hk Hp] & Ht & _ & Hc). split; [done|]. intros _. apply is_current_spec.
        exists context. split; [done|]. by apply same_identity_spec.
      - intros k e0 ([Hk Hp] & Ht & Hst & Hc) _ ->. split; [|done]. by apply spawn_local_inv. }
    intros started. destruct started; cbn; [apply spec_ret; by intros k [Hk _]|].
    eapply spec_weaken; [apply fail_current_inv| |done]. intros k [Hk Hc]. split; [done|by apply Hc].
  - eapply spec_weaken; [apply reservation_failed_inv|by intros k [Hk _]|done].
Qed.

(** A step of the lease that stays with its context: the invariant survives
    when the operation that runs still fits. *)
Lemma LeaseInv_move k m c c' : LeaseInv k -> GateOk m ->
  gate_context (k_lease k) = Some c -> gate_context m = Some c' -> same_identity c c' = true ->
  gm_next_lease_epoch m = gm_next_lease_epoch (k_lease k) ->
  (forall c, gm_state m <> GatePreparing c) ->
  (forall t, k_task k = Some t -> task_fits (st_kind t) (gm_state m)) ->
  (forall c0 g u, gm_state (k_lease k) = GateRemoteOwned c0 g u -> exists c1 g1 u1, gm_state m = GateRemoteOwned c1 g1 u1) ->
  (forall c1 g1 u1, gm_state m = GateRemoteOwned c1 g1 u1 -> exists c0 g u, gm_state (k_lease k) = GateRemoteOwned c0 g u) ->
  LeaseInv (k <| k_lease := m |>).
Proof.
  intros Hk Hm Hc Hc' Hid Hn Hprep Htask Hown Hown'. pose proof Hk as [[G S A P D] H2 H3 H4 H5 H6].
  apply same_identity_spec in Hid as (Ih & It & _ & _ & Ie & _). split; cbn.
  - unfold arm_epochs, decision_epochs in *. split; unfold arm_epochs, decision_epochs; cbn; rewrite ?Hn; try done.
    intros c0 Hc0. by apply Hprep in Hc0.
  - intros t Ht. split; [by apply H2|by apply Htask].
  - intros h l Ha. destruct (H3 h l Ha) as [Hl Ho]. split; [done|]. left.
    destruct Ho as [(c0 & g & u & Hs & <- & <-)|(c0 & r & Hp & _)].
    + destruct (Hown _ _ _ Hs) as (c1 & g1 & u1 & Hs1). exists c1, g1, u1. split; [done|].
      unfold gate_context in Hc, Hc'. rewrite Hs in Hc. rewrite Hs1 in Hc'. split; congruence.
    + destruct H4 as [H4 _]; [rewrite Hp; eauto|]. by apply context_not_local in Hc.
  - intros Hp. destruct H4 as [H4 _]; [done|]. by apply context_not_local in Hc.
  - intros c0 Hc0. destruct (H5 c Hc) as (server & Hs & Ht). exists server. split; [done|]. congruence.
  - intros c1 g1 u1 Hs1. destruct (Hown' _ _ _ Hs1) as (c0 & g & u & Hs).
    pose proof (H6 _ _ _ Hs) as Hin. unfold gate_context in Hc, Hc'. rewrite Hs in Hc. rewrite Hs1 in Hc'.
    unfold decision_epochs in *. cbn. congruence.
Qed.

(** After a rejected step the lease is the old one or given up. *)
Lemma Failing_rejected c k m : LeaseInv k -> is_current c (k_lease k) = true ->
  m = k_lease k \/ m = go_local (k_lease k) -> Failing c (k <| k_lease := m |>).
Proof.
  intros Hk Hc Hm. pose proof (LeaseInv_failing c k Hk Hc) as [H1 H2 H3 H4]. destruct Hm as [-> | ->].
  - split; cbn; try done. by eapply History_ext.
  - split; cbn; try done; [by apply History_local|by right].
Qed.

Lemma arm_grant_cases c re ge le gx ready se now m res m' :
  gate_arm_grant c re ge le gx ready se now m = (res, m') ->
  match res with
  | inl (c', g) => gm_state m = GatePreparing c /\ gm_state m' = GateGrantArmed c' g
      /\ same_identity c c' = true /\ gm_next_lease_epoch m' = gm_next_lease_epoch m
  | inr _ => m' = m \/ m' = go_local m
  end.
Proof.
  unfold gate_arm_grant. destruct (gm_state m) as [|current| |] eqn:Es; try (intros [= <- <-]; by left).
  case_bool_decide as Hc; cbn [negb]; [|intros [= <- <-]; by left].
  destruct (_ || _); [intros [= <- <-]; by right|]. destruct (_ || _); [intros [= <- <-]; by right|].
  destruct (_ || _); [intros [= <- <-]; by left|]. intros [= <- <-]. subst current.
  split; [done|]. split; [done|]. split; [apply same_identity_expiry|done].
Qed.

Lemma gate_commit_cases h e ready se now m res m' :
  gate_commit h e ready se now m = (res, m') ->
  match res with
  | inl (c, g) => gm_state m = GateGrantArmed c g /\ (exists u, gm_state m' = GateRemoteOwned c g u)
      /\ gc_handle c = h /\ gl_lease_epoch (gc_lease c) = e /\ gm_next_lease_epoch m' = gm_next_lease_epoch m
      /\ ready = true /\ gl_peer_session_epoch (gc_lease c) = se
      /\ (now < gl_expires_at_ms (gc_lease c))%N /\ (now < gg_expires_at_ms g)%N
  | inr _ => m' = m \/ m' = go_local m
  end.
Proof.
  unfold gate_commit. destruct (gm_state m) as [| |c g|] eqn:Es; try (intros [= <- <-]; by left).
  destruct (negb _ || negb _) eqn:E1; [intros [= <- <-]; by left|].
  destruct (negb ready || _) eqn:E2; [intros [= <- <-]; by right|].
  destruct ((gl_expires_at_ms (gc_lease c) <=? now)%N || _) eqn:E3; [intros [= <- <-]; by right|].
  intros [= <- <-]. norm_bool.
  repeat split; try done. eauto.
Qed.

Lemma renew_cases rid until ready se now m res m' :
  gate_renew rid until ready se now m = (res, m') ->
  match res with
  | inl _ => exists c g u c', gm_state m = GateRemoteOwned c g u /\ gm_state m' = GateRemoteOwned c' g until
      /\ same_identity c c' = true /\ gm_next_lease_epoch m' = gm_next_lease_epoch m
  | inr _ => m' = m \/ m' = go_local m
  end.
Proof.
  unfold gate_renew. destruct (gm_state m) as [| | |c g u] eqn:Es; try (intros [= <- <-]; by left).
  case_bool_decide; cbn [negb]; [|intros [= <- <-]; by left].
  destruct (_ || _); [intros [= <- <-]; by right|]. destruct (_ || _); [intros [= <- <-]; by right|].
  intros [= <- <-]. eexists c, g, u, _. split; [done|]. split; [reflexivity|].
  split; [apply same_identity_expiry|done].
Qed.

(** The permit is armed once, for the lease that was granted. *)
Definition Granted (c : GateContext) (g : GateGrantIdentity) (k : Core) : Prop :=
  LeaseInv k /\ gm_state (k_lease k) = GateGrantArmed c g
  /\ Forall (fun l => l < gm_next_lease_epoch (k_lease k))%N (arm_epochs k).

Lemma Granted_current c g k : Granted c g k -> LeaseInv k /\ is_current c (k_lease k) = true.
Proof.
  intros (Hk & Hs & _). split; [done|]. apply is_current_spec. exists c. unfold gate_context. rewrite Hs.
  split; [done|]. by apply same_identity_spec.
Qed.

Lemma arm_capture_inv c g : spec (Granted c g) (arm_capture local_commit c g) (fun _ => LeaseInv).
Proof.
  assert (forall r, spec (Granted c g) (fail_context local_commit c r) (fun _ => LeaseInv)) as Hf.
  { intros r. eapply spec_weaken; [apply fail_current_inv|apply Granted_current|done]. }
  unfold arm_capture. eapply spec_bind; [apply spec_get_controller|]. intros [controller|];
    [|eapply spec_weaken; [apply Hf|by intros k [Hk _]|done]].
  case_bool_decide as Ht.
  - intros s [[Hk [Hs _]] Hserver]. destruct Hk as [_ _ _ _ H5 _].
    destruct (H5 c) as (server & Hs' & Hne); [unfold gate_context; by rewrite Hs|]. cbn in *. congruence.
  - eapply (spec_weaken _ _ (Granted c g) _ (fun _ => LeaseInv)); [|by intros k [Hk _]|done].
    eapply spec_bind; [apply spec_neutral; auto with neutral|]. intros now.
    eapply spec_bind; [apply neutral_get|]. intros lease.
    destruct (gate_deadline_ms lease) as [deadline|]; [|apply Hf].
    destruct (checked_sub deadline now) as [valid|]; [|apply Hf].
    destruct (valid =? 0)%N; [apply Hf|].
    eapply spec_bind; [apply spec_neutral; auto with neutral|]. intros inst.
    apply spec_modify. intros s (Hk & Hs & Hlt). unfold core_of. cbn.
    rewrite arms_snoc, decisions_snoc, app_nil_r.
    pose proof Hk as [[G S A P D] H2 H3 H4 H5 H6]. cbn in *.
    assert (gl_lease_epoch (gc_lease c) = gm_next_lease_epoch (sv_bundle_lease s)) as He.
    { apply (go_context _ G). unfold gate_context. by rewrite Hs. }
    split; cbn; try done. unfold arm_epochs in *. cbn in *.
    split; cbn; unfold arm_epochs; cbn; rewrite ?map_app; cbn; try done.
    + apply StronglySorted_snoc; [done|]. eapply Forall_impl; [exact Hlt|]. cbn. intros. lia.
    + apply Forall_app. split; [done|]. constructor; [lia|constructor].
    + congruence.
Qed.

Lemma handle_prepared_inv c res :
  spec (fun k => LeaseInv k /\ k_task k = None)
    (handle_prepared local_commit req_is_timeout req_is_connect error_text c res) (fun _ => LeaseInv).
Proof.
  unfold handle_prepared. eapply spec_bind; [apply (spec_get _ k_lease); done|]. intros m.
  destruct (is_current c m) eqn:Ec; cbn [negb]; [|apply spec_ret; by intros k [[Hk _] _]].
  destruct res as [prepared|e].
  2: { destruct (notification_detail _ _ _ _ e) as [reason detail].
       eapply spec_weaken; [apply fail_gate_with_detail_inv|by intros k [[Hk _] _]|done]. }
  eapply spec_bind; [apply neutral_readiness|]. intros [r|].
  2: { eapply spec_weaken; [apply fail_current_inv| |done]. intros k [[Hk _] ->]. done. }
  eapply spec_bind; [apply neutral_now|]. intros now.
  destruct (gate_arm_grant _ _ _ _ _ _ _ _ m) as [res m'] eqn:Er.
  apply arm_grant_cases in Er as Hcases.
  eapply (spec_bind _ _ _ (fun _ k => match res with
    | inl (c', g) => Granted c' g k | inr _ => Failing c k end)).
  { apply spec_modify. intros s [[Hk Ht] ->]. cbn [k_lease core_of] in *.
    destruct res as [[c' g]|e].
    - destruct Hcases as (Hs & Hs' & Hid & Hn). pose proof Hk as [[G _ _ P _] _ _ _ _ _].
      split; [|split; [exact Hs'|]].
      + apply (LeaseInv_move _ m' c c' Hk); cbn; unfold gate_context; rewrite ?Hs, ?Hs'; try done.
        * eapply gate_move_ok; [exact G|]. eapply gate_step_move, gstep_arm, Er.
        * cbn in Ht. rewrite Ht. done.
      + specialize (P _ Hs). cbn in P |- *. unfold arm_epochs in *. cbn in *. by rewrite Hn.
    - exact (Failing_rejected c _ m' Hk Ec Hcases). }
  intros ?. destruct res as [[c' g]|e].
  - eapply spec_bind; [apply spec_neutral; auto with neutral|]. intros ?. apply arm_capture_inv.
  - apply fail_context_inv.
Qed.

(** The decision for a permit that was armed and not decided before. *)
Definition Deciding (h l : N) (k : Core) : Prop :=
  LeaseInv k /\ k_pending k = None /\ l ∈ arm_epochs k /\ Forall (fun e => e < l)%N (decision_epochs k).

Lemma Deciding_not_owned h l k c g u : Deciding h l k -> gm_state (k_lease k) <> GateRemoteOwned c g u.
Proof.
  intros ([[G _ A _ _] _ _ _ _ H6] & _ & Hin & Hlt) Hs.
  pose proof (H6 _ _ _ Hs) as Hd. apply (proj1 (Forall_forall _ _) Hlt) in Hd.
  apply (proj1 (Forall_forall _ _) A) in Hin.
  destruct (go_context _ G c) as [He _]; [unfold gate_context; by rewrite Hs|]. lia.
Qed.

Lemma Deciding_inactive h l k : Deciding h l k -> k_active k = None.
Proof.
  intros Hd. destruct (k_active k) as [[h' l']|] eqn:Ea; [|done]. exfalso.
  destruct (LeaseInv_lease k (proj1 Hd) (proj1 (proj2 Hd)) h' l' Ea) as (c & g & u & Hs & _).
  by eapply Deciding_not_owned.
Qed.

(** What an authorization leaves behind: the lease is owned and its commit is
    being sent. *)
Record Authorized (h l : N) (k : Core) : Prop := {
  au_history : History k;
  au_owned : exists c g u e, gm_state (k_lease k) = GateRemoteOwned c g u /\ gc_handle c = h
    /\ gl_lease_epoch (gc_lease c) = l /\ k_task k = Some (mkSwitchTask e (TkCommit c g)) /\ (e <= k_next k)%N
    /\ exists server, k_server k = Some server /\ gc_target c <> server;
  au_pending : k_pending k = None;
  au_inactive : k_active k = None;
  au_fresh : Forall (fun e => e < l)%N (decision_epochs k) }.

(** The epoch is one of a lease reserved before. *)
Definition known_epoch (l : N) (k : Core) : Prop := (l <= gm_next_lease_epoch (k_lease k))%N.

Lemma close_gate_keeps_epoch l c : spec (known_epoch l) (close_gate c) (fun _ => known_epoch l).
Proof.
  apply close_gate_spec. intros k Hk. unfold known_epoch, closed_lease in *. cbn.
  by destruct (is_current c (k_lease k)).
Qed.

(** A failed authorization: the lease is given up and nothing became active. *)
Definition Refused (h l : N) (k : Core) : Prop :=
  LeaseInv k /\ k_active k = None /\ known_epoch l k.

Lemma Deciding_known h l k : Deciding h l k -> known_epoch l k.
Proof. intros ([[_ _ A _ _] _ _ _ _ _] & _ & Hin & _). by apply (proj1 (Forall_forall _ _) A) in Hin. Qed.

Lemma defer_refused h l c r :
  spec (fun k => Failing c k /\ k_active k = None /\ known_epoch l k)
    (defer_failure_until_capture_release c r) (fun _ => Refused h l).
Proof.
  unfold defer_failure_until_capture_release.
  eapply (spec_bind _ _ _ (fun _ k => Closed c k /\ k_active k = None /\ known_epoch l k)).
  { apply close_gate_spec. intros k (Hf & Ha & Hl). destruct (Failing_closed c k Hf) as [H1 H2].
    destruct Hf as [_ _ H3 H4]. split; [by split|]. split; [done|].
    unfold known_epoch, closed_lease in *. cbn. by destruct (is_current c (k_lease k)). }
  intros ?. eapply (spec_bind _ _ _ (fun _ => Refused h l)); [|intros ?; apply spec_neutral; auto with neutral].
  apply spec_modify. intros s (Hc & Ha & Hl). split; [exact (Closed_deferred c r _ Hc)|]. done.
Qed.

Lemma authorize_inv h l p :
  spec (Deciding h l) (authorize_client_enter local_commit h l p)
    (fun b k => if b then Authorized h l k else Refused h l k).
Proof.
  unfold authorize_client_enter. eapply spec_bind; [apply (spec_get _ k_lease); done|]. intros m.
  destruct (gate_context m) as [c|] eqn:Ec.
  2: { apply spec_ret. intros k [Hd _]. split; [apply Hd|]. split; [by eapply Deciding_inactive|by eapply Deciding_known]. }
  assert (is_current c m = true) as Hcur.
  { apply is_current_spec. exists c. split; [done|]. by apply same_identity_spec. }
  assert (forall r, spec (fun k => Deciding h l k /\ m = k_lease k)
    (defer_failure_until_capture_release c r;; mret false)
    (fun b k => if b then Authorized h l k else Refused h l k)) as Hdefer.
  { intros r. eapply (spec_bind _ _ _ (fun _ => Refused h l)); [|intros ?; by apply spec_ret].
    eapply spec_weaken; [apply (defer_refused h l)| |done]. intros k [Hd ->].
    split; [apply LeaseInv_failing; [apply Hd|done]|]. split; [by eapply Deciding_inactive|by eapply Deciding_known]. }
  destruct (_ || _); [apply Hdefer|].
  eapply spec_bind; [apply neutral_readiness|]. intros [r|]; [|apply Hdefer].
  eapply spec_bind; [apply neutral_now|]. intros now.
  destruct (gate_commit _ _ _ _ _ m) as [res m'] eqn:Er. apply gate_commit_cases in Er as Hcases.
  destruct res as [[c' g]|e].
  2: { eapply (spec_bind _ _ _ (fun _ k => Failing c k /\ k_active k = None /\ known_epoch l k)).
       - apply spec_modify. intros s [Hd ->]. cbn [k_lease core_of] in *.
         split; [exact (Failing_rejected c _ m' (proj1 Hd) Hcur Hcases)|].
         split; [exact (Deciding_inactive h l _ Hd)|]. pose proof (Deciding_known h l _ Hd) as Hl.
         unfold known_epoch in *. cbn in *. by destruct Hcases as [-> | ->].
       - intros ?. eapply (spec_bind _ _ _ (fun _ => Refused h l)); [apply defer_refused|].
         intros ?. by apply spec_ret. }
  destruct Hcases as (Hs & (u & Hs') & <- & <- & Hn & _).
  set (Q := fun k => History k /\ k_pending k = None /\ k_active k = None
    /\ gm_state (k_lease k) = GateRemoteOwned c' g u
    /\ Forall (fun e => e < gl_lease_epoch (gc_lease c'))%N (decision_epochs k)
    /\ (exists server, k_server k = Some server /\ gc_target c' <> server)
    /\ known_epoch (gl_lease_epoch (gc_lease c')) k).
  eapply (spec_bind _ _ _ (fun _ => Q)).
  { apply spec_modify. intros s [Hd ->]. cbn [k_lease core_of] in *.
    pose proof Hd as ([[G S A P D] _ _ _ H5 _] & Hp & Hin & Hlt).
    pose proof (Deciding_inactive _ _ _ Hd) as Ha. pose proof (Deciding_known _ _ _ Hd) as Hk.
    unfold arm_epochs, decision_epochs, known_epoch in *. cbn in *.
    split; [|split; [done|]; split; [done|]; split; [done|]; split; [done|]; split].
    - split; unfold arm_epochs, decision_epochs; cbn; rewrite ?Hn; try done; [|intros c0 Hc0; congruence].
      eapply gate_move_ok; [exact G|]. eapply gate_step_move, gstep_commit, Er.
    - apply H5. unfold gate_context. by rewrite Hs.
    - unfold known_epoch. cbn. by rewrite Hn. }
  intros ?. eapply spec_bind; [apply neutral_hook|]. intros ?.
  eapply spec_bind; [apply spec_neutral; auto with neutral|]. intros ?.
  eapply (spec_bind _ _ _ (fun (b : bool) k => if b then Authorized (gc_handle c') (gl_lease_epoch (gc_lease c')) k else Q k)).
  { apply start_switch_task_spec; [done|].
    intros k e (H1 & H2 & H3 & H4 & H5 & H6 & H7) Ht ->. split; cbn; try done.
    - by eapply History_ext.
    - exists c', g, u, (k_next k + 1)%N. split; [done|]. split; [done|]. split; [done|]. split; [done|]. split; [lia|done]. }
  intros []; cbn [negb]; [by apply spec_ret|].
  eapply (spec_bind _ _ _ (fun _ => Refused (gc_handle c') (gl_lease_epoch (gc_lease c')))); [|intros ?; by apply spec_ret].
  eapply spec_weaken; [apply (defer_refused (gc_handle c') (gl_lease_epoch (gc_lease c')))| |done]. intros k (H1 & H2 & H3 & H4 & H5 & H6 & H7).
  split; [|done]. split; try done; [|congruence]. left. apply is_current_spec. exists c'.
  unfold gate_context. rewrite H4. split; [done|]. by apply same_identity_spec.
Qed.

(** Renewing keeps the invariant; a rejected renewal can be given up. *)
Lemma renew_lease_inv c until r now :
  spec (fun k => LeaseInv k /\ is_current c (k_lease k) = true) (renew_lease c until r now)
    (fun res k => match res with
       | inl _ => LeaseInv k /\ exists c' g u, gm_state (k_lease k) = GateRemoteOwned c' g u
       | inr _ => Failing c k
       end).
Proof.
  unfold renew_lease. eapply spec_bind; [apply (spec_get _ k_lease); done|]. intros m.
  destruct (gate_renew _ _ _ _ _ m) as [res m'] eqn:Er. apply renew_cases in Er as Hcases.
  eapply (spec_bind _ _ _ (fun _ k => match res with
       | inl _ => LeaseInv k /\ exists c' g u, gm_state (k_lease k) = GateRemoteOwned c' g u
       | inr _ => Failing c k
       end)); [|intros ?; by apply spec_ret].
  apply spec_modify. intros s [[Hk Hc] ->]. cbn [k_lease core_of] in *.
  destruct res as [[]|e]; [|exact (Failing_rejected c _ m' Hk Hc Hcases)].
  destruct Hcases as (c0 & g & u & c1 & Hs & Hs' & Hid & Hn). split; [|eauto].
  pose proof Hk as [[G _ _ _ _] H2 _ _ _ _].
  apply (LeaseInv_move _ m' c0 c1 Hk); cbn; unfold gate_context; rewrite ?Hs, ?Hs'; try done; eauto.
  - eapply gate_move_ok; [exact G|]. eapply gate_step_move, gstep_renew, Er.
  - intros t Ht. destruct (H2 t Ht) as [_ Hf]. cbn in Hf. rewrite Hs in Hf.
    destruct (st_kind t) as [c2 r2|c2 g2|c2|c2 r2 o2|t2 r2 d2]; cbn in *; try done;
      destruct Hf as (c3 & g3 & u3 & [= <- <- <-] & Hid3); exists c1, g, until; split; try done;
      apply same_identity_spec in Hid as (?&?&?&?&?&?); apply same_identity_spec in Hid3 as (?&?&?&?&?&?);
      apply same_identity_spec; repeat split; congruence.
Qed.

Lemma handle_committed_inv c res :
  spec (fun k => LeaseInv k /\ k_task k = None)
    (handle_committed local_commit req_is_timeout req_is_connect error_text c res) (fun _ => LeaseInv).
Proof.
  unfold handle_committed. eapply spec_bind; [apply (spec_get _ k_lease); done|]. intros m.
  destruct (is_current c m) eqn:Ec; cbn [negb]; [|apply spec_ret; by intros k [[Hk _] _]].
  destruct res as [until|e].
  2: { destruct (notification_detail _ _ _ _ e) as [reason detail].
       eapply spec_weaken; [apply fail_gate_with_detail_inv|by intros k [[Hk _] _]|done]. }
  eapply (spec_weaken _ _ (fun k => LeaseInv k /\ is_current c (k_lease k) = true) _ (fun _ => LeaseInv)); [|by intros k [[Hk _] ->]|done].
  eapply spec_bind; [apply spec_get_controller|]. intros [controller|].
  2: { eapply spec_weaken; [apply fail_current_inv|by intros k [Hk _]|done]. }
  case_bool_decide as Ht.
  { intros s [[Hk Hc] Hserver]. exfalso. apply is_current_spec in Hc as (c' & Hc' & Hid).
    destruct (li_target _ Hk c' Hc') as (server & Hs & Hne).
    apply same_identity_spec in Hid as (_ & Hid & _). cbn in *. congruence. }
  eapply spec_bind; [apply neutral_readiness|]. intros [r|].
  2: { eapply spec_weaken; [apply fail_current_inv|by intros k [Hk _]|done]. }
  eapply spec_bind; [apply spec_neutral; auto with neutral|]. intros now.
  eapply spec_bind; [eapply spec_weaken; [apply renew_lease_inv|by intros k [Hk _]|intros a k Hk; exact Hk]|].
  intros [[]|e]; [|apply fail_context_inv].
  eapply spec_bind; [apply spec_neutral; auto with neutral|]. intros ?.
  eapply spec_bind; [apply (spec_get _ (fun k => gate_context (k_lease k))); done|].
  intros [c0|].
  2: { intros s [[_ (c1 & g1 & u1 & Hs1)] Hc0]. unfold gate_context in Hc0. cbn in *. by rewrite Hs1 in Hc0. }
  eapply (spec_bind _ _ _ (fun b k => LeaseInv k /\ is_current c0 (k_lease k) = true)).
  { assert (forall m, Some c0 = gate_context m -> is_current c0 m = true) as Hcur.
    { intros m0 Hc0. apply is_current_spec. exists c0. split; [done|]. by apply same_identity_spec. }
    apply start_switch_task_spec.
    - intros k [[Hk _] Hc0]. split; [done|]. by apply Hcur.
    - intros k e [[Hk (c1 & g1 & u1 & Hs1)] Hc0] _ ->. split; [|by apply Hcur].
      apply spawn_local_inv; try done.
      + destruct (k_pending k) eqn:Ep; [|done]. destruct (li_pending _ Hk) as [Hl _]; [eauto|congruence].
      + cbn. exists c1, g1, u1. split; [done|]. unfold gate_context in Hc0. rewrite Hs1 in Hc0.
        injection Hc0 as ->. by apply same_identity_spec. }
  intros []; cbn; [apply spec_ret; by intros k [Hk _]|apply fail_current_inv].
Qed.

Lemma handle_renewed_inv e c res :
  spec LeaseInv (handle_renewed local_commit req_is_timeout req_is_connect error_text e c res) (fun _ => LeaseInv).
Proof.
  unfold handle_renewed. eapply spec_bind; [apply (spec_get _ k_lease); done|]. intros m.
  destruct (is_current c m) eqn:Ec; cbn [negb].
  2: { eapply spec_weaken; [apply cancel_switch_task_inv|by intros k [Hk _]|done]. }
  eapply (spec_weaken _ _ (fun k => LeaseInv k /\ is_current c (k_lease k) = true) _ (fun _ => LeaseInv)); [|by intros k [Hk ->]|done].
  assert (forall P : BundleLeaseManager -> Prop, forall e,
    spec (fun k => LeaseInv k /\ P (k_lease k)) (finish_switch_task e) (fun _ k => LeaseInv k /\ P (k_lease k))) as Hfin.
  { intros P e0. unfold finish_switch_task. eapply spec_bind; [apply neutral_get|]. intros t.
    case_bool_decide; cbn [negb]; [|by apply spec_ret].
    eapply (spec_bind _ _ _ (fun _ k => LeaseInv k /\ P (k_lease k))); [|intros ?; by apply spec_ret].
    apply spec_modify. intros s [Hk HP]. split; [exact (LeaseInv_no_task _ Hk)|exact HP]. }
  destruct res as [until|err].
  2: { eapply spec_bind; [apply (Hfin (fun m => is_current c m = true))|]. intros ?.
       destruct (notification_detail _ _ _ _ err) as [reason detail].
       eapply spec_weaken; [apply fail_gate_with_detail_inv|by intros k [Hk _]|done]. }
  eapply spec_bind; [apply neutral_readiness|]. intros [r|].
  2: { eapply spec_bind; [apply (Hfin (fun m => is_current c m = true))|]. intros ?. apply fail_current_inv. }
  eapply spec_bind; [apply neutral_now|]. intros now.
  eapply spec_bind; [apply renew_lease_inv|]. intros [[]|err].
  - eapply spec_weaken; [apply (spec_neutral _ LeaseInv); auto with neutral|by intros k [Hk _]|done].
  - eapply (spec_bind _ _ _ (fun _ => Failing c)); [|intros ?; apply fail_context_inv].
    unfold finish_switch_task. eapply spec_bind; [apply neutral_get|]. intros t.
    case_bool_decide; cbn [negb]; [|by apply spec_ret].
    eapply (spec_bind _ _ _ (fun _ => Failing c)); [|intros ?; by apply spec_ret].
    apply spec_modify. intros s [H1 H2 H3 H4]. split; try done. by eapply History_ext.
Qed.

Lemma readiness_change_inv h :
  spec LeaseInv (handle_peer_readiness_change local_commit h) (fun _ => LeaseInv).
Proof.
  unfold handle_peer_readiness_change. eapply spec_bind; [apply (spec_get _ k_lease); done|]. intros m.
  destruct (gate_context m) as [c|] eqn:Ec; [|apply spec_ret; by intros k [Hk _]].
  case_bool_decide; cbn [negb]; [|apply spec_ret; by intros k [Hk _]].
  assert (is_current c m = true) as Hcur.
  { apply is_current_spec. exists c. split; [done|]. by apply same_identity_spec. }
  eapply (spec_weaken _ _ (fun k => LeaseInv k /\ is_current c (k_lease k) = true) _ (fun _ => LeaseInv)); [|by intros k [Hk ->]|done].
  eapply spec_bind; [apply neutral_readiness|]. intros [r|]; [|apply fail_current_inv].
  destruct (_ || _ || _ || _); [apply fail_current_inv|]. apply spec_ret. by intros k [Hk _].
Qed.

Lemma switch_deadline_inv : spec LeaseInv (handle_switch_deadline local_commit) (fun _ => LeaseInv).
Proof.
  unfold handle_switch_deadline. eapply spec_bind; [apply spec_neutral; auto with neutral|]. intros ?.
  eapply spec_bind; [apply neutral_now|]. intros now.
  eapply spec_bind; [apply (spec_get _ k_lease); done|]. intros m.
  destruct (gate_expire now m) as [expired m'] eqn:Ee.
  eapply (spec_bind _ _ _ (fun _ k => match expired with Some c => Failing c k | None => LeaseInv k end)).
  { apply spec_modify. intros s [Hk ->]. cbn [k_lease core_of] in *. unfold gate_expire in Ee.
    destruct (match gm_state (sv_bundle_lease s) with GateLocal => _ | _ => _ end).
    - injection Ee as <- <-. exact (LeaseInv_invalidate _ Hk).
    - injection Ee as <- <-. exact Hk. }
  intros ?. destruct expired; [apply fail_context_inv|]. apply spec_neutral. auto with neutral.
Qed.
End steps.

#[export] Hint Resolve neutral_now neutral_deadline neutral_readiness neutral_edge_confirms : neutral.
