(* ===== verification/ServiceEvents.v ===== *)
(** * Every event keeps the lease invariant

    What the service does for its clients, the frontend and the resolver
    leaves the lease alone; the events of the switch operations and of the
    capture task move it the way ServiceTheorems.v shows. *)

From stdpp Require Import base tactics list gmap sets strings.
From Stdlib Require Import NArith ZArith Lia Sorted Strings.Byte.
From S2P Require Import Prelude Domain SwitchGate SwitchGateTheorems SwitchClient ClipTypes Scancode CaptureTask Clients Service ServiceTheorems.

Section events.
Variable local_commit : list byte.
Variable ip_iter : gset N -> list N.
Variable slab_iter : Clients -> list (N * (ClientConfig * ClientState)).
Variable info_iter : gmap N Incoming -> list (N * Incoming).
Variable instant_max : N.
Variable public_key_fingerprint : string.
Context {ReqError JsonError : Type}.
Variables (req_is_timeout req_is_connect : ReqError -> bool).
Abbreviation ClientError := (SwitchClientError (ReqError:=ReqError) (JsonError:=JsonError)).
Variable error_text : ClientError -> string.

(** ** Clients, barriers and the frontend *)

Lemma neutral_with_clients {A} (f : Clients -> A * Clients) : neutral (with_clients f).
Proof.
  unfold with_clients. apply neutral_bind; [auto with neutral|]. intros m. destruct (f m). auto with neutral.
Qed.

#[local] Hint Resolve neutral_with_clients : neutral.

Lemma neutral_broadcast h : neutral (broadcast_client h).
Proof. unfold broadcast_client. auto with neutral. Qed.
Lemma neutral_resolve h : neutral (resolve h).
Proof. unfold resolve. auto with neutral. Qed.
#[local] Hint Resolve neutral_broadcast neutral_resolve : neutral.

Lemma neutral_deactivate h : neutral (service_deactivate h).
Proof. unfold service_deactivate. auto with neutral. Qed.
#[local] Hint Resolve neutral_deactivate : neutral.

Lemma neutral_activate h : neutral (service_activate slab_iter h).
Proof. unfold service_activate. auto 10 with neutral. Qed.
#[local] Hint Resolve neutral_activate : neutral.

Lemma neutral_remove_client h : neutral (service_remove_client h).
Proof. unfold service_remove_client. auto with neutral. Qed.

Lemma neutral_enumerate : neutral (enumerate slab_iter).
Proof. unfold enumerate. auto with neutral. Qed.
#[local] Hint Resolve neutral_remove_client neutral_enumerate : neutral.

Lemma neutral_sync : neutral (sync_frontend slab_iter public_key_fingerprint).
Proof. unfold sync_frontend. auto 10 with neutral. Qed.

Lemma neutral_restart_clipboard : neutral restart_clipboard.
Proof. unfold restart_clipboard. auto with neutral. Qed.
#[local] Hint Resolve neutral_sync neutral_restart_clipboard : neutral.

(** A client that was just added is found. *)
Lemma neutral_added (f : Clients -> Clients) key msg (body : ClientConfig * ClientState -> svc unit) :
  (forall m, is_Some (get_state key (f m))) -> (forall x, neutral (body x)) ->
  neutral (update_clients f;; m ← get sv_clients;
           match get_state key m with Some x => body x | None => panics msg end).
Proof.
  intros Hf Hb P s Hs. unfold update_clients, modify, get, mbind, svc_bind, exec_bind. cbn.
  destruct (Hf (sv_clients s)) as [x ->]. by apply (Hb x P).
Qed.

Lemma neutral_add_client key : neutral (service_add_client key).
Proof.
  unfold service_add_client.
  pose proof (neutral_added (add_client key) key "called `Option::unwrap()` on a `None` value"
    (fun '(c, s) => notify_frontend (FeCreated key c s))) as H.
  assert (neutral (update_clients (add_client key);; m ← get sv_clients;
    match get_state key m with
    | Some x => let '(c, s) := x in notify_frontend (FeCreated key c s)
    | None => panics "called `Option::unwrap()` on a `None` value" end)) as H'; [|exact H'].
  apply H; [|intros []; auto with neutral]. intros m. eexists. apply lookup_insert_eq.
Qed.

Lemma add_with_config_lookup key cc m : get_state key (add_with_config ip_iter key cc m)
  = Some (mkClientConfig (fc_hostname cc) (ip_iter (fc_ips cc)) (fc_port cc) (fc_pos cc) (fc_switch_target cc),
          client_state_default <| cs_active := fc_active cc |> <| cs_ips := list_to_set (ip_iter (fc_ips cc)) |>).
Proof.
  unfold get_state, add_with_config, set_state, set_config, update_client, add_client.
  etrans; [apply lookup_alter_eq|]. etrans; [apply f_equal, lookup_alter_eq|].
  etrans; [apply f_equal, f_equal, lookup_insert_eq|]. done.
Qed.

Lemma neutral_config_add kc : neutral (config_add_client ip_iter slab_iter kc).
Proof.
  destruct kc as [key cc]. unfold config_add_client.
  pose proof (neutral_added (add_with_config ip_iter key cc) key "called `Option::unwrap()` on a `None` value"
    (fun '(c, st) => when (cs_active st) (with_clients (deactivate_client key);; service_activate slab_iter key);;
      notify_frontend (FeCreated key c st))) as H.
  apply H; [intros m; rewrite add_with_config_lookup; eauto|]. intros [c st]. auto 10 with neutral.
Qed.
#[local] Hint Resolve neutral_add_client neutral_config_add : neutral.

Lemma neutral_frontend key r : neutral (handle_frontend_request slab_iter public_key_fingerprint key r).
Proof.
  destruct r; cbn [handle_frontend_request]; unfold set_client_active, add_authorized_key, remove_authorized_key,
    update_keys, change_port, update_fix_ips, update_hostname, update_port, update_pos, update_switch_target,
    save_config; auto 10 with neutral.
Qed.

Lemma neutral_resolver e : neutral (handle_resolver_event e).
Proof. destruct e; cbn [handle_resolver_event]; auto 10 with neutral. Qed.

(** ** Incoming connections *)

Lemma neutral_add_incoming addr pos fp : neutral (add_incoming addr pos fp).
Proof. unfold add_incoming. auto 10 with neutral. Qed.

Lemma neutral_remove_incoming addr : neutral (remove_incoming info_iter addr).
Proof.
  unfold remove_incoming. apply neutral_bind; [auto with neutral|]. intros m.
  destruct (find_incoming info_iter addr m) as [[h i]|]; auto with neutral.
Qed.
#[local] Hint Resolve neutral_add_incoming neutral_remove_incoming : neutral.

Lemma neutral_update_incoming addr pos fp : neutral (update_incoming info_iter addr pos fp).
Proof.
  unfold update_incoming. apply neutral_bind; [auto with neutral|]. intros m.
  destruct (find_incoming info_iter addr m) as [[h i]|]; [auto 10 with neutral|].
  apply neutral_same. intros s. right. by right.
Qed.
#[local] Hint Resolve neutral_update_incoming : neutral.

Abbreviation event_inv m := (spec LeaseInv m (fun _ => LeaseInv)).

Lemma emulation_event_inv e : event_inv (handle_emulation_event local_commit slab_iter info_iter e).
Proof.
  destruct e as [addr fp|fp|addr pos fp|addr|[port|err]|ep|kr pr ep| |addr commit|addr re];
    cbn [handle_emulation_event]; try (apply spec_neutral; auto 10 with neutral; fail).
  - eapply spec_bind; [apply neutral_get|]. intros m. eapply (spec_bind _ _ _ (fun _ => LeaseInv)).
    + destruct (get_client slab_iter addr m) as [h|]; [|by apply spec_ret].
      eapply spec_bind; [apply spec_neutral; auto with neutral|]. intros ?.
      eapply spec_bind; [apply spec_neutral; auto with neutral|]. intros ?. apply readiness_change_inv.
    + intros ?. eapply spec_bind; [apply spec_neutral; auto with neutral|].
      intros [removed|]; apply spec_neutral; auto with neutral.
  - eapply spec_bind; [apply neutral_get|]. intros m.
    destruct (get_client slab_iter addr m) as [h|]; [|by apply spec_ret].
    eapply spec_bind; [apply neutral_with_clients|]. intros []; cbn [when]; [|by apply spec_ret].
    eapply spec_bind; [apply spec_neutral; auto with neutral|]. intros ?. apply readiness_change_inv.
Qed.

Lemma switch_event_inv e :
  event_inv (handle_switch_task_event local_commit req_is_timeout req_is_connect error_text e).
Proof.
  destruct e as [ep c r|ep c g r|ep c r|ep rid r|ep target reason detail r]; cbn [handle_switch_task_event].
  - eapply spec_bind; [apply finish_switch_task_inv|]. intros []; cbn [when].
    + eapply spec_weaken; [apply handle_prepared_inv| |done]. intros k [Hk Ht]. auto.
    + apply spec_ret. by intros k [Hk _].
  - eapply spec_bind; [apply finish_switch_task_inv|]. intros []; cbn [when].
    + eapply spec_weaken; [apply handle_committed_inv| |done]. intros k [Hk Ht]. auto.
    + apply spec_ret. by intros k [Hk _].
  - eapply spec_bind; [apply neutral_get|]. intros t. apply spec_when. intros _. apply handle_renewed_inv.
  - eapply spec_bind; [apply finish_switch_task_inv|]. intros ?. apply spec_ret. by intros k [Hk _].
  - eapply spec_bind; [apply finish_switch_task_inv|]. intros ok.
    eapply spec_weaken; [apply (spec_neutral _ LeaseInv); auto with neutral|by intros k [Hk _]|done].
Qed.

(** ** The capture task *)

(** What the capture task keeps to: while a failed lease waits for the release
    of the capture, no edge is touched and no permit is used; a permit that is
    used was armed and is newer than those decided before; a denied capture is
    reported for the last decision. *)
Definition legal_capture (k : Core) (e : ICaptureEvent) : Prop :=
  match e with
  | CaptureCandidate _ => k_pending k = None
  | CommitRequested _ l _ =>
      k_pending k = None /\ l ∈ arm_epochs k /\ Forall (fun e => e < l)%N (decision_epochs k)
  | CommitDeniedReleased h l => last (k_decisions k) = Some (h, l, false)
  | _ => True
  end.

Lemma last_snoc_eq {A} (l : list A) x : last (l ++ [x]) = Some x.
Proof. apply last_snoc. Qed.

Lemma Authorized_decided h l k : Authorized h l k ->
  LeaseInv (k <| k_active := Some (h, l) |> <| k_decisions := k_decisions k ++ [(h, l, true)] |>).
Proof.
  intros [[G S A P D] (c & g & u & e & Hs & Hh & Hl & Ht & He & Hserver) H3 H4 H5].
  assert (gm_next_lease_epoch (k_lease k) = l) as Hn.
  { destruct (go_context _ G c) as [He' _]; [unfold gate_context; by rewrite Hs|]. congruence. }
  unfold arm_epochs, decision_epochs in *. split; cbn.
  - split; unfold arm_epochs, decision_epochs; cbn; try done. rewrite map_app. apply Forall_app.
    split; [done|]. constructor; [cbn; lia|constructor].
  - rewrite Ht. intros t [= <-]. cbn. split; [done|]. exists c, g, u. split; [done|]. by apply same_identity_spec.
  - intros h' l' [= <- <-]. split; [by rewrite last_snoc|]. left. exists c, g, u. auto.
  - rewrite H3. by intros [? [=]].
  - intros c'. unfold gate_context. rewrite Hs. intros [= <-]. done.
  - intros c' g' u' Hs'. rewrite Hs in Hs'. injection Hs' as <- <- <-. unfold decision_epochs. cbn.
    rewrite map_app, elem_of_app. right. cbn. apply list_elem_of_singleton. done.
Qed.

Lemma Refused_decided h l k : Refused h l k ->
  LeaseInv (k <| k_decisions := k_decisions k ++ [(h, l, false)] |>).
Proof.
  intros ([[G S A P D] H2 H3 H4 H5 H6] & Ha & Hl). unfold arm_epochs, decision_epochs, known_epoch in *.
  split; cbn; try done.
  - split; unfold arm_epochs, decision_epochs; cbn; try done. rewrite map_app. apply Forall_app.
    split; [done|]. constructor; [cbn; lia|constructor].
  - congruence.
  - intros c g u Hs. unfold decision_epochs. cbn. rewrite map_app, elem_of_app. left. by eapply H6.
Qed.

Lemma decision_inv h l b w :
  spec (fun k => if b : bool then exists k0, Authorized h l k0 /\ k = k0 <| k_active := Some (h, l) |> else Refused h l k)
    (out (ODecision h l b w))
    (fun _ k => LeaseInv k).
Proof.
  apply spec_modify. intros s Hs. unfold core_of. cbn. rewrite arms_snoc, decisions_snoc, app_nil_r.
  destruct b.
  - destruct Hs as (k0 & Hk0 & E). apply Authorized_decided in Hk0. destruct k0. unfold core_of in E. cbn in *.
    injection E as -> -> -> -> -> -> -> ->. exact Hk0.
  - apply Refused_decided in Hs. exact Hs.
Qed.

Lemma commit_requested_inv h l p rid lid w :
  spec (Deciding h l) (service_capture_event local_commit instant_max rid lid w (CommitRequested h l p))
    (fun _ => LeaseInv).
Proof.
  cbn [service_capture_event]. eapply spec_bind; [apply authorize_inv|]. intros authorized.
  eapply (spec_bind _ _ _ (fun _ k => if authorized : bool
    then exists k0, Authorized h l k0 /\ k = k0 <| k_active := Some (h, l) |> else Refused h l k)).
  { destruct authorized; cbn [when]; [|by apply spec_ret].
    apply spec_modify. intros s Hs. eexists. split; [exact Hs|]. done. }
  intros ?. eapply spec_bind; [apply decision_inv|]. intros ?.
  eapply spec_bind; [apply (spec_get _ k_lease); done|]. intros m.
  destruct (_ && _); cbn [when]; [|apply spec_ret; by intros k [Hk _]].
  destruct (gate_context m) as [c|] eqn:Ec; [|apply spec_ret; by intros k [Hk _]].
  eapply spec_weaken; [apply fail_current_inv| |done]. intros k [Hk ->]. split; [done|].
  apply is_current_spec. exists c. split; [done|]. by apply same_identity_spec.
Qed.

(** The capture is over: the cleanup that waited for it, or else [m]. *)
Lemma capture_over_inv m :
  spec (fun k => Idle_capture k /\ k_pending k = None) m (fun _ => LeaseInv) ->
  spec LeaseInv (modify (fun s => s <| sv_active_switch_capture := None |>);; complete_or local_commit m)
    (fun _ => LeaseInv).
Proof.
  intros Hm. eapply (spec_bind _ _ _ (fun _ => Idle_capture)).
  - apply spec_modify. intros s Hs. split; [exact (LeaseInv_no_active _ Hs)|done].
  - intros ?. by apply complete_or_inv.
Qed.

Lemma denied_inv h l rid lid w :
  spec (fun k => LeaseInv k /\ last (k_decisions k) = Some (h, l, false))
    (service_capture_event local_commit instant_max rid lid w (CommitDeniedReleased h l)) (fun _ => LeaseInv).
Proof.
  cbn [service_capture_event].
  assert (forall k, LeaseInv k /\ last (k_decisions k) = Some (h, l, false) -> Idle_capture k) as Hidle.
  { intros k [Hk Hl]. split; [done|]. destruct (k_active k) as [[h' l']|] eqn:Ea; [|done].
    destruct (li_active _ Hk _ _ Ea) as [Hl' _]. congruence. }
  eapply spec_bind; [apply neutral_get|]. intros active.
  eapply (spec_bind _ _ _ (fun _ => Idle_capture)).
  { eapply spec_weaken; [apply (spec_when _ _ Idle_capture)|exact Hidle|done].
    intros _. apply spec_modify. intros s [Hs _]. split; [exact (LeaseInv_no_active _ Hs)|done]. }
  intros ?. eapply spec_bind; [apply neutral_get|]. intros m. apply complete_or_inv.
  destruct (match gate_context m with Some _ => _ | None => false end); cbn [when]; [apply release_gate_inv|].
  apply spec_ret. by intros k [[Hk _] _].
Qed.

Lemma neutral_begin h rid lid w : neutral (service_capture_event local_commit instant_max rid lid w (CaptureBegin h)).
Proof.
  cbn [service_capture_event]. apply neutral_bind; [auto with neutral|]. intros m.
  destruct (m !! h) as [i|]; [|auto with neutral].
  apply neutral_bind; [auto with neutral|]. intros ?. apply neutral_bind; [auto with neutral|]. intros n.
  destruct (checked_add n 1); [auto with neutral|]. apply neutral_same. intros s. right. by left.
Qed.

Lemma capture_event_inv rid lid w e :
  spec (fun k => LeaseInv k /\ legal_capture k e)
    (service_capture_event local_commit instant_max rid lid w e) (fun _ => LeaseInv).
Proof.
  assert (forall m : svc unit, event_inv m -> forall P : Core -> Prop,
    spec (fun k => LeaseInv k /\ P k) m (fun _ => LeaseInv)) as Hany.
  { intros m Hm P. eapply spec_weaken; [exact Hm|by intros k [Hk _]|done]. }
  destruct e as [h| | |h|h|h l p|h l|h reason|h|h re]; cbn [legal_capture].
  - apply Hany, spec_neutral, neutral_begin.
  - apply Hany. cbn [service_capture_event].
    do 4 (eapply spec_bind; [apply spec_neutral; auto with neutral|]; intros ?).
    apply capture_over_inv, release_gate_inv.
  - apply Hany, spec_neutral. cbn [service_capture_event]. auto with neutral.
  - apply candidate_inv.
  - apply Hany, spec_neutral. cbn [service_capture_event]. auto with neutral.
  - eapply spec_weaken; [apply commit_requested_inv| |done]. by intros k [Hk (Hp & Hin & Hlt)].
  - apply denied_inv.
  - apply Hany. cbn [service_capture_event]. eapply spec_bind; [apply neutral_get|]. intros p.
    eapply spec_bind; [apply spec_neutral; auto with neutral|]. intros ?.
    eapply (spec_bind _ _ _ (fun _ => LeaseInv)); [apply spec_neutral; destruct reason, p as [[]|]; auto with neutral|].
    intros ?. apply capture_over_inv, release_gate_inv.
  - apply Hany. cbn [service_capture_event].
    eapply spec_bind; [apply spec_neutral; auto with neutral|]. intros ?. apply readiness_change_inv.
  - apply Hany, spec_neutral. cbn [service_capture_event]. auto 10 with neutral.
Qed.

(** ** A new configuration *)

Definition is_local (k : Core) : Prop := gm_state (k_lease k) = GateLocal.

Lemma fail_context_local c r d : spec (Failing c) (fail_context_inner local_commit c r d) (fun _ => is_local).
Proof.
  unfold fail_context_inner. eapply (spec_bind _ _ _ (fun _ => is_local)).
  { eapply spec_weaken; [apply close_gate_closed|done|]. intros ? k Hk. apply Hk. }
  intros ?. eapply spec_bind; [apply spec_neutral; unfold notify_failure; auto with neutral|]. intros ?.
  eapply spec_bind; [apply neutral_get|]. intros active. case_bool_decide.
  - eapply (spec_bind _ _ _ (fun _ => is_local)); [by apply spec_modify|].
    intros ?. apply spec_neutral. auto with neutral.
  - unfold start_cleanup_task. eapply spec_bind; [apply neutral_readiness|]. intros ro.
    eapply (spec_bind _ _ _ (fun _ => is_local)); [|intros ?; by apply spec_ret]. by apply start_switch_task_spec.
Qed.

Lemma fail_gate_local reason : spec LeaseInv (fail_gate local_commit reason) (fun _ => is_local).
Proof.
  eapply (spec_bind _ _ _ (fun o k => match o with Some c => Failing c k | None => is_local k end)).
  - apply invalidate_lease_spec. intros k Hk. pose proof (LeaseInv_invalidate k Hk) as H.
    by destruct (gate_context (k_lease k)).
  - intros [c|]; [apply fail_context_local|by apply spec_ret].
Qed.

Lemma LeaseInv_server k server : LeaseInv k -> is_local k -> LeaseInv (k <| k_server := server |>).
Proof.
  intros [H1 H2 H3 H4 H5 H6] Hl. split; cbn; try done; [by eapply History_ext|].
  intros c Hc. by apply context_not_local in Hc.
Qed.

Lemma config_change_inv cfg :
  event_inv (handle_config_change local_commit ip_iter slab_iter public_key_fingerprint cfg).
Proof.
  unfold handle_config_change.
  eapply spec_bind; [apply spec_and; [apply fail_gate_inv|apply fail_gate_local]|]. intros ?. cbn beta.
  eapply (spec_bind _ _ _ (fun _ => LeaseInv)).
  { apply spec_modify. intros s [Hk Hl]. exact (LeaseInv_server _ _ Hk Hl). }
  intros ?. apply spec_neutral. auto 20 with neutral.
Qed.

(** ** Runs *)

Abbreviation step := (service_step local_commit ip_iter slab_iter info_iter instant_max public_key_fingerprint
  req_is_timeout req_is_connect error_text).

Definition legal_event (k : Core) (e : ServiceEvent (ReqError:=ReqError) (JsonError:=JsonError)) : Prop :=
  match e with SvCapture _ _ _ e => legal_capture k e | _ => True end.

Lemma step_inv e : spec (fun k => LeaseInv k /\ legal_event k e) (step e) (fun _ => LeaseInv).
Proof.
  assert (forall m : svc unit, event_inv m -> spec (fun k => LeaseInv k /\ True) m (fun _ => LeaseInv)) as Hany.
  { intros m Hm. eapply spec_weaken; [exact Hm|by intros k [Hk _]|done]. }
  destruct e; cbn [service_step legal_event]; try apply Hany.
  - apply spec_neutral. auto with neutral.
  - apply spec_neutral, neutral_frontend.
  - apply emulation_event_inv.
  - apply capture_event_inv.
  - apply spec_neutral, neutral_resolver.
  - apply switch_event_inv.
  - apply switch_deadline_inv.
  - apply config_change_inv.
Qed.
End events.
