(* ===== verification/ServiceClaims.v ===== *)
(** * What the service promises about the lease and the capture

    Runs of the service from its start, the exact condition under which a
    capture may become remote, and what failing a lease does. *)

From stdpp Require Import base tactics list gmap sets strings.
From Stdlib Require Import NArith ZArith Lia Sorted Strings.Byte.
From S2P Require Import Prelude Domain SwitchGate SwitchGateTheorems SwitchClient ClipTypes Scancode CaptureTask Clients Service ServiceTheorems ServiceEvents.

Section runs.
Variable local_commit : list byte.
Variable ip_iter : gset N -> list N.
Variable slab_iter : Clients -> list (N * (ClientConfig * ClientState)).
Variable info_iter : gmap N Incoming -> list (N * Incoming).
Variable instant_max : N.
Variable public_key_fingerprint : string.
Context {ReqError JsonError : Type}.
Variables (req_is_timeout req_is_connect : ReqError -> bool).
Variable error_text : SwitchClientError (ReqError:=ReqError) (JsonError:=JsonError) -> string.

Abbreviation step := (service_step local_commit ip_iter slab_iter info_iter instant_max public_key_fingerprint
  req_is_timeout req_is_connect error_text).

(** [run]: the start and then one event after the other. *)
Definition run (events : list (ServiceEvent (ReqError:=ReqError) (JsonError:=JsonError))) : svc unit :=
  service_start slab_iter;; for_each step events.

(** Every event of the run is legal when it comes. *)
Fixpoint legal_events (legal : Service -> ServiceEvent (ReqError:=ReqError) (JsonError:=JsonError) -> Prop)
    (events : list (ServiceEvent (ReqError:=ReqError) (JsonError:=JsonError))) (s : Service) : Prop :=
  match events with
  | [] => True
  | e :: rest => legal s e /\
      match step e s with Ret (_, s') => legal_events legal rest s' | _ => True end
  end.

Definition legal_run (legal : Service -> ServiceEvent -> Prop) (events : list ServiceEvent) (s : Service) : Prop :=
  match service_start slab_iter s with Ret (_, s') => legal_events legal events s' | _ => True end.

(** The capture task keeps to its part. *)
Definition capture_legal (s : Service) (e : ServiceEvent (ReqError:=ReqError) (JsonError:=JsonError)) : Prop :=
  legal_event (core_of s) e.

Lemma new_inv clients controller port authorized clock instants hooks :
  LeaseInv (core_of (service_new ip_iter clients controller port authorized clock instants hooks)).
Proof.
  split; cbn; try done.
  split; cbn; try done; try constructor; done.
Qed.

Lemma start_neutral : vneutral core_of tolerated (service_start slab_iter).
Proof.
  unfold service_start. apply neutral_bind; [auto with neutral|]. intros m.
  apply neutral_bind; [apply neutral_for_each; intros h; apply neutral_bind; [apply neutral_with_clients|auto with neutral]|].
  intros ?. apply neutral_for_each. apply neutral_activate.
Qed.

Lemma events_inv events s : LeaseInv (core_of s) -> legal_events capture_legal events s ->
  match for_each step events s with
  | Ret (_, s') => LeaseInv (core_of s') | Throw _ => False | Panic msg => tolerated msg
  end.
Proof.
  revert s. induction events as [|e rest IH]; intros s Hs Hl; [done|]. destruct Hl as [He Hl].
  pose proof (step_inv local_commit ip_iter slab_iter info_iter instant_max public_key_fingerprint
    req_is_timeout req_is_connect error_text e s (conj Hs He)) as H.
  cbn [for_each]. unfold mbind, svc_bind, exec_bind. destruct (step e s) as [[a s']|[]|msg]; [|done]. by apply IH.
Qed.

(** C24: The lease, the switch operation and the capture agree in every run of
    the service, from its start, in which the capture task keeps to its part: an
    active capture is the one the capture task was last told it may enter, and
    its lease is owned or given up and waiting for the release of that capture;
    then no operation runs and the bundle is local.  The running operation
    belongs to the current lease, no lease is for the server itself, an owned
    lease was decided on, and permits were armed for strictly increasing lease
    epochs.  The service panics at most when a counter is exhausted or an
    address is missing among the incoming connections. *)
Theorem service_lease_invariant clients controller port authorized clock instants hooks events :
  let s := service_new ip_iter clients controller port authorized clock instants hooks in
  legal_run capture_legal events s ->
  match run events s with
  | Ret (_, s') => LeaseInv (core_of s') | Throw _ => False | Panic msg => tolerated msg
  end.
Proof.
  intros s Hl. pose proof (start_neutral LeaseInv s) as H.
  specialize (H (new_inv _ _ _ _ _ _ _)). unfold legal_run in Hl. unfold run, mbind, svc_bind, exec_bind.
  destruct (service_start slab_iter s) as [[a s']|[]|msg]; [|done]. by apply events_inv.
Qed.
End runs.

(** ** Entering a client *)

(** Closing the gate for the current context. *)
Definition closing (c : GateContext) (s : Service) : Prop :=
  is_current c (sv_bundle_lease s) = true \/ gm_state (sv_bundle_lease s) = GateLocal.

(** The state [close_gate] leaves. *)
Definition gate_closed (c : GateContext) (s : Service) : Service :=
  s <| sv_hooks := fun n => sv_hooks s (S n) |>
    <| sv_bundle_lease := closed_lease c (sv_bundle_lease s) |>
    <| sv_switch_task := None |> <| sv_switch_deadline := None |>
    <| sv_out := sv_out s ++ OHook (HookCancel (TrOutgoing (gl_lease_epoch (gc_lease c))) Canceled) (sv_hooks s 0)
         :: OCapture (CallDisarm (gl_lease_epoch (gc_lease c)))
         :: match sv_switch_task s with Some t => [OAbort t] | None => [] end |>.

Lemma close_gate_runs c s : close_gate c s = Ret (tt, gate_closed c s).
Proof.
  unfold close_gate, gate_closed, closed_lease, hook, get, modify, out, capture_call, out, when, cancel_switch_task,
    invalidate_lease, gate_invalidate, mbind, svc_bind, exec_bind, mret, svc_ret.
  destruct s. cbn. destruct (is_current c sv_bundle_lease), sv_switch_task; cbn; rewrite <- ?app_assoc.
  all: reflexivity.
Qed.

Lemma gate_closed_local c s : closing c s -> gm_state (sv_bundle_lease (gate_closed c s)) = GateLocal.
Proof. unfold closing, gate_closed, closed_lease. cbn. destruct (is_current c (sv_bundle_lease s)); [done|]. by intros []. Qed.

Lemma defer_runs c r s : closing c s ->
  exists s', defer_failure_until_capture_release c r s = Ret (tt, s')
    /\ gm_state (sv_bundle_lease s') = GateLocal /\ sv_pending_switch_cleanup s' = Some (c, r)
    /\ sv_switch_task s' = None /\ OCapture (CallDisarm (gl_lease_epoch (gc_lease c))) ∈ drop (length (sv_out s)) (sv_out s').
Proof.
  intros Hc. unfold defer_failure_until_capture_release, mbind, svc_bind, exec_bind. rewrite close_gate_runs.
  eexists. split; [reflexivity|]. split; [by apply gate_closed_local|]. split; [done|]. split; [done|].
  unfold gate_closed. cbn. rewrite <- app_assoc, drop_app_length. set_solver.
Qed.

Section entering.
Variable local_commit : list byte.

(** Everything that has to hold for a capture to become remote. *)
Definition may_enter (h l p : N) (s : Service) : Prop :=
  exists c g r controller, gm_state (sv_bundle_lease s) = GateGrantArmed c g
    /\ gc_handle c = h /\ gl_lease_epoch (gc_lease c) = l /\ gl_peer_session_epoch (gc_lease c) = p
    /\ readiness_of local_commit h (sv_clients s) = Some r /\ pb_ready r = true /\ pb_session_epoch r = p
    /\ sv_switch_controller s = Some controller /\ sv_switch_task s = None
    /\ (sv_clock s 0 < gl_expires_at_ms (gc_lease c))%N /\ (sv_clock s 0 < gg_expires_at_ms g)%N.

(** After an authorization the lease is owned and its commit is being sent. *)
Definition entered (h l : N) (s s' : Service) : Prop :=
  exists c g u, gm_state (sv_bundle_lease s) = GateGrantArmed c g
    /\ gm_state (sv_bundle_lease s') = GateRemoteOwned c g u
    /\ gc_handle c = h /\ gl_lease_epoch (gc_lease c) = l
    /\ sv_switch_task s' = Some (mkSwitchTask (sv_next_switch_task_epoch s + 1) (TkCommit c g)).

Definition refused (s s' : Service) : Prop :=
  gm_state (sv_bundle_lease s') = GateLocal
  /\ forall c, gate_context (sv_bundle_lease s) = Some c ->
       (exists c' r, sv_pending_switch_cleanup s' = Some (c', r) /\ same_identity c c' = true)
       /\ sv_switch_task s' = None.

Lemma defer_refuses c r s s0 : closing c s ->
  gate_context (sv_bundle_lease s0) = Some c ->
  exists s', (defer_failure_until_capture_release c r;; mret false) s = Ret (false, s') /\ refused s0 s'.
Proof.
  intros Hc H0. destruct (defer_runs c r s Hc) as (s' & E & Hl & Hp & Ht & _). exists s'.
  unfold mbind at 1, svc_bind, exec_bind. rewrite E. split; [done|]. split; [done|].
  intros c' Hc'. rewrite H0 in Hc'. injection Hc' as <-. split; [|done]. exists c, r. split; [done|].
  by apply same_identity_spec.
Qed.

Lemma reset_deadline_runs s : exists d n, reset_switch_deadline s
  = Ret (tt, s <| sv_clock := n |> <| sv_switch_deadline := d |>).
Proof.
  unfold reset_switch_deadline, controller_now_ms, read_clock, get, modify, mbind, svc_bind, exec_bind, mret, svc_ret.
  destruct (gate_deadline_ms (sv_bundle_lease s)) as [d|].
  - destruct (sv_switch_controller s).
    + exists (Some (d - sv_clock s 0)%N), (fun n => sv_clock s (S n)). destruct s. unfold set. cbn. reflexivity.
    + exists (Some (d - u64_max)%N), (sv_clock s). destruct s. unfold set. cbn. reflexivity.
  - exists None, (sv_clock s). destruct s. unfold set. cbn. reflexivity.
Qed.

(** Starting an operation when none runs. *)
Lemma start_task_runs kind s :
  (sv_next_switch_task_epoch s < u64_max)%N -> sv_switch_controller s <> None -> sv_switch_task s = None ->
  start_switch_task kind s = Ret (true,
    let t := mkSwitchTask (sv_next_switch_task_epoch s + 1) kind in
    s <| sv_next_switch_task_epoch := st_epoch t |> <| sv_out := sv_out s ++ [OSpawn t] |> <| sv_switch_task := Some t |>).
Proof.
  intros Hn Hc Ht. unfold start_switch_task, begin_switch_task, spawn_switch_task, out, get, modify, mbind, svc_bind,
    exec_bind, mret, svc_ret. cbn. destruct (sv_switch_controller s); [|done]. cbn. rewrite Ht. cbn.
  unfold checked_add. replace (sv_next_switch_task_epoch s + 1 <=? u64_max)%N with true by (symmetry; apply N.leb_le; lia).
  reflexivity.
Qed.

Lemma start_task_refused kind s : sv_switch_controller s = None \/ sv_switch_task s <> None ->
  start_switch_task kind s = Ret (false, s).
Proof.
  intros H. unfold start_switch_task, begin_switch_task, get, mbind, svc_bind, exec_bind, mret, svc_ret. cbn.
  destruct (sv_switch_controller s) eqn:Ec; [|done]. cbn. destruct (sv_switch_task s) eqn:Et; [done|]. by destruct H.
Qed.

(** The lease is committed: the commit operation starts, or the lease is given up. *)
Lemma commit_started c g u h s s0 :
  (sv_next_switch_task_epoch s < u64_max)%N -> gm_state (sv_bundle_lease s) = GateRemoteOwned c g u ->
  gm_state (sv_bundle_lease s0) = GateGrantArmed c g -> sv_next_switch_task_epoch s = sv_next_switch_task_epoch s0 ->
  sv_switch_controller s = sv_switch_controller s0 -> sv_switch_task s = sv_switch_task s0 ->
  exists b s', (hook h;; reset_switch_deadline;; started ← start_commit_task c g;
      if negb started then defer_failure_until_capture_release c "commit_task_busy";; mret false else mret true) s
    = Ret (b, s')
    /\ (b = true <-> sv_switch_controller s0 <> None /\ sv_switch_task s0 = None)
    /\ (if b then entered (gc_handle c) (gl_lease_epoch (gc_lease c)) s0 s' else refused s0 s').
Proof.
  intros Hn Hs Hs0 Hn0 Hc0 Ht0.
  set (s1 := s <| sv_hooks := fun n => sv_hooks s (S n) |> <| sv_out := sv_out s ++ [OHook h (sv_hooks s 0)] |>).
  rewrite (bind_run _ _ _ (sv_hooks s 0) s1) by reflexivity.
  destruct (reset_deadline_runs s1) as (d & n & Er). rewrite (bind_run _ _ _ _ _ Er). clear Er.
  set (s2 := s1 <| sv_clock := n |> <| sv_switch_deadline := d |>).
  destruct (decide (sv_switch_controller s0 <> None /\ sv_switch_task s0 = None)) as [[H1 H2]|Hno].
  - unfold start_commit_task.
    rewrite <- Hc0 in H1. rewrite <- Ht0 in H2.
    rewrite (bind_run _ _ _ _ _ (start_task_runs _ s2 Hn H1 H2)).
    eexists true, _. split; [reflexivity|]. split; [by rewrite <- Hc0, <- Ht0|]. exists c, g, u. repeat (split; [done|]).
    cbn. change (sv_next_switch_task_epoch s2) with (sv_next_switch_task_epoch s). by rewrite Hn0.
  - unfold start_commit_task. rewrite (bind_run _ _ s2 false s2).
    2: { apply start_task_refused. change (sv_switch_controller s = None \/ sv_switch_task s <> None).
         rewrite Hc0, Ht0. destruct (sv_switch_controller s0), (sv_switch_task s0); auto; exfalso; apply Hno; done. }
    cbn [negb]. destruct (defer_refuses c "commit_task_busy" s2 s0) as (s' & E & Hr).
    + left. apply is_current_spec. exists c. split; [|by apply same_identity_spec].
      unfold gate_context. change (sv_bundle_lease s2) with (sv_bundle_lease s). by rewrite Hs.
    + unfold gate_context. by rewrite Hs0.
    + exists false, s'. split; [exact E|]. split; [|done]. split; [done|]. intros H. by destruct Hno.
Qed.

Lemma now_runs s : controller_now_ms s = Ret
  (match sv_switch_controller s with Some _ => sv_clock s 0 | None => u64_max end,
   s <| sv_clock := match sv_switch_controller s with Some _ => fun n => sv_clock s (S n) | None => sv_clock s end |>).
Proof.
  unfold controller_now_ms. rewrite bind_get. unfold read_clock. destruct s, sv_switch_controller; reflexivity.
Qed.

Lemma commit_accepts c g now m : gm_state m = GateGrantArmed c g ->
  (now < gl_expires_at_ms (gc_lease c))%N -> (now < gg_expires_at_ms g)%N ->
  exists m', gate_commit (gc_handle c) (gl_lease_epoch (gc_lease c)) true (gl_peer_session_epoch (gc_lease c)) now m
    = (inl (c, g), m').
Proof.
  intros Hs Hx Hgx. unfold gate_commit. rewrite Hs, !bool_decide_true by done. cbn.
  rewrite (proj2 (N.leb_gt _ _) Hx), (proj2 (N.leb_gt _ _) Hgx). cbn. eauto.
Qed.

(** The answer [x] to a permit is right. *)
Definition answers (h l p : N) (s : Service) (x : exec Empty_set (bool * Service)) : Prop :=
  exists b s', x = Ret (b, s') /\ (b = true <-> may_enter h l p s)
    /\ (if b then entered h l s s' else refused s s').

Lemma defer_answers h l p c r s s1 : gate_context (sv_bundle_lease s) = Some c -> closing c s1 -> ~ may_enter h l p s ->
  answers h l p s ((defer_failure_until_capture_release c r;; mret false) s1).
Proof.
  intros Ec H1 H2. destruct (defer_refuses c r s1 s H1 Ec) as (s' & E & Hr). exists false, s'. done.
Qed.

(** The commit of the lease decides. *)
Lemma commit_answers h l p c r s m res (now := match sv_switch_controller s with Some _ => sv_clock s 0 | None => u64_max end) s2 :
  (sv_next_switch_task_epoch s < u64_max)%N -> gate_context (sv_bundle_lease s) = Some c ->
  gl_peer_session_epoch (gc_lease c) = p -> readiness_of local_commit h (sv_clients s) = Some r ->
  gate_commit h l (pb_ready r) (pb_session_epoch r) now (sv_bundle_lease s) = (res, m) ->
  s2 = s <| sv_clock := match sv_switch_controller s with Some _ => fun n => sv_clock s (S n) | None => sv_clock s end |>
         <| sv_bundle_lease := m |> ->
  answers h l p s (match res with
    | inl (c, g) => hook (HookActivate (TrOutgoing (gl_lease_epoch (gc_lease c))));; reset_switch_deadline;;
        started ← start_commit_task c g;
        if negb started then defer_failure_until_capture_release c "commit_task_busy";; mret false else mret true
    | inr _ => defer_failure_until_capture_release c "capture_commit_rejected";; mret false
    end s2).
Proof.
  intros Hn Ec Ep Er Ecommit ->. apply gate_commit_cases in Ecommit as Hcases. destruct res as [[c' g]|e].
  - destruct Hcases as (Hs & (u & Hu) & Hh & Hl & Hnext & Hready & Hse & Hx & Hgx).
    assert (c' = c) as -> by (unfold gate_context in Ec; rewrite Hs in Ec; congruence).
    set (s2 := s <| sv_clock := _ |> <| sv_bundle_lease := m |>).
    destruct (commit_started c g u (HookActivate (TrOutgoing (gl_lease_epoch (gc_lease c)))) s2 s)
      as (b & s' & E & Hb & Hpost); try done.
    exists b, s'. split; [exact E|]. rewrite Hh, Hl in Hpost. split; [|exact Hpost]. rewrite Hb. split.
    + intros [Hctl Ht]. unfold now in Hx, Hgx. destruct (sv_switch_controller s) as [ctl|] eqn:Ectl; [|done].
      exists c, g, r, ctl. repeat split; try done. congruence.
    + intros (c' & g' & r' & ctl & _ & _ & _ & _ & _ & _ & _ & Hctl & Ht & _). split; [congruence|done].
  - apply defer_answers; [done|..].
    + destruct Hcases as [-> | ->]; [left|by right]. apply is_current_spec. exists c. split; [done|].
      by apply same_identity_spec.
    + intros (c' & g & r' & ctl & Hs & Hh & Hl & Hp & Hr & Hready & Hse & Hctl & _ & Hx & Hgx).
      unfold now in Ecommit. rewrite Hctl in Ecommit. rewrite Er in Hr. injection Hr as <-.
      destruct (commit_accepts c' g (sv_clock s 0) (sv_bundle_lease s) Hs Hx Hgx) as [m' Em].
      rewrite Hready, Hse, <- Hp, <- Hh, <- Hl in Ecommit. congruence.
Qed.

(** C25: A capture may become remote exactly when the lease holds an unexpired
    grant armed for the permit's handle, lease epoch and peer session, the peer
    is online with both inputs ready in that session, and no other switch
    operation runs; then the lease is owned and its commit is being sent.
    Otherwise the bundle is local afterwards, and a lease that was held waits
    for the release of the capture. *)
Theorem authorize_exact h l p s : (sv_next_switch_task_epoch s < u64_max)%N ->
  exists b s', authorize_client_enter local_commit h l p s = Ret (b, s')
    /\ (b = true <-> may_enter h l p s) /\ (if b then entered h l s s' else refused s s').
Proof.
  intros Hn. change (answers h l p s (authorize_client_enter local_commit h l p s)).
  unfold authorize_client_enter. rewrite bind_get.
  destruct (gate_context (sv_bundle_lease s)) as [c|] eqn:Ec.
  2: { exists false, s. split; [done|]. split; [split; [done|]|].
       - intros (c & g & r & ctl & Hs & _). unfold gate_context in Ec. by rewrite Hs in Ec.
       - split; [|congruence]. unfold gate_context in Ec. by destruct (gm_state (sv_bundle_lease s)). }
  assert (closing c s) as Hclosing.
  { left. apply is_current_spec. exists c. split; [done|]. by apply same_identity_spec. }
  destruct (_ || _) eqn:Eid.
  { apply defer_answers; [done..|]. intros (c' & g & r & ctl & Hs & Hh & Hl & Hp & _).
    assert (c' = c) as -> by (unfold gate_context in Ec; rewrite Hs in Ec; congruence).
    rewrite !bool_decide_true in Eid by done. done. }
  unfold peer_readiness. rewrite bind_get.
  destruct (readiness_of local_commit h (sv_clients s)) as [r|] eqn:Er.
  2: { apply defer_answers; [done..|]. intros (c' & g & r & ctl & _ & _ & _ & _ & Hr & _). congruence. }
  rewrite (bind_run _ _ _ _ _ (now_runs s)).
  destruct (gate_commit h l (pb_ready r) (pb_session_epoch r) _ (sv_bundle_lease s)) as [res m] eqn:Ecommit.
  rewrite bind_modify. apply orb_false_iff in Eid as [_ Ep]. apply negb_false_iff, bool_decide_eq_true in Ep.
  eapply commit_answers; done.
Qed.

(** What failing a lease told the others. *)
Definition failure_reported (c : GateContext) (r : string) (d : option string) (task : option SwitchTask)
    (news : list ServiceOut) : Prop :=
  OCapture (CallDisarm (gl_lease_epoch (gc_lease c))) ∈ news
  /\ ONotify (Some (gc_target c)) r d ∈ news
  /\ forall t, task = Some t -> OAbort t ∈ news.

Lemma notify_failure_runs c r d s : notify_failure c r d s
  = Ret (tt, s <| sv_out := sv_out s ++ [ONotify (Some (gc_target c)) r d] |>).
Proof. by destruct d. Qed.

(** C26: Failing a lease always ends with the bundle local: the permit is
    disarmed, the running operation is aborted and the failure is reported.  If
    the capture of that lease is active, its release is requested last and the
    cleanup waits for it; otherwise the cleanup operation is started at once,
    unless there is no controller. *)
Theorem fail_closed c r d s : closing c s -> (sv_next_switch_task_epoch s < u64_max)%N ->
  exists s' news, fail_context_inner local_commit c r d s = Ret (tt, s')
    /\ sv_out s' = sv_out s ++ news /\ gm_state (sv_bundle_lease s') = GateLocal
    /\ failure_reported c r d (sv_switch_task s) news
    /\ if decide (sv_active_switch_capture s = Some (gc_handle c, gl_lease_epoch (gc_lease c)))
       then sv_pending_switch_cleanup s' = Some (c, r) /\ sv_switch_task s' = None
            /\ last news = Some (OCapture (CallRelease false))
       else match sv_switch_controller s with
            | Some _ => exists t readiness, st_kind t = TkCleanup c r readiness
                /\ sv_switch_task s' = Some t /\ last news = Some (OSpawn t)
            | None => sv_switch_task s' = None
            end.
Proof.
  intros Hc Hn. unfold fail_context_inner. rewrite (bind_run _ _ _ _ _ (close_gate_runs c s)).
  rewrite (bind_run _ _ _ _ _ (notify_failure_runs c r d _)). rewrite bind_get.
  set (s2 := (gate_closed c s) <| sv_out := sv_out (gate_closed c s) ++ [ONotify (Some (gc_target c)) r d] |>).
  set (hook := OHook (HookCancel (TrOutgoing (gl_lease_epoch (gc_lease c))) Canceled) (sv_hooks s 0)).
  set (news := hook :: OCapture (CallDisarm (gl_lease_epoch (gc_lease c)))
    :: match sv_switch_task s with Some t => [OAbort t] | None => [] end ++ [ONotify (Some (gc_target c)) r d]).
  assert (sv_out s2 = sv_out s ++ news) as Hout.
  { unfold s2, gate_closed, news. cbn. rewrite <- app_assoc. by destruct (sv_switch_task s). }
  assert (failure_reported c r d (sv_switch_task s) news) as Hnews.
  { unfold news. split; [set_solver|]. split; [set_solver|]. intros t ->. set_solver. }
  assert (forall o, failure_reported c r d (sv_switch_task s) (news ++ [o])) as Hmore.
  { intros o. destruct Hnews as (H1 & H2 & H3). unfold failure_reported. setoid_rewrite elem_of_app. auto. }
  pose proof (gate_closed_local c s Hc) as Hl.
  change (sv_active_switch_capture s2) with (sv_active_switch_capture s).
  destruct (decide (sv_active_switch_capture s = Some (gc_handle c, gl_lease_epoch (gc_lease c)))) as [Ha|Ha];
    [rewrite bool_decide_true by done|rewrite bool_decide_false by done].
  - rewrite bind_modify. eexists _, (news ++ [OCapture (CallRelease false)]). split; [reflexivity|].
    split; [rewrite app_assoc, <- Hout; reflexivity|]. split; [done|]. split; [done|]. split; [done|]. split; [done|].
    apply last_snoc.
  - unfold start_cleanup_task, peer_readiness. rewrite bind_get.
    set (ro := readiness_of local_commit (gc_handle c) (sv_clients s2)).
    destruct (sv_switch_controller s) as [ctl|] eqn:Ectl.
    + assert (sv_switch_controller s2 <> None) as H1 by (change (sv_switch_controller s <> None); by rewrite Ectl).
      rewrite (bind_run _ _ _ _ _ (start_task_runs (TkCleanup c r ro) s2 Hn H1 eq_refl)).
      set (t := mkSwitchTask (sv_next_switch_task_epoch s2 + 1) (TkCleanup c r ro)).
      eexists _, (news ++ [OSpawn t]). split; [reflexivity|].
      split; [rewrite app_assoc, <- Hout; reflexivity|]. split; [done|]. split; [done|].
      exists t, ro. split; [done|]. split; [done|]. apply last_snoc.
    + rewrite (bind_run _ _ s2 false s2) by (apply start_task_refused; by left).
      exists s2, news. done.
Qed.
End entering.

Lemma cancel_task_runs s : cancel_switch_task s = Ret (tt, s <| sv_switch_task := None |>
  <| sv_out := sv_out s ++ match sv_switch_task s with Some t => [OAbort t] | None => [] end |>).
Proof.
  unfold cancel_switch_task. rewrite bind_get. destruct (sv_switch_task s) eqn:E; [by rewrite bind_modify|].
  rewrite app_nil_r. destruct s. cbn in *. by subst.
Qed.

(** The end of the service leaves the bundle local and no operation
    running: capture is released before it is terminated, and a lease that was
    held is cancelled at the controller, after the capture has ended and before
    emulation does. *)
Theorem shutdown_releases s : exists s' news, service_shutdown s = Ret (tt, s')
  /\ sv_out s' = sv_out s ++ news
  /\ gm_state (sv_bundle_lease s') = GateLocal /\ sv_switch_task s' = None /\ sv_active_switch_capture s' = None
  /\ exists aborted cancelled, news =
       [OHook (HookCancelCurrent Canceled) (sv_hooks s 0); OClipboardShutdown; OCapture (CallRelease false)]
       ++ aborted ++ [OCaptureTerminate] ++ cancelled ++ [OEmulationTerminate; OResolverTerminate]
     /\ aborted = match sv_switch_task s with Some t => [OAbort t] | None => [] end
     /\ cancelled = match sv_switch_controller s, gate_context (sv_bundle_lease s) with
                    | Some _, Some c => [OControllerCancel c "service_shutdown"]
                    | _, _ => []
                    end.
Proof.
  set (h := OHook (HookCancelCurrent Canceled) (sv_hooks s 0)).
  unfold service_shutdown.
  set (s1 := s <| sv_hooks := fun n => sv_hooks s (S n) |> <| sv_out := sv_out s ++ [h] |>).
  rewrite (bind_run _ _ s (sv_hooks s 0) s1) by reflexivity.
  rewrite bind_out.
  rewrite (bind_run invalidate_lease _ _ (gate_context (sv_bundle_lease s)) (s1 <| sv_out := sv_out s1 ++ [OClipboardShutdown] |>
    <| sv_bundle_lease := go_local (sv_bundle_lease s) |>)) by reflexivity.
  set (s2 := s1 <| sv_out := sv_out s1 ++ [OClipboardShutdown] |> <| sv_bundle_lease := go_local (sv_bundle_lease s) |>).
  rewrite bind_call.
  set (s3 := s2 <| sv_out := sv_out s2 ++ [OCapture (CallRelease false)] |>).
  rewrite (bind_run _ _ _ _ _ (cancel_task_runs s3)). set (s4 := s3 <| sv_switch_task := None |> <| sv_out := sv_out s3 ++ match sv_switch_task s3 with Some t => [OAbort t] | None => [] end |>).
  rewrite bind_modify. set (s5 := s4 <| sv_switch_deadline := None |>). rewrite bind_out.
  set (s6 := s5 <| sv_out := sv_out s5 ++ [OCaptureTerminate] |>). rewrite bind_modify. set (s7 := s6 <| sv_active_switch_capture := None |>).
  rewrite bind_get. change (sv_switch_controller s7) with (sv_switch_controller s).
  set (cancelled := match sv_switch_controller s, gate_context (sv_bundle_lease s) with
                    | Some _, Some c => [OControllerCancel c "service_shutdown"] | _, _ => [] end).
  rewrite (bind_run _ _ s7 tt (s7 <| sv_out := sv_out s7 ++ cancelled |>)).
  2: { unfold cancelled. destruct (sv_switch_controller s), (gate_context (sv_bundle_lease s)); try done;
         rewrite app_nil_r; by destruct s7. }
  rewrite bind_out. set (aborted := match sv_switch_task s with Some t => [OAbort t] | None => [] end).
  eexists _, _. split; [reflexivity|]. split; [|do 3 (split; [reflexivity|]); exists aborted, cancelled; done].
  change ((((((((sv_out s ++ [h]) ++ [OClipboardShutdown]) ++ [OCapture (CallRelease false)]) ++ aborted)
    ++ [OCaptureTerminate]) ++ cancelled) ++ [OEmulationTerminate]) ++ [OResolverTerminate] = sv_out s ++
    [h; OClipboardShutdown; OCapture (CallRelease false)]
    ++ aborted ++ [OCaptureTerminate] ++ cancelled ++ [OEmulationTerminate; OResolverTerminate]).
  by rewrite <- !app_assoc.
Qed.

(** ** A handover *)

Module handover.
Definition commit : list byte := [x01].
Definition peer : ConfigClient := mkConfigClient ∅ None 4242 ILeft true (Some Left).
Definition controller : ControllerInfo := mkController Controller Controller 10000 500.
Definition clock (n : nat) : N := (1000 + N.of_nat n)%N.
Definition start : Service :=
  service_new elements [(0%N, peer)] (Some controller) 4242 ∅ clock clock (fun _ => true).
Definition step : ServiceEvent (ReqError:=unit) (JsonError:=unit) -> svc unit :=
  service_step commit elements map_to_list map_to_list 100000 "" (fun _ => false) (fun _ => false) (fun _ => "").
Definition after (events : list (ServiceEvent (ReqError:=unit) (JsonError:=unit))) : option Service :=
  match (service_start map_to_list;; for_each step events) start with Ret (_, s) => Some s | _ => None end.

(** The peer comes up and its edge is touched twice. *)
Definition touched : list (ServiceEvent (ReqError:=unit) (JsonError:=unit)) :=
  [SvConnection (CuAlive 0 true); SvConnection (CuPeerCommit 0 (Some commit));
   SvConnection (CuPeerReadiness 0 true true 7); SvCapture "r0" "l0" true (CaptureCandidate 0);
   SvCapture "" "" true (IEdgeRetreated 0); SvCapture "request" "lease" true (CaptureCandidate 0)].
Definition context : GateContext := mkGateContext 0 Left (mkGateLease "request" "lease" 1 7 11000).
Definition grant : GateGrantIdentity := mkGateGrant 1 1 3000.
(** The grant arrives, the capture enters the peer and the commit is confirmed. *)
Definition owned : list (ServiceEvent (ReqError:=unit) (JsonError:=unit)) :=
  touched ++ [SvSwitch (SePrepared 1 context (inl (mkPrepared 1 1 10500 3000)))].
Definition entered : list (ServiceEvent (ReqError:=unit) (JsonError:=unit)) :=
  owned ++ [SvCapture "" "" true (CommitRequested 0 1 7); SvSwitch (SeCommitted 2 context grant (inl 9000%N))].
(** The peer is lost; the capture is released and the controller is told. *)
Definition lost : list (ServiceEvent (ReqError:=unit) (JsonError:=unit)) :=
  entered ++ [SvConnection (CuClearReadiness 0); SvCapture "" "" true (PeerReadiness 0);
              SvCapture "" "" true (ClientReleased 0 ServiceRequested)].
Definition granted_state : Service := default start (after owned).
Definition entered_state : Service := default start (after entered).
End handover.

(** The handover keeps to the rules, so its end satisfies the invariant. *)
Lemma service_lease_invariant_witness :
  match run handover.commit elements map_to_list map_to_list 100000 "" (fun _ => false) (fun _ => false)
    (fun _ : SwitchClientError (ReqError:=unit) (JsonError:=unit) => "") handover.lost handover.start with
  | Ret (_, s') => LeaseInv (core_of s') | Throw _ => False | Panic msg => tolerated msg
  end.
Proof.
  apply (service_lease_invariant handover.commit elements map_to_list map_to_list 100000 "" (fun _ => false)
    (fun _ => false) (fun _ => "") [(0%N, handover.peer)] (Some handover.controller) 4242 ∅ handover.clock
    handover.clock (fun _ => true) handover.lost).
  vm_compute. repeat (split; [try done; try (repeat constructor)|]); done.
Defined.

(** In the granted state of the handover the capture may enter. *)
Lemma authorize_exact_witness : exists b s',
  authorize_client_enter handover.commit 0 1 7 handover.granted_state = Ret (b, s')
  /\ (b = true <-> may_enter handover.commit 0 1 7 handover.granted_state)
  /\ (if b then entered 0 1 handover.granted_state s' else refused handover.granted_state s').
Proof. apply (authorize_exact handover.commit 0 1 7 handover.granted_state). vm_compute. reflexivity. Defined.

(** Failing the lease of the entered peer. *)
Lemma fail_closed_witness : exists s' news,
  fail_context_inner handover.commit handover.context "peer_removed" None handover.entered_state = Ret (tt, s')
  /\ sv_out s' = sv_out handover.entered_state ++ news /\ gm_state (sv_bundle_lease s') = GateLocal
  /\ failure_reported handover.context "peer_removed" None (sv_switch_task handover.entered_state) news.
Proof.
  destruct (fail_closed handover.commit handover.context "peer_removed" None handover.entered_state)
    as (s' & news & H1 & H2 & H3 & H4 & _).
  - left. vm_compute. reflexivity.
  - vm_compute. reflexivity.
  - exists s', news. exact (conj H1 (conj H2 (conj H3 H4))).
Defined.
