(* ===== verification/ServiceBarriers.v ===== *)
(** * Barriers of the capture

    The service creates a barrier for every active client and for every
    incoming connection, and destroys it again.  The calls it makes are legal
    for the capture task, at most one client is active at each edge, and an
    address that is known is found. *)

From stdpp Require Import base tactics list gmap sets strings.
From Stdlib Require Import NArith ZArith Lia Strings.Byte.
From S2P Require Import Prelude Domain SwitchGate SwitchClient ClipTypes Scancode CaptureTask Clients Service ServiceTheorems.

(** ** The view *)

(** A call that creates ([true]) or destroys a barrier. *)
Definition barrier_calls (outs : list ServiceOut) : list (bool * N) :=
  omap (fun o => match o with
                 | OCapture (CallCreate h _ _) => Some (true, h)
                 | OCapture (CallDestroy h) => Some (false, h)
                 | _ => None
                 end) outs.
#[global] Arguments barrier_calls _ : simpl never.

(** The handles that have a barrier after the calls; [None] if a handle was
    created twice or destroyed without being there. *)
Definition barrier (live : option (gset N)) (c : bool * N) : option (gset N) :=
  match live with
  | None => None
  | Some live =>
      let '(create, h) := c in
      if create : bool then if bool_decide (h ∈ live) then None else Some ({[h]} ∪ live)
      else if bool_decide (h ∈ live) then Some (live ∖ {[h]}) else None
  end.
Definition live_barriers (calls : list (bool * N)) : option (gset N) := foldl barrier (Some ∅) calls.
#[global] Arguments live_barriers _ : simpl never.

(** Whether a client is active, and its edge. *)
Definition flag (cs : ClientConfig * ClientState) : bool * IpcPosition := (cs_active (snd cs), cc_pos (fst cs)).
Definition flags (m : Clients) : gmap N (bool * IpcPosition) := flag <$> m.
#[global] Arguments flags _ : simpl never.

Record BView := mkBView {
  bv_flags : gmap N (bool * IpcPosition);
  bv_info : gmap N Incoming;
  bv_next : N;
  bv_conns : gset SocketAddr;
  bv_calls : list (bool * N) }.
#[global] Instance BView_eta : RecordEta BView := fun k =>
  mkBView (bv_flags k) (bv_info k) (bv_next k) (bv_conns k) (bv_calls k).

Definition barrier_view (s : Service) : BView :=
  mkBView (flags (sv_clients s)) (sv_incoming_conn_info s) (sv_next_trigger_handle s) (sv_incoming_conns s)
    (barrier_calls (sv_out s)).

(** The panic these theorems exclude. *)
Definition found (msg : string) : Prop := msg <> "no such client".

Abbreviation bspec := (vspec barrier_view found).
Abbreviation bneutral := (vneutral barrier_view found).

(** ** The invariant *)

(** The barriers are those of the active clients and the incoming connections,
    whose handles are apart. *)
Record BarrierInv (k : BView) : Prop := {
  bi_live : exists live, live_barriers (bv_calls k) = Some live /\
    forall h, h ∈ live <-> (exists p, bv_flags k !! h = Some (true, p)) \/ is_Some (bv_info k !! h);
  bi_clients : forall h, is_Some (bv_flags k !! h) -> (h < ENTER_HANDLE_BEGIN)%N;
  bi_incoming : forall h, is_Some (bv_info k !! h) -> (ENTER_HANDLE_BEGIN <= h < ENTER_HANDLE_BEGIN + bv_next k)%N;
  bi_next : (bv_next k <= ENTER_HANDLE_BEGIN)%N;
  bi_conns : forall a, a ∈ bv_conns k -> exists h i, bv_info k !! h = Some i /\ in_addr i = a }.

(** At most one client is active at each edge; [ex] is left out. *)
Definition unique_edges (ex : option N) (k : BView) : Prop :=
  forall h1 h2 p, Some h1 <> ex -> Some h2 <> ex ->
  bv_flags k !! h1 = Some (true, p) -> bv_flags k !! h2 = Some (true, p) -> h1 = h2.

Definition Barriers (k : BView) : Prop := BarrierInv k /\ unique_edges None k.

Lemma unique_weaken ex k : unique_edges None k -> unique_edges ex k.
Proof. intros H h1 h2 p _ _. by apply H. Qed.

Lemma live_snoc calls c : live_barriers (calls ++ [c]) = barrier (live_barriers calls) c.
Proof. unfold live_barriers. by rewrite foldl_app. Qed.

Lemma live_destroy calls live h : live_barriers calls = Some live -> h ∈ live ->
  live_barriers (calls ++ [(false, h)]) = Some (live ∖ {[h]}).
Proof. intros Hl Hh. rewrite live_snoc, Hl. cbn. by rewrite bool_decide_true. Qed.

Lemma live_create calls live h : live_barriers calls = Some live -> h ∉ live ->
  live_barriers (calls ++ [(true, h)]) = Some ({[h]} ∪ live).
Proof. intros Hl Hh. rewrite live_snoc, Hl. cbn. by rewrite bool_decide_false. Qed.

(** Handles of clients and of incoming connections differ. *)
Lemma inv_apart k h : BarrierInv k -> is_Some (bv_flags k !! h) -> bv_info k !! h = None.
Proof.
  intros [_ H2 H3 _ _] Hf. destruct (bv_info k !! h) eqn:Ei; [|done].
  specialize (H2 h Hf). specialize (H3 h ltac:(eauto)). lia.
Qed.

(** ** Moves of the view *)

Lemma inv_destroy k h p : BarrierInv k -> bv_flags k !! h = Some (true, p) ->
  BarrierInv (k <| bv_flags := <[h := (false, p)]> (bv_flags k) |> <| bv_calls := bv_calls k ++ [(false, h)] |>).
Proof.
  intros Hk Hf. pose proof (inv_apart k h Hk ltac:(eauto)) as Hi. destruct Hk as [(live & Hl & Hlive) H2 H3 H4 H5].
  split; cbn; try done.
  - exists (live ∖ {[h]}). split; [apply live_destroy; [done|apply Hlive; eauto]|].
    intros h'. rewrite elem_of_difference, elem_of_singleton, Hlive.
    destruct (decide (h = h')) as [<-|Hne].
    + rewrite lookup_insert_eq, Hi. split; [by intros [_ ?]|]. by intros [[? [=]]|[? [=]]].
    + rewrite lookup_insert_ne by done. naive_solver.
  - intros h'. rewrite lookup_insert_is_Some'. intros [<-|?]; apply H2; eauto.
Qed.

Lemma inv_create k h p : BarrierInv k -> bv_flags k !! h = Some (false, p) ->
  BarrierInv (k <| bv_flags := <[h := (true, p)]> (bv_flags k) |> <| bv_calls := bv_calls k ++ [(true, h)] |>).
Proof.
  intros Hk Hf. pose proof (inv_apart k h Hk ltac:(eauto)) as Hi. destruct Hk as [(live & Hl & Hlive) H2 H3 H4 H5].
  split; cbn; try done.
  - exists ({[h]} ∪ live). split.
    + apply live_create; [done|]. rewrite Hlive, Hf, Hi. by intros [[? [=]]|[? [=]]].
    + intros h'. rewrite elem_of_union, elem_of_singleton, Hlive. destruct (decide (h = h')) as [<-|Hne].
      * rewrite lookup_insert_eq. naive_solver.
      * rewrite lookup_insert_ne by done. naive_solver.
  - intros h'. rewrite lookup_insert_is_Some'. intros [<-|?]; apply H2; eauto.
Qed.

(** A flag that is not set may change its edge, appear or go. *)
Lemma inv_inactive k h p : BarrierInv k -> (h < ENTER_HANDLE_BEGIN)%N ->
  (forall p, bv_flags k !! h <> Some (true, p)) ->
  BarrierInv (k <| bv_flags := <[h := (false, p)]> (bv_flags k) |>).
Proof.
  intros [(live & Hl & Hlive) H2 H3 H4 H5] Hh Hf. split; cbn; try done.
  - exists live. split; [done|]. intros h'. rewrite Hlive. destruct (decide (h = h')) as [<-|Hne].
    + rewrite lookup_insert_eq. split; [|by intros [[? [=]]|?]; right]. intros [[p' Hp]|?]; [by destruct (Hf p')|by right].
    + by rewrite lookup_insert_ne by done.
  - intros h'. rewrite lookup_insert_is_Some'. intros [<-|?]; [done|by apply H2].
Qed.

Lemma inv_delete k h : BarrierInv k -> (forall p, bv_flags k !! h <> Some (true, p)) ->
  BarrierInv (k <| bv_flags := delete h (bv_flags k) |>).
Proof.
  intros [(live & Hl & Hlive) H2 H3 H4 H5] Hf. split; cbn; try done.
  - exists live. split; [done|]. intros h'. rewrite Hlive. destruct (decide (h = h')) as [<-|Hne].
    + rewrite lookup_delete_eq. split; [|by intros [[? [=]]|?]; right]. intros [[p' Hp]|?]; [by destruct (Hf p')|by right].
    + by rewrite lookup_delete_ne by done.
  - intros h'. rewrite lookup_delete_is_Some. intros [_ ?]. by apply H2.
Qed.

(** A client that is deleted while it is active. *)
Lemma inv_delete_active k h p : BarrierInv k -> bv_flags k !! h = Some (true, p) ->
  BarrierInv (k <| bv_flags := delete h (bv_flags k) |> <| bv_calls := bv_calls k ++ [(false, h)] |>).
Proof.
  intros Hk Hf. pose proof (inv_destroy k h p Hk Hf) as H.
  apply (inv_delete _ h) in H; cbn in *.
  - unfold set in *. cbn in *. by rewrite delete_insert_eq in H.
  - intros p'. by rewrite lookup_insert_eq.
Qed.

(** An active client moves to another edge. *)
Lemma inv_edge k h p p' : BarrierInv k -> bv_flags k !! h = Some (true, p) ->
  BarrierInv (k <| bv_flags := <[h := (true, p')]> (bv_flags k) |>).
Proof.
  intros [(live & Hl & Hlive) H2 H3 H4 H5] Hf. split; cbn; try done.
  - exists live. split; [done|]. intros h'. rewrite Hlive. destruct (decide (h = h')) as [<-|Hne].
    + rewrite lookup_insert_eq. split; intros _; left; eauto.
    + by rewrite lookup_insert_ne by done.
  - intros h'. rewrite lookup_insert_is_Some'. intros [<-|?]; apply H2; eauto.
Qed.

Lemma inv_add_incoming k i : BarrierInv k -> (bv_next k < ENTER_HANDLE_BEGIN)%N ->
  let h := (ENTER_HANDLE_BEGIN + bv_next k)%N in
  BarrierInv (k <| bv_info := <[h := i]> (bv_info k) |> <| bv_next := (bv_next k + 1)%N |>
                <| bv_conns := bv_conns k ∪ {[in_addr i]} |> <| bv_calls := bv_calls k ++ [(true, h)] |>).
Proof.
  intros [(live & Hl & Hlive) H2 H3 H4 H5] Hn h.
  assert (bv_info k !! h = None) as Hi.
  { destruct (bv_info k !! h) eqn:E; [|done]. specialize (H3 h ltac:(eauto)). lia. }
  assert (forall p, bv_flags k !! h <> Some p) as Hf.
  { intros p Hp. specialize (H2 h ltac:(eauto)). lia. }
  split; cbn; try done; try lia.
  - exists ({[h]} ∪ live). split.
    + apply live_create; [done|]. rewrite Hlive, Hi. intros [[p Hp]|[? [=]]]. by apply Hf in Hp.
    + intros h'. rewrite elem_of_union, elem_of_singleton, Hlive, lookup_insert_is_Some'. naive_solver.
  - intros h'. rewrite lookup_insert_is_Some'. intros [<-|?]; [lia|]. specialize (H3 h' ltac:(done)). lia.
  - intros a. rewrite elem_of_union, elem_of_singleton. intros [Ha| ->].
    + destruct (H5 a Ha) as (h' & i' & Hi' & Ha'). exists h', i'. split; [|done].
      rewrite lookup_insert_ne; [done|]. congruence.
    + exists h, i. by rewrite lookup_insert_eq.
Qed.

Lemma inv_remove_incoming k h i : BarrierInv k -> bv_info k !! h = Some i ->
  BarrierInv (k <| bv_info := delete h (bv_info k) |> <| bv_conns := bv_conns k ∖ {[in_addr i]} |>
                <| bv_calls := bv_calls k ++ [(false, h)] |>).
Proof.
  intros Hk Hi. pose proof Hk as [(live & Hl & Hlive) H2 H3 H4 H5].
  assert (forall p, bv_flags k !! h <> Some p) as Hf.
  { intros p Hp. pose proof (inv_apart k h Hk ltac:(eauto)). congruence. }
  split; cbn; try done.
  - exists (live ∖ {[h]}). split; [apply live_destroy; [done|apply Hlive; eauto]|].
    intros h'. rewrite elem_of_difference, elem_of_singleton, Hlive, lookup_delete_is_Some. naive_solver.
  - intros h'. rewrite lookup_delete_is_Some. intros [_ ?]. by apply H3.
  - intros a. rewrite elem_of_difference, elem_of_singleton. intros [Ha Hne].
    destruct (H5 a Ha) as (h' & i' & Hi' & Ha'). exists h', i'. split; [|done].
    rewrite lookup_delete_ne; [done|]. congruence.
Qed.

(** An incoming connection keeps its address and gets other data. *)
Lemma inv_update_incoming k h i i' : BarrierInv k -> bv_info k !! h = Some i -> in_addr i' = in_addr i ->
  BarrierInv (k <| bv_info := <[h := i']> (bv_info k) |>).
Proof.
  intros [(live & Hl & Hlive) H2 H3 H4 H5] Hi Ha. split; cbn; try done.
  - exists live. split; [done|]. intros h'. rewrite Hlive, lookup_insert_is_Some'. naive_solver.
  - intros h'. rewrite lookup_insert_is_Some'. intros [<-|?]; apply H3; eauto.
  - intros a Hin. destruct (H5 a Hin) as (h' & i0 & Hi0 & Ha0). destruct (decide (h = h')) as [<-|Hne].
    + exists h, i'. rewrite lookup_insert_eq. split; [done|]. congruence.
    + exists h', i0. by rewrite lookup_insert_ne.
Qed.

(** ** Methods that leave the barriers alone *)

Lemma barrier_calls_snoc outs o : barrier_calls (outs ++ [o])
  = barrier_calls outs ++ match o with
                          | OCapture (CallCreate h _ _) => [(true, h)]
                          | OCapture (CallDestroy h) => [(false, h)]
                          | _ => [] end.
Proof. unfold barrier_calls. rewrite omap_app. destruct o as [[]| | | | | | | | | | | | | | |]; done. Qed.

Lemma bneutral_out o :
  match o with OCapture (CallCreate _ _ _) | OCapture (CallDestroy _) => False | _ => True end -> bneutral (out o).
Proof.
  intros H. apply neutral_modify. intros s. unfold barrier_view. cbn. rewrite barrier_calls_snoc.
  destruct o as [[]| | | | | | | | | | | | | | |]; try done; by rewrite !app_nil_r.
Qed.

Lemma bneutral_hook h : bneutral (hook h).
Proof.
  apply neutral_same. intros s. unfold hook, barrier_view. cbn. by rewrite barrier_calls_snoc, !app_nil_r.
Qed.
#[export] Hint Resolve bneutral_hook : neutral.
#[export] Hint Extern 1 (vneutral barrier_view _ (out _)) => apply bneutral_out; done : neutral.
#[export] Hint Extern 1 (vneutral barrier_view _ (notify_frontend _)) => apply bneutral_out; done : neutral.
#[export] Hint Extern 1 (vneutral barrier_view _ (switch_failed _ _)) => apply bneutral_out; done : neutral.
#[export] Hint Extern 1 (vneutral barrier_view _ (switch_failed_with_detail _ _ _)) => apply bneutral_out; done : neutral.
#[export] Hint Extern 1 (vneutral barrier_view _ (capture_call _)) => apply bneutral_out; done : neutral.
#[export] Hint Extern 1 (vneutral barrier_view _ (panics _)) => apply neutral_panics; done : neutral.
#[export] Hint Extern 1 (vneutral barrier_view _ (update_edge _)) => apply neutral_modify; done : neutral.

Lemma bneutral_update_clients f : (forall m, flags (f m) = flags m) -> bneutral (update_clients f).
Proof. intros H. apply neutral_modify. intros s. exact (f_equal (fun x => mkBView x _ _ _ _) (H _)). Qed.

Lemma bneutral_with_clients {A} (f : Clients -> A * Clients) :
  (forall m, flags (snd (f m)) = flags m) -> bneutral (with_clients f).
Proof.
  intros H. apply neutral_same. intros s. unfold with_clients. rewrite bind_get.
  specialize (H (sv_clients s)). destruct (f (sv_clients s)) as [a m'].
  exact (f_equal (fun x => mkBView x _ _ _ _) H).
Qed.

Lemma flags_alter h m f : (forall cs, flag (f cs) = flag cs) -> flags (update_client h f m) = flags m.
Proof.
  intros H. apply map_eq. intros h'. unfold flags, update_client. rewrite !lookup_fmap.
  destruct (decide (h = h')) as [<-|Hne]; [|by rewrite lookup_alter_ne].
  rewrite lookup_alter_eq. destruct (m !! h); cbn; [|done]. by rewrite H.
Qed.

Lemma flags_insert h m c s s' : m !! h = Some (c, s) -> cs_active s' = cs_active s ->
  flags (<[h := (c, s')]> m) = flags m.
Proof.
  intros Hm Ha. unfold flags. rewrite fmap_insert. apply insert_id. rewrite lookup_fmap, Hm. cbn.
  unfold flag. cbn. by rewrite Ha.
Qed.

Section barriers.
Variable local_commit : list byte.
Variable ip_iter : gset N -> list N.
Variable slab_iter : Clients -> list (N * (ClientConfig * ClientState)).
Variable info_iter : gmap N Incoming -> list (N * Incoming).
Variable instant_max : N.
Variable public_key_fingerprint : string.
Context {ReqError JsonError : Type}.
Variables (req_is_timeout req_is_connect : ReqError -> bool).
Abbreviation ClientError := (SwitchClientError (ReqError:=ReqError) (JsonError:=JsonError)).
Variable error_text : ClientError -> string.

(** *** Switching *)

Lemma bneutral_now : bneutral controller_now_ms.
Proof. unfold controller_now_ms. auto with neutral. Qed.
Hint Resolve bneutral_now : neutral.

Lemma bneutral_deadline : bneutral reset_switch_deadline.
Proof. unfold reset_switch_deadline. auto with neutral. Qed.
Lemma bneutral_readiness h : bneutral (peer_readiness local_commit h).
Proof. unfold peer_readiness. auto with neutral. Qed.
Lemma bneutral_finish e : bneutral (finish_switch_task e).
Proof. unfold finish_switch_task. auto with neutral. Qed.
Lemma bneutral_cancel : bneutral cancel_switch_task.
Proof. unfold cancel_switch_task. auto with neutral. Qed.
Lemma bneutral_invalidate : bneutral invalidate_lease.
Proof. unfold invalidate_lease. auto with neutral. Qed.
Lemma bneutral_start kind : bneutral (start_switch_task kind).
Proof. unfold start_switch_task, begin_switch_task, spawn_switch_task. auto 12 with neutral. Qed.
Hint Resolve bneutral_deadline bneutral_readiness bneutral_finish bneutral_cancel bneutral_invalidate bneutral_start
  : neutral.

Lemma bneutral_close c : bneutral (close_gate c).
Proof. unfold close_gate. auto 10 with neutral. Qed.
Lemma bneutral_cleanup c r : bneutral (start_cleanup_task local_commit c r).
Proof. unfold start_cleanup_task. auto with neutral. Qed.
Lemma bneutral_notify_failure c r d : bneutral (notify_failure c r d).
Proof. unfold notify_failure. auto with neutral. Qed.
Lemma bneutral_manual t r d : bneutral (arm_manual_recovery_then_notify t r d).
Proof. unfold arm_manual_recovery_then_notify. auto with neutral. Qed.
Hint Resolve bneutral_close bneutral_cleanup bneutral_notify_failure bneutral_manual : neutral.

Lemma bneutral_fail_context c r d : bneutral (fail_context_inner local_commit c r d).
Proof. unfold fail_context_inner. auto 10 with neutral. Qed.
Hint Resolve bneutral_fail_context : neutral.

Lemma bneutral_fail_gate r : bneutral (fail_gate local_commit r).
Proof. unfold fail_gate, fail_context. auto with neutral. Qed.
Lemma bneutral_fail_gate_with_detail r d : bneutral (fail_gate_with_detail local_commit r d).
Proof. unfold fail_gate_with_detail, fail_context_with_detail. auto with neutral. Qed.
Lemma bneutral_defer c r : bneutral (defer_failure_until_capture_release c r).
Proof. unfold defer_failure_until_capture_release. auto with neutral. Qed.
Lemma bneutral_release r f : bneutral (release_gate_after_capture local_commit r f).
Proof. unfold release_gate_after_capture. auto 10 with neutral. Qed.
Lemma bneutral_complete_or m : bneutral m -> bneutral (complete_or local_commit m).
Proof. intros H. unfold complete_or, complete_pending_switch_cleanup. auto 10 with neutral. Qed.
Hint Resolve bneutral_fail_gate bneutral_fail_gate_with_detail bneutral_defer bneutral_release bneutral_complete_or
  : neutral.

Lemma bneutral_edge_confirms h t r : bneutral (edge_confirms instant_max h t r).
Proof.
  unfold edge_confirms. apply neutral_bind; [auto with neutral|]. intros [g|]; [|auto with neutral].
  apply neutral_bind; [auto with neutral|]. intros now. destruct (edge_candidate instant_max _ now g). auto with neutral.
Qed.
Lemma bneutral_reservation_failed h t r e : bneutral (reservation_failed local_commit h t r e).
Proof.
  unfold reservation_failed. apply neutral_bind; [auto with neutral|]. intros m.
  destruct (match e with GateBusy => _ | _ => _ end). destruct e; auto with neutral.
Qed.
Hint Resolve bneutral_edge_confirms bneutral_reservation_failed : neutral.

Lemma bneutral_candidate h rid lid : bneutral (handle_capture_candidate local_commit instant_max h rid lid).
Proof.
  unfold handle_capture_candidate, start_prepare_task, fail_context. auto 30 with neutral.
Qed.

Lemma bneutral_arm c g : bneutral (arm_capture local_commit c g).
Proof. unfold arm_capture, start_commit_task, fail_context. auto 30 with neutral. Qed.
Hint Resolve bneutral_arm : neutral.

Lemma bneutral_prepared c r : bneutral (handle_prepared local_commit req_is_timeout req_is_connect error_text c r).
Proof. unfold handle_prepared, fail_context, fail_context_with_detail. auto 30 with neutral. Qed.
Lemma bneutral_authorize h l p : bneutral (authorize_client_enter local_commit h l p).
Proof. unfold authorize_client_enter, start_commit_task. auto 30 with neutral. Qed.
Lemma bneutral_renew c u r n : bneutral (renew_lease c u r n).
Proof. unfold renew_lease. auto 30 with neutral. Qed.
Hint Resolve bneutral_prepared bneutral_authorize bneutral_renew : neutral.

Lemma bneutral_committed c r : bneutral (handle_committed local_commit req_is_timeout req_is_connect error_text c r).
Proof. unfold handle_committed, start_renewal_task, fail_context. auto 30 with neutral. Qed.
Lemma bneutral_renewed e c r : bneutral (handle_renewed local_commit req_is_timeout req_is_connect error_text e c r).
Proof. unfold handle_renewed, fail_context. auto 30 with neutral. Qed.
Lemma bneutral_change h : bneutral (handle_peer_readiness_change local_commit h).
Proof. unfold handle_peer_readiness_change, fail_context. auto 30 with neutral. Qed.
Lemma bneutral_switch_deadline : bneutral (handle_switch_deadline local_commit).
Proof. unfold handle_switch_deadline, fail_context. auto 30 with neutral. Qed.
Hint Resolve bneutral_committed bneutral_renewed bneutral_change bneutral_switch_deadline bneutral_candidate : neutral.

Lemma bneutral_switch_event e :
  bneutral (handle_switch_task_event local_commit req_is_timeout req_is_connect error_text e).
Proof. destruct e; cbn [handle_switch_task_event]; auto 30 with neutral. Qed.

(** *** Clients, as far as they keep their edge and their state *)

Lemma bneutral_broadcast h : bneutral (broadcast_client h).
Proof. unfold broadcast_client. auto with neutral. Qed.
Lemma bneutral_resolve h : bneutral (resolve h).
Proof. unfold resolve. auto with neutral. Qed.
Hint Resolve bneutral_broadcast bneutral_resolve : neutral.

Lemma bneutral_capture_event rid lid w e :
  bneutral (service_capture_event local_commit instant_max rid lid w e).
Proof.
  destruct e as [h| | |h|h|h l p|h l|h reason|h|h re]; cbn [service_capture_event];
    unfold fail_context; auto 30 with neutral.
Qed.

Lemma flags_update_ips h m : flags (update_ips h m) = flags m.
Proof. apply flags_alter. by intros []. Qed.

(** Updates of a client that touch neither its state nor its edge. *)
Ltac keep_flags := rewrite ?flags_update_ips; apply flags_alter; intros []; try done; by destruct (negb _).

Lemma flags_connection u m : flags (connection_update u m) = flags m.
Proof.
  destruct u as [h a|h a|h c|h kr pr e|h]; cbn; [keep_flags|keep_flags| | |keep_flags].
  - unfold set_peer_commit. destruct (m !! h) as [[cc s]|] eqn:E; [|done]. case_bool_decide; [done|]. by eapply flags_insert.
  - unfold set_peer_readiness. destruct (m !! h) as [[cc s]|] eqn:E; [|done]. destruct (_ && _); [done|].
    by eapply flags_insert.
Qed.

Lemma flags_set_hostname h name m : flags (snd (set_hostname h name m)) = flags m.
Proof.
  unfold set_hostname. destruct (m !! h) as [[c s]|] eqn:E; [|done]. case_bool_decide; cbn; [done|].
  rewrite flags_update_ips. unfold flags. rewrite fmap_insert. apply insert_id. by rewrite lookup_fmap, E.
Qed.

Lemma bneutral_resolver e : bneutral (handle_resolver_event e).
Proof.
  destruct e; cbn [handle_resolver_event]; auto 10 with neutral;
    repeat first [apply neutral_bind; [|intros ?] | apply bneutral_update_clients; intros m];
    try unfold set_resolving; try unfold set_dns_ips; try keep_flags; auto with neutral.
Qed.

(** ** Activation *)

Definition off (h : N) (fl : gmap N (bool * IpcPosition)) : gmap N (bool * IpcPosition) :=
  alter (fun '(_, p) => (false, p)) h fl.

Lemma off_lookup h fl h' : off h fl !! h' = if decide (h = h') then (fun '(_, p) => (false, p)) <$> fl !! h' else fl !! h'.
Proof. unfold off. case_decide as H; [subst; by rewrite lookup_alter_eq|by rewrite lookup_alter_ne]. Qed.

Lemma off_active h fl p : fl !! h = Some (true, p) -> off h fl = <[h := (false, p)]> fl.
Proof.
  intros H. apply map_eq. intros h'. rewrite off_lookup, lookup_insert. case_decide as E; [subst|done]. by rewrite H.
Qed.

Lemma off_inactive h fl : (forall p, fl !! h <> Some (true, p)) -> off h fl = fl.
Proof.
  intros H. apply map_eq. intros h'. rewrite off_lookup. case_decide as E; [subst|done].
  destruct (fl !! h') as [[[] p]|]; try done. by destruct (H p).
Qed.

Lemma off_true h fl h' p : off h fl !! h' = Some (true, p) -> h <> h' /\ fl !! h' = Some (true, p).
Proof. rewrite off_lookup. case_decide; [|done]. by destruct (fl !! h') as [[]|]. Qed.

Lemma flags_lookup m h : flags m !! h = flag <$> m !! h.
Proof. apply lookup_fmap. Qed.

Lemma deactivate_flags h m : flags (snd (deactivate_client h m)) = off h (flags m)
  /\ (fst (deactivate_client h m) = true <-> exists p, flags m !! h = Some (true, p)).
Proof.
  unfold deactivate_client. rewrite flags_lookup. destruct (m !! h) as [[c s]|] eqn:E.
  - destruct (cs_active s) eqn:Ea; cbn.
    + split; [|unfold flag; cbn; rewrite Ea; split; [eauto|done]].
      rewrite (off_active h _ (cc_pos c)) by (rewrite flags_lookup, E; cbn; unfold flag; cbn; by rewrite Ea).
      unfold flags. by rewrite fmap_insert.
    + split; [|unfold flag; cbn; rewrite Ea; split; [done|by intros [? [=]]]]. symmetry. apply off_inactive. intros p.
      rewrite flags_lookup, E. cbn. unfold flag. cbn. by rewrite Ea.
  - cbn. split; [|split; [done|by intros [? [=]]]]. symmetry. apply off_inactive. intros p. by rewrite flags_lookup, E.
Qed.

Lemma activate_flags h m p b : flags m !! h = Some (b, p) ->
  flags (snd (activate_client h m)) = <[h := (true, p)]> (flags m) /\ fst (activate_client h m) = negb b.
Proof.
  unfold activate_client. rewrite flags_lookup. destruct (m !! h) as [[c s]|] eqn:E; cbn; [|done].
  intros [= <- <-]. destruct (cs_active s) eqn:Ea; cbn.
  - split; [|done]. symmetry. apply insert_id. rewrite flags_lookup, E. cbn. unfold flag. cbn. by rewrite Ea.
  - split; [|done]. unfold flags. by rewrite fmap_insert.
Qed.

Lemma spec_with_clients {A} (f : Clients -> A * Clients) P Q :
  (forall k m, P k -> bv_flags k = flags m -> Q (fst (f m)) (k <| bv_flags := flags (snd (f m)) |>)) ->
  bspec P (with_clients f) Q.
Proof.
  intros H s Hs. unfold with_clients. rewrite bind_get.
  specialize (H (barrier_view s) (sv_clients s) Hs eq_refl). destruct (f (sv_clients s)) as [a m]. exact H.
Qed.

Lemma spec_update_clients f P (Q : BView -> Prop) :
  (forall k m, P k -> bv_flags k = flags m -> Q (k <| bv_flags := flags (f m) |>)) ->
  bspec P (update_clients f) (fun _ => Q).
Proof. intros H s Hs. exact (H (barrier_view s) (sv_clients s) Hs eq_refl). Qed.

Lemma spec_call c P (Q : BView -> Prop) call :
  match c with CallCreate h _ _ => call = (true, h) | CallDestroy h => call = (false, h) | _ => False end ->
  (forall k, P k -> Q (k <| bv_calls := bv_calls k ++ [call] |>)) ->
  bspec P (capture_call c) (fun _ => Q).
Proof.
  intros Hc H. apply spec_modify. intros s Hs. specialize (H _ Hs). unfold barrier_view in *. cbn in *.
  rewrite barrier_calls_snoc. destruct c; subst; done.
Qed.

Lemma deactivate_spec h fl :
  bspec (fun k => BarrierInv k /\ unique_edges (Some h) k /\ bv_flags k = fl) (service_deactivate h)
    (fun _ k => Barriers k /\ bv_flags k = off h fl).
Proof.
  unfold service_deactivate. eapply spec_bind; [apply spec_neutral; auto with neutral|]. intros ?.
  assert (forall k, unique_edges (Some h) k -> unique_edges None (k <| bv_flags := off h (bv_flags k) |>)) as Hu.
  { intros k H h1 h2 p _ _ [Hn1 H1]%off_true [Hn2 H2]%off_true. apply (H h1 h2 p); congruence. }
  eapply (spec_bind _ _ _ (fun (was : bool) k => if was
    then exists k0 p, BarrierInv k0 /\ bv_flags k0 !! h = Some (true, p) /\ unique_edges None k
         /\ k = k0 <| bv_flags := <[h := (false, p)]> (bv_flags k0) |> /\ bv_flags k = off h fl
    else Barriers k /\ bv_flags k = off h fl)).
  { apply spec_with_clients. intros k m (Hk & Hun & Hfl) Hm.
    destruct (deactivate_flags h m) as [E1 E2]. rewrite E1, <- Hm. rewrite <- Hm in E2.
    specialize (Hu k Hun). destruct (fst (deactivate_client h m)).
    - destruct (proj1 E2 eq_refl) as [p Hp]. exists k, p.
      split; [done|]. split; [done|]. split; [done|]. rewrite <- Hfl. split; [|done].
      by rewrite (off_active _ _ p Hp).
    - assert (off h (bv_flags k) = bv_flags k) as E.
      { apply off_inactive. intros p Hp. discriminate (proj2 E2 (ex_intro _ p Hp)). }
      split; [|cbn; congruence]. split; [|exact Hu]. rewrite E. by destruct k. }
  intros [|]; cbn [when]; [|by apply spec_ret].
  eapply (spec_bind _ _ _ (fun _ k => Barriers k /\ bv_flags k = off h fl)); [|intros ?; apply spec_neutral; auto with neutral].
  apply (spec_call _ _ _ (false, h)); [done|]. intros k (k0 & p & Hk0 & Hp & Hun & -> & Hfl).
  split; [|done]. split; [exact (inv_destroy k0 h p Hk0 Hp)|exact Hun].
Qed.
(** The iteration over the clients gives each of them once. *)
Hypothesis slab_iter_spec : forall m, slab_iter m ≡ₚ map_to_list m.

Lemma slab_elem m h cs : (h, cs) ∈ slab_iter m <-> m !! h = Some cs.
Proof. by rewrite slab_iter_spec, elem_of_map_to_list. Qed.

Lemma client_at_spec p m : match client_at slab_iter p m with
  | Some h => flags m !! h = Some (true, p)
  | None => forall h, flags m !! h <> Some (true, p)
  end.
Proof.
  unfold client_at. destruct (List.find _ _) as [[h [c s]]|] eqn:E; cbn.
  - apply List.find_some in E as [Hin [Ha Hp]%andb_true_iff]. apply bool_decide_eq_true in Hp.
    apply list_elem_of_In, slab_elem in Hin. rewrite flags_lookup, Hin. cbn. unfold flag. cbn. by rewrite Ha, Hp.
  - intros h. rewrite flags_lookup. destruct (m !! h) as [[c s]|] eqn:Eh; [|done]. cbn. intros [= Ha Hp].
    apply slab_elem, list_elem_of_In in Eh. eapply List.find_none in E; [|exact Eh]. cbn in E.
    rewrite Ha, bool_decide_true in E; done.
Qed.

(** The edge of [h] is free for it. *)
Definition edge_free (h : N) (p : IpcPosition) (k : BView) : Prop :=
  Barriers k /\ (exists b, bv_flags k !! h = Some (b, p)) /\ forall h', h' <> h -> bv_flags k !! h' <> Some (true, p).

Lemma activate_spec h : bspec Barriers (service_activate slab_iter h) (fun _ => Barriers).
Proof.
  unfold service_activate. eapply spec_bind; [apply spec_neutral; auto with neutral|]. intros ?.
  eapply spec_bind; [apply (spec_get_rel _ (fun m k => bv_flags k = flags m)); done|]. intros m.
  unfold client_pos. destruct (m !! h) as [[c s]|] eqn:Eh; cbn; [|apply spec_ret; by intros k [Hk _]].
  assert (flags m !! h = Some (cs_active s, cc_pos c)) as Hflag by (by rewrite flags_lookup, Eh).
  set (p := cc_pos c) in *.
  eapply (spec_bind _ _ _ (fun _ => edge_free h p)).
  { pose proof (client_at_spec p m) as Hat. destruct (client_at slab_iter p m) as [other|].
    - destruct (N.eqb_spec other h) as [->|Hne]; cbn.
      + apply spec_ret. intros k [[Hk Hu] Hm]. split; [done|]. rewrite Hm. split; [eauto|].
        intros h' Hne Hh'. apply Hne. rewrite <- Hm in *. by apply (Hu h' h p).
      + apply (spec_pure (forall h', flags m !! h' = Some (true, p) -> h' = other)).
        { intros k [[_ Hu] Hm] h' Hh'. rewrite <- Hm in *. by apply (Hu h' other p). }
        intros Honly. eapply spec_weaken; [apply (deactivate_spec other (flags m))| |].
        * intros k [[Hk Hu] Hm]. split; [done|]. split; [by apply unique_weaken|done].
        * intros ? k [Hk Hm]. split; [done|]. rewrite Hm. split.
          -- exists (cs_active s). by rewrite off_lookup, decide_False.
          -- intros h' _ [Hno Hh'%Honly]%off_true. by subst.
    - apply spec_ret. intros k [Hk Hm]. split; [done|]. rewrite Hm. split; [eauto|]. intros h' _. apply Hat. }
  intros ?. eapply (spec_bind _ _ _ (fun (was : bool) k => if was
    then exists k0, edge_free h p k0 /\ bv_flags k0 !! h = Some (false, p)
         /\ k = k0 <| bv_flags := <[h := (true, p)]> (bv_flags k0) |>
    else Barriers k)).
  { apply spec_with_clients. intros k m' (Hk & [b Hb] & Hfree) Hm. rewrite Hm in Hb.
    destruct (activate_flags h m' p b Hb) as [-> ->]. rewrite <- Hm in *. destruct b; cbn.
    - rewrite insert_id by done. by destruct k.
    - exists k. split; [|done]. split; [done|]. eauto. }
  intros [|]; cbn [when]; [|by apply spec_ret].
  eapply (spec_bind _ _ _ (fun _ => Barriers)); [|intros ?; apply spec_neutral; auto with neutral].
  apply (spec_call _ _ _ (true, h)); [done|]. intros k (k0 & ([Hk Hu] & _ & Hfree) & Hf & ->).
  split; [exact (inv_create k0 h p Hk Hf)|]. intros h1 h2 p' _ _. cbn.
  destruct (decide (h = h1)) as [<-|H1], (decide (h = h2)) as [<-|H2];
    rewrite ?lookup_insert_eq, ?lookup_insert_ne by done; try done.
  - intros [= <-] Hf2. by destruct (Hfree h2).
  - intros Hf1 [= <-]. by destruct (Hfree h1).
  - by apply Hu.
Qed.

Lemma unique_inactive ex k h p : unique_edges ex k ->
  unique_edges ex (k <| bv_flags := <[h := (false, p)]> (bv_flags k) |>).
Proof.
  intros Hu h1 h2 p' He1 He2. cbn. rewrite !lookup_insert. intros H1 H2.
  destruct (decide (h = h1)), (decide (h = h2)); try done. by apply (Hu h1 h2 p').
Qed.

Lemma unique_delete ex k h : unique_edges ex k -> unique_edges ex (k <| bv_flags := delete h (bv_flags k) |>).
Proof.
  intros Hu h1 h2 p' He1 He2. cbn. intros [_ H1]%lookup_delete_Some [_ H2]%lookup_delete_Some. by apply (Hu h1 h2 p').
Qed.

(** A key that the slab hands out. *)
Definition vacant (key : N) (k : BView) : Prop := bv_flags k !! key = None /\ (key < ENTER_HANDLE_BEGIN)%N.

Lemma Barriers_added key p k : Barriers k -> vacant key k ->
  Barriers (k <| bv_flags := <[key := (false, p)]> (bv_flags k) |>).
Proof.
  intros [Hk Hu] [Hn Hb]. split; [|by apply unique_inactive]. apply inv_inactive; [done|done|]. congruence.
Qed.

Lemma add_client_spec key :
  bspec (fun k => Barriers k /\ vacant key k) (service_add_client key) (fun _ => Barriers).
Proof.
  unfold service_add_client. eapply (spec_bind _ _ _ (fun _ => Barriers)).
  { apply spec_update_clients. intros k m [Hk Hv] Hm.
    replace (flags (add_client key m)) with (<[key := (false, ILeft)]> (bv_flags k)).
    - by apply Barriers_added.
    - rewrite Hm. unfold flags, add_client. by rewrite fmap_insert. }
  intros ?. apply spec_neutral. auto with neutral.
Qed.

Lemma remove_client_spec h fl : bspec (fun k => Barriers k /\ bv_flags k = fl) (service_remove_client h)
  (fun _ k => Barriers k /\ bv_flags k = delete h fl).
Proof.
  unfold service_remove_client. eapply spec_bind; [apply spec_neutral; auto with neutral|]. intros ?.
  eapply (spec_bind _ _ _ (fun removed k => exists k0, Barriers k0 /\ bv_flags k0 = fl /\ flag <$> removed = bv_flags k0 !! h
    /\ k = k0 <| bv_flags := delete h (bv_flags k0) |>)).
  { apply spec_with_clients. intros k m [Hk Hfl] Hm. exists k. split; [done|]. split; [done|]. cbn.
    rewrite Hm, flags_lookup. split; [done|]. unfold flags. by rewrite fmap_delete. }
  intros removed. eapply (spec_bind _ _ _ (fun _ k => Barriers k /\ bv_flags k = delete h fl));
    [|intros ?; apply spec_neutral; auto with neutral].
  destruct removed as [[c s]|]; cbn.
  - destruct (cs_active s) eqn:Ea; cbn [when].
    + apply (spec_call _ _ _ (false, h)); [done|]. intros k (k0 & [Hk Hu] & <- & Hf & ->). unfold flag in Hf. cbn in Hf.
      rewrite Ea in Hf. split; [|done].
      split; [exact (inv_delete_active k0 h _ Hk (eq_sym Hf))|exact (unique_delete None k0 h Hu)].
    + apply spec_ret. intros k (k0 & [Hk Hu] & <- & Hf & ->). unfold flag in Hf. cbn in Hf. rewrite Ea in Hf.
      split; [|done]. split; [apply inv_delete; [done|]|by apply unique_delete]. congruence.
  - apply spec_ret. intros k (k0 & [Hk Hu] & <- & Hf & ->). split; [|done].
    split; [apply inv_delete; [done|]|by apply unique_delete]. cbn in Hf. congruence.
Qed.

(** Weakening of a specification that names the flags. *)
Lemma spec_flags (m : svc unit) (f : gmap N (bool * IpcPosition) -> gmap N (bool * IpcPosition)) (P : BView -> Prop) :
  (forall fl, bspec (fun k => P k /\ bv_flags k = fl) m (fun _ k => Barriers k /\ bv_flags k = f fl)) ->
  bspec P m (fun _ => Barriers).
Proof.
  intros H s Hs. specialize (H _ s (conj Hs eq_refl)). destruct (m s) as [[[] s']|[]|msg]; [apply H|done].
Qed.

Lemma update_pos_spec h pos : bspec Barriers (update_pos slab_iter h pos) (fun _ => Barriers).
Proof.
  unfold update_pos. eapply spec_bind; [apply spec_neutral; auto with neutral|]. intros ?.
  eapply (spec_bind _ _ _ (fun (changed : bool) k => if changed then BarrierInv k /\ unique_edges (Some h) k else Barriers k)).
  { apply spec_with_clients. intros k m [Hk Hu] Hm. unfold set_pos.
    assert (Barriers (k <| bv_flags := flags m |>)) as Hsame by (rewrite <- Hm; by destruct k).
    destruct (m !! h) as [[c s]|] eqn:E; cbn; [|exact Hsame]. case_bool_decide; cbn; [exact Hsame|].
    assert (bv_flags k !! h = Some (cs_active s, cc_pos c)) as Hf by (by rewrite Hm, flags_lookup, E).
    replace (flags (<[h := (c <| cc_pos := pos |>, s)]> m)) with (<[h := (cs_active s, pos)]> (bv_flags k))
      by (rewrite Hm; unfold flags; by rewrite fmap_insert).
    destruct (cs_active s).
    - split; [by eapply inv_edge|]. intros h1 h2 p H1 H2. cbn. rewrite !lookup_insert_ne by congruence. by apply Hu.
    - split; [|by apply unique_inactive]. apply inv_inactive; [done|apply (bi_clients _ Hk); eauto|congruence]. }
  intros changed. eapply (spec_bind _ _ _ (fun _ => Barriers)); [|intros ?; apply spec_neutral; auto with neutral].
  destruct changed; cbn [when]; [|by apply spec_ret].
  eapply (spec_bind _ _ _ (fun _ => Barriers)); [|intros ?; apply activate_spec].
  apply (spec_flags _ (off h)). intros fl. eapply spec_weaken; [apply (deactivate_spec _ fl)| |done]. tauto.
Qed.

Lemma config_add_spec key cc :
  bspec (fun k => Barriers k /\ vacant key k) (config_add_client ip_iter slab_iter (key, cc)) (fun _ => Barriers).
Proof.
  unfold config_add_client.
  eapply (spec_bind _ _ _ (fun _ k => exists k0, Barriers k0 /\ vacant key k0
    /\ k = k0 <| bv_flags := <[key := (fc_active cc, fc_pos cc)]> (bv_flags k0) |>)).
  { apply spec_update_clients. intros k m [Hk Hv] Hm. exists k. split; [done|]. split; [done|].
    replace (flags (add_with_config ip_iter key cc m)) with (<[key := (fc_active cc, fc_pos cc)]> (bv_flags k)); [done|].
    rewrite Hm. unfold add_with_config, set_state, set_config, update_client, add_client, flags.
    apply map_eq. intros h. rewrite lookup_fmap. destruct (decide (key = h)) as [<-|Hne].
    - by rewrite !lookup_alter_eq, !lookup_insert_eq.
    - by rewrite !lookup_alter_ne, !lookup_insert_ne, lookup_fmap by done. }
  intros ?. eapply spec_bind; [apply (spec_get_rel _ (fun m k => bv_flags k = flags m)); done|]. intros m.
  unfold get_state. destruct (m !! key) as [[c st]|] eqn:E; [|by intros s ?].
  eapply (spec_bind _ _ _ (fun _ => Barriers)); [|intros ?; apply spec_neutral; auto with neutral].
  apply (spec_pure (cs_active st = fc_active cc)).
  { intros k [(k0 & _ & _ & ->) Hm]. cbn in Hm. apply (f_equal (lookup key)) in Hm.
    rewrite flags_lookup, E, lookup_insert_eq in Hm. by injection Hm. }
  intros ->. destruct (fc_active cc) eqn:Ea; cbn [when].
  - eapply (spec_bind _ _ _ (fun _ => Barriers)); [|intros ?; apply activate_spec].
    apply spec_with_clients. intros k m' [(k0 & Hk0 & Hv & ->) _] Hm'. cbn in Hm'.
    destruct (deactivate_flags key m') as [-> _]. rewrite <- Hm'.
    rewrite (off_active key _ (fc_pos cc)) by apply lookup_insert_eq. rewrite insert_insert_eq.
    exact (Barriers_added key (fc_pos cc) k0 Hk0 Hv).
  - apply spec_ret. intros k [(k0 & Hk0 & Hv & ->) _]. by apply Barriers_added.
Qed.

(** ** Incoming connections *)

Hypothesis info_iter_spec : forall m, info_iter m ≡ₚ map_to_list m.

Lemma find_incoming_spec addr m : match find_incoming info_iter addr m with
  | Some (h, i) => m !! h = Some i /\ in_addr i = addr
  | None => forall h i, m !! h = Some i -> in_addr i <> addr
  end.
Proof.
  unfold find_incoming. destruct (List.find _ _) as [[h i]|] eqn:E.
  - apply List.find_some in E as [Hin Ha]. apply bool_decide_eq_true in Ha.
    apply list_elem_of_In in Hin. by rewrite info_iter_spec, elem_of_map_to_list in Hin.
  - intros h i Hi Ha. assert ((h, i) ∈ info_iter m) as Hin by (by rewrite info_iter_spec, elem_of_map_to_list).
    apply list_elem_of_In in Hin. eapply List.find_none in E; [|exact Hin]. cbn in E. by rewrite bool_decide_true in E.
Qed.

Lemma add_incoming_spec addr pos fp :
  bspec (fun k => Barriers k /\ (bv_next k < ENTER_HANDLE_BEGIN)%N) (add_incoming addr pos fp) (fun _ => Barriers).
Proof.
  unfold add_incoming. eapply spec_bind; [apply (spec_get _ bv_next); done|]. intros n.
  apply (spec_pure (n < ENTER_HANDLE_BEGIN)%N); [by intros k [[_ Hn] ->]|]. intros Hn.
  assert (ENTER_HANDLE_BEGIN = 2 ^ 63)%N as Hbegin by reflexivity.
  rewrite !N.mod_small by lia.
  eapply (spec_bind _ _ _ (fun _ k => exists k0, Barriers k0 /\ n = bv_next k0 /\ k = k0 <| bv_next := (n + 1)%N |>)).
  { apply spec_modify. intros s [[Hk _] ->]. by exists (barrier_view s). }
  intros ?. eapply (spec_bind _ _ _ (fun _ k => exists k0, Barriers k0 /\ n = bv_next k0
    /\ k = k0 <| bv_next := (n + 1)%N |> <| bv_calls := bv_calls k0 ++ [(true, (ENTER_HANDLE_BEGIN + n)%N)] |>)).
  { apply (spec_call _ _ _ (true, (ENTER_HANDLE_BEGIN + n)%N)); [done|]. intros k (k0 & Hk & Hn0 & ->). by exists k0. }
  intros ?. apply spec_modify. intros s (k0 & [Hk Hu] & -> & E).
  pose proof (inv_add_incoming k0 (mkIncoming fp addr pos) Hk Hn) as H. cbn zeta in H.
  destruct k0 as [fl info next conns calls]. unfold barrier_view in *. cbn in *.
  injection E as E1 E2 E3 E4 E5. rewrite E1, E2, E3, E4, E5. split; [exact H|exact Hu].
Qed.

Lemma remove_incoming_spec addr (phi : N -> Prop) :
  bspec (fun k => Barriers k /\ phi (bv_next k)) (remove_incoming info_iter addr)
    (fun _ k => Barriers k /\ phi (bv_next k)).
Proof.
  unfold remove_incoming. eapply spec_bind; [apply (spec_get _ bv_info); done|]. intros m.
  pose proof (find_incoming_spec addr m) as Hf. destruct (find_incoming info_iter addr m) as [[h i]|];
    [|apply spec_ret; by intros k [Hk _]]. destruct Hf as [Hi <-].
  eapply (spec_bind _ _ _ (fun _ k => exists k0, Barriers k0 /\ phi (bv_next k0) /\ m = bv_info k0
    /\ k = k0 <| bv_calls := bv_calls k0 ++ [(false, h)] |>)).
  { apply (spec_call _ _ _ (false, h)); [done|]. intros k [[Hk Hp] Hm]. by exists k. }
  intros ?. eapply (spec_bind _ _ _ (fun _ k => Barriers k /\ phi (bv_next k))); [|intros ?; by apply spec_ret].
  apply spec_modify. intros s (k0 & [Hk Hu] & Hp & -> & E).
  pose proof (inv_remove_incoming k0 h i Hk Hi) as H.
  destruct k0 as [fl info next conns calls]. unfold barrier_view in *. cbn in *.
  injection E as E1 E2 E3 E4 E5. rewrite E1, E2, E3, E4, E5. split; [split; [exact H|exact Hu]|exact Hp].
Qed.

(** The address is among the connections, so its data are found. *)
Lemma update_incoming_spec addr pos fp :
  bspec (fun k => Barriers k /\ (bv_next k < ENTER_HANDLE_BEGIN)%N /\ addr ∈ bv_conns k)
    (update_incoming info_iter addr pos fp) (fun _ => Barriers).
Proof.
  unfold update_incoming. eapply spec_bind; [apply (spec_get _ bv_info); done|]. intros m.
  pose proof (find_incoming_spec addr m) as Hf. destruct (find_incoming info_iter addr m) as [[h i]|].
  2: { intros s [([Hk _] & _ & Ha) ->]. destruct (bi_conns _ Hk addr Ha) as (h & i & Hi & Hai). by destruct (Hf h i). }
  destruct Hf as [Hi <-].
  set (P := fun k => Barriers k /\ (bv_next k < ENTER_HANDLE_BEGIN)%N).
  eapply (spec_bind _ _ _ (fun _ => P)).
  { apply spec_modify. intros s [([Hk Hu] & Hn & _) ->]. split; [|exact Hn].
    split; [exact (inv_update_incoming _ h i (mkIncoming fp (in_addr i) pos) Hk Hi eq_refl)|exact Hu]. }
  intros ?. destruct (_ || _); cbn [when]; [|apply spec_ret; by intros k [Hk _]].
  eapply (spec_bind _ _ _ (fun _ => P)).
  { apply (remove_incoming_spec _ (fun n => n < ENTER_HANDLE_BEGIN)%N). }
  intros ?. eapply (spec_bind _ _ _ (fun _ => Barriers)); [apply add_incoming_spec|].
  intros ?. apply spec_neutral. auto with neutral.
Qed.

(** ** Events *)

Lemma sync_neutral : bneutral (sync_frontend slab_iter public_key_fingerprint).
Proof. unfold sync_frontend, enumerate. auto 20 with neutral. Qed.
Lemma save_neutral : bneutral (save_config slab_iter).
Proof. unfold save_config. auto with neutral. Qed.
Lemma restart_neutral : bneutral restart_clipboard.
Proof. unfold restart_clipboard. auto with neutral. Qed.
Hint Resolve sync_neutral save_neutral restart_neutral : neutral.

Lemma then_neutral (m n : svc unit) P Q : bspec P m (fun _ => Q) -> bneutral n -> bspec P (m;; n) (fun _ => Q).
Proof. intros Hm Hn. eapply spec_bind; [exact Hm|]. intros ?. apply Hn. Qed.

(** Requests whose key, if they need one, is vacant. *)
Definition legal_frontend (key : N) (r : FrontendRequest) (k : BView) : Prop :=
  match r with FrCreate => vacant key k | _ => True end.

Lemma frontend_spec key r :
  bspec (fun k => Barriers k /\ legal_frontend key r k)
    (handle_frontend_request slab_iter public_key_fingerprint key r) (fun _ => Barriers).
Proof.
  assert (forall m : svc unit, bspec Barriers m (fun _ => Barriers) -> forall P : BView -> Prop,
    bspec (fun k => Barriers k /\ P k) m (fun _ => Barriers)) as Hany.
  { intros m Hm P. eapply spec_weaken; [exact Hm|by intros k [Hk _]|done]. }
  destruct r; cbn [handle_frontend_request legal_frontend];
    try lazymatch goal with |- vspec _ _ _ (_ ≫= _) _ => apply then_neutral end; auto with neutral;
    try lazymatch goal with |- vspec _ _ (fun k => _ /\ True) _ _ => apply Hany end;
    try (apply spec_neutral; unfold add_authorized_key, remove_authorized_key, update_keys, change_port, enumerate;
         auto 10 with neutral; fail).
  - destruct active; cbn; [apply activate_spec|].
    apply (spec_flags _ (off handle)). intros fl. eapply spec_weaken; [apply (deactivate_spec _ fl)| |done].
    intros k [[Hk Hu] Hfl]. split; [done|]. split; [by apply unique_weaken|done].
  - apply add_client_spec.
  - apply (spec_flags _ (delete handle)). intros fl. apply remove_client_spec.
  - unfold update_hostname. eapply spec_bind; [apply bneutral_with_clients; apply flags_set_hostname|].
    intros ?. apply spec_neutral. auto with neutral.
  - unfold update_port. apply spec_neutral. apply neutral_bind; [|auto with neutral].
    apply bneutral_update_clients. intros m. unfold set_port. keep_flags.
  - apply update_pos_spec.
  - unfold update_fix_ips. apply spec_neutral. apply neutral_bind; [|auto with neutral].
    apply bneutral_update_clients. intros m. unfold set_fix_ips. keep_flags.
  - unfold update_switch_target. apply spec_neutral. apply neutral_bind; [auto with neutral|]. intros ?.
    apply neutral_bind; [|auto with neutral]. apply bneutral_update_clients. intros m. unfold set_switch_target. keep_flags.
Qed.
Lemma emulation_spec e :
  bspec (fun k => Barriers k /\ match e with EeEntered _ _ _ => (bv_next k < ENTER_HANDLE_BEGIN)%N | _ => True end)
    (handle_emulation_event local_commit slab_iter info_iter e) (fun _ => Barriers).
Proof.
  assert (forall m : svc unit, bneutral m -> bspec (fun k => Barriers k /\ True) m (fun _ => Barriers)) as Hn.
  { intros m Hm. eapply spec_weaken; [apply (spec_neutral _ Barriers Hm)|by intros k [Hk _]|done]. }
  destruct e as [addr fp|fp|addr pos fp|addr|[port|err]|ep|kr pr ep| |addr commit|addr re];
    cbn [handle_emulation_event]; try (apply Hn; auto 20 with neutral; fail).
  - eapply spec_bind; [apply (spec_get _ bv_conns); done|]. intros conns.
    case_bool_decide as Ha; cbn [negb].
    + eapply spec_weaken; [apply update_incoming_spec| |done]. by intros k [[Hk Hnext] ->].
    + eapply (spec_bind _ _ _ (fun _ => Barriers)); [|intros ?; apply spec_neutral; auto with neutral].
      eapply spec_weaken; [apply add_incoming_spec| |done]. by intros k [Hk _].
  - eapply spec_bind; [apply neutral_get|]. intros m.
    eapply (spec_bind _ _ _ (fun _ k => Barriers k /\ True)).
    + apply spec_neutral. destruct (get_client slab_iter addr m); [|auto with neutral].
      apply neutral_bind; [|auto with neutral]. apply bneutral_update_clients. intros m'.
      unfold clear_peer_readiness. keep_flags.
    + intros ?. eapply spec_bind; [apply (remove_incoming_spec addr (fun _ => True))|]. intros removed.
      eapply spec_weaken; [apply (spec_neutral _ Barriers); auto with neutral|by intros k [Hk _]|done].
  - apply Hn. apply neutral_bind; [auto with neutral|]. intros m.
    destruct (get_client slab_iter addr m); [|auto with neutral].
    apply neutral_bind; [|auto 10 with neutral]. apply bneutral_with_clients. intros m'.
    exact (flags_connection (CuPeerCommit n (Some commit)) m').
Qed.

(** *** A new configuration *)

(** The clients stay the same but for their state. *)
Abbreviation dom_neutral := (vneutral (fun s => dom (sv_clients s)) found).

Lemma dom_with_clients {A} (f : Clients -> A * Clients) :
  (forall m, dom (snd (f m)) = dom m) -> dom_neutral (with_clients f).
Proof.
  intros H. apply neutral_same. intros s. unfold with_clients. rewrite bind_get.
  specialize (H (sv_clients s)). by destruct (f (sv_clients s)) as [a m'].
Qed.

Lemma dom_deactivate h : dom_neutral (service_deactivate h).
Proof.
  unfold service_deactivate, update_edge, capture_call, broadcast_client, notify_frontend, out.
  apply neutral_bind; [auto with neutral|]. intros ?. apply neutral_bind; [|auto 10 with neutral].
  apply dom_with_clients. intros m. unfold deactivate_client. destruct (m !! h) as [[c s]|] eqn:E; [|done].
  destruct (cs_active s); [|done]. cbn. rewrite dom_insert_L. apply elem_of_dom_2 in E. set_solver.
Qed.

Lemma dom_activate h : dom_neutral (service_activate slab_iter h).
Proof.
  unfold service_activate, resolve, capture_call, broadcast_client, notify_frontend, out.
  apply neutral_bind; [auto 10 with neutral|]. intros ?. apply neutral_bind; [auto with neutral|]. intros m.
  destruct (client_pos h m); [|auto with neutral]. apply neutral_bind.
  - destruct (client_at slab_iter i m); [|auto with neutral]. apply neutral_when, dom_deactivate.
  - intros ?. apply neutral_bind; [|auto 10 with neutral]. apply dom_with_clients. intros m'. unfold activate_client.
    destruct (m' !! h) as [[c s]|] eqn:E; [|done]. destruct (negb _); [|done]. cbn. rewrite dom_insert_L.
    apply elem_of_dom_2 in E. set_solver.
Qed.
Lemma dom_flags m : dom (flags m) = dom m.
Proof. apply dom_fmap_L. Qed.

Lemma dom_spec {A} (m : svc A) (phi psi : gset N -> Prop) :
  vspec (fun s => dom (sv_clients s)) found phi m (fun _ => psi) ->
  bspec (fun k => phi (dom (bv_flags k))) m (fun _ k => psi (dom (bv_flags k))).
Proof.
  intros H s Hs. cbn in Hs. rewrite dom_flags in Hs. specialize (H s Hs).
  destruct (m s) as [[a s']|[]|msg]; [|done]. cbn. by rewrite dom_flags.
Qed.

Lemma config_add_dom key cc D :
  bspec (fun k => dom (bv_flags k) = D) (config_add_client ip_iter slab_iter (key, cc))
    (fun _ k => dom (bv_flags k) = {[key]} ∪ D).
Proof.
  apply (dom_spec _ (fun d => d = D) (fun d => d = {[key]} ∪ D)). unfold config_add_client.
  eapply (spec_bind _ _ _ (fun _ d => d = {[key]} ∪ D)).
  { apply spec_modify. intros s <-. cbn. unfold add_with_config, set_state, set_config, update_client, add_client.
    by rewrite !dom_alter_L, dom_insert_L. }
  intros ?. apply spec_neutral. unfold notify_frontend, out. apply neutral_bind; [auto with neutral|]. intros m.
  destruct (get_state key m) as [[c st]|]; [|by apply neutral_panics].
  apply neutral_bind; [|auto with neutral]. apply neutral_when. apply neutral_bind; [|intros ?; apply dom_activate].
  apply dom_with_clients. intros m'. unfold deactivate_client. destruct (m' !! key) as [[c' s]|] eqn:E; [|done].
  destruct (cs_active s); [|done]. cbn. rewrite dom_insert_L. apply elem_of_dom_2 in E. set_solver.
Qed.

(** The slab hands out a vacant key for each client of the configuration. *)
Definition legal_config (cfg : ServiceConfig) : Prop :=
  NoDup (map fst (sc_clients cfg)) /\ Forall (fun kc => fst kc < ENTER_HANDLE_BEGIN)%N (sc_clients cfg).

Lemma vacant_dom key k : vacant key k <-> (key < ENTER_HANDLE_BEGIN)%N /\ key ∉ dom (bv_flags k).
Proof. unfold vacant. rewrite not_elem_of_dom. tauto. Qed.

Lemma remove_all_spec m :
  bspec (fun k => Barriers k /\ bv_flags k = flags m) (for_each service_remove_client (registered_clients slab_iter m))
    (fun _ k => Barriers k /\ dom (bv_flags k) = ∅).
Proof.
  set (P := fun (rest : list N) k => Barriers k /\ forall h, h ∈ dom (bv_flags k) -> h ∈ rest).
  eapply (spec_weaken _ _ (P (registered_clients slab_iter m)) _ (fun _ => P [])).
  - apply spec_for_each. intros h rest s [Hk Hd].
    pose proof (remove_client_spec h (bv_flags (barrier_view s)) s (conj Hk eq_refl)) as H.
    destruct (service_remove_client h s) as [[a s']|[]|msg]; [|done]. destruct H as [Hb Hfl]. split; [done|].
    intros h'. rewrite Hfl, dom_delete_L, elem_of_difference, elem_of_singleton. intros [Hin Hne].
    apply Hd in Hin. by apply elem_of_cons in Hin as [->|].
  - intros k [Hk Hm]. split; [done|]. intros h. rewrite Hm, dom_flags, elem_of_dom. intros [cs Hcs].
    apply slab_elem in Hcs. unfold registered_clients. apply list_elem_of_In, List.in_map_iff. exists (h, cs).
    split; [done|]. by apply list_elem_of_In.
  - intros ? k [Hk Hd]. split; [done|]. apply set_eq. intros h. split; [|set_solver].
    intros Hh%Hd. by apply not_elem_of_nil in Hh.
Qed.

Lemma add_all_spec clients :
  bspec (fun k => Barriers k /\ NoDup (map fst clients) /\ Forall (fun kc => vacant (fst kc) k) clients)
    (for_each (config_add_client ip_iter slab_iter) clients) (fun _ => Barriers).
Proof.
  set (P := fun (rest : list (N * ConfigClient)) k =>
    Barriers k /\ NoDup (map fst rest) /\ Forall (fun kc => vacant (fst kc) k) rest).
  eapply (spec_weaken _ _ (P clients) _ (fun _ => P [])); [|done|by intros ? k []].
  apply spec_for_each. intros [key cc] rest s (Hk & Hnd & Hv). cbn in Hnd. apply NoDup_cons in Hnd as [Hnin Hnd].
  apply Forall_cons in Hv as [Hv Hrest]. cbn in Hv.
  pose proof (config_add_spec key cc s (conj Hk Hv)) as H. pose proof (config_add_dom key cc _ s eq_refl) as Hd.
  destruct (config_add_client ip_iter slab_iter (key, cc) s) as [[a s']|[]|msg]; [|done].
  split; [done|]. split; [done|]. apply Forall_forall. intros [key' cc'] Hin.
  apply (proj1 (Forall_forall _ _) Hrest) in Hin as Hv'. cbn in Hv' |- *. apply vacant_dom in Hv' as [Hb Hn].
  apply vacant_dom. split; [done|]. rewrite Hd, elem_of_union, elem_of_singleton. intros [->|?]; [|done].
  apply Hnin. apply list_elem_of_In, List.in_map_iff. exists (key, cc'). split; [done|]. by apply list_elem_of_In.
Qed.

Lemma config_change_spec cfg : legal_config cfg ->
  bspec Barriers (handle_config_change local_commit ip_iter slab_iter public_key_fingerprint cfg) (fun _ => Barriers).
Proof.
  intros [Hnd Hb]. unfold handle_config_change.
  do 3 (eapply spec_bind; [apply spec_neutral; auto with neutral|]; intros ?).
  eapply spec_bind; [apply (spec_get_rel _ (fun m k => bv_flags k = flags m)); done|]. intros m.
  eapply spec_bind; [apply remove_all_spec|]. intros ?.
  eapply (spec_bind _ _ _ (fun _ => Barriers)); [|intros ?; apply spec_neutral; auto 10 with neutral].
  eapply spec_weaken; [apply add_all_spec| |done]. intros k [Hk Hd]. split; [done|]. split; [done|].
  eapply Forall_impl; [exact Hb|]. intros kc Hkc. apply vacant_dom. split; [done|]. rewrite Hd. set_solver.
Qed.
End barriers.
