(* ===== verification/ServiceRun.v ===== *)
(** * Whole runs of the service

    The barriers of the capture follow the clients and connections through a
    whole run, and no run panics while its counters last. *)

From stdpp Require Import base tactics list gmap sets strings.
From Stdlib Require Import NArith ZArith Lia Strings.Byte.
From S2P Require Import Prelude Domain SwitchGate SwitchClient ClipTypes Scancode CaptureTask Clients Service ServiceTheorems ServiceEvents ServiceBarriers ServiceClaims.

Section runs.
Variable local_commit : list byte.
Variable ip_iter : gset N -> list N.
Variable slab_iter : Clients -> list (N * (ClientConfig * ClientState)).
Variable info_iter : gmap N Incoming -> list (N * Incoming).
Variable instant_max : N.
Variable public_key_fingerprint : string.
Context {ReqError JsonError : Type}.
Variables (req_is_timeout req_is_connect : ReqError -> bool).
Variable error_text : SwitchClientError (ReqError:=ReqError) (JsonError:=JsonError) -> string.
Hypothesis slab_iter_spec : forall m, slab_iter m ≡ₚ map_to_list m.
Hypothesis info_iter_spec : forall m, info_iter m ≡ₚ map_to_list m.

Abbreviation step := (service_step local_commit ip_iter slab_iter info_iter instant_max public_key_fingerprint
  req_is_timeout req_is_connect error_text).
Abbreviation runs := (run local_commit ip_iter slab_iter info_iter instant_max public_key_fingerprint
  req_is_timeout req_is_connect error_text).
Abbreviation legal_runs := (legal_run local_commit ip_iter slab_iter info_iter instant_max public_key_fingerprint
  req_is_timeout req_is_connect error_text).

(** The slab hands out vacant keys below the handles of the incoming
    connections, of which there are fewer than 2^63. *)
Definition keys_legal (s : Service) (e : ServiceEvent (ReqError:=ReqError) (JsonError:=JsonError)) : Prop :=
  match e with
  | SvFrontend key r => legal_frontend key r (barrier_view s)
  | SvEmulation (EeEntered _ _ _) => (sv_next_trigger_handle s < ENTER_HANDLE_BEGIN)%N
  | SvConfigChanged cfg => legal_config cfg
  | _ => True
  end.

Lemma step_barriers e s : Barriers (barrier_view s) -> keys_legal s e ->
  match step e s with Ret (_, s') => Barriers (barrier_view s') | Throw _ => False | Panic msg => found msg end.
Proof.
  intros Hs Hl.
  assert (forall (m : svc unit) P, vspec barrier_view found P m (fun _ => Barriers) -> P (barrier_view s) ->
    match m s with Ret (_, s') => Barriers (barrier_view s') | Throw _ => False | Panic msg => found msg end) as Hm.
  { intros m P H HP. specialize (H s HP). by destruct (m s) as [[[] s']|[]|msg]. }
  destruct e as [u|key r|e|rid lid w e|e|e| |cfg]; cbn [service_step keys_legal] in *.
  - apply (Hm _ Barriers); [|done]. apply spec_neutral, bneutral_update_clients. intros m. apply flags_connection.
  - eapply Hm; [by eapply frontend_spec|done].
  - eapply Hm; [by apply emulation_spec|]. split; [done|]. by destruct e.
  - apply (Hm _ Barriers); [apply spec_neutral, bneutral_capture_event|done].
  - apply (Hm _ Barriers); [apply spec_neutral, bneutral_resolver|done].
  - apply (Hm _ Barriers); [apply spec_neutral, bneutral_switch_event|done].
  - apply (Hm _ Barriers); [apply spec_neutral, bneutral_switch_deadline|done].
  - apply (Hm _ Barriers); [by eapply config_change_spec|done].
Qed.

Lemma events_barriers events s : Barriers (barrier_view s) ->
  legal_events local_commit ip_iter slab_iter info_iter instant_max public_key_fingerprint
    req_is_timeout req_is_connect error_text keys_legal events s ->
  match for_each step events s with Ret (_, s') => Barriers (barrier_view s') | Throw _ => False | Panic msg => found msg end.
Proof.
  revert s. induction events as [|e rest IH]; intros s Hs Hl; [done|]. destruct Hl as [He Hl].
  pose proof (step_barriers e s Hs He) as H. cbn [for_each]. unfold mbind, svc_bind, exec_bind.
  destruct (step e s) as [[a s']|[]|msg]; [|done]. by apply IH.
Qed.

(** ** The start *)

(** Before the start no barrier exists, whatever the clients' states say. *)
Record Fresh (k : BView) : Prop := {
  fr_calls : bv_calls k = [];
  fr_info : bv_info k = ∅;
  fr_next : bv_next k = 0%N;
  fr_conns : bv_conns k = ∅;
  fr_keys : forall h, is_Some (bv_flags k !! h) -> (h < ENTER_HANDLE_BEGIN)%N }.

Lemma Fresh_barriers k : Fresh k -> (forall h p, bv_flags k !! h <> Some (true, p)) -> Barriers k.
Proof.
  intros [H1 H2 H3 H4 H5] Hf. split; [split|].
  - exists ∅. rewrite H1. split; [done|]. intros h. rewrite H2, lookup_empty. split; [set_solver|].
    intros [[p Hp]|[? [=]]]. by apply Hf in Hp.
  - done.
  - intros h. rewrite H2, lookup_empty. by intros [? [=]].
  - rewrite H3. done.
  - intros a. rewrite H4. set_solver.
  - intros h1 h2 p _ _ Hp. by apply Hf in Hp.
Qed.

Lemma Fresh_off h k : Fresh k -> Fresh (k <| bv_flags := off h (bv_flags k) |>).
Proof.
  intros [H1 H2 H3 H4 H5]. split; cbn; try done. intros h' Hh. apply H5. unfold off in Hh.
  by rewrite lookup_alter_is_Some in Hh.
Qed.

Lemma start_spec : vspec barrier_view found Fresh (service_start slab_iter) (fun _ => Barriers).
Proof.
  unfold service_start. eapply spec_bind; [apply (spec_get_rel _ (fun m k => bv_flags k = flags m)); done|]. intros m.
  set (P := fun (rest : list N) k => Fresh k /\ forall h p, bv_flags k !! h = Some (true, p) -> h ∈ rest).
  eapply (spec_bind _ _ _ (fun _ => P [])).
  { eapply (spec_weaken _ _ (P (active_clients slab_iter m)) _ (fun _ => P [])); [| |done].
    - apply spec_for_each. intros h rest. eapply (spec_bind _ _ _ (fun _ => P rest)); [|intros ?; by apply spec_ret].
      apply spec_with_clients. intros k m' [Hk Hr] Hm. destruct (deactivate_flags h m') as [-> _]. rewrite <- Hm.
      split; [by apply Fresh_off|]. intros h' p [Hne Hp]%off_true. apply Hr in Hp. by apply elem_of_cons in Hp as [->|].
    - intros k [Hk Hm]. split; [done|]. intros h p. rewrite Hm, flags_lookup.
      destruct (m !! h) as [[c s]|] eqn:E; [|done]. cbn. intros [= Ha _]. apply (slab_elem slab_iter slab_iter_spec) in E.
      unfold active_clients. apply list_elem_of_In, List.in_map_iff. exists (h, (c, s)). split; [done|].
      apply List.filter_In. split; [by apply list_elem_of_In|done]. }
  intros ?. eapply (spec_weaken _ _ Barriers _ (fun _ => Barriers)); [| |done].
  - apply (spec_for_each _ (fun _ => Barriers)). intros h rest. by apply activate_spec.
  - intros k [Hk Hr]. apply Fresh_barriers; [done|]. intros h p Hp. apply Hr in Hp. by apply not_elem_of_nil in Hp.
Qed.

Lemma new_fresh clients controller port authorized clock instants hooks :
  Forall (fun kc => fst kc < ENTER_HANDLE_BEGIN)%N clients ->
  Fresh (barrier_view (service_new ip_iter clients controller port authorized clock instants hooks)).
Proof.
  intros Hc. split; try done. cbn. intros h. rewrite <- elem_of_dom, dom_flags. revert h.
  enough (forall m0 : Clients, (forall h, h ∈ dom m0 -> (h < ENTER_HANDLE_BEGIN)%N) ->
    forall h, h ∈ dom (foldl (fun m '(key, cc) => add_with_config ip_iter key cc m) m0 clients) -> (h < ENTER_HANDLE_BEGIN)%N) as H.
  { intros h. apply (H ∅). intros h'. rewrite dom_empty_L. set_solver. }
  induction Hc as [|[key cc] rest Hkey Hc IH]; intros m0 H0 h; cbn; [apply H0|].
  apply IH. intros h'. unfold add_with_config, set_state, set_config, update_client, add_client.
  rewrite !dom_alter_L, dom_insert_L, elem_of_union, elem_of_singleton. intros [->|?]; [done|by apply H0].
Qed.
(** C27: In every run in which the slab hands out vacant keys, each barrier the
    service creates is new and each one it destroys exists, which is what the
    capture task relies on; afterwards the barriers are exactly those of the
    active clients and of the incoming connections, at most one client is
    active at each edge, and every incoming address is found. *)
Theorem service_barriers clients controller port authorized clock instants hooks events s' :
  let s := service_new ip_iter clients controller port authorized clock instants hooks in
  Forall (fun kc => fst kc < ENTER_HANDLE_BEGIN)%N clients -> legal_runs keys_legal events s ->
  runs events s = Ret (tt, s') -> Barriers (barrier_view s').
Proof.
  intros s Hc Hl Hr. pose proof (start_spec s) as H.
  specialize (H (new_fresh _ _ _ _ _ _ _ Hc)). unfold legal_run in Hl. unfold run, mbind, svc_bind, exec_bind in Hr.
  destruct (service_start slab_iter s) as [[a s1]|[]|msg]; [|done].
  pose proof (events_barriers events s1 H Hl) as He. rewrite Hr in He. exact He.
Qed.

Definition run_legal (s : Service) (e : ServiceEvent (ReqError:=ReqError) (JsonError:=JsonError)) : Prop :=
  capture_legal s e /\ keys_legal s e.

Lemma legal_events_weaken (L L' : Service -> ServiceEvent (ReqError:=ReqError) (JsonError:=JsonError) -> Prop) events s :
  (forall s e, L s e -> L' s e) ->
  legal_events local_commit ip_iter slab_iter info_iter instant_max public_key_fingerprint
    req_is_timeout req_is_connect error_text L events s ->
  legal_events local_commit ip_iter slab_iter info_iter instant_max public_key_fingerprint
    req_is_timeout req_is_connect error_text L' events s.
Proof.
  intros HL. revert s. induction events as [|e rest IH]; intros s; [done|]. cbn [legal_events]. intros [He Hl].
  split; [by apply HL|]. destruct (step e s) as [[a s']|[]|msg]; [|done]. by apply IH.
Qed.

(** C28: No legal run of the service panics, except when the counter of its
    switch operations or that of its releases has run through all 64-bit
    values: no lookup that is unwrapped can fail.  The capture and emulation
    tasks are taken to be running, so that calls to them find their channels
    open. *)
Theorem service_never_panics clients controller port authorized clock instants hooks events :
  let s := service_new ip_iter clients controller port authorized clock instants hooks in
  Forall (fun kc => fst kc < ENTER_HANDLE_BEGIN)%N clients -> legal_runs run_legal events s ->
  match runs events s with
  | Ret _ => True
  | Throw _ => False
  | Panic msg => msg = "switch task epoch exhausted" \/ msg = "release epoch exhausted"
  end.
Proof.
  intros s Hc Hl. destruct (runs events s) as [x|[]|msg] eqn:Hr; [done|].
  assert (tolerated msg /\ found msg) as [[?|[?|?]] Hf]; auto; [|done].
  unfold legal_run in Hl. unfold run, mbind, svc_bind, exec_bind in Hr.
  pose proof (start_spec s (new_fresh _ _ _ _ _ _ _ Hc)) as Hb.
  pose proof (start_neutral slab_iter LeaseInv s (new_inv _ _ _ _ _ _ _ _)) as Hi.
  destruct (service_start slab_iter s) as [[a s1]|[]|msg']; [|by injection Hr as ->].
  split.
  - pose proof (events_inv local_commit ip_iter slab_iter info_iter instant_max public_key_fingerprint
      req_is_timeout req_is_connect error_text events s1 Hi) as H. rewrite Hr in H. apply H.
    eapply legal_events_weaken; [|exact Hl]. by intros ? ? [].
  - pose proof (events_barriers events s1 Hb) as H. rewrite Hr in H. apply H.
    eapply legal_events_weaken; [|exact Hl]. by intros ? ? [].
Qed.
End runs.

(** ** Concrete runs *)

(** A second client takes over the edge of the first, and a peer enters. *)
Definition edge_events : list (ServiceEvent (ReqError:=unit) (JsonError:=unit)) :=
  [SvFrontend 1 FrCreate; SvFrontend 0 (FrActivate 1 true);
   SvEmulation (EeEntered (mkAddr 7 4242) IRight "fp"); SvEmulation (EeEntered (mkAddr 7 4242) ITop "fp")].
Definition edge_state : option Service :=
  match run handover.commit elements map_to_list map_to_list 100000 "" (fun _ => false) (fun _ => false)
    (fun _ : SwitchClientError (ReqError:=unit) (JsonError:=unit) => "") edge_events handover.start with
  | Ret (_, s) => Some s
  | _ => None
  end.

Example edge_calls : barrier_calls ∘ sv_out <$> edge_state
  = Some [(true, 0); (false, 0); (true, 1); (true, 9223372036854775808);
          (false, 9223372036854775808); (true, 9223372036854775809)]%N.
Proof. vm_compute. reflexivity. Qed.

Lemma service_barriers_witness : edge_state = Some (default handover.start edge_state)
  /\ Barriers (barrier_view (default handover.start edge_state)).
Proof.
  split; [vm_compute; reflexivity|].
  apply (service_barriers handover.commit elements map_to_list map_to_list 100000 "" (fun _ => false) (fun _ => false)
    (fun _ => "") (fun m => Permutation_refl _) (fun m => Permutation_refl _) [(0%N, handover.peer)]
    (Some handover.controller) 4242 ∅ handover.clock handover.clock (fun _ => true) edge_events).
  - repeat constructor.
  - vm_compute. repeat split; done.
  - vm_compute. reflexivity.
Defined.

(** The handover with the loss of the peer. *)
Lemma service_never_panics_witness :
  match run handover.commit elements map_to_list map_to_list 100000 "" (fun _ => false) (fun _ => false)
    (fun _ : SwitchClientError (ReqError:=unit) (JsonError:=unit) => "") handover.lost handover.start with
  | Ret _ => True
  | Throw _ => False
  | Panic msg => msg = "switch task epoch exhausted" \/ msg = "release epoch exhausted"
  end.
Proof.
  apply (service_never_panics handover.commit elements map_to_list map_to_list 100000 "" (fun _ => false) (fun _ => false)
    (fun _ => "") (fun m => Permutation_refl _) (fun m => Permutation_refl _) [(0%N, handover.peer)]
    (Some handover.controller) 4242 ∅ handover.clock handover.clock (fun _ => true) handover.lost).
  - repeat constructor.
  - vm_compute. repeat (split; [split; [try done; try (repeat constructor)|done]|]); done.
Defined.
