(* ===== verification/EmulationTask.v ===== *)
(** * The emulation tasks (lan-mouse/src/emulation.rs)

    Two tasks receive the input of other computers.  The listen task answers
    the peers: it hands an entering peer over only after the own capture was
    released and the pointer centred, repeats requests to release until they
    are acknowledged, and drops peers that fall silent.  The emulation task
    owns the emulation and numbers its sessions.

    Both are state machines that take one input at a time.  A oneshot answers
    the request it was made for; a dropped sender counts as [false].  Instants
    are in nanoseconds, and the iteration orders of the hash maps are
    parameters. *)

From stdpp Require Import base tactics list gmap sets strings.
From Stdlib Require Import NArith ZArith Lia Strings.Byte.
From S2P Require Import Prelude Domain SwitchGate ProtoWire Emulation CaptureTask Clients Service.

(** ** The listen task *)

Inductive EmulationRequest :=
| ErReenable
| ErRelease (addr : SocketAddr) (release_epoch : N)
| ErChangePort (port : N)
| ErTerminate.

(** A request of the listen task to the emulation task; the sender of a
    [CenterPointer] is the pending enter it was made for. *)
Inductive ProxyRequest :=
| PrInput (e : InputEvent) (addr : SocketAddr)
| PrCenterPointer (addr : SocketAddr)
| PrRemove (addr : SocketAddr)
| PrTerminate
| PrReenable.

(** The receiver a pending enter waits for; [refused] tells that the request to
    centre the pointer was answered with [false] at once. *)
Inductive PendingEnterStep := Releasing | Centering (refused : bool).

Record PendingEnter := mkPendingEnter {
  pe_addr : SocketAddr;
  pe_pos : ProtoPosition;
  pe_fingerprint : string;
  pe_step : PendingEnterStep }.
#[global] Instance PendingEnter_eta : RecordEta PendingEnter := fun p =>
  mkPendingEnter (pe_addr p) (pe_pos p) (pe_fingerprint p) (pe_step p).

Inductive PendingEnterProgress := Released (ok : bool) | Centered (ok : bool) | TimedOut.

Inductive EnterDisposition := DStart | DWaitForPending | DAcknowledge | DRejectBusy.

Inductive ListenOut :=
| LReply (addr : SocketAddr) (e : ProtoEvent) (sent : bool)
| LBroadcast (e : ProtoEvent)
| LDisconnect (addr : SocketAddr)
| LEvent (e : EmulationEvent)
| LProxy (r : ProxyRequest)
| LPortChange (port : N)
| LTerminate.

(** The state of [ListenTask::run] with that of its [EmulationProxy]. *)
Record ListenState := mkListen {
  ls_keyboard_ready : bool;
  ls_pointer_ready : bool;
  ls_session_epoch : N;
  ls_last_response : gmap SocketAddr N;
  ls_rejected : gmap string N;
  ls_pending_releases : gmap SocketAddr N;
  ls_pending_enter : option PendingEnter;
  ls_entered : gset SocketAddr;
  ls_sends : nat -> bool;     (* whether the coming replies are sent *)
  ls_out : list ListenOut }.
#[global] Instance ListenState_eta : RecordEta ListenState := fun s =>
  mkListen (ls_keyboard_ready s) (ls_pointer_ready s) (ls_session_epoch s) (ls_last_response s)
    (ls_rejected s) (ls_pending_releases s) (ls_pending_enter s) (ls_entered s) (ls_sends s) (ls_out s).

Definition listen_new (sends : nat -> bool) : ListenState :=
  mkListen false false 0 ∅ ∅ ∅ None ∅ sends [].

Definition lt (A : Type) : Type := ListenState -> A * ListenState.
#[global] Instance lt_ret : MRet lt := fun A a s => (a, s).
#[global] Instance lt_bind : MBind lt := fun A C k m s => let '(a, s) := m s in k a s.

Definition lget {A} (f : ListenState -> A) : lt A := fun s => (f s, s).
Definition lmod (f : ListenState -> ListenState) : lt unit := fun s => (tt, f s).
Definition lout (o : ListenOut) : lt unit := lmod (fun s => s <| ls_out := ls_out s ++ [o] |>).
Definition lwhen (b : bool) (m : lt unit) : lt unit := if b then m else mret tt.
Definition send_event (e : EmulationEvent) : lt unit := lout (LEvent e).

(** [LanMouseListener::reply] *)
Definition reply (addr : SocketAddr) (e : ProtoEvent) : lt bool := fun s =>
  (ls_sends s 0, s <| ls_sends := fun n => ls_sends s (S n) |>
                   <| ls_out := ls_out s ++ [LReply addr e (ls_sends s 0)] |>).

(** [PendingReleases] *)
Definition releases_request (addr : SocketAddr) (epoch : N) (m : gmap SocketAddr N) : gmap SocketAddr N :=
  <[addr := epoch]> m.
Definition retry_epoch (addr : SocketAddr) (m : gmap SocketAddr N) : option N := m !! addr.
Definition acknowledge (addr : SocketAddr) (epoch : N) (m : gmap SocketAddr N) : bool * gmap SocketAddr N :=
  if negb (bool_decide (m !! addr = Some epoch)) then (false, m) else (true, delete addr m).
Definition releases_disconnected (addr : SocketAddr) (m : gmap SocketAddr N) : gmap SocketAddr N :=
  delete addr m.

(** [EmulationProxy] *)
Definition px_readiness (s : ListenState) : ProtoEvent :=
  Readiness (ls_keyboard_ready s) (ls_pointer_ready s) (ls_session_epoch s).
Definition control_ready (s : ListenState) : bool := ls_keyboard_ready s && ls_pointer_ready s.
Definition px_consume (e : InputEvent) (addr : SocketAddr) : lt unit :=
  ready ← lget control_ready; lwhen ready (lout (LProxy (PrInput e addr))).
Definition request_center_pointer (addr : SocketAddr) : lt PendingEnterStep :=
  ready ← lget control_ready;
  if negb ready then mret (Centering true)
  else lout (LProxy (PrCenterPointer addr));; mret (Centering false).
Definition px_remove (addr : SocketAddr) : lt unit := lout (LProxy (PrRemove addr)).
Definition px_reenable : lt unit := lout (LProxy PrReenable).

(** [EmulationProxy::event]: what receiving an event changes. *)
Definition px_event (e : EmulationEvent) : lt unit :=
  match e with
  | EeEmulationEnabled k p epoch =>
      lmod (fun s => s <| ls_session_epoch := epoch |> <| ls_keyboard_ready := k |> <| ls_pointer_ready := p |>)
  | EeEmulationDisabled epoch =>
      lmod (fun s => s <| ls_session_epoch := epoch |> <| ls_keyboard_ready := false |> <| ls_pointer_ready := false |>)
  | _ => mret tt
  end.

(** [PendingEnter::new] *)
Definition pending_enter_new (addr : SocketAddr) (pos : ProtoPosition) (fingerprint : string) : PendingEnter :=
  mkPendingEnter addr pos fingerprint Releasing.

Definition pending_for (addr : SocketAddr) (p : option PendingEnter) : bool :=
  match p with Some p => bool_decide (pe_addr p = addr) | None => false end.

(** [enter_disposition] *)
Definition enter_disposition (entered : gset SocketAddr) (pending : option PendingEnter) (addr : SocketAddr)
  : EnterDisposition :=
  if bool_decide (addr ∈ entered) then DAcknowledge
  else if pending_for addr pending then DWaitForPending
  else match pending with Some _ => DRejectBusy | None => DStart end.

(** [wait_for_pending_enter]: what comes of the pending enter when its receiver
    yields [Some b] or its deadline passes; nothing ever comes of [None]. *)
Definition wait_for_pending_enter (pending : option PendingEnter) (r : option bool) : option PendingEnterProgress :=
  match pending with
  | None => None
  | Some p =>
      match pe_step p, r with
      | _, None => Some TimedOut
      | Releasing, Some b => Some (Released b)
      | Centering refused, Some b => Some (Centered (negb refused && b))
      end
  end.

(** [to_ipc_pos] *)
Definition to_ipc_pos (p : ProtoPosition) : IpcPosition :=
  match p with PosLeft => ILeft | PosRight => IRight | PosTop => ITop | PosBottom => IBottom end.

Definition SECOND : N := 1000000000.

(** [Instant::elapsed] *)
Definition elapsed (now instant : N) : N := (now - instant)%N.

Inductive ListenInput :=
| LiMsg (e : ProtoEvent) (addr : SocketAddr) (fingerprint : option string) (now : N)
| LiAccept (addr : SocketAddr) (fingerprint : string)
| LiRejected (fingerprint : string) (now : N)
| LiDisconnected (addr : SocketAddr)
| LiClosed
| LiProgress (r : option bool)
| LiProxy (e : EmulationEvent)
| LiRequest (r : EmulationRequest) (port : N + string)
| LiTick (now : N).

Section listen.
Variable local_commit : list byte.
Variable response_iter : gmap SocketAddr N -> list (SocketAddr * N).

(** The arm of [Enter]. *)
Definition on_enter (pos : ProtoPosition) (addr : SocketAddr) (fingerprint : option string) : lt unit :=
  match fingerprint with
  | None => mret tt
  | Some fingerprint =>
      entered ← lget ls_entered;
      pending ← lget ls_pending_enter;
      match enter_disposition entered pending addr with
      | DAcknowledge => reply addr (Ack 0);; mret tt
      | DWaitForPending => mret tt
      | DRejectBusy => mret tt
      | DStart =>
          send_event EeReleaseCapture;;
          lmod (fun s => s <| ls_pending_enter := Some (pending_enter_new addr pos fingerprint) |>)
      end
  end.

(** Forgetting a peer that left or is gone. *)
Definition drop_enter (addr : SocketAddr) : lt unit :=
  lmod (fun s => s <| ls_pending_enter := if pending_for addr (ls_pending_enter s) then None else ls_pending_enter s |>
                   <| ls_entered := ls_entered s ∖ {[addr]} |>).

(** A message of a peer. *)
Definition on_message (e : ProtoEvent) (addr : SocketAddr) (fingerprint : option string) (now : N) : lt unit :=
  lmod (fun s => s <| ls_last_response := <[addr := now]> (ls_last_response s) |>);;
  match e with
  | Enter pos => on_enter pos addr fingerprint
  | Leave _ => drop_enter addr;; px_remove addr;; reply addr (Ack 0);; mret tt
  | Input e => px_consume e addr
  | Ping =>
      ready ← lget control_ready;
      reply addr (Pong ready);;
      r ← lget px_readiness;
      reply addr r;;
      pending ← lget ls_pending_releases;
      match retry_epoch addr pending with
      | Some epoch => reply addr (ReleaseRequest epoch);; mret tt
      | None => mret tt
      end
  | Hello commit =>
      reply addr (Hello local_commit);;
      r ← lget px_readiness;
      reply addr r;;
      send_event (EePeerHello addr commit)
  | ReleaseAck epoch =>
      pending ← lget ls_pending_releases;
      let '(ok, pending) := acknowledge addr epoch pending in
      lmod (fun s => s <| ls_pending_releases := pending |>);;
      lwhen ok (send_event (EeReleaseAcknowledged addr epoch))
  | Readiness _ _ _ | Ack _ | Pong _ | ReleaseRequest _ => mret tt
  end.

(** A handoff that failed or timed out. *)
Definition fail_enter (p : PendingEnter) : lt unit :=
  lmod (fun s => s <| ls_pending_enter := None |>);; px_remove (pe_addr p);; lout (LDisconnect (pe_addr p)).

(** Progress of the pending enter. *)
Definition on_progress (progress : PendingEnterProgress) (p : PendingEnter) : lt unit :=
  match progress with
  | Released true =>
      step ← request_center_pointer (pe_addr p);
      lmod (fun s => s <| ls_pending_enter := Some (p <| pe_step := step |>) |>)
  | Centered true =>
      lmod (fun s => s <| ls_pending_enter := None |>);;
      sent ← reply (pe_addr p) (Ack 0);
      if sent : bool then
        lmod (fun s => s <| ls_entered := ls_entered s ∪ {[pe_addr p]} |>);;
        send_event (EeEntered (pe_addr p) (to_ipc_pos (pe_pos p)) (pe_fingerprint p))
      else px_remove (pe_addr p);; lout (LDisconnect (pe_addr p))
  | Released false | Centered false | TimedOut => fail_enter p
  end.

(** A silent peer, in [interval.tick()]. *)
Definition drop_silent (addr : SocketAddr) : lt unit :=
  px_remove addr;; send_event (EeDisconnected addr);;
  lmod (fun s => s <| ls_pending_releases := releases_disconnected addr (ls_pending_releases s) |>).

Definition silent (now : N) (r : SocketAddr * N) : bool := (SECOND <? elapsed now (snd r))%N.

Fixpoint for_addrs (f : SocketAddr -> lt unit) (l : list SocketAddr) : lt unit :=
  match l with [] => mret tt | a :: rest => f a;; for_addrs f rest end.

(** [ListenTask::run]: one turn of the loop; [false] ends it. *)
Definition listen_step (i : ListenInput) : lt bool :=
  match i with
  | LiMsg e addr fingerprint now => on_message e addr fingerprint now;; mret true
  | LiAccept addr fingerprint => send_event (EeConnected addr fingerprint);; mret true
  | LiRejected fingerprint now =>
      m ← lget ls_rejected;
      lmod (fun s => s <| ls_rejected := <[fingerprint := now]> m |>);;
      lwhen (match m !! fingerprint with Some i => (2 * SECOND <=? elapsed now i)%N | None => true end)
        (send_event (EeConnectionAttempt fingerprint));;
      mret true
  | LiDisconnected addr =>
      lmod (fun s => s <| ls_last_response := delete addr (ls_last_response s) |>
                       <| ls_pending_releases := releases_disconnected addr (ls_pending_releases s) |>);;
      drop_enter addr;; px_remove addr;; send_event (EeDisconnected addr);; mret true
  | LiClosed => lout LTerminate;; lout (LProxy PrTerminate);; mret false
  | LiProgress r =>
      pending ← lget ls_pending_enter;
      match pending, wait_for_pending_enter pending r with
      | Some p, Some progress => on_progress progress p;; mret true
      | _, _ => mret true
      end
  | LiProxy e =>
      px_event e;;
      r ← lget px_readiness;
      lwhen (match e with EeEmulationEnabled _ _ _ | EeEmulationDisabled _ => true | _ => false end)
        (lout (LBroadcast r));;
      send_event e;; mret true
  | LiRequest r port =>
      match r with
      | ErReenable => px_reenable;; mret true
      | ErRelease addr epoch =>
          lmod (fun s => s <| ls_pending_releases := releases_request addr epoch (ls_pending_releases s) |>);;
          reply addr (ReleaseRequest epoch);; mret true
      | ErChangePort p =>
          lout (LPortChange p);; send_event (EePortChanged port);; mret true
      | ErTerminate => lout LTerminate;; lout (LProxy PrTerminate);; mret false
      end
  | LiTick now =>
      m ← lget ls_last_response;
      for_addrs drop_silent (map fst (List.filter (silent now) (response_iter m)));;
      lmod (fun s => s <| ls_last_response := filter (fun r => silent now r = false) m |>);; mret true
  end.

(** The loop; inputs after its end are not taken. *)
Fixpoint listen_run (inputs : list ListenInput) : lt bool :=
  match inputs with
  | [] => mret true
  | i :: rest => go ← listen_step i; if go : bool then listen_run rest else mret false
  end.
End listen.

(** ** The emulation task *)

(** What the task sends, and the emulations it has terminated. *)
Inductive EmuOut (B : Type) :=
| EoEvent (e : EmulationEvent)
| EoCentered (addr : SocketAddr) (ok : bool)
| EoTerminated (emulation : InputEmulation B).
Arguments EoEvent {B} e.
Arguments EoCentered {B} addr ok.
Arguments EoTerminated {B} emulation.

Record EmuTask (B : Type) := mkEmuTask {
  et_handles : gmap SocketAddr N;
  et_next_id : N;
  et_next_session_epoch : N;
  et_exit_requested : bool;
  et_out : list (EmuOut B) }.
Arguments mkEmuTask {B} _ _ _ _ _.
Arguments et_handles {B} _.
Arguments et_next_id {B} _.
Arguments et_next_session_epoch {B} _.
Arguments et_exit_requested {B} _.
Arguments et_out {B} _.
#[global] Instance EmuTask_eta {B} : RecordEta (EmuTask B) := fun t =>
  mkEmuTask (et_handles t) (et_next_id t) (et_next_session_epoch t) (et_exit_requested t) (et_out t).

Section emulation_task.
Context {E B : Type} {HB : EmulationBackend E B}.
Variable drain : gset N -> list N.
Variable handle_iter : gmap SocketAddr N -> list N.
Variable is_transient : E -> bool.

(** Where the task is: [InputEmulation::new] is running; [create_clients] has
    the given handles left; a session runs; it waits, perhaps for a retry; it
    has ended.  [guard] is the epoch the drop guard will send. *)
Inductive EmuMode :=
| EmCreating
| EmClients (emulation : InputEmulation B) (guard : N) (rest : list N)
| EmSession (emulation : InputEmulation B) (guard : N)
| EmIdle (retry : bool)
| EmEnded.

(** What the task meets: the exit flag being set, the end of
    [InputEmulation::new] with a backend (that is or is not the dummy) or an
    error (that is or is not transient), the end of [create], a request, an
    error of the backend, the retry deadline. *)
Inductive EmuInput :=
| EiExit
| EiNew (r : B * bool + bool)
| EiCreated
| EiRequest (r : ProxyRequest)
| EiError (e : E)
| EiRetry.

Definition emit_out (o : EmuOut B) (t : EmuTask B) : EmuTask B := t <| et_out := et_out t ++ [o] |>.

(** [backend_readiness] *)
Definition backend_readiness (dummy : bool) : bool * bool := let ready := negb dummy in (ready, ready).

(** [EmulationTask::run], after [do_emulation] has returned. *)
Definition after_emulation (retry : bool) (t : EmuTask B) : EmuMode * EmuTask B :=
  (if et_exit_requested t then EmEnded else EmIdle retry, t).

(** The end of [do_emulation] once the guard exists: [terminate] and drop. *)
Definition end_emulation (emulation : InputEmulation B) (guard : N) (retry : bool) (t : EmuTask B) : EmuMode * EmuTask B :=
  after_emulation retry
    (emit_out (EoEvent (EeEmulationDisabled guard)) (emit_out (EoTerminated (emulation_terminate drain emulation)) t)).

(** [create_clients] goes on with the next handle, or the session begins. *)
Definition next_client (emulation : InputEmulation B) (guard : N) (rest : list N) : EmuMode :=
  match rest with [] => EmSession emulation guard | _ => EmClients emulation guard rest end.

(** [do_emulation], after [InputEmulation::new]. *)
Definition begin_emulation (b : B) (dummy : bool) (t : EmuTask B) : exec Empty_set (EmuMode * EmuTask B) :=
  let '(keyboard_ready, pointer_ready) := backend_readiness dummy in
  let enabled_epoch := et_next_session_epoch t in
  match checked_add enabled_epoch 1 with
  | None => Panic "emulation session epoch exhausted"
  | Some disabled_epoch =>
      match checked_add disabled_epoch 1 with
      | None => Panic "emulation session epoch exhausted"
      | Some next =>
          Ret (next_client (emulation_new b) disabled_epoch (handle_iter (et_handles t)),
               emit_out (EoEvent (EeEmulationEnabled keyboard_ready pointer_ready enabled_epoch))
                 (t <| et_next_session_epoch := next |>))
      end
  end.

(** [handle_for_addr] *)
Definition handle_for_addr (addr : SocketAddr) (emulation : InputEmulation B) (t : EmuTask B)
  : N * InputEmulation B * EmuTask B :=
  match et_handles t !! addr with
  | Some handle => (handle, emulation, t)
  | None =>
      let handle := et_next_id t in
      (handle, snd (emulation_create handle emulation),
       t <| et_next_id := ((et_next_id t + 1) mod 2 ^ 64)%N |> <| et_handles := <[addr := handle]> (et_handles t) |>)
  end.

(** [do_emulation_session]: one request. *)
Definition session_step (r : ProxyRequest) (emulation : InputEmulation B) (guard : N) (t : EmuTask B)
  : EmuMode * EmuTask B :=
  match r with
  | PrInput e addr =>
      let '(handle, emulation, t) := handle_for_addr addr emulation t in
      match emulation_consume e handle emulation with
      | (inl _, emulation) => (EmSession emulation guard, t)
      | (inr error, emulation) => end_emulation emulation guard (is_transient error) t
      end
  | PrCenterPointer addr =>
      let '(handle, emulation, t) := handle_for_addr addr emulation t in
      match emulation_center_pointer handle emulation with
      | (inl _, emulation) => (EmSession emulation guard, emit_out (EoCentered addr true) t)
      | (inr error, emulation) =>
          end_emulation emulation guard (is_transient error)
            (emit_out (EoCentered addr false) t)
      end
  | PrRemove addr =>
      match et_handles t !! addr with
      | Some handle =>
          (EmSession (emulation_destroy drain handle emulation) guard, t <| et_handles := delete addr (et_handles t) |>)
      | None => (EmSession emulation guard, t)
      end
  | PrTerminate => end_emulation emulation guard false t
  | PrReenable => (EmSession emulation guard, t)
  end.

(** What [wait_for_termination] does with a request that does not end it. *)
Definition discard (r : ProxyRequest) (t : EmuTask B) : EmuTask B :=
  match r with PrCenterPointer addr => emit_out (EoCentered addr false) t | _ => t end.

Definition emu_step (i : EmuInput) (m : EmuMode) (t : EmuTask B) : exec Empty_set (EmuMode * EmuTask B) :=
  match i, m with
  | EiExit, _ => Ret (m, t <| et_exit_requested := true |>)
  | EiNew (inl (b, dummy)), EmCreating => begin_emulation b dummy t
  | EiNew (inr transient), EmCreating => Ret (after_emulation transient t)
  | EiRequest PrTerminate, EmCreating => Ret (after_emulation false t)
  | EiRequest r, EmCreating => Ret (m, discard r t)
  | EiCreated, EmClients emulation guard (h :: rest) =>
      Ret (next_client (snd (emulation_create h emulation)) guard rest, t)
  | EiRequest PrTerminate, EmClients emulation guard _ => Ret (EmSession emulation guard, t)
  | EiRequest r, EmClients _ _ _ => Ret (m, discard r t)
  | EiRequest r, EmSession emulation guard => Ret (session_step r emulation guard t)
  | EiError e, EmSession emulation guard => Ret (end_emulation emulation guard (is_transient e) t)
  | EiRetry, EmIdle true => Ret (EmCreating, t)
  | EiRequest PrReenable, EmIdle _ => Ret (EmCreating, t)
  | EiRequest PrTerminate, EmIdle _ => Ret (EmEnded, t)
  | EiRequest r, EmIdle _ => Ret (m, discard r t)
  | _, _ => Ret (m, t)
  end.

Fixpoint emu_run (inputs : list EmuInput) (m : EmuMode) (t : EmuTask B) : exec Empty_set (EmuMode * EmuTask B) :=
  match inputs with
  | [] => Ret (m, t)
  | i :: rest => let* (m, t) := emu_step i m t in emu_run rest m t
  end.

(** [EmulationProxy::new]; [seed] is the random number, at most [u64::MAX >> 1]. *)
Definition emu_new (seed : N) : EmuTask B := mkEmuTask ∅ 0 (N.max seed 1) false [].
End emulation_task.
