(* ===== verification/EmulationTaskTheorems.v ===== *)
(** * The sessions of the emulation task

    The announcements of the emulation task alternate and are numbered without
    a gap, its peers keep apart, and an emulation that ends has released all it
    held. *)

From stdpp Require Import base tactics list gmap sets strings.
From Stdlib Require Import NArith ZArith Lia.
From S2P Require Import Prelude Domain SwitchGate ProtoWire Emulation CaptureTask Clients Service EmulationTask.

(** The announcements among what the task sent. *)
Definition announcement {B} (o : EmuOut B) : option EmulationEvent :=
  match o with EoEvent e => Some e | _ => None end.
Definition announcements {B} (t : EmuTask B) : list EmulationEvent := omap announcement (et_out t).

(** The [i]-th announcement of a task whose first epoch is [start]. *)
Definition announced (start : N) (i : nat) (e : EmulationEvent) : Prop :=
  match e with
  | EeEmulationEnabled k p epoch => Nat.even i = true /\ k = p /\ epoch = (start + N.of_nat i)%N
  | EeEmulationDisabled epoch => Nat.even i = false /\ epoch = (start + N.of_nat i)%N
  | _ => False
  end.

(** A session, or the preparation of one, is under way. *)
Definition session_open {B} (m : EmuMode (B:=B)) : bool :=
  match m with EmClients _ _ _ | EmSession _ _ => true | _ => false end.

(** Nothing is held for any peer. *)
Definition quiet {B} (e : InputEmulation (Recorded B)) : Prop :=
  forall h, held key_of h (record e) = ∅ /\ held button_of h (record e) = ∅.

(** A new backend has no events yet. *)
Definition fresh_backend {E B} (i : EmuInput (E:=E) (B:=Recorded B)) : Prop :=
  match i with EiNew (inl (b, _)) => snd b = [] | _ => True end.

Lemma announcements_emit {B} (o : EmuOut B) t :
  announcements (emit_out o t) = announcements t ++ option_list (announcement o).
Proof. unfold announcements, emit_out. cbn. rewrite omap_app. by destruct o. Qed.

Section task.
Context {E B : Type} {HB : EmulationBackend E B}.
Variable drain : gset N -> list N.
Hypothesis drain_permutation : forall X, drain X ≡ₚ elements X.
Variable handle_iter : gmap SocketAddr N -> list N.
Variable is_transient : E -> bool.
Variable start : N.
Implicit Types (t : EmuTask (Recorded B)) (m : EmuMode (B:=Recorded B)).

(** The numbering of the announcements made so far. *)
Definition Numbered t : Prop := forall i ev, announcements t !! i = Some ev -> announced start i ev.

(** The peers have handles of their own, and ended emulations hold nothing. *)
Record Tidy t : Prop := {
  ti_distinct : forall a b h, et_handles t !! a = Some h -> et_handles t !! b = Some h -> a = b;
  ti_below : forall a h, et_handles t !! a = Some h -> (h < et_next_id t)%N;
  ti_quiet : forall e, EoTerminated e ∈ et_out t -> quiet e }.

(** The emulation and the guard of a mode. *)
Definition ModeOk m t : Prop :=
  let n := length (announcements t) in
  Nat.even n = negb (session_open m)
  /\ match m with
     | EmClients e guard _ | EmSession e guard =>
         EmulationOk e /\ guard = (start + N.of_nat n)%N /\ et_next_session_epoch t = (guard + 1)%N
     | _ => et_next_session_epoch t = (start + N.of_nat n)%N
     end.

Definition TaskInv m t : Prop := Numbered t /\ Tidy t /\ ModeOk m t.

Lemma terminated_quiet e : EmulationOk e -> quiet (emulation_terminate (E:=E) drain e).
Proof.
  intros Hok h. destruct (terminate_spec drain drain_permutation e Hok) as [[K1 K2 K3 K4] Hh].
  destruct K1 as [K1 _], K2 as [K2 _]. rewrite K1, K2.
  rewrite (proj1 (not_elem_of_dom (emulation_terminate drain e).(ie_pressed_keys) h)) by (rewrite K3, Hh; set_solver).
  by rewrite (proj1 (not_elem_of_dom (emulation_terminate drain e).(ie_pressed_buttons) h)) by (rewrite K4, Hh; set_solver).
Qed.

Lemma numbered_emit o t :
  Numbered t ->
  (forall ev, announcement o = Some ev -> announced start (length (announcements t)) ev) ->
  Numbered (emit_out o t).
Proof.
  intros Hn Ho i ev. rewrite announcements_emit. intros [Hi|[Hl Hi]]%lookup_app_Some; [by apply Hn|].
  destruct (announcement o) as [ev'|] eqn:Ho'; [|done]. cbn in Hi.
  apply list_lookup_singleton_Some in Hi as [Hi <-].
  replace i with (length (announcements t)) by lia. by apply Ho.
Qed.

Lemma tidy_emit o t : Tidy t -> (forall e, o = EoTerminated e -> quiet e) -> Tidy (emit_out o t).
Proof.
  intros [H1 H2 H3] Ho. split; [exact H1|exact H2|].
  intros e. cbn. rewrite elem_of_app, list_elem_of_singleton. intros [He|He]; [by apply H3|by apply Ho].
Qed.

(** What a step may do with the counters. *)
Definition advances t t' : Prop :=
  (et_next_id t' <= et_next_id t + 1)%N /\ (length (announcements t') <= length (announcements t) + 1)%nat.

Lemma after_emulation_inv retry t :
  Numbered t -> Tidy t -> Nat.even (length (announcements t)) = true ->
  et_next_session_epoch t = (start + N.of_nat (length (announcements t)))%N ->
  uncurry TaskInv (after_emulation retry t).
Proof.
  intros Hn Ht He Hs. unfold after_emulation, uncurry. split; [done|]. split; [done|].
  split; by destruct (et_exit_requested t).
Qed.

Lemma end_emulation_inv e guard retry t :
  TaskInv (EmSession e guard) t ->
  uncurry TaskInv (end_emulation (E:=E) drain e guard retry t)
  /\ advances t (snd (end_emulation (E:=E) drain e guard retry t)).
Proof.
  intros (Hn & Ht & Hev & Hok & Hg & Hs). unfold end_emulation.
  set (t' := emit_out _ t).
  assert (announcements t' = announcements t) as Ha.
  { unfold t'. rewrite announcements_emit. apply app_nil_r. }
  assert (announcements (emit_out (EoEvent (EeEmulationDisabled guard)) t')
          = announcements t ++ [EeEmulationDisabled guard]) as Ha'.
  { by rewrite announcements_emit, Ha. }
  split.
  - apply after_emulation_inv.
    + apply numbered_emit; [apply numbered_emit; [done|by intros]|].
      intros ev [= <-]. rewrite Ha. by split.
    + apply tidy_emit; [|done]. apply tidy_emit; [done|]. intros e' [= <-]. by apply terminated_quiet.
    + rewrite Ha', length_app, Nat.add_1_r, Nat.even_succ, <- Nat.negb_even, Hev. done.
    + rewrite Ha', length_app. cbn [length]. change (et_next_session_epoch _) with (et_next_session_epoch t). lia.
  - unfold after_emulation, advances. cbn [snd]. rewrite Ha', length_app. cbn. lia.
Qed.

Lemma handle_for_addr_inv addr e guard t :
  TaskInv (EmSession e guard) t -> (et_next_id t + 1 < 2 ^ 64)%N ->
  exists h e' t', handle_for_addr (E:=E) addr e t = (h, e', t') /\ TaskInv (EmSession e' guard) t' /\ advances t t'
    /\ et_out t' = et_out t.
Proof.
  intros (Hn & [H1 H2 H3] & Hev & Hok & Hg & Hs) Hid. unfold handle_for_addr.
  destruct (et_handles t !! addr) as [h|] eqn:Hh.
  - exists h, e, t. split; [done|]. unfold advances. split; [done|]. split; [lia|done].
  - eexists _, _, _. split; [done|]. split; [|split; [|done]].
    + split; [exact Hn|]. split; [|split; [exact Hev|split; [by apply (create_ok drain)|done]]].
      split; [| |exact H3]; cbn.
      * intros a b h. rewrite !lookup_insert_Some. intros [[<- <-]|[? Ha]] [[<- Hb]|[? Hb]]; try done.
        -- apply H2 in Hb. lia.
        -- subst. apply H2 in Ha. lia.
        -- by eapply H1.
      * intros a h. rewrite N.mod_small by lia. rewrite lookup_insert_Some.
        intros [[<- <-]|[? Ha]]; [lia|]. apply H2 in Ha. lia.
    + split; cbn; [rewrite N.mod_small; lia|unfold announcements; cbn; lia].
Qed.

Lemma advances_refl t : advances t t.
Proof. unfold advances. lia. Qed.

Lemma inv_session e e' guard t : EmulationOk e' -> TaskInv (EmSession e guard) t -> TaskInv (EmSession e' guard) t.
Proof. intros Hok (Hn & Ht & Hev & _ & H). by split; [|split; [|split; [|split]]]. Qed.

Lemma inv_emit_centered m addr ok t : TaskInv m t -> TaskInv m (emit_out (EoCentered addr ok) t).
Proof.
  intros (Hn & Ht & Hm). split; [by apply numbered_emit|]. split; [by apply tidy_emit|].
  unfold ModeOk. rewrite announcements_emit, app_nil_r. exact Hm.
Qed.

Lemma discard_inv r m t : TaskInv m t -> TaskInv m (discard r t) /\ advances t (discard r t).
Proof.
  intros H. destruct r; cbn [discard]; try (by split; [|apply advances_refl]).
  split; [by apply inv_emit_centered|]. unfold advances. rewrite announcements_emit, app_nil_r. cbn. lia.
Qed.

Lemma advances_emit_centered addr ok t t' : advances t t' -> announcements t' = announcements t ->
  advances t (emit_out (EoCentered addr ok) t').
Proof. intros [H1 H2] H3. split; [exact H1|]. rewrite announcements_emit, app_nil_r, H3. lia. Qed.

(** A step keeps the invariant, and advances the counters by at most one. *)
Definition step_ok t (r : EmuMode * EmuTask (Recorded B)) : Prop := uncurry TaskInv r /\ advances t (snd r).

Lemma end_after_handle e guard retry t t' :
  TaskInv (EmSession e guard) t' -> advances t t' -> announcements t' = announcements t ->
  step_ok t (end_emulation (E:=E) drain e guard retry t').
Proof.
  intros Ht Ha Hl. destruct (end_emulation_inv e guard retry t' Ht) as [H1 H2]. split; [exact H1|].
  destruct Ha as [Ha _], H2 as [H2 H3]. unfold advances. rewrite <- Hl. split; [|exact H3].
  unfold end_emulation, after_emulation in *. exact Ha.
Qed.

Lemma session_step_inv r e guard t :
  TaskInv (EmSession e guard) t -> (et_next_id t + 1 < 2 ^ 64)%N ->
  step_ok t (session_step drain is_transient r e guard t).
Proof.
  intros H Hid. destruct r as [ev addr|addr|addr| |]; cbn [session_step].
  - destruct (handle_for_addr_inv addr e guard t H Hid) as (h & e1 & t1 & -> & H1 & Ha & Ho).
    assert (announcements t1 = announcements t) as Hl by (unfold announcements; by rewrite Ho).
    pose proof (consume_ok (E:=E) drain drain_permutation ev h e1 (proj1 (proj2 (proj2 (proj2 H1))))) as Hok.
    destruct (emulation_consume ev h e1) as [[[]|err] e2]; cbn [snd] in Hok.
    + split; [|exact Ha]. by eapply inv_session.
    + apply end_after_handle; [by eapply inv_session|done|done].
  - destruct (handle_for_addr_inv addr e guard t H Hid) as (h & e1 & t1 & -> & H1 & Ha & Ho).
    assert (announcements t1 = announcements t) as Hl by (unfold announcements; by rewrite Ho).
    pose proof (proj1 (proj2 (proj2 (proj2 H1)))) as Hok.
    destruct (center_pointer_spec (E:=E) h e1) as (c & b & -> & Hb).
    pose proof (center_ok b e1 Hok Hb) as Hok'. pose proof (inv_session _ _ _ _ Hok' H1) as H2.
    destruct c as [[]|err].
    + split; [by apply inv_emit_centered|]. cbn [snd]. by apply advances_emit_centered.
    + apply end_after_handle; [by apply inv_emit_centered|by apply advances_emit_centered|].
      by rewrite announcements_emit, app_nil_r.
  - destruct (et_handles t !! addr) as [h|] eqn:Hh; [|split; [exact H|apply advances_refl]].
    split; [|split; cbn; unfold announcements; cbn; lia].
    destruct H as (Hn & [H1 H2 H3] & Hev & Hok & Hg). split; [exact Hn|]. split; [|split; [exact Hev|split; [|exact Hg]]].
    + split; [| |exact H3]; cbn.
      * intros a b h'. rewrite !lookup_delete_Some. naive_solver.
      * intros a h'. rewrite lookup_delete_Some. naive_solver.
    + by apply destroy_spec.
  - by apply end_emulation_inv.
  - split; [exact H|apply advances_refl].
Qed.

Lemma next_client_inv e guard rest t :
  TaskInv (EmSession e guard) t -> TaskInv (next_client e guard rest) t.
Proof. by destruct rest. Qed.

Lemma begin_emulation_inv (b : Recorded B) dummy t :
  TaskInv EmCreating t -> snd b = [] -> (et_next_session_epoch t + 2 <= u64_max)%N ->
  exists r, begin_emulation (B:=Recorded B) handle_iter b dummy t = Ret r /\ step_ok t r.
Proof.
  intros (Hn & Ht & Hev & Hs) Hb Hmax. unfold begin_emulation, backend_readiness, checked_add. cbn beta zeta iota.
  rewrite (proj2 (N.leb_le (et_next_session_epoch t + 1) u64_max)) by lia.
  rewrite (proj2 (N.leb_le (et_next_session_epoch t + 1 + 1) u64_max)) by lia. eexists. split; [done|].
  set (t' := emit_out _ _). destruct b as [b log]. cbn in Hb. subst log.
  assert (announcements t' = announcements t ++ [EeEmulationEnabled (negb dummy) (negb dummy) (et_next_session_epoch t)]) as Ha.
  { unfold t'. by rewrite announcements_emit. }
  split.
  - cbn [uncurry]. apply next_client_inv. split; [|split; [|split; [|split; [|split]]]].
    + apply numbered_emit; [exact Hn|]. intros ev [= <-]. by repeat split.
    + by apply tidy_emit; [destruct Ht; split|].
    + by rewrite Ha, length_app, Nat.add_1_r, Nat.even_succ, <- Nat.negb_even, Hev.
    + apply emulation_new_ok.
    + rewrite Ha, length_app, Hs. cbn [length]. lia.
    + change (et_next_session_epoch t') with (et_next_session_epoch t + 1 + 1)%N. lia.
  - split; [apply N.le_add_r|]. cbn [snd]. rewrite Ha, length_app. cbn [length]. lia.
Qed.

Lemma exit_inv m t : TaskInv m t -> step_ok t (m, t <| et_exit_requested := true |>).
Proof.
  intros (Hn & [H1 H2 H3] & Hm). split; [|split; [apply N.le_add_r|apply Nat.le_add_r]].
  split; [exact Hn|]. split; [by split|exact Hm].
Qed.

Lemma emu_step_inv i m t :
  TaskInv m t -> fresh_backend i -> (et_next_id t + 1 < 2 ^ 64)%N ->
  (start + N.of_nat (length (announcements t)) + 2 <= u64_max)%N ->
  exists r, emu_step drain handle_iter is_transient i m t = Ret r /\ step_ok t r.
Proof.
  intros H Hi Hid Hmax.
  assert (exists r, @Ret Empty_set _ (m, t) = Ret r /\ step_ok t r) as Hskip.
  { eexists. split; [done|]. split; [exact H|apply advances_refl]. }
  assert (forall r, exists x, @Ret Empty_set _ (m, discard r t) = Ret x /\ step_ok t x) as Hdiscard.
  { intros r. eexists. split; [done|]. by apply discard_inv. }
  assert (forall m', session_open m = false -> m' = EmCreating \/ m' = EmEnded \/ (exists b, m' = EmIdle b) -> step_ok t (m', t)) as Hidle.
  { intros m' Hm Hm'. destruct H as (Hn & Ht & Hev & Hs). rewrite Hm in Hev.
    split; [|apply advances_refl]. split; [exact Hn|]. split; [exact Ht|].
    destruct m; try done; destruct Hm' as [-> | [-> | [? ->]]]; by split. }
  assert (forall retry, session_open m = false -> step_ok t (after_emulation retry t)) as Hafter.
  { intros retry Hm. unfold after_emulation. destruct (et_exit_requested t); apply Hidle; eauto. }
  destruct i as [|[[b dummy]|tr]| |r|err|]; destruct m as [|e guard rest|e guard|retry|]; cbn [emu_step];
    try exact Hskip; try (by eexists; split; [|apply exit_inv]);
    try (eexists; split; [reflexivity|]; by first [apply end_emulation_inv | apply session_step_inv | apply Hafter]);
    try (destruct r; first [apply Hdiscard | eexists; split; [reflexivity|]; first [by apply Hafter | apply Hidle; by eauto]]).
  - by apply begin_emulation_inv; [| |rewrite (proj2 (proj2 (proj2 H)))].
  - destruct rest as [|h rest]; [exact Hskip|]. eexists. split; [done|]. split; [|apply advances_refl].
    cbn [uncurry]. apply next_client_inv. apply (inv_session e); [|exact H].
    pose proof (proj1 (proj2 (proj2 (proj2 H)))). by apply (create_ok drain).
  - destruct r; try apply Hdiscard. eexists. split; [done|]. split; [exact H|apply advances_refl].
  - destruct r; eexists; (split; [reflexivity|]); by apply session_step_inv.
  - destruct retry; [|exact Hskip]. eexists. split; [done|]. apply Hidle; auto.
Qed.

Lemma emu_run_inv inputs : forall m t,
  TaskInv m t -> Forall fresh_backend inputs ->
  (et_next_id t + N.of_nat (length inputs) < 2 ^ 64)%N ->
  (start + N.of_nat (length (announcements t)) + N.of_nat (length inputs) + 1 <= u64_max)%N ->
  exists m' t', emu_run drain handle_iter is_transient inputs m t = Ret (m', t') /\ TaskInv m' t'.
Proof.
  induction inputs as [|i inputs IH]; intros m t H Hf Hid Hmax; cbn [emu_run].
  - by exists m, t.
  - apply Forall_cons in Hf as [Hi Hf]. cbn [length] in Hid, Hmax.
    destruct (emu_step_inv i m t H Hi ltac:(lia) ltac:(lia)) as ([m1 t1] & -> & H1 & Ha & Hb).
    cbn [exec_bind]. cbn [snd] in Ha, Hb. apply IH; [exact H1|exact Hf|lia|lia].
Qed.
End task.

(** While fewer than 2^62 things happen the emulation task does not panic
    and: its announcements alternate between enabled and disabled, are numbered
    without a gap from the random start and say enabled exactly while a session
    is prepared or runs; no two peers share a handle; and each emulation it
    terminated had released every key and button of every peer. *)
Theorem emulation_sessions {E B} {HB : EmulationBackend E B} (drain : gset N -> list N)
  (handle_iter : gmap SocketAddr N -> list N) (is_transient : E -> bool) seed inputs :
  (forall X, drain X ≡ₚ elements X) ->
  (seed < 2 ^ 63)%N -> (N.of_nat (length inputs) <= 2 ^ 62)%N -> Forall fresh_backend inputs ->
  exists m t, emu_run (B:=Recorded B) drain handle_iter is_transient inputs EmCreating (emu_new seed) = Ret (m, t)
  /\ (forall i ev, announcements t !! i = Some ev -> announced (N.max seed 1) i ev)
  /\ Nat.even (length (announcements t)) = negb (session_open m)
  /\ (forall a b h, et_handles t !! a = Some h -> et_handles t !! b = Some h -> a = b)
  /\ (forall e, EoTerminated e ∈ et_out t -> quiet e).
Proof.
  intros Hd Hs Hl Hf.
  destruct (emu_run_inv (E:=E) (B:=B) drain Hd handle_iter is_transient (N.max seed 1) inputs EmCreating (emu_new seed))
    as (m & t & Hr & Hn & [H1 H2 H3] & Hev & _).
  - split; [by intros i ev|]. split; [|split; [done|cbn; lia]].
    split; [intros a b h; cbn; by rewrite lookup_empty|intros a h; cbn; by rewrite lookup_empty|by intros e ?%not_elem_of_nil].
  - done.
  - cbn [et_next_id emu_new]. lia.
  - change (announcements (emu_new seed)) with (@nil EmulationEvent). cbn [length]. unfold u64_max. lia.
  - by exists m, t.
Qed.

Definition demo_session : list (EmuInput (E:=unit) (B:=Recorded unit)) :=
  [EiRequest PrReenable; EiNew (inl ((tt, []), false)); EiRequest (PrInput (Keyboard (Key 0 30 1)) (mkAddr 1 7));
   EiRequest (PrCenterPointer (mkAddr 2 7)); EiRequest PrTerminate; EiRequest PrReenable].

Lemma emulation_sessions_witness :
  exists m t, emu_run (B:=Recorded unit) elements (fun _ => []) (fun _ => true) demo_session EmCreating (emu_new 5)
              = Ret (m, t)
  /\ announcements t = [EeEmulationEnabled true true 5; EeEmulationDisabled 6]
  /\ (forall e, EoTerminated e ∈ et_out t -> quiet e).
Proof.
  destruct (emulation_sessions (E:=unit) (B:=unit) elements (fun _ => []) (fun _ => true) 5 demo_session
    (fun X => Permutation_refl _) ltac:(lia) ltac:(vm_compute; discriminate)
    ltac:(repeat constructor)) as (m & t & Hr & _ & _ & _ & Hq).
  exists m, t. split; [exact Hr|]. split; [|exact Hq].
  vm_compute in Hr. injection Hr as _ <-. reflexivity.
Defined.

(** ** A request to terminate that is lost *)

(** Nothing is requested of the task and its backend reports no error. *)
Definition unasked {E B} (i : EmuInput (E:=E) (B:=B)) : Prop :=
  match i with EiRequest _ | EiError _ => False | _ => True end.

Lemma session_unasked {E B} {HB : EmulationBackend E B} drain handle_iter (is_transient : E -> bool) e guard inputs :
  Forall unasked inputs -> forall t : EmuTask B,
  exists t', emu_run drain handle_iter is_transient inputs (EmSession e guard) t = Ret (EmSession e guard, t').
Proof.
  induction 1 as [|i inputs Hi _ IH]; intros t; cbn [emu_run]; [by exists t|].
  destruct i as [|[[b dummy]|tr]| |r|err|]; try done; cbn [emu_step exec_bind]; apply IH.
Qed.

(** A request to terminate that arrives while the clients of a new session are
    created is taken by [create_clients] and forgotten: the session starts, and
    goes on until its backend fails, while [EmulationProxy::terminate] waits
    for the task. *)
Theorem create_clients_loses_terminate {E B} {HB : EmulationBackend E B} drain handle_iter (is_transient : E -> bool)
  e guard h rest (t : EmuTask B) inputs :
  Forall unasked inputs ->
  exists t', emu_run drain handle_iter is_transient
               ([EiExit; EiRequest PrTerminate] ++ inputs) (EmClients e guard (h :: rest)) t
             = Ret (EmSession e guard, t').
Proof. intros Hi. cbn [app emu_run emu_step exec_bind]. by apply session_unasked. Qed.
