(* ===== verification/EmulationListen.v ===== *)
(** * What the listen task sends, and why

    The state of the listen task is determined by what it has met: the requests
    to release that are outstanding, the readiness it publishes and the handoff
    it is waiting for are functions of (or relations on) the history, given
    newest first.  Everything it sends is justified by that history. *)

From stdpp Require Import base tactics list gmap sets strings.
From Stdlib Require Import NArith ZArith Lia Strings.Byte.
From S2P Require Import Prelude Domain SwitchGate ProtoWire Emulation CaptureTask Clients Service EmulationTask.

(** ** References over the history *)

(** When a peer was last heard, unless it was forgotten since. *)
Fixpoint heard (addr : SocketAddr) (h : list ListenInput) : option N :=
  match h with
  | [] => None
  | LiMsg _ a _ now :: h => if decide (a = addr) then Some now else heard addr h
  | LiDisconnected a :: h => if decide (a = addr) then None else heard addr h
  | LiTick now :: h =>
      match heard addr h with
      | Some t => if silent now (addr, t) then None else Some t
      | None => None
      end
  | _ :: h => heard addr h
  end.

(** The request to release that a peer still owes an acknowledgement for. *)
Fixpoint outstanding (addr : SocketAddr) (h : list ListenInput) : option N :=
  match h with
  | [] => None
  | LiRequest (ErRelease a epoch) _ :: h => if decide (a = addr) then Some epoch else outstanding addr h
  | LiMsg (ReleaseAck epoch) a _ _ :: h =>
      if decide (a = addr /\ outstanding addr h = Some epoch) then None else outstanding addr h
  | LiDisconnected a :: h => if decide (a = addr) then None else outstanding addr h
  | LiTick now :: h =>
      match heard addr h with
      | Some t => if silent now (addr, t) then None else outstanding addr h
      | None => outstanding addr h
      end
  | _ :: h => outstanding addr h
  end.

(** The last announcement of the emulation task. *)
Fixpoint last_readiness (h : list ListenInput) : ProtoEvent :=
  match h with
  | [] => Readiness false false 0
  | LiProxy (EeEmulationEnabled k p epoch) :: _ => Readiness k p epoch
  | LiProxy (EeEmulationDisabled epoch) :: _ => Readiness false false epoch
  | _ :: h => last_readiness h
  end.
Definition was_ready (h : list ListenInput) : bool :=
  match last_readiness h with Readiness k p _ => k && p | _ => false end.

(** What ends the wait of a pending enter for the peer. *)
Definition interrupts (addr : SocketAddr) (i : ListenInput) : Prop :=
  match i with
  | LiMsg (Leave _) a _ _ | LiDisconnected a => a = addr
  | LiProgress _ => True
  | _ => False
  end.

(** The pending enter is the result of an [Enter] of the peer; it is centring
    once the capture was released, and was refused unless the emulation was
    ready then. *)
Inductive handoff : list ListenInput -> PendingEnter -> Prop :=
| ho_start pos addr fingerprint now h :
    handoff (LiMsg (Enter pos) addr (Some fingerprint) now :: h) (pending_enter_new addr pos fingerprint)
| ho_released h addr pos fingerprint :
    handoff h (mkPendingEnter addr pos fingerprint Releasing) ->
    handoff (LiProgress (Some true) :: h) (mkPendingEnter addr pos fingerprint (Centering (negb (was_ready h))))
| ho_wait i h p : ~ interrupts (pe_addr p) i -> handoff h p -> handoff (i :: h) p.

(** Why something is sent on input [i] after the history [h]; [sent] is what
    was sent before. *)
Definition justified (h : list ListenInput) (sent : list ListenOut) (i : ListenInput) (o : ListenOut) : Prop :=
  match o with
  | LEvent (EeEntered addr pos fingerprint) =>
      i = LiProgress (Some true)
      /\ exists p, pos = to_ipc_pos p /\ handoff h (mkPendingEnter addr p fingerprint (Centering false))
  | LEvent EeReleaseCapture => exists pos addr fingerprint now, i = LiMsg (Enter pos) addr (Some fingerprint) now
  | LEvent (EeReleaseAcknowledged addr epoch) =>
      (exists f now, i = LiMsg (ReleaseAck epoch) addr f now) /\ outstanding addr h = Some epoch
  | LReply addr (Ack _) _ =>
      (exists n f now, i = LiMsg (Leave n) addr f now)
      \/ (exists pos f now, i = LiMsg (Enter pos) addr (Some f) now)
         /\ (exists pos f, LEvent (EeEntered addr pos f) ∈ sent)
      \/ i = LiProgress (Some true) /\ (exists p f, handoff h (mkPendingEnter addr p f (Centering false)))
  | LReply addr (ReleaseRequest epoch) _ =>
      outstanding addr (i :: h) = Some epoch
      /\ ((exists f now, i = LiMsg Ping addr f now) \/ exists r, i = LiRequest (ErRelease addr epoch) r)
  | LReply addr (Pong ready) _ => (exists f now, i = LiMsg Ping addr f now) /\ ready = was_ready h
  | LReply addr (Hello _) _ => exists c f now, i = LiMsg (Hello c) addr f now
  | LReply _ e _ | LBroadcast e => e = last_readiness (i :: h)
  | LProxy (PrInput e addr) => (exists f now, i = LiMsg (Input e) addr f now) /\ was_ready h = true
  | LProxy (PrCenterPointer addr) =>
      i = LiProgress (Some true) /\ was_ready h = true
      /\ exists p f, handoff h (mkPendingEnter addr p f Releasing)
  | LDisconnect addr => exists r p, i = LiProgress r /\ handoff h p /\ pe_addr p = addr
  | _ => True
  end.

(** Computes the monad of the listen task on a state given as a record. *)
Ltac lt_run :=
  cbv beta iota zeta delta [listen_step on_message on_enter drop_enter on_progress fail_enter drop_silent
    mbind lt_bind mret lt_ret lget lmod lout lwhen send_event reply px_consume px_remove px_reenable px_event
    request_center_pointer]; cbn.

(** Silent peers. *)
Lemma drop_silent_run a s : snd (drop_silent a s) =
  s <| ls_out := ls_out s ++ [LProxy (PrRemove a); LEvent (EeDisconnected a)] |>
    <| ls_pending_releases := delete a (ls_pending_releases s) |>.
Proof. destruct s. lt_run. by rewrite <- app_assoc. Qed.

Lemma drop_silent_all l : forall s, exists new,
  let s' := snd (for_addrs drop_silent l s) in
  ls_out s' = ls_out s ++ new
  /\ Forall (fun o => exists a, o = LProxy (PrRemove a) \/ o = LEvent (EeDisconnected a)) new
  /\ (forall a, a ∈ l -> LEvent (EeDisconnected a) ∈ new)
  /\ (forall a, ls_pending_releases s' !! a = if decide (a ∈ l) then None else ls_pending_releases s !! a)
  /\ ls_last_response s' = ls_last_response s /\ px_readiness s' = px_readiness s
  /\ ls_pending_enter s' = ls_pending_enter s /\ ls_entered s' = ls_entered s.
Proof.
  induction l as [|a l IH]; intros s.
  - exists []. cbn. rewrite app_nil_r. repeat split; auto. by intros a ?%not_elem_of_nil.
  - change (for_addrs drop_silent (a :: l) s) with (for_addrs drop_silent l (snd (drop_silent a s))).
    rewrite drop_silent_run. set (s1 := _ <| ls_pending_releases := _ |>).
    destruct (IH s1) as (new & H1 & H2 & Hall & H3 & H4).
    exists ([LProxy (PrRemove a); LEvent (EeDisconnected a)] ++ new). cbn zeta in *.
    split; [rewrite H1; unfold s1; cbn; by rewrite <- app_assoc|].
    split; [repeat constructor; eauto|]. split; [set_solver|]. split; [|exact H4].
    intros b. rewrite H3. unfold s1. cbn.
    destruct (decide (a = b)) as [->|Hab].
    + rewrite lookup_delete_eq. repeat case_decide; set_solver.
    + rewrite lookup_delete_ne by done. repeat case_decide; set_solver.
Qed.

Section listen.
Variable local_commit : list byte.
Variable response_iter : gmap SocketAddr N -> list (SocketAddr * N).
Hypothesis response_iter_permutation : forall m, response_iter m ≡ₚ map_to_list m.
Abbreviation step := (listen_step local_commit response_iter).

(** The state is what the history says. *)
Record HistoryInv (h : list ListenInput) (s : ListenState) : Prop := {
  hi_heard : forall a, ls_last_response s !! a = heard a h;
  hi_outstanding : forall a, ls_pending_releases s !! a = outstanding a h;
  hi_ready : px_readiness s = last_readiness h;
  hi_handoff : forall p, ls_pending_enter s = Some p -> handoff h p;
  hi_entered : forall a, a ∈ ls_entered s -> exists pos f, LEvent (EeEntered a pos f) ∈ ls_out s }.

Lemma control_ready_history h s : px_readiness s = last_readiness h -> control_ready s = was_ready h.
Proof. unfold px_readiness, control_ready, was_ready. by intros <-. Qed.

(** One step: the new outputs are justified and the state follows. *)
Definition good (h : list ListenInput) (i : ListenInput) (s s' : ListenState) : Prop :=
  HistoryInv (i :: h) s'
  /\ exists new, ls_out s' = ls_out s ++ new /\ Forall (justified h (ls_out s) i) new.

Lemma good_intro h i s s' new :
  HistoryInv h s ->
  ls_out s' = ls_out s ++ new ->
  Forall (justified h (ls_out s) i) new ->
  (forall a, ls_last_response s' !! a = heard a (i :: h)) ->
  (forall a, ls_pending_releases s' !! a = outstanding a (i :: h)) ->
  px_readiness s' = last_readiness (i :: h) ->
  (forall p, ls_pending_enter s' = Some p -> handoff (i :: h) p) ->
  (forall a, a ∈ ls_entered s' -> a ∈ ls_entered s \/ exists pos f, LEvent (EeEntered a pos f) ∈ new) ->
  good h i s s'.
Proof.
  intros H Ho Hj H1 H2 H3 H4 H5. split; [|by exists new]. split; [done|done|done|done|].
  intros a Ha. rewrite Ho. destruct (H5 a Ha) as [He|(pos & f & He)].
  - destruct (hi_entered _ _ H a He) as (pos & f & ?). exists pos, f. apply elem_of_app. by left.
  - exists pos, f. apply elem_of_app. by right.
Qed.

(** A pending enter of another peer, or of one that does not interrupt it. *)
Lemma pending_wait h i s p :
  HistoryInv h s -> ls_pending_enter s = Some p -> ~ interrupts (pe_addr p) i -> handoff (i :: h) p.
Proof. intros H Hp Hi. apply ho_wait; [done|]. by apply (hi_handoff _ _ H). Qed.

Lemma heard_insert h s e addr f now a :
  HistoryInv h s -> <[addr := now]> (ls_last_response s) !! a = heard a (LiMsg e addr f now :: h).
Proof.
  intros H. cbn. case_decide as Ha.
  - subst. apply lookup_insert_eq.
  - rewrite lookup_insert_ne by done. apply (hi_heard _ _ H).
Qed.

(** The fields that a message changes only by the time it was heard. *)
Ltac by_history H :=
  first [ intros ?; exact (heard_insert _ _ _ _ _ _ _ H)
        | exact (hi_outstanding _ _ H) | exact (hi_heard _ _ H) | exact (hi_ready _ _ H)
        | intros ? Hent; left; exact Hent
        | intros ? Hpend; apply (pending_wait _ _ _ _ H Hpend); intros Hint; exact Hint ].

Ltac good_by H new :=
  apply (good_intro _ _ _ _ new H);
  [lt_run; rewrite <- ?app_assoc, ?app_nil_r; reflexivity | | by_history H .. ].

Ltac good_quiet H := good_by H (@nil ListenOut); apply Forall_nil_2.

Lemma enter_good h s pos addr f now :
  HistoryInv h s -> good h (LiMsg (Enter pos) addr f now) s (snd (step (LiMsg (Enter pos) addr f now) s)).
Proof.
  intros H. destruct f as [f|]; [|by good_quiet H].
  unfold listen_step, on_message, on_enter. lt_run. unfold enter_disposition.
  case_bool_decide as He.
  { good_by H [LReply addr (Ack 0) (ls_sends s 0)]. constructor; [|done]. right; left.
    split; [by eexists _, _, _|]. by apply (hi_entered _ _ H). }
  destruct (pending_for addr (ls_pending_enter s)) eqn:Hp; [by good_quiet H|].
  destruct (ls_pending_enter s) as [p|] eqn:Hs; [by good_quiet H|].
  apply (good_intro _ _ _ _ [LEvent EeReleaseCapture] H); [done| |by_history H ..| |by_history H].
  - constructor; [|done]. by eexists _, _, _, _.
  - intros p [= <-]. apply ho_start.
Qed.

Lemma leave_good h s n addr f now :
  HistoryInv h s -> good h (LiMsg (Leave n) addr f now) s (snd (step (LiMsg (Leave n) addr f now) s)).
Proof.
  intros H.
  apply (good_intro _ _ _ _ [LProxy (PrRemove addr); LReply addr (Ack 0) (ls_sends s 0)] H);
    [lt_run; by rewrite <- app_assoc| |by_history H ..| |].
  - constructor; [done|]. constructor; [|done]. left. by eexists _, _, _.
  - intros p. lt_run. destruct (pending_for addr (ls_pending_enter s)) eqn:Hf; [done|]. intros Hp.
    apply (pending_wait _ _ _ _ H Hp). cbn. intros ->. rewrite Hp in Hf. cbn in Hf.
    by case_bool_decide.
  - intros a. lt_run. intros Ha. left. set_solver.
Qed.

Lemma ping_good h s addr f now :
  HistoryInv h s -> good h (LiMsg Ping addr f now) s (snd (step (LiMsg Ping addr f now) s)).
Proof.
  intros H. pose proof (control_ready_history _ _ (hi_ready _ _ H)) as Hready.
  pose proof (hi_outstanding _ _ H addr) as Ho.
  assert (justified h (ls_out s) (LiMsg Ping addr f now) (LReply addr (Pong (control_ready s)) (ls_sends s 0))) as H1.
  { split; [by eexists _, _|done]. }
  assert (justified h (ls_out s) (LiMsg Ping addr f now) (LReply addr (px_readiness s) (ls_sends s 1))) as H2.
  { apply (hi_ready _ _ H). }
  lt_run. unfold retry_epoch. destruct (ls_pending_releases s !! addr) as [epoch|] eqn:Hp.
  - good_by H [LReply addr (Pong (control_ready s)) (ls_sends s 0); LReply addr (px_readiness s) (ls_sends s 1);
               LReply addr (ReleaseRequest epoch) (ls_sends s 2)].
    do 2 (constructor; [done|]). constructor; [|done]. split; [done|]. left. by eexists _, _.
  - good_by H [LReply addr (Pong (control_ready s)) (ls_sends s 0); LReply addr (px_readiness s) (ls_sends s 1)].
    by do 2 (constructor; [done|]).
Qed.

Lemma release_ack_good h s epoch addr f now :
  HistoryInv h s -> good h (LiMsg (ReleaseAck epoch) addr f now) s (snd (step (LiMsg (ReleaseAck epoch) addr f now) s)).
Proof.
  intros H. pose proof (hi_outstanding _ _ H) as Ho. lt_run. unfold acknowledge.
  case_bool_decide as Hp; cbn.
  - apply (good_intro _ _ _ _ [LEvent (EeReleaseAcknowledged addr epoch)] H); [done| |by_history H| |by_history H..].
    + constructor; [|done]. split; [by eexists _, _|by rewrite <- Ho].
    + intros a. cbn. rewrite <- Ho. case_decide as Ha.
      * destruct Ha as [-> ?]. apply lookup_delete_eq.
      * destruct (decide (addr = a)) as [->|]; [tauto|]. by apply lookup_delete_ne.
  - apply (good_intro _ _ _ _ [] H); [by rewrite app_nil_r|by apply Forall_nil|by_history H| |by_history H..].
    intros a. cbn. rewrite <- Ho. case_decide as Ha; [|done]. destruct Ha as [-> ?]. done.
Qed.

Lemma message_good h s e addr f now :
  HistoryInv h s -> good h (LiMsg e addr f now) s (snd (step (LiMsg e addr f now) s)).
Proof.
  intros H. pose proof (control_ready_history _ _ (hi_ready _ _ H)) as Hready.
  destruct e as [pos|n|n|e| |ready|c|k p epoch|epoch|epoch];
    [by apply enter_good|by apply leave_good|by good_quiet H| |by apply ping_good|by good_quiet H| |by good_quiet H
    |by good_quiet H|by apply release_ack_good].
  - lt_run. change (control_ready (s <| ls_last_response := _ |>)) with (control_ready s).
    destruct (control_ready s) eqn:Hc; [|by good_quiet H].
    good_by H [LProxy (PrInput e addr)]. constructor; [|done]. split; [by eexists _, _|done].
  - good_by H [LReply addr (Hello local_commit) (ls_sends s 0); LReply addr (px_readiness s) (ls_sends s 1);
               LEvent (EePeerHello addr c)].
    constructor; [by eexists _, _, _|]. constructor; [apply (hi_ready _ _ H)|by repeat constructor].
Qed.

Lemma disconnected_good h s addr :
  HistoryInv h s -> good h (LiDisconnected addr) s (snd (step (LiDisconnected addr) s)).
Proof.
  intros H. apply (good_intro _ _ _ _ [LProxy (PrRemove addr); LEvent (EeDisconnected addr)] H).
  - lt_run. by rewrite <- app_assoc.
  - by repeat constructor.
  - intros a. lt_run. rewrite <- (hi_heard _ _ H). case_decide; [subst; apply lookup_delete_eq|by apply lookup_delete_ne].
  - intros a. lt_run. rewrite <- (hi_outstanding _ _ H). unfold releases_disconnected.
    case_decide; [subst; apply lookup_delete_eq|by apply lookup_delete_ne].
  - by_history H.
  - intros p. lt_run. destruct (pending_for addr (ls_pending_enter s)) eqn:Hf; [done|]. intros Hp.
    apply (pending_wait _ _ _ _ H Hp). cbn. intros ->. rewrite Hp in Hf. cbn in Hf. by case_bool_decide.
  - intros a. lt_run. intros Ha. left. set_solver.
Qed.

Lemma progress_good h s r : HistoryInv h s -> good h (LiProgress r) s (snd (step (LiProgress r) s)).
Proof.
  intros H. pose proof (control_ready_history _ _ (hi_ready _ _ H)) as Hready.
  destruct (ls_pending_enter s) as [p|] eqn:Hp.
  2:{ lt_run. rewrite Hp. apply (good_intro _ _ _ _ [] H); try by_history H; [by rewrite app_nil_r|by apply Forall_nil|].
      intros p. cbn. by rewrite Hp. }
  pose proof (hi_handoff _ _ H p Hp) as Hh.
  assert (good h (LiProgress r) s (snd (fail_enter p s))) as Hfail.
  { apply (good_intro _ _ _ _ [LProxy (PrRemove (pe_addr p)); LDisconnect (pe_addr p)] H); try by_history H.
    - lt_run. by rewrite <- app_assoc.
    - constructor; [done|]. constructor; [|done]. by exists r, p.
    - by intros p' [=]. }
  assert (snd (step (LiProgress r) s) = match wait_for_pending_enter (Some p) r with
            Some progress => snd (on_progress progress p s) | None => s end) as ->.
  { cbv beta iota delta [listen_step mbind lt_bind lget]. rewrite Hp.
    destruct (wait_for_pending_enter (Some p) r) as [progress|]; [|done]. by destruct (on_progress progress p s). }
  destruct p as [addr pos f st]. destruct r as [b|]; [|destruct st; exact Hfail].
  destruct st as [|refused]; cbn [wait_for_pending_enter pe_step].
  - destruct b; [|exact Hfail]. lt_run. rewrite Hready. destruct (was_ready h) eqn:Hw; cbn.
    + apply (good_intro _ _ _ _ [LProxy (PrCenterPointer addr)] H); try by_history H; [done| |].
      * constructor; [|done]. repeat split; [done|by exists pos, f].
      * intros p [= <-]. cbn. pose proof (ho_released h addr pos f Hh) as Hr. by rewrite Hw in Hr.
    + apply (good_intro _ _ _ _ [] H); try by_history H; [by rewrite app_nil_r|by apply Forall_nil|].
      intros p [= <-]. cbn. pose proof (ho_released h addr pos f Hh) as Hr. by rewrite Hw in Hr.
  - destruct (negb refused && b) eqn:Hb; [|exact Hfail].
    destruct refused, b; try done. lt_run. destruct (ls_sends s 0) eqn:Hs; cbn.
    + apply (good_intro _ _ _ _ [LReply addr (Ack 0) true; LEvent (EeEntered addr (to_ipc_pos pos) f)] H); try by_history H.
      * cbn. by rewrite <- app_assoc.
      * constructor; [right; right; split; [done|by exists pos, f]|]. constructor; [|done]. split; [done|by exists pos].
      * by intros p [=].
      * intros a. cbn. rewrite elem_of_union, elem_of_singleton. intros [Ha| ->]; [by left|right].
        exists (to_ipc_pos pos), f. set_solver.
    + apply (good_intro _ _ _ _ [LReply addr (Ack 0) false; LProxy (PrRemove addr); LDisconnect addr] H); try by_history H.
      * cbn. by rewrite <- !app_assoc.
      * constructor; [right; right; split; [done|by exists pos, f]|]. constructor; [done|].
        constructor; [|done]. by eexists _, _.
      * by intros p [=].
Qed.

Lemma silent_peers now m a :
  a ∈ map fst (List.filter (silent now) (response_iter m)) <-> exists t, m !! a = Some t /\ silent now (a, t) = true.
Proof.
  rewrite list_elem_of_In, in_map_iff. split.
  - intros ([a' t] & <- & [Hin Hs]%filter_In). exists t. split; [|exact Hs].
    by apply list_elem_of_In in Hin; rewrite response_iter_permutation, elem_of_map_to_list in Hin.
  - intros (t & Ht & Hs). exists (a, t). split; [done|]. apply filter_In. split; [|done].
    by apply list_elem_of_In; rewrite response_iter_permutation, elem_of_map_to_list.
Qed.

Lemma tick_run s now : snd (step (LiTick now) s) =
  (snd (for_addrs drop_silent (map fst (List.filter (silent now) (response_iter (ls_last_response s)))) s))
    <| ls_last_response := filter (fun r => silent now r = false) (ls_last_response s) |>.
Proof.
  cbv beta iota delta [listen_step mbind lt_bind lget]. by destruct (for_addrs drop_silent _ s).
Qed.

Lemma tick_good h s now : HistoryInv h s -> good h (LiTick now) s (snd (step (LiTick now) s)).
Proof.
  intros H. set (l := map fst (List.filter (silent now) (response_iter (ls_last_response s)))).
  destruct (drop_silent_all l s) as (new & H1 & H2 & _ & H3 & H4 & H5 & H6 & H7).
  rewrite tick_run. fold l.
  set (s1 := snd (for_addrs drop_silent l s)) in *. cbn zeta in *.
  assert (forall a, ls_last_response s !! a = heard a h) as Hh by apply H.
  apply (good_intro _ _ _ _ new H); [exact H1| | | | | |].
  - eapply Forall_impl; [exact H2|]. by intros o [a [-> | ->]].
  - intros a. cbn. rewrite map_lookup_filter, Hh. destruct (heard a h) as [t|]; [|done]. cbn.
    by destruct (silent now (a, t)).
  - intros a. change (ls_pending_releases s1 !! a = outstanding a (LiTick now :: h)).
    rewrite H3. cbn. rewrite <- (hi_outstanding _ _ H), <- Hh. unfold l.
    case_decide as Ha; rewrite silent_peers in Ha.
    + destruct Ha as (t & -> & ->). done.
    + destruct (ls_last_response s !! a) as [t|]; [|done]. destruct (silent now (a, t)) eqn:Hs; [|done].
      destruct Ha. by exists t.
  - etrans; [exact H5|]. apply (hi_ready _ _ H).
  - intros p Hp. apply (pending_wait _ _ s _ H); [|intros Hi; exact Hi]. rewrite <- H6. exact Hp.
  - intros a Ha. left. rewrite <- H7. exact Ha.
Qed.

Lemma request_good h s r port : HistoryInv h s -> good h (LiRequest r port) s (snd (step (LiRequest r port) s)).
Proof.
  intros H. destruct r as [|addr epoch|p|].
  - by good_by H [LProxy PrReenable]; repeat constructor.
  - apply (good_intro _ _ _ _ [LReply addr (ReleaseRequest epoch) (ls_sends s 0)] H); try by_history H; [done| |].
    + constructor; [|done]. split; [cbn; by rewrite decide_True|]. right. by exists port.
    + intros a. lt_run. unfold releases_request. rewrite <- (hi_outstanding _ _ H).
      case_decide; [subst; apply lookup_insert_eq|by apply lookup_insert_ne].
  - by good_by H [LPortChange p; LEvent (EePortChanged port)]; repeat constructor.
  - by good_by H [LTerminate; LProxy PrTerminate]; repeat constructor.
Qed.

(** What comes from the emulation task is an announcement. *)
Definition from_proxy (i : ListenInput) : Prop :=
  match i with
  | LiProxy (EeEmulationEnabled _ _ _) | LiProxy (EeEmulationDisabled _) => True
  | LiProxy _ => False
  | _ => True
  end.

Lemma step_good h s i : from_proxy i -> HistoryInv h s -> good h i s (snd (step i s)).
Proof.
  intros Hi H. destruct i as [e a f now|a f|f now|a| |r|e|r port|now].
  - by apply message_good.
  - by good_by H [LEvent (EeConnected a f)]; repeat constructor.
  - lt_run. destruct (match ls_rejected s !! f with Some _ => _ | None => _ end); cbn.
    + by good_by H [LEvent (EeConnectionAttempt f)]; repeat constructor.
    + by good_quiet H.
  - by apply disconnected_good.
  - by good_by H [LTerminate; LProxy PrTerminate]; repeat constructor.
  - by apply progress_good.
  - destruct e; try done.
    + apply (good_intro _ _ _ _ [LBroadcast (Readiness false false session_epoch);
                                  LEvent (EeEmulationDisabled session_epoch)] H); try by_history H; [|by repeat constructor|done].
      lt_run. by rewrite <- app_assoc.
    + apply (good_intro _ _ _ _ [LBroadcast (Readiness keyboard_ready pointer_ready session_epoch);
        LEvent (EeEmulationEnabled keyboard_ready pointer_ready session_epoch)] H); try by_history H; [|by repeat constructor|done].
      lt_run. by rewrite <- app_assoc.
  - by apply request_good.
  - by apply tick_good.
Qed.
End listen.

Section run.
Variable local_commit : list byte.
Variable response_iter : gmap SocketAddr N -> list (SocketAddr * N).
Hypothesis response_iter_permutation : forall m, response_iter m ≡ₚ map_to_list m.

Lemma listen_run_inv inputs : forall h s s',
  Forall from_proxy inputs -> HistoryInv h s ->
  listen_run local_commit response_iter inputs s = (true, s') -> HistoryInv (rev inputs ++ h) s'.
Proof.
  induction inputs as [|i inputs IH]; intros h s s' Hi H Hr; cbn [listen_run] in Hr.
  - by injection Hr as <-.
  - apply Forall_cons in Hi as [Hi Hf]. unfold mbind, lt_bind in Hr.
    pose proof (step_good local_commit response_iter response_iter_permutation h s i Hi H) as [H1 _].
    destruct (listen_step local_commit response_iter i s) as [go s1] eqn:Hs. cbn [snd] in H1.
    destruct go; [|done]. cbn [rev]. rewrite <- app_assoc. by apply (IH _ s1).
Qed.

Lemma listen_new_inv sends : HistoryInv [] (listen_new sends).
Proof. by split. Qed.
End run.

(** C30: What the listen task has recorded is a function of what it met: a peer
    owes an acknowledgement exactly for the last request to release that it has
    not acknowledged with the same epoch and since which it was neither
    disconnected nor found silent, and the readiness is the last announcement
    of the emulation task.  Every message, event and request it sends next is
    justified by that history; in particular a peer is announced as entered
    only when, since its [Enter], the own capture was released, the emulation
    was ready and the pointer was centred, with no departure of the peer in
    between. *)
Theorem listen_outputs_justified (local_commit : list byte) (response_iter : gmap SocketAddr N -> list (SocketAddr * N))
  sends inputs s i :
  (forall m, response_iter m ≡ₚ map_to_list m) ->
  Forall from_proxy (inputs ++ [i]) ->
  listen_run local_commit response_iter inputs (listen_new sends) = (true, s) ->
  (forall a, retry_epoch a (ls_pending_releases s) = outstanding a (rev inputs))
  /\ px_readiness s = last_readiness (rev inputs)
  /\ exists new, ls_out (snd (listen_step local_commit response_iter i s)) = ls_out s ++ new
     /\ Forall (justified (rev inputs) (ls_out s) i) new.
Proof.
  intros Hiter [Hf Hi]%Forall_app Hr. apply Forall_cons in Hi as [Hi _].
  pose proof (listen_run_inv local_commit response_iter Hiter inputs [] _ s Hf (listen_new_inv sends) Hr) as H.
  rewrite app_nil_r in H.
  split; [exact (hi_outstanding _ _ H)|]. split; [exact (hi_ready _ _ H)|].
  exact (proj2 (step_good local_commit response_iter Hiter _ s i Hi H)).
Qed.

Definition demo_peer : SocketAddr := mkAddr 1 7.
Definition demo_handover : list ListenInput :=
  [LiProxy (EeEmulationEnabled true true 5); LiAccept demo_peer "aa"; LiMsg (Enter PosLeft) demo_peer (Some "aa") 10;
   LiProgress (Some true); LiRequest (ErRelease demo_peer 3) (inl 0%N); LiMsg Ping demo_peer (Some "aa") 20].

Definition demo_state : ListenState := snd (listen_run [] map_to_list demo_handover (listen_new (fun _ => true))).

Lemma listen_outputs_justified_witness :
  outstanding demo_peer (rev demo_handover) = Some 3%N
  /\ (exists new, ls_out (snd (listen_step [] map_to_list (LiProgress (Some true)) demo_state)) = ls_out demo_state ++ new
       /\ Forall (justified (rev demo_handover) (ls_out demo_state) (LiProgress (Some true))) new)
  /\ last (ls_out (snd (listen_step [] map_to_list (LiProgress (Some true)) demo_state)))
     = Some (LEvent (EeEntered demo_peer ILeft "aa")).
Proof.
  split; [vm_compute; reflexivity|]. split; [|vm_compute; reflexivity].
  apply (listen_outputs_justified [] map_to_list (fun _ => true) demo_handover demo_state (LiProgress (Some true))).
  - intros m. apply Permutation_refl.
  - by repeat constructor.
  - unfold demo_state. rewrite (surjective_pairing (listen_run _ _ _ _)) at 1. f_equal.
Defined.

(** ** A silent peer is forgotten only in part *)

(** When the timer finds a peer silent, the service is told that it
    disconnected; but the task still counts it as entered.  Its next [Enter] is
    acknowledged at once: neither is the own capture released nor is the peer
    announced as entered again, and the service, which has removed the barrier
    at which the peer can be left, does not make a new one. *)
Theorem silent_peer_reenters_unannounced local_commit response_iter s addr now t pos f now' :
  (forall m, response_iter m ≡ₚ map_to_list m) ->
  addr ∈ ls_entered s -> ls_last_response s !! addr = Some t -> (t + SECOND < now)%N ->
  let s1 := snd (listen_step local_commit response_iter (LiTick now) s) in
  let s2 := snd (listen_step local_commit response_iter (LiMsg (Enter pos) addr (Some f) now') s1) in
  LEvent (EeDisconnected addr) ∈ ls_out s1 /\ ls_out s2 = ls_out s1 ++ [LReply addr (Ack 0) (ls_sends s1 0)].
Proof.
  intros Hiter He Ht Hnow s1 s2.
  destruct (drop_silent_all (map fst (List.filter (silent now) (response_iter (ls_last_response s)))) s)
    as (new & H1 & _ & H2 & _ & _ & _ & _ & H7).
  assert (addr ∈ ls_entered s1) as He1.
  { unfold s1. rewrite tick_run. cbn. by rewrite H7. }
  split.
  - unfold s1. rewrite tick_run. cbn. rewrite H1. apply elem_of_app. right. apply H2, silent_peers; [done|].
    exists t. split; [done|]. unfold silent, elapsed. cbn. apply N.ltb_lt. lia.
  - unfold s2. lt_run. unfold enter_disposition. rewrite bool_decide_eq_true_2 by exact He1. done.
Qed.
