(* ===== verification/TvConfig.v ===== *)
(** * Configuration, start and log of the controller (tv-multiview config.rs,
    main.rs, observability.rs)

    [validate] and what [main::run] starts from a valid configuration; the
    counters of the process; and the log, whose producers drop records rather
    than wait for the writer thread. *)

From stdpp Require Import base tactics list gmap sets strings.
From Stdlib Require Import NArith ZArith Lia Strings.Byte.
From S2P Require Import Prelude Channels Domain Protocol ProtocolSafety.

(** ** Configuration *)

Record Timeouts := mkTimeouts {
  to_command_ms : N;
  to_observation_ms : N;
  to_grant_ms : N;
  to_wake_ms : N;
  to_lease_ms : N;
  to_signal_poll_ms : N;
  to_reconnect_initial_ms : N;
  to_reconnect_max_ms : N;
  to_keepalive_ms : N;
  to_keepalive_timeout_ms : N }.
Definition Timeouts_default : Timeouts :=
  mkTimeouts 10000 5000 5000 60000 15000 10000 1000 60000 10000 30000.

Record Limits := mkLimits {
  li_command_queue : nat;
  li_safety_queue : nat;
  li_retained_requests : nat;
  li_reconnect_alert_after : nat }.
Definition Limits_default : Limits := mkLimits 64 16 32 10.

(** Addresses and the path of the key store are only passed on. *)
Record DaemonConfig := mkConfig {
  dc_bind_address : string;
  dc_tv_ip : string;
  dc_server_host : Host;
  dc_controller_token : string;
  dc_client_key_path : string;
  dc_inputs : gmap Host string;
  dc_wake_on_lan : gmap Host string;
  dc_timeouts : Timeouts;
  dc_limits : Limits }.

(** The source of an I/O or TOML error is kept as its text. *)
Inductive ConfigError :=
| HomeMissing
| CfgRead (path source : string)
| CfgToml (source : string)
| EmptyControllerToken
| MissingInput (h : Host)
| EmptyInput (h : Host)
| ZeroTimeout (name : string)
| ZeroLimit (name : string).

(** The iteration of a [BTreeMap] with hosts as keys: in the order of [Ord]. *)
Definition Host_ORDER : list Host := [Controller; Right; Left].
Definition host_iter {A} (m : gmap Host A) : list (Host * A) :=
  omap (fun h => (fun a => (h, a)) <$> m !! h) Host_ORDER.

(** [str::trim] leaves nothing: the text is UTF-8 of white space. *)
Fixpoint blank (l : list N) : bool :=
  match l with
  | [] => true
  | c :: l =>
      if ((9 <=? c) && (c <=? 13) || (c =? 32))%N then blank l
      else match l with
      | c1 :: l =>
          if ((c =? 194) && ((c1 =? 133) || (c1 =? 160)))%N then blank l
          else match l with
          | c2 :: l =>
              if ((c =? 225) && (c1 =? 154) && (c2 =? 128)
                  || (c =? 226) && (c1 =? 128)
                     && ((128 <=? c2) && (c2 <=? 138) || (c2 =? 168) || (c2 =? 169) || (c2 =? 175))
                  || (c =? 226) && (c1 =? 129) && (c2 =? 159)
                  || (c =? 227) && (c1 =? 128) && (c2 =? 128))%N
              then blank l else false
          | [] => false
          end
      | [] => false
      end
  end.
Definition trim_is_empty (s : string) : bool := blank (map Byte.to_N (String.list_byte_of_string s)).

Definition first_zero (l : list (string * N)) : option string :=
  fst <$> List.find (fun '(_, v) => (v =? 0)%N) l.

Definition named_timeouts (t : Timeouts) : list (string * N) :=
  [("command_ms", to_command_ms t); ("observation_ms", to_observation_ms t); ("grant_ms", to_grant_ms t);
   ("wake_ms", to_wake_ms t); ("lease_ms", to_lease_ms t); ("signal_poll_ms", to_signal_poll_ms t);
   ("reconnect_initial_ms", to_reconnect_initial_ms t); ("reconnect_max_ms", to_reconnect_max_ms t);
   ("keepalive_ms", to_keepalive_ms t); ("keepalive_timeout_ms", to_keepalive_timeout_ms t)].
Definition named_limits (l : Limits) : list (string * N) :=
  [("command_queue", N.of_nat (li_command_queue l)); ("safety_queue", N.of_nat (li_safety_queue l));
   ("retained_requests", N.of_nat (li_retained_requests l));
   ("reconnect_alert_after", N.of_nat (li_reconnect_alert_after l))].

(** [DaemonConfig::validate] *)
Definition config_validate (c : DaemonConfig) : exec ConfigError unit :=
  let* _ := guard_not (bool_decide (dc_controller_token c = "")) EmptyControllerToken in
  let* server_input := ok_or (dc_inputs c !! dc_server_host c) (MissingInput (dc_server_host c)) in
  let* _ := guard_not (trim_is_empty server_input) (EmptyInput (dc_server_host c)) in
  match List.find (fun '(_, input) => trim_is_empty input) (host_iter (dc_inputs c)) with
  | Some (host, _) => Throw (EmptyInput host)
  | None =>
      match first_zero (named_timeouts (dc_timeouts c)) with
      | Some name => Throw (ZeroTimeout name)
      | None =>
          match first_zero (named_limits (dc_limits c)) with
          | Some name => Throw (ZeroLimit name)
          | None => Ret tt
          end
      end
  end.

(** [load_from] and [load]: reading the file and TOML are parameters. *)
Section load.
Variable read_to_string : string -> string + string.
Variable from_toml : string -> DaemonConfig + string.

Definition load_from (path : string) : exec ConfigError DaemonConfig :=
  match read_to_string path with
  | inr source => Throw (CfgRead path source)
  | inl contents =>
      match from_toml contents with
      | inr source => Throw (CfgToml source)
      | inl config => let* _ := config_validate config in Ret config
      end
  end.

(** [TV_MULTIVIEW_CONFIG] and [HOME] of the environment. *)
Definition load (config_env home : option string) : exec ConfigError DaemonConfig :=
  match config_env with
  | Some path => load_from path
  | None =>
      let* home := ok_or home HomeMissing in
      load_from (home ++ "/.config/tv-multiview/config.toml")%string
  end.
End load.

Definition input_for (c : DaemonConfig) (h : Host) : option string := dc_inputs c !! h.
Definition config_display_hosts (c : DaemonConfig) : list Host := map fst (host_iter (dc_inputs c)).

(** ** Start *)

Definition timing_of (c : DaemonConfig) : ProtocolTiming :=
  let t := dc_timeouts c in
  mkTiming (to_command_ms t) (to_observation_ms t) (to_grant_ms t) (to_wake_ms t) (to_lease_ms t) (to_signal_poll_ms t).

(** The state [main::run] gives to the coordinator. *)
Definition initial_state (c : DaemonConfig) : exec unit ProtocolState :=
  with_display_hosts (dc_server_host c) (li_retained_requests (dc_limits c)) (config_display_hosts c).

(** ** Metrics *)

Definition LOG_QUEUE_CAPACITY : nat := 1024.
Definition LOG_RECORD_MAX_BYTES : nat := 16 * 1024.

(** The counters wrap at the width of the machine. *)
Record RuntimeMetrics := mkMetrics {
  rm_log_queue_depth : N;
  rm_dropped_logs : N;
  rm_reconnect_consecutive : N;
  rm_reconnect_backoff_ms : N;
  rm_retry_alert : bool }.
#[global] Instance RuntimeMetrics_eta : RecordEta RuntimeMetrics := fun m =>
  mkMetrics (rm_log_queue_depth m) (rm_dropped_logs m) (rm_reconnect_consecutive m) (rm_reconnect_backoff_ms m)
    (rm_retry_alert m).
Definition RuntimeMetrics_new : RuntimeMetrics := mkMetrics 0 0 0 0 false.

Definition wrap64 (n : N) : N := (n mod 2 ^ 64)%N.

Definition record_reconnect_failure (consecutive_failures backoff_ms alert_after : N) (m : RuntimeMetrics) : RuntimeMetrics :=
  m <| rm_reconnect_consecutive := consecutive_failures |> <| rm_reconnect_backoff_ms := backoff_ms |>
    <| rm_retry_alert := (alert_after <=? consecutive_failures)%N |>.
Definition record_synchronized (m : RuntimeMetrics) : RuntimeMetrics :=
  m <| rm_reconnect_consecutive := 0%N |> <| rm_reconnect_backoff_ms := 0%N |> <| rm_retry_alert := false |>.

Record RuntimeSnapshot := mkRuntimeSnapshot {
  rs_log_queue_depth : N;
  rs_log_queue_capacity : nat;
  rs_log_record_max_bytes : nat;
  rs_dropped_logs : N;
  rs_reconnect_consecutive : N;
  rs_reconnect_backoff_ms : N;
  rs_retry_alert : bool }.
Definition metrics_snapshot (m : RuntimeMetrics) : RuntimeSnapshot :=
  mkRuntimeSnapshot (rm_log_queue_depth m) LOG_QUEUE_CAPACITY LOG_RECORD_MAX_BYTES (rm_dropped_logs m)
    (rm_reconnect_consecutive m) (rm_reconnect_backoff_ms m) (rm_retry_alert m).

(** ** The log *)

Record LogRecord := mkLogRecord { lr_bytes : list byte; lr_oversized : bool }.
Definition make_writer : LogRecord := mkLogRecord [] false.

(** [Write::write] of a record; everything is accepted. *)
Definition log_write (max : nat) (bytes : list byte) (r : LogRecord) : LogRecord :=
  if lr_oversized r then r
  else if (length (lr_bytes r) + length bytes <=? max)%nat then mkLogRecord (lr_bytes r ++ bytes) false
  else mkLogRecord [] true.

(** The queue between the producers and the writer thread, and what the thread
    has written.  A send and the counter next to it are not one step, so the
    records in flight are part of the state. *)
Record LogState := mkLog {
  lg_metrics : RuntimeMetrics;
  lg_queue : list (list byte);
  lg_sending : list (list byte);      (* counted, not yet sent *)
  lg_failed : nat;                    (* refused, not yet uncounted *)
  lg_taken : option (list byte);      (* received, not yet uncounted *)
  lg_written : list (list byte) }.
#[global] Instance LogState_eta : RecordEta LogState := fun s =>
  mkLog (lg_metrics s) (lg_queue s) (lg_sending s) (lg_failed s) (lg_taken s) (lg_written s).

Definition depth_add (d : N) (s : LogState) : LogState :=
  s <| lg_metrics := (lg_metrics s) <| rm_log_queue_depth := wrap64 (rm_log_queue_depth (lg_metrics s) + d) |> |>.
Definition count_dropped (s : LogState) : LogState :=
  s <| lg_metrics := (lg_metrics s) <| rm_dropped_logs := wrap64 (rm_dropped_logs (lg_metrics s) + 1) |> |>.

(** [fetch_sub(1)] *)
Definition MINUS_ONE : N := (2 ^ 64 - 1)%N.

(** [Drop for LogRecord], up to the send. *)
Definition log_drop (r : LogRecord) (s : LogState) : LogState :=
  if lr_oversized r then count_dropped s
  else if bool_decide (lr_bytes r = []) then s
  else (depth_add 1 s) <| lg_sending := lg_sending s ++ [lr_bytes r] |>.

Inductive LogStep :=
| LgDrop (chunks : list (list byte))  (* a record of these writes is finished *)
| LgSend (i : nat)                    (* the [i]-th pending send is made *)
| LgUncount                           (* the counters after a refused send *)
| LgTake                              (* the thread receives *)
| LgWrite (ok : bool).                (* and writes *)

(** [SyncSender::try_send] of a pending record. *)
Definition log_send (capacity i : nat) (s : LogState) : LogState :=
  match lg_sending s !! i with
  | None => s
  | Some bytes =>
      let s := s <| lg_sending := delete i (lg_sending s) |> in
      if (length (lg_queue s) <? capacity)%nat then s <| lg_queue := lg_queue s ++ [bytes] |>
      else s <| lg_failed := S (lg_failed s) |>
  end.

Definition log_uncount (s : LogState) : LogState :=
  match lg_failed s with
  | 0 => s
  | S n => count_dropped ((depth_add MINUS_ONE s) <| lg_failed := n |>)
  end.

(** The writer thread of [spawn_writer] takes one record at a time. *)
Definition log_take (s : LogState) : LogState :=
  match lg_taken s, lg_queue s with
  | None, bytes :: rest => s <| lg_queue := rest |> <| lg_taken := Some bytes |>
  | _, _ => s
  end.
Definition log_worker (ok : bool) (s : LogState) : LogState :=
  match lg_taken s with
  | None => s
  | Some bytes =>
      let s := (depth_add MINUS_ONE s) <| lg_taken := None |> in
      if ok then s <| lg_written := lg_written s ++ [bytes] |> else count_dropped s
  end.

Definition log_record (max : nat) (chunks : list (list byte)) : LogRecord :=
  foldl (fun r bytes => log_write max bytes r) make_writer chunks.

Definition log_step (capacity max : nat) (i : LogStep) (s : LogState) : LogState :=
  match i with
  | LgDrop chunks => log_drop (log_record max chunks) s
  | LgSend i => log_send capacity i s
  | LgUncount => log_uncount s
  | LgTake => log_take s
  | LgWrite ok => log_worker ok s
  end.
Definition log_run (capacity max : nat) (steps : list LogStep) (s : LogState) : LogState :=
  foldl (fun s i => log_step capacity max i s) s steps.
Definition log_new : LogState := mkLog RuntimeMetrics_new [] [] 0 None [].

(** ** Theorems on the configuration *)

(** What a valid configuration is. *)
Record ConfigValid (c : DaemonConfig) : Prop := {
  cv_token : dc_controller_token c <> "";
  cv_server : is_Some (dc_inputs c !! dc_server_host c);
  cv_inputs : map_Forall (fun _ input => trim_is_empty input = false) (dc_inputs c);
  cv_timeouts : Forall (fun '(_, v) => v <> 0%N) (named_timeouts (dc_timeouts c));
  cv_limits : Forall (fun '(_, v) => v <> 0%N) (named_limits (dc_limits c)) }.

Lemma host_iter_elem {A} (m : gmap Host A) h a : (h, a) ∈ host_iter m <-> m !! h = Some a.
Proof.
  unfold host_iter. rewrite list_elem_of_omap. split.
  - intros (h' & _ & Hh). destruct (m !! h') eqn:E; [|done]. by injection Hh as -> ->.
  - intros Hh. exists h. rewrite Hh. split; [destruct h; set_solver|done].
Qed.

Lemma find_none_Forall {A} (f : A -> bool) l : List.find f l = None <-> Forall (fun x => f x = false) l.
Proof.
  induction l as [|x l IH]; cbn; [by split; [constructor|]|].
  destruct (f x) eqn:E; [|rewrite IH]; rewrite Forall_cons; [|tauto]. split; [done|]. intros []. congruence.
Qed.

Lemma first_zero_none l : first_zero l = None <-> Forall (fun '(_, v) => v <> 0%N) l.
Proof.
  unfold first_zero. rewrite fmap_None, find_none_Forall. apply Forall_proper; [|done].
  intros [name v]. by rewrite N.eqb_neq.
Qed.

Lemma config_validate_spec c : config_validate c = Ret tt <-> ConfigValid c.
Proof.
  unfold config_validate, guard_not, ok_or. case_bool_decide as Ht; cbn [exec_bind].
  { split; [done|]. by intros []. }
  destruct (dc_inputs c !! dc_server_host c) as [input|] eqn:Hs; cbn [exec_bind].
  2:{ split; [done|]. intros []. rewrite Hs in *. by destruct cv_server0. }
  assert (map_Forall (fun _ input => trim_is_empty input = false) (dc_inputs c)
          <-> List.find (fun '(_, input) => trim_is_empty input) (host_iter (dc_inputs c)) = None) as Hall.
  { rewrite find_none_Forall, Forall_forall. split.
    - intros H [h x] Hx%host_iter_elem. by apply (H h).
    - intros H h x Hx. by apply (H (h, x)), host_iter_elem. }
  destruct (trim_is_empty input) eqn:Hi; cbn [exec_bind].
  { split; [done|]. intros []. specialize (cv_inputs0 _ _ Hs). cbn in cv_inputs0. congruence. }
  destruct (List.find _ _) as [[h x]|].
  { split; [done|]. intros []. by apply Hall in cv_inputs0. }
  destruct (first_zero (named_timeouts _)) eqn:H1.
  { split; [done|]. intros []. apply first_zero_none in cv_timeouts0. congruence. }
  destruct (first_zero (named_limits _)) eqn:H2.
  { split; [done|]. intros []. apply first_zero_none in cv_limits0. congruence. }
  split; [|done]. intros _. split; [done|by exists input|by apply Hall|by apply first_zero_none..].
Qed.

(** A configuration passes validation exactly when it has a token, an input
    for the server, no blank input, and no timeout or limit of zero; then the
    controller starts: the assertions of the protocol state hold, the first
    state is reachable, and every duration of the protocol is positive. *)
Theorem valid_config_starts c :
  (config_validate c = Ret tt <-> ConfigValid c)
  /\ (config_validate c = Ret tt ->
      exists s, initial_state c = Ret s /\ reachable (timing_of c) s 0
        /\ display_hosts s = dom (dc_inputs c)
        /\ (0 < command_ms (timing_of c) /\ 0 < observation_ms (timing_of c) /\ 0 < grant_ms (timing_of c)
            /\ 0 < wake_ms (timing_of c) /\ 0 < lease_ms (timing_of c) /\ 0 < signal_poll_ms (timing_of c))%N).
Proof.
  split; [apply config_validate_spec|]. intros [Ht [input Hs] Hi Htime Hlim]%config_validate_spec.
  assert (list_to_set (config_display_hosts c) = dom (dc_inputs c)) as Hd.
  { apply set_eq. intros h. unfold config_display_hosts. rewrite elem_of_list_to_set, list_elem_of_fmap, elem_of_dom.
    split.
    - intros ([h' x] & -> & Hx%host_iter_elem). by exists x.
    - intros [x Hx]. exists (h, x). split; [done|]. by apply host_iter_elem. }
  assert (exists s, initial_state c = Ret s /\ display_hosts s = dom (dc_inputs c)) as (s & Hr & Hds).
  { unfold initial_state, with_display_hosts. rewrite bool_decide_eq_false_2.
    2:{ intros H0. apply Forall_cons in Hlim as [_ Hlim]. apply Forall_cons in Hlim as [_ Hlim].
        apply Forall_cons in Hlim as [Hlim _]. by rewrite H0 in Hlim. }
    cbn zeta. rewrite Hd, bool_decide_eq_true_2 by (apply elem_of_dom; by exists input).
    eexists. split; [reflexivity|]. done. }
  exists s. split; [done|]. split; [by eapply reach_init|]. split; [done|].
  repeat (apply Forall_cons in Htime as [? Htime]). unfold timing_of. cbn in *. lia.
Qed.

Definition demo_config : DaemonConfig :=
  mkConfig "127.0.0.1:8765" "192.0.2.10" Controller "test-token" "/tmp/key.sqlite"
    {[Controller := "HDMI_4"; Left := "HDMI_2"]} ∅ Timeouts_default Limits_default.

Lemma valid_config_starts_witness :
  exists s, initial_state demo_config = Ret s /\ reachable (timing_of demo_config) s 0
    /\ display_hosts s = {[Controller; Left]}.
Proof.
  destruct (proj2 (valid_config_starts demo_config) ltac:(vm_compute; reflexivity)) as (s & H1 & H2 & H3 & _).
  exists s. split; [exact H1|]. split; [exact H2|]. rewrite H3. vm_compute. reflexivity.
Defined.

(** ** Theorems on the log *)

(** Finished records that are not empty. *)
Definition finished (max : nat) (i : LogStep) : nat :=
  match i with
  | LgDrop chunks =>
      let r := log_record max chunks in
      if lr_oversized r then 1 else if bool_decide (lr_bytes r = []) then 0 else 1
  | _ => 0
  end.

(** Records that are somewhere between their producer and the thread. *)
Definition in_flight (s : LogState) : nat :=
  length (lg_queue s) + length (lg_sending s) + lg_failed s + length (option_list (lg_taken s)).

Section log.
Variables capacity max : nat.

Record LogInv (n : nat) (s : LogState) : Prop := {
  lo_depth : rm_log_queue_depth (lg_metrics s) = wrap64 (N.of_nat (in_flight s));
  lo_dropped : exists d, rm_dropped_logs (lg_metrics s) = wrap64 (N.of_nat d)
                /\ (n = length (lg_written s) + d + in_flight s)%nat;
  lo_capacity : (length (lg_queue s) <= capacity)%nat;
  lo_bytes : Forall (fun b => (0 < length b <= max)%nat) (lg_queue s ++ lg_sending s ++ option_list (lg_taken s) ++ lg_written s) }.

Lemma wrap64_add a b : wrap64 (wrap64 a + b) = wrap64 (a + b).
Proof. unfold wrap64. by rewrite N.Div0.add_mod_idemp_l. Qed.

Lemma wrap64_sub n : wrap64 (wrap64 (N.of_nat (S n)) + MINUS_ONE) = wrap64 (N.of_nat n).
Proof.
  rewrite wrap64_add. unfold wrap64, MINUS_ONE.
  replace (N.of_nat (S n) + (2 ^ 64 - 1))%N with (N.of_nat n + 1 * 2 ^ 64)%N by lia.
  apply N.Div0.mod_add.
Qed.

Lemma log_record_bound chunks : (length (lr_bytes (log_record max chunks)) <= max)%nat.
Proof.
  unfold log_record. assert (length (lr_bytes make_writer) <= max)%nat as Hm by (cbn; lia).
  revert Hm. generalize make_writer as r. induction chunks as [|b chunks IH]; intros r Hr; [done|].
  cbn [foldl]. apply IH. unfold log_write. destruct (lr_oversized r); [done|].
  destruct (Nat.leb_spec (length (lr_bytes r) + length b) max); cbn; [rewrite length_app; lia|lia].
Qed.

Lemma log_drop_inv n chunks s : LogInv n s -> LogInv (n + finished max (LgDrop chunks)) (log_drop (log_record max chunks) s).
Proof.
  intros [Hd (d & Hdr & Hn) Hc Hb]. cbn [finished].
  pose proof (log_record_bound chunks) as Hl. unfold log_drop.
  destruct (lr_oversized (log_record max chunks)); [|case_bool_decide as He].
  - split; [exact Hd| |exact Hc|exact Hb].
    exists (S d). cbn. split; [|unfold in_flight in *; cbn; lia].
    rewrite Hdr, wrap64_add. f_equal. lia.
  - rewrite Nat.add_0_r. split; [done|by exists d|done|done].
  - split; [| |exact Hc|].
    + cbn. rewrite Hd, wrap64_add. f_equal. unfold in_flight. cbn. rewrite length_app. cbn. lia.
    + exists d. cbn. split; [done|]. unfold in_flight in *. cbn. rewrite length_app. cbn. lia.
    + cbn. rewrite !Forall_app in *. repeat split; try tauto. constructor; [|done].
      destruct (lr_bytes _); [done|]. cbn in *. lia.
Qed.

Lemma log_send_inv n i s : LogInv n s -> LogInv n (log_send capacity i s).
Proof.
  intros [Hd (d & Hdr & Hn) Hc Hb].
  unfold log_send. destruct (lg_sending s !! i) as [b|] eqn:Hi; [|split; [done|by exists d|done|done]].
  pose proof (length_delete _ _ (mk_is_Some _ _ Hi)) as Hlen. pose proof (lookup_lt_Some _ _ _ Hi) as Hlt.
  rewrite !Forall_app in Hb. destruct Hb as (Hb1 & Hb2 & Hb3).
  assert (Forall (fun b => (0 < length b <= max)%nat) (delete i (lg_sending s))) as Hdel by by apply Forall_delete.
  assert ((0 < length b <= max)%nat) as Hbb by by eapply Forall_lookup_1 in Hb2.
  destruct (Nat.ltb_spec (length (lg_queue (s <| lg_sending := delete i (lg_sending s) |>))) capacity) as [Hq|Hq]; cbn in Hq.
  - match goal with |- LogInv _ ?s' => assert (in_flight s' = in_flight s) as Hf end.
    { unfold in_flight. cbn. rewrite length_app, Hlen. cbn. lia. }
    split; [rewrite Hf; exact Hd|exists d; rewrite Hf; by split| |].
    + cbn. rewrite length_app. cbn. lia.
    + cbn. rewrite !Forall_app. by repeat split; try apply Hb3; try constructor.
  - match goal with |- LogInv _ ?s' => assert (in_flight s' = in_flight s) as Hf end.
    { unfold in_flight. cbn. rewrite Hlen. lia. }
    split; [rewrite Hf; exact Hd|exists d; rewrite Hf; by split|exact Hc|].
    cbn. rewrite !Forall_app. tauto.
Qed.

Lemma log_uncount_inv n s : LogInv n s -> LogInv n (log_uncount s).
Proof.
  intros [Hd (d & Hdr & Hn) Hc Hb].
  unfold log_uncount. destruct (lg_failed s) as [|f] eqn:Hf; [split; [done|by exists d|done|done]|].
  assert (in_flight s = S (length (lg_queue s) + length (lg_sending s) + f + length (option_list (lg_taken s)))) as Hs.
  { unfold in_flight. rewrite Hf. lia. }
  split; [|exists (S d)|exact Hc|exact Hb]; cbn.
  - rewrite Hd, Hs, wrap64_sub. done.
  - split; [rewrite Hdr, wrap64_add; f_equal; lia|]. unfold in_flight in *. cbn. lia.
Qed.

Lemma log_take_inv n s : LogInv n s -> LogInv n (log_take s).
Proof.
  intros [Hd (d & Hdr & Hn) Hc Hb].
  unfold log_take.
  destruct (lg_taken s) as [b0|] eqn:Ht; [split; [done|by exists d|done|by rewrite Ht]|].
  destruct (lg_queue s) as [|b q] eqn:Hq; [split; [done|by exists d|by rewrite Hq|by rewrite Hq, Ht]|].
  assert (in_flight (s <| lg_queue := q |> <| lg_taken := Some b |>) = in_flight s) as Hf.
  { unfold in_flight. cbn. rewrite Hq, Ht. cbn. lia. }
  split; [rewrite Hf; exact Hd|exists d; rewrite Hf; by split| |].
  - cbn in *. lia.
  - cbn. rewrite !Forall_app, !Forall_cons in *. tauto.
Qed.

Lemma log_worker_inv n ok s : LogInv n s -> LogInv n (log_worker ok s).
Proof.
  intros [Hd (d & Hdr & Hn) Hc Hb].
  unfold log_worker.
  destruct (lg_taken s) as [b|] eqn:Ht; [|split; [done|by exists d|done|by rewrite Ht]].
  set (s1 := (depth_add MINUS_ONE s) <| lg_taken := None |>).
  assert (in_flight s = S (in_flight s1)) as Hs.
  { unfold in_flight, s1. cbn. rewrite Ht. cbn. lia. }
  assert (rm_log_queue_depth (lg_metrics s1) = wrap64 (N.of_nat (in_flight s1))) as Hd1.
  { unfold s1 at 1. cbn. by rewrite Hd, Hs, wrap64_sub. }
  cbn in Hb. rewrite !Forall_app, Forall_cons in Hb.
  destruct ok.
  - split; [exact Hd1|exists d|exact Hc|cbn; rewrite !Forall_app, Forall_singleton; tauto].
    split; [exact Hdr|]. change (in_flight (s1 <| lg_written := lg_written s ++ [b] |>)) with (in_flight s1).
    change (n = length (lg_written s ++ [b]) + d + in_flight s1)%nat. rewrite length_app. cbn [length]. lia.
  - split; [exact Hd1|exists (S d)|exact Hc|cbn; rewrite !Forall_app; tauto].
    split; [cbn; rewrite Hdr, wrap64_add; f_equal; lia|].
    change (n = length (lg_written s) + S d + in_flight s1)%nat. lia.
Qed.

Lemma log_step_inv n i s : LogInv n s -> LogInv (n + finished max i) (log_step capacity max i s).
Proof.
  intros H. destruct i as [chunks|i| | |ok]; cbn [log_step]; [by apply log_drop_inv|cbn [finished]; rewrite Nat.add_0_r..].
  - by apply log_send_inv.
  - by apply log_uncount_inv.
  - by apply log_take_inv.
  - by apply log_worker_inv.
Qed.

Lemma log_run_inv steps : forall n s, LogInv n s ->
  LogInv (n + sum_list_with (finished max) steps) (log_run capacity max steps s).
Proof.
  induction steps as [|i steps IH]; intros n s H; cbn.
  - by rewrite Nat.add_0_r.
  - rewrite Nat.add_assoc. by apply IH, log_step_inv.
Qed.
End log.

(** Whatever the order of the producers, their sends and the writer thread,
    no finished record is lost without being counted: those finished are the
    written, the dropped and the ones in flight; the depth of the queue is
    exact; and queue and records stay within their bounds, so that a writer
    that has stopped costs bounded memory. *)
Theorem log_accounts_for_records capacity max steps :
  (N.of_nat (sum_list_with (finished max) steps) < 2 ^ 64)%N ->
  let s := log_run capacity max steps log_new in
  N.of_nat (sum_list_with (finished max) steps)
    = (N.of_nat (length (lg_written s)) + rm_dropped_logs (lg_metrics s) + rm_log_queue_depth (lg_metrics s))%N
  /\ rm_log_queue_depth (lg_metrics s) = N.of_nat (in_flight s)
  /\ (length (lg_queue s) <= capacity)%nat
  /\ Forall (fun b => (0 < length b <= max)%nat) (lg_queue s).
Proof.
  intros Hn s.
  destruct (log_run_inv capacity max steps 0 log_new) as [Hd (d & Hdr & Hsum) Hc Hb].
  { split; [done|by exists 0%nat|cbn; lia|by constructor]. }
  fold s in Hd, Hdr, Hsum, Hc, Hb. rewrite Forall_app in Hb. cbn [Nat.add] in Hsum.
  assert (forall a, (a <= sum_list_with (finished max) steps)%nat -> wrap64 (N.of_nat a) = N.of_nat a) as Hw.
  { intros a Ha. apply N.mod_small. lia. }
  rewrite Hd, Hdr, !Hw by lia. split; [lia|]. split; [done|]. split; [done|]. apply Hb.
Qed.

Definition demo_log : list LogStep :=
  [LgDrop [[x61]; [x62]]; LgDrop [[x63]]; LgSend 0; LgSend 0; LgTake; LgUncount; LgDrop [[x61; x62; x63; x64; x65]];
   LgWrite true; LgDrop [[x66]]].

Lemma log_accounts_for_records_witness :
  let s := log_run 1 4 demo_log log_new in
  rm_dropped_logs (lg_metrics s) = 2%N /\ length (lg_written s) = 1%nat /\ rm_log_queue_depth (lg_metrics s) = N.of_nat (in_flight s).
Proof.
  cbn zeta. split; [vm_compute; reflexivity|]. split; [vm_compute; reflexivity|].
  exact (proj1 (proj2 (log_accounts_for_records 1 4 demo_log ltac:(vm_compute; reflexivity)))).
Defined.
