(* ===== verification/HttpApi.v ===== *)
(** * The HTTP interface of the controller (tv-multiview http.rs)

    One handler per route.  A handler talks to the coordinator through its
    handle: it reads the published snapshot and the clock, and submits events
    to the ordinary or the safety queue and waits for the answer.  The handle
    is the class [CoordinatorHandle]; routing, HTTP and JSON are axum's, so a
    request arrives as the endpoint it was routed to, with its path argument as
    text and its body as the decoded value or the text of the rejection. *)

From stdpp Require Import base tactics list gmap sets strings.
From Stdlib Require Import NArith ZArith Lia Strings.Byte.
From S2P Require Import Prelude Channels Domain Protocol TvCoordinator TvConfig.

(** [CoordinatorQueueSnapshot] *)
Record CoordinatorQueueSnapshot := mkQueues {
  cq_ordinary_commands : QueueSnapshot;
  cq_safety_commands : QueueSnapshot;
  cq_ordinary_effects : QueueSnapshot;
  cq_safety_effects : QueueSnapshot }.

(** [CoordinatorHandle]; [ch_request] is [apply] or, when the flag is set,
    [apply_safety]. *)
Class CoordinatorHandle (W : Type) := {
  ch_now_ms : W -> N * W;
  ch_snapshot : W -> ProtocolState;
  ch_request : bool -> Event -> W -> (ProtocolState + CoordinatorError) * W;
  ch_queue_snapshot : W -> CoordinatorQueueSnapshot;
  ch_metrics : W -> RuntimeSnapshot }.

Definition PROTOCOL_VERSION : N := 2.

(** Status codes. *)
Definition OK : N := 200.
Definition ACCEPTED : N := 202.
Definition BAD_REQUEST : N := 400.
Definition UNAUTHORIZED : N := 401.
Definition NOT_FOUND : N := 404.
Definition CONFLICT : N := 409.
Definition INTERNAL_SERVER_ERROR : N := 500.
Definition SERVICE_UNAVAILABLE : N := 503.

(** ** Bodies *)

Record CreateEnterRequest := mkCreateEnter {
  ce_client_id : string;
  ce_request_id : string;
  ce_lease_id : string;
  ce_lease_epoch : N;
  ce_peer_session_epoch : N;
  ce_lease_ttl_ms : N }.
Record CommitRequest := mkCommitRequest {
  cr_request_epoch : N;
  cr_grant_epoch : N;
  cr_lease_id : string;
  cr_lease_epoch : N }.
Record CancelRequest := mkCancelRequest { cc_reason : string }.
Record RenewRequest := mkRenewRequest {
  rw_lease_id : string;
  rw_lease_epoch : N;
  rw_peer_session_epoch : N }.
Record ReadinessRequest := mkReadinessRequest {
  rd_online : bool;
  rd_keyboard_ready : bool;
  rd_pointer_ready : bool;
  rd_session_epoch : N }.

Record ApiEnvelope (A : Type) := mkApiEnvelope {
  av_protocol_version : N;
  av_server_now_ms : N;
  av_data : A }.
Arguments mkApiEnvelope {A} _ _ _.
Arguments av_protocol_version {A} _.
Arguments av_server_now_ms {A} _.
Arguments av_data {A} _.
(** [ApiEnvelope::new] *)
Definition envelope {A} (server_now_ms : N) (data : A) : ApiEnvelope A :=
  mkApiEnvelope PROTOCOL_VERSION server_now_ms data.

Record ApiError := mkError {
  er_protocol_version : N;
  er_code : string;
  er_message : string;
  er_active_request_id : option string }.
Record ReadyResponse := mkReadyResponse { ry_ready : bool; ry_phase : ProtocolPhase; ry_fallback_required : bool }.
Record RenewResponse := mkRenew { rv_renewed : bool; rv_renewed_until_ms : option N; rv_phase : ProtocolPhase }.
Record ReadinessResponse := mkReadiness { rz_host : Host; rz_readiness : PeerReadiness }.
Record ManualRecoveryResponse := mkManual { mv_target : Host; mv_armed : bool }.
Record MultiViewResponse := mkMultiView { vw_enabled : bool; vw_phase : ProtocolPhase; vw_switch_epoch : N }.

(** [StatusResponse] *)
Record StatusResponse := mkStatus {
  st_mode : TvMode;
  st_observed_input : option Host;
  st_commanded_input : option Host;
  st_healthy : bool;
  st_ready : bool;
  st_ws_state : WsState;
  st_subscribe_active : bool;
  st_protocol_phase : ProtocolPhase;
  st_request_id : option string;
  st_request_epoch : N;
  st_switch_epoch : N;
  st_verified_epoch : option N;
  st_pending_switch : option Host;
  st_switch_timer : N;
  st_fallback_required : bool;
  st_manual_recovery_target : option Host;
  st_keyboard_owner : Host;
  st_pointer_owner : Host;
  st_reservation_target : option Host;
  st_grant_epoch : option N;
  st_input_signal : gmap Host bool;
  st_signal_observations : gmap Host SignalObservation;
  st_remote_online : gmap Host bool;
  st_peer_readiness : gmap Host PeerReadiness;
  st_uptime_seconds : N;
  st_reconnect_total : N;
  st_switch_count : gmap Host N;
  st_last_error : option string;
  st_dropped_logs : N;
  st_request_history_len : nat;
  st_retained_request_limit : nat;
  st_queues : CoordinatorQueueSnapshot;
  st_runtime : RuntimeSnapshot;
  st_observation_age_ms : option N;
  st_deadline_remaining_ms : option N;
  st_in_flight_operation : option string }.

Inductive Body :=
| BText (s : string)
| BError (e : ApiError)
| BReady (e : ApiEnvelope ReadyResponse)
| BStatus (e : ApiEnvelope StatusResponse)
| BRequest (e : ApiEnvelope EnterRequest)
| BRenew (e : ApiEnvelope RenewResponse)
| BReadiness (e : ApiEnvelope ReadinessResponse)
| BManual (e : ApiEnvelope ManualRecoveryResponse)
| BMultiView (e : ApiEnvelope MultiViewResponse).

Record Response := mkResponse { rsp_status : N; rsp_body : Body }.

(** [api_error]; [ApiFailure] is its arguments. *)
Definition api_error (status : N) (code message : string) : Response :=
  mkResponse status (BError (mkError PROTOCOL_VERSION code message None)).

(** ** Authorization *)

(** [HeaderMap::get] with a lower-case name, and [HeaderValue::to_str]. *)
Definition HeaderMap : Type := list (string * list byte).
Definition header_get (name : string) (headers : HeaderMap) : option (list byte) :=
  snd <$> List.find (fun '(n, _) => bool_decide (n = name)) headers.
Definition visible (b : byte) : bool :=
  let n := Byte.to_N b in ((32 <=? n) && (n <? 127) || (n =? 9))%N.
Definition to_str (value : list byte) : option (list byte) :=
  if forallb visible value then Some value else None.

(** [str::strip_prefix] *)
Fixpoint strip_prefix (prefix l : list byte) : option (list byte) :=
  match prefix, l with
  | [], _ => Some l
  | p :: prefix, b :: l => if Byte.eqb p b then strip_prefix prefix l else None
  | _ :: _, [] => None
  end.

(** [constant_time_eq] *)
Definition constant_time_eq (left right : list byte) : bool :=
  if negb (length left =? length right)%nat then false
  else (foldl (fun difference '(l, r) => N.lor difference (N.lxor (Byte.to_N l) (Byte.to_N r))) 0
          (zip left right) =? 0)%N.

Definition BEARER : list byte := String.list_byte_of_string "Bearer ".

(** [authorize]: [None] is success. *)
Definition authorize (headers : HeaderMap) (expected_token : string) : option Response :=
  let presented :=
    (header_get "authorization" headers ≫= to_str) ≫= strip_prefix BEARER in
  if match presented with
     | Some token => constant_time_eq token (String.list_byte_of_string expected_token)
     | None => false
     end
  then None
  else Some (api_error UNAUTHORIZED "unauthorized" "missing or invalid bearer token").

(** ** Answers *)

(** [request_response] *)
Definition request_response (s : ProtocolState) (request_id : string) (server_now_ms : N) : Response :=
  match request s request_id with
  | None => api_error NOT_FOUND "request_not_found" "request not found"
  | Some r =>
      let status :=
        match er_status r with
        | StWaking | StSwitching => ACCEPTED
        | StGrant | StCommitted => OK
        | StDenied | StCancelled | StFallback | StExpired => CONFLICT
        end in
      mkResponse status (BRequest (envelope server_now_ms r))
  end.

(** The texts of the errors. *)
Definition protocol_error_text (e : ProtocolError) : string :=
  match e with
  | Unavailable => "daemon is not synchronized or fallback is unresolved"
  | Busy active_request_id => ("request conflicts with active request " ++ active_request_id)%string
  | RequestIdentityConflict => "request id already exists with different identity"
  | InvalidLease => "bundle lease is invalid or expired"
  | RequestNotFound => "request not found"
  | StaleIdentity => "request, grant, or lease identity is stale"
  | InputNotLocal => "multiview change requires local server ownership"
  | InvalidManualRecoveryTarget => "manual recovery target must be a remote host"
  | Invariant msg => ("protocol invariant failed: " ++ msg)%string
  end.
Definition coordinator_error_text (e : CoordinatorError) : string :=
  match e with
  | CBusy => "coordinator queue is full"
  | CClosed => "coordinator is closed"
  | CProtocol e => protocol_error_text e
  end.

(** [coordinator_error] *)
Definition coordinator_error (error : CoordinatorError) : Response :=
  match error with
  | CBusy => api_error SERVICE_UNAVAILABLE "coordinator_busy" (coordinator_error_text error)
  | CClosed => api_error SERVICE_UNAVAILABLE "coordinator_closed" (coordinator_error_text error)
  | CProtocol Unavailable => api_error SERVICE_UNAVAILABLE "not_ready" (coordinator_error_text error)
  | CProtocol (Busy active_request_id) =>
      mkResponse CONFLICT (BError (mkError PROTOCOL_VERSION "request_busy" "another request is active"
                                     (Some active_request_id)))
  | CProtocol RequestNotFound => api_error NOT_FOUND "request_not_found" (coordinator_error_text error)
  | CProtocol InvalidLease | CProtocol StaleIdentity | CProtocol RequestIdentityConflict | CProtocol InputNotLocal =>
      api_error CONFLICT "request_conflict" (coordinator_error_text error)
  | CProtocol InvalidManualRecoveryTarget => api_error BAD_REQUEST "invalid_target" (coordinator_error_text error)
  | CProtocol (Invariant _) => api_error INTERNAL_SERVER_ERROR "invariant_violation" (coordinator_error_text error)
  end.

(** [in_flight_operation] *)
Definition in_flight_operation (s : ProtocolState) : option string :=
  if bool_decide (is_Some (observation_in_flight s)) then Some "observe"
  else match phase s with
  | Waking => Some "wake"
  | Switching | FallbackCommandPending => Some "set_input"
  | Verifying => Some "verify_target"
  | FallbackVerifying => Some "verify_fallback"
  | MultiviewChanging => Some "set_multiview"
  | Starting | Idle | GrantPending | RemoteOwned | FallbackDeferred => None
  end.

(** [HostParseError] *)
Definition host_error_text (value : string) : string := ("unknown host: " ++ value)%string.

(** ** Handlers *)

Section handlers.
Context {W : Type} {H : CoordinatorHandle W}.
Variable controller_token : string.
Variable max_lease_ms : N.

Definition http (A : Type) : Type := W -> A * W.
#[global] Instance http_ret : MRet http := fun A a w => (a, w).
#[global] Instance http_bind : MBind http := fun A B k m w => let '(a, w) := m w in k a w.

Definition snapshot : http ProtocolState := fun w => (ch_snapshot w, w).
Definition now_ms : http N := ch_now_ms.
Definition apply_request (safety : bool) (e : Event) : http (ProtocolState + CoordinatorError) := ch_request safety e.

(** The first lines of every protected handler. *)
Definition authorized (headers : HeaderMap) (k : http Response) : http Response :=
  match authorize headers controller_token with Some error => mret error | None => k end.

(** [json_body] and the early return. *)
Definition with_body {A} (body : A + string) (k : A -> http Response) : http Response :=
  match body with
  | inl a => k a
  | inr rejection => mret (api_error BAD_REQUEST "invalid_json" rejection)
  end.

(** [Host::from_str] and the early return. *)
Definition with_host (value : string) (k : Host -> http Response) : http Response :=
  match Host_from_str value with
  | inr host => k host
  | inl value => mret (api_error BAD_REQUEST "invalid_host" (host_error_text value))
  end.

Definition empty (s : string) : bool := bool_decide (s = "").

(** [health] *)
Definition health : http Response := mret (mkResponse OK (BText "ok")).

(** [ready] *)
Definition ready_handler (headers : HeaderMap) : http Response :=
  authorized headers (
    s ← snapshot;
    let status := if ready s then OK else SERVICE_UNAVAILABLE in
    now ← now_ms;
    mret (mkResponse status (BReady (envelope now (mkReadyResponse (ready s) (phase s) (fallback_required s)))))).

Definition observation_age (s : ProtocolState) (now : N) : option N :=
  observed_input s ≫= fun host =>
  input_signal s !! host ≫= fun o =>
  if (0 <? sig_observed_at_ms o)%N then Some (now - sig_observed_at_ms o)%N else None.

(** The request a status shows: the active one or that of the session. *)
Definition shown_request (s : ProtocolState) : option EnterRequest :=
  match active_request s with
  | Some r => Some r
  | None => active_session s ≫= fun a => find_last (has_id (as_request_id a)) (request_history s)
  end.

Definition status_response (s : ProtocolState) (now : N) (queues : CoordinatorQueueSnapshot) (runtime : RuntimeSnapshot)
  : StatusResponse :=
  let deadline_remaining := (fun d => (d - now)%N) <$> next_deadline_ms s in
  let request_id :=
    match er_request_id <$> active_request s with
    | Some id => Some id
    | None => as_request_id <$> active_session s
    end in
  let pending_switch := er_target <$> active_request s in
  {| st_mode := tv_mode s;
     st_observed_input := observed_input s;
     st_commanded_input := commanded_input s;
     st_healthy := daemon_healthy s;
     st_ready := ready s;
     st_ws_state := ws_state s;
     st_subscribe_active := subscribe_active s;
     st_protocol_phase := phase s;
     st_request_id := request_id;
     st_request_epoch := request_epoch s;
     st_switch_epoch := switch_epoch s;
     st_verified_epoch := verified_epoch s;
     st_pending_switch := pending_switch;
     st_switch_timer := default 0%N deadline_remaining;
     st_fallback_required := fallback_required s;
     st_manual_recovery_target := manual_recovery_target s;
     st_keyboard_owner := keyboard_owner s;
     st_pointer_owner := pointer_owner s;
     st_reservation_target := pending_switch;
     st_grant_epoch := gr_grant_epoch <$> (shown_request s ≫= er_grant);
     st_input_signal := sig_present <$> input_signal s;
     st_signal_observations := input_signal s;
     st_remote_online := online <$> filter (fun p => fst p <> server_host s) (peers s);
     st_peer_readiness := peers s;
     st_uptime_seconds := (now / 1000)%N;
     st_reconnect_total := reconnect_total s;
     st_switch_count := switch_count s;
     st_last_error := last_error s;
     st_dropped_logs := rs_dropped_logs runtime;
     st_request_history_len := length (request_history s);
     st_retained_request_limit := retained_request_limit s;
     st_queues := queues;
     st_runtime := runtime;
     st_observation_age_ms := observation_age s now;
     st_deadline_remaining_ms := deadline_remaining;
     st_in_flight_operation := in_flight_operation s |}.

(** [status] *)
Definition status_handler (headers : HeaderMap) : http Response :=
  authorized headers (
    now ← now_ms;
    s ← snapshot;
    runtime ← (fun w => (ch_metrics w, w)) : http RuntimeSnapshot;
    queues ← (fun w => (ch_queue_snapshot w, w)) : http CoordinatorQueueSnapshot;
    mret (mkResponse OK (BStatus (envelope now (status_response s now queues runtime))))).

(** The end of a handler that asks about one request. *)
Definition answer_request (request_id : string) (r : ProtocolState + CoordinatorError) : http Response :=
  match r with
  | inl s => now ← now_ms; mret (request_response s request_id now)
  | inr error => mret (coordinator_error error)
  end.

(** [create_enter] *)
Definition create_enter (headers : HeaderMap) (target : string) (body : CreateEnterRequest + string) : http Response :=
  authorized headers (with_body body (fun b => with_host target (fun target =>
    if empty (ce_request_id b) || empty (ce_client_id b) || empty (ce_lease_id b) || (ce_lease_epoch b =? 0)%N
       || (ce_peer_session_epoch b =? 0)%N || (ce_lease_ttl_ms b =? 0)%N || (max_lease_ms <? ce_lease_ttl_ms b)%N
    then mret (api_error BAD_REQUEST "invalid_identity"
                 "request, client, lease identity and bounded lease_ttl_ms are required")
    else
      now ← now_ms;
      r ← apply_request false (CreateEnter (ce_request_id b) (ce_client_id b) target
            (mkLease (ce_lease_id b) (ce_lease_epoch b) (ce_peer_session_epoch b) (sat_add now (ce_lease_ttl_ms b))));
      answer_request (ce_request_id b) r))).

(** [poll_enter] *)
Definition poll_enter (headers : HeaderMap) (request_id : string) : http Response :=
  authorized headers (s ← snapshot; now ← now_ms; mret (request_response s request_id now)).

(** [commit_enter] *)
Definition commit_enter (headers : HeaderMap) (request_id : string) (body : CommitRequest + string) : http Response :=
  authorized headers (with_body body (fun b =>
    if (cr_request_epoch b =? 0)%N || (cr_grant_epoch b =? 0)%N || empty (cr_lease_id b) || (cr_lease_epoch b =? 0)%N
    then mret (api_error BAD_REQUEST "invalid_identity" "current request, grant, and lease identities are required")
    else
      r ← apply_request false (Commit request_id (cr_request_epoch b) (cr_grant_epoch b) (cr_lease_id b) (cr_lease_epoch b));
      answer_request request_id r)).

(** [cancel_enter] *)
Definition cancel_enter (headers : HeaderMap) (request_id : string) (body : CancelRequest + string) : http Response :=
  authorized headers (with_body body (fun b =>
    if empty (cc_reason b) then mret (api_error BAD_REQUEST "invalid_reason" "cancellation reason is required")
    else r ← apply_request true (Cancel request_id (cc_reason b)); answer_request request_id r)).

(** [renew_enter] *)
Definition renew_enter (headers : HeaderMap) (request_id : string) (body : RenewRequest + string) : http Response :=
  authorized headers (with_body body (fun b =>
    if empty (rw_lease_id b) || (rw_lease_epoch b =? 0)%N || (rw_peer_session_epoch b =? 0)%N
    then mret (api_error BAD_REQUEST "invalid_identity" "current lease and peer session identities are required")
    else
      r ← apply_request true (Renew request_id (rw_lease_id b) (rw_lease_epoch b) (rw_peer_session_epoch b));
      match r with
      | inl s =>
          now ← now_ms;
          mret (mkResponse OK (BRenew (envelope now
            (mkRenew (bool_decide (is_Some (active_session s))) (as_renewed_until_ms <$> active_session s) (phase s)))))
      | inr error => mret (coordinator_error error)
      end)).

(** [update_readiness] *)
Definition update_readiness (headers : HeaderMap) (host : string) (body : ReadinessRequest + string) : http Response :=
  authorized headers (with_body body (fun b => with_host host (fun host =>
    now ← now_ms;
    r ← apply_request true (PeerReadinessUpdated host
          (mkPeerReadiness (rd_online b) (rd_keyboard_ready b) (rd_pointer_ready b) (rd_session_epoch b) now));
    match r with
    | inl s =>
        now ← now_ms;
        mret (mkResponse OK (BReadiness (envelope now
          (mkReadiness host (default PeerReadiness_default (peers s !! host))))))
    | inr error => mret (coordinator_error error)
    end))).

(** [arm_manual_recovery] *)
Definition arm_manual_recovery (headers : HeaderMap) (target : string) : http Response :=
  authorized headers (with_host target (fun target =>
    r ← apply_request true (ArmManualRecovery target);
    match r with
    | inl s =>
        now ← now_ms;
        mret (mkResponse OK (BManual (envelope now
          (mkManual target (bool_decide (manual_recovery_target s = Some target))))))
    | inr error => mret (coordinator_error error)
    end)).

(** [multiview], for [multiview_on] and [multiview_off] *)
Definition multiview (headers : HeaderMap) (enabled : bool) : http Response :=
  authorized headers (
    r ← apply_request true (MultiViewRequested enabled);
    match r with
    | inl s =>
        now ← now_ms;
        mret (mkResponse ACCEPTED (BMultiView (envelope now (mkMultiView enabled (phase s) (switch_epoch s)))))
    | inr error => mret (coordinator_error error)
    end).

(** The routes. *)
Inductive Endpoint :=
| EpHealth
| EpReady
| EpStatus
| EpCreateEnter (target : string) (body : CreateEnterRequest + string)
| EpPollEnter (request_id : string)
| EpCommitEnter (request_id : string) (body : CommitRequest + string)
| EpCancelEnter (request_id : string) (body : CancelRequest + string)
| EpRenewEnter (request_id : string) (body : RenewRequest + string)
| EpReadiness (host : string) (body : ReadinessRequest + string)
| EpManualRecovery (target : string)
| EpMultiView (enabled : bool).

Definition run_endpoint (headers : HeaderMap) (e : Endpoint) : http Response :=
  match e with
  | EpHealth => health
  | EpReady => ready_handler headers
  | EpStatus => status_handler headers
  | EpCreateEnter target body => create_enter headers target body
  | EpPollEnter request_id => poll_enter headers request_id
  | EpCommitEnter request_id body => commit_enter headers request_id body
  | EpCancelEnter request_id body => cancel_enter headers request_id body
  | EpRenewEnter request_id body => renew_enter headers request_id body
  | EpReadiness host body => update_readiness headers host body
  | EpManualRecovery target => arm_manual_recovery headers target
  | EpMultiView enabled => multiview headers enabled
  end.

(** [router]: every route but [/health] lies behind [authenticate]. *)
Definition authenticate (headers : HeaderMap) (next : http Response) : http Response :=
  match authorize headers controller_token with Some error => mret error | None => next end.
Definition router (headers : HeaderMap) (e : Endpoint) : http Response :=
  match e with
  | EpHealth => run_endpoint headers e
  | _ => authenticate headers (run_endpoint headers e)
  end.
End handlers.

(** * What the HTTP interface lets through

    Only a request with the configured token reaches the coordinator, and what
    it submits is bounded and fits its route. *)

(** ** Authorization *)

Lemma zip_differences (l r : list byte) : forall acc,
  length l = length r ->
  foldl (fun difference '(l, r) => N.lor difference (N.lxor (Byte.to_N l) (Byte.to_N r))) acc (zip l r) = 0%N
  <-> acc = 0%N /\ l = r.
Proof.
  revert r. induction l as [|a l IH]; intros [|b r] acc Hl; try done; cbn.
  - tauto.
  - rewrite IH by (cbn in Hl; lia). rewrite N.lor_eq_0_iff, N.lxor_eq_0_iff. split.
    + intros [[-> Hab] ->]. split; [done|]. f_equal. apply (f_equal Byte.of_N) in Hab.
      rewrite !Byte.of_to_N in Hab. by injection Hab.
    + intros [-> [= -> ->]]. done.
Qed.

Lemma constant_time_eq_spec (l r : list byte) : constant_time_eq l r = true <-> l = r.
Proof.
  unfold constant_time_eq. destruct (Nat.eqb_spec (length l) (length r)) as [Hl|Hl]; cbn [negb].
  - rewrite N.eqb_eq, zip_differences by done. tauto.
  - split; [done|]. by intros ->.
Qed.

Lemma strip_prefix_Some prefix l rest : strip_prefix prefix l = Some rest <-> l = prefix ++ rest.
Proof.
  revert l. induction prefix as [|p prefix IH]; intros l; cbn.
  - split; [by intros [= ->]|by intros ->].
  - destruct l as [|b l]; [done|]. destruct (Byte.eqb p b) eqn:Hb.
    + apply Byte.byte_dec_bl in Hb as ->. rewrite IH. split; [by intros ->|by intros [= ->]].
    + split; [done|]. intros [= -> _]. by rewrite (Byte.byte_dec_lb eq_refl) in Hb.
Qed.

(** The one header that authorizes. *)
Definition bearer (token : string) : list byte := BEARER ++ String.list_byte_of_string token.

Lemma authorize_spec headers token :
  authorize headers token = None
  <-> header_get "authorization" headers = Some (bearer token) /\ forallb visible (bearer token) = true.
Proof.
  unfold authorize, to_str. destruct (header_get "authorization" headers) as [value|]; cbv beta iota delta [mbind option_bind].
  2:{ by split; [|intros []]. }
  destruct (forallb visible value) eqn:Hv; cbv beta iota delta [mbind option_bind].
  - destruct (strip_prefix BEARER value) as [rest|] eqn:Hs.
    + apply strip_prefix_Some in Hs as ->. destruct (constant_time_eq rest (String.list_byte_of_string token)) eqn:Hc.
      * apply constant_time_eq_spec in Hc as ->. by split.
      * split; [done|]. intros [[= Hr] _]. apply constant_time_eq_spec in Hr. congruence.
    + split; [done|]. intros [[= ->] _]. assert (strip_prefix BEARER (bearer token) = Some (String.list_byte_of_string token))
        by by apply strip_prefix_Some. congruence.
  - split; [done|]. intros [[= ->] H]. congruence.
Qed.

Lemma authorize_refusal headers token e : authorize headers token = Some e -> e = api_error UNAUTHORIZED "unauthorized" "missing or invalid bearer token".
Proof. unfold authorize. by case_match; intros [=]. Qed.

(** ** What is submitted *)

(** A handle that remembers the events submitted through it. *)
Definition Submitted (W : Type) : Type := W * list (bool * Event).
#[global] Instance submitted_handle {W} {H : CoordinatorHandle W} : CoordinatorHandle (Submitted W) := {
  ch_now_ms '(w, log) := let '(n, w) := ch_now_ms w in (n, (w, log));
  ch_snapshot '(w, _) := ch_snapshot w;
  ch_request safety e '(w, log) := let '(r, w) := ch_request safety e w in (r, (w, log ++ [(safety, e)]));
  ch_queue_snapshot '(w, _) := ch_queue_snapshot w;
  ch_metrics '(w, _) := ch_metrics w }.

(** What a route may submit: the queue and the event. *)
Definition permitted (max_lease_ms : N) (ep : Endpoint) (submitted : bool * Event) : Prop :=
  match ep, submitted with
  | EpCreateEnter target (inl b), (false, CreateEnter rid client host lease) =>
      Host_from_str target = inr host /\ rid = ce_request_id b /\ client = ce_client_id b
      /\ rid <> "" /\ client <> "" /\ lease_id lease = ce_lease_id b /\ lease_id lease <> ""
      /\ (0 < lease_epoch lease /\ 0 < peer_session_epoch lease)%N
      /\ (0 < ce_lease_ttl_ms b <= max_lease_ms)%N
      /\ exists now, lease_expires_at_ms lease = sat_add now (ce_lease_ttl_ms b)
  | EpCommitEnter rid (inl b), (false, Commit rid' req grant lid lepoch) =>
      rid' = rid /\ req = cr_request_epoch b /\ grant = cr_grant_epoch b /\ lid = cr_lease_id b /\ lepoch = cr_lease_epoch b
      /\ (0 < req /\ 0 < grant /\ 0 < lepoch)%N /\ lid <> ""
  | EpCancelEnter rid (inl b), (true, Cancel rid' reason) => rid' = rid /\ reason = cc_reason b /\ reason <> ""
  | EpRenewEnter rid (inl b), (true, Renew rid' lid lepoch psession) =>
      rid' = rid /\ lid = rw_lease_id b /\ lepoch = rw_lease_epoch b /\ psession = rw_peer_session_epoch b
      /\ lid <> "" /\ (0 < lepoch /\ 0 < psession)%N
  | EpReadiness host (inl b), (true, PeerReadinessUpdated h r) =>
      Host_from_str host = inr h /\ online r = rd_online b /\ keyboard_ready r = rd_keyboard_ready b
      /\ pointer_ready r = rd_pointer_ready b /\ session_epoch r = rd_session_epoch b
  | EpManualRecovery target, (true, ArmManualRecovery h) => Host_from_str target = inr h
  | EpMultiView enabled, (true, MultiViewRequested enabled') => enabled' = enabled
  | _, _ => False
  end.

Section handlers.
Context {W : Type} {H : CoordinatorHandle W}.
Variables (token : string) (max_lease_ms : N) (headers : HeaderMap).

(** A program submits at most one event, and one the predicate allows. *)
Definition submits {A} (P : bool * Event -> Prop) (m : http (W:=Submitted W) A) : Prop :=
  forall w log, exists new, snd (snd (m (w, log))) = log ++ new /\ length new <= 1 /\ Forall P new.
(** It submits nothing. *)
Definition submits_nothing {A} (m : http (W:=Submitted W) A) : Prop :=
  forall w log, snd (snd (m (w, log))) = log.

Lemma silent_submits {A} P (m : http A) : submits_nothing m -> submits P m.
Proof. intros Hm w log. exists []. rewrite Hm, app_nil_r. split; [done|]. split; [cbn; lia|constructor]. Qed.

Lemma silent_ret {A} (a : A) : submits_nothing (mret a).
Proof. by intros w log. Qed.
Lemma silent_now {A} (k : N -> http A) : (forall n, submits_nothing (k n)) -> submits_nothing (n ← now_ms; k n).
Proof. intros Hk w log. unfold now_ms, mbind, http_bind. cbn. destruct (ch_now_ms w) as [n w']. apply Hk. Qed.
Lemma silent_snapshot {A} (k : ProtocolState -> http A) : (forall s, submits_nothing (k s)) -> submits_nothing (s ← snapshot; k s).
Proof. intros Hk w log. apply Hk. Qed.

Lemma submits_now {A} P (k : N -> http A) : (forall n, submits P (k n)) -> submits P (n ← now_ms; k n).
Proof. intros Hk w log. unfold now_ms, mbind, http_bind. cbn. destruct (ch_now_ms w) as [n w']. apply Hk. Qed.
Lemma submits_request {A} (P : bool * Event -> Prop) safety e (k : ProtocolState + CoordinatorError -> http A) :
  P (safety, e) -> (forall r, submits_nothing (k r)) -> submits P (r ← apply_request safety e; k r).
Proof.
  intros He Hk w log. unfold apply_request, mbind, http_bind. cbn. destruct (ch_request safety e w) as [r w'].
  exists [(safety, e)]. rewrite Hk. split; [done|]. split; [cbn; lia|by repeat constructor].
Qed.
End handlers.

Create HintDb http discriminated.
#[export] Hint Resolve silent_ret silent_now silent_snapshot silent_submits submits_now submits_request : http.

Section router.
Context {W : Type} {H : CoordinatorHandle W}.
Variables (token : string) (max_lease_ms : N) (headers : HeaderMap).

Lemma authorized_submits P (k : http (W:=Submitted W) Response) : submits P k -> submits P (authorized token headers k).
Proof. intros Hk. unfold authorized. destruct (authorize headers token); auto with http. Qed.

Lemma answer_silent rid r : submits_nothing (W:=W) (answer_request rid r).
Proof. destruct r; cbn [answer_request]; auto with http. Qed.
#[local] Hint Resolve authorized_submits answer_silent : http.

Lemma empty_false s : empty s = false -> s <> "".
Proof. unfold empty. by case_bool_decide. Qed.

Ltac refuse := apply silent_submits, silent_ret.
Ltac split_guards :=
  repeat match goal with
         | Hg : _ || _ = false |- _ => apply orb_false_iff in Hg as [? ?]
         | Hg : empty _ = false |- _ => apply empty_false in Hg
         | Hg : (_ =? 0)%N = false |- _ => apply N.eqb_neq in Hg
         | Hg : (_ <? _)%N = false |- _ => apply N.ltb_ge in Hg
         end.

Lemma create_enter_submits target body :
  submits (permitted max_lease_ms (EpCreateEnter target body)) (create_enter (W:=Submitted W) token max_lease_ms headers target body).
Proof.
  apply authorized_submits. destruct body as [b|]; cbn [with_body]; [|refuse].
  unfold with_host. destruct (Host_from_str target) as [|host] eqn:Hh; [refuse|].
  destruct (_ || _) eqn:Hg; [refuse|]. split_guards.
  apply submits_now. intros n. apply submits_request; [|auto with http].
  cbn. repeat split; try done; try lia. by exists n.
Qed.

Lemma commit_enter_submits rid body :
  submits (permitted max_lease_ms (EpCommitEnter rid body)) (commit_enter (W:=Submitted W) token headers rid body).
Proof.
  apply authorized_submits. destruct body as [b|]; cbn [with_body]; [|refuse].
  destruct (_ || _) eqn:Hg; [refuse|]. split_guards.
  apply submits_request; [|auto with http]. cbn. repeat split; try done; lia.
Qed.

Lemma renew_enter_submits rid body :
  submits (permitted max_lease_ms (EpRenewEnter rid body)) (renew_enter (W:=Submitted W) token headers rid body).
Proof.
  apply authorized_submits. destruct body as [b|]; cbn [with_body]; [|refuse].
  destruct (_ || _) eqn:Hg; [refuse|]. split_guards.
  apply submits_request; [|intros [s|e]; auto with http]. cbn. repeat split; try done; lia.
Qed.

Lemma endpoint_submits ep :
  submits (permitted max_lease_ms ep) (run_endpoint (W:=Submitted W) token max_lease_ms headers ep).
Proof.
  destruct ep as [| | |target body|rid|rid body|rid body|rid body|host body|target|enabled]; cbn [run_endpoint].
  - refuse.
  - apply authorized_submits, silent_submits. auto with http.
  - apply authorized_submits, silent_submits. apply silent_now. intros n. apply silent_snapshot. intros s. by intros w log.
  - apply create_enter_submits.
  - apply authorized_submits, silent_submits. auto with http.
  - apply commit_enter_submits.
  - apply authorized_submits. destruct body as [b|]; cbn [with_body]; [|refuse].
    destruct (empty (cc_reason b)) eqn:Hg; [refuse|]. apply empty_false in Hg.
    apply submits_request; [done|auto with http].
  - apply renew_enter_submits.
  - apply authorized_submits. destruct body as [b|]; cbn [with_body]; [|refuse].
    unfold with_host. destruct (Host_from_str host) as [|h] eqn:Hh; [refuse|].
    apply submits_now. intros n. apply submits_request; [done|]. intros [s|e]; auto with http.
  - apply authorized_submits. unfold with_host. destruct (Host_from_str target) as [|h] eqn:Hh; [refuse|].
    apply submits_request; [done|]. intros [s|e]; auto with http.
  - apply authorized_submits, submits_request; [done|]. intros [s|e]; auto with http.
Qed.
End router.

(** C15: Every route but the health check is closed to a request whose first
    authorization header is not exactly [Bearer ] and the token: it is answered
    401 and the coordinator is not touched.  A request that is let through
    submits at most one event, to the queue and of the kind of its route, with
    the identities of its path and body, none of them empty or zero, and with a
    lease of at most the configured length. *)
Theorem http_submissions {W} {H : CoordinatorHandle W} token max_lease_ms headers ep (w : W) log :
  (header_get "authorization" headers <> Some (bearer token) -> ep <> EpHealth ->
   router token max_lease_ms headers ep (w, log)
   = (api_error UNAUTHORIZED "unauthorized" "missing or invalid bearer token", (w, log)))
  /\ exists new, snd (snd (router token max_lease_ms headers ep (w, log))) = log ++ new
     /\ length new <= 1 /\ Forall (permitted max_lease_ms ep) new.
Proof.
  assert (submits (permitted max_lease_ms ep) (router (W:=Submitted W) token max_lease_ms headers ep)) as Hs.
  { pose proof (endpoint_submits (W:=W) token max_lease_ms headers ep) as He.
    unfold router, authenticate. destruct ep; try exact He;
      (destruct (authorize headers token); [apply silent_submits, silent_ret|exact He]). }
  split; [|apply Hs]. intros Hh Hep. unfold router, authenticate.
  destruct (authorize headers token) as [e|] eqn:Ha.
  - apply authorize_refusal in Ha as ->. by destruct ep.
  - by apply authorize_spec in Ha as [Ha _].
Qed.
