(* ===== verification/HttpAgreement.v ===== *)
(** * Client and controller agree

    The switch client of lan-mouse (switch.rs) and the controller meet over
    HTTP.  When the client takes a commit or a renewal as granted, the
    controller has given it both inputs, and for at least as long as the client
    believes.  The coordinator behind the handle is seen through what it
    promises; JSON is seen through the agreement of both sides on the fields. *)

From stdpp Require Import base tactics list gmap sets strings.
From Stdlib Require Import NArith ZArith Lia Strings.Byte.
From S2P Require Import Prelude Channels Domain Protocol ProtocolFacts ProtocolFrame ProtocolSafety TvCoordinator TvConfig SwitchGate SwitchClient HttpApi.

(** ** What the coordinator promises *)

(** An event takes the coordinator from [s0] to [s]. *)
Definition event_applied (t : ProtocolTiming) (s0 : ProtocolState) (e : Event) (now : N) (s : ProtocolState) : Prop :=
  exists tr C (M : Mpsc C) (x x' : EffectSenders (C:=C)),
    apply s0 e now t = Ret tr /\ dispatch_effects (effects tr) now t (next tr) x = Ret (s, x').

(** An event that the coordinator accepted: the state it was applied to, the
    event, the time, and the state after its effects were dispatched. *)
Record Applied := mkApplied {
  ap_before : ProtocolState;
  ap_event : Event;
  ap_now : N;
  ap_after : ProtocolState }.

(** The coordinator's clock does not go back and [cp_log], the events it has
    accepted so far, only grows.  An answered event was applied while the
    request was under way: its entry was added to the log, and the answer is
    the state after it. *)
Class CoordinatorPromise (t : ProtocolTiming) (W : Type) {H : CoordinatorHandle W} := {
  cp_clock : W -> N;
  cp_log : W -> list Applied;
  cp_now w : (cp_clock w <= fst (ch_now_ms w))%N /\ cp_clock (snd (ch_now_ms w)) = fst (ch_now_ms w)
    /\ exists l, cp_log (snd (ch_now_ms w)) = cp_log w ++ l;
  cp_answered safety e w s w' : ch_request safety e w = (inl s, w') ->
    exists a l l', cp_log w' = cp_log w ++ l ++ a :: l'
      /\ ap_event a = e /\ ap_after a = s /\ (cp_clock w <= ap_now a <= cp_clock w')%N
      /\ event_applied t (ap_before a) e (ap_now a) s }.

(** ** A coordinator that answers at once *)

(** Its task is idle, takes an event as soon as it is submitted, and reads a
    clock that advances with every reading. *)
Record Direct := mkDirect {
  dr_state : ProtocolState;
  dr_clock : N;
  dr_effects : EffectSenders (C:=ListChan);
  dr_log : list Applied }.

Section direct.
Variable t : ProtocolTiming.
Definition direct_request (e : Event) (w : Direct) : (ProtocolState + CoordinatorError) * Direct :=
  let now := (dr_clock w + 1)%N in
  let unchanged := mkDirect (dr_state w) now (dr_effects w) (dr_log w) in
  match apply (dr_state w) e now t with
  | Ret tr =>
      match dispatch_effects (effects tr) now t (next tr) (dr_effects w) with
      | Ret (s, x) => (inl s, mkDirect s now x (dr_log w ++ [mkApplied (dr_state w) e now s]))
      | _ => (inr CClosed, unchanged)
      end
  | Throw error => (inr (CProtocol error), unchanged)
  | Panic _ => (inr CClosed, unchanged)
  end.

#[global] Instance direct_handle : CoordinatorHandle Direct := {
  ch_now_ms w := ((dr_clock w + 1)%N, mkDirect (dr_state w) (dr_clock w + 1) (dr_effects w) (dr_log w));
  ch_snapshot := dr_state;
  ch_request _ := direct_request;
  ch_queue_snapshot w :=
    mkQueues (mkQueueSnapshot 0 16) (mkQueueSnapshot 0 16) (gauge_snapshot (te_queue (es_ordinary (dr_effects w))))
      (gauge_snapshot (te_queue (es_safety (dr_effects w))));
  ch_metrics _ := metrics_snapshot RuntimeMetrics_new }.

#[global] Program Instance direct_promise : CoordinatorPromise t Direct := {
  cp_clock := dr_clock; cp_log := dr_log }.
Next Obligation. intros w. cbn. split; [lia|]. split; [done|]. exists []. by rewrite app_nil_r. Qed.
Next Obligation.
  intros safety e w s w'. cbn. unfold direct_request.
  destruct (apply (dr_state w) e (dr_clock w + 1) t) as [tr|err|] eqn:Ha; [|done..].
  destruct (dispatch_effects _ _ _ _ _) as [[s1 x1]|err|] eqn:Hd; [|done..]. intros [= -> <-].
  exists (mkApplied (dr_state w) e (dr_clock w + 1) s), [], []. cbn. do 3 (split; [done|]). split; [lia|].
  by exists tr, ListChan, _, (dr_effects w), x1.
Qed.
End direct.

(** ** The client's side *)

(** The bodies of [SwitchControllerClient::prepare], [commit] and [renew]. *)
Definition create_body (local_host : Host) (lease_ttl_ms : N) (context : GateContext) : CreateEnterRequest :=
  mkCreateEnter (SwitchHost_to_string local_host) (gl_request_id (gc_lease context)) (gl_lease_id (gc_lease context))
    (gl_lease_epoch (gc_lease context)) (gl_peer_session_epoch (gc_lease context)) lease_ttl_ms.
Definition commit_body (context : GateContext) (grant : GateGrantIdentity) : CommitRequest :=
  mkCommitRequest (gg_request_epoch grant) (gg_grant_epoch grant) (gl_lease_id (gc_lease context))
    (gl_lease_epoch (gc_lease context)).
Definition renew_body (context : GateContext) : RenewRequest :=
  mkRenewRequest (gl_lease_id (gc_lease context)) (gl_lease_epoch (gc_lease context))
    (gl_peer_session_epoch (gc_lease context)).

(** The headers [bearer_auth] adds. *)
Definition bearer_auth (token : string) : HeaderMap := [("authorization", bearer token)].

(** What the client's types keep of the controller's. *)
Definition remote_status (s : RequestStatus) : RemoteRequestStatus :=
  match s with
  | StWaking => RWaking | StSwitching => RSwitching | StGrant => RGrant | StCommitted => RCommitted
  | StDenied => RDenied | StCancelled => RCancelled | StFallback => RFallback | StExpired => RExpired
  end.
Definition remote_request (r : EnterRequest) : RemoteEnterRequest :=
  mkRemoteEnter (er_request_id r) (er_target r) (er_request_epoch r)
    (mkRemoteLease (lease_id (er_lease r)) (lease_epoch (er_lease r)) (peer_session_epoch (er_lease r))
       (lease_expires_at_ms (er_lease r)))
    (remote_status (er_status r))
    ((fun g => mkRemoteGrant (gr_grant_epoch g) (gr_expires_at_ms g)) <$> er_grant r) (er_reason r).
Definition remote_envelope {A B} (f : A -> B) (e : HttpApi.ApiEnvelope A) : SwitchClient.ApiEnvelope B :=
  mkEnvelope (av_protocol_version e) (av_server_now_ms e) (f (av_data e)).
Definition remote_renew (phase_text : ProtocolPhase -> string) (r : HttpApi.RenewResponse) : SwitchClient.RenewResponse :=
  mkRenewResponse (rv_renewed r) (rv_renewed_until_ms r) (phase_text (rv_phase r)).

(** The bytes that arrive are the body of the response: what the client decodes
    from them as its type has the fields of what the controller sent. *)
Definition delivered {A B J} (wrap : HttpApi.ApiEnvelope A -> Body) (f : A -> B)
  (parse : list byte -> SwitchClient.ApiEnvelope B + J) (body : Body) (bytes : list byte) : Prop :=
  forall e, parse bytes = inl e -> exists x, body = wrap x /\ e = remote_envelope f x.

(** ** What a commit and a renewal do *)

(** Effects of the safety queue, or none, leave the state alone. *)
Lemma dispatch_fallback {C} {M : Mpsc C} restore s0 now t s (x : EffectSenders (C:=C)) r :
  dispatch_effects (fallback_effects restore s0) now t s x = Ret r -> fst r = s.
Proof.
  unfold fallback_effects. case_match; cbn; [|by intros [= <-]].
  destruct (tracked_try_send _ _). cbn. by intros [= <-].
Qed.

(** The owned session after a commit. *)
Definition owns (s : ProtocolState) (r : EnterRequest) (until : N) : Prop :=
  keyboard_owner s = er_target r /\ pointer_owner s = er_target r
  /\ (er_target r <> server_host s ->
      exists a, active_session s = Some a /\ as_request_id a = er_request_id r /\ as_target a = er_target r
        /\ as_lease a = er_lease r /\ as_renewed_until_ms a = until).

Lemma commit_applied t s0 rid req_epoch grant_ep lid lepoch now s r :
  event_applied t s0 (Commit rid req_epoch grant_ep lid lepoch) now s ->
  find_last (is_committed rid) (request_history s0) = None ->
  request s rid = Some r -> er_status r = StCommitted ->
  owns s r (sat_add now (lease_ms t)) /\ lease_expires_at_ms (er_lease r) = sat_add now (lease_ms t).
Proof.
  intros (tr & C & M & x & x' & Ha & Hd) Hn Hr Hs. cbn [apply] in Ha. unfold on_commit in Ha. rewrite Hn in Ha.
  apply exec_bind_Ret in Ha as (q & Hq%ok_or_Ret & Ha). apply exec_bind_Ret in Ha as (g & Hg%ok_or_Ret & Ha).
  revert Ha. case_match eqn:Hid; [done|]. norm_bool. subst rid.
  case_match eqn:Hp.
  - intros [_ ->]%validated_Ret. exfalso. cbn [next effects] in Hd.
    destruct (begin_fallback_spec now t "readiness_lost_before_commit" s0 []) as [[] He].
    rewrite He in Hd. apply dispatch_fallback in Hd. cbn [fst] in Hd. subst s.
    unfold request in Hr. rewrite fb_request in Hr.
    pose proof (begin_fallback_archives now t "readiness_lost_before_commit" s0 [] q Hq) as Har.
    unfold archived_request in Har. rewrite Har in Hr. injection Hr as <-. done.
  - unfold commit_ownership. intros (epoch & _ & Hv)%exec_bind_Ret.
    apply validated_Ret in Hv as [_ ->]. cbn in Hd. injection Hd as <- <-.
    revert Hr. unfold request, archive_request. fields.
    destruct (bool_decide (er_target q = server_host s0)) eqn:Hsrv; fields; rewrite find_last_snoc;
      unfold has_id; fields; rewrite bool_decide_eq_true_2 by done; intros [= <-]; unfold owns; fields; norm_bool;
      (split; [|done]); repeat (split; [done|]); intros ?; first [done|by eexists].
Qed.

Lemma renew_applied t s0 rid lid lepoch psession now s :
  event_applied t s0 (Renew rid lid lepoch psession) now s -> is_Some (active_session s) ->
  exists a0 a, active_session s0 = Some a0 /\ active_session s = Some a
    /\ as_request_id a = rid /\ as_target a = as_target a0
    /\ lease_id (as_lease a) = lid /\ lease_epoch (as_lease a) = lepoch /\ peer_session_epoch (as_lease a) = psession
    /\ as_renewed_until_ms a = sat_add now (lease_ms t)
    /\ keyboard_owner s = keyboard_owner s0 /\ pointer_owner s = pointer_owner s0.
Proof.
  intros (tr & C & M & x & x' & Ha & Hd) [a Hs]. cbn [apply] in Ha. unfold on_renew in Ha.
  destruct (renewal_valid s0 rid lid lepoch psession) eqn:Hv; cbn [negb] in Ha.
  - apply exec_bind_Ret in Ha as (a0 & Ha0 & Hval). apply validated_Ret in Hval as [_ ->].
    cbn in Hd. injection Hd as <- <-. unfold renewal_valid in Hv.
    destruct (active_session s0) as [a1|]; [|done]. injection Ha0 as ->. norm_bool.
    injection Hs as <-. eexists _, _. split; [done|]. split; [reflexivity|]. fields. by repeat split.
  - apply validated_Ret in Ha as [_ ->]. exfalso. cbn [next effects] in Hd.
    destruct (begin_active_session_failure_fallback_spec now t "lease_renewal_rejected" s0 []) as (restore & [] & He).
    rewrite He in Hd. apply dispatch_fallback in Hd. cbn [fst] in Hd. subst s. congruence.
Qed.

(** ** Agreement *)

Section agreement.
Context (t : ProtocolTiming) {W : Type} {H : CoordinatorHandle W} {P : CoordinatorPromise t W}.
Context {ReqError JsonError : Type}.
Variables (token : string) (max_lease_ms : N).

Lemma decode_Ret {A} (parse : list byte -> SwitchClient.ApiEnvelope A + JsonError) parse_error status
  (chunks : list (list byte)) e :
  decode (ReqError:=ReqError) parse parse_error status (map inl chunks) = Ret e -> parse (concat chunks) = inl e.
Proof.
  unfold decode. intros (body & Hb & He)%exec_bind_Ret.
  assert (forall cs acc body, collect_body (JsonError:=JsonError) (ReqError:=ReqError) (map inl cs) acc = Ret body ->
            body = acc ++ concat cs) as Hc.
  { induction cs as [|c cs IH]; intros acc bd; cbn.
    - intros [= ->]. by rewrite app_nil_r.
    - destruct (MAX_RESPONSE_BYTES <? _)%N; [done|]. intros ->%IH. by rewrite <- app_assoc. }
  apply Hc in Hb as ->. cbn [app] in He. repeat case_match; try done. by injection He as ->.
Qed.

(** A commit whose answer is a request was answered by the coordinator. *)
Lemma commit_route headers rid b w resp w' x :
  router (W:=W) token max_lease_ms headers (EpCommitEnter rid (inl b)) w = (resp, w') -> rsp_body resp = BRequest x ->
  exists s w1, ch_request false (Commit rid (cr_request_epoch b) (cr_grant_epoch b) (cr_lease_id b) (cr_lease_epoch b)) w
               = (inl s, w1) /\ w' = snd (ch_now_ms w1)
    /\ av_server_now_ms x = fst (ch_now_ms w1) /\ request s rid = Some (av_data x).
Proof.
  cbn [router]. unfold authenticate. destruct (authorize headers token) as [e|] eqn:Ha.
  { apply authorize_refusal in Ha as ->. by intros [= <- <-]. }
  cbn [run_endpoint]. unfold commit_enter, authorized. rewrite Ha. cbn [with_body].
  destruct (_ || _); [by intros [= <- <-]|].
  unfold apply_request, mbind, http_bind. destruct (ch_request _ _ w) as [[s|error] w1] eqn:Hr; cbn [answer_request].
  2:{ intros [= <- <-]. by destruct error as [| |[]]. }
  unfold now_ms, mbind, http_bind. destruct (ch_now_ms w1) as [n w2] eqn:Hn.
  intros [= <- <-] Hb. exists s, w1. split; [done|]. rewrite Hn. split; [done|]. revert Hb. unfold request_response.
  destruct (request s rid) as [r|]; [|done]. by intros [= <-].
Qed.

Lemma renew_route headers rid b w resp w' x :
  router (W:=W) token max_lease_ms headers (EpRenewEnter rid (inl b)) w = (resp, w') -> rsp_body resp = BRenew x ->
  exists s w1, ch_request true (Renew rid (rw_lease_id b) (rw_lease_epoch b) (rw_peer_session_epoch b)) w = (inl s, w1)
    /\ w' = snd (ch_now_ms w1) /\ av_server_now_ms x = fst (ch_now_ms w1)
    /\ av_data x = mkRenew (bool_decide (is_Some (active_session s))) (as_renewed_until_ms <$> active_session s) (phase s).
Proof.
  cbn [router]. unfold authenticate. destruct (authorize headers token) as [e|] eqn:Ha.
  { apply authorize_refusal in Ha as ->. by intros [= <- <-]. }
  cbn [run_endpoint]. unfold renew_enter, authorized. rewrite Ha. cbn [with_body].
  destruct (_ || _); [by intros [= <- <-]|].
  unfold apply_request, mbind, http_bind. destruct (ch_request _ _ w) as [[s|error] w1] eqn:Hr.
  2:{ intros [= <- <-]. by destruct error as [| |[]]. }
  unfold now_ms. destruct (ch_now_ms w1) as [n w2] eqn:Hn. intros [= <- <-] [= <-].
  exists s, w1. rewrite Hn. done.
Qed.

(** What the answer of a request leaves in the log, until the clock is read for
    the response. *)
Lemma answered_between safety e w s w1 : ch_request safety e w = (inl s, w1) ->
  exists a l l', cp_log (snd (ch_now_ms w1)) = cp_log w ++ l ++ a :: l'
    /\ ap_event a = e /\ ap_after a = s /\ (cp_clock w <= ap_now a <= fst (ch_now_ms w1))%N
    /\ event_applied t (ap_before a) e (ap_now a) s.
Proof.
  intros (a & l & l' & Hl & He & Hs & [? ?] & Ha)%(cp_answered (t:=t)).
  destruct (cp_now (t:=t) w1) as (? & _ & l2 & Hl2).
  exists a, l, (l' ++ l2). split; [|repeat (split; [done || lia|]); done].
  rewrite Hl2, Hl. by rewrite <- !app_assoc.
Qed.

(** One exchange of the client, started at [started]. *)
Definition exchanged (parse : list byte -> SwitchClient.ApiEnvelope RemoteEnterRequest + JsonError) parse_error
  (started status : N) (chunks : list (list byte)) : exchange (ReqError:=ReqError) (JsonError:=JsonError) :=
  let* e := decode parse parse_error status (map inl chunks) in Ret (mkTimed started e).

Lemma commit_answer_Ret context parse parse_error started status chunks D :
  commit_answer context (exchanged parse parse_error started status chunks) = Ret D ->
  exists e, parse (concat chunks) = inl e
    /\ rr_request_id (en_data e) = gl_request_id (gc_lease context) /\ rr_target (en_data e) = gc_target context
    /\ rr_status (en_data e) = RCommitted
    /\ (en_server_now_ms e < rl_expires_at_ms (rr_lease (en_data e)))%N
    /\ D = (started + (rl_expires_at_ms (rr_lease (en_data e)) - en_server_now_ms e))%N.
Proof.
  unfold commit_answer, exchanged. intros (r & (e & He%decode_Ret & [= <-])%exec_bind_Ret & Hr)%exec_bind_Ret.
  exists e. split; [exact He|]. cbn [te_envelope te_started_ms] in Hr.
  apply exec_bind_Ret in Hr as (u & Hv & Hr). unfold validate_request, guard_not in Hv.
  revert Hv. destruct (_ || _) eqn:Hid in |- *; [done|]. intros ?. norm_bool.
  revert Hr. case_bool_decide as Hs; cbn [negb]; [|done]. intros [Hlt ->]%local_deadline_Ret. done.
Qed.
End agreement.

(** C14: when the client takes its commit as granted, with a deadline of [D] on
    its own clock, the response carries a request of the client's target, and
    among the events that the coordinator accepted between the arrival of the
    commit and its answer is this very commit, after which the controller
    holds that request.  Unless the request had been committed before, both
    inputs then belong to the target, for a remote target in a session with
    the identity of the request that lasts at least as long after the moment
    of the commit as the client believes after it started to ask. *)
Theorem commit_agreement (t : ProtocolTiming) {W} {H : CoordinatorHandle W} {P : CoordinatorPromise t W}
  {ReqError JsonError : Type} token max_lease_ms headers context grant w resp w' chunks
  (parse : list byte -> SwitchClient.ApiEnvelope RemoteEnterRequest + JsonError) parse_error started D :
  router token max_lease_ms headers (EpCommitEnter (gl_request_id (gc_lease context)) (inl (commit_body context grant))) w
    = (resp, w') ->
  delivered BRequest remote_request parse (rsp_body resp) (concat chunks) ->
  commit_answer context (exchanged (ReqError:=ReqError) parse parse_error started (rsp_status resp) chunks) = Ret D ->
  exists x a l l',
    rsp_body resp = BRequest x /\ er_target (av_data x) = gc_target context
    /\ cp_log w' = cp_log w ++ l ++ a :: l'
    /\ ap_event a = Commit (gl_request_id (gc_lease context)) (gg_request_epoch grant) (gg_grant_epoch grant)
                      (gl_lease_id (gc_lease context)) (gl_lease_epoch (gc_lease context))
    /\ event_applied t (ap_before a) (ap_event a) (ap_now a) (ap_after a)
    /\ (cp_clock w <= ap_now a <= av_server_now_ms x)%N
    /\ request (ap_after a) (gl_request_id (gc_lease context)) = Some (av_data x)
    /\ (find_last (is_committed (gl_request_id (gc_lease context))) (request_history (ap_before a)) = None ->
        owns (ap_after a) (av_data x) (sat_add (ap_now a) (lease_ms t))
        /\ (D <= started + (sat_add (ap_now a) (lease_ms t) - ap_now a))%N).
Proof.
  intros Hroute Hdel (e & Hparse & Hid & Htarget & Hstatus & Hlt & ->)%commit_answer_Ret.
  destruct (Hdel e Hparse) as (x & Hbody & ->). cbn in Hid, Htarget, Hstatus, Hlt |- *.
  destruct (commit_route _ _ _ _ _ _ _ _ _ Hroute Hbody) as (s & w1 & Hreq & -> & Hnow & Hr).
  destruct (answered_between t _ _ _ _ _ Hreq) as (a & l & l' & Hl & He & <- & Hc & Happ).
  exists x, a, l, l'. rewrite He, Hnow. do 7 (split; [done|]).
  intros Hnone. assert (er_status (av_data x) = StCommitted) as Hs by (destruct (er_status (av_data x)); done).
  destruct (commit_applied _ _ _ _ _ _ _ _ _ _ Happ Hnone Hr Hs) as [Hown Hexp].
  split; [exact Hown|]. rewrite Hexp, Hnow in *. lia.
Qed.

(** When the client takes a renewal as granted, the controller has extended
    the session of that very request and lease while the request was under way,
    for at least as long after that moment as the client believes after it
    started to ask, and the inputs stayed where they were. *)
Theorem renew_agreement (t : ProtocolTiming) {W} {H : CoordinatorHandle W} {P : CoordinatorPromise t W}
  {ReqError JsonError : Type} token max_lease_ms headers context w resp w' chunks phase_text
  (parse : list byte -> SwitchClient.ApiEnvelope SwitchClient.RenewResponse + JsonError) parse_error started e D :
  router token max_lease_ms headers (EpRenewEnter (gl_request_id (gc_lease context)) (inl (renew_body context))) w
    = (resp, w') ->
  delivered BRenew (remote_renew phase_text) parse (rsp_body resp) (concat chunks) ->
  decode (ReqError:=ReqError) parse parse_error (rsp_status resp) (map inl chunks) = Ret e ->
  renew_answer (ReqError:=ReqError) (JsonError:=JsonError) started e = Ret D ->
  exists ap l l' a0 a, cp_log w' = cp_log w ++ l ++ ap :: l'
    /\ ap_event ap = Renew (gl_request_id (gc_lease context)) (gl_lease_id (gc_lease context))
                       (gl_lease_epoch (gc_lease context)) (gl_peer_session_epoch (gc_lease context))
    /\ event_applied t (ap_before ap) (ap_event ap) (ap_now ap) (ap_after ap)
    /\ (cp_clock w <= ap_now ap)%N
    /\ active_session (ap_before ap) = Some a0 /\ active_session (ap_after ap) = Some a
    /\ as_request_id a = gl_request_id (gc_lease context) /\ as_target a = as_target a0
    /\ lease_id (as_lease a) = gl_lease_id (gc_lease context)
    /\ keyboard_owner (ap_after ap) = keyboard_owner (ap_before ap)
    /\ pointer_owner (ap_after ap) = pointer_owner (ap_before ap)
    /\ as_renewed_until_ms a = sat_add (ap_now ap) (lease_ms t)
    /\ (D <= started + (as_renewed_until_ms a - ap_now ap))%N.
Proof.
  intros Hroute Hdel Hdec%decode_Ret Hans. destruct (Hdel e Hdec) as (x & Hbody & ->).
  destruct (renew_route _ _ _ _ _ _ _ _ _ Hroute Hbody) as (s & w1 & Hreq & -> & Hnow & Hx).
  destruct (answered_between t _ _ _ _ _ Hreq) as (ap & l & l' & Hl & He & <- & [Hc1 Hc2] & Happ).
  revert Hans. unfold renew_answer, remote_envelope, remote_renew. rewrite Hx. cbn. case_bool_decide as Hs; [|done].
  intros (until & Hu%ok_or_Ret & [Hlt ->]%local_deadline_Ret)%exec_bind_Ret.
  destruct (renew_applied _ _ _ _ _ _ _ _ Happ Hs) as (a0 & a & H0 & Ha & ? & ? & ? & ? & ? & Hun & ? & ?).
  rewrite Ha in Hu. injection Hu as <-.
  exists ap, l, l', a0, a. rewrite He. repeat (split; [done|]). lia.
Qed.

(** ** Examples *)

Definition demo_direct : Direct :=
  mkDirect demo_granted 400
    (mkSenders (mkTracked (mkChan [] 4 false false) (QueueGauge_new 4))
               (mkTracked (mkChan [] 4 false false) (QueueGauge_new 4))) [].
Definition demo_context : GateContext := mkGateContext 1 Left (mkGateLease "req-1" "lease-1" 1 7 20000).
Definition demo_grant : GateGrantIdentity := mkGateGrant 1 1 5300.
Definition demo_route (e : Endpoint) : Response * Direct :=
  @router Direct (direct_handle demo_timing) "token" 15000 (bearer_auth "token") e demo_direct.

(** An unauthorized request, and one that reserves a lease. *)
Lemma http_submissions_witness :
  @router _ (@submitted_handle _ (direct_handle demo_timing)) "token" 15000 [] (EpMultiView true) (demo_direct, [])
  = (api_error UNAUTHORIZED "unauthorized" "missing or invalid bearer token", (demo_direct, [])).
Proof.
  exact (proj1 (@http_submissions _ (direct_handle demo_timing) "token" 15000 [] (EpMultiView true) demo_direct [])
           ltac:(discriminate) ltac:(discriminate)).
Defined.

(** The commit of the demo, as its client sees it. *)
Definition demo_commit_answer : Response * Direct := demo_route (EpCommitEnter "req-1" (inl (commit_body demo_context demo_grant))).
Definition demo_parse (bytes : list byte) : SwitchClient.ApiEnvelope RemoteEnterRequest + unit :=
  match rsp_body (fst demo_commit_answer) with
  | BRequest x => inl (remote_envelope remote_request x)
  | _ => inr tt
  end.

Lemma commit_agreement_witness :
  exists a, dr_log (snd demo_commit_answer) = [a] /\ ap_event a = demo_commit
    /\ (find_last (is_committed "req-1") (request_history (ap_before a)) = None ->
        keyboard_owner (ap_after a) = Left).
Proof.
  destruct (@commit_agreement demo_timing Direct (direct_handle demo_timing) (direct_promise demo_timing) unit unit "token" 15000 (bearer_auth "token") demo_context demo_grant
    demo_direct (fst demo_commit_answer) (snd demo_commit_answer) [] demo_parse (fun _ => inr tt) 1000 15999)
    as (x & a & l & l' & _ & Ht & Hl & He & _ & _ & _ & Ho).
  - apply surjective_pairing.
  - intros e. unfold demo_parse. destruct (rsp_body (fst demo_commit_answer)); try done. intros [= <-]. by eexists.
  - vm_compute. reflexivity.
  - exists a. split; [|split; [exact He|]].
    + change (dr_log (snd demo_commit_answer) = [] ++ l ++ a :: l') in Hl.
      assert (length (dr_log (snd demo_commit_answer)) = 1) as Hn by (vm_compute; reflexivity).
      rewrite Hl in Hn |- *. cbn [app] in Hn |- *. rewrite length_app in Hn. cbn in Hn.
      destruct l; [|cbn in Hn; lia]. destruct l'; [reflexivity|cbn in Hn; lia].
    + intros Hnone. destruct (Ho Hnone) as [(Hk & _) _]. rewrite Hk. exact Ht.
Defined.

(** The first renewal after that commit. *)
Definition demo_renewing : Direct := mkDirect demo_owned 500 (dr_effects demo_direct) [].
Definition demo_renewal : Response * Direct :=
  @router Direct (direct_handle demo_timing) "token" 15000 (bearer_auth "token")
    (EpRenewEnter "req-1" (inl (renew_body demo_context))) demo_renewing.
Definition demo_parse_renewal (bytes : list byte) : SwitchClient.ApiEnvelope SwitchClient.RenewResponse + unit :=
  match rsp_body (fst demo_renewal) with
  | BRenew x => inl (remote_envelope (remote_renew (fun _ => "remote_owned")) x)
  | _ => inr tt
  end.

Lemma renew_agreement_witness :
  exists ap a, ap ∈ dr_log (snd demo_renewal) /\ ap_event ap = Renew "req-1" "lease-1" 1 7
    /\ active_session (ap_after ap) = Some a /\ as_renewed_until_ms a = sat_add (ap_now ap) 15000.
Proof.
  destruct (@renew_agreement demo_timing Direct (direct_handle demo_timing) (direct_promise demo_timing) unit unit
    "token" 15000 (bearer_auth "token") demo_context demo_renewing (fst demo_renewal) (snd demo_renewal) []
    (fun _ => "remote_owned") demo_parse_renewal (fun _ => inr tt) 1000 (mkEnvelope 2 502 (mkRenewResponse true (Some 15501%N) "remote_owned")) 15999)
    as (ap & l & l' & a0 & a & Hl & He & _ & _ & _ & Ha & _ & _ & _ & _ & _ & Hu & _).
  - apply surjective_pairing.
  - intros e. unfold demo_parse_renewal. destruct (rsp_body (fst demo_renewal)); try done. intros [= <-]. by eexists.
  - vm_compute. reflexivity.
  - vm_compute. reflexivity.
  - exists ap, a. split; [|split; [exact He|split; [exact Ha|exact Hu]]].
    change (cp_log (snd demo_renewal)) with (dr_log (snd demo_renewal)) in Hl. rewrite Hl.
    apply elem_of_app. right. apply elem_of_app. right. left.
Defined.
