(* ===== verification/SsapCodec.v ===== *)
(** * Messages of the television (tv-multiview ssap/codec.rs, ssap/key_store.rs)

    JSON values, the requests the controller sends and what it reads from the
    answers; the stored client key; and the address of a wake-up packet. *)

From stdpp Require Import base tactics list gmap sets strings.
From Stdlib Require Import NArith ZArith Lia Strings.Byte Strings.Ascii.
From S2P Require Import Prelude Bytes Domain Protocol TvConfig.

(** [serde_json::Value]; a number is kept as its text, which is only copied. *)
Inductive Value :=
| JNull
| JBool (b : bool)
| JNumber (text : string)
| JString (s : string)
| JArray (l : list Value)
| JObject (fields : list (string * Value)).

(** [Value::get] with a key, [as_str], [as_bool], [as_array] *)
Definition get (key : string) (v : Value) : option Value :=
  match v with
  | JObject fields => snd <$> List.find (fun '(k, _) => bool_decide (k = key)) fields
  | _ => None
  end.
Definition as_str (v : Value) : option string := match v with JString s => Some s | _ => None end.
Definition as_bool (v : Value) : option bool := match v with JBool b => Some b | _ => None end.
Definition as_array (v : Value) : option (list Value) := match v with JArray l => Some l | _ => None end.

(** ** Texts *)

(** [str::eq_ignore_ascii_case] *)
Definition eq_ignore_ascii_case (a b : string) : bool :=
  bool_decide (to_ascii_lowercase a = to_ascii_lowercase b).
(** [replace('_', "")] *)
Fixpoint remove_char (x : ascii) (s : string) : string :=
  match s with
  | String c s => if Ascii.eqb c x then remove_char x s else String c (remove_char x s)
  | EmptyString => EmptyString
  end.

(** ** Requests *)

Definition GET_CURRENT_APP : string := "com.webos.applicationManager/getForegroundAppInfo".
Definition GET_INPUTS : string := "tv/getExternalInputList".
Definition SET_INPUT : string := "tv/switchInput".
Definition CREATE_ALERT : string := "system.notifications/createAlert".
Definition CLOSE_ALERT : string := "system.notifications/closeAlert".
Definition CURRENT_APP_SUBSCRIPTION_ID : string := "subscribe-current-app".

Definition SIGNATURE : string :=
  "eyJhbGdvcml0aG0iOiJSU0EtU0hBMjU2Iiwia2V5SWQiOiJ0ZXN0LXNpZ25pbm" ++
  "ctY2VydCIsInNpZ25hdHVyZVZlcnNpb24iOjF9.hrVRgjCwXVvE2OOSpDZ58hR" ++
  "+59aFNwYDyjQgKk3auukd7pcegmE2CzPCa0bJ0ZsRAcKkCTJrWo5iDzNhMBWRy" ++
  "aMOv5zWSrthlf7G128qvIlpMT0YNY+n/FaOHE73uLrS/g7swl3/qH/BGFG2Hu4" ++
  "RlL48eb3lLKqTt2xKHdCs6Cd4RMfJPYnzgvI4BNrFUKsjkcu+WD4OO2A27Pq1n" ++
  "50cMchmcaXadJhGrOqH5YmHdOCj5NSHzJYrsW0HPlpuAx/ECMeIZYDh6RMqaFM" ++
  "2DXzdKX9NmmyqzJ3o/0lkk/N97gfVRLW5hA29yeAwaCViZNCP8iC9aO0q9fQoj" ++
  "oa7NQnAtw==".

(** [manifest] *)
Definition manifest : Value := JObject [
  ("appVersion", JString "1.1");
  ("manifestVersion", JNumber "1");
  ("permissions", JArray (map JString [
     "LAUNCH"; "LAUNCH_WEBAPP"; "APP_TO_APP"; "CLOSE"; "TEST_OPEN";
     "TEST_PROTECTED"; "CONTROL_AUDIO"; "CONTROL_DISPLAY";
     "CONTROL_INPUT_JOYSTICK"; "CONTROL_INPUT_MEDIA_RECORDING";
     "CONTROL_INPUT_MEDIA_PLAYBACK"; "CONTROL_INPUT_TV"; "CONTROL_POWER";
     "CONTROL_TV_SCREEN"; "READ_APP_STATUS"; "READ_CURRENT_CHANNEL";
     "READ_INPUT_DEVICE_LIST"; "READ_NETWORK_STATE"; "READ_RUNNING_APPS";
     "READ_TV_CHANNEL_LIST"; "WRITE_NOTIFICATION_TOAST"; "READ_POWER_STATE";
     "READ_COUNTRY_INFO"; "CONTROL_INPUT_TEXT"; "CONTROL_MOUSE_AND_KEYBOARD";
     "READ_INSTALLED_APPS"; "READ_SETTINGS"; "READ_STORAGE_DEVICE_LIST"]));
  ("signatures", JArray [JObject [("signature", JString SIGNATURE); ("signatureVersion", JNumber "1")]]);
  ("signed", JObject [
     ("appId", JString "com.lge.test");
     ("created", JString "20140509");
     ("localizedAppNames", JObject [("", JString "LG Remote App")]);
     ("localizedVendorNames", JObject [("", JString "LG Electronics")]);
     ("permissions", JArray (map JString [
        "TEST_SECURE"; "CONTROL_INPUT_TEXT"; "CONTROL_MOUSE_AND_KEYBOARD";
        "READ_INSTALLED_APPS"; "READ_LGE_SDX"; "READ_NOTIFICATIONS"; "SEARCH";
        "WRITE_SETTINGS"; "WRITE_NOTIFICATION_ALERT"; "CONTROL_POWER";
        "READ_CURRENT_CHANNEL"; "READ_RUNNING_APPS"; "READ_UPDATE_INFO";
        "UPDATE_FROM_REMOTE_APP"; "READ_LGE_TV_INPUT_EVENTS"; "READ_TV_CURRENT_TIME"]));
     ("serial", JString "2f930e2d2cfe083771f68e4fe7bb07");
     ("vendorId", JString "com.lge")])].

(** [registration] *)
Definition registration (client_key : string) : Value := JObject [
  ("type", JString "register");
  ("id", JString "register-0");
  ("payload", JObject [
     ("client-key", JString client_key);
     ("forcePairing", JBool false);
     ("pairingType", JString "PROMPT");
     ("manifest", manifest)])].

(** [request] *)
Definition codec_request (id uri : string) (payload : Value) : Value := JObject [
  ("id", JString id); ("type", JString "request"); ("uri", JString ("ssap://" ++ uri)); ("payload", payload)].

(** [subscription] *)
Definition subscription : Value := JObject [
  ("id", JString CURRENT_APP_SUBSCRIPTION_ID); ("type", JString "subscribe");
  ("uri", JString ("ssap://" ++ GET_CURRENT_APP)); ("payload", JObject [])].

(** ** Answers *)

(** The text of a whole message is its value. *)
Inductive CodecError :=
| MissingPayload
| MissingField (name : string)
| CommandText (text : string)
| CommandMessage (message : Value)
| UnexpectedRegistration (message : Value).

(** [response_id] *)
Definition response_id (message : Value) : option string := get "id" message ≫= as_str.

(** [successful_payload] *)
Definition successful_payload (message : Value) : Value + CodecError :=
  if bool_decide (get "type" message ≫= as_str = Some "error") then
    inr (CommandText (default "unknown SSAP error" (get "error" message ≫= as_str)))
  else
    match get "payload" message with
    | None => inr MissingPayload
    | Some payload =>
        let success :=
          match get "returnValue" payload ≫= as_bool with
          | Some b => Some b
          | None => get "subscribed" payload ≫= as_bool
          end in
        if bool_decide (success = Some false) then inr (CommandMessage message) else inl payload
    end.

(** [registered_client_key] *)
Definition registered_client_key (message : Value) : option string + CodecError :=
  match get "type" message ≫= as_str with
  | Some ty =>
      if bool_decide (ty = "registered") then
        inl ((get "payload" message ≫= get "client-key") ≫= as_str)
      else if bool_decide (ty = "response") then inl None
      else if bool_decide (ty = "error") then inr (CommandMessage message)
      else inr (UnexpectedRegistration message)
  | None => inr (UnexpectedRegistration message)
  end.

Fixpoint find_map {A B} (f : A -> option B) (l : list A) : option B :=
  match l with [] => None | a :: l => match f a with Some b => Some b | None => find_map f l end end.

(** [parse_current_input] *)
Definition expected_app (input_id : string) : string :=
  "com.webos.app." ++ remove_char "_" (to_ascii_lowercase input_id).
Definition parse_current_input (payload : Value) (inputs : gmap Host string) : option Host + CodecError :=
  match get "appId" payload ≫= as_str with
  | None => inr (MissingField "appId")
  | Some app_id =>
      inl (find_map (fun '(host, input_id) =>
        if eq_ignore_ascii_case app_id input_id || eq_ignore_ascii_case app_id (expected_app input_id)
        then Some host else None) (host_iter inputs))
  end.

(** [parse_signals] *)
Definition device_signal (input_id : string) (device : Value) : option bool :=
  (get "id" device ≫= as_str) ≫= fun id =>
  if eq_ignore_ascii_case id input_id then Some (default false (get "hdmiSignalExist" device ≫= as_bool)) else None.
Definition parse_signals (payload : Value) (inputs : gmap Host string) : gmap Host bool + CodecError :=
  match get "devices" payload ≫= as_array with
  | None => inr (MissingField "devices")
  | Some devices => inl ((fun input_id => default false (find_map (device_signal input_id) devices)) <$> inputs)
  end.

(** ** The client key *)

Inductive KeyStoreError :=
| Sqlite | MissingKey | UnsupportedPickle | InvalidPickleLength | KeyUtf8 | EmptyKey.

(** Where a string opcode says its text is. *)
Definition le_number (l : list byte) : N := foldr (fun b n => (Byte.to_N b + 256 * n)%N) 0%N l.
Definition opcode_span (value : list byte) (index : nat) : option (nat * N) :=
  match value !! index with
  | None => None
  | Some opcode =>
      let n := Byte.to_N opcode in
      if (n =? 0x8c)%N then (fun l => ((index + 2)%nat, Byte.to_N l)) <$> value !! (index + 1)%nat
      else if (n =? 0x58)%N then
        if (index + 5 <=? length value)%nat
        then Some ((index + 5)%nat, le_number (take 4 (drop (index + 1) value))) else None
      else if (n =? 0x8d)%N then
        if (index + 9 <=? length value)%nat
        then Some ((index + 9)%nat, le_number (take 8 (drop (index + 1) value))) else None
      else None
  end.

(** [decode_pickled_string]; [usize] is 64 bits wide. *)
Definition decode_pickled_string (value : list byte) : list byte + KeyStoreError :=
  match find_map (opcode_span value) (seq 0 (length value)) with
  | None => inr UnsupportedPickle
  | Some (offset, len) =>
      if (N.of_nat (length value) <? N.of_nat offset + len)%N then inr InvalidPickleLength
      else
        let key := take (N.to_nat len) (drop offset value) in
        if negb (utf8_valid key) then inr KeyUtf8
        else if bool_decide (length key = 0) then inr EmptyKey else inl key
  end.

(** ** Wake-up packets *)

(** [parse_mac]; [None] is [InvalidMacAddress]. *)
Definition parse_mac (mac : string) : option (list N) :=
  let parts := split_at ":" mac in
  if negb (length parts =? 6)%nat then None else mapM u8_from_hex parts.

(** The packet of [send_wake_packet]. *)
Definition wake_packet (bytes : list N) : list N := replicate 6 255%N ++ concat (replicate 16 bytes).
