(* ===== verification/Ssap.v ===== *)
(** * The connection to the television (tv-multiview ssap/transport.rs)

    One task owns the connection: it registers, subscribes, resets the multi
    view, observes, and then executes the effects of the coordinator and passes
    on what the television reports.  The socket is a script of what reads
    yield and of which writes fail; a text or binary message is given as the
    JSON value it parses to, or as the error.  [RDeadline] is a timeout that
    passes before the next message; it is taken by the wait it interrupts.
    The states the coordinator shows are a stream. *)

From stdpp Require Import base tactics list gmap sets strings pretty.
From Stdlib Require Import NArith ZArith Lia Strings.Byte.
From S2P Require Import Prelude Bytes Domain Protocol TvConfig SsapCodec.

(** [ReconnectBackoff] *)
Record ReconnectBackoff := mkBackoff {
  rb_initial_ms : N;
  rb_max_ms : N;
  rb_next_ms : N;
  rb_consecutive_failures : N }.
#[global] Instance ReconnectBackoff_eta : RecordEta ReconnectBackoff := fun b =>
  mkBackoff (rb_initial_ms b) (rb_max_ms b) (rb_next_ms b) (rb_consecutive_failures b).
Definition backoff_new (initial_ms max_ms : N) : ReconnectBackoff := mkBackoff initial_ms max_ms initial_ms 0.
Definition sat_mul (a b : N) : N := N.min (a * b) u64_max.
Definition backoff_failed (b : ReconnectBackoff) : (N * N) * ReconnectBackoff :=
  let delay_ms := rb_next_ms b in
  let b := b <| rb_consecutive_failures := sat_add (rb_consecutive_failures b) 1 |> in
  let b := b <| rb_next_ms := N.min (sat_mul (rb_next_ms b) 2) (rb_max_ms b) |> in
  ((delay_ms, rb_consecutive_failures b), b).
Definition backoff_synchronized (b : ReconnectBackoff) : ReconnectBackoff :=
  b <| rb_next_ms := rb_initial_ms b |> <| rb_consecutive_failures := 0%N |>.

(** [SsapError], without the sources of library errors. *)
Inductive SsapError :=
| ESTls
| ESWebSocket
| ESJson
| ESCodec (e : CodecError)
| ESTimeout (what : string)
| ESClosed
| ESCoordinatorClosed
| ESMissingWakeAddress (h : Host)
| ESInvalidMacAddress
| ESIo.

Definition recoverable_command_error (e : SsapError) : bool :=
  match e with ESCodec _ | ESMissingWakeAddress _ | ESInvalidMacAddress => true | _ => false end.
Definition public_reason (e : SsapError) : string :=
  match e with
  | ESTls => "tls_configuration"
  | ESWebSocket => "websocket_transport"
  | ESJson => "invalid_ssap_json"
  | ESCodec _ => "ssap_command_failed"
  | ESTimeout _ => "ssap_timeout"
  | ESClosed => "ssap_closed"
  | ESCoordinatorClosed => "coordinator_closed"
  | ESMissingWakeAddress _ => "wake_address_missing"
  | ESInvalidMacAddress => "wake_address_invalid"
  | ESIo => "wake_io_failed"
  end.

Inductive Message :=
| MJson (v : option Value)            (* text or binary; [None] is not JSON *)
| MPing
| MPong
| MFrame
| MClose.
Inductive ReadItem := RMessage (m : Message) | RError | REnd | RDeadline.

Inductive SsapOut :=
| SoSent (v : Value)
| SoPong
| SoPing
| SoWake (packet : list N)
| SoNotify (e : Event).

Record Ssap := mkSsap {
  sp_incoming : list ReadItem;
  sp_write_fails : nat -> bool;       (* whether the coming writes fail *)
  sp_closed : bool;                   (* the coordinator is gone *)
  sp_snapshots : nat -> ProtocolState;  (* what the coordinator shows *)
  sp_wake_fails : nat -> bool;        (* whether the coming wake-up packets fail *)
  sp_next_id : N;
  sp_out : list SsapOut }.
#[global] Instance Ssap_eta : RecordEta Ssap := fun s =>
  mkSsap (sp_incoming s) (sp_write_fails s) (sp_closed s) (sp_snapshots s) (sp_wake_fails s) (sp_next_id s) (sp_out s).

Definition ssap (A : Type) : Type := Ssap -> (A + SsapError) * Ssap.
#[global] Instance ssap_ret : MRet ssap := fun A a s => (inl a, s).
#[global] Instance ssap_bind : MBind ssap := fun A B k m s =>
  match m s with (inl a, s) => k a s | (inr e, s) => (inr e, s) end.
Definition fail {A} (e : SsapError) : ssap A := fun s => (inr e, s).
Definition emit (o : SsapOut) : ssap unit := fun s => (inl tt, s <| sp_out := sp_out s ++ [o] |>).
Definition of_codec {A} (r : A + CodecError) : ssap A :=
  match r with inl a => mret a | inr e => fail (ESCodec e) end.

(** [notify_safety], with the error the callers map it to. *)
Definition notify (e : Event) : ssap unit := fun s =>
  if sp_closed s then (inr ESCoordinatorClosed, s) else emit (SoNotify e) s.
(** [coordinator.snapshot()] *)
Definition coordinator_snapshot : ssap ProtocolState := fun s =>
  (inl (sp_snapshots s 0), s <| sp_snapshots := fun n => sp_snapshots s (S n) |>).

(** [write_message] *)
Definition write_message (o : SsapOut) : ssap unit := fun s =>
  let s' := s <| sp_write_fails := fun n => sp_write_fails s (S n) |> in
  if sp_write_fails s 0 then (inr ESWebSocket, s') else emit o s'.
Definition send_json (v : Value) : ssap unit := write_message (SoSent v).

(** [decode_message] *)
Definition decode_message (m : Message) : ssap (option Value) :=
  match m with
  | MJson (Some v) => mret (Some v)
  | MJson None => fail ESJson
  | MPing => write_message SoPong;; mret None
  | MPong | MFrame => mret None
  | MClose => fail ESClosed
  end.

Section session.
Variable config : DaemonConfig.

(** [handle_unsolicited] *)
Definition handle_unsolicited (v : Value) : ssap unit :=
  if bool_decide (response_id v = Some CURRENT_APP_SUBSCRIPTION_ID) then
    payload ← of_codec (successful_payload v);
    s ← coordinator_snapshot;
    input ← of_codec (parse_current_input payload (dc_inputs config));
    notify (SubscriptionObserved (tv_mode s) input)
  else mret tt.

(** The loop of [wait_for_registration] and [wait_for_id], with [receive_json]:
    read until [accept] yields a result or the timeout passes. *)
Fixpoint wait_for {A} (what : string) (accept : Value -> ssap (option A)) (incoming : list ReadItem) : ssap A :=
  match incoming with
  | [] => fail (ESTimeout what)
  | item :: rest => fun s =>
      let s := s <| sp_incoming := rest |> in
      match item with
      | RDeadline => (inr (ESTimeout what), s)
      | REnd => (inr ESClosed, s)
      | RError => (inr ESWebSocket, s)
      | RMessage m =>
          match decode_message m s with
          | (inr e, s) => (inr e, s)
          | (inl None, s) => wait_for what accept rest s
          | (inl (Some v), s) =>
              match accept v s with
              | (inr e, s) => (inr e, s)
              | (inl (Some a), s) => (inl a, s)
              | (inl None, s) => wait_for what accept rest s
              end
          end
      end
  end.

Definition wait_for_registration : ssap unit := fun s =>
  wait_for "registration" (fun v =>
    key ← of_codec (registered_client_key v);
    mret (if bool_decide (is_Some key) then Some tt else None)) (sp_incoming s) s.

Definition wait_for_id (expected_id : string) : ssap Value := fun s =>
  wait_for "response" (fun v =>
    if bool_decide (response_id v = Some expected_id) then mret (Some v)
    else handle_unsolicited v;; mret None) (sp_incoming s) s.

(** [request_payload] *)
Definition request_id (n : N) : string := ("request-" ++ pretty n)%string.
Definition take_id : ssap string := fun s =>
  (inl (request_id (sp_next_id s)), s <| sp_next_id := sat_add (sp_next_id s) 1 |>).
Definition request_payload (uri : string) (payload : Value) : ssap Value :=
  id ← take_id;
  send_json (codec_request id uri payload);;
  response ← wait_for_id id;
  of_codec (successful_payload response).

(** [set_multiview] *)
Definition LUNA_URI : string := "luna://com.webos.settingsservice/setSystemSettings".
Definition multiview_params (enabled : bool) : Value := JObject [
  ("category", JString "commercial");
  ("settings", JObject [("splitscreenEnable", JString (if enabled then "on" else "off"))])].
Definition multiview_alert (enabled : bool) : Value :=
  let params := multiview_params enabled in
  let action := JObject [("uri", JString LUNA_URI); ("params", params)] in
  JObject [("message", JString " ");
           ("buttons", JArray [JObject [("label", JString ""); ("onClick", JString LUNA_URI); ("params", params)]]);
           ("onclose", action); ("onfail", action)].
Definition set_multiview (enabled : bool) : ssap unit :=
  created ← request_payload CREATE_ALERT (multiview_alert enabled);
  alert_id ← match get "alertId" created with Some v => mret v | None => fail (ESCodec (MissingField "alertId")) end;
  request_payload CLOSE_ALERT (JObject [("alertId", alert_id)]);;
  mret tt.

(** [observe] *)
Definition observe : ssap (option Host * gmap Host bool) :=
  current_app ← request_payload GET_CURRENT_APP (JObject []);
  inputs ← request_payload GET_INPUTS (JObject []);
  input ← of_codec (parse_current_input current_app (dc_inputs config));
  signals ← of_codec (parse_signals inputs (dc_inputs config));
  mret (input, signals).

(** [send_wake_packet] *)
Definition send_wake_packet (mac : string) : ssap unit :=
  match parse_mac mac with
  | None => fail ESInvalidMacAddress
  | Some bytes => fun s =>
      let s' := s <| sp_wake_fails := fun n => sp_wake_fails s (S n) |> in
      if sp_wake_fails s 0 then (inr ESIo, s') else emit (SoWake (wake_packet bytes)) s'
  end.

(** The arms of [execute_effect] that report a command: success, an error that
    does not concern the connection, or one that does. *)
Definition reported {A} (epoch : N) (command : ssap A) (success : A -> Event) : ssap unit := fun s =>
  match command s with
  | (inl a, s) => notify (success a) s
  | (inr e, s) =>
      if recoverable_command_error e then notify (CommandFailed epoch (public_reason e)) s else (inr e, s)
  end.

(** [execute_effect] *)
Definition execute_effect (eff : Effect) : ssap unit :=
  match eff with
  | SetInput target epoch _ =>
      match input_for config target with
      | None => notify (CommandFailed epoch ("display_route_missing:" ++ Host_as_str target)%string)
      | Some input_id =>
          reported epoch (request_payload SET_INPUT (JObject [("inputId", JString input_id)]))
            (fun _ => CommandAcknowledged epoch target)
      end
  | Observe epoch =>
      s ← coordinator_snapshot;
      let mode := match pending_multiview s with
                  | Some true => Multiview | Some false => Fullscreen | None => tv_mode s end in
      reported epoch observe (fun '(input, signals) => Observation epoch mode input signals)
  | SetMultiView enabled epoch => reported epoch (set_multiview enabled) (fun _ => MultiViewAcknowledged epoch enabled)
  | Wake target _ =>
      match dc_wake_on_lan config !! target with
      | None => fail (ESMissingWakeAddress target)
      | Some mac => send_wake_packet mac
      end
  end.

(** [let mut next_id = 1u64] *)
Definition first_id : ssap unit := fun s => (inl tt, s <| sp_next_id := 1%N |>).

(** [run_connected_session], up to the loop. *)
Definition start_session (client_key : string) : ssap unit :=
  notify TransportRegistering;;
  send_json (registration client_key);;
  wait_for_registration;;
  send_json subscription;;
  subscribed ← wait_for_id CURRENT_APP_SUBSCRIPTION_ID;
  of_codec (successful_payload subscribed);;
  notify TransportSubscribed;;
  first_id;;
  set_multiview false;;
  coordinator_snapshot;;
  o ← observe;
  notify (TransportSynchronized Fullscreen (fst o) (snd o)).

(** One turn of the loop: [None] ends it, and the number is the time of a ping
    that is not answered yet. *)
Inductive SessionInput :=
| SiSafety (e : option Effect)
| SiRead (item : ReadItem)
| SiOrdinary (e : option Effect)
| SiKeepalive (now : N).

Definition ssap_step (i : SessionInput) (pending : option N) : ssap (option (option N)) :=
  match i with
  | SiSafety None | SiOrdinary None => mret None
  | SiSafety (Some e) | SiOrdinary (Some e) => execute_effect e;; mret (Some None)
  | SiRead item =>
      match item with
      | RError => fail ESWebSocket
      | REnd => fail ESClosed
      | RDeadline => mret (Some pending)
      | RMessage m =>
          v ← decode_message m;
          match v with Some v => handle_unsolicited v | None => mret tt end;;
          mret (Some None)
      end
  | SiKeepalive now =>
      match pending with
      | Some started =>
          if (to_keepalive_timeout_ms (dc_timeouts config) <=? now - started)%N then fail (ESTimeout "keepalive")
          else mret (Some pending)
      | None => write_message SoPing;; mret (Some (Some now))
      end
  end.

Fixpoint session_loop (inputs : list SessionInput) (pending : option N) : ssap bool :=
  match inputs with
  | [] => mret true
  | i :: rest =>
      next ← ssap_step i pending;
      match next with None => mret false | Some pending => session_loop rest pending end
  end.

(** [let _ = notify_safety(..)] *)
Definition notify_ignored (e : Event) (s : Ssap) : Ssap := snd (notify e s).

(** [connect_and_run]: [connected] is the failure of the connection, if any; the
    result also tells whether the loop still runs. *)
Definition connect_and_run (client_key : string) (connected : option SsapError) (inputs : list SessionInput)
  (s : Ssap) (b : ReconnectBackoff) (m : RuntimeMetrics) : (bool + SsapError) * Ssap * ReconnectBackoff * RuntimeMetrics :=
  match connected with
  | Some e => (inr e, s, b, m)
  | None =>
      match start_session client_key s with
      | (inr e, s) => (inr e, s, b, m)
      | (inl _, s) =>
          let '(r, s) := session_loop inputs None s in
          (r, s, backoff_synchronized b, record_synchronized m)
      end
  end.

(** One round of the loop of [run]: the delay before the next one, or [None]
    when it has returned or its session still runs. *)
Definition run_round (client_key : string) (connected : option SsapError) (inputs : list SessionInput)
  (s : Ssap) (b : ReconnectBackoff) (m : RuntimeMetrics) : option N * Ssap * ReconnectBackoff * RuntimeMetrics :=
  let s := notify_ignored TransportConnecting s in
  let '(r, s, b, m) := connect_and_run client_key connected inputs s b m in
  match r with
  | inl _ => (None, s, b, m)
  | inr e =>
      let '((retry_ms, consecutive_failures), b) := backoff_failed b in
      let m := record_reconnect_failure consecutive_failures retry_ms
                 (N.of_nat (li_reconnect_alert_after (dc_limits config))) m in
      (Some retry_ms, notify_ignored (TransportDisconnected (public_reason e)) s, b, m)
  end.

(** The start of [run]: without a client key the task ends. *)
Definition run_start (key : list byte + KeyStoreError) (s : Ssap) : option (list byte) * Ssap :=
  match key with
  | inl client_key => (Some client_key, s)
  | inr _ => (None, notify_ignored (TransportDisconnected "client_key_unavailable") s)
  end.
End session.
