(* ===== verification/SsapTheorems.v ===== *)
(** * What the connection to the television reports

    Every effect is answered exactly once with its own epoch or ends the
    session; an acknowledgement is backed by an answer of the television to
    that very request; the phases of a session are announced in order. *)

From stdpp Require Import base tactics list gmap sets strings pretty.
From Stdlib Require Import NArith ZArith Lia Strings.Byte.
From S2P Require Import Prelude Bytes Domain Protocol TvConfig SsapCodec Ssap.

(** ** Traces *)

(** What a program reads from the script and what it sends, with the result. *)
Definition post (A : Type) : Type := A + SsapError -> list ReadItem -> list SsapOut -> Prop.

Definition sspec {A} (m : ssap A) (Q : post A) : Prop := forall s, exists used new,
  sp_incoming s = used ++ sp_incoming (snd (m s)) /\ sp_out (snd (m s)) = sp_out s ++ new /\ Q (fst (m s)) used new.

Lemma sspec_weaken {A} (m : ssap A) (Q R : post A) :
  sspec m Q -> (forall r used new, Q r used new -> R r used new) -> sspec m R.
Proof. intros Hm HQ s. destruct (Hm s) as (used & new & ? & ? & ?). exists used, new. auto. Qed.

Lemma sspec_still {A} (m : ssap A) r (Q : post A) :
  (forall s, m s = (r, s)) -> Q r [] [] -> sspec m Q.
Proof. intros Hm HQ s. exists [], []. rewrite Hm. cbn. by rewrite app_nil_r. Qed.

Lemma sspec_ret {A} (a : A) (Q : post A) : Q (inl a) [] [] -> sspec (mret a) Q.
Proof. by apply sspec_still. Qed.
Lemma sspec_fail {A} e (Q : post A) : Q (inr e) [] [] -> sspec (fail e) Q.
Proof. by apply sspec_still. Qed.

Lemma sspec_bind {A B} (m : ssap A) (k : A -> ssap B) (Q : post A) (R : post B) :
  sspec m Q ->
  (forall e used new, Q (inr e) used new -> R (inr e) used new) ->
  (forall a used new, Q (inl a) used new -> sspec (k a) (fun r used' new' => R r (used ++ used') (new ++ new'))) ->
  sspec (m ≫= k) R.
Proof.
  intros Hm He Hk s. destruct (Hm s) as (used & new & H1 & H2 & HQ).
  unfold mbind, ssap_bind. destruct (m s) as [[a|e] s1]; cbn [fst snd] in *.
  - destruct (Hk a used new HQ s1) as (used' & new' & H3 & H4 & HR).
    exists (used ++ used'), (new ++ new'). rewrite H1, H3, H4, H2, <- !app_assoc. done.
  - exists used, new. auto.
Qed.

(** ** Programs that announce only subscriptions *)

Definition subscription_only (o : SsapOut) : Prop :=
  match o with SoNotify (SubscriptionObserved _ _) => True | SoNotify _ => False | _ => True end.

Definition calm {A} (m : ssap A) : Prop := sspec m (fun _ _ new => Forall subscription_only new).

Lemma ssap_calm_ret {A} (a : A) : calm (mret a).
Proof. by apply sspec_ret. Qed.
Lemma calm_fail {A} e : calm (fail (A:=A) e).
Proof. by apply sspec_fail. Qed.
Lemma ssap_calm_bind {A B} (m : ssap A) (k : A -> ssap B) : calm m -> (forall a, calm (k a)) -> calm (m ≫= k).
Proof.
  intros Hm Hk. eapply sspec_bind; [exact Hm|done|]. intros a used new Hn.
  eapply sspec_weaken; [apply Hk|]. intros r u n Hn'. by apply Forall_app.
Qed.
Lemma calm_codec {A} (r : A + CodecError) : calm (of_codec r).
Proof. destruct r; [apply ssap_calm_ret|apply calm_fail]. Qed.
Lemma ssap_calm_emit o : subscription_only o -> calm (emit o).
Proof. intros Ho s. exists [], [o]. cbn. split; [done|]. split; [done|]. by constructor. Qed.
Lemma calm_write o : subscription_only o -> calm (write_message o).
Proof.
  intros Ho s. unfold write_message. destruct (sp_write_fails s 0).
  - exists [], []. cbn. by rewrite app_nil_r.
  - exists [], [o]. cbn. split; [done|]. split; [done|]. by constructor.
Qed.
Lemma calm_notify mode input : calm (notify (SubscriptionObserved mode input)).
Proof.
  intros s. unfold notify. destruct (sp_closed s).
  - exists [], []. cbn. by rewrite app_nil_r.
  - by apply ssap_calm_emit.
Qed.
Lemma calm_snapshot : calm coordinator_snapshot.
Proof. intros s. exists [], []. cbn. by rewrite app_nil_r. Qed.
Lemma calm_take_id : calm take_id.
Proof. intros s. exists [], []. cbn. by rewrite app_nil_r. Qed.
Lemma calm_first_id : calm first_id.
Proof. intros s. exists [], []. cbn. by rewrite app_nil_r. Qed.
Lemma calm_decode m : calm (decode_message m).
Proof.
  destruct m as [[v|]| | | |]; cbn [decode_message]; try apply ssap_calm_ret; try apply calm_fail.
  apply ssap_calm_bind; [by apply calm_write|intros; apply ssap_calm_ret].
Qed.

(** Decoding reads nothing more. *)
Lemma decode_spec m : sspec (decode_message m) (fun r used new =>
  used = [] /\ Forall subscription_only new /\ forall v, r = inl (Some v) -> m = MJson (Some v)).
Proof.
  intros s. destruct m as [[v|]| | | |]; cbn.
  - exists [], []. rewrite app_nil_r. repeat split; try done. by intros v' [= ->].
  - exists [], []. by rewrite app_nil_r.
  - unfold mbind, ssap_bind, write_message. destruct (sp_write_fails s 0); cbn.
    + exists [], []. by rewrite app_nil_r.
    + exists [], [SoPong]. repeat split; try done. by constructor.
  - exists [], []. by rewrite app_nil_r.
  - exists [], []. by rewrite app_nil_r.
  - exists [], []. by rewrite app_nil_r.
Qed.

Create HintDb ssap discriminated.
#[export] Hint Resolve ssap_calm_ret calm_fail ssap_calm_bind calm_codec calm_write calm_notify calm_snapshot calm_take_id calm_first_id
  calm_decode : ssap.
#[export] Hint Extern 1 (subscription_only _) => exact I : ssap.

Section session.
Variable config : DaemonConfig.

Lemma calm_unsolicited v : calm (handle_unsolicited config v).
Proof. unfold handle_unsolicited. case_bool_decide; auto 6 with ssap. Qed.
Hint Resolve calm_unsolicited : ssap.

(** ** Waiting *)

(** A wait reads up to the message that it accepts. *)
Lemma wait_for_spec {A} what (accept : Value -> ssap (option A)) (P : A -> list ReadItem -> Prop) :
  (forall v, sspec (accept v) (fun r used new => Forall subscription_only new /\ used = []
     /\ forall a, r = inl (Some a) -> P a [RMessage (MJson (Some v))])) ->
  (forall a item used, P a used -> P a (item :: used)) ->
  forall incoming s, sp_incoming s = incoming ->
  exists used new, incoming = used ++ sp_incoming (snd (wait_for what accept incoming s))
    /\ sp_out (snd (wait_for what accept incoming s)) = sp_out s ++ new
    /\ Forall subscription_only new
    /\ forall a, fst (wait_for what accept incoming s) = inl a -> P a used.
Proof.
  intros Hacc Hcons. induction incoming as [|item incoming IH]; intros s Hs; cbn [wait_for].
  { exists [], []. cbn. rewrite Hs, app_nil_r. done. }
  destruct item as [m| | |]; try (exists [RError], []; cbn; by rewrite app_nil_r);
    try (exists [REnd], []; cbn; by rewrite app_nil_r); try (exists [RDeadline], []; cbn; by rewrite app_nil_r).
  destruct (decode_spec m (s <| sp_incoming := incoming |>)) as (u0 & n0 & Hi0 & Ho0 & -> & Hn0 & Hv).
  cbn [app] in Hi0. cbn in Hi0, Ho0.
  destruct (decode_message m (s <| sp_incoming := incoming |>)) as [[[v|]|e] s1]; cbn [fst snd] in *.
  - rewrite (Hv v eq_refl) in *. destruct (Hacc v s1) as (u1 & n1 & Hi1 & Ho1 & Hn1 & -> & Ha).
    cbn [app] in Hi1. destruct (accept v s1) as [[[a|]|e] s2]; cbn [fst snd] in *.
    + exists [RMessage (MJson (Some v))], (n0 ++ n1). rewrite Ho1, Ho0, <- app_assoc. cbn.
      split; [congruence|]. split; [done|]. split; [by apply Forall_app|]. intros a' [= <-]. by apply Ha.
    + destruct (IH s2 ltac:(congruence)) as (u2 & n2 & Hi2 & Ho2 & Hn2 & Hp).
      exists (RMessage (MJson (Some v)) :: u2), (n0 ++ n1 ++ n2). rewrite Ho2, Ho1, Ho0, <- !app_assoc. cbn.
      split; [by f_equal|]. split; [done|]. split; [by rewrite !Forall_app|]. intros a Ha'. by apply Hcons, Hp.
    + exists [RMessage (MJson (Some v))], (n0 ++ n1). rewrite Ho1, Ho0, <- app_assoc. cbn.
      split; [congruence|]. split; [done|]. split; [by apply Forall_app|]. done.
  - destruct (IH s1 ltac:(congruence)) as (u2 & n2 & Hi2 & Ho2 & Hn2 & Hp).
    exists (RMessage m :: u2), (n0 ++ n2). rewrite Ho2, Ho0, <- !app_assoc. cbn.
    split; [by f_equal|]. split; [done|]. split; [by apply Forall_app|]. intros a Ha'. by apply Hcons, Hp.
  - exists [RMessage m], n0. cbn. split; [congruence|]. done.
Qed.

(** A program that reads nothing itself. *)
Definition unread {A} (m : ssap A) : Prop := sspec m (fun _ used new => used = [] /\ Forall subscription_only new).

Lemma unread_bind {A B} (m : ssap A) (k : A -> ssap B) : unread m -> (forall a, unread (k a)) -> unread (m ≫= k).
Proof.
  intros Hm Hk. eapply sspec_bind; [exact Hm|done|]. intros a used new [-> Hn].
  eapply sspec_weaken; [apply Hk|]. intros r u n [-> Hn']. split; [done|]. by apply Forall_app.
Qed.
Lemma unread_unsolicited v : unread (handle_unsolicited config v).
Proof.
  assert (forall A (r : A + CodecError), unread (of_codec r)) as Hc.
  { intros A [a|e]; [by apply sspec_ret|by apply sspec_fail]. }
  unfold handle_unsolicited. case_bool_decide; [|by apply sspec_ret].
  apply unread_bind; [apply Hc|intros payload]. apply unread_bind.
  { intros s. exists [], []. cbn. by rewrite app_nil_r. }
  intros st. apply unread_bind; [apply Hc|intros input].
  intros s. unfold notify. destruct (sp_closed s); cbn.
  - exists [], []. by rewrite app_nil_r.
  - exists [], [SoNotify (SubscriptionObserved (tv_mode st) input)]. repeat split. by constructor.
Qed.

(** The television has answered the request [id] with [v]. *)
Definition answered (id : string) (v : Value) (used : list ReadItem) : Prop :=
  response_id v = Some id /\ RMessage (MJson (Some v)) ∈ used.

Lemma wait_for_id_spec id : sspec (wait_for_id config id) (fun r used new =>
  Forall subscription_only new /\ forall v, r = inl v -> answered id v used).
Proof.
  intros s. unfold wait_for_id.
  match goal with |- context [wait_for ?what ?accept (sp_incoming s) s] =>
    destruct (wait_for_spec what accept (fun v used => answered id v used)) with (incoming := sp_incoming s) (s := s)
      as (used & new & H1 & H2 & H3 & H4) end.
  - intros v. case_bool_decide as Hid.
    + apply sspec_ret. split; [done|]. split; [done|]. intros a [= <-]. split; [done|set_solver].
    + eapply sspec_bind; [apply unread_unsolicited|by intros e u n [-> Hn]|].
      intros [] u n [-> Hn]. apply sspec_ret. rewrite !app_nil_r. done.
  - intros a item used [Ha Hin]. split; [done|set_solver].
  - done.
  - by exists used, new.
Qed.

(** ** Requests *)

(** A successful request was sent under an id that the television answered. *)
Definition granted (uri : string) (payload result : Value) (used : list ReadItem) (new : list SsapOut) : Prop :=
  exists id v, SoSent (codec_request id uri payload) ∈ new /\ answered id v used /\ successful_payload v = inl result.

Lemma send_json_spec v : sspec (send_json v) (fun r used new =>
  used = [] /\ (forall e, r = inr e -> new = []) /\ (r = inl tt -> new = [SoSent v])).
Proof.
  intros s. unfold send_json, write_message. destruct (sp_write_fails s 0); cbn.
  - exists [], []. by rewrite app_nil_r.
  - by exists [], [SoSent v].
Qed.

Lemma request_payload_spec uri payload : sspec (request_payload config uri payload) (fun r used new =>
  Forall subscription_only new /\ forall v, r = inl v -> granted uri payload v used new).
Proof.
  unfold request_payload.
  apply (sspec_bind _ _ (fun r used new => new = [] /\ used = [])); [|by intros e u n [-> ->]|].
  { intros s. exists [], []. cbn. by rewrite app_nil_r. }
  intros id u n [-> ->]. cbn [app]. eapply sspec_bind; [apply send_json_spec|by intros e u n (-> & Hn & _); rewrite (Hn e eq_refl)|].
  intros [] u n (-> & _ & Hn). rewrite (Hn eq_refl). cbn [app].
  eapply sspec_bind; [apply wait_for_id_spec|by intros e u' n' [Hs _]; split; [by constructor|]|].
  intros v u' n' [Hs Hv].
  assert (Forall subscription_only (SoSent (codec_request id uri payload) :: n')) as Hall by by constructor.
  destruct (successful_payload v) as [result|e] eqn:Hp; cbn [of_codec].
  - apply sspec_ret. rewrite !app_nil_r. split; [done|]. intros w [= <-].
    exists id, v. split; [set_solver|]. split; [by apply Hv|done].
  - apply sspec_fail. rewrite !app_nil_r. done.
Qed.

Lemma calm_request uri payload : calm (request_payload config uri payload).
Proof. eapply sspec_weaken; [apply request_payload_spec|]. by intros r used new []. Qed.
Hint Resolve calm_request : ssap.

Lemma calm_registration : calm wait_for_registration.
Proof.
  intros s. unfold wait_for_registration.
  match goal with |- context [wait_for ?what ?accept (sp_incoming s) s] =>
    destruct (wait_for_spec what accept (fun _ _ => True)) with (incoming := sp_incoming s) (s := s)
      as (used & new & H1 & H2 & H3 & H4) end; [|done|done|by exists used, new].
  intros v. eapply (sspec_bind _ _ (fun _ used new => used = [] /\ new = [])).
  - destruct (registered_client_key v); [by apply sspec_ret|by apply sspec_fail].
  - by intros e u n [-> ->].
  - intros key u n [-> ->]. by apply sspec_ret.
Qed.
Hint Resolve calm_registration : ssap.

Lemma granted_app uri payload v u0 n0 u n u1 n1 :
  granted uri payload v u n -> granted uri payload v (u0 ++ u ++ u1) (n0 ++ n ++ n1).
Proof. intros (id & w & H1 & [H2 H3] & H4). exists id, w. repeat split; try done; set_solver. Qed.

(** What stands behind the success of a command. *)
Definition observed (r : option Host * gmap Host bool) (used : list ReadItem) (new : list SsapOut) : Prop :=
  exists app inputs, granted GET_CURRENT_APP (JObject []) app used new /\ granted GET_INPUTS (JObject []) inputs used new
    /\ parse_current_input app (dc_inputs config) = inl (fst r) /\ parse_signals inputs (dc_inputs config) = inl (snd r).
Definition multiview_set (enabled : bool) (used : list ReadItem) (new : list SsapOut) : Prop :=
  exists created alert closed, granted CREATE_ALERT (multiview_alert enabled) created used new
    /\ get "alertId" created = Some alert /\ granted CLOSE_ALERT (JObject [("alertId", alert)]) closed used new.

(** A command announces only subscriptions, and its success is justified. *)
Definition command {A} (m : ssap A) (J : A -> list ReadItem -> list SsapOut -> Prop) : Prop :=
  sspec m (fun r used new => Forall subscription_only new /\ forall a, r = inl a -> J a used new).

Lemma observe_command : command (observe config) observed.
Proof.
  unfold observe. eapply sspec_bind; [apply request_payload_spec|by intros e u n []|].
  intros app u1 n1 [Hs1 H1]. specialize (H1 app eq_refl).
  eapply sspec_bind; [apply request_payload_spec|intros e u n [Hs2 _]; split; [by apply Forall_app|done]|].
  intros inputs u2 n2 [Hs2 H2]. specialize (H2 inputs eq_refl).
  assert (Forall subscription_only (n1 ++ n2)) as Hs by by apply Forall_app.
  destruct (parse_current_input app _) as [input|e1] eqn:Hp1; cbn [of_codec].
  2:{ intros s. exists [], []. cbn. by rewrite !app_nil_r. }
  destruct (parse_signals inputs _) as [signals|e2] eqn:Hp2; cbn [of_codec].
  2:{ intros s. exists [], []. cbn. by rewrite !app_nil_r. }
  intros s. exists [], []. cbn. rewrite !app_nil_r. repeat split; [done|]. intros a [= <-].
  exists app, inputs. split; [by apply (granted_app _ _ _ [] [])|].
  split; [|done]. pose proof (granted_app _ _ _ u1 n1 _ _ [] [] H2) as Hg. by rewrite !app_nil_r in Hg.
Qed.

Lemma set_multiview_command enabled : command (set_multiview config enabled) (fun _ => multiview_set enabled).
Proof.
  unfold set_multiview. eapply sspec_bind; [apply request_payload_spec|by intros e u n []|].
  intros created u1 n1 [Hs1 H1]. specialize (H1 created eq_refl).
  destruct (get "alertId" created) as [alert|] eqn:Ha.
  2:{ intros s. exists [], []. cbn. by rewrite !app_nil_r. }
  intros s. unfold mbind at 1, ssap_bind at 1. cbn [mret ssap_ret].
  revert s. change (sspec (request_payload config CLOSE_ALERT (JObject [("alertId", alert)]);; mret tt)
    (fun r used' new' => Forall subscription_only (n1 ++ new') /\ forall a : unit, r = inl a -> multiview_set enabled (u1 ++ used') (n1 ++ new'))).
  eapply sspec_bind; [apply request_payload_spec|intros e u n [Hs2 _]; split; [by apply Forall_app|done]|].
  intros closed u2 n2 [Hs2 H2]. specialize (H2 closed eq_refl). apply sspec_ret. rewrite !app_nil_r.
  split; [by apply Forall_app|]. intros a ?. exists created, alert, closed.
  split; [by apply (granted_app _ _ _ [] [])|]. split; [done|].
  pose proof (granted_app _ _ _ u1 n1 _ _ [] [] H2) as Hg. by rewrite !app_nil_r in Hg.
Qed.

(** The one notification that ends a reported command. *)
Definition concludes {A} (epoch : N) (success : A -> Event) (J : A -> list ReadItem -> list SsapOut -> Prop)
  (used : list ReadItem) (new : list SsapOut) : Prop :=
  exists pre e, new = pre ++ [SoNotify e] /\ Forall subscription_only pre
    /\ ((exists a, e = success a /\ J a used pre) \/ exists reason, e = CommandFailed epoch reason).

Lemma notify_spec e : sspec (notify e) (fun r used new =>
  used = [] /\ match r with inl _ => new = [SoNotify e] | inr _ => new = [] end).
Proof.
  intros s. unfold notify. destruct (sp_closed s); cbn.
  - exists [], []. by rewrite app_nil_r.
  - by exists [], [SoNotify e].
Qed.

Lemma reported_spec {A} epoch (m : ssap A) success J : command m J ->
  sspec (reported epoch m success) (fun r used new =>
    match r with inl _ => concludes epoch success J used new | inr _ => Forall subscription_only new end).
Proof.
  intros Hm s. unfold reported. destruct (Hm s) as (used & new & H1 & H2 & Hs & HJ).
  assert (forall e s1, sp_incoming s = used ++ sp_incoming s1 -> sp_out s1 = sp_out s ++ new ->
    ((exists a, e = success a /\ J a used new) \/ exists reason, e = CommandFailed epoch reason) ->
    exists used new, sp_incoming s = used ++ sp_incoming (snd (notify e s1)) /\ sp_out (snd (notify e s1)) = sp_out s ++ new
      /\ match fst (notify e s1) with inl _ => concludes epoch success J used new | inr _ => Forall subscription_only new end) as Hn.
  { intros e s1 Hi Ho He. destruct (notify_spec e s1) as (u & n & Hu & Hn & -> & Hr). cbn [app] in Hu.
    exists used, (new ++ n). rewrite Hn, Ho, <- app_assoc, <- Hu. split; [done|]. split; [done|].
    destruct (fst (notify e s1)); subst n; [|by rewrite app_nil_r]. by exists new, e. }
  destruct (m s) as [[a|e] s1]; cbn [fst snd] in *.
  - apply Hn; eauto.
  - destruct (recoverable_command_error e); [apply Hn; eauto|]. by exists used, new.
Qed.
End session.

(** ** The ids of requests *)

(** The messages that were sent. *)
Definition sent (new : list SsapOut) : list Value :=
  omap (fun o => match o with SoSent v => Some v | _ => None end) new.

(** Numbers that increase from [lo] on and stay below [hi]. *)
Fixpoint increasing (lo hi : N) (numbers : list N) : Prop :=
  match numbers with
  | [] => (lo <= hi)%N
  | n :: rest => (lo <= n)%N /\ increasing (n + 1) hi rest
  end.

Lemma increasing_lower lo lo' hi ns : (lo <= lo')%N -> increasing lo' hi ns -> increasing lo hi ns.
Proof. destruct ns; cbn; intros; [lia|]. split; [lia|]. naive_solver. Qed.
Lemma increasing_bounds lo hi ns : increasing lo hi ns -> (lo <= hi)%N.
Proof. revert lo. induction ns as [|n ns IH]; intros lo; cbn; [done|]. intros [? ?%IH]. lia. Qed.
Lemma increasing_app lo mid hi ns ns' :
  increasing lo mid ns -> increasing mid hi ns' -> increasing lo hi (ns ++ ns').
Proof.
  revert lo. induction ns as [|n ns IH]; intros lo; cbn; [apply increasing_lower|].
  intros [? ?] ?. split; [done|]. by apply IH.
Qed.

(** What is sent are requests under the ids of the given numbers. *)
Definition requests_of (numbers : list N) (new : list SsapOut) : Prop :=
  Forall2 (fun n v => exists uri payload, v = codec_request (request_id n) uri payload) numbers (sent new).

(** A program sends requests only, each under the next number of the session. *)
Definition numbered {A} (m : ssap A) : Prop := forall s, exists new numbers,
  sp_out (snd (m s)) = sp_out s ++ new /\ requests_of numbers new
  /\ ((sp_next_id (snd (m s)) < u64_max)%N -> increasing (sp_next_id s) (sp_next_id (snd (m s))) numbers).

Lemma numbered_quiet {A} (m : ssap A) :
  (forall s, sp_next_id (snd (m s)) = sp_next_id s
     /\ exists new, sp_out (snd (m s)) = sp_out s ++ new /\ sent new = []) -> numbered m.
Proof.
  intros Hm s. destruct (Hm s) as (Hn & new & Ho & Hs). exists new, []. rewrite Hn.
  split; [done|]. split; [|intros _; cbn; lia]. unfold requests_of. by rewrite Hs.
Qed.
Lemma numbered_still {A} (m : ssap A) r : (forall s, m s = (r, s)) -> numbered m.
Proof.
  intros Hm. apply numbered_quiet. intros s. rewrite Hm. split; [done|]. exists []. by rewrite app_nil_r.
Qed.
Lemma numbered_ret {A} (a : A) : numbered (mret a).
Proof. by eapply numbered_still. Qed.
Lemma numbered_fail {A} e : numbered (fail (A:=A) e).
Proof. by eapply numbered_still. Qed.
Lemma numbered_codec {A} (r : A + CodecError) : numbered (of_codec r).
Proof. destruct r; [apply numbered_ret|apply numbered_fail]. Qed.
Lemma numbered_notify e : numbered (notify e).
Proof.
  apply numbered_quiet. intros s. unfold notify. destruct (sp_closed s); cbn.
  - split; [done|]. exists []. by rewrite app_nil_r.
  - split; [done|]. by exists [SoNotify e].
Qed.
Lemma numbered_snapshot : numbered coordinator_snapshot.
Proof. apply numbered_quiet. intros s. split; [done|]. exists []. by rewrite app_nil_r. Qed.

Lemma numbered_steps {A B} (m : ssap A) (k : A + SsapError -> ssap B) (f : ssap B) :
  (forall s, f s = k (fst (m s)) (snd (m s))) -> numbered m -> (forall r, numbered (k r)) -> numbered f.
Proof.
  intros Hf Hm Hk s. rewrite Hf. destruct (Hm s) as (n1 & ns1 & Ho1 & Hr1 & Hi1).
  destruct (Hk (fst (m s)) (snd (m s))) as (n2 & ns2 & Ho2 & Hr2 & Hi2).
  exists (n1 ++ n2), (ns1 ++ ns2). split; [by rewrite Ho2, Ho1, app_assoc|].
  split; [unfold requests_of, sent in *; rewrite omap_app; by apply Forall2_app|].
  intros Hlt. specialize (Hi2 Hlt). pose proof (increasing_bounds _ _ _ Hi2).
  eapply increasing_app; [apply Hi1; lia|done].
Qed.
Lemma numbered_bind {A B} (m : ssap A) (k : A -> ssap B) :
  numbered m -> (forall a, numbered (k a)) -> numbered (m ≫= k).
Proof.
  intros Hm Hk.
  apply (numbered_steps m (fun r => match r with inl a => k a | inr e => fail e end)); [|done|].
  - intros s. unfold mbind, ssap_bind. by destruct (m s) as [[a|e] s1].
  - intros [a|e]; [apply Hk|apply numbered_fail].
Qed.
Lemma numbered_decode m : numbered (decode_message m).
Proof.
  destruct m as [[v|]| | | |]; cbn [decode_message]; try apply numbered_ret; try apply numbered_fail.
  apply numbered_bind; [|intros; apply numbered_ret].
  apply numbered_quiet. intros s. unfold write_message. destruct (sp_write_fails s 0); cbn.
  - split; [done|]. exists []. by rewrite app_nil_r.
  - split; [done|]. by exists [SoPong].
Qed.
#[export] Hint Resolve numbered_ret numbered_fail numbered_codec numbered_notify numbered_snapshot
  numbered_bind numbered_decode : ssap.

Section numbers.
Variable config : DaemonConfig.

Lemma numbered_wait {A} what (accept : Value -> ssap (option A)) incoming :
  (forall v, numbered (accept v)) -> numbered (wait_for what accept incoming).
Proof.
  intros Hacc. induction incoming as [|item incoming IH]; cbn [wait_for]; [apply numbered_fail|].
  pose (next := fun s : Ssap => (inl tt : unit + SsapError, s <| sp_incoming := incoming |>)).
  assert (numbered next) as Hnext.
  { apply numbered_quiet. intros s. split; [done|]. exists []. cbn. by rewrite app_nil_r. }
  destruct item as [m| | |];
    [|by eapply (numbered_steps next (fun _ => fail _));
        [intros s; reflexivity|done|intros; apply numbered_fail]..].
  eapply (numbered_steps next (fun _ =>
    v ← decode_message m;
    match v with
    | None => wait_for what accept incoming
    | Some v => a ← accept v; match a with Some a => mret a | None => wait_for what accept incoming end
    end)); [|done|].
  - intros s. unfold mbind, ssap_bind. cbn [next fst snd].
    destruct (decode_message m _) as [[[v|]|e] s1]; [|done..]. by destruct (accept v s1) as [[[a|]|e] s2].
  - intros _. apply numbered_bind; [auto with ssap|]. intros [v|]; [|done].
    apply numbered_bind; [done|]. intros [a|]; auto with ssap.
Qed.

Lemma numbered_unsolicited v : numbered (handle_unsolicited config v).
Proof. unfold handle_unsolicited. case_bool_decide; auto 8 with ssap. Qed.

Lemma numbered_wait_for_id id : numbered (wait_for_id config id).
Proof.
  intros s. unfold wait_for_id. apply numbered_wait. intros v. case_bool_decide; [auto with ssap|].
  apply numbered_bind; [apply numbered_unsolicited|auto with ssap].
Qed.

Lemma numbered_request uri payload : numbered (request_payload config uri payload).
Proof.
  pose (send := id ← take_id; send_json (codec_request id uri payload);; mret id).
  assert (numbered send) as Hsend.
  { intros s. unfold send, send_json, write_message, mbind, ssap_bind, take_id.
    pose proof (sat_add_exact (sp_next_id s) 1) as Hsat.
    assert ((sat_add (sp_next_id s) 1 < u64_max)%N -> (sp_next_id s + 1 <= sat_add (sp_next_id s) 1)%N) as Hle
      by (unfold sat_add; lia).
    cbn. destruct (sp_write_fails s 0); cbn.
    - exists [], []. rewrite app_nil_r. split; [done|]. split; [constructor|]. intros ?%Hle. cbn. lia.
    - exists [SoSent (codec_request (request_id (sp_next_id s)) uri payload)], [sp_next_id s].
      split; [done|]. split; [repeat constructor; by eexists _, _|]. intros ?%Hle. cbn. lia. }
  eapply (numbered_steps send (fun r => match r with
    | inl id => response ← wait_for_id config id; of_codec (successful_payload response)
    | inr e => fail e end)); [|done|].
  - intros s. unfold request_payload, send, mbind, ssap_bind, take_id. cbn.
    by destruct (send_json _ _) as [[[]|e] s1].
  - intros [id|e]; [|apply numbered_fail].
    apply numbered_bind; [apply numbered_wait_for_id|auto with ssap].
Qed.

Lemma numbered_reported {A} epoch (m : ssap A) success : numbered m -> numbered (reported epoch m success).
Proof.
  intros Hm. eapply (numbered_steps m (fun r => match r with
    | inl a => notify (success a)
    | inr e => if recoverable_command_error e then notify (CommandFailed epoch (public_reason e)) else fail e
    end)); [|done|].
  - intros s. unfold reported. destruct (m s) as [[a|e] s1]; [done|]. cbn. by destruct (recoverable_command_error e).
  - intros [a|e]; [|destruct (recoverable_command_error e)]; auto with ssap.
Qed.

Lemma numbered_effect eff : numbered (execute_effect config eff).
Proof.
  destruct eff as [target epoch fb|epoch|target req|enabled epoch]; cbn [execute_effect].
  - destruct (input_for config target); [|auto with ssap]. apply numbered_reported, numbered_request.
  - apply numbered_bind; [auto with ssap|]. intros st. apply numbered_reported. unfold observe.
    do 2 (apply numbered_bind; [apply numbered_request|intros]). auto 8 with ssap.
  - destruct (dc_wake_on_lan config !! target) as [mac|]; [|auto with ssap].
    unfold send_wake_packet. destruct (parse_mac mac) as [bytes|]; [|auto with ssap].
    apply numbered_quiet. intros s. destruct (sp_wake_fails s 0); cbn; (split; [done|]).
    + exists []. by rewrite app_nil_r.
    + by exists [SoWake (wake_packet bytes)].
  - apply numbered_reported. unfold set_multiview.
    apply numbered_bind; [apply numbered_request|]. intros created.
    apply numbered_bind; [destruct (get "alertId" created); auto with ssap|]. intros alert.
    apply numbered_bind; [apply numbered_request|auto with ssap].
Qed.
End numbers.

(** What an effect may be answered with. *)
Definition outcome (config : DaemonConfig) (eff : Effect) (used : list ReadItem) (new : list SsapOut) : Prop :=
  match eff with
  | SetInput target epoch _ =>
      concludes epoch (fun _ => CommandAcknowledged epoch target)
        (fun result used new => exists input, input_for config target = Some input
           /\ granted SET_INPUT (JObject [("inputId", JString input)]) result used new) used new
  | Observe epoch => exists mode,
      concludes epoch (fun '(input, signals) => Observation epoch mode input signals) (observed config) used new
  | SetMultiView enabled epoch =>
      concludes epoch (fun _ : unit => MultiViewAcknowledged epoch enabled) (fun _ => multiview_set enabled) used new
  | Wake target _ => exists mac bytes, dc_wake_on_lan config !! target = Some mac
      /\ parse_mac mac = Some bytes /\ new = [SoWake (wake_packet bytes)]
  end.

(** The answer of an effect, from what it read and sent. *)
Lemma effect_spec config eff : sspec (execute_effect config eff) (fun r used new =>
  match r with inl _ => outcome config eff used new | inr _ => Forall subscription_only new end).
Proof.
  destruct eff as [target epoch fb|epoch|target req|enabled epoch]; cbn [execute_effect outcome].
  - destruct (input_for config target) as [input|] eqn:Hi.
    + apply reported_spec. eapply sspec_weaken; [apply request_payload_spec|].
      intros r used new [Hs Hg]. split; [done|]. intros a Ha. exists input. auto.
    + eapply sspec_weaken; [apply notify_spec|]. intros [[]|e] used new [-> ->]; [|done].
      exists [], (CommandFailed epoch ("display_route_missing:" ++ Host_as_str target)). eauto.
  - eapply (sspec_bind _ _ (fun _ used new => used = [] /\ new = [])); [|by intros e u n [-> ->]|].
    { intros s. exists [], []. cbn. by rewrite app_nil_r. }
    intros st u n [-> ->]. cbn [app]. eapply sspec_weaken; [apply reported_spec, observe_command|].
    intros [[]|e] used new H; [by eexists|done].
  - destruct (dc_wake_on_lan config !! target) as [mac|] eqn:Hm; [|by apply sspec_fail].
    unfold send_wake_packet. destruct (parse_mac mac) as [bytes|] eqn:Hb; [|by apply sspec_fail].
    intros s. destruct (sp_wake_fails s 0); cbn.
    + exists [], []. by rewrite app_nil_r.
    + exists [], [SoWake (wake_packet bytes)]. repeat split. by exists mac, bytes.
  - apply reported_spec, set_multiview_command.
Qed.

(** C16: a command for the television (the switch of its input, an observation,
    a change of multiview) that does not end the session is answered with
    exactly one notification, the last of it, under its own epoch: its
    acknowledgement or observation, which is then backed by answers of the
    television to the very requests it sent, or its failure; before it only
    changes of the foreground application are passed on.  A wake-up is answered
    by no event; it sends one packet, to the configured address of its host.
    An effect that ends the session reports nothing.  The messages that are sent
    (beside pongs) are requests under the next numbers of the session, strictly
    increasing and never used before, as long as the counter is not exhausted;
    so an answer to one of them is no answer to an earlier request. *)
Theorem effect_answered_once config eff s :
  let s' := snd (execute_effect config eff s) in
  exists used new numbers, sp_incoming s = used ++ sp_incoming s' /\ sp_out s' = sp_out s ++ new
    /\ match fst (execute_effect config eff s) with
       | inl _ => outcome config eff used new
       | inr _ => Forall subscription_only new
       end
    /\ requests_of numbers new
    /\ ((sp_next_id s' < u64_max)%N -> increasing (sp_next_id s) (sp_next_id s') numbers).
Proof.
  intros s'. destruct (effect_spec config eff s) as (used & new & Hu & Hn & Ho).
  destruct (numbered_effect config eff s) as (new' & numbers & Hn' & Hr & Hi).
  assert (new' = new) as -> by (rewrite Hn in Hn'; by apply app_inv_head in Hn').
  by exists used, new, numbers.
Qed.

(** ** The start of a session *)

Definition milestone (o : SsapOut) : option Event :=
  match o with SoNotify (SubscriptionObserved _ _) => None | SoNotify e => Some e | _ => None end.
Definition milestones (new : list SsapOut) : list Event := omap milestone new.

Lemma milestones_calm new : Forall subscription_only new -> milestones new = [].
Proof.
  induction 1 as [|o new Ho _ IH]; [done|]. unfold milestones in *. cbn.
  destruct o as [| | | |[]]; cbn in *; done.
Qed.
Lemma milestones_app l k : milestones (l ++ k) = milestones l ++ milestones k.
Proof. apply omap_app. Qed.

Section start.
Variable config : DaemonConfig.

(** How a start ends, from what it read and sent so far. *)
Definition started {A} : post A := fun r used new =>
  match r with
  | inl _ => exists o, milestones new = [TransportRegistering; TransportSubscribed;
                                         TransportSynchronized Fullscreen (fst o) (snd o)]
      /\ observed config o used new /\ multiview_set false used new
  | inr _ => milestones new `prefix_of` [TransportRegistering; TransportSubscribed]
  end.

(** The rest of a start, after the trace [u0], [n0]. *)
Definition resumes (ms : list Event) {A} (m : ssap A) : Prop := forall u0 n0, milestones n0 = ms ->
  sspec m (fun r used new => started r (u0 ++ used) (n0 ++ new)).

Lemma resume_calm ms {A B} (m : ssap A) (k : A -> ssap B) :
  ms `prefix_of` [TransportRegistering; TransportSubscribed] ->
  calm m -> (forall a, resumes ms (k a)) -> resumes ms (m ≫= k).
Proof.
  intros Hp Hm Hk u0 n0 Hn. eapply sspec_bind; [exact Hm| |].
  - intros e u n Hs%milestones_calm. cbn. by rewrite milestones_app, Hs, Hn, app_nil_r.
  - intros a u n Hs%milestones_calm. eapply sspec_weaken; [apply (Hk a (u0 ++ u) (n0 ++ n))|].
    + by rewrite milestones_app, Hs, Hn, app_nil_r.
    + intros r u' n'. by rewrite !app_assoc.
Qed.

Lemma resume_notify ms e {B} (k : unit -> ssap B) :
  ms `prefix_of` [TransportRegistering; TransportSubscribed] -> milestone (SoNotify e) = Some e ->
  (forall a, resumes (ms ++ [e]) (k a)) -> resumes ms (notify e ≫= k).
Proof.
  intros Hp He Hk u0 n0 Hn. eapply sspec_bind; [apply notify_spec| |].
  - intros err u n [-> ->]. cbn. by rewrite app_nil_r, Hn.
  - intros a u n [-> ->]. eapply sspec_weaken; [apply (Hk a u0 (n0 ++ [SoNotify e]))|].
    + rewrite milestones_app, Hn. unfold milestones. cbn. cbn in He. by rewrite He.
    + intros r u' n'. by rewrite !app_nil_l, <- app_assoc.
Qed.

Lemma multiview_set_app enabled u0 n0 u n u1 n1 :
  multiview_set enabled u n -> multiview_set enabled (u0 ++ u ++ u1) (n0 ++ n ++ n1).
Proof. intros (c & a & d & H1 & H2 & H3). exists c, a, d. split; [|split]; [by apply granted_app|done|by apply granted_app]. Qed.
Lemma observed_app o u0 n0 u n u1 n1 :
  observed config o u n -> observed config o (u0 ++ u ++ u1) (n0 ++ n ++ n1).
Proof. intros (a & i & H1 & H2 & H3). exists a, i. split; [|split]; [by apply granted_app..|done]. Qed.

Lemma synchronize_resumes : resumes [TransportRegistering; TransportSubscribed]
  (set_multiview config false;; coordinator_snapshot;;
   o ← observe config; notify (TransportSynchronized Fullscreen (fst o) (snd o))).
Proof.
  intros u0 n0 Hn. eapply sspec_bind; [apply set_multiview_command| |].
  { intros e u n [Hs%milestones_calm _]. cbn. by rewrite milestones_app, Hs, Hn, app_nil_r. }
  intros [] u1 n1 [Hs1%milestones_calm H1]. specialize (H1 tt eq_refl).
  apply (sspec_bind _ _ (fun r used new => used = [] /\ new = [] /\ exists a, r = inl a)).
  { intros s. exists [], []. cbn. rewrite app_nil_r. repeat (split; [done|]). by eexists. }
  { by intros e u n (-> & -> & [? [=]]). }
  intros st u n (-> & -> & _). cbn [app]. eapply sspec_bind; [apply observe_command| |].
  { intros e u n [Hs%milestones_calm _]. cbn. by rewrite !milestones_app, Hs, Hs1, Hn. }
  intros o u2 n2 [Hs2%milestones_calm H2]. specialize (H2 o eq_refl).
  eapply sspec_weaken; [apply notify_spec|]. intros [[]|e] u3 n3 [-> ->]; cbn.
  - exists o. rewrite !milestones_app, Hs2, Hs1, Hn. split; [done|]. split.
    + rewrite !app_assoc. by rewrite <- (app_assoc _ n2), <- (app_assoc _ u2); apply observed_app.
    + by apply multiview_set_app.
  - by rewrite !milestones_app, Hs2, Hs1, Hn.
Qed.
End start.

(** A session announces registering, subscribed and synchronized in this
    order, each at most once and besides changes of the foreground application
    nothing else; it is announced as synchronized exactly when its start
    succeeds, and then the television has confirmed that the multi view was
    switched off and has answered both observations, from which the announced
    input and signals were read. *)
Theorem session_start config client_key s :
  exists used new, sp_incoming s = used ++ sp_incoming (snd (start_session config client_key s))
    /\ sp_out (snd (start_session config client_key s)) = sp_out s ++ new
    /\ started config (fst (start_session config client_key s)) used new.
Proof.
  revert s. change (sspec (start_session config client_key) (started config)).
  eapply sspec_weaken; [|intros r used new H; exact H].
  assert (resumes config [] (start_session config client_key)) as H; [|exact (H [] [] eq_refl)].
  unfold start_session. apply resume_notify; [apply prefix_nil|done|intros []]. cbn [app].
  do 5 (apply resume_calm; [by eexists|first [by apply calm_write|apply calm_registration|apply calm_codec
    |eapply sspec_weaken; [apply wait_for_id_spec|by intros ? ? ? []]]|intros ?]).
  apply resume_notify; [by eexists|done|intros []]. cbn [app].
  apply resume_calm; [by exists []|apply calm_first_id|intros []]. apply synchronize_resumes.
Qed.

(** A television that registers, subscribes, switches the multi view off and
    shows the input of the controller. *)
Definition tv_answer (id : string) (payload : Value) : ReadItem :=
  RMessage (MJson (Some (JObject [("id", JString id); ("type", JString "response"); ("payload", payload)]))).
Definition demo_tv : Ssap :=
  mkSsap
    [RMessage (MJson (Some (JObject [("type", JString "registered"); ("payload", JObject [("client-key", JString "key")])])));
     tv_answer CURRENT_APP_SUBSCRIPTION_ID (JObject [("subscribed", JBool true)]); RMessage MPing;
     tv_answer "request-1" (JObject [("returnValue", JBool true); ("alertId", JString "a")]);
     tv_answer "request-2" (JObject [("returnValue", JBool true)]);
     tv_answer "request-3" (JObject [("appId", JString "com.webos.app.hdmi4")]);
     tv_answer "request-4" (JObject [("devices", JArray [JObject [("id", JString "hdmi_4"); ("hdmiSignalExist", JBool true)]])])]
    (fun _ => false) false
    (fun _ => mkProtocolState Controller ∅ Disconnected false false Starting TvUnknown None None ∅ ∅
           0 0 None 0 Controller Controller None [] 0 None None None None None false None None 0 ∅ None 0)
    (fun _ => false) 1 [].

Example demo_start :
  milestones (sp_out (snd (start_session demo_config "key" demo_tv)))
  = [TransportRegistering; TransportSubscribed;
     TransportSynchronized Fullscreen (Some Controller) {[Controller := true; Left := false]}].
Proof. vm_compute. reflexivity. Qed.

(** ** Reconnecting *)

(** The delay after the [k]-th further failure. *)
Definition backoff_after (k : nat) (b : ReconnectBackoff) : ReconnectBackoff :=
  Nat.iter k (fun b => snd (backoff_failed b)) b.

Lemma backoff_after_spec initial max k :
  (initial <= u64_max)%N -> (max <= u64_max)%N ->
  backoff_after k (backoff_new initial max)
  = mkBackoff initial max (if decide (k = 0) then initial else N.min (initial * 2 ^ N.of_nat k) max)
      (N.min (N.of_nat k) u64_max).
Proof.
  intros Hi Hm. induction k as [|k IH]; [done|].
  change (backoff_after (S k) (backoff_new initial max))
    with (snd (backoff_failed (backoff_after k (backoff_new initial max)))).
  rewrite IH. unfold backoff_failed, set. cbn -[N.pow N.of_nat u64_max].
  destruct (decide (S k = 0)) as [|_]; [lia|].
  match goal with |- mkBackoff _ _ ?a ?c = mkBackoff _ _ ?a' ?c' =>
    assert (c = c') as -> by (unfold sat_add; lia); assert (a = a') as ->; [|done] end.
  rewrite Nat2N.inj_succ, N.pow_succ_r'. unfold sat_mul.
  case_decide as Hk; [subst k; cbn -[u64_max]; lia|]. nia.
Qed.

(** The delays before reconnecting double from the configured first one up to
    the configured maximum, however often it fails, and start again after a
    session that synchronized. *)
Theorem reconnect_delays initial max k :
  (initial <= u64_max)%N -> (max <= u64_max)%N ->
  let b := backoff_after k (backoff_new initial max) in
  fst (backoff_failed b) =
    ((if decide (k = 0) then initial else N.min (initial * 2 ^ N.of_nat k) max), N.min (N.of_nat (S k)) u64_max)
  /\ backoff_synchronized b = backoff_new initial max.
Proof.
  intros Hi Hm. cbn zeta. rewrite backoff_after_spec by done. unfold backoff_failed, backoff_synchronized, set.
  cbn -[u64_max N.pow N.of_nat]. split; [|done]. f_equal. unfold sat_add. lia.
Qed.

Lemma reconnect_delays_witness :
  fst (backoff_failed (backoff_after 7 (backoff_new 1000 60000))) = (60000%N, 8%N).
Proof. exact (proj1 (reconnect_delays 1000 60000 7 ltac:(vm_compute; discriminate) ltac:(vm_compute; discriminate))). Defined.

(** ** A missing wake-up address *)

(** No step of a session closes the coordinator. *)
Definition keeps_closed {A} (m : ssap A) : Prop := forall s, sp_closed (snd (m s)) = sp_closed s.

Lemma keeps_closed_bind {A B} (m : ssap A) (k : A -> ssap B) :
  keeps_closed m -> (forall a, keeps_closed (k a)) -> keeps_closed (m ≫= k).
Proof.
  intros Hm Hk s. unfold mbind, ssap_bind. specialize (Hm s). destruct (m s) as [[a|e] s1]; cbn in Hm |- *; [|done].
  by rewrite Hk.
Qed.
Lemma keeps_closed_ret {A} (a : A) : keeps_closed (mret a).
Proof. done. Qed.
Lemma keeps_closed_fail {A} e : keeps_closed (fail (A:=A) e).
Proof. done. Qed.
Lemma keeps_closed_codec {A} (r : A + CodecError) : keeps_closed (of_codec r).
Proof. by destruct r. Qed.
Lemma keeps_closed_write o : keeps_closed (write_message o).
Proof. intros s. unfold write_message. by destruct (sp_write_fails s 0). Qed.
Lemma keeps_closed_notify e : keeps_closed (notify e).
Proof. intros s. unfold notify. by destruct (sp_closed s) eqn:E. Qed.
Lemma keeps_closed_snapshot : keeps_closed coordinator_snapshot.
Proof. done. Qed.
Lemma keeps_closed_take_id : keeps_closed take_id.
Proof. done. Qed.
Lemma keeps_closed_first_id : keeps_closed first_id.
Proof. done. Qed.
#[export] Hint Resolve keeps_closed_bind keeps_closed_ret keeps_closed_fail keeps_closed_codec keeps_closed_write
  keeps_closed_notify keeps_closed_snapshot keeps_closed_take_id keeps_closed_first_id : ssap.

Lemma keeps_closed_decode m : keeps_closed (decode_message m).
Proof. destruct m as [[v|]| | | |]; cbn [decode_message]; auto with ssap. Qed.
Lemma keeps_closed_unsolicited config v : keeps_closed (handle_unsolicited config v).
Proof. unfold handle_unsolicited. case_bool_decide; auto 6 with ssap. Qed.
Lemma keeps_closed_wait {A} what (accept : Value -> ssap (option A)) incoming :
  (forall v, keeps_closed (accept v)) -> keeps_closed (wait_for what accept incoming).
Proof.
  intros Ha. induction incoming as [|[m| | |] incoming IH]; try done. intros s. cbn [wait_for].
  pose proof (keeps_closed_decode m (s <| sp_incoming := incoming |>)) as Hd.
  destruct (decode_message m (s <| sp_incoming := incoming |>)) as [[[v|]|e] s1]; cbn in Hd |- *; [|by rewrite IH|done].
  pose proof (Ha v s1) as Hv. destruct (accept v s1) as [[[a|]|e] s2]; cbn in Hv |- *; [congruence|by rewrite IH, Hv|congruence].
Qed.
#[export] Hint Resolve keeps_closed_decode keeps_closed_unsolicited : ssap.
Lemma keeps_closed_registration : keeps_closed wait_for_registration.
Proof. intros s. apply keeps_closed_wait. auto with ssap. Qed.
Lemma keeps_closed_wait_id config id : keeps_closed (wait_for_id config id).
Proof. intros s. apply keeps_closed_wait. intros v. case_bool_decide; auto with ssap. Qed.
#[export] Hint Resolve keeps_closed_registration keeps_closed_wait_id : ssap.
Lemma keeps_closed_request config uri payload : keeps_closed (request_payload config uri payload).
Proof. unfold request_payload, send_json. auto 8 with ssap. Qed.
#[export] Hint Resolve keeps_closed_request : ssap.

Lemma start_session_closed config client_key : keeps_closed (start_session config client_key).
Proof.
  unfold start_session, send_json, observe, set_multiview.
  assert (forall v : option Value, keeps_closed (match v with Some v => mret v
            | None => fail (ESCodec (MissingField "alertId")) end)) as Hget by (intros []; auto with ssap).
  repeat first [apply Hget|solve [auto 3 with ssap]|apply keeps_closed_bind; [|intros ?]].
Qed.

(** A host without a wake-up address, which the configuration allows, ends the
    session with the television as soon as it is to be woken, although the
    error is counted among those that do not concern the connection: the
    coordinator is told that the transport is gone, and the task reconnects. *)
Theorem missing_wake_address_disconnects config client_key target epoch inputs s b m :
  dc_wake_on_lan config !! target = None -> sp_closed s = false ->
  fst (start_session config client_key (notify_ignored TransportConnecting s)) = inl tt ->
  let '(delay, s', _, _) := run_round config client_key None (SiOrdinary (Some (Wake target epoch)) :: inputs) s b m in
  recoverable_command_error (ESMissingWakeAddress target) = true
  /\ delay = Some (rb_initial_ms b)
  /\ sp_out s' = sp_out (snd (start_session config client_key (notify_ignored TransportConnecting s)))
                   ++ [SoNotify (TransportDisconnected "wake_address_missing")].
Proof.
  intros Hw Hc Hs. unfold run_round, connect_and_run.
  pose proof (start_session_closed config client_key (notify_ignored TransportConnecting s)) as Hclosed.
  destruct (start_session config client_key (notify_ignored TransportConnecting s)) as [r s1]. cbn [fst snd] in *. subst r.
  cbn [session_loop ssap_step execute_effect]. unfold mbind, ssap_bind. rewrite Hw. cbn.
  split; [done|]. split; [done|]. unfold notify_ignored, notify. rewrite Hclosed.
  unfold notify_ignored, notify. rewrite Hc. cbn. by rewrite Hc.
Qed.

(** ** The stored key *)

(** The pickle of a short text as Python writes it: protocol 5, a frame with its
    length in eight bytes, the text with its length, memoize and stop. *)
Definition pickled (frame len : byte) (key : list byte) : list byte :=
  [x80; x05; x95; frame; x00; x00; x00; x00; x00; x00; x00; x8c; len] ++ key ++ [x94; x2e].

(** A key of fewer than 84 bytes is read back from its pickle. *)
Theorem pickled_key_roundtrip frame len key :
  Byte.to_N frame = N.of_nat (length key + 4) -> Byte.to_N len = N.of_nat (length key) ->
  0 < length key < 84 -> utf8_valid key = true ->
  decode_pickled_string (pickled frame len key) = inl key.
Proof.
  intros Hf Hl Hlen Hu. unfold decode_pickled_string.
  assert (length (pickled frame len key) = 15 + length key) as Hlength.
  { unfold pickled. rewrite !length_app. cbn. lia. }
  rewrite Hlength. cbn [Nat.add seq]. cbn [find_map].
  assert (opcode_span (pickled frame len key) 3 = None) as H3.
  { unfold opcode_span, pickled. cbn -[N.eqb Byte.to_N]. rewrite Hf.
    rewrite !(proj2 (N.eqb_neq _ _)) by lia. done. }
  assert (opcode_span (pickled frame len key) 11 = Some (13, Byte.to_N len)) as H11 by done.
  rewrite H3, H11.
  repeat match goal with |- context [opcode_span (pickled frame len key) ?i] =>
    change (opcode_span (pickled frame len key) i) with (@None (nat * N)) end.
  cbn -[N.ltb N.of_nat Byte.to_N take drop pickled utf8_valid].
  rewrite Hl, Nat2N.id.
  replace (take (length key) (drop 13 (pickled frame len key))) with key.
  2:{ symmetry. exact (take_app_length key [x94; x2e]). }
  rewrite Hu. cbn [negb]. rewrite bool_decide_eq_false_2 by lia.
  match goal with |- context [N.ltb ?a ?b] => rewrite (proj2 (N.ltb_ge a b)) by lia end. done.
Qed.

(** A key of 84 bytes is not: the length of the frame is then the opcode of a
    text, and the key is taken to be empty. *)
Theorem pickled_key_misread len key :
  decode_pickled_string (pickled x58 len key) = inr EmptyKey.
Proof.
  unfold decode_pickled_string, pickled. cbn -[N.of_nat N.ltb].
  match goal with |- context [N.ltb ?a ?b] => rewrite (proj2 (N.ltb_ge a b)) by (change (b) with 8%N; lia) end. reflexivity.
Qed.
