(* ===== verification/ClipTransport.v ===== *)
(** * Clipboard connections (lan-mouse-clipboard tls.rs and transport.rs)

    Who a peer is and what it may send: fingerprints of certificates, the
    registry of connected peers, the fence of a connection; and the two
    directions of a connection: the queues of outgoing messages with the slot
    of the payload, the task that writes them, and the task that reads.

    SHA-256 and the TLS library are outside: the digest is a parameter, and a
    handshake is the certificates and the protocol it ended with.  A
    cancellation token is a flag; the token of a payload is a child of that of
    the connection. *)

From stdpp Require Import base tactics list gmap strings.
From Stdlib Require Import NArith Lia Strings.Byte Strings.Ascii.
From S2P Require Import Prelude Channels Bytes ClipTypes ClipFrame.

(** ** Certificates (tls.rs) *)

(** [CertificateFingerprint]: 32 bytes. *)
Abbreviation Fingerprint := (list N) (only parsing).

Inductive TlsError :=
| TlsMissingCertificate | TlsMissingPrivateKey | TlsInvalidFingerprint | TlsMissingPeerCertificate
| TlsUnauthorizedPeer | TlsHostIdentityMismatch | TlsProtocolMismatch | TlsRustls.

(** [CertificateFingerprint::from_certificate] *)
Definition from_certificate (sha256 : list byte -> list byte) (certificate : list byte) : Fingerprint :=
  map Byte.to_N (sha256 certificate).

(** The loop of [CertificateFingerprint::parse] over the bytes still to fill. *)
Fixpoint parse_fields (n : nat) (fields : list string) : exec TlsError Fingerprint :=
  match n with
  | 0 => match fields with [] => Ret [] | _ :: _ => Throw TlsInvalidFingerprint end
  | S n =>
      match fields with
      | [] => Throw TlsInvalidFingerprint
      | field :: fields =>
          if negb (String.length field =? 2)%nat then Throw TlsInvalidFingerprint
          else
            let* byte := ok_or (u8_from_hex field) TlsInvalidFingerprint in
            let* rest := parse_fields n fields in
            Ret (byte :: rest)
      end
  end.
Definition fingerprint_parse (value : string) : exec TlsError Fingerprint :=
  parse_fields 32 (split_at ":" value).

(** [format!("{byte:02x}")] *)
Definition hex_char (d : N) : ascii :=
  ascii_of_N (if (d <? 10)%N then 48 + d else 87 + d)%N.
Definition hex_byte (b : N) : string :=
  String (hex_char (b / 16)) (String (hex_char (b mod 16)) EmptyString).
(** [Display for CertificateFingerprint] *)
Fixpoint fingerprint_display (bytes : Fingerprint) : string :=
  match bytes with
  | [] => EmptyString
  | [b] => hex_byte b
  | b :: bytes => (hex_byte b ++ String ":" (fingerprint_display bytes))%string
  end.

(** [TlsIdentity] *)
Record TlsIdentity := mkTlsIdentity {
  ti_certificates : list (list byte);
  ti_private_key_pkcs8 : list byte }.
Definition tls_identity_new (certificates : list (list byte)) (private_key : list byte)
  : exec TlsError TlsIdentity :=
  if bool_decide (certificates = []) then Throw TlsMissingCertificate
  else if bool_decide (private_key = []) then Throw TlsMissingPrivateKey
  else Ret (mkTlsIdentity certificates private_key).

(** [AuthorizedPeers]: the map behind the lock. *)
Abbreviation AuthorizedPeers := (gmap (list N) string) (only parsing).
Definition authorized_new (peers : list (list N * string)) : AuthorizedPeers :=
  foldl (fun m p => <[p.1 := p.2]> m) ∅ peers.
Definition host_for (fingerprint : Fingerprint) (peers : AuthorizedPeers) : option HostId :=
  peers !! fingerprint.
Definition authorized_contains (fingerprint : Fingerprint) (peers : AuthorizedPeers) : bool :=
  bool_decide (is_Some (peers !! fingerprint)).

Record AuthenticatedPeer := mkAuthenticated {
  au_host_id : HostId;
  au_fingerprint : Fingerprint }.

(** [verify_fingerprint] *)
Definition verify_fingerprint (sha256 : list byte -> list byte) (certificate : list byte)
  (is_authorized : Fingerprint -> bool) : bool :=
  is_authorized (from_certificate sha256 certificate).

(** [FingerprintServerVerifier::verify_server_cert] *)
Definition verify_server_cert (sha256 : list byte -> list byte) (expected : Fingerprint)
  (end_entity : list byte) : bool :=
  verify_fingerprint sha256 end_entity (fun fingerprint => bool_decide (fingerprint = expected)).

(** [FingerprintClientVerifier::verify_client_cert] *)
Definition verify_client_cert (sha256 : list byte -> list byte) (peers : AuthorizedPeers)
  (end_entity : list byte) : bool :=
  verify_fingerprint sha256 end_entity (fun fingerprint => authorized_contains fingerprint peers).

Definition authenticate_peer_certificates (sha256 : list byte -> list byte)
  (certificates : option (list (list byte))) (peers : AuthorizedPeers) : exec TlsError AuthenticatedPeer :=
  let* certificate := ok_or (certificates ≫= head) TlsMissingPeerCertificate in
  let fingerprint := from_certificate sha256 certificate in
  let* host_id := ok_or (host_for fingerprint peers) TlsUnauthorizedPeer in
  Ret (mkAuthenticated host_id fingerprint).

Definition authenticate_hello (peer : AuthenticatedPeer) (hello : ClipboardHello) : exec TlsError unit :=
  if bool_decide (au_host_id peer = ch_host_id hello) then Ret tt else Throw TlsHostIdentityMismatch.

Definition ALPN_PROTOCOL : string := "lan-mouse-clipboard/1".
Definition authenticate_alpn (protocol : option string) : exec TlsError unit :=
  if bool_decide (protocol = Some ALPN_PROTOCOL) then Ret tt else Throw TlsProtocolMismatch.

(** ** Registered peers (transport.rs) *)

Inductive TransportError :=
| TeFrame (e : FrameError) | TeTls (e : TlsError) | TeIdentityExhausted | TeQueueFull | TeChannelClosed
| TePayloadOnControlQueue | TeControlInPayloadSlot | TeAuthenticatedHostMismatch | TeStalePeerSession
| TeStaleAuthoritySession | TeMissingIdentity.

(** [TransportError::reason] *)
Definition transport_reason (e : TransportError) : ClipboardReason :=
  match e with
  | TeFrame e => frame_error_reason e
  | TeTls _ => ReasonProtocolError
  | TeIdentityExhausted => ReasonIdentityExhausted
  | TeQueueFull => QueueFull
  | TeChannelClosed => ChannelUnavailable
  | TeStalePeerSession => StalePeerSession
  | TeStaleAuthoritySession => StaleAuthoritySession
  | TePayloadOnControlQueue | TeControlInPayloadSlot | TeAuthenticatedHostMismatch | TeMissingIdentity =>
      ReasonProtocolError
  end.

Record NegotiatedPeer := mkNegotiated {
  np_connection_id : N;
  np_host_id : HostId;
  np_process_session_id : ProcessSessionId;
  np_effective_max_bytes : option N }.

Inductive RegistrationOutcome :=
| Accepted (peer : NegotiatedPeer)
| Replaced (previous_connection_id : N) (peer : NegotiatedPeer)
| DuplicateRejected (active_connection_id : N).

Record PeerRegistry := mkRegistry {
  rg_next_connection_id : N;
  rg_peers : gmap string NegotiatedPeer }.
#[global] Instance PeerRegistry_eta : RecordEta PeerRegistry := fun s =>
  mkRegistry (rg_next_connection_id s) (rg_peers s).
Definition registry_default : PeerRegistry := mkRegistry 0 ∅.

(** [PeerRegistry::register].  The received limit is a [u64], which a [usize]
    holds. *)
Definition register (peer : AuthenticatedPeer) (hello : ClipboardHello) (local_max_bytes : N)
  (r : PeerRegistry) : exec TransportError RegistrationOutcome * PeerRegistry :=
  match map_err TeTls (authenticate_hello peer hello) with
  | Throw e => (Throw e, r)
  | Panic s => (Panic s, r)
  | Ret _ =>
      match rg_peers r !! au_host_id peer ≫= (fun active =>
              if bool_decide (np_process_session_id active = ch_process_session_id hello)
              then Some active else None) with
      | Some active => (Ret (DuplicateRejected (np_connection_id active)), r)
      | None =>
          match checked_add (rg_next_connection_id r) 1 with
          | None => (Throw TeIdentityExhausted, r)
          | Some connection_id =>
              let negotiated := mkNegotiated connection_id (au_host_id peer) (ch_process_session_id hello)
                (if supports_text_v1 hello then Some (N.min local_max_bytes (ch_max_receive_bytes hello)) else None) in
              (Ret (match rg_peers r !! au_host_id peer with
                    | Some previous => Replaced (np_connection_id previous) negotiated
                    | None => Accepted negotiated
                    end),
               mkRegistry connection_id (<[au_host_id peer := negotiated]> (rg_peers r)))
          end
      end
  end.

(** [PeerRegistry::unregister] *)
Definition unregister (host : HostId) (connection_id : N) (r : PeerRegistry) : bool * PeerRegistry :=
  match rg_peers r !! host with
  | Some peer =>
      if (np_connection_id peer =? connection_id)%N
      then (true, r <| rg_peers ::= delete host |>) else (false, r)
  | None => (false, r)
  end.

(** ** The fence of a connection *)

Record PeerFence := mkFence {
  pf_authority_session_id : AuthoritySessionId;
  pf_host_id : HostId;
  pf_process_session_id : ProcessSessionId;
  pf_connection_id : N }.

(** [PeerRegistry::fence] *)
Definition registry_fence (host : HostId) (authority : AuthoritySessionId) (r : PeerRegistry) : option PeerFence :=
  (fun peer => mkFence authority (np_host_id peer) (np_process_session_id peer) (np_connection_id peer))
    <$> rg_peers r !! host.

Definition is_some_and {A} (o : option A) (p : A -> bool) : bool :=
  match o with Some a => p a | None => false end.

Definition validate_authority (f : PeerFence) (h : HandoffEnvelope) : exec TransportError unit :=
  guard_not (negb (hi_authority_session_id (he_handoff_id h) =? pf_authority_session_id f)%N
             || negb (tk_authority_session_id (he_source_token h) =? pf_authority_session_id f)%N
             || negb (tk_authority_session_id (he_target_token h) =? pf_authority_session_id f)%N)
    TeStaleAuthoritySession.

Definition validate_source (f : PeerFence) (h : HandoffEnvelope) : exec TransportError unit :=
  let* _ := validate_authority f h in
  let* _ := guard_not (negb (bool_decide (tk_owner_host_id (he_source_token h) = pf_host_id f))) TeAuthenticatedHostMismatch in
  guard_not (negb (he_source_process_session_id h =? pf_process_session_id f)%N) TeStalePeerSession.

Definition validate_target (f : PeerFence) (h : HandoffEnvelope) : exec TransportError unit :=
  let* _ := validate_authority f h in
  let* _ := guard_not (negb (bool_decide (tk_owner_host_id (he_target_token h) = pf_host_id f))) TeAuthenticatedHostMismatch in
  guard_not (negb (he_target_process_session_id h =? pf_process_session_id f)%N) TeStalePeerSession.

Definition validate_metadata_authority (f : PeerFence) (m : FrameMetadata) : exec TransportError unit :=
  let* handoff_id := ok_or (fm_handoff_id m) TeMissingIdentity in
  guard_not (negb (hi_authority_session_id handoff_id =? pf_authority_session_id f)%N
             || is_some_and (fm_source_token m) (fun t => negb (tk_authority_session_id t =? pf_authority_session_id f)%N)
             || is_some_and (fm_target_token m) (fun t => negb (tk_authority_session_id t =? pf_authority_session_id f)%N))
    TeStaleAuthoritySession.

Definition validate_source_metadata (f : PeerFence) (m : FrameMetadata) : exec TransportError unit :=
  let* _ := validate_metadata_authority f m in
  let* token := ok_or (fm_source_token m) TeMissingIdentity in
  let* _ := guard_not (negb (bool_decide (tk_owner_host_id token = pf_host_id f))) TeAuthenticatedHostMismatch in
  let* session := ok_or (fm_source_process_session_id m) TeMissingIdentity in
  guard_not (negb (session =? pf_process_session_id f)%N) TeStalePeerSession.

Definition validate_target_metadata (f : PeerFence) (m : FrameMetadata) : exec TransportError unit :=
  let* _ := validate_metadata_authority f m in
  let* token := ok_or (fm_target_token m) TeMissingIdentity in
  let* _ := guard_not (negb (bool_decide (tk_owner_host_id token = pf_host_id f))) TeAuthenticatedHostMismatch in
  let* session := ok_or (fm_target_process_session_id m) TeMissingIdentity in
  guard_not (negb (session =? pf_process_session_id f)%N) TeStalePeerSession.

(** ** Outgoing messages *)

Record QueuedPayload := mkQueuedPayload {
  qp_handoff_id : HandoffId;
  qp_message : WireMessage }.
Record ActivePayload := mkActivePayload {
  xp_handoff_id : HandoffId;
  xp_cancelled : bool }.

(** [message_handoff_id] *)
Definition message_handoff_id (m : WireMessage) : option HandoffId :=
  match m with
  | WSnapshotOffer p | WSnapshotDeliver p => Some (he_handoff_id (cp_handoff p))
  | _ => None
  end.

Definition CONTROL_CLASS_COUNT : nat := 8.

Section outgoing.
Context {C : Type -> Type} {M : Mpsc C}.

(** What a [TransportHandle] and its [TransportReceiver] share; [tq_ready] is
    the stored permit of the [Notify], [tq_cancelled] the token of the
    connection. *)
Record TransportQueues := mkQueues {
  tq_control : C WireMessage;
  tq_queued : option QueuedPayload;
  tq_active : option ActivePayload;
  tq_ready : bool;
  tq_cancelled : bool }.
#[global] Instance TransportQueues_eta : RecordEta TransportQueues := fun s =>
  mkQueues (tq_control s) (tq_queued s) (tq_active s) (tq_ready s) (tq_cancelled s).

(** [transport_queues], given the fresh control channel *)
Definition transport_queues (control : C WireMessage) : TransportQueues :=
  mkQueues control None None false false.

(** [TransportHandle::try_send_control] *)
Definition try_send_control (m : WireMessage) (q : TransportQueues) : exec TransportError unit * TransportQueues :=
  if is_payload m then (Throw TePayloadOnControlQueue, q)
  else match try_send (tq_control q) m with
       | inl control => (Ret tt, q <| tq_control := control |>)
       | inr Full => (Throw TeQueueFull, q)
       | inr Closed => (Throw TeChannelClosed, q)
       end.

(** [TransportHandle::try_send_payload] *)
Definition try_send_payload (m : WireMessage) (q : TransportQueues) : exec TransportError unit * TransportQueues :=
  if negb (is_payload m) then (Throw TeControlInPayloadSlot, q)
  else match message_handoff_id m with
       | None => (Panic "payload message has handoff identity", q)
       | Some handoff_id =>
           if bool_decide (is_Some (tq_queued q)) || bool_decide (is_Some (tq_active q))
           then (Throw TeQueueFull, q)
           else (Ret tt, q <| tq_queued := Some (mkQueuedPayload handoff_id m) |> <| tq_ready := true |>)
       end.

(** [TransportHandle::cancel_handoff] *)
Definition cancel_handoff (id : HandoffId) (q : TransportQueues) : bool * TransportQueues :=
  let in_queue := is_some_and (tq_queued q) (fun p => bool_decide (qp_handoff_id p = id)) in
  let in_transfer := is_some_and (tq_active q) (fun p => bool_decide (xp_handoff_id p = id)) in
  let q := if in_queue then q <| tq_queued := None |> else q in
  let q := if in_transfer then q <| tq_active := Some (mkActivePayload id true) |> else q in
  (in_queue || in_transfer, q).

(** [TransportHandle::shutdown] *)
Definition transport_shutdown (q : TransportQueues) : TransportQueues :=
  q <| tq_queued := None |>
    <| tq_active := (fun p => mkActivePayload (xp_handoff_id p) true) <$> tq_active q |>
    <| tq_cancelled := true |>.

Record OutboundMessage := mkOutbound {
  om_message : WireMessage;
  om_handoff_id : option HandoffId }.

(** A poll of [TransportReceiver::next]: ready with a message or with the end,
    or pending.  The loop is taken a second time only for a stored permit. *)
Inductive NextPoll := NextMessage (om : OutboundMessage) | NextEnd | NextPending.
Definition next_poll (q : TransportQueues) : NextPoll * TransportQueues :=
  match tq_queued q with
  | Some p =>
      (NextMessage (mkOutbound (qp_message p) (Some (qp_handoff_id p))),
       q <| tq_queued := None |> <| tq_active := Some (mkActivePayload (qp_handoff_id p) false) |>)
  | None =>
      if tq_cancelled q then (NextEnd, q)
      else match recv_ready (tq_control q) with
           | Some (m, control) => (NextMessage (mkOutbound m None), q <| tq_control := control |>)
           | None =>
               if senders_gone (tq_control q) then (NextEnd, q)
               else (NextPending, q <| tq_ready := false |>)
           end
  end.

(** [TransportReceiver::complete_payload] *)
Definition complete_payload (id : HandoffId) (q : TransportQueues) : TransportQueues :=
  if is_some_and (tq_active q) (fun p => bool_decide (xp_handoff_id p = id)) then q <| tq_active := None |> else q.

Definition complete (om : OutboundMessage) (q : TransportQueues) : TransportQueues :=
  match om_handoff_id om with Some id => complete_payload id q | None => q end.

(** [run_writer]: waiting in [next], writing a frame, or ended.  Handles are
    used while it waits and while it writes. *)
Inductive Writer :=
| WIdle
| WWriting (om : OutboundMessage) (frame : EncodedFrame)
| WEnded (r : exec TransportError unit).

Variable sha256 : list byte -> list byte.
Variable max_payload_bytes : N.

(** From [next] to the start of the transfer. *)
Definition writer_poll (q : TransportQueues) : Writer * TransportQueues :=
  match next_poll q with
  | (NextPending, q) => (WIdle, q)
  | (NextEnd, q) => (WEnded (Ret tt), q)
  | (NextMessage om, q) =>
      match encode_message sha256 (om_message om) max_payload_bytes with
      | Ret frame => (WWriting om frame, q)
      | Throw e => (WEnded (Throw (TeFrame e)), complete om q)
      | Panic s => (WEnded (Panic s), complete om q)
      end
  end.

(** The end of the transfer. *)
Definition writer_transfer (om : OutboundMessage) (frame : EncodedFrame) (q : TransportQueues) (c : Conn)
  : Writer * TransportQueues * Conn :=
  let '(written, c) := write_frame frame c in
  let q := complete om q in
  (match written with
   | Ret _ => WIdle
   | Throw e => WEnded (Throw (TeFrame e))
   | Panic s => WEnded (Panic s)
   end, q, c).

(** One connection's outgoing side, and what happens to it.  A transfer meets
    the faults that are given with it. *)
Record Outgoing := mkOutgoing {
  og_queues : TransportQueues;
  og_writer : Writer;
  og_conn : Conn }.
#[global] Instance Outgoing_eta : RecordEta Outgoing := fun s =>
  mkOutgoing (og_queues s) (og_writer s) (og_conn s).

Inductive OutStep :=
| OsControl (m : WireMessage)
| OsPayload (m : WireMessage)
| OsCancel (id : HandoffId)
| OsShutdown
| OsPoll
| OsTransfer (faults : list (option Fault)).

(** The messages that a step accepts, and the state after it. *)
Definition out_step (i : OutStep) (s : Outgoing) : list WireMessage * Outgoing :=
  match i with
  | OsControl m =>
      let '(r, q) := try_send_control m (og_queues s) in
      (match r with Ret _ => [m] | _ => [] end, s <| og_queues := q |>)
  | OsPayload m =>
      let '(r, q) := try_send_payload m (og_queues s) in
      (match r with Ret _ => [m] | _ => [] end, s <| og_queues := q |>)
  | OsCancel id => ([], s <| og_queues := snd (cancel_handoff id (og_queues s)) |>)
  | OsShutdown => ([], s <| og_queues ::= transport_shutdown |>)
  | OsPoll =>
      match og_writer s with
      | WIdle => let '(w, q) := writer_poll (og_queues s) in ([], s <| og_queues := q |> <| og_writer := w |>)
      | _ => ([], s)
      end
  | OsTransfer faults =>
      match og_writer s with
      | WWriting om frame =>
          let '(w, q, c) := writer_transfer om frame (og_queues s) ((og_conn s) <| cn_faults := faults |>) in
          ([], mkOutgoing q w c)
      | _ => ([], s)
      end
  end.
Fixpoint out_run (steps : list OutStep) (s : Outgoing) : list WireMessage * Outgoing :=
  match steps with
  | [] => ([], s)
  | i :: steps => let '(a, s) := out_step i s in let '(b, s) := out_run steps s in (a ++ b, s)
  end.
End outgoing.

(** ** Incoming messages *)

Section incoming.
Context {C : Type -> Type} {M : Mpsc C}.
Variable sha256 : list byte -> list byte.
Variable max_payload_bytes : N.
Variable validator : FrameMetadata -> exec TransportError unit.

(** The queues of [inbound_queues]: the ends of [InboundSink] and
    [InboundTransport]. *)
Record Inbound := mkInbound {
  ib_control : C WireMessage;
  ib_payload : C ClipboardPayload }.
#[global] Instance Inbound_eta : RecordEta Inbound := fun s => mkInbound (ib_control s) (ib_payload s).

Definition sink_error (e : TrySendError) : TransportError :=
  match e with Full => TeQueueFull | Closed => TeChannelClosed end.

(** One turn of the loop in [spawn_reader]: a message that is queued, or the
    error that ends the task. *)
Definition reader_step (b : Inbound) (c : Conn) : exec TransportError WireMessage * Inbound * Conn :=
  match read_next_frame_validated sha256 TeFrame validator max_payload_bytes c with
  | (Throw e, c) => (Throw e, b, c)
  | (Panic s, c) => (Panic s, b, c)
  | (Ret (WSnapshotOffer payload as m), c) | (Ret (WSnapshotDeliver payload as m), c) =>
      match try_send (ib_payload b) payload with
      | inl q => (Ret m, b <| ib_payload := q |>, c)
      | inr e => (Throw (sink_error e), b, c)
      end
  | (Ret m, c) =>
      match try_send (ib_control b) m with
      | inl q => (Ret m, b <| ib_control := q |>, c)
      | inr e => (Throw (sink_error e), b, c)
      end
  end.
End incoming.
