(* ===== verification/ClipTransportTheorems.v ===== *)
(** * Theorems on clipboard connections

    Printed fingerprints are parsed back; what a connection carries is a
    sequence of whole frames of accepted messages, control messages complete
    and in order; and a message is passed on only when the validator of its
    connection has seen its identities. *)

From stdpp Require Import base tactics list gmap strings.
From Stdlib Require Import NArith Lia Strings.Byte Strings.Ascii.
From S2P Require Import Prelude Channels Bytes ClipTypes ClipFrame ClipFrameTheorems ClipTransport.

(** ** Fingerprints *)

Lemma hex_digit_char d : (d < 16)%N -> hex_digit (hex_char d) = Some d.
Proof.
  intros H. rewrite <- (N2Nat.id d). assert (N.to_nat d < 16) as Hn by lia. revert Hn. clear H.
  generalize (N.to_nat d) as n. clear d. intros n Hn. do 16 (destruct n as [|n]; [reflexivity|]). lia.
Qed.
Lemma hex_char_plain d : (d < 16)%N -> Ascii.eqb (hex_char d) ":" = false /\ hex_char d <> "+"%char.
Proof.
  intros H. rewrite <- (N2Nat.id d). assert (N.to_nat d < 16) as Hn by lia. revert Hn. clear H.
  generalize (N.to_nat d) as n. clear d. intros n Hn. do 16 (destruct n as [|n]; [by split|]). lia.
Qed.

Lemma hex_digits_cons acc c s d :
  hex_digit c = Some d -> (16 * acc + d <= 255)%N -> hex_digits acc (String c s) = hex_digits (16 * acc + d) s.
Proof. intros Hc Hd. cbn [hex_digits]. rewrite Hc. cbn. by apply N.ltb_ge in Hd as ->. Qed.

Lemma u8_from_hex_byte b : (b < 256)%N -> u8_from_hex (hex_byte b) = Some b.
Proof.
  intros Hb. assert (b / 16 < 16)%N as Hh by (apply N.Div0.div_lt_upper_bound; lia).
  assert (b mod 16 < 16)%N as Hl by (by apply N.mod_lt).
  assert (u8_from_hex (hex_byte b) = hex_digits 0 (hex_byte b)) as ->.
  { unfold u8_from_hex, hex_byte. destruct (hex_char_plain _ Hh) as [_ Hn].
    destruct (hex_char (b / 16)) as [[] [] [] [] [] [] [] []]; try reflexivity. by destruct Hn. }
  unfold hex_byte. pose proof (N.div_mod' b 16).
  rewrite (hex_digits_cons _ _ _ (b / 16)), (hex_digits_cons _ _ _ (b mod 16)) by (by apply hex_digit_char || lia).
  cbn [hex_digits]. f_equal. lia.
Qed.

Lemma split_hex_byte b s : (b < 256)%N ->
  split_at ":" (hex_byte b ++ String ":" s)%string = hex_byte b :: split_at ":" s
  /\ split_at ":" (hex_byte b) = [hex_byte b].
Proof.
  intros Hb. assert (b / 16 < 16)%N as Hh by (apply N.Div0.div_lt_upper_bound; lia).
  assert (b mod 16 < 16)%N as Hl by (by apply N.mod_lt).
  destruct (hex_char_plain _ Hh) as [E1 _], (hex_char_plain _ Hl) as [E2 _].
  unfold hex_byte. revert E1 E2. generalize (hex_char (b / 16)) as c1, (hex_char (b mod 16)) as c2.
  intros c1 c2 E1 E2. change (String c1 (String c2 "") +:+ String ":" s) with (String c1 (String c2 (String ":" s))).
  split; cbn; by rewrite ?E1, ?E2.
Qed.

Lemma hex_byte_length b : String.length (hex_byte b) = 2.
Proof. done. Qed.

(** A printed fingerprint is parsed back. *)
Theorem fingerprint_roundtrip f :
  length f = 32 -> Forall (fun b => b < 256)%N f -> fingerprint_parse (fingerprint_display f) = Ret f.
Proof.
  unfold fingerprint_parse. intros Hl Hf.
  assert (f = [] \/ parse_fields (length f) (split_at ":" (fingerprint_display f)) = Ret f) as [->|H];
    [|done|by rewrite <- Hl at 1].
  clear Hl. induction f as [|b f IH]; [by left|]. right. apply Forall_cons in Hf as [Hb Hf].
  destruct (split_hex_byte b (fingerprint_display f) Hb) as [Hs1 Hs2].
  destruct f as [|b' f].
  - cbn [fingerprint_display length]. rewrite Hs2. cbn [parse_fields]. by rewrite hex_byte_length, u8_from_hex_byte.
  - change (fingerprint_display (b :: b' :: f)) with (hex_byte b +:+ String ":" (fingerprint_display (b' :: f))).
    rewrite Hs1. destruct (IH Hf) as [?|IH']; [done|]. revert IH'. generalize (b' :: f) as g. intros g IH'.
    cbn [length parse_fields]. rewrite hex_byte_length, u8_from_hex_byte by done. cbn. by rewrite IH'.
Qed.

(** ** What a connection carries *)

Lemma write_all_prefix bytes c r c' :
  write_all_before bytes c = (r, c') ->
  (r = Ret tt /\ cn_outgoing c' = cn_outgoing c ++ bytes)
  \/ (exists e p, r = Throw e /\ p `prefix_of` bytes /\ cn_outgoing c' = cn_outgoing c ++ p).
Proof.
  unfold write_all_before, next_fault. destruct (cn_faults c) as [|[f|] fs]; intros [= <- <-].
  - by left.
  - right. exists (fault_error (fl_kind f)), (take (fl_progress f) bytes). split_and!; [done| |done].
    eexists. symmetry. apply take_drop.
  - by left.
Qed.

(** A frame is written whole, or a part from its beginning and an error. *)
Lemma write_frame_prefix f c r c' :
  write_frame f c = (r, c') ->
  (r = Ret tt /\ cn_outgoing c' = cn_outgoing c ++ to_vec f)
  \/ (exists e p, r = Throw e /\ p `prefix_of` to_vec f /\ cn_outgoing c' = cn_outgoing c ++ p).
Proof.
  unfold write_frame, conn_bind, to_vec.
  destruct (write_all_before (ef_prefix f) c) as [r1 c1] eqn:E1.
  destruct (write_all_prefix _ _ _ _ E1) as [[-> H1]|(e & p & -> & Hp & H1)].
  2:{ intros [= <- <-]. right. exists e, p. split_and!; [done|by apply prefix_app_r|done]. }
  destruct (write_all_before (ef_header f) c1) as [r2 c2] eqn:E2.
  destruct (write_all_prefix _ _ _ _ E2) as [[-> H2]|(e & p & -> & Hp & H2)].
  2:{ intros [= <- <-]. right. exists e, (ef_prefix f ++ p). rewrite H2, H1, <- app_assoc.
      split_and!; [done| |done]. by apply prefix_app, prefix_app_r. }
  destruct (ef_payload f) as [payload|]; cbn [from_option].
  - intros E3. destruct (write_all_prefix _ _ _ _ E3) as [[-> H3]|(e & p & -> & Hp & H3)];
      rewrite H2, H1 in H3; [left|right].
    + split; [done|]. by rewrite H3, <- !app_assoc.
    + exists e, (ef_prefix f ++ ef_header f ++ p). rewrite H3. split_and!; [done| |by rewrite <- !app_assoc].
      by do 2 apply prefix_app.
  - intros [= <- <-]. left. split; [done|]. by rewrite H2, H1, app_nil_r, app_assoc.
Qed.

Abbreviation controls := (filter (fun m => is_payload m = false)) (only parsing).
Abbreviation payloads := (filter (fun m => is_payload m = true)) (only parsing).

Section stream.
Context {C : Type -> Type} {M : Mpsc C} {L : MpscLaws C}.
Variable sha256 : list byte -> list byte.
Variable max : N.

Definition under_way (w : Writer) : list WireMessage :=
  match w with WWriting om _ => [om_message om] | _ => [] end.

Definition slot (q : TransportQueues (C:=C)) : list WireMessage :=
  match tq_queued q with Some p => [qp_message p] | None => [] end.

Definition sent (written : list (WireMessage * EncodedFrame)) : list byte :=
  concat (map (fun w => to_vec (snd w)) written).

(** The bytes after the whole frames, by the state of the writer. *)
Definition tail_ok (accepted : list WireMessage) (w : Writer) (rest : list byte) : Prop :=
  match w with
  | WIdle => rest = []
  | WWriting om frame => rest = [] /\ encode_message sha256 (om_message om) max = Ret frame /\ om_message om ∈ accepted
  | WEnded r => rest = [] \/ exists e m frame, r = Throw e /\ m ∈ accepted
                  /\ encode_message sha256 m max = Ret frame /\ rest `prefix_of` to_vec frame
  end.

Record OutInv (accepted : list WireMessage) (s : Outgoing (C:=C)) : Prop := {
  oi_stream : exists written rest,
    Forall (fun w => encode_message sha256 (fst w) max = Ret (snd w)) written
    /\ cn_outgoing (og_conn s) = sent written ++ rest /\ tail_ok accepted (og_writer s) rest
    /\ (exists lost, controls accepted
          = controls (map fst written) ++ controls (under_way (og_writer s)) ++ lost ++ queued (tq_control (og_queues s))
        /\ (lost <> [] -> exists r, og_writer s = WEnded r))
    /\ payloads (map fst written) ++ payloads (under_way (og_writer s)) ++ slot (og_queues s)
         `sublist_of` payloads accepted;
  oi_slot : Forall (fun m => is_payload m = true) (slot (og_queues s));
  oi_active : xp_handoff_id <$> tq_active (og_queues s)
              = match og_writer s with WWriting om _ => om_handoff_id om | _ => None end;
  oi_one : tq_queued (og_queues s) = None \/ tq_active (og_queues s) = None }.

Lemma oi_control_plain accepted s m :
  OutInv accepted s -> m ∈ queued (tq_control (og_queues s)) -> is_payload m = false.
Proof.
  intros [(written & rest & _ & _ & _ & (lost & Hc & _) & _) _ _ _] Hm.
  assert (m ∈ controls accepted) as Hf by (rewrite Hc, !elem_of_app; auto).
  by apply list_elem_of_filter in Hf as [? _].
Qed.

Lemma tail_ok_mono accepted more w rest : tail_ok accepted w rest -> tail_ok (accepted ++ more) w rest.
Proof.
  destruct w; cbn; [done|..].
  - intros (? & ? & ?). split_and!; [done..|]. apply elem_of_app; auto.
  - intros [?|(e & m & f & ? & ? & ? & ?)]; [auto|]. right. exists e, m, f. split_and!; try done. apply elem_of_app; auto.
Qed.

(** An accepted message joins its queue. *)
Lemma step_control accepted s m q :
  OutInv accepted s -> try_send_control m (og_queues s) = (Ret tt, q) -> OutInv (accepted ++ [m]) (s <| og_queues := q |>).
Proof.
  intros [(written & rest & Hw & Ho & Ht & (lost & Hc & Hl) & Hp) Hs Ha H1].
  unfold try_send_control. destruct (is_payload m) eqn:Hm; [done|].
  destruct (try_send _ m) as [control|[]] eqn:E; [|done..]. intros [= <-]. apply try_send_inl in E.
  split; cbn; [|done..]. exists written, rest. split_and!; [done|done|by apply tail_ok_mono| |].
  - exists lost. rewrite filter_app, Hc, E. cbn. rewrite decide_True by done. split; [by rewrite <- !app_assoc|done].
  - rewrite filter_app. cbn. rewrite decide_False by congruence. by rewrite app_nil_r.
Qed.

Lemma step_payload accepted s m q :
  OutInv accepted s -> try_send_payload m (og_queues s) = (Ret tt, q) -> OutInv (accepted ++ [m]) (s <| og_queues := q |>).
Proof.
  intros [(written & rest & Hw & Ho & Ht & (lost & Hc & Hl) & Hp) Hs Ha H1].
  unfold try_send_payload. destruct (is_payload m) eqn:Hm; [|done]. cbn [negb].
  destruct (message_handoff_id m) as [id|]; [|done].
  destruct (tq_queued (og_queues s)) eqn:Eq; [by rewrite bool_decide_true by eauto|].
  destruct (tq_active (og_queues s)) eqn:Ea; [by rewrite orb_comm, bool_decide_true by eauto|].
  rewrite !bool_decide_false by (by intros [? ?]). intros [= <-].
  split; cbn; [|by constructor|by rewrite Ea|by right]. exists written, rest.
  split_and!; [done|done|by apply tail_ok_mono| |].
  - exists lost. rewrite filter_app. cbn. rewrite decide_False by congruence. by rewrite app_nil_r.
  - rewrite filter_app. cbn. rewrite decide_True by done. unfold slot in Hp. rewrite Eq, app_nil_r in Hp.
    rewrite app_assoc. by apply sublist_app.
Qed.

(** Dropping the queued payload and flagging the active one loses nothing else. *)
Lemma step_drop accepted s q :
  OutInv accepted s -> tq_control q = tq_control (og_queues s) ->
  tq_queued q = tq_queued (og_queues s) \/ tq_queued q = None ->
  xp_handoff_id <$> tq_active q = xp_handoff_id <$> tq_active (og_queues s) -> OutInv accepted (s <| og_queues := q |>).
Proof.
  intros [(written & rest & Hw & Ho & Ht & Hc & Hp) Hs Ha H1] Ec Eq Ea.
  assert (slot q = slot (og_queues s) \/ slot q = []) as Esl by (unfold slot; destruct Eq as [-> | ->]; auto).
  split; cbn.
  - exists written, rest. split_and!; [done..|by rewrite Ec|]. destruct Esl as [-> | ->]; [done|].
    etrans; [|exact Hp]. rewrite app_nil_r, app_assoc. by apply sublist_inserts_r.
  - destruct Esl as [-> | ->]; [done|constructor].
  - by rewrite Ea.
  - destruct Eq as [-> | ->]; [|by left]. destruct H1 as [H1|H1]; [by left|right].
    rewrite H1 in Ea. by destruct (tq_active q).
Qed.

Lemma step_cancel accepted s id :
  OutInv accepted s -> OutInv accepted (s <| og_queues := snd (cancel_handoff id (og_queues s)) |>).
Proof.
  intros H. apply step_drop; [done|..]; unfold cancel_handoff; cbn [snd].
  - by repeat case_match.
  - repeat case_match; cbn; auto.
  - destruct (is_some_and (tq_active _) _) eqn:Ea; [|by case_match].
    destruct (tq_active (og_queues s)) as [p|]; [|done]. cbn in Ea. apply bool_decide_eq_true in Ea as <-. done.
Qed.

Lemma step_shutdown accepted s : OutInv accepted s -> OutInv accepted (s <| og_queues ::= transport_shutdown |>).
Proof.
  intros H. apply (step_drop accepted s (transport_shutdown (og_queues s))); [done|done|by right|].
  unfold transport_shutdown. cbn. by destruct (tq_active _).
Qed.

(** The writer takes the payload or the first control message, or stops. *)
Lemma next_poll_taken q om q' :
  next_poll q = (NextMessage om, q') ->
  (exists p, tq_queued q = Some p /\ om = mkOutbound (qp_message p) (Some (qp_handoff_id p))
     /\ q' = q <| tq_queued := None |> <| tq_active := Some (mkActivePayload (qp_handoff_id p) false) |>)
  \/ (exists control m, tq_queued q = None /\ queued (tq_control q) = m :: queued control
     /\ om = mkOutbound m None /\ q' = q <| tq_control := control |>).
Proof.
  unfold next_poll. destruct (tq_queued q) as [p|].
  - intros [= <- <-]. left. by exists p.
  - destruct (tq_cancelled q); [done|]. destruct (recv_ready (tq_control q)) as [[m control]|] eqn:E; [|by case_match].
    intros [= <- <-]. right. exists control, m. by apply recv_ready_Some in E.
Qed.
(** The state after a message was taken, before it is encoded. *)
Lemma step_take accepted s om q :
  OutInv accepted s -> og_writer s = WIdle -> next_poll (og_queues s) = (NextMessage om, q) ->
  om_message om ∈ accepted /\ xp_handoff_id <$> tq_active q = om_handoff_id om /\ tq_queued q = None
  /\ exists written, Forall (fun w => encode_message sha256 (fst w) max = Ret (snd w)) written
    /\ cn_outgoing (og_conn s) = sent written
    /\ controls accepted = controls (map fst written) ++ controls [om_message om] ++ queued (tq_control q)
    /\ payloads (map fst written) ++ payloads [om_message om] `sublist_of` payloads accepted.
Proof.
  intros Hinv Ew Hn. pose proof Hinv as [(written & rest & Hw & Ho & Ht & (lost & Hc & Hl) & Hp) Hs Ha H1].
  rewrite Ew in Ht, Hc, Hl, Hp, Ha. cbn in Ht. subst rest. rewrite app_nil_r in Ho. cbn [under_way filter app] in Hc, Hp.
  assert (lost = []) as ->.
  { destruct lost; [done|]. by destruct Hl as [r ?]. }
  apply next_poll_taken in Hn as [(p & Ep & -> & ->)|(control & m & Ep & Eq & -> & ->)];
    unfold slot in Hp, Hs; rewrite Ep in Hp, Hs; cbn [om_message om_handoff_id].
  - rewrite Forall_singleton in Hs.
    assert (payloads [qp_message p] = [qp_message p]) as E by (cbn; by rewrite decide_True).
    split_and!; [|done..|].
    + assert (qp_message p ∈ payloads accepted) as Hin; [|by apply list_elem_of_filter in Hin as [_ ?]].
      eapply elem_of_submseteq; [|by apply sublist_submseteq]. cbn. apply elem_of_app. right. by left.
    + exists written. rewrite E. split_and!; [done|done| |done]. rewrite Hc. cbn. by rewrite decide_False by congruence.
  - assert (is_payload m = false) as Hm.
    { eapply oi_control_plain; [exact Hinv|]. rewrite Eq. by left. }
    split_and!; [|exact Ha|exact Ep|].
    + assert (m ∈ controls accepted) as Hin; [|by apply list_elem_of_filter in Hin as [_ ?]].
      rewrite Hc, Eq, !elem_of_app. do 3 right. by left.
    + exists written. split_and!; [done|done| |].
      * rewrite Hc, Eq. cbn. by rewrite decide_True.
      * cbn. by rewrite decide_False by congruence.
Qed.

Lemma complete_active om (q : TransportQueues (C:=C)) :
  xp_handoff_id <$> tq_active q = om_handoff_id om ->
  tq_active (complete om q) = None /\ tq_queued (complete om q) = tq_queued q /\ tq_control (complete om q) = tq_control q.
Proof.
  unfold complete, complete_payload. destruct (om_handoff_id om), (tq_active q) as [p|] eqn:E; try done.
  intros [= <-]. cbn. by rewrite bool_decide_true.
Qed.

Lemma step_poll accepted s w (q : TransportQueues (C:=C)) :
  OutInv accepted s -> og_writer s = WIdle -> writer_poll sha256 max (og_queues s) = (w, q) ->
  OutInv accepted (s <| og_queues := q |> <| og_writer := w |>).
Proof.
  intros Hinv Ew. unfold writer_poll. destruct (next_poll (og_queues s)) as [[om| |] q1] eqn:Hn.
  - destruct (step_take _ _ _ _ Hinv Ew Hn) as (Hm & Ha & Eq & written & Hw & Ho & Hc & Hp).
    destruct (encode_message sha256 (om_message om) max) as [frame|e|e] eqn:He; intros [= <- <-]; [|
      destruct (complete_active om q1 Ha) as (Ca & Cq & Cc)..].
    + split; cbn; [|unfold slot; rewrite Eq; constructor|done|by left]. exists written, [].
      unfold slot. rewrite Eq, app_nil_r. split_and!; [done|done|done|done|done|by exists []|]. by rewrite app_nil_r.
    + split; cbn; [|unfold slot; rewrite Cq, Eq; constructor|by rewrite Ca|by right]. exists written, [].
      unfold slot. rewrite Cq, Cc, Eq, app_nil_r. split_and!; [done|done|by left|exists (controls [om_message om]); eauto|].
      cbn. rewrite app_nil_r. etrans; [|exact Hp]. by apply sublist_inserts_r.
    + split; cbn; [|unfold slot; rewrite Cq, Eq; constructor|by rewrite Ca|by right]. exists written, [].
      unfold slot. rewrite Cq, Cc, Eq, app_nil_r. split_and!; [done|done|by left|exists (controls [om_message om]); eauto|].
      cbn. rewrite app_nil_r. etrans; [|exact Hp]. by apply sublist_inserts_r.
  - intros [= <- <-]. assert (q1 = og_queues s) as ->.
    { revert Hn. unfold next_poll. repeat case_match; congruence. }
    destruct Hinv as [(written & rest & Hw & Ho & Ht & (lost & Hc & Hl) & Hp) Hs Ha H1].
    rewrite Ew in Ht, Hc, Hl, Hp, Ha. split; cbn; [|done..]. exists written, rest. split_and!; [done|done|by left| |done].
    exists lost. split; [done|]. intros Hne. by destruct (Hl Hne).
  - intros [= <- <-]. apply (step_drop _ _ q1) in Hinv; [|revert Hn; unfold next_poll; repeat case_match; intros [= <-]; auto..].
    destruct Hinv as [Hst Hs Ha H1]. cbn in *. rewrite Ew in Hst, Ha. by split.
Qed.

(** The transfer ends: the frame is complete, or the writer has ended. *)
Lemma step_transfer accepted s om frame faults w q c :
  OutInv accepted s -> og_writer s = WWriting om frame ->
  writer_transfer om frame (og_queues s) ((og_conn s) <| cn_faults := faults |>) = (w, q, c) ->
  OutInv accepted (mkOutgoing q w c).
Proof.
  intros [(written & rest & Hw & Ho & Ht & (lost & Hc & Hl) & Hp) Hs Ha H1] Ew.
  rewrite Ew in Ht, Hc, Hl, Hp, Ha. destruct Ht as (-> & He & Hm). rewrite app_nil_r in Ho.
  assert (lost = []) as ->.
  { destruct lost; [done|]. by destruct Hl as [r ?]. }
  destruct (complete_active om _ Ha) as (Ca & Cq & Cc).
  unfold writer_transfer. destruct (write_frame frame _) as [r c1] eqn:Hf. intros [= <- <- <-].
  assert (slot (complete om (og_queues s)) = slot (og_queues s)) as Esl by (unfold slot; by rewrite Cq).
  apply write_frame_prefix in Hf as [[-> Hf]|(e & p & -> & Hpre & Hf)]; cbn in Hf.
  - split; cbn; [|by rewrite Esl|by rewrite Ca|by right]. exists (written ++ [(om_message om, frame)]), [].
    rewrite Cc, Esl. split_and!.
    + apply Forall_app. split; [done|by constructor].
    + rewrite Hf, Ho. unfold sent. rewrite map_app, concat_app. cbn. by rewrite !app_nil_r.
    + done.
    + exists []. split; [|done]. rewrite Hc, map_app, filter_app. by rewrite <- app_assoc.
    + rewrite map_app, filter_app, <- app_assoc. done.
  - split; cbn; [|by rewrite Esl|by rewrite Ca|by right]. exists written, p. rewrite Cc, Esl. split_and!.
    + done.
    + by rewrite Hf, Ho.
    + right. exists (TeFrame e), (om_message om), frame. done.
    + exists (controls (under_way (WWriting om frame))). split; [done|eauto].
    + etrans; [|exact Hp]. apply sublist_app; [done|]. by apply sublist_inserts_l.
Qed.

Lemma out_step_inv accepted s i a s' :
  OutInv accepted s -> out_step sha256 max i s = (a, s') -> OutInv (accepted ++ a) s'.
Proof.
  intros H. assert (OutInv (accepted ++ []) s) as H0 by (by rewrite app_nil_r).
  destruct i as [m|m|id| | |faults]; cbn [out_step].
  - destruct (try_send_control m _) as [[[]|e|e] q] eqn:E; intros [= <- <-]; [by apply step_control|..];
      apply step_drop; try done; revert E; unfold try_send_control; repeat case_match; intros ?; simplify_eq; auto.
  - destruct (try_send_payload m _) as [[[]|e|e] q] eqn:E; intros [= <- <-]; [by apply step_payload|..];
      apply step_drop; try done; revert E; unfold try_send_payload; repeat case_match; intros ?; simplify_eq; auto.
  - intros [= <- <-]. by apply step_cancel.
  - intros [= <- <-]. by apply step_shutdown.
  - destruct (og_writer s) eqn:Ew; [|by intros [= <- <-]..].
    destruct (writer_poll sha256 max _) as [w q] eqn:E. intros [= <- <-]. by eapply step_poll.
  - destruct (og_writer s) eqn:Ew; [by intros [= <- <-]| |by intros [= <- <-]].
    destruct (writer_transfer _ _ _ _) as [[w q] c] eqn:E. intros [= <- <-]. by eapply step_transfer.
Qed.

Lemma out_run_inv steps : forall accepted s a s',
  OutInv accepted s -> out_run sha256 max steps s = (a, s') -> OutInv (accepted ++ a) s'.
Proof.
  induction steps as [|i steps IH]; intros accepted s a s' H; cbn.
  - intros [= <- <-]. by rewrite app_nil_r.
  - destruct (out_step sha256 max i s) as [a1 s1] eqn:E1, (out_run sha256 max steps s1) as [a2 s2] eqn:E2.
    intros [= <- <-]. rewrite app_assoc. by eapply IH, E2; eapply out_step_inv.
Qed.
End stream.

(** In every order of uses of the handle and turns of the writer, the bytes on
    the connection are whole frames of accepted messages, followed by part of
    another one only when the writer has ended with an error.  Control messages
    are written in the order in which they were accepted, and while the writer
    runs none is lost; payloads are written in order and at most once, and at
    most one of them is queued or under way. *)
Theorem outgoing_stream {C} {M : Mpsc C} {L : MpscLaws C} sha256 max control incoming steps accepted s :
  queued control = [] ->
  out_run sha256 max steps (mkOutgoing (transport_queues control) WIdle (mkConn incoming [] [])) = (accepted, s) ->
  exists written rest,
    Forall (fun w => encode_message sha256 (fst w) max = Ret (snd w)) written
    /\ cn_outgoing (og_conn s) = concat (map (fun w => to_vec (snd w)) written) ++ rest
    /\ (rest <> [] -> exists e m frame, og_writer s = WEnded (Throw e) /\ m ∈ accepted
         /\ encode_message sha256 m max = Ret frame /\ rest `prefix_of` to_vec frame)
    /\ controls (map fst written) `prefix_of` controls accepted
    /\ ((forall r, og_writer s <> WEnded r) ->
        controls accepted = controls (map fst written) ++ controls (under_way (og_writer s)) ++ queued (tq_control (og_queues s)))
    /\ payloads (map fst written) `sublist_of` payloads accepted
    /\ (tq_queued (og_queues s) = None \/ tq_active (og_queues s) = None).
Proof.
  intros Hq Hrun. eapply (out_run_inv sha256 max steps []) in Hrun.
  - destruct Hrun as [(written & rest & Hw & Ho & Ht & (lost & Hc & Hl) & Hp) Hs Ha H1]. exists written, rest.
    split_and!; try done.
    + intros Hne. destruct (og_writer s) as [|om f|r]; cbn in Ht; [done|by destruct Ht|].
      destruct Ht as [?|(e & m & f & -> & ? & ? & ?)]; [done|]. by exists e, m, f.
    + cbn in Hc. rewrite Hc. by apply prefix_app_r.
    + intros Hrun. cbn in Hc. rewrite Hc. destruct lost; [done|]. destruct Hl as [r Hr]; [done|]. by apply Hrun in Hr.
    + cbn in Hp. etrans; [|exact Hp]. by apply sublist_inserts_r.
  - split; cbn; [|constructor|done|by left]. exists [], []. split_and!; try done. exists []. by rewrite Hq.
Qed.

Definition demo_outgoing : list WireMessage * Outgoing (C:=ListChan) :=
  out_run sum_digest 2 [OsControl (WPrepareTarget demo_envelope); OsPayload demo_message; OsPoll; OsTransfer []; OsPoll;
                        OsControl (WCancelHandoff (mkHandoffId 7 4)); OsTransfer [None; Some (mkFault FaultIo 3)]]
    (mkOutgoing (transport_queues (mkChan [] CONTROL_CLASS_COUNT false false)) WIdle (mkConn [] [] [])).
Lemma outgoing_stream_witness :
  fst demo_outgoing = [WPrepareTarget demo_envelope; demo_message; WCancelHandoff (mkHandoffId 7 4)]
  /\ exists written rest, cn_outgoing (og_conn (snd demo_outgoing)) = concat (map (fun w : WireMessage * EncodedFrame => to_vec (snd w)) written) ++ rest.
Proof.
  split; [vm_compute; reflexivity|].
  destruct (outgoing_stream (C:=ListChan) (M:=_) (L:=ListChan_laws) sum_digest 2 (mkChan [] CONTROL_CLASS_COUNT false false) []
    [OsControl (WPrepareTarget demo_envelope); OsPayload demo_message; OsPoll; OsTransfer []; OsPoll;
     OsControl (WCancelHandoff (mkHandoffId 7 4)); OsTransfer [None; Some (mkFault FaultIo 3)]]
    (fst demo_outgoing) (snd demo_outgoing) eq_refl (surjective_pairing _)) as (written & rest & _ & H & _).
  by exists written, rest.
Defined.

(** ** What a connection delivers *)

(** The identities that the validator of a connection is shown; the digest of
    a payload is not among them. *)
Definition message_metadata (m : WireMessage) : FrameMetadata :=
  frame_metadata (message_type m) (header_of (fun _ => []) m).

Lemma read_validated {E} sha256 (from : FrameError -> E) validator max c m c' :
  read_next_frame_validated sha256 from validator max c = (Ret m, c') -> validator (message_metadata m) = Ret tt.
Proof.
  unfold read_next_frame_validated, read_frame_after_prefix.
  intros (first & c1 & _ & H)%conn_bind_Ret. apply conn_bind_Ret in H as (rest & c2 & _ & H).
  apply conn_bind_Ret in H as (decoded & c3 & _ & H). apply conn_bind_Ret in H as (header & c4 & _ & H).
  apply conn_bind_Ret in H as (parsed & c5 & _ & H). apply conn_bind_Ret in H as (u & c6 & _ & H).
  apply conn_bind_Ret in H as ([] & c7 & [Hv _]%conn_lift_Ret & H).
  apply conn_bind_Ret in H as (payload & c8 & _ & [Hf%map_err_Ret _]%conn_lift_Ret).
  rewrite <- Hv. apply finish_message_exact in Hf as (<- & <- & _ & _). unfold message_metadata.
  f_equal. by destruct m.
Qed.

(** A message that the reader queues has passed the validator. *)
Lemma reader_step_validated {C} {M : Mpsc C} sha256 max validator (b : Inbound (C:=C)) c m b' c' :
  reader_step sha256 max validator b c = (Ret m, b', c') -> validator (message_metadata m) = Ret tt.
Proof.
  unfold reader_step.
  destruct (read_next_frame_validated sha256 TeFrame validator max c) as [[m'|e|e] c1] eqn:E; [|done..].
  apply read_validated in E. intros H. assert (m' = m) as ->; [|done].
  revert H. destruct m'; repeat case_match; congruence.
Qed.

Lemma validate_metadata_authority_Ret f m :
  validate_metadata_authority f m = Ret tt ->
  exists id, fm_handoff_id m = Some id /\ hi_authority_session_id id = pf_authority_session_id f
    /\ (forall t, fm_source_token m = Some t -> tk_authority_session_id t = pf_authority_session_id f)
    /\ (forall t, fm_target_token m = Some t -> tk_authority_session_id t = pf_authority_session_id f).
Proof.
  unfold validate_metadata_authority. intros (id & Hid%ok_or_Ret & Hg%guard_not_Ret)%exec_bind_Ret.
  exists id. apply orb_false_iff in Hg as [[H1%negb_false_iff%N.eqb_eq H2]%orb_false_iff H3].
  split_and!; [done|done|..]; intros t Ht.
  - rewrite Ht in H2. by apply negb_false_iff, N.eqb_eq in H2.
  - rewrite Ht in H3. by apply negb_false_iff, N.eqb_eq in H3.
Qed.
