(* ===== verification/ClipManager.v ===== *)
(** * The clipboard transport of lan-mouse (clipboard_transport.rs)

    One task manages the connections of a host: the server connects to every
    peer, a peer listens.  A connection that passed the handshake is registered,
    announced to the runtime and served by a task that forwards its messages;
    the end of that task comes back to the manager.

    A connection's queues, its cancellation token and the sender that lets its
    connector go on are numbers; the calls on them are written to the list of
    outputs.  The network is the outcome of each attempt. *)

From stdpp Require Import base tactics list gmap sets sorting strings.
From Stdlib Require Import NArith Lia Strings.Byte.
From S2P Require Import Prelude Channels Bytes Domain SwitchGate Clients ClipTypes ClipFrame ClipTransport.

Definition HANDSHAKE_BUDGET_MS : N := 10000.
Definition RECONNECT_INITIAL_MS : N := 250.
Definition RECONNECT_MAX_MS : N := 5000.
Definition PER_PEER_EVENT_CLASSES : N := 10.
Definition FIXED_EVENT_CLASSES : N := 2.

(** [host_id] *)
Definition host_id (h : SwitchHost) : HostId := SwitchHost_to_string h.

(** [text_v1_capability] *)
Definition text_v1_capability (backend_ready : bool) : N :=
  if backend_ready then CLIPBOARD_TEXT_V1 else 0.

(** ** Configuration *)

Inductive PeerEndpoint :=
| EpIp (address : SocketAddr)
| EpHostname (hostname : string) (port : N).

Record ClipboardPeerConfig := mkPeerConfig {
  pc_host_id : HostId;
  pc_fingerprint : Fingerprint;
  pc_endpoints : list PeerEndpoint }.

Section configured.
(** The iteration order of a set of addresses. *)
Context (ip_iter : gset IpAddr -> list IpAddr).

(** The fingerprint of a client: the first entry, in the order of the map,
    that is described by its host name or its place and can be parsed. *)
Fixpoint client_fingerprint (hostname canonical : string) (entries : list (string * string)) : option Fingerprint :=
  match entries with
  | [] => None
  | (fingerprint, description) :: entries =>
      if bool_decide (description = hostname) || bool_decide (description = canonical)
      then match fingerprint_parse fingerprint with
           | Ret f => Some f
           | _ => client_fingerprint hostname canonical entries
           end
      else client_fingerprint hostname canonical entries
  end.

(** One turn of the loop of [configured_peers]. *)
Definition configure_client (entries : list (string * string)) (client : ConfigClient)
  (acc : gmap string ClipboardPeerConfig * list (list N * string)) : gmap string ClipboardPeerConfig * list (list N * string) :=
  match fc_switch_target client, fc_hostname client with
  | Some target, Some hostname =>
      let canonical := host_id target in
      match client_fingerprint hostname canonical entries with
      | None => acc
      | Some fingerprint =>
          let endpoints := map (fun ip => EpIp (mkAddr ip (fc_port client))) (ip_iter (fc_ips client))
                           ++ [EpHostname hostname (fc_port client)] in
          (<[canonical := mkPeerConfig canonical fingerprint endpoints]> (fst acc), snd acc ++ [(fingerprint, canonical)])
      end
  | _, _ => acc
  end.

Definition host_before (a b : ClipboardPeerConfig) : Prop := String.leb (pc_host_id a) (pc_host_id b) = true.
#[global] Instance host_before_dec : RelDecision host_before.
Proof. intros a b. unfold host_before. apply _. Defined.

Definition configured_peers (clients : list ConfigClient) (entries : list (string * string))
  : list ClipboardPeerConfig * gmap (list N) string :=
  let '(by_host, authorized) := foldl (fun acc client => configure_client entries client acc) (∅, []) clients in
  (merge_sort host_before (snd <$> map_to_list by_host), authorized_new authorized).
End configured.

(** [ClipboardTransportRole]; the shared cell of a peer is in the state. *)
Inductive ClipboardTransportRole :=
| CtAuthority (authority_session_id : AuthoritySessionId)
| CtPeer.

(** [ClipboardTransportConfig], as far as it is read after the start; the
    identity is the TLS library's. *)
Record ClipboardTransportConfig := mkTransportConfig {
  tc_enabled : bool;
  tc_local_host : HostId;
  tc_process_session_id : ProcessSessionId;
  tc_max_bytes : N;
  tc_capabilities : N;
  tc_port : N;
  tc_peers : list ClipboardPeerConfig;
  tc_authorized_peers : gmap (list N) string;
  tc_role : ClipboardTransportRole }.
#[global] Instance ClipboardTransportConfig_eta : RecordEta ClipboardTransportConfig := fun c =>
  mkTransportConfig (tc_enabled c) (tc_local_host c) (tc_process_session_id c) (tc_max_bytes c) (tc_capabilities c)
    (tc_port c) (tc_peers c) (tc_authorized_peers c) (tc_role c).

(** The capacity of the event queue in [ClipboardTransport::start] *)
Definition event_capacity (c : ClipboardTransportConfig) : N :=
  sat_add FIXED_EVENT_CLASSES (N.min u64_max (N.max (N.of_nat (length (tc_peers c))) 1 * PER_PEER_EVENT_CLASSES)).

Inductive ClipboardTransportEvent :=
| TvConnected (peer : NegotiatedPeer) (outbound : nat)
| TvDisconnected (host : HostId) (process_session_id : ProcessSessionId) (connection_id : N)
| TvMessage (host : HostId) (process_session_id : ProcessSessionId) (connection_id : N) (message : WireMessage).

(** ** What a connection may carry *)

(** [validate_authority_metadata]; the cell is read. *)
Definition validate_authority_metadata (m : FrameMetadata) (authority_session : option AuthoritySessionId)
  (local_host : HostId) (local_process_session_id : ProcessSessionId) : exec TransportError unit :=
  match fm_message_type m with
  | MTAuthorityState | MTProtocolError => Ret tt
  | t =>
      let* authority_session_id := ok_or authority_session TeStaleAuthoritySession in
      let* handoff_id := ok_or (fm_handoff_id m) TeMissingIdentity in
      let* _ := guard_not (negb (hi_authority_session_id handoff_id =? authority_session_id)%N) TeStaleAuthoritySession in
      match t with
      | MTPrepareTarget | MTOwnershipActivated | MTSnapshotDeliver =>
          let* _ := guard_not (match fm_target_token m with
                               | Some token => negb (bool_decide (tk_owner_host_id token = local_host))
                               | None => true
                               end) TeAuthenticatedHostMismatch in
          guard_not (negb (bool_decide (fm_target_process_session_id m = Some local_process_session_id))) TeStalePeerSession
      | _ => Ret tt
      end
  end.

(** [metadata_validator] *)
Definition metadata_validator (role : ClipboardTransportRole) (peer : NegotiatedPeer) (local_host : HostId)
  (local_process_session_id : ProcessSessionId) (authority_session : option AuthoritySessionId) (m : FrameMetadata)
  : exec TransportError unit :=
  match role with
  | CtAuthority authority_session_id =>
      let fence := mkFence authority_session_id (np_host_id peer) (np_process_session_id peer) (np_connection_id peer) in
      match fm_message_type m with
      | MTSnapshotOffer => validate_source_metadata fence m
      | MTPrepareResult | MTApplyResult => validate_target_metadata fence m
      | MTProtocolError => Ret tt
      | _ => Throw TeAuthenticatedHostMismatch
      end
  | CtPeer => validate_authority_metadata m authority_session local_host local_process_session_id
  end.

(** [accept_authority_state]: whether the connection goes on, and the cell. *)
Definition accept_authority_state (role : ClipboardTransportRole) (peer_process_session_id : ProcessSessionId)
  (message : WireMessage) (cell : option AuthoritySessionId) : bool * option AuthoritySessionId :=
  match role, message with
  | CtPeer, WAuthorityState state =>
      if negb (as_authority_process_session_id state =? peer_process_session_id)%N then (false, cell)
      else
        let session := tk_authority_session_id (as_current_token state) in
        if is_some_and (as_active_handoff state) (fun h =>
             negb (hi_authority_session_id (he_handoff_id h) =? session)%N
             || negb (tk_authority_session_id (he_source_token h) =? session)%N
             || negb (tk_authority_session_id (he_target_token h) =? session)%N)
        then (false, cell)
        else (true, Some session)
  | _, _ => (true, cell)
  end.

(** ** The task of a connection *)

Section transport.
Context {C : Type -> Type} {M : Mpsc C}.

(** What the task waits for. *)
Inductive ConnectionInput :=
| CiCancelled
| CiReaderEnded
| CiWriterEnded
| CiControl (message : option WireMessage)
| CiPayload (payload : option ClipboardPayload).

(** What the task shares with others: the cell of the authority session and
    the queue of events. *)
Record Shared := mkShared {
  sh_authority_session : option AuthoritySessionId;
  sh_events : C ClipboardTransportEvent }.
#[global] Instance Shared_eta : RecordEta Shared := fun s => mkShared (sh_authority_session s) (sh_events s).

(** Forwarding a message; the connection ends when it is not accepted. *)
Definition forward_message (peer : NegotiatedPeer) (message : WireMessage) (s : Shared) : bool * Shared :=
  match try_send (sh_events s)
          (TvMessage (np_host_id peer) (np_process_session_id peer) (np_connection_id peer) message) with
  | inl events => (true, s <| sh_events := events |>)
  | inr _ => (false, s)
  end.

(** One turn of the loop in [start_connection]; [false] leaves it. *)
Definition connection_step (role : ClipboardTransportRole) (peer : NegotiatedPeer) (input : ConnectionInput) (s : Shared)
  : bool * Shared :=
  match input with
  | CiCancelled | CiReaderEnded | CiWriterEnded | CiControl None | CiPayload None => (false, s)
  | CiControl (Some message) =>
      let '(accepted, cell) := accept_authority_state role (np_process_session_id peer) message (sh_authority_session s) in
      let s := s <| sh_authority_session := cell |> in
      if negb accepted then (false, s) else forward_message peer message s
  | CiPayload (Some payload) =>
      forward_message peer
        (match role with CtAuthority _ => WSnapshotOffer payload | CtPeer => WSnapshotDeliver payload end) s
  end.

(** ** The manager *)

(** [RawConnection], with the queues that [start_connection] would give it. *)
Record RawConnection := mkRaw {
  rw_authenticated_peer : AuthenticatedPeer;
  rw_hello : ClipboardHello;
  rw_outbound : nat;
  rw_reconnect : option nat }.

Inductive ManagerEvent :=
| MeConnection (raw : RawConnection)
| MeEnded (host : HostId) (connection_id : N).

(** [ActiveConnection]; queues and cancellation token are those of
    [av_outbound]. *)
Record ActiveConnection := mkActiveConnection {
  av_process_session_id : ProcessSessionId;
  av_connection_id : N;
  av_outbound : nat;
  av_reconnect : option nat }.

Inductive ManagerOutput :=
| MoStart (peer : NegotiatedPeer) (outbound : nat)
| MoShutdown (outbound : nat)
| MoCancel (outbound : nat)
| MoReconnect (connector : nat).

Record Manager := mkManager {
  mg_registry : PeerRegistry;
  mg_active : gmap string ActiveConnection;
  mg_events : C ClipboardTransportEvent }.
#[global] Instance Manager_eta : RecordEta Manager := fun m => mkManager (mg_registry m) (mg_active m) (mg_events m).

Definition reconnect (r : option nat) : list ManagerOutput :=
  match r with Some n => [MoReconnect n] | None => [] end.
Definition end_connection (c : ActiveConnection) : list ManagerOutput :=
  [MoShutdown (av_outbound c); MoCancel (av_outbound c)] ++ reconnect (av_reconnect c).

(** The arm [ManagerEvent::Connection], from the registered peer on. *)
Definition start_registered (peer : NegotiatedPeer) (raw : RawConnection) (m : Manager) : list ManagerOutput * Manager :=
  match try_send (mg_events m) (TvConnected peer (rw_outbound raw)) with
  | inr _ =>
      ([MoStart peer (rw_outbound raw); MoShutdown (rw_outbound raw); MoCancel (rw_outbound raw)]
         ++ reconnect (rw_reconnect raw), m)
  | inl events =>
      ([MoStart peer (rw_outbound raw)],
       m <| mg_events := events |>
         <| mg_active ::= <[np_host_id peer := mkActiveConnection (np_process_session_id peer) (np_connection_id peer)
                                              (rw_outbound raw) (rw_reconnect raw)]> |>)
  end.

(** One event of the loop in [run_manager]. *)
Definition manager_step (max_bytes : N) (event : ManagerEvent) (m : Manager) : list ManagerOutput * Manager :=
  match event with
  | MeConnection raw =>
      let '(outcome, registry) := register (rw_authenticated_peer raw) (rw_hello raw) max_bytes (mg_registry m) in
      let m := m <| mg_registry := registry |> in
      match outcome with
      | Ret (Accepted peer) => start_registered peer raw m
      | Ret (Replaced _ peer) =>
          let ended := match mg_active m !! np_host_id peer with Some previous => end_connection previous | None => [] end in
          let '(out, m) := start_registered peer raw (m <| mg_active ::= delete (np_host_id peer) |>) in
          (ended ++ out, m)
      | Ret (DuplicateRejected _) | Throw _ | Panic _ => (reconnect (rw_reconnect raw), m)
      end
  | MeEnded host connection_id =>
      match mg_active m !! host with
      | Some connection =>
          if negb (av_connection_id connection =? connection_id)%N then ([], m)
          else
            let m := m <| mg_active ::= delete host |>
                       <| mg_registry := snd (unregister host connection_id (mg_registry m)) |> in
            let m := match try_send (mg_events m) (TvDisconnected host (av_process_session_id connection) connection_id) with
                     | inl events => m <| mg_events := events |>
                     | inr _ => m
                     end in
            (reconnect (av_reconnect connection), m)
      | None => ([], m)
      end
  end.

(** The end of [run_manager] when it is cancelled, over the connections in
    their order of iteration. *)
Definition manager_cleanup (connections : list ActiveConnection) : list ManagerOutput :=
  concat (map end_connection connections).

Definition manager_new (events : C ClipboardTransportEvent) : Manager := mkManager registry_default ∅ events.

(** A turn of the manager, or the runtime taking an event from the queue; with
    the outputs and the events taken. *)
Inductive ManagerStep := MsEvent (event : ManagerEvent) | MsTaken.
Definition manager_turn (max_bytes : N) (i : ManagerStep) (m : Manager)
  : list ManagerOutput * list ClipboardTransportEvent * Manager :=
  match i with
  | MsEvent event => let '(out, m) := manager_step max_bytes event m in (out, [], m)
  | MsTaken => match recv_ready (mg_events m) with
               | Some (event, events) => ([], [event], m <| mg_events := events |>)
               | None => ([], [], m)
               end
  end.
Fixpoint manager_run (max_bytes : N) (steps : list ManagerStep) (m : Manager)
  : list ManagerOutput * list ClipboardTransportEvent * Manager :=
  match steps with
  | [] => ([], [], m)
  | i :: steps =>
      let '(out1, taken1, m) := manager_turn max_bytes i m in
      let '(out2, taken2, m) := manager_run max_bytes steps m in (out1 ++ out2, taken1 ++ taken2, m)
  end.
End transport.

(** ** Establishing a connection *)

Inductive EstablishError :=
| EeIo | EeFrame (e : FrameError) | EeTls (e : TlsError) | EeTimeout | EeCanceled | EeMissingHello | EeInvalidLimit.

(** [EstablishError::reason] *)
Definition establish_reason (e : EstablishError) : ClipboardReason :=
  match e with
  | EeIo => ChannelUnavailable
  | EeFrame e => frame_error_reason e
  | EeTls _ | EeMissingHello => ReasonProtocolError
  | EeTimeout => TransferTimeout
  | EeCanceled => Canceled
  | EeInvalidLimit => Oversize
  end.

Section establish.
Variable sha256 : list byte -> list byte.

(** [exchange_hello] over the stream *)
Definition exchange_hello (peer : AuthenticatedPeer) (local_host : HostId) (process_session_id : ProcessSessionId)
  (capabilities max_bytes : N) : Conn -> exec EstablishError ClipboardHello * Conn :=
  _ <~ conn_lift (guard_not (u64_max <? max_bytes)%N EeInvalidLimit) ;;
  let hello := WClipboardHello (mkHello local_host process_session_id capabilities max_bytes) in
  frame <~ conn_lift (map_err EeFrame (encode_message sha256 hello max_bytes)) ;;
  _ <~ conn_err EeFrame (write_frame frame) ;;
  message <~ conn_err EeFrame (read_frame sha256 max_bytes) ;;
  match message with
  | WClipboardHello peer_hello =>
      _ <~ conn_lift (map_err EeTls (authenticate_hello peer peer_hello)) ;;
      conn_lift (Ret peer_hello)
  | _ => conn_lift (Throw EeMissingHello)
  end.

(** How a handshake over an accepted or opened stream ended: with the
    negotiated protocol, the certificates of the peer, and the stream. *)
Inductive Handshake :=
| HsTimeout
| HsFailed
| HsDone (alpn : option string) (certificates : option (list (list byte))) (stream : Conn).

Inductive EndpointOutcome := EoCanceled | EoIo | EoConnected (handshake : Handshake).

(** [connect_peer], for the outcomes of the endpoints in their order; a
    verified handshake presented the expected certificate. *)
Fixpoint connect_peer (peer : ClipboardPeerConfig) (local_host : HostId) (process_session_id : ProcessSessionId)
  (capabilities max_bytes : N) (outcomes : list EndpointOutcome)
  : exec EstablishError (AuthenticatedPeer * ClipboardHello * Conn) :=
  match outcomes with
  | [] => Throw EeIo
  | EoCanceled :: _ => Throw EeCanceled
  | EoIo :: outcomes => connect_peer peer local_host process_session_id capabilities max_bytes outcomes
  | EoConnected HsTimeout :: _ => Throw EeTimeout
  | EoConnected HsFailed :: _ => Throw EeIo
  | EoConnected (HsDone alpn _ stream) :: _ =>
      let* _ := map_err EeTls (authenticate_alpn alpn) in
      let authenticated := mkAuthenticated (pc_host_id peer) (pc_fingerprint peer) in
      match exchange_hello authenticated local_host process_session_id capabilities max_bytes stream with
      | (Ret hello, stream) => Ret (authenticated, hello, stream)
      | (Throw e, _) => Throw e
      | (Panic s, _) => Panic s
      end
  end.

(** The handshake of [run_listener] with an accepted stream *)
Definition accept_peer (authorized : gmap (list N) string) (local_host : HostId) (process_session_id : ProcessSessionId)
  (capabilities max_bytes : N) (handshake : Handshake)
  : exec EstablishError (AuthenticatedPeer * ClipboardHello * Conn) :=
  match handshake with
  | HsTimeout => Throw EeTimeout
  | HsFailed => Throw EeIo
  | HsDone alpn certificates stream =>
      let* _ := map_err EeTls (authenticate_alpn alpn) in
      let* authenticated := map_err EeTls (authenticate_peer_certificates sha256 certificates authorized) in
      match exchange_hello authenticated local_host process_session_id capabilities max_bytes stream with
      | (Ret hello, stream) => Ret (authenticated, hello, stream)
      | (Throw e, _) => Throw e
      | (Panic s, _) => Panic s
      end
  end.
End establish.

(** The delays of [run_connector]: for each attempt whether it connected, the
    time slept after it. *)
Fixpoint connector_delays (backoff : N) (attempts : list bool) : list N :=
  match attempts with
  | [] => []
  | connected :: attempts =>
      let backoff := if connected then RECONNECT_INITIAL_MS else backoff in
      backoff :: connector_delays (N.min (2 * backoff) RECONNECT_MAX_MS) attempts
  end.
