(* ===== verification/ClipManagerTheorems.v ===== *)
(** * Theorems on the clipboard transport

    What the manager announces to the runtime, and that no connector waits for
    a connection that is gone; what a connection may deliver; and a peer that
    is locked out after an announcement that could not be queued. *)

From stdpp Require Import base tactics list gmap sets strings.
From Stdlib Require Import NArith Lia Strings.Byte Sorting.Sorted.
From S2P Require Import Prelude Channels Bytes ClipTypes ClipFrame ClipFrameTheorems ClipTransport ClipTransportTheorems ClipManager.

(** ** What the runtime is told *)

(** The connections that the runtime knows after a sequence of events. *)
Abbreviation known := (gmap string (N * N * nat)) (only parsing).
Definition tell (k : known) (e : ClipboardTransportEvent) : known :=
  match e with
  | TvConnected peer outbound =>
      <[np_host_id peer := (np_process_session_id peer, np_connection_id peer, outbound)]> k
  | TvDisconnected host session connection =>
      match k !! host with
      | Some (s, c, _) => if bool_decide (s = session) && bool_decide (c = connection) then delete host k else k
      | None => k
      end
  | TvMessage _ _ _ _ => k
  end.
Definition told (events : list ClipboardTransportEvent) : known := foldl tell ∅ events.

(** The numbers of the announced connections, in order. *)
Definition announced (events : list ClipboardTransportEvent) : list N :=
  omap (fun e => match e with TvConnected peer _ => Some (np_connection_id peer) | _ => None end) events.

(** The senders that connectors wait for: those handed over, those used, and
    those kept with a connection. *)
Definition handed (i : ManagerStep) : list nat :=
  match i with MsEvent (MeConnection raw) => option_list (rw_reconnect raw) | _ => [] end.
Definition released (out : list ManagerOutput) : list nat :=
  omap (fun o => match o with MoReconnect n => Some n | _ => None end) out.
Definition kept (active : gmap string ActiveConnection) : list nat :=
  concat (map (fun kc => option_list (av_reconnect (snd kc))) (map_to_list active)).

Definition known_as (c : ActiveConnection) : ProcessSessionId * N * nat :=
  (av_process_session_id c, av_connection_id c, av_outbound c).

Section manager.
Context {C : Type -> Type} {M : Mpsc C} {L : MpscLaws C}.

(** The registry names each peer by its host and has seen every connection. *)
Record RegistryOk (r : PeerRegistry) : Prop := {
  ro_peers : forall host p, rg_peers r !! host = Some p ->
    np_host_id p = host /\ (np_connection_id p <= rg_next_connection_id r)%N }.

Record MgInv (given : list nat) (out : list ManagerOutput) (log : list ClipboardTransportEvent) (m : Manager (C:=C)) : Prop := {
  mi_registry : RegistryOk (mg_registry m);
  mi_active : forall host c, mg_active m !! host = Some c ->
    exists p, rg_peers (mg_registry m) !! host = Some p
      /\ np_connection_id p = av_connection_id c /\ np_process_session_id p = av_process_session_id c;
  mi_known : forall host c, mg_active m !! host = Some c -> told log !! host = Some (known_as c);
  mi_increasing : StronglySorted N.lt (announced log) /\ Forall (fun i => i <= rg_next_connection_id (mg_registry m))%N (announced log);
  mi_waiting : given ≡ₚ released out ++ kept (mg_active m) }.

Lemma kept_insert host c active :
  active !! host = None -> kept (<[host := c]> active) ≡ₚ option_list (av_reconnect c) ++ kept active.
Proof. intros H. unfold kept. by rewrite map_to_list_insert. Qed.
Lemma kept_delete host c active :
  active !! host = Some c -> kept active ≡ₚ option_list (av_reconnect c) ++ kept (delete host active).
Proof. intros H. rewrite <- kept_insert by apply lookup_delete_eq. by rewrite insert_delete_id. Qed.

Lemma released_app a b : released (a ++ b) = released a ++ released b.
Proof. apply omap_app. Qed.
Lemma released_reconnect r : released (reconnect r) = option_list r.
Proof. by destruct r. Qed.
Lemma told_snoc log e : told (log ++ [e]) = tell (told log) e.
Proof. unfold told. by rewrite foldl_app. Qed.
Lemma announced_app a b : announced (a ++ b) = announced a ++ announced b.
Proof. apply omap_app. Qed.

(** The outcomes of a registration. *)
Lemma register_cases peer hello max r res r' :
  register peer hello max r = (res, r') ->
  ((exists e, res = Throw e) /\ r' = r) \/ ((exists i, res = Ret (DuplicateRejected i)) /\ r' = r)
  \/ (exists p, np_host_id p = au_host_id peer /\ np_connection_id p = rg_next_connection_id r'
       /\ rg_next_connection_id r' = (rg_next_connection_id r + 1)%N
       /\ rg_peers r' = <[au_host_id peer := p]> (rg_peers r)
       /\ ((res = Ret (Accepted p) /\ rg_peers r !! au_host_id peer = None)
           \/ exists i, res = Ret (Replaced i p))).
Proof.
  unfold register, authenticate_hello. case_bool_decide; cbn [map_err]; [|intros [= <- <-]; left; eauto].
  destruct (rg_peers r !! au_host_id peer) as [active|] eqn:Hp; cbn [mbind option_bind].
  - case_bool_decide; [intros [= <- <-]; right; left; eauto|].
    destruct (checked_add _ 1) as [i|] eqn:Hi; [|intros [= <- <-]; left; eauto].
    apply checked_add_Some in Hi as [-> _]. intros [= <- <-]. right; right. eexists.
    split; [|split; [|split; [|split; [reflexivity|]]]]; [done..|]. right. eauto.
  - destruct (checked_add _ 1) as [i|] eqn:Hi; [|intros [= <- <-]; left; eauto].
    apply checked_add_Some in Hi as [-> _]. intros [= <- <-]. right; right. eexists.
    split; [|split; [|split; [|split; [reflexivity|]]]]; [done..|]. by left.
Qed.
(** A registered connection is announced and kept, or ended at once. *)
Lemma start_registered_inv given out log m peer raw o m' :
  MgInv given out log m -> mg_active m !! np_host_id peer = None ->
  rg_peers (mg_registry m) !! np_host_id peer = Some peer ->
  Forall (fun i => i < np_connection_id peer)%N (announced log) ->
  start_registered peer raw m = (o, m') ->
  exists new, queued (mg_events m') = queued (mg_events m) ++ new
    /\ MgInv (given ++ option_list (rw_reconnect raw)) (out ++ o) (log ++ new) m'.
Proof.
  intros [Hr Ha Hk [Hs Hb] Hw] Hnone Hp Hlt. unfold start_registered.
  destruct (try_send (mg_events m) _) as [events|e] eqn:E; intros [= <- <-].
  - apply try_send_inl in E. exists [TvConnected peer (rw_outbound raw)]. split; [done|]. split; cbn.
    + done.
    + intros host c. rewrite lookup_insert_Some. intros [[<- <-]|[_ Hc]]; [|by apply Ha]. by exists peer.
    + intros host c Hc. rewrite told_snoc. cbn [tell]. apply lookup_insert_Some in Hc as [[<- <-]|[Hne Hc]].
      * by rewrite lookup_insert_eq.
      * rewrite lookup_insert_ne by done. by apply Hk.
    + rewrite announced_app. cbn. split; [by apply StronglySorted_snoc|]. apply Forall_app. split; [done|].
      constructor; [|constructor]. by apply (ro_peers _ Hr) in Hp as [_ ?].
    + rewrite released_app, kept_insert, Hw by done. cbn [released omap list_omap]. rewrite app_nil_r.
      rewrite <- app_assoc. apply Permutation_app_head, Permutation_app_comm.
  - exists []. rewrite !app_nil_r. split; [done|]. split; [done..|].
    rewrite released_app, Hw. change (MoStart peer (rw_outbound raw) :: ?l) with ([MoStart peer (rw_outbound raw)] ++ l).
    cbn [released omap list_omap app]. fold (released (reconnect (rw_reconnect raw))). rewrite released_reconnect.
    rewrite <- !app_assoc. apply Permutation_app_head, Permutation_app_comm.
Qed.

(** The registry after a new peer was entered for a host without connection. *)
Lemma registered_inv given out log m peer r :
  MgInv given out log m -> mg_active m !! np_host_id peer = None ->
  np_connection_id peer = rg_next_connection_id r -> rg_next_connection_id r = (rg_next_connection_id (mg_registry m) + 1)%N ->
  rg_peers r = <[np_host_id peer := peer]> (rg_peers (mg_registry m)) ->
  MgInv given out log (m <| mg_registry := r |>)
  /\ rg_peers r !! np_host_id peer = Some peer /\ Forall (fun i => i < np_connection_id peer)%N (announced log).
Proof.
  intros [[Hr] Ha Hk [Hs Hb] Hw] Hnone Hid Hnext Hpeers. split; [|split].
  - split; cbn; try done.
    + split. intros host p. rewrite Hpeers, lookup_insert_Some. intros [[<- <-]|[_ Hp]]; [split; [done|lia]|].
      apply Hr in Hp as [? ?]. split; [done|lia].
    + intros host c Hc. rewrite Hpeers, lookup_insert_ne by congruence. by apply Ha.
    + split; [done|]. eapply Forall_impl; [exact Hb|]. cbn. lia.
  - by rewrite Hpeers, lookup_insert_eq.
  - eapply Forall_impl; [exact Hb|]. cbn. lia.
Qed.

(** A connection that the manager ends is not waited for any more. *)
Lemma ended_inv given out log m host c :
  MgInv given out log m -> mg_active m !! host = Some c ->
  MgInv given (out ++ end_connection c) log (m <| mg_active ::= delete host |>).
Proof.
  intros [Hr Ha Hk Hi Hw] Hc. split; cbn; try done.
  - intros h c' [_ Hc']%lookup_delete_Some. by apply Ha.
  - intros h c' [_ Hc']%lookup_delete_Some. by apply Hk.
  - rewrite Hw, released_app, (kept_delete host c) by done. cbn [end_connection app released omap list_omap].
    fold (released (reconnect (av_reconnect c))). by rewrite released_reconnect, app_assoc.
Qed.

Lemma step_connection_inv max given out log m raw o m' :
  MgInv given out log m -> manager_step max (MeConnection raw) m = (o, m') ->
  exists new, queued (mg_events m') = queued (mg_events m) ++ new
    /\ MgInv (given ++ option_list (rw_reconnect raw)) (out ++ o) (log ++ new) m'.
Proof.
  intros Hinv. cbn [manager_step].
  destruct (register _ _ _ _) as [res r'] eqn:E. apply register_cases in E.
  assert (r' = mg_registry m -> ([] ++ reconnect (rw_reconnect raw), m <| mg_registry := r' |>) = (o, m') ->
    exists new, queued (mg_events m') = queued (mg_events m) ++ new
      /\ MgInv (given ++ option_list (rw_reconnect raw)) (out ++ o) (log ++ new) m') as Hrefuse.
  { intros -> [= <- <-]. exists []. cbn. rewrite !app_nil_r. split; [done|]. destruct Hinv as [Hr Ha Hk Hi Hw].
    split; cbn; try done. rewrite released_app, released_reconnect, Hw, <- !app_assoc.
    apply Permutation_app_head, Permutation_app_comm. }
  destruct E as [[[e ->] ->]|[[[i ->] ->]|(p & Hh & Hid & Hnext & Hpeers & [[-> Hnone]|[i ->]])]].
  1,2: by apply Hrefuse.
  - rewrite <- Hh in Hpeers, Hnone.
    assert (mg_active m !! np_host_id p = None) as Hact.
    { destruct (mg_active m !! np_host_id p) eqn:Hc; [|done].
      apply (mi_active _ _ _ _ Hinv) in Hc as (q & Hq & _). congruence. }
    destruct (registered_inv _ _ _ _ _ r' Hinv Hact Hid Hnext Hpeers) as (Hinv1 & Hp & Hlt).
    intros Hs. by eapply start_registered_inv in Hs; [|exact Hinv1|..].
  - rewrite <- Hh in Hpeers. set (m1 := set mg_active (delete (np_host_id p)) m).
    assert (exists ended, MgInv given (out ++ ended) log m1
      /\ ended = match mg_active m !! np_host_id p with Some previous => end_connection previous | None => [] end) as (ended & Hinv1 & He).
    { eexists. split; [|reflexivity]. destruct (mg_active m !! np_host_id p) as [c|] eqn:Hc; [by apply ended_inv|].
      rewrite app_nil_r. unfold m1. destruct Hinv. split; cbn; rewrite ?delete_id by done; done. }
    cbn [mg_active set Manager_eta]. rewrite <- He.
    destruct (registered_inv _ _ _ m1 p r' Hinv1 (lookup_delete_eq _ _) Hid Hnext Hpeers) as (Hinv2 & Hp & Hlt).
    destruct (start_registered p raw _) as [o1 m2] eqn:Hs. intros [= <- <-].
    eapply start_registered_inv in Hs; [|exact Hinv2|apply lookup_delete_eq|done|done]. by rewrite app_assoc.
Qed.

Lemma step_ended_inv max given out log m host id o m' :
  MgInv given out log m -> manager_step max (MeEnded host id) m = (o, m') ->
  exists new, queued (mg_events m') = queued (mg_events m) ++ new /\ MgInv given (out ++ o) (log ++ new) m'.
Proof.
  intros Hinv. cbn [manager_step].
  assert (([], m) = (o, m') -> exists new, queued (mg_events m') = queued (mg_events m) ++ new
            /\ MgInv given (out ++ o) (log ++ new) m') as Hsame.
  { intros [= <- <-]. exists []. by rewrite !app_nil_r. }
  destruct (mg_active m !! host) as [c|] eqn:Hc; [|done].
  destruct (av_connection_id c =? id)%N eqn:Hid; cbn [negb]; [|done]. apply N.eqb_eq in Hid as <-. clear Hsame.
  destruct (ended_inv _ _ _ _ _ _ Hinv Hc) as [Hr Ha Hk Hi Hw]. cbn in *.
  pose proof (mi_known _ _ _ _ Hinv host c Hc) as Hkc.
  set (r := snd (unregister host (av_connection_id c) (mg_registry m))).
  assert (rg_peers r = delete host (rg_peers (mg_registry m)) /\ rg_next_connection_id r = rg_next_connection_id (mg_registry m)) as [Hrp Hrn].
  { unfold r, unregister. destruct (mi_active _ _ _ _ Hinv host c Hc) as (p & -> & -> & _). by rewrite N.eqb_refl. }
  assert (RegistryOk r) as Hr'.
  { split. intros h p. rewrite Hrp, Hrn. intros [_ Hp]%lookup_delete_Some. by apply Hr. }
  assert (forall log', told log' = told log \/ told log' = delete host (told log) -> announced log' = announced log -> forall events,
    MgInv given (out ++ reconnect (av_reconnect c)) log' (mkManager r (delete host (mg_active m)) events)) as Hdone.
  { intros log' Ht Hann events. split; cbn; try done.
    - intros h c' Hc'. destruct (decide (h = host)) as [->|]; [by rewrite lookup_delete_eq in Hc'|].
      rewrite Hrp, lookup_delete_ne by done. by apply Ha.
    - intros h c' Hc'. destruct (decide (h = host)) as [->|]; [by rewrite lookup_delete_eq in Hc'|].
      destruct Ht as [-> | ->]; [|rewrite lookup_delete_ne by done]; by apply Hk.
    - rewrite Hann, Hrn. done.
    - rewrite Hw, !released_app. cbn [end_connection app released omap list_omap]. done. }
  intros H. revert H. destruct (try_send _ _) as [events|e] eqn:E; intros [= <- <-].
  - apply try_send_inl in E. exists [TvDisconnected host (av_process_session_id c) (av_connection_id c)]. split; [done|].
    apply Hdone; [|rewrite announced_app; by rewrite app_nil_r]. right. rewrite told_snoc. cbn [tell]. rewrite Hkc.
    unfold known_as. by rewrite !bool_decide_true.
  - exists []. rewrite !app_nil_r. split; [done|]. apply Hdone; auto.
Qed.
Lemma turn_inv max given out taken m i o t m' :
  MgInv given out (taken ++ queued (mg_events m)) m -> manager_turn max i m = (o, t, m') ->
  MgInv (given ++ handed i) (out ++ o) ((taken ++ t) ++ queued (mg_events m')) m'.
Proof.
  intros Hinv. destruct i as [[raw|host id]|]; cbn [manager_turn handed].
  - destruct (manager_step max _ m) as [o1 m1] eqn:E. intros [= <- <- <-].
    apply (step_connection_inv max _ _ _ _ _ _ _ Hinv) in E as (new & Hq & H). by rewrite Hq, app_nil_r, app_assoc.
  - destruct (manager_step max _ m) as [o1 m1] eqn:E. intros [= <- <- <-].
    apply (step_ended_inv max _ _ _ _ _ _ _ _ Hinv) in E as (new & Hq & H). by rewrite Hq, !app_nil_r, app_assoc.
  - destruct (recv_ready (mg_events m)) as [[e events]|] eqn:E; intros [= <- <- <-]; rewrite !app_nil_r; [|done].
    apply recv_ready_Some in E. cbn. rewrite E in Hinv. rewrite <- app_assoc. by destruct Hinv.
Qed.

Lemma run_inv max steps : forall given out taken m o t m',
  MgInv given out (taken ++ queued (mg_events m)) m -> manager_run max steps m = (o, t, m') ->
  MgInv (given ++ concat (map handed steps)) (out ++ o) ((taken ++ t) ++ queued (mg_events m')) m'.
Proof.
  induction steps as [|i steps IH]; intros given out taken m o t m' H; cbn.
  - intros [= <- <- <-]. by rewrite !app_nil_r.
  - destruct (manager_turn max i m) as [[o1 t1] m1] eqn:E1, (manager_run max steps m1) as [[o2 t2] m2] eqn:E2.
    intros [= <- <- <-]. rewrite !app_assoc. eapply IH, E2. by eapply turn_inv.
Qed.

(** A host that is registered without a connection. *)
Definition locked (host : HostId) (session : ProcessSessionId) (m : Manager (C:=C)) : Prop :=
  (exists p, rg_peers (mg_registry m) !! host = Some p /\ np_process_session_id p = session)
  /\ mg_active m !! host = None.

Definition same_session (host : HostId) (session : ProcessSessionId) (i : ManagerStep) : Prop :=
  match i with
  | MsEvent (MeConnection raw) =>
      au_host_id (rw_authenticated_peer raw) = host -> ch_process_session_id (rw_hello raw) = session
  | _ => True
  end.

Lemma start_registered_other host peer raw m o m' :
  np_host_id peer <> host -> start_registered peer raw m = (o, m') ->
  mg_registry m' = mg_registry m /\ mg_active m' !! host = mg_active m !! host
  /\ forall p x, MoStart p x ∈ o -> np_host_id p <> host.
Proof.
  intros Hne. unfold start_registered. destruct (try_send _ _); intros [= <- <-]; cbn; split_and!; try done.
  - by rewrite lookup_insert_ne.
  - intros p x [[= -> ->]|Hx]%elem_of_cons; [done|]. by apply elem_of_nil in Hx.
  - intros p x [[= -> ->]|[?|[?|Hx]%elem_of_cons]%elem_of_cons]%elem_of_cons; try done.
    unfold reconnect in Hx. destruct (rw_reconnect raw); [|by apply elem_of_nil in Hx].
    by apply list_elem_of_singleton in Hx.
Qed.
Lemma no_start (host : HostId) (o : list ManagerOutput) :
  (forall x, x ∈ o -> match x with MoStart _ _ => False | _ => True end) -> forall p x, MoStart p x ∈ o -> np_host_id p <> host.
Proof. intros H p x Hx. by apply H in Hx. Qed.

Lemma reconnect_no_start r x : x ∈ reconnect r -> match x with MoStart _ _ => False | _ => True end.
Proof.
  unfold reconnect. destruct r; [|by intros ?%elem_of_nil]. by intros ->%list_elem_of_singleton.
Qed.

Lemma locked_turn max host session m i o t m' :
  locked host session m -> same_session host session i -> manager_turn max i m = (o, t, m') ->
  locked host session m' /\ forall p x, MoStart p x ∈ o -> np_host_id p <> host.
Proof.
  intros [(q & Hq & Hs) Ha] Hi. destruct i as [[raw|h id]|]; cbn [manager_turn manager_step] in *.
  - destruct (register _ _ _ _) as [res r'] eqn:E.
    assert (au_host_id (rw_authenticated_peer raw) = host -> (exists e, res = Throw e) \/ exists i, res = Ret (DuplicateRejected i)) as Hdup.
    { intros Hh. specialize (Hi Hh). revert E. unfold register. rewrite Hh, Hq. cbn [mbind option_bind].
      rewrite bool_decide_true by congruence. unfold authenticate_hello. case_bool_decide; intros [= <- _]; eauto. }
    apply register_cases in E.
    assert (r' = mg_registry m -> (reconnect (rw_reconnect raw), [], m <| mg_registry := r' |>) = (o, t, m') ->
      locked host session m' /\ forall p x, MoStart p x ∈ o -> np_host_id p <> host) as Hrefuse.
    { intros -> [= <- <- <-]. split; [split; cbn; eauto|]. apply no_start, reconnect_no_start. }
    destruct E as [[[e ->] ->]|[[[j ->] ->]|(p & Hh & Hid & Hnext & Hpeers & Hres)]].
    1,2: by apply Hrefuse.
    assert (np_host_id p <> host) as Hne.
    { intros Heq. rewrite Hh in Heq. apply Hdup in Heq as [[? ->]|[? ->]]; by destruct Hres as [[? ?]|[? ?]]. }
    assert (forall m1 o1 m2, mg_registry m1 = r' -> mg_active m1 !! host = None -> start_registered p raw m1 = (o1, m2) ->
      locked host session m2 /\ forall q x, MoStart q x ∈ o1 -> np_host_id q <> host) as Hstart.
    { intros m1 o1 m2 Hr Hn Hst. apply (start_registered_other host) in Hst as (Er & Ea & Ho); [|done].
      split; [|done]. split; [|by rewrite Ea]. exists q. rewrite Er, Hr, Hpeers, lookup_insert_ne by congruence. done. }
    destruct Hres as [[-> _]|[j ->]].
    + destruct (start_registered p raw _) as [o1 m1] eqn:Hst. intros [= <- <- <-]. by eapply Hstart, Hst.
    + destruct (start_registered p raw _) as [o1 m1] eqn:Hst. intros [= <- <- <-].
      eapply Hstart in Hst as [Hl Ho]; [|done|cbn; by rewrite lookup_delete_ne by done]. split; [done|].
      intros p' x [Hx|Hx]%elem_of_app; [|by eapply Ho]. destruct (_ !! np_host_id p) as [c|]; [|by apply elem_of_nil in Hx].
      apply elem_of_app in Hx as [Hx|Hx%reconnect_no_start]; [|done].
      apply elem_of_cons in Hx as [?|Hx]; [done|]. by apply list_elem_of_singleton in Hx.
  - destruct (mg_active m !! h) as [c|] eqn:Hc; [|intros [= <- <- <-]; split; [by split; eauto|by intros ? ? ?%elem_of_nil]].
    destruct (av_connection_id c =? id)%N; cbn [negb]; intros [= <- <- <-];
      [|split; [by split; eauto|by intros ? ? ?%elem_of_nil]].
    split; [|apply no_start, reconnect_no_start]. assert (h <> host) as Hne by congruence.
    assert (forall m1, mg_registry m1 = snd (unregister h id (mg_registry m)) -> mg_active m1 = delete h (mg_active m) ->
              locked host session m1) as Hl.
    { intros m1 Er Ea. split; [|rewrite Ea; by rewrite lookup_delete_ne]. exists q. rewrite Er. split; [|done].
      unfold unregister. repeat case_match; cbn; rewrite ?lookup_delete_ne by done; done. }
    case_match; by apply Hl.
  - destruct (recv_ready _) as [[e events]|]; intros [= <- <- <-]; (split; [by split; eauto|by intros ? ? ?%elem_of_nil]).
Qed.
End manager.

(** After any sequence of connections, ends and deliveries, each connection
    that the manager keeps is known to the runtime from what it was told or has
    queued, under the session and number of the connection; the announced
    connections have increasing numbers; and every sender that a connector
    waits for was used, or is kept with a connection that is still there. *)
Theorem manager_announces {C} {M : Mpsc C} {L : MpscLaws C} max_bytes (events : C ClipboardTransportEvent) steps out taken m :
  queued events = [] -> manager_run max_bytes steps (manager_new events) = (out, taken, m) ->
  let log := taken ++ queued (mg_events m) in
  (forall host c, mg_active m !! host = Some c -> told log !! host = Some (known_as c))
  /\ StronglySorted N.lt (announced log)
  /\ concat (map handed steps) ≡ₚ released out ++ kept (mg_active m).
Proof.
  intros Hq Hrun. assert (MgInv [] [] ([] ++ queued (mg_events (manager_new events))) (manager_new events)) as H0.
  { cbn. rewrite Hq. split; [by split|done|done|by split; constructor|done]. }
  apply (run_inv max_bytes steps _ _ _ _ _ _ _ H0) in Hrun as [_ _ Hk [Hs _] Hw]. done.
Qed.

Definition raw_from (host : HostId) (session : ProcessSessionId) (outbound : nat) (connector : option nat) : RawConnection :=
  mkRaw (mkAuthenticated host []) (mkHello host session 1 100) outbound connector.

Definition demo_steps : list ManagerStep :=
  [MsEvent (MeConnection (raw_from "left" 5 0 (Some 0))); MsEvent (MeConnection (raw_from "right" 6 1 (Some 1))); MsTaken;
   MsEvent (MeConnection (raw_from "left" 9 2 (Some 2))); MsEvent (MeEnded "right" 2)].
Definition demo_manager := manager_run 100 demo_steps (manager_new (mkChan [] 12 false false)).
Lemma manager_announces_witness :
  snd (fst demo_manager) <> [] /\ mg_active (snd demo_manager) <> ∅
  /\ concat (map handed demo_steps) ≡ₚ released (fst (fst demo_manager)) ++ kept (mg_active (snd demo_manager)).
Proof.
  split; [by vm_compute|]. split; [by vm_compute|].
  exact (proj2 (proj2 (manager_announces (C:=ListChan) (L:=ListChan_laws) 100 (mkChan [] 12 false false) demo_steps
    (fst (fst demo_manager)) (snd (fst demo_manager)) (snd demo_manager) eq_refl
    (eq_trans (surjective_pairing demo_manager) (f_equal (fun p => (p, snd demo_manager)) (surjective_pairing (fst demo_manager))))))).
Defined.

(** A host that is registered but has no connection stays so while its process
    keeps its session: none of its connections is started again. *)
Theorem locked_out {C} {M : Mpsc C} max_bytes host session steps : forall (m : Manager (C:=C)) out taken m',
  locked host session m -> Forall (same_session host session) steps ->
  manager_run max_bytes steps m = (out, taken, m') ->
  locked host session m' /\ forall p x, MoStart p x ∈ out -> np_host_id p <> host.
Proof.
  induction steps as [|i steps IH]; intros m out taken m' Hl Hs; cbn.
  - intros [= <- <- <-]. split; [done|]. by intros ? ? ?%elem_of_nil.
  - apply Forall_cons in Hs as [Hi Hs].
    destruct (manager_turn max_bytes i m) as [[o1 t1] m1] eqn:E1, (manager_run max_bytes steps m1) as [[o2 t2] m2] eqn:E2.
    intros [= <- <- <-]. destruct (locked_turn _ _ _ _ _ _ _ _ Hl Hi E1) as [Hl1 Ho1].
    destruct (IH _ _ _ _ Hl1 Hs E2) as [Hl2 Ho2]. split; [done|].
    intros p x [Hx|Hx]%elem_of_app; [by eapply Ho1|by eapply Ho2].
Qed.

(** That state is reached when the announcement of a connection finds the
    queue of events full: the connection is ended, but stays registered. *)
Example unannounced_connection_locked :
  let m := snd (manager_run 100 [MsEvent (MeConnection (raw_from "left" 5 0 (Some 0)));
                                 MsEvent (MeConnection (raw_from "right" 6 1 (Some 1))); MsTaken]
                 (manager_new (mkChan [] 1 false false))) in
  locked "right" 6 m /\ queued (mg_events m) = []
  /\ fst (fst (manager_run 100 [MsEvent (MeEnded "right" 2); MsEvent (MeConnection (raw_from "right" 6 2 (Some 2)))] m))
     = [MoReconnect 2].
Proof. vm_compute. split_and!; [by eexists|done..]. Qed.

(** The connector sleeps between its shortest and its longest delay, and the
    shortest after every connection. *)
Theorem connector_delays_bounded attempts : forall backoff,
  (RECONNECT_INITIAL_MS <= backoff <= RECONNECT_MAX_MS)%N ->
  Forall (fun d => RECONNECT_INITIAL_MS <= d <= RECONNECT_MAX_MS)%N (connector_delays backoff attempts)
  /\ forall i, attempts !! i = Some true -> connector_delays backoff attempts !! i = Some RECONNECT_INITIAL_MS.
Proof.
  unfold RECONNECT_INITIAL_MS, RECONNECT_MAX_MS.
  induction attempts as [|b attempts IH]; intros backoff Hb; cbn; [split; [constructor|done]|].
  unfold RECONNECT_INITIAL_MS, RECONNECT_MAX_MS.
  destruct (IH (N.min (2 * (if b then 250 else backoff)) 5000)) as [H1 H2]; [destruct b; lia|].
  split; [constructor; [destruct b; lia|done]|]. intros [|i]; cbn; [by intros [= ->]|apply H2].
Qed.

(** ** What a connection delivers *)

(** The messages of a peer that the authority may be given. *)
Definition from_peer (authority : AuthoritySessionId) (peer : NegotiatedPeer) (m : WireMessage) : Prop :=
  match m with
  | WPrepareResult r =>
      hi_authority_session_id (pr_handoff_id r) = authority /\ tk_authority_session_id (pr_target_token r) = authority
      /\ tk_owner_host_id (pr_target_token r) = np_host_id peer /\ pr_target_process_session_id r = np_process_session_id peer
  | WApplyResult r =>
      hi_authority_session_id (ar_handoff_id r) = authority /\ tk_authority_session_id (ar_target_token r) = authority
      /\ tk_owner_host_id (ar_target_token r) = np_host_id peer /\ ar_target_process_session_id r = np_process_session_id peer
  | WSnapshotOffer p =>
      hi_authority_session_id (he_handoff_id (cp_handoff p)) = authority
      /\ tk_authority_session_id (he_source_token (cp_handoff p)) = authority
      /\ tk_authority_session_id (he_target_token (cp_handoff p)) = authority
      /\ tk_owner_host_id (he_source_token (cp_handoff p)) = np_host_id peer
      /\ he_source_process_session_id (cp_handoff p) = np_process_session_id peer
  | WProtocolError _ => True
  | _ => False
  end.

Lemma validate_target_Ret f m :
  validate_target_metadata f m = Ret tt ->
  validate_metadata_authority f m = Ret tt
  /\ exists t, fm_target_token m = Some t /\ tk_owner_host_id t = pf_host_id f
  /\ fm_target_process_session_id m = Some (pf_process_session_id f).
Proof.
  unfold validate_target_metadata. intros ([] & Ha & H)%exec_bind_Ret. split; [done|].
  apply exec_bind_Ret in H as (t & Ht%ok_or_Ret & H). apply exec_bind_Ret in H as (u & Ho%guard_not_Ret & H).
  apply exec_bind_Ret in H as (s & Hs%ok_or_Ret & Hg%guard_not_Ret).
  apply negb_false_iff, bool_decide_eq_true in Ho. apply negb_false_iff, N.eqb_eq in Hg as ->. by exists t.
Qed.
Lemma validate_source_Ret f m :
  validate_source_metadata f m = Ret tt ->
  validate_metadata_authority f m = Ret tt
  /\ exists t, fm_source_token m = Some t /\ tk_owner_host_id t = pf_host_id f
  /\ fm_source_process_session_id m = Some (pf_process_session_id f).
Proof.
  unfold validate_source_metadata. intros ([] & Ha & H)%exec_bind_Ret. split; [done|].
  apply exec_bind_Ret in H as (t & Ht%ok_or_Ret & H). apply exec_bind_Ret in H as (u & Ho%guard_not_Ret & H).
  apply exec_bind_Ret in H as (s & Hs%ok_or_Ret & Hg%guard_not_Ret).
  apply negb_false_iff, bool_decide_eq_true in Ho. apply negb_false_iff, N.eqb_eq in Hg as ->. by exists t.
Qed.

Lemma validator_from_peer authority peer local session cell m :
  metadata_validator (CtAuthority authority) peer local session cell (message_metadata m) = Ret tt ->
  from_peer authority peer m.
Proof.
  destruct m as [h|s|h|r|h|p|p|r|h|r]; cbn [from_peer metadata_validator message_metadata frame_metadata message_type fm_message_type header_of];
    try done; try (by destruct (as_active_handoff s)).
  - intros [(id & [= <-] & Hid & _ & Ht)%validate_metadata_authority_Ret (t & [= <-] & Ho & [= Hs])]%validate_target_Ret.
    split_and!; [done|by apply Ht|done..].
  - intros [(id & [= <-] & Hid & Hsrc & Ht)%validate_metadata_authority_Ret (t & [= <-] & Ho & [= Hs])]%validate_source_Ret.
    split_and!; [done|by apply Hsrc|by apply Ht|done..].
  - intros [(id & [= <-] & Hid & _ & Ht)%validate_metadata_authority_Ret (t & [= <-] & Ho & [= Hs])]%validate_target_Ret.
    split_and!; [done|by apply Ht|done..].
Qed.

(** The messages that a peer may be given, when its cell holds [cell]. *)
Definition to_peer (cell : option AuthoritySessionId) (local : HostId) (session : ProcessSessionId) (m : WireMessage) : Prop :=
  match m with
  | WAuthorityState _ | WProtocolError _ => True
  | WPrepareTarget h | WOwnershipActivated h =>
      cell = Some (hi_authority_session_id (he_handoff_id h))
      /\ tk_owner_host_id (he_target_token h) = local /\ he_target_process_session_id h = session
  | WSnapshotDeliver p =>
      cell = Some (hi_authority_session_id (he_handoff_id (cp_handoff p)))
      /\ tk_owner_host_id (he_target_token (cp_handoff p)) = local /\ he_target_process_session_id (cp_handoff p) = session
  | WSnapshotOffer p => cell = Some (hi_authority_session_id (he_handoff_id (cp_handoff p)))
  | WPrepareResult r => cell = Some (hi_authority_session_id (pr_handoff_id r))
  | WApplyResult r => cell = Some (hi_authority_session_id (ar_handoff_id r))
  | WCancelHandoff id => cell = Some (hi_authority_session_id id)
  | WClipboardHello _ => False
  end.

Lemma validator_to_peer peer local session cell m :
  metadata_validator CtPeer peer local session cell (message_metadata m) = Ret tt -> to_peer cell local session m.
Proof.
  destruct m as [h|s|h|r|h|p|p|r|h|r];
    cbn [to_peer metadata_validator validate_authority_metadata message_metadata frame_metadata message_type header_of].
  all: unfold validate_authority_metadata; cbn; try done.
  all: try (destruct (as_active_handoff s); done).
  all: intros (a & ->%ok_or_Ret & H)%exec_bind_Ret; try done.
  all: apply exec_bind_Ret in H as ([] & Ha%guard_not_Ret & H); apply negb_false_iff, N.eqb_eq in Ha; rewrite ?Ha; try done.
  all: apply exec_bind_Ret in H as ([] & Ho%guard_not_Ret & Hs%guard_not_Ret);
    apply negb_false_iff, bool_decide_eq_true in Ho; apply negb_false_iff, bool_decide_eq_true in Hs; by injection Hs.
Qed.
