(* ===== verification/ClipRuntime.v ===== *)
(** * The clipboard runtime of lan-mouse (clipboard.rs)

    The task between the service, the clipboard transport and the native
    clipboard.  On the server it owns the coordinator and turns its commands
    into requests of the local actor and messages to the peers; on a peer it
    follows the authority's messages.

    The queues of the actor and of the connections belong to other tasks: a
    call on them is answered by the class [ClipboardWorld] and written to the
    log with its answer.  Tracing is left out.  The iteration order of the map
    of peers is a parameter. *)

From stdpp Require Import base tactics list gmap sets strings.
From Stdlib Require Import NArith Lia Strings.Byte.
From S2P Require Import Prelude Channels Bytes Domain SwitchGate Clients ClipTypes ClipFrame ClipTransport ClipManager ClipCoordinator ClipActor.

Definition SERVICE_HOOK_CLASS_COUNT : nat := 6.
Definition ACTOR_COMPLETION_CLASS_COUNT : nat := 10.
Definition NATIVE_ACTOR_RETRY_DELAY_MS : N := 2000.

(** [ClipboardConfig] of config.rs *)
Record ClipboardConfig := mkClipboardConfig { cb_enabled : bool; cb_max_bytes : N }.

(** [ServiceHook] *)
Inductive RuntimeHook :=
| RhBegin (transition : ClipboardTransitionId) (target : HostId)
| RhCaptureProvisional
| RhActivate (transition : ClipboardTransitionId)
| RhCancel (transition : ClipboardTransitionId) (reason : ClipboardReason)
| RhCancelCurrent (reason : ClipboardReason)
| RhShutdown.

(** ** State *)

Record PendingTransition := mkPendingTransition {
  pt_id : ClipboardTransitionId;
  pt_handoff_id : HandoffId;
  pt_target_token : OwnershipToken;
  pt_target_process_session_id : ProcessSessionId;
  pt_activated : bool }.

Record PeerPreparation := mkPeerPreparation {
  pp_handoff : HandoffEnvelope;
  pp_baseline_generation : option NativeGeneration }.

Inductive RuntimeRole :=
| RAuthority (coordinator : Coordinator)
| RPeer (local_host server_host : HostId) (authority_state : option AuthorityState) (preparation : option PeerPreparation)
| RUnavailable.

(** [RuntimeCore]; the handle of the actor and the sender of completions are
    present or not, the handle of a connection is its number. *)
Record RuntimeCore := mkCore {
  rc_local_host : option HostId;
  rc_process_session_id : ProcessSessionId;
  rc_actor_enabled : bool;
  rc_max_bytes : N;
  rc_role : RuntimeRole;
  rc_pending : option PendingTransition;
  rc_actor : bool;
  rc_actor_completion_tx : bool;
  rc_pending_payload : option ClipboardPayload;
  rc_network_peers : gmap string (NegotiatedPeer * nat) }.
#[global] Instance RuntimeCore_eta : RecordEta RuntimeCore := fun c =>
  mkCore (rc_local_host c) (rc_process_session_id c) (rc_actor_enabled c) (rc_max_bytes c) (rc_role c) (rc_pending c)
    (rc_actor c) (rc_actor_completion_tx c) (rc_pending_payload c) (rc_network_peers c).

(** [RuntimeCore::authority], [peer] and [unavailable] *)
Definition core_authority (config : ClipboardConfig) (server_host : HostId) (process_session_id : ProcessSessionId)
  (authority_session_id : AuthoritySessionId) : RuntimeCore :=
  mkCore (Some server_host) process_session_id (cb_enabled config) (cb_max_bytes config)
    (RAuthority (coordinator_new (cb_enabled config) authority_session_id server_host process_session_id (cb_max_bytes config)))
    None false false None ∅.
Definition core_peer (config : ClipboardConfig) (local_host server_host : HostId) (process_session_id : ProcessSessionId)
  : RuntimeCore :=
  mkCore (Some local_host) process_session_id (cb_enabled config) (cb_max_bytes config)
    (RPeer local_host server_host None None) None false false None ∅.
Definition core_unavailable (process_session_id : ProcessSessionId) : RuntimeCore :=
  mkCore None process_session_id false 0 RUnavailable None false false None ∅.

(** [actor_initial_token] *)
Definition actor_initial_token (c : RuntimeCore) : option OwnershipToken :=
  match rc_role c with
  | RAuthority coordinator => Some (co_current_token coordinator)
  | RPeer _ server_host authority_state _ =>
      match authority_state with
      | Some state => Some (as_current_token state)
      | None => Some (mkToken 0 0 server_host)
      end
  | RUnavailable => None
  end.

(** [start_native_actor]: what the thread that connects to the native
    clipboard is started with. *)
Definition start_native_actor (c : RuntimeCore) : option (ProcessSessionId * HostId * OwnershipToken) :=
  if negb (rc_actor_enabled c) then None
  else match actor_initial_token c, rc_local_host c with
       | Some token, Some local => Some (rc_process_session_id c, local, token)
       | _, _ => None
       end.

(** [coordinator] *)
Definition core_coordinator (c : RuntimeCore) : option Coordinator :=
  match rc_role c with RAuthority coordinator => Some coordinator | _ => None end.

Definition envelope_of (h : ActiveHandoff) : HandoffEnvelope :=
  mkEnvelope (ah_id h) (ah_source_token h) (ah_source_process_session_id h) (ah_target_token h) (ah_target_process_session_id h).

(** [active_envelope] *)
Definition active_envelope (id : HandoffId) (c : RuntimeCore) : option HandoffEnvelope :=
  match core_coordinator c ≫= co_active with
  | Some h => if bool_decide (ah_id h = id) then Some (envelope_of h) else None
  | None => None
  end.

(** [peer_handoff] *)
Definition peer_handoff (id : HandoffId) (c : RuntimeCore) : option HandoffEnvelope :=
  match rc_role c with
  | RPeer _ _ authority_state preparation =>
      match preparation with
      | Some p => if bool_decide (he_handoff_id (pp_handoff p) = id) then Some (pp_handoff p) else None
      | None => None
      end ∪
      match authority_state ≫= as_active_handoff with
      | Some h => if bool_decide (he_handoff_id h = id) then Some h else None
      | None => None
      end
  | _ => None
  end.

(** ** Calls of other tasks *)

(** [ActorHandle::try_request] and the methods of [TransportHandle]. *)
Class ClipboardWorld (W : Type) := {
  cw_actor : ActorCommand -> W -> (unit + ClipboardReason) * W;
  cw_control : nat -> WireMessage -> W -> (unit + TransportError) * W;
  cw_payload : nat -> WireMessage -> W -> (unit + TransportError) * W;
  cw_cancel_handoff : nat -> HandoffId -> W -> W;
  cw_shutdown : nat -> W -> W }.

(** The log; a call that returns a result is written with whether it was
    accepted. *)
Inductive ClipOutput :=
| CoActor (command : ActorCommand) (accepted : bool)
| CoControl (outbound : nat) (message : WireMessage) (accepted : bool)
| CoPayload (outbound : nat) (message : WireMessage) (accepted : bool)
| CoCancelHandoff (outbound : nat) (id : HandoffId)
| CoShutdown (outbound : nat)
| CoTransportStart (config : ClipboardTransportConfig)
| CoTransportShutdown
| CoPermissionDenied.

Section runtime.
Context {W : Type} {HW : ClipboardWorld W}.
(** The iteration order of the map of peers. *)
Variable peer_iter : gmap string (NegotiatedPeer * nat) -> list (string * (NegotiatedPeer * nat)).

Record RuntimeState := mkRuntime {
  rs_core : RuntimeCore;
  rs_world : W;
  rs_log : list ClipOutput }.
#[global] Instance RuntimeState_eta : RecordEta RuntimeState := fun s => mkRuntime (rs_core s) (rs_world s) (rs_log s).

Definition clip (A : Type) : Type := RuntimeState -> A * RuntimeState.
#[global] Instance clip_ret : MRet clip := fun A a s => (a, s).
#[global] Instance clip_bind : MBind clip := fun A B f m s => let '(a, s) := m s in f a s.

Definition get_core : clip RuntimeCore := fun s => (rs_core s, s).
Definition modify_core (f : RuntimeCore -> RuntimeCore) : clip unit := fun s => (tt, s <| rs_core ::= f |>).
Definition write_log (o : ClipOutput) : clip unit := fun s => (tt, s <| rs_log ::= fun l => l ++ [o] |>).
Definition in_world {A} (f : W -> A * W) : clip A := fun s => let '(a, w) := f (rs_world s) in (a, s <| rs_world := w |>).
Definition is_inl {A B} (r : A + B) : bool := match r with inl _ => true | inr _ => false end.

Fixpoint for_each {A} (f : A -> clip unit) (l : list A) : clip unit :=
  match l with [] => mret tt | a :: l => f a;; for_each f l end.

Definition set_role (role : RuntimeRole) : clip unit := modify_core (fun c => c <| rc_role := role |>).
Definition set_pending (p : option PendingTransition) : clip unit := modify_core (fun c => c <| rc_pending := p |>).
Definition set_pending_payload (p : option ClipboardPayload) : clip unit := modify_core (fun c => c <| rc_pending_payload := p |>).

(** [queue_actor] *)
Definition queue_actor (command : ActorCommand) : clip (unit + ClipboardReason) :=
  c ← get_core;
  if negb (rc_actor c) then mret (inr BackendUnavailable)
  else
    r ← in_world (cw_actor command);
    write_log (CoActor command (is_inl r));;
    mret (match r with
          | inr e => inr e
          | inl _ => if rc_actor_completion_tx c then inl tt else inr ChannelUnavailable
          end).

Definition out_control (outbound : nat) (message : WireMessage) : clip (unit + TransportError) :=
  r ← in_world (cw_control outbound message);
  write_log (CoControl outbound message (is_inl r));;
  mret r.
Definition out_payload (outbound : nat) (message : WireMessage) : clip (unit + TransportError) :=
  r ← in_world (cw_payload outbound message);
  write_log (CoPayload outbound message (is_inl r));;
  mret r.
Definition out_cancel_handoff (outbound : nat) (id : HandoffId) : clip unit :=
  in_world (fun w => (tt, cw_cancel_handoff outbound id w));;
  write_log (CoCancelHandoff outbound id).
Definition out_shutdown (outbound : nat) : clip unit :=
  in_world (fun w => (tt, cw_shutdown outbound w));;
  write_log (CoShutdown outbound).

(** [install_actor], [uninstall_actor] *)
Definition install_actor : clip unit := modify_core (fun c => c <| rc_actor := true |>).
Definition uninstall_actor : clip unit :=
  modify_core (fun c =>
    let c := c <| rc_actor := false |> <| rc_pending_payload := None |> in
    match rc_role c with
    | RAuthority coordinator =>
        match co_active coordinator with
        | Some h => c <| rc_role := RAuthority (snd (skip (ah_id h) BackendUnavailable coordinator)) |>
        | None => c
        end
    | RPeer local server state _ => c <| rc_role := RPeer local server state None |>
    | RUnavailable => c
    end).

(** ** Messages to peers *)

(** [publish_authority_state] *)
Definition publish_authority_state (host : HostId) : clip unit :=
  c ← get_core;
  match core_coordinator c, rc_network_peers c !! host with
  | Some coordinator, Some (_, outbound) =>
      out_control outbound (WAuthorityState (mkAuthority (rc_process_session_id c) (co_current_token coordinator)
                                               (envelope_of <$> co_active coordinator)));;
      mret tt
  | _, _ => mret tt
  end.

(** [publish_authority_state_all] *)
Definition publish_authority_state_all : clip unit :=
  c ← get_core;
  for_each publish_authority_state (map fst (peer_iter (rc_network_peers c))).

(** [send_to_server_control], [send_to_server_payload] *)
Definition send_to_server (send : nat -> WireMessage -> clip (unit + TransportError)) (message : WireMessage) : clip unit :=
  c ← get_core;
  match rc_role c with
  | RPeer _ server_host _ _ =>
      match rc_network_peers c !! server_host with
      | Some (_, outbound) =>
          r ← send outbound message;
          match r with inl _ => mret tt | inr _ => out_shutdown outbound end
      | None => mret tt
      end
  | _ => mret tt
  end.
Definition send_to_server_control := send_to_server out_control.
Definition send_to_server_payload := send_to_server out_payload.

(** [send_prepare_result], [send_apply_result] *)
Definition send_prepare_result (handoff : HandoffEnvelope) (baseline : option NativeGeneration) (result : OperationResult) : clip unit :=
  c ← get_core;
  send_to_server_control (WPrepareResult (mkPrepareResult (he_handoff_id handoff) (he_target_token handoff)
    (rc_process_session_id c) baseline result)).
Definition send_apply_result (handoff : HandoffEnvelope) (snapshot : SnapshotId) (result : OperationResult) : clip unit :=
  c ← get_core;
  send_to_server_control (WApplyResult (mkApplyResult (he_handoff_id handoff) (he_target_token handoff)
    (rc_process_session_id c) snapshot None result)).

(** [try_send_control] of the runtime *)
Definition send_to_session (host : HostId) (session : ProcessSessionId) (message : WireMessage) : clip (unit + ClipboardReason) :=
  c ← get_core;
  match rc_network_peers c !! host with
  | None => mret (inr ChannelUnavailable)
  | Some (peer, outbound) =>
      if negb (bool_decide (np_process_session_id peer = session)) then mret (inr StalePeerSession)
      else
        r ← out_control outbound message;
        match r with
        | inl _ => mret (inl tt)
        | inr e => out_shutdown outbound;; mret (inr (transport_reason e))
        end
  end.

(** ** The coordinator *)

(** [skip] *)
Definition runtime_skip (id : HandoffId) (reason : ClipboardReason) : clip unit :=
  c ← get_core;
  match rc_role c with
  | RAuthority coordinator =>
      let '(r, coordinator) := skip id reason coordinator in
      set_role (RAuthority coordinator);;
      match r with inl _ => set_pending_payload None | inr _ => mret tt end
  | _ => mret tt
  end.

Definition or_skip (id : HandoffId) (m : clip (unit + ClipboardReason)) : clip unit :=
  r ← m;
  match r with inl _ => mret tt | inr reason => runtime_skip id reason end.

(** [publish_payload] *)
Definition publish_payload (payload : ClipboardPayload) : clip unit :=
  c ← get_core;
  let id := he_handoff_id (cp_handoff payload) in
  match core_coordinator c ≫= co_active with
  | None => mret tt
  | Some active =>
      if negb (bool_decide (ah_id active = id))
         || negb (bool_decide (ah_source_token active = he_source_token (cp_handoff payload)))
         || negb (bool_decide (ah_target_token active = he_target_token (cp_handoff payload)))
      then mret tt
      else if bool_decide (rc_local_host c = Some (ah_target_host active)) then
        match ah_target_preparation active with
        | None => mret tt
        | Some preparation =>
            or_skip id (queue_actor (StageSnapshot (mkStaged id (cp_snapshot_id payload) (he_target_token (cp_handoff payload))
              (he_target_process_session_id (cp_handoff payload)) (tp_baseline_generation preparation) (cp_data payload))))
        end
      else
        match rc_network_peers c !! tk_owner_host_id (he_target_token (cp_handoff payload)) with
        | None => runtime_skip id ChannelUnavailable
        | Some (peer, outbound) =>
            if negb (bool_decide (np_process_session_id peer = he_target_process_session_id (cp_handoff payload)))
            then runtime_skip id ChannelUnavailable
            else
              r ← out_payload outbound (WSnapshotDeliver payload);
              match r with inl _ => mret tt | inr _ => runtime_skip id ChannelUnavailable end
        end
  end.

(** [publish_pending_payload] *)
Definition publish_pending_payload (id : HandoffId) (snapshot : SnapshotId) : clip unit :=
  c ← get_core;
  match rc_pending_payload c with
  | None => mret tt
  | Some payload =>
      set_pending_payload None;;
      if negb (bool_decide (he_handoff_id (cp_handoff payload) = id)) || negb (bool_decide (cp_snapshot_id payload = snapshot))
      then mret tt else publish_payload payload
  end.

(** One command of [dispatch] *)
Definition dispatch_one (command : CoordinatorCommand) : clip unit :=
  c ← get_core;
  let is_local host := bool_decide (rc_local_host c = Some host) in
  match command with
  | ClipCoordinator.PrepareTarget id target_token session =>
      if is_local (tk_owner_host_id target_token)
      then or_skip id (queue_actor (ClipActor.PrepareTarget id target_token))
      else match active_envelope id c with
           | None => mret tt
           | Some envelope => or_skip id (send_to_session (tk_owner_host_id target_token) session (WPrepareTarget envelope))
           end
  | ClipCoordinator.CaptureSource id source_token session max_bytes =>
      if is_local (tk_owner_host_id source_token)
      then or_skip id (queue_actor (ClipActor.CaptureSource id source_token max_bytes))
      else publish_authority_state (tk_owner_host_id source_token)
  | ClipCoordinator.PublishSnapshot id snapshot =>
      if match active_envelope id c with Some h => is_local (tk_owner_host_id (he_source_token h)) | None => false end
      then or_skip id (queue_actor (ClipActor.PublishSnapshot id snapshot))
      else publish_pending_payload id snapshot
  | ClipCoordinator.ActivateTarget id target_token session =>
      if is_local (tk_owner_host_id target_token)
      then or_skip id (queue_actor (ClipActor.ActivateTarget id target_token))
      else match active_envelope id c with
           | None => mret tt
           | Some envelope => or_skip id (send_to_session (tk_owner_host_id target_token) session (WOwnershipActivated envelope))
           end
  | ClipCoordinator.CancelHandoff id =>
      set_pending_payload None;;
      queue_actor (ClipActor.CancelHandoff id);;
      for_each (fun hp : string * (NegotiatedPeer * nat) =>
                  out_cancel_handoff (snd (snd hp)) id;;
                  out_control (snd (snd hp)) (WCancelHandoff id);;
                  mret tt)
        (peer_iter (rc_network_peers c))
  end.

(** [dispatch] *)
Definition dispatch (commands : list CoordinatorCommand) : clip unit := for_each dispatch_one commands.

(** [target_prepared], [source_captured]: whether the coordinator accepted. *)
Definition runtime_target_prepared (id : HandoffId) (token : OwnershipToken) (session : ProcessSessionId)
  (baseline : NativeGeneration) : clip bool :=
  c ← get_core;
  match rc_role c with
  | RAuthority coordinator =>
      let '(r, coordinator) := target_prepared id token session baseline coordinator in
      set_role (RAuthority coordinator);;
      match r with inl commands => dispatch commands;; mret true | inr _ => mret false end
  | _ => mret false
  end.
Definition runtime_source_captured (id : HandoffId) (token : OwnershipToken) (session : ProcessSessionId)
  (snapshot : SnapshotMetadata) : clip bool :=
  c ← get_core;
  match rc_role c with
  | RAuthority coordinator =>
      let '(r, coordinator) := source_captured id token session snapshot coordinator in
      set_role (RAuthority coordinator);;
      match r with inl commands => dispatch commands;; mret true | inr _ => mret false end
  | _ => mret false
  end.

(** [peer_session_changed] *)
Definition peer_session_changed (host : HostId) (session : ProcessSessionId) : clip unit :=
  c ← get_core;
  match rc_role c with
  | RAuthority coordinator =>
      let '(commands, coordinator) := set_process_session host session coordinator in
      set_role (RAuthority coordinator);; dispatch commands
  | _ => mret tt
  end.

(** ** Hooks of the service *)

(** [begin] *)
Definition runtime_begin (transition : ClipboardTransitionId) (target : HostId) : clip unit :=
  c ← get_core;
  match rc_role c with
  | RAuthority coordinator =>
      let '(r, coordinator) := begin_handoff target coordinator in
      set_role (RAuthority coordinator);;
      match r with
      | inl b =>
          let session := match co_active coordinator with Some h => ah_target_process_session_id h | None => 0%N end in
          set_pending (Some (mkPendingTransition transition (bh_handoff_id b) (bh_target_token b) session false));;
          dispatch (bh_commands b)
      | inr _ => mret tt
      end
  | _ => mret tt
  end.

(** [activate].  The pending transition that was read is still there when it is
    marked, as [ownership_activated] does not touch it. *)
Definition runtime_activate (transition : ClipboardTransitionId) : clip unit :=
  c ← get_core;
  match rc_pending c with
  | None => mret tt
  | Some p =>
      if negb (bool_decide (pt_id p = transition)) then mret tt
      else
        match rc_role c with
        | RAuthority coordinator =>
            let '(r, coordinator) :=
              ownership_activated (pt_handoff_id p) (pt_target_token p) (pt_target_process_session_id p) coordinator in
            set_role (RAuthority coordinator);;
            match r with
            | inl commands =>
                set_pending (match co_active coordinator with
                             | Some _ => Some (mkPendingTransition (pt_id p) (pt_handoff_id p) (pt_target_token p)
                                                 (pt_target_process_session_id p) true)
                             | None => None
                             end);;
                dispatch commands;;
                publish_authority_state_all
            | inr _ => mret tt
            end
        | _ => mret tt
        end
  end.

(** [cancel_current]; its reason is only traced. *)
Definition runtime_cancel_current : clip unit :=
  c ← get_core;
  match rc_pending c with
  | None => mret tt
  | Some p =>
      set_pending None;;
      match rc_role c with
      | RAuthority coordinator =>
          let '(r, coordinator) := abort (pt_handoff_id p) coordinator in
          set_role (RAuthority coordinator);;
          match r with inl commands => dispatch commands | inr _ => mret tt end
      | _ => mret tt
      end
  end.

(** [cancel] *)
Definition runtime_cancel (transition : ClipboardTransitionId) : clip unit :=
  c ← get_core;
  match rc_pending c with
  | Some p => if negb (bool_decide (pt_id p = transition)) then mret tt else runtime_cancel_current
  | None => mret tt
  end.

(** [handle] *)
Definition runtime_handle (hook : RuntimeHook) : clip unit :=
  match hook with
  | RhBegin transition target => runtime_begin transition target
  | RhActivate transition => runtime_activate transition
  | RhCancel transition _ => runtime_cancel transition
  | RhCancelCurrent _ | RhShutdown => runtime_cancel_current
  | RhCaptureProvisional =>
      c ← get_core;
      match rc_role c with
      | RPeer local_host _ (Some state) _ =>
          if bool_decide (tk_owner_host_id (as_current_token state) = local_host)
          then queue_actor (CaptureProvisional (as_current_token state) (rc_max_bytes c));; mret tt
          else mret tt
      | _ => mret tt
      end
  end.

(** ** Messages of peers *)

(** [accept_authority_state] *)
Definition runtime_accept_authority (state : AuthorityState) : clip unit :=
  c ← get_core;
  match rc_role c with
  | RPeer local_host server_host authority_state preparation =>
      let preparation :=
        if match authority_state with
           | Some previous => negb (bool_decide (tk_authority_session_id (as_current_token previous)
                                                 = tk_authority_session_id (as_current_token state)))
           | None => false
           end
        then None else preparation in
      set_role (RPeer local_host server_host (Some state) preparation);;
      queue_actor (SynchronizeAuthority (as_current_token state));;
      match as_active_handoff state with
      | Some handoff =>
          if bool_decide (tk_owner_host_id (he_source_token handoff) = local_host)
          then queue_actor (BindProvisional (he_handoff_id handoff) (he_source_token handoff));; mret tt
          else mret tt
      | None => mret tt
      end
  | _ => mret tt
  end.

#[local] Instance HandoffEnvelope_eq_dec : EqDecision HandoffEnvelope.
Proof. solve_decision. Defined.

(** [accept_snapshot_offer] *)
Definition accept_snapshot_offer (host : HostId) (payload : ClipboardPayload) : clip unit :=
  c ← get_core;
  let handoff := cp_handoff payload in
  match rc_role c with
  | RAuthority _ =>
      if negb (bool_decide (tk_owner_host_id (he_source_token handoff) = host))
         || negb (bool_decide (active_envelope (he_handoff_id handoff) c = Some handoff))
      then mret tt
      else
        match data_kind (cp_data payload) with
        | Ret kind =>
            set_pending_payload (Some payload);;
            accepted ← runtime_source_captured (he_handoff_id handoff) (he_source_token handoff)
              (he_source_process_session_id handoff)
              (mkMetadata (cp_snapshot_id payload) kind (N.of_nat (data_len (cp_data payload))));
            if accepted : bool then mret tt else set_pending_payload None
        | _ => mret tt
        end
  | _ => mret tt
  end.

(** [stage_delivered_snapshot] *)
Definition stage_delivered_snapshot (payload : ClipboardPayload) : clip unit :=
  c ← get_core;
  let handoff := cp_handoff payload in
  let baseline :=
    match rc_role c with
    | RPeer _ _ _ (Some p) =>
        if bool_decide (he_handoff_id (pp_handoff p) = he_handoff_id handoff)
           && bool_decide (he_target_token (pp_handoff p) = he_target_token handoff)
        then pp_baseline_generation p else None
    | _ => None
    end in
  match baseline with
  | None => mret tt
  | Some baseline =>
      queue_actor (StageSnapshot (mkStaged (he_handoff_id handoff) (cp_snapshot_id payload) (he_target_token handoff)
        (he_target_process_session_id handoff) baseline (cp_data payload)));;
      mret tt
  end.

(** [handle_wire_message] *)
Definition handle_wire_message (host : HostId) (message : WireMessage) : clip unit :=
  c ← get_core;
  match message with
  | WAuthorityState state => runtime_accept_authority state
  | WPrepareTarget handoff =>
      match rc_role c with
      | RPeer local_host server_host authority_state _ =>
          set_role (RPeer local_host server_host authority_state (Some (mkPeerPreparation handoff None)));;
          r ← queue_actor (ClipActor.PrepareTarget (he_handoff_id handoff) (he_target_token handoff));
          match r with inl _ => mret tt | inr reason => send_prepare_result handoff None (Skipped reason) end
      | _ => mret tt
      end
  | WPrepareResult result =>
      match pr_result result with
      | Completed =>
          match pr_baseline_generation result with
          | Some generation =>
              runtime_target_prepared (pr_handoff_id result) (pr_target_token result) (pr_target_process_session_id result)
                generation;;
              mret tt
          | None => mret tt
          end
      | Skipped reason => runtime_skip (pr_handoff_id result) reason
      end
  | WOwnershipActivated handoff =>
      match rc_role c with
      | RPeer local_host server_host (Some state) preparation =>
          set_role (RPeer local_host server_host
            (Some (mkAuthority (as_authority_process_session_id state) (he_target_token handoff) (Some handoff))) preparation)
      | _ => mret tt
      end;;
      queue_actor (ClipActor.ActivateTarget (he_handoff_id handoff) (he_target_token handoff));;
      mret tt
  | WSnapshotOffer payload => accept_snapshot_offer host payload
  | WSnapshotDeliver payload => stage_delivered_snapshot payload
  | WApplyResult result =>
      match ar_result result with
      | Completed =>
          match rc_role c with
          | RAuthority coordinator =>
              set_role (RAuthority (snd (applied (ar_handoff_id result) (ar_snapshot_id result) coordinator)))
          | _ => mret tt
          end
      | Skipped reason => runtime_skip (ar_handoff_id result) reason
      end
  | WCancelHandoff id =>
      match rc_role c with
      | RPeer local_host server_host authority_state _ => set_role (RPeer local_host server_host authority_state None)
      | _ => mret tt
      end;;
      queue_actor (ClipActor.CancelHandoff id);;
      mret tt
  | WProtocolError _ | WClipboardHello _ => mret tt
  end.

(** Whether an event belongs to the connection that is current for its host. *)
Definition is_current (host : HostId) (session : ProcessSessionId) (connection : N) (c : RuntimeCore) : bool :=
  match rc_network_peers c !! host with
  | Some (peer, _) => bool_decide (np_connection_id peer = connection) && bool_decide (np_process_session_id peer = session)
  | None => false
  end.

(** [handle_transport_event] *)
Definition handle_transport_event (event : ClipboardTransportEvent) : clip unit :=
  match event with
  | TvConnected peer outbound =>
      (if bool_decide (is_Some (np_effective_max_bytes peer))
       then peer_session_changed (np_host_id peer) (np_process_session_id peer) else mret tt);;
      modify_core (fun c => c <| rc_network_peers ::= <[np_host_id peer := (peer, outbound)]> |>);;
      publish_authority_state (np_host_id peer)
  | TvDisconnected host session connection =>
      c ← get_core;
      if negb (is_current host session connection c) then mret tt
      else
        modify_core (fun c => c <| rc_network_peers ::= delete host |>);;
        match rc_role c with
        | RAuthority coordinator =>
            let '(commands, coordinator) := remove_process_session host coordinator in
            set_role (RAuthority coordinator);; dispatch commands
        | RPeer local_host server_host authority_state _ =>
            if bool_decide (server_host = host) then
              set_role (RPeer local_host server_host None None);;
              match authority_state ≫= as_active_handoff with
              | Some handoff => queue_actor (ClipActor.CancelHandoff (he_handoff_id handoff));; mret tt
              | None => mret tt
              end
            else mret tt
        | RUnavailable => mret tt
        end
  | TvMessage host session connection message =>
      c ← get_core;
      if is_current host session connection c then handle_wire_message host message else mret tt
  end.

(** ** Events of the actor *)

(** [handle_actor_event] *)
Definition handle_actor_event (command : ActorCommand) (event : ActorEvent) : clip unit :=
  c ← get_core;
  match event with
  | EvPrepared id token session baseline =>
      match rc_role c with
      | RAuthority _ => runtime_target_prepared id token session baseline;; mret tt
      | RPeer local_host server_host authority_state (Some p) =>
          if bool_decide (he_handoff_id (pp_handoff p) = id) && bool_decide (he_target_token (pp_handoff p) = token)
             && bool_decide (he_target_process_session_id (pp_handoff p) = session)
          then
            set_role (RPeer local_host server_host authority_state (Some (mkPeerPreparation (pp_handoff p) (Some baseline))));;
            send_prepare_result (pp_handoff p) (Some baseline) Completed
          else mret tt
      | _ => mret tt
      end
  | EvCaptured id token snapshot kind bytes =>
      match rc_role c with
      | RAuthority _ =>
          runtime_source_captured id token (rc_process_session_id c) (mkMetadata snapshot kind (N.of_nat bytes));; mret tt
      | _ => queue_actor (ClipActor.PublishSnapshot id snapshot);; mret tt
      end
  | EvStaged id _ =>
      match rc_role c with
      | RAuthority coordinator => set_role (RAuthority (snd (snapshot_staged id coordinator)))
      | _ => mret tt
      end
  | EvApplied identity =>
      match rc_role c with
      | RAuthority coordinator =>
          set_role (RAuthority (snd (applied (ai_handoff_id identity) (ai_snapshot_id identity) coordinator)))
      | _ =>
          match peer_handoff (ai_handoff_id identity) c with
          | Some handoff => send_apply_result handoff (ai_snapshot_id identity) Completed
          | None => mret tt
          end
      end
  | EvSkipped (Some id) reason | EvBackendUnavailable (Some id) reason =>
      match rc_role c with
      | RAuthority _ => runtime_skip id reason
      | _ =>
          match command with
          | ClipActor.PrepareTarget _ _ =>
              match peer_handoff id c with
              | Some handoff => send_prepare_result handoff None (Skipped reason)
              | None => mret tt
              end
          | StageSnapshot stage =>
              match peer_handoff id c with
              | Some handoff => send_apply_result handoff (ss_snapshot_id stage) (Skipped reason)
              | None => mret tt
              end
          | _ => send_to_server_control (WProtocolError reason)
          end
      end
  | EvSkipped None _ | EvBackendUnavailable None _ | EvAuthoritySynchronized _ | EvGeneration _
  | EvProvisionalCaptured _ _ _ _ | EvActivated _ _ | EvPublished _ _ | EvCanceled _ | EvShutdown => mret tt
  end.

(** [handle_actor_payload] *)
Definition handle_actor_payload (payload : ActorPayload) : clip unit :=
  c ← get_core;
  let own handoff :=
    bool_decide (he_source_token handoff = ap_source_token payload)
    && bool_decide (he_source_process_session_id handoff = rc_process_session_id c)
    && bool_decide (si_source_process_session_id (ap_snapshot_id payload) = rc_process_session_id c) in
  match active_envelope (ap_handoff_id payload) c with
  | Some handoff =>
      if own handoff then publish_payload (mkPayload handoff (ap_snapshot_id payload) (ap_data payload)) else mret tt
  | None =>
      match peer_handoff (ap_handoff_id payload) c with
      | None => mret tt
      | Some handoff =>
          if own handoff
          then send_to_server_payload (WSnapshotOffer (mkPayload handoff (ap_snapshot_id payload) (ap_data payload)))
          else mret tt
      end
  end.

(** ** The task *)

(** What [run] keeps besides the core: the configuration of the transport, the
    transport that runs, and the native actor: running, being connected, or
    waiting for the next attempt. *)
Record RunState := mkRun {
  rn_runtime : RuntimeState;
  rn_transport_config : option ClipboardTransportConfig;
  rn_transport : option ClipboardTransportConfig;
  rn_actor : bool;
  rn_actor_init : option (ProcessSessionId * HostId * OwnershipToken);
  rn_actor_retry : bool;
  rn_unavailable_reason : option ClipboardReason }.
#[global] Instance RunState_eta : RecordEta RunState := fun s =>
  mkRun (rn_runtime s) (rn_transport_config s) (rn_transport s) (rn_actor s) (rn_actor_init s) (rn_actor_retry s)
    (rn_unavailable_reason s).

Definition on_runtime (m : clip unit) (s : RunState) : RunState := s <| rn_runtime ::= fun r => snd (m r) |>.

(** [record_backend_unavailable] *)
Definition record_backend_unavailable (reason : ClipboardReason) (s : RunState) : RunState :=
  if bool_decide (rn_unavailable_reason s = Some reason) then s
  else
    let s := s <| rn_unavailable_reason := Some reason |> in
    if bool_decide (reason = PermissionDenied) then on_runtime (write_log CoPermissionDenied) s else s.

(** The transport is shut down and started again with other capabilities. *)
Definition restart_transport (backend_ready : bool) (s : RunState) : RunState :=
  match rn_transport_config s with
  | None => s
  | Some config =>
      let config := config <| tc_capabilities := text_v1_capability backend_ready |> in
      let s := match rn_transport s with Some _ => on_runtime (write_log CoTransportShutdown) s | None => s end in
      on_runtime (write_log (CoTransportStart config))
        (s <| rn_transport_config := Some config |> <| rn_transport := Some config |>)
  end.

Inductive RunInput :=
| RiHook (hook : option RuntimeHook)
| RiTransport (event : option ClipboardTransportEvent)
| RiInitialized (result : unit + ClipboardReason)
| RiPayload (payload : option ActorPayload)
| RiRetry
| RiCompletion (completion : option (ActorCommand * ActorEvent)).

(** Which arms of the [select] can be taken. *)
Definition run_enabled (i : RunInput) (s : RunState) : bool :=
  match i with
  | RiHook _ | RiCompletion _ => true
  | RiTransport _ => bool_decide (is_Some (rn_transport s))
  | RiInitialized _ => bool_decide (is_Some (rn_actor_init s))
  | RiPayload _ => rn_actor s
  | RiRetry => rn_actor_retry s
  end.

(** One turn of the loop, for an enabled arm; [false] leaves it. *)
Definition run_turn (i : RunInput) (s : RunState) : bool * RunState :=
  match i with
  | RiHook None => (false, s)
  | RiHook (Some hook) =>
      (match hook with RhShutdown => false | _ => true end, on_runtime (runtime_handle hook) s)
  | RiTransport (Some event) => (true, on_runtime (handle_transport_event event) s)
  | RiTransport None => (true, s <| rn_transport := None |>)
  | RiInitialized result =>
      let s := s <| rn_actor_init := None |> in
      let s := match result with
               | inl _ =>
                   let s := s <| rn_unavailable_reason := None |> in
                   let s := on_runtime install_actor s in
                   restart_transport true (s <| rn_actor := true |>)
               | inr reason => record_backend_unavailable reason s
               end in
      (true, if rn_actor s then s else s <| rn_actor_retry := true |>)
  | RiPayload (Some payload) => (true, on_runtime (handle_actor_payload payload) s)
  | RiPayload None =>
      let s := on_runtime uninstall_actor (s <| rn_actor := false |>) in
      (true, (restart_transport false s) <| rn_actor_retry := true |>)
  | RiRetry => (true, s <| rn_actor_retry := false |> <| rn_actor_init := start_native_actor (rs_core (rn_runtime s)) |>)
  | RiCompletion None => (true, s)
  | RiCompletion (Some (command, event)) =>
      let s := match event with EvBackendUnavailable _ reason => record_backend_unavailable reason s | _ => s end in
      (true, on_runtime (handle_actor_event command event) s)
  end.

(** The loop, with what it does after it. *)
Fixpoint clip_loop (inputs : list RunInput) (s : RunState) : RunState :=
  match inputs with
  | [] => s
  | i :: inputs =>
      if run_enabled i s then
        match run_turn i s with
        | (true, s) => clip_loop inputs s
        | (false, s) => match rn_transport s with Some _ => on_runtime (write_log CoTransportShutdown) s | None => s end
        end
      else clip_loop inputs s
  end.

(** [ClipboardRuntime::start], with the identities it draws and the world it
    starts in; [None] for the configuration of the transport stands for a
    missing identity. *)
Definition runtime_start (config : ClipboardConfig) (local_host server_host : option SwitchHost) (port : N)
  (has_identity : bool) (peers : list ClipboardPeerConfig * gmap (list N) string)
  (process_session_id : ProcessSessionId) (authority_session_id : AuthoritySessionId) (w : W) : RunState :=
  let core := match local_host, server_host with
              | Some local, Some server =>
                  if bool_decide (local = server)
                  then core_authority config (host_id server) process_session_id authority_session_id
                  else core_peer config (host_id local) (host_id server) process_session_id
              | _, _ => core_unavailable process_session_id
              end in
  let core := core <| rc_actor_completion_tx := true |> in
  let transport_config :=
    match local_host, server_host with
    | Some local, Some server =>
        if has_identity then
          Some (mkTransportConfig (cb_enabled config) (host_id local) process_session_id (cb_max_bytes config)
            (text_v1_capability false) port (fst peers) (snd peers)
            (if bool_decide (local = server) then CtAuthority authority_session_id else CtPeer))
        else None
    | _, _ => None
    end in
  mkRun (mkRuntime core w (match transport_config with Some c => [CoTransportStart c] | None => [] end))
    transport_config transport_config false (start_native_actor core) false None.
End runtime.
