(* ===== verification/ClipRuntimeLogic.v ===== *)
(** * A logic for the clipboard runtime

    [does P R F m]: from a core that satisfies [P], the method [m] changes the
    core within [R] and adds only entries that satisfy [F] to the log.  The
    methods that answer the coordinator are within [calm]: they may give up the
    active handoff and the pending payload, and nothing else. *)

From stdpp Require Import base tactics list gmap sets strings.
From Stdlib Require Import NArith Lia Strings.Byte.
From S2P Require Import Prelude Channels Bytes Domain SwitchGate Clients ClipTypes ClipFrame ClipTransport ClipManager ClipCoordinator ClipActor ClipRuntime.

(** ** What stays *)

(** The coordinator at most loses its active handoff. *)
Definition role_calm (r r' : RuntimeRole) : Prop :=
  r' = r \/ exists co t, r = RAuthority co /\ r' = RAuthority (co <| co_active := None |> <| co_last_terminal := t |>).

Record calm (c c' : RuntimeCore) : Prop := {
  ca_local : rc_local_host c' = rc_local_host c;
  ca_session : rc_process_session_id c' = rc_process_session_id c;
  ca_enabled : rc_actor_enabled c' = rc_actor_enabled c;
  ca_max : rc_max_bytes c' = rc_max_bytes c;
  ca_pending : rc_pending c' = rc_pending c;
  ca_actor : rc_actor c' = rc_actor c;
  ca_tx : rc_actor_completion_tx c' = rc_actor_completion_tx c;
  ca_peers : rc_network_peers c' = rc_network_peers c;
  ca_payload : rc_pending_payload c' = rc_pending_payload c \/ rc_pending_payload c' = None;
  ca_role : role_calm (rc_role c) (rc_role c') }.

#[export] Instance role_calm_refl : Reflexive role_calm.
Proof. intros r. by left. Qed.
#[export] Instance role_calm_trans : Transitive role_calm.
Proof.
  intros r1 r2 r3 [->|(co & t & -> & ->)] [->|(co' & t' & E & ->)]; try (by left); right.
  - by exists co', t'.
  - by exists co, t.
  - injection E as <-. exists co, t'. done.
Qed.
#[export] Instance calm_preorder : PreOrder calm.
Proof.
  split; [intros c; split; auto; apply role_calm_refl|]. intros c1 c2 c3 [] []. split; try congruence.
  - destruct ca_payload0 as [?|?], ca_payload1 as [?|?]; (left; congruence) || (right; congruence).
  - by etrans.
Qed.

Abbreviation anywhere := (fun _ : RuntimeCore => True) (only parsing).

Section logic.
Context {W : Type} {HW : ClipboardWorld W}.
Implicit Types (P : RuntimeCore -> Prop) (R : RuntimeCore -> RuntimeCore -> Prop) (F : ClipOutput -> Prop).

Definition does P R F {A} (m : clip (W:=W) A) : Prop :=
  forall s, P (rs_core s) ->
    R (rs_core s) (rs_core (snd (m s))) /\ exists new, rs_log (snd (m s)) = rs_log s ++ new /\ Forall F new.

Lemma does_weaken P P' R F F' {A} (m : clip A) :
  does P R F m -> (forall c, P' c -> P c) -> (forall o, F o -> F' o) -> does P' R F' m.
Proof.
  intros H HP HF s Hs. destruct (H s (HP _ Hs)) as (Hr & new & Hl & Hn). split; [done|]. exists new. split; [done|].
  by eapply Forall_impl.
Qed.

Lemma does_pointwise P R F {A} (m : clip A) : (forall c, P c -> does (eq c) R F m) -> does P R F m.
Proof. intros H s Hs. by apply (H _ Hs). Qed.

Lemma does_ret P R F `{!Reflexive R} {A} (a : A) : does P R F (mret a).
Proof. intros s _. split; [done|]. exists []. by rewrite app_nil_r. Qed.

Lemma does_bind P P' R F `{!Transitive R} {A B} (m : clip A) (f : A -> clip B) :
  does P R F m -> (forall c c', P c -> R c c' -> P' c') -> (forall a, does P' R F (f a)) -> does P R F (m ≫= f).
Proof.
  intros Hm HP Hf s Hs. unfold mbind, clip_bind. destruct (Hm s Hs) as (Hr & new & Hl & Hn).
  destruct (m s) as [a s1]. cbn in *. destruct (Hf a s1 (HP _ _ Hs Hr)) as (Hr2 & new2 & Hl2 & Hn2).
  split; [by etrans|]. exists (new ++ new2). rewrite Hl2, Hl, app_assoc. split; [done|]. by apply Forall_app.
Qed.

Lemma does_get P R F {B} (f : RuntimeCore -> clip (W:=W) B) :
  (forall c, P c -> does (eq c) R F (f c)) -> does P R F (get_core ≫= f).
Proof. intros H s Hs. exact (H _ Hs s eq_refl). Qed.

Lemma does_modify P R F f : (forall c, P c -> R c (f c)) -> does P R F (modify_core f).
Proof. intros H s Hs. split; [by apply H|]. exists []. by rewrite app_nil_r. Qed.

Lemma does_log P R F `{!Reflexive R} (o : ClipOutput) : F o -> does P R F (write_log o).
Proof. intros Ho s _. split; [done|]. exists [o]. split; [done|by constructor]. Qed.

Lemma does_world P R F `{!Reflexive R} {A} (f : W -> A * W) : does P R F (in_world f).
Proof.
  intros s _. unfold in_world. destruct (f (rs_world s)). split; [done|]. exists []. by rewrite app_nil_r.
Qed.

Lemma does_for_each P R F `{!PreOrder R} {A} (f : A -> clip (W:=W) unit) l :
  (forall c c', P c -> R c c' -> P c') -> (forall a, a ∈ l -> does P R F (f a)) -> does P R F (for_each f l).
Proof.
  intros HP. induction l as [|a l IH]; intros Hf; cbn [for_each]; [apply does_ret, _|].
  eapply does_bind; [apply _|apply Hf; by left|exact HP|]. intros []. apply IH. intros b Hb. apply Hf. by right.
Qed.

(** ** Entries *)

(** Entries that carry no snapshot. *)
Definition plain (o : ClipOutput) : Prop :=
  match o with
  | CoPayload _ _ _ | CoActor (StageSnapshot _) _ => False
  | _ => True
  end.

(** A snapshot that is passed on for the active handoff: to the local actor, or
    to the target on its connection. *)
Definition published (c : RuntimeCore) (p : ClipboardPayload) (o : ClipOutput) : Prop :=
  exists co h, rc_role c = RAuthority co /\ co_active co = Some h
    /\ ah_id h = he_handoff_id (cp_handoff p) /\ ah_source_token h = he_source_token (cp_handoff p)
    /\ ah_target_token h = he_target_token (cp_handoff p)
    /\ ((exists preparation b, rc_local_host c = Some (ah_target_host h) /\ ah_target_preparation h = Some preparation
           /\ o = CoActor (StageSnapshot (mkStaged (ah_id h) (cp_snapshot_id p) (ah_target_token h)
                (he_target_process_session_id (cp_handoff p)) (tp_baseline_generation preparation) (cp_data p))) b)
        \/ (exists peer outbound b, rc_local_host c <> Some (ah_target_host h)
           /\ rc_network_peers c !! tk_owner_host_id (ah_target_token h) = Some (peer, outbound)
           /\ np_process_session_id peer = he_target_process_session_id (cp_handoff p)
           /\ o = CoPayload outbound (WSnapshotDeliver p) b)).

Lemma published_calm c c' p o : calm c c' -> published c' p o -> published c p o.
Proof.
  intros [] (co & h & Hr & Ha & H). destruct ca_role0 as [E|(co0 & t & _ & E)]; rewrite E in Hr.
  - exists co, h. rewrite <- ca_local0, <- ca_peers0. done.
  - injection Hr as <-. done.
Qed.

(** What answering the coordinator may add. *)
Definition answer_entry (c : RuntimeCore) (o : ClipOutput) : Prop :=
  plain o \/ exists p, rc_pending_payload c = Some p /\ published c p o.

Lemma answer_entry_calm c c' o : calm c c' -> answer_entry c' o -> answer_entry c o.
Proof.
  intros Hc [Hp|(p & Hp & Ho)]; [by left|right]. exists p. split; [|by eapply published_calm].
  destruct (ca_payload _ _ Hc); congruence.
Qed.

(** ** Calls of other tasks *)

Lemma does_queue_actor P F command : (forall b, F (CoActor command b)) -> does P calm F (queue_actor (W:=W) command).
Proof.
  intros HF. apply does_get. intros c _. destruct (rc_actor c); cbn [negb]; [|apply does_ret, _].
  eapply (does_bind _ (fun _ => True)); [apply _|apply does_world, _|done|]. intros r.
  eapply (does_bind _ (fun _ => True)); [apply _|by apply does_log; [apply _|]|done|]. intros []. apply does_ret, _.
Qed.
Lemma does_control P F outbound m : (forall b, F (CoControl outbound m b)) -> does P calm F (out_control (W:=W) outbound m).
Proof.
  intros HF. eapply (does_bind _ (fun _ => True)); [apply _|apply does_world, _|done|]. intros r.
  eapply (does_bind _ (fun _ => True)); [apply _|by apply does_log; [apply _|]|done|]. intros []. apply does_ret, _.
Qed.
Lemma does_payload P F outbound m : (forall b, F (CoPayload outbound m b)) -> does P calm F (out_payload (W:=W) outbound m).
Proof.
  intros HF. eapply (does_bind _ (fun _ => True)); [apply _|apply does_world, _|done|]. intros r.
  eapply (does_bind _ (fun _ => True)); [apply _|by apply does_log; [apply _|]|done|]. intros []. apply does_ret, _.
Qed.
Lemma does_cancel_handoff P F outbound id : F (CoCancelHandoff outbound id) -> does P calm F (out_cancel_handoff (W:=W) outbound id).
Proof.
  intros HF. eapply (does_bind _ (fun _ => True)); [apply _|apply does_world, _|done|]. intros []. by apply does_log; [apply _|].
Qed.
Lemma does_shutdown P F outbound : F (CoShutdown outbound) -> does P calm F (out_shutdown (W:=W) outbound).
Proof.
  intros HF. eapply (does_bind _ (fun _ => True)); [apply _|apply does_world, _|done|]. intros []. by apply does_log; [apply _|].
Qed.

(** ** Methods without a snapshot *)

Lemma does_plain P F {A} (m : clip (W:=W) A) :
  (forall o, plain o -> F o) -> does anywhere calm plain m -> does P calm F m.
Proof. intros HF H. by eapply does_weaken. Qed.

(** Sequencing where nothing is known of the core in between. *)
Lemma does_seq F {A B} (m : clip (W:=W) A) (f : A -> clip B) :
  does anywhere calm F m -> (forall a, does anywhere calm F (f a)) -> does anywhere calm F (m ≫= f).
Proof. intros Hm Hf. by eapply (does_bind _ anywhere); [apply _|..]. Qed.
Lemma does_look F {B} (f : RuntimeCore -> clip (W:=W) B) :
  (forall c, does anywhere calm F (f c)) -> does anywhere calm F (get_core ≫= f).
Proof. intros H. apply does_get. intros c _. by eapply does_weaken; [apply H|..]. Qed.
End logic.

(** Follows the structure of a method, case by case. *)
Ltac does_plain_step :=
  match goal with
  | |- does _ _ _ (mret _) => apply does_ret; apply _
  | |- does _ _ _ (get_core ≫= _) => apply does_look; intros ?
  | |- does _ _ _ (_ ≫= _) => apply does_seq; [|intros ?]
  | |- does _ _ _ (queue_actor _) => apply does_queue_actor; done
  | |- does _ _ _ (out_control _ _) => apply does_control; done
  | |- does _ _ _ (out_cancel_handoff _ _) => apply does_cancel_handoff; done
  | |- does _ _ _ (out_shutdown _) => apply does_shutdown; done
  | |- does _ _ _ (for_each _ _) => apply does_for_each; [apply _|done|intros ? ?]
  | |- does _ _ _ (match ?x with _ => _ end) => destruct x
  end.
Ltac does_plain := repeat does_plain_step.

Section methods.
Context {W : Type} {HW : ClipboardWorld W}.
Variable peer_iter : gmap string (NegotiatedPeer * nat) -> list (string * (NegotiatedPeer * nat)).

Lemma does_publish_state host : does anywhere calm plain (publish_authority_state (W:=W) host).
Proof. unfold publish_authority_state. does_plain. Qed.
Lemma does_publish_state_all : does anywhere calm plain (publish_authority_state_all (W:=W) peer_iter).
Proof. unfold publish_authority_state_all. does_plain. apply does_publish_state. Qed.

Lemma does_to_server_control m : does anywhere calm plain (send_to_server_control (W:=W) m).
Proof. unfold send_to_server_control, send_to_server. does_plain. Qed.
Lemma does_prepare_result h b r : does anywhere calm plain (send_prepare_result (W:=W) h b r).
Proof. unfold send_prepare_result. does_plain. apply does_to_server_control. Qed.
Lemma does_apply_result h b r : does anywhere calm plain (send_apply_result (W:=W) h b r).
Proof. unfold send_apply_result. does_plain. apply does_to_server_control. Qed.
Lemma does_to_session host session m : does anywhere calm plain (send_to_session (W:=W) host session m).
Proof. unfold send_to_session. does_plain. Qed.

Lemma skip_calm id reason co : role_calm (RAuthority co) (RAuthority (snd (skip id reason co))).
Proof.
  unfold skip. destruct (match_active id co); cbn; [|by left]. right. by exists co, (Some (id, Some reason)).
Qed.

Lemma calm_set_role c role : role_calm (rc_role c) role -> calm c (c <| rc_role := role |>).
Proof. intros H. split; cbn; auto. Qed.
Lemma calm_drop_payload c : calm c (c <| rc_pending_payload := None |>).
Proof. split; cbn; auto. apply role_calm_refl. Qed.

Lemma does_drop_payload : does anywhere calm plain (set_pending_payload (W:=W) None).
Proof. apply does_modify. intros c _. apply calm_drop_payload. Qed.

Lemma does_skip id reason : does anywhere calm plain (runtime_skip (W:=W) id reason).
Proof.
  unfold runtime_skip. apply does_get. intros c _. destruct (rc_role c) as [co| |] eqn:Hr; [|apply does_ret, _..].
  destruct (skip id reason co) as [r co'] eqn:E.
  apply (does_bind _ anywhere); [apply _|..|done|].
  - apply does_modify. intros c' <-. apply calm_set_role. rewrite Hr. change co' with (snd (r, co')). rewrite <- E. apply skip_calm.
  - intros []. destruct r; [apply does_drop_payload|apply does_ret, _].
Qed.

Lemma does_or_skip P F id m : (forall o, plain o -> F o) ->
  does P calm F m -> (forall c c', P c -> calm c c' -> P c') -> does P calm F (or_skip (W:=W) id m).
Proof.
  intros HF Hm HP. unfold or_skip. eapply does_bind; [apply _|exact Hm|exact HP|].
  intros [[]|reason]; [apply does_ret, _|]. apply does_plain; [done|apply does_skip].
Qed.

(** ** Methods with a snapshot *)

Lemma does_publish_payload_at c1 p :
  does (eq c1) calm (fun o => plain o \/ published c1 p o) (publish_payload (W:=W) p).
Proof.
  unfold publish_payload. apply does_get. intros ? <-. unfold core_coordinator.
  destruct (rc_role c1) as [co| |] eqn:Hr; cbn [mbind option_bind]; [|apply does_ret, _..].
  destruct (co_active co) as [h|] eqn:Ha; [|apply does_ret, _].
  destruct (decide (ah_id h = he_handoff_id (cp_handoff p))) as [E1|E1];
    [rewrite (bool_decide_true _ E1)|rewrite (bool_decide_false _ E1); apply does_ret, _].
  destruct (decide (ah_source_token h = he_source_token (cp_handoff p))) as [E2|E2];
    [rewrite (bool_decide_true _ E2)|rewrite (bool_decide_false _ E2); apply does_ret, _].
  destruct (decide (ah_target_token h = he_target_token (cp_handoff p))) as [E3|E3];
    [rewrite (bool_decide_true _ E3)|rewrite (bool_decide_false _ E3); apply does_ret, _].
  cbn [negb orb]. case_bool_decide as Hl.
  - destruct (ah_target_preparation h) as [preparation|] eqn:Hp; [|apply does_ret, _].
    apply (does_weaken anywhere _ _ (fun o => plain o \/ published c1 p o)); [|done|done].
    apply does_or_skip; [by left| |done]. apply does_queue_actor. intros b. right. exists co, h. split_and!; try done.
    left. exists preparation, b. by rewrite E1, E3.
  - rewrite <- E3. destruct (rc_network_peers c1 !! tk_owner_host_id (ah_target_token h)) as [[peer outbound]|] eqn:Hn;
      [|apply does_plain; [by left|apply does_skip]].
    case_bool_decide as Hs; cbn [negb]; [|apply does_plain; [by left|apply does_skip]].
    apply (does_bind _ anywhere); [apply _| |done|].
    + apply does_payload. intros b. right. exists co, h. split_and!; try done. right. exists peer, outbound, b. done.
    + intros [[]|e]; [apply does_ret, _|]. apply does_plain; [by left|apply does_skip].
Qed.
Lemma does_publish_payload c p :
  does (calm c) calm (fun o => plain o \/ published c p o) (publish_payload (W:=W) p).
Proof.
  apply does_pointwise. intros c1 Hc1. eapply does_weaken; [apply does_publish_payload_at|done|].
  intros o [Ho|Ho]; [by left|right]. by eapply published_calm.
Qed.

Lemma does_publish_pending c id snapshot :
  does (calm c) calm (answer_entry c) (publish_pending_payload (W:=W) id snapshot).
Proof.
  unfold publish_pending_payload. apply does_get. intros c1 Hc1.
  destruct (rc_pending_payload c1) as [p|] eqn:Hp; [|apply does_ret, _].
  apply (does_bind _ (calm c1)); [apply _|..].
  - apply does_plain; [by left|apply does_drop_payload].
  - by intros c2 c3 -> ?.
  - intros []. destruct (_ || _); [apply does_ret, _|].
    eapply does_weaken; [apply (does_publish_payload c1)|done|].
    intros o Ho. apply (answer_entry_calm c c1); [done|]. destruct Ho as [Ho|Ho]; [by left|]. right. by exists p.
Qed.

Lemma does_dispatch_one c command : does (calm c) calm (answer_entry c) (dispatch_one (W:=W) peer_iter command).
Proof.
  assert (forall id m, does anywhere calm plain m -> does (calm c) calm (answer_entry c) (or_skip (W:=W) id m)) as Hor.
  { intros id m Hm. apply does_or_skip; [by left|apply does_plain; [by left|done]|]. intros c1 c2 H1 H2. by etrans. }
  unfold dispatch_one. apply does_pointwise. intros c1 Hc1. apply does_get. intros ? <-.
  assert (forall id m, does anywhere calm plain m -> does (eq c1) calm (answer_entry c) (or_skip (W:=W) id m)) as Hor1.
  { intros id m Hm. eapply does_weaken; [by apply Hor|by intros ? <-|done]. }
  destruct command as [id token session|id token session max|id snapshot|id token session|id].
  - destruct (bool_decide _); [apply Hor1, does_queue_actor; done|].
    destruct (active_envelope id c1); [apply Hor1, does_to_session|apply does_ret, _].
  - destruct (bool_decide _); [apply Hor1, does_queue_actor; done|]. apply does_plain; [by left|apply does_publish_state].
  - destruct (match active_envelope id c1 with Some _ => _ | None => _ end); [apply Hor1, does_queue_actor; done|].
    eapply does_weaken; [apply (does_publish_pending c)|by intros ? <-|done].
  - destruct (bool_decide _); [apply Hor1, does_queue_actor; done|].
    destruct (active_envelope id c1); [apply Hor1, does_to_session|apply does_ret, _].
  - apply does_plain; [by left|]. apply does_seq; [apply does_drop_payload|]. intros []. does_plain.
Qed.

Lemma does_dispatch c commands : does (calm c) calm (answer_entry c) (dispatch (W:=W) peer_iter commands).
Proof.
  apply does_for_each; [apply _|intros c1 c2 H1 H2; by etrans|]. intros command _. apply does_dispatch_one.
Qed.
End methods.
