(* ===== verification/ClipRuntimeInv.v ===== *)
(** * The invariant of the clipboard runtime

    On the server the pending transition of the runtime and the pending
    ownership of its coordinator are the same; a payload that waits for the
    target belongs to its handoff.  From this state everything but a hook of
    the service leaves the ownership as it is. *)

From stdpp Require Import base tactics list gmap sets strings.
From Stdlib Require Import NArith Lia Strings.Byte.
From S2P Require Import Prelude Channels Bytes Domain SwitchGate Clients ClipTypes ClipFrame ClipTransport ClipManager ClipCoordinator ClipCoordinatorTheorems ClipActor ClipRuntime ClipRuntimeLogic.

(** ** Operations of the coordinator that leave the ownership *)

(** The active handoff, if there is one, is that of before. *)
Definition lives (co co' : Coordinator) : Prop :=
  forall h', co_active co' = Some h' ->
    exists h, co_active co = Some h /\ envelope_of h' = envelope_of h /\ ah_target_host h' = ah_target_host h.

Record quiet (co co' : Coordinator) : Prop := {
  qu_authority : co_authority_session_id co' = co_authority_session_id co;
  qu_token : co_current_token co' = co_current_token co;
  qu_pending : co_pending_ownership co' = co_pending_ownership co;
  qu_epoch : co_next_handoff_epoch co' = co_next_handoff_epoch co;
  qu_ownership : co_next_ownership_epoch co' = co_next_ownership_epoch co;
  qu_lives : lives co co';
  qu_ok : CoordOk co -> CoordOk co' }.

Lemma lives_refl co : lives co co.
Proof. intros h Hh. by exists h. Qed.
Lemma lives_none co co' : co_active co' = None -> lives co co'.
Proof. intros H h. by rewrite H. Qed.
Lemma quiet_co_refl co : quiet co co.
Proof. by split; [..|apply lives_refl|]. Qed.

Lemma apply_ok o co cmds co' : clip_apply o co = (cmds, co') -> CoordOk co -> CoordOk co'.
Proof. intros H Hok. by destruct (clip_apply_ok _ _ _ _ Hok H). Qed.

Lemma publish_envelope h cmds h' :
  publish_if_ready h = (cmds, h') ->
  envelope_of h' = envelope_of h /\ ah_target_host h' = ah_target_host h /\ ah_target_preparation h' = ah_target_preparation h.
Proof. unfold publish_if_ready. repeat case_match; by intros [= <- <-]. Qed.

Lemma quiet_none co co' t : co' = co <| co_active := None |> <| co_last_terminal := t |> -> (CoordOk co -> CoordOk co') -> quiet co co'.
Proof. intros -> H. split; [done..| |done]. by apply lives_none. Qed.

Lemma quiet_skip id reason co : quiet co (snd (skip id reason co)).
Proof.
  pose proof (apply_ok (OpSkip id reason) co) as Hok. cbn [clip_apply] in Hok. unfold skip in *.
  destruct (match_active id co); cbn [snd]; [|apply quiet_co_refl]. eapply quiet_none; [done|]. by eapply Hok.
Qed.
Lemma quiet_applied id snapshot co : quiet co (snd (applied id snapshot co)).
Proof.
  pose proof (apply_ok (OpApplied id snapshot) co) as Hok. cbn [clip_apply] in Hok. unfold applied in *.
  destruct (match_active id co); cbn [snd]; [|apply quiet_co_refl]. destruct (_ || _); [apply quiet_co_refl|].
  eapply quiet_none; [done|]. by eapply Hok.
Qed.
Lemma quiet_staged id co : quiet co (snd (snapshot_staged id co)).
Proof.
  pose proof (apply_ok (OpStaged id) co) as Hok. cbn [clip_apply] in Hok. unfold snapshot_staged in *.
  destruct (match_active id co) as [h|] eqn:Hm; cbn [snd]; [|apply quiet_co_refl].
  apply match_active_inl in Hm as [Hh _]. split; [done..| |by eapply Hok]. intros h' [= <-]. by exists h.
Qed.

Lemma cancel_quiet reason co co1 cmds co' :
  quiet co co1 -> cancel reason co1 = (cmds, co') -> (CoordOk co -> CoordOk co') -> quiet co co'.
Proof.
  intros [] [(-> & -> & _)|(h & _ & -> & ->)]%cancel_cases Hok; [by split|]. by split.
Qed.
Lemma quiet_sessions co m : quiet co (co <| co_process_sessions := m |>).
Proof. split; [done..|intros h Hh; by exists h|]. intros []. by split. Qed.

Lemma quiet_session host session co cmds co' : set_process_session host session co = (cmds, co') -> quiet co co'.
Proof.
  intros H. pose proof (apply_ok (OpSession host session) co cmds co' H) as Hok. revert H. unfold set_process_session.
  destruct (_ && _); [|intros [= <- <-]; apply quiet_sessions]. intros H. by eapply cancel_quiet; [apply quiet_sessions|..].
Qed.
Lemma quiet_remove host co cmds co' : remove_process_session host co = (cmds, co') -> quiet co co'.
Proof.
  intros H. pose proof (apply_ok (OpRemoveSession host) co cmds co' H) as Hok. revert H. unfold remove_process_session.
  destruct (co_process_sessions co !! host); [|intros [= <- <-]; apply quiet_co_refl].
  destruct (involves _ _); [|intros [= <- <-]; apply quiet_sessions]. intros H. by eapply cancel_quiet; [apply quiet_sessions|..].
Qed.

(** The preparation of the active handoff is that of before or the one that is
    reported now. *)
Definition prepared_with (co co' : Coordinator) (report : option NativeGeneration) : Prop :=
  forall h' preparation, co_active co' = Some h' -> ah_target_preparation h' = Some preparation ->
    Some (tp_baseline_generation preparation) = report
    \/ exists h, co_active co = Some h /\ ah_target_preparation h = Some preparation.

Lemma quiet_prepared id token session baseline co r co' :
  target_prepared id token session baseline co = (r, co') -> quiet co co' /\ prepared_with co co' (Some baseline).
Proof.
  intros H. pose proof (apply_ok (OpPrepared id token session baseline) co) as Hok. cbn [clip_apply] in Hok.
  rewrite H in Hok. specialize (Hok _ _ eq_refl). revert H. unfold target_prepared.
  assert ((r, co') = (r, co) -> quiet co co' /\ prepared_with co co' (Some baseline)) as Hsame.
  { intros [= ->]. split; [apply quiet_co_refl|]. intros h p Hh Hp. right. by exists h. }
  destruct (match_active id co) as [h|] eqn:Hm; [|intros [= <- <-]; by apply Hsame].
  apply match_active_inl in Hm as [Hh _].
  do 2 (case_match; [intros [= <- <-]; by apply Hsame|]). clear Hsame.
  destruct (publish_if_ready _) as [cmds h1] eqn:Hp. intros [= <- <-].
  destruct (publish_envelope _ _ _ Hp) as (E1 & E2 & E3). split.
  - split; [done..| |done]. intros h' [= <-]. exists h. by rewrite E1, E2.
  - intros h' p [= <-]. rewrite E3. cbn. intros [= <-]. by left.
Qed.

Lemma quiet_captured id token session snapshot co r co' :
  source_captured id token session snapshot co = (r, co') ->
  quiet co co' /\ prepared_with co co' None /\ (is_inl r = true -> (sm_bytes snapshot <= co_max_bytes co)%N).
Proof.
  intros H. pose proof (apply_ok (OpCaptured id token session snapshot) co) as Hok. cbn [clip_apply] in Hok.
  rewrite H in Hok. specialize (Hok _ _ eq_refl). revert H. unfold source_captured.
  assert (forall e, (r, co') = (inr e, co) -> quiet co co' /\ prepared_with co co' None
            /\ (is_inl r = true -> (sm_bytes snapshot <= co_max_bytes co)%N)) as Hsame.
  { intros e [= -> ->]. split; [apply quiet_co_refl|]. split; [|done]. intros h p Hh Hp. right. by exists h. }
  destruct (co_max_bytes co <? sm_bytes snapshot)%N eqn:Hmax; [intros [= <- <-]; by eapply Hsame|]. apply N.ltb_ge in Hmax.
  destruct (match_active id co) as [h|] eqn:Hm; [|intros [= <- <-]; by eapply Hsame].
  apply match_active_inl in Hm as [Hh _].
  do 2 (case_match; [intros [= <- <-]; by eapply Hsame|]). clear Hsame.
  destruct (publish_if_ready _) as [cmds h1] eqn:Hp. intros [= <- <-].
  destruct (publish_envelope _ _ _ Hp) as (E1 & E2 & E3). split; [|split; [|done]].
  - split; [done..| |done]. intros h' [= <-]. exists h. by rewrite E1, E2.
  - intros h' p [= <-]. rewrite E3. cbn. intros Hpr. right. by exists h.
Qed.

(** ** The invariant *)

Definition pending_ownership_of (p : option PendingTransition) : option PendingOwnership :=
  match p with
  | Some p => if pt_activated p then None else Some (mkPending (pt_handoff_id p) (pt_target_token p))
  | None => None
  end.

Record AuthInv (co : Coordinator) (pending : option PendingTransition) (payload : option ClipboardPayload) : Prop := {
  ai_ok : CoordOk co;
  ai_epochs : co_next_ownership_epoch co = co_next_handoff_epoch co;
  ai_pending : co_pending_ownership co = pending_ownership_of pending;
  ai_match : forall p h, pending = Some p -> pt_activated p = false -> co_active co = Some h ->
    ah_target_token h = pt_target_token p /\ ah_target_process_session_id h = pt_target_process_session_id p;
  ai_payload : forall p, payload = Some p ->
    (hi_handoff_epoch (he_handoff_id (cp_handoff p)) <= co_next_handoff_epoch co)%N
    /\ forall h, co_active co = Some h -> ah_id h = he_handoff_id (cp_handoff p) -> envelope_of h = cp_handoff p }.

Definition core_inv (c : RuntimeCore) : Prop :=
  match rc_role c with
  | RAuthority co => AuthInv co (rc_pending c) (rc_pending_payload c)
  | _ => rc_pending c = None /\ rc_pending_payload c = None
  end.

(** The ownership that the server keeps: the owner, the transition that is
    announced but not activated, and how many were announced. *)
Record Ownership := mkOwnership {
  ow_owner : HostId;
  ow_pending : option (ClipboardTransitionId * HostId);
  ow_announced : N }.

Definition pending_view (p : option PendingTransition) : option (ClipboardTransitionId * HostId) :=
  match p with
  | Some p => if pt_activated p then None else Some (pt_id p, tk_owner_host_id (pt_target_token p))
  | None => None
  end.
Definition ownership (c : RuntimeCore) : option Ownership :=
  match rc_role c with
  | RAuthority co => Some (mkOwnership (tk_owner_host_id (co_current_token co)) (pending_view (rc_pending c)) (co_next_handoff_epoch co))
  | _ => None
  end.

(** What no event changes: who the host is, and what it is configured to. *)
Inductive Kind := KindAuthority | KindPeer (local server : HostId) | KindUnavailable.
Definition kind (r : RuntimeRole) : Kind :=
  match r with RAuthority _ => KindAuthority | RPeer local server _ _ => KindPeer local server | RUnavailable => KindUnavailable end.

Record frame (c c' : RuntimeCore) : Prop := {
  fr_local : rc_local_host c' = rc_local_host c;
  fr_session : rc_process_session_id c' = rc_process_session_id c;
  fr_enabled : rc_actor_enabled c' = rc_actor_enabled c;
  fr_actor : rc_actor c' = rc_actor c;
  fr_kind : kind (rc_role c') = kind (rc_role c) }.

(** The payload that waits is that of before, none, or one of [off]. *)
Definition kept (off : ClipboardPayload -> Prop) (c c' : RuntimeCore) : Prop :=
  rc_pending_payload c' = rc_pending_payload c \/ rc_pending_payload c' = None
  \/ exists p, rc_pending_payload c' = Some p /\ off p.

(** A change of the core that leaves the ownership. *)
Definition inert (off : ClipboardPayload -> Prop) (c c' : RuntimeCore) : Prop :=
  frame c c' /\ kept off c c' /\ (core_inv c -> core_inv c' /\ ownership c' = ownership c).

#[export] Instance frame_preorder : PreOrder frame.
Proof. split; [by intros c|]. intros c1 c2 c3 [] []. split; congruence. Qed.
#[export] Instance kept_preorder off : PreOrder (kept off).
Proof.
  split; [by left|]. unfold kept. intros c1 c2 c3 H1 [-> | [-> | (p & -> & Hp)]]; [done|auto|]. right. right. by exists p.
Qed.
#[export] Instance inert_preorder off : PreOrder (inert off).
Proof.
  split; [intros c; split; [done|split; [by left|done]]|].
  intros c1 c2 c3 (F1 & K1 & H1) (F2 & K2 & H2). split; [by etrans|split; [by etrans|]]. intros H.
  destruct (H1 H) as [Hi1 E1], (H2 Hi1) as [Hi2 E2]. split; [done|congruence].
Qed.

Lemma auth_quiet co co' pending payload payload' :
  AuthInv co pending payload -> quiet co co' -> payload' = payload \/ payload' = None -> AuthInv co' pending payload'.
Proof.
  intros [Hok He Hp Hm Hpl] [] Hpay. split.
  - auto.
  - congruence.
  - congruence.
  - intros p h Hpe Ha Hh. apply qu_lives0 in Hh as (h0 & Hh0 & E & _).
    destruct (Hm p h0 Hpe Ha Hh0) as [<- <-]. split; by injection E.
  - intros p Hpe. destruct Hpay as [-> | ->]; [|done]. destruct (Hpl p Hpe) as [Hle Hen]. rewrite qu_epoch0. split; [done|].
    intros h Hh Hid. apply qu_lives0 in Hh as (h0 & Hh0 & E & _). rewrite E. apply Hen; [done|]. rewrite <- Hid. by injection E.
Qed.

Lemma role_calm_quiet co r : CoordOk co -> role_calm (RAuthority co) r -> exists co', r = RAuthority co' /\ quiet co co'.
Proof.
  intros Hok [->|(co0 & t & [= <-] & ->)]; [exists co; split; [done|apply quiet_co_refl]|].
  eexists. split; [done|]. eapply quiet_none; [done|]. intros [H1 H2 H3 H4 H5]. split; cbn; try done.
Qed.

Lemma calm_frame c c' : calm c c' -> frame c c'.
Proof. intros []. split; try done. by destruct ca_role as [->|(co & t & -> & ->)]. Qed.

Lemma calm_inert off c c' : calm c c' -> inert off c c'.
Proof.
  intros H. split; [by apply calm_frame|]. destruct H. split; [destruct ca_payload; unfold kept; auto|]. unfold core_inv, ownership. intros Hinv.
  destruct (rc_role c) as [co|l s st p|] eqn:Hr.
  - destruct (role_calm_quiet co _ (ai_ok _ _ _ Hinv) ca_role) as (co' & -> & Hq).
    rewrite ca_pending. split; [by eapply auth_quiet|]. by destruct Hq as [_ -> _ -> _ _].
  - destruct Hinv. destruct ca_role as [->|(co & t & ? & _)]; [|done]. rewrite ca_pending.
    split; [|done]. split; [done|]. destruct ca_payload; congruence.
  - destruct Hinv. destruct ca_role as [->|(co & t & ? & _)]; [|done]. rewrite ca_pending.
    split; [|done]. split; [done|]. destruct ca_payload; congruence.
Qed.
