(* ===== verification/ClipRuntimeTheorems.v ===== *)
(** * Theorems on the clipboard runtime

    On the server the ownership of the clipboard follows the hooks of the
    service and nothing else; a snapshot is passed on unchanged, to the target
    of the active handoff only; and the native clipboard is running, being
    connected or about to be tried again, and advertised exactly while it
    runs. *)

From stdpp Require Import base tactics list gmap sets strings.
From Stdlib Require Import NArith Lia Strings.Byte.
From S2P Require Import Prelude Channels Bytes Domain SwitchGate Clients ClipTypes ClipFrame ClipTransport ClipManager ClipCoordinator ClipCoordinatorTheorems ClipActor ClipRuntime ClipRuntimeLogic ClipRuntimeInv.

(** ** Snapshots on the server *)

(** A snapshot that is passed on for the active handoff of [c], to the target:
    to the local actor, against the baseline of its preparation, or on the
    connection of the target's session. *)
Definition passed (report : option NativeGeneration) (c : RuntimeCore) (p : ClipboardPayload) (o : ClipOutput) : Prop :=
  exists co h, rc_role c = RAuthority co /\ co_active co = Some h /\ envelope_of h = cp_handoff p
    /\ ((exists baseline b, rc_local_host c = Some (ah_target_host h)
           /\ (Some baseline = report \/ tp_baseline_generation <$> ah_target_preparation h = Some baseline)
           /\ o = CoActor (StageSnapshot (mkStaged (ah_id h) (cp_snapshot_id p) (ah_target_token h)
                (ah_target_process_session_id h) baseline (cp_data p))) b)
        \/ (exists peer outbound b, rc_local_host c <> Some (ah_target_host h)
           /\ rc_network_peers c !! ah_target_host h = Some (peer, outbound)
           /\ np_process_session_id peer = ah_target_process_session_id h
           /\ o = CoPayload outbound (WSnapshotDeliver p) b)).

Definition entry (offered : ClipboardPayload -> Prop) (report : option NativeGeneration) (c : RuntimeCore) (o : ClipOutput) : Prop :=
  plain o \/ exists p, offered p /\ passed report c p o.

Lemma published_passed report c co co' c1 p o :
  AuthInv co (rc_pending c) (rc_pending_payload c) -> rc_role c = RAuthority co -> lives co co' -> prepared_with co co' report ->
  rc_role c1 = RAuthority co' -> rc_local_host c1 = rc_local_host c ->
  (forall host x, rc_network_peers c1 !! host = Some x -> rc_network_peers c !! host = Some x) ->
  (forall h, co_active co = Some h -> ah_id h = he_handoff_id (cp_handoff p) -> envelope_of h = cp_handoff p) ->
  published c1 p o -> passed report c p o.
Proof.
  intros Hinv Hr Hl Hp Hr1 Hlocal Hpeers Henv (co1 & h1 & Hc1 & Ha1 & Hid & Hsrc & Htgt & Ho).
  rewrite Hr1 in Hc1. injection Hc1 as <-. destruct (Hl h1 Ha1) as (h & Ha & He & Hhost).
  assert (envelope_of h = cp_handoff p) as Hcp by (apply Henv; [done|]; rewrite <- Hid; by injection He).
  destruct (ck_active _ (ai_ok _ _ _ Hinv) h Ha) as (_ & Htok & _).
  exists co, h. split_and!; [done..|]. rewrite Hlocal, Hhost in Ho.
  assert (ah_target_token h1 = ah_target_token h /\ ah_id h1 = ah_id h) as [Et Ei] by (by injection He). rewrite Et, Ei in Ho.
  assert (he_target_process_session_id (cp_handoff p) = ah_target_process_session_id h) as Es by (by rewrite <- Hcp).
  rewrite Es in Ho. destruct Ho as [(preparation & b & Hloc & Hprep & ->)|(peer & outbound & b & Hloc & Hn & Hs & ->)].
  - left. exists (tp_baseline_generation preparation), b. split_and!; [done| |done].
    destruct (Hp h1 preparation Ha1 Hprep) as [?|(h0 & Hh0 & E)]; [by left|right]. rewrite Ha in Hh0. injection Hh0 as <-. by rewrite E.
  - right. exists peer, outbound, b. rewrite Htok in Hn. cbn in Hn. split_and!; try done. by apply Hpeers.
Qed.

(** ** Snapshots of an input *)

(** The snapshots that the input [i] brings or that wait for it: offered by the
    peer that owns the source, on its current connection, or published by the
    local actor for the source of the handoff. *)
Definition offered (c : RuntimeCore) (i : RunInput) (p : ClipboardPayload) : Prop :=
  rc_pending_payload c = Some p
  \/ (exists session connection, i = RiTransport (Some (TvMessage (tk_owner_host_id (he_source_token (cp_handoff p)))
         session connection (WSnapshotOffer p)))
       /\ is_current (tk_owner_host_id (he_source_token (cp_handoff p))) session connection c = true)
  \/ (exists ap, i = RiPayload (Some ap) /\ cp_snapshot_id p = ap_snapshot_id ap /\ cp_data p = ap_data ap
       /\ he_handoff_id (cp_handoff p) = ap_handoff_id ap /\ he_source_token (cp_handoff p) = ap_source_token ap
       /\ he_source_process_session_id (cp_handoff p) = rc_process_session_id c).

(** The baseline that an input reports for the target. *)
Definition reported_by (i : RunInput) : option NativeGeneration :=
  match i with
  | RiCompletion (Some (_, EvPrepared _ _ _ baseline)) => Some baseline
  | RiTransport (Some (TvMessage _ _ _ (WPrepareResult r))) => pr_baseline_generation r
  | _ => None
  end.

(** What a peer does with snapshots: it stages one that was delivered for its
    preparation, and offers one of its own actor to the server. *)
Definition peer_entry (c : RuntimeCore) (i : RunInput) (o : ClipOutput) : Prop :=
  exists local server state preparation, rc_role c = RPeer local server state preparation
  /\ ((exists prepared host session connection p baseline b,
        preparation = Some prepared /\ i = RiTransport (Some (TvMessage host session connection (WSnapshotDeliver p)))
        /\ is_current host session connection c = true
        /\ he_handoff_id (pp_handoff prepared) = he_handoff_id (cp_handoff p)
        /\ he_target_token (pp_handoff prepared) = he_target_token (cp_handoff p)
        /\ pp_baseline_generation prepared = Some baseline
        /\ o = CoActor (StageSnapshot (mkStaged (he_handoff_id (cp_handoff p)) (cp_snapshot_id p) (he_target_token (cp_handoff p))
                (he_target_process_session_id (cp_handoff p)) baseline (cp_data p))) b)
      \/ (exists ap handoff peer outbound b,
        i = RiPayload (Some ap) /\ peer_handoff (ap_handoff_id ap) c = Some handoff
        /\ he_source_token handoff = ap_source_token ap /\ he_source_process_session_id handoff = rc_process_session_id c
        /\ rc_network_peers c !! server = Some (peer, outbound)
        /\ o = CoPayload outbound (WSnapshotOffer (mkPayload handoff (ap_snapshot_id ap) (ap_data ap))) b)).

Definition fenced (c : RuntimeCore) (i : RunInput) (o : ClipOutput) : Prop :=
  plain o \/ (exists p, offered c i p /\ passed (reported_by i) c p o) \/ peer_entry c i o.

Section runtime.
Context {W : Type} {HW : ClipboardWorld W}.
(** The snapshots that may be kept for later. *)
Variable off : ClipboardPayload -> Prop.
Variable peer_iter : gmap string (NegotiatedPeer * nat) -> list (string * (NegotiatedPeer * nat)).

Lemma does_calm P F {A} (m : clip (W:=W) A) : does P calm F m -> does P (inert off) F m.
Proof. intros H s Hs. destruct (H s Hs) as [Hc He]. split; [by apply calm_inert|done]. Qed.

Abbreviation waiting c := (fun p => rc_pending_payload c = Some p) (only parsing).

(** Replacing the coordinator by one that has the same ownership. *)
Lemma inert_set_role c co co' :
  rc_role c = RAuthority co -> quiet co co' -> (inert off) c (c <| rc_role := RAuthority co' |>).
Proof.
  intros Hr Hq. split; [split; cbn; try done; by rewrite Hr|split; [by left|]]. unfold core_inv, ownership. rewrite Hr. cbn. intros Hinv.
  split; [eapply auth_quiet; [done|done|by left]|]. by destruct Hq as [_ -> _ -> _ _].
Qed.

Lemma does_modify_then R F `{!Transitive R} c f {A} (k : unit -> clip (W:=W) A) :
  R c (f c) -> does (eq (f c)) R F (k tt) -> does (eq c) R F (modify_core f ≫= k).
Proof.
  intros HR Hk s Hs. unfold mbind, clip_bind, modify_core.
  destruct (Hk (s <| rs_core ::= f |>)) as (Hr & new & Hl & Hn); [cbn; by rewrite <- Hs|].
  cbn in *. split; [|by exists new]. etrans; [|exact Hr]. by rewrite <- Hs.
Qed.

(** Answering commands for the coordinator that [c1] has. *)
Lemma does_answers report c co co' c1 commands {A} (k : unit -> clip (W:=W) A) :
  core_inv c -> rc_role c = RAuthority co -> lives co co' -> prepared_with co co' report ->
  rc_role c1 = RAuthority co' -> rc_local_host c1 = rc_local_host c ->
  (forall host x, rc_network_peers c1 !! host = Some x -> rc_network_peers c !! host = Some x) ->
  rc_pending_payload c1 = rc_pending_payload c -> (forall u, does anywhere calm plain (k u)) ->
  does (eq c1) (inert off) (entry (waiting c) report c) (dispatch peer_iter commands ≫= k).
Proof.
  intros Hinv Hr Hl Hp Hr1 Hloc Hpeers Hpay Hk. unfold core_inv in Hinv. rewrite Hr in Hinv.
  apply does_calm. apply (does_bind _ anywhere); [apply _| |done|].
  - eapply does_weaken; [apply (does_dispatch peer_iter c1)|by intros ? <-|].
    intros o [Ho|(p & Hpp & Ho)]; [by left|right]. rewrite Hpay in Hpp. exists p. split; [done|].
    eapply published_passed; try done. intros h Hh Hid. by eapply (ai_payload _ _ _ Hinv).
  - intros u. apply does_plain; [by left|apply Hk].
Qed.

(** The coordinator is replaced by one of the same ownership, and its commands
    are answered. *)
Lemma does_answer report c co co' commands {A} (k : unit -> clip (W:=W) A) :
  core_inv c -> rc_role c = RAuthority co -> quiet co co' -> prepared_with co co' report ->
  (forall u, does anywhere calm plain (k u)) ->
  does (eq c) (inert off) (entry (waiting c) report c) (set_role (RAuthority co');; (dispatch peer_iter commands ≫= k)).
Proof.
  intros Hinv Hr Hq Hp Hk. apply does_modify_then; [apply _|by eapply inert_set_role|].
  by eapply does_answers; [exact Hinv|exact Hr|apply (qu_lives _ _ Hq)|..].
Qed.
Lemma does_answer_only report c co co' commands :
  core_inv c -> rc_role c = RAuthority co -> quiet co co' -> prepared_with co co' report ->
  does (eq c) (inert off) (entry (waiting c) report c) (set_role (RAuthority co');; dispatch (W:=W) peer_iter commands).
Proof.
  intros Hinv Hr Hq Hp. apply does_modify_then; [apply _|by eapply inert_set_role|].
  unfold core_inv in Hinv. rewrite Hr in Hinv. apply does_calm.
  eapply does_weaken; [apply (does_dispatch peer_iter)|by intros ? <-|].
  intros o [Ho|(p & Hpp & Ho)]; [by left|right]. exists p. split; [done|].
  eapply (published_passed _ _ _ _ (c <| rc_role := RAuthority co' |>)); [exact Hinv|exact Hr|apply (qu_lives _ _ Hq)|exact Hp|done|done|done| |exact Ho].
  intros h Hh Hid. by eapply (ai_payload _ _ _ Hinv).
Qed.

Lemma prepared_none co co' : (forall h, co_active co' = Some h -> co_active co = Some h) -> prepared_with co co' None.
Proof. intros H h p Hh Hp. right. exists h. auto. Qed.

Lemma does_target_prepared c id token session baseline :
  core_inv c -> does (eq c) (inert off) (entry (waiting c) (Some baseline) c) (runtime_target_prepared (W:=W) peer_iter id token session baseline).
Proof.
  intros Hinv. apply does_get. intros ? <-. destruct (rc_role c) as [co| |] eqn:Hr; [|apply does_ret, _..].
  destruct (target_prepared id token session baseline co) as [r co'] eqn:E. apply quiet_prepared in E as [Hq Hp].
  destruct r as [commands|e].
  - eapply does_answer; try done. intros []. apply does_ret, _.
  - apply does_modify_then; [apply _|by eapply inert_set_role|]. apply does_ret, _.
Qed.

Lemma does_source_captured c id token session snapshot :
  core_inv c -> does (eq c) (inert off) (entry (waiting c) None c) (runtime_source_captured (W:=W) peer_iter id token session snapshot).
Proof.
  intros Hinv. apply does_get. intros ? <-. destruct (rc_role c) as [co| |] eqn:Hr; [|apply does_ret, _..].
  destruct (source_captured id token session snapshot co) as [r co'] eqn:E. apply quiet_captured in E as (Hq & Hp & _).
  destruct r as [commands|e].
  - eapply does_answer; try done. intros []. apply does_ret, _.
  - apply does_modify_then; [apply _|by eapply inert_set_role|]. apply does_ret, _.
Qed.

(** ** Messages of peers *)

Lemma entry_fenced c i report offer o :
  entry offer report c o -> (forall p, offer p -> offered c i p) -> report = None \/ report = reported_by i -> fenced c i o.
Proof.
  intros [Ho|(p & Hp & co & h & Hr & Ha & He & H)] Hoff Hrep; [by left|right; left]. exists p. split; [by apply Hoff|].
  exists co, h. split_and!; try done. destruct H as [(baseline & b & Hl & Hb & ->)|H]; [left|by right].
  exists baseline, b. split_and!; try done. destruct Hb as [Hb|Hb]; [|by right]. destruct Hrep as [Hrep|Hrep]; [congruence|].
  left. congruence.
Qed.

Lemma does_fenced c i report m :
  report = None \/ report = reported_by i -> does (eq c) (inert off) (entry (waiting c) report c) m -> does (A:=unit) (W:=W) (eq c) (inert off) (fenced c i) m.
Proof. intros Hrep H. eapply does_weaken; [exact H|done|]. intros o Ho. eapply entry_fenced; try done. by left. Qed.

Lemma does_fenced_plain P c i {A} (m : clip (W:=W) A) : does anywhere calm plain m -> does P (inert off) (fenced c i) m.
Proof. intros H. apply does_calm, does_plain; [by left|done]. Qed.

Lemma inert_peer c local server state preparation state' preparation' :
  rc_role c = RPeer local server state preparation -> (inert off) c (c <| rc_role := RPeer local server state' preparation' |>).
Proof. intros Hr. split; [split; cbn; try done; by rewrite Hr|split; [by left|]]. unfold core_inv, ownership. rewrite Hr. cbn. done. Qed.

Lemma does_accept_authority c i state : does (eq c) (inert off) (fenced c i) (runtime_accept_authority (W:=W) state).
Proof.
  apply does_get. intros ? <-. destruct (rc_role c) as [|local server st pr|] eqn:Hr; [apply does_ret, _| |apply does_ret, _].
  apply does_modify_then; [apply _|by eapply inert_peer|]. apply does_fenced_plain. does_plain.
Qed.

Lemma does_snapshot_offer c i host session connection payload :
  core_inv c -> i = RiTransport (Some (TvMessage host session connection (WSnapshotOffer payload))) ->
  is_current host session connection c = true ->
  (tk_owner_host_id (he_source_token (cp_handoff payload)) = host -> off payload) ->
  does (eq c) (inert off) (fenced c i) (accept_snapshot_offer (W:=W) peer_iter host payload).
Proof.
  intros Hinv Hi Hcur Hoff. apply does_get. intros ? <-. cbv zeta.
  destruct (rc_role c) as [co| |] eqn:Hr; [|apply does_ret, _..].
  case_bool_decide as Hh; cbn [negb orb]; [|apply does_ret, _]. case_bool_decide as He; cbn [negb]; [|apply does_ret, _].
  destruct (data_kind (cp_data payload)) as [kd|e|e]; [|apply does_ret, _..].
  assert (exists h, co_active co = Some h /\ envelope_of h = cp_handoff payload) as (h & Ha & Henv).
  { revert He. unfold active_envelope, core_coordinator. rewrite Hr. cbn. destruct (co_active co) as [h|]; [|done].
    case_bool_decide; [|done]. intros [= E]. by exists h. }
  set (c1 := c <| rc_pending_payload := Some payload |>).
  assert ((inert off) c c1 /\ core_inv c1) as [Hin Hinv1].
  { assert (core_inv c1) as H1; [|split; [|done]].
    - unfold core_inv in *. cbn. rewrite Hr in *. destruct Hinv as [H1 H2 H3 H4 H5]. split; try done. intros p [= <-].
      destruct (ck_active _ H1 h Ha) as [Hid _]. rewrite <- Henv. cbn. rewrite Hid. split; [done|].
      intros h' Hh' _. rewrite Ha in Hh'. by injection Hh' as <-.
    - split; [by split|split]; [right; right; exists payload; auto|]. intros _. by split. }
  apply does_modify_then; [apply _|done|].
  apply (does_bind _ anywhere); [apply _|..].
  - eapply does_weaken; [apply (does_source_captured c1); exact Hinv1|done|].
    intros o Ho. apply (entry_fenced c i None (fun p => p = payload)); [| |by left].
    + destruct Ho as [Ho|(p & [= <-] & Ho)]; [by left|right]. by exists payload.
    + intros p ->. right. left. exists session, connection. by rewrite Hh.
  - done.
  - intros []; [apply does_ret, _|]. apply does_fenced_plain, does_drop_payload.
Qed.

Lemma does_stage_delivered c i host session connection payload :
  i = RiTransport (Some (TvMessage host session connection (WSnapshotDeliver payload))) ->
  is_current host session connection c = true ->
  does (eq c) (inert off) (fenced c i) (stage_delivered_snapshot (W:=W) payload).
Proof.
  intros Hi Hcur. apply does_get. intros ? <-. cbv zeta.
  destruct (rc_role c) as [co|local server st [prepared|]|] eqn:Hr; try (apply does_ret, _).
  case_bool_decide as Hid; cbn [andb]; [|apply does_ret, _]. case_bool_decide as Ht; [|apply does_ret, _].
  destruct (pp_baseline_generation prepared) as [baseline|] eqn:Hb; [|apply does_ret, _].
  apply does_calm. apply (does_bind _ anywhere); [apply _| |done|intros ?; apply does_ret, _].
  apply does_queue_actor. intros b. right. right. exists local, server, st, (Some prepared). split; [done|]. left.
  by exists prepared, host, session, connection, payload, baseline, b.
Qed.

Lemma does_set_quiet c i co co' : rc_role c = RAuthority co -> quiet co co' ->
  does (eq c) (inert off) (fenced c i) (set_role (W:=W) (RAuthority co')).
Proof. intros Hr Hq. apply does_modify. intros ? <-. by eapply inert_set_role. Qed.

Lemma does_wire_message c host session connection message :
  core_inv c -> is_current host session connection c = true ->
  (forall p, message = WSnapshotOffer p -> tk_owner_host_id (he_source_token (cp_handoff p)) = host -> off p) ->
  does (eq c) (inert off) (fenced c (RiTransport (Some (TvMessage host session connection message))))
    (handle_wire_message (W:=W) peer_iter host message).
Proof.
  intros Hinv Hcur Hoff. unfold handle_wire_message. apply does_get. intros ? <-.
  destruct message as [h|state|handoff|result|handoff|payload|payload|result|id|reason]; try (apply does_ret, _).
  - apply does_accept_authority.
  - destruct (rc_role c) as [|local server st pr|] eqn:Hr; [apply does_ret, _| |apply does_ret, _].
    apply does_modify_then; [apply _|by eapply inert_peer|]. apply does_fenced_plain.
    does_plain. apply does_prepare_result.
  - destruct (pr_result result) as [|reason]; [|apply does_fenced_plain, does_skip].
    destruct (pr_baseline_generation result) as [generation|] eqn:Hg; [|apply does_ret, _].
    apply (does_fenced _ _ (Some generation)); [by right|].
    eapply (does_bind _ anywhere); [apply _|by apply does_target_prepared|done|]. intros ?. apply does_ret, _.
  - eapply (does_bind _ anywhere); [apply _| |done|].
    + destruct (rc_role c) as [|local server [st|] pr|] eqn:Hr; try (apply does_ret, _).
      apply does_modify. intros ? <-. by eapply inert_peer.
    + intros ?. apply does_fenced_plain. does_plain.
  - eapply does_snapshot_offer; [done|done|done|]. by apply Hoff.
  - by eapply does_stage_delivered.
  - destruct (ar_result result) as [|reason]; [|apply does_fenced_plain, does_skip].
    destruct (rc_role c) as [co| |] eqn:Hr; [|apply does_ret, _..]. eapply does_set_quiet; [done|apply quiet_applied].
  - eapply (does_bind _ anywhere); [apply _| |done|].
    + destruct (rc_role c) as [|local server st pr|] eqn:Hr; [apply does_ret, _| |apply does_ret, _].
      apply does_modify. intros ? <-. by eapply inert_peer.
    + intros ?. apply does_fenced_plain. does_plain.
Qed.

Lemma inert_peers c m : (inert off) c (c <| rc_network_peers := m |>).
Proof. split; [by split|split; [by left|]]. by unfold core_inv, ownership. Qed.

Lemma passed_peers report c m p o : (forall host x, m !! host = Some x -> rc_network_peers c !! host = Some x) ->
  passed report (c <| rc_network_peers := m |>) p o -> passed report c p o.
Proof.
  intros Hm (co & h & Hr & Ha & He & H). exists co, h. split_and!; try done.
  destruct H as [H|(peer & outbound & b & Hl & Hn & H)]; [by left|right]. exists peer, outbound, b. split_and!; try apply H; [done|].
  by apply Hm.
Qed.

Lemma session_active host session co cmds co' : set_process_session host session co = (cmds, co') ->
  forall h, co_active co' = Some h -> co_active co = Some h.
Proof.
  unfold set_process_session. destruct (_ && _); [|by intros [= <- <-]].
  intros [(-> & -> & _)|(h & _ & -> & ->)]%cancel_cases; done.
Qed.
Lemma remove_active host co cmds co' : remove_process_session host co = (cmds, co') ->
  forall h, co_active co' = Some h -> co_active co = Some h.
Proof.
  unfold remove_process_session. destruct (co_process_sessions co !! host); [|by intros [= <- <-]].
  destruct (involves _ _); [|by intros [= <- <-]]. intros [(-> & -> & _)|(h & _ & -> & ->)]%cancel_cases; done.
Qed.

Lemma does_transport_event c event :
  core_inv c ->
  (forall host session connection p, event = TvMessage host session connection (WSnapshotOffer p) ->
     tk_owner_host_id (he_source_token (cp_handoff p)) = host -> off p) -> does (eq c) (inert off) (fenced c (RiTransport (Some event))) (handle_transport_event (W:=W) peer_iter event).
Proof.
  intros Hinv Hoff. destruct event as [peer outbound|host session connection|host session connection message]; cbn [handle_transport_event].
  - eapply (does_bind _ anywhere); [apply _| |done|].
    + case_bool_decide; [|apply does_ret, _]. unfold peer_session_changed. apply does_get. intros ? <-.
      destruct (rc_role c) as [co| |] eqn:Hr; [|apply does_ret, _..].
      destruct (set_process_session _ _ co) as [commands co'] eqn:E. apply (does_fenced _ _ None); [by left|].
      eapply does_answer_only; [done|done|by eapply quiet_session|]. apply prepared_none. by eapply session_active.
    + intros ?. eapply (does_bind _ anywhere); [apply _| |done|].
      * apply does_modify. intros c' _. apply inert_peers.
      * intros ?. apply does_fenced_plain, does_publish_state.
  - apply does_get. intros ? <-. destruct (is_current host session connection c); cbn [negb]; [|apply does_ret, _].
    set (c1 := c <| rc_network_peers ::= delete host |>).
    apply does_modify_then; [apply _|apply inert_peers|]. destruct (rc_role c) as [co|local server st pr|] eqn:Hr.
    + destruct (remove_process_session host co) as [commands co'] eqn:E.
      eapply does_weaken; [apply (does_answer_only None c1 co co')|done|].
      * destruct (inert_peers c (delete host (rc_network_peers c))) as (_ & _ & Hi). by apply Hi.
      * done.
      * by eapply quiet_remove.
      * apply prepared_none. by eapply remove_active.
      * intros o [Ho|(p & Hp & Ho)]; [by left|right; left]. exists p. split; [by left|].
        apply (passed_peers None) in Ho; [|by intros h x [_ ?]%lookup_delete_Some]. done.
    + case_bool_decide; [|apply does_ret, _]. apply does_modify_then; [apply _|by eapply inert_peer|].
      apply does_fenced_plain. does_plain.
    + apply does_ret, _.
  - apply does_get. intros ? <-. destruct (is_current host session connection c) eqn:Hcur; [|apply does_ret, _].
    apply does_wire_message; [done|done|]. intros p ->. by eapply Hoff.
Qed.

(** ** Events of the actor *)

Lemma does_actor_event c command event :
  core_inv c -> does (eq c) (inert off) (fenced c (RiCompletion (Some (command, event)))) (handle_actor_event (W:=W) peer_iter command event).
Proof.
  intros Hinv. unfold handle_actor_event. apply does_get. intros ? <-.
  assert (forall id reason, does (eq c) (inert off) (fenced c (RiCompletion (Some (command, event))))
    (match rc_role c with
     | RAuthority _ => runtime_skip id reason
     | _ => match command with
            | ClipActor.PrepareTarget _ _ =>
                match peer_handoff id c with Some handoff => send_prepare_result handoff None (Skipped reason) | None => mret tt end
            | StageSnapshot stage =>
                match peer_handoff id c with Some handoff => send_apply_result handoff (ss_snapshot_id stage) (Skipped reason) | None => mret tt end
            | _ => send_to_server_control (W:=W) (WProtocolError reason)
            end
     end)) as Hskip.
  { intros id reason. apply does_fenced_plain. destruct (rc_role c); [apply does_skip|..];
      (destruct command; try apply does_to_server_control; destruct (peer_handoff id c);
         try apply does_prepare_result; try apply does_apply_result; apply does_ret, _). }
  destruct event as [token|g|id token session baseline|id token snapshot kd bytes| | |id snapshot|identity| |[id|] reason|[id|] reason| |];
    try (apply does_ret, _); try apply Hskip.
  - destruct (rc_role c) as [co|local server st [prepared|]|] eqn:Hr; try (apply does_ret, _).
    + apply (does_fenced _ _ (Some baseline)); [by right|].
      eapply (does_bind _ anywhere); [apply _|by apply does_target_prepared|done|]. intros ?. apply does_ret, _.
    + destruct (_ && _); [|apply does_ret, _]. apply does_modify_then; [apply _|by eapply inert_peer|].
      apply does_fenced_plain, does_prepare_result.
  - destruct (rc_role c) as [co| |] eqn:Hr; [|apply does_fenced_plain; does_plain..].
    apply (does_fenced _ _ None); [by left|].
    eapply (does_bind _ anywhere); [apply _|by apply does_source_captured|done|]. intros ?. apply does_ret, _.
  - destruct (rc_role c) as [co| |] eqn:Hr; [|apply does_ret, _..]. eapply does_set_quiet; [done|apply quiet_staged].
  - destruct (rc_role c) as [co| |] eqn:Hr.
    + eapply does_set_quiet; [done|apply quiet_applied].
    + apply does_fenced_plain. does_plain. apply does_apply_result.
    + apply does_fenced_plain. does_plain. apply does_apply_result.
Qed.

Lemma does_actor_payload c ap :
  core_inv c -> does (eq c) (inert off) (fenced c (RiPayload (Some ap))) (handle_actor_payload (W:=W) ap).
Proof.
  intros Hinv. unfold handle_actor_payload. apply does_get. intros ? <-. cbv zeta.
  destruct (active_envelope (ap_handoff_id ap) c) as [handoff|] eqn:He.
  - case_bool_decide as Ht; cbn [andb]; [|apply does_ret, _]. case_bool_decide as Hs; cbn [andb]; [|apply does_ret, _].
    case_bool_decide; [|apply does_ret, _].
    assert (exists co h, rc_role c = RAuthority co /\ co_active co = Some h /\ envelope_of h = handoff /\ ah_id h = ap_handoff_id ap)
      as (co & h & Hr & Ha & Henv & Hid).
    { revert He. unfold active_envelope, core_coordinator. destruct (rc_role c) as [co| |]; cbn; [|done..].
      destruct (co_active co) as [h|] eqn:Ha; [|done]. case_bool_decide; [|done]. intros [= E]. by exists co, h. }
    apply does_calm. eapply does_weaken; [apply (does_publish_payload_at c)|done|].
    intros o [Ho|Ho]; [by left|right; left]. exists (mkPayload handoff (ap_snapshot_id ap) (ap_data ap)). split.
    + right. right. exists ap. cbn. subst handoff. by split_and!.
    + unfold core_inv in Hinv. rewrite Hr in Hinv.
      eapply (published_passed _ c co co c); [done|done|apply lives_refl| |done|done|done| |exact Ho].
      * intros h' p Hh' Hp. right. by exists h'.
      * intros h' Hh' _. cbn. rewrite Ha in Hh'. by injection Hh' as <-.
  - destruct (peer_handoff (ap_handoff_id ap) c) as [handoff|] eqn:Hp; [|apply does_ret, _].
    case_bool_decide as Ht; cbn [andb]; [|apply does_ret, _]. case_bool_decide as Hs; cbn [andb]; [|apply does_ret, _].
    case_bool_decide; [|apply does_ret, _]. unfold send_to_server_payload, send_to_server. apply does_get. intros ? <-.
    destruct (rc_role c) as [|local server st pr|] eqn:Hr; [apply does_ret, _| |apply does_ret, _].
    destruct (rc_network_peers c !! server) as [[peer outbound]|] eqn:Hn; [|apply does_ret, _].
    eapply (does_bind _ anywhere); [apply _| |done|].
    + apply does_calm, does_payload. intros b. right. right. exists local, server, st, pr. split; [done|]. right.
      by exists ap, handoff, peer, outbound, b.
    + intros r. apply does_fenced_plain. does_plain.
Qed.
End runtime.
