(* ===== verification/ClipRuntimeHooks.v ===== *)
(** * The clipboard runtime and the service

    The hooks of the service, the loop, and the theorems on runs. *)

From stdpp Require Import base tactics list gmap sets strings.
From Stdlib Require Import NArith Lia Strings.Byte.
From S2P Require Import Prelude Channels Bytes Domain SwitchGate Clients ClipTypes ClipFrame ClipTransport ClipManager ClipCoordinator ClipCoordinatorTheorems ClipActor ClipRuntime ClipRuntimeLogic ClipRuntimeInv ClipRuntimeTheorems.

(** ** The specification

    What the service asks for: a transition to another host is announced, and
    activated or cancelled under its identity. *)
Definition own_step (hook : RuntimeHook) (o : Ownership) : Ownership :=
  match hook with
  | RhBegin transition target =>
      if bool_decide (target = ow_owner o) || (u64_max <=? ow_announced o)%N then o
      else mkOwnership (ow_owner o) (Some (transition, target)) (ow_announced o + 1)
  | RhActivate transition =>
      match ow_pending o with
      | Some (t, target) => if bool_decide (t = transition) then mkOwnership target None (ow_announced o) else o
      | None => o
      end
  | RhCancel transition _ =>
      match ow_pending o with
      | Some (t, _) => if bool_decide (t = transition) then mkOwnership (ow_owner o) None (ow_announced o) else o
      | None => o
      end
  | RhCancelCurrent _ | RhShutdown => mkOwnership (ow_owner o) None (ow_announced o)
  | RhCaptureProvisional => o
  end.

Section hooks.
Context {W : Type} {HW : ClipboardWorld W}.
Variable peer_iter : gmap string (NegotiatedPeer * nat) -> list (string * (NegotiatedPeer * nat)).

(** From [c] to a core of the same host, with the invariant and the ownership
    [x]. *)
Definition arrives (c : RuntimeCore) (x : option Ownership) (_ c' : RuntimeCore) : Prop :=
  frame c c' /\ kept (fun _ => False) c c' /\ core_inv c' /\ ownership c' = x.

Lemma does_arrive c x c1 F {A} (m : clip (W:=W) A) :
  frame c c1 -> rc_pending_payload c1 = rc_pending_payload c -> core_inv c1 -> ownership c1 = x ->
  does (eq c1) calm F m -> does (eq c1) (arrives c x) F m.
Proof.
  intros Hf Hk Hi Hx Hm s Hs. destruct (Hm s Hs) as [Hc He]. split; [|done]. rewrite <- Hs in Hc.
  destruct (calm_inert (fun _ => False) _ _ Hc) as (Hf' & Hk' & Hinv). destruct (Hinv Hi) as [Hi' Ho].
  split_and!; [by etrans| |done|congruence]. unfold kept in *. by rewrite <- Hk.
Qed.

Lemma does_modify_arrive c x c1 f F {A} (k : unit -> clip (W:=W) A) :
  does (eq (f c1)) (arrives c x) F (k tt) -> does (eq c1) (arrives c x) F (modify_core f ≫= k).
Proof.
  intros Hk s Hs. unfold mbind, clip_bind, modify_core.
  destruct (Hk (s <| rs_core ::= f |>)) as (Hr & new & Hl & Hn); [cbn; by rewrite <- Hs|]. cbn in *. split; [exact Hr|by exists new].
Qed.

Lemma does_stay c F {A} (a : A) : core_inv c -> does (W:=W) (eq c) (arrives c (ownership c)) F (mret a).
Proof. intros Hi. apply does_arrive; [done..|]. apply does_ret, _. Qed.

(** Replacing the coordinator by itself. *)
Lemma core_same c co : rc_role c = RAuthority co -> c <| rc_role := RAuthority co |> = c.
Proof. intros H. destruct c. cbn in *. by subst. Qed.

Lemma begin_inv c co transition target b co' :
  core_inv c -> rc_role c = RAuthority co -> begin_handoff target co = (inl b, co') ->
  let session := match co_active co' with Some h => ah_target_process_session_id h | None => 0%N end in
  let c1 := c <| rc_role := RAuthority co' |>
              <| rc_pending := Some (mkPendingTransition transition (bh_handoff_id b) (bh_target_token b) session false) |> in
  core_inv c1 /\ Some (own_step (RhBegin transition target)
      (mkOwnership (tk_owner_host_id (co_current_token co)) (pending_view (rc_pending c)) (co_next_handoff_epoch co))) = ownership c1
  /\ (forall p o, rc_pending_payload c1 = Some p -> ~ published c1 p o).
Proof.
  intros Hinv Hr Hb session c1. unfold core_inv in *. rewrite Hr in Hinv. destruct Hinv as [Hok Hep Hpe Hma Hpl].
  pose proof (begin_ok _ _ _ _ Hok Hb) as [Hok' _].
  apply begin_handoff_cases in Hb as [(e & ? & _)|(b' & [= <-] & Hh & Ho & Hne & _ & Ea & Eh & Eo & Et & Hid & _ & Htk & Hp & Hact)]; [done|].
  assert (forall h, co_active co' = Some h -> ah_id h = current_id co' /\ ah_target_token h = bh_target_token b) as Hnew.
  { intros h Hact'. destruct Hact as [E|(ss & ts & E)]; rewrite E in Hact'; [done|]. injection Hact' as <-. cbn. by rewrite Hid. }
  assert (forall p, rc_pending_payload c = Some p -> he_handoff_id (cp_handoff p) <> current_id co') as Hold.
  { intros p [Hle _]%Hpl E. rewrite E in Hle. cbn in Hle. lia. }
  split_and!.
  - cbn. split; [done|congruence|done| |].
    + intros p h [= <-] _ Hact'. cbn. destruct (Hnew h Hact') as [_ ->]. unfold session. by rewrite Hact'.
    + intros p Hpp. split; [destruct (Hpl p Hpp); lia|]. intros h Hact' E. destruct (Hnew h Hact') as [E' _].
      exfalso. apply (Hold p Hpp). congruence.
  - unfold ownership, own_step. cbn. rewrite bool_decide_false by done. cbn [orb].
    replace (u64_max <=? co_next_handoff_epoch co)%N with false by (symmetry; apply N.leb_gt; lia).
    by rewrite Et, Eh, Htk.
  - intros p o Hpp (co1 & h & [= <-] & Hact' & E & _). destruct (Hnew h Hact') as [E' _]. apply (Hold p Hpp). congruence.
Qed.

Lemma does_begin c co i transition target :
  core_inv c -> rc_role c = RAuthority co ->
  does (eq c) (arrives c (own_step (RhBegin transition target) <$> ownership c)) (fenced c i) (runtime_begin (W:=W) peer_iter transition target).
Proof.
  intros Hinv Hr. unfold runtime_begin.
  apply does_get. intros ? <-. rewrite Hr. destruct (begin_handoff target co) as [[b|e] co'] eqn:Hb.
  - pose proof (begin_inv c co transition target b co' Hinv Hr Hb) as (Hi1 & Ho1 & Hp1).
    do 2 apply does_modify_arrive. apply does_arrive.
    + split; cbn; try done. by rewrite Hr.
    + done.
    + exact Hi1.
    + rewrite <- Ho1. unfold ownership. rewrite Hr. done.
    + eapply does_weaken; [apply (does_dispatch peer_iter)|by intros ? <-|].
      intros o [Ho|(p & Hp & Ho)]; [by left|]. by destruct (Hp1 p o Hp Ho).
  - assert (co' = co) as ->.
    { by apply begin_handoff_cases in Hb as [(? & _ & ->)|(? & ? & _)]. }
    apply does_modify_arrive. cbv beta. rewrite core_same by done.
    assert (own_step (RhBegin transition target) <$> ownership c = ownership c) as ->; [|by apply does_stay].
    unfold ownership. rewrite Hr. cbn. f_equal. revert Hb. unfold begin_handoff. case_bool_decide; [done|].
    unfold core_inv in Hinv. rewrite Hr in Hinv. rewrite (ai_epochs _ _ _ Hinv).
    destruct (checked_add (co_next_handoff_epoch co) 1) as [x|] eqn:Hx.
    + destruct (cancel Canceled co). repeat case_match; done.
    + intros _. cbn [orb]. unfold checked_add in Hx. destruct (N.leb_spec (co_next_handoff_epoch co + 1) u64_max); [done|].
      by replace (u64_max <=? co_next_handoff_epoch co)%N with true by (symmetry; apply N.leb_le; lia).
Qed.

Lemma entry_passed_none c i p o : passed None c p o -> passed (reported_by i) c p o.
Proof.
  intros (co & h & Hr & Ha & He & H). exists co, h. split_and!; try done.
  destruct H as [(baseline & b & Hl & [Hb|Hb] & ->)|H]; [done| |by right]. left. exists baseline, b. auto.
Qed.

(** An announced transition is always activated. *)
Lemma activated_exact co p payload :
  AuthInv co (Some p) payload -> pt_activated p = false ->
  exists commands co', ownership_activated (pt_handoff_id p) (pt_target_token p) (pt_target_process_session_id p) co = (inl commands, co')
    /\ co_current_token co' = pt_target_token p /\ co_pending_ownership co' = None
    /\ co_next_handoff_epoch co' = co_next_handoff_epoch co /\ co_next_ownership_epoch co' = co_next_ownership_epoch co
    /\ lives co co' /\ prepared_with co co' None /\ CoordOk co'.
Proof.
  intros [Hok He Hp Hm _] Hact. cbn in Hp. rewrite Hact in Hp.
  pose proof (fun r co' => apply_ok (OpActivated (pt_handoff_id p) (pt_target_token p) (pt_target_process_session_id p)) co r co') as Hok'.
  cbn [clip_apply] in Hok'. unfold ownership_activated in *. rewrite Hp in *. cbn [po_handoff_id po_target_token] in *.
  rewrite !bool_decide_true in * by done. cbn [negb co_active set Coordinator_eta] in *.
  destruct (co_active co) as [h|] eqn:Ha.
  - destruct (Hm p h eq_refl Hact eq_refl) as [Ht Hs]. unfold match_active in *.
    cbn [co_active set Coordinator_eta] in *. rewrite Ha in Hok' |- *.
    assert (ah_id h = pt_handoff_id p) as Hid.
    { destruct (ck_active _ Hok h Ha) as [-> _]. by destruct (ck_pending _ Hok _ Hp) as [<- _]. }
    rewrite (bool_decide_true _ Hid) in Hok' |- *. cbn [negb] in *.
    rewrite (bool_decide_true _ Ht), (bool_decide_true _ Hs) in Hok' |- *. cbn [negb] in *.
    destruct (publish_if_ready _) as [published h2] eqn:Hpub. destruct (publish_envelope _ _ _ Hpub) as (E1 & E2 & E3).
    eexists _, _. split; [reflexivity|]. cbn. split_and!; try done.
    + intros h' [= <-]. exists h. by rewrite E1, E2.
    + intros h' q [= <-]. rewrite E3. cbn. intros Hq. right. by exists h.
    + by eapply Hok'.
  - eexists _, _. split; [reflexivity|]. cbn. split_and!; try done.
    + intros h. cbn. by rewrite Ha.
    + intros h q. cbn. by rewrite Ha.
    + by eapply Hok'.
Qed.

Lemma does_activate c co i transition :
  core_inv c -> rc_role c = RAuthority co ->
  does (eq c) (arrives c (own_step (RhActivate transition) <$> ownership c)) (fenced c i) (runtime_activate (W:=W) peer_iter transition).
Proof.
  intros Hinv Hr. unfold runtime_activate. apply does_get. intros ? <-.
  assert (own_step (RhActivate transition) <$> ownership c
    = match rc_pending c with
      | Some p => if bool_decide (pt_id p = transition) && negb (pt_activated p)
                  then Some (mkOwnership (tk_owner_host_id (pt_target_token p)) None (co_next_handoff_epoch co)) else ownership c
      | None => ownership c
      end) as ->.
  { unfold ownership. rewrite Hr. cbn. destruct (rc_pending c) as [p|]; cbn; [|done].
    destruct (pt_activated p); cbn; [by rewrite andb_false_r|]. rewrite andb_true_r. by case_bool_decide. }
  destruct (rc_pending c) as [p|] eqn:Hp; [|by apply does_stay].
  case_bool_decide as Ht; cbn [negb andb]; [|by apply does_stay]. rewrite Hr.
  unfold core_inv in Hinv. rewrite Hr in Hinv. destruct (pt_activated p) eqn:Hact; cbn [negb].
  - assert (ownership_activated (pt_handoff_id p) (pt_target_token p) (pt_target_process_session_id p) co = (inr CeStaleHandoff, co)) as ->.
    { unfold ownership_activated. destruct Hinv as [_ _ E _ _]. rewrite Hp in E. cbn in E. rewrite Hact in E. by rewrite E. }
    apply does_modify_arrive. cbv beta. rewrite core_same by done. apply does_stay. unfold core_inv. by rewrite Hr.
  - pose proof Hinv as Hinv0. rewrite Hp in Hinv.
    destruct (activated_exact _ _ _ Hinv Hact) as (commands & co' & -> & Et & Ep & Eh & Eo & Hl & Hpr & Hok').
    do 2 apply does_modify_arrive. cbv beta.
    set (c1 := set rc_pending _ _). apply does_arrive.
    + unfold c1. split; cbn; try done. by rewrite Hr.
    + done.
    + unfold core_inv, c1. cbn. destruct Hinv as [Hok He _ Hm Hpl]. split; [done|congruence| | |].
      * rewrite Ep. by destruct (co_active co').
      * intros q h Hq Hqa. destruct (co_active co'); [|done]. injection Hq as <-. done.
      * intros q Hq. destruct (Hpl q Hq) as [Hle Hen]. rewrite Eh. split; [done|].
        intros h' Hh' Hid. apply Hl in Hh' as (h & Hh & E & _). rewrite E. apply Hen; [done|]. rewrite <- Hid. by injection E.
    + unfold ownership, c1. cbn. rewrite Et, Eh. by destruct (co_active co').
    + apply (does_bind _ anywhere); [apply _| |done|].
      * eapply does_weaken; [apply (does_dispatch peer_iter c1)|by intros ? <-|].
        intros o [Ho|(q & Hq & Ho)]; [by left|right; left]. exists q. split; [by left|].
        eapply (entry_passed_none c i), (published_passed None c co co' c1); try done.
        intros h Hh Hid. by eapply (ai_payload _ _ _ Hinv0).
      * intros []. apply does_plain; [by left|apply does_publish_state_all].
Qed.

Lemma abort_exact co p payload :
  AuthInv co (Some p) payload ->
  exists r co', abort (pt_handoff_id p) co = (r, co') /\ AuthInv co' None payload
    /\ co_current_token co' = co_current_token co /\ co_next_handoff_epoch co' = co_next_handoff_epoch co
    /\ (forall h, co_active co' = Some h -> co_active co = Some h).
Proof.
  intros [Hok He Hp Hm Hpl]. destruct (abort (pt_handoff_id p) co) as [r co'] eqn:E. exists r, co'. split; [done|].
  assert (CoordOk co') as Hok'.
  { eapply (apply_ok (OpAbort (pt_handoff_id p))); [|exact Hok]. cbn [clip_apply]. by rewrite E. }
  revert E. unfold abort. cbn in Hp. destruct (pt_activated p) eqn:Hact; rewrite Hp.
  - intros [= <- <-]. by split_and!.
  - cbn [po_handoff_id]. rewrite bool_decide_true by done. cbn [negb].
    destruct (cancel Canceled _) as [commands co1] eqn:Hc. intros [= <- <-].
    assert (co_next_handoff_epoch co1 = co_next_handoff_epoch co /\ co_next_ownership_epoch co1 = co_next_ownership_epoch co
      /\ co_current_token co1 = co_current_token co /\ co_pending_ownership co1 = None /\ co_active co1 = None) as (E1 & E2 & E3 & E4 & E5).
    { apply cancel_cases in Hc as [(-> & -> & Hn)|(h & _ & -> & ->)]; by cbn in *. }
    split_and!; try done; [|by rewrite E5]. split; [done|congruence|done|done|].
    intros q Hq. destruct (Hpl q Hq) as [Hle _]. rewrite E1. split; [done|]. by rewrite E5.
Qed.

Lemma does_cancel_current c co i :
  core_inv c -> rc_role c = RAuthority co ->
  does (eq c) (arrives c (Some (mkOwnership (tk_owner_host_id (co_current_token co)) None (co_next_handoff_epoch co)))) (fenced c i)
    (runtime_cancel_current (W:=W) peer_iter).
Proof.
  intros Hinv Hr. unfold runtime_cancel_current. apply does_get. intros ? <-.
  destruct (rc_pending c) as [p|] eqn:Hp.
  - unfold core_inv in Hinv. rewrite Hr in Hinv. pose proof Hinv as Hinv0. rewrite Hp in Hinv. rewrite Hr.
    destruct (abort_exact _ _ _ Hinv) as (r & co' & -> & Hinv' & Et & Eh & Hl).
    do 2 apply does_modify_arrive. cbv beta. set (c1 := set rc_role _ _). apply does_arrive.
    + unfold c1. split; cbn; try done. by rewrite Hr.
    + done.
    + done.
    + unfold ownership, c1. cbn. by rewrite Et, Eh.
    + destruct r as [commands|]; [|apply does_ret, _].
      eapply does_weaken; [apply (does_dispatch peer_iter c1)|by intros ? <-|].
      intros o [Ho|(q & Hq & Ho)]; [by left|right; left]. exists q. split; [by left|].
      eapply (entry_passed_none c i), (published_passed None c co co' c1); try done.
      * intros h' Hh'. exists h'. split; [by apply Hl|done].
      * intros h' q' Hh' Hq'. right. exists h'. split; [by apply Hl|done].
      * intros h Hh Hid. by eapply (ai_payload _ _ _ Hinv0).
  - replace (Some _) with (ownership c); [by apply does_stay|]. unfold ownership. by rewrite Hr, Hp.
Qed.

(** Every hook on the server has the effect of the specification. *)
Lemma does_handle c co hook :
  core_inv c -> rc_role c = RAuthority co ->
  does (eq c) (arrives c (own_step hook <$> ownership c)) (fenced c (RiHook (Some hook))) (runtime_handle (W:=W) peer_iter hook).
Proof.
  intros Hinv Hr.
  assert (ownership c = Some (mkOwnership (tk_owner_host_id (co_current_token co)) (pending_view (rc_pending c)) (co_next_handoff_epoch co))) as Ho
    by (unfold ownership; by rewrite Hr).
  destruct hook as [transition target| |transition|transition reason|reason|]; cbn [runtime_handle].
  - by eapply does_begin.
  - unfold own_step. rewrite option_fmap_id. apply does_get. intros ? <-. rewrite Hr. by apply does_stay.
  - by eapply does_activate.
  - unfold runtime_cancel. apply does_get. intros ? <-. destruct (rc_pending c) as [p|] eqn:Hp; cbn in Ho.
    + case_bool_decide as Ht; cbn [negb].
      * assert (own_step (RhCancel transition reason) <$> ownership c
          = Some (mkOwnership (tk_owner_host_id (co_current_token co)) None (co_next_handoff_epoch co))) as ->.
        { rewrite Ho. destruct (pt_activated p); cbn; [done|]. by rewrite bool_decide_true. }
        by apply does_cancel_current.
      * assert (own_step (RhCancel transition reason) <$> ownership c = ownership c) as ->; [|by apply does_stay].
        rewrite Ho. destruct (pt_activated p); cbn; [done|]. by rewrite bool_decide_false.
    + assert (own_step (RhCancel transition reason) <$> ownership c = ownership c) as ->; [|by apply does_stay]. by rewrite Ho.
  - rewrite Ho. by apply does_cancel_current.
  - rewrite Ho. by apply does_cancel_current.
Qed.

(** On another host a hook changes nothing, but may ask for a provisional
    capture. *)
Lemma does_handle_other off c hook :
  core_inv c -> ownership c = None -> does (eq c) (inert off) (fenced c (RiHook (Some hook))) (runtime_handle (W:=W) peer_iter hook).
Proof.
  intros Hinv Hno. unfold core_inv, ownership in *.
  assert (forall co, rc_role c <> RAuthority co) as Hna by (intros co E; by rewrite E in Hno).
  assert (rc_pending c = None) as Hp by (destruct (rc_role c); [done|by destruct Hinv..]).
  destruct hook as [transition target| |transition|transition reason|reason|]; cbn [runtime_handle].
  - apply does_get. intros ? <-. destruct (rc_role c); [done|apply does_ret, _..].
  - apply does_fenced_plain. does_plain.
  - apply does_get. intros ? <-. rewrite Hp. apply does_ret, _.
  - apply does_get. intros ? <-. rewrite Hp. apply does_ret, _.
  - apply does_get. intros ? <-. rewrite Hp. apply does_ret, _.
  - apply does_get. intros ? <-. rewrite Hp. apply does_ret, _.
Qed.
End hooks.
