(* ===== verification/ClipRuntimeRun.v ===== *)
(** * Runs of the clipboard runtime

    The loop of the task: what a turn does to the ownership, to snapshots and
    to the native clipboard, and the theorems on runs. *)

From stdpp Require Import base tactics list gmap sets strings.
From Stdlib Require Import NArith Lia Strings.Byte.
From S2P Require Import Prelude Channels Bytes Domain SwitchGate Clients ClipTypes ClipFrame ClipTransport ClipManager ClipCoordinator ClipCoordinatorTheorems ClipActor ClipRuntime ClipRuntimeLogic ClipRuntimeInv ClipRuntimeTheorems ClipRuntimeHooks.

(** The snapshots that an input brings to the host with session [session]:
    offered by the host that owns the source, or published by the local actor
    for the source of the handoff. *)
Definition brings (session : ProcessSessionId) (i : RunInput) (p : ClipboardPayload) : Prop :=
  (exists s c, i = RiTransport (Some (TvMessage (tk_owner_host_id (he_source_token (cp_handoff p))) s c (WSnapshotOffer p))))
  \/ (exists ap, i = RiPayload (Some ap) /\ cp_snapshot_id p = ap_snapshot_id ap /\ cp_data p = ap_data ap
       /\ he_handoff_id (cp_handoff p) = ap_handoff_id ap /\ he_source_token (cp_handoff p) = ap_source_token ap
       /\ he_source_process_session_id (cp_handoff p) = session).

(** The effect of an input on the ownership: only hooks have one. *)
Definition own_after (i : RunInput) : Ownership -> Ownership :=
  match i with RiHook (Some hook) => own_step hook | _ => id end.

(** Who the host is. *)
Record same_host (c c' : RuntimeCore) : Prop := {
  sa_local : rc_local_host c' = rc_local_host c;
  sa_session : rc_process_session_id c' = rc_process_session_id c;
  sa_enabled : rc_actor_enabled c' = rc_actor_enabled c;
  sa_kind : kind (rc_role c') = kind (rc_role c) }.
Lemma frame_same c c' : frame c c' -> same_host c c'.
Proof. by intros []. Qed.
#[export] Instance same_host_preorder : PreOrder same_host.
Proof. split; [by intros c|]. intros c1 c2 c3 [] []. split; congruence. Qed.

Section run.
Context {W : Type} {HW : ClipboardWorld W}.
Variable peer_iter : gmap string (NegotiatedPeer * nat) -> list (string * (NegotiatedPeer * nat)).

Abbreviation core s := (rs_core (rn_runtime (W:=W) s)).
Abbreviation log s := (rs_log (rn_runtime (W:=W) s)).

Record TurnOk (i : RunInput) (s s' : RunState (W:=W)) : Prop := {
  to_host : same_host (core s) (core s');
  to_payload : kept (brings (rc_process_session_id (core s)) i) (core s) (core s');
  to_inv : core_inv (core s');
  to_ownership : ownership (core s') = own_after i <$> ownership (core s);
  to_log : exists new, log s' = log s ++ new /\ Forall (fenced (core s) i) new }.

(** A turn that runs one method that leaves the ownership. *)
Lemma turn_method i (m : clip unit) s :
  core_inv (core s) -> own_after i = id ->
  does (eq (core s)) (inert (brings (rc_process_session_id (core s)) i)) (fenced (core s) i) m -> TurnOk i s (on_runtime m s).
Proof.
  intros Hinv Hown Hm. destruct (Hm (rn_runtime s) eq_refl) as ((Hf & Hk & Hi) & Hlog). destruct (Hi Hinv) as [Hinv' Ho].
  split; [by apply frame_same|done|done| |done]. rewrite Hown, option_fmap_id. exact Ho.
Qed.

Lemma turn_hook hook s : core_inv (core s) -> TurnOk (RiHook (Some hook)) s (on_runtime (runtime_handle peer_iter hook) s).
Proof.
  intros Hinv. destruct (rc_role (core s)) as [co| |] eqn:Hr.
  - destruct (does_handle peer_iter (core s) co hook Hinv Hr (rn_runtime s) eq_refl) as ((Hf & Hk & Hi & Ho) & Hlog).
    split; [by apply frame_same| |done|done|done]. destruct Hk as [?|[?|(p & _ & [])]]; unfold kept; auto.
  - assert (ownership (core s) = None) as Hno by (unfold ownership; by rewrite Hr).
    destruct (does_handle_other peer_iter (fun _ => False) (core s) hook Hinv Hno (rn_runtime s) eq_refl) as ((Hf & Hk & Hi) & Hlog).
    destruct (Hi Hinv) as [Hi' Ho]. split; [by apply frame_same| |done| |done].
    + destruct Hk as [?|[?|(p & _ & [])]]; unfold kept; auto.
    + rewrite Hno in *. exact Ho.
  - assert (ownership (core s) = None) as Hno by (unfold ownership; by rewrite Hr).
    destruct (does_handle_other peer_iter (fun _ => False) (core s) hook Hinv Hno (rn_runtime s) eq_refl) as ((Hf & Hk & Hi) & Hlog).
    destruct (Hi Hinv) as [Hi' Ho]. split; [by apply frame_same| |done| |done].
    + destruct Hk as [?|[?|(p & _ & [])]]; unfold kept; auto.
    + rewrite Hno in *. exact Ho.
Qed.

(** A turn that changes only the presence of the actor and adds plain entries. *)
Lemma turn_plain i s s' new :
  core_inv (core s') -> own_after i = id -> same_host (core s) (core s') -> ownership (core s') = ownership (core s) ->
  rc_pending_payload (core s') = rc_pending_payload (core s) \/ rc_pending_payload (core s') = None ->
  log s' = log s ++ new -> Forall plain new -> TurnOk i s s'.
Proof.
  intros Hi Ho Hh Hown Hp Hl Hn. split; [done|unfold kept; tauto|done|by rewrite Ho, option_fmap_id|].
  exists new. split; [done|]. eapply Forall_impl; [exact Hn|]. by left.
Qed.

Lemma restart_core ready s : core (restart_transport (W:=W) ready s) = core s
  /\ (exists new, log (restart_transport ready s) = log s ++ new /\ Forall plain new)
  /\ rn_actor (restart_transport ready s) = rn_actor s /\ rn_actor_init (restart_transport ready s) = rn_actor_init s
  /\ rn_actor_retry (restart_transport ready s) = rn_actor_retry s.
Proof.
  unfold restart_transport. destruct (rn_transport_config s) as [config|].
  - destruct (rn_transport s); cbn; split_and!; try done.
    + exists [CoTransportShutdown; CoTransportStart (config <| tc_capabilities := text_v1_capability ready |>)].
      rewrite <- app_assoc. split; [done|by repeat constructor].
    + exists [CoTransportStart (config <| tc_capabilities := text_v1_capability ready |>)]. split; [done|by repeat constructor].
  - split_and!; try done. exists []. by rewrite app_nil_r.
Qed.

Lemma record_core reason s : core (record_backend_unavailable (W:=W) reason s) = core s
  /\ (exists new, log (record_backend_unavailable reason s) = log s ++ new /\ Forall plain new)
  /\ rn_actor (record_backend_unavailable reason s) = rn_actor s
  /\ rn_actor_init (record_backend_unavailable reason s) = rn_actor_init s
  /\ rn_actor_retry (record_backend_unavailable reason s) = rn_actor_retry s
  /\ rn_transport_config (record_backend_unavailable reason s) = rn_transport_config s
  /\ rn_transport (record_backend_unavailable reason s) = rn_transport s.
Proof.
  unfold record_backend_unavailable. case_bool_decide; [split_and!; try done; exists []; by rewrite app_nil_r|].
  case_bool_decide; cbn; split_and!; try done; [|exists []; by rewrite app_nil_r].
  exists [CoPermissionDenied]. split; [done|by repeat constructor].
Qed.

Lemma uninstall_inv (r : RuntimeState (W:=W)) :
  core_inv (rs_core r) ->
  let c' := rs_core (snd (uninstall_actor r)) in
  core_inv c' /\ same_host (rs_core r) c' /\ ownership c' = ownership (rs_core r) /\ rc_actor c' = false
  /\ rc_pending_payload c' = None /\ rs_log (snd (uninstall_actor r)) = rs_log r.
Proof.
  intros Hinv c'. unfold c', uninstall_actor, modify_core, core_inv, ownership in *. cbn.
  destruct (rc_role (rs_core r)) as [co|l sv st p|] eqn:Hr; cbn.
  - destruct (co_active co) as [h|]; cbn; rewrite ?Hr.
    + pose proof (quiet_skip (ah_id h) BackendUnavailable co) as Hq. split_and!; try done.
      * eapply auth_quiet; [exact Hinv|done|by right].
      * split; cbn; try done. by rewrite Hr.
      * by destruct Hq as [_ -> _ -> _ _].
    + split_and!; try done. eapply auth_quiet; [exact Hinv|apply quiet_co_refl|by right].
  - destruct Hinv. split_and!; try done. split; cbn; try done. by rewrite Hr.
  - rewrite Hr. by destruct Hinv.
Qed.

Lemma turn_ok i s b s' : core_inv (core s) -> run_turn peer_iter i s = (b, s') -> TurnOk i s s'.
Proof.
  intros Hinv. destruct i as [[hook|]|[event|]|[[]|reason]|[payload|]| |[[command event]|]]; cbn [run_turn]; intros [= <- <-].
  - by apply turn_hook.
  - apply (turn_plain _ _ _ []); first [done|by left|by rewrite app_nil_r].
  - apply turn_method; [done..|]. apply does_transport_event; [done|].
    intros host session connection p -> <-. left. eauto.
  - apply (turn_plain _ _ _ []); first [done|by left|by rewrite app_nil_r].
  - set (s1 := on_runtime _ _). destruct (restart_core true (s1 <| rn_actor := true |>)) as (Ec & (new & El & Hn) & Ea & _).
    rewrite Ea. cbn [rn_actor set RunState_eta]. apply (turn_plain _ _ _ new); rewrite ?Ec;
      first [done|by left|by rewrite El].
  - destruct (record_core reason (s <| rn_actor_init := None |>)) as (Ec & (new & El & Hn) & _).
    apply (turn_plain _ _ _ new); try done; destruct (rn_actor _); cbn; rewrite ?Ec, ?El; first [done|by left].
  - apply turn_method; [done..|]. eapply (does_weaken); [|done|intros o Ho; exact Ho].
    intros r Hr. by apply does_actor_payload.
  - destruct (uninstall_inv (rn_runtime s) Hinv) as (Hi & Hh & Ho & _ & Hp & Hlg).
    set (s1 := on_runtime _ _). destruct (restart_core false s1) as (Ec & (new & El & Hn) & _).
    apply (turn_plain _ _ _ new); cbn; rewrite ?Ec, ?El; first [done|by right|cbn; by rewrite Hlg].
  - apply (turn_plain _ _ _ []); first [done|by left|by rewrite app_nil_r].
  - set (s1 := match event with EvBackendUnavailable _ reason => _ | _ => _ end).
    assert (core s1 = core s /\ exists new, log s1 = log s ++ new /\ Forall plain new) as [Ec (new & El & Hn)].
    { assert (core s = core s /\ exists new, log s = log s ++ new /\ Forall plain new) as H0.
      { split; [done|]. exists []. by rewrite app_nil_r. }
      unfold s1. destruct event as [ | | | | | | | | | |id reason| | ]; try exact H0.
      destruct (record_core reason s) as (E1 & E2 & _). done. }
    destruct (turn_method (RiCompletion (Some (command, event))) (handle_actor_event peer_iter command event) s1) as [H1 H2 H3 H4 (new2 & H5 & H6)].
    + by rewrite Ec.
    + done.
    + apply does_actor_event. by rewrite Ec.
    + rewrite Ec in *. split; [done|done|done|done|]. exists (new ++ new2). rewrite H5, El, app_assoc. split; [done|].
      apply Forall_app. split; [|done]. eapply Forall_impl; [exact Hn|]. by left.
  - apply (turn_plain _ _ _ []); first [done|by left|by rewrite app_nil_r].
Qed.

(** ** The native clipboard *)

(** Whether the host is to have a native clipboard. *)
Definition wanted (c : RuntimeCore) : bool :=
  rc_actor_enabled c && bool_decide (is_Some (rc_local_host c))
  && match rc_role c with RUnavailable => false | _ => true end.

Lemma start_wanted c : bool_decide (is_Some (start_native_actor c)) = wanted c.
Proof.
  unfold start_native_actor, wanted, actor_initial_token.
  destruct (rc_actor_enabled c); cbn [negb andb]; [|done].
  destruct (rc_role c) as [co|l sv [st|] p|], (rc_local_host c); done.
Qed.

Lemma wanted_same c c' : same_host c c' -> wanted c' = wanted c.
Proof.
  intros [H1 _ H2 Hk]. unfold wanted. rewrite H1, H2. f_equal. revert Hk. by destruct (rc_role c), (rc_role c').
Qed.

Definition b2n (b : bool) : nat := if b then 1 else 0.

(** The native clipboard runs, is being connected, or is tried again after the
    delay; the transport advertises it exactly while it runs. *)
Record Supervised (s : RunState (W:=W)) : Prop := {
  su_one : b2n (rn_actor s) + b2n (bool_decide (is_Some (rn_actor_init s))) + b2n (rn_actor_retry s) = b2n (wanted (core s));
  su_handle : rc_actor (core s) = rn_actor s;
  su_advertised : forall config, rn_transport_config s = Some config -> tc_capabilities config = text_v1_capability (rn_actor s);
  su_transport : rn_transport s = None \/ rn_transport s = rn_transport_config s }.

Lemma method_actor off c i (m : clip (W:=W) unit) r :
  does (eq c) (inert off) (fenced c i) m -> rs_core r = c -> rc_actor (rs_core (snd (m r))) = rc_actor (rs_core r).
Proof. intros Hm <-. destruct (Hm r eq_refl) as (([] & _) & _). done. Qed.

Lemma hook_actor hook (r : RuntimeState (W:=W)) :
  core_inv (rs_core r) -> rc_actor (rs_core (snd (runtime_handle peer_iter hook r))) = rc_actor (rs_core r).
Proof.
  intros Hinv. destruct (ownership (rs_core r)) as [o|] eqn:Ho.
  - unfold ownership in Ho. destruct (rc_role (rs_core r)) as [co| |] eqn:Hr; [|done..].
    destruct (does_handle peer_iter _ co hook Hinv Hr r eq_refl) as (([] & _) & _). done.
  - by eapply (method_actor (fun _ => False)); [apply does_handle_other|].
Qed.

(** A turn that leaves the fields of the loop and the handle of the actor. *)
Lemma supervised_method s (m : clip unit) :
  Supervised s -> same_host (core s) (core (on_runtime m s)) -> rc_actor (core (on_runtime m s)) = rc_actor (core s) ->
  Supervised (on_runtime m s).
Proof.
  intros [H1 H2 H3 H4] Hh Ha. split; [|by rewrite Ha|done|done]. rewrite (wanted_same _ _ Hh). exact H1.
Qed.

Lemma restart_supervised ready s :
  b2n (rn_actor s) + b2n (bool_decide (is_Some (rn_actor_init s))) + b2n (rn_actor_retry s) = b2n (wanted (core s)) ->
  rc_actor (core s) = rn_actor s -> rn_actor s = ready -> (rn_transport s = None \/ rn_transport s = rn_transport_config s) ->
  Supervised (restart_transport (W:=W) ready s).
Proof.
  intros H1 H2 H3 H4. destruct (restart_core ready s) as (Ec & _ & Ea & Ei & Er). split; rewrite ?Ec, ?Ea, ?Ei, ?Er; [done|done|..].
  - unfold restart_transport. destruct (rn_transport_config s) as [config|] eqn:E; [|by rewrite E].
    destruct (rn_transport s); cbn; intros config' [= <-]; by rewrite H3.
  - unfold restart_transport. destruct (rn_transport_config s) as [config|] eqn:E; [|by rewrite E].
    right. by destruct (rn_transport s).
Qed.

Lemma turn_supervised i s b s' :
  core_inv (core s) -> Supervised s -> run_enabled i s = true -> run_turn peer_iter i s = (b, s') -> Supervised s'.
Proof.
  intros Hinv Hs Hen Hturn. pose proof (to_host _ _ _ (turn_ok _ _ _ _ Hinv Hturn)) as Hh. revert Hturn Hh.
  pose proof Hs as [H1 H2 H3 H4].
  destruct i as [[hook|]|[event|]|[[]|reason]|[payload|]| |[[command event]|]]; cbn [run_turn run_enabled] in *; intros [= <- <-] Hh; try done.
  - apply supervised_method; [done|done|]. by apply hook_actor.
  - apply supervised_method; [done|done|]. eapply (method_actor (fun _ => True)); [by apply does_transport_event|done].
  - split; cbn; try done. by left.
  - apply bool_decide_eq_true in Hen. rewrite (bool_decide_true _ Hen) in H1. set (s1 := set rn_actor _ _).
    destruct (restart_core true s1) as (Ec & _ & Ea & _). rewrite Ea. cbn [rn_actor s1 set RunState_eta] in *.
    apply restart_supervised; cbn; try done.
    change (wanted _) with (wanted (core s)). destruct (rn_actor s), (rn_actor_retry s), (wanted (core s)); cbn in *; lia.
  - apply bool_decide_eq_true in Hen. rewrite (bool_decide_true _ Hen) in H1.
    destruct (record_core reason (s <| rn_actor_init := None |>)) as (Ec & _ & Ea & Ei & Er & Etc & Et).
    rewrite Ea. cbn [rn_actor set RunState_eta] in *.
    assert (rn_actor s = false) as Hna by (destruct (rn_actor s), (wanted (core s)); cbn in *; lia || done).
    rewrite Hna in *. split; cbn; rewrite ?Ec, ?Ea, ?Ei, ?Er, ?Etc, ?Et; cbn; try done; rewrite ?Hna; try done.
    change (wanted _) with (wanted (core s)). destruct (rn_actor_retry s), (wanted (core s)); cbn in *; lia.
  - apply supervised_method; [done|done|]. eapply (method_actor (fun _ => True)); [by apply does_actor_payload|done].
  - destruct (uninstall_inv (rn_runtime s) Hinv) as (Hi & Hhu & Ho & Ha & _).
    set (s1 := on_runtime uninstall_actor (s <| rn_actor := false |>)).
    assert (Supervised (restart_transport false (s1 <| rn_actor_retry := true |>))) as H.
    { apply restart_supervised; try done.
      change (core _) with (rs_core (snd (uninstall_actor (rn_runtime s)))). rewrite (wanted_same _ _ Hhu). rewrite Hen in H1. cbn in *.
      destruct (rn_actor_retry s), (bool_decide _), (wanted (core s)); cbn in *; lia. }
    replace (set rn_actor_retry _ _) with (restart_transport (W:=W) false (s1 <| rn_actor_retry := true |>)); [done|].
    unfold restart_transport. cbn. destruct (rn_transport_config s), (rn_transport s); done.
  - split; cbn; try done. rewrite start_wanted. rewrite Hen in H1.
    destruct (rn_actor s), (bool_decide _), (wanted (core s)); cbn in *; lia.
  - set (s1 := match event with EvBackendUnavailable _ reason => _ | _ => _ end) in *.
    assert (Supervised s1 /\ core s1 = core s) as [Hs1 Ec].
    { unfold s1. destruct event as [ | | | | | | | | | |id reason| | ]; try done.
      destruct (record_core reason s) as (Ec & _ & Ea & Ei & Er & Etc & Et). split; [|done].
      split; rewrite ?Ec, ?Ea, ?Ei, ?Er, ?Etc, ?Et; done. }
    clearbody s1. apply supervised_method; [done| |].
    + etrans; [|exact Hh]. by rewrite Ec.
    + eapply (method_actor (fun _ => True) (core s1)); [apply does_actor_event; by rewrite Ec|done].
Qed.

(** ** Runs *)

Inductive reached (s0 : RunState (W:=W)) : list RunInput -> RunState -> Prop :=
| reached_start : reached s0 [] s0
| reached_turn inputs s i s' :
    reached s0 inputs s -> run_enabled i s = true -> run_turn peer_iter i s = (true, s') -> reached s0 (inputs ++ [i]) s'.

Section start.
Variables (config : ClipboardConfig) (local_host server_host : option SwitchHost) (port : N) (has_identity : bool)
  (peers : list ClipboardPeerConfig * gmap (list N) string) (process_session_id : ProcessSessionId)
  (authority_session_id : AuthoritySessionId) (w : W).
Let s0 := runtime_start config local_host server_host port has_identity peers process_session_id authority_session_id w.

Lemma start_inv : core_inv (core s0) /\ Supervised s0 /\ rc_process_session_id (core s0) = process_session_id
  /\ rc_pending_payload (core s0) = None.
Proof.
  unfold s0, runtime_start. cbn [rn_runtime rs_core].
  set (c := set rc_actor_completion_tx _ _).
  assert (core_inv c /\ rc_process_session_id c = process_session_id /\ rc_pending_payload c = None /\ rc_actor c = false) as (Hi & Hp & Hpl & Ha).
  { unfold c, core_inv. destruct local_host as [local|], server_host as [server|]; try done. case_bool_decide; [|done].
    split_and!; [|done..]. split; [apply coordinator_new_ok|done..]. }
  clearbody c. split_and!; try done. split; cbn; try done.
  - rewrite start_wanted. by rewrite Nat.add_0_r.
  - intros tc. destruct local_host, server_host, has_identity; try done. by intros [= <-].
  - by right.
Qed.

Lemma reached_inv inputs s :
  reached s0 inputs s -> core_inv (core s) /\ Supervised s /\ rc_process_session_id (core s) = process_session_id
  /\ forall p, rc_pending_payload (core s) = Some p -> exists j, j ∈ inputs /\ brings process_session_id j p.
Proof.
  induction 1 as [|inputs s i s' _ (Hi & Hs & Hp & Hpl) Hen Ht].
  - destruct start_inv as (H1 & H2 & H3 & H4). split_and!; try done. intros p. by rewrite H4.
  - pose proof (turn_ok _ _ _ _ Hi Ht) as [Hh Hk Hi' _ _]. split_and!; [done|exact (turn_supervised _ _ _ _ Hi Hs Hen Ht)|by rewrite (sa_session _ _ Hh)|].
    intros p Hpp. rewrite Hp in Hk. destruct Hk as [E|[E|(q & E & Hq)]]; rewrite E in Hpp.
    + destruct (Hpl p Hpp) as (j & Hj & Hb). exists j. split; [apply elem_of_app; by left|done].
    + done.
    + injection Hpp as <-. exists i. split; [apply elem_of_app; right; by left|done].
Qed.
End start.

(** The hooks that the loop takes: up to the one that ends it. *)
Fixpoint obeyed (inputs : list RunInput) : list RuntimeHook :=
  match inputs with
  | [] => []
  | RiHook None :: _ => []
  | RiHook (Some RhShutdown) :: _ => [RhShutdown]
  | RiHook (Some hook) :: inputs => hook :: obeyed inputs
  | _ :: inputs => obeyed inputs
  end.

Lemma loop_ownership inputs : forall s o,
  core_inv (core s) -> ownership (core s) = Some o ->
  ownership (core (clip_loop peer_iter inputs s)) = Some (foldl (fun o hook => own_step hook o) o (obeyed inputs)).
Proof.
  assert (forall s : RunState (W:=W), core (match rn_transport s with Some _ => on_runtime (write_log CoTransportShutdown) s | None => s end) = core s)
    as Hend by (intros s; by destruct (rn_transport s)).
  induction inputs as [|i inputs IH]; intros s o Hi Ho; cbn [clip_loop]; [done|].
  destruct (run_enabled i s) eqn:Hen.
  - destruct (run_turn peer_iter i s) as [b s'] eqn:Ht. pose proof (turn_ok _ _ _ _ Hi Ht) as [_ _ Hi' Ho' _]. rewrite Ho in Ho'.
    destruct i as [[[]|]|[]|[]|[]| |[[]|]]; cbn [run_turn] in Ht; injection Ht as <- <-; cbn [obeyed foldl own_after] in *;
      rewrite ?Hend; try (by apply IH); done.
  - destruct i as [h|e|r|p| |c]; cbn [run_enabled] in Hen; try done; cbn [obeyed]; by apply IH.
Qed.
End run.

(** C17: On the server, whatever peers, connections and the native clipboard do, the
    owner of the clipboard and the announced transition are those that the
    hooks of the service ask for: announced, then activated or cancelled under
    their identity. *)
Theorem clipboard_follows_service {W} {HW : ClipboardWorld W} peer_iter config server port has_identity peers
    process_session_id authority_session_id (w : W) inputs :
  ownership (rs_core (rn_runtime (clip_loop peer_iter inputs
    (runtime_start config (Some server) (Some server) port has_identity peers process_session_id authority_session_id w))))
  = Some (foldl (fun o hook => own_step hook o) (mkOwnership (host_id server) None 0) (obeyed inputs)).
Proof.
  apply loop_ownership.
  - by destruct (start_inv config (Some server) (Some server) port has_identity peers process_session_id authority_session_id w).
  - unfold runtime_start. cbn. by rewrite bool_decide_true.
Qed.

(** C18: A snapshot leaves the runtime unchanged: on the server only as one that was
    offered by the host that owns the source or published by the local actor,
    and only to the target of the active handoff, on the connection of its
    session or to the local actor against the baseline of its preparation; on a
    peer only from the message that delivers it for the preparation it answers,
    or as the peer's own, to the server.  Nothing else carries a snapshot. *)
Theorem snapshots_fenced {W} {HW : ClipboardWorld W} peer_iter config local_host server_host port has_identity peers
    process_session_id authority_session_id (w : W) inputs s i b s' :
  reached peer_iter (runtime_start config local_host server_host port has_identity peers process_session_id authority_session_id w)
    inputs s ->
  run_enabled i s = true -> run_turn peer_iter i s = (b, s') ->
  let c := rs_core (rn_runtime s) in
  exists new, rs_log (rn_runtime s') = rs_log (rn_runtime s) ++ new
    /\ Forall (fun o => plain o
         \/ (exists p j, j ∈ inputs ++ [i] /\ brings process_session_id j p /\ passed (reported_by i) c p o)
         \/ peer_entry c i o) new.
Proof.
  intros Hr Hen Ht c. apply reached_inv in Hr as (Hi & _ & Hp & Hpl).
  destruct (turn_ok _ _ _ _ _ Hi Ht) as [_ _ _ _ (new & Hl & Hn)]. exists new. split; [done|].
  eapply Forall_impl; [exact Hn|]. intros o [Ho|[(p & Hoff & Ho)|Ho]]; [by left| |by right; right]. right. left.
  assert (exists j, j ∈ inputs ++ [i] /\ brings process_session_id j p) as (j & Hj & Hb); [|by exists p, j].
  destruct Hoff as [Hw|[(session & connection & -> & _)|(ap & -> & H1 & H2 & H3 & H4 & H5)]].
  - destruct (Hpl p Hw) as (j & Hj & Hb). exists j. split; [apply elem_of_app; by left|done].
  - eexists. split; [apply elem_of_app; right; by left|]. left. by eexists _, _.
  - eexists. split; [apply elem_of_app; right; by left|]. right. exists ap. rewrite Hp in H5. done.
Qed.

(** C19: While the clipboard is enabled on a configured host, the native clipboard
    is either running, being connected, or waiting for the next attempt, and
    otherwise none of these; the runtime has its handle exactly while it runs,
    and the transport that runs is the configured one and advertises the
    clipboard exactly then. *)
Theorem clipboard_supervised {W} {HW : ClipboardWorld W} peer_iter config local_host server_host port has_identity peers
    process_session_id authority_session_id (w : W) inputs s :
  reached peer_iter (runtime_start config local_host server_host port has_identity peers process_session_id authority_session_id w)
    inputs s -> Supervised s.
Proof. by intros (_ & H & _)%reached_inv. Qed.

(** ** A run

    A server hands its clipboard over to the host on its left: the actor is
    connected, the peer connects, the transition is announced, target and
    source answer, and the actor publishes the snapshot. *)

(** Queues that accept everything. *)
Definition accepting : ClipboardWorld unit := {|
  cw_actor _ w := (inl tt, w);
  cw_control _ _ w := (inl tt, w);
  cw_payload _ _ w := (inl tt, w);
  cw_cancel_handoff _ _ w := w;
  cw_shutdown _ w := w |}.

Fixpoint run_all {W} {HW : ClipboardWorld W} peer_iter (inputs : list RunInput) (s : RunState) : option RunState :=
  match inputs with
  | [] => Some s
  | i :: inputs =>
      if run_enabled i s then match run_turn peer_iter i s with (true, s) => run_all peer_iter inputs s | _ => None end else None
  end.

Lemma run_all_reached {W} {HW : ClipboardWorld W} peer_iter s0 inputs : forall before s s',
  reached peer_iter s0 before s -> run_all peer_iter inputs s = Some s' -> reached peer_iter s0 (before ++ inputs) s'.
Proof.
  induction inputs as [|i inputs IH]; intros before s s' Hr; cbn.
  - intros [= <-]. by rewrite app_nil_r.
  - destruct (run_enabled i s) eqn:He; [|done]. destruct (run_turn peer_iter i s) as [[] s1] eqn:Ht; [|done].
    intros H. replace (before ++ i :: inputs) with ((before ++ [i]) ++ inputs) by (by rewrite <- app_assoc).
    eapply IH; [|exact H]. by eapply reached_turn.
Qed.

Definition demo_clip_start : RunState (W:=unit) :=
  runtime_start (mkClipboardConfig true 100) (Some Controller) (Some Controller) 4252 true ([], ∅) 3 7 tt.
Definition demo_left : OwnershipToken := mkToken 7 1 "left".
Definition demo_handoff : HandoffId := mkHandoffId 7 1.
Definition demo_clip_inputs : list RunInput :=
  [ RiInitialized (inl tt);
    RiTransport (Some (TvConnected (mkNegotiated 1 "left" 5 (Some 100%N)) 0));
    RiHook (Some (RhBegin (TrOutgoing 1) "left"));
    RiTransport (Some (TvMessage "left" 5 1 (WPrepareResult (mkPrepareResult demo_handoff demo_left 5 (Some 12%N) Completed))));
    RiCompletion (Some (ClipActor.CaptureSource demo_handoff (mkToken 7 0 "controller") 100,
      EvCaptured demo_handoff (mkToken 7 0 "controller") (mkSnapshotId 3 1) KText 2)) ].
Definition demo_snapshot : RunInput :=
  RiPayload (Some (mkActorPayload demo_handoff (mkSnapshotId 3 1) (mkToken 7 0 "controller") (Text ["h"; "i"]%byte))).

Abbreviation demo_clip_run := (run_all (HW:=accepting) map_to_list demo_clip_inputs demo_clip_start) (only parsing).

Lemma clipboard_supervised_witness : exists s, demo_clip_run = Some s /\ rn_actor s = true /\ Supervised s.
Proof.
  assert (match demo_clip_run with Some s => rn_actor s | None => false end = true) as Ha by (vm_compute; reflexivity).
  destruct demo_clip_run as [s|] eqn:E; [|discriminate]. exists s. split; [reflexivity|]. split; [exact Ha|].
  exact (clipboard_supervised (HW:=accepting) map_to_list (mkClipboardConfig true 100) (Some Controller) (Some Controller) 4252 true
    ([], ∅) 3 7 tt ([] ++ demo_clip_inputs) s
    (run_all_reached (HW:=accepting) map_to_list demo_clip_start demo_clip_inputs [] demo_clip_start s (reached_start _ _) E)).
Defined.

Lemma snapshots_fenced_witness : exists s new, demo_clip_run = Some s
  /\ rs_log (rn_runtime (snd (run_turn (HW:=accepting) map_to_list demo_snapshot s))) = rs_log (rn_runtime s) ++ new
  /\ exists o p j, new = [o] /\ j ∈ demo_clip_inputs ++ [demo_snapshot] /\ brings 3 j p /\ passed None (rs_core (rn_runtime s)) p o.
Proof.
  assert (match demo_clip_run with
          | Some s => run_enabled demo_snapshot s
                      && match drop (length (rs_log (rn_runtime s)))
                                 (rs_log (rn_runtime (snd (run_turn (HW:=accepting) map_to_list demo_snapshot s)))) with
                         | [CoPayload 0 (WSnapshotDeliver _) true] => true
                         | _ => false
                         end
          | None => false end = true) as Ha by (vm_compute; reflexivity).
  assert (match demo_clip_run with Some s => match rc_role (rs_core (rn_runtime s)) with RAuthority _ => true | _ => false end | None => false end = true)
    as Hr by (vm_compute; reflexivity).
  destruct demo_clip_run as [s|] eqn:E; [|discriminate]. apply andb_true_iff in Ha as [Hen Ho].
  destruct (snapshots_fenced (HW:=accepting) map_to_list (mkClipboardConfig true 100) (Some Controller) (Some Controller) 4252 true
    ([], ∅) 3 7 tt ([] ++ demo_clip_inputs) s demo_snapshot
    (fst (run_turn (HW:=accepting) map_to_list demo_snapshot s)) (snd (run_turn (HW:=accepting) map_to_list demo_snapshot s))
    (run_all_reached (HW:=accepting) map_to_list demo_clip_start demo_clip_inputs [] demo_clip_start s (reached_start _ _) E) Hen (surjective_pairing _)) as (new & Hl & Hn).
  exists s, new. split; [reflexivity|]. split; [exact Hl|]. rewrite Hl, drop_app_length in Ho.
  destruct new as [|o [|]]; [discriminate| |destruct o as [|? ? []| | | | | |]; try discriminate; repeat case_match; discriminate].
  apply Forall_singleton in Hn as [Hp|[(p & j & Hj & Hb & Hp)|(l & sv & st & pr & Hp & _)]].
  - destruct o; try discriminate; destruct Hp.
  - exists o, p, j. split; [reflexivity|]. split; [exact Hj|]. split; [exact Hb|exact Hp].
  - rewrite Hp in Hr. discriminate.
Defined.
