(* ===== verification/PeerConn.v ===== *)
(** * Connections to the peers (lan-mouse/src/connect.rs)

    The capture task sends to a peer over a DTLS connection.  Attempts to
    connect, the pings and the receive loop of each connection and the calls of
    [send] are tasks on one thread that share the clients, the table of
    connections, the set of handles that are being connected and the set of
    addresses that answered a ping.  A task runs from one await to the next; no
    lock is held over an await, so a task that waits for one can go on.

    A connection is a number that stands for its [Arc]; the outcomes of
    connecting, sending and receiving are inputs.  The receiver of the events
    lives as long as the tasks. *)

From stdpp Require Import base tactics list gmap sets strings.
From Stdlib Require Import NArith ZArith Lia Strings.Byte.
From S2P Require Import Prelude Bytes Domain SwitchGate ProtoWire CaptureTask Clients.

Definition PINGS : nat := 4.

(** What the tasks are waiting for when they connect or send. *)
Inductive ConnectionError :=
| CnTransport
| CnNotConnected
| CnTargetEmulationDisabled
| CnTimeout.
#[global] Instance ConnectionError_eq_dec : EqDecision ConnectionError.
Proof. solve_decision. Defined.

(** The handle, address and connection that a task works for. *)
Record Link := mkLink {
  ln_handle : N;
  ln_addr : SocketAddr;
  ln_conn : N }.
#[global] Instance Link_eq_dec : EqDecision Link.
Proof. solve_decision. Defined.

(** Who calls [fail_connection]: the pings, the receive loop, or a [send] that
    returns the error. *)
Inductive Caller :=
| ByPing
| ByReceive
| BySend (e : ProtoEvent) (error : ConnectionError).

(** A task, by the await it is at. *)
Inductive Task :=
| TkRequest (handle : N)
| TkConnecting (handle : N) (addrs : list SocketAddr)
| TkAbandon (handle : N)
| TkInsert (l : Link)
| TkRelease (l : Link)
| TkHello (l : Link)
| TkPing (l : Link) (k : nat)
| TkSleep (l : Link) (k : nat)
| TkReceive (l : Link) (buf : list byte) (latest : option N)
| TkCheck (l : Link) (buf : list byte) (latest : option N)
| TkFail (l : Link) (caller : Caller)
| TkClose (l : Link) (caller : Caller)
| TkSendLock (handle : N) (addr : SocketAddr) (e : ProtoEvent)
| TkSending (l : Link) (e : ProtoEvent).

Inductive NetOutput :=
| NoEvent (handle : N) (e : ProtoEvent)
| NoDatagram (conn : N) (bytes : list byte)
| NoClose (conn : N)
| NoSent (handle : N) (e : ProtoEvent) (r : unit + ConnectionError).

(** What the tasks share, with the number of the next connection and the
    outputs. *)
Record Net := mkNet {
  nt_clients : Clients;
  nt_conns : gmap SocketAddr N;
  nt_connecting : gset N;
  nt_ping_response : gset SocketAddr;
  nt_next : N;
  nt_out : list NetOutput }.
#[global] Instance Net_eta : RecordEta Net := fun n =>
  mkNet (nt_clients n) (nt_conns n) (nt_connecting n) (nt_ping_response n) (nt_next n) (nt_out n).

Definition net_out (o : NetOutput) (n : Net) : Net := n <| nt_out ::= fun out => out ++ [o] |>.

(** [LanMouseConnection::new] *)
Definition net_new (clients : Clients) : Net := mkNet clients ∅ ∅ ∅ 0 [].

(** The bytes of an event that are sent. *)
Definition datagram (e : ProtoEvent) : list byte :=
  match encode_event e with Ret (buf, len) => take len buf | _ => [] end.

(** [recv] writes a datagram to the front of the buffer. *)
Definition fill (buf bytes : list byte) : list byte := bytes ++ drop (length bytes) buf.

(** [connect_any]: the attempts in the order in which they end. *)
Fixpoint connect_any (results : list (SocketAddr * (unit + ConnectionError))) : SocketAddr + ConnectionError :=
  match results with
  | [] => inr CnNotConnected
  | (addr, inl _) :: _ => inl addr
  | (_, inr _) :: results => connect_any results
  end.

(** Results that the attempts at [addrs] can have: all of them, or some up to
    the first that connected. *)
Definition joined (addrs : list SocketAddr) (results : list (SocketAddr * (unit + ConnectionError))) : bool :=
  forallb (fun r => bool_decide (fst r ∈ addrs)) results
  && match connect_any results with
     | inl _ => true
     | inr _ => length results =? length addrs
     end.

(** [accept_readiness_epoch] *)
Definition accept_readiness_epoch (latest : option N) (keyboard_ready pointer_ready : bool) (candidate : N)
  : bool * option N :=
  if (candidate =? 0)%N then (bool_decide (latest = None) && negb keyboard_ready && negb pointer_ready, latest)
  else match latest with
       | Some current => if (candidate <? current)%N then (false, latest) else (true, Some candidate)
       | None => (true, Some candidate)
       end.

(** [record_pong] *)
Definition record_pong (handle : N) (addr : SocketAddr) (m : Clients) : Clients :=
  set_alive handle true (set_active_addr handle (Some addr) m).

Definition link_current (l : Link) (n : Net) : bool := bool_decide (nt_conns n !! ln_addr l = Some (ln_conn l)).

(** The body of [receive_loop] for a datagram in the buffer. *)
Definition on_datagram (l : Link) (buf : list byte) (latest : option N) (n : Net) : option N * Net :=
  match decode_event buf with
  | Ret (Pong _) =>
      (latest, n <| nt_clients ::= record_pong (ln_handle l) (ln_addr l) |>
                 <| nt_ping_response ::= fun s => {[ln_addr l]} ∪ s |>)
  | Ret (Hello commit) =>
      let '(changed, clients) := set_peer_commit (ln_handle l) (Some commit) (nt_clients n) in
      let n := n <| nt_clients := clients |> in
      (latest, if changed then net_out (NoEvent (ln_handle l) (Hello commit)) n else n)
  | Ret (Readiness keyboard_ready pointer_ready session_epoch as e) =>
      let '(accepted, latest) := accept_readiness_epoch latest keyboard_ready pointer_ready session_epoch in
      if negb accepted then (latest, n)
      else
        let clients := snd (set_peer_readiness (ln_handle l) keyboard_ready pointer_ready session_epoch (nt_clients n)) in
        (latest, net_out (NoEvent (ln_handle l) e) (n <| nt_clients := clients |>))
  | Ret e => (latest, net_out (NoEvent (ln_handle l) e) n)
  | Throw _ | Panic _ => (latest, n)
  end.

(** [disconnect], after its lock *)
Definition disconnect (l : Link) (n : Net) : bool * Net :=
  if negb (link_current l n) then (false, n)
  else
    let clients := set_alive (ln_handle l) false (set_active_addr (ln_handle l) None (nt_clients n)) in
    let clients := snd (set_peer_commit (ln_handle l) None clients) in
    (true, n <| nt_conns ::= delete (ln_addr l) |> <| nt_clients := clear_peer_readiness (ln_handle l) clients |>).

(** [fail_connection], up to its first await *)
Definition fail_connection (l : Link) (caller : Caller) (n : Net) : list Task * Net :=
  ([TkFail l caller], n <| nt_ping_response ::= fun s => s ∖ {[ln_addr l]} |>).

(** [request_connection] *)
Definition request_connection (handle : N) (n : Net) : list Task :=
  if bool_decide (is_Some (active_addr handle (nt_clients n)))
     || negb (match get_state handle (nt_clients n) with Some (_, s) => cs_active s | None => false end)
  then [] else [TkRequest handle].

(** What a task waits for. *)
Inductive Outcome :=
| OcReady
| OcJoined (results : list (SocketAddr * (unit + ConnectionError)))
| OcSent (r : unit + ConnectionError)
| OcReceived (bytes : option (list byte)).

Section tasks.
Variable local_commit : list byte.
Variable ip_iter : gset N -> list N.
Variable slab_iter : Clients -> list (N * (ClientConfig * ClientState)).

(** A task from one await to the next: the tasks that go on in its place, itself
    included.  [None] if it does not wait for this. *)
Definition task_step (t : Task) (o : Outcome) (n : Net) : option (list Task * Net) :=
  match t, o with
  (* request_connection, connect_to_handle *)
  | TkRequest handle, OcReady =>
      if bool_decide (handle ∈ nt_connecting n) then Some ([], n)
      else
        let n := n <| nt_connecting ::= fun s => {[handle]} ∪ s |> in
        match get_ips handle (nt_clients n) with
        | None => Some ([TkAbandon handle], n)
        | Some ips =>
            let port := default DEFAULT_PORT (get_port handle (nt_clients n)) in
            Some ([TkConnecting handle (map (fun ip => mkAddr ip port) (ip_iter ips))], n)
        end
  | TkConnecting handle addrs, OcJoined results =>
      if negb (joined addrs results) then None
      else match connect_any results with
           | inr _ => Some ([TkAbandon handle], n)
           | inl addr =>
               Some ([TkInsert (mkLink handle addr (nt_next n))],
                     n <| nt_clients ::= set_active_addr handle (Some addr) |> <| nt_next ::= N.succ |>)
           end
  | TkAbandon handle, OcReady => Some ([], n <| nt_connecting ::= fun s => s ∖ {[handle]} |>)
  | TkInsert l, OcReady => Some ([TkRelease l], n <| nt_conns ::= <[ln_addr l := ln_conn l]> |>)
  | TkRelease l, OcReady => Some ([TkHello l], n <| nt_connecting ::= fun s => s ∖ {[ln_handle l]} |>)
  | TkHello l, OcSent r =>
      Some ([TkPing l 0; TkReceive l (replicate MAX_EVENT_SIZE x00) None],
            match r with inl _ => net_out (NoDatagram (ln_conn l) (datagram (Hello local_commit))) n | inr _ => n end)
  (* ping_pong *)
  | TkPing l k, OcSent (inl _) => Some ([TkSleep l k], net_out (NoDatagram (ln_conn l) (datagram Ping)) n)
  | TkPing l k, OcSent (inr _) => Some (fail_connection l ByPing n)
  | TkSleep l k, OcReady =>
      if S k <? PINGS then Some ([TkPing l (S k)], n)
      else if bool_decide (ln_addr l ∈ nt_ping_response n)
      then Some ([TkPing l 0], n <| nt_ping_response ::= fun s => s ∖ {[ln_addr l]} |>)
      else Some (fail_connection l ByPing n)
  (* receive_loop *)
  | TkReceive l buf latest, OcReceived None => Some (fail_connection l ByReceive n)
  | TkReceive l buf latest, OcReceived (Some bytes) =>
      if length bytes <=? MAX_EVENT_SIZE then Some ([TkCheck l (fill buf bytes) latest], n) else None
  | TkCheck l buf latest, OcReady =>
      if negb (link_current l n) then Some (fail_connection l ByReceive n)
      else let '(latest, n) := on_datagram l buf latest n in Some ([TkReceive l buf latest], n)
  (* fail_connection *)
  | TkFail l caller, OcReady =>
      let '(was_current, n) := disconnect l n in
      Some ([TkClose l caller], if was_current then net_out (NoEvent (ln_handle l) (Readiness false false 0)) n else n)
  | TkClose l caller, OcReady =>
      let n := net_out (NoClose (ln_conn l)) n in
      Some ([], match caller with BySend e error => net_out (NoSent (ln_handle l) e (inr error)) n | _ => n end)
  (* send *)
  | TkSendLock handle addr e, OcReady =>
      match nt_conns n !! addr with
      | Some conn =>
          if negb (client_alive handle (nt_clients n))
          then Some ([], net_out (NoSent handle e (inr CnTargetEmulationDisabled)) n)
          else Some ([TkSending (mkLink handle addr conn) e], n)
      | None => Some (request_connection handle n, net_out (NoSent handle e (inr CnNotConnected)) n)
      end
  | TkSending l e, OcSent (inl _) =>
      Some ([], net_out (NoSent (ln_handle l) e (inl tt)) (net_out (NoDatagram (ln_conn l) (datagram e)) n))
  | TkSending l e, OcSent (inr error) => Some (fail_connection l (BySend e error) n)
  | _, _ => None
  end.

(** [send], up to its first await *)
Definition net_send (handle : N) (e : ProtoEvent) (n : Net) : list Task * Net :=
  match active_addr handle (nt_clients n) with
  | Some addr => ([TkSendLock handle addr e], n)
  | None => (request_connection handle n, net_out (NoSent handle e (inr CnNotConnected)) n)
  end.

(** A tick of [spawn_connection_maintenance] *)
Definition maintain (n : Net) : list Task :=
  concat (map (fun handle => request_connection handle n) (active_clients slab_iter (nt_clients n))).

(** All tasks, and what can happen: a task goes on, [send] is called, the timer
    of the maintenance ticks, or the service changes the clients. *)
Record Peers := mkPeers {
  pn_tasks : list Task;
  pn_net : Net }.
#[global] Instance Peers_eta : RecordEta Peers := fun s => mkPeers (pn_tasks s) (pn_net s).

Inductive PeerStep :=
| PsTask (i : nat) (o : Outcome)
| PsSend (handle : N) (e : ProtoEvent)
| PsMaintain
| PsClients (m : Clients).

Definition peer_step (i : PeerStep) (s : Peers) : Peers :=
  match i with
  | PsTask i o =>
      match pn_tasks s !! i with
      | None => s
      | Some t =>
          match task_step t o (pn_net s) with
          | None => s
          | Some (ts, n) => mkPeers (take i (pn_tasks s) ++ ts ++ drop (S i) (pn_tasks s)) n
          end
      end
  | PsSend handle e => let '(ts, n) := net_send handle e (pn_net s) in mkPeers (pn_tasks s ++ ts) n
  | PsMaintain => s <| pn_tasks := pn_tasks s ++ maintain (pn_net s) |>
  | PsClients m => s <| pn_net ::= fun n => n <| nt_clients := m |> |>
  end.

Definition peers_new (clients : Clients) : Peers := mkPeers [] (net_new clients).
Definition peer_run (steps : list PeerStep) (s : Peers) : Peers := foldl (fun s i => peer_step i s) s steps.
End tasks.
