(* ===== verification/PeerConnTheorems.v ===== *)
(** * Connections to the peers: their theorems

    In every interleaving of the tasks at most one attempt runs for a handle,
    every connection in the table is watched by its pings and its receive loop,
    and what the clients say about a peer is backed by a connection to an
    address of that peer and was announced to the capture task. *)

From stdpp Require Import base tactics list gmap sets strings.
From Stdlib Require Import NArith ZArith Lia Sorted Strings.Byte.
From S2P Require Import Prelude Bytes Domain SwitchGate ProtoWire CaptureTask Clients PeerConn.

Ltac nf := unfold set in *; cbn [nt_clients nt_conns nt_connecting nt_ping_response nt_next nt_out ln_handle ln_addr ln_conn
  pn_tasks pn_net fst snd] in *.

(** ** What the tasks are for *)

(** The handle that a task has entered in [connecting]. *)
Definition attempting (t : Task) : option N :=
  match t with
  | TkConnecting h _ | TkAbandon h => Some h
  | TkInsert l | TkRelease l => Some (ln_handle l)
  | _ => None
  end.
Definition attempts (ts : list Task) : list N := omap attempting ts.

(** The link that a task pings, or receives from. *)
Definition pinging (t : Task) : option Link :=
  match t with TkPing l _ | TkSleep l _ | TkFail l ByPing => Some l | _ => None end.
Definition receiving (t : Task) : option Link :=
  match t with TkReceive l _ _ | TkCheck l _ _ | TkFail l ByReceive => Some l | _ => None end.

(** A link is watched once its two loops run, and until then by the task that
    starts them. *)
Definition does_for (f : Task -> option Link) (ts : list Task) (l : Link) : Prop := exists t, t ∈ ts /\ f t = Some l.
Definition watched (ts : list Task) (l : Link) : Prop :=
  TkRelease l ∈ ts \/ TkHello l ∈ ts \/ (does_for pinging ts l /\ does_for receiving ts l).

Section theorems.
Variable local_commit : list byte.
Variable ip_iter : gset N -> list N.
Variable slab_iter : Clients -> list (N * (ClientConfig * ClientState)).
Abbreviation task_step := (task_step local_commit ip_iter).
Abbreviation peer_step := (peer_step local_commit ip_iter slab_iter).
Abbreviation peer_run := (peer_run local_commit ip_iter slab_iter).

(** ** Stepping one task of the pool *)

Ltac split_task H :=
  match type of H with task_step ?t ?o ?n = Some _ => destruct t, o; cbn [PeerConn.task_step] in H; try discriminate H end;
  repeat match type of H with
  | Some _ = Some _ => fail 1
  | context [match ?x with _ => _ end] => destruct x eqn:?; try discriminate H
  end;
  try injection H as <- <-.

(** A property of the pool and the shared state that each task keeps, whatever
    the others are, and that new requests and calls of [send] do not concern. *)
Lemma peer_step_pool (P : list Task -> Net -> Prop) i s :
  (forall t o rest ts n', task_step t o (pn_net s) = Some (ts, n') ->
     P (t :: rest) (pn_net s) -> P (ts ++ rest) n') ->
  (forall ts ts' n, ts ≡ₚ ts' -> P ts n -> P ts' n) ->
  (forall h e, let '(ts, n) := net_send h e (pn_net s) in P (pn_tasks s) (pn_net s) -> P (ts ++ pn_tasks s) n) ->
  (P (pn_tasks s) (pn_net s) -> P (maintain slab_iter (pn_net s) ++ pn_tasks s) (pn_net s)) ->
  (forall m, i = PsClients m -> P (pn_tasks s) (pn_net s) -> P (pn_tasks s) ((pn_net s) <| nt_clients := m |>)) ->
  P (pn_tasks s) (pn_net s) -> P (pn_tasks (peer_step i s)) (pn_net (peer_step i s)).
Proof.
  intros Htask Hperm Hsend Hmaintain Hclients H. destruct i as [i o|h e| |m]; cbn [PeerConn.peer_step].
  - destruct (pn_tasks s !! i) as [t|] eqn:Hi; [|done].
    destruct (task_step t o (pn_net s)) as [[ts n']|] eqn:Ht; [|done]. nf.
    assert (pn_tasks s ≡ₚ t :: take i (pn_tasks s) ++ drop (S i) (pn_tasks s)) as Hp.
    { rewrite <- (take_drop_middle _ _ _ Hi) at 1. symmetry. apply Permutation_middle. }
    eapply Hperm; [|eapply Htask; [exact Ht|]].
    + symmetry. rewrite app_assoc. rewrite (Permutation_app_comm (take i _) ts). by rewrite <- app_assoc.
    + eapply Hperm; [exact Hp|done].
  - specialize (Hsend h e). destruct (net_send h e (pn_net s)) as [ts n]. nf.
    eapply Hperm; [apply Permutation_app_comm|by apply Hsend].
  - nf. eapply Hperm; [apply Permutation_app_comm|by apply Hmaintain].
  - nf. by apply Hclients.
Qed.

(** The tasks that a request spawns. *)
Lemma request_tasks h n : Forall (fun t => exists h, t = TkRequest h) (request_connection h n).
Proof. unfold request_connection. destruct (_ || _); repeat constructor. by eexists. Qed.
Lemma maintain_tasks n : Forall (fun t => exists h, t = TkRequest h) (maintain slab_iter n).
Proof.
  unfold maintain. apply Forall_concat, Forall_map, Forall_forall. intros h _. apply request_tasks.
Qed.

Definition idle (t : Task) : Prop :=
  match t with TkRequest _ | TkSendLock _ _ _ => True | _ => False end.
Lemma requests_idle ts : Forall (fun t => exists h, t = TkRequest h) ts -> Forall idle ts.
Proof. intros H. eapply Forall_impl; [exact H|]. by intros t [h ->]. Qed.
Lemma send_tasks h e n : let '(ts, n') := net_send h e n in
  Forall idle ts /\ nt_clients n' = nt_clients n /\ nt_conns n' = nt_conns n /\ nt_connecting n' = nt_connecting n.
Proof.
  unfold net_send. destruct (active_addr h (nt_clients n)); [by repeat constructor|].
  split; [apply requests_idle, request_tasks|done].
Qed.

(** ** One attempt for a handle *)

Definition connecting_ok (ts : list Task) (n : Net) : Prop :=
  NoDup (attempts ts) /\ forall h, h ∈ nt_connecting n <-> h ∈ attempts ts.

Lemma attempts_app ts ts' : attempts (ts ++ ts') = attempts ts ++ attempts ts'.
Proof. apply omap_app. Qed.
Lemma attempts_perm ts ts' : ts ≡ₚ ts' -> attempts ts ≡ₚ attempts ts'.
Proof. intros H. unfold attempts. by rewrite H. Qed.
Lemma attempts_idle ts : Forall idle ts -> attempts ts = [].
Proof. induction 1 as [|t ts Ht _ IH]; [done|]. cbn. by destruct t. Qed.

Lemma on_datagram_frame l buf latest n :
  let n' := snd (on_datagram l buf latest n) in nt_conns n' = nt_conns n /\ nt_connecting n' = nt_connecting n.
Proof. unfold on_datagram. repeat case_match; done. Qed.
Lemma disconnect_connecting l n : nt_connecting (snd (disconnect l n)) = nt_connecting n.
Proof. unfold disconnect. by case_match. Qed.

(** How a task changes [connecting] and what it attempts. *)
Lemma task_attempts t o ts n n' : task_step t o n = Some (ts, n') ->
  (attempts ts = attempts [t] /\ nt_connecting n' = nt_connecting n)
  \/ (exists h, attempts [t] = [] /\ attempts ts = [h] /\ (h ∉ nt_connecting n) /\ nt_connecting n' = {[h]} ∪ nt_connecting n)
  \/ (exists h, attempts [t] = [h] /\ attempts ts = [] /\ nt_connecting n' = nt_connecting n ∖ {[h]}).
Proof.
  intros H. split_task H; nf; cbn; try (by left); try (right; right; by eexists);
    try (left; split; [|done]; apply attempts_idle, requests_idle, request_tasks);
    try (right; left; eexists; split_and!; [done|done| |done]; by eapply bool_decide_eq_false);
    left; (split; [done|]).
  - by case_match.
  - match goal with E : on_datagram ?l ?b ?x ?n = _ |- _ => pose proof (on_datagram_frame l b x n) as [_ F]; by rewrite E in F end.
  - match goal with E : disconnect ?l ?n = _ |- _ => pose proof (disconnect_connecting l n) as F; rewrite E in F end. by case_match.
  - by case_match.
Qed.

Lemma task_connecting t o rest ts n n' : task_step t o n = Some (ts, n') ->
  connecting_ok (t :: rest) n -> connecting_ok (ts ++ rest) n'.
Proof.
  intros H [Hn Hc]. change (t :: rest) with ([t] ++ rest) in *. unfold connecting_ok. rewrite attempts_app in *.
  destruct (task_attempts _ _ _ _ _ H) as [[-> ->]|[(h & Et & -> & Hh & ->)|(h & Et & -> & ->)]]; [done| |];
    rewrite Et in Hn, Hc; cbn [app] in *.
  - split; [constructor; [by rewrite <- Hc|done]|]. set_solver.
  - apply NoDup_cons in Hn as [Hh Hn]. set_solver.
Qed.

Lemma connecting_step i s : connecting_ok (pn_tasks s) (pn_net s) -> connecting_ok (pn_tasks (peer_step i s)) (pn_net (peer_step i s)).
Proof.
  apply (peer_step_pool connecting_ok).
  - intros t o rest ts n' H. by eapply task_connecting.
  - intros ts ts' n Hp [Hn Hc]. unfold connecting_ok. by setoid_rewrite <- (attempts_perm _ _ Hp).
  - intros h e. pose proof (send_tasks h e (pn_net s)) as H. destruct (net_send _ _ _) as [ts n]. destruct H as (Hi & _ & _ & Hc).
    unfold connecting_ok. by rewrite attempts_app, (attempts_idle _ Hi), Hc.
  - unfold connecting_ok. by rewrite attempts_app, (attempts_idle _ (requests_idle _ (maintain_tasks _))).
  - done.
Qed.

(** ** Connections are watched *)

Definition watched_ok (ts : list Task) (n : Net) : Prop :=
  forall a c, nt_conns n !! a = Some c -> exists h, watched ts (mkLink h a c).

Lemma does_for_app f ts ts' l : does_for f (ts ++ ts') l <-> does_for f ts l \/ does_for f ts' l.
Proof. unfold does_for. setoid_rewrite elem_of_app. naive_solver. Qed.
Lemma does_for_cons f t ts l : does_for f (t :: ts) l <-> f t = Some l \/ does_for f ts l.
Proof. unfold does_for. setoid_rewrite elem_of_cons. naive_solver. Qed.
Lemma watched_mono ts ts' l : ts ⊆ ts' -> watched ts l -> watched ts' l.
Proof. unfold watched, does_for. set_solver. Qed.

Lemma disconnect_conns l n : nt_conns (snd (disconnect l n)) !! ln_addr l <> Some (ln_conn l).
Proof.
  unfold disconnect, link_current. destruct (bool_decide _) eqn:E; cbn; [|by apply bool_decide_eq_false in E].
  by rewrite lookup_delete_eq.
Qed.

(** A task that watches a link hands over to one that does, while the link is
    in the table. *)
Lemma task_keeps_watch t o ts n n' l : task_step t o n = Some (ts, n') -> nt_conns n' !! ln_addr l = Some (ln_conn l) ->
  (t = TkRelease l -> TkHello l ∈ ts)
  /\ (t = TkHello l -> does_for pinging ts l /\ does_for receiving ts l)
  /\ (pinging t = Some l -> does_for pinging ts l)
  /\ (receiving t = Some l -> does_for receiving ts l).
Proof.
  intros H Hc. split_task H; nf; split_and!; try (intros [=]); try done; subst;
    try (by apply list_elem_of_here); try (unfold does_for; setoid_rewrite elem_of_cons; naive_solver).
  - rewrite !does_for_cons. naive_solver.
  - destruct caller; [|done..]. simplify_eq. exfalso.
    match goal with E : disconnect ?l ?n = _ |- _ => apply (disconnect_conns l n); rewrite E end. by destruct b.
  - destruct caller; [done| |done]. simplify_eq. exfalso.
    match goal with E : disconnect ?l ?n = _ |- _ => apply (disconnect_conns l n); rewrite E end. by destruct b.
Qed.

(** What a task does to the table. *)
Lemma task_conns t o ts n n' : task_step t o n = Some (ts, n') ->
  nt_conns n' = nt_conns n
  \/ (exists l, t = TkInsert l /\ ts = [TkRelease l] /\ nt_conns n' = <[ln_addr l := ln_conn l]> (nt_conns n))
  \/ (exists l caller, t = TkFail l caller /\ link_current l n = true /\ nt_conns n' = delete (ln_addr l) (nt_conns n)).
Proof.
  intros H. split_task H; nf; try (by left); try (right; left; by eexists).
  - left. by case_match.
  - left. match goal with E : on_datagram ?l ?b ?x ?n = _ |- _ => pose proof (on_datagram_frame l b x n) as [F _]; by rewrite E in F end.
  - unfold disconnect in *. destruct (link_current l n) eqn:E; cbn [negb] in *; simplify_eq; [right; right|by left].
    by exists l, caller.
  - left. by case_match.
Qed.

Lemma task_watched t o rest ts n n' : task_step t o n = Some (ts, n') ->
  watched_ok (t :: rest) n -> watched_ok (ts ++ rest) n'.
Proof.
  intros H Hw a c Hc.
  assert (nt_conns n !! a = Some c \/ exists h, t = TkInsert (mkLink h a c) /\ ts = [TkRelease (mkLink h a c)])
    as [Hold|(h & -> & ->)]; [..|exists h; left; by apply list_elem_of_here].
  { destruct (task_conns _ _ _ _ _ H) as [E|[([h a0 c0] & -> & -> & E)|(l & ? & _ & _ & E)]]; rewrite E in Hc; [by left| |].
    - cbn in Hc. apply lookup_insert_Some in Hc as [[-> ->]|[_ Hc]]; [right; by exists h|by left].
    - apply lookup_delete_Some in Hc as [_ Hc]. by left. }
  destruct (Hw a c Hold) as [h Hl]. exists h. revert Hl.
  destruct (task_keeps_watch _ _ _ _ _ (mkLink h a c) H Hc) as (H1 & H2 & H3 & H4).
  unfold watched. rewrite !elem_of_app, !does_for_app, !elem_of_cons, !does_for_cons. naive_solver.
Qed.

Lemma watched_step i s : watched_ok (pn_tasks s) (pn_net s) -> watched_ok (pn_tasks (peer_step i s)) (pn_net (peer_step i s)).
Proof.
  assert (forall ts ts' n n', ts ⊆ ts' -> nt_conns n' = nt_conns n -> watched_ok ts n -> watched_ok ts' n') as Hmono.
  { intros ts ts' n n' Hs E H a c. rewrite E. intros [h Hh]%H. exists h. by eapply watched_mono. }
  apply (peer_step_pool watched_ok).
  - intros t o rest ts n' H. by eapply task_watched.
  - intros ts ts' n Hp. apply Hmono; [|done]. intros t. by rewrite Hp.
  - intros h e. pose proof (send_tasks h e (pn_net s)) as H. destruct (net_send _ _ _) as [ts n].
    apply Hmono; [set_solver|by destruct H as (_ & _ & -> & _)].
  - apply Hmono; [set_solver|done].
  - intros m _. by apply Hmono.
Qed.

Lemma peer_run_inv (P : Peers -> Prop) steps : (forall i s, P s -> P (peer_step i s)) -> forall s, P s -> P (peer_run steps s).
Proof. intros H. unfold PeerConn.peer_run. induction steps as [|i steps IH]; cbn; eauto. Qed.

(** ** What is known of the peers *)

(** Whether a peer answers and what it is ready for. *)
Definition peer_state (s : ClientState) : bool * bool * bool * N :=
  (cs_alive s, cs_keyboard_ready s, cs_pointer_ready s, cs_peer_session_epoch s).
Definition unknown : bool * bool * bool * N := (false, false, false, 0%N).

(** The readiness of a peer. *)
Definition readiness (s : ClientState) : bool * bool * N := (cs_keyboard_ready s, cs_pointer_ready s, cs_peer_session_epoch s).
Definition unready : bool * bool * N := (false, false, 0%N).

(** The service leaves what is known of a peer, forgets its readiness, or
    forgets all of it. *)
Definition keeps_peers (m m' : Clients) : Prop :=
  forall h cs', m' !! h = Some cs' ->
    peer_state (snd cs') = unknown
    \/ exists cs, m !! h = Some cs /\ cs_alive (snd cs') = cs_alive (snd cs)
         /\ (readiness (snd cs') = readiness (snd cs) \/ readiness (snd cs') = unready).

(** The addresses of a client, and the one in use, belong to it alone. *)
Variable owner : SocketAddr -> N.
Definition separate (m : Clients) : Prop :=
  forall h cs, m !! h = Some cs ->
    (forall ip, ip ∈ cs_ips (snd cs) -> owner (mkAddr ip (cc_port (fst cs))) = h)
    /\ (forall a, cs_active_addr (snd cs) = Some a -> owner a = h).

Definition legal_peer_step (i : PeerStep) (s : Peers) : Prop :=
  match i with
  | PsClients m => separate m /\ keeps_peers (nt_clients (pn_net s)) m
  | _ => True
  end.
Fixpoint legal_peer_run (steps : list PeerStep) (s : Peers) : Prop :=
  match steps with
  | [] => True
  | i :: steps => legal_peer_step i s /\ legal_peer_run steps (peer_step i s)
  end.

(** The readiness of a client that was announced last. *)
Definition announced (h : N) (out : list NetOutput) : bool * bool * N :=
  foldl (fun r o => match o with
                    | NoEvent h' (Readiness k p e) => if (h' =? h)%N then (k, p, e) else r
                    | _ => r
                    end) (false, false, 0%N) out.

(** Tasks work for the owner of the address. *)
Definition owned (t : Task) : Prop :=
  match t with
  | TkConnecting h addrs => Forall (fun a => owner a = h) addrs
  | TkInsert l | TkRelease l | TkHello l | TkPing l _ | TkSleep l _ | TkReceive l _ _ | TkCheck l _ _
  | TkFail l _ | TkClose l _ | TkSending l _ => owner (ln_addr l) = ln_handle l
  | TkSendLock h a _ => owner a = h
  | TkRequest _ | TkAbandon _ => True
  end.

Record backed (ts : list Task) (n : Net) : Prop := {
  bk_separate : separate (nt_clients n);
  bk_owned : Forall owned ts;
  bk_conn : forall h cs, nt_clients n !! h = Some cs -> peer_state (snd cs) <> unknown ->
    exists a, owner a = h /\ is_Some (nt_conns n !! a);
  bk_told : forall h cs, nt_clients n !! h = Some cs ->
    readiness (snd cs) = announced h (nt_out n) \/ readiness (snd cs) = unready }.

(** A change of the clients by a task for [h]: only [h] changes, and its
    address in use stays, goes, or becomes one of its own. *)
Definition touches (h : N) (m m' : Clients) : Prop :=
  forall h' cs', m' !! h' = Some cs' -> exists cs, m !! h' = Some cs /\ fst cs' = fst cs /\ cs_ips (snd cs') = cs_ips (snd cs)
    /\ (h' <> h -> cs' = cs)
    /\ (cs_active_addr (snd cs') = cs_active_addr (snd cs) \/ cs_active_addr (snd cs') = None
        \/ (exists a, cs_active_addr (snd cs') = Some a /\ owner a = h)).

Lemma separate_touches h m m' : touches h m m' -> separate m -> separate m'.
Proof.
  intros Ht Hs h' cs' H. destruct (Ht h' cs' H) as (cs & Hcs & Hf & Hi & Hn & Ha). destruct (Hs h' cs Hcs) as [S1 S2].
  rewrite Hf, Hi. split; [done|]. intros a E.
  destruct (decide (h' = h)) as [->|Hne]; [|apply Hn in Hne as ->; by apply S2].
  destruct Ha as [Ha|[Ha|(b & Ha & Hb)]]; rewrite Ha in E; [by apply S2|done|by simplify_eq].
Qed.

Lemma touches_refl h m : touches h m m.
Proof. intros h' cs' H. exists cs'. split_and!; [done..|by left]. Qed.
Lemma touches_trans h m1 m2 m3 : touches h m1 m2 -> touches h m2 m3 -> touches h m1 m3.
Proof.
  intros H1 H2 h' cs3 E3. destruct (H2 _ _ E3) as (cs2 & E2 & F2 & I2 & N2 & A2).
  destruct (H1 _ _ E2) as (cs1 & E1 & F1 & I1 & N1 & A1). exists cs1. split; [done|]. rewrite F2, I2. split_and!; [done..| |].
  - intros Hn. by rewrite (N2 Hn), (N1 Hn).
  - destruct A2 as [->|[A2|A2]]; [done|by right; left|by right; right].
Qed.
Lemma touches_alter h (f : ClientConfig * ClientState -> ClientConfig * ClientState) m :
  (forall cs, fst (f cs) = fst cs /\ cs_ips (snd (f cs)) = cs_ips (snd cs)
     /\ (cs_active_addr (snd (f cs)) = cs_active_addr (snd cs) \/ cs_active_addr (snd (f cs)) = None
         \/ exists a, cs_active_addr (snd (f cs)) = Some a /\ owner a = h)) -> touches h m (alter f h m).
Proof.
  intros Hf h' cs' H. destruct (decide (h' = h)) as [->|Hn].
  - rewrite lookup_alter_eq in H. apply fmap_Some in H as (cs & Hcs & ->). exists cs. destruct (Hf cs) as (? & ? & ?). by split_and!.
  - rewrite lookup_alter_ne in H by done. exists cs'. split_and!; [done..|by left].
Qed.

Lemma touches_active h a m : owner a = h -> touches h m (set_active_addr h (Some a) m).
Proof. intros Ha. apply touches_alter. intros [c s]. cbn. split_and!; [done..|]. right; right. by exists a. Qed.
Lemma touches_inactive h m : touches h m (set_active_addr h None m).
Proof. apply touches_alter. intros [c s]. cbn. split_and!; [done..|]. by right; left. Qed.
Lemma touches_alive h b m : touches h m (set_alive h b m).
Proof. apply touches_alter. intros [c s]. cbn. split_and!; [done..|by left]. Qed.
Lemma touches_clear h m : touches h m (clear_peer_readiness h m).
Proof. apply touches_alter. intros [c s]. cbn. split_and!; [done..|by left]. Qed.

(** The two updates that are insertions. *)
Lemma commit_alter h commit m :
  snd (set_peer_commit h commit m) = alter (fun '(c, s) => (c, s <| cs_peer_commit := commit |>)) h m.
Proof.
  unfold set_peer_commit. destruct (m !! h) as [[c s]|] eqn:E; cbn.
  - destruct (bool_decide _) eqn:Eb; cbn.
    + apply bool_decide_eq_true in Eb. symmetry. apply alter_id. intros cs E'. rewrite E in E'. injection E' as <-. destruct s; cbn in *; by subst.
    + apply map_eq. intros h'. destruct (decide (h = h')) as [<-|Hn].
      * by rewrite lookup_insert_eq, lookup_alter_eq, E.
      * by rewrite lookup_insert_ne, lookup_alter_ne.
  - symmetry. apply alter_id. intros cs E'. by rewrite E in E'.
Qed.
Lemma readiness_alter h k p e m : (e = 0%N -> k = false /\ p = false) ->
  snd (set_peer_readiness h k p e m)
  = alter (fun '(c, s) => (c, s <| cs_keyboard_ready := k |> <| cs_pointer_ready := p |> <| cs_peer_session_epoch := e |>)) h m.
Proof.
  intros He. unfold set_peer_readiness. destruct (m !! h) as [[c s]|] eqn:E; cbn.
  - destruct ((e =? 0)%N && (k || p)) eqn:Eb; cbn.
    + apply andb_true_iff in Eb as [E0%N.eqb_eq Eb]. destruct (He E0) as [-> ->]. done.
    + apply map_eq. intros h'. destruct (decide (h = h')) as [<-|Hn].
      * by rewrite lookup_insert_eq, lookup_alter_eq, E.
      * by rewrite lookup_insert_ne, lookup_alter_ne.
  - symmetry. apply alter_id. intros cs E'. by rewrite E in E'.
Qed.
Lemma touches_commit h commit m : touches h m (snd (set_peer_commit h commit m)).
Proof. rewrite commit_alter. apply touches_alter. intros [c s]. cbn. split_and!; [done..|by left]. Qed.

(** The invariant over a step of a task for [h]. *)
Lemma backed_task h t ts rest n n' :
  Forall owned ts -> touches h (nt_clients n) (nt_clients n') ->
  (forall h', h' <> h -> announced h' (nt_out n') = announced h' (nt_out n)) ->
  (forall a, is_Some (nt_conns n !! a) -> owner a = h \/ is_Some (nt_conns n' !! a)) ->
  (forall cs cs', nt_clients n !! h = Some cs -> nt_clients n' !! h = Some cs' ->
     peer_state (snd cs') = unknown
     \/ ((peer_state (snd cs') = peer_state (snd cs) /\ (forall a, is_Some (nt_conns n !! a) -> is_Some (nt_conns n' !! a))
          \/ exists a, owner a = h /\ is_Some (nt_conns n' !! a))
         /\ (readiness (snd cs') = announced h (nt_out n')
             \/ readiness (snd cs') = readiness (snd cs) /\ announced h (nt_out n') = announced h (nt_out n)))) ->
  backed (t :: rest) n -> backed (ts ++ rest) n'.
Proof.
  intros Ho Ht Ha Hc Hh [B1 B2 B3 B4]. split.
  - by eapply separate_touches.
  - apply Forall_app. split; [done|]. by apply Forall_cons in B2 as [_ B2].
  - intros h' cs' E Hs. destruct (Ht _ _ E) as (cs & Ecs & _ & _ & Hn & _). destruct (decide (h' = h)) as [->|Hne].
    + destruct (Hh _ _ Ecs E) as [|[[[Hp Hk]|?] _]]; [done| |done].
      rewrite Hp in Hs. destruct (B3 _ _ Ecs Hs) as (a & Hoa & Hca). exists a. auto.
    + rewrite (Hn Hne) in Hs. destruct (B3 _ _ Ecs Hs) as (a & Hoa & Hca). exists a. split; [done|].
      destruct (Hc a Hca) as [?|?]; [congruence|done].
  - intros h' cs' E. destruct (Ht _ _ E) as (cs & Ecs & _ & _ & Hn & _). destruct (decide (h' = h)) as [->|Hne].
    + destruct (Hh _ _ Ecs E) as [Hu|[_ [?|[Hr Ea]]]].
      * right. unfold peer_state, unknown, readiness, unready in *. congruence.
      * by left.
      * rewrite Hr, Ea. by apply B4.
    + rewrite (Hn Hne), (Ha _ Hne). by apply B4.
Qed.

Lemma announced_out h o n : announced h (nt_out (net_out o n))
  = match o with
    | NoEvent h' (Readiness k p e) => if (h' =? h)%N then (k, p, e) else announced h (nt_out n)
    | _ => announced h (nt_out n)
    end.
Proof. unfold announced, net_out. nf. by rewrite foldl_app. Qed.

(** A step that leaves the clients and announces nothing. *)
Lemma backed_quiet t ts rest n n' : Forall owned ts -> nt_clients n' = nt_clients n ->
  (forall h, announced h (nt_out n') = announced h (nt_out n)) ->
  (forall a, is_Some (nt_conns n !! a) -> is_Some (nt_conns n' !! a)) -> backed (t :: rest) n -> backed (ts ++ rest) n'.
Proof.
  intros Ho Hm Ha Hc. apply (backed_task 0%N); try done; rewrite ?Hm; [apply touches_refl|auto|].
  intros cs cs' E1 E2. assert (cs' = cs) as -> by congruence. right. split; [by left|by right].
Qed.

Lemma readiness_accepted latest k p e : fst (accept_readiness_epoch latest k p e) = true -> e = 0%N -> k = false /\ p = false.
Proof. unfold accept_readiness_epoch. intros H ->. cbn in H. destruct k, p; rewrite ?andb_false_r in H; done. Qed.

Lemma backed_datagram t l buf latest rest n x n' : owner (ln_addr l) = ln_handle l -> link_current l n = true ->
  on_datagram l buf latest n = (x, n') -> backed (t :: rest) n -> backed ([TkReceive l buf x] ++ rest) n'.
Proof.
  intros Hl Hc%bool_decide_eq_true.
  assert (exists a, owner a = ln_handle l /\ is_Some (nt_conns n !! a)) as Hconn by (exists (ln_addr l); rewrite Hc; eauto).
  assert (Forall owned [TkReceive l buf x]) as Ho by (by repeat constructor).
  assert (forall e n0, (forall k p se, e <> Readiness k p se) -> n0 = n ->
    backed (t :: rest) n -> backed ([TkReceive l buf x] ++ rest) (net_out (NoEvent (ln_handle l) e) n0)) as Hplain.
  { intros e n0 He ->. apply backed_quiet; try done. intros h. rewrite announced_out. destruct e; naive_solver. }
  unfold on_datagram. destruct (decode_event buf) as [e|?|?]; [|by intros [= <- <-]; apply backed_quiet..].
  destruct e; try (intros [= <- <-]; by apply Hplain).
  - intros [= <- <-]. apply (backed_task (ln_handle l)); nf; try done; auto.
    + eapply touches_trans; [by apply touches_active|apply touches_alive].
    + intros cs cs' E. unfold record_pong, set_alive, set_active_addr, update_client. rewrite !lookup_alter_eq, E. cbn.
      destruct cs as [c s]. intros [= <-]. right. split; [by right|by right].
  - destruct (set_peer_commit _ _ _) as [changed m] eqn:E. intros [= <- <-].
    assert (m = snd (set_peer_commit (ln_handle l) (Some commit) (nt_clients n))) as -> by (by rewrite E).
    apply (backed_task (ln_handle l)); nf; try done.
    + destruct changed; apply touches_commit.
    + intros h' _. destruct changed; [|done]. by rewrite announced_out.
    + intros a Ha. right. by destruct changed.
    + intros cs cs' Ecs. replace (nt_clients _) with (snd (set_peer_commit (ln_handle l) (Some commit) (nt_clients n)))
        by (by destruct changed). rewrite commit_alter, lookup_alter_eq, Ecs. cbn. destruct cs as [c s]. intros [= <-].
      right. split; [left; split; [done|by destruct changed]|]. right. split; [done|].
      destruct changed; [|done]. by rewrite announced_out.
  - destruct (accept_readiness_epoch _ _ _ _) as [ok latest'] eqn:E. destruct ok; cbn [negb]; [|intros [= <- <-]; by apply backed_quiet].
    intros [= <- <-]. assert (session_epoch = 0%N -> keyboard_ready = false /\ pointer_ready = false) as He
      by (eapply (readiness_accepted latest); by rewrite E).
    apply (backed_task (ln_handle l)); nf; try done; auto.
    + cbn. rewrite readiness_alter by done. apply touches_alter. intros [c s]. cbn. split_and!; [done..|by left].
    + intros h' Hn. rewrite announced_out. by apply N.eqb_neq in Hn; rewrite N.eqb_sym in Hn; rewrite Hn.
    + intros [c s] cs' Ecs E'. right. split; [by right|]. left. rewrite announced_out, N.eqb_refl.
      cbn in E'. rewrite readiness_alter, lookup_alter_eq, Ecs in E' by done. cbn in E'. by injection E' as <-.
Qed.

Lemma backed_disconnect l caller t rest n : owner (ln_addr l) = ln_handle l -> link_current l n = true ->
  backed (t :: rest) n ->
  backed ([TkClose l caller] ++ rest) (net_out (NoEvent (ln_handle l) (Readiness false false 0)) (snd (disconnect l n))).
Proof.
  intros Hl Hc. apply (backed_task (ln_handle l)); [by repeat constructor|..];
    [|intros h' Hn; rewrite announced_out; apply N.eqb_neq in Hn; rewrite N.eqb_sym in Hn; rewrite Hn; unfold disconnect; by rewrite Hc|..];
    unfold disconnect; rewrite Hc; cbn.
  - eapply touches_trans; [|apply touches_clear]. eapply touches_trans; [|apply touches_commit].
    eapply touches_trans; [apply touches_inactive|apply touches_alive].
  - intros a Ha. destruct (decide (a = ln_addr l)) as [->|Hn]; [by left|right; by rewrite lookup_delete_ne].
  - intros [c s] cs' E. rewrite commit_alter. unfold clear_peer_readiness, set_alive, set_active_addr, update_client.
    rewrite !lookup_alter_eq, E. cbn. intros [= <-]. by left.
Qed.

Lemma owned_requests ts : Forall (fun t => exists h, t = TkRequest h) ts -> Forall owned ts.
Proof. intros H. eapply Forall_impl; [exact H|]. by intros t [h ->]. Qed.

Lemma connect_any_joined addrs results a : joined addrs results = true -> connect_any results = inl a -> a ∈ addrs.
Proof.
  unfold joined. intros [H _]%andb_true_iff. revert H. induction results as [|[b []] results IH]; cbn; [done|..];
    intros [Hb Hr]%andb_true_iff.
  - intros [= <-]. by apply bool_decide_eq_true in Hb.
  - auto.
Qed.

Hypothesis ip_iter_in : forall ips ip, ip ∈ ip_iter ips -> ip ∈ ips.

Lemma task_backed t o rest ts n n' : task_step t o n = Some (ts, n') -> backed (t :: rest) n -> backed (ts ++ rest) n'.
Proof.
  intros H Hb. assert (owned t) as Ho by (destruct Hb as [_ B2 _ _]; by apply Forall_cons in B2 as [? _]).
  split_task H; nf; cbn [owned] in Ho;
    try (eapply backed_quiet; [..|exact Hb]; [by repeat constructor|done|intros h; by rewrite ?announced_out|done]).
  - eapply backed_quiet; [..|exact Hb]; try done. constructor; [|done]. cbn. apply Forall_map, Forall_forall. intros ip Hip%ip_iter_in.
    destruct Hb as [B1 _ _ _]. unfold get_ips, get_port in *. destruct (nt_clients n !! handle) as [cs|] eqn:E; [|done].
    simplify_eq/=. destruct (B1 _ _ E) as [S1 _]. by apply S1.
  - assert (owner s = handle) as Hs.
    { eapply Forall_forall in Ho; [exact Ho|]. eapply connect_any_joined; [|eassumption]. by destruct (joined _ _). }
    eapply (backed_task handle); [..|exact Hb]; nf; try done; [by repeat constructor|by apply touches_active|auto|].
    intros [c st] cs' E. unfold set_active_addr, update_client. rewrite lookup_alter_eq, E. cbn. intros [= <-].
    right. split; [by left|by right].
  - eapply backed_quiet; [..|exact Hb]; nf; try done; [by repeat constructor|].
    intros a Ha. destruct (decide (a = ln_addr l)) as [->|Hn]; [by rewrite lookup_insert_eq|by rewrite lookup_insert_ne].
  - destruct r; (eapply backed_quiet; [..|exact Hb]; [by repeat constructor|done|intros h; by rewrite ?announced_out|done]).
  - eapply backed_datagram; [done| |eassumption|exact Hb]. by destruct (link_current l n).
  - destruct (link_current l n) eqn:E; unfold disconnect in *; rewrite E in *; cbn [negb] in *; simplify_eq.
    + pose proof (backed_disconnect l caller _ rest n Ho E Hb) as H. unfold disconnect in H. by rewrite E in H.
    + eapply backed_quiet; [..|exact Hb]; [by repeat constructor|done..].
  - destruct caller; (eapply backed_quiet; [..|exact Hb]; [by repeat constructor|done|intros h; by rewrite ?announced_out|done]).
  - eapply backed_quiet; [..|exact Hb]; [apply owned_requests, request_tasks|done|intros h; by rewrite announced_out|done].
Qed.

Lemma backed_perm ts ts' n : ts ≡ₚ ts' -> backed ts n -> backed ts' n.
Proof. intros Hp [B1 B2 B3 B4]. split; [done| |done..]. by rewrite <- Hp. Qed.
Lemma backed_more ts ts' n n' : Forall owned ts' -> nt_clients n' = nt_clients n -> nt_conns n' = nt_conns n ->
  (forall h, announced h (nt_out n') = announced h (nt_out n)) -> backed ts n -> backed (ts' ++ ts) n'.
Proof. intros Ho Em Ec Ea [B1 B2 B3 B4]. split; rewrite ?Em, ?Ec; try done; [by apply Forall_app|]. intros h. rewrite Ea. apply B4. Qed.

Lemma backed_step i s : legal_peer_step i s -> backed (pn_tasks s) (pn_net s) -> backed (pn_tasks (peer_step i s)) (pn_net (peer_step i s)).
Proof.
  intros Hl Hb. apply (peer_step_pool backed); [| | | | |exact Hb].
  - intros t o rest ts n'. apply task_backed.
  - intros ts ts' n. apply backed_perm.
  - intros h e. unfold net_send. destruct (active_addr _ _) as [a|] eqn:E.
    + apply backed_more; try done. repeat constructor. cbn. unfold active_addr in E. destruct Hb as [B1 _ _ _].
      destruct (nt_clients (pn_net s) !! h) as [cs|] eqn:Ecs; [|done]. by eapply B1.
    + apply backed_more; try done; [apply owned_requests, request_tasks|]. intros h'. by rewrite announced_out.
  - apply backed_more; try done. apply owned_requests, maintain_tasks.
  - intros m -> [B1 B2 B3 B4]. destruct Hl as [Hs Hk]. split; nf; try done.
    + intros h cs' E Hu. destruct (Hk _ _ E) as [?|(cs & Ecs & Ea & Er)]; [done|]. eapply B3; [exact Ecs|].
      intros Hc. apply Hu. unfold peer_state, unknown, readiness, unready in *. destruct Er as [Er|Er]; congruence.
    + intros h cs' E. destruct (Hk _ _ E) as [Eu|(cs & Ecs & _ & Er)].
      * right. unfold peer_state, unknown, readiness, unready in *. congruence.
      * destruct Er as [-> | ->]; [by apply B4|by right].
Qed.

Lemma backed_run steps : forall s, legal_peer_run steps s -> backed (pn_tasks s) (pn_net s) ->
  backed (pn_tasks (peer_run steps s)) (pn_net (peer_run steps s)).
Proof.
  induction steps as [|i steps IH]; intros s Hl Hb; [done|]. destruct Hl as [Hi Hl].
  by apply (IH (peer_step i s) Hl), backed_step.
Qed.

(** A watched link is owned. *)
Lemma watched_owned ts l : Forall owned ts -> watched ts l -> owner (ln_addr l) = ln_handle l.
Proof.
  intros Ho. rewrite Forall_forall in Ho. intros [H|[H|[(t & H & E) _]]]; apply Ho in H; [done..|].
  destruct t; cbn in *; try done; [by simplify_eq..|]. destruct caller; by simplify_eq.
Qed.
End theorems.

(** In every interleaving of the tasks, and whatever the service does to the
    clients meanwhile, at most one attempt to connect runs for a handle and
    [connecting] holds exactly the handles of running attempts; and every
    connection in the table is watched by its pings and by its receive loop, or
    by the task that is about to start both. *)
Theorem connections_watched local_commit ip_iter slab_iter clients steps :
  let s := peer_run local_commit ip_iter slab_iter steps (peers_new clients) in
  NoDup (attempts (pn_tasks s))
  /\ (forall h, h ∈ nt_connecting (pn_net s) <-> h ∈ attempts (pn_tasks s))
  /\ (forall a c, nt_conns (pn_net s) !! a = Some c -> exists h, watched (pn_tasks s) (mkLink h a c)).
Proof.
  intros s. assert (connecting_ok (pn_tasks s) (pn_net s) /\ watched_ok (pn_tasks s) (pn_net s)) as [[H1 H2] H3]; [|done].
  apply (peer_run_inv local_commit ip_iter slab_iter
           (fun s => connecting_ok (pn_tasks s) (pn_net s) /\ watched_ok (pn_tasks s) (pn_net s))).
  - intros i s' [Hc Hw]. split; [by apply connecting_step|by apply watched_step].
  - split; [split; [constructor|set_solver]|done].
Qed.

(** As long as clients have different addresses, and the service leaves or
    forgets what is known of a peer, in every interleaving: a client that is
    shown as alive or ready, or with a session, has a connection in the table
    to an address of its own, watched by its pings and its receive loop; and
    the readiness that is shown is the last one that was announced for it, or
    none. *)
Theorem peer_state_backed local_commit ip_iter slab_iter owner clients steps :
  (forall ips ip, ip ∈ ip_iter ips -> ip ∈ ips) ->
  separate owner clients -> (forall h cs, clients !! h = Some cs -> peer_state (snd cs) = unknown) ->
  legal_peer_run local_commit ip_iter slab_iter owner steps (peers_new clients) ->
  let s := peer_run local_commit ip_iter slab_iter steps (peers_new clients) in
  forall h cs, nt_clients (pn_net s) !! h = Some cs ->
    (peer_state (snd cs) <> unknown ->
       exists a c, owner a = h /\ nt_conns (pn_net s) !! a = Some c /\ watched (pn_tasks s) (mkLink h a c))
    /\ (readiness (snd cs) = announced h (nt_out (pn_net s)) \/ readiness (snd cs) = unready).
Proof.
  intros Hip Hsep Hnew Hl s h cs E.
  assert (backed owner (pn_tasks s) (pn_net s)) as [_ B2 B3 B4].
  { apply backed_run; [done..|]. split; nf; cbn; try done; [..|]; intros h' cs' E'.
    - by rewrite (Hnew _ _ E').
    - right. specialize (Hnew _ _ E'). unfold peer_state, unknown, readiness, unready in *. congruence. }
  split; [|by apply B4]. intros (a & Ha & [c Hc])%(B3 _ _ E).
  assert (watched_ok (pn_tasks s) (pn_net s)) as Hw.
  { apply (peer_run_inv local_commit ip_iter slab_iter (fun s => watched_ok (pn_tasks s) (pn_net s))); [|done]. apply watched_step. }
  destruct (Hw _ _ Hc) as [h' Hh]. exists a, c. pose proof (watched_owned _ _ _ B2 Hh) as Ho. cbn in Ho. subst. done.
Qed.

(** ** The order of readiness *)

(** The readiness messages that a receive loop accepts, of those it gets. *)
Fixpoint accepted (latest : option N) (messages : list (bool * bool * N)) : list (bool * bool * N) :=
  match messages with
  | [] => []
  | (k, p, e) :: messages =>
      let '(ok, latest) := accept_readiness_epoch latest k p e in
      (if ok then [(k, p, e)] else []) ++ accepted latest messages
  end.

Lemma accepted_later messages : forall latest,
  Forall (fun m => latest <= m.2)%N (accepted (Some latest) messages)
  /\ StronglySorted N.le (map snd (accepted (Some latest) messages)).
Proof.
  induction messages as [|[[k p] e] messages IH]; intros latest; cbn [accepted]; [by repeat constructor|].
  unfold accept_readiness_epoch. destruct (N.eqb_spec e 0) as [->|Hn]; cbn; [apply IH|].
  destruct (N.ltb_spec e latest) as [Hlt|Hge]; cbn; [apply IH|]. destruct (IH e) as [H1 H2].
  split; constructor; cbn; try done.
  - eapply Forall_impl; [exact H1|]. cbn. intros. lia.
  - by apply Forall_map.
Qed.

(** A connection's readiness starts with messages without a session, which say
    that nothing is ready; from the first session on, sessions never go back. *)
Lemma accepted_in_order messages : exists first later, accepted None messages = first ++ later
  /\ Forall (fun m => m = unready) first /\ Forall (fun m => 0 < m.2)%N later /\ StronglySorted N.le (map snd later).
Proof.
  induction messages as [|[[k p] e] messages (first & later & E & H1 & H2 & H3)]; [exists [], []; by repeat constructor|].
  cbn [accepted]. unfold accept_readiness_epoch. destruct (N.eqb_spec e 0) as [->|Hn].
  - rewrite bool_decide_true by done. destruct k, p; cbn [negb andb app]; rewrite E; try (by exists first, later).
    exists ((false, false, 0%N) :: first), later. split; [done|]. split; [by constructor|done].
  - exists [], ((k, p, e) :: accepted (Some e) messages). destruct (accepted_later messages e) as [L1 L2]. split; [done|].
    split; [constructor|]. split; constructor; cbn; try done; try lia.
    + eapply Forall_impl; [exact L1|]. cbn. intros. lia.
    + by apply Forall_map.
Qed.

(** ** Runs *)

Definition peer_addr : SocketAddr := mkAddr 7 DEFAULT_PORT.
Definition other_addr : SocketAddr := mkAddr 8 DEFAULT_PORT.
Definition demo_client (ip : N) : ClientConfig * ClientState :=
  (client_config_default <| cc_fix_ips := [ip] |>, client_state_default <| cs_active := true |> <| cs_ips := {[ip]} |>).
Definition demo_clients : Clients := {[0%N := demo_client 7]}.
Abbreviation demo_run := (peer_run [] elements map_to_list) (only parsing).

(** Client 0 is connected at [addr] by the task at position [i]. *)
Definition connected_at (i : nat) (addr : SocketAddr) : list PeerStep :=
  [PsTask i (OcJoined [(addr, inl tt)]); PsTask i OcReady; PsTask i OcReady; PsTask i (OcSent (inl tt))].
(** The receive loop at position [i] takes an event from the peer. *)
Definition heard (i : nat) (e : ProtoEvent) : list PeerStep :=
  [PsTask i (OcReceived (Some (datagram e))); PsTask i OcReady].

Definition demo_steps : list PeerStep :=
  [PsMaintain; PsTask 0 OcReady] ++ connected_at 0 peer_addr ++ heard 1 (Pong true) ++ heard 1 (Readiness true true 5).

Lemma peer_state_backed_witness :
  (forall ips ip, ip ∈ elements (C := gset N) ips -> ip ∈ ips)
  /\ separate (fun _ => 0%N) demo_clients
  /\ (forall h cs, demo_clients !! h = Some cs -> peer_state (snd cs) = unknown)
  /\ legal_peer_run [] elements map_to_list (fun _ => 0%N) demo_steps (peers_new demo_clients)
  /\ exists a c, nt_conns (pn_net (demo_run demo_steps (peers_new demo_clients))) !! a = Some c
       /\ watched (pn_tasks (demo_run demo_steps (peers_new demo_clients))) (mkLink 0 a c).
Proof.
  assert (forall ips ip, ip ∈ elements (C := gset N) ips -> ip ∈ ips) as H1 by (intros; by apply elem_of_elements).
  assert (separate (fun _ => 0%N) demo_clients) as H2.
  { intros h cs H. unfold demo_clients in H. apply lookup_singleton_Some in H as [<- <-]. split; [done|]. by intros a [=]. }
  assert (forall h cs, demo_clients !! h = Some cs -> peer_state (snd cs) = unknown) as H3.
  { intros h cs H. unfold demo_clients in H. by apply lookup_singleton_Some in H as [<- <-]. }
  assert (legal_peer_run [] elements map_to_list (fun _ => 0%N) demo_steps (peers_new demo_clients)) as H4.
  { cbn [demo_steps connected_at heard app legal_peer_run legal_peer_step]. tauto. }
  split_and!; [exact H1|exact H2|exact H3|exact H4|].
  destruct (nt_clients (pn_net (demo_run demo_steps (peers_new demo_clients))) !! 0%N) as [cs|] eqn:E; [|vm_compute in E; discriminate E].
  destruct (peer_state_backed [] elements map_to_list (fun _ => 0%N) demo_clients demo_steps H1 H2 H3 H4 0%N cs E) as [H _].
  destruct H as (a & c & _ & Hc & Hw); [|by exists a, c].
  vm_compute in E. injection E as <-. intros [=].
Defined.

(** Removing a client leaves its connection open, and its handle can be given to
    another one.  The old peer's answers then make that client alive at the old
    address, and the input meant for the new peer is sent to the old one. *)
Definition reused_steps : list PeerStep :=
  demo_steps ++ [PsClients (snd (remove_client 0 demo_clients)); PsClients {[0%N := demo_client 8]}]
  ++ heard 1 (Pong true) ++ [PsSend 0 (Leave 3); PsTask 2 OcReady; PsTask 2 (OcSent (inl tt))].
Example reused_handle_misdirects :
  let n := pn_net (demo_run reused_steps (peers_new demo_clients)) in
  get_ips 0 (nt_clients n) = Some {[8%N]}
  /\ nt_conns n = {[peer_addr := 0%N]}
  /\ take 2 (rev (nt_out n)) = [NoSent 0 (Leave 3) (inl tt); NoDatagram 0 (datagram (Leave 3))].
Proof. vm_compute. done. Qed.

(** A request that found no address in use waits for the lock while the attempt
    before it succeeds; it then connects a second time.  Both connections are
    kept, and the end of the first clears what the second has reported. *)
Definition raced_steps : list PeerStep :=
  [PsMaintain; PsTask 0 OcReady; PsMaintain] ++ firstn 3 (connected_at 0 peer_addr)
  ++ [PsTask 1 OcReady; PsTask 0 (OcSent (inl tt))] ++ connected_at 2 other_addr
  ++ heard 3 (Pong true) ++ heard 3 (Readiness true true 5) ++ [PsTask 1 (OcReceived None); PsTask 1 OcReady].
Example raced_attempts_lose_readiness :
  let clients := {[0%N := ((demo_client 7).1, (demo_client 7).2 <| cs_ips := {[7%N; 8%N]} |>)]} in
  let n := pn_net (demo_run raced_steps (peers_new clients)) in
  nt_conns n = {[other_addr := 1%N]}
  /\ (peer_state ∘ snd <$> nt_clients n !! 0%N) = Some unknown /\ active_addr 0 (nt_clients n) = None.
Proof. vm_compute. done. Qed.

(** Two clients with an address in common: the connection of the second takes
    the place of the first, whose end is then not noticed.  After the second has
    ended too, the first client is still shown as alive and ready, and no
    attempt is made for it again. *)
Definition shared_steps : list PeerStep :=
  [PsSend 0 (Leave 0); PsTask 0 OcReady] ++ connected_at 0 peer_addr ++ heard 1 (Pong true) ++ heard 1 (Readiness true true 5)
  ++ [PsSend 1 (Leave 0); PsTask 2 OcReady] ++ connected_at 2 peer_addr
  ++ [PsTask 1 (OcReceived (Some (datagram (Pong true)))); PsTask 1 OcReady; PsTask 1 OcReady; PsTask 1 OcReady]
  ++ [PsTask 0 (OcSent (inr CnTransport)); PsTask 0 OcReady; PsTask 0 OcReady]
  ++ [PsTask 1 (OcReceived None); PsTask 1 OcReady; PsTask 1 OcReady]
  ++ [PsTask 0 (OcSent (inr CnTransport)); PsTask 0 OcReady; PsTask 0 OcReady].
Example shared_address_sticks :
  let s := demo_run shared_steps (peers_new {[0%N := demo_client 7; 1%N := demo_client 7]}) in
  pn_tasks s = [] /\ nt_conns (pn_net s) = ∅
  /\ (peer_state ∘ snd <$> nt_clients (pn_net s) !! 0%N) = Some (true, true, true, 5%N)
  /\ request_connection 0 (pn_net s) = [].
Proof. vm_compute. done. Qed.
