(* ===== verification/PeerListen.v ===== *)
(** * Connections from the peers (lan-mouse/src/listen.rs, crypto.rs)

    The listener accepts DTLS connections of authorized peers, reads their
    datagrams in a loop for each connection, and reports what happens to the
    listen task.  The callback that verifies a certificate runs inside a
    handshake; the outcomes of the library (handshakes, accepting, sending and
    receiving) are inputs, and SHA-256 is a parameter. *)

From stdpp Require Import base tactics list gmap sets strings.
From Stdlib Require Import NArith ZArith Lia Strings.Byte Strings.Ascii.
From S2P Require Import Prelude Bytes Domain SwitchGate ProtoWire CaptureTask Clients ClipTypes ClipTransport PeerConn.

(** ** Fingerprints *)

Section listener.
Variable sha256 : list byte -> list byte.

(** [generate_fingerprint]; the text is ASCII *)
Definition generate_fingerprint (cert : list byte) : string :=
  to_ascii_lowercase (String.concat ":" (map (fun b => hex_byte (Byte.to_N b)) (sha256 cert))).

(** [certificate_fingerprint], for the certificates of a [Certificate] *)
Definition certificate_fingerprint (certificates : list (list byte)) : exec Empty_set string :=
  let* certificate := expect (head certificates) "certificate missing" in
  Ret (generate_fingerprint certificate).

(** ** The listener *)

Inductive ListenEvent :=
| LeMsg (e : ProtoEvent) (addr : SocketAddr)
| LeAccept (addr : SocketAddr) (fingerprint : string)
| LeRejected (fingerprint : string)
| LeDisconnected (addr : SocketAddr).

(** A connection: the identity of its [Arc], its address, and the certificates
    that its peer presented. *)
Record PeerConnection := mkPeerConn {
  pc_id : N;
  pc_addr : SocketAddr;
  pc_certs : list (list byte) }.

(** A read loop: in [recv], or waiting for the lock after the loop. *)
Inductive ReadLoop :=
| RdRecv (c : PeerConnection) (buf : list byte)
| RdEnd (c : PeerConnection).
Definition read_conn (r : ReadLoop) : PeerConnection := match r with RdRecv c _ | RdEnd c => c end.

Inductive ListenerOut :=
| LnSent (conn : N) (bytes : list byte)
| LnClosed (conn : N)
| LnPortChanged (r : N + unit).

(** [li_running] tells whether the accepting task runs, [li_closed] whether the
    channel of the events is closed: a read loop that reports to it then panics
    in its own task, and nothing is reported any more. *)
Record Listener := mkListener {
  li_authorized : gmap string string;
  li_attempts : list string;
  li_conns : list PeerConnection;
  li_reads : list ReadLoop;
  li_next : N;
  li_running : bool;
  li_closed : bool;
  li_events : list ListenEvent;
  li_out : list ListenerOut }.
#[global] Instance Listener_eta : RecordEta Listener := fun s =>
  mkListener (li_authorized s) (li_attempts s) (li_conns s) (li_reads s) (li_next s) (li_running s) (li_closed s) (li_events s) (li_out s).

(** [LanMouseListener::new], when the port could be bound *)
Definition listener_new (authorized : gmap string string) : Listener := mkListener authorized [] [] [] 0 true false [] [].

Definition report (e : ListenEvent) (s : Listener) : Listener := s <| li_events ::= fun es => es ++ [e] |>.
Definition emit_all (os : list ListenerOut) (s : Listener) : Listener := s <| li_out ::= fun out => out ++ os |>.

(** [verify_peer_certificate]: accepted, refused, or a failed assertion *)
Definition verify_peer_certificate (certs : list (list byte)) (s : Listener) : exec unit unit * Listener :=
  match certs with
  | [cert] =>
      let fingerprint := generate_fingerprint cert in
      match li_authorized s !! fingerprint with
      | Some _ => (Ret tt, s)
      | None => (Throw tt, s <| li_attempts ::= fun q => q ++ [fingerprint] |>)
      end
  | _ => (Panic "assertion failed: certs.len() == 1", s)
  end.

(** An accepted connection *)
Definition on_accept (addr : SocketAddr) (certs : list (list byte)) (s : Listener) : Listener :=
  let c := mkPeerConn (li_next s) addr certs in
  let s := s <| li_conns ::= fun cs => cs ++ [c] |> <| li_next ::= N.succ |> in
  match head certs with
  | None => s <| li_running := false |>   (* expect("cert") *)
  | Some cert =>
      let s := report (LeAccept addr (generate_fingerprint cert)) s in
      s <| li_reads ::= fun rs => rs ++ [RdRecv c (replicate MAX_EVENT_SIZE x00)] |>
  end.

(** [accept] failed; [mismatch] for [ErrVerifyDataMismatch] *)
Definition on_accept_error (mismatch : bool) (s : Listener) : Listener :=
  if mismatch then
    match li_attempts s with
    | [] => s
    | fingerprint :: rest => report (LeRejected fingerprint) (s <| li_attempts := rest |>)
    end
  else s.

(** [read_loop]: a datagram or an error, and its end. *)
Definition read_step (r : ReadLoop) (received : option (list byte)) (s : Listener) : option ReadLoop * Listener :=
  match r, received with
  | RdRecv c buf, Some bytes =>
      let buf := fill buf bytes in
      (Some (RdRecv c buf), match decode_event buf with Ret e => report (LeMsg e (pc_addr c)) s | _ => s end)
  | RdRecv c _, None => (Some (RdEnd c), s)
  | RdEnd c, _ =>
      let same d := bool_decide (pc_addr d = pc_addr c) && (pc_id d =? pc_id c)%N in
      if existsb same (li_conns s) then
        let s := s <| li_conns ::= remove_first same |> in
        (None, if existsb (fun d => bool_decide (pc_addr d = pc_addr c)) (li_conns s) then s
               else report (LeDisconnected (pc_addr c)) s)
      else (None, s)
  end.

Definition conn_at (addr : SocketAddr) (s : Listener) : option PeerConnection :=
  List.find (fun c => bool_decide (pc_addr c = addr)) (li_conns s).

(** [reply], given whether the datagram could be sent *)
Definition listener_reply (addr : SocketAddr) (e : ProtoEvent) (sent : bool) (s : Listener) : bool * Listener :=
  match conn_at addr s with
  | Some c => if sent then (true, emit_all [LnSent (pc_id c) (datagram e)] s) else (false, s)
  | None => (false, s)
  end.

(** [disconnect] *)
Definition listener_disconnect (addr : SocketAddr) (s : Listener) : Listener :=
  emit_all (map (fun c => LnClosed (pc_id c)) (List.filter (fun c => bool_decide (pc_addr c = addr)) (li_conns s))) s.

(** [broadcast], given to which connections it could be sent *)
Definition listener_broadcast (e : ProtoEvent) (sent : N -> bool) (s : Listener) : Listener :=
  emit_all (map (fun c => LnSent (pc_id c) (datagram e)) (List.filter (fun c => sent (pc_id c)) (li_conns s))) s.

(** [get_certificate_fingerprint] *)
Definition get_certificate_fingerprint (addr : SocketAddr) (s : Listener) : option string :=
  c ← conn_at addr s; cert ← head (pc_certs c); Some (generate_fingerprint cert).

(** [terminate] *)
Definition listener_terminate (s : Listener) : Listener :=
  emit_all (map (fun c => LnClosed (pc_id c)) (li_conns s)) (s <| li_running := false |> <| li_closed := true |>).

(** What can happen.  A port change binds the new port first. *)
Inductive ListenerStep :=
| LnVerify (certs : list (list byte))
| LnAccept (addr : SocketAddr) (certs : list (list byte))
| LnAcceptError (mismatch : bool)
| LnPort (port : N) (bound : bool)
| LnRead (i : nat) (received : option (list byte))
| LnReply (addr : SocketAddr) (e : ProtoEvent) (sent : bool)
| LnDisconnect (addr : SocketAddr)
| LnBroadcast (e : ProtoEvent) (sent : N -> bool)
| LnTerminate
| LnAuthorize (keys : gmap string string).

Definition listener_step (i : ListenerStep) (s : Listener) : Listener :=
  match i with
  | LnVerify certs =>
      if li_running s then
        match verify_peer_certificate certs s with
        | (Panic _, s) => s <| li_running := false |>
        | (_, s) => s
        end
      else s
  | LnAccept addr certs => if li_running s then on_accept addr certs s else s
  | LnAcceptError mismatch => if li_running s then on_accept_error mismatch s else s
  | LnPort port bound =>
      if li_running s then emit_all [LnPortChanged (if bound then inl port else inr tt)] s else s
  | LnRead i received =>
      if li_closed s then s else
      match li_reads s !! i with
      | None => s
      | Some r =>
          let '(r, s') := read_step r received s in
          s' <| li_reads := take i (li_reads s) ++ option_list r ++ drop (S i) (li_reads s) |>
      end
  | LnReply addr e sent => snd (listener_reply addr e sent s)
  | LnDisconnect addr => listener_disconnect addr s
  | LnBroadcast e sent => listener_broadcast e sent s
  | LnTerminate => listener_terminate s
  | LnAuthorize keys => s <| li_authorized := keys |>
  end.
Definition listener_run (steps : list ListenerStep) (s : Listener) : Listener :=
  foldl (fun s i => listener_step i s) s steps.
End listener.
