(* ===== verification/PeerListenTheorems.v ===== *)
(** * Connections from the peers: their theorems

    The connections of the listener and its read loops correspond; what it
    reports of a peer is whether the peer has a connection; rejected peers are
    reported in order; and an event that one side sends is the event that the
    other side reads, whatever the buffer held before. *)

From stdpp Require Import base tactics list gmap sets strings.
From Stdlib Require Import NArith ZArith Lia Strings.Byte Strings.Ascii.
From S2P Require Import Prelude Bytes Domain SwitchGate ProtoWire ProtoWireTheorems CaptureTask Clients ClipTypes ClipTransport ClipTransportTheorems PeerConn PeerListen.

Ltac lf := unfold set in *; cbn [li_authorized li_attempts li_conns li_reads li_next li_running li_closed li_events li_out
  pc_id pc_addr pc_certs read_conn fst snd] in *.

(** ** Datagrams *)

(** An event that was sent as a datagram is decoded from the buffer it is
    received in. *)
Lemma datagram_received e buf : typed_event e -> length buf = MAX_EVENT_SIZE ->
  length (datagram e) <= MAX_EVENT_SIZE /\ length (fill buf (datagram e)) = MAX_EVENT_SIZE
  /\ decode_event (fill buf (datagram e)) = Ret e.
Proof.
  intros Ht Hb. unfold datagram. rewrite encode_wire, take_app_length by done.
  pose proof (layout_length e Ht). pose proof (wire_length e). unfold fill.
  split_and!; [lia|rewrite length_app, length_drop; lia|by apply decode_wire].
Qed.

(** ** Fingerprints *)

Lemma lower_append a b : to_ascii_lowercase (a +:+ b) = to_ascii_lowercase a +:+ to_ascii_lowercase b.
Proof. induction a as [|c a IH]; [done|]. cbn [to_ascii_lowercase String.append]. change (String c a +:+ b) with (String c (a +:+ b)). cbn [to_ascii_lowercase]. rewrite IH. done. Qed.
Lemma lower_hex_char d : (d < 16)%N -> lower (hex_char d) = hex_char d.
Proof.
  intros Hd. unfold lower, hex_char. destruct (N.ltb_spec d 10); rewrite N_ascii_embedding by lia;
    (destruct (_ && _) eqn:E; [|done]); apply andb_true_iff in E as [?%N.leb_le ?%N.leb_le]; lia.
Qed.
Lemma lower_hex_byte b : (b < 256)%N -> to_ascii_lowercase (hex_byte b) = hex_byte b.
Proof.
  intros Hb. unfold hex_byte. cbn [to_ascii_lowercase].
  rewrite !lower_hex_char; [done|by apply N.mod_lt|apply N.Div0.div_lt_upper_bound; lia].
Qed.

Section fingerprints.
Variable sha256 : list byte -> list byte.

(** The fingerprint that the listener compares is the one that the clipboard
    transport prints, and parsing it gives the digest back. *)
Lemma fingerprint_shown cert : generate_fingerprint sha256 cert = fingerprint_display (from_certificate sha256 cert).
Proof.
  unfold generate_fingerprint, from_certificate. induction (sha256 cert) as [|b bs IH]; [done|].
  destruct bs as [|b' bs]; [by apply lower_hex_byte, to_N_lt|].
  change (to_ascii_lowercase (hex_byte (Byte.to_N b) +:+ ":" +:+ String.concat ":" (map (fun b => hex_byte (Byte.to_N b)) (b' :: bs)))
    = hex_byte (Byte.to_N b) +:+ String ":" (fingerprint_display (map Byte.to_N (b' :: bs)))).
  rewrite !lower_append, lower_hex_byte, IH by apply to_N_lt. done.
Qed.

Lemma fingerprint_agrees cert : length (sha256 cert) = 32 ->
  fingerprint_parse (generate_fingerprint sha256 cert) = Ret (from_certificate sha256 cert).
Proof.
  intros Hl. rewrite fingerprint_shown. apply fingerprint_roundtrip; unfold from_certificate.
  - by rewrite length_map.
  - apply Forall_map, Forall_forall. intros b _. apply to_N_lt.
Qed.
End fingerprints.

(** ** Connections, read loops and reports *)

(** The peers that are connected by the reports; [None] if one was reported to
    be gone that was not there. *)
Definition connection_report (peers : option (gset SocketAddr)) (e : ListenEvent) : option (gset SocketAddr) :=
  match peers, e with
  | Some peers, LeAccept addr _ => Some ({[addr]} ∪ peers)
  | Some peers, LeDisconnected addr => if bool_decide (addr ∈ peers) then Some (peers ∖ {[addr]}) else None
  | _, _ => peers
  end.
Definition connected (events : list ListenEvent) : option (gset SocketAddr) := foldl connection_report (Some ∅) events.
Definition addresses (s : Listener) : gset SocketAddr := list_to_set (map pc_addr (li_conns s)).

(** The fingerprints that were reported as rejected, and those that the
    verification refused in a run. *)
Definition rejections (events : list ListenEvent) : list string :=
  omap (fun e => match e with LeRejected f => Some f | _ => None end) events.

Section listener.
Variable sha256 : list byte -> list byte.
Abbreviation listener_step := (listener_step sha256).
Abbreviation listener_run := (listener_run sha256).

Definition refused_by (i : ListenerStep) (s : Listener) : list string :=
  match i with
  | LnVerify [cert] =>
      let f := generate_fingerprint sha256 cert in
      if li_running s && bool_decide (li_authorized s !! f = None) then [f] else []
  | _ => []
  end.
Fixpoint refused (steps : list ListenerStep) (s : Listener) : list string :=
  match steps with
  | [] => []
  | i :: steps => refused_by i s ++ refused steps (listener_step i s)
  end.

(** A connection that is handed out by the library has certificates, and they
    passed the verification. *)
Fixpoint legal_listener (steps : list ListenerStep) (passed : list (list (list byte))) (s : Listener) : Prop :=
  match steps with
  | [] => True
  | i :: steps =>
      match i with LnAccept _ certs => certs ∈ passed | _ => True end
      /\ legal_listener steps
           (match i with
            | LnVerify certs => match fst (verify_peer_certificate sha256 certs s) with Ret _ => certs :: passed | _ => passed end
            | _ => passed
            end) (listener_step i s)
  end.

Record Listening (s : Listener) : Prop := {
  ln_loops : li_conns s ≡ₚ map read_conn (li_reads s);
  ln_fresh : NoDup (map pc_id (li_conns s)) /\ Forall (fun c => pc_id c < li_next s)%N (li_conns s);
  ln_reported : connected (li_events s) = Some (addresses s) }.

Lemma remove_first_split {A} (p : A -> bool) l : existsb p l = true ->
  exists x, p x = true /\ l ≡ₚ x :: remove_first p l.
Proof.
  induction l as [|a l IH]; cbn; [done|]. destruct (p a) eqn:E; [intros _; by exists a|].
  intros (x & Hx & Hl)%IH. exists x. split; [done|]. rewrite Hl at 1. apply Permutation_swap.
Qed.

Lemma connected_snoc events e : connected (events ++ [e]) = connection_report (connected events) e.
Proof. unfold connected. by rewrite foldl_app. Qed.

(** Reports that do not concern connections. *)
Lemma connected_other events e : match e with LeMsg _ _ | LeRejected _ => True | _ => False end ->
  connected (events ++ [e]) = connected events.
Proof. rewrite connected_snoc. destruct e; try done; by destruct (connected events). Qed.

Lemma listening_accept addr certs s : certs <> [] -> Listening s -> Listening (on_accept sha256 addr certs s).
Proof.
  intros Hc [L1 [L2 L3] L4]. unfold on_accept. destruct certs as [|cert certs]; [done|]. cbn [head]. split; lf; unfold report; lf.
  - rewrite map_app. by rewrite L1.
  - split.
    + rewrite map_app. apply NoDup_app. split_and!; [done| |apply NoDup_singleton].
      intros x Hx ->%list_elem_of_singleton. apply list_elem_of_fmap in Hx as (c & E & Hc').
      rewrite Forall_forall in L3. apply L3 in Hc'. cbn in E. lia.
    + apply Forall_app. split; [|repeat constructor; cbn; lia]. eapply Forall_impl; [exact L3|]. cbn. intros. lia.
  - rewrite connected_snoc, L4. cbn. f_equal. unfold addresses. lf. rewrite map_app, list_to_set_app_L. cbn. set_solver.
Qed.

(** The end of a read loop. *)
Lemma listening_end c rest s : li_reads s ≡ₚ RdEnd c :: rest -> Listening s ->
  let '(r, s') := read_step (RdEnd c) None s in r = None /\ Listening (s' <| li_reads := rest |>).
Proof.
  intros Hr [L1 [L2 L3] L4]. cbn [read_step].
  set (same := fun d => bool_decide (pc_addr d = pc_addr c) && (pc_id d =? pc_id c)%N).
  assert (c ∈ li_conns s) as Hin.
  { rewrite L1, Hr. apply list_elem_of_here. }
  assert (existsb same (li_conns s) = true) as Hs.
  { apply existsb_exists. exists c. split; [by apply list_elem_of_In|]. subst same. cbn. by rewrite bool_decide_true, N.eqb_refl. }
  rewrite Hs. split; [done|]. destruct (remove_first_split _ _ Hs) as (d & Hd & Hp). set (left := remove_first same (li_conns s)) in *.
  assert (d = c) as ->.
  { apply andb_true_iff in Hd as [_ Hd%N.eqb_eq].
    assert (d ∈ li_conns s) as Hdin by (rewrite Hp; apply list_elem_of_here).
    apply list_elem_of_lookup in Hin as [k1 K1], Hdin as [k2 K2].
    assert (k1 = k2) as ->; [|congruence].
    eapply (NoDup_lookup (map pc_id (li_conns s))); [exact L2|..]; change (map pc_id (li_conns s)) with (pc_id <$> li_conns s);
      rewrite list_lookup_fmap; [by rewrite K1|by rewrite K2; cbn; f_equal]. }
  assert (left ≡ₚ map read_conn rest) as Hrest.
  { apply (Permutation_cons_inv (a := c)). rewrite <- Hp, L1, Hr. done. }
  assert (NoDup (map pc_id left) /\ Forall (fun c => pc_id c < li_next s)%N left) as Hfresh.
  { rewrite Hp in L2, L3. by apply NoDup_cons in L2 as [_ ?]; apply Forall_cons in L3 as [_ ?]. }
  assert (addresses s = {[pc_addr c]} ∪ list_to_set (map pc_addr left)) as Ha.
  { unfold addresses. rewrite Hp. done. }
  lf. fold left. clearbody left. destruct (existsb (fun d => bool_decide (pc_addr d = pc_addr c)) left) eqn:He; split; unfold report; lf; try done.
  - apply existsb_exists in He as (d & Hd'%list_elem_of_In & E%bool_decide_eq_true).
    rewrite L4, Ha. unfold addresses. lf. f_equal. assert (pc_addr c ∈ map pc_addr left); [|set_solver].
    rewrite <- E. by apply list_elem_of_fmap_2.
  - rewrite connected_snoc, L4, Ha. cbn. rewrite bool_decide_true by set_solver. f_equal. unfold addresses. lf.
    assert (pc_addr c ∉ map pc_addr left); [|set_solver]. intros (d & E & Hd')%list_elem_of_fmap.
    assert (existsb (fun d => bool_decide (pc_addr d = pc_addr c)) left = true) as He'; [|by rewrite He in He'].
    apply existsb_exists. exists d. split; [by apply list_elem_of_In|by rewrite bool_decide_true].
Qed.

(** A change that leaves connections, loops and reports of connections. *)
Lemma listening_frame s s' : li_conns s' = li_conns s -> map read_conn (li_reads s') = map read_conn (li_reads s) ->
  li_next s' = li_next s -> connected (li_events s') = connected (li_events s) -> Listening s -> Listening s'.
Proof. intros E1 E2 E3 E4 [L1 L2 L3]. split; unfold addresses in *; by rewrite ?E1, ?E2, ?E3, ?E4. Qed.

Lemma listening_read i received s : Listening s -> Listening (listener_step (LnRead i received) s).
Proof.
  intros H. cbn [PeerListen.listener_step]. destruct (li_closed s); [done|]. destruct (li_reads s !! i) as [r|] eqn:Hi; [|done].
  assert (li_reads s ≡ₚ r :: take i (li_reads s) ++ drop (S i) (li_reads s)) as Hp.
  { rewrite <- (take_drop_middle _ _ _ Hi) at 1. symmetry. apply Permutation_middle. }
  assert (forall c, map read_conn (take i (li_reads s) ++ [c] ++ drop (S i) (li_reads s)) = map read_conn (li_reads s) <-> read_conn c = read_conn r) as Hmap.
  { intros c. rewrite <- (take_drop_middle _ _ _ Hi) at 3. rewrite !map_app. cbn. split; [|by intros ->].
    intros E%app_inv_head. by injection E. }
  destruct r as [c buf|c].
  - destruct received as [bytes|]; cbn [read_step].
    + destruct (decode_event _) as [e|?|?]; (eapply listening_frame; [..|exact H]); unfold report; lf;
        first [done|by apply Hmap|by apply connected_other].
    + eapply listening_frame; [..|exact H]; lf; try done. by apply Hmap.
  - pose proof (listening_end c _ s Hp H) as He.
    replace (read_step (RdEnd c) received s) with (read_step (RdEnd c) None s) by (by destruct received).
    destruct (read_step (RdEnd c) None s) as [r s']. by destruct He as [-> He].
Qed.

Lemma verify_frame certs s : let s' := snd (verify_peer_certificate sha256 certs s) in
  li_conns s' = li_conns s /\ li_reads s' = li_reads s /\ li_next s' = li_next s /\ li_events s' = li_events s.
Proof. destruct certs as [|cert [|? ?]]; cbn; try done. by destruct (li_authorized s !! _). Qed.

Lemma listening_step i s : match i with LnAccept _ certs => certs <> [] | _ => True end ->
  Listening s -> Listening (listener_step i s).
Proof.
  intros Hi H. destruct i as [certs|addr certs|m|port b|k rcv|addr e b|addr|e f| |keys]; try by apply listening_read.
  all: cbn [PeerListen.listener_step]; try (destruct (li_running s); [|done]).
  - pose proof (verify_frame certs s) as (E1 & E2 & E3 & E4).
    destruct (verify_peer_certificate sha256 certs s) as [[u|u|msg] s']; cbn in *;
      (eapply listening_frame; [..|exact H]; lf; congruence).
  - by apply listening_accept.
  - unfold on_accept_error. destruct m; [|done]. destruct (li_attempts s); [done|].
    eapply listening_frame; [..|exact H]; unfold report; lf; try done. by apply connected_other.
  - by eapply listening_frame; [..|exact H].
  - unfold listener_reply. destruct (conn_at addr s); [destruct b|]; try done. by eapply listening_frame; [..|exact H].
  - by eapply listening_frame; [..|exact H].
  - by eapply listening_frame; [..|exact H].
  - by eapply listening_frame; [..|exact H].
  - by eapply listening_frame; [..|exact H].
Qed.

(** ** Rejected peers *)

Lemma rejections_app es es' : rejections (es ++ es') = rejections es ++ rejections es'.
Proof. apply omap_app. Qed.

Lemma rejections_step i s :
  rejections (li_events (listener_step i s)) ++ li_attempts (listener_step i s)
  = rejections (li_events s) ++ li_attempts s ++ refused_by i s.
Proof.
  destruct i as [certs|addr certs|m|port b|k rcv|addr e b|addr|e f| |keys]; cbn [refused_by];
    rewrite ?app_nil_r; try done; cbn [PeerListen.listener_step].
  - destruct (li_running s); [|by destruct certs as [|? []]; rewrite ?app_nil_r].
    destruct certs as [|cert [|? ?]]; cbn; rewrite ?app_nil_r; try done.
    destruct (li_authorized s !! _) eqn:E; cbn; rewrite ?app_nil_r; done.
  - destruct (li_running s); [|done]. unfold on_accept. destruct (head certs); [|done]. unfold report. lf.
    by rewrite rejections_app, app_nil_r.
  - destruct (li_running s); [|done]. unfold on_accept_error. destruct m; [|done].
    destruct (li_attempts s) eqn:E; [by rewrite E|]. unfold report. lf. rewrite rejections_app. cbn. by rewrite <- app_assoc.
  - by destruct (li_running s).
  - destruct (li_closed s); [done|]. destruct (li_reads s !! k) as [[c buf|c]|]; [|..|done].
    + destruct rcv; cbn [read_step]; [|done]. destruct (decode_event _); try done. unfold report. lf.
      by rewrite rejections_app, app_nil_r.
    + cbn [read_step]. destruct (existsb _ (li_conns s)); [|done]. lf.
      destruct (existsb _ _); unfold report; lf; rewrite ?rejections_app; cbn; by rewrite ?app_nil_r.
  - unfold listener_reply. destruct (conn_at addr s); [destruct b|]; done.
Qed.

Lemma rejections_run steps : forall s,
  rejections (li_events (listener_run steps s)) ++ li_attempts (listener_run steps s)
  = rejections (li_events s) ++ li_attempts s ++ refused steps s.
Proof.
  induction steps as [|i steps IH]; intros s; cbn [refused]; [by rewrite app_nil_r|].
  unfold PeerListen.listener_run in *. cbn [foldl]. rewrite IH, !app_assoc, rejections_step. by rewrite <- !app_assoc.
Qed.

(** ** Runs *)

Lemma passed_nonempty certs s : (exists u, fst (verify_peer_certificate sha256 certs s) = Ret u) ->
  exists cert, certs = [cert] /\ is_Some (li_authorized s !! generate_fingerprint sha256 cert).
Proof.
  intros [u H]. destruct certs as [|cert [|? ?]]; [done| |done]. exists cert. split; [done|].
  cbn in H. destruct (li_authorized s !! _); [by eexists|done].
Qed.

(** The certificates that passed so far, with the keys that authorized them. *)
Definition passed_ok (passed : list (list (list byte))) (done : list ListenerStep) (s0 : Listener) : Prop :=
  forall certs, certs ∈ passed -> exists before after cert, done = before ++ LnVerify certs :: after /\ certs = [cert]
    /\ is_Some (li_authorized (listener_run before s0) !! generate_fingerprint sha256 cert).
Definition accepts_ok (done : list ListenerStep) (s0 s : Listener) : Prop :=
  forall addr f, LeAccept addr f ∈ li_events s -> exists before after cert, done = before ++ LnVerify [cert] :: after
    /\ f = generate_fingerprint sha256 cert /\ is_Some (li_authorized (listener_run before s0) !! f).

Lemma passed_more passed done i s0 : passed_ok passed done s0 -> passed_ok passed (done ++ [i]) s0.
Proof.
  intros H certs (before & after & cert & -> & -> & Ha)%H. exists before, (after ++ [i]), cert. split; [|done].
  by rewrite <- app_assoc.
Qed.

Lemma accepts_step i passed done s0 s : match i with LnAccept _ certs => certs ∈ passed | _ => True end ->
  passed_ok passed done s0 -> accepts_ok done s0 s -> accepts_ok (done ++ [i]) s0 (listener_step i s).
Proof.
  intros Hi Hp Ha.
  assert (accepts_ok (done ++ [i]) s0 s) as Hold.
  { intros addr f (before & after & cert & -> & -> & H)%Ha. exists before, (after ++ [i]), cert. split; [|done].
    by rewrite <- app_assoc. }
  assert (forall es, li_events (listener_step i s) = li_events s ++ es -> (forall a f, LeAccept a f ∉ es) ->
    accepts_ok (done ++ [i]) s0 (listener_step i s)) as Hother.
  { intros es E Hes addr f. rewrite E. intros [H|H]%elem_of_app; [by apply (Hold addr)|by apply Hes in H]. }
  assert (li_events (listener_step i s) = li_events s -> accepts_ok (done ++ [i]) s0 (listener_step i s)) as Hsame.
  { intros E. apply (Hother []); [by rewrite app_nil_r|]. by intros a f ?%elem_of_nil. }
  destruct i as [certs|addr certs|m|port b|k rcv|addr e b|addr|e f| |keys]; cbn [PeerListen.listener_step] in *; try by apply Hsame.
  - apply Hsame. destruct (li_running s); [|done]. pose proof (verify_frame certs s) as (_ & _ & _ & E).
    by destruct (verify_peer_certificate sha256 certs s) as [[]].
  - destruct (li_running s); [|by apply Hsame]. destruct (Hp _ Hi) as (before & after & cert & -> & -> & Hk).
    unfold on_accept. cbn [head]. intros a f. unfold report. lf. intros [H|H%list_elem_of_singleton]%elem_of_app; [by apply (Hold a)|].
    injection H as -> ->. exists before, (after ++ [LnAccept addr [cert]]), cert. split; [by rewrite <- app_assoc|done].
  - destruct (li_running s); [|by apply Hsame]. unfold on_accept_error in *. destruct m; [|by apply Hsame].
    destruct (li_attempts s) as [|f0 q]; [by apply Hsame|]. apply (Hother [LeRejected f0]); [done|].
    intros a f H%list_elem_of_singleton. done.
  - by destruct (li_running s); apply Hsame.
  - destruct (li_closed s); [by apply Hsame|]. destruct (li_reads s !! k) as [[c buf|c]|]; [destruct rcv as [bytes|]| |]; cbn [read_step] in *; try by apply Hsame.
    + destruct (decode_event _) as [e|?|?]; [|by apply Hsame..]. apply (Hother [LeMsg e (pc_addr c)]); [done|].
      by intros a f H%list_elem_of_singleton.
    + destruct (existsb _ (li_conns s)); [|by apply Hsame]. lf. destruct (existsb _ _); [by apply Hsame|].
      apply (Hother [LeDisconnected (pc_addr c)]); [done|]. by intros a f H%list_elem_of_singleton.
  - unfold listener_reply in *. destruct (conn_at addr s); [destruct b|]; by apply Hsame.
Qed.

Lemma listener_run_inv s0 steps : forall passed done s, s = listener_run done s0 -> legal_listener steps passed s ->
  passed_ok passed done s0 -> Listening s -> accepts_ok done s0 s ->
  Listening (listener_run steps s) /\ accepts_ok (done ++ steps) s0 (listener_run steps s).
Proof.
  induction steps as [|i steps IH]; intros passed done s Es Hl Hp Hs Ha; [by rewrite app_nil_r|].
  destruct Hl as [Hi Hl]. replace (done ++ i :: steps) with ((done ++ [i]) ++ steps) by (by rewrite <- app_assoc).
  eapply (IH _ (done ++ [i]) (listener_step i s)); [|exact Hl|..].
  - rewrite Es. unfold PeerListen.listener_run. by rewrite foldl_app.
  - destruct i as [certs| | | | | | | | |]; try by apply passed_more.
    destruct (fst (verify_peer_certificate sha256 certs s)) as [u|?|?] eqn:E; try by apply passed_more.
    intros certs' [->|H]%elem_of_cons; [|by apply (passed_more _ _ _ _ Hp)].
    destruct (passed_nonempty certs s) as (cert & -> & Hk); [by exists u|]. exists done, [], cert. by subst s.
  - apply listening_step; [|done]. destruct i as [|addr certs| | | | | | | |]; try done.
    by destruct (Hp _ Hi) as (_ & _ & cert & _ & -> & _).
  - by eapply accepts_step.
Qed.
End listener.

(** C31: Whatever the order of handshakes, datagrams, errors, replies and changes of
    the authorized keys, as long as the library hands out only connections
    that passed the verification: each connection has exactly one read loop;
    the peers that were reported as connected and not as gone are those that
    have a connection, and none is reported as gone that was not there; every
    peer that was reported as accepted had an authorized certificate when it
    was verified; and the fingerprints reported as rejected are the first of
    those that were refused, in order. *)
Theorem listener_reports sha256 authorized steps :
  legal_listener sha256 steps [] (listener_new authorized) ->
  let s := listener_run sha256 steps (listener_new authorized) in
  li_conns s ≡ₚ map read_conn (li_reads s) /\ NoDup (map pc_id (li_conns s))
  /\ connected (li_events s) = Some (addresses s)
  /\ (forall addr f, LeAccept addr f ∈ li_events s -> exists before after cert, steps = before ++ LnVerify [cert] :: after
        /\ f = generate_fingerprint sha256 cert
        /\ is_Some (li_authorized (listener_run sha256 before (listener_new authorized)) !! f))
  /\ rejections (li_events s) ++ li_attempts s = refused sha256 steps (listener_new authorized).
Proof.
  intros Hl s.
  destruct (listener_run_inv sha256 (listener_new authorized) steps [] [] (listener_new authorized) eq_refl Hl)
    as [[L1 [L2 _] L4] Ha].
  - by intros certs ?%elem_of_nil.
  - by split; [| split; constructor|].
  - by intros addr f ?%elem_of_nil.
  - split_and!; [done..|]. apply (rejections_run sha256 steps (listener_new authorized)).
Qed.

Definition demo_sha (bytes : list byte) : list byte := take 32 (bytes ++ replicate 32 x00).
Definition demo_key : string := generate_fingerprint demo_sha [x01].
Definition demo_listen_steps : list ListenerStep :=
  [LnVerify [[x02]]; LnAcceptError true; LnVerify [[x01]]; LnAccept (mkAddr 7 DEFAULT_PORT) [[x01]];
   LnRead 0 (Some (datagram Ping)); LnRead 0 None; LnRead 0 None].

Lemma listener_reports_witness :
  legal_listener demo_sha demo_listen_steps [] (listener_new {[demo_key := "desk"]})
  /\ li_events (listener_run demo_sha demo_listen_steps (listener_new {[demo_key := "desk"]}))
     = [LeRejected (generate_fingerprint demo_sha [x02]); LeAccept (mkAddr 7 DEFAULT_PORT) demo_key;
        LeMsg Ping (mkAddr 7 DEFAULT_PORT); LeDisconnected (mkAddr 7 DEFAULT_PORT)]
  /\ connected (li_events (listener_run demo_sha demo_listen_steps (listener_new {[demo_key := "desk"]})))
     = Some (addresses (listener_run demo_sha demo_listen_steps (listener_new {[demo_key := "desk"]}))).
Proof.
  assert (legal_listener demo_sha demo_listen_steps [] (listener_new {[demo_key := "desk"]})) as H.
  { vm_compute. repeat split. by apply list_elem_of_here. }
  split; [exact H|]. split; [vm_compute; reflexivity|].
  apply (listener_reports demo_sha {[demo_key := "desk"]} demo_listen_steps H).
Defined.

(** A peer that presents more than one certificate makes the verification fail
    an assertion; the accepting task ends with it, and no peer is accepted from
    then on. *)
Example certificate_chain_stops_listener sha256 authorized a b addr certs :
  let s := listener_run sha256 [LnVerify [a; b]; LnVerify certs; LnAccept addr certs] (listener_new authorized) in
  li_running s = false /\ li_conns s = [] /\ li_events s = [].
Proof. done. Qed.

(** ** From one side to the other *)

(** A read loop that takes datagrams one after the other. *)
Definition read_datagrams (datagrams : list (list byte)) (r : ReadLoop) (s : Listener) : option ReadLoop * Listener :=
  foldl (fun '(r, s) d => match r with Some r => read_step r (Some d) s | None => (None, s) end) (Some r, s) datagrams.

(** C32: What one side sends is what the other side reads: the datagrams of typed
    events, whatever the loop has received before, are reported as these
    events, in order and once each, and the loop goes on. *)
Theorem peer_messages_cross es c : forall buf s,
  Forall typed_event es -> length buf = MAX_EVENT_SIZE ->
  exists buf' s', read_datagrams (map datagram es) (RdRecv c buf) s = (Some (RdRecv c buf'), s')
    /\ length buf' = MAX_EVENT_SIZE
    /\ li_events s' = li_events s ++ map (fun e => LeMsg e (pc_addr c)) es /\ li_conns s' = li_conns s.
Proof.
  unfold read_datagrams. induction es as [|e es IH]; intros buf s Ht Hb.
  - exists buf, s. by rewrite app_nil_r.
  - apply Forall_cons in Ht as [He Ht]. destruct (datagram_received e buf He Hb) as (_ & Hl & Hd).
    cbn [map foldl read_step]. rewrite Hd.
    destruct (IH (fill buf (datagram e)) (report (LeMsg e (pc_addr c)) s) Ht Hl) as (buf' & s' & Hr & Hb' & Hev & Hc).
    exists buf', s'. split; [exact Hr|]. split; [done|]. split; [|done]. rewrite Hev. unfold report. lf. by rewrite <- app_assoc.
Qed.

Lemma peer_messages_cross_witness :
  Forall typed_event [Enter PosLeft; Input (Keyboard (Key 1 30 1)); Readiness true true 5; Ping]
  /\ exists buf' s', read_datagrams (map datagram [Enter PosLeft; Input (Keyboard (Key 1 30 1)); Readiness true true 5; Ping])
       (RdRecv (mkPeerConn 0 (mkAddr 7 DEFAULT_PORT) []) (replicate MAX_EVENT_SIZE xff)) (listener_new ∅) = (Some (RdRecv (mkPeerConn 0 (mkAddr 7 DEFAULT_PORT) []) buf'), s')
     /\ length (li_events s') = 4.
Proof.
  assert (Forall typed_event [Enter PosLeft; Input (Keyboard (Key 1 30 1)); Readiness true true 5; Ping]) as H
    by (repeat constructor).
  split; [exact H|].
  destruct (peer_messages_cross _ (mkPeerConn 0 (mkAddr 7 DEFAULT_PORT) []) (replicate MAX_EVENT_SIZE xff) (listener_new ∅) H eq_refl)
    as (buf' & s' & Hr & _ & He & _).
  exists buf', s'. split; [exact Hr|]. by rewrite He.
Defined.
