(* ===== verification/Dns.v ===== *)
(** * Name resolution (lan-mouse/src/dns.rs)

    The resolver looks up the host name of a client in a task of its own.  A new
    request for a client aborts the lookup before it; an aborted task sends
    nothing.  The lookup itself is the operating system's: its result is an
    input. *)

From stdpp Require Import base tactics list gmap sets strings.
From Stdlib Require Import NArith Lia.
From S2P Require Import Prelude Domain SwitchGate SwitchClient ClipTypes CaptureTask Clients Service.

(** [DnsTask]; [dn_active] has the task that was spawned last for a handle,
    [dn_running] the lookups that go on. *)
Record DnsTask := mkDns {
  dn_active : gmap N N;
  dn_running : gmap N (N * string);
  dn_next : N;
  dn_cancelled : bool;
  dn_events : list DnsEvent }.
#[global] Instance DnsTask_eta : RecordEta DnsTask := fun s =>
  mkDns (dn_active s) (dn_running s) (dn_next s) (dn_cancelled s) (dn_events s).

Definition dns_new : DnsTask := mkDns ∅ ∅ 0 false [].

(** One request in [do_dns] *)
Definition dns_request (handle : N) (hostname : string) (s : DnsTask) : DnsTask :=
  let running := match dn_active s !! handle with Some task => delete task (dn_running s) | None => dn_running s end in
  s <| dn_running := <[dn_next s := (handle, hostname)]> running |>
    <| dn_active ::= <[handle := dn_next s]> |>
    <| dn_next ::= N.succ |>
    <| dn_events ::= fun es => es ++ [DnsResolving handle] |>.

(** The end of a lookup *)
Definition dns_resolved (task : N) (result : option (list IpAddr)) (s : DnsTask) : DnsTask :=
  match dn_running s !! task with
  | Some (handle, hostname) =>
      s <| dn_running ::= delete task |> <| dn_events ::= fun es => es ++ [DnsResolved handle hostname result] |>
  | None => s
  end.

(** [terminate] *)
Definition dns_terminate (s : DnsTask) : DnsTask := s <| dn_cancelled := true |> <| dn_running := ∅ |>.

Inductive DnsStep :=
| DqRequest (handle : N) (hostname : string)
| DqResolved (task : N) (result : option (list IpAddr))
| DqTerminate.
Definition dns_step (i : DnsStep) (s : DnsTask) : DnsTask :=
  match i with
  | DqRequest handle hostname => if dn_cancelled s then s else dns_request handle hostname s
  | DqResolved task result => dns_resolved task result s
  | DqTerminate => dns_terminate s
  end.
Definition dns_run (steps : list DnsStep) : DnsTask := foldl (fun s i => dns_step i s) dns_new steps.

(** ** Answers *)

(** The name that was asked for last, and whether the last event about a client
    says that it is being resolved. *)
Definition last_request (handle : N) (steps : list DnsStep) : option string :=
  foldl (fun r i => match i with DqRequest h name => if (h =? handle)%N then Some name else r | _ => r end) None steps.
Definition resolving (handle : N) (events : list DnsEvent) : bool :=
  foldl (fun r e => match e with
                    | DnsResolving h => if (h =? handle)%N then true else r
                    | DnsResolved h _ _ => if (h =? handle)%N then false else r
                    end) false events.

Lemma last_request_snoc h steps i : last_request h (steps ++ [i])
  = match i with DqRequest h' name => if (h' =? h)%N then Some name else last_request h steps | _ => last_request h steps end.
Proof. unfold last_request. by rewrite foldl_app. Qed.
Lemma resolving_snoc h es e : resolving h (es ++ [e])
  = match e with
    | DnsResolving h' => if (h' =? h)%N then true else resolving h es
    | DnsResolved h' _ _ => if (h' =? h)%N then false else resolving h es
    end.
Proof. unfold resolving. by rewrite foldl_app. Qed.

Record Resolver (steps : list DnsStep) (s : DnsTask) : Prop := {
  dr_active : forall h t, dn_active s !! h = Some t -> (t < dn_next s)%N /\ forall h', dn_active s !! h' = Some t -> h' = h;
  dr_task : forall t h name, dn_running s !! t = Some (h, name) ->
    dn_active s !! h = Some t /\ last_request h steps = Some name;
  dr_cancelled : dn_cancelled s = true -> dn_running s = ∅;
  dr_resolving : dn_cancelled s = false ->
    forall h, resolving h (dn_events s) = true <-> exists t name, dn_running s !! t = Some (h, name) }.

Ltac df := unfold set in *; cbn [dn_active dn_running dn_next dn_cancelled dn_events] in *.

(** Aborting the lookup before takes away exactly the one for this client. *)
Lemma aborted_running h steps s t h' name : Resolver steps s ->
  (match dn_active s !! h with Some t => delete t (dn_running s) | None => dn_running s end) !! t = Some (h', name)
  <-> dn_running s !! t = Some (h', name) /\ h' <> h.
Proof.
  intros [R0 R1 _ _]. destruct (dn_active s !! h) as [t0|] eqn:E.
  - rewrite lookup_delete_Some. split; intros [H1 H2].
    + split; [done|]. intros ->. destruct (R1 _ _ _ H2) as [H3 _]. congruence.
    + split; [|done]. intros ->. destruct (R1 _ _ _ H1) as [H3 _]. by destruct (R0 _ _ H3) as [_ H4]; apply H4 in E.
  - split; [|by intros []]. intros H. split; [done|]. intros ->. destruct (R1 _ _ _ H) as [H3 _]. congruence.
Qed.

Lemma resolver_request h name steps s : dn_cancelled s = false -> Resolver steps s ->
  Resolver (steps ++ [DqRequest h name]) (dns_request h name s).
Proof.
  intros Hc HR. pose proof (aborted_running h steps s) as Hr. destruct HR as [R0 R1 R2 R3].
  assert (forall h' t, dn_active s !! h' = Some t -> t <> dn_next s) as Hfresh by (intros h' t [H _]%R0; lia).
  unfold dns_request. split; df; try congruence.
  - intros h' t [[<- <-]|[Hn H]]%lookup_insert_Some.
    + split; [lia|]. intros h'' [[]|[_ H]]%lookup_insert_Some; [done|]. by apply Hfresh in H.
    + destruct (R0 _ _ H) as [Hlt Hinj]. split; [lia|]. intros h'' [[<- <-]|[_ H']]%lookup_insert_Some; [by apply Hfresh in H|auto].
  - intros t h' n [[<- [= <- <-]]|[Hn [H Hne]%Hr]]%lookup_insert_Some; [|..|by split].
    + by rewrite lookup_insert_eq, last_request_snoc, N.eqb_refl.
    + destruct (R1 _ _ _ H) as [Ha Hl]. rewrite lookup_insert_ne, last_request_snoc by done.
      split; [done|]. by apply not_eq_sym, N.eqb_neq in Hne as ->.
  - intros _ h'. rewrite resolving_snoc. destruct (N.eqb_spec h h') as [<-|Hn].
    + split; [|done]. intros _. exists (dn_next s), name. apply lookup_insert_eq.
    + rewrite (R3 Hc). split; intros (t & n & H).
      * exists t, n. assert (dn_active s !! h' = Some t) as Ha by (by apply (R1 _ _ n)).
        rewrite lookup_insert_ne by (intros E; by apply Hfresh in Ha). apply Hr; [by split|]. by split.
      * apply lookup_insert_Some in H as [[_ [= ? ?]]|[_ H]]; [done|]. apply Hr in H as [H _]; [by exists t, n|by split].
Qed.

Lemma resolver_resolved t r steps s : Resolver steps s -> Resolver (steps ++ [DqResolved t r]) (dns_resolved t r s).
Proof.
  intros [R0 R1 R2 R3]. unfold dns_resolved. destruct (dn_running s !! t) as [[h name]|] eqn:E; split; df; try done.
  - intros t' h' n [_ H]%lookup_delete_Some. rewrite last_request_snoc. by apply R1.
  - intros Hc. rewrite (R2 Hc) in E. done.
  - intros Hc h'. rewrite resolving_snoc. destruct (N.eqb_spec h h') as [<-|Hn].
    + split; [done|]. intros (t' & n & [Hn H]%lookup_delete_Some). destruct (R1 _ _ _ E) as [H1 _], (R1 _ _ _ H) as [H2 _]. congruence.
    + rewrite (R3 Hc). split; intros (t' & n & H); exists t', n; [|by apply lookup_delete_Some in H as []].
      apply lookup_delete_Some. split; [|done]. intros ->. congruence.
  - intros t' h' n H. rewrite last_request_snoc. by apply R1.
Qed.

Lemma resolver_run steps : Resolver steps (dns_run steps).
Proof.
  induction steps as [|i steps IH] using rev_ind; [by split; [..|intros _ h; split; [done|intros (? & ? & ?)]]|].
  unfold dns_run. rewrite foldl_app. cbn [foldl]. fold (dns_run steps). destruct i as [h name|t r|]; cbn [dns_step].
  - destruct (dn_cancelled (dns_run steps)) eqn:Hc; [|by apply resolver_request].
    destruct IH as [R0 R1 R2 R3]. split; [done| |done|congruence]. intros t h' n H. rewrite (R2 Hc) in H. done.
  - by apply resolver_resolved.
  - destruct IH as [R0 R1 R2 R3]. unfold dns_terminate. by split; df.
Qed.

(** In every order of requests and lookups that end: a client is reported as
    being resolved exactly while a lookup goes on for it, there is one such
    lookup, and it is for the name that was asked for last; so an answer that
    is reported ends a resolution and is for the latest name. *)
Theorem resolver_answers_latest steps : let s := dns_run steps in
  (dn_cancelled s = false ->
     forall h, resolving h (dn_events s) = true <-> exists t name, dn_running s !! t = Some (h, name))
  /\ (forall t t' h name name', dn_running s !! t = Some (h, name) -> dn_running s !! t' = Some (h, name') -> t = t')
  /\ (forall t h name r, dn_running s !! t = Some (h, name) ->
        last_request h steps = Some name
        /\ dn_events (dns_step (DqResolved t r) s) = dn_events s ++ [DnsResolved h name r]).
Proof.
  intros s. destruct (resolver_run steps) as [R0 R1 R2 R3]. split_and!; [done|..].
  - intros t t' h n n' [H _]%R1 [H' _]%R1. congruence.
  - intros t h n r H. split; [by apply (R1 t)|]. cbn. unfold dns_resolved. subst s. by rewrite H.
Qed.

(** A lookup is not given up when its client is removed.  Its answer is entered
    for whichever client has the handle then. *)
Example removed_client_lookup :
  let s := dns_run [DqRequest 0 "old.local"; DqResolved 0 (Some [9%N])] in
  dn_events s = [DnsResolving 0; DnsResolved 0 "old.local" (Some [9%N])]
  /\ get_ips 0 (set_dns_ips 0 [9%N] (add_client 0 (snd (remove_client 0 (add_client 0 ∅))))) = Some {[9%N]}.
Proof. vm_compute. done. Qed.
