(* ===== verification/ServicePeers.v ===== *)
(** * The service and the connections

    The service and the connection tasks share the clients.  What the tasks
    record of a peer, the service leaves or forgets; so in every interleaving
    of both, the readiness on which the service builds a lease is backed by a
    connection that is watched. *)

From stdpp Require Import base tactics list gmap sets strings.
From Stdlib Require Import NArith ZArith Lia Strings.Byte.
From S2P Require Import Prelude Bytes Domain SwitchGate SwitchClient ClipTypes Scancode ProtoWire CaptureTask Clients Service ServiceTheorems PeerConn PeerConnTheorems.

(** ** Updates of the clients *)

Lemma keeps_refl m : keeps_peers m m.
Proof. intros h cs E. right. exists cs. eauto. Qed.
Lemma keeps_trans m1 m2 m3 : keeps_peers m1 m2 -> keeps_peers m2 m3 -> keeps_peers m1 m3.
Proof.
  intros H1 H2 h cs3 E3. destruct (H2 _ _ E3) as [?|(cs2 & E2 & A2 & R2)]; [by left|].
  destruct (H1 _ _ E2) as [U1|(cs1 & E1 & A1 & R1)].
  - left. unfold peer_state, unknown, readiness, unready in *. destruct R2; congruence.
  - right. exists cs1. split; [done|]. split; [congruence|]. destruct R2 as [-> |]; auto.
Qed.

Lemma keeps_alter h f m :
  (forall cs, cs_alive (snd (f cs)) = cs_alive (snd cs)
     /\ (readiness (snd (f cs)) = readiness (snd cs) \/ readiness (snd (f cs)) = unready)) ->
  keeps_peers m (update_client h f m).
Proof.
  intros Hf h' cs' E. unfold update_client in E. right. destruct (decide (h = h')) as [<-|Hn].
  - rewrite lookup_alter_eq in E. apply fmap_Some in E as (cs & E & ->). exists cs. by destruct (Hf cs).
  - rewrite lookup_alter_ne in E by done. exists cs'. eauto.
Qed.
Lemma keeps_insert h c s c' s' m : m !! h = Some (c, s) -> cs_alive s' = cs_alive s -> readiness s' = readiness s ->
  keeps_peers m (<[h := (c', s')]> m).
Proof.
  intros E Ha Hr h' cs' [[<- <-]|[_ E']]%lookup_insert_Some; right; [exists (c, s)|exists cs']; eauto.
Qed.
Lemma keeps_fresh h cs m : peer_state (snd cs) = unknown -> keeps_peers m (<[h := cs]> m).
Proof. intros Hu h' cs' [[<- <-]|[_ E']]%lookup_insert_Some; [by left|]. right. exists cs'. eauto. Qed.

Ltac keep_alter := apply keeps_alter; intros []; try (by split; [|left]); try (by split; [|right]);
  repeat case_match; by split; [|left].

Lemma keeps_update_ips h m : keeps_peers m (update_ips h m).
Proof. keep_alter. Qed.
Lemma keeps_hostname h name m : keeps_peers m (snd (set_hostname h name m)).
Proof.
  unfold set_hostname. destruct (m !! h) as [[c s]|] eqn:E; [|apply keeps_refl]. case_match; [|apply keeps_refl]. cbn.
  eapply keeps_trans; [|apply keeps_update_ips]. by eapply keeps_insert.
Qed.
Lemma keeps_add_with_config ip_iter h cc m : keeps_peers m (add_with_config ip_iter h cc m).
Proof.
  unfold add_with_config, set_state, set_config, add_client, update_client. rewrite !alter_insert_eq. by apply keeps_fresh.
Qed.
Create HintDb keeps.
Lemma keeps_deactivate h m : keeps_peers m (snd (deactivate_client h m)).
Proof.
  unfold deactivate_client. destruct (m !! h) as [[c s]|] eqn:E; [|apply keeps_refl]. case_match; [|apply keeps_refl].
  by eapply keeps_insert.
Qed.
Lemma keeps_activate h m : keeps_peers m (snd (activate_client h m)).
Proof.
  unfold activate_client. destruct (m !! h) as [[c s]|] eqn:E; [|apply keeps_refl]. case_match; [|apply keeps_refl].
  by eapply keeps_insert.
Qed.
Lemma keeps_pos h p m : keeps_peers m (snd (set_pos h p m)).
Proof.
  unfold set_pos. destruct (m !! h) as [[c s]|] eqn:E; [|apply keeps_refl]. case_match; [|apply keeps_refl].
  by eapply keeps_insert.
Qed.
Lemma keeps_commit h c m : keeps_peers m (snd (set_peer_commit h c m)).
Proof. rewrite commit_alter. keep_alter. Qed.
Lemma keeps_remove h m : keeps_peers m (snd (remove_client h m)).
Proof. cbn. intros h' cs' [_ E]%lookup_delete_Some. right. exists cs'. eauto. Qed.
Lemma keeps_clear h m : keeps_peers m (clear_peer_readiness h m).
Proof. keep_alter. Qed.
Lemma keeps_fix_ips h ips m : keeps_peers m (set_fix_ips h ips m).
Proof. eapply keeps_trans; [|apply keeps_update_ips]. keep_alter. Qed.
Lemma keeps_dns_ips h ips m : keeps_peers m (set_dns_ips h ips m).
Proof. eapply keeps_trans; [|apply keeps_update_ips]. keep_alter. Qed.
Lemma keeps_port h p m : keeps_peers m (set_port h p m).
Proof. keep_alter. Qed.
Lemma keeps_target h t m : keeps_peers m (set_switch_target h t m).
Proof. keep_alter. Qed.
Lemma keeps_resolving h b m : keeps_peers m (set_resolving h b m).
Proof. keep_alter. Qed.
Lemma keeps_add h m : keeps_peers m (add_client h m).
Proof. by apply keeps_fresh. Qed.
#[export] Hint Resolve keeps_deactivate keeps_activate keeps_pos keeps_commit keeps_remove keeps_clear keeps_fix_ips
  keeps_dns_ips keeps_port keeps_target keeps_resolving keeps_add keeps_hostname keeps_add_with_config : keeps.

(** ** Methods of the service *)

Definition vkeeps {A} (m : svc A) : Prop :=
  forall m0, vspec sv_clients (fun _ => True) (keeps_peers m0) m (fun _ => keeps_peers m0).

Lemma vkeeps_bind {A C} (m : svc A) (f : A -> svc C) : vkeeps m -> (forall a, vkeeps (f a)) -> vkeeps (m ≫= f).
Proof. intros Hm Hf m0. eapply spec_bind; [apply Hm|]. intros a. apply Hf. Qed.
Lemma vkeeps_same {A} (m : svc A) :
  (forall s, match m s with Ret (_, s') => sv_clients s' = sv_clients s | Throw _ => True | Panic msg => True end) -> vkeeps m.
Proof. intros H m0 s Hs. specialize (H s). destruct (m s) as [[a s']|[]|msg]; [|done]. by rewrite H. Qed.
Lemma vkeeps_update f : (forall m, keeps_peers m (f m)) -> vkeeps (update_clients f).
Proof. intros H m0 s Hs. by eapply keeps_trans, H. Qed.
Lemma vkeeps_with {A} (f : Clients -> A * Clients) : (forall m, keeps_peers m (snd (f m))) -> vkeeps (with_clients f).
Proof.
  intros H m0 s Hs. unfold with_clients. rewrite bind_get. specialize (H (sv_clients s)). destruct (f (sv_clients s)) as [a m].
  by eapply keeps_trans, H.
Qed.
Lemma vkeeps_for_each {A} (f : A -> svc unit) l : (forall x, vkeeps (f x)) -> vkeeps (for_each f l).
Proof. intros H. induction l; cbn [for_each]; [by apply vkeeps_same|apply vkeeps_bind; auto]. Qed.

(** Goes through a method: sequences, branches, and the definitions it calls. *)
Ltac vkeep :=
  repeat first
    [ solve [auto 2 with keeps]
    | apply vkeeps_with; intros ?; solve [auto with keeps]
    | apply vkeeps_update; intros ?; solve [auto with keeps]
    | apply vkeeps_bind; [|intros ?]
    | apply vkeeps_for_each; intros ?
    | apply vkeeps_same; intros ?; solve [done]
    | progress cbv zeta
    | match goal with
      | |- vkeeps (match ?x with _ => _ end) => destruct x
      | |- vkeeps ?m => let rec hd t := lazymatch t with ?f _ => hd f | _ => t end in let f := hd m in progress unfold f
      end ].

Section service.
Variable local_commit : list byte.
Variable ip_iter : gset N -> list N.
Variable slab_iter : Clients -> list (N * (ClientConfig * ClientState)).
Variable info_iter : gmap N Incoming -> list (N * Incoming).
Variable instant_max : N.
Variable public_key_fingerprint : string.
Context {ReqError JsonError : Type}.
Variables (req_is_timeout req_is_connect : ReqError -> bool).
Abbreviation ClientError := (SwitchClientError (ReqError:=ReqError) (JsonError:=JsonError)).
Variable error_text : ClientError -> string.

Lemma vkeeps_start kind : vkeeps (start_switch_task kind).
Proof. vkeep. Qed.
Hint Resolve vkeeps_start : keeps.
Lemma vkeeps_fail_context c r d : vkeeps (fail_context_inner local_commit c r d).
Proof. vkeep. Qed.
Hint Resolve vkeeps_fail_context : keeps.
Lemma vkeeps_complete : vkeeps (complete_pending_switch_cleanup local_commit).
Proof. vkeep. Qed.
Hint Resolve vkeeps_complete : keeps.
Lemma vkeeps_change h : vkeeps (handle_peer_readiness_change local_commit h).
Proof. vkeep. Qed.
Hint Resolve vkeeps_change : keeps.
Lemma vkeeps_candidate h rid lid : vkeeps (handle_capture_candidate local_commit instant_max h rid lid).
Proof. vkeep. Qed.
Lemma vkeeps_authorize h l p : vkeeps (authorize_client_enter local_commit h l p).
Proof. vkeep. Qed.
Lemma vkeeps_switch_event e : vkeeps (handle_switch_task_event local_commit req_is_timeout req_is_connect error_text e).
Proof. vkeep. Qed.
Lemma vkeeps_deadline : vkeeps (handle_switch_deadline local_commit).
Proof. vkeep. Qed.
Hint Resolve vkeeps_candidate vkeeps_authorize vkeeps_switch_event vkeeps_deadline : keeps.
Lemma vkeeps_capture_event rid lid w e : vkeeps (service_capture_event local_commit instant_max rid lid w e).
Proof. vkeep. Qed.
Lemma vkeeps_resolver e : vkeeps (handle_resolver_event e).
Proof. vkeep. Qed.
Lemma vkeeps_remove_incoming addr : vkeeps (remove_incoming info_iter addr).
Proof. vkeep. Qed.
Hint Resolve vkeeps_remove_incoming : keeps.
Lemma vkeeps_emulation e : vkeeps (handle_emulation_event local_commit slab_iter info_iter e).
Proof. vkeep. Qed.
Lemma vkeeps_activate_client h : vkeeps (service_activate slab_iter h).
Proof. vkeep. Qed.
Hint Resolve vkeeps_activate_client : keeps.
Lemma vkeeps_frontend key r :
  vkeeps (handle_frontend_request slab_iter public_key_fingerprint key r).
Proof. vkeep. Qed.
Lemma vkeeps_config cfg : vkeeps (handle_config_change local_commit ip_iter slab_iter public_key_fingerprint cfg).
Proof. vkeep. Qed.

Abbreviation service_step := (service_step local_commit ip_iter slab_iter info_iter instant_max public_key_fingerprint
  req_is_timeout req_is_connect error_text).

(** An event of the service leaves what is known of the peers or forgets it. *)
Lemma service_keeps_peers e s s' : (forall u, e <> SvConnection u) -> service_step e s = Ret (tt, s') ->
  keeps_peers (sv_clients s) (sv_clients s').
Proof.
  intros He H.
  assert (vkeeps (service_step e)) as Hk.
  { destruct e as [u|key r|e|rid lid w e|e|e| |cfg]; cbn [Service.service_step]; [by destruct (He u)|..].
    - apply vkeeps_frontend.
    - apply vkeeps_emulation.
    - apply vkeeps_capture_event.
    - apply vkeeps_resolver.
    - apply vkeeps_switch_event.
    - apply vkeeps_deadline.
    - apply vkeeps_config. }
  specialize (Hk (sv_clients s) s (keeps_refl _)). by rewrite H in Hk.
Qed.
(** ** Both together *)

Abbreviation ServiceEvent := (ServiceEvent (ReqError:=ReqError) (JsonError:=JsonError)).
Record Joint := mkJoint { jt_service : Service; jt_peers : Peers }.
Inductive JointStep :=
| JService (e : ServiceEvent)
| JPeer (i : PeerStep).

(** A step of either, after which the other sees the clients; [None] if the
    service panics. *)
Definition joint_step (i : JointStep) (j : Joint) : option Joint :=
  match i with
  | JService e =>
      match service_step e (jt_service j) with
      | Ret (_, s) => Some (mkJoint s (peer_step local_commit ip_iter slab_iter (PsClients (sv_clients s)) (jt_peers j)))
      | Throw _ | Panic _ => None
      end
  | JPeer i =>
      let p := peer_step local_commit ip_iter slab_iter i (jt_peers j) in
      Some (mkJoint ((jt_service j) <| sv_clients := nt_clients (pn_net p) |>) p)
  end.
Definition joint_run (steps : list JointStep) (j : Joint) : option Joint :=
  foldl (fun j i => j ≫= joint_step i) (Some j) steps.
Definition joint_start (s : Service) : Joint := mkJoint s (peers_new (sv_clients s)).

(** Each side makes its own steps, and after those of the service the clients
    have different addresses. *)
Variable owner : SocketAddr -> N.
Definition joint_legal_step (i : JointStep) (j : Joint) : Prop :=
  match i with
  | JService e =>
      (forall u, e <> SvConnection u) /\ forall j', joint_step i j = Some j' -> separate owner (sv_clients (jt_service j'))
  | JPeer (PsClients _) => False
  | JPeer _ => True
  end.
Fixpoint joint_legal (steps : list JointStep) (j : Joint) : Prop :=
  match steps with
  | [] => True
  | i :: steps => joint_legal_step i j /\ forall j', joint_step i j = Some j' -> joint_legal steps j'
  end.

Hypothesis ip_iter_in : forall ips ip, ip ∈ ip_iter ips -> ip ∈ ips.

Record JointInv (j : Joint) : Prop := {
  ji_shared : sv_clients (jt_service j) = nt_clients (pn_net (jt_peers j));
  ji_backed : backed owner (pn_tasks (jt_peers j)) (pn_net (jt_peers j));
  ji_watched : watched_ok (pn_tasks (jt_peers j)) (pn_net (jt_peers j)) }.

Lemma joint_inv_step i j j' : joint_legal_step i j -> joint_step i j = Some j' -> JointInv j -> JointInv j'.
Proof.
  intros Hl H [J1 J2 J3].
  assert (exists i', jt_peers j' = peer_step local_commit ip_iter slab_iter i' (jt_peers j)
    /\ legal_peer_step owner i' (jt_peers j) /\ sv_clients (jt_service j') = nt_clients (pn_net (jt_peers j'))) as (i' & E & Hi & Hs).
  { destruct i as [e|i]; cbn in H.
    - destruct (service_step e (jt_service j)) as [[[] s]|[]|msg] eqn:Es; [|done]. injection H as <-.
      destruct Hl as [He Hsep]. exists (PsClients (sv_clients s)). split; [done|]. split; [|done]. split.
      + eapply (Hsep (mkJoint s (peer_step local_commit ip_iter slab_iter (PsClients (sv_clients s)) (jt_peers j)))).
        unfold joint_step. by rewrite Es.
      + rewrite <- J1. by eapply service_keeps_peers.
    - injection H as <-. exists i. split; [done|]. split; [by destruct i|done]. }
  split; [done|..]; rewrite E; [by apply backed_step|by apply watched_step].
Qed.

Lemma joint_inv_run steps : forall j j', joint_legal steps j -> joint_run steps j = Some j' -> JointInv j -> JointInv j'.
Proof.
  induction steps as [|i steps IH]; intros j j' Hl H Hj; [by injection H as <-|].
  destruct Hl as [Hi Hl]. unfold joint_run in H. cbn [foldl mbind option_bind] in H.
  destruct (joint_step i j) as [j1|] eqn:E.
  - by eapply (IH j1); [apply Hl|exact H|eapply joint_inv_step].
  - exfalso. clear -H. induction steps; cbn in H; [done|auto].
Qed.
End service.

(** C29: in every interleaving of the service and the connection tasks in which
    each address belongs to one client throughout (no two clients have an
    address in common, and neither addresses nor handles pass from one client
    to another, [separate]; [shared_address_sticks] and
    [reused_handle_misdirects] show what happens otherwise): a client that the
    service sees as alive, or with any readiness or session of its peer, has a
    connection to an address of its own, watched by the task that greets the
    peer or by its pings and its receive loop.  The readiness that the service
    sees is none, or the last one that was announced for that client; so an
    input bundle that counts as ready was announced with both inputs and the
    session that the service sees. *)
Theorem ready_peers_connected local_commit ip_iter slab_iter info_iter instant_max public_key_fingerprint {ReqError JsonError}
    (req_is_timeout req_is_connect : ReqError -> bool) error_text owner s steps j h cs :
  (forall ips ip, ip ∈ ip_iter ips -> ip ∈ ips) ->
  separate owner (sv_clients s) -> (forall h cs, sv_clients s !! h = Some cs -> peer_state (snd cs) = unknown) ->
  joint_legal local_commit ip_iter slab_iter info_iter instant_max public_key_fingerprint
    req_is_timeout req_is_connect error_text owner steps (joint_start s) ->
  joint_run (JsonError:=JsonError) local_commit ip_iter slab_iter info_iter instant_max public_key_fingerprint
    req_is_timeout req_is_connect error_text steps (joint_start s) = Some j ->
  sv_clients (jt_service j) !! h = Some cs ->
  let p := jt_peers j in
  (cs_alive (snd cs) = true \/ readiness (snd cs) <> unready ->
     exists a c, owner a = h /\ nt_conns (pn_net p) !! a = Some c /\ watched (pn_tasks p) (mkLink h a c))
  /\ (readiness (snd cs) = announced h (nt_out (pn_net p)) \/ readiness (snd cs) = unready)
  /\ (forall r, readiness_of local_commit h (sv_clients (jt_service j)) = Some r -> pb_ready r = true ->
        cs_alive (snd cs) = true /\ announced h (nt_out (pn_net p)) = (true, true, pb_session_epoch r)).
Proof.
  intros Hip Hsep Hnew Hl Hr E p.
  assert (JointInv owner j) as [J1 [_ B2 B3 B4] Jw].
  { eapply joint_inv_run; [done|exact Hl|exact Hr|]. split; [done| |done].
    split; nf; cbn; try done; intros h' cs' E'.
    - by rewrite (Hnew _ _ E').
    - right. specialize (Hnew _ _ E'). unfold peer_state, unknown, readiness, unready in *. congruence. }
  rewrite J1 in *. split; [|split].
  - intros Hs. destruct (B3 _ _ E) as (a & Ho & [conn Hc]).
    { unfold peer_state, unknown, readiness, unready in *. intros Heq. destruct Hs as [Hs|Hs]; [congruence|].
      apply Hs. congruence. }
    destruct (Jw _ _ Hc) as [h' Hw]. pose proof (watched_owned _ _ _ B2 Hw) as Ho'. cbn in Ho'. exists a, conn. by subst.
  - apply (B4 _ _ E).
  - intros r Hh Hready. unfold readiness_of, peer_input_readiness in Hh. rewrite E in Hh. destruct cs as [c st].
    injection Hh as <-. unfold pb_ready in Hready. cbn in Hready.
    apply andb_true_iff in Hready as [[Ha Hk]%andb_true_iff Hp].
    apply andb_true_iff in Hk as [Hal Hk]. apply andb_true_iff in Hp as [_ Hp].
    destruct (B4 _ _ E) as [Er|Er]; unfold readiness, unready in Er; cbn [snd] in Er; rewrite Hk, Hp in Er; [|done].
    subst p. rewrite <- Er. done.
Qed.

(** ** A run *)

Definition joint_service : Service :=
  service_new elements [(0%N, mkConfigClient {[7%N]} None DEFAULT_PORT ILeft true None)] None DEFAULT_PORT ∅
    (fun _ => 0%N) (fun _ => 0%N) (fun _ => true).
Definition joint_commit : list byte := replicate 8 x07.
Abbreviation empty_event := (Service.ServiceEvent (ReqError:=Empty_set) (JsonError:=Empty_set)).
Definition joint_steps : list (JointStep (ReqError:=Empty_set) (JsonError:=Empty_set)) :=
  JService (SvResolver (DnsResolving 0) : empty_event)
  :: map JPeer (demo_steps ++ heard 1 (Hello joint_commit)).
Abbreviation demo_joint steps j := (joint_run (ReqError:=Empty_set) (JsonError:=Empty_set) joint_commit elements map_to_list map_to_list 0 ""
  (fun _ => false) (fun _ => false) (fun _ => "") steps j).
Abbreviation demo_legal steps j := (joint_legal (ReqError:=Empty_set) (JsonError:=Empty_set) joint_commit elements map_to_list map_to_list 0 ""
  (fun _ => false) (fun _ => false) (fun _ => "") (fun _ => 0%N) steps j).

Lemma peer_steps_legal steps : forall j, Forall (fun i => match i with PsClients _ => False | _ => True end) steps ->
  demo_legal (map JPeer steps) j.
Proof.
  induction steps as [|i steps IH]; intros j H; [done|]. apply Forall_cons in H as [Hi H].
  split; [by destruct i|]. intros j' _. by apply IH.
Qed.

Lemma ready_peers_connected_witness :
  separate (fun _ => 0%N) (sv_clients joint_service)
  /\ demo_legal joint_steps (joint_start joint_service)
  /\ exists j, demo_joint joint_steps (joint_start joint_service) = Some j
     /\ announced 0 (nt_out (pn_net (jt_peers j))) = (true, true, 5%N)
     /\ exists a c, nt_conns (pn_net (jt_peers j)) !! a = Some c /\ watched (pn_tasks (jt_peers j)) (mkLink 0 a c).
Proof.
  assert (forall ips ip, ip ∈ elements (C := gset N) ips -> ip ∈ ips) as H1 by (intros; by apply elem_of_elements).
  assert (exists cs, sv_clients joint_service = {[0%N := cs]} /\ peer_state (snd cs) = unknown /\ cs_active_addr (snd cs) = None)
    as (cs & Ecs & Hu & Ha).
  { eexists. split; [vm_compute; reflexivity|]. by split. }
  assert (separate (fun _ => 0%N) (sv_clients joint_service)) as H2.
  { rewrite Ecs. intros h cs' [<- <-]%lookup_singleton_Some. split; [done|]. by rewrite Ha. }
  assert (forall h cs, sv_clients joint_service !! h = Some cs -> peer_state (snd cs) = unknown) as H3.
  { rewrite Ecs. by intros h cs' [<- <-]%lookup_singleton_Some. }
  assert (demo_legal joint_steps (joint_start joint_service)) as H4.
  { clear H2 H3. revert Ecs. generalize joint_service as sv. intros sv Ecs. split.
    - split; [done|]. intros j' Hj. cbn in Hj. injection Hj as <-. cbn. intros h cs' E.
      unfold set_resolving, update_client in E. rewrite Ecs in E.
      rewrite alter_singleton_eq in E. apply lookup_singleton_Some in E as [<- <-].
      split; [done|]. destruct cs as [c st]. cbn in *. by rewrite Ha.
    - intros j' _. apply peer_steps_legal. cbn [demo_steps connected_at heard app]. repeat constructor. }
  split; [exact H2|]. split; [exact H4|].
  destruct (demo_joint joint_steps (joint_start joint_service)) as [j|] eqn:Ej; [|vm_compute in Ej; discriminate Ej].
  exists j. split; [done|].
  assert (readiness_of joint_commit 0 (sv_clients (jt_service j)) = Some (mkBundleReadiness true true true 5)) as Hr.
  { vm_compute in Ej. injection Ej as <-. vm_compute. reflexivity. }
  destruct (sv_clients (jt_service j) !! 0%N) as [cs'|] eqn:E0.
  2:{ exfalso. unfold readiness_of, peer_input_readiness in Hr. by rewrite E0 in Hr. }
  destruct (ready_peers_connected _ _ _ _ _ _ _ _ _ (fun _ => 0%N) joint_service joint_steps j 0%N cs' H1 H2 H3 H4 Ej E0)
    as (Hconn & _ & Hrd). destruct (Hrd _ Hr eq_refl) as [Hal Hann].
  destruct (Hconn (or_introl Hal)) as (a & c & _ & Hc & Hw).
  split; [exact Hann|]. by exists a, c.
Defined.
