(* ===== verification/LanConfig.v ===== *)
(** * The configuration of lan-mouse (lan-mouse/src/config.rs)

    The configuration file, the arguments that overrule it, the validation of
    the controller and clipboard sections, the clients that are saved and read
    back, and the watch on the file.  TOML and URLs are libraries: parsing and
    printing are parameters.  Whether a call of the file system works is an
    input. *)

From stdpp Require Import base tactics list gmap sets strings sorting.
From Stdlib Require Import NArith ZArith Lia Strings.Byte Strings.Ascii.
From S2P Require Import Prelude Bytes Domain SwitchGate Scancode CaptureTask Clients ClipTypes ClipFrame ClipTransport ClipManager ClipRuntime.

Definition CONFIG_FILE_NAME : string := "config.toml".
Definition CERT_FILE_NAME : string := "lan-mouse.pem".
Definition DEFAULT_CLIPBOARD_MAX_BYTES : N := 3 * 1024 * 1024.

(** [local_commit], for the bytes of the commit that the build recorded *)
Definition local_commit_of (short_commit : list byte) : list byte :=
  take 8 short_commit ++ replicate (8 - length (take 8 short_commit)) x3f.

(** ** Data *)

Inductive CaptureBackend := CbInputCapturePortal | CbLayerShell | CbX11 | CbWindows | CbMacOs | CbDummy.
#[global] Instance CaptureBackend_eq_dec : EqDecision CaptureBackend.
Proof. solve_decision. Defined.
Inductive EmulationBackend := EbWlroots | EbLibei | EbXdp | EbX11 | EbWindows | EbMacOs | EbDummy.
#[global] Instance EmulationBackend_eq_dec : EqDecision EmulationBackend.
Proof. solve_decision. Defined.

Record ClipboardToml := mkClipboardToml { bt_enabled : bool; bt_max_bytes : N }.
#[global] Instance ClipboardToml_eq_dec : EqDecision ClipboardToml.
Proof. solve_decision. Defined.
Definition clipboard_toml_default : ClipboardToml := mkClipboardToml true DEFAULT_CLIPBOARD_MAX_BYTES.

Record SwitchControllerToml := mkControllerToml {
  ct_url : string;
  ct_token : string;
  ct_local_host : SwitchHost;
  ct_server_host : SwitchHost;
  ct_http_timeout_ms : N;
  ct_request_timeout_ms : N;
  ct_poll_interval_ms : N;
  ct_edge_double_tap_ms : N;
  ct_lease_ttl_ms : N;
  ct_renew_interval_ms : N }.
#[global] Instance SwitchControllerToml_eq_dec : EqDecision SwitchControllerToml.
Proof. solve_decision. Defined.

Record TomlClient := mkTomlClient {
  tm_hostname : option string;
  tm_host_name : option string;
  tm_ips : option (list IpAddr);
  tm_port : option N;
  tm_position : option IpcPosition;
  tm_activate_on_startup : option bool;
  tm_switch_target : option SwitchHost }.
#[global] Instance TomlClient_eq_dec : EqDecision TomlClient.
Proof. solve_decision. Defined.

Record ConfigToml := mkConfigToml {
  ft_capture_backend : option CaptureBackend;
  ft_emulation_backend : option EmulationBackend;
  ft_emulation_display : option string;
  ft_port : option N;
  ft_release_bind : option (list Linux);
  ft_cert_path : option string;
  ft_clients : option (list TomlClient);
  ft_authorized_fingerprints : option (gmap string string);
  ft_switch_controller : option SwitchControllerToml;
  ft_clipboard : option ClipboardToml }.
#[global] Instance ConfigToml_eq_dec : EqDecision ConfigToml.
Proof. solve_decision. Defined.
#[global] Instance ConfigToml_eta : RecordEta ConfigToml := fun c =>
  mkConfigToml (ft_capture_backend c) (ft_emulation_backend c) (ft_emulation_display c) (ft_port c) (ft_release_bind c)
    (ft_cert_path c) (ft_clients c) (ft_authorized_fingerprints c) (ft_switch_controller c) (ft_clipboard c).
Definition config_toml_default : ConfigToml :=
  mkConfigToml None None None None None None None None None (Some clipboard_toml_default).

Inductive ConfigError := CfToml | CfIo | CfVar | CfWatcher | CfSwitchController (reason : string) | CfClipboard (reason : string).

(** ** Clients *)

(** [From<TomlClient> for ConfigClient] *)
Definition config_client_of (t : TomlClient) : ConfigClient :=
  mkConfigClient (list_to_set (default [] (tm_ips t))) (tm_hostname t) (default DEFAULT_PORT (tm_port t))
    (default ILeft (tm_position t)) (default false (tm_activate_on_startup t)) (tm_switch_target t).

(** [From<ConfigClient> for TomlClient]; the addresses are sorted. *)
Definition toml_client_of (c : ConfigClient) : TomlClient :=
  mkTomlClient (fc_hostname c) None (Some (merge_sort N.le (elements (fc_ips c))))
    (if (fc_port c =? DEFAULT_PORT)%N then None else Some (fc_port c)) (Some (fc_pos c))
    (if fc_active c then Some true else None) (fc_switch_target c).

(** ** Validation *)

(** [TryFrom<ClipboardToml> for ClipboardConfig] *)
Definition clipboard_try_from (c : ClipboardToml) : exec ConfigError ClipboardConfig :=
  if (bt_max_bytes c =? 0)%N || (usize_max <? bt_max_bytes c + 1)%N || (u64_max <? bt_max_bytes c)%N
  then Throw (CfClipboard "max_bytes must be non-zero and representable by the wire protocol")
  else Ret (mkClipboardConfig (bt_enabled c) (bt_max_bytes c)).

(** What is used of [reqwest::Url]. *)
Class UrlOps (Url : Type) := {
  url_parse : string -> option Url;
  url_scheme : Url -> string;
  url_username : Url -> string;
  url_password : Url -> option string;
  url_query : Url -> option string;
  url_fragment : Url -> option string;
  url_path : Url -> string;
  url_set_path : string -> Url -> Url }.

Fixpoint ends_with_slash (s : string) : bool :=
  match s with
  | EmptyString => false
  | String c EmptyString => Ascii.eqb c "/"
  | String _ s => ends_with_slash s
  end.

Section config.
Context {Url : Type} {HU : UrlOps Url}.

Record SwitchControllerConfig := mkControllerConfig {
  sw_url : Url;
  sw_token : string;
  sw_local_host : SwitchHost;
  sw_server_host : SwitchHost;
  sw_http_timeout_ms : N;
  sw_request_timeout_ms : N;
  sw_poll_interval_ms : N;
  sw_edge_double_tap_ms : N;
  sw_lease_ttl_ms : N;
  sw_renew_interval_ms : N }.

(** [TryFrom<SwitchControllerToml> for SwitchControllerConfig] *)
Definition controller_try_from (c : SwitchControllerToml) : exec ConfigError SwitchControllerConfig :=
  let* url := ok_or (url_parse (ct_url c)) (CfSwitchController "url") in
  let* _ := guard_not (negb (bool_decide (url_scheme url = "http") || bool_decide (url_scheme url = "https"))
      || negb (bool_decide (url_username url = "")) || bool_decide (is_Some (url_password url))
      || bool_decide (is_Some (url_query url)) || bool_decide (is_Some (url_fragment url)))
    (CfSwitchController "url must be an http(s) base URL without credentials, query, or fragment") in
  let url := if ends_with_slash (url_path url) then url else url_set_path (url_path url ++ "/")%string url in
  let* _ := guard_not (bool_decide (ct_token c = "")) (CfSwitchController "token must not be empty") in
  let* _ := guard_not ((ct_http_timeout_ms c =? 0)%N || (ct_request_timeout_ms c =? 0)%N || (ct_poll_interval_ms c =? 0)%N
      || (ct_edge_double_tap_ms c =? 0)%N || (ct_lease_ttl_ms c =? 0)%N || (ct_renew_interval_ms c =? 0)%N)
    (CfSwitchController "all controller timing values must be non-zero") in
  let* _ := guard_not (ct_request_timeout_ms c <? ct_http_timeout_ms c)%N
    (CfSwitchController "http_timeout_ms must not exceed request_timeout_ms") in
  let* _ := guard_not (ct_request_timeout_ms c <=? ct_poll_interval_ms c)%N
    (CfSwitchController "poll_interval_ms must be less than request_timeout_ms") in
  let* _ := guard_not (ct_lease_ttl_ms c <=? ct_request_timeout_ms c)%N
    (CfSwitchController "lease_ttl_ms must exceed request_timeout_ms") in
  let* _ := guard_not (ct_lease_ttl_ms c <=? ct_renew_interval_ms c)%N
    (CfSwitchController "renew_interval_ms must be less than lease_ttl_ms") in
  Ret (mkControllerConfig url (ct_token c) (ct_local_host c) (ct_server_host c) (ct_http_timeout_ms c)
    (ct_request_timeout_ms c) (ct_poll_interval_ms c) (ct_edge_double_tap_ms c) (ct_lease_ttl_ms c) (ct_renew_interval_ms c)).

(** Both sections of a file. *)
Definition validate_sections (c : ConfigToml) : exec ConfigError unit :=
  let* _ := match ft_switch_controller c with Some s => let* _ := controller_try_from s in Ret tt | None => Ret tt end in
  match ft_clipboard c with Some b => let* _ := clipboard_try_from b in Ret tt | None => Ret tt end.

(** ** The configuration *)

Record Args := mkArgs {
  ag_port : option N;
  ag_config : option string;
  ag_capture_backend : option CaptureBackend;
  ag_emulation_backend : option EmulationBackend;
  ag_cert_path : option string }.

(** An event of the watch. *)
Inductive WatchKind := WkCreate | WkModifyData | WkRemove | WkOther.
Record WatchEvent := mkWatchEvent { we_paths : list string; we_kind : WatchKind }.

Record Config := mkConfig {
  cg_args : Args;
  cg_cert_path : string;
  cg_config_path : string;
  cg_config_toml : option ConfigToml;
  cg_watching : bool;               (* the watcher watches the directory *)
  cg_watch_rx : list WatchEvent;    (* the channel of the watcher *)
  cg_file : option string }.        (* the content of the file, if it exists *)
#[global] Instance Config_eta : RecordEta Config := fun c =>
  mkConfig (cg_args c) (cg_cert_path c) (cg_config_path c) (cg_config_toml c) (cg_watching c) (cg_watch_rx c) (cg_file c).

(** [default_path], on Unix, for the values of [XDG_CONFIG_HOME] and [HOME] *)
Definition default_path (xdg_config_home home : option string) : exec ConfigError string :=
  let* home := ok_or home CfVar in
  Ret (default (home ++ "/.config")%string xdg_config_home ++ "/lan-mouse/")%string.

(** A path has a parent if it has a component. *)
Definition has_parent (path : string) : bool := existsb (fun part => negb (bool_decide (part = ""))) (split_at "/" path).

(** [ConfigToml::new] and the deserialization in [read_from_disk] *)
Variable toml_parse : string -> option ConfigToml.
(** [to_string_pretty] *)
Variable toml_print : ConfigToml -> string.

(** [Config::new], for the file that is there; [io] tells whether directory and
    default file can be made, [readable] whether the file can be read, [watch] whether the watch can be set up. *)
Definition config_new (args : Args) (xdg_config_home home : option string) (file : option string) (io readable watch : bool)
  : exec ConfigError Config :=
  let* path := default_path xdg_config_home home in
  let config_path := default (path ++ CONFIG_FILE_NAME)%string (ag_config args) in
  if negb (has_parent config_path) then Panic "config directory" else
  if negb io then Throw CfIo else
  let file := default (toml_print config_toml_default) file in
  let config_toml := if readable then toml_parse file else None in
  let* _ := match config_toml with Some c => validate_sections c | None => Ret tt end in
  let cert_path := match ag_cert_path args, config_toml ≫= ft_cert_path with
                   | Some p, _ => p
                   | None, Some p => p
                   | None, None => (path ++ CERT_FILE_NAME)%string
                   end in
  if negb watch then Throw CfWatcher else
  Ret (mkConfig args cert_path config_path config_toml true [] (Some file)).

(** ** Queries *)

Definition authorized_fingerprints (c : Config) : gmap string string :=
  default ∅ (cg_config_toml c ≫= ft_authorized_fingerprints).
Definition first_of {A} (a b : option A) : option A := match a with Some _ => a | None => b end.
Definition capture_backend (c : Config) : option CaptureBackend :=
  first_of (ag_capture_backend (cg_args c)) (cg_config_toml c ≫= ft_capture_backend).
Definition emulation_backend (c : Config) : option EmulationBackend :=
  first_of (ag_emulation_backend (cg_args c)) (cg_config_toml c ≫= ft_emulation_backend).
Definition emulation_display (c : Config) : option string := cg_config_toml c ≫= ft_emulation_display.
Definition config_port (c : Config) : N := default DEFAULT_PORT (first_of (ag_port (cg_args c)) (cg_config_toml c ≫= ft_port)).
Definition config_clients (c : Config) : list ConfigClient :=
  map config_client_of (default [] (cg_config_toml c ≫= ft_clients)).
Definition DEFAULT_RELEASE_KEYS : list Linux := [L_KeyLeftCtrl; L_KeyLeftShift; L_KeyLeftMeta; L_KeyLeftAlt].
Definition release_bind (c : Config) : list Linux := default DEFAULT_RELEASE_KEYS (cg_config_toml c ≫= ft_release_bind).

(** [Config::switch_controller]; the [expect] is a panic. *)
Definition switch_controller (c : Config) : exec Empty_set (option SwitchControllerConfig) :=
  match cg_config_toml c ≫= ft_switch_controller with
  | None => Ret None
  | Some s => match controller_try_from s with
              | Ret config => Ret (Some config)
              | _ => Panic "switch controller was validated before installation"
              end
  end.

(** [Config::clipboard] *)
Definition config_clipboard (c : Config) : exec Empty_set ClipboardConfig :=
  match clipboard_try_from (default clipboard_toml_default (cg_config_toml c ≫= ft_clipboard)) with
  | Ret config => Ret config
  | _ => Panic "clipboard configuration was validated before installation"
  end.

(** ** Changes *)

(** [set_clients] *)
Definition set_clients (clients : list ConfigClient) (c : Config) : Config :=
  match clients with
  | [] => c
  | _ =>
      let toml := default config_toml_default (cg_config_toml c) in
      c <| cg_config_toml := Some (toml <| ft_clients := Some (map toml_client_of clients) |>) |>
  end.

(** [set_authorized_keys] *)
Definition set_authorized_keys (fingerprints : gmap string string) (c : Config) : Config :=
  let toml := default config_toml_default (cg_config_toml c) in
  c <| cg_config_toml := Some (toml <| ft_authorized_fingerprints := Some fingerprints |>) |>.

(** [read_from_disk]; [None] for an error of the file system *)
Definition read_from_disk (io : bool) (c : Config) : option bool * Config :=
  match cg_file c with
  | Some text =>
      if negb io then (None, c)
      else match toml_parse text with
           | None => (Some false, c)
           | Some current =>
               match validate_sections current with
               | Ret _ =>
                   (Some (negb (bool_decide (cg_config_toml c = Some current))), c <| cg_config_toml := Some current |>)
               | _ => (Some false, c)
               end
           end
  | None => (None, c)
  end.

(** [write_back], and whether it returns [Ok]: the directory or the file could
    not be created, which leaves the file as it was, or not all of the text was
    written.  The directory is watched again only at the end. *)
Inductive WriteOutcome := WoWritten | WoNotCreated | WoPartly (n : nat).
Definition write_back (o : WriteOutcome) (c : Config) : bool * Config :=
  let text := toml_print (default config_toml_default (cg_config_toml c)) in
  let c := c <| cg_watching := false |> in
  match o with
  | WoWritten => (true, c <| cg_file := Some text |> <| cg_watching := true |>)
  | WoNotCreated => (false, c)
  | WoPartly n => (false, c <| cg_file := Some (String.substring 0 n text) |>)
  end.

(** [changed], from one event to the next: [Some] when it returns, with whether
    it returns [Ok]; nothing when the channel is empty. *)
Definition changed (io : bool) (c : Config) : option bool * Config :=
  match cg_watch_rx c with
  | [] => (None, c)
  | e :: rest =>
      let c := c <| cg_watch_rx := rest |> in
      if bool_decide (cg_config_path c ∈ we_paths e) && match we_kind e with WkOther => false | _ => true end
      then match read_from_disk io c with
           | (None, c) => (Some false, c)
           | (Some true, c) => (Some true, c)
           | (Some false, c) => (None, c)
           end
      else (None, c)
  end.

(** What happens to a configuration.  Someone else changes the file; the watcher
    reports it in one or more events if it watches. *)
Inductive ConfigStep :=
| CsSetClients (clients : list ConfigClient)
| CsSetKeys (keys : gmap string string)
| CsRead (io : bool)
| CsWrite (o : WriteOutcome)
| CsChanged (io : bool)
| CsEdited (file : option string) (events : list WatchEvent).
Definition config_step (i : ConfigStep) (c : Config) : Config :=
  match i with
  | CsSetClients clients => set_clients clients c
  | CsSetKeys keys => set_authorized_keys keys c
  | CsRead io => snd (read_from_disk io c)
  | CsWrite o => snd (write_back o c)
  | CsChanged io => snd (changed io c)
  | CsEdited file events =>
      c <| cg_file := file |> <| cg_watch_rx := cg_watch_rx c ++ (if cg_watching c then events else []) |>
  end.
Definition config_run (steps : list ConfigStep) (c : Config) : Config := foldl (fun c i => config_step i c) c steps.

(** [save_config] of the service, when the file is written *)
Definition save (clients : list ConfigClient) (keys : gmap string string) (c : Config) : Config :=
  snd (write_back WoWritten (set_authorized_keys keys (set_clients clients c))).
End config.

(** The field of [Hello] always has its eight bytes. *)
Lemma local_commit_length short_commit : length (local_commit_of short_commit) = 8%nat.
Proof. unfold local_commit_of. rewrite length_app, length_replicate, length_take. lia. Qed.
