(* ===== verification/LanConfigTheorems.v ===== *)
(** * The configuration: only valid sections are installed, what is saved is
      read back, and edits of the file are noticed

    The getters of the controller and clipboard sections [expect] that the
    sections were validated.  [installed_config_valid] shows that they are,
    through every sequence of reads, writes and edits.  [saved_config_restored]
    is the round trip from the clients and settings of the service to those of
    the next start; [edits_noticed] is about the watch on the file. *)

From stdpp Require Import base tactics list gmap sets strings sorting.
From Stdlib Require Import NArith ZArith Lia.
From S2P Require Import Prelude Bytes Domain SwitchGate Scancode CaptureTask Clients ClipTypes ClipFrame ClipTransport ClipManager ClipRuntime Service LanConfig.

(** ** Clients *)

(** A client that is saved is the client that is read. *)
Lemma config_client_of_toml c : config_client_of (toml_client_of c) = c.
Proof.
  destruct c as [ips host port pos active target]. unfold config_client_of, toml_client_of. cbn. f_equal.
  - rewrite merge_sort_Permutation. apply leibniz_equiv, list_to_set_elements.
  - destruct (N.eqb_spec port DEFAULT_PORT) as [-> | ]; done.
  - by destruct active.
Qed.

Lemma config_clients_of_toml clients : map config_client_of (map toml_client_of clients) = clients.
Proof. rewrite map_map. rewrite (map_ext _ id config_client_of_toml). apply map_id. Qed.

(** What is saved of a client is what [add_with_config] makes of it. *)
Lemma config_client_added (ip_iter : gset N -> list N) key cc m :
  (forall X, list_to_set (ip_iter X) = X) ->
  config_client <$> add_with_config ip_iter key cc m !! key = Some cc.
Proof.
  intros Hi. unfold add_with_config, set_state, set_config, add_client, update_client.
  rewrite !alter_insert_eq, lookup_insert_eq. cbn. rewrite Hi. by destruct cc.
Qed.

Lemma add_with_config_other (ip_iter : gset N -> list N) key cc m key' :
  key' <> key -> add_with_config ip_iter key cc m !! key' = m !! key'.
Proof.
  intros Hk. unfold add_with_config, set_state, set_config, add_client, update_client.
  by rewrite !alter_insert_eq, lookup_insert_ne.
Qed.

(** The manager that [Service::new] builds has the configured clients. *)
Lemma clients_added (ip_iter : gset N -> list N) keys clients m i key :
  (forall X, list_to_set (ip_iter X) = X) -> NoDup keys -> length keys = length clients -> keys !! i = Some key ->
  config_client <$> foldl (fun m '(key, cc) => add_with_config ip_iter key cc m) m (zip keys clients) !! key = clients !! i.
Proof.
  intros Hi. revert clients m i. induction keys as [|k keys IH]; intros clients m i Hn Hl Hk; [done|].
  destruct clients as [|cc clients]; [done|]. apply NoDup_cons in Hn as [Hk' Hn]. destruct i as [|i]; cbn in *.
  - injection Hk as ->. cut (forall m', config_client <$> m' !! key = Some cc ->
      config_client <$> foldl (fun m '(key, cc) => add_with_config ip_iter key cc m) m' (zip keys clients) !! key = Some cc).
    { intros H. by apply H, config_client_added. }
    clear IH Hn Hl. revert clients. induction keys as [|k keys IH]; intros clients m' Hm; [done|].
    destruct clients as [|cc' clients]; [done|]. apply not_elem_of_cons in Hk' as [Hne Hk']. cbn.
    apply IH; [done|]. by rewrite add_with_config_other.
  - apply IH; [done|lia|done].
Qed.

Section theorems.
Context {Url : Type} {HU : UrlOps Url}.
Variables (toml_parse : string -> option ConfigToml) (toml_print : ConfigToml -> string).

(** ** Valid sections *)

Definition valid_toml (c : ConfigToml) : Prop := validate_sections c = Ret tt.
#[local] Instance valid_toml_dec t : Decision (valid_toml t).
Proof. unfold valid_toml. destruct (validate_sections t) as [[]| |]; [by left|by right|by right]. Defined.
Definition valid_installed (c : Config) : Prop := match cg_config_toml c with Some t => valid_toml t | None => True end.

(** What the validation of a controller section promises. *)
Definition sound_controller (c : SwitchControllerConfig (Url:=Url)) : Prop :=
  sw_token c <> ""
  /\ (0 < sw_http_timeout_ms c <= sw_request_timeout_ms c)%N
  /\ (0 < sw_poll_interval_ms c < sw_request_timeout_ms c)%N
  /\ (sw_request_timeout_ms c < sw_lease_ttl_ms c)%N
  /\ (0 < sw_renew_interval_ms c < sw_lease_ttl_ms c)%N
  /\ (0 < sw_edge_double_tap_ms c)%N.

Lemma controller_sound t c : controller_try_from t = Ret c -> sound_controller c.
Proof.
  unfold controller_try_from, sound_controller. intros H. invert_exec. simplify_eq. cbn.
  repeat match goal with H : (_ || _)%bool = false |- _ => apply orb_false_iff in H as [??] end.
  rewrite ?N.eqb_neq, ?N.ltb_ge, ?N.leb_gt in *.
  match goal with H : bool_decide (ct_token t = "") = false |- _ => apply bool_decide_eq_false in H end.
  repeat split; try done; lia.
Qed.

Lemma clipboard_sound t c : clipboard_try_from t = Ret c -> (0 < cb_max_bytes c /\ cb_max_bytes c + 1 <= usize_max)%N.
Proof.
  unfold clipboard_try_from. case_match eqn:Hc; [done|]. intros [= <-]. cbn.
  repeat match goal with H : (_ || _)%bool = false |- _ => apply orb_false_iff in H as [??] end.
  rewrite ?N.eqb_neq, ?N.ltb_ge in *. lia.
Qed.

(** Both checks are spelled out by the validation of a file. *)
Lemma valid_toml_sections t :
  valid_toml t <-> (forall s, ft_switch_controller t = Some s -> exists c, controller_try_from s = Ret c)
                   /\ (forall b, ft_clipboard t = Some b -> exists c, clipboard_try_from b = Ret c).
Proof.
  unfold valid_toml, validate_sections. split.
  - intros H. apply exec_bind_Ret in H as ([] & H1 & H2). split.
    + intros s Hs. rewrite Hs in H1. apply exec_bind_Ret in H1 as (c & Hc & _). eauto.
    + intros b Hb. rewrite Hb in H2. apply exec_bind_Ret in H2 as (c & Hc & _). eauto.
  - intros [H1 H2]. destruct (ft_switch_controller t) as [s|]; cbn.
    + destruct (H1 s eq_refl) as [c ->]. cbn. destruct (ft_clipboard t) as [b|]; cbn; [|done].
      by destruct (H2 b eq_refl) as [c' ->].
    + destruct (ft_clipboard t) as [b|]; cbn; [|done]. by destruct (H2 b eq_refl) as [c' ->].
Qed.

Lemma valid_default : valid_toml config_toml_default.
Proof. reflexivity. Qed.

(** The changes of the service leave both sections alone. *)
Lemma valid_with_clients t l : valid_toml (t <| ft_clients := l |>) <-> valid_toml t.
Proof. by destruct t. Qed.
Lemma valid_with_keys t l : valid_toml (t <| ft_authorized_fingerprints := l |>) <-> valid_toml t.
Proof. by destruct t. Qed.

Lemma valid_default_of (c : Config) : valid_installed c -> valid_toml (default config_toml_default (cg_config_toml c)).
Proof. unfold valid_installed. destruct (cg_config_toml c); [done|]. intros _. apply valid_default. Qed.

(** A read installs what the file says if it is valid, and nothing otherwise. *)
Lemma read_spec io c :
  read_from_disk toml_parse io c =
  match cg_file c ≫= (fun text => if io then Some (toml_parse text) else None) with
  | None => (None, c)
  | Some parsed =>
      match parsed with
      | Some t => if bool_decide (valid_toml t)
                  then (Some (negb (bool_decide (cg_config_toml c = Some t))), c <| cg_config_toml := Some t |>)
                  else (Some false, c)
      | None => (Some false, c)
      end
  end.
Proof.
  unfold read_from_disk. destruct (cg_file c) as [text|]; cbn; [|done]. destruct io; cbn; [|done].
  destruct (toml_parse text) as [t|]; [|done]. destruct (decide (valid_toml t)) as [Hv|Hv].
  - rewrite (bool_decide_true (valid_toml t)) by done. by rewrite Hv.
  - rewrite (bool_decide_false (valid_toml t)) by done. unfold valid_toml in Hv. by destruct (validate_sections t) as [[]| |].
Qed.

Lemma read_valid io c : valid_installed c -> valid_installed (snd (read_from_disk toml_parse io c)).
Proof.
  rewrite read_spec. intros H. destruct (_ ≫= _) as [[t|]|]; try done.
  destruct (decide (valid_toml t)); [by rewrite bool_decide_true|by rewrite bool_decide_false].
Qed.

Lemma changed_snd io c :
  snd (changed toml_parse io c) = c
  \/ exists rest, snd (changed toml_parse io c) = c <| cg_watch_rx := rest |>
       \/ snd (changed toml_parse io c) = snd (read_from_disk toml_parse io (c <| cg_watch_rx := rest |>)).
Proof.
  unfold changed. destruct (cg_watch_rx c) as [|e rest]; [by left|]. right. exists rest. cbn -[read_from_disk].
  destruct (_ && _); [|by left]. right. destruct (read_from_disk _ _ _) as [[[]|] c']; done.
Qed.

Lemma step_valid i c : valid_installed c -> valid_installed (config_step toml_parse toml_print i c).
Proof.
  intros Hv. pose proof (valid_default_of c Hv) as Hd. destruct i as [clients|keys|io|o|io|file events]; cbn -[read_from_disk changed].
  - destruct clients; [done|]. unfold valid_installed. cbn. by apply valid_with_clients.
  - unfold valid_installed. cbn. by apply valid_with_keys.
  - by apply read_valid.
  - by destruct o.
  - destruct (changed_snd io c) as [-> | (rest & [-> | ->])]; [done|done|by apply read_valid].
  - done.
Qed.

Lemma run_valid steps c : valid_installed c -> valid_installed (config_run toml_parse toml_print steps c).
Proof. unfold config_run. revert c. induction steps as [|i steps IH]; intros c H; [done|]. cbn. by apply IH, step_valid. Qed.

(** The start: the arguments and the environment decide the path, the file the
    rest. *)
Definition starts (args : Args) (xdg home : option string) : Prop :=
  exists h, home = Some h
    /\ has_parent (default ((default (h ++ "/.config") xdg ++ "/lan-mouse/") ++ CONFIG_FILE_NAME) (ag_config args))%string = true.

Lemma config_new_Ret args xdg home file io readable watch c :
  config_new toml_parse toml_print args xdg home file io readable watch = Ret c ->
  starts args xdg home /\ cg_watching c = true
  /\ valid_installed c.
Proof.
  unfold config_new, default_path, starts, valid_installed. intros H. invert_exec. simplify_eq.
  destruct (has_parent _) eqn:Hp; cbn in *; [|done]. destruct io; cbn in *; [|done]. invert_exec.
  destruct watch; cbn in *; [|done]. simplify_eq. cbn. split; [by eauto|]. split; [done|].
  destruct (if readable then _ else None) as [t|]; [|done]. unfold valid_toml.
  match goal with H : validate_sections t = Ret ?u |- _ => by destruct u end.
Qed.

Lemma config_new_starts args xdg home text t :
  starts args xdg home -> toml_parse text = Some t -> valid_toml t ->
  exists c, config_new toml_parse toml_print args xdg home (Some text) true true true = Ret c /\ cg_config_toml c = Some t.
Proof.
  intros (h & -> & Hp) Ht Hv. unfold config_new, default_path. cbn. rewrite Hp. cbn. rewrite Ht. rewrite Hv. cbn. eauto.
Qed.

(** Of an installed configuration that is valid both getters return. *)
Lemma getters_return c :
  valid_installed c ->
  (exists sc, switch_controller c = Ret sc /\ match sc with Some s => sound_controller s | None => True end)
  /\ exists clip, config_clipboard c = Ret clip /\ (0 < cb_max_bytes clip /\ cb_max_bytes clip + 1 <= usize_max)%N.
Proof.
  intros H. assert (forall t, cg_config_toml c = Some t -> valid_toml t) as Hv.
  { unfold valid_installed in H. intros t Ht. by rewrite Ht in H. }
  unfold switch_controller, config_clipboard. destruct (cg_config_toml c) as [t|]; cbn -[clipboard_try_from];
    [|by split; [by exists None|]; eexists; split; [reflexivity|]; split; vm_compute].
  destruct (proj1 (valid_toml_sections t) (Hv t eq_refl)) as [H1 H2]. split.
  - destruct (ft_switch_controller t) as [s|]; [|by exists None]. destruct (H1 s eq_refl) as [sc Hs]. rewrite Hs.
    exists (Some sc). split; [done|]. by apply controller_sound in Hs.
  - assert (exists clip, clipboard_try_from (default clipboard_toml_default (ft_clipboard t)) = Ret clip) as [clip Hc].
    { destruct (ft_clipboard t) as [b|]; [by apply H2|]. by eexists. }
    rewrite Hc. exists clip. split; [done|]. by apply clipboard_sound in Hc.
Qed.

(** C39: The configuration that is installed is valid, from the start and
    through any sequence of saves, reads, failed writes, edits of the file by
    others and events of the watch: the controller section has a token, its
    request times out before the lease does, each attempt before the request,
    and it polls and renews within them, and the clipboard's limit leaves room
    for the byte that detects an oversized transfer.  The getters, which
    [expect] this, never panic. *)
Theorem installed_config_valid args xdg home file io readable watch c0 steps :
  config_new toml_parse toml_print args xdg home file io readable watch = Ret c0 ->
  let c := config_run toml_parse toml_print steps c0 in
  (exists sc, switch_controller c = Ret sc /\ match sc with Some s => sound_controller s | None => True end)
  /\ exists clip, config_clipboard c = Ret clip /\ (0 < cb_max_bytes clip /\ cb_max_bytes clip + 1 <= usize_max)%N.
Proof. intros H. apply config_new_Ret in H as (_ & _ & H). by apply getters_return, run_valid. Qed.

(** ** What is saved *)

(** The text of a configuration reads as that configuration. *)
Definition round_trips (t : ConfigToml) : Prop := toml_parse (toml_print t) = Some t.

(** The configuration that [save] writes. *)
Definition saved_toml (clients : list ConfigClient) (keys : gmap string string) (c : Config) : ConfigToml :=
  let t := default config_toml_default (cg_config_toml c) in
  t <| ft_clients := match clients with [] => ft_clients t | _ => Some (map toml_client_of clients) end |>
    <| ft_authorized_fingerprints := Some keys |>.

Lemma save_writes clients keys c :
  cg_file (save toml_print clients keys c) = Some (toml_print (saved_toml clients keys c)).
Proof.
  unfold save, write_back, set_authorized_keys, saved_toml. cbn. do 2 f_equal. destruct clients as [|cc clients]; cbn.
  - by destruct (default _ _).
  - done.
Qed.

Lemma saved_valid clients keys c : valid_installed c -> valid_toml (saved_toml clients keys c).
Proof. intros H. apply valid_with_keys, valid_with_clients. by apply valid_default_of. Qed.

(** All that the getters tell of the configuration, but for the clients, the
    keys and the certificate. *)
Definition settings (c : Config) :=
  (cg_config_path c, config_port c, capture_backend c, emulation_backend c, emulation_display c, release_bind c,
   switch_controller c, config_clipboard c).

(** The certificate that the arguments or the file name. *)
Definition named_cert (c : Config) : option string := first_of (ag_cert_path (cg_args c)) (cg_config_toml c ≫= ft_cert_path).

(** What a start takes from the arguments, and nothing changes later. *)
Definition fixed (c : Config) := (cg_args c, cg_cert_path c, cg_config_path c).
Lemma read_fixed io c : fixed (snd (read_from_disk toml_parse io c)) = fixed c.
Proof. rewrite read_spec. repeat case_match; done. Qed.
Lemma run_fixed steps c : fixed (config_run toml_parse toml_print steps c) = fixed c.
Proof.
  unfold config_run. revert c. induction steps as [|i steps IH]; intros c; [done|]. cbn [foldl]. rewrite IH.
  destruct i as [clients|keys|io|o|io|file events]; cbn -[read_from_disk changed]; try done.
  - by destruct clients.
  - apply read_fixed.
  - by destruct o.
  - destruct (changed_snd io c) as [-> | (rest & [-> | ->])]; [done|done|]. by rewrite read_fixed.
Qed.
Lemma config_new_fixed args xdg home file io readable watch c :
  config_new toml_parse toml_print args xdg home file io readable watch = Ret c ->
  exists path, default_path xdg home = Ret path
    /\ fixed c = (args, default (path ++ CERT_FILE_NAME)%string (named_cert c), default (path ++ CONFIG_FILE_NAME)%string (ag_config args))
    /\ cg_args c = args.
Proof.
  unfold config_new. intros H. apply exec_bind_Ret in H as (path & Hp & H). exists path. split; [done|].
  destruct (has_parent _); cbn in H; [|done]. destruct io; cbn in H; [|done]. apply exec_bind_Ret in H as ([] & _ & H).
  destruct watch; cbn in H; [|done]. injection H as <-. split; [|done]. unfold fixed, named_cert. cbn. f_equal. f_equal.
  destruct (ag_cert_path args); [done|]. by destruct (_ ≫= ft_cert_path).
Qed.

(** What is saved differs in the clients and the keys alone. *)
Lemma saved_settings clients keys c c' :
  cg_args c' = cg_args c -> cg_config_path c' = cg_config_path c ->
  cg_config_toml c' = Some (saved_toml clients keys c) -> settings c' = settings c /\ named_cert c' = named_cert c.
Proof.
  intros Ha Hp Ht. unfold settings, named_cert, config_port, capture_backend, emulation_backend, emulation_display, release_bind, switch_controller, config_clipboard.
  rewrite Ha, Hp, Ht. unfold saved_toml. by destruct (cg_config_toml c).
Qed.

(** C40: What the service saves is what it finds at its next start, provided
    that it has a client: the saved file is valid and starts the program again
    under the same arguments, with the clients that were saved, their addresses,
    ports, positions, targets and whether they are active, with the authorized
    keys, and with the same port, backends, display, release keys, controller
    and clipboard; and with the same certificate, unless the file has come to
    name another one since the start.  The manager that [Service::new] builds
    from it would save the same clients again.  Without a client nothing is set
    and the clients of the last save return, see [deleted_client_returns]. *)
Theorem saved_config_restored args xdg home file io readable watch c0 steps
    (slab_iter : gmap N (ClientConfig * ClientState) -> list (N * (ClientConfig * ClientState)))
    (ip_iter : gset N -> list N) (m : gmap N (ClientConfig * ClientState)) (keys : gmap string string) (handles : list N) :
  config_new toml_parse toml_print args xdg home file io readable watch = Ret c0 ->
  (forall X, list_to_set (ip_iter X) = X) ->
  let c := config_run toml_parse toml_print steps c0 in
  let clients := map config_client (all_clients slab_iter m) in
  clients <> [] -> round_trips (saved_toml clients keys c) ->
  NoDup handles -> length handles = length clients ->
  exists c', config_new toml_parse toml_print args xdg home (cg_file (save toml_print clients keys c)) true true true = Ret c'
    /\ config_clients c' = clients /\ authorized_fingerprints c' = keys
    /\ settings c' = settings c
    /\ (named_cert c = named_cert c0 -> cg_cert_path c' = cg_cert_path c)
    /\ forall i h, handles !! i = Some h ->
         config_client <$> foldl (fun m '(key, cc) => add_with_config ip_iter key cc m) ∅ (zip handles (config_clients c')) !! h
         = clients !! i.
Proof.
  intros H0 Hip c clients Hne Hrt Hnd Hlen. destruct (config_new_Ret _ _ _ _ _ _ _ _ H0) as (Hs & _ & Hv).
  destruct (config_new_fixed _ _ _ _ _ _ _ _ H0) as (path & Hpath & F0 & A0).
  assert (valid_installed c) as Hc by by apply run_valid.
  destruct (config_new_starts args xdg home (toml_print (saved_toml clients keys c)) _ Hs Hrt (saved_valid clients keys c Hc))
    as (c' & Hc' & Ht). exists c'. rewrite save_writes. split; [done|].
  assert (config_clients c' = clients) as Hcl.
  { unfold config_clients. rewrite Ht. cbn. destruct clients; [done|]. cbn [default]. apply config_clients_of_toml. }
  split; [done|]. split; [unfold authorized_fingerprints; by rewrite Ht|].
  destruct (config_new_fixed _ _ _ _ _ _ _ _ Hc') as (path' & Hpath' & F1 & A1). rewrite Hpath in Hpath'. injection Hpath' as <-.
  pose proof (run_fixed steps c0) as Fc. fold c in Fc. rewrite F0 in Fc. unfold fixed in Fc, F1. injection Fc as Ac Cc Pc. injection F1 as _ C1 P1.
  destruct (saved_settings clients keys c c') as [Hset Hcert]; [by rewrite Ac, A1|by rewrite Pc, P1|exact Ht|].
  split; [exact Hset|]. split; [intros Hn; by rewrite C1, Cc, Hcert, Hn|]. intros i h Hh. rewrite Hcl. by apply clients_added.
Qed.

(** ** The watch *)

Definition relevant (path : string) (e : WatchEvent) : Prop := path ∈ we_paths e /\ we_kind e <> WkOther.

Definition writes_succeed (i : ConfigStep) : Prop := match i with CsWrite o => o = WoWritten | _ => True end.

Lemma read_keeps io c :
  cg_watching (snd (read_from_disk toml_parse io c)) = cg_watching c
  /\ cg_config_path (snd (read_from_disk toml_parse io c)) = cg_config_path c
  /\ cg_watch_rx (snd (read_from_disk toml_parse io c)) = cg_watch_rx c
  /\ cg_file (snd (read_from_disk toml_parse io c)) = cg_file c.
Proof. rewrite read_spec. repeat case_match; done. Qed.

Lemma step_watching i c :
  writes_succeed i -> cg_watching c = true -> cg_watching (config_step toml_parse toml_print i c) = true.
Proof.
  intros Hw H. destruct i as [clients|keys|io|o|io|f es]; cbn -[read_from_disk changed] in *; try done.
  - by destruct clients.
  - by rewrite (proj1 (read_keeps io c)).
  - by rewrite Hw.
  - destruct (changed_snd io c) as [-> | (rest & [-> | ->])]; [done|done|]. by rewrite (proj1 (read_keeps _ _)).
Qed.

Lemma run_watching steps c :
  Forall writes_succeed steps -> cg_watching c = true -> cg_watching (config_run toml_parse toml_print steps c) = true.
Proof. unfold config_run. intros H. revert c. induction H; intros c Hc; [done|]. cbn. by apply IHForall, step_watching. Qed.

(** With a valid configuration in the file, an event that is about it installs
    that configuration. *)
Lemma changed_event c e rest text t :
  cg_watch_rx c = e :: rest -> cg_file c = Some text -> toml_parse text = Some t -> valid_toml t ->
  snd (changed toml_parse true c)
  = let c := c <| cg_watch_rx := rest |> in
    if bool_decide (cg_config_path c ∈ we_paths e) && match we_kind e with WkOther => false | _ => true end
    then c <| cg_config_toml := Some t |> else c.
Proof.
  intros Hr Hf Ht Hv. unfold changed. rewrite Hr. cbn -[read_from_disk]. destruct (_ && _); [|done].
  rewrite read_spec. cbn. rewrite Hf. cbn. rewrite Ht. rewrite (bool_decide_true (valid_toml t)) by done.
  by destruct (bool_decide (cg_config_toml c = Some t)).
Qed.

Lemma watch_drains events c text t :
  cg_watch_rx c = events -> cg_file c = Some text -> toml_parse text = Some t -> valid_toml t ->
  cg_config_toml c = Some t \/ Exists (relevant (cg_config_path c)) events ->
  cg_config_toml (config_run toml_parse toml_print (replicate (length events) (CsChanged true)) c) = Some t.
Proof.
  revert c. induction events as [|e events IH]; intros c Hr Hf Ht Hv Hx.
  { destruct Hx as [Hx|Hx]; [done|]. by apply Exists_nil in Hx. }
  cbn -[changed]. rewrite (changed_event c e events text t) by done. cbn.
  destruct (bool_decide _ && _) eqn:Hb; apply IH; try done; [by left|].
  destruct Hx as [Hx|Hx]; [by left|]. right. apply Exists_cons in Hx as [[Hp Hk]|Hx]; [|done].
  apply andb_false_iff in Hb as [Hb|Hb]; [by apply bool_decide_eq_false in Hb|]. by destruct (we_kind e).
Qed.

(** An edit of the file is noticed: as long as no write of the program
    itself has failed, the directory is watched, and when someone replaces the
    file by a valid configuration, and the watcher reports that, the events
    that are waiting install the new configuration, whatever came before. *)
Theorem edits_noticed args xdg home file io readable watch c0 steps text t events :
  config_new toml_parse toml_print args xdg home file io readable watch = Ret c0 ->
  Forall writes_succeed steps -> toml_parse text = Some t -> valid_toml t ->
  let c := config_run toml_parse toml_print steps c0 in
  Exists (relevant (cg_config_path c)) events ->
  exists n, cg_config_toml (config_run toml_parse toml_print
              (CsEdited (Some text) events :: replicate n (CsChanged true)) c) = Some t.
Proof.
  intros H0 Hw Ht Hv c Hx. apply config_new_Ret in H0 as (_ & Hwatch & _).
  assert (cg_watching c = true) as Hc by by apply run_watching.
  exists (length (cg_watch_rx c ++ events)). cbn -[changed]. rewrite Hc. apply watch_drains with text; try done.
  right. apply Exists_app. by right.
Qed.
End theorems.

(** ** Three consequences of the way the file is handled *)
Section behaviours.
Context {Url : Type} {HU : UrlOps Url}.
Variables (toml_parse : string -> option ConfigToml) (toml_print : ConfigToml -> string).

(** Without clients nothing is set: the clients of the last save stay in the
    file, and the last client that is deleted is there again after a restart. *)
Lemma last_client_stays keys c clients :
  ft_clients <$> cg_config_toml c = Some clients ->
  ft_clients (saved_toml [] keys c) = clients.
Proof. unfold saved_toml. destruct (cg_config_toml c); cbn; by intros [= <-]. Qed.

(** Without [HOME] there is no start, even if the arguments name every file. *)
Lemma home_required args xdg file io readable watch :
  config_new toml_parse toml_print args xdg None file io readable watch = Throw CfVar.
Proof. done. Qed.

(** A write that fails ends the watch, and no later edit is noticed until the
    next write that succeeds. *)
Lemma failed_write_ends_watch c file events n :
  cg_watch_rx c = [] ->
  cg_config_toml (config_run toml_parse toml_print
    (CsWrite WoNotCreated :: CsEdited file events :: replicate n (CsChanged true)) c) = cg_config_toml c.
Proof.
  intros Hr. cbn. rewrite Hr. cbn.
  cut (forall c', cg_watch_rx c' = [] -> config_run toml_parse toml_print (replicate n (CsChanged true)) c' = c').
  { intros H. unfold config_run in H. rewrite H; done. }
  clear. intros c' Hc. unfold config_run. induction n as [|n IH]; [done|]. cbn -[changed].
  by replace (snd (changed toml_parse true c')) with c' by (unfold changed; by rewrite Hc).
Qed.
End behaviours.

(** ** A concrete configuration *)
Module demo.
(** URLs of hosts, without credentials, query and fragment *)
#[local] Instance host_urls : UrlOps string := {|
  url_parse s := Some s; url_scheme _ := "http"; url_username _ := ""; url_password _ := None;
  url_query _ := None; url_fragment _ := None; url_path _ := "/"; url_set_path _ u := u |}.

Definition controller : SwitchControllerToml :=
  mkControllerToml "http://127.0.0.1:9876" "test-token" Controller Controller 500 2000 100 500 5000 1000.
Definition first_toml : ConfigToml := config_toml_default <| ft_switch_controller := Some controller |>.
Definition client : ClientConfig * ClientState :=
  (mkClientConfig (Some "desk") [7%N; 9%N] 4300 IRight None, client_state_default <| cs_active := true |>).
Definition keys : gmap string string := {[ "ab:cd" := "laptop" ]}.
Definition second_toml : ConfigToml :=
  first_toml <| ft_clients := Some [mkTomlClient (Some "desk") None (Some [7%N; 9%N]) (Some 4300%N) (Some IRight) (Some true) None] |>
    <| ft_authorized_fingerprints := Some keys |>.
(** A file says which of two configurations it holds. *)
Definition parse (text : string) : option ConfigToml :=
  if bool_decide (text = "first") then Some first_toml else if bool_decide (text = "second") then Some second_toml else None.
Definition print (t : ConfigToml) : string :=
  if bool_decide (t = first_toml) then "first" else if bool_decide (t = second_toml) then "second" else "other".
Definition args : Args := mkArgs None None None None None.
Definition started : Config :=
  match config_new parse print args None (Some "/home/me") (Some "first") true true true with
  | Ret c => c
  | _ => mkConfig args "" "" None false [] None
  end.

Lemma starts : config_new parse print args None (Some "/home/me") (Some "first") true true true = Ret started.
Proof. reflexivity. Qed.

Lemma installed_config_valid_witness :
  (exists sc, switch_controller started = Ret sc /\ match sc with Some s => sound_controller s | None => True end)
  /\ exists clip, config_clipboard started = Ret clip /\ (0 < cb_max_bytes clip /\ cb_max_bytes clip + 1 <= usize_max)%N.
Proof. exact (installed_config_valid parse print args None (Some "/home/me") (Some "first") true true true started [] starts). Defined.

Lemma saved_config_restored_witness :
  exists c', config_new parse print args None (Some "/home/me")
      (cg_file (save print [config_client client] keys started)) true true true = Ret c'
    /\ config_clients c' = [config_client client] /\ authorized_fingerprints c' = keys
    /\ settings c' = settings started.
Proof.
  destruct (saved_config_restored parse print args None (Some "/home/me") (Some "first") true true true started []
    map_to_list elements {[ 0%N := client ]} keys [0%N]) as (c' & H1 & H2 & H3 & H4 & _).
  - exact starts.
  - intros X. apply leibniz_equiv, list_to_set_elements.
  - done.
  - vm_compute. reflexivity.
  - apply NoDup_singleton.
  - done.
  - exists c'. done.
Defined.

Lemma edits_noticed_witness :
  exists n, cg_config_toml (config_run parse print
    (CsEdited (Some "second") [mkWatchEvent [cg_config_path started] WkModifyData] :: replicate n (CsChanged true)) started)
  = Some second_toml.
Proof.
  apply (edits_noticed parse print args None (Some "/home/me") (Some "first") true true true started []).
  - exact starts.
  - constructor.
  - reflexivity.
  - reflexivity.
  - left. split; [left|done].
Defined.

(** The client that was deleted is there again. *)
Example deleted_client_returns :
  let c := save print [config_client client] keys started in
  exists c', config_new parse print args None (Some "/home/me") (cg_file (save print [] keys c)) true true true = Ret c'
    /\ config_clients c' = [config_client client].
Proof. eexists. split; vm_compute; reflexivity. Qed.
End demo.
