(* ===== verification/MachineNumbers.v ===== *)
(** * Machine numbers

    Arithmetic of [i32] and [u32] in a checked build, where a result that leaves
    the range is a panic, and floating point numbers. *)

From stdpp Require Import base tactics strings.
From Stdlib Require Import NArith ZArith Lia SpecFloat.
From S2P Require Import Prelude Bytes.

Definition i32_range (z : Z) : bool := ((-2147483648 <=? z) && (z <=? 2147483647))%Z.
Definition i32_arith (what : string) (z : Z) : exec Empty_set Z := if i32_range z then Ret z else Panic what.
Definition i32_add (a b : Z) : exec Empty_set Z := i32_arith "attempt to add with overflow" (a + b).
Definition i32_sub (a b : Z) : exec Empty_set Z := i32_arith "attempt to subtract with overflow" (a - b).
(** [as i32] of a [u32] *)
Definition u32_as_i32 (n : N) : Z := to_signed 4 n.
(** [i32::clamp] *)
Definition i32_clamp (x min max : Z) : exec Empty_set Z :=
  if (min <=? max)%Z then Ret (if (x <? min)%Z then min else if (max <? x)%Z then max else x)
  else Panic "assertion failed: min <= max".
(** [as u32] of an [i32] *)
Definition i32_as_u32 (z : Z) : N := of_signed 4 z.
(** The product of two [u32] *)
Definition u32_mul (a b : N) : exec Empty_set N :=
  if (a * b <=? 4294967295)%N then Ret (a * b)%N else Panic "attempt to multiply with overflow".

Definition small (b z : Z) : Prop := (- b <= z <= b)%Z.

Lemma i32_arith_small what z : small 2147483647 z -> i32_arith what z = Ret z.
Proof. unfold small, i32_arith, i32_range. intros H. by rewrite (proj2 (andb_true_iff _ _)) by lia. Qed.

Lemma i32_as_u32_small z : (0 <= z <= 2147483647)%Z -> i32_as_u32 z = Z.to_N z.
Proof.
  intros H. unfold i32_as_u32, of_signed. change (Z.of_N (256 ^ N.of_nat 4)) with 4294967296%Z. by rewrite Z.mod_small by lia.
Qed.

(** * Floating point numbers

    [f32] and [f64] by their bits, as the wire and the event libraries carry
    them, and as numbers of the IEEE formats, in which the conversions and the
    arithmetic round to nearest even. *)

(** A binary format: the bits of the mantissa and of the exponent *)
Section format.
Variables mant expo : N.
Definition fprec : Z := Z.of_N mant + 1.
Definition femax : Z := 2 ^ (Z.of_N expo - 1).

(** The number of some bits *)
Definition float_of_bits (b : N) : spec_float :=
  let s := N.testbit b (mant + expo) in
  let e := N.land (N.shiftr b mant) (N.ones expo) in
  let m := N.land b (N.ones mant) in
  if (e =? N.ones expo)%N then (if (m =? 0)%N then S754_infinity s else S754_nan) else
  match (if (e =? 0)%N then m else (m + 2 ^ mant)%N) with
  | 0%N => S754_zero s
  | N.pos p => S754_finite s p (Z.max (Z.of_N e) 1 + emin fprec femax - 1)
  end.

(** The bits of a number, the positive quiet one for a NaN *)
Definition bits_of_float (x : spec_float) : N :=
  let sign (s : bool) := (if s then 2 ^ (mant + expo) else 0)%N in
  match x with
  | S754_zero s => sign s
  | S754_infinity s => (sign s + N.shiftl (N.ones expo) mant)%N
  | S754_nan => (N.shiftl (N.ones expo) mant + 2 ^ (mant - 1))%N
  | S754_finite s p e =>
      if (N.pos p <? 2 ^ mant)%N then (sign s + N.pos p)%N
      else (sign s + N.shiftl (Z.to_N (e - emin fprec femax + 1)) mant + (N.pos p - 2 ^ mant))%N
  end.

(** The closest number of the format *)
Definition round_to (x : spec_float) : spec_float :=
  match x with
  | S754_finite s p e => binary_normalize fprec femax (cond_Zopp s (Z.pos p)) e s
  | _ => x
  end.
End format.

Abbreviation f32_of_bits := (float_of_bits 23 8).
Abbreviation bits_of_f32 := (bits_of_float 23 8).
Abbreviation f64_of_bits := (float_of_bits 52 11).
Abbreviation bits_of_f64 := (bits_of_float 52 11).

(** [as f64] of an [f32], [as f32] of an [f64] *)
Definition f32_as_f64 (b : N) : N := bits_of_f64 (round_to 52 11 (f32_of_bits b)).
Definition f64_as_f32 (b : N) : N := bits_of_f32 (round_to 23 8 (f64_of_bits b)).
(** [as f32], [as f64] of an integer *)
Definition z_as_f32 (z : Z) : spec_float := binary_normalize 24 128 z 0 false.
Definition z_as_f64 (z : Z) : spec_float := binary_normalize 53 1024 z 0 false.
(** [as i32] of a float: towards zero, at the bounds where it is out of range *)
Definition float_as_i32 (x : spec_float) : Z :=
  match x with
  | S754_nan | S754_zero _ => 0
  | S754_infinity s => if s then -2147483648 else 2147483647
  | S754_finite s p e =>
      let m := if (e <? 0)%Z then (Z.pos p / 2 ^ (- e))%Z else (Z.pos p * 2 ^ e)%Z in
      Z.max (-2147483648) (Z.min 2147483647 (cond_Zopp s m))
  end.
(** [== 0.0] on bits *)
Definition f_is_zero (x : spec_float) : bool := match x with S754_zero _ => true | _ => false end.

(** The operations of [f32] *)
Definition f32_add := SFadd 24 128.
Definition f32_sub := SFsub 24 128.
Definition f32_mul := SFmul 24 128.
Definition f32_div := SFdiv 24 128.
Definition f32_sqrt := SFsqrt 24 128.

Example one_and_a_half : f32_as_f64 1069547520 = 4609434218613702656%N /\ f64_as_f32 4609434218613702656 = 1069547520%N.
Proof. by vm_compute. Qed.
Example tenth : f64_as_f32 4591870180066957722 = 1036831949%N.
Proof. by vm_compute. Qed.
Example smallest : f32_as_f64 1 = 3936146074321813504%N /\ f64_as_f32 3936146074321813504 = 1%N.
Proof. by vm_compute. Qed.
Example too_large : f64_as_f32 9218868437227405311 = 2139095040%N.
Proof. by vm_compute. Qed.
