(* ===== verification/WindowsCapture.v ===== *)
(** * Capture on Windows (input-capture/src/windows.rs, windows/event_thread.rs,
      windows/display_util.rs)

    A thread with two low-level hooks decides for every mouse and keyboard event
    whether the system sees it or the event goes to the peer at an edge of the
    desktop.  The thread-local cells of the source are the fields of one state;
    the calls of the capture task reach the thread through buffers and posted
    messages.  The messages of the system are data types with the constants the
    code distinguishes; what the system answers about displays is an input.

    Coordinates are 32-bit integers: arithmetic that leaves the range is a
    panic. *)

From stdpp Require Import base tactics list gmap sets strings.
From Stdlib Require Import NArith ZArith Lia.
From S2P Require Import Prelude Bytes MachineNumbers ProtoWire Scancode CaptureQueue InputCapture.

(** ** Floating point numbers *)

(** [as f64] of an [i32], which is exact: the bits of the number *)
Definition f64_of_i32 (z : Z) : N :=
  if (z =? 0)%Z then 0%N
  else
    let m := Z.abs_N z in
    let e := N.log2 m in
    ((if (z <? 0)%Z then N.shiftl 1 63 else 0) + N.shiftl (1023 + e) 52 + N.shiftl (m - N.shiftl 1 e) (52 - e))%N.

(** ** display_util.rs *)

Record RECT := mkRect { r_left : Z; r_right : Z; r_top : Z; r_bottom : Z }.
#[global] Instance RECT_eq_dec : EqDecision RECT.
Proof. solve_decision. Defined.

Abbreviation point := (Z * Z)%type (only parsing).
Definition sides : list CapturePosition := [CLeft; CRight; CTop; CBottom].

Definition is_within_dp_boundary (p : point) (display : RECT) (pos : CapturePosition) : bool :=
  let '(x, y) := p in
  match pos with
  | CLeft => (r_left display <=? x)%Z
  | CRight => (x <? r_right display)%Z
  | CTop => (r_top display <=? y)%Z
  | CBottom => (y <? r_bottom display)%Z
  end.
Definition is_within_dp_region (p : point) (display : RECT) : bool := forallb (is_within_dp_boundary p display) sides.
Definition in_bounds (p : point) (displays : list RECT) (pos : CapturePosition) : bool :=
  existsb (fun d => is_within_dp_boundary p d pos) displays.
Definition in_display_region (p : point) (displays : list RECT) : bool := existsb (is_within_dp_region p) displays.
Definition moved_across_boundary (prev_pos curr_pos : point) (displays : list RECT) (pos : CapturePosition) : bool :=
  in_display_region prev_pos displays && negb (in_bounds curr_pos displays pos).
Definition entered_barrier (prev_pos curr_pos : point) (displays : list RECT) : option CapturePosition :=
  List.find (moved_across_boundary prev_pos curr_pos displays) sides.

Definition clamp_to_display_bounds (display_regions : list RECT) (prev_point p : point) : exec Empty_set point :=
  let* display := expect (List.find (is_within_dp_region prev_point) display_regions)
    "called `Option::unwrap()` on a `None` value" in
  let '(x, y) := p in
  let* max_x := i32_sub (r_right display) 1 in
  let* max_y := i32_sub (r_bottom display) 1 in
  let* x := i32_clamp x (r_left display) max_x in
  let* y := i32_clamp y (r_top display) max_y in
  Ret (x, y).

(** ** Messages of the system *)

(** The [wparam] of a mouse hook *)
Inductive MouseMessage :=
| WmMouseMove
| WmLButtonDown | WmLButtonUp
| WmMButtonDown | WmMButtonUp
| WmRButtonDown | WmRButtonUp
| WmMouseWheel | WmMouseHWheel
| WmXButtonDown | WmXButtonUp
| WmOtherMouse.
#[global] Instance MouseMessage_eq_dec : EqDecision MouseMessage.
Proof. solve_decision. Defined.

(** [MSLLHOOKSTRUCT]; of the flags only [LLMHF_INJECTED] is read *)
Record MouseData := mkMouse {
  ml_pt : point;
  ml_mouseData : N;
  ml_injected : bool;
  ml_dwExtraInfo : N }.

(** The [wparam] of a keyboard hook, and [KBDLLHOOKSTRUCT] with the flags that
    are read *)
Inductive KeyMessage := WmKeyDown | WmKeyUp | WmSysKeyDown | WmSysKeyUp | WmOtherKey.
Record KeyData := mkKeyData { kb_scanCode : N; kb_extended : bool; kb_injected : bool }.

(** The position and size in a [DEVMODEW] *)
Record DevMode := mkDevMode { dm_x : Z; dm_y : Z; dm_width : N; dm_height : N }.

(** What a hook returns: the event goes on to the next hook, or ends here. *)
Inductive LRESULT := CallNextHook | Swallowed.
#[global] Instance LRESULT_eq_dec : EqDecision LRESULT.
Proof. solve_decision. Defined.

(** ** event_thread.rs *)

Definition EDGE_REARM_DISTANCE : Z := 3.
Definition BTN_LEFT : N := 0x110.
Definition BTN_RIGHT : N := 0x111.
Definition BTN_MIDDLE : N := 0x112.
Definition BTN_BACK : N := 0x113.
Definition BTN_FORWARD : N := 0x114.
Definition LAN_MOUSE_WINDOWS_EXTRA_INFO : N := 0x4c414e4d.

Inductive RequestType := RqClientUpdate | RqRelease | RqResumeIfFocused | RqExit.
Inductive ClientUpdate := CuCreate (pos : CapturePosition) | CuDestroy (pos : CapturePosition).

(** The thread-local cells, the queue, the shared buffers, the posted messages,
    and what the system would answer about its displays.  A waiter is a number
    that stands for its channel; [wn_answers] has what was sent to the waiters,
    [wn_log] the events that were queued. *)
Record Win := mkWin {
  wn_clients : gset CapturePosition;
  wn_active : option CapturePosition;
  wn_rearm : option CapturePosition;
  wn_queue : QueueState;
  wn_entry : point;
  wn_prev : option point;
  wn_displays : list RECT;
  wn_generation : Z;
  wn_resolution_generation : Z;
  wn_modes : list DevMode;
  wn_request_buffer : list ClientUpdate;
  wn_release_waiters : list N;
  wn_resume_requests : list (CapturePosition * N);
  wn_messages : list RequestType;
  wn_running : bool;
  wn_answers : list (N * bool);
  wn_log : list (CapturePosition * CaptureEvent) }.
#[global] Instance Win_eta : RecordEta Win := fun s =>
  mkWin (wn_clients s) (wn_active s) (wn_rearm s) (wn_queue s) (wn_entry s) (wn_prev s) (wn_displays s) (wn_generation s)
    (wn_resolution_generation s) (wn_modes s) (wn_request_buffer s) (wn_release_waiters s) (wn_resume_requests s)
    (wn_messages s) (wn_running s) (wn_answers s) (wn_log s).

(** [EventThread::new], when the thread has started *)
Definition win_new (modes : list DevMode) : Win :=
  mkWin ∅ None None queue_new (0, 0)%Z None [] 0 1 modes [] [] [] [] true [] [].

(** [send_event] *)
Definition send_event (pos : CapturePosition) (event : CaptureEvent) (s : Win) : exec Empty_set (PushOutcome * Win) :=
  let* (outcome, queue) := queue_push pos event (wn_queue s) in
  let s := s <| wn_queue := queue |> in
  Ret (outcome, match outcome with PushQueued => s <| wn_log ::= fun l => l ++ [(pos, event)] |> | PushOverflow => s end).

(** [enumerate_displays] *)
Definition display_rect (m : DevMode) : exec Empty_set RECT :=
  let* x' := i32_add (dm_x m) (u32_as_i32 (dm_width m)) in
  let* y' := i32_add (dm_y m) (u32_as_i32 (dm_height m)) in
  Ret (mkRect (dm_x m) x' (dm_y m) y').
Fixpoint enumerate_displays (modes : list DevMode) : exec Empty_set (list RECT) :=
  match modes with
  | [] => Ret []
  | m :: modes =>
      let* r := display_rect m in
      let* rs := enumerate_displays modes in
      Ret (r :: rs)
  end.

(** [update_display_regions] *)
Definition update_display_regions (s : Win) : exec Empty_set Win :=
  if (wn_generation s =? wn_resolution_generation s)%Z then Ret s
  else
    let* displays := enumerate_displays (wn_modes s) in
    Ret (s <| wn_displays := displays |> <| wn_generation := wn_resolution_generation s |>).

(** [edge_retreat_observed] *)
Definition edge_retreat_observed (position : CapturePosition) (entry previous current : point) : exec Empty_set bool :=
  match position with
  | CLeft => let* e := i32_add (fst entry) EDGE_REARM_DISTANCE in Ret ((e <=? fst current) && (fst previous <? fst current))%Z
  | CRight => let* e := i32_sub (fst entry) EDGE_REARM_DISTANCE in Ret ((fst current <=? e) && (fst current <? fst previous))%Z
  | CTop => let* e := i32_add (snd entry) EDGE_REARM_DISTANCE in Ret ((e <=? snd current) && (snd previous <? snd current))%Z
  | CBottom => let* e := i32_sub (snd entry) EDGE_REARM_DISTANCE in Ret ((snd current <=? e) && (snd current <? snd previous))%Z
  end.

(** [check_client_activation] *)
Definition check_client_activation (wparam : MouseMessage) (mouse : MouseData) (s : Win) : exec Empty_set (bool * Win) :=
  if negb (bool_decide (wparam = WmMouseMove)) then Ret (bool_decide (is_Some (wn_active s)), s)
  else
    let curr_pos := ml_pt mouse in
    let prev_pos := default curr_pos (wn_prev s) in
    let s := s <| wn_prev := Some curr_pos |> in
    match wn_active s with
    | Some _ => Ret (true, s)
    | None =>
        match wn_rearm s with
        | Some pos =>
            let* retreated := edge_retreat_observed pos (wn_entry s) prev_pos curr_pos in
            if retreated then
              let* (outcome, s) := send_event pos EdgeRetreated s in
              Ret (false, match outcome with PushQueued => s <| wn_rearm := None |> | PushOverflow => s end)
            else Ret (false, s)
        | None =>
            let* s := update_display_regions s in
            match entered_barrier prev_pos curr_pos (wn_displays s) with
            | None => Ret (false, s)
            | Some pos =>
                if negb (bool_decide (pos ∈ wn_clients s)) then Ret (false, s)
                else
                  let s := s <| wn_active := Some pos |> in
                  let* entry_point := clamp_to_display_bounds (wn_displays s) prev_pos curr_pos in
                  let s := s <| wn_entry := entry_point |> in
                  let* (outcome, s) := send_event pos Begin s in
                  Ret (false, match outcome with PushOverflow => s <| wn_active := None |> | PushQueued => s end)
            end
        end
    end.

(** [to_mouse_event] *)
Definition to_mouse_event (wparam : MouseMessage) (mouse : MouseData) (s : Win) : exec Empty_set (option PointerEvent) :=
  let button b state := Ret (Some (Button 0 b state)) in
  match wparam with
  | WmLButtonDown => button BTN_LEFT 1%N
  | WmMButtonDown => button BTN_MIDDLE 1%N
  | WmRButtonDown => button BTN_RIGHT 1%N
  | WmLButtonUp => button BTN_LEFT 0%N
  | WmMButtonUp => button BTN_MIDDLE 0%N
  | WmRButtonUp => button BTN_RIGHT 0%N
  | WmMouseMove =>
      let* dx := i32_sub (fst (ml_pt mouse)) (fst (wn_entry s)) in
      let* dy := i32_sub (snd (ml_pt mouse)) (snd (wn_entry s)) in
      Ret (Some (Motion 0 (f64_of_i32 dx) (f64_of_i32 dy)))
  | WmMouseWheel => Ret (Some (AxisDiscrete120 0 (- Z.shiftr (u32_as_i32 (ml_mouseData mouse)) 16)%Z))
  | WmXButtonDown | WmXButtonUp =>
      let state := if bool_decide (wparam = WmXButtonDown) then 1%N else 0%N in
      match N.shiftr (ml_mouseData mouse) 16 with
      | 1%N => button BTN_BACK state
      | 2%N => button BTN_FORWARD state
      | _ => Ret None
      end
  | WmMouseHWheel => Ret (Some (AxisDiscrete120 1 (Z.shiftr (u32_as_i32 (ml_mouseData mouse)) 16)))
  | WmOtherMouse => Ret None
  end.

(** [to_key_event] *)
Definition to_key_event (wparam : KeyMessage) (keyboard : KeyData) : option KeyboardEvent :=
  let scan_code := if kb_extended keyboard then N.lor (kb_scanCode keyboard) 0xE000 else kb_scanCode keyboard in
  win_scan_code ← windows_try_from scan_code;
  linux_scan_code ← linux_of_windows win_scan_code;
  match wparam with
  | WmKeyDown | WmSysKeyDown => Some (Key 0 (linux_code linux_scan_code) 1)
  | WmKeyUp | WmSysKeyUp => Some (Key 0 (linux_code linux_scan_code) 0)
  | WmOtherKey => None
  end.

(** [is_lan_mouse_injected_motion] *)
Definition is_lan_mouse_injected_motion (wparam : MouseMessage) (mouse : MouseData) : bool :=
  bool_decide (wparam = WmMouseMove) && ml_injected mouse && (ml_dwExtraInfo mouse =? LAN_MOUSE_WINDOWS_EXTRA_INFO)%N.

(** [mouse_proc] *)
Definition mouse_proc (ncode : Z) (wparam : MouseMessage) (mouse : MouseData) (s : Win) : exec Empty_set (LRESULT * Win) :=
  if (ncode <? 0)%Z then Ret (CallNextHook, s)
  else if ml_injected mouse then
    if is_lan_mouse_injected_motion wparam mouse then
      let* (_, s) := check_client_activation wparam mouse s in
      Ret (CallNextHook, s)
    else Ret (CallNextHook, s)
  else
    let* (active, s) := check_client_activation wparam mouse s in
    if negb active then Ret (CallNextHook, s)
    else match wn_active s with
         | None => Ret (Swallowed, s)
         | Some pos =>
             let* e := to_mouse_event wparam mouse s in
             match e with
             | None => Ret (Swallowed, s)
             | Some pointer_event =>
                 let* (outcome, s) := send_event pos (CInput (Pointer pointer_event)) s in
                 match outcome with
                 | PushOverflow => Ret (CallNextHook, s <| wn_active := None |>)
                 | PushQueued => Ret (Swallowed, s)
                 end
             end
         end.

(** [kybrd_proc] *)
Definition kybrd_proc (ncode : Z) (wparam : KeyMessage) (keyboard : KeyData) (s : Win) : exec Empty_set (LRESULT * Win) :=
  if (ncode <? 0)%Z then Ret (CallNextHook, s)
  else if kb_injected keyboard then Ret (CallNextHook, s)
  else match wn_active s with
       | None => Ret (CallNextHook, s)
       | Some client =>
           match to_key_event wparam keyboard with
           | None => Ret (Swallowed, s)
           | Some key_event =>
               let* (outcome, s) := send_event client (CInput (Keyboard key_event)) s in
               match outcome with
               | PushOverflow => Ret (CallNextHook, s <| wn_active := None |>)
               | PushQueued => Ret (Swallowed, s)
               end
           end
       end.

(** [update_clients] *)
Definition update_clients (request : ClientUpdate) (s : Win) : Win :=
  match request with
  | CuCreate pos => s <| wn_clients ::= fun c => {[pos]} ∪ c |>
  | CuDestroy pos =>
      let s := if bool_decide (wn_active s = Some pos) then s <| wn_active := None |> else s in
      let s := if bool_decide (wn_rearm s = Some pos) then s <| wn_rearm := None |> else s in
      s <| wn_clients ::= fun c => c ∖ {[pos]} |>
  end.

(** One request to resume in the message loop *)
Definition resume_request (request : CapturePosition * N) (s : Win) : exec Empty_set Win :=
  let '(pos, completion) := request in
  let* (resumed, s) :=
    if bool_decide (wn_active s = None) && bool_decide (wn_rearm s = Some pos)
    then let* (outcome, s) := send_event pos Begin s in
         Ret (match outcome with PushQueued => true | PushOverflow => false end, s)
    else Ret (false, s) in
  let s := if resumed then s <| wn_active := Some pos |> <| wn_rearm := None |> else s in
  Ret (s <| wn_answers ::= fun a => a ++ [(completion, resumed)] |>).
Fixpoint resume_all (requests : list (CapturePosition * N)) (s : Win) : exec Empty_set Win :=
  match requests with
  | [] => Ret s
  | r :: requests => let* s := resume_request r s in resume_all requests s
  end.

(** A posted message in the loop of [start_routine] *)
Definition on_message (m : RequestType) (s : Win) : exec Empty_set Win :=
  match m with
  | RqExit => Ret (s <| wn_running := false |>)
  | RqRelease =>
      let s := match wn_active s with
               | Some pos => s <| wn_active := None |> <| wn_rearm := Some pos |>
               | None => s
               end in
      Ret (s <| wn_release_waiters := [] |>
             <| wn_answers ::= fun a => a ++ map (fun w => (w, true)) (wn_release_waiters s) |>)
  | RqResumeIfFocused => resume_all (wn_resume_requests s) (s <| wn_resume_requests := [] |>)
  | RqClientUpdate =>
      Ret (foldl (fun s r => update_clients r s) (s <| wn_request_buffer := [] |>) (wn_request_buffer s))
  end.

(** ** Calls of the capture task and steps of the thread *)

(** [signal]: posting to the thread fails once it has left its loop, and the
    result is unwrapped.  (Posting to a thread that has no message queue yet, or
    a full one, fails as well; the state does not have that.) *)
Definition signal (m : RequestType) (s : Win) : exec Empty_set Win :=
  if wn_running s then Ret (s <| wn_messages ::= fun q => q ++ [m] |>)
  else Panic "called `Result::unwrap()` on an `Err` value".

Inductive WinStep :=
| WsCreate (pos : CapturePosition)
| WsDestroy (pos : CapturePosition)
| WsRelease (waiter : N)
| WsResume (pos : CapturePosition) (waiter : N)
| WsDrop                                   (* of the [EventThread]: up to the join *)
| WsJoin                                   (* the rest of it, after the join *)
| WsMessage                                (* the loop takes the next message *)
| WsMouse (ncode : Z) (wparam : MouseMessage) (mouse : MouseData)
| WsKey (ncode : Z) (wparam : KeyMessage) (keyboard : KeyData)
| WsModes (modes : list DevMode)           (* the system changes its displays *)
| WsDisplayChange                          (* [window_proc] *)
| WsPoll.                                  (* [poll_next] *)

(** The next generation; the counter wraps. *)
Definition next_generation (g : Z) : Z := if (g =? 2147483647)%Z then (-2147483648)%Z else (g + 1)%Z.

Definition win_step (i : WinStep) (s : Win) : exec Empty_set Win :=
  match i with
  | WsCreate pos => signal RqClientUpdate (s <| wn_request_buffer ::= fun b => b ++ [CuCreate pos] |>)
  | WsDestroy pos => signal RqClientUpdate (s <| wn_request_buffer ::= fun b => b ++ [CuDestroy pos] |>)
  | WsRelease waiter => signal RqRelease (s <| wn_release_waiters ::= fun b => b ++ [waiter] |>)
  | WsResume pos waiter => signal RqResumeIfFocused (s <| wn_resume_requests ::= fun b => b ++ [(pos, waiter)] |>)
  | WsDrop => signal RqExit s
  | WsJoin => Ret (if wn_running s then s else s <| wn_queue ::= queue_close |>)
  | WsMessage =>
      match wn_messages s with
      | m :: rest => if wn_running s then on_message m (s <| wn_messages := rest |>) else Ret s
      | [] => Ret s
      end
  | WsMouse ncode wparam mouse =>
      if wn_running s then let* (_, s) := mouse_proc ncode wparam mouse s in Ret s else Ret s
  | WsKey ncode wparam keyboard =>
      if wn_running s then let* (_, s) := kybrd_proc ncode wparam keyboard s in Ret s else Ret s
  | WsModes modes => Ret (s <| wn_modes := modes |>)
  | WsDisplayChange => if wn_running s then Ret (s <| wn_resolution_generation ::= next_generation |>) else Ret s
  | WsPoll => let* (_, queue) := queue_poll (wn_queue s) in Ret (s <| wn_queue := queue |>)
  end.

Fixpoint win_run (steps : list WinStep) (s : Win) : exec Empty_set Win :=
  match steps with
  | [] => Ret s
  | i :: steps => let* s := win_step i s in win_run steps s
  end.
