(* ===== verification/WindowsCaptureTheorems.v ===== *)
(** * Capture on Windows: exclusive, ordered and free of panics

    Every event of the hooks is either seen by the system or sent to one peer,
    never both; what is queued follows the three modes of a capture; and no
    coordinate of a desktop makes the thread panic. *)

From stdpp Require Import base tactics list gmap sets strings.
From Stdlib Require Import NArith ZArith Lia.
From S2P Require Import Prelude Bytes MachineNumbers ProtoWire Scancode CaptureQueue InputCapture WindowsCapture.

Ltac wf := unfold set in *; cbn [wn_clients wn_active wn_rearm wn_queue wn_entry wn_prev wn_displays wn_generation
  wn_resolution_generation wn_modes wn_request_buffer wn_release_waiters wn_resume_requests wn_messages wn_running
  wn_answers wn_log fst snd exec_bind] in *.

(** ** Desktops

    Coordinates far from the limits of 32 bits. *)

Definition small_point (b : Z) (p : Z * Z) : Prop := small b (fst p) /\ small b (snd p).
Definition small_rect (b : Z) (r : RECT) : Prop :=
  small b (r_left r) /\ small b (r_right r) /\ small b (r_top r) /\ small b (r_bottom r).
Definition small_mode (m : DevMode) : Prop :=
  small 268435456 (dm_x m) /\ small 268435456 (dm_y m) /\ (dm_width m <= 268435456)%N /\ (dm_height m <= 268435456)%N.
Abbreviation COORD := 536870912%Z (only parsing).

(** The displays of small modes are small. *)
Lemma enumerate_small modes : Forall small_mode modes ->
  exists ds, enumerate_displays modes = Ret ds /\ Forall (small_rect COORD) ds.
Proof.
  induction 1 as [|m modes (Hx & Hy & Hw & Hh) _ (ds & E & Hds)]; [by exists []|].
  assert (forall n, (n <= 268435456)%N -> u32_as_i32 n = Z.of_N n) as Hu.
  { intros n Hn. unfold u32_as_i32, to_signed. change (256 ^ N.of_nat 4 / 2)%N with 2147483648%N.
    by rewrite (proj2 (N.ltb_lt _ _)) by lia. }
  unfold small in *. cbn. unfold display_rect, i32_add. rewrite !Hu, !i32_arith_small by (unfold small; lia). cbn. rewrite E. cbn.
  eexists. split; [done|]. constructor; [|done]. unfold small_rect, small. cbn. lia.
Qed.

(** ** Geometry *)

Lemma within_region p d : is_within_dp_region p d = true <->
  (r_left d <= fst p < r_right d /\ r_top d <= snd p < r_bottom d)%Z.
Proof.
  destruct p as [x y]. unfold is_within_dp_region. cbn. rewrite !andb_true_iff, ?Z.leb_le, ?Z.ltb_lt. lia.
Qed.

(** A pointer that enters a barrier comes from a display and leaves all of them
    on that side. *)
Definition crossed (prev curr : Z * Z) (displays : list RECT) (pos : CapturePosition) : Prop :=
  (exists d, d ∈ displays /\ is_within_dp_region prev d = true)
  /\ forall d, d ∈ displays -> is_within_dp_boundary curr d pos = false.

Lemma moved_across_spec prev curr ds pos : moved_across_boundary prev curr ds pos = true <-> crossed prev curr ds pos.
Proof.
  unfold moved_across_boundary, crossed, in_display_region, in_bounds. rewrite andb_true_iff, negb_true_iff, existsb_exists.
  setoid_rewrite <- list_elem_of_In. apply and_iff_compat_l. rewrite <- not_true_iff_false, existsb_exists.
  setoid_rewrite <- list_elem_of_In. split.
  - intros H d Hd. apply not_true_iff_false. intros E. apply H. eauto.
  - intros H (d & Hd & E). by rewrite H in E.
Qed.

Lemma entered_barrier_crossed prev curr ds pos : entered_barrier prev curr ds = Some pos -> crossed prev curr ds pos.
Proof. intros [_ H]%find_some. by apply moved_across_spec. Qed.

(** The entry point lies in the display that the pointer comes from. *)
Lemma clamp_spec ds prev p : Forall (small_rect COORD) ds ->
  (exists d, d ∈ ds /\ is_within_dp_region prev d = true) ->
  exists e d, clamp_to_display_bounds ds prev p = Ret e /\ d ∈ ds /\ is_within_dp_region e d = true /\ small_point COORD e.
Proof.
  intros Hs (d0 & Hd0 & Hin). unfold clamp_to_display_bounds.
  destruct (List.find (is_within_dp_region prev) ds) as [d|] eqn:E.
  2:{ apply list_elem_of_In in Hd0. by apply (find_none _ _ E) in Hd0; rewrite Hin in Hd0. }
  apply find_some in E as [Hd Hr]. apply list_elem_of_In in Hd. rewrite Forall_forall in Hs. specialize (Hs d Hd).
  apply within_region in Hr. destruct p as [x y], Hs as (S1 & S2 & S3 & S4). unfold small in *. cbn [expect exec_bind].
  unfold i32_sub. rewrite !i32_arith_small by (unfold small; lia). cbn [exec_bind]. unfold i32_clamp.
  rewrite (proj2 (Z.leb_le _ _)) by lia. cbn [exec_bind]. rewrite (proj2 (Z.leb_le _ _)) by lia. cbn [exec_bind].
  eexists _, d. split; [reflexivity|]. split; [done|]. rewrite within_region. unfold small_point, small. cbn [fst snd].
  repeat match goal with |- context [(?a <? ?b)%Z] => destruct (Z.ltb_spec a b) end; lia.
Qed.

Lemma retreat_total pos entry prev curr : small_point COORD entry -> exists b, edge_retreat_observed pos entry prev curr = Ret b.
Proof.
  intros [H1 H2]. unfold small in *. destruct pos; cbn [edge_retreat_observed]; unfold i32_add, i32_sub, EDGE_REARM_DISTANCE;
    rewrite i32_arith_small by (unfold small; lia); cbn [exec_bind]; eauto.
Qed.

Lemma mouse_event_total w m s : small_point COORD (ml_pt m) -> small_point COORD (wn_entry s) -> exists e, to_mouse_event w m s = Ret e.
Proof.
  intros [H1 H2] [H3 H4]. unfold small in *. destruct w; cbn [to_mouse_event]; eauto.
  - unfold i32_sub. rewrite !i32_arith_small by (unfold small; lia). cbn [exec_bind]. eauto.
  - repeat case_match; eauto.
  - repeat case_match; eauto.
Qed.

(** ** The state *)

Record Sane (s : Win) : Prop := {
  sn_queue : QueueOk (wn_queue s);
  sn_entry : small_point COORD (wn_entry s);
  sn_displays : Forall (small_rect COORD) (wn_displays s);
  sn_modes : Forall small_mode (wn_modes s) }.

(** Active client, client to rearm, and log. *)
Definition core (s : Win) := (wn_active s, wn_rearm s, wn_log s).

(** What the hooks leave alone. *)
Definition same_calls (s s' : Win) : Prop :=
  wn_clients s' = wn_clients s /\ wn_request_buffer s' = wn_request_buffer s
  /\ wn_release_waiters s' = wn_release_waiters s /\ wn_resume_requests s' = wn_resume_requests s
  /\ wn_messages s' = wn_messages s /\ wn_running s' = wn_running s.

Lemma send_event_spec pos e s : QueueOk (wn_queue s) ->
  exists o q, QueueOk q
    /\ send_event pos e s = Ret (o, s <| wn_queue := q |> <| wn_log := wn_log s ++ match o with PushQueued => [(pos, e)] | _ => [] end |>).
Proof.
  intros Hq. unfold send_event. destruct (queue_push_spec pos e _ Hq) as (o & q & -> & Hq' & _). cbn [exec_bind].
  exists o, q. split; [done|]. destruct o; wf; [done|]. by rewrite app_nil_r.
Qed.

Inductive activation (mouse : MouseData) (s : Win) : bool -> Win -> Prop :=
| ac_quiet s' : core s' = core s -> wn_entry s' = wn_entry s \/ wn_active s = None ->
    activation mouse s (bool_decide (is_Some (wn_active s))) s'
| ac_retreat p s' : core s = (None, Some p, wn_log s) -> core s' = (None, None, wn_log s ++ [(p, EdgeRetreated)]) ->
    activation mouse s false s'
| ac_enter p s' : core s = (None, None, wn_log s) -> core s' = (Some p, None, wn_log s ++ [(p, Begin)]) ->
    p ∈ wn_clients s -> crossed (default (ml_pt mouse) (wn_prev s)) (ml_pt mouse) (wn_displays s') p ->
    (exists d, d ∈ wn_displays s' /\ is_within_dp_region (wn_entry s') d = true) ->
    activation mouse s false s'.

(** Queuing an event. *)
Lemma sane_queue s q : Sane s -> QueueOk q -> Sane (s <| wn_queue := q |>).
Proof. intros [H1 H2 H3 H4] Hq. by split. Qed.

Lemma update_displays_spec s : Sane s ->
  exists ds g, update_display_regions s = Ret (s <| wn_displays := ds |> <| wn_generation := g |>) /\ Forall (small_rect COORD) ds.
Proof.
  intros [H1 H2 H3 H4]. unfold update_display_regions. destruct (_ =? _)%Z.
  - exists (wn_displays s), (wn_generation s). split; [by destruct s|done].
  - destruct (enumerate_small _ H4) as (ds & -> & Hd). cbn [exec_bind]. eauto.
Qed.

Lemma activation_spec w mouse s : Sane s ->
  exists b s', check_client_activation w mouse s = Ret (b, s') /\ Sane s' /\ same_calls s s' /\ activation mouse s b s'.
Proof.
  intros HS. pose proof HS as [Hq He Hd Hm]. unfold check_client_activation.
  destruct (bool_decide (w = WmMouseMove)); cbn [negb].
  2:{ eexists _, s. split; [done|]. split; [done|]. split; [done|]. apply ac_quiet; [done|by left]. }
  wf. destruct (wn_active s) as [p|] eqn:Ea.
  { eexists _, _. split; [done|]. split; [by split|]. split; [done|]. rewrite <- Ea.
    replace true with (bool_decide (is_Some (wn_active s))) by (by rewrite Ea). apply ac_quiet; [done|by left]. }
  assert (forall s', core s' = core s -> activation mouse s false s') as Hquiet.
  { intros s' Hc. replace false with (bool_decide (is_Some (wn_active s))) by (by rewrite Ea). apply ac_quiet; [done|by right]. }
  destruct (wn_rearm s) as [p|] eqn:Er.
  - destruct (retreat_total p (wn_entry s) (default (ml_pt mouse) (wn_prev s)) (ml_pt mouse) He) as [b Hb].
    rewrite Hb. cbn [exec_bind].
    destruct b; [|eexists _, _; split; [done|]; split; [by split|]; split; [done|]; apply Hquiet; unfold core; wf; congruence].
    edestruct (send_event_spec p EdgeRetreated) as (o & q & Hq' & Hse); [|rewrite Hse; clear Hse]; [exact Hq|]. cbn [exec_bind].
    eexists _, _. split; [done|]. destruct o; (split; [by split|]); (split; [done|]).
    + apply (ac_retreat _ _ p); unfold core; wf; congruence.
    + apply Hquiet. unfold core. wf. by rewrite app_nil_r, Ea, Er.
  - edestruct update_displays_spec as (ds & g & Hu & Hds); [|rewrite Hu; clear Hu]; [by split|]. cbn [exec_bind]. wf.
    destruct (entered_barrier _ _ ds) as [p|] eqn:Een.
    2:{ eexists _, _. split; [done|]. split; [by split|]. split; [done|]. apply Hquiet. unfold core. wf. congruence. }
    apply entered_barrier_crossed in Een. case_bool_decide as Hp; cbn [negb].
    2:{ eexists _, _. split; [done|]. split; [by split|]. split; [done|]. apply Hquiet. unfold core. wf. congruence. }
    destruct (clamp_spec ds _ (ml_pt mouse) Hds (proj1 Een)) as (e & d & -> & Hd1 & Hd2 & Hd3). cbn [exec_bind].
    edestruct (send_event_spec p Begin) as (o & q & Hq' & Hse); [|rewrite Hse; clear Hse]; [exact Hq|]. cbn [exec_bind].
    eexists _, _. split; [done|]. destruct o; (split; [by split|]); (split; [done|]).
    + apply (ac_enter _ _ p); unfold core; wf; try congruence; eauto.
    + apply Hquiet. unfold core. wf. by rewrite app_nil_r, Ea, Er.
Qed.

(** ** The hooks *)

(** What a hook does to an event that it ends: it was captured before, and is
    sent to that peer if it can be translated. *)
Definition sent_to (p : CapturePosition) (e : option InputEvent) (s s' : Win) : Prop :=
  core s' = (Some p, wn_rearm s, wn_log s ++ match e with Some e => [(p, CInput e)] | None => [] end).

(** What it does to an event that it passes on: nothing, it gives up a capture
    whose queue is full, or the motion crosses an edge. *)
Inductive passed (mouse : option MouseData) (s s' : Win) : Prop :=
| ps_quiet : core s' = core s -> passed mouse s s'
| ps_overflow p : wn_active s = Some p -> core s' = (None, wn_rearm s, wn_log s) -> passed mouse s s'
| ps_edge m b : mouse = Some m -> activation m s b s' -> wn_active s = None -> passed mouse s s'.

Lemma mouse_proc_spec ncode w mouse s : Sane s -> small_point COORD (ml_pt mouse) ->
  exists r s', mouse_proc ncode w mouse s = Ret (r, s') /\ Sane s' /\ same_calls s s'
  /\ match r with
     | Swallowed => exists p e, wn_active s = Some p /\ ml_injected mouse = false
                      /\ to_mouse_event w mouse s = Ret e /\ sent_to p (Pointer <$> e) s s'
     | CallNextHook => passed (Some mouse) s s'
     end.
Proof.
  intros HS Hpt. unfold mouse_proc. destruct (ncode <? 0)%Z.
  { eexists _, s. split; [done|]. split; [done|]. split; [done|]. by apply ps_quiet. }
  destruct (activation_spec w mouse s HS) as (b & s1 & Hc & HS1 & Hsame & Hact).
  assert (b = false -> passed (Some mouse) s s1) as Hpass.
  { intros ->. inversion Hact as [s' Hq _ Hb|p s' H1 H2|p s' H1 H2]; subst.
    - by apply ps_quiet.
    - eapply ps_edge; [done|exact Hact|by injection H1].
    - eapply ps_edge; [done|exact Hact|by injection H1]. }
  destruct (ml_injected mouse) eqn:Ei.
  { destruct (is_lan_mouse_injected_motion w mouse).
    - rewrite Hc. cbn [exec_bind]. eexists _, _. split; [done|]. split; [done|]. split; [done|].
      destruct b; [|by apply Hpass]. inversion Hact as [s' Hq _ Hb| |]; subst. by apply ps_quiet.
    - eexists _, s. split; [done|]. split; [done|]. split; [done|]. by apply ps_quiet. }
  rewrite Hc. cbn [exec_bind]. destruct b; cbn [negb].
  2:{ eexists _, _. split; [done|]. split; [done|]. split; [done|]. by apply Hpass. }
  inversion Hact as [s' Hq He Hb| |]; subst. apply bool_decide_eq_true in Hb as [p Hp].
  injection Hq as Ha Hr Hl. rewrite Ha, Hp.
  assert (to_mouse_event w mouse s1 = to_mouse_event w mouse s) as Hev.
  { destruct He as [He|He]; [|congruence]. unfold to_mouse_event. by rewrite He. }
  rewrite Hev. destruct (mouse_event_total w mouse s Hpt (sn_entry _ HS)) as [e Ee]. rewrite Ee. cbn [exec_bind].
  destruct e as [e|].
  - destruct (send_event_spec p (CInput (Pointer e)) s1 (sn_queue _ HS1)) as (o & q & Hq' & ->). cbn [exec_bind].
    assert (Sane (s1 <| wn_queue := q |>)) as HS2 by by apply sane_queue.
    destruct o; eexists _, _; (split; [done|]); destruct HS2; (split; [by split|]); (split; [done|]).
    + exists p, (Some e). split; [done|]. split; [done|]. split; [done|]. unfold sent_to, core. wf. by rewrite Ha, Hr, Hl, Hp.
    + apply (ps_overflow _ _ _ p); [done|]. unfold core. wf. by rewrite app_nil_r, Hr, Hl.
  - eexists _, _. split; [done|]. split; [done|]. split; [done|]. exists p, None. split; [done|]. split; [done|].
    split; [done|]. unfold sent_to, core. by rewrite app_nil_r, Ha, Hr, Hl, Hp.
Qed.

Lemma kybrd_proc_spec ncode w kb s : Sane s ->
  exists r s', kybrd_proc ncode w kb s = Ret (r, s') /\ Sane s' /\ same_calls s s'
  /\ match r with
     | Swallowed => exists p, wn_active s = Some p /\ kb_injected kb = false
                      /\ sent_to p (Keyboard <$> to_key_event w kb) s s'
     | CallNextHook => passed None s s'
     end.
Proof.
  intros HS. unfold kybrd_proc. destruct (ncode <? 0)%Z.
  { eexists _, s. split; [done|]. split; [done|]. split; [done|]. by apply ps_quiet. }
  destruct (kb_injected kb) eqn:Ei.
  { eexists _, s. split; [done|]. split; [done|]. split; [done|]. by apply ps_quiet. }
  destruct (wn_active s) as [p|] eqn:Ea.
  2:{ eexists _, s. split; [done|]. split; [done|]. split; [done|]. by apply ps_quiet. }
  destruct (to_key_event w kb) as [e|].
  - destruct (send_event_spec p (CInput (Keyboard e)) s (sn_queue _ HS)) as (o & q & Hq' & ->). cbn [exec_bind].
    pose proof (sane_queue s q HS Hq') as [].
    destruct o; eexists _, _; (split; [done|]); (split; [by split|]); (split; [done|]).
    + exists p. split; [done|]. split; [done|]. unfold sent_to, core. wf. by rewrite Ea.
    + apply (ps_overflow _ _ _ p); [done|]. unfold core. wf. by rewrite app_nil_r.
  - eexists _, _. split; [done|]. split; [done|]. split; [done|]. exists p. split; [done|]. split; [done|].
    unfold sent_to, core. by rewrite app_nil_r, Ea.
Qed.

(** ** The invariant *)

Record WinOk (s : Win) : Prop := {
  wo_sane : Sane s;
  wo_active : forall p, wn_active s = Some p -> p ∈ wn_clients s /\ wn_rearm s = None;
  wo_rearm : forall p, wn_rearm s = Some p -> p ∈ wn_clients s;
  wo_update : wn_request_buffer s <> [] -> RqClientUpdate ∈ wn_messages s;
  wo_release : wn_release_waiters s <> [] -> RqRelease ∈ wn_messages s;
  wo_resume : wn_resume_requests s <> [] -> RqResumeIfFocused ∈ wn_messages s }.

Definition small_step (i : WinStep) : Prop :=
  match i with
  | WsMouse _ _ mouse => small_point COORD (ml_pt mouse)
  | WsModes modes => Forall small_mode modes
  | _ => True
  end.

(** The calls of the capture task; the drop of the [EventThread] is the last of
    them, since it ends the ownership of it. *)
Definition is_call (i : WinStep) : bool :=
  match i with WsCreate _ | WsDestroy _ | WsRelease _ | WsResume _ _ | WsDrop => true | _ => false end.
Fixpoint owned_calls (steps : list WinStep) : Prop :=
  match steps with
  | [] => True
  | WsDrop :: steps => Forall (fun i => is_call i = false) steps
  | _ :: steps => owned_calls steps
  end.
Definition legal_steps (steps : list WinStep) : Prop := Forall small_step steps /\ owned_calls steps.

(** A change of the hooks or of the requests to resume. *)
Lemma ok_core s s' : WinOk s -> Sane s' -> same_calls s s' ->
  (forall p, wn_active s' = Some p -> p ∈ wn_clients s /\ wn_rearm s' = None) ->
  (forall p, wn_rearm s' = Some p -> p ∈ wn_clients s) -> WinOk s'.
Proof.
  intros [_ _ _ H1 H2 H3] HS (E1 & E2 & E3 & E4 & E5 & _) Ha Hr.
  split; [done|..]; rewrite ?E1, ?E2, ?E3, ?E4, ?E5; done.
Qed.

Lemma ok_activation mouse b s s' : WinOk s -> Sane s' -> same_calls s s' -> activation mouse s b s' -> WinOk s'.
Proof.
  intros HW HS Hsame Hact. destruct Hact as [s' Hc _|p s' H1 H2|p s' H1 H2 Hp _ _].
  - injection Hc as Ha Hr _. apply (ok_core s); try done; rewrite ?Ha, ?Hr; apply HW.
  - injection H1 as Ha Hr. injection H2 as Ha' Hr' Hl. apply (ok_core s); try done; rewrite ?Ha', ?Hr'; done.
  - injection H1 as Ha Hr. injection H2 as Ha' Hr' Hl.
    apply (ok_core s); try done; rewrite ?Ha', ?Hr'; [|done]. by intros p' [= <-].
Qed.

Lemma ok_sent p e s s' : WinOk s -> Sane s' -> same_calls s s' -> wn_active s = Some p -> sent_to p e s s' -> WinOk s'.
Proof.
  intros HW HS Hsame Hp [= Ha Hr Hl]. destruct (wo_active _ HW p Hp) as [Hc Hn].
  apply (ok_core s); try done; rewrite ?Ha, ?Hr, ?Hn; [|done]. by intros p' [= <-].
Qed.

Lemma ok_passed mouse s s' : WinOk s -> Sane s' -> same_calls s s' -> passed mouse s s' -> WinOk s'.
Proof.
  intros HW HS Hsame [Hc|p Hp [= Ha Hr Hl]|m b _ Hact _].
  - injection Hc as Ha Hr _. apply (ok_core s); try done; rewrite ?Ha, ?Hr; apply HW.
  - destruct (wo_active _ HW p Hp) as [_ Hn]. apply (ok_core s); try done; rewrite ?Ha, ?Hr, ?Hn; done.
  - by eapply ok_activation.
Qed.

(** ** Messages *)

Lemma resume_request_spec r s : WinOk s -> exists s', resume_request r s = Ret s' /\ WinOk s'
  /\ same_calls s s' /\ wn_answers s `prefix_of` wn_answers s'.
Proof.
  intros HW. destruct r as [p w]. unfold resume_request.
  destruct (bool_decide (wn_active s = None) && bool_decide (wn_rearm s = Some p)) eqn:E.
  - apply andb_true_iff in E as [Ea%bool_decide_eq_true Er%bool_decide_eq_true].
    destruct (send_event_spec p Begin s (sn_queue _ (wo_sane _ HW))) as (o & q & Hq & ->). cbn [exec_bind].
    pose proof (sane_queue s q (wo_sane _ HW) Hq) as [].
    destruct o; cbn [exec_bind]; (eexists; split; [done|]); (split; [|split; [done|wf; by eexists]]).
    + apply (ok_core s); [done|by split|done|..]; wf; [|done]. intros p' [= <-]. split; [|done]. by apply (wo_rearm _ HW).
    + apply (ok_core s); [done|by split|done|..]; wf; apply HW.
  - cbn [exec_bind]. eexists. split; [done|]. split; [|split; [done|wf; by eexists]].
    destruct (wo_sane _ HW). apply (ok_core s); [done|by split|done|..]; wf; apply HW.
Qed.

Lemma resume_all_spec rs : forall s, WinOk s -> exists s', resume_all rs s = Ret s' /\ WinOk s'
  /\ same_calls s s' /\ wn_answers s `prefix_of` wn_answers s'.
Proof.
  induction rs as [|r rs IH]; intros s HW; cbn [resume_all].
  { exists s. split; [done|]. split; [done|]. split; [done|]. by exists []; rewrite app_nil_r. }
  destruct (resume_request_spec r s HW) as (s1 & -> & HW1 & Hs1 & Hp1). cbn [exec_bind].
  destruct (IH s1 HW1) as (s2 & -> & HW2 & Hs2 & Hp2). exists s2. split; [done|]. split; [done|].
  split; [|by etrans]. unfold same_calls in *. intuition congruence.
Qed.

(** The state after a message was taken: its buffer is empty, the others are as
    they were. *)
Lemma ok_popped m rest s s' : WinOk s -> wn_messages s = m :: rest -> wn_messages s' = rest -> Sane s' ->
  (forall p, wn_active s' = Some p -> p ∈ wn_clients s' /\ wn_rearm s' = None) ->
  (forall p, wn_rearm s' = Some p -> p ∈ wn_clients s') ->
  wn_request_buffer s' = [] \/ m <> RqClientUpdate /\ wn_request_buffer s' = wn_request_buffer s ->
  wn_release_waiters s' = [] \/ m <> RqRelease /\ wn_release_waiters s' = wn_release_waiters s ->
  wn_resume_requests s' = [] \/ m <> RqResumeIfFocused /\ wn_resume_requests s' = wn_resume_requests s -> WinOk s'.
Proof.
  intros [_ _ _ H1 H2 H3] Em Em' HS Ha Hr Hb1 Hb2 Hb3. rewrite Em in *.
  split; try done; rewrite Em'; intros Hne.
  - destruct Hb1 as [Hb|[Hn Hb]]; [done|]. rewrite Hb in Hne. by apply H1, elem_of_cons in Hne as [?|].
  - destruct Hb2 as [Hb|[Hn Hb]]; [done|]. rewrite Hb in Hne. by apply H2, elem_of_cons in Hne as [?|].
  - destruct Hb3 as [Hb|[Hn Hb]]; [done|]. rewrite Hb in Hne. by apply H3, elem_of_cons in Hne as [?|].
Qed.

(** Updates of the clients keep the active edge among them. *)
Definition clients_ok (s : Win) : Prop :=
  (forall p, wn_active s = Some p -> p ∈ wn_clients s /\ wn_rearm s = None) /\ (forall p, wn_rearm s = Some p -> p ∈ wn_clients s).

Lemma update_clients_spec r s : clients_ok s -> clients_ok (update_clients r s).
Proof.
  intros [Ha Hr]. unfold clients_ok. destruct r as [p|p]; cbn [update_clients].
  - wf. split; [intros q [H1 H2]%Ha; split; [set_solver|done]|intros q H%Hr; set_solver].
  - destruct (decide (wn_active s = Some p)) as [Ea|Ea].
    + destruct (Ha p Ea) as [_ Er]. rewrite (bool_decide_true _ Ea). wf.
      rewrite (bool_decide_false (wn_rearm s = Some p)) by (by rewrite Er). wf. by rewrite Er.
    + rewrite (bool_decide_false _ Ea). wf. destruct (decide (wn_rearm s = Some p)) as [Er|Er].
      * assert (wn_active s = None) as En by (destruct (wn_active s) as [q|] eqn:E; [|done]; destruct (Ha q eq_refl); congruence).
        rewrite (bool_decide_true _ Er). wf. by rewrite En.
      * rewrite (bool_decide_false _ Er). wf. split.
        -- intros q Hq. destruct (Ha q Hq). split; [|done]. set_solver.
        -- intros q Hq. pose proof (Hr q Hq). set_solver.
Qed.

Lemma update_clients_frame r s : wn_queue (update_clients r s) = wn_queue s /\ wn_entry (update_clients r s) = wn_entry s
  /\ wn_displays (update_clients r s) = wn_displays s /\ wn_modes (update_clients r s) = wn_modes s
  /\ wn_request_buffer (update_clients r s) = wn_request_buffer s /\ wn_release_waiters (update_clients r s) = wn_release_waiters s
  /\ wn_resume_requests (update_clients r s) = wn_resume_requests s /\ wn_messages (update_clients r s) = wn_messages s
  /\ wn_running (update_clients r s) = wn_running s /\ wn_answers (update_clients r s) = wn_answers s.
Proof. destruct r as [p|p]; cbn [update_clients]; [done|]. repeat case_bool_decide; done. Qed.

Lemma update_all_spec rs : forall s, clients_ok s -> let s' := foldl (fun s r => update_clients r s) s rs in
  clients_ok s' /\ (Sane s -> Sane s') /\ wn_request_buffer s' = wn_request_buffer s
  /\ wn_release_waiters s' = wn_release_waiters s /\ wn_resume_requests s' = wn_resume_requests s
  /\ wn_messages s' = wn_messages s /\ wn_running s' = wn_running s /\ wn_answers s' = wn_answers s.
Proof.
  induction rs as [|r rs IH]; intros s Hc; cbn [foldl]; [done|].
  destruct (IH _ (update_clients_spec r s Hc)) as (H1 & H3 & H4 & H5 & H6 & H7 & H8 & H9).
  destruct (update_clients_frame r s) as (F1 & F2 & F3 & F4 & F5 & F6 & F7 & F8 & F9 & F10).
  split; [done|]. split; [|by repeat split; congruence].
  intros [S1 S2 S3 S4]. apply H3. by split; rewrite ?F1, ?F2, ?F3, ?F4.
Qed.

(** What a message answers. *)
Definition answers_to (m : RequestType) (s s' : Win) : Prop :=
  wn_answers s `prefix_of` wn_answers s'
  /\ (m = RqRelease -> forall w, w ∈ wn_release_waiters s -> (w, true) ∈ wn_answers s')
  /\ (m <> RqRelease -> wn_release_waiters s' = wn_release_waiters s)
  /\ (wn_running s' = match m with RqExit => false | _ => wn_running s end).

Lemma on_message_spec m rest s : WinOk s -> wn_messages s = m :: rest ->
  exists s', on_message m (s <| wn_messages := rest |>) = Ret s' /\ WinOk s' /\ wn_messages s' = rest
  /\ answers_to m s s'.
Proof.
  intros HW Em. pose proof (wo_sane _ HW) as HS. pose proof HS as [Hq He Hd Hmo].
  assert (clients_ok s) as Hcl by (split; apply HW). unfold answers_to. destruct m; cbn [on_message].
  - assert (clients_ok (s <| wn_messages := rest |> <| wn_request_buffer := [] |>)) as Hcl' by exact Hcl.
    destruct (update_all_spec (wn_request_buffer s) _ Hcl') as (H1 & H3 & H4 & H5 & H6 & H7 & H8 & H9). eexists. split; [reflexivity|]. wf.
    split; [|split; [exact H7|]].
    + eapply (ok_popped RqClientUpdate rest s); [done|done|exact H7|apply H3; by split|apply H1|apply H1|..];
        rewrite ?H4, ?H5, ?H6; wf; [by left|by right|by right].
    + rewrite H9, H5, H8. done.
  - eexists. split; [reflexivity|]. wf.
    destruct (wn_active s) as [p|] eqn:Ea; wf.
    + destruct (wo_active _ HW p Ea) as [Hc Hn]. split; [|split; [done|]].
      * eapply (ok_popped RqRelease rest s); [done|done|done|by split|..]; wf; try done; [by intros q [= <-]|by right|by left|by right].
      * split; [by eexists|]. split; [|done]. intros _ w Hw. apply elem_of_app. right. by apply (list_elem_of_fmap_2 (fun w => (w, true))).
    + split; [|split; [done|]].
      * eapply (ok_popped RqRelease rest s); [done|done|done|by split|..]; wf; [done|apply HW|by right|by left|by right].
      * split; [by eexists|]. split; [|done]. intros _ w Hw. apply elem_of_app. right. by apply (list_elem_of_fmap_2 (fun w => (w, true))).
  - destruct (resume_all_spec (wn_resume_requests s) (s <| wn_messages := rest |> <| wn_resume_requests := [] |>))
      as (s' & E & HW' & Hs & Hp); [|exists s'; split; [exact E|]].
    { eapply (ok_popped RqResumeIfFocused rest s); [done|done|done|by split|..]; wf; [apply HW|apply HW|by right|by right|by left]. }
    destruct Hs as (E1 & E2 & E3 & E4 & E5 & E6). wf. split; [done|]. split; [done|].
    split; [done|]. split; [done|]. split; [by intros _; rewrite E3|]. done.
  - eexists. split; [reflexivity|]. wf. split; [|split; [done|]].
    + eapply (ok_popped RqExit rest s); [done|done|done|by split|..]; wf; [apply HW|apply HW|by right|by right|by right].
    + split; [by exists []; rewrite app_nil_r|]. done.
Qed.

(** ** Runs *)

Lemma ok_called s s' : WinOk s -> Sane s' -> core s' = core s -> wn_clients s' = wn_clients s ->
  (wn_request_buffer s' <> [] -> RqClientUpdate ∈ wn_messages s') ->
  (wn_release_waiters s' <> [] -> RqRelease ∈ wn_messages s') ->
  (wn_resume_requests s' <> [] -> RqResumeIfFocused ∈ wn_messages s') -> WinOk s'.
Proof.
  intros HW HS Hc Hcl H1 H2 H3. injection Hc as Ha Hr _.
  split; try done; rewrite ?Ha, ?Hr, ?Hcl; apply HW.
Qed.

(** The thread runs and is not asked to exit. *)
Definition alive (s : Win) : Prop := wn_running s = true /\ RqExit ∉ wn_messages s.

Lemma alive_hook s s' : same_calls s s' -> alive s -> alive s'.
Proof. intros (_ & _ & _ & _ & Hm & Hr) [H1 H2]. split; congruence. Qed.

Lemma signal_spec m s s' : WinOk s -> Sane s' -> core s' = core s -> wn_clients s' = wn_clients s ->
  wn_messages s' = wn_messages s -> wn_running s' = wn_running s -> wn_running s = true ->
  wn_request_buffer s' = wn_request_buffer s \/ m = RqClientUpdate ->
  wn_release_waiters s' = wn_release_waiters s \/ m = RqRelease ->
  wn_resume_requests s' = wn_resume_requests s \/ m = RqResumeIfFocused ->
  exists s2, signal m s' = Ret s2 /\ WinOk s2 /\ (m <> RqExit -> alive s -> alive s2).
Proof.
  intros HW HS Hc Hcl Hm Hr Hrun H1 H2 H3. unfold signal. rewrite Hr, Hrun. eexists. split; [done|].
  pose proof HW as [_ _ _ W1 W2 W3]. split.
  - apply (ok_called s); [done|by destruct HS; split|done|done|..]; wf; rewrite Hm, elem_of_app, list_elem_of_singleton; intros Hne.
    + destruct H1 as [E| ->]; [|by right]. rewrite E in Hne. auto.
    + destruct H2 as [E| ->]; [|by right]. rewrite E in Hne. auto.
    + destruct H3 as [E| ->]; [|by right]. rewrite E in Hne. auto.
  - intros Hne [_ Ha]. split; wf; [congruence|]. rewrite Hm, elem_of_app, list_elem_of_singleton. naive_solver.
Qed.

Lemma win_step_spec i s : WinOk s -> small_step i -> (is_call i = true -> wn_running s = true) ->
  exists s', win_step i s = Ret s' /\ WinOk s' /\ (i <> WsDrop -> alive s -> alive s').
Proof.
  intros HW Hi Hcall. pose proof (wo_sane _ HW) as HS. pose proof HS as [Hq He Hd Hm]. pose proof HW as [_ _ _ Hu Hr Hf].
  assert (exists s', Ret (E:=Empty_set) s = Ret s' /\ WinOk s' /\ (i <> WsDrop -> alive s -> alive s')) as Hstay by eauto.
  destruct i as [p|p|w|p w| | | |n w m|n w k|modes| |]; cbn [win_step small_step] in *.
  1-5: match goal with |- context [signal ?m ?x] => destruct (signal_spec m s x) as (s2 & -> & HW2 & Ha) end;
    try done; try (by split); try (by auto); exists s2; (split; [done|]); (split; [done|]); intros Hn; by apply Ha.
  - destruct (wn_running s) eqn:Hrun; [done|]. eexists. split; [done|]. split; [|intros _ [? _]; congruence].
    apply (ok_called s); try done. split; wf; try done. destruct Hq as [Q1 Q2 Q3 Q4]. by split.
  - destruct (wn_messages s) as [|m rest] eqn:Em; [done|]. destruct (wn_running s) eqn:Hrun; [|done].
    destruct (on_message_spec m rest s HW Em) as (s' & -> & HW' & Em' & _ & _ & _ & Hr'). exists s'. split; [done|]. split; [done|].
    intros _ [_ Hx]. rewrite Em, not_elem_of_cons in Hx. destruct Hx as [Hx1 Hx2].
    split; [|by rewrite Em']. rewrite Hr'. by destruct m.
  - destruct (wn_running s); [|done]. destruct (mouse_proc_spec n w m s HS Hi) as (r & s' & -> & HS' & Hsame & Hres).
    cbn [exec_bind]. exists s'. split; [done|]. split; [|intros _; by apply alive_hook]. destruct r; [by eapply ok_passed|].
    destruct Hres as (p & e & Hp & _ & _ & Hsent). by eapply ok_sent.
  - destruct (wn_running s); [|done]. destruct (kybrd_proc_spec n w k s HS) as (r & s' & -> & HS' & Hsame & Hres).
    cbn [exec_bind]. exists s'. split; [done|]. split; [|intros _; by apply alive_hook]. destruct r; [by eapply ok_passed|].
    destruct Hres as (p & Hp & _ & Hsent). by eapply ok_sent.
  - eexists. split; [done|]. split; [|done]. by apply (ok_called s).
  - destruct (wn_running s); [|done]. eexists. split; [done|]. split; [|done]. by apply (ok_called s).
  - destruct (queue_poll_spec _ Hq) as (r & q & -> & Hq' & _). cbn [exec_bind]. eexists. split; [done|].
    split; [|done]. by apply (ok_called s).
Qed.

Lemma win_run_spec steps : forall s, WinOk s -> Forall small_step steps ->
  alive s /\ owned_calls steps \/ Forall (fun i => is_call i = false) steps ->
  exists s', win_run steps s = Ret s' /\ WinOk s'.
Proof.
  induction steps as [|i steps IH]; intros s HW Hs Ho; cbn [win_run]; [by exists s|].
  apply Forall_cons in Hs as [Hi Hs].
  destruct (win_step_spec i s HW Hi) as (s1 & -> & HW1 & Ha1).
  { intros Hc. destruct Ho as [[[? _] _]|[Hn _]%Forall_cons]; [done|congruence]. }
  cbn [exec_bind]. apply (IH s1 HW1 Hs). destruct Ho as [[Ha Ho]|[_ Ho]%Forall_cons]; [|by right].
  assert (i = WsDrop \/ i <> WsDrop) as [->|Hne] by (destruct i; by (left + right)); [by right|].
  left. split; [by apply Ha1|]. by destruct i.
Qed.

Lemma win_runs modes steps : Forall small_mode modes -> legal_steps steps ->
  exists s, win_run steps (win_new modes) = Ret s /\ WinOk s.
Proof.
  intros Hm [Hs Ho]. apply win_run_spec; [|done|left; split; [|done]; by split; [|intros ?%not_elem_of_nil]].
  split; try done. split; [apply queue_new_ok| |by constructor|done]. by split; unfold small; cbn.
Qed.

(** ** Claims *)

(** C34: on Windows an input event is never both seen by the local system and
    sent to a peer, and it is sent to at most one peer.  Whatever the capture
    task and the user did before (positions and sizes of displays within 2^28,
    pointer coordinates within 2^29, no call after the drop of the thread's
    handle), no hook panics.  An event that a hook ends was physical and came
    while an edge was captured; it is queued for that edge, exactly once, if it
    has a translation, and otherwise (an unknown scan code, button or message)
    it reaches nobody ([untranslated_key_lost]).  An event that a hook passes on
    queues no input: it changes nothing, gives up a capture whose queue is full,
    or is a motion that retreats from a released edge or crosses the edge of a
    registered peer, leaving every display on that side. *)
Theorem windows_capture_exclusive modes steps :
  Forall small_mode modes -> legal_steps steps ->
  exists s, win_run steps (win_new modes) = Ret s
  /\ (forall ncode w mouse, small_point 536870912 (ml_pt mouse) ->
        exists r s', mouse_proc ncode w mouse s = Ret (r, s')
        /\ match r with
           | Swallowed => exists p e, wn_active s = Some p /\ ml_injected mouse = false
                            /\ to_mouse_event w mouse s = Ret e /\ sent_to p (Pointer <$> e) s s'
           | CallNextHook => passed (Some mouse) s s'
           end)
  /\ (forall ncode w kb, exists r s', kybrd_proc ncode w kb s = Ret (r, s')
        /\ match r with
           | Swallowed => exists p, wn_active s = Some p /\ kb_injected kb = false /\ sent_to p (Keyboard <$> to_key_event w kb) s s'
           | CallNextHook => passed None s s'
           end).
Proof.
  intros Hm Hs. destruct (win_runs modes steps Hm Hs) as (s & -> & HW).
  pose proof (wo_sane _ HW) as HS. exists s. split; [done|]. split.
  - intros n w m Hp. destruct (mouse_proc_spec n w m s HS Hp) as (r & s' & -> & _ & _ & H). eauto.
  - intros n w k. destruct (kybrd_proc_spec n w k s HS) as (r & s' & -> & _ & _ & H). eauto.
Qed.

(** The event of the log that concerns edges last. *)
Definition last_edge (l : list (CapturePosition * CaptureEvent)) : option (CapturePosition * CaptureEvent) :=
  last (List.filter (fun x => match snd x with CInput _ => false | _ => true end) l).

(** Input and retreat are reported only for the edge whose capture began last. *)
Definition ordered (l : list (CapturePosition * CaptureEvent)) : Prop :=
  forall l1 p e l2, l = l1 ++ (p, e) :: l2 -> e <> Begin -> last_edge l1 = Some (p, Begin).

Lemma last_edge_snoc l p e : last_edge (l ++ [(p, e)]) = match e with CInput _ => last_edge l | _ => Some (p, e) end.
Proof.
  unfold last_edge. rewrite List.filter_app. destruct e; cbn; rewrite ?app_nil_r; try done; by rewrite last_snoc.
Qed.

Lemma ordered_snoc l p e : ordered l -> (e <> Begin -> last_edge l = Some (p, Begin)) -> ordered (l ++ [(p, e)]).
Proof.
  intros Ho He l1 q e' l2 E Hne. destruct l2 as [|x l2 _] using rev_ind.
  - apply app_inj_tail in E as [-> [= -> ->]]. auto.
  - rewrite app_comm_cons, app_assoc in E. apply app_inj_tail in E as [-> _]. by eapply Ho.
Qed.

(** ** The three modes of a capture *)

Inductive CaptureMode := MLocal | MCaptured (p : CapturePosition) | MReleased (p : CapturePosition).
#[global] Instance CaptureMode_eq_dec : EqDecision CaptureMode.
Proof. solve_decision. Defined.

(** The contract of the capture: a machine of three modes over the queue of
    events.  An edge is entered from the local mode only; a release is
    remembered; a released edge is left by its retreat or the removal of its
    client, and captured again only when it is resumed; a captured edge is left
    by a release, by the removal of its client, or when the queue refuses an
    event. *)
Record Edge := mkEdge {
  ed_mode : CaptureMode;
  ed_queue : QueueState;
  ed_log : list (CapturePosition * CaptureEvent) }.

(** What happens to an edge: calls of the capture task, the pointer crosses the
    edge of a client or retreats from a released edge, physical input, and the
    reader of the queue. *)
Inductive EdgeInput :=
| EiRelease
| EiResume (p : CapturePosition)
| EiRemove (p : CapturePosition)
| EiCross (p : CapturePosition)
| EiRetreat
| EiInput (e : InputEvent)
| EiPoll
| EiClose.

(** Queue an event; the mode depends on whether there is room. *)
Definition edge_push (p : CapturePosition) (e : CaptureEvent) (queued full : CaptureMode) (x : Edge) : Edge :=
  match queue_push p e (ed_queue x) with
  | Ret (PushQueued, q) => mkEdge queued q (ed_log x ++ [(p, e)])
  | Ret (PushOverflow, q) => mkEdge full q (ed_log x)
  | Throw _ | Panic _ => x
  end.

Definition edge_step (x : Edge) (i : EdgeInput) : Edge :=
  match i, ed_mode x with
  | EiRelease, MCaptured p => mkEdge (MReleased p) (ed_queue x) (ed_log x)
  | EiResume p, MReleased q => if bool_decide (p = q) then edge_push p Begin (MCaptured p) (MReleased p) x else x
  | EiRemove p, MCaptured q | EiRemove p, MReleased q =>
      if bool_decide (p = q) then mkEdge MLocal (ed_queue x) (ed_log x) else x
  | EiCross p, MLocal => edge_push p Begin (MCaptured p) MLocal x
  | EiRetreat, MReleased p => edge_push p EdgeRetreated MLocal (MReleased p) x
  | EiInput e, MCaptured p => edge_push p (CInput e) (MCaptured p) MLocal x
  | EiPoll, m =>
      match queue_poll (ed_queue x) with Ret (_, q) => mkEdge m q (ed_log x) | _ => x end
  | EiClose, m => mkEdge m (queue_close (ed_queue x)) (ed_log x)
  | _, _ => x
  end.

(** The edge in a state of the thread. *)
Definition mode (s : Win) : CaptureMode :=
  match wn_active s, wn_rearm s with
  | Some p, _ => MCaptured p
  | None, Some p => MReleased p
  | None, None => MLocal
  end.
Definition edge_of (s : Win) : Edge := mkEdge (mode s) (wn_queue s) (wn_log s).

(** What a motion of the pointer does, from where it was last seen: it is far
    enough from where a released edge was entered and moves away from it, or it
    leaves all displays on the side of a client. *)
Definition motion_inputs (mouse : MouseData) (s : Win) : list EdgeInput :=
  let curr := ml_pt mouse in
  let prev := default curr (wn_prev s) in
  match mode s with
  | MReleased p =>
      match edge_retreat_observed p (wn_entry s) prev curr with Ret true => [EiRetreat] | _ => [] end
  | MLocal =>
      match update_display_regions s with
      | Ret s1 =>
          match entered_barrier prev curr (wn_displays s1) with
          | Some p => if bool_decide (p ∈ wn_clients s) then [EiCross p] else []
          | None => []
          end
      | _ => []
      end
  | MCaptured _ => []
  end.

Definition removal (r : ClientUpdate) : option EdgeInput :=
  match r with CuDestroy p => Some (EiRemove p) | CuCreate _ => None end.

(** What a step of the system means for the edge, in the state it happens. *)
Definition step_inputs (i : WinStep) (s : Win) : list EdgeInput :=
  match i with
  | WsMessage =>
      if wn_running s then
        match wn_messages s with
        | RqRelease :: _ => [EiRelease]
        | RqResumeIfFocused :: _ => map (fun r => EiResume (fst r)) (wn_resume_requests s)
        | RqClientUpdate :: _ =>
            omap removal (wn_request_buffer s)
        | _ => []
        end
      else []
  | WsMouse ncode w mouse =>
      if negb (wn_running s) || (ncode <? 0)%Z || (ml_injected mouse && negb (is_lan_mouse_injected_motion w mouse)) then []
      else match mode s with
           | MCaptured _ =>
               if ml_injected mouse then []
               else match to_mouse_event w mouse s with Ret (Some e) => [EiInput (Pointer e)] | _ => [] end
           | _ => if bool_decide (w = WmMouseMove) then motion_inputs mouse s else []
           end
  | WsKey ncode w kb =>
      if negb (wn_running s) || (ncode <? 0)%Z || kb_injected kb then []
      else match to_key_event w kb with Some e => [EiInput (Keyboard e)] | None => [] end
  | WsPoll => [EiPoll]
  | WsJoin => if wn_running s then [] else [EiClose]
  | WsCreate _ | WsDestroy _ | WsRelease _ | WsResume _ _ | WsDrop | WsModes _ | WsDisplayChange => []
  end.
Fixpoint run_inputs (steps : list WinStep) (s : Win) : list EdgeInput :=
  match steps with
  | [] => []
  | i :: steps =>
      step_inputs i s ++ match win_step i s with Ret s' => run_inputs steps s' | _ => [] end
  end.

(** *** The thread implements the contract *)

(** At most one of the two cells is set. *)
Definition one_cell (s : Win) : Prop := forall p, wn_active s = Some p -> wn_rearm s = None.

Lemma send_event_Ret p e s o s1 : send_event p e s = Ret (o, s1) ->
  exists q, queue_push p e (wn_queue s) = Ret (o, q)
    /\ s1 = s <| wn_queue := q |> <| wn_log := wn_log s ++ match o with PushQueued => [(p, e)] | _ => [] end |>.
Proof.
  unfold send_event. intros ([o' q] & Hq & [= -> <-])%exec_bind_Ret. exists q. split; [done|].
  destruct o; wf; [done|]. by rewrite app_nil_r.
Qed.

(** Queuing an event, when the mode afterwards is the one of the contract. *)
Lemma pushed_edge p e x o q s' queued full :
  queue_push p e (ed_queue x) = Ret (o, q) -> wn_queue s' = q ->
  wn_log s' = ed_log x ++ match o with PushQueued => [(p, e)] | _ => [] end ->
  mode s' = match o with PushQueued => queued | PushOverflow => full end ->
  edge_of s' = edge_push p e queued full x.
Proof.
  intros Hq Hq' Hl Hm. unfold edge_of, edge_push. rewrite Hq, Hq', Hl, Hm. destruct o; [done|]. by rewrite app_nil_r.
Qed.

Lemma sent_edge p e s o s1 s' queued full :
  send_event p e s = Ret (o, s1) -> wn_queue s' = wn_queue s1 -> wn_log s' = wn_log s1 ->
  mode s' = match o with PushQueued => queued | PushOverflow => full end ->
  edge_of s' = edge_push p e queued full (edge_of s).
Proof.
  intros (q & Hq & ->)%send_event_Ret Hq' Hl Hm. by eapply pushed_edge.
Qed.

Lemma resume_request_edge r s s' : one_cell s -> resume_request r s = Ret s' ->
  edge_of s' = edge_step (edge_of s) (EiResume (fst r)) /\ one_cell s'.
Proof.
  intros H1. destruct r as [p w]. unfold resume_request, edge_step. cbn [fst].
  change (ed_mode (edge_of s)) with (mode s). unfold mode.
  destruct (wn_active s) as [a|] eqn:Ea; cbn.
  { intros [= <-]. split; [|exact H1]. unfold edge_of, mode. wf. by rewrite Ea. }
  destruct (wn_rearm s) as [q|] eqn:Er; cbn.
  2:{ intros [= <-]. split; [|exact H1]. unfold edge_of, mode. wf. by rewrite Ea, Er. }
  rewrite (bool_decide_ext (Some q = Some p) (p = q)) by naive_solver.
  case_bool_decide as Hpq; [subst q|].
  - destruct (send_event p Begin s) as [[o s1]| |] eqn:Hse; cbn; [|done..]. intros [= <-].
    destruct o; wf.
    + split; [|done]. by apply (sent_edge _ _ _ _ _ _ _ _ Hse).
    + split; [|].
      * apply (sent_edge _ _ _ _ _ _ _ _ Hse); [done|done|]. unfold mode. wf.
        apply send_event_Ret in Hse as (? & _ & ->). wf. by rewrite Ea, Er.
      * intros a. wf. apply send_event_Ret in Hse as (? & _ & ->). wf. by rewrite Ea.
  - intros [= <-]. split; [|exact H1]. unfold edge_of, mode. wf. by rewrite Ea, Er.
Qed.

Lemma resume_all_edge rs : forall s s', one_cell s -> resume_all rs s = Ret s' ->
  edge_of s' = foldl edge_step (edge_of s) (map (fun r => EiResume (fst r)) rs) /\ one_cell s'.
Proof.
  induction rs as [|r rs IH]; intros s s' H1; cbn [resume_all map foldl]; [by intros [= <-]|].
  intros (s1 & Hr & Ha)%exec_bind_Ret. destruct (resume_request_edge r s s1 H1 Hr) as [<- H1'].
  by apply IH.
Qed.

Lemma update_clients_edge rs : forall s, one_cell s ->
  let s' := foldl (fun s r => update_clients r s) s rs in
  edge_of s' = foldl edge_step (edge_of s) (omap removal rs) /\ one_cell s'.
Proof.
  induction rs as [|r rs IH]; intros s H1; [done|]. destruct r as [p|p].
  { exact (IH (update_clients (CuCreate p) s) H1). }
  change (omap removal (CuDestroy p :: rs)) with (EiRemove p :: omap removal rs). cbn [foldl].
  assert (edge_of (update_clients (CuDestroy p) s) = edge_step (edge_of s) (EiRemove p)
    /\ one_cell (update_clients (CuDestroy p) s)) as [<- H1']; [|by apply IH].
  unfold edge_step, edge_of, mode, one_cell. cbn [update_clients ed_mode].
  destruct (wn_active s) as [a|] eqn:Ea; [pose proof (H1 a Ea) as Er|destruct (wn_rearm s) as [q|] eqn:Er];
    repeat case_bool_decide; wf; rewrite ?Ea, ?Er; try done; congruence.
Qed.

Lemma activation_edge w mouse s b s' : one_cell s -> check_client_activation w mouse s = Ret (b, s') ->
  b = bool_decide (is_Some (wn_active s)) /\ one_cell s'
  /\ (wn_active s <> None -> wn_active s' = wn_active s /\ wn_entry s' = wn_entry s /\ edge_of s' = edge_of s)
  /\ (wn_active s = None ->
      edge_of s' = foldl edge_step (edge_of s) (if bool_decide (w = WmMouseMove) then motion_inputs mouse s else [])).
Proof.
  intros H1. unfold check_client_activation. destruct (bool_decide (w = WmMouseMove)); cbn [negb].
  2:{ intros [= <- <-]. split; [done|]. split; [done|]. done. }
  wf. destruct (wn_active s) as [a|] eqn:Ea.
  { intros [= <- <-]. split; [by rewrite bool_decide_true by eauto|]. split; [intros x _; exact (H1 a Ea)|].
    split; [|done]. intros _. split; [done|]. split; [done|]. unfold edge_of, mode. wf. by rewrite Ea. }
  assert (bool_decide (is_Some (@None CapturePosition)) = false) as Hn by (by apply bool_decide_false, is_Some_None).
  rewrite Hn. unfold motion_inputs, mode. rewrite Ea. destruct (wn_rearm s) as [p|] eqn:Er.
  - intros (retreated & Hret & Hs)%exec_bind_Ret. rewrite Hret. destruct retreated; cbn [foldl].
    + apply exec_bind_Ret in Hs as ([o s1] & Hse & [= <- <-]).
      destruct (send_event_Ret _ _ _ _ _ Hse) as (q & Hq & Es1). wf.
      split; [done|]. split; [|split; [done|intros _]].
      * subst s1. destruct o; intros x; wf; rewrite ?Ea; done.
      * unfold edge_step. cbn [ed_mode edge_of]. unfold mode. rewrite Ea, Er.
        eapply pushed_edge; [exact Hq|..]; subst s1; destruct o; unfold mode; wf; rewrite ?Ea, ?Er; done.
    + injection Hs as <- <-. split; [done|]. split; [intros x; wf; rewrite ?Ea; done|]. split; [done|].
      intros _. unfold edge_of, mode. wf. by rewrite Ea, Er.
  - intros (s1 & Hu & Hs)%exec_bind_Ret.
    assert (exists s0, update_display_regions s = Ret s0 /\ wn_displays s1 = wn_displays s0
      /\ wn_clients s1 = wn_clients s /\ wn_active s1 = None /\ wn_rearm s1 = None
      /\ wn_queue s1 = wn_queue s /\ wn_log s1 = wn_log s) as (s0 & -> & Hd & Hc & Ha1 & Hr1 & Hq1 & Hl1).
    { revert Hu. unfold update_display_regions. wf. destruct (_ =? _)%Z.
      - intros [= <-]. by exists s.
      - intros (ds & -> & [= <-])%exec_bind_Ret. eexists. by split. }
    assert (edge_of s1 = edge_of s) as He1 by (unfold edge_of, mode; by rewrite Ha1, Hr1, Hq1, Hl1, Ea, Er).
    rewrite <- Hd. destruct (entered_barrier _ _ (wn_displays s1)) as [p|].
    2:{ injection Hs as <- <-. split; [done|]. split; [intros x; by rewrite Ha1|]. split; [done|]. done. }
    rewrite Hc in Hs. destruct (bool_decide (p ∈ wn_clients s)); cbn [negb] in Hs; cbn [foldl].
    2:{ injection Hs as <- <-. split; [done|]. split; [intros x; by rewrite Ha1|]. split; [done|]. done. }
    apply exec_bind_Ret in Hs as (ep & _ & Hs). apply exec_bind_Ret in Hs as ([o s2] & Hse & [= <- <-]).
    destruct (send_event_Ret _ _ _ _ _ Hse) as (q & Hq & Es2). wf.
    split; [done|]. split; [|split; [done|intros _]].
    + subst s2. destruct o; intros x; wf; by rewrite ?Hr1.
    + rewrite <- He1. unfold edge_step. cbn [ed_mode edge_of]. unfold mode. rewrite Ha1, Hr1.
      eapply pushed_edge; [exact Hq|..]; subst s2; destruct o; unfold mode; wf; rewrite ?Ha1, ?Hr1; done.
Qed.

Lemma mouse_edge ncode w mouse s r s' : one_cell s -> wn_running s = true -> mouse_proc ncode w mouse s = Ret (r, s') ->
  edge_of s' = foldl edge_step (edge_of s) (step_inputs (WsMouse ncode w mouse) s) /\ one_cell s'.
Proof.
  intros H1 Hrun. unfold mouse_proc. cbn [step_inputs]. rewrite Hrun. cbn [negb orb].
  destruct (ncode <? 0)%Z; cbn [orb]; [by intros [= <- <-]|].
  assert (forall b s1, check_client_activation w mouse s = Ret (b, s1) -> ml_injected mouse = true \/ b = false ->
    edge_of s1 = foldl edge_step (edge_of s) (match mode s with
      | MCaptured _ => if ml_injected mouse then [] else match to_mouse_event w mouse s with Ret (Some e) => [EiInput (Pointer e)] | _ => [] end
      | _ => if bool_decide (w = WmMouseMove) then motion_inputs mouse s else [] end) /\ one_cell s1) as Hact.
  { intros b s1 Hc Hb. destruct (activation_edge _ _ _ _ _ H1 Hc) as (-> & Hone & Hsome & Hnone).
    split; [|done]. unfold mode at 1. destruct (wn_active s) as [a|] eqn:Ea.
    - destruct Hb as [->|Hb]; [by apply Hsome|]. apply bool_decide_eq_false in Hb. by destruct Hb.
    - rewrite (Hnone eq_refl). by destruct (wn_rearm s). }
  destruct (ml_injected mouse) eqn:Ei; cbn [andb].
  { destruct (is_lan_mouse_injected_motion w mouse); cbn [negb]; [|by intros [= <- <-]].
    intros ([b s1] & Hc & [= <- <-])%exec_bind_Ret. apply (Hact b s1 Hc). by left. }
  intros ([b s1] & Hc & Hs)%exec_bind_Ret. destruct b; cbn [negb] in Hs.
  2:{ injection Hs as <- <-. apply (Hact _ _ Hc). by right. }
  destruct (activation_edge _ _ _ _ _ H1 Hc) as (Hb & Hone & Hsome & _). symmetry in Hb. apply bool_decide_eq_true in Hb as [p Hp].
  destruct Hsome as (Ha & Hen & He); [by rewrite Hp|]. rewrite Ha, Hp in Hs.
  replace (mode s) with (MCaptured p) by (unfold mode; by rewrite Hp).
  assert (to_mouse_event w mouse s1 = to_mouse_event w mouse s) as Hev by (unfold to_mouse_event; by rewrite Hen).
  rewrite Hev in Hs. apply exec_bind_Ret in Hs as (e & -> & Hs). destruct e as [e|]; [|injection Hs as <- <-; done].
  apply exec_bind_Ret in Hs as ([o s2] & Hse & Hs). cbn [foldl]. rewrite <- He. unfold edge_step. cbn [ed_mode edge_of].
  replace (mode s1) with (MCaptured p) by (unfold mode; by rewrite Ha, Hp).
  destruct (send_event_Ret _ _ _ _ _ Hse) as (q & _ & Es2).
  pose proof (Hone p ltac:(congruence)) as Hr.
  destruct o; injection Hs as <- <-.
  - split; [apply (sent_edge _ _ _ _ _ _ _ _ Hse); [done|done|]|]; subst s2; unfold mode; wf; [by rewrite Ha, Hp|exact Hone].
  - split; [apply (sent_edge _ _ _ _ _ _ _ _ Hse); [done|done|]|]; subst s2; unfold mode; wf; [by rewrite Hr|done].
Qed.

Lemma key_edge ncode w kb s r s' : one_cell s -> wn_running s = true -> kybrd_proc ncode w kb s = Ret (r, s') ->
  edge_of s' = foldl edge_step (edge_of s) (step_inputs (WsKey ncode w kb) s) /\ one_cell s'.
Proof.
  intros H1 Hrun. unfold kybrd_proc. cbn [step_inputs]. rewrite Hrun. cbn [negb orb].
  destruct (ncode <? 0)%Z; cbn [orb]; [by intros [= <- <-]|].
  destruct (kb_injected kb); [by intros [= <- <-]|].
  destruct (wn_active s) as [p|] eqn:Ea.
  2:{ intros [= <- <-]. split; [|done]. destruct (to_key_event w kb); [|done]. cbn [foldl].
      unfold edge_step. cbn [ed_mode edge_of]. unfold mode. rewrite Ea. by destruct (wn_rearm s). }
  destruct (to_key_event w kb) as [e|]; [|by intros [= <- <-]].
  intros ([o s2] & Hse & Hs)%exec_bind_Ret. cbn [foldl]. unfold edge_step. cbn [ed_mode edge_of].
  replace (mode s) with (MCaptured p) by (unfold mode; by rewrite Ea).
  destruct (send_event_Ret _ _ _ _ _ Hse) as (q & _ & Es2). pose proof (H1 p Ea) as Hr.
  destruct o; injection Hs as <- <-.
  - split; [apply (sent_edge _ _ _ _ _ _ _ _ Hse); [done|done|]|]; subst s2; unfold mode; wf; [by rewrite Ea|exact H1].
  - split; [apply (sent_edge _ _ _ _ _ _ _ _ Hse); [done|done|]|]; subst s2; unfold mode; wf; [by rewrite Hr|done].
Qed.

Lemma win_step_edge i s s' : one_cell s -> win_step i s = Ret s' ->
  edge_of s' = foldl edge_step (edge_of s) (step_inputs i s) /\ one_cell s'.
Proof.
  intros H1. destruct i as [p|p|w|p w| | | |n w m|n w k|modes| |]; cbn [win_step].
  1-5: unfold signal; wf; destruct (wn_running s); by intros [= <-].
  - cbn [step_inputs]. destruct (wn_running s); by intros [= <-].
  - cbn [step_inputs]. destruct (wn_messages s) as [|m rest] eqn:Em.
    { intros [= <-]. by destruct (wn_running s). }
    destruct (wn_running s) eqn:Hrun; [|by intros [= <-]].
    destruct m; cbn [on_message].
    + intros [= <-]. pose (s1 := s <| wn_messages := rest |> <| wn_request_buffer := [] |>).
      exact (update_clients_edge (wn_request_buffer s) s1 H1).
    + intros [= <-]. cbn [foldl]. unfold edge_step. cbn [ed_mode edge_of]. unfold edge_of, mode, one_cell. wf.
      destruct (wn_active s) as [p|] eqn:Ea; wf; [done|]. split; [by destruct (wn_rearm s)|done].
    + intros Hr. pose (s1 := s <| wn_messages := rest |> <| wn_resume_requests := [] |>).
      exact (resume_all_edge (wn_resume_requests s) s1 s' H1 Hr).
    + by intros [= <-].
  - destruct (wn_running s) eqn:Hrun; [|intros [= <-]; cbn [step_inputs]; by rewrite Hrun].
    intros ([r s1] & Hm & [= <-])%exec_bind_Ret. by eapply mouse_edge.
  - destruct (wn_running s) eqn:Hrun; [|intros [= <-]; cbn [step_inputs]; by rewrite Hrun].
    intros ([r s1] & Hm & [= <-])%exec_bind_Ret. by eapply key_edge.
  - by intros [= <-].
  - destruct (wn_running s); by intros [= <-].
  - intros ([r q] & Hq & [= <-])%exec_bind_Ret. split; [|done]. cbn [step_inputs foldl]. unfold edge_step. cbn [ed_mode edge_of ed_queue ed_log].
    rewrite Hq. unfold edge_of. change (mode (s <| wn_queue := q |>)) with (mode s). by destruct (mode s).
Qed.

Lemma win_run_edge steps : forall s s', one_cell s -> win_run steps s = Ret s' ->
  edge_of s' = foldl edge_step (edge_of s) (run_inputs steps s) /\ one_cell s'.
Proof.
  induction steps as [|i steps IH]; intros s s' H1; cbn [win_run run_inputs]; [by intros [= <-]|].
  intros (s1 & Hi & Hr)%exec_bind_Ret. destruct (win_step_edge i s s1 H1 Hi) as [He H1'].
  rewrite Hi, foldl_app, <- He. by apply IH.
Qed.

(** What the log says in each mode. *)
Definition edge_log (x : Edge) : Prop :=
  ordered (ed_log x)
  /\ match ed_mode x with MCaptured p | MReleased p => last_edge (ed_log x) = Some (p, Begin) | MLocal => True end.

Lemma edge_push_log p e queued full x : edge_log x -> (e <> Begin -> last_edge (ed_log x) = Some (p, Begin)) ->
  match queued with
  | MCaptured q | MReleased q => q = p /\ e <> EdgeRetreated
  | MLocal => True
  end -> full = MLocal \/ full = ed_mode x -> edge_log (edge_push p e queued full x).
Proof.
  intros [Ho Hm] He Hq Hf. unfold edge_push.
  destruct (queue_push p e (ed_queue x)) as [[[] q]| |]; [|destruct Hf as [-> | ->]; by split|by split..].
  split; [by apply ordered_snoc|]. cbn [ed_mode ed_log]. rewrite last_edge_snoc.
  destruct queued as [|r|r]; [done|..]; destruct Hq as [-> Hq], e; try done; by apply He.
Qed.

Lemma edge_step_log x i : edge_log x -> edge_log (edge_step x i).
Proof.
  intros Hx. pose proof Hx as [Ho Hm]. unfold edge_step.
  destruct i as [|p|p|p| |e| |], (ed_mode x) as [|q|q] eqn:Em; try done;
    try (case_bool_decide; [subst|done]); try (by split);
    try (apply edge_push_log; [done|done|by try split|by auto]).
  all: try (destruct (queue_poll (ed_queue x)) as [[r q']| |]; split; cbn; by rewrite ?Em).
  all: split; cbn; by rewrite ?Em.
Qed.

(** C35: the Windows capture implements the contract of an edge, exactly: the
    mode (local, captured or released), the queue and the reported events are
    those the contract computes from what happened, in every run of the capture
    task, the user and the reader, and no run panics (positions and sizes of
    displays within 2^28, pointer coordinates within 2^29, no call after the
    drop of the thread's handle).  In particular a
    release of a captured edge leads to the released mode, which only the
    pointer's retreat, a resumption or the removal of that client ends; and a
    captured edge is lost only by a release, by the removal of its client or
    when the queue refuses an event.  The events that were queued are ordered:
    input and retreat belong to the edge whose capture began last, and no input
    follows a retreat.  An active or released edge is that of a registered
    client. *)
Theorem windows_capture_refines modes steps :
  Forall small_mode modes -> legal_steps steps ->
  exists s, win_run steps (win_new modes) = Ret s
  /\ edge_of s = foldl edge_step (mkEdge MLocal queue_new []) (run_inputs steps (win_new modes))
  /\ ordered (wn_log s)
  /\ forall p, wn_active s = Some p \/ wn_rearm s = Some p -> p ∈ wn_clients s.
Proof.
  intros Hm Hs. destruct (win_runs modes steps Hm Hs) as (s & Hr & HW).
  destruct (win_run_edge steps (win_new modes) s ltac:(done) Hr) as [He _].
  exists s. split; [done|]. split; [exact He|]. split.
  - change (ordered (ed_log (edge_of s))). rewrite He. clear.
    assert (forall inputs x, edge_log x -> edge_log (foldl edge_step x inputs)) as H.
    { induction inputs as [|i inputs IH]; intros x Hx; [done|]. by apply IH, edge_step_log. }
    apply H. split; [|done]. by intros [].
  - intros p [H|H]; [by apply (wo_active _ HW)|by apply (wo_rearm _ HW)].
Qed.

(** Whoever waits for a release is answered. *)
Lemma messages_answered n : forall s, WinOk s -> wn_running s = true -> RqExit ∉ wn_messages s -> length (wn_messages s) = n ->
  exists s', win_run (replicate n WsMessage) s = Ret s' /\ wn_messages s' = [] /\ wn_release_waiters s' = []
  /\ wn_answers s `prefix_of` wn_answers s' /\ forall w, w ∈ wn_release_waiters s -> (w, true) ∈ wn_answers s'.
Proof.
  induction n as [|n IH]; intros s HW Hrun Hex Hn; destruct (wn_messages s) as [|m rest] eqn:Em; try done.
  - exists s. cbn. split; [done|]. split; [done|]. assert (wn_release_waiters s = []) as Hw.
    { destruct (wn_release_waiters s) eqn:E; [done|]. exfalso. pose proof (wo_release _ HW) as H. rewrite E, Em in H.
      by eapply not_elem_of_nil, H. }
    rewrite Hw. split; [done|]. split; [by exists []; rewrite app_nil_r|]. by intros w ?%not_elem_of_nil.
  - cbn [replicate win_run win_step]. rewrite Em, Hrun.
    destruct (on_message_spec m rest s HW Em) as (s1 & -> & HW1 & Em1 & Hp & Hrel & Hoth & Hr1). cbn [exec_bind].
    apply not_elem_of_cons in Hex as [Hne Hex]. cbn in Hn.
    destruct (IH s1 HW1) as (s2 & -> & H1 & H2 & H3 & H4); [by rewrite Hr1; destruct m|by rewrite Em1|rewrite Em1; lia|].
    exists s2. split; [done|]. split; [done|]. split; [done|]. split; [by etrans|]. intros w Hw.
    destruct m; try (apply H4; rewrite Hoth; done). destruct H3 as [k ->]. apply elem_of_app. left. by apply Hrel.
Qed.

(** A release is answered: as long as the thread was not asked to exit, the
    messages that wait lead, handled one after another, to an answer for every
    caller of [release], and then no caller is left. *)
Theorem windows_release_answered modes steps s :
  Forall small_mode modes -> legal_steps steps -> win_run steps (win_new modes) = Ret s ->
  wn_running s = true -> RqExit ∉ wn_messages s ->
  exists s', win_run (replicate (length (wn_messages s)) WsMessage) s = Ret s' /\ wn_release_waiters s' = []
  /\ forall w, w ∈ wn_release_waiters s -> (w, true) ∈ wn_answers s'.
Proof.
  intros Hm Hs Hrun Hr Hex. destruct (win_runs modes steps Hm Hs) as (s1 & E & HW).
  rewrite Hrun in E. injection E as <-. destruct (messages_answered _ s HW Hr Hex eq_refl) as (s' & H1 & _ & H2 & _ & H3). eauto.
Qed.

(** ** A concrete run *)
Module windows_demo.
Definition modes : list DevMode := [mkDevMode 0 0 1920 1080].
Definition move (x y : Z) : WinStep := WsMouse 0 WmMouseMove (mkMouse (x, y) 0 false 0).
(** A client at the right edge is registered, the pointer crosses the edge and
    moves on, and the capture is released. *)
Definition steps : list WinStep :=
  [WsCreate CRight; WsMessage; move 1900 500; move 1925 500; move 1924 501; WsRelease 7].
Definition state : Win :=
  match win_run steps (win_new modes) with Ret s => s | _ => win_new modes end.

Lemma small_modes : Forall small_mode modes.
Proof. repeat constructor; cbn; lia. Qed.
Lemma small_steps : Forall small_step steps.
Proof. repeat constructor; cbn; lia. Qed.
Lemma steps_legal : legal_steps steps.
Proof. split; [exact small_steps|done]. Qed.
Lemma runs : win_run steps (win_new modes) = Ret state.
Proof. vm_compute. reflexivity. Qed.

Lemma windows_capture_exclusive_witness : exists s, win_run steps (win_new modes) = Ret s.
Proof.
  destruct (windows_capture_exclusive modes steps small_modes steps_legal) as (s & H & _). exists s. exact H.
Defined.

Lemma windows_capture_refines_witness :
  run_inputs (steps ++ [WsMessage]) (win_new modes)
    = [EiCross CRight; EiInput (Pointer (Motion 0 (f64_of_i32 5) (f64_of_i32 1))); EiRelease]
  /\ exists s, win_run (steps ++ [WsMessage]) (win_new modes) = Ret s /\ mode s = MReleased CRight /\ ordered (wn_log s).
Proof.
  split; [vm_compute; reflexivity|].
  destruct (windows_capture_refines modes (steps ++ [WsMessage]) small_modes) as (s & Hr & He & Ho & _).
  { split; [|done]. apply Forall_app. split; [exact small_steps|repeat constructor]. }
  exists s. split; [exact Hr|]. split; [|exact Ho].
  change (ed_mode (edge_of s) = MReleased CRight). rewrite He. vm_compute. reflexivity.
Defined.

(** A captured edge that the pointer touches again after its release is not
    entered; after the retreat it is. *)
Example released_edge_waits :
  let again := [WsMessage; move 1900 500; move 1925 500] in
  match win_run (steps ++ [WsMessage; move 1925 500]) (win_new modes),
        win_run (steps ++ again) (win_new modes) with
  | Ret s, Ret s' => mode s = MReleased CRight /\ wn_log s = wn_log state
      /\ mode s' = MCaptured CRight /\ wn_log s' = wn_log state ++ [(CRight, EdgeRetreated); (CRight, Begin)]
  | _, _ => False
  end.
Proof. vm_compute. done. Qed.

(** A captured event that has no translation, here a key of an unknown scan
    code, is kept from the local system and sent to nobody. *)
Example untranslated_key_lost :
  match kybrd_proc 0 WmKeyDown (mkKeyData 0x7F false false) state with
  | Ret (r, s) => r = Swallowed /\ wn_log s = wn_log state /\ mode s = MCaptured CRight
  | _ => False
  end.
Proof. vm_compute. done. Qed.

Lemma windows_release_answered_witness :
  wn_release_waiters state = [7%N]
  /\ exists s', win_run (replicate (length (wn_messages state)) WsMessage) state = Ret s' /\ wn_release_waiters s' = []
     /\ forall w, w ∈ wn_release_waiters state -> (w, true) ∈ wn_answers s'.
Proof.
  split; [vm_compute; reflexivity|].
  apply (windows_release_answered modes steps state small_modes steps_legal runs); [vm_compute; reflexivity|].
  vm_compute. intros H. inversion H as [|? ? ? H']. inversion H'.
Defined.

(** The queue keeps only the last of successive motions, while each of them is
    a displacement: two motions by five pixels arrive as one. *)
Example merged_motion_loses_displacement :
  match win_run [WsCreate CRight; WsMessage; move 1900 500; move 1925 500; move 1924 500; move 1924 500] (win_new modes) with
  | Ret s => qu_events (wn_queue s) = [(CRight, Begin); (CRight, CInput (Pointer (Motion 0 (f64_of_i32 5) (f64_of_i32 0))))]
             /\ length (wn_log s) = 3%nat
  | _ => False
  end.
Proof. vm_compute. done. Qed.

(** A motion that leaves the desktop at a corner is taken for the left or right
    edge only: the client at the top is not entered. *)
Example corner_hides_top :
  match win_run [WsCreate CTop; WsMessage; move 1900 20; move 1925 (-5)] (win_new modes) with
  | Ret s => wn_active s = None /\ crossed (1900, 20)%Z (1925, -5)%Z (wn_displays s) CTop
  | _ => False
  end.
Proof.
  vm_compute. split; [done|]. split; [eexists; split; [left|done]|]. intros d Hd. inversion Hd as [|? ? ? H]; [done|inversion H].
Qed.
End windows_demo.
