(* ===== verification/LayerShell.v ===== *)
(** * Capture on Wayland with layer-shell (input-capture/src/layer_shell.rs)

    Thin windows along the outer edges of the outputs notice the pointer.  When
    it enters one, the pointer is locked and the keyboard is taken, and as soon
    as the compositor confirms the lock the capture begins.

    Objects of the compositor (surfaces, locks, pointers, keyboards) are numbers;
    the requests that matter for the capture are recorded in [ls_requests].
    Events of the compositor are inputs.  The drawing of the transparent windows
    and the release of objects that nothing refers to are not modelled. *)

From stdpp Require Import base tactics list gmap sets strings.
From Stdlib Require Import NArith ZArith Lia.
From S2P Require Import Prelude Bytes MachineNumbers ProtoWire Scancode CaptureQueue InputCapture.

(** ** Data *)

Record OutputInfo := mkOutputInfo {
  oi_description : string;
  oi_name : string;
  oi_position : Z * Z;
  oi_size : Z * Z }.
#[global] Instance OutputInfo_eta : RecordEta OutputInfo := fun i =>
  mkOutputInfo (oi_description i) (oi_name i) (oi_position i) (oi_size i).
Definition output_info_default : OutputInfo := mkOutputInfo "" "" (0, 0)%Z (0, 0)%Z.

(** [ou_name] is the name of the global. *)
Record Output := mkOutput {
  ou_name : N;
  ou_info : option OutputInfo;
  ou_pending_info : OutputInfo;
  ou_has_xdg_info : bool }.
#[global] Instance Output_eta : RecordEta Output := fun o =>
  mkOutput (ou_name o) (ou_info o) (ou_pending_info o) (ou_has_xdg_info o).

Inductive PointerLockState := LkReleased | LkPending | LkLocked.
#[global] Instance PointerLockState_eq_dec : EqDecision PointerLockState.
Proof. solve_decision. Defined.

(** [Window]: its surface, its edge, and the size it was made with. *)
Record Window := mkWindow {
  wi_surface : N;
  wi_pos : CapturePosition;
  wi_size : N * N }.
#[global] Instance Window_eq_dec : EqDecision Window.
Proof. solve_decision. Defined.

(** Requests to the compositor *)
Inductive WlRequest :=
| RqSetCursor (pointer serial : N)
| RqExclusive (surface : N)          (* keyboard interactivity, with the commit *)
| RqNotInteractive (surface : N)
| RqLockPointer (lock surface pointer : N)
| RqDestroyLock (lock : N)
| RqRelativePointer (rel pointer : N)
| RqDestroyRelative (rel : N)
| RqInhibitShortcuts (inhibitor surface : N)
| RqDestroyInhibitor (inhibitor : N)
| RqCreateWindow (w : Window)
| RqAttach (surface serial : N)
| RqGetPointer (pointer : N)
| RqReleasePointer (pointer : N)
| RqGetKeyboard (keyboard : N)
| RqReleaseKeyboard (keyboard : N).

(** [State]; [ls_next] numbers the objects, [ls_keyboards] are the keyboards
    that were asked for and not released, which all report to us. *)
Record Ls := mkLs {
  ls_active_positions : gset CapturePosition;
  ls_pointer : option N;
  ls_keyboard : option N;
  ls_pointer_lock : option N;
  ls_pointer_lock_state : PointerLockState;
  ls_pending_begin : option CapturePosition;
  ls_rel_pointer : option N;
  ls_shortcut_inhibitor : option N;
  ls_active_windows : list Window;
  ls_focused : option Window;
  ls_focused_serial : option N;
  ls_pending_events : list (CapturePosition * CaptureEvent);
  ls_outputs : list Output;
  ls_scroll_discrete_pending : bool;
  ls_inhibit_manager : bool;
  ls_keyboards : list N;
  ls_next : N;
  ls_requests : list WlRequest }.
#[global] Instance Ls_eta : RecordEta Ls := fun s =>
  mkLs (ls_active_positions s) (ls_pointer s) (ls_keyboard s) (ls_pointer_lock s) (ls_pointer_lock_state s)
    (ls_pending_begin s) (ls_rel_pointer s) (ls_shortcut_inhibitor s) (ls_active_windows s) (ls_focused s)
    (ls_focused_serial s) (ls_pending_events s) (ls_outputs s) (ls_scroll_discrete_pending s) (ls_inhibit_manager s)
    (ls_keyboards s) (ls_next s) (ls_requests s).

(** [LayerShellInputCapture::new], when the globals were bound; the optional
    one may be missing *)
Definition ls_new (inhibit_manager : bool) : Ls :=
  mkLs ∅ None None None LkReleased None None None [] None None [] [] false inhibit_manager [] 0 [].

Definition wl_request (r : WlRequest) (s : Ls) : Ls := s <| ls_requests ::= fun rs => rs ++ [r] |>.
Definition push (pos : CapturePosition) (e : CaptureEvent) (s : Ls) : Ls :=
  s <| ls_pending_events ::= fun q => q ++ [(pos, e)] |>.

(** [queue_confirmed_begin]: before the first input of that edge *)
Fixpoint queue_confirmed_begin (pos : CapturePosition) (q : list (CapturePosition * CaptureEvent))
  : list (CapturePosition * CaptureEvent) :=
  match q with
  | [] => [(pos, Begin)]
  | (p, e) :: rest =>
      if bool_decide (p = pos) && match e with CInput _ => true | _ => false end
      then (pos, Begin) :: q else (p, e) :: queue_confirmed_begin pos rest
  end.

(** ** Outputs and windows *)

(** The edge of an output *)
Definition output_edge (pos : CapturePosition) (i : OutputInfo) : exec Empty_set Z :=
  match pos with
  | CLeft => Ret (fst (oi_position i))
  | CRight => i32_add (fst (oi_position i)) (fst (oi_size i))
  | CTop => Ret (snd (oi_position i))
  | CBottom => i32_add (snd (oi_position i)) (snd (oi_size i))
  end.

(** [get_edges] *)
Fixpoint get_edges (outputs : list Output) (pos : CapturePosition) : exec Empty_set (list (Output * Z)) :=
  match outputs with
  | [] => Ret []
  | o :: outputs =>
      match ou_info o with
      | None => get_edges outputs pos
      | Some i =>
          let* e := output_edge pos i in
          let* es := get_edges outputs pos in
          Ret ((o, e) :: es)
      end
  end.

(** [get_output_configuration] *)
Definition get_output_configuration (outputs : list Output) (pos : CapturePosition) : exec Empty_set (list Output) :=
  let* edges := get_edges outputs pos in
  let* opposite_edges := get_edges outputs (opposite pos) in
  Ret (map fst (List.filter (fun oe => negb (existsb (fun e => (e =? snd oe)%Z) (map snd opposite_edges))) edges)).

(** [Window::new], with the size of its buffer *)
Definition window_size (pos : CapturePosition) (size : Z * Z) : N * N :=
  match pos with
  | CLeft | CRight => (1%N, i32_as_u32 (snd size))
  | CTop | CBottom => (i32_as_u32 (fst size), 1%N)
  end.
Definition window_new (pos : CapturePosition) (size : Z * Z) (s : Ls) : exec Empty_set (Window * Ls) :=
  let '(width, height) := window_size pos size in
  let* pixels := u32_mul width height in
  let* _ := u32_mul pixels 4 in
  let* _ := u32_mul width 4 in
  let w := mkWindow (ls_next s) pos (width, height) in
  Ret (w, wl_request (RqCreateWindow w) (s <| ls_next ::= N.succ |>)).

Fixpoint add_windows (pos : CapturePosition) (outputs : list Output) (s : Ls) : exec Empty_set Ls :=
  match outputs with
  | [] => Ret s
  | o :: outputs =>
      match ou_info o with
      | None => add_windows pos outputs s
      | Some i =>
          let* (w, s) := window_new pos (oi_size i) s in
          add_windows pos outputs (s <| ls_active_windows ::= fun ws => ws ++ [w] |>)
      end
  end.

(** [State::add_client] *)
Definition add_client (pos : CapturePosition) (s : Ls) : exec Empty_set Ls :=
  let s := s <| ls_active_positions ::= fun ps => {[pos]} ∪ ps |> in
  let* outputs := get_output_configuration (ls_outputs s) pos in
  add_windows pos outputs s.

(** [delete_client]: each window of the edge that is removed also clears the
    focus *)
Definition delete_client (pos : CapturePosition) (s : Ls) : Ls :=
  let s := s <| ls_active_positions ::= fun ps => ps ∖ {[pos]} |> in
  if existsb (fun w => bool_decide (wi_pos w = pos)) (ls_active_windows s)
  then s <| ls_active_windows ::= List.filter (fun w => negb (bool_decide (wi_pos w = pos))) |> <| ls_focused := None |>
  else s.

Section layer_shell.
(** The iteration order of the set of edges. *)
Variable pos_iter : gset CapturePosition -> list CapturePosition.

Fixpoint add_clients (ps : list CapturePosition) (s : Ls) : exec Empty_set Ls :=
  match ps with
  | [] => Ret s
  | pos :: ps => let* s := add_client pos s in add_clients ps s
  end.

(** [update_windows] *)
Definition update_windows (s : Ls) : exec Empty_set Ls :=
  add_clients (pos_iter (ls_active_positions s)) (s <| ls_active_windows := [] |>).

(** Access to the output of a global *)
Definition update_output (name : N) (f : Output -> Output) (s : Ls) : Ls :=
  s <| ls_outputs ::= update_first (fun o => (ou_name o =? name)%N) f |>.
Definition find_output (name : N) (s : Ls) : option Output := List.find (fun o => (ou_name o =? name)%N) (ls_outputs s).

(** [update_output_info] *)
Definition update_output_info (name : N) (s : Ls) : exec Empty_set Ls :=
  let* output := expect (find_output name s) "output not found" in
  if ou_has_xdg_info output
  then update_windows (update_output name (fun o => o <| ou_info := Some (ou_pending_info o) |>) s)
  else Ret s.

(** [register_global] and [deregister_global] *)
Definition register_global (name : N) (is_output : bool) (s : Ls) : Ls :=
  if is_output then s <| ls_outputs ::= fun os => os ++ [mkOutput name None output_info_default false] |> else s.
Definition deregister_global (name : N) (s : Ls) : Ls :=
  s <| ls_outputs ::= List.filter (fun o => negb (ou_name o =? name)%N) |>.

(** ** Grabbing *)

(** [grab] *)
Definition grab (surface pointer serial : N) (s : Ls) : exec Empty_set Ls :=
  let* window := expect (ls_focused s) "called `Option::unwrap()` on a `None` value" in
  let s := wl_request (RqSetCursor pointer serial) s in
  let s := wl_request (RqExclusive (wi_surface window)) s in
  let s := match ls_pointer_lock s with
           | Some _ => s
           | None =>
               wl_request (RqLockPointer (ls_next s) surface pointer)
                 (s <| ls_pointer_lock_state := LkPending |> <| ls_pointer_lock := Some (ls_next s) |> <| ls_next ::= N.succ |>)
           end in
  let s := match ls_rel_pointer s with
           | Some _ => s
           | None => wl_request (RqRelativePointer (ls_next s) pointer)
                       (s <| ls_rel_pointer := Some (ls_next s) |> <| ls_next ::= N.succ |>)
           end in
  Ret (match ls_shortcut_inhibitor s with
       | None =>
           if ls_inhibit_manager s
           then wl_request (RqInhibitShortcuts (ls_next s) surface)
                  (s <| ls_shortcut_inhibitor := Some (ls_next s) |> <| ls_next ::= N.succ |>)
           else s
       | Some _ => s
       end).

(** [begin_when_pointer_locked] *)
Definition begin_when_pointer_locked (pos : CapturePosition) (s : Ls) : Ls :=
  if bool_decide (ls_pointer_lock_state s = LkLocked)
  then s <| ls_pending_events ::= queue_confirmed_begin pos |>
  else s <| ls_pending_begin := Some pos |>.

(** [pointer_locked], with [confirm_pointer_lock] *)
Definition pointer_locked (s : Ls) : Ls :=
  let pending := ls_pending_begin s in
  let s := s <| ls_pointer_lock_state := LkLocked |> <| ls_pending_begin := None |> in
  match pending with
  | Some pos => s <| ls_pending_events ::= queue_confirmed_begin pos |>
  | None => s
  end.

(** [current_pointer_lock] *)
Definition current_pointer_lock (lock : N) (s : Ls) : bool := bool_decide (ls_pointer_lock s = Some lock).

(** [ungrab] *)
Definition ungrab (s : Ls) : Ls :=
  match ls_focused s with
  | None => s
  | Some window =>
      let s := wl_request (RqNotInteractive (wi_surface window)) s in
      let s := match ls_pointer_lock s with
               | Some lock => wl_request (RqDestroyLock lock) (s <| ls_pointer_lock := None |>)
               | None => s
               end in
      let s := s <| ls_pointer_lock_state := LkReleased |> <| ls_pending_begin := None |> in
      let s := match ls_rel_pointer s with
               | Some rel => wl_request (RqDestroyRelative rel) (s <| ls_rel_pointer := None |>)
               | None => s
               end in
      match ls_shortcut_inhibitor s with
      | Some i => wl_request (RqDestroyInhibitor i) (s <| ls_shortcut_inhibitor := None |>)
      | None => s
      end
  end.

(** [State::resume_if_focused], with [same_focused_edge] *)
Definition state_resume_if_focused (pos : CapturePosition) (s : Ls) : exec Empty_set (bool * Ls) :=
  match ls_focused s, ls_pointer s, ls_focused_serial s with
  | Some window, Some pointer, Some serial =>
      if bool_decide (wi_pos window = pos) then
        let* s := grab (wi_surface window) pointer serial s in
        Ret (true, begin_when_pointer_locked pos s)
      else Ret (false, s)
  | _, _, _ => Ret (false, s)
  end.

(** ** Events of the compositor *)

Inductive WlEvent :=
| WlCapabilities (pointer keyboard : bool)
| WlEnter (pointer serial surface : N)
| WlLeave
| WlButton (time button state : N)
| WlAxis (time axis value : N)
| WlAxisValue120 (axis : N) (value : Z)
| WlKey (keyboard time key state : N)
| WlModifiers (keyboard depressed latched locked group : N)
| WlRelativeMotion (utime_hi utime_lo dx dy : N)
| WlLocked (lock : N)
| WlUnlocked (lock : N)
| WlConfigure (surface serial : N)
| WlGlobal (name : N) (is_output : bool)
| WlGlobalRemove (name : N)
| WlLogicalPosition (name : N) (x y : Z)
| WlLogicalSize (name : N) (width height : Z)
| WlXdgDone (name : N)
| WlXdgName (name : N) (value : string)
| WlXdgDescription (name : N) (value : string)
| WlOutputDone (name : N).

(** [app.focused.as_ref().unwrap()] *)
Definition focused_window (s : Ls) : exec Empty_set Window :=
  expect (ls_focused s) "called `Option::unwrap()` on a `None` value".

(** The pointer enters a surface. *)
Definition on_enter (pointer serial surface : N) (s : Ls) : exec Empty_set Ls :=
  match List.find (fun w => (wi_surface w =? surface)%N) (ls_active_windows s) with
  | None => Ret s
  | Some window =>
      let s := s <| ls_focused := Some window |> <| ls_focused_serial := Some serial |> in
      let* s := grab surface pointer serial s in
      Ret (begin_when_pointer_locked (wi_pos window) s)
  end.

Definition on_leave (s : Ls) : Ls :=
  let retreated_pos := wi_pos <$> ls_focused s in
  let s := ungrab s in
  let s := s <| ls_focused := None |> <| ls_focused_serial := None |> in
  match retreated_pos with Some pos => push pos EdgeRetreated s | None => s end.

Definition on_unlocked (s : Ls) : Ls :=
  let lost_pos := wi_pos <$> ls_focused s in
  let s := ungrab s in
  match lost_pos with
  | Some pos =>
      push pos EdgeRetreated
        (s <| ls_pending_events ::= List.filter (fun pe =>
           negb (bool_decide (fst pe = pos)) || match snd pe with Begin => false | _ => true end) |>)
  | None => s
  end.

(** An event of an xdg output changes what is pending. *)
Definition xdg_update (name : N) (f : OutputInfo -> OutputInfo) (s : Ls) : exec Empty_set Ls :=
  let* _ := expect (find_output name s) "output" in
  Ret (update_output name (fun o => o <| ou_pending_info ::= f |> <| ou_has_xdg_info := true |>) s).

(** The [Dispatch::event] functions, one for each interface *)

(** [Dispatch<WlSeat>] *)
Definition seat_event (e : WlEvent) (s : Ls) : exec Empty_set Ls :=
  match e with
  | WlCapabilities pointer keyboard =>
      let s := if pointer then
                 let s := match ls_pointer s with Some p => wl_request (RqReleasePointer p) s | None => s end in
                 wl_request (RqGetPointer (ls_next s)) (s <| ls_pointer := Some (ls_next s) |> <| ls_next ::= N.succ |>)
               else s in
      Ret (if keyboard then
             let s := match ls_keyboard s with
                      | Some k => wl_request (RqReleaseKeyboard k)
                                    (s <| ls_keyboard := None |> <| ls_keyboards ::= List.filter (fun k' => negb (k' =? k)%N) |>)
                      | None => s
                      end in
             wl_request (RqGetKeyboard (ls_next s)) (s <| ls_keyboards ::= fun ks => ks ++ [ls_next s] |> <| ls_next ::= N.succ |>)
           else s)
  | _ => Ret s
  end.

(** [Dispatch<WlPointer>] *)
Definition pointer_event (e : WlEvent) (s : Ls) : exec Empty_set Ls :=
  match e with
  | WlEnter pointer serial surface => on_enter pointer serial surface s
  | WlLeave => Ret (on_leave s)
  | WlButton time button state =>
      let* window := focused_window s in
      Ret (push (wi_pos window) (CInput (Pointer (Button time button state))) s)
  | WlAxis time axis value =>
      let* window := focused_window s in
      if ls_scroll_discrete_pending s then Ret (s <| ls_scroll_discrete_pending := false |>)
      else Ret (push (wi_pos window) (CInput (Pointer (Axis time (axis mod 256)%N value))) s)
  | WlAxisValue120 axis value =>
      let* window := focused_window s in
      Ret (push (wi_pos window) (CInput (Pointer (AxisDiscrete120 (axis mod 256)%N value)))
             (s <| ls_scroll_discrete_pending := true |>))
  | _ => Ret s
  end.

(** [Dispatch<WlKeyboard>] *)
Definition keyboard_event (e : WlEvent) (s : Ls) : exec Empty_set Ls :=
  match e with
  | WlKey _ time key state =>
      Ret (match ls_focused s with
           | Some window => push (wi_pos window) (CInput (Keyboard (Key time key (state mod 256)%N))) s
           | None => s
           end)
  | WlModifiers _ depressed latched locked group =>
      Ret (match ls_focused s with
           | Some window => push (wi_pos window) (CInput (Keyboard (Modifiers depressed latched locked group))) s
           | None => s
           end)
  | _ => Ret s
  end.

(** [Dispatch<ZwpRelativePointerV1>] *)
Definition relative_event (e : WlEvent) (s : Ls) : exec Empty_set Ls :=
  match e with
  | WlRelativeMotion utime_hi utime_lo dx dy =>
      Ret (match ls_focused s with
           | Some window =>
               let time := ((N.lor (N.shiftl utime_hi 32) utime_lo / 1000) mod 4294967296)%N in
               push (wi_pos window) (CInput (Pointer (Motion time dx dy))) s
           | None => s
           end)
  | _ => Ret s
  end.

(** [Dispatch<ZwpLockedPointerV1>] *)
Definition lock_event (e : WlEvent) (s : Ls) : exec Empty_set Ls :=
  match e with
  | WlLocked lock => Ret (if current_pointer_lock lock s then pointer_locked s else s)
  | WlUnlocked lock => Ret (if current_pointer_lock lock s then on_unlocked s else s)
  | _ => Ret s
  end.

(** [Dispatch<ZwlrLayerSurfaceV1>] *)
Definition layer_surface_event (e : WlEvent) (s : Ls) : exec Empty_set Ls :=
  match e with
  | WlConfigure surface serial =>
      Ret (if existsb (fun w => (wi_surface w =? surface)%N) (ls_active_windows s) then wl_request (RqAttach surface serial) s else s)
  | _ => Ret s
  end.

(** [Dispatch<WlRegistry>] *)
Definition registry_event (e : WlEvent) (s : Ls) : exec Empty_set Ls :=
  match e with
  | WlGlobal name is_output => Ret (register_global name is_output s)
  | WlGlobalRemove name => Ret (deregister_global name s)
  | _ => Ret s
  end.

(** [Dispatch<ZxdgOutputV1>] *)
Definition xdg_output_event (e : WlEvent) (s : Ls) : exec Empty_set Ls :=
  match e with
  | WlLogicalPosition name x y => xdg_update name (fun i => i <| oi_position := (x, y) |>) s
  | WlLogicalSize name width height => xdg_update name (fun i => i <| oi_size := (width, height) |>) s
  | WlXdgDone name =>
      let* _ := expect (find_output name s) "output" in
      update_output_info name s
  | WlXdgName name value => xdg_update name (fun i => i <| oi_name := value |>) s
  | WlXdgDescription name value => xdg_update name (fun i => i <| oi_description := value |>) s
  | _ => Ret s
  end.

(** [Dispatch<WlOutput>] *)
Definition output_event (e : WlEvent) (s : Ls) : exec Empty_set Ls :=
  match e with
  | WlOutputDone name => update_output_info name s
  | _ => Ret s
  end.

Definition wl_event (e : WlEvent) (s : Ls) : exec Empty_set Ls :=
  match e with
  | WlCapabilities _ _ => seat_event e s
  | WlEnter _ _ _ | WlLeave | WlButton _ _ _ | WlAxis _ _ _ | WlAxisValue120 _ _ => pointer_event e s
  | WlKey _ _ _ _ | WlModifiers _ _ _ _ _ => keyboard_event e s
  | WlRelativeMotion _ _ _ _ => relative_event e s
  | WlLocked _ | WlUnlocked _ => lock_event e s
  | WlConfigure _ _ => layer_surface_event e s
  | WlGlobal _ _ | WlGlobalRemove _ => registry_event e s
  | WlLogicalPosition _ _ _ | WlLogicalSize _ _ _ | WlXdgDone _ | WlXdgName _ _ | WlXdgDescription _ _ => xdg_output_event e s
  | WlOutputDone _ => output_event e s
  end.

(** [dispatch_pending] *)
Fixpoint dispatch_all (es : list WlEvent) (s : Ls) : exec Empty_set Ls :=
  match es with
  | [] => Ret s
  | e :: es => let* s := wl_event e s in dispatch_all es s
  end.

(** ** The calls of [Capture]

    [None] for an error of the connection. *)

(** [resume_if_focused]: whether the first flush works, the events that the
    round trip dispatches if it works, and whether the last flush works *)
Definition resume_if_focused (pos : CapturePosition) (flushed : bool) (roundtrip : option (list WlEvent)) (flushed' : bool)
    (s : Ls) : exec Empty_set (option bool * Ls) :=
  let* (started, s) := state_resume_if_focused pos s in
  if negb started then Ret (Some false, s)
  else if negb flushed then Ret (None, s)
  else match roundtrip with
       | None => Ret (None, s)
       | Some events =>
           let* s := dispatch_all events s in
           if bool_decide (ls_pointer_lock_state s = LkLocked) then Ret (Some true, s)
           else Ret (if flushed' then Some false else None, ungrab s)
       end.

Inductive LsStep :=
| LsCreate (pos : CapturePosition)
| LsDestroy (pos : CapturePosition)
| LsRelease
| LsResume (pos : CapturePosition) (flushed : bool) (roundtrip : option (list WlEvent)) (flushed' : bool)
| LsDispatch (events : list WlEvent)       (* in [poll_next] *)
| LsPop.                                   (* [poll_next] hands out an event *)

Definition ls_step (i : LsStep) (s : Ls) : exec Empty_set Ls :=
  match i with
  | LsCreate pos => add_client pos s
  | LsDestroy pos => Ret (delete_client pos s)
  | LsRelease => Ret (ungrab s)
  | LsResume pos flushed roundtrip flushed' => let* (_, s) := resume_if_focused pos flushed roundtrip flushed' s in Ret s
  | LsDispatch events => dispatch_all events s
  | LsPop => Ret (s <| ls_pending_events ::= tail |>)
  end.
Fixpoint ls_run (steps : list LsStep) (s : Ls) : exec Empty_set Ls :=
  match steps with
  | [] => Ret s
  | i :: steps => let* s := ls_step i s in ls_run steps s
  end.
End layer_shell.
