(* ===== verification/LayerShellTheorems.v ===== *)
(** * Capture on Wayland: grabs, locks and the begin of a capture

    As long as no client is removed while the pointer is in a capture window,
    everything that was grabbed belongs to the focused window and is given back
    by a release, no handler panics, and a capture begins only when the
    compositor has confirmed the lock of the pointer for its edge.  The
    examples at the end show what happens when another client is removed during
    a capture, and when the seat announces its capabilities twice. *)

From stdpp Require Import base tactics list gmap sets strings.
From Stdlib Require Import NArith ZArith Lia.
From S2P Require Import Prelude Bytes MachineNumbers ProtoWire Scancode CaptureQueue InputCapture LayerShell.

Ltac sf := unfold wl_request, push in *; unfold set in *; cbn [ls_active_positions ls_pointer ls_keyboard ls_pointer_lock ls_pointer_lock_state
  ls_pending_begin ls_rel_pointer ls_shortcut_inhibitor ls_active_windows ls_focused ls_focused_serial ls_pending_events
  ls_outputs ls_scroll_discrete_pending ls_inhibit_manager ls_keyboards ls_next ls_requests fst snd exec_bind expect] in *.

(** ** Begin goes before the input of its edge *)

Definition is_input (pe : CapturePosition * CaptureEvent) : bool := match snd pe with CInput _ => true | _ => false end.
Definition is_begin (pe : CapturePosition * CaptureEvent) : bool := match snd pe with Begin => true | _ => false end.
Definition begins (q : list (CapturePosition * CaptureEvent)) : nat := length (List.filter is_begin q).

Lemma confirmed_begin_spec pos q : exists l1 l2, q = l1 ++ l2 /\ queue_confirmed_begin pos q = l1 ++ (pos, Begin) :: l2
  /\ Forall (fun pe => fst pe <> pos \/ is_input pe = false) l1
  /\ (l2 = [] \/ exists e l, l2 = (pos, CInput e) :: l).
Proof.
  induction q as [|[p e] q (l1 & l2 & -> & IH & Hf & Hl)]; cbn.
  { exists [], []. split; [done|]. split; [done|]. split; [constructor|by left]. }
  case_bool_decide as Hp; [destruct e|]; cbn.
  - exists ((p, Begin) :: l1), l2. rewrite IH. split; [done|]. split; [done|]. split; [|done]. constructor; [by right|done].
  - exists ((p, EdgeRetreated) :: l1), l2. rewrite IH. split; [done|]. split; [done|]. split; [|done]. constructor; [by right|done].
  - exists [], ((p, CInput e) :: l1 ++ l2). subst p. split; [done|]. split; [done|]. split; [constructor|by right; eauto].
  - exists ((p, e) :: l1), l2. rewrite IH. split; [done|]. split; [done|]. split; [|done]. constructor; [by left|done].
Qed.

Lemma begins_app l l' : begins (l ++ l') = begins l + begins l'.
Proof. unfold begins. by rewrite List.filter_app, length_app. Qed.

(** ** Outputs of a reasonable size *)

Definition good_info (i : OutputInfo) : Prop :=
  small 536870912 (fst (oi_position i)) /\ small 536870912 (snd (oi_position i))
  /\ (0 <= fst (oi_size i) <= 268435456)%Z /\ (0 <= snd (oi_size i) <= 268435456)%Z.
Definition good_output (o : Output) : Prop :=
  good_info (ou_pending_info o) /\ match ou_info o with Some i => good_info i | None => True end.

Lemma output_edge_total pos i : good_info i -> exists e, output_edge pos i = Ret e.
Proof.
  intros (H1 & H2 & H3 & H4). unfold small in *. destruct pos; cbn [output_edge]; eauto; unfold i32_add;
    rewrite i32_arith_small by (unfold small; lia); eauto.
Qed.

Lemma get_edges_total pos os : Forall good_output os ->
  exists es, get_edges os pos = Ret es /\ forall o e, (o, e) ∈ es -> o ∈ os.
Proof.
  induction 1 as [|o os [_ Hi] _ (es & IH & Hin)]; cbn [get_edges]; [exists []; split; [done|]; by intros ?? ?%not_elem_of_nil|].
  destruct (ou_info o) as [i|].
  - destruct (output_edge_total pos i Hi) as [e ->]. cbn [exec_bind]. rewrite IH. cbn [exec_bind]. eexists. split; [done|].
    intros o' e' [[= -> _]|H]%elem_of_cons; [left|right; eauto].
  - exists es. split; [done|]. intros o' e' H. right. eauto.
Qed.

Lemma output_configuration_total pos os : Forall good_output os ->
  exists os', get_output_configuration os pos = Ret os' /\ forall o, o ∈ os' -> o ∈ os.
Proof.
  intros H. unfold get_output_configuration. destruct (get_edges_total pos os H) as (es & -> & Hin). cbn [exec_bind].
  destruct (get_edges_total (opposite pos) os H) as (es' & -> & _). cbn [exec_bind]. eexists. split; [done|].
  intros o ([o' e] & -> & Ho%list_elem_of_In%List.filter_In)%list_elem_of_fmap. destruct Ho as [Ho _].
  apply list_elem_of_In in Ho. cbn. eauto.
Qed.

Lemma window_new_total pos i s : good_info i ->
  exists w, window_new pos (oi_size i) s = Ret (w, wl_request (RqCreateWindow w) (s <| ls_next ::= N.succ |>)) /\ wi_pos w = pos.
Proof.
  intros (_ & _ & H3 & H4). unfold window_new, window_size.
  destruct pos; unfold u32_mul; rewrite ?i32_as_u32_small by lia;
    rewrite (proj2 (N.leb_le _ _)) by lia; cbn [exec_bind]; rewrite (proj2 (N.leb_le _ _)) by lia; cbn [exec_bind];
    rewrite (proj2 (N.leb_le _ _)) by lia; cbn [exec_bind]; eauto.
Qed.

(** ** The invariant

    [inside] is the surface that the pointer is in, as the compositor told us. *)

Record LsOk (inside : option N) (s : Ls) : Prop := {
  lo_focus : wi_surface <$> ls_focused s = inside;
  lo_lock : ls_pointer_lock s = None <-> ls_pointer_lock_state s = LkReleased;
  lo_grabbed : is_Some (ls_pointer_lock s) \/ is_Some (ls_rel_pointer s) \/ is_Some (ls_shortcut_inhibitor s) -> is_Some (ls_focused s);
  lo_pending : forall p, ls_pending_begin s = Some p -> ls_pointer_lock_state s = LkPending /\ wi_pos <$> ls_focused s = Some p;
  lo_outputs : Forall good_output (ls_outputs s) }.

(** What windows and outputs have to do with. *)
Definition same_grab (s s' : Ls) : Prop :=
  ls_focused s' = ls_focused s /\ ls_pointer_lock s' = ls_pointer_lock s /\ ls_pointer_lock_state s' = ls_pointer_lock_state s
  /\ ls_rel_pointer s' = ls_rel_pointer s /\ ls_shortcut_inhibitor s' = ls_shortcut_inhibitor s
  /\ ls_pending_begin s' = ls_pending_begin s /\ ls_pending_events s' = ls_pending_events s.

Lemma same_grab_trans s1 s2 s3 : same_grab s1 s2 -> same_grab s2 s3 -> same_grab s1 s3.
Proof. unfold same_grab. intuition congruence. Qed.

Lemma ok_same inside s s' : LsOk inside s -> ls_focused s' = ls_focused s -> ls_pointer_lock s' = ls_pointer_lock s ->
  ls_pointer_lock_state s' = ls_pointer_lock_state s -> ls_rel_pointer s' = ls_rel_pointer s ->
  ls_shortcut_inhibitor s' = ls_shortcut_inhibitor s -> ls_pending_begin s' = ls_pending_begin s ->
  Forall good_output (ls_outputs s') -> LsOk inside s'.
Proof. intros [H1 H2 H3 H4 H5] E1 E2 E3 E4 E5 E6 H. split; rewrite ?E1, ?E2, ?E3, ?E4, ?E5, ?E6; done. Qed.

Lemma ok_same_grab inside s s' : LsOk inside s -> same_grab s s' -> Forall good_output (ls_outputs s') -> LsOk inside s'.
Proof. intros H (E1 & E2 & E3 & E4 & E5 & E6 & _) Ho. by apply (ok_same inside s). Qed.

Lemma add_windows_total pos os : forall s, Forall good_output os ->
  exists s', add_windows pos os s = Ret s' /\ same_grab s s' /\ ls_outputs s' = ls_outputs s.
Proof.
  induction os as [|o os IH]; intros s H; cbn [add_windows]; [by exists s|]. apply Forall_cons in H as [[_ Hi] H].
  destruct (ou_info o) as [i|]; [|by apply IH]. destruct (window_new_total pos i s Hi) as (w & -> & _). cbn [exec_bind].
  destruct (IH ((wl_request (RqCreateWindow w) (s <| ls_next ::= N.succ |>)) <| ls_active_windows ::= fun ws => ws ++ [w] |>) H)
    as (s' & E & Hg & Ho). exists s'. done.
Qed.

Lemma add_client_total pos s : Forall good_output (ls_outputs s) ->
  exists s', add_client pos s = Ret s' /\ same_grab s s' /\ ls_outputs s' = ls_outputs s.
Proof.
  intros H. unfold add_client. sf. destruct (output_configuration_total pos _ H) as (os & -> & Hin). cbn [exec_bind].
  edestruct (add_windows_total pos os) as (s' & -> & Hg & Ho); [|by exists s']. rewrite Forall_forall in H |- *. eauto.
Qed.

Lemma add_clients_total ps : forall s, Forall good_output (ls_outputs s) ->
  exists s', add_clients ps s = Ret s' /\ same_grab s s' /\ ls_outputs s' = ls_outputs s.
Proof.
  induction ps as [|pos ps IH]; intros s H; cbn [add_clients]; [by exists s|].
  destruct (add_client_total pos s H) as (s1 & -> & Hg & Ho). cbn [exec_bind].
  destruct (IH s1) as (s2 & -> & Hg2 & Ho2); [by rewrite Ho|]. exists s2. split; [done|].
  split; [by eapply same_grab_trans|congruence].
Qed.

(** ** Grab and ungrab *)

(** Nothing is grabbed. *)
Definition free (s : Ls) : Prop :=
  ls_pointer_lock s = None /\ ls_pointer_lock_state s = LkReleased /\ ls_pending_begin s = None
  /\ ls_rel_pointer s = None /\ ls_shortcut_inhibitor s = None.

(** What gives back the grab of a window. *)
Definition give_back (s : Ls) : list WlRequest :=
  match ls_focused s with
  | None => []
  | Some w => RqNotInteractive (wi_surface w) :: map RqDestroyLock (option_list (ls_pointer_lock s))
                ++ map RqDestroyRelative (option_list (ls_rel_pointer s))
                ++ map RqDestroyInhibitor (option_list (ls_shortcut_inhibitor s))
  end.

Lemma ungrab_spec inside s : LsOk inside s ->
  free (ungrab s) /\ ls_requests (ungrab s) = ls_requests s ++ give_back s
  /\ ls_focused (ungrab s) = ls_focused s /\ ls_pending_events (ungrab s) = ls_pending_events s
  /\ ls_outputs (ungrab s) = ls_outputs s /\ ls_active_windows (ungrab s) = ls_active_windows s.
Proof.
  intros [H1 H2 H3 H4 H5]. destruct s as [ap pt kb lock st pend rel inh aw foc fs pe os sd im ks nx rq]. unfold free, give_back.
  destruct foc as [w|]; cbn in *.
  - destruct lock, rel, inh; cbn; rewrite <- ?app_assoc; done.
  - rewrite app_nil_r. assert (forall P, P -> (P -> is_Some (@None Window)) -> False) as Hn by (intros P HP H; by destruct (H HP)).
    destruct lock as [l|]; [exfalso; refine (Hn _ _ H3); left; by exists l|].
    destruct rel as [l|]; [exfalso; refine (Hn _ _ H3); right; left; by exists l|].
    destruct inh as [l|]; [exfalso; refine (Hn _ _ H3); right; right; by exists l|].
    assert (st = LkReleased) as -> by by apply H2.
    destruct pend as [p|]; [|done]. by destruct (H4 p eq_refl) as [? [=]].
Qed.

Lemma ungrab_ok inside s : LsOk inside s -> LsOk inside (ungrab s).
Proof.
  intros H. destruct (ungrab_spec inside s H) as ((F1 & F2 & F3 & F4 & F5) & _ & Ef & _ & Eo & _). destruct H as [H1 _ _ _ H5].
  split; rewrite ?F1, ?F2, ?F3, ?F4, ?F5, ?Ef, ?Eo; try done. intros [[? [=]]|[[? [=]]|[? [=]]]].
Qed.

(** A grab of the focused window keeps the lock it finds, or asks for one. *)
Lemma grab_spec surface pointer serial s w : ls_focused s = Some w ->
  exists s', grab surface pointer serial s = Ret s' /\ ls_focused s' = Some w
  /\ is_Some (ls_pointer_lock s')
  /\ ls_pointer_lock_state s' = match ls_pointer_lock s with Some _ => ls_pointer_lock_state s | None => LkPending end
  /\ ls_pending_begin s' = ls_pending_begin s /\ ls_pending_events s' = ls_pending_events s
  /\ ls_outputs s' = ls_outputs s.
Proof.
  intros Hf. destruct s as [ap pt kb lock st pend rel inh aw foc fs pe os sd im ks nx rq]. cbn in Hf. subst foc.
  unfold grab. cbn [expect exec_bind ls_focused]. eexists. split; [reflexivity|].
  destruct lock, rel, inh, im; cbn; eauto 10.
Qed.

(** A grab and the begin that follows it. *)
Lemma grab_begin_ok surface pointer serial s w :
  LsOk (Some (wi_surface w)) s -> ls_focused s = Some w ->
  exists s1, grab surface pointer serial s = Ret s1 /\ LsOk (Some (wi_surface w)) (begin_when_pointer_locked (wi_pos w) s1)
  /\ (ls_pointer_lock_state s <> LkLocked -> ls_pending_events (begin_when_pointer_locked (wi_pos w) s1) = ls_pending_events s).
Proof.
  intros [H1 H2 H3 H4 H5] Hf. destruct (grab_spec surface pointer serial s w Hf) as (s1 & -> & G1 & [lock G2] & G3 & G4 & G5 & G6).
  exists s1. split; [done|]. unfold begin_when_pointer_locked.
  assert (ls_pointer_lock_state s1 <> LkReleased) as Hnr.
  { rewrite G3. destruct (ls_pointer_lock s) eqn:El; [|done]. intros E. by apply H2 in E. }
  case_bool_decide as Hl.
  - split; [split; sf; rewrite ?G1, ?G6; try done; try (intros _; by eexists)|].
    + by rewrite G2, Hl.
    + intros p. rewrite G4. intros Hp%H4. destruct Hp as [Hp _]. rewrite G3, Hp in Hl. by destruct (ls_pointer_lock s).
    + intros Hn. exfalso. rewrite G3 in Hl. destruct (ls_pointer_lock s); done.
  - split; [split; sf; rewrite ?G1, ?G6; try done; try (intros _; by eexists)|].
    + by rewrite G2.
    + intros p [= <-]. split; [|done]. by destruct (ls_pointer_lock_state s1).
    + intros _. sf. done.
Qed.

(** ** The discipline of the compositor *)

Definition legal_event (inside : option N) (e : WlEvent) (s : Ls) : Prop :=
  match e with
  | WlEnter _ _ surface => inside = None /\ exists w, w ∈ ls_active_windows s /\ wi_surface w = surface
  | WlLeave | WlButton _ _ _ | WlAxis _ _ _ | WlAxisValue120 _ _ => is_Some inside
  | WlLogicalPosition name x y => is_Some (find_output name s) /\ small 536870912 x /\ small 536870912 y
  | WlLogicalSize name w h => is_Some (find_output name s) /\ (0 <= w <= 268435456)%Z /\ (0 <= h <= 268435456)%Z
  | WlXdgDone name | WlXdgName name _ | WlXdgDescription name _ | WlOutputDone name => is_Some (find_output name s)
  | _ => True
  end.
Definition inside_after (e : WlEvent) (inside : option N) : option N :=
  match e with WlEnter _ _ surface => Some surface | WlLeave => None | _ => inside end.

Lemma update_output_good name f s : Forall good_output (ls_outputs s) -> (forall o, good_output o -> good_output (f o)) ->
  Forall good_output (ls_outputs (update_output name f s)).
Proof.
  unfold update_output. sf. generalize (ls_outputs s) as os. intros os H Hf.
  induction H as [|o os Ho Hos IH]; cbn; [constructor|]. case_match; constructor; auto.
Qed.

Lemma xdg_update_total name f s inside : is_Some (find_output name s) -> (forall i, good_info i -> good_info (f i)) -> LsOk inside s ->
  exists s', xdg_update name f s = Ret s' /\ LsOk inside s' /\ ls_pending_events s' = ls_pending_events s.
Proof.
  intros [o Ho] Hf HL. unfold xdg_update. rewrite Ho. cbn [expect exec_bind]. eexists. split; [done|]. split; [|done].
  apply (ok_same inside s); try done. apply update_output_good; [apply HL|]. intros o' [H1 H2]. split; sf; cbn; auto.
Qed.

Section runs.
Variable pos_iter : gset CapturePosition -> list CapturePosition.
Abbreviation wl_event := (wl_event pos_iter).

Lemma update_output_info_total name s inside : is_Some (find_output name s) -> LsOk inside s ->
  exists s', update_output_info pos_iter name s = Ret s' /\ LsOk inside s' /\ ls_pending_events s' = ls_pending_events s.
Proof.
  intros [o Ho] HL. unfold update_output_info. rewrite Ho. cbn [expect exec_bind].
  destruct (ou_has_xdg_info o); [|by exists s]. unfold update_windows.
  set (s1 := update_output name (fun o => o <| ou_info := Some (ou_pending_info o) |>) s).
  assert (Forall good_output (ls_outputs s1)) as Hg.
  { apply update_output_good; [apply HL|]. intros o' [H1 H2]. split; done. }
  assert (Forall good_output (ls_outputs (s1 <| ls_active_windows := [] |>))) as Hg' by done.
  destruct (add_clients_total (pos_iter (ls_active_positions s1)) _ Hg') as (s' & -> & Hs & Hos).
  exists s'. split; [done|]. split; [|by destruct Hs as (_ & _ & _ & _ & _ & _ & ->)].
  eapply (ok_same_grab inside (s1 <| ls_active_windows := [] |>)); [|done|by rewrite Hos]. by apply (ok_same inside s).
Qed.

(** The first keyboard and pointer of a seat. *)
Lemma capabilities_same pointer keyboard s : exists s', wl_event (WlCapabilities pointer keyboard) s = Ret s'
  /\ same_grab s s' /\ ls_outputs s' = ls_outputs s.
Proof.
  destruct s as [ap pt kb lock st pend rel inh aw foc fs pe os sd im ks nx rq].
  destruct pointer, keyboard, pt, kb; eexists; (split; [reflexivity|]); done.
Qed.

Lemma enter_ok pointer serial surface s : LsOk None s -> (exists w, w ∈ ls_active_windows s /\ wi_surface w = surface) ->
  exists s', on_enter pointer serial surface s = Ret s' /\ LsOk (Some surface) s' /\ ls_pending_events s' = ls_pending_events s.
Proof.
  intros HL (w0 & Hw0 & Hs0). unfold on_enter. destruct (List.find _ _) as [w|] eqn:Ew.
  2:{ apply list_elem_of_In in Hw0. apply (find_none _ _ Ew) in Hw0. by rewrite Hs0, N.eqb_refl in Hw0. }
  apply find_some in Ew as [_ <-%N.eqb_eq].
  assert (free s) as (F1 & F2 & F3 & F4 & F5).
  { destruct (ungrab_spec None s HL) as [H _]. unfold ungrab in H. destruct HL as [Hf _ _ _ _].
    by destruct (ls_focused s). }
  set (s1 := s <| ls_focused := Some w |> <| ls_focused_serial := Some serial |>).
  assert (LsOk (Some (wi_surface w)) s1) as HL1.
  { destruct HL as [H1 H2 H3 H4 H5]. split; subst s1; sf; try done; try (intros _; by eexists). by rewrite F3. }
  destruct (grab_begin_ok (wi_surface w) pointer serial s1 w HL1 eq_refl) as (s2 & -> & HL2 & He). cbn [exec_bind].
  eexists. split; [done|]. split; [done|]. apply He. subst s1. sf. by rewrite F2.
Qed.

Lemma leave_ok inside s : LsOk inside s -> LsOk None (on_leave s) /\ begins (ls_pending_events (on_leave s)) = begins (ls_pending_events s).
Proof.
  intros HL. destruct (ungrab_spec inside s HL) as ((F1 & F2 & F3 & F4 & F5) & _ & Ef & Ee & Eo & _). unfold on_leave.
  assert (LsOk None ((ungrab s) <| ls_focused := None |> <| ls_focused_serial := None |>)) as H0.
  { split; sf; rewrite ?F1, ?F2, ?F3, ?F4, ?F5, ?Eo; try done; [intros [[? [=]]|[[? [=]]|[? [=]]]]|apply HL]. }
  destruct (wi_pos <$> ls_focused s); [|split; [done|]; sf; by rewrite Ee].
  split; [by apply (ok_same None ((ungrab s) <| ls_focused := None |> <| ls_focused_serial := None |>)); try done; apply H0|].
  sf. rewrite Ee, begins_app. cbn. lia.
Qed.

Lemma begins_filter f q : begins (List.filter f q) <= begins q.
Proof. unfold begins. induction q as [|x q IH]; cbn; [lia|]. destruct (f x), (is_begin x) eqn:E; cbn; rewrite ?E; cbn; lia. Qed.

Lemma unlocked_ok inside s : LsOk inside s -> LsOk inside (on_unlocked s) /\ begins (ls_pending_events (on_unlocked s)) <= begins (ls_pending_events s).
Proof.
  intros HL. destruct (ungrab_spec inside s HL) as (_ & _ & _ & Ee & Eo & _). pose proof (ungrab_ok inside s HL) as HU.
  unfold on_unlocked. destruct (wi_pos <$> ls_focused s) as [p|]; [|by rewrite Ee].
  split; [by apply (ok_same inside (ungrab s)); try done; apply HU|]. sf. rewrite Ee, begins_app. cbn.
  pose proof (begins_filter (fun pe => negb (bool_decide (fst pe = p)) || match snd pe with Begin => false | _ => true end) (ls_pending_events s)).
  lia.
Qed.

Lemma locked_ok inside lock s : LsOk inside s -> ls_pointer_lock s = Some lock -> LsOk inside (pointer_locked s).
Proof.
  intros [H1 H2 H3 H4 H5] Hl. unfold pointer_locked.
  assert (LsOk inside (s <| ls_pointer_lock_state := LkLocked |> <| ls_pending_begin := None |>)) as H0.
  { split; sf; try done. by rewrite Hl. }
  destruct (ls_pending_begin s); [|done].
  by apply (ok_same inside (s <| ls_pointer_lock_state := LkLocked |> <| ls_pending_begin := None |>)); try done; apply H0.
Qed.

(** The focus is where the pointer is. *)
Lemma inside_focused inside s : LsOk inside s -> is_Some inside -> exists w, focused_window s = Ret w.
Proof. intros [H _ _ _ _] [x Hx]. unfold focused_window. destruct (ls_focused s); [by eexists|]. by rewrite <- H in Hx. Qed.

Lemma pushed_input inside p e s : LsOk inside s ->
  LsOk inside (push p (CInput e) s) /\ begins (ls_pending_events (push p (CInput e) s)) = begins (ls_pending_events s).
Proof. intros H. split; [by apply (ok_same inside s); try done; apply H|]. sf. rewrite begins_app. cbn. lia. Qed.

(** The events of the compositor: only the confirmation of the current lock
    makes a capture begin, that of the edge whose window is focused. *)
Definition begun (e : WlEvent) (s s' : Ls) : Prop :=
  begins (ls_pending_events s) < begins (ls_pending_events s') ->
  exists lock p, e = WlLocked lock /\ ls_pointer_lock s = Some lock /\ ls_pending_begin s = Some p
    /\ wi_pos <$> ls_focused s = Some p /\ ls_pointer_lock_state s' = LkLocked
    /\ ls_pending_events s' = queue_confirmed_begin p (ls_pending_events s).

Lemma dispatch_ok inside e s : LsOk inside s -> legal_event inside e s ->
  exists s', wl_event e s = Ret s' /\ LsOk (inside_after e inside) s' /\ begun e s s'.
Proof.
  intros HL Hleg.
  assert (forall s', LsOk (inside_after e inside) s' -> begins (ls_pending_events s') <= begins (ls_pending_events s) ->
    LsOk (inside_after e inside) s' /\ begun e s s') as Hno by (intros s' H Hb; split; [done|]; unfold begun; lia).
  destruct e; cbn [wl_event seat_event pointer_event keyboard_event relative_event lock_event layer_surface_event registry_event
    xdg_output_event output_event legal_event inside_after] in *.
  - destruct (capabilities_same pointer keyboard s) as (s' & E & Hg & Ho). exists s'. split; [exact E|].
    apply Hno; [apply (ok_same_grab inside s); [done|done|rewrite Ho; apply HL]|]. by destruct Hg as (_ & _ & _ & _ & _ & _ & ->).
  - destruct Hleg as [-> Hw]. destruct (enter_ok pointer serial surface s HL Hw) as (s' & -> & HL' & Ee).
    exists s'. split; [done|]. apply Hno; [done|]. by rewrite Ee.
  - eexists. split; [done|]. destruct (leave_ok inside s HL) as [H1 H2]. apply Hno; [done|lia].
  - destruct (inside_focused inside s HL Hleg) as [w ->]. cbn [exec_bind]. eexists. split; [done|].
    destruct (pushed_input inside (wi_pos w) (Pointer (Button time button state)) s HL) as [H1 H2]. apply Hno; [done|lia].
  - destruct (inside_focused inside s HL Hleg) as [w ->]. cbn [exec_bind].
    destruct (ls_scroll_discrete_pending s); eexists; (split; [done|]).
    + apply Hno; [by apply (ok_same inside s); try done; apply HL|done].
    + destruct (pushed_input inside (wi_pos w) (Pointer (Axis time (axis mod 256)%N value)) s HL) as [H1 H2]. apply Hno; [done|lia].
  - destruct (inside_focused inside s HL Hleg) as [w ->]. cbn [exec_bind]. eexists. split; [done|].
    assert (LsOk inside (s <| ls_scroll_discrete_pending := true |>)) as HL1 by (by apply (ok_same inside s); try done; apply HL).
    destruct (pushed_input inside (wi_pos w) (Pointer (AxisDiscrete120 (axis mod 256)%N value)) _ HL1) as [H1 H2].
    apply Hno; [done|]. rewrite H2. done.
  - eexists. split; [done|]. destruct (ls_focused s) as [w|] eqn:Ef; [|by apply Hno].
    destruct (pushed_input inside (wi_pos w) (Keyboard (Key time key (state mod 256)%N)) s HL) as [H1 H2]. apply Hno; [done|lia].
  - eexists. split; [done|]. destruct (ls_focused s) as [w|] eqn:Ef; [|by apply Hno].
    destruct (pushed_input inside (wi_pos w) (Keyboard (Modifiers depressed latched locked group)) s HL) as [H1 H2]. apply Hno; [done|lia].
  - eexists. split; [done|]. destruct (ls_focused s) as [w|] eqn:Ef; [|by apply Hno].
    match goal with |- LsOk _ (push _ (CInput ?e) _) /\ _ => destruct (pushed_input inside (wi_pos w) e s HL) as [H1 H2] end.
    apply Hno; [done|lia].
  - eexists. split; [done|]. unfold current_pointer_lock. case_bool_decide as Hl; [|by apply Hno].
    split; [by eapply locked_ok|]. intros Hb. destruct (ls_pending_begin s) as [p|] eqn:Ep.
    + destruct (lo_pending _ _ HL p Ep) as [_ Hp]. exists lock, p. unfold pointer_locked. rewrite Ep. done.
    + unfold pointer_locked in Hb. rewrite Ep in Hb. sf. lia.
  - eexists. split; [done|]. unfold current_pointer_lock. case_bool_decide; [|by apply Hno].
    destruct (unlocked_ok inside s HL) as [H1 H2]. by apply Hno.
  - eexists. split; [done|]. destruct (existsb _ _); apply Hno; try done; by apply (ok_same inside s); try done; apply HL.
  - eexists. split; [done|]. apply Hno; [|by destruct is_output]. unfold register_global. destruct is_output; [|done].
    apply (ok_same inside s); try done. sf. apply Forall_app. split; [apply HL|]. repeat constructor; cbn; lia.
  - eexists. split; [done|]. apply Hno; [|done]. apply (ok_same inside s); try done. sf.
    pose proof (lo_outputs _ _ HL) as Ho. rewrite Forall_forall in Ho |- *. intros o Hin. apply Ho.
    apply list_elem_of_In, List.filter_In in Hin as [Hin _]. by apply list_elem_of_In.
  - destruct Hleg as (Ho & Hx & Hy). edestruct (xdg_update_total name (fun i => i <| oi_position := (x, y) |>) s inside Ho)
      as (s' & -> & HL' & Ee); [|exact HL|exists s'; split; [done|]; apply Hno; [done|by rewrite Ee]].
    intros i (_ & _ & H3 & H4). done.
  - destruct Hleg as (Ho & Hx & Hy). edestruct (xdg_update_total name (fun i => i <| oi_size := (width, height) |>) s inside Ho)
      as (s' & -> & HL' & Ee); [|exact HL|exists s'; split; [done|]; apply Hno; [done|by rewrite Ee]].
    intros i (H1 & H2 & _ & _). done.
  - destruct (update_output_info_total name s inside Hleg HL) as (s' & E & HL' & Ee). destruct Hleg as [o Ho]. rewrite Ho.
    cbn [expect exec_bind]. exists s'. split; [done|]. apply Hno; [done|by rewrite Ee].
  - edestruct (xdg_update_total name (fun i => i <| oi_name := value |>) s inside Hleg)
      as (s' & -> & HL' & Ee); [|exact HL|exists s'; split; [done|]; apply Hno; [done|by rewrite Ee]]. done.
  - edestruct (xdg_update_total name (fun i => i <| oi_description := value |>) s inside Hleg)
      as (s' & -> & HL' & Ee); [|exact HL|exists s'; split; [done|]; apply Hno; [done|by rewrite Ee]]. done.
  - destruct (update_output_info_total name s inside Hleg HL) as (s' & -> & HL' & Ee). exists s'. split; [done|].
    apply Hno; [done|by rewrite Ee].
Qed.

(** ** Runs *)

Fixpoint legal_events (inside : option N) (es : list WlEvent) (s : Ls) : Prop :=
  match es with
  | [] => True
  | e :: es => legal_event inside e s /\ forall s', wl_event e s = Ret s' -> legal_events (inside_after e inside) es s'
  end.
Definition inside_all (es : list WlEvent) (inside : option N) : option N := foldl (fun i e => inside_after e i) inside es.

Lemma dispatch_all_ok es : forall inside s, LsOk inside s -> legal_events inside es s ->
  exists s', dispatch_all pos_iter es s = Ret s' /\ LsOk (inside_all es inside) s'.
Proof.
  induction es as [|e es IH]; intros inside s HL Hleg; cbn [dispatch_all]; [by exists s|].
  destruct Hleg as [He Hes]. destruct (dispatch_ok inside e s HL He) as (s1 & E & HL1 & _). rewrite E. cbn [exec_bind].
  by apply (IH (inside_after e inside)); [|apply Hes].
Qed.

(** The events that a call dispatches, in the state it dispatches them in. *)
Definition resume_started (pos : CapturePosition) (s : Ls) : option Ls :=
  match state_resume_if_focused pos s with Ret (true, s') => Some s' | _ => None end.
Definition step_events (i : LsStep) (s : Ls) : list WlEvent * Ls :=
  match i with
  | LsDispatch es => (es, s)
  | LsResume pos true (Some es) _ => match resume_started pos s with Some s' => (es, s') | None => ([], s) end
  | _ => ([], s)
  end.

(** A legal step: the compositor is disciplined, and a client is removed only
    while the pointer is in none of the windows. *)
Definition legal_step (inside : option N) (i : LsStep) (s : Ls) : Prop :=
  legal_events inside (fst (step_events i s)) (snd (step_events i s))
  /\ match i with LsDestroy _ => inside = None | _ => True end.
Fixpoint legal_run (inside : option N) (steps : list LsStep) (s : Ls) : Prop :=
  match steps with
  | [] => True
  | i :: steps => legal_step inside i s
      /\ forall s', ls_step pos_iter i s = Ret s' -> legal_run (inside_all (fst (step_events i s)) inside) steps s'
  end.

Lemma state_resume_ok inside pos s : LsOk inside s ->
  exists b s', state_resume_if_focused pos s = Ret (b, s') /\ LsOk inside s' /\ (b = false -> s' = s).
Proof.
  intros HL. unfold state_resume_if_focused.
  destruct (ls_focused s) as [w|] eqn:Ef; [|by exists false, s]. destruct (ls_pointer s) as [pointer|]; [|by exists false, s].
  destruct (ls_focused_serial s) as [serial|]; [|by exists false, s]. case_bool_decide as Hp; [|by exists false, s].
  pose proof (lo_focus _ _ HL) as Hi. rewrite Ef in Hi. cbn in Hi. subst inside pos.
  destruct (grab_begin_ok (wi_surface w) pointer serial s w HL Ef) as (s1 & -> & HL1 & _). cbn [exec_bind].
  eexists true, _. done.
Qed.

Lemma delete_client_ok pos s : LsOk None s -> LsOk None (delete_client pos s).
Proof.
  intros HL. unfold delete_client. sf. pose proof HL as [H1 H2 H3 H4 H5].
  assert (ls_focused s = None) as Hf by (by destruct (ls_focused s)).
  destruct (existsb _ _); apply (ok_same None s); done.
Qed.

Lemma ls_step_ok inside i s : LsOk inside s -> legal_step inside i s ->
  exists s', ls_step pos_iter i s = Ret s' /\ LsOk (inside_all (fst (step_events i s)) inside) s'.
Proof.
  intros HL [Hev Hd]. destruct i as [pos|pos| |pos fl rt fl'|es|]; cbn [ls_step step_events fst snd] in *.
  - destruct (add_client_total pos s (lo_outputs _ _ HL)) as (s' & -> & Hg & Ho). exists s'. split; [done|].
    apply (ok_same_grab inside s); [done|done|]. rewrite Ho. apply HL.
  - eexists. split; [done|]. subst inside. by apply delete_client_ok.
  - eexists. split; [done|]. by apply ungrab_ok.
  - unfold resume_if_focused, resume_started in *.
    destruct (state_resume_ok inside pos s HL) as (b & s1 & E & HL1 & Hb). rewrite E in *. cbn [exec_bind].
    destruct b; cbn [negb]; [|cbn [exec_bind]; exists s1; split; [done|]; by destruct fl, rt; rewrite ?(Hb eq_refl) in *].
    destruct fl; cbn [negb]; [|by exists s1]. destruct rt as [es|]; [|by exists s1]. cbn [fst snd] in *.
    destruct (dispatch_all_ok es inside s1 HL1 Hev) as (s2 & -> & HL2). cbn [exec_bind].
    case_bool_decide; cbn [exec_bind]; eexists; (split; [done|]); [done|by apply ungrab_ok].
  - by apply dispatch_all_ok.
  - eexists. split; [done|]. by apply (ok_same inside s); try done; apply HL.
Qed.

Lemma ls_run_ok steps : forall inside s, LsOk inside s -> legal_run inside steps s ->
  exists inside' s', ls_run pos_iter steps s = Ret s' /\ LsOk inside' s'.
Proof.
  induction steps as [|i steps IH]; intros inside s HL Hleg; cbn [ls_run]; [by exists inside, s|].
  destruct Hleg as [Hi Hs]. destruct (ls_step_ok inside i s HL Hi) as (s1 & E & HL1). rewrite E. cbn [exec_bind].
  by eapply IH; [|apply Hs].
Qed.

Lemma ls_new_ok b : LsOk None (ls_new b).
Proof. split; try done. intros [[? [=]]|[[? [=]]|[? [=]]]]. Qed.

(** The capture of the focused edge [p] begins under a confirmed lock: one
    beginning is queued, before the input of that edge that waits already. *)
Definition begins_at (p : CapturePosition) (s s' : Ls) : Prop :=
  wi_pos <$> ls_focused s = Some p /\ is_Some (ls_pointer_lock s) /\ ls_pointer_lock_state s' = LkLocked
  /\ exists l1 l2, ls_pending_events s = l1 ++ l2 /\ ls_pending_events s' = l1 ++ (p, Begin) :: l2
     /\ Forall (fun pe => fst pe <> p \/ is_input pe = false) l1.

(** An event that begins a capture is the confirmation of the current lock. *)
Definition confirmed (e : WlEvent) (s s' : Ls) : Prop :=
  begins (ls_pending_events s) < begins (ls_pending_events s') ->
  exists lock p, e = WlLocked lock /\ ls_pointer_lock s = Some lock /\ begins_at p s s'.

Lemma dispatch_confirmed inside e s : LsOk inside s -> legal_event inside e s ->
  exists s', wl_event e s = Ret s' /\ confirmed e s s'.
Proof.
  intros HL He. destruct (dispatch_ok inside e s HL He) as (s' & E' & _ & Hb). exists s'. split; [done|].
  intros Hlt. destruct (Hb Hlt) as (lock & p & -> & Hl & _ & Hp & Hst & Hq).
  destruct (confirmed_begin_spec p (ls_pending_events s)) as (l1 & l2 & E1 & E2 & Hf1 & _).
  exists lock, p. split; [done|]. split; [done|]. split; [done|]. split; [by eexists|]. split; [done|].
  exists l1, l2. by rewrite Hq.
Qed.

(** A resumption begins a capture by itself only under a lock that was
    confirmed before. *)
Lemma state_resume_begins pos s b s1 : state_resume_if_focused pos s = Ret (b, s1) ->
  begins (ls_pending_events s) < begins (ls_pending_events s1) ->
  ls_pointer_lock_state s = LkLocked /\ begins_at pos s s1.
Proof.
  unfold state_resume_if_focused. intros H Hlt.
  destruct (ls_focused s) as [w|] eqn:Ef; [|injection H as <- <-; lia].
  destruct (ls_pointer s) as [pointer|]; [|injection H as <- <-; lia].
  destruct (ls_focused_serial s) as [serial|]; [|injection H as <- <-; lia].
  case_bool_decide as Hp; [|injection H as <- <-; lia].
  destruct (grab_spec (wi_surface w) pointer serial s w Ef) as (s' & Hg & G1 & G2 & G3 & G4 & G5 & G6).
  rewrite Hg in H. cbn [exec_bind] in H. injection H as <- <-. revert Hlt. unfold begin_when_pointer_locked.
  case_bool_decide as Hl; sf; rewrite G5; [intros _|lia].
  rewrite G3 in Hl. destruct (ls_pointer_lock s) as [lock|] eqn:El; [|done].
  split; [done|]. unfold begins_at. sf. rewrite Ef, El, G3, ?G5.
  split; [cbn; by rewrite Hp|]. split; [by eexists|]. split; [done|].
  destruct (confirmed_begin_spec pos (ls_pending_events s)) as (l1 & l2 & E1 & E2 & Hf1 & _). by exists l1, l2.
Qed.

Lemma legal_events_app es e : forall inside s, legal_events inside (es ++ [e]) s ->
  legal_events inside es s
  /\ forall s', dispatch_all pos_iter es s = Ret s' -> legal_event (inside_all es inside) e s'.
Proof.
  induction es as [|x es IH]; intros inside s; cbn [app legal_events dispatch_all].
  - intros [H _]. split; [done|]. by intros s' [= <-].
  - intros [Hx Hes]. split; [split; [done|]; intros s' E; by apply (IH _ _ (Hes s' E))|].
    intros s' (s1 & E & Hr)%exec_bind_Ret. by apply (IH _ _ (Hes s1 E)).
Qed.

(** The other calls begin nothing. *)
Lemma calls_begin_nothing inside i s s' : LsOk inside s ->
  match i with LsResume _ _ _ _ | LsDispatch _ => False | _ => True end ->
  ls_step pos_iter i s = Ret s' -> begins (ls_pending_events s') <= begins (ls_pending_events s).
Proof.
  intros HL Hi. destruct i as [pos|pos| |pos fl rt fl'|es|]; cbn [ls_step]; try done.
  - destruct (add_client_total pos s (lo_outputs _ _ HL)) as (s1 & -> & (_ & _ & _ & _ & _ & _ & E) & _).
    intros [= <-]. by rewrite E.
  - intros [= <-]. unfold delete_client. sf. by destruct (existsb _ _).
  - intros [= <-]. destruct (ungrab_spec inside s HL) as (_ & _ & _ & -> & _). done.
  - intros [= <-]. sf. destruct (ls_pending_events s) as [|x q]; [done|]. unfold begins. cbn. destruct (is_begin x); cbn; lia.
Qed.

End runs.

(** ** Concrete runs *)
Module layer_demo.
Definition iter (ps : gset CapturePosition) : list CapturePosition := elements ps.
(** One output, two clients, and a pointer that enters the window at the right. *)
Definition setup : list LsStep :=
  [LsDispatch [WlCapabilities true true; WlGlobal 5 true; WlLogicalPosition 5 0 0; WlLogicalSize 5 1920 1080; WlOutputDone 5];
   LsCreate CLeft; LsCreate CRight].
Definition enter : list LsStep := [LsDispatch [WlEnter 0 1 3; WlLocked 4]].
Definition state (steps : list LsStep) : Ls :=
  match ls_run iter steps (ls_new true) with Ret s => s | _ => ls_new true end.

Example captured : ls_pending_events (state (setup ++ enter)) = [(CRight, Begin)]
  /\ ls_pointer_lock_state (state (setup ++ enter)) = LkLocked.
Proof. vm_compute. done. Qed.

Ltac run_legal :=
  repeat match goal with
  | |- True => exact I
  | |- _ /\ _ => split
  | |- forall s' : Ls, _ =>
      let s' := fresh "s" in let H := fresh "H" in
      intros s' H; vm_compute in H; injection H as <-
  | |- is_Some _ => by eexists
  | |- legal_run _ _ [] _ => exact I
  | |- legal_run _ _ (_ :: _) _ => cbn [legal_run]
  | |- legal_step _ _ _ _ => unfold legal_step; cbn [step_events fst snd]
  | |- legal_events _ _ [] _ => exact I
  | |- legal_events _ _ (_ :: _) _ => cbn [legal_events]
  | |- legal_event _ _ _ => cbn [legal_event]
  end.

Lemma setup_legal : legal_run iter None (setup ++ enter) (ls_new true).
Proof.
  unfold setup, enter. cbn [app]. run_legal; try done; try (vm_compute; eexists; reflexivity); try (unfold small; lia).
  vm_compute. eexists. split; [right; left|reflexivity].
Qed.


(** Removing the client at the left while the edge at the right is captured
    forgets the focus.  The lock of the pointer stays, also after a release, and
    the next mouse button is a panic. *)
Example removed_client_breaks_capture :
  let s := state (setup ++ enter ++ [LsDestroy CLeft; LsRelease]) in
  ls_focused s = None /\ is_Some (ls_pointer_lock s) /\ ls_pointer_lock_state s = LkLocked
  /\ wl_event iter (WlButton 0 272 1) s = Panic "called `Option::unwrap()` on a `None` value".
Proof. vm_compute. split; [done|]. split; [by eexists|]. done. Qed.

(** The keyboard of a seat is asked for, but not remembered: when the seat
    announces its capabilities again there are two, and each key is reported by
    both. *)
Example keys_doubled :
  let s := state (setup ++ enter ++ [LsDispatch [WlCapabilities false true]]) in
  ls_keyboards s = [1; 7]%N
  /\ match dispatch_all iter (map (fun k => WlKey k 0 30 1) (ls_keyboards s)) s with
     | Ret s' => ls_pending_events s' = [(CRight, Begin); (CRight, CInput (Keyboard (Key 0 30 1))); (CRight, CInput (Keyboard (Key 0 30 1)))]
     | _ => False
     end.
Proof. vm_compute. done. Qed.
End layer_demo.
