(* ===== verification/LibeiCapture.v ===== *)
(** * Capture through libei (input-event/src/libei.rs, input-capture/src/libei.rs)

    First the events a libei server sends and the input events they stand for,
    with floats carried by their bits; then the task that captures with the
    input-capture portal. *)

From stdpp Require Import base tactics list gmap sets strings.
From Stdlib Require Import NArith ZArith Lia SpecFloat.
From S2P Require Import Prelude Bytes MachineNumbers ProtoWire CaptureQueue.

(** The events of the library; [pressed] is the state of a key or button. *)
Inductive EiEvent :=
| EvDisconnected
| EvSeatAdded
| EvSeatRemoved
| EvDeviceAdded
| EvDeviceRemoved
| EvDevicePaused
| EvDeviceResumed
| EvDeviceStartEmulating
| EvDeviceStopEmulating
| EvFrame
| EvKeyboardModifiers (depressed latched locked group : N)
| EvPointerMotion (time dx dy : N)
| EvPointerMotionAbsolute
| EvButton (time button : N) (pressed : bool)
| EvScrollDelta (dx dy : N)
| EvScrollStop
| EvScrollCancel
| EvScrollDiscrete (dx dy : Z)
| EvKeyboardKey (time key : N) (pressed : bool)
| EvTouchDown
| EvTouchUp
| EvTouchMotion
| EvTouchCancel.

(** [as u32] of the time in microseconds *)
Definition time_u32 (t : N) : N := (t mod 4294967296)%N.
Definition state_of (pressed : bool) : N := if pressed then 1 else 0.

Definition axes (zy zx : bool) (y x : InputEvent) : list InputEvent :=
  (if zy then [] else [y]) ++ (if zx then [] else [x]).
(** [to_input_events]: at most two, the vertical axis before the horizontal one *)
Definition to_input_events (e : EiEvent) : list InputEvent :=
  match e with
  | EvKeyboardModifiers d l k g => [Keyboard (Modifiers d l k g)]
  | EvPointerMotion t dx dy => [Pointer (Motion (time_u32 t) (f32_as_f64 dx) (f32_as_f64 dy))]
  | EvButton t b p => [Pointer (Button (time_u32 t) b (state_of p))]
  | EvScrollDelta dx dy =>
      axes (f_is_zero (f32_of_bits dy)) (f_is_zero (f32_of_bits dx))
        (Pointer (Axis 0 0 (f32_as_f64 dy))) (Pointer (Axis 0 1 (f32_as_f64 dx)))
  | EvScrollDiscrete dx dy =>
      axes (dy =? 0)%Z (dx =? 0)%Z (Pointer (AxisDiscrete120 0 dy)) (Pointer (AxisDiscrete120 1 dx))
  | EvKeyboardKey t k p => [Keyboard (Key (time_u32 t) k (state_of p))]
  | _ => []
  end.

Lemma to_input_events_length e : length (to_input_events e) <= 2.
Proof. destruct e; cbn [to_input_events]; unfold axes; repeat case_match; cbn; lia. Qed.

(** What the program makes of an event can be sent and emulated: a button is
    pressed or released, an axis is one of the two. *)
Definition event_wf (e : InputEvent) : bool :=
  match e with
  | Pointer (Button _ _ state) => (state <=? 1)%N
  | Pointer (Axis _ axis _) | Pointer (AxisDiscrete120 axis _) => (axis <=? 1)%N
  | Keyboard (Key _ _ state) => (state <=? 1)%N
  | _ => true
  end.
Lemma to_input_events_wf e : Forall (fun ev => event_wf ev = true) (to_input_events e).
Proof.
  destruct e; cbn [to_input_events]; unfold axes; repeat case_match; cbn [app];
    repeat (apply Forall_cons_2; [first [done | by destruct pressed]|]); by apply Forall_nil_2.
Qed.

(** * Capture with the input-capture portal (input-capture/src/libei.rs)

    A task runs one portal session after another: each session sets the barriers
    of the clients, waits for activations, and passes the events of libei on.
    The code is a handful of futures that are joined or raced; here each is a
    task with the await it is at, and a step lets one of them go on.  The
    portal, libei and the consumer of the events answer by inputs, also which
    branch of a [select!] is taken is an input. *)

(** ** Barriers *)

(** A region of the zones: offset and size *)
Record Region := mkRegion { rg_x : Z; rg_y : Z; rg_width : N; rg_height : N }.
Abbreviation line := (Z * Z * Z * Z)%type (only parsing).

(** [pos_to_barrier] *)
Definition pos_to_barrier (r : Region) (pos : CapturePosition) : exec Empty_set line :=
  let w := to_signed 4 (rg_width r) in
  let h := to_signed 4 (rg_height r) in
  match pos with
  | CLeft => let* b := i32_add (rg_y r) h in let* b := i32_sub b 1 in Ret (rg_x r, rg_y r, rg_x r, b)
  | CRight =>
      let* x := i32_add (rg_x r) w in
      let* b := i32_add (rg_y r) h in let* b := i32_sub b 1 in Ret (x, rg_y r, x, b)
  | CTop => let* b := i32_add (rg_x r) w in let* b := i32_sub b 1 in Ret (rg_x r, rg_y r, b, rg_y r)
  | CBottom =>
      let* y := i32_add (rg_y r) h in
      let* b := i32_add (rg_x r) w in let* b := i32_sub b 1 in Ret (rg_x r, y, b, y)
  end.

Record ICBarrier := mkBarrier { ba_id : N; ba_position : line }.

(** The barriers of one client *)
Fixpoint client_barriers (regions : list Region) (pos : CapturePosition) (next : N) (ids : gmap N CapturePosition)
  : exec Empty_set (list ICBarrier * gmap N CapturePosition * N) :=
  match regions with
  | [] => Ret ([], ids, next)
  | r :: regions =>
      if (next =? 4294967295)%N then Panic "barrier id out of range" else
      let* position := pos_to_barrier r pos in
      let* (bs, ids, n) := client_barriers regions pos (next + 1) (<[next := pos]> ids) in
      Ret (mkBarrier next position :: bs, ids, n)
  end.

(** [select_barriers] *)
Fixpoint select_barriers_from (regions : list Region) (clients : list CapturePosition) (next : N) (ids : gmap N CapturePosition)
  : exec Empty_set (list ICBarrier * gmap N CapturePosition * N) :=
  match clients with
  | [] => Ret ([], ids, next)
  | pos :: clients =>
      let* (bs, ids, next) := client_barriers regions pos next ids in
      let* (bs', ids, next) := select_barriers_from regions clients next ids in
      Ret (bs ++ bs', ids, next)
  end.
Definition select_barriers (regions : list Region) (clients : list CapturePosition) (next : N) :=
  select_barriers_from regions clients next ∅.

(** An activation: the barrier, if the compositor names it, and the position of
    the cursor in bits of [f32], if it reports one *)
Record Activated := mkActivated { ac_barrier : option N; ac_cursor : option (N * N) }.

(** [distance_to_line]; [powf(2.0)] is the square. *)
Definition distance_to_line (l : line) (p : N * N) : spec_float :=
  let '(x1, y1, x2, y2) := l in
  let '(x1, y1, x2, y2) := (z_as_f32 x1, z_as_f32 y1, z_as_f32 x2, z_as_f32 y2) in
  let '(x0, y0) := (f32_of_bits (fst p), f32_of_bits (snd p)) in
  let square x := f32_mul x x in
  let double_triangle_area :=
    SFabs (f32_sub (f32_add (f32_sub (f32_mul (f32_sub y2 y1) x0) (f32_mul (f32_sub x2 x1) y0)) (f32_mul x2 y1)) (f32_mul y2 x1)) in
  let line_length := f32_sqrt (f32_add (square (f32_sub y2 y1)) (square (f32_sub x2 x1))) in
  f32_div double_triangle_area line_length.
Definition distance (b : ICBarrier) (p : N * N) : Z := float_as_i32 (distance_to_line (ba_position b) p).

(** [min_by_key]: the first of the smallest *)
Fixpoint min_barrier (p : N * N) (b : ICBarrier) (bs : list ICBarrier) : ICBarrier :=
  match bs with
  | [] => b
  | b' :: bs => min_barrier p (if (distance b' p <? distance b p)%Z then b' else b) bs
  end.
(** [find_corresponding_client] *)
Definition find_corresponding_client (barriers : list ICBarrier) (p : N * N) : exec Empty_set N :=
  match barriers with
  | [] => Panic "could not find barrier corresponding to client"
  | b :: bs => Ret (ba_id (min_barrier p b bs))
  end.

(** The barriers of a session and the clients they belong to *)
Abbreviation BarrierMap := (list ICBarrier * gmap N CapturePosition)%type (only parsing).

(** The client of an activation *)
Definition activated_pos (bm : BarrierMap) (a : Activated) : exec Empty_set CapturePosition :=
  let closest := let* p := expect (ac_cursor a) "no cursor position reported by compositor" in find_corresponding_client bm.1 p in
  let* id := match ac_barrier a with Some id => Ret id | None => closest end in
  match bm.2 !! id with
  | Some pos => Ret pos
  | None => let* id := closest in expect (bm.2 !! id) "invalid barrier id"
  end.

(** Where [release_capture] puts the cursor, one pixel inside *)
Definition release_position (a : Activated) (pos : CapturePosition) : exec Empty_set (N * N) :=
  let* (x, y) := expect (ac_cursor a) "compositor did not report cursor position!" in
  let '(dx, dy) := match pos with CLeft => (1, 0) | CRight => (-1, 0) | CTop => (0, 1) | CBottom => (0, -1) end%Z in
  let add c d := bits_of_f64 (SFadd 53 1024 (f64_of_bits (f32_as_f64 c)) (z_as_f64 d)) in
  Ret (add x dx, add y dy).

(** ** Tasks *)

Inductive LibeiNotifyEvent := NeCreate (pos : CapturePosition) | NeDestroy (pos : CapturePosition).

(** [do_capture_session], by its await; from [SeSubscribe] on it is the future
    of the session loop, which is joined with libei. *)
Inductive SessionTask :=
| SeConnect
| SeZones
| SeSet (bm : BarrierMap)
| SeEnable (bm : BarrierMap)
| SeSubscribe (bm : BarrierMap)
| SeWait (bm : BarrierMap) (notified : bool)
| SeBegin (bm : BarrierMap) (a : Activated) (pos : CapturePosition)
| SeActive (bm : BarrierMap) (a : Activated) (pos : CapturePosition) (notified : bool)
| SeRelease (bm : BarrierMap) (a : Activated) (pos : CapturePosition) (completion : option N)
| SeLoopDone (ok : bool)                  (* the loop has ended, with or without error *)
| SeFailed                                (* an error before the join *)
| SeDone (ok : bool).                     (* both futures of the join have ended *)

(** The future of libei: before the join, waiting for an event, waiting to send
    the input events of one, ended *)
Inductive EiTask := EiIdle | EiNext | EiSend (pos : CapturePosition) (e : InputEvent) (rest : list InputEvent) | EiEnded.

(** [do_capture], by its await *)
Inductive MainTask :=
| MaStart                                 (* the changes of zones are subscribed *)
| MaIdle                                  (* no clients: only the update is awaited *)
| MaCreate                                (* a portal session is created *)
| MaSession                               (* the session and the update are joined *)
| MaClose (ok : bool)                     (* the session is disabled and closed *)
| MaEnded (ok : bool).

(** The update of the session: waiting, or what it was *)
Inductive UpdateTask := UpWait | UpDone (e : option LibeiNotifyEvent).

(** The tasks that wait for room in the event channel, which is fair *)
Inductive Sender := FromSession | FromEi.
#[global] Instance Sender_eq_dec : EqDecision Sender.
Proof. solve_decision. Defined.

Record Libei := mkLibei {
  le_clients : list CapturePosition;
  le_next_id : N;
  le_first : bool;                        (* the first session is not yet used *)
  le_main : MainTask;
  le_update : UpdateTask;
  le_session : SessionTask;
  le_ei : EiTask;
  le_current : option CapturePosition;
  le_cancel_session : bool;
  le_cancel_update : bool;
  le_cancel_ei : bool;
  le_cancelled : bool;
  le_notify : list LibeiNotifyEvent;      (* capacity 1 *)
  le_releases : list N;                   (* capacity 8 *)
  le_events : list (CapturePosition * CaptureEvent);   (* capacity 1 *)
  le_waiters : list Sender;
  le_answered : list N;
  le_refused : list N;
  le_warps : list (N * N);                (* the cursor positions of releases *)
  le_log : list (CapturePosition * CaptureEvent) }.
#[global] Instance Libei_eta : RecordEta Libei := fun s =>
  mkLibei (le_clients s) (le_next_id s) (le_first s) (le_main s) (le_update s) (le_session s) (le_ei s) (le_current s)
    (le_cancel_session s) (le_cancel_update s) (le_cancel_ei s) (le_cancelled s) (le_notify s) (le_releases s) (le_events s)
    (le_waiters s) (le_answered s) (le_refused s) (le_warps s) (le_log s).

(** [LibeiInputCapture::new] *)
Definition libei_new : Libei :=
  mkLibei [] 1 true MaStart UpWait (SeDone true) EiIdle None false false false false [] [] [] [] [] [] [] [].

(** [event_tx.send(..).await]: the first that waits sends when there is room. *)
Definition le_may_send (w : Sender) (s : Libei) : bool :=
  match le_events s, le_waiters s with [], w' :: _ => bool_decide (w' = w) | _, _ => false end.
Definition le_send (pe : CapturePosition * CaptureEvent) (s : Libei) : Libei :=
  s <| le_events := [pe] |> <| le_waiters ::= tail |> <| le_log ::= fun l => l ++ [pe] |>.
Definition le_queue (w : Sender) (s : Libei) : Libei := s <| le_waiters ::= fun l => l ++ [w] |>.
Definition le_answer (w : N) (s : Libei) : Libei := s <| le_answered ::= fun l => l ++ [w] |>.

(** The task ends: its receivers are dropped. *)
Definition le_end (ok : bool) (s : Libei) : Libei :=
  s <| le_main := MaEnded ok |> <| le_refused ::= fun l => l ++ le_releases s |> <| le_releases := [] |> <| le_notify := [] |>.

Definition le_start_session (s : Libei) : Libei :=
  s <| le_main := MaSession |> <| le_session := SeConnect |> <| le_ei := EiIdle |> <| le_cancel_ei := false |> <| le_current := None |>.

(** The start of a round of [do_capture] *)
Definition le_round (s : Libei) : Libei :=
  let s := s <| le_cancel_session := false |> <| le_cancel_update := false |> <| le_update := UpWait |> in
  match le_clients s with
  | [] => s <| le_main := MaIdle |>
  | _ => if le_first s then le_start_session (s <| le_first := false |>) else s <| le_main := MaCreate |>
  end.

(** The end of a round *)
Definition le_apply (s : Libei) : Libei :=
  match le_update s with
  | UpDone (Some (NeCreate p)) => s <| le_clients ::= fun cs => cs ++ [p] |>
  | UpDone (Some (NeDestroy p)) => s <| le_clients ::= List.filter (fun q => negb (bool_decide (q = p))) |>
  | _ => s
  end.
Definition le_finish (s : Libei) : Libei :=
  let s := le_apply s in
  if le_cancelled s then le_end true s else le_round s.

(** ** Steps of the tasks *)

(** What a task waits for: the portal, or the branch of a select *)
Inductive LeOutcome :=
| OkOr (ok : bool)                        (* a call of the portal *)
| Zones (zones : option (list Region))
| ActivatedIs (a : option Activated)
| Sent
| GotRelease
| Notified
| Cancelled
| EiJoined.

(** The loop has ended; without error libei is told. *)
Definition se_loop_done (ok : bool) (s : Libei) : Libei :=
  s <| le_session := SeLoopDone ok |> <| le_cancel_ei ::= orb ok |>.

(** The session, in order of its awaits.  [None] if it does not wait for this
    or has to wait. *)
Definition portal_session_step (o : LeOutcome) (s : Libei) : exec Empty_set (option Libei) :=
  match le_session s, o with
  | SeConnect, OkOr ok => Ret (Some (s <| le_session := (if ok then SeZones else SeFailed) |>))
  (* update_barriers *)
  | SeZones, Zones None => Ret (Some (s <| le_session := SeFailed |>))
  | SeZones, Zones (Some regions) =>
      let* (bs, ids, next) := select_barriers regions (le_clients s) (le_next_id s) in
      Ret (Some (s <| le_session := SeSet (bs, ids) |> <| le_next_id := next |>))
  | SeSet bm, OkOr ok => Ret (Some (s <| le_session := (if ok then SeEnable bm else SeFailed) |>))
  | SeEnable bm, OkOr ok =>
      Ret (Some (if ok then s <| le_session := SeSubscribe bm |> <| le_ei := EiNext |> else s <| le_session := SeFailed |>))
  | SeSubscribe bm, OkOr ok => Ret (Some (if ok then s <| le_session := SeWait bm false |> else se_loop_done false s))
  (* the select of the loop *)
  | SeWait bm _, ActivatedIs None => Ret (Some (se_loop_done false s))
  | SeWait bm _, ActivatedIs (Some a) =>
      let* pos := activated_pos bm a in
      Ret (Some (le_queue FromSession (s <| le_current := Some pos |> <| le_session := SeBegin bm a pos |>)))
  | SeWait bm _, GotRelease =>
      Ret (match le_releases s with
           | w :: rest => Some (le_answer w (s <| le_releases := rest |> <| le_session := SeWait bm false |>))
           | [] => None
           end)
  | SeWait bm notified, Notified => Ret (if notified then Some (se_loop_done true s) else None)
  | SeWait bm _, Cancelled => Ret (if le_cancel_session s then Some (se_loop_done true s) else None)
  | SeBegin bm a pos, Sent =>
      Ret (if le_may_send FromSession s then Some ((le_send (pos, Begin) s) <| le_session := SeActive bm a pos false |>) else None)
  (* the select of an activation *)
  | SeActive bm a pos _, GotRelease =>
      match le_releases s with
      | w :: rest =>
          let* warp := release_position a pos in
          Ret (Some (s <| le_releases := rest |> <| le_session := SeRelease bm a pos (Some w) |> <| le_warps ::= fun l => l ++ [warp] |>))
      | [] => Ret None
      end
  | SeActive bm a pos notified, Notified =>
      if notified then
        let* warp := release_position a pos in
        Ret (Some (s <| le_session := SeRelease bm a pos None |> <| le_warps ::= fun l => l ++ [warp] |>))
      else Ret None
  | SeActive bm a pos _, Cancelled => Ret (if le_cancel_session s then Some (se_loop_done true s) else None)
  (* release_capture: after a change of devices the loop ends *)
  | SeRelease bm a pos completion, OkOr ok =>
      Ret (Some (match completion, ok with
                 | Some w, true => le_answer w (s <| le_session := SeWait bm false |>)
                 | None, true => se_loop_done true s
                 | Some w, false => se_loop_done false (s <| le_refused ::= fun l => l ++ [w] |>)
                 | None, false => se_loop_done false s
                 end))
  | SeLoopDone ok, EiJoined =>
      Ret (match le_ei s with EiEnded => Some (s <| le_cancel_update := true |> <| le_session := SeDone ok |>) | _ => None end)
  | _, _ => Ret None
  end.

(** [notify_waiters] reaches the session only at a select. *)
Definition notify_waiters (s : Libei) : Libei :=
  match le_session s with
  | SeWait bm _ => s <| le_session := SeWait bm true |>
  | SeActive bm a pos _ => s <| le_session := SeActive bm a pos true |>
  | _ => s
  end.

(** [libei_event_handler] ends with an error: the session is cancelled. *)
Definition ei_exited (s : Libei) : Libei := s <| le_cancel_session := true |> <| le_ei := EiEnded |>.

(** An event of libei, with whether the bytes sent in answer could be written,
    or the end of the stream or an error *)
Inductive EiInput := EiEventIs (e : EiEvent) (flushed : bool) | EiStreamEnded.

(** Start to send the next event *)
Definition ei_next (pos : CapturePosition) (events : list InputEvent) (s : Libei) : Libei :=
  match events with
  | [] => s <| le_ei := EiNext |>
  | e :: rest => le_queue FromEi (s <| le_ei := EiSend pos e rest |>)
  end.

(** [handle_ei_event] *)
Definition handle_ei_event (e : EiEvent) (flushed : bool) (s : Libei) : Libei :=
  match e with
  | EvSeatAdded => if flushed then s else ei_exited s
  | EvSeatRemoved | EvDeviceRemoved => notify_waiters s
  | EvDevicePaused | EvDeviceResumed | EvDeviceStartEmulating | EvDeviceStopEmulating => s
  | EvDisconnected => ei_exited s
  | _ => match le_current s with Some pos => ei_next pos (to_input_events e) s | None => s end
  end.

(** [libei_event_handler]; without input it sends. *)
Definition ei_step (i : option EiInput) (s : Libei) : option Libei :=
  match le_ei s, i with
  | EiNext, Some (EiEventIs e flushed) => Some (handle_ei_event e flushed s)
  | EiNext, Some EiStreamEnded => Some (ei_exited s)
  | EiSend pos e rest, None =>
      if le_may_send FromEi s then Some (ei_next pos rest (le_send (pos, CInput e) s)) else None
  | _, _ => None
  end.

(** The other branch of the task of libei: it is dropped, with what it sends. *)
Definition ei_cancelled (s : Libei) : option Libei :=
  match le_ei s with
  | EiNext | EiSend _ _ _ =>
      if le_cancel_ei s
      then Some (s <| le_ei := EiEnded |> <| le_waiters ::= filter (fun w => w <> FromEi) |>)
      else None
  | _ => None
  end.

(** The update: the program ends, the session ended, zones or clients change. *)
Inductive UpInput := UpCancelled | UpSessionEnded | UpZones | UpClients.
Definition update_step (i : UpInput) (s : Libei) : option Libei :=
  let finish e s := Some (s <| le_update := UpDone e |> <| le_cancel_session := true |>) in
  match le_update s, i with
  | UpWait, UpCancelled => if le_cancelled s then finish None s else None
  | UpWait, UpSessionEnded => if le_cancel_update s then finish None s else None
  | UpWait, UpZones => finish None s
  | UpWait, UpClients =>
      match le_notify s with
      | e :: rest => finish (Some e) (s <| le_notify := rest |>)
      | [] => None
      end
  | UpDone _, _ => None
  end.

(** [do_capture]; [ok] is the answer of the portal where one is awaited. *)
Definition main_step (ok : bool) (s : Libei) : option Libei :=
  match le_main s, le_update s with
  | MaStart, _ => Some (if ok then le_round s else le_end false s)
  | MaIdle, UpDone _ => Some (le_finish s)
  | MaCreate, _ => Some (if ok then le_start_session s else le_end false s)
  | MaSession, UpDone _ =>
      match le_session s with
      | SeDone ok => Some (s <| le_main := MaClose ok |>)
      | SeFailed => Some (s <| le_main := MaClose false |>)
      | _ => None
      end
  | MaClose true, _ => Some (le_finish s)
  | MaClose false, _ => Some (le_end false s)
  | _, _ => None
  end.

Inductive LeStep :=
| LtCreate (pos : CapturePosition)
| LtDestroy (pos : CapturePosition)
| LtRelease (waiter : N)
| LtTerminate
| LtPoll
| LtMain (ok : bool)
| LtUpdate (i : UpInput)
| LtSession (o : LeOutcome)
| LtEi (i : option EiInput)
| LtEiCancelled.

(** What [poll_next] answers *)
Inductive LePolled := PollEnd | PollError | PollPending | PollEvent (pe : CapturePosition * CaptureEvent).
Definition le_poll_next (s : Libei) : LePolled * Libei :=
  match le_main s, le_events s with
  | MaEnded true, _ => (PollEnd, s)
  | MaEnded false, _ => (PollError, s)
  | _, [] => (PollPending, s)
  | _, pe :: rest => (PollEvent pe, s <| le_events := rest |>)
  end.

(** [create], [destroy]: a call that finds the channel full waits, and one that
    finds it closed is lost. *)
Definition le_notify_capture (e : LibeiNotifyEvent) (s : Libei) : Libei :=
  match le_main s, le_notify s with
  | MaEnded _, _ | _, _ :: _ => s
  | _, [] => s <| le_notify := [e] |>
  end.
(** [release] *)
Definition le_release (w : N) (s : Libei) : Libei :=
  match le_main s with
  | MaEnded _ => s <| le_refused ::= fun l => l ++ [w] |>
  | _ => if length (le_releases s) <? 8 then s <| le_releases ::= fun l => l ++ [w] |> else s
  end.

Definition stay (o : option Libei) (s : Libei) : Libei := default s o.
Definition le_step (i : LeStep) (s : Libei) : exec Empty_set Libei :=
  match i with
  | LtCreate pos => Ret (le_notify_capture (NeCreate pos) s)
  | LtDestroy pos => Ret (le_notify_capture (NeDestroy pos) s)
  | LtRelease w => Ret (le_release w s)
  | LtTerminate => Ret (s <| le_cancelled := true |>)
  | LtPoll => Ret (le_poll_next s).2
  | LtMain ok => Ret (stay (main_step ok s) s)
  | LtUpdate i => Ret (match le_main s with MaIdle | MaSession => stay (update_step i s) s | _ => s end)
  | LtSession o => match le_main s with MaSession => let* r := portal_session_step o s in Ret (stay r s) | _ => Ret s end
  | LtEi i => Ret (match le_main s with MaSession => stay (ei_step i s) s | _ => s end)
  | LtEiCancelled => Ret (match le_main s with MaSession => stay (ei_cancelled s) s | _ => s end)
  end.
Fixpoint le_run (steps : list LeStep) (s : Libei) : exec Empty_set Libei :=
  match steps with
  | [] => Ret s
  | i :: steps => let* s := le_step i s in le_run steps s
  end.
