(* ===== verification/LibeiCaptureTheorems.v ===== *)
(** * Properties of the capture with the input-capture portal

    Barriers belong to the clients they were made for, input of a client is
    only reported after its beginning, a release is answered where the session
    waits for one, and where it is not. *)

From stdpp Require Import base tactics list gmap sets strings.
From Stdlib Require Import NArith ZArith Lia SpecFloat.
From S2P Require Import Prelude Bytes MachineNumbers ProtoWire CaptureQueue LibeiCapture.

(** ** Barriers *)

Section barriers.
Implicit Types (r : Region) (rs : list Region) (p : CapturePosition) (cs : list CapturePosition) (ids : gmap N CapturePosition).

(** A region whose corners fit *)
Definition region_ok r : Prop :=
  (small 1000000000 (rg_x r) /\ small 1000000000 (rg_y r))%Z /\ (rg_width r <= 1000000000 /\ rg_height r <= 1000000000)%N.

Lemma to_signed_small n : (n <= 1000000000)%N -> to_signed 4 n = Z.of_N n.
Proof. intros. unfold to_signed. change (256 ^ N.of_nat 4 / 2)%N with 2147483648%N. by rewrite (proj2 (N.ltb_lt _ _)) by lia. Qed.

Lemma pos_to_barrier_ok r p : region_ok r -> exists l, pos_to_barrier r p = Ret l.
Proof.
  intros [[Hx Hy] [Hw Hh]]. unfold pos_to_barrier, i32_add, i32_sub. rewrite !to_signed_small by done. unfold small in *.
  destruct p; repeat (rewrite i32_arith_small by (unfold small; lia); cbn [exec_bind]); eauto.
Qed.

(** The outcome is a value with a property, unless barrier ids have run out. *)
Definition unless_ids {A} (Q : A -> Prop) (m : exec Empty_set A) : Prop :=
  match m with Ret a => Q a | Throw e => False | Panic msg => msg = "barrier id out of range"%string end.
Lemma unless_ids_bind {A B} (P : A -> Prop) (Q : B -> Prop) m k :
  unless_ids P m -> (forall a, P a -> unless_ids Q (k a)) -> unless_ids Q (exec_bind m k).
Proof. destruct m; simpl; eauto. Qed.
Lemma unless_ids_weaken {A} (P Q : A -> Prop) m : unless_ids P m -> (forall a, P a -> Q a) -> unless_ids Q m.
Proof. destruct m; simpl; eauto. Qed.

(** What a barrier is for: the edge of a region *)
Definition barrier_for rs cs ids (b : ICBarrier) : Prop :=
  exists r p, r ∈ rs /\ p ∈ cs /\ ids !! ba_id b = Some p /\ pos_to_barrier r p = Ret (ba_position b).

(** New barriers have the ids from [next] to [n]. *)
Record barriers_new rs cs (next : N) ids (o : list ICBarrier * gmap N CapturePosition * N) : Prop := {
  bn_next : (next <= o.2)%N;
  bn_range : forall b, b ∈ o.1.1 -> (next <= ba_id b < o.2)%N;
  bn_nodup : NoDup (map ba_id o.1.1);
  bn_for : forall b, b ∈ o.1.1 -> barrier_for rs cs o.1.2 b;
  bn_all : forall r p, r ∈ rs -> p ∈ cs -> exists b, b ∈ o.1.1 /\ o.1.2 !! ba_id b = Some p /\ pos_to_barrier r p = Ret (ba_position b);
  bn_old : forall id, (id < next)%N -> o.1.2 !! id = ids !! id;
  bn_ids : forall id p, o.1.2 !! id = Some p -> p ∈ cs \/ ids !! id = Some p }.

Lemma client_barriers_new rs p next ids :
  Forall region_ok rs -> unless_ids (barriers_new rs [p] next ids) (client_barriers rs p next ids).
Proof.
  intros H. revert next ids. induction H as [|r rs Hr _ IH]; intros next ids; simpl.
  { split; simpl; try (set_solver || lia || eauto); by constructor. }
  case_match; [done|]. destruct (pos_to_barrier_ok r p Hr) as [l Hl]. rewrite Hl. cbn [exec_bind].
  eapply unless_ids_bind; [apply IH|]. intros [[bs ids'] n] [Hn Hrg Hnd Hf Ha Ho Hi]. simpl in *.
  assert (ids' !! next = Some p) as Hnext by (rewrite Ho by lia; by simplify_map_eq).
  split; simpl.
  - lia.
  - intros b [->|Hb]%elem_of_cons; simpl; [lia|]. specialize (Hrg b Hb). lia.
  - constructor; [|done]. intros (b&Hb&Hin)%list_elem_of_fmap. specialize (Hrg b Hin). lia.
  - intros b [->|Hb]%elem_of_cons; [exists r, p; set_solver|]. destruct (Hf b Hb) as (r'&p'&?&?&?&?). exists r', p'. set_solver.
  - intros r' p' [->|Hr']%elem_of_cons Hp.
    + apply list_elem_of_singleton in Hp as ->. eexists. split; [left|]. done.
    + destruct (Ha r' p' Hr' Hp) as (b&?&?&?). exists b. set_solver.
  - intros id Hid. rewrite Ho by lia. by rewrite lookup_insert_ne by lia.
  - intros id q Hq. destruct (Hi id q Hq) as [?|Hq']; [set_solver|].
    destruct (decide (id = next)) as [->|]; simplify_map_eq; [left; set_solver|by right].
Qed.

Lemma select_barriers_new rs cs next ids :
  Forall region_ok rs -> unless_ids (barriers_new rs cs next ids) (select_barriers_from rs cs next ids).
Proof.
  intros H. revert next ids. induction cs as [|p cs IH]; intros next ids; simpl.
  { split; simpl; try (set_solver || lia || eauto); by constructor. }
  eapply unless_ids_bind; [by apply client_barriers_new|]. intros [[bs ids1] n1] B1.
  eapply unless_ids_bind; [apply IH|]. intros [[bs' ids2] n2] B2.
  destruct B1 as [Hn1 Hrg1 Hnd1 Hf1 Ha1 Ho1 Hi1], B2 as [Hn2 Hrg2 Hnd2 Hf2 Ha2 Ho2 Hi2]. simpl in *.
  assert (forall b q, b ∈ bs -> ids1 !! ba_id b = Some q -> ids2 !! ba_id b = Some q) as Hkeep.
  { intros b q Hb. rewrite Ho2; [done|]. specialize (Hrg1 b Hb). lia. }
  split; simpl.
  - lia.
  - intros b [Hb|Hb]%elem_of_app; [specialize (Hrg1 b Hb)|specialize (Hrg2 b Hb)]; lia.
  - rewrite map_app. apply NoDup_app. split_and!; [done| |done].
    intros id (b&->&Hb)%list_elem_of_fmap (b'&E&Hb')%list_elem_of_fmap. specialize (Hrg1 b Hb). specialize (Hrg2 b' Hb'). lia.
  - intros b [Hb|Hb]%elem_of_app.
    + destruct (Hf1 b Hb) as (r&q&?&Hq&?&?). apply list_elem_of_singleton in Hq as ->.
      exists r, p. split_and!; [done|by left|by apply Hkeep|done].
    + destruct (Hf2 b Hb) as (r&q&?&?&?&?). exists r, q. set_solver.
  - intros r q Hr [->|Hq]%elem_of_cons.
    + destruct (Ha1 r p Hr) as (b&?&?&?); [by left|]. exists b. split; [set_solver|]. split; [by apply Hkeep|done].
    + destruct (Ha2 r q Hr Hq) as (b&?&?&?). exists b. set_solver.
  - intros id Hid. rewrite Ho2 by lia. by apply Ho1.
  - intros id q Hq. destruct (Hi2 id q Hq) as [?|Hq']; [set_solver|]. destruct (Hi1 id q Hq') as [?|?]; set_solver.
Qed.
End barriers.

(** ** Invariant *)

(** The barriers of a session belong to its clients. *)
Record bm_ok (cs : list CapturePosition) (bm : list ICBarrier * gmap N CapturePosition) : Prop := {
  bm_some : bm.1 <> [];
  bm_nodup : NoDup (map ba_id bm.1);
  bm_for : exists rs, forall b, b ∈ bm.1 -> barrier_for rs cs bm.2 b;
  bm_ids : forall id p, bm.2 !! id = Some p -> p ∈ cs }.

Lemma select_barriers_ok rs cs next :
  rs <> [] -> cs <> [] -> Forall region_ok rs ->
  unless_ids (fun o => bm_ok cs o.1) (select_barriers rs cs next).
Proof.
  intros Hrs Hcs H. eapply unless_ids_weaken; [by apply select_barriers_new|]. intros o B. split.
  - destruct rs as [|r rs], cs as [|p cs]; try done. destruct (bn_all _ _ _ _ _ B r p) as (b&Hb&_); [left..|].
    intros E. rewrite E in Hb. by apply not_elem_of_nil in Hb.
  - apply B.
  - exists rs. apply B.
  - intros id p Hp. destruct (bn_ids _ _ _ _ _ B id p Hp) as [|E]; [done|]. by rewrite lookup_empty in E.
Qed.

Lemma min_barrier_in p b bs : min_barrier p b bs ∈ b :: bs.
Proof.
  revert b. induction bs as [|b' bs IH]; intros b; cbn [min_barrier]; [left|].
  case_match; specialize (IH b') as H1; specialize (IH b) as H2; set_solver.
Qed.

(** The closest barrier is a closest one, the first among those. *)
Lemma min_barrier_least p b bs b' : b' ∈ b :: bs -> (distance (min_barrier p b bs) p <= distance b' p)%Z.
Proof.
  revert b b'. induction bs as [|c bs IH]; intros b b'; cbn [min_barrier].
  { intros ->%list_elem_of_singleton. lia. }
  intros [->|[->|Hb]%elem_of_cons]%elem_of_cons; case_match eqn:E;
    try (apply IH; set_solver); (etrans; [apply IH; left|]); rewrite ?Z.ltb_lt, ?Z.ltb_ge in E; lia.
Qed.

(** An activation is of a client of the session, the one of the barrier if it
    is named. *)
Lemma activated_pos_ok cs bm a :
  bm_ok cs bm -> is_Some (ac_cursor a) ->
  exists p, activated_pos bm a = Ret p /\ p ∈ cs /\ forall id q, ac_barrier a = Some id -> bm.2 !! id = Some q -> p = q.
Proof.
  intros [Hs _ [rs Hf] Hi] [c Hc]. unfold activated_pos. rewrite Hc. cbn [expect exec_bind].
  assert (exists id p, find_corresponding_client bm.1 c = Ret id /\ bm.2 !! id = Some p) as (id&p&Hfind&Hid).
  { destruct (bm.1) as [|b bs]; [done|]. destruct (Hf _ (min_barrier_in c b bs)) as (r&p&_&_&?&_). eexists _, p. done. }
  rewrite Hfind. destruct (ac_barrier a) as [id'|]; cbn [exec_bind].
  - destruct (bm.2 !! id') as [q|] eqn:E; [exists q|exists p]; rewrite ?Hid; (split_and!; [done|by eauto|]); intros; simplify_eq; done.
  - rewrite Hid. exists p. split_and!; [done|by eauto|done].
Qed.

Definition sess_begin (se : SessionTask) : option CapturePosition := match se with SeBegin _ _ p => Some p | _ => None end.
Definition ei_sending (ei : EiTask) : option CapturePosition := match ei with EiSend p _ _ => Some p | _ => None end.
Definition ei_quiet (ei : EiTask) : bool := match ei with EiIdle | EiEnded => true | _ => false end.
Definition senders (se : SessionTask) (ei : EiTask) : list Sender :=
  (if sess_begin se then [FromSession] else []) ++ (if ei_sending ei then [FromEi] else []).

(** The barriers and the activation a session holds *)
Definition se_ok (cs : list CapturePosition) (se : SessionTask) : Prop :=
  match se with
  | SeSet bm | SeEnable bm | SeSubscribe bm | SeWait bm _ => bm_ok cs bm
  | SeBegin bm a p | SeActive bm a p _ | SeRelease bm a p _ => bm_ok cs bm /\ is_Some (ac_cursor a) /\ p ∈ cs
  | _ => True
  end.
Definition se_ended (se : SessionTask) : bool := match se with SeDone _ | SeFailed => true | _ => false end.
(** Libei is not part of the session yet, or no longer. *)
Definition se_alone (se : SessionTask) : bool :=
  match se with SeConnect | SeZones | SeSet _ | SeEnable _ | SeFailed | SeDone _ => true | _ => false end.

Abbreviation event_log := (list (CapturePosition * CaptureEvent)).
(** Input of a client follows its beginning. *)
Definition begins_first (l : event_log) : Prop :=
  forall l1 p e l2, l = l1 ++ (p, CInput e) :: l2 -> (p, Begin) ∈ l1.

Lemma begins_first_snoc l x :
  begins_first l -> (forall p e, x = (p, CInput e) -> (p, Begin) ∈ l) -> begins_first (l ++ [x]).
Proof.
  intros Hl Hx l1 p e l2. destruct l2 as [|y l2 _] using rev_ind.
  - intros [-> E]%app_inj_tail. eauto.
  - rewrite app_comm_cons, app_assoc. intros [E _]%app_inj_tail. eauto.
Qed.

Record linv main cs se ei cur ws (log : event_log) : Prop := {
  li_clients : main = MaSession \/ main = MaCreate -> cs <> [];
  li_ended : main <> MaSession -> se_ended se = true;
  li_session : se_ok cs se;
  li_alone : se_alone se = true -> ei_quiet ei = true;
  li_joined : se_alone se = false -> ei <> EiIdle;
  li_waiters : ws ≡ₚ senders se ei;
  li_log : begins_first log;
  li_current : forall p, cur = Some p -> (p, Begin) ∈ log \/ sess_begin se = Some p;
  li_ei : forall p, ei_sending ei = Some p -> (p, Begin) ∈ log \/ sess_begin se = Some p /\ ws = [FromSession; FromEi] }.
Definition le_inv (s : Libei) : Prop :=
  linv (le_main s) (le_clients s) (le_session s) (le_ei s) (le_current s) (le_waiters s) (le_log s).

(** Inputs that the portal gives: zones with corners that fit, and the position
    of the cursor with each activation *)
Definition step_ok (i : LeStep) : Prop :=
  match i with
  | LtSession (Zones (Some rs)) => rs <> [] /\ Forall region_ok rs
  | LtSession (ActivatedIs (Some a)) => is_Some (ac_cursor a)
  | _ => True
  end.

Lemma libei_new_inv : le_inv libei_new.
Proof. split; simpl; try done; [naive_solver|]. by intros [] ????. Qed.

(** The session moves on, to where it neither waits to send nor holds more. *)
Lemma linv_session main cs se se' ei ei' cur ws log :
  linv main cs se ei cur ws log ->
  main = MaSession -> se_ok cs se' -> sess_begin se = None -> sess_begin se' = None -> ei_sending ei' = ei_sending ei ->
  (se_alone se' = true -> ei_quiet ei' = true) -> (se_alone se' = false -> ei' <> EiIdle) ->
  linv main cs se' ei' cur ws log.
Proof.
  intros [Hc He Hs Ha Hj Hw Hl Hcu Hei] -> Hok Hb Hb' Hsend Halone.
  split.
  - done.
  - done.
  - done.
  - done.
  - done.
  - rewrite Hw. unfold senders. by rewrite Hb, Hb', Hsend.
  - done.
  - intros p Hp. destruct (Hcu p Hp) as [|E]; [by left|congruence].
  - intros p Hp. rewrite Hsend in Hp. destruct (Hei p Hp) as [|[E _]]; [by left|congruence].
Qed.

Ltac le_fields := unfold le_inv, se_loop_done, le_queue, le_answer, le_send, ei_exited, le_start_session, le_end, stay, set; cbn.

(** The session starts to send: it waits behind libei. *)
Lemma linv_begin cs ei cur ws log bm a p n :
  linv MaSession cs (SeWait bm n) ei cur ws log -> is_Some (ac_cursor a) -> p ∈ cs ->
  linv MaSession cs (SeBegin bm a p) ei (Some p) (ws ++ [FromSession]) log.
Proof.
  intros [Hc He Hs Ha Hj Hw Hl Hcu Hei] Hcur Hp. split; try done.
  - rewrite Hw. unfold senders. cbn. by rewrite Permutation_app_comm.
  - intros q [= <-]. by right.
  - intros q Hq. destruct (Hei q Hq) as [|[E _]]; [by left|done].
Qed.

(** It has sent. *)
Lemma linv_begun cs ei cur ws log bm a p :
  linv MaSession cs (SeBegin bm a p) ei cur (FromSession :: ws) log ->
  linv MaSession cs (SeActive bm a p false) ei cur ws (log ++ [(p, Begin)]).
Proof.
  intros [Hc He Hs Ha Hj Hw Hl Hcu Hei]. split; try done.
  - by apply Permutation_cons_inv in Hw.
  - apply begins_first_snoc; [done|]. by intros ?? [=].
  - intros q Hq. left. destruct (Hcu q Hq) as [|[= ->]]; set_solver.
  - intros q Hq. left. destruct (Hei q Hq) as [|[[= ->] _]]; set_solver.
Qed.

Lemma may_send_inv w s : le_may_send w s = true -> le_events s = [] /\ le_waiters s = w :: tail (le_waiters s).
Proof. unfold le_may_send. destruct (le_events s), (le_waiters s); try done. intros H%bool_decide_eq_true. by subst. Qed.

(** A step of the session that neither starts nor ends a beginning *)
Lemma session_moves s s' :
  le_inv s -> le_main s = MaSession ->
  le_main s' = le_main s -> le_clients s' = le_clients s -> le_current s' = le_current s -> le_waiters s' = le_waiters s ->
  le_log s' = le_log s -> ei_sending (le_ei s') = ei_sending (le_ei s) ->
  se_ok (le_clients s) (le_session s') -> sess_begin (le_session s) = None -> sess_begin (le_session s') = None ->
  (se_alone (le_session s') = true -> ei_quiet (le_ei s') = true) ->
  (se_alone (le_session s') = false -> le_ei s' <> EiIdle) ->
  le_inv s'.
Proof. unfold le_inv. intros Hinv Hm -> -> -> -> -> ??????. by eapply linv_session. Qed.

Lemma release_position_ok {a} p : is_Some (ac_cursor a) -> exists w, release_position a p = Ret w.
Proof. intros [[x y] Hc]. unfold release_position. rewrite Hc. cbn [expect exec_bind]. destruct p; eauto. Qed.

Ltac moves s Es := apply (session_moves s); rewrite ?Es; try done; cbn in *; tauto.

Lemma portal_step_inv o s :
  le_inv s -> le_main s = MaSession -> step_ok (LtSession o) -> unless_ids (fun r => le_inv (stay r s)) (portal_session_step o s).
Proof.
  intros Hinv Hm Hok. pose proof (li_session _ _ _ _ _ _ _ Hinv) as Hse. pose proof (li_alone _ _ _ _ _ _ _ Hinv) as Hal.
  pose proof (li_joined _ _ _ _ _ _ _ Hinv) as Hj. unfold portal_session_step.
  destruct (le_session s) as [ | |bm|bm|bm|bm n|bm a p|bm a p n|bm a p c|ok'| |ok'] eqn:Es, o as [ok|[rs|]|[a'|]| | | | | ];
    try exact Hinv;
    try (destruct ok; moves s Es).
  - destruct Hok as [Hrs Hok]. eapply unless_ids_bind; [apply select_barriers_ok; [done| |done]|].
    + apply (li_clients _ _ _ _ _ _ _ Hinv). by left.
    + intros [[bs ids] next] Hbm. moves s Es.
  - moves s Es.
  - destruct ok; apply (session_moves s); rewrite ?Es; try done. cbn. specialize (Hal eq_refl). by destruct (le_ei s).
  - destruct (activated_pos_ok _ _ a' Hse Hok) as (p&->&Hp&_). cbn [exec_bind unless_ids stay default].
    unfold le_inv in *. rewrite Hm, Es in Hinv. le_fields. rewrite Hm. by eapply linv_begin.
  - moves s Es.
  - destruct (le_releases s); [exact Hinv|]. moves s Es.
  - destruct n; [moves s Es|exact Hinv].
  - destruct (le_cancel_session s); [moves s Es|exact Hinv].
  - destruct (le_may_send FromSession s) eqn:Hsend; [|exact Hinv]. apply may_send_inv in Hsend as [_ Hw].
    unfold le_inv in *. rewrite Hm, Es, Hw in Hinv. le_fields. rewrite Hm. by apply linv_begun.
  - destruct (le_releases s); [exact Hinv|]. destruct (release_position_ok p (proj1 (proj2 Hse))) as [w ->]. moves s Es.
  - destruct n; [|exact Hinv]. destruct (release_position_ok p (proj1 (proj2 Hse))) as [w ->]. moves s Es.
  - destruct (le_cancel_session s); [moves s Es|exact Hinv].
  - destruct c, ok; moves s Es.
  - destruct (le_ei s) eqn:Eei; try exact Hinv. apply (session_moves s); rewrite ?Es; try done. cbn. by rewrite Eei.
Qed.

(** ** Libei *)

Lemma notify_waiters_inv s : le_inv s -> le_main s = MaSession -> le_inv (notify_waiters s).
Proof.
  intros Hinv Hm. pose proof (li_session _ _ _ _ _ _ _ Hinv) as Hse.
  pose proof (li_joined _ _ _ _ _ _ _ Hinv) as Hj. unfold notify_waiters.
  destruct (le_session s) eqn:Es; try exact Hinv; moves s Es.
Qed.

(** Libei starts to send for the current client, waiting behind the session. *)
Lemma ei_next_inv pos evs s :
  le_inv s -> ei_sending (le_ei s) = None -> se_alone (le_session s) = false -> le_main s = MaSession ->
  (pos, Begin) ∈ le_log s \/ sess_begin (le_session s) = Some pos ->
  le_inv (ei_next pos evs s).
Proof.
  intros Hinv Hei Hal Hm Hb. pose proof (li_waiters _ _ _ _ _ _ _ Hinv) as Hw. unfold senders in Hw. rewrite Hei, app_nil_r in Hw.
  destruct Hinv as [Hc He Hs Ha Hj _ Hl Hcu _]. destruct evs as [|e rest]; cbn [ei_next]; le_fields; split; try done.
  - intros E. congruence.
  - rewrite Hw. unfold senders. by rewrite app_nil_r.
  - intros E. congruence.
  - by rewrite Hw.
  - intros p [= ->]. destruct Hb as [|Hb]; [by left|right]. split; [done|]. rewrite Hb in Hw. apply Permutation_singleton_r in Hw. by rewrite Hw.
Qed.

Lemma ei_exited_inv s : le_inv s -> ei_sending (le_ei s) = None -> le_inv (ei_exited s).
Proof.
  intros [Hc He Hs Ha Hj Hw Hl Hcu Hei] Hn. le_fields. split; try done. rewrite Hw. unfold senders. by rewrite Hn.
Qed.

Lemma handle_ei_event_inv e f s :
  le_inv s -> le_main s = MaSession -> le_ei s = EiNext -> se_alone (le_session s) = false -> le_inv (handle_ei_event e f s).
Proof.
  intros Hinv Hm Hei Hal. assert (ei_sending (le_ei s) = None) as Hn by by rewrite Hei.
  assert (le_inv match le_current s with Some pos => ei_next pos (to_input_events e) s | None => s end) as Hin.
  { destruct (le_current s) as [p|] eqn:Ec; [|done]. apply ei_next_inv; try done. by apply (li_current _ _ _ _ _ _ _ Hinv). }
  unfold handle_ei_event. destruct e; try exact Hin; try exact Hinv; try (by apply ei_exited_inv); try (by apply notify_waiters_inv).
  destruct f; [done|by apply ei_exited_inv].
Qed.

Lemma ei_sent_inv pos e rest s :
  le_inv s -> le_ei s = EiSend pos e rest -> le_may_send FromEi s = true ->
  (pos, Begin) ∈ le_log s /\ le_inv ((le_send (pos, CInput e) s) <| le_ei := EiNext |>).
Proof.
  intros [Hc He Hs Ha Hj Hw Hl Hcu Hei] Ee [_ Hws]%may_send_inv. rewrite Ee in *.
  assert ((pos, Begin) ∈ le_log s) as Hb.
  { destruct (Hei pos eq_refl) as [|[_ E]]; [done|]. rewrite E in Hws. done. }
  split; [done|]. rewrite Hws in Hw. le_fields. split; try done.
  - unfold senders in *. cbn in *. rewrite app_nil_r. rewrite Permutation_app_comm in Hw. by apply Permutation_cons_inv in Hw.
  - apply begins_first_snoc; [done|]. by intros ?? [= -> _].
  - intros p Hp. destruct (Hcu p Hp); [left; set_solver|by right].
Qed.

Lemma ei_step_inv i s : le_inv s -> le_main s = MaSession -> le_inv (stay (ei_step i s) s).
Proof.
  intros Hinv Hm. pose proof (li_alone _ _ _ _ _ _ _ Hinv) as Hal. unfold ei_step.
  destruct (le_ei s) as [ | |pos e rest|] eqn:Ee, i as [[ev f|]|]; try exact Hinv.
  - apply handle_ei_event_inv; try done. destruct (se_alone (le_session s)); [|done]. by specialize (Hal eq_refl).
  - apply ei_exited_inv; [done|by rewrite Ee].
  - destruct (le_may_send FromEi s) eqn:Hsend; [|exact Hinv]. destruct (ei_sent_inv pos e rest s Hinv Ee Hsend) as [Hb Hinv'].
    change (le_inv (ei_next pos rest ((le_send (pos, CInput e) s) <| le_ei := EiNext |>))).
    apply ei_next_inv; try done.
    + cbn. destruct (se_alone (le_session s)); [|done]. by specialize (Hal eq_refl).
    + left. cbn. set_solver.
Qed.

Lemma filter_not_ei ws se ei : ws ≡ₚ senders se ei -> filter (fun w => w <> FromEi) ws ≡ₚ senders se EiEnded.
Proof. intros ->. unfold senders. by destruct (sess_begin se), (ei_sending ei). Qed.

Lemma ei_cancelled_inv s : le_inv s -> le_inv (stay (ei_cancelled s) s).
Proof.
  intros Hinv. assert (le_inv (s <| le_ei := EiEnded |> <| le_waiters ::= filter (fun w => w <> FromEi) |>)) as H.
  { destruct Hinv as [Hc He Hs Ha Hj Hw Hl Hcu Hei]. le_fields. split; try done. by eapply filter_not_ei. }
  unfold ei_cancelled. destruct (le_ei s); try exact Hinv; (destruct (le_cancel_ei s); [exact H|exact Hinv]).
Qed.

(** ** The task *)

Lemma update_step_inv i s : le_inv s -> le_inv (stay (update_step i s) s).
Proof.
  intros Hinv. unfold update_step. destruct (le_update s), i; try exact Hinv; case_match; exact Hinv.
Qed.

(** A round starts after a session has ended. *)
Lemma linv_round main main' cs cs' se ei cur ws log :
  linv main cs se ei cur ws log -> se_ended se = true -> (main' = MaSession \/ main' = MaCreate -> cs' <> []) ->
  linv main' cs' se ei cur ws log.
Proof. intros [Hc He Hs Ha Hj Hw Hl Hcu Hei] Hend Hcs. split; try done. by destruct se. Qed.

Lemma linv_start main cs se ei cur ws log :
  linv main cs se ei cur ws log -> se_ended se = true -> cs <> [] -> linv MaSession cs SeConnect EiIdle None ws log.
Proof.
  intros [Hc He Hs Ha Hj Hw Hl Hcu Hei] Hend Hcs. split; try done.
  rewrite Hw. destruct se; try done; specialize (Ha eq_refl); by destruct ei.
Qed.

Lemma le_start_session_inv s : le_inv s -> se_ended (le_session s) = true -> le_clients s <> [] -> le_inv (le_start_session s).
Proof. intros Hinv He Hc. exact (linv_start _ _ _ _ _ _ _ Hinv He Hc). Qed.

Lemma le_to_main main s :
  le_inv s -> se_ended (le_session s) = true -> (main = MaSession \/ main = MaCreate -> le_clients s <> []) -> le_inv (s <| le_main := main |>).
Proof. intros Hinv He Hc. exact (linv_round _ _ _ _ _ _ _ _ _ Hinv He Hc). Qed.

Lemma le_round_inv s : le_inv s -> se_ended (le_session s) = true -> le_inv (le_round s).
Proof.
  intros Hinv He. unfold le_round. set (s1 := s <| le_cancel_session := false |> <| le_cancel_update := false |> <| le_update := UpWait |>).
  assert (le_inv s1) as H1 by exact Hinv. assert (se_ended (le_session s1) = true) as He1 by exact He. clearbody s1.
  destruct (le_clients s1) as [|p cs] eqn:Ec.
  - apply le_to_main; [done..|]. by intros [].
  - destruct (le_first s1).
    + set (s2 := s1 <| le_first := false |>). assert (le_inv s2) as H2 by exact H1.
      apply le_start_session_inv; [exact H2|exact He1|]. change (le_clients s2) with (le_clients s1). by rewrite Ec.
    + apply le_to_main; [done..|]. by rewrite Ec.
Qed.

Lemma le_apply_inv s : le_inv s -> le_main s <> MaSession -> le_main s <> MaCreate -> le_inv (le_apply s).
Proof.
  intros Hinv Hm Hm'. pose proof (li_ended _ _ _ _ _ _ _ Hinv Hm) as He.
  unfold le_apply. destruct (le_update s) as [|[[p|p]|]]; try exact Hinv; le_fields; (eapply linv_round; [exact Hinv|done|]); by intros [].
Qed.

Lemma le_end_inv ok s : le_inv s -> se_ended (le_session s) = true -> le_inv (le_end ok s).
Proof. intros Hinv He. refine (le_to_main (MaEnded ok) s Hinv He _). by intros []. Qed.

Lemma le_apply_same s : le_main (le_apply s) = le_main s /\ le_session (le_apply s) = le_session s.
Proof. unfold le_apply. destruct (le_update s) as [|[[]|]]; done. Qed.

Lemma le_finish_inv s : le_inv s -> le_main s <> MaSession -> le_main s <> MaCreate -> le_inv (le_finish s).
Proof.
  intros Hinv Hm Hm'. pose proof (li_ended _ _ _ _ _ _ _ Hinv Hm) as He.
  pose proof (le_apply_inv s Hinv Hm Hm') as Hinv'. destruct (le_apply_same s) as [_ Hs]. unfold le_finish.
  case_match; [apply le_end_inv|apply le_round_inv]; try done; by rewrite Hs.
Qed.

Lemma main_step_inv ok s : le_inv s -> le_inv (stay (main_step ok s) s).
Proof.
  intros Hinv. pose proof (li_ended _ _ _ _ _ _ _ Hinv) as He. pose proof (li_clients _ _ _ _ _ _ _ Hinv) as Hc.
  unfold main_step. destruct (le_main s) as [ | | | |[]|] eqn:Em; try exact Hinv.
  - destruct ok; [apply le_round_inv|apply le_end_inv]; try done; by apply He.
  - destruct (le_update s); [exact Hinv|]. apply le_finish_inv; by rewrite ?Em.
  - destruct ok; [|apply le_end_inv; try done; by apply He].
    apply le_start_session_inv; [done|by apply He|]. apply Hc. by right.
  - destruct (le_update s); [exact Hinv|].
    destruct (le_session s) eqn:Es; try exact Hinv; (apply le_to_main; [done|by rewrite Es|]); by intros [].
  - apply le_finish_inv; by rewrite ?Em.
  - apply le_end_inv; [done|]. by apply He.
Qed.

Lemma le_step_inv i s : le_inv s -> step_ok i -> unless_ids le_inv (le_step i s).
Proof.
  intros Hinv Hok. destruct i as [p|p|w| | |ok|u|o|e|]; cbn [le_step unless_ids].
  - unfold le_notify_capture. destruct (le_main s) eqn:Em, (le_notify s); exact Hinv || (le_fields; rewrite Em; unfold le_inv in Hinv; by rewrite Em in Hinv).
  - unfold le_notify_capture. destruct (le_main s) eqn:Em, (le_notify s); exact Hinv || (le_fields; rewrite Em; unfold le_inv in Hinv; by rewrite Em in Hinv).
  - unfold le_release. destruct (le_main s) eqn:Em; try case_match; exact Hinv.
  - exact Hinv.
  - unfold le_poll_next. destruct (le_main s) as [ | | | | |[]] eqn:Em, (le_events s); exact Hinv.
  - by apply main_step_inv.
  - destruct (le_main s); try exact Hinv; by apply update_step_inv.
  - destruct (le_main s) eqn:Em; try exact Hinv. eapply unless_ids_bind; [by apply portal_step_inv|]. done.
  - destruct (le_main s) eqn:Em; try exact Hinv. by apply ei_step_inv.
  - destruct (le_main s); try exact Hinv. by apply ei_cancelled_inv.
Qed.

Lemma le_run_inv steps s : le_inv s -> Forall step_ok steps -> unless_ids le_inv (le_run steps s).
Proof.
  intros Hinv H. revert s Hinv. induction H as [|i steps Hi _ IH]; intros s Hinv; [done|]. cbn [le_run].
  eapply unless_ids_bind; [by apply le_step_inv|]. done.
Qed.

(** C37: let the portal report zones that are not empty, with coordinates and
    sizes up to 10^9, and the position of the cursor with each activation
    ([step_ok]); then whatever clients, portal, libei and consumer do, in any
    order: the task does not panic, unless it has used up all barrier ids; input
    of a client is reported only after its beginning; and the session holds
    barriers of its clients only, each on an edge of a zone and with an id of
    its own, and is activated for one of them.  Without a cursor position the
    code does panic ([missing_cursor_panics], [missing_cursor_release_panics]),
    and so it does for an activation without zones ([no_zones_panics]). *)
Theorem libei_input_follows_begin steps :
  Forall step_ok steps ->
  unless_ids (fun s => begins_first (le_log s) /\ se_ok (le_clients s) (le_session s)) (le_run steps libei_new).
Proof.
  intros H. eapply unless_ids_weaken; [apply le_run_inv; [apply libei_new_inv|done]|]. intros s Hinv. split; apply Hinv.
Qed.

(** ** Releases *)

(** Where the session waits it answers a release, whether it is active or not. *)
Lemma waiting_release_answered s bm n w rest :
  le_main s = MaSession -> le_session s = SeWait bm n -> le_releases s = w :: rest ->
  exists s', le_step (LtSession GotRelease) s = Ret s' /\ le_answered s' = le_answered s ++ [w].
Proof. intros Hm Hs Hr. cbn [le_step]. rewrite Hm. unfold portal_session_step. rewrite Hs, Hr. cbn [exec_bind]. by eexists. Qed.

Lemma active_release_answered s bm a p n w rest :
  le_inv s -> le_main s = MaSession -> le_session s = SeActive bm a p n -> le_releases s = w :: rest ->
  exists s', le_run [LtSession GotRelease; LtSession (OkOr true)] s = Ret s' /\ le_answered s' = le_answered s ++ [w].
Proof.
  intros Hinv Hm Hs Hr. pose proof (li_session _ _ _ _ _ _ _ Hinv) as Hse. rewrite Hs in Hse.
  destruct (release_position_ok p (proj1 (proj2 Hse))) as [warp Hw].
  clear Hinv Hse. destruct s. simpl in Hm, Hs, Hr. subst. cbn [le_run le_step le_main portal_session_step le_session le_releases exec_bind].
  rewrite Hw. cbn. by eexists.
Qed.

(** ** Where a release is not answered *)

(** Without clients *)
Definition creates (i : LeStep) : bool := match i with LtCreate _ => true | _ => false end.
Definition is_create (e : LibeiNotifyEvent) : bool := match e with NeCreate _ => true | _ => false end.
Record never_created (s : Libei) : Prop := {
  nc_clients : le_clients s = [];
  nc_main : match le_main s with MaStart | MaIdle | MaEnded _ => True | _ => False end;
  nc_notify : Forall (fun e => is_create e = false) (le_notify s);
  nc_update : match le_update s with UpDone (Some e) => is_create e = false | _ => True end;
  nc_answered : le_answered s = [] }.

Lemma never_created_end ok s : never_created s -> never_created (le_end ok s).
Proof. intros [Hc Hm Hn Hu Ha]. by split. Qed.
Lemma never_created_round s : never_created s -> never_created (le_round s).
Proof.
  intros [Hc Hm Hn Hu Ha]. unfold le_round.
  set (s1 := s <| le_cancel_session := false |> <| le_cancel_update := false |> <| le_update := UpWait |>).
  change (le_clients s1) with (le_clients s). rewrite Hc. by split.
Qed.
Lemma never_created_finish s : never_created s -> never_created (le_finish s).
Proof.
  intros H. unfold le_finish. assert (never_created (le_apply s)) as H'.
  { unfold le_apply. destruct (le_update s) as [|[[p|p]|]] eqn:Eu; try done; destruct H as [Hc Hm Hn Hu Ha]; rewrite Eu in Hu; [done|].
    split; try done; cbn; [by rewrite Hc|by rewrite Eu]. }
  case_match; [by apply never_created_end|by apply never_created_round].
Qed.

Lemma never_created_update u s : never_created s -> never_created (stay (update_step u s) s).
Proof.
  intros H. pose proof H as [Hc Hm Hn Hu Ha]. unfold update_step. destruct (le_update s) eqn:Eu; [|done].
  destruct u; [destruct (le_cancelled s)|destruct (le_cancel_update s)| |destruct (le_notify s) as [|e rest]]; try done; try (by split).
  apply Forall_cons in Hn as [??]. by split.
Qed.

Lemma never_created_step i s s' : creates i = false -> never_created s -> le_step i s = Ret s' -> never_created s'.
Proof.
  intros Hi H E. pose proof H as [Hc Hm Hn Hu Ha].
  destruct i as [p|p|w| | |ok|u|o|e|]; try done; cbn [le_step] in E;
    try (destruct (le_main s) eqn:Em; try done; apply Ret_inj in E as <-; done || by apply never_created_update);
    apply Ret_inj in E as <-.
  - assert (never_created (s <| le_notify := [NeDestroy p] |>)) as Hn' by (split; try done; by repeat constructor).
    unfold le_notify_capture. destruct (le_main s), (le_notify s); done.
  - assert (forall f g, never_created (s <| le_refused ::= f |>) /\ never_created (s <| le_releases ::= g |>)) as Hr by (by repeat split).
    unfold le_release. destruct (le_main s), (length (le_releases s) <? 8); try done; apply (Hr (fun l => l ++ [w]) (fun l => l ++ [w])).
  - by split.
  - assert (forall l, never_created (s <| le_events := l |>)) as Hl by (by split).
    unfold le_poll_next. destruct (le_main s) as [ | | | | |[]], (le_events s); try done; apply Hl.
  - unfold main_step. destruct (le_main s) eqn:Em; try done; destruct (le_update s) eqn:Eu; try done; cbn [stay default];
      try (destruct ok); try (by apply never_created_end); try (by apply never_created_round); try (by apply never_created_finish).
Qed.

(** While no client was created no release is ever answered, however long the
    task runs. *)
Lemma release_without_clients steps s :
  Forall (fun i => creates i = false) steps -> le_run steps libei_new = Ret s -> le_answered s = [].
Proof.
  intros H E. enough (never_created s) as Hn by apply Hn.
  assert (never_created libei_new) as Hinit by by split. revert Hinit E. generalize libei_new as s0.
  induction H as [|i steps Hi _ IH]; intros s0 H0; cbn [le_run]; [by intros [= <-]|].
  intros (s1&E1&E)%exec_bind_Ret. eapply IH; [|done]. by eapply never_created_step.
Qed.

(** While a beginning waits for room in the event channel *)
Definition polls (i : LeStep) : bool := match i with LtPoll => true | _ => false end.
Record begin_blocked (se : SessionTask) (answered : list N) (s : Libei) : Prop := {
  bb_main : le_main s = MaSession;
  bb_session : le_session s = se;
  bb_events : le_events s <> [];
  bb_answered : le_answered s = answered }.

Lemma may_not_send w s : le_events s <> [] -> le_may_send w s = false.
Proof. unfold le_may_send. by destruct (le_events s). Qed.

Lemma begin_blocked_step bm a p answered i s s' :
  polls i = false -> begin_blocked (SeBegin bm a p) answered s -> le_step i s = Ret s' -> begin_blocked (SeBegin bm a p) answered s'.
Proof.
  intros Hi H E. pose proof H as [Hm Hs He Ha]. pose proof (may_not_send FromEi s He) as Hei. pose proof (may_not_send FromSession s He) as Hse.
  destruct i as [q|q|w| | |ok|u|o|e|]; try done; cbn [le_step] in E; rewrite ?Hm in E.
  - apply Ret_inj in E as <-. unfold le_notify_capture. rewrite Hm. by destruct (le_notify s).
  - apply Ret_inj in E as <-. unfold le_notify_capture. rewrite Hm. by destruct (le_notify s).
  - apply Ret_inj in E as <-. unfold le_release. rewrite Hm. by destruct (length (le_releases s) <? 8).
  - by apply Ret_inj in E as <-.
  - apply Ret_inj in E as <-. unfold main_step. rewrite Hm, Hs. by destruct (le_update s).
  - apply Ret_inj in E as <-. unfold update_step. destruct (le_update s), u; try done; by case_match.
  - unfold portal_session_step in E. rewrite Hs in E. destruct o as [| | | | | | | ]; try (by apply Ret_inj in E as <-).
    rewrite Hse in E. by apply Ret_inj in E as <-.
  - apply Ret_inj in E as <-. unfold ei_step. rewrite Hei. destruct (le_ei s), e as [[ev f|]|]; try done.
    unfold handle_ei_event, notify_waiters, ei_next. rewrite Hs. cbn [stay default].
    destruct ev; try done; try (by destruct f); destruct (le_current s); try done; by destruct (to_input_events _).
  - apply Ret_inj in E as <-. unfold ei_cancelled. destruct (le_ei s); try done; by destruct (le_cancel_ei s).
Qed.

(** A consumer that does not take the events, because it waits for the answer
    of a release or for the end of the task, waits forever. *)
Lemma begin_blocks steps bm a p s s' :
  le_main s = MaSession -> le_session s = SeBegin bm a p -> le_events s <> [] ->
  Forall (fun i => polls i = false) steps -> le_run steps s = Ret s' ->
  le_answered s' = le_answered s /\ le_main s' = MaSession.
Proof.
  intros Hm Hs He H E. enough (begin_blocked (SeBegin bm a p) (le_answered s) s') as [] by done.
  assert (begin_blocked (SeBegin bm a p) (le_answered s) s) as H0 by done. revert H0 E. generalize (le_answered s) as answered. clear Hm Hs He.
  revert s. induction H as [|i steps Hi _ IH]; intros s answered H0; cbn [le_run]; [by intros [= <-]|].
  intros (s1&E1&E)%exec_bind_Ret. eapply IH; [|done]. by eapply begin_blocked_step.
Qed.

(** ** The end of the task *)

Definition in_loop (se : SessionTask) : bool := match se with SeWait _ _ | SeActive _ _ _ _ => true | _ => false end.
Definition terminate_steps : list LeStep :=
  [LtTerminate; LtUpdate UpCancelled; LtSession Cancelled; LtEiCancelled; LtSession EiJoined; LtMain true; LtMain true].

Lemma loop_taken_down cs id f se ei cur c1 cu ce cd nt rl ev ws an rf wp lg :
  in_loop se = true -> ei <> EiIdle ->
  match le_run terminate_steps (mkLibei cs id f MaSession UpWait se ei cur c1 cu ce cd nt rl ev ws an rf wp lg) with
  | Ret s' => le_main s' = MaEnded true /\ le_releases s' = [] /\ le_refused s' = rf ++ rl
  | _ => False
  end.
Proof.
  intros Hl Hei. destruct se; try discriminate Hl; destruct ei; try (by destruct Hei); vm_compute; (split; [reflexivity|split; reflexivity]).
Qed.

(** A session that waits in its loop is taken down without a poll of the
    events, and no release is left waiting. *)
Theorem libei_loop_terminates steps s :
  Forall step_ok steps -> le_run steps libei_new = Ret s ->
  le_main s = MaSession -> le_update s = UpWait -> in_loop (le_session s) = true ->
  match le_run terminate_steps s with
  | Ret s' => le_main s' = MaEnded true /\ le_releases s' = [] /\ le_refused s' = le_refused s ++ le_releases s
  | _ => False
  end.
Proof.
  intros H E Hm Hu Hl. pose proof (le_run_inv steps _ libei_new_inv H) as Hinv. rewrite E in Hinv. cbn in Hinv.
  assert (le_ei s <> EiIdle) as Hei. { apply (li_joined _ _ _ _ _ _ _ Hinv). by destruct (le_session s). }
  destruct s as [cs id f m u se ei cur c1 cu ce cd nt rl ev ws an rf wp lg]. cbn in Hm, Hu, Hl, Hei. subst m u.
  exact (loop_taken_down cs id f se ei cur c1 cu ce cd nt rl ev ws an rf wp lg Hl Hei).
Qed.

Module libei_demo.
(** One zone of 1920 by 1080, clients at its left and right *)
Definition zone : Region := mkRegion 0 0 1920 1080.
Definition at_client (id : N) : Activated := mkActivated (Some id) (Some (0, 1140457472)%N).
Definition open_session : list LeStep := [LtSession (OkOr true); LtSession (Zones (Some [zone])); LtSession (OkOr true); LtSession (OkOr true); LtSession (OkOr true)].
Definition set_up : list LeStep :=
  [LtMain true; LtCreate CLeft; LtUpdate UpClients; LtMain true] ++ open_session ++
  [LtCreate CRight; LtUpdate UpClients; LtSession Cancelled; LtEiCancelled; LtSession EiJoined; LtMain true; LtMain true; LtMain true] ++ open_session.
Definition activation (id : N) : list LeStep := [LtSession (ActivatedIs (Some (at_client id))); LtSession Sent; LtPoll].
Definition scroll_event : LeStep := LtEi (Some (EiEventIs (EvScrollDiscrete 120 120) true)).
Definition after (steps : list LeStep) : Libei := match le_run (set_up ++ steps) libei_new with Ret s => s | _ => libei_new end.

Lemma set_up_ok : Forall step_ok set_up.
Proof.
  assert (region_ok zone) as Hz by (unfold region_ok, small; cbn; lia).
  assert (step_ok (LtSession (Zones (Some [zone])))) as Hs by (split; [done|by repeat constructor]).
  repeat first [apply Forall_nil_2 | apply Forall_cons_2]; exact Hs || exact I.
Qed.

(** The activation of the second session's barrier for the left client, input, and a release *)
Definition session : list LeStep := activation 2 ++ [scroll_event; LtEi None; LtPoll; LtEi None; LtPoll; LtRelease 7].
Lemma session_steps_ok : Forall step_ok (set_up ++ session).
Proof.
  apply Forall_app. split; [exact set_up_ok|]. repeat first [apply Forall_nil_2 | apply Forall_cons_2]; exact I || by eexists.
Qed.

Lemma libei_input_follows_begin_witness :
  map fst (le_log (after session)) = [CLeft; CLeft; CLeft] /\
  unless_ids (fun s => begins_first (le_log s) /\ se_ok (le_clients s) (le_session s)) (le_run (set_up ++ session) libei_new).
Proof. split; [vm_compute; reflexivity|]. exact (libei_input_follows_begin _ session_steps_ok). Defined.

Lemma libei_loop_terminates_witness :
  in_loop (le_session (after session)) = true /\
  match le_run terminate_steps (after session) with
  | Ret s' => le_main s' = MaEnded true /\ le_releases s' = [] /\ le_refused s' = le_refused (after session) ++ le_releases (after session)
  | _ => False
  end.
Proof.
  split; [vm_compute; reflexivity|].
  refine (libei_loop_terminates (set_up ++ session) (after session) session_steps_ok _ _ _ _); vm_compute; reflexivity.
Defined.

(** A release while active is answered, and puts the cursor one pixel inside. *)
Example release_answered :
  let s := after (session ++ [LtSession GotRelease; LtSession (OkOr true)]) in
  le_answered s = [7%N] /\ le_warps s = [(4607182418800017408, 4647503709213818880)%N].
Proof. vm_compute. done. Qed.

(** An activation that names no barrier is of the closest one: here the left. *)
Example closest_barrier :
  le_current (after [LtSession (ActivatedIs (Some (mkActivated None (Some (1084227584, 1140457472)%N))))]) = Some CLeft.
Proof. vm_compute. done. Qed.

(** An activation without the position of the cursor: a panic at once if it
    does not name a known barrier, and otherwise when it is released. *)
Example missing_cursor_panics :
  le_run (set_up ++ [LtSession (ActivatedIs (Some (mkActivated None None)))]) libei_new
  = Panic "no cursor position reported by compositor".
Proof. vm_compute. done. Qed.
Example missing_cursor_release_panics :
  le_run (set_up ++ [LtSession (ActivatedIs (Some (mkActivated (Some 2%N) None))); LtSession Sent; LtPoll;
    LtRelease 7; LtSession GotRelease]) libei_new
  = Panic "compositor did not report cursor position!".
Proof. vm_compute. done. Qed.
(** An activation that names no barrier while the portal has reported no zone *)
Example no_zones_panics :
  exists msg, le_run ([LtMain true; LtCreate CLeft; LtUpdate UpClients; LtMain true; LtSession (OkOr true); LtSession (Zones (Some []));
    LtSession (OkOr true); LtSession (OkOr true); LtSession (OkOr true);
    LtSession (ActivatedIs (Some (mkActivated None (Some (0, 0)%N))))]) libei_new = Panic msg.
Proof. eexists. vm_compute. done. Qed.

(** A beginning that waits for room with the events not taken: the release is
    never answered, and the task does not end (see [begin_blocks]). *)
Definition blocked : list LeStep :=
  activation 2 ++ [LtEi (Some (EiEventIs (EvKeyboardKey 0 30 true) true)); LtEi None; LtRelease 1; LtSession GotRelease; LtSession (OkOr true);
    LtSession (ActivatedIs (Some (at_client 2))); LtRelease 2; LtTerminate].
Example blocked_begin :
  let s := after blocked in
  le_main s = MaSession /\ sess_begin (le_session s) = Some CLeft /\ le_events s <> [] /\ le_releases s = [2%N].
Proof. vm_compute. done. Qed.

(** Input of the last client can follow the beginning of the next one, when the
    second event of a scroll waits for room. *)
Example late_input :
  let s := after (activation 2 ++ [scroll_event; LtEi None; LtRelease 1; LtSession GotRelease; LtSession (OkOr true);
    LtSession (ActivatedIs (Some (at_client 3))); LtPoll; LtEi None; LtPoll; LtSession Sent]) in
  map fst (le_log s) = [CLeft; CLeft; CLeft; CRight].
Proof. vm_compute. done. Qed.
Example later_input :
  let key := LtEi (Some (EiEventIs (EvKeyboardKey 0 30 true) true)) in
  let s := after (activation 2 ++ [key; LtEi None; scroll_event; LtRelease 1; LtSession GotRelease; LtSession (OkOr true);
    LtSession (ActivatedIs (Some (at_client 3))); LtPoll; LtEi None; LtPoll; LtSession Sent; LtPoll; LtEi None]) in
  map fst (le_log s) = [CLeft; CLeft; CLeft; CRight; CLeft].
Proof. vm_compute. done. Qed.

(** A session that fails to start is only noticed with the next change. *)
Definition refused : list LeStep := [LtMain true; LtCreate CLeft; LtUpdate UpClients; LtMain true; LtSession (OkOr false)].
Example error_held_back :
  let steps := refused ++ [LtMain true; LtUpdate UpSessionEnded; LtMain true] in
  (match le_run steps libei_new with Ret s => le_main s = MaSession | _ => False end) /\
  (match le_run (steps ++ [LtUpdate UpZones; LtMain true; LtMain true]) libei_new with Ret s => le_main s = MaEnded false | _ => False end).
Proof. vm_compute. done. Qed.
End libei_demo.
