(* ===== verification/WlrootsEmulation.v ===== *)
(** * Emulation with the virtual devices of wlroots (input-emulation/src/wlroots.rs)

    Each peer has a virtual pointer and a virtual keyboard.  The requests to the
    compositor are recorded in order; the outcomes of flushing them are given by
    the environment, as are the outputs it announces and the clock. *)

From stdpp Require Import base tactics list gmap sets strings.
From Stdlib Require Import NArith ZArith Lia SpecFloat.
From S2P Require Import Prelude Bytes MachineNumbers Scancode ProtoWire Emulation LibeiCapture.

(** ** Modifiers *)

(** [XMods]: eight bits *)
Definition ShiftMask : N := 1.
Definition LockMask : N := 2.
Definition ControlMask : N := 4.
Definition Mod1Mask : N := 8.
Definition Mod2Mask : N := 16.
Definition Mod3Mask : N := 32.
Definition Mod4Mask : N := 64.
Definition Mod5Mask : N := 128.
Definition from_bits_truncate (b : N) : N := N.land b 255.

(** [update_by_mods_event] *)
Definition update_by_mods_event (depressed locked : N) : N :=
  N.lor (from_bits_truncate depressed) (from_bits_truncate locked).

Definition pressed_mask (key : Linux) : N :=
  match key with
  | L_KeyLeftShift | L_KeyRightShift => ShiftMask
  | L_KeyLeftCtrl | L_KeyRightCtrl => ControlMask
  | L_KeyLeftAlt | L_KeyRightalt => Mod1Mask
  | L_KeyLeftMeta | L_KeyRightmeta => Mod4Mask
  | _ => 0
  end.
Definition locked_mask (key : Linux) : N :=
  match key with
  | L_KeyCapsLock => LockMask
  | L_KeyNumlock => Mod2Mask
  | L_KeyScrollLock => Mod3Mask
  | _ => 0
  end.
(** [update_by_key_event]: the modifiers, and whether the key is one *)
Definition update_by_key_event (mods key state : N) : N * bool :=
  match linux_try_from key with
  | None => (mods, false)
  | Some key =>
      if (pressed_mask key =? 0)%N && (locked_mask key =? 0)%N then (mods, false)
      else if (state =? 1)%N then (N.lor mods (pressed_mask key), true)
      else (N.lxor (N.ldiff mods (pressed_mask key)) (locked_mask key), true)
  end.
Definition mask_locks (mods : N) : N := N.land mods (N.lor LockMask (N.lor Mod2Mask Mod3Mask)).
Definition mask_pressed (mods : N) : N := N.land mods (N.lor ShiftMask (N.lor ControlMask (N.lor Mod1Mask Mod4Mask))).

(** ** Requests *)

(** Requests on a virtual pointer or keyboard, named by a number; floats by
    their bits *)
Inductive WlRequest :=
| CreateVirtualPointer (id : N)
| CreateVirtualPointerWithOutput (id output : N)
| CreateVirtualKeyboard (id : N)
| VpMotion (id time dx dy : N)
| VpMotionAbsolute (id time x y x_extent y_extent : N)
| VpButton (id time button : N) (pressed : bool)
| VpAxis (id time : N) (horizontal : bool) (value : N)
| VpAxisDiscrete (id time : N) (horizontal : bool) (value : N) (discrete : Z)
| VpAxisSourceWheel (id : N)
| VpFrame (id : N)
| VpDestroy (id : N)
| VkKeymap (id format size : N)
| VkKey (id time key state : N)
| VkModifiers (id depressed latched locked group : N)
| VkDestroy (id : N)
| OutputRelease (name : N).

Record VirtualInput := mkVirtualInput { vi_pointer : N; vi_keyboard : N; vi_modifiers : N }.

(** The values of [wl_pointer.button_state] and [wl_pointer.axis] *)
Definition two_valued (n : N) : option bool := match n with 0 => Some false | 1 => Some true | _ => None end%N.

(** [VirtualInput::consume_event]: the requests and the modifiers, or an error
    where a value is none of the protocol *)
Definition consume_event (now : N) (v : VirtualInput) (event : InputEvent) : option (list WlRequest * N) :=
  let p := vi_pointer v in
  let k := vi_keyboard v in
  match event with
  | Pointer (Motion time dx dy) => Some ([VpMotion p time dx dy; VpFrame p], vi_modifiers v)
  | Pointer (Button time button state) =>
      state ← two_valued state; Some ([VpButton p time button state; VpFrame p], vi_modifiers v)
  | Pointer (Axis time axis value) =>
      axis ← two_valued axis; Some ([VpAxis p time axis value; VpFrame p; VpFrame p], vi_modifiers v)
  | Pointer (AxisDiscrete120 axis value) =>
      axis ← two_valued axis;
      let scaled := bits_of_f64 (SFdiv 53 1024 (z_as_f64 value) (z_as_f64 8)) in
      Some ([VpAxisDiscrete p now axis scaled (Z.quot value 120); VpAxisSourceWheel p; VpFrame p; VpFrame p], vi_modifiers v)
  | Keyboard (Key time key state) =>
      let '(mods, changed) := update_by_key_event (vi_modifiers v) key state in
      Some (VkKey k time key state :: (if changed then [VkModifiers k (mask_pressed mods) 0 (mask_locks mods) 0] else []), mods)
  | Keyboard (Modifiers depressed latched locked group) =>
      Some ([VkModifiers k depressed latched locked group], update_by_mods_event depressed locked)
  end.

(** ** State *)

Record WlOutput := mkWlOutput { wo_global : N; wo_name : option string }.
(** What a flush or a roundtrip gives *)
Inductive Flush := FlushOk | FlushWouldBlock | FlushProtocol | FlushError.
Inductive WlError := WlIo | WlNoOutput | WlAmbiguous.

Record Wlroots := mkWlroots {
  wl_selector : option string;
  wl_last_flush_failed : bool;
  wl_keymap : option (N * N);
  wl_inputs : gmap N VirtualInput;
  wl_outputs : list WlOutput;
  wl_next : N;                            (* the next object *)
  wl_now : N;
  wl_flushes : list Flush;                (* outcomes to come, then all succeed *)
  wl_panicked : option string;
  wl_requests : list WlRequest }.
#[global] Instance Wlroots_eta : RecordEta Wlroots := fun s =>
  mkWlroots (wl_selector s) (wl_last_flush_failed s) (wl_keymap s) (wl_inputs s) (wl_outputs s) (wl_next s) (wl_now s)
    (wl_flushes s) (wl_panicked s) (wl_requests s).

Definition wl_request (rs : list WlRequest) (s : Wlroots) : Wlroots := s <| wl_requests ::= fun l => l ++ rs |>.
(** [queue.flush()] *)
Definition wl_flush (s : Wlroots) : Flush * Wlroots :=
  match wl_flushes s with [] => (FlushOk, s) | f :: fs => (f, s <| wl_flushes := fs |>) end.
Definition wl_panic (msg : string) (s : Wlroots) : Wlroots := s <| wl_panicked := Some msg |>.

(** [register_global], of an output *)
Definition wl_register_global (name : N) (s : Wlroots) : Wlroots := s <| wl_outputs ::= fun l => l ++ [mkWlOutput name None] |>.
(** [deregister_global] *)
Definition wl_deregister_global (name : N) (s : Wlroots) : Wlroots :=
  let gone := List.filter (fun o => (wo_global o =? name)%N) (wl_outputs s) in
  wl_request (map (fun o => OutputRelease (wo_global o)) gone)
    (s <| wl_outputs ::= List.filter (fun o => negb (wo_global o =? name)%N) |>).
(** The name of an output arrives. *)
Definition output_named (global : N) (name : string) (s : Wlroots) : Wlroots :=
  s <| wl_outputs ::= update_first (fun o => (wo_global o =? global)%N) (fun o => mkWlOutput (wo_global o) (Some name)) |>.

(** A keymap arrives. *)
Definition keymap_arrived (format size : N) (s : Wlroots) : Wlroots := s <| wl_keymap := Some (format, size) |>.

(** [WlrootsEmulation::new]: it waits until the outputs are known and a keymap
    has come. *)
Definition wl_new (selector : option string) (outputs : list WlOutput) (keymap : N * N) (now : N) (flushes : list Flush) : Wlroots :=
  mkWlroots selector false (Some keymap) ∅ outputs 0 now flushes None [].

(** [target_output] *)
Definition matches_output (selector : option string) (o : WlOutput) : bool :=
  match selector with None => true | Some n => bool_decide (wo_name o = Some n) end.
Definition target_output (selector : option string) (s : Wlroots) : N + WlError :=
  match List.filter (matches_output selector) (wl_outputs s) with
  | [o] => inl (wo_global o)
  | [] => inr WlNoOutput
  | _ => inr WlAmbiguous
  end.

(** [add_client] *)
Definition wl_add_client (client : N) (s : Wlroots) : Wlroots :=
  let pointer := wl_next s in
  let keyboard := (wl_next s + 1)%N in
  let s := wl_request [CreateVirtualPointer pointer; CreateVirtualKeyboard keyboard] (s <| wl_next ::= N.add 2 |>) in
  match wl_keymap s with
  | None => wl_panic "no keymap" s
  | Some (format, size) =>
      wl_request [VkKeymap keyboard format size] (s <| wl_inputs ::= <[client := mkVirtualInput pointer keyboard 0]> |>)
  end.
(** [destroy_client] *)
Definition wl_destroy_client (client : N) (s : Wlroots) : Wlroots :=
  match wl_inputs s !! client with
  | Some v => wl_request [VpDestroy (vi_pointer v); VkDestroy (vi_keyboard v)] (s <| wl_inputs ::= delete client |>)
  | None => s
  end.

(** [Emulation::consume] *)
Definition wl_send (event : InputEvent) (handle : N) (v : VirtualInput) (s : Wlroots) : (unit + WlError) * Wlroots :=
  match consume_event (wl_now s) v event with
  | None => (inl tt, wl_panic "failed to convert event" s)
  | Some (rs, mods) =>
      let s := wl_request rs (s <| wl_inputs ::= <[handle := mkVirtualInput (vi_pointer v) (vi_keyboard v) mods]> |>) in
      match wl_flush s with
      | (FlushWouldBlock, s) => (inl tt, s <| wl_last_flush_failed := true |>)
      | (FlushProtocol, s) => (inl tt, wl_panic "wayland protocol violation" s)
      | (FlushOk, s) => (inl tt, s <| wl_last_flush_failed := false |>)
      | (FlushError, s) => (inr WlIo, s)
      end
  end.
Definition wl_consume (event : InputEvent) (handle : N) (s : Wlroots) : (unit + WlError) * Wlroots :=
  match wl_inputs s !! handle with
  | None => (inl tt, s)
  | Some v =>
      if wl_last_flush_failed s then
        match wl_flush s with
        | (FlushWouldBlock, s) => (inl tt, s)
        | (_, s) => wl_send event handle v s
        end
      else wl_send event handle v s
  end.

Definition wl_create (handle : N) (s : Wlroots) : Wlroots :=
  let s := wl_add_client handle s in
  match wl_panicked s with Some _ => s | None => snd (wl_flush s) end.
Definition wl_destroy (handle : N) (s : Wlroots) : Wlroots := snd (wl_flush (wl_destroy_client handle s)).

(** [center_pointer]: what arrives in the roundtrip is [wl_register_global] and
    the others, before it. *)
Definition wl_center_pointer (s : Wlroots) : (unit + WlError) * Wlroots :=
  match wl_flush s with
  | (FlushOk, s) =>
      match target_output (wl_selector s) s with
      | inr e => (inr e, s)
      | inl output =>
          let p := wl_next s in
          let s := wl_request [CreateVirtualPointerWithOutput p output; VpMotionAbsolute p (wl_now s) 1 1 2 2; VpFrame p; VpDestroy p]
                     (s <| wl_next ::= N.add 1 |>) in
          match wl_flush s with
          | (FlushOk, s) => (inl tt, s)
          | (_, s) => (inr WlIo, s)
          end
      end
  | (_, s) => (inr WlIo, s)
  end.

(** The backend; once it has panicked it does nothing. *)
Definition unless_panicked {A} (r : A) (f : Wlroots -> A * Wlroots) (s : Wlroots) : A * Wlroots :=
  match wl_panicked s with Some _ => (r, s) | None => f s end.
#[global] Instance wlroots_backend : EmulationBackend WlError Wlroots := {
  eb_consume event handle := unless_panicked (inl tt) (wl_consume event handle);
  eb_create handle s := snd (unless_panicked tt (fun s => (tt, wl_create handle s)) s);
  eb_destroy handle s := snd (unless_panicked tt (fun s => (tt, wl_destroy handle s)) s);
  eb_terminate s := s;
  eb_center_pointer _ := unless_panicked (inl tt) wl_center_pointer }.

(** * Properties of the emulation with wlroots

    Requests only name live devices and none is left over, events of peers that
    follow the protocol never bring the backend down, and the modifiers follow
    the keys. *)

(** ** What a backend keeps under every use of the emulation layer *)

Section backend_invariant.
Context {E B : Type} {HB : EmulationBackend E B}.
Variable drain : gset N -> list N.
Variables (P : gset N -> B -> Prop) (Q : InputEvent -> Prop).
Hypothesis P_consume : forall H e h b, Q e -> P H b -> P H (snd (eb_consume e h b)).
Hypothesis P_create : forall H h b, h ∉ H -> P H b -> P (H ∪ {[h]}) (eb_create h b).
Hypothesis P_destroy : forall H h b, h ∈ H -> P H b -> P (H ∖ {[h]}) (eb_destroy h b).
Hypothesis P_terminate : forall H b, P H b -> P H (eb_terminate b).
Hypothesis P_center : forall H h b, P H b -> P H (snd (eb_center_pointer h b)).
Hypothesis Q_key : forall k, Q (release_key k).
Hypothesis Q_button : forall b, Q (release_button b).
Hypothesis Q_modifiers : Q release_modifiers.
Implicit Types (s : InputEmulation B).

Definition keeps s : Prop := P (ie_handles s) (ie_emulation s).
Definition op_events (o : EmulationOp) : Prop := match o with OpConsume e _ => Q e | _ => True end.

Lemma backend_consume_keeps e h s : Q e -> keeps s -> keeps (snd (backend_consume e h s)).
Proof.
  intros He Hs. unfold backend_consume. pose proof (P_consume _ e h _ He Hs) as Hc. destruct (eb_consume _ _ _). exact Hc.
Qed.

Lemma release_codes_keeps release codes h first s :
  (forall c, Q (release c)) -> keeps s -> keeps (snd (release_codes release codes h first s)).
Proof.
  intros Hq. revert first s. induction codes as [|c codes IH]; intros first s Hs; [done|]. cbn [release_codes].
  pose proof (backend_consume_keeps (release c) h s (Hq c) Hs) as Hc. destruct (backend_consume _ _ _). by apply IH.
Qed.

Lemma release_inputs_keeps h s : keeps s -> keeps (snd (release_inputs drain h s)).
Proof.
  intros Hs. unfold release_inputs.
  assert (forall f s1, keeps s1 -> keeps (snd (
    let '(first, s) :=
      match ie_pressed_buttons s1 !! h with
      | Some buttons => release_codes release_button (drain buttons) h f (s1 <| ie_pressed_buttons := <[h := ∅]> (ie_pressed_buttons s1) |>)
      | None => (f, s1)
      end in
    let '(r, s) := backend_consume release_modifiers h s in
    (match note_error first r with Some error => inr error | None => inl tt end, s)))) as Htail.
  { intros f s1 H1. destruct (ie_pressed_buttons s1 !! h) as [bs|].
    - assert (keeps (s1 <| ie_pressed_buttons := <[h := ∅]> (ie_pressed_buttons s1) |>)) as H0 by exact H1.
      pose proof (release_codes_keeps release_button (drain bs) h f _ Q_button H0) as H2.
      destruct (release_codes _ _ _ _ _) as [f2 s2]. cbn [snd] in H2.
      pose proof (backend_consume_keeps release_modifiers h s2 Q_modifiers H2) as H3. destruct (backend_consume _ _ _). exact H3.
    - pose proof (backend_consume_keeps release_modifiers h s1 Q_modifiers H1) as H3. destruct (backend_consume _ _ _). exact H3. }
  destruct (ie_pressed_keys s !! h) as [ks|]; [|by apply Htail].
  assert (keeps (s <| ie_pressed_keys := <[h := ∅]> (ie_pressed_keys s) |>)) as H0 by exact Hs.
  pose proof (release_codes_keeps release_key (drain ks) h None _ Q_key H0) as H1. destruct (release_codes _ _ _ _ _) as [f1 s1]. by apply Htail.
Qed.

Lemma emulation_consume_keeps e h s : Q e -> keeps s -> keeps (snd (emulation_consume e h s)).
Proof.
  intros He Hs. destruct e as [[]|[]]; cbn [emulation_consume]; try (by apply backend_consume_keeps);
    [unfold update_pressed_button|unfold update_pressed_keys]; destruct (update_pressed _ _ _ _) as [[] t]; try exact Hs;
    by apply backend_consume_keeps.
Qed.

Lemma emulation_create_keeps h s : keeps s -> keeps (snd (emulation_create h s)).
Proof. intros Hs. unfold emulation_create. case_decide; [exact Hs|]. by apply P_create. Qed.

Lemma emulation_destroy_keeps h s : keeps s -> keeps (emulation_destroy drain h s).
Proof.
  intros Hs. unfold emulation_destroy. pose proof (release_inputs_keeps h s Hs) as H. destruct (release_inputs _ _ _) as [r s1].
  case_decide; [|exact H]. by apply P_destroy.
Qed.

Lemma emulation_terminate_keeps s : keeps s -> keeps (emulation_terminate drain s).
Proof.
  intros Hs. unfold emulation_terminate. generalize (drain (ie_handles s)) as hs. intros hs.
  enough (keeps (foldl (fun s handle => emulation_destroy drain handle s) s hs)) as H by by apply P_terminate.
  revert s Hs. induction hs as [|h hs IH]; intros s Hs; [done|]. apply IH. by apply emulation_destroy_keeps.
Qed.

Lemma emulation_center_keeps h s : keeps s -> keeps (snd (emulation_center_pointer h s)).
Proof.
  intros Hs. unfold emulation_center_pointer. pose proof (P_center _ h _ Hs) as Hc. destruct (eb_center_pointer _ _). exact Hc.
Qed.

Lemma emulation_op_keeps o s : op_events o -> keeps s -> keeps (emulation_op drain o s).
Proof.
  intros Ho Hs. destruct o; cbn [emulation_op].
  - by apply emulation_consume_keeps.
  - by apply emulation_create_keeps.
  - by apply emulation_destroy_keeps.
  - by apply release_inputs_keeps.
  - by apply emulation_terminate_keeps.
  - by apply emulation_center_keeps.
Qed.
End backend_invariant.

(** ** Devices *)

(** What a request does to the devices *)
Inductive ObjectUse := UCreate (id : N) | UUse (id : N) | UDestroy (id : N) | UNone.
Definition object_use (r : WlRequest) : ObjectUse :=
  match r with
  | CreateVirtualPointer id | CreateVirtualPointerWithOutput id _ | CreateVirtualKeyboard id => UCreate id
  | VpDestroy id | VkDestroy id => UDestroy id
  | VpMotion id _ _ _ | VpMotionAbsolute id _ _ _ _ _ | VpButton id _ _ _ | VpAxis id _ _ _ | VpAxisDiscrete id _ _ _ _
  | VpAxisSourceWheel id | VpFrame id | VkKeymap id _ _ | VkKey id _ _ _ | VkModifiers id _ _ _ _ => UUse id
  | OutputRelease _ => UNone
  end.

(** The devices that are live and that ever were, if no request names one that
    is not live and none is created twice *)
Abbreviation devices := (gset N * gset N)%type.
Definition use_object (d : option devices) (r : WlRequest) : option devices :=
  d ← d;
  let '(live, ever) := d in
  match object_use r with
  | UCreate id => if decide (id ∈ ever) then None else Some (live ∪ {[id]}, ever ∪ {[id]})
  | UUse id => if decide (id ∈ live) then Some d else None
  | UDestroy id => if decide (id ∈ live) then Some (live ∖ {[id]}, ever) else None
  | UNone => Some d
  end.
Definition use_objects (rs : list WlRequest) (d : option devices) : option devices := foldl use_object d rs.
Definition live_after (rs : list WlRequest) : option devices := use_objects rs (Some (∅, ∅)).

Lemma live_after_app rs rs' : live_after (rs ++ rs') = use_objects rs' (live_after rs).
Proof. apply foldl_app. Qed.

(** Requests that only use some live device *)
Definition uses (id : N) (r : WlRequest) : Prop := object_use r = UUse id.
Lemma uses_live rs live ever : Forall (fun r => exists id, id ∈ live /\ uses id r) rs -> use_objects rs (Some (live, ever)) = Some (live, ever).
Proof.
  induction 1 as [|r rs (id&Hid&Hr) _ IH]; [done|]. unfold use_objects in *. cbn [foldl use_object mbind option_bind]. rewrite Hr.
  by rewrite decide_True.
Qed.

(** The devices of the peers *)
Definition device_of (v : VirtualInput) (id : N) : Prop := id = vi_pointer v \/ id = vi_keyboard v.
Record wl_devices (inputs : gmap N VirtualInput) (live ever : gset N) (next : N) : Prop := {
  wd_live : forall id, id ∈ live <-> exists h v, inputs !! h = Some v /\ device_of v id;
  wd_two : forall h v, inputs !! h = Some v -> vi_pointer v <> vi_keyboard v;
  wd_own : forall h h' v v' id, inputs !! h = Some v -> inputs !! h' = Some v' -> device_of v id -> device_of v' id -> h = h';
  wd_ever : forall id, id ∈ live \/ id ∈ ever -> (id < next)%N }.

Record wl_inv (handles : gset N) (s : Wlroots) : Prop := {
  wi_keymap : is_Some (wl_keymap s);
  wi_devices : exists live ever, live_after (wl_requests s) = Some (live, ever) /\ wl_devices (wl_inputs s) live ever (wl_next s);
  wi_handles : wl_panicked s = None -> dom (wl_inputs s) = handles }.

(** An event only uses the devices of its peer. *)
Lemma consume_event_uses now v e rs mods :
  consume_event now v e = Some (rs, mods) -> Forall (fun r => exists id, device_of v id /\ uses id r) rs.
Proof.
  unfold device_of, uses. destruct e as [[t dx dy|t b st|t ax x|ax x]|[t k st|a b c d]]; cbn [consume_event]; intros H;
    try (destruct (two_valued _); cbn [mbind option_bind] in H; [|done]);
    try (destruct (update_by_key_event _ _ _) as [m []]); simplify_eq; repeat constructor; eauto.
Qed.

(** [consume_event] only fails on what the protocol has not. *)
Lemma consume_event_some now v e : event_wf e = true -> is_Some (consume_event now v e).
Proof.
  assert (forall n, (n <=? 1)%N = true -> is_Some (two_valued n)) as Htwo.
  { intros n Hn. destruct n as [|[| |]]; done. }
  destruct e as [[t dx dy|t b st|t ax x|ax x]|[t k st|a b c d]]; cbn [consume_event event_wf]; intros H; eauto;
    try (destruct (Htwo _ H) as [? ->]; cbn [mbind option_bind]; eauto).
  destruct (update_by_key_event _ _ _). eauto.
Qed.

Lemma wl_flush_same s : exists f fs, wl_flush s = (f, s <| wl_flushes := fs |>) /\ (fs ⊆+ wl_flushes s) /\ (f = FlushOk \/ f ∈ wl_flushes s).
Proof.
  unfold wl_flush. destruct s as [a b c d e f g [|fl fls] h i]; cbn.
  - exists FlushOk, []. split; [done|]. split; [done|by left].
  - exists fl, fls. split; [done|]. split; [apply submseteq_cons; done|]. right. left.
Qed.

(** What [wl_inv] reads *)
Lemma wl_inv_ext H s s' :
  wl_inv H s -> wl_keymap s' = wl_keymap s -> wl_requests s' = wl_requests s -> wl_inputs s' = wl_inputs s -> wl_next s' = wl_next s ->
  (wl_panicked s' = None -> wl_panicked s = None) -> wl_inv H s'.
Proof. intros [Hk Hd Hh] Ek Er Ei En Hp. split; rewrite ?Ek, ?Er, ?Ei, ?En; auto. Qed.

(** The modifiers of a peer change. *)
Lemma wl_devices_mods inputs live ever next h v m :
  wl_devices inputs live ever next -> inputs !! h = Some v ->
  wl_devices (<[h := mkVirtualInput (vi_pointer v) (vi_keyboard v) m]> inputs) live ever next.
Proof.
  intros [Hl Ht Ho He] Hv.
  assert (forall h' v', <[h := mkVirtualInput (vi_pointer v) (vi_keyboard v) m]> inputs !! h' = Some v' ->
    exists w, inputs !! h' = Some w /\ vi_pointer w = vi_pointer v' /\ vi_keyboard w = vi_keyboard v') as Hback.
  { intros h' v' [[<- <-]|[??]]%lookup_insert_Some; eauto. }
  split; [|..|done].
  - intros id. rewrite Hl. split.
    + intros (h'&v'&Hv'&Hd). destruct (decide (h' = h)) as [->|].
      * simplify_eq. eexists h, _. rewrite lookup_insert_eq. done.
      * exists h', v'. by rewrite lookup_insert_ne.
    + intros (h'&v'&Hv'&Hd). destruct (Hback _ _ Hv') as (w&Hw&E1&E2). exists h', w. unfold device_of in *. by rewrite E1, E2.
  - intros h' v' Hv'. destruct (Hback _ _ Hv') as (w&Hw&<-&<-). eauto.
  - intros h1 h2 v1 v2 id Hv1 Hv2 Hd1 Hd2. destruct (Hback _ _ Hv1) as (w1&Hw1&E1&E1'), (Hback _ _ Hv2) as (w2&Hw2&E2&E2').
    unfold device_of in *. rewrite <-E1, <-E1' in Hd1. rewrite <-E2, <-E2' in Hd2. eauto.
Qed.

(** New devices are created for a new peer. *)
Lemma wl_devices_add inputs live ever next h m :
  wl_devices inputs live ever next -> inputs !! h = None ->
  wl_devices (<[h := mkVirtualInput next (next + 1) m]> inputs) (live ∪ {[next]} ∪ {[next + 1]})%N (ever ∪ {[next]} ∪ {[next + 1]})%N (2 + next).
Proof.
  intros [Hl Ht Ho He] Hn.
  assert (forall h' v' id, inputs !! h' = Some v' -> device_of v' id -> (id < next)%N) as Hold.
  { intros h' v' id Hv' Hd. apply He. left. apply Hl. eauto. }
  split.
  - intros id. rewrite !elem_of_union, !elem_of_singleton, Hl. split.
    + intros [[(h'&v'&Hv'&Hd)| ->]| ->].
      * exists h', v'. rewrite lookup_insert_ne by congruence. done.
      * eexists h, _. rewrite lookup_insert_eq. split; [done|by left].
      * eexists h, _. rewrite lookup_insert_eq. split; [done|by right].
    + intros (h'&v'&[[<- <-]|[? Hv']]%lookup_insert_Some&Hd); [destruct Hd as [->| ->]; simpl; auto|left; left; eauto].
  - intros h' v' [[<- <-]|[??]]%lookup_insert_Some; [simpl; lia|eauto].
  - intros h1 h2 v1 v2 id [[<- <-]|[? Hv1]]%lookup_insert_Some [[<- <-]|[? Hv2]]%lookup_insert_Some Hd1 Hd2; try done.
    + specialize (Hold _ _ _ Hv2 Hd2). destruct Hd1 as [->| ->]; simpl in Hold; lia.
    + specialize (Hold _ _ _ Hv1 Hd1). destruct Hd2 as [->| ->]; simpl in Hold; lia.
    + eauto.
  - intros id. rewrite !elem_of_union, !elem_of_singleton. intros [[[?| ->]| ->]|[[?| ->]| ->]]; try lia;
      (etrans; [apply He; by eauto|lia]).
Qed.

(** Those of a peer are destroyed. *)
Lemma wl_devices_remove inputs live ever next h v :
  wl_devices inputs live ever next -> inputs !! h = Some v ->
  wl_devices (delete h inputs) (live ∖ {[vi_pointer v]} ∖ {[vi_keyboard v]}) ever next.
Proof.
  intros [Hl Ht Ho He] Hv. split.
  - intros id. rewrite !elem_of_difference, !elem_of_singleton, Hl. split.
    + intros [[(h'&v'&Hv'&Hd) Hp] Hk]. exists h', v'. split; [|done]. rewrite lookup_delete_ne; [done|].
      intros <-. simplify_eq. by destruct Hd.
    + intros (h'&v'&[Hne Hv']%lookup_delete_Some&Hd). split; [split|]; [by eauto|..]; intros ->; apply Hne;
        (eapply Ho; [exact Hv|exact Hv'| |exact Hd]); [by left|by right].
  - intros h' v' [_ Hv']%lookup_delete_Some. eauto.
  - intros h1 h2 v1 v2 id [_ H1]%lookup_delete_Some [_ H2]%lookup_delete_Some. eauto.
  - intros id. rewrite !elem_of_difference. intros [[[??] ?]|?]; eauto.
Qed.

(** ** Operations *)

(** Requests that use devices of a peer, with its modifiers *)
Lemma wl_inv_uses H s h v m rs :
  wl_inv H s -> wl_panicked s = None -> wl_inputs s !! h = Some v -> Forall (fun r => exists id, device_of v id /\ uses id r) rs ->
  wl_inv H (wl_request rs (s <| wl_inputs ::= <[h := mkVirtualInput (vi_pointer v) (vi_keyboard v) m]> |>)).
Proof.
  intros [Hk (live&ever&Hl&Hd) Hh] Hp Hv Hrs. split; [done|..].
  - exists live, ever. cbn. rewrite live_after_app, Hl. split; [|by apply wl_devices_mods].
    apply uses_live. eapply Forall_impl; [exact Hrs|]. intros r (id&Hid&Hu). exists id. split; [|done]. apply (wd_live _ _ _ _ Hd). eauto.
  - intros _. cbn. rewrite dom_insert_L, Hh by done. assert (h ∈ dom (wl_inputs s)) by by apply elem_of_dom. rewrite Hh in * by done. set_solver.
Qed.

(** Neither a panic nor one to come from the compositor *)
Definition calm (s : Wlroots) : Prop := FlushProtocol ∉ wl_flushes s /\ wl_panicked s = None.

Lemma calm_flush s f s' : wl_flush s = (f, s') -> calm s -> f <> FlushProtocol /\ calm s'.
Proof.
  unfold wl_flush, calm. destruct (wl_flushes s) as [|g gs] eqn:E; intros [= <- <-]; rewrite ?E; [done|].
  cbn. intros [[??]%not_elem_of_cons ?]. by split; [congruence|].
Qed.

(** After a flush only the outcomes to come differ. *)
Lemma wl_inv_flush H s f s' : wl_inv H s -> wl_flush s = (f, s') -> wl_inv H s' /\ wl_panicked s' = wl_panicked s /\ wl_inputs s' = wl_inputs s.
Proof.
  intros Hs. destruct (wl_flush_same s) as (g&fs&->&_). intros [= <- <-]. split; [|done]. by apply (wl_inv_ext H s).
Qed.

Lemma wl_send_inv H e h v s :
  wl_inv H s -> wl_panicked s = None -> wl_inputs s !! h = Some v -> wl_inv H (snd (wl_send e h v s)).
Proof.
  intros Hs Hp Hv. unfold wl_send. destruct (consume_event _ _ _) as [[rs mods]|] eqn:E; [|by apply (wl_inv_ext H s)].
  pose proof (wl_inv_uses H s h v mods rs Hs Hp Hv (consume_event_uses _ _ _ _ _ E)) as Hinv.
  destruct (wl_flush _) as [f s'] eqn:Ef. destruct (wl_inv_flush _ _ _ _ Hinv Ef) as (Hinv'&Hp'&_).
  destruct f; cbn [snd]; (by apply (wl_inv_ext H s')) || done.
Qed.

Lemma wl_send_calm e h v s : event_wf e = true -> calm s -> calm (snd (wl_send e h v s)).
Proof.
  intros He Hs. unfold wl_send. destruct (consume_event_some (wl_now s) v e He) as [[rs mods] ->].
  destruct (wl_flush _) as [f s'] eqn:Ef. pose proof (calm_flush _ _ _ Ef Hs) as [Hne Hs']. by destruct f.
Qed.

Lemma wl_consume_inv H e h s : wl_inv H s -> wl_panicked s = None -> wl_inv H (snd (wl_consume e h s)).
Proof.
  intros Hs Hp. unfold wl_consume. destruct (wl_inputs s !! h) as [v|] eqn:Hv; [|done]. destruct (wl_last_flush_failed s); [|by apply wl_send_inv].
  destruct (wl_flush s) as [f s'] eqn:Ef. destruct (wl_inv_flush _ _ _ _ Hs Ef) as (Hs'&Hp'&Hi).
  destruct f; try done; apply wl_send_inv; by rewrite ?Hp', ?Hi.
Qed.

Lemma wl_consume_calm e h s : event_wf e = true -> calm s -> calm (snd (wl_consume e h s)).
Proof.
  intros He Hs. unfold wl_consume. destruct (wl_inputs s !! h) as [v|]; [|done].
  destruct (wl_last_flush_failed s); [|by apply wl_send_calm].
  destruct (wl_flush s) as [f s'] eqn:Ef. pose proof (calm_flush _ _ _ Ef Hs) as [Hne Hs']. destruct f; try done; by apply wl_send_calm.
Qed.

Lemma wl_flush_calm s : calm s -> calm (snd (wl_flush s)).
Proof. intros Hs. destruct (wl_flush s) as [f s'] eqn:Ef. by destruct (calm_flush _ _ _ Ef Hs). Qed.

Lemma wl_create_calm h s : is_Some (wl_keymap s) -> calm s -> calm (wl_create h s).
Proof.
  intros [[format size] Hk] Hs. unfold wl_create, wl_add_client. change (wl_keymap (wl_request _ _)) with (wl_keymap s). rewrite Hk.
  set (s1 := wl_request [VkKeymap _ _ _] _). assert (calm s1) as H1 by exact Hs. rewrite (proj2 H1). by apply wl_flush_calm.
Qed.

Lemma wl_destroy_calm h s : calm s -> calm (wl_destroy h s).
Proof. intros Hs. apply wl_flush_calm. unfold wl_destroy_client. by destruct (wl_inputs s !! h). Qed.

Lemma wl_create_inv H h s : h ∉ H -> wl_inv H s -> wl_panicked s = None ->
  wl_inv (H ∪ {[h]}) (wl_create h s) /\ wl_panicked (wl_create h s) = None.
Proof.
  intros Hh [[[format size] Hk] (live&ever&Hl&Hd) Hdom] Hp. specialize (Hdom Hp). unfold wl_create, wl_add_client.
  change (wl_keymap (wl_request _ _)) with (wl_keymap s). rewrite Hk.
  set (s1 := wl_request [VkKeymap _ _ _] _). change (wl_panicked s1) with (wl_panicked s). rewrite Hp.
  assert (wl_inv (H ∪ {[h]}) s1) as Hinv.
  { assert (wl_inputs s !! h = None) as Hn by (apply not_elem_of_dom; by rewrite Hdom).
    split; [by exists (format, size)|..].
    - eexists _, _. split; [|exact (wl_devices_add _ _ _ _ h 0 Hd Hn)].
      cbn. rewrite <-app_assoc, live_after_app, Hl. unfold use_objects. cbn [foldl app use_object mbind option_bind object_use].
      assert (wl_next s ∉ ever /\ (wl_next s + 1)%N ∉ ever) as [He1 He2].
      { split; intros Hin; pose proof (wd_ever _ _ _ _ Hd _ (or_intror Hin)); lia. }
      rewrite decide_False by done. cbn [mbind option_bind]. rewrite decide_False by (rewrite elem_of_union, elem_of_singleton; intros [?|?]; [done|lia]).
      cbn [mbind option_bind]. by rewrite decide_True by set_solver.
    - intros _. cbn. rewrite dom_insert_L, Hdom. set_solver. }
  destruct (wl_flush s1) as [f s2] eqn:Ef. destruct (wl_inv_flush _ _ _ _ Hinv Ef) as (Hinv'&Hp'&_). split; [done|]. cbn [snd]. by rewrite Hp'.
Qed.

Lemma wl_destroy_inv H h s : wl_inv H s -> wl_panicked s = None -> wl_inv (H ∖ {[h]}) (wl_destroy h s) /\ wl_panicked (wl_destroy h s) = None.
Proof.
  intros Hs Hp. unfold wl_destroy.
  assert (wl_inv (H ∖ {[h]}) (wl_destroy_client h s) /\ wl_panicked (wl_destroy_client h s) = None) as [Hinv Hp1].
  { destruct Hs as [Hk (live&ever&Hl&Hd) Hdom]. specialize (Hdom Hp). unfold wl_destroy_client. destruct (wl_inputs s !! h) as [v|] eqn:Hv.
    - split; [|done]. split; [done|..].
      + eexists _, _. split; [|exact (wl_devices_remove _ _ _ _ h v Hd Hv)].
        cbn. rewrite live_after_app, Hl. unfold use_objects. cbn [foldl app use_object mbind option_bind object_use].
        pose proof (wd_two _ _ _ _ Hd h v Hv) as Hne.
        rewrite decide_True by (apply (wd_live _ _ _ _ Hd); exists h, v; split; [done|by left]). cbn [mbind option_bind].
        rewrite decide_True; [done|]. apply elem_of_difference. split; [|rewrite elem_of_singleton; congruence].
        apply (wd_live _ _ _ _ Hd). exists h, v. split; [done|by right].
      + intros _. cbn. by rewrite dom_delete_L, Hdom.
    - split; [|done]. split; [done|by exists live, ever|]. intros _. apply not_elem_of_dom in Hv. rewrite Hdom in *. set_solver. }
  destruct (wl_flush _) as [f s2] eqn:Ef. destruct (wl_inv_flush _ _ _ _ Hinv Ef) as (Hinv'&Hp'&_). split; [done|]. cbn [snd]. by rewrite Hp'.
Qed.

(** Centring: the pointer that is made for it is gone again. *)
Lemma wl_center_inv H s : wl_inv H s -> wl_inv H (snd (wl_center_pointer s)).
Proof.
  intros Hs. unfold wl_center_pointer. destruct (wl_flush s) as [f s1] eqn:Ef. destruct (wl_inv_flush _ _ _ _ Hs Ef) as ([Hk (live&ever&Hl&Hd) Hh]&_&_).
  assert (wl_inv H s1) as H1 by (split; eauto). destruct f; try done. destruct (target_output _ _) as [o|e]; [|done].
  set (s2 := wl_request _ _).
  assert (wl_inv H s2) as H2.
  { split; [done| |done]. exists live, (ever ∪ {[wl_next s1]}). cbn. rewrite live_after_app, Hl. unfold use_objects.
    assert (wl_next s1 ∉ live /\ wl_next s1 ∉ ever) as [Hnl Hne].
    { split; intros Hin; [pose proof (wd_ever _ _ _ _ Hd _ (or_introl Hin))|pose proof (wd_ever _ _ _ _ Hd _ (or_intror Hin))]; lia. }
    cbn [foldl use_object mbind option_bind object_use]. rewrite decide_False by done.
    do 3 (cbn [mbind option_bind]; rewrite decide_True by set_solver). split; [f_equal; f_equal; set_solver|].
    destruct Hd as [D1 D2 D3 D4]. split; try done. intros id. rewrite elem_of_union, elem_of_singleton.
    intros [?|[?| ->]]; [..|lia]; (etrans; [apply D4; by eauto|lia]). }
  destruct (wl_flush s2) as [g s3] eqn:Eg. destruct (wl_inv_flush _ _ _ _ H2 Eg) as (H3&_&_). by destruct g.
Qed.

Lemma wl_center_calm s : calm s -> calm (snd (wl_center_pointer s)).
Proof.
  intros Hs. unfold wl_center_pointer. pose proof (wl_flush_calm s Hs) as H1. destruct (wl_flush s) as [f s1]. cbn [snd] in H1.
  destruct f; try done. destruct (target_output _ _) as [o|e]; [|done]. set (s2 := wl_request _ _). assert (calm s2) as H2 by exact H1.
  pose proof (wl_flush_calm s2 H2) as H3. destruct (wl_flush s2) as [g s3]. by destruct g.
Qed.

(** Outputs come and go: only requests that name no device. *)
Lemma wl_deregister_inv H name s : wl_inv H s -> wl_inv H (wl_deregister_global name s).
Proof.
  intros [Hk (live&ever&Hl&Hd) Hh]. split; [done| |done]. exists live, ever. split; [|done]. cbn. rewrite live_after_app, Hl.
  generalize (List.filter (fun o => (wo_global o =? name)%N) (wl_outputs s)) as os. intros os. induction os as [|o os IH]; [done|]. exact IH.
Qed.

(** ** Through the emulation layer *)

(** What happens to the emulation: an operation of the layer, or an event of
    the compositor *)
Inductive WlStep :=
| WsOp (o : EmulationOp)
| WsOutput (name : N)
| WsOutputGone (name : N)
| WsOutputNamed (global : N) (name : string)
| WsKeymap (format size : N).

Lemma wl_inv_panicked H H' s msg : wl_panicked s = Some msg -> wl_inv H s -> wl_inv H' s.
Proof. intros Hp [Hk Hd Hh]. split; [done..|]. congruence. Qed.

Lemma wl_new_inv selector outputs keymap now flushes : wl_inv ∅ (wl_new selector outputs keymap now flushes).
Proof.
  split; [by exists keymap|..|done]. exists ∅, ∅. split; [done|]. split; cbn.
  - intros id. split; [set_solver|]. intros (h&v&Hv&_). by rewrite lookup_empty in Hv.
  - intros h v Hv. by rewrite lookup_empty in Hv.
  - intros h h' v v' id Hv. by rewrite lookup_empty in Hv.
  - set_solver.
Qed.

Section through_layer.
Variable drain : gset N -> list N.
Context (selector : option string) (outputs : list WlOutput) (keymap : N * N) (now : N) (flushes : list Flush).
Definition wl_step (x : WlStep) (s : InputEmulation Wlroots) : InputEmulation Wlroots :=
  match x with
  | WsOp o => emulation_op drain o s
  | WsOutput name => s <| ie_emulation ::= wl_register_global name |>
  | WsOutputGone name => s <| ie_emulation ::= wl_deregister_global name |>
  | WsOutputNamed global name => s <| ie_emulation ::= output_named global name |>
  | WsKeymap format size => s <| ie_emulation ::= keymap_arrived format size |>
  end.
Definition wl_emulation (steps : list WlStep) : InputEmulation Wlroots :=
  foldl (fun s x => wl_step x s) (emulation_new (wl_new selector outputs keymap now flushes)) steps.
Lemma wl_emulation_snoc steps x : wl_emulation (steps ++ [x]) = wl_step x (wl_emulation steps).
Proof. unfold wl_emulation. by rewrite foldl_app. Qed.

(** Events of the compositor *)
Lemma wl_arrival_inv x s : (forall o, x <> WsOp o) -> wl_inv (ie_handles s) (ie_emulation s) ->
  wl_inv (ie_handles (wl_step x s)) (ie_emulation (wl_step x s)).
Proof.
  intros Hx Hs. destruct x as [o|name|name|global name|format size]; [by destruct (Hx o)|..]; cbn.
  - by apply (wl_inv_ext _ (ie_emulation s)).
  - by apply wl_deregister_inv.
  - by apply (wl_inv_ext _ (ie_emulation s)).
  - destruct Hs as [Hk Hd Hh]. split; [by exists (format, size)|done..].
Qed.
Lemma wl_arrival_calm x s : (forall o, x <> WsOp o) -> calm (ie_emulation s) -> calm (ie_emulation (wl_step x s)).
Proof. intros Hx Hs. destruct x as [o|name|name|global name|format size]; [by destruct (Hx o)|exact Hs..]. Qed.

Lemma wl_emulation_inv steps : wl_inv (ie_handles (wl_emulation steps)) (ie_emulation (wl_emulation steps)).
Proof.
  induction steps as [|x steps IH] using rev_ind; [apply wl_new_inv|]. rewrite wl_emulation_snoc.
  destruct x as [o|name|name|global name|format size]; try (by apply wl_arrival_inv).
  apply (emulation_op_keeps drain wl_inv (fun _ => True)); try done.
  - intros H e h s _ Hs. cbn. unfold unless_panicked. destruct (wl_panicked s) eqn:Hp; [done|]. by apply wl_consume_inv.
  - intros H h s Hh Hs. cbn. unfold unless_panicked. destruct (wl_panicked s) eqn:Hp; [by eapply wl_inv_panicked|]. by apply wl_create_inv.
  - intros H h s Hh Hs. cbn. unfold unless_panicked. destruct (wl_panicked s) eqn:Hp; [by eapply wl_inv_panicked|]. by apply wl_destroy_inv.
  - intros H h s Hs. cbn. unfold unless_panicked. destruct (wl_panicked s) eqn:Hp; [done|]. by apply wl_center_inv.
  - by destruct o.
Qed.

(** C38: Whatever operations of the emulation layer there are, centring the
    pointer included, whatever peers send, whatever outputs and keymaps come and
    whatever flushing gives, each request to the compositor is on a virtual
    device that was created before and not yet destroyed, no device is created
    twice, and the devices that are live are those of the registered peers, each
    peer its own two: none is left over, of a peer that has gone or of centring. *)
Theorem wlroots_devices_live steps :
  let s := wl_emulation steps in
  exists live ever,
    live_after (wl_requests (ie_emulation s)) = Some (live, ever) /\
    wl_devices (wl_inputs (ie_emulation s)) live ever (wl_next (ie_emulation s)) /\
    (wl_panicked (ie_emulation s) = None -> dom (wl_inputs (ie_emulation s)) = ie_handles s).
Proof. intros s. destruct (wl_emulation_inv steps) as [_ (live&ever&Hl&Hd) Hh]. by exists live, ever. Qed.

(** Events of the protocol never bring the backend down, unless the compositor
    reports a violation of the protocol. *)
Definition step_events (x : WlStep) : Prop :=
  match x with WsOp o => op_events (fun e => event_wf e = true) o | _ => True end.
Theorem wlroots_never_panics steps :
  FlushProtocol ∉ flushes -> Forall step_events steps ->
  wl_panicked (ie_emulation (wl_emulation steps)) = None.
Proof.
  intros Hf Hsteps.
  enough (keeps (fun H s => calm s /\ wl_inv H s) (wl_emulation steps)) as [[_ ?] _] by done.
  induction steps as [|x steps IH] using rev_ind; [split; [done|apply wl_new_inv]|].
  apply Forall_app in Hsteps as [Hsteps [Hx _]%Forall_cons]. specialize (IH Hsteps). rewrite wl_emulation_snoc.
  destruct x as [o|name|name|global name|format size];
    [|by split; [apply wl_arrival_calm; [done|apply IH]|apply wl_arrival_inv; [done|apply IH]]..].
  apply (emulation_op_keeps drain _ (fun e => event_wf e = true)); try done.
  - intros H e h s He [Hs Hi]. cbn. unfold unless_panicked. rewrite (proj2 Hs). split; [by apply wl_consume_calm|].
    apply wl_consume_inv; [done|apply Hs].
  - intros H h s Hh [Hs Hi]. cbn. unfold unless_panicked. rewrite (proj2 Hs). split; [apply wl_create_calm; [apply Hi|done]|].
    apply wl_create_inv; [done..|apply Hs].
  - intros H h s Hh [Hs Hi]. cbn. unfold unless_panicked. rewrite (proj2 Hs). split; [by apply wl_destroy_calm|].
    apply wl_destroy_inv; [done|apply Hs].
  - intros H h s [Hs Hi]. cbn. unfold unless_panicked. rewrite (proj2 Hs). split; [by apply wl_center_calm|by apply wl_center_inv].
Qed.
End through_layer.

(** ** Displays *)

(** The pointer is centred on the only output that matches, or nothing is sent. *)
Lemma wl_center_exact s :
  let '(r, s') := wl_center_pointer s in
  wl_requests s' = wl_requests s \/
  exists o, List.filter (matches_output (wl_selector s)) (wl_outputs s) = [o] /\
    wl_requests s' = wl_requests s ++ [CreateVirtualPointerWithOutput (wl_next s) (wo_global o); VpMotionAbsolute (wl_next s) (wl_now s) 1 1 2 2;
      VpFrame (wl_next s); VpDestroy (wl_next s)].
Proof.
  unfold wl_center_pointer. destruct (wl_flush_same s) as (f&fs&->&_). destruct f; try (by left). cbn.
  unfold target_output. cbn. destruct (List.filter _ _) as [|o [|o' os]]; try (by left).
  match goal with |- context [wl_flush ?x] => destruct (wl_flush_same x) as (g&gs&->&_) end. destruct g; right; by exists o.
Qed.

(** ** Modifiers *)

(** Whether a key stands for the modifier, or lock, of a bit *)
Definition mod_key (i k : N) : bool := match linux_try_from k with Some l => N.testbit (pressed_mask l) i | None => false end.
Definition lock_key (i k : N) : bool := match linux_try_from k with Some l => N.testbit (locked_mask l) i | None => false end.
Example mod_keys_are :
  map (fun i => List.filter (mod_key i) (map linux_code Linux_ALL)) [0; 2; 3; 6]%N = [[42; 54]; [29; 97]; [56; 100]; [125; 126]]%N /\
  map (fun i => List.filter (lock_key i) (map linux_code Linux_ALL)) [1; 4; 5]%N = [[58]; [69]; [70]]%N.
Proof. by vm_compute. Qed.

(** The modifiers after some events of keys, and the keys that are held *)
Definition mods_after (evs : list (N * N)) : N := foldl (fun m ev => fst (update_by_key_event m (fst ev) (snd ev))) 0%N evs.
Definition hold_key (held : gset N) (ev : N * N) : gset N := if (snd ev =? 1)%N then held ∪ {[fst ev]} else held ∖ {[fst ev]}.
Definition held_after (evs : list (N * N)) : gset N := foldl hold_key ∅ evs.

Lemma mods_after_snoc evs ev : mods_after (evs ++ [ev]) = fst (update_by_key_event (mods_after evs) (fst ev) (snd ev)).
Proof. unfold mods_after. by rewrite foldl_app. Qed.
Lemma held_after_snoc evs ev : held_after (evs ++ [ev]) = hold_key (held_after evs) ev.
Proof. unfold held_after. by rewrite foldl_app. Qed.

Abbreviation mod_bits := [0; 2; 3; 6]%N.
Abbreviation lock_bits := [1; 4; 5]%N.
Lemma masks_apart l : Forall (fun i => N.testbit (locked_mask l) i = false) mod_bits /\ Forall (fun i => N.testbit (pressed_mask l) i = false) lock_bits.
Proof. destruct l; repeat constructor. Qed.

Lemma update_mod_bit i m k st : i ∈ mod_bits ->
  N.testbit (fst (update_by_key_event m k st)) i = if mod_key i k then (st =? 1)%N else N.testbit m i.
Proof.
  intros Hi. unfold update_by_key_event, mod_key. destruct (linux_try_from k) as [l|]; [|done].
  pose proof (proj1 (Forall_forall _ _) (proj1 (masks_apart l)) i Hi) as Hlock. cbn in Hlock.
  destruct (N.eqb_spec (pressed_mask l) 0) as [Hp|], (N.eqb_spec (locked_mask l) 0) as [Hl|]; cbn [andb];
    try (rewrite Hp, N.bits_0); try done; destruct (st =? 1)%N; cbn [fst];
    rewrite ?N.lor_spec, ?N.lxor_spec, ?N.ldiff_spec, ?Hlock, ?Hp, ?N.bits_0; by destruct (N.testbit m i), (N.testbit (pressed_mask l) i).
Qed.

Lemma update_lock_bit i m k st : i ∈ lock_bits ->
  N.testbit (fst (update_by_key_event m k st)) i = xorb (N.testbit m i) (lock_key i k && negb (st =? 1)%N).
Proof.
  intros Hi. unfold update_by_key_event, lock_key. destruct (linux_try_from k) as [l|]; [|by rewrite xorb_false_r].
  pose proof (proj1 (Forall_forall _ _) (proj2 (masks_apart l)) i Hi) as Hpr. cbn in Hpr.
  destruct (N.eqb_spec (pressed_mask l) 0) as [Hp|], (N.eqb_spec (locked_mask l) 0) as [Hl|]; cbn [andb];
    destruct (st =? 1)%N; cbn [fst negb];
    rewrite ?N.lor_spec, ?N.lxor_spec, ?N.ldiff_spec, ?Hpr, ?Hl, ?N.bits_0; by destruct (N.testbit m i), (N.testbit (locked_mask l) i).
Qed.

(** What the emulation layer passes on: only held keys are released.  And no
    two keys of a modifier are held together. *)
Definition releases_held (evs : list (N * N)) : Prop :=
  forall evs1 k st evs2, evs = evs1 ++ (k, st) :: evs2 -> (st =? 1)%N = false -> k ∈ held_after evs1.
Definition one_of_each (evs : list (N * N)) : Prop :=
  forall evs1 evs2, evs = evs1 ++ evs2 -> forall i k k', mod_key i k = true -> mod_key i k' = true ->
    k ∈ held_after evs1 -> k' ∈ held_after evs1 -> k = k'.

(** The bit of a modifier is set exactly while a key of it is held, and that of
    a lock changes each time its key is released. *)
Theorem modifiers_follow_keys evs :
  releases_held evs -> one_of_each evs ->
  (forall i, i ∈ mod_bits -> N.testbit (mods_after evs) i = true <-> exists k, mod_key i k = true /\ k ∈ held_after evs) /\
  (forall i, i ∈ lock_bits ->
     N.testbit (mods_after evs) i = Nat.odd (length (List.filter (fun ev => lock_key i (fst ev) && negb (snd ev =? 1)%N) evs))).
Proof.
  induction evs as [|[k st] evs IH] using rev_ind; intros Hr Ho.
  { split; intros i Hi; [|done]. split; [done|]. intros (k&_&Hk). by apply not_elem_of_empty in Hk. }
  destruct IH as [IHm IHl].
  { intros evs1 k' st' evs2 -> Hst. apply (Hr evs1 k' st' (evs2 ++ [(k, st)])); [by rewrite <-app_assoc|done]. }
  { intros evs1 evs2 ->. apply (Ho evs1 (evs2 ++ [(k, st)])). by rewrite <-app_assoc. }
  split; intros i Hi; rewrite mods_after_snoc; cbn [fst snd].
  - rewrite update_mod_bit by done. rewrite held_after_snoc. unfold hold_key. cbn [fst snd]. destruct (mod_key i k) eqn:Hk.
    + destruct (st =? 1)%N eqn:Hst; [split; [|done]; intros _; exists k; set_solver|]. split; [done|].
      intros (k'&Hk'&[Hin Hne]%elem_of_difference). apply not_elem_of_singleton in Hne. destruct Hne.
      assert (k ∈ held_after evs) as Hheld by by apply (Hr evs k st []).
      by apply (Ho evs [(k, st)] eq_refl i k' k).
    + rewrite IHm by done. split; intros (k'&Hk'&Hin); exists k'; (split; [done|]); assert (k' <> k) by congruence; destruct (st =? 1)%N; set_solver.
  - rewrite update_lock_bit by done. rewrite IHl by done. rewrite List.filter_app, length_app. cbn [List.filter fst snd].
    rewrite Nat.odd_add. by destruct (lock_key i k && _).
Qed.

(** A pointer event with a value that the protocol has not brings the backend
    down, whoever sent it. *)
Lemma malformed_event_panics e h v s :
  wl_inputs s !! h = Some v -> wl_last_flush_failed s = false ->
  (exists p, e = Pointer p) -> event_wf e = false ->
  wl_panicked (snd (wl_consume e h s)) = Some "failed to convert event"%string.
Proof.
  intros Hv Hf [p ->] Hwf. unfold wl_consume, wl_send. rewrite Hv, Hf.
  assert (forall n, (n <=? 1)%N = false -> two_valued n = None) as Htwo.
  { intros n Hn. destruct n as [|[| |]]; try done; cbn in Hn; by destruct p0. }
  destruct p as [t dx dy|t b st|t ax x|ax x]; cbn [event_wf] in Hwf; try done; cbn [consume_event]; by rewrite (Htwo _ Hwf).
Qed.

Module wlroots_demo.
Definition start (ops : list EmulationOp) : InputEmulation Wlroots :=
  wl_emulation elements None [mkWlOutput 1 None] (1, 100)%N 0 [FlushOk; FlushWouldBlock; FlushWouldBlock] (map WsOp ops).
Definition shift (state : N) : InputEvent := Keyboard (Key 0 42 state).
Definition typing : list EmulationOp :=
  [OpCreate 1; OpCreate 2; OpConsume (shift 1) 1; OpConsume (Keyboard (Key 0 30 1)) 2; OpConsume (Pointer (AxisDiscrete120 0 120)) 1; OpDestroy 1].

Lemma wlroots_never_panics_witness : wl_panicked (ie_emulation (start typing)) = None.
Proof.
  apply wlroots_never_panics.
  - set_solver.
  - repeat first [apply Forall_nil_2 | apply Forall_cons_2]; exact I || reflexivity.
Defined.

(** What was sent; the shift key of the first peer is released before its
    devices are destroyed. *)
Example typing_requests :
  wl_requests (ie_emulation (start typing)) =
  [CreateVirtualPointer 0; CreateVirtualKeyboard 1; VkKeymap 1 1 100; CreateVirtualPointer 2; CreateVirtualKeyboard 3; VkKeymap 3 1 100;
   VkKey 1 0 42 1; VkModifiers 1 1 0 0 0; VkKey 3 0 30 1; VpAxisDiscrete 0 0 false 4624633867356078080 1; VpAxisSourceWheel 0; VpFrame 0; VpFrame 0;
   VkKey 1 0 42 0; VkModifiers 1 0 0 0 0; VkModifiers 1 0 0 0 0; VpDestroy 0; VkDestroy 1]%N.
Proof. vm_compute. done. Qed.

(** The pointer is centred with a device of its own, on the output that is left. *)
Example centring_requests :
  wl_requests (ie_emulation (wl_emulation elements None [mkWlOutput 1 None] (1, 100)%N 7 []
    [WsOutput 2; WsOp (OpCreate 1); WsOp (OpCenter 1); WsOutputGone 1; WsOp (OpCenter 1); WsOp (OpDestroy 1)])) =
  [CreateVirtualPointer 0; CreateVirtualKeyboard 1; VkKeymap 1 1 100; OutputRelease 1;
   CreateVirtualPointerWithOutput 2 2; VpMotionAbsolute 2 7 1 1 2 2; VpFrame 2; VpDestroy 2;
   VkModifiers 1 0 0 0 0; VpDestroy 0; VkDestroy 1]%N.
Proof. vm_compute. done. Qed.

(** Press shift, then caps lock, and release both *)
Definition keys : list (N * N) := [(42, 1); (58, 1); (58, 0); (42, 0)]%N.
Lemma keys_prefix P :
  Forall P [[]; [(42, 1)]; [(42, 1); (58, 1)]; [(42, 1); (58, 1); (58, 0)]; keys]%N -> forall evs1 evs2, keys = evs1 ++ evs2 -> P evs1.
Proof.
  unfold keys. intros H evs1 evs2 E. rewrite !Forall_cons in H. destruct H as (H0&H1&H2&H3&H4&_).
  destruct evs1 as [|e1 [|e2 [|e3 [|e4 [|]]]]]; simplify_eq/=; done.
Qed.
Lemma held_in evs k : k ∈ held_after evs -> k ∈ elements (held_after evs).
Proof. by rewrite elem_of_elements. Qed.

Ltac compute_list H := match type of H with _ ∈ ?l => let l' := eval vm_compute in l in change l with l' in H end.
Lemma keys_one_of_each : one_of_each keys.
Proof.
  intros evs1 evs2 E. apply (keys_prefix (fun evs => forall i k k', mod_key i k = true -> mod_key i k' = true ->
    k ∈ held_after evs -> k' ∈ held_after evs -> k = k')) with (evs2 := evs2); [|exact E].
  repeat first [apply Forall_nil_2 | apply Forall_cons_2]; intros i k k' Hk Hk' Hin%held_in Hin'%held_in; compute_list Hin; compute_list Hin';
    repeat match goal with H : _ ∈ _ :: _ |- _ => apply elem_of_cons in H as [->|H] | H : _ ∈ [] |- _ => by apply not_elem_of_nil in H end;
    try done; vm_compute in Hk, Hk'; done.
Qed.
Lemma keys_held : releases_held keys.
Proof.
  unfold keys. intros evs1 k st evs2 E Hst. destruct evs1 as [|e1 [|e2 [|e3 [|e4 evs1]]]]; cbn in E; injection E as; subst; try done;
    try (apply elem_of_elements; vm_compute; set_solver). by destruct evs1.
Qed.
Lemma modifiers_follow_keys_witness :
  mods_after keys = 2%N /\
  (forall i, i ∈ mod_bits -> N.testbit (mods_after keys) i = true <-> exists k, mod_key i k = true /\ k ∈ held_after keys).
Proof.
  split; [vm_compute; reflexivity|]. exact (proj1 (modifiers_follow_keys keys keys_held keys_one_of_each)).
Defined.

(** The shift modifier is lost while one of two shift keys is still held. *)
Example one_shift_left :
  let evs := [(42, 1); (54, 1); (54, 0)]%N in held_after evs = {[42%N]} /\ mask_pressed (mods_after evs) = 0%N.
Proof. vm_compute. done. Qed.

(** Bytes of a peer that bring the backend down *)
Example malformed_button :
  match encode_event (Input (Pointer (Button 0 272 2))) with
  | Ret (bs, _) =>
      match decode_event bs with
      | Ret (Input e) => wl_panicked (ie_emulation (start [OpCreate 1; OpConsume e 1])) = Some "failed to convert event"%string
      | _ => False
      end
  | _ => False
  end.
Proof. vm_compute. done. Qed.
End wlroots_demo.
