(* ===== verification/LibeiEmulation.v ===== *)
(** * Emulation with libei and with the remote desktop portal
      (input-emulation/src/libei.rs, xdg_desktop_portal.rs)

    The devices that the server of libei offers are collected as they come; the
    events of peers go to the last one of their kind.  Requests are recorded in
    order, the outcomes of flushing them are inputs. *)

From stdpp Require Import base tactics list gmap sets strings.
From Stdlib Require Import NArith ZArith Lia SpecFloat.
From S2P Require Import Prelude Bytes MachineNumbers ProtoWire Emulation.

(** ** Devices *)

(** A region of an absolute pointer *)
Record EiRegion := mkEiRegion { er_x : N; er_y : N; er_width : N; er_height : N; er_mapping_id : option string }.
(** A device and the interfaces it has *)
Record EiDevice := mkEiDevice {
  de_id : N; de_pointer : bool; de_pointer_absolute : bool; de_keyboard : bool; de_scroll : bool; de_button : bool;
  de_regions : list EiRegion }.

Record Devices := mkDevices {
  dv_pointer : option N; dv_pointer_absolute : option (N * list EiRegion); dv_scroll : option N; dv_button : option N; dv_keyboard : option N }.
#[global] Instance Devices_eta : RecordEta Devices := fun d =>
  mkDevices (dv_pointer d) (dv_pointer_absolute d) (dv_scroll d) (dv_button d) (dv_keyboard d).

(** Requests; positions and motions in bits of [f32] *)
Inductive EiRequest :=
| ReMotion (dev dx dy : N)
| ReMotionAbsolute (dev : N) (x y : N)
| ReButton (dev button : N) (pressed : bool)
| ReScroll (dev dx dy : N)
| ReScrollDiscrete (dev : N) (dx dy : Z)
| ReKey (dev key : N) (pressed : bool)
| ReFrame (dev : N)
| ReBindCapabilities
| ReStartEmulating (dev : N).

(** The events that reach a sender; all others are unexpected. *)
Inductive EiServerEvent :=
| SvDisconnected
| SvSeatAdded
| SvSeatRemoved
| SvDeviceAdded (d : EiDevice)
| SvDeviceRemoved (d : EiDevice)
| SvDevicePaused (d : EiDevice)
| SvDeviceResumed (d : EiDevice)
| SvKeyboardModifiers
| SvUnexpected.

Inductive EiError := EndOfStream | EiIo | NoAbsolute | NoRegion | AmbiguousRegion.

Record LibeiEmulation := mkLibeiEmulation {
  em_selector : option string;
  em_devices : Devices;
  em_libei_error : bool;
  em_error : option EiError;
  em_running : bool;                      (* the task that reads the events *)
  em_requests : list EiRequest }.
#[global] Instance LibeiEmulation_eta : RecordEta LibeiEmulation := fun s =>
  mkLibeiEmulation (em_selector s) (em_devices s) (em_libei_error s) (em_error s) (em_running s) (em_requests s).

(** [LibeiEmulation::new], after the handshake *)
Definition libei_emulation_new (selector : option string) : LibeiEmulation :=
  mkLibeiEmulation selector (mkDevices None None None None None) false None true [].

Definition em_send (rs : list EiRequest) (s : LibeiEmulation) : LibeiEmulation := s <| em_requests ::= fun l => l ++ rs |>.

(** ** The events of the server *)

(** [Option::replace] where the interface is there *)
Definition offer {A} (has : bool) (new : A) (old : option A) : option A := if has then Some new else old.
Definition add_device (d : EiDevice) (ds : Devices) : Devices :=
  mkDevices (offer (de_pointer d) (de_id d) (dv_pointer ds))
    (offer (de_pointer_absolute d) (de_id d, de_regions d) (dv_pointer_absolute ds))
    (offer (de_scroll d) (de_id d) (dv_scroll ds))
    (offer (de_button d) (de_id d) (dv_button ds))
    (offer (de_keyboard d) (de_id d) (dv_keyboard ds)).
Definition remove_device (d : EiDevice) (ds : Devices) : Devices :=
  if de_pointer_absolute d then ds <| dv_pointer_absolute := None |> else ds.

(** The task gives up: the error is kept for the next event of a peer. *)
Definition ei_fail (e : EiError) (s : LibeiEmulation) : LibeiEmulation :=
  s <| em_libei_error := true |> <| em_error := Some e |> <| em_running := false |>.

(** [ei_event_handler] and [ei_task]; [None] is the end of the stream. *)
Definition ei_event_handler (event : option EiServerEvent) (flushed : bool) (s : LibeiEmulation) : exec Empty_set LibeiEmulation :=
  if negb (em_running s) then Ret s else
  let flush s := Ret (if flushed then s else ei_fail EiIo s) in
  match event with
  | None | Some SvDisconnected => Ret (ei_fail EndOfStream s)
  | Some SvSeatAdded => flush (em_send [ReBindCapabilities] s)
  | Some SvSeatRemoved => flush s
  | Some (SvDeviceAdded d) => flush (s <| em_devices ::= add_device d |>)
  | Some (SvDeviceRemoved d) => flush (s <| em_devices ::= remove_device d |>)
  | Some (SvDevicePaused _) => flush s
  | Some (SvDeviceResumed d) => flush (em_send [ReStartEmulating (de_id d)] s)
  | Some SvKeyboardModifiers => flush s
  | Some SvUnexpected => Panic "unexpected ei event"
  end.

(** ** The events of peers *)

(** The requests for an event, on the device of its kind *)
Definition event_requests (ds : Devices) (event : InputEvent) : list EiRequest :=
  let on (dev : option N) (r : N -> EiRequest) := match dev with Some d => [r d; ReFrame d] | None => [] end in
  let pressed (state : N) := negb (state =? 0)%N in
  match event with
  | Pointer (Motion _ dx dy) => on (dv_pointer ds) (fun d => ReMotion d (f64_as_f32 dx) (f64_as_f32 dy))
  | Pointer (Button _ button state) => on (dv_button ds) (fun d => ReButton d button (pressed state))
  | Pointer (Axis _ axis value) =>
      on (dv_scroll ds) (fun d => if (axis =? 0)%N then ReScroll d 0 (f64_as_f32 value) else ReScroll d (f64_as_f32 value) 0)
  | Pointer (AxisDiscrete120 axis value) =>
      on (dv_scroll ds) (fun d => if (axis =? 0)%N then ReScrollDiscrete d 0 value else ReScrollDiscrete d value 0)
  | Keyboard (Key _ key state) => on (dv_keyboard ds) (fun d => ReKey d key (pressed state))
  | Keyboard (Modifiers _ _ _ _) => []
  end.

(** [Emulation::consume] *)
Definition em_consume (event : InputEvent) (flushed : bool) (s : LibeiEmulation) : (unit + EiError) * LibeiEmulation :=
  match em_libei_error s, em_error s with
  | true, Some e => (inr e, s <| em_error := None |>)
  | _, _ =>
      let s := em_send (event_requests (em_devices s) event) s in
      ((if flushed then inl tt else inr EiIo), s)
  end.

(** [center_pointer] *)
Definition matches_region (selector : option string) (r : EiRegion) : bool :=
  match selector with None => true | Some n => bool_decide (er_mapping_id r = Some n) end.
(** [a as f32 + b as f32 / 2.0] *)
Definition middle (a b : N) : N := bits_of_f32 (f32_add (z_as_f32 (Z.of_N a)) (f32_div (z_as_f32 (Z.of_N b)) (z_as_f32 2))).
Definition em_center_pointer (flushed : bool) (s : LibeiEmulation) : (unit + EiError) * LibeiEmulation :=
  match dv_pointer_absolute (em_devices s) with
  | None => (inr NoAbsolute, s)
  | Some (dev, regions) =>
      match List.filter (matches_region (em_selector s)) regions with
      | [] => (inr NoRegion, s)
      | [r] =>
          let s := em_send [ReMotionAbsolute dev (middle (er_x r) (er_width r)) (middle (er_y r) (er_height r)); ReFrame dev] s in
          ((if flushed then inl tt else inr EiIo), s)
      | _ => (inr AmbiguousRegion, s)
      end
  end.

(** ** The portal *)

Inductive XdpCall :=
| NotifyPointerMotion (dx dy : N)
| NotifyPointerButton (button : Z) (pressed : bool)
| NotifyPointerAxisDiscrete (horizontal : bool) (steps : Z)
| NotifyPointerAxis (dx dy : N)
| NotifyKeyboardKeycode (key : Z) (pressed : bool).
(** [DesktopPortalEmulation::consume]: the call of the portal *)
Definition xdp_call (event : InputEvent) : option XdpCall :=
  let pressed (state : N) := negb (state =? 0)%N in
  match event with
  | Pointer (Motion _ dx dy) => Some (NotifyPointerMotion dx dy)
  | Pointer (Button _ button state) => Some (NotifyPointerButton (to_signed 4 button) (pressed state))
  | Pointer (AxisDiscrete120 axis value) => Some (NotifyPointerAxisDiscrete (negb (axis =? 0)%N) (Z.quot value 120))
  | Pointer (Axis _ axis value) => Some (if (axis =? 0)%N then NotifyPointerAxis 0 value else NotifyPointerAxis value 0)
  | Keyboard (Key _ key state) => Some (NotifyKeyboardKeycode (to_signed 4 key) (pressed state))
  | Keyboard (Modifiers _ _ _ _) => None
  end.
(** [DesktopPortalEmulation::new]: no output can be chosen. *)
Definition xdp_accepts (selector : option string) : bool := match selector with None => true | Some _ => false end.

(** ** Sequences *)

Inductive EmStep :=
| EsServer (event : option EiServerEvent) (flushed : bool)
| EsConsume (event : InputEvent) (flushed : bool)
| EsCenter (flushed : bool).
Definition em_step (i : EmStep) (s : LibeiEmulation) : exec Empty_set LibeiEmulation :=
  match i with
  | EsServer e f => ei_event_handler e f s
  | EsConsume e f => Ret (snd (em_consume e f s))
  | EsCenter f => Ret (snd (em_center_pointer f s))
  end.
Fixpoint em_run (steps : list EmStep) (s : LibeiEmulation) : exec Empty_set LibeiEmulation :=
  match steps with
  | [] => Ret s
  | i :: steps => let* s := em_step i s in em_run steps s
  end.

(** ** What is sent *)

(** The device a request is on *)
Definition request_device (r : EiRequest) : option N :=
  match r with
  | ReMotion d _ _ | ReMotionAbsolute d _ _ | ReButton d _ _ | ReScroll d _ _ | ReScrollDiscrete d _ _ | ReKey d _ _ | ReFrame d
  | ReStartEmulating d => Some d
  | ReBindCapabilities => None
  end.
(** The devices the server has announced, with their interfaces *)
Definition announced (steps : list EmStep) (has : EiDevice -> bool) (id : N) : Prop :=
  exists d f, EsServer (Some (SvDeviceAdded d)) f ∈ steps /\ has d = true /\ de_id d = id.

Record devices_ok (steps : list EmStep) (ds : Devices) : Prop := {
  dk_pointer : forall id, dv_pointer ds = Some id -> announced steps de_pointer id;
  dk_absolute : forall id rs, dv_pointer_absolute ds = Some (id, rs) -> announced steps de_pointer_absolute id;
  dk_scroll : forall id, dv_scroll ds = Some id -> announced steps de_scroll id;
  dk_button : forall id, dv_button ds = Some id -> announced steps de_button id;
  dk_keyboard : forall id, dv_keyboard ds = Some id -> announced steps de_keyboard id }.

Lemma announced_more steps steps' has id : announced steps has id -> announced (steps ++ steps') has id.
Proof. intros (d&f&Hin&?&?). exists d, f. split; [by apply elem_of_app; left|done]. Qed.
Lemma devices_ok_more steps steps' ds : devices_ok steps ds -> devices_ok (steps ++ steps') ds.
Proof. intros [H1 H2 H3 H4 H5]. split; intros; apply announced_more; eauto. Qed.

Lemma add_device_ok steps d f ds : devices_ok steps ds -> devices_ok (steps ++ [EsServer (Some (SvDeviceAdded d)) f]) (add_device d ds).
Proof.
  intros H%(devices_ok_more _ [EsServer (Some (SvDeviceAdded d)) f]). destruct H as [H1 H2 H3 H4 H5].
  assert (forall has, has d = true -> announced (steps ++ [EsServer (Some (SvDeviceAdded d)) f]) has (de_id d)) as Hd.
  { intros has Hhas. exists d, f. split; [|done]. apply elem_of_app. right. left. }
  split; cbn; unfold offer.
  - intros id. destruct (de_pointer d) eqn:E; [|by eauto]. intros [= <-]. by apply Hd.
  - intros id rs. destruct (de_pointer_absolute d) eqn:E; [|by eauto]. intros [= <- <-]. by apply Hd.
  - intros id. destruct (de_scroll d) eqn:E; [|by eauto]. intros [= <-]. by apply Hd.
  - intros id. destruct (de_button d) eqn:E; [|by eauto]. intros [= <-]. by apply Hd.
  - intros id. destruct (de_keyboard d) eqn:E; [|by eauto]. intros [= <-]. by apply Hd.
Qed.

Lemma em_step_devices steps i s s' :
  devices_ok steps (em_devices s) -> em_step i s = Ret s' -> devices_ok (steps ++ [i]) (em_devices s').
Proof.
  intros H E. pose proof (devices_ok_more steps [i] _ H) as Hm. destruct i as [e f|e f|f]; cbn [em_step] in E.
  - unfold ei_event_handler in E. destruct (negb (em_running s)); [by simplify_eq|].
    destruct e as [[| | |d|d|d|d| |]|]; try done; apply Ret_inj in E as <-; destruct f; try exact Hm; try (by apply add_device_ok);
      cbn; unfold remove_device; destruct (de_pointer_absolute d); try exact Hm; destruct Hm as [H1 H2 H3 H4 H5]; by split.
  - apply Ret_inj in E as <-. unfold em_consume. destruct (em_libei_error s), (em_error s); exact Hm.
  - apply Ret_inj in E as <-. unfold em_center_pointer. destruct (dv_pointer_absolute _) as [[dev rs]|]; [|exact Hm].
    destruct (List.filter _ _) as [|r [|]]; exact Hm.
Qed.

Lemma em_run_devices steps0 steps s s' :
  devices_ok steps0 (em_devices s) -> em_run steps s = Ret s' -> devices_ok (steps0 ++ steps) (em_devices s').
Proof.
  revert steps0 s. induction steps as [|i steps IH]; intros steps0 s H; cbn [em_run].
  - intros [= <-]. by rewrite app_nil_r.
  - intros (s1&E1&E)%exec_bind_Ret. rewrite (app_assoc steps0 [i] steps : steps0 ++ i :: steps = _). eapply IH; [|done]. by eapply em_step_devices.
Qed.

(** The interface an event needs *)
Definition event_interface (e : InputEvent) : EiDevice -> bool :=
  match e with
  | Pointer (Motion _ _ _) => de_pointer
  | Pointer (Button _ _ _) => de_button
  | Pointer _ => de_scroll
  | Keyboard _ => de_keyboard
  end.

(** An event of a peer becomes one request on a device that the server has
    announced with the interface for it, closed by a frame, or nothing where no
    such device came or for modifiers, which the server derives from the keys. *)
Theorem libei_requests_announced selector steps s e :
  em_run steps (libei_emulation_new selector) = Ret s ->
  event_requests (em_devices s) e = [] \/
  exists r d, event_requests (em_devices s) e = [r; ReFrame d] /\ request_device r = Some d /\ announced steps (event_interface e) d.
Proof.
  intros E. assert (devices_ok [] (em_devices (libei_emulation_new selector))) as H0 by by split.
  pose proof (em_run_devices [] steps _ s H0 E) as [H1 H2 H3 H4 H5]. cbn [app] in *.
  destruct e as [[t dx dy|t b st|t ax x|ax x]|[t k st|a b c d]]; cbn [event_requests event_interface].
  - destruct (dv_pointer _) as [d|]; [right|by left]. eexists _, d. (split; [reflexivity|]). split; [done|eauto].
  - destruct (dv_button _) as [d|]; [right|by left]. eexists _, d. (split; [reflexivity|]). split; [done|eauto].
  - destruct (dv_scroll _) as [d|]; [right|by left]. eexists _, d. (split; [reflexivity|]). split; [by destruct (ax =? 0)%N|eauto].
  - destruct (dv_scroll _) as [d|]; [right|by left]. eexists _, d. (split; [reflexivity|]). split; [by destruct (ax =? 0)%N|eauto].
  - destruct (dv_keyboard _) as [d|]; [right|by left]. eexists _, d. (split; [reflexivity|]). split; [done|eauto].
  - by left.
Qed.

(** An error of the connection is reported to one event, which is lost; the
    events after it are sent as before. *)
Lemma libei_error_once e f e' f' s err :
  em_libei_error s = true -> em_error s = Some err ->
  let '(r, s1) := em_consume e f s in
  r = inr err /\ em_requests s1 = em_requests s /\
  snd (em_consume e' f' s1) = em_send (event_requests (em_devices s) e') s1.
Proof. intros Hl He. unfold em_consume. rewrite Hl, He. cbn. rewrite Hl. done. Qed.

Module libei_emulation_demo.
Definition keyboard : EiDevice := mkEiDevice 5 false false true false false [].
Definition pointer : EiDevice := mkEiDevice 6 true true false true true [mkEiRegion 0 0 1920 1080 (Some "left"%string); mkEiRegion 1920 0 1920 1080 (Some "right"%string)].
Definition offered : list EmStep := [EsServer (Some SvSeatAdded) true; EsServer (Some (SvDeviceAdded keyboard)) true; EsServer (Some (SvDeviceAdded pointer)) true].
Definition requests (selector : option string) (steps : list EmStep) : list EiRequest :=
  match em_run (offered ++ steps) (libei_emulation_new selector) with Ret s => em_requests s | _ => [] end.

Definition offered_state : LibeiEmulation := match em_run offered (libei_emulation_new None) with Ret s => s | _ => libei_emulation_new None end.
Lemma libei_requests_announced_witness :
  event_requests (em_devices offered_state) (Keyboard (Key 0 30 1)) = [] \/
  exists r d, event_requests (em_devices offered_state) (Keyboard (Key 0 30 1)) = [r; ReFrame d] /\ request_device r = Some d /\
    announced offered (event_interface (Keyboard (Key 0 30 1))) d.
Proof. apply (libei_requests_announced None offered offered_state). vm_compute. reflexivity. Defined.

(** The display is chosen by its name; without a choice two are one too many. *)
Example centre_right : requests (Some "right"%string) [EsCenter true] = [ReBindCapabilities; ReMotionAbsolute 6 1161035776 1141309440; ReFrame 6]%N.
Proof. vm_compute. done. Qed.
Example centre_ambiguous : requests None [EsCenter true] = [ReBindCapabilities].
Proof. vm_compute. done. Qed.

(** A device that the server has removed is still sent keys. *)
Example removed_device_used :
  requests None [EsServer (Some (SvDeviceRemoved keyboard)) true; EsConsume (Keyboard (Key 0 30 1)) true] =
  [ReBindCapabilities; ReKey 5 30 true; ReFrame 5]%N.
Proof. vm_compute. done. Qed.
(** Removing another absolute pointer takes the one in use. *)
Example other_device_removed :
  let other := mkEiDevice 7 false true false false false [] in
  requests (Some "right"%string) [EsServer (Some (SvDeviceRemoved other)) true; EsCenter true] = [ReBindCapabilities].
Proof. vm_compute. done. Qed.
End libei_emulation_demo.
