(* ===== verification/WindowsEmulation.v ===== *)
(** * Emulation on Windows (input-emulation/src/windows.rs)

    Events become calls of [SendInput], which may be refused; a key that is held
    is repeated by a task, and fractions of a motion are kept for the next one.
    The displays and the outcomes of the calls are given by the system. *)

From stdpp Require Import base tactics list gmap sets strings.
From Stdlib Require Import NArith ZArith Lia SpecFloat Ascii.
From S2P Require Import Prelude Bytes MachineNumbers Scancode ProtoWire Emulation SsapCodec WindowsCapture.

(** ** Inputs *)

Inductive MouseFlag :=
| MfMove | MfLeftDown | MfLeftUp | MfRightDown | MfRightUp | MfMiddleDown | MfMiddleUp | MfXDown | MfXUp | MfWheel | MfHWheel.
Inductive WinInput :=
| MouseInput (dx dy : Z) (mouse_data : N) (flag : MouseFlag)   (* tagged as injected *)
| KeyInput (scan : N) (extended up : bool).

(** [mouse_button] *)
Definition XBUTTON1 : N := 1.
Definition XBUTTON2 : N := 2.
Definition button_flag (button state : N) : option MouseFlag :=
  let pick up down := if (state =? 0)%N then Some up else if (state =? 1)%N then Some down else None in
  if (button =? BTN_LEFT)%N then pick MfLeftUp MfLeftDown
  else if (button =? BTN_RIGHT)%N then pick MfRightUp MfRightDown
  else if (button =? BTN_MIDDLE)%N then pick MfMiddleUp MfMiddleDown
  else if (button =? BTN_BACK)%N || (button =? BTN_FORWARD)%N then pick MfXUp MfXDown
  else None.
Definition mouse_button (button state : N) : option WinInput :=
  flag ← button_flag button state;
  Some (MouseInput 0 0 (if (button =? BTN_BACK)%N then XBUTTON1 else if (button =? BTN_FORWARD)%N then XBUTTON2 else 0)%N flag).

(** [scroll]; the negation may overflow. *)
Definition scroll (axis : N) (value : Z) : exec Empty_set (option WinInput) :=
  match axis with
  | 0%N | 1%N =>
      let* v := i32_arith "attempt to negate with overflow" (- value) in
      Ret (Some (MouseInput 0 0 (i32_as_u32 v) (if (axis =? 0)%N then MfWheel else MfHWheel)))
  | _ => Ret None
  end.

(** [linux_keycode_to_windows_scancode] and [key_event] *)
Definition linux_keycode_to_windows_scancode (key : N) : option N :=
  l ← linux_try_from key; w ← windows_of_linux l; Some (windows_code w).
Definition key_event (key state : N) : option WinInput :=
  code ← linux_keycode_to_windows_scancode key;
  Some (KeyInput (N.land code 255) (255 <? code)%N (state =? 0)%N).

(** ** Motion *)

Record Accumulator := mkAccumulator { residual_x : spec_float; residual_y : spec_float }.
Definition accumulator_default : Accumulator := mkAccumulator (S754_zero false) (S754_zero false).
(** One coordinate of [accumulate]: [as i32] cuts the fraction as [trunc] does. *)
Definition accumulate_axis (residual : spec_float) (d : N) : Z * spec_float :=
  let r := SFadd 53 1024 residual (f64_of_bits d) in
  let whole := float_as_i32 r in
  (whole, SFsub 53 1024 r (z_as_f64 whole)).
Definition accumulate (dx dy : N) (a : Accumulator) : Z * Z * Accumulator :=
  let '(x, rx) := accumulate_axis (residual_x a) dx in
  let '(y, ry) := accumulate_axis (residual_y a) dy in
  (x, y, mkAccumulator rx ry).

(** ** Displays *)

(** An adapter: whether it is part of the desktop, the identifiers of it and of
    its monitors, and its current mode *)
Record Adapter := mkAdapter { ad_attached : bool; ad_identifiers : list string; ad_mode : option (Z * Z * N * N) }.
Record Rect := mkRect { rc_left : Z; rc_top : Z; rc_right : Z; rc_bottom : Z }.

(** [strip_prefix] *)
Fixpoint strip_selector_prefix (p s : string) : option string :=
  match p, s with
  | EmptyString, _ => Some s
  | String c p, String d s => if bool_decide (c = d) then strip_selector_prefix p s else None
  | _, _ => None
  end.
(** [split] at backslashes and hashes *)
Fixpoint split_components (cur s : string) : list string :=
  match s with
  | EmptyString => [cur]
  | String c s =>
      if (Ascii.eqb c "\" || Ascii.eqb c "#")%char then cur :: split_components EmptyString s
      else split_components (cur ++ String c EmptyString) s
  end.
Definition display_identifier_matches (selector identifier : string) : bool :=
  match strip_selector_prefix "hardware:" selector with
  | Some hardware_id => existsb (fun component => eq_ignore_ascii_case component hardware_id) (split_components EmptyString identifier)
  | None => eq_ignore_ascii_case identifier selector
  end.

Definition adapter_matches (selector : option string) (a : Adapter) : bool :=
  ad_attached a && match selector with None => true | Some s => existsb (display_identifier_matches s) (ad_identifiers a) end.
Definition mode_rect (m : Z * Z * N * N) : exec Empty_set Rect :=
  let '(x, y, w, h) := m in
  let* r := i32_add x (u32_as_i32 w) in
  let* b := i32_add y (u32_as_i32 h) in
  Ret (mkRect x y r b).
Fixpoint matching_rects (selector : option string) (adapters : list Adapter) : exec Empty_set (list Rect) :=
  match adapters with
  | [] => Ret []
  | a :: adapters =>
      match (if adapter_matches selector a then ad_mode a else None) with
      | Some m => let* r := mode_rect m in let* rs := matching_rects selector adapters in Ret (r :: rs)
      | None => matching_rects selector adapters
      end
  end.
Inductive WinError := WeSend | WeNotActive | WeAmbiguous | WeCursor.
(** [resolve_display_rect] *)
Definition resolve_display_rect (selector : option string) (adapters : list Adapter) : exec Empty_set (Rect + WinError) :=
  let* rs := matching_rects selector adapters in
  Ret (match rs with [r] => inl r | [] => inr WeNotActive | _ => inr WeAmbiguous end).
(** [rect_center] *)
Definition half (z : Z) : Z := Z.quot z 2.
Definition rect_center (r : Rect) : exec Empty_set (Z * Z) :=
  let* w := i32_sub (rc_right r) (rc_left r) in
  let* h := i32_sub (rc_bottom r) (rc_top r) in
  let* x := i32_add (rc_left r) (half w) in
  let* y := i32_add (rc_top r) (half h) in
  Ret (x, y).

(** ** State *)

Record WinEm := mkWinEm {
  we_selector : option string;
  we_motion : Accumulator;
  we_repeat : option N;                   (* the key of the repeat task *)
  we_repeat_failed : bool;                (* it has ended with an error *)
  we_error : option WinError;             (* capacity 1 *)
  we_adapters : list Adapter;
  we_refusals : list bool;                (* which of the next calls are refused *)
  we_panicked : option string;
  we_sent : list WinInput;
  we_cursor : option (Z * Z) }.
#[global] Instance WinEm_eta : RecordEta WinEm := fun s =>
  mkWinEm (we_selector s) (we_motion s) (we_repeat s) (we_repeat_failed s) (we_error s) (we_adapters s) (we_refusals s)
    (we_panicked s) (we_sent s) (we_cursor s).

(** [WindowsEmulation::new], after the probe *)
Definition winem_new (selector : option string) (adapters : list Adapter) (refusals : list bool) : WinEm :=
  mkWinEm selector accumulator_default None false None adapters refusals None [] None.

Definition call_refused (s : WinEm) : bool * WinEm :=
  match we_refusals s with [] => (false, s) | r :: rs => (r, s <| we_refusals := rs |>) end.
(** [send_input], of an input if there is one *)
Definition send_input (i : option WinInput) (s : WinEm) : (unit + WinError) * WinEm :=
  match i with
  | None => (inl tt, s)
  | Some i =>
      let '(r, s) := call_refused s in
      if r then (inr WeSend, s) else (inl tt, s <| we_sent ::= fun l => l ++ [i] |>)
  end.

Definition kill_repeat_task (s : WinEm) : WinEm := s <| we_repeat := None |>.
Definition spawn_repeat_task (key : N) (s : WinEm) : WinEm :=
  (kill_repeat_task s) <| we_repeat := Some key |> <| we_repeat_failed := false |>.
(** The timer of the repeat task *)
Definition repeat_fires (s : WinEm) : WinEm :=
  match we_repeat s with
  | Some key =>
      if we_repeat_failed s then s else
      match send_input (key_event key 1) s with
      | (inl _, s) => s
      | (inr e, s) => s <| we_error ::= fun o => match o with None => Some e | _ => o end |> <| we_repeat_failed := true |>
      end
  | None => s
  end.
(** [poll_error] *)
Definition we_poll_error (s : WinEm) : option WinError * WinEm := (we_error s, s <| we_error := None |>).

Definition win_panic (msg : string) (s : WinEm) : WinEm := s <| we_panicked := Some msg |>.
Definition win_scroll (axis : N) (value : Z) (s : WinEm) : (unit + WinError) * WinEm :=
  match scroll axis value with
  | Ret i => send_input i s
  | Throw e => match e with end
  | Panic msg => (inl tt, win_panic msg s)
  end.

(** [Emulation::consume] *)
Definition win_consume (event : InputEvent) (s : WinEm) : (unit + WinError) * WinEm :=
  match event with
  | Pointer (Motion _ dx dy) =>
      let '(x, y, a) := accumulate dx dy (we_motion s) in
      let s := s <| we_motion := a |> in
      if (x =? 0)%Z && (y =? 0)%Z then (inl tt, s) else send_input (Some (MouseInput x y 0 MfMove)) s
  | Pointer (Button _ button state) => send_input (mouse_button button state) s
  | Pointer (Axis _ axis value) => win_scroll axis (float_as_i32 (f64_of_bits value)) s
  | Pointer (AxisDiscrete120 axis value) => win_scroll axis value s
  | Keyboard (Key _ key state) =>
      let s := if (state =? 0)%N then kill_repeat_task s else if (state =? 1)%N then spawn_repeat_task key s else s in
      send_input (key_event key state) s
  | Keyboard (Modifiers _ _ _ _) => (inl tt, s)
  end.

(** [center_pointer] *)
Definition win_center_pointer (s : WinEm) : (unit + WinError) * WinEm :=
  match (let* r := resolve_display_rect (we_selector s) (we_adapters s) in
         match r with inl rect => let* c := rect_center rect in Ret (inl c) | inr e => Ret (inr e) end) with
  | Panic msg => (inl tt, win_panic msg s)
  | Throw e => match e with end
  | Ret (inr e) => (inr e, s)
  | Ret (inl c) =>
      let '(r, s) := call_refused s in
      if r then (inr WeCursor, s) else (inl tt, s <| we_cursor := Some c |> <| we_motion := accumulator_default |>)
  end.

Definition win_reset (s : WinEm) : WinEm := s <| we_motion := accumulator_default |>.
(** The backend; once it has panicked it does nothing. *)
Definition unless_win_panicked {A} (r : A) (f : WinEm -> A * WinEm) (s : WinEm) : A * WinEm :=
  match we_panicked s with Some _ => (r, s) | None => f s end.
#[global] Instance windows_backend : EmulationBackend WinError WinEm := {
  eb_consume event _ := unless_win_panicked (inl tt) (win_consume event);
  eb_create _ s := s;
  eb_destroy _ s := snd (unless_win_panicked tt (fun s => (tt, win_reset s)) s);
  eb_terminate s := snd (unless_win_panicked tt (fun s => (tt, win_reset s)) s);
  eb_center_pointer _ := unless_win_panicked (inl tt) win_center_pointer }.

(** * Properties of the emulation on Windows

    A key repeats only while a peer holds it, the pointer is centred inside the
    display, and what a number that is not finite does to the pointer. *)

(** ** Repeated keys *)

Lemma send_input_same i s :
  let s' := snd (send_input i s) in
  we_repeat s' = we_repeat s /\ we_panicked s' = we_panicked s /\ we_motion s' = we_motion s.
Proof.
  unfold send_input, call_refused. destruct i as [i|]; [|done]. destruct (we_refusals s) as [|[] rs]; done.
Qed.

Lemma win_scroll_repeat axis v s : we_repeat (snd (win_scroll axis v s)) = we_repeat s.
Proof. unfold win_scroll. destruct (scroll axis v) as [i|[]|msg]; [apply send_input_same|done]. Qed.

(** What an event does to the repeated key *)
Definition repeat_after (e : InputEvent) (old : option N) : option N :=
  match e with
  | Keyboard (Key _ key state) => if (state =? 0)%N then None else if (state =? 1)%N then Some key else old
  | _ => old
  end.
Lemma win_consume_repeat e s : we_repeat (snd (win_consume e s)) = repeat_after e (we_repeat s).
Proof.
  destruct e as [[t dx dy|t b st|t ax x|ax x]|[t k st|a b c d]]; cbn [win_consume repeat_after]; try (apply win_scroll_repeat); try done.
  - destruct (accumulate _ _ _) as [[x y] a]. destruct (_ && _); [done|]. by rewrite (proj1 (send_input_same _ _)).
  - apply send_input_same.
  - rewrite (proj1 (send_input_same _ _)). destruct (st =? 0)%N, (st =? 1)%N; done.
Qed.

Section repeat.
Variable drain : gset N -> list N.
Hypothesis drain_spec : forall X, drain X ≡ₚ elements X.
Implicit Types (s : InputEmulation WinEm).

(** The operations of the layer and the timer of the repeat task *)
Inductive WinOp := OpLayer (o : EmulationOp) | OpRepeat | OpPollError.
Definition win_op (o : WinOp) s : InputEmulation WinEm :=
  match o with
  | OpLayer o => emulation_op drain o s
  | OpRepeat => s <| ie_emulation ::= repeat_fires |>
  | OpPollError => s <| ie_emulation ::= fun b => snd (we_poll_error b) |>
  end.
Definition win_run (ops : list WinOp) s : InputEmulation WinEm := foldl (fun s o => win_op o s) s ops.

Definition held_by_peer s (k : N) : Prop := exists h ks, ie_pressed_keys s !! h = Some ks /\ k ∈ ks.
Record repeat_ok s : Prop := {
  rp_dom : dom (ie_pressed_keys s) = ie_handles s;
  rp_held : we_panicked (ie_emulation s) = None -> forall k, we_repeat (ie_emulation s) = Some k -> held_by_peer s k }.

Lemma consume_repeat e h (b : WinEm) : we_panicked b = None -> we_repeat (snd (eb_consume e h b)) = repeat_after e (we_repeat b).
Proof. intros Hp. cbn. unfold unless_win_panicked. rewrite Hp. apply win_consume_repeat. Qed.
Lemma consume_panicked e h (b : WinEm) : we_panicked (snd (eb_consume e h b)) = None -> we_panicked b = None.
Proof. cbn. unfold unless_win_panicked. destruct (we_panicked b) eqn:E; cbn; congruence. Qed.

(** An event passed on to the backend *)
Lemma backend_consume_fields e h s :
  let s' := snd (backend_consume e h s) in
  ie_handles s' = ie_handles s /\ ie_pressed_keys s' = ie_pressed_keys s /\ ie_emulation s' = snd (eb_consume e h (ie_emulation s)).
Proof. unfold backend_consume. by destruct (eb_consume _ _ _). Qed.

Lemma backend_consume_repeat_ok e h s :
  repeat_ok s -> (forall old, repeat_after e old = old) -> repeat_ok (snd (backend_consume e h s)).
Proof.
  intros [Hd Hh] He. destruct (backend_consume_fields e h s) as (E1&E2&E3). split; [by rewrite E1, E2|].
  rewrite E3. intros Hp k Hk. apply consume_panicked in Hp as Hp'. rewrite consume_repeat, He in Hk by done.
  destruct (Hh Hp' k Hk) as (h'&ks&?&?). exists h', ks. by rewrite E2.
Qed.

(** ** Keys that are released *)

(** The table says nothing of a handle any more, and its keys do not repeat. *)
Lemma release_codes_fields (release : N -> InputEvent) codes h first s :
  let s' := snd (release_codes release codes h first s) in
  ie_handles s' = ie_handles s /\ ie_pressed_keys s' = ie_pressed_keys s /\
  (we_panicked (ie_emulation s') = None -> we_panicked (ie_emulation s) = None /\
    we_repeat (ie_emulation s') = foldl (fun old c => repeat_after (release c) old) (we_repeat (ie_emulation s)) codes).
Proof.
  revert first s. induction codes as [|c codes IH]; intros first s; [done|]. cbn [release_codes foldl].
  destruct (backend_consume_fields (release c) h s) as (E1&E2&E3). destruct (backend_consume (release c) h s) as [r s1]. cbn [snd] in *.
  destruct (IH (note_error first r) s1) as (F1&F2&F3). rewrite F1, F2, E1, E2. split_and!; try done.
  intros Hp. destruct (F3 Hp) as [Hp1 Hr]. rewrite E3 in Hp1. apply consume_panicked in Hp1 as Hp0. split; [done|].
  by rewrite Hr, E3, consume_repeat.
Qed.

Lemma repeat_after_keys codes old : foldl (fun old c => repeat_after (release_key c) old) old codes = match codes with [] => old | _ => None end.
Proof. destruct codes as [|c codes]; [done|]. cbn. by induction codes. Qed.
Lemma repeat_after_buttons codes old : foldl (fun old c => repeat_after (release_button c) old) old codes = old.
Proof. by induction codes. Qed.

Lemma drain_nil X : drain X = [] -> X = ∅.
Proof.
  intros E. apply leibniz_equiv, elements_empty_iff. apply Permutation_nil_r. by rewrite <-drain_spec, E.
Qed.

(** After [release_inputs] the handle holds no key. *)
Definition released (h : N) (t : gmap N (gset N)) : gmap N (gset N) := match t !! h with Some _ => <[h := ∅]> t | None => t end.
Lemma released_dom h t : dom (released h t) = dom t.
Proof. unfold released. destruct (t !! h) eqn:E; [|done]. rewrite dom_insert_L. assert (h ∈ dom t) by by apply elem_of_dom. set_solver. Qed.

Lemma release_tail h first s :
  let '(f, s1) := match ie_pressed_buttons s !! h with
    | Some buttons => release_codes release_button (drain buttons) h first (s <| ie_pressed_buttons := <[h := ∅]> (ie_pressed_buttons s) |>)
    | None => (first, s)
    end in
  let '(r, s2) := backend_consume release_modifiers h s1 in
  ie_handles s2 = ie_handles s /\ ie_pressed_keys s2 = ie_pressed_keys s /\
  (we_panicked (ie_emulation s2) = None -> we_panicked (ie_emulation s) = None /\ we_repeat (ie_emulation s2) = we_repeat (ie_emulation s)).
Proof.
  assert (let '(f, s1) := match ie_pressed_buttons s !! h with
    | Some buttons => release_codes release_button (drain buttons) h first (s <| ie_pressed_buttons := <[h := ∅]> (ie_pressed_buttons s) |>)
    | None => (first, s)
    end in ie_handles s1 = ie_handles s /\ ie_pressed_keys s1 = ie_pressed_keys s /\
    (we_panicked (ie_emulation s1) = None -> we_panicked (ie_emulation s) = None /\ we_repeat (ie_emulation s1) = we_repeat (ie_emulation s))) as H.
  { destruct (ie_pressed_buttons s !! h) as [bs|]; [|done].
    pose proof (release_codes_fields release_button (drain bs) h first (s <| ie_pressed_buttons := <[h := ∅]> (ie_pressed_buttons s) |>)) as H.
    cbn zeta in H. rewrite repeat_after_buttons in H. destruct (release_codes _ _ _ _ _). exact H. }
  destruct (match ie_pressed_buttons s !! h with Some _ => _ | None => _ end) as [f s1]. destruct H as (E1&E2&E3).
  destruct (backend_consume_fields release_modifiers h s1) as (F1&F2&F3). destruct (backend_consume release_modifiers h s1) as [r s2]. cbn [snd] in *.
  rewrite F1, F2, E1, E2. split_and!; try done. rewrite F3. intros Hp. apply consume_panicked in Hp as Hp1. destruct (E3 Hp1) as [Hp0 Hr].
  split; [done|]. by rewrite consume_repeat.
Qed.

Lemma release_inputs_fields h s :
  let s' := snd (release_inputs drain h s) in
  ie_handles s' = ie_handles s /\ ie_pressed_keys s' = released h (ie_pressed_keys s) /\
  (we_panicked (ie_emulation s') = None -> we_panicked (ie_emulation s) = None /\
    we_repeat (ie_emulation s') = match ie_pressed_keys s !! h with Some ks => if decide (ks = ∅) then we_repeat (ie_emulation s) else None | None => we_repeat (ie_emulation s) end).
Proof.
  unfold release_inputs, released. destruct (ie_pressed_keys s !! h) as [ks|] eqn:Ek.
  - pose proof (release_codes_fields release_key (drain ks) h None (s <| ie_pressed_keys := <[h := ∅]> (ie_pressed_keys s) |>)) as H.
    cbn zeta in H. rewrite repeat_after_keys in H. destruct (release_codes _ _ _ _ _) as [f1 s1]. destruct H as (E1&E2&E3). cbn [snd] in *.
    pose proof (release_tail h f1 s1) as H2.
    destruct (match ie_pressed_buttons s1 !! h with Some _ => _ | None => _ end) as [f2 s2].
    destruct (backend_consume release_modifiers h s2) as [r s3]. destruct H2 as (F1&F2&F3). cbn [snd].
    rewrite F1, F2, E1, E2. split_and!; try done. intros Hp. destruct (F3 Hp) as [Hp1 Hr]. destruct (E3 Hp1) as [Hp0 Hr0].
    split; [done|]. rewrite Hr, Hr0. cbn. case_decide as Hks.
    + subst ks. assert (drain ∅ = []) as ->; [|done]. apply Permutation_nil_r. by rewrite drain_spec, elements_empty.
    + destruct (drain ks) eqn:Ed; [|done]. by apply drain_nil in Ed.
  - pose proof (release_tail h None s) as H2.
    destruct (match ie_pressed_buttons s !! h with Some _ => _ | None => _ end) as [f2 s2].
    destruct (backend_consume release_modifiers h s2) as [r s3]. done.
Qed.

(** ** Operations *)

Lemma released_held h s s' k :
  ie_pressed_keys s' = released h (ie_pressed_keys s) -> held_by_peer s k ->
  (forall ks, ie_pressed_keys s !! h = Some ks -> k ∉ ks) -> held_by_peer s' k.
Proof.
  intros E (h'&ks&Hks&Hin) Hn. exists h', ks. rewrite E. unfold released. destruct (ie_pressed_keys s !! h) as [ks'|] eqn:Eh; [|done].
  rewrite lookup_insert_ne; [done|]. intros <-. rewrite Eh in Hks. simplify_eq. by apply (Hn ks).
Qed.

Lemma release_inputs_repeat_ok h s : repeat_ok s -> repeat_ok (snd (release_inputs drain h s)).
Proof.
  intros [Hd Hh]. destruct (release_inputs_fields h s) as (E1&E2&E3). split; [by rewrite E1, E2, released_dom|].
  intros Hp k Hk. destruct (E3 Hp) as [Hp0 Hr]. rewrite Hr in Hk. clear Hr.
  destruct (ie_pressed_keys s !! h) as [ks|] eqn:Ek; [case_decide; [|done]|];
    (eapply released_held; [exact E2|by apply Hh|]); intros ks' E'; rewrite Ek in E'; simplify_eq. set_solver.
Qed.

(** The keys of one handle change. *)
Lemma held_insert h ks ks' s k :
  ie_pressed_keys s !! h = Some ks -> held_by_peer s k -> (k ∈ ks -> k ∈ ks') ->
  held_by_peer (s <| ie_pressed_keys := <[h := ks']> (ie_pressed_keys s) |>) k.
Proof.
  intros Eh (h'&kk&Hks&Hin) Hsub. destruct (decide (h' = h)) as [->|Hne].
  - exists h, ks'. cbn. rewrite lookup_insert_eq. simplify_eq. eauto.
  - exists h', kk. cbn. by rewrite lookup_insert_ne.
Qed.

Lemma emulation_consume_repeat_ok e h s : repeat_ok s -> repeat_ok (snd (emulation_consume e h s)).
Proof.
  intros Hs. destruct e as [[t dx dy|t b st|t ax x|ax x]|[t k st|a b c d]]; cbn [emulation_consume];
    try (by apply backend_consume_repeat_ok).
  - unfold update_pressed_button. destruct (update_pressed _ _ _ _) as [[] tb]; [|by destruct Hs].
    apply backend_consume_repeat_ok; [by destruct Hs|done].
  - unfold update_pressed_keys, update_pressed. destruct (ie_pressed_keys s !! h) as [ks|] eqn:Ek; [|by destruct Hs].
    destruct Hs as [Hd Hh]. assert (h ∈ dom (ie_pressed_keys s)) as Hdom by by apply elem_of_dom.
    set (ks' := if (st =? 0)%N then ks ∖ {[k]} else ks ∪ {[k]}).
    set (s1 := s <| ie_pressed_keys := <[h := ks']> (ie_pressed_keys s) |>).
    assert (dom (ie_pressed_keys s1) = ie_handles s1) as Hd1 by (cbn; rewrite dom_insert_L, Hd; set_solver).
    assert (forall k', (k' ∈ ks -> k' ∈ ks') -> held_by_peer s k' -> held_by_peer s1 k') as Hkeep by (intros; by eapply held_insert).
    assert ((we_panicked (ie_emulation s) = None -> forall k', repeat_after (Keyboard (Key t k st)) (we_repeat (ie_emulation s)) = Some k' -> held_by_peer s1 k') ->
      repeat_ok (snd (backend_consume (Keyboard (Key t k st)) h s1))) as Hsend.
    { intros Hr. destruct (backend_consume_fields (Keyboard (Key t k st)) h s1) as (E1&E2&E3). split; [by rewrite E1, E2|].
      rewrite E3. intros Hp k' Hk'. apply consume_panicked in Hp as Hp0. rewrite consume_repeat in Hk' by done.
      destruct (Hr Hp0 k' Hk') as (h'&kk&?&?). exists h', kk. by rewrite E2. }
    subst ks'. destruct (st =? 0)%N eqn:Est; case_bool_decide as Hin.
    + apply Hsend. intros _ k'. cbn [repeat_after]. by rewrite Est.
    + split; [exact Hd1|]. intros Hp k' Hk'. apply Hkeep; [set_solver|by apply Hh].
    + apply Hsend. intros Hp k'. cbn [repeat_after]. rewrite Est. destruct (st =? 1)%N; [|by intros Hk'; apply Hkeep; [set_solver|apply Hh]].
      intros [= <-]. exists h, (ks ∪ {[k]}). cbn. rewrite lookup_insert_eq. set_solver.
    + split; [exact Hd1|]. intros Hp k' Hk'. apply Hkeep; [set_solver|by apply Hh].
Qed.

Lemma emulation_create_repeat_ok h s : repeat_ok s -> repeat_ok (snd (emulation_create h s)).
Proof.
  intros [Hd Hh]. unfold emulation_create. case_decide as Hin; [by split|]. split; cbn.
  - rewrite dom_insert_L, Hd. set_solver.
  - intros Hp k Hk. destruct (Hh Hp k Hk) as (h'&ks&Hks&?). exists h', ks. cbn. rewrite lookup_insert_ne; [done|].
    intros <-. apply Hin. rewrite <-Hd. by apply elem_of_dom.
Qed.

Lemma emulation_destroy_repeat_ok h s : repeat_ok s -> repeat_ok (emulation_destroy drain h s).
Proof.
  intros Hs. unfold emulation_destroy. pose proof (release_inputs_repeat_ok h s Hs) as [Hd Hh].
  destruct (release_inputs_fields h s) as (_&E2&_). destruct (release_inputs drain h s) as [r s1]. cbn [snd] in *.
  case_decide as Hin; [|by split]. split; cbn.
  - by rewrite dom_delete_L, Hd.
  - unfold unless_win_panicked. destruct (we_panicked (ie_emulation s1)) eqn:Hp; cbn; [by rewrite Hp|].
    intros _ k Hk. destruct (Hh eq_refl k Hk) as (h'&ks&Hks&Hin'). exists h', ks. cbn. rewrite lookup_delete_ne; [done|]. intros <-.
    rewrite E2 in Hks. unfold released in Hks. destruct (ie_pressed_keys s !! h) eqn:E; [|congruence].
    rewrite lookup_insert_eq in Hks. simplify_eq. by apply not_elem_of_empty in Hin'.
Qed.

Lemma win_reset_repeat_ok s :
  repeat_ok s -> repeat_ok (s <| ie_emulation := eb_terminate (ie_emulation s) |>).
Proof.
  intros [Hd Hh]. split; [done|]. cbn. unfold unless_win_panicked. destruct (we_panicked (ie_emulation s)) eqn:Hp; cbn; [by rewrite Hp|].
  intros _. by apply Hh.
Qed.

Lemma emulation_terminate_repeat_ok s : repeat_ok s -> repeat_ok (emulation_terminate drain s).
Proof.
  intros Hs. unfold emulation_terminate. generalize (drain (ie_handles s)) as hs. intros hs. apply win_reset_repeat_ok.
  revert s Hs. induction hs as [|h hs IH]; intros s Hs; [done|]. apply IH. by apply emulation_destroy_repeat_ok.
Qed.

Lemma win_center_same b :
  let b' := snd (win_center_pointer b) in we_repeat b' = we_repeat b /\ (we_panicked b' = None -> we_panicked b = None).
Proof.
  unfold win_center_pointer, call_refused. destruct (exec_bind _ _) as [[c|e]|[]|msg]; [|done..].
  destruct (we_refusals b) as [|[] rs]; done.
Qed.
Lemma emulation_center_repeat_ok h s : repeat_ok s -> repeat_ok (snd (emulation_center_pointer h s)).
Proof.
  intros [Hd Hh]. unfold emulation_center_pointer. cbn. unfold unless_win_panicked.
  destruct (we_panicked (ie_emulation s)) eqn:Hp; [split; [exact Hd|]; cbn; by rewrite Hp|].
  pose proof (win_center_same (ie_emulation s)) as [E1 E2]. destruct (win_center_pointer _) as [r b]. cbn in *.
  split; [exact Hd|]. cbn. rewrite E1. intros _. exact (Hh eq_refl).
Qed.

Lemma repeat_fires_same b : we_repeat (repeat_fires b) = we_repeat b /\ we_panicked (repeat_fires b) = we_panicked b.
Proof.
  unfold repeat_fires. destruct (we_repeat b) as [k|] eqn:Ek; [|by rewrite Ek]. destruct (we_repeat_failed b); [by rewrite Ek|].
  pose proof (send_input_same (key_event k 1) b) as (E1&E2&_). destruct (send_input _ _) as [[]b']; cbn in *; by rewrite E1, E2, Ek.
Qed.

(** In every interleaving of what peers do with the timer of the repeat task,
    the key that is repeated is held down by a peer. *)
Theorem repeated_key_held ops selector adapters refusals k :
  let s := win_run ops (emulation_new (winem_new selector adapters refusals)) in
  we_panicked (ie_emulation s) = None -> we_repeat (ie_emulation s) = Some k -> held_by_peer s k.
Proof.
  intros s Hp Hk. enough (repeat_ok s) as Hs by by apply Hs. clear Hp Hk.
  assert (repeat_ok (emulation_new (winem_new selector adapters refusals))) as H0 by by split. revert H0. subst s. generalize (emulation_new (winem_new selector adapters refusals)) as s.
  induction ops as [|o ops IH]; intros s Hs; [done|]. apply IH. destruct o as [[e h|h|h|h| |h]| |]; cbn [win_op emulation_op].
  - by apply emulation_consume_repeat_ok.
  - by apply emulation_create_repeat_ok.
  - by apply emulation_destroy_repeat_ok.
  - by apply release_inputs_repeat_ok.
  - by apply emulation_terminate_repeat_ok.
  - by apply emulation_center_repeat_ok.
  - destruct Hs as [Hd Hh], (repeat_fires_same (ie_emulation s)) as [E1 E2]. split; [done|]. cbn. rewrite E1, E2. exact Hh.
  - destruct Hs as [Hd Hh]. by split.
Qed.
End repeat.

(** ** Displays *)

(** The pointer is put into the display, without overflow. *)
Lemma rect_center_inside r :
  (small 1000000000 (rc_left r) -> small 1000000000 (rc_top r) -> small 1000000000 (rc_right r) -> small 1000000000 (rc_bottom r) ->
  rc_left r <= rc_right r -> rc_top r <= rc_bottom r ->
  exists x y, rect_center r = Ret (x, y) /\ rc_left r <= x <= rc_right r /\ rc_top r <= y <= rc_bottom r)%Z.
Proof.
  unfold small. intros Hl Ht Hr Hb Hlr Htb. unfold rect_center, half, i32_add, i32_sub.
  set (w := (rc_right r - rc_left r)%Z). set (h := (rc_bottom r - rc_top r)%Z).
  assert (0 <= Z.quot w 2 <= w)%Z as Hw by (rewrite Z.quot_div_nonneg by lia; split; [apply Z.div_pos; lia|apply Z.div_le_upper_bound; lia]).
  assert (0 <= Z.quot h 2 <= h)%Z as Hh by (rewrite Z.quot_div_nonneg by lia; split; [apply Z.div_pos; lia|apply Z.div_le_upper_bound; lia]).
  repeat (rewrite i32_arith_small by (unfold small; lia); cbn [exec_bind]). eexists _, _. split; [done|]. lia.
Qed.

(** ** Motion *)

(** A residual that is no number stays one, and the pointer no longer moves
    along that axis. *)
Lemma nan_stops_motion dx dy a :
  residual_x a = S754_nan ->
  let '(x, y, a') := accumulate dx dy a in x = 0%Z /\ residual_x a' = S754_nan.
Proof.
  intros E. unfold accumulate, accumulate_axis. rewrite E. change (SFadd 53 1024 S754_nan (f64_of_bits dx)) with S754_nan.
  destruct (float_as_i32 (SFadd _ _ (residual_y a) _)); by cbn [float_as_i32].
Qed.

Module windows_emulation_demo.
Definition left_display : Adapter :=
  mkAdapter true ["DISPLAY1"; "MONITOR\GSM82CD\5&39B6B5E7"]%string (Some (-1920, 0, 1920%N, 1080%N)%Z).
Definition right_display : Adapter := mkAdapter true ["DISPLAY2"]%string (Some (0, 0, 1920%N, 1080%N)%Z).
Definition start (selector : option string) : InputEmulation WinEm := emulation_new (winem_new selector [left_display; right_display] []).
Definition sent (ops : list EmulationOp) : list WinInput :=
  we_sent (ie_emulation (win_run elements (map OpLayer ops) (start None))).
Definition press (k : N) : WinOp := OpLayer (OpConsume (Keyboard (Key 0 k 1)) 1).
Definition release (k : N) : WinOp := OpLayer (OpConsume (Keyboard (Key 0 k 0)) 1).
Definition pressing : list WinOp := [OpLayer (OpCreate 1); press 30; OpRepeat; press 31; OpRepeat].

Lemma repeated_key_held_witness :
  let s := win_run elements pressing (start None) in
  we_repeat (ie_emulation s) = Some 31%N /\ held_by_peer s 31.
Proof.
  split; [vm_compute; reflexivity|]. apply (repeated_key_held elements); [done|vm_compute; reflexivity..].
Defined.

(** The display is chosen by its name or by the hardware in an identifier. *)
Example by_hardware : snd (win_center_pointer (ie_emulation (start (Some "hardware:gsm82cd"%string)))) =
  (ie_emulation (start (Some "hardware:gsm82cd"%string))) <| we_cursor := Some (-960, 540)%Z |>.
Proof. vm_compute. done. Qed.
Example by_name : we_cursor (snd (win_center_pointer (ie_emulation (start (Some "display2"%string))))) = Some (960, 540)%Z.
Proof. vm_compute. done. Qed.
Example ambiguous : fst (win_center_pointer (ie_emulation (start None))) = inr WeAmbiguous.
Proof. vm_compute. done. Qed.

(** Fractions add up. *)
Example fractions :
  let m := OpConsume (Pointer (Motion 0 4600877379321698714 13824249416176474522)) 1 in
  sent [OpCreate 1; m; m; m] = [MouseInput 1 (-1) 0 MfMove].
Proof. vm_compute. done. Qed.

(** After one motion that is no number the pointer does not move any more. *)
Example frozen_pointer :
  let m := OpConsume (Pointer (Motion 0 4617315517961601024 4617315517961601024)) 1 in
  sent [OpCreate 1; OpConsume (Pointer (Motion 0 9221120237041090560 9221120237041090560)) 1; m; m] = [].
Proof. vm_compute. done. Qed.

(** Releasing another key ends the repetition of the one that is still held. *)
Example repetition_lost :
  let s := win_run elements (pressing ++ [release 30; OpRepeat]) (start None) in
  we_repeat (ie_emulation s) = None /\ ie_pressed_keys s !! 1%N = Some {[31%N]}.
Proof. vm_compute. done. Qed.

(** A scroll by the smallest number cannot be negated. *)
Example smallest_scroll :
  we_panicked (ie_emulation (win_run elements (map OpLayer [OpCreate 1; OpConsume (Pointer (AxisDiscrete120 0 (-2147483648))) 1]) (start None)))
  = Some "attempt to negate with overflow"%string.
Proof. vm_compute. done. Qed.
End windows_emulation_demo.
